(* ===== verification/_CoqProject ===== *)
-Q . S2P
Prelude.v
GoString.v
GoPath.v
GoNum.v
GoTime.v
Calls.v
WorkflowGraph.v
WorkflowEngine.v
CronEngine.v
Protocol.v
Roots.v
Subscriptions.v
Sampling.v
Progress.v
StandardMethods.v
ChangeNotifications.v
UriTemplates.v
Resources.v
AuditLog.v
AuditFile.v
ContextWindow.v
BashPolicy.v
EditDiff.v
EditDistance.v
Fallback.v
Editor.v
ConfigValidate.v
ConfigRules.v
ConfigLoad.v
OAuth.v
OAuthHandlers.v
OAuthSafety.v
OAuthRevocation.v
TokenStores.v
AuthMiddleware.v
ServiceDiscovery.v
Connections.v
ToolDiscovery.v
MemoryGraph.v
Relay.v
AIProviders.v
AIManager.v
Kube.v
MemoryController.v
ServerController.v
PostgresController.v
Workflows.v
WorkflowStore.v
WorkflowJobs.v
WorkspaceVolumes.v
WorkflowScheduler.v
EventTriggers.v
TaskSchedulerController.v
