(* ===== verification/Prelude.v ===== *)
(** * m8e (matey): a verification development

    m8e orchestrates MCP servers on Kubernetes.  This library models the parts
    of it whose behaviour is decided by its own Go code rather than by the
    cluster, the network or a library, and proves what makes them correct, or
    shows where they are not.  Definitions are shallow: a Go function is a Rocq
    function, a struct a record, a method that changes its receiver returns the
    new one, [(T, error)] is [res E T], a map is a [gmap], a run-time panic that
    can happen is a value.  They keep the names of the source and are
    executable.

    ** Files

    The language and its standard library:
    - Prelude (this file): results of fallible functions, dynamic values of
      interface{} ([Value], with the panic of comparing uncomparable ones), maps
      and the orders in which [range] may visit them ([range_order],
      [delete_if]), and the automation of the development ([inv_res], the hint
      database m8e).
    - GoString: strings as byte strings; what the program uses of strings,
      unicode and unicode/utf8, with UTF-8 decoding as [range] does it.
    - GoPath: path/filepath on Unix, and what is read of a parsed URL.
    - GoNum: the 64-bit int, slice expressions with their panics, float64.
    - GoTime: time.ParseDuration, strconv.Atoi, and durations as the texts of
      whole seconds.
    - Calls: programs over a world that they change by calls each of which may
      fail, before or after its effect, with the rules of a weakest
      precondition ([wp]).

    Workflows (internal/scheduler, with the data of
    internal/crd/mcptaskscheduler.go):
    - WorkflowGraph: [buildDependencyGraph] and [ValidateWorkflowDefinition] of
      workflow_engine.go.
    - WorkflowEngine: the rest of workflow_engine.go ([ExecuteWorkflow],
      [executeStepsInOrder], [executeStep], [shouldSkipStep]) and the
      TemplateEngine of tool_executor.go.
    - CronEngine: cron_engine.go over the class [CronLib] of a cron library with
      its laws [CronLaws].
    - Workflows: the data that the next four share.
    - WorkflowStore: workflow_store.go over the tables of scripts/init_db.sql.
    - WorkflowJobs: k8s_workflow_executor.go and k8s_job_manager.go of
      internal/task_scheduler: the script of a workflow, and its job.
    - WorkspaceVolumes: pvc_mount_manager.go and workspace_cleanup.go.
    - WorkflowScheduler: workflow_scheduler.go over all of these.
    - EventTriggers: the watching of events and the jobs that they start, of
      internal/controllers/mcptaskscheduler_controller.go.

    The MCP protocol (internal/protocol):
    - Protocol: messages, their validation, errors, capabilities and the method
      tables (protocol.go, errors.go).
    - Roots, Subscriptions, Sampling, Progress, ChangeNotifications: the managers
      of roots.go, subscriptions.go, sampling.go, progress.go and
      change_notifications.go, one file each.
    - StandardMethods: standard_methods.go, the handshake over the root manager.
    - UriTemplates: uri_templates.go.
    - Resources: resources.go, resources shared by pointer and their cache.

    The audit log (internal/audit):
    - AuditLog: entries, filters, the interface of backends with its laws, the
      memory backend and the loggers (helpers.go, backend.go, memory_backend.go,
      audit.go, logger.go).
    - AuditFile: file_backend.go over a file system whose calls may fail.

    Editing and context (internal/edit, internal/context, internal/mcp):
    - ContextWindow: the items and the token budget of internal/context/manager.go.
    - BashPolicy: internal/mcp/bash_policy.go.
    - EditDiff: internal/edit/diff.go, SEARCH/REPLACE diffs.
    - EditDistance, Fallback: internal/edit/fallback.go, the edit distance and the
      five strategies that use it.
    - Editor: internal/edit/editor.go over a file system whose calls may fail.

    Configuration (internal/config):
    - ConfigValidate: [findDependencyCycles] and [lineIndex.lookup] of
      validate.go.
    - ConfigRules: the rules of [ValidateConfig] and the collection of all
      problems with their lines.
    - ConfigLoad: loading, expansion of variables, overrides and accessors.

    Authentication (internal/auth):
    - OAuth, OAuthHandlers: the authorization server, its data and core
      operations (oauth.go) and its HTTP handlers (handlers.go); [serve] is one
      event of its life and [run] a list of them.
    - OAuthSafety: the store's transitions as the relation [store_step], which
      every event refines, and the theorems that follow from it.
    - OAuthRevocation: servers equal up to the Revoked marks of their tokens, as
      an equivalence with [Proper] instances.
    - TokenStores: token_store.go and memory_store.go behind one interface
      ([TokenStoreOps], [TokenStoreLaws], [RevocationLaws]).
    - AuthMiddleware: middleware.go, functions from handlers to handlers.

    The proxy (internal/discovery, internal/server):
    - ServiceDiscovery: service_discovery.go, the registry of services over the
      events of an informer.
    - Connections: connection_manager.go, its heap of connections, goroutines and
      mutex.
    - ToolDiscovery: tool_discovery.go, tool_cache.go, connection_stats.go,
      id_generator.go and proxy_metrics.go.
    - Relay: bidirectional_relay.go with its callers, over every interleaving.

    Services:
    - MemoryGraph: internal/memory/memory_store.go over the tables of the schema of
      migrations.go.
    - AIProviders, AIManager: the providers, their streams and the manager of
      internal/ai.

    Controllers (internal/controllers):
    - Kube: the objects of Kubernetes that the controllers create, an API server
      whose every call may fail before or after its effect, and the shared
      operations (base_reconciler.go, controller_utils.go and the library's
      CreateOrUpdate).
    - MemoryController, ServerController, PostgresController:
      mcpmemory_controller.go, mcpserver_controller.go and
      mcppostgres_controller.go.
    - TaskSchedulerController: mcptaskscheduler_controller.go over Kube,
      EventTriggers, WorkflowJobs and WorkflowScheduler.

    ** How the parts interact

    A configuration is loaded (ConfigLoad) and checked (ConfigRules, with the
    cycle search of ConfigValidate).  The controllers turn resources into
    deployments and services (Kube and the controllers' files); the discovery of
    services (ServiceDiscovery) makes endpoints of those services, which its
    handler, the connection manager (Connections), connects to; that the
    discovery reads back what the controller wrote is
    [reconciled_server_discovered].  The proxy passes a request through
    AuthMiddleware, which asks the server of OAuth to validate the token and
    checks its scope, and relays the messages between server and client (Relay).
    The endpoints of OAuthHandlers create, rotate, revoke and read the same
    server's clients, codes and tokens.  The workflow engine validates a
    definition, orders its steps into levels (WorkflowGraph) and runs each
    level's steps concurrently, with the outputs of finished steps in the template
    engine.  The scheduler keeps the cron engine's jobs, the resource that lists
    the workflows and their store in step (WorkflowScheduler over CronEngine and
    WorkflowStore); a cron job runs its workflow as a Kubernetes job
    (WorkflowJobs), with a claim for its workspace (WorkspaceVolumes), and the
    scheduler records what became of it.  The controller of the task scheduler
    (TaskSchedulerController) has a scheduler of its own for the same resource,
    which it synchronises and whose records it overwrites at every reconcile, and
    watches for events that start workflows (EventTriggers).
    The editor applies the diffs of EditDiff to files, with Fallback for texts
    that are not found; BashPolicy guards what the execute_bash tool may run.
    The audit logger works over any lawful backend; the managers of the protocol
    share the messages of Protocol.

    ** What is shown

    - WorkflowGraph: an accepted graph lists every step once, in a level after
      its dependencies' ([buildDependencyGraph_sound]); a graph is accepted
      exactly for distinct names and existing, acyclic dependencies
      ([_complete]); what each rejection means ([_errors]); the map order
      changes the levels only up to permutation ([_order_irrelevant]).
    - WorkflowEngine: under every interleaving of a level's goroutines, channel
      receives and cancellation, a step is recorded at most once and only after
      its dependencies ([ExecuteWorkflow_order]), a successful execution
      recorded every step, and what its failure count is ([_success]), no schedule runs for ever
      ([level_terminates]) and every definition has a complete run
      ([ExecuteWorkflow_runs]).
    - CronEngine: enabled jobs and entries of the library correspond one to one
      ([one_entry_per_enabled_job]); the retry loop ([wrappedHandler_spec]); a job
      added disabled and enabled is scheduled twice ([add_disabled_then_enable]).
    - WorkflowScheduler: whatever is synchronised, the library runs exactly the
      workflows that are to run, once each ([library_follows_sync]), but not after
      a restart ([rescheduled_runs_on]), when the resource is overwritten from the
      store ([start_takes_stored]); the history keeps the last ten executions of
      each workflow ([history_kept]), and of long names only failures
      ([long_names_time_out], over [scheduled_status] of WorkflowJobs).
      WorkflowStore: what is stored is read back up to what has no column
      ([store_roundtrip]).  WorkflowJobs: for the tools and texts it
      names, the shell reads the script as the programs of the steps
      ([script_commands]).  WorkspaceVolumes: no claim of a
      workspace is ever found again or deleted ([workspaces_kept_unreachable]).
    - EventTriggers: under orderly lists every matching event gets one job
      ([each_event_once]); otherwise one second has one job ([one_job_per_second])
      and old events may fire at every poll ([old_events_fire_again]).
    - Protocol: a message is valid exactly if it is a request, a notification or a
      response with one of result and error ([ValidateMessage_typed]).  Roots:
      access is confined to the roots ([CheckRootAccess_confined]).
      Subscriptions: an update reaches exactly the clients that asked for it
      ([NotifyResourceUpdate_delivers]).  Sampling: nothing that needs approval is
      handled without one ([handled_only_approved]).  StandardMethods: the
      handshake comes first ([handshake_first]), nothing that clients send makes a
      root writable ([client_roots_read_only]), every version gets one answer
      ([version_negotiated]).  Resources: the cache is transparent when resources
      are cached uniformly under their own URI ([cache_transparent]), and embedding
      ends unless a fallback is the strategy itself ([embed_ends_iff]).
    - AuditFile: what is stored is read back, newest first, with only the oldest
      missing ([file_log_end_to_end]), and the log is silent for ever after one
      failed write ([failed_store_is_final]).
    - ContextWindow: the token limit holds through every operation
      ([window_within_budget]).  BashPolicy: of a class of shell scripts
      exactly those are accepted that name programs on the allowlist only
      ([Check_allowlist]).  EditDiff: the parser accepts exactly
      an inductive grammar ([ParseDiff_grammar]), and everything that applying a
      block can do ([applyBlock_spec]).  EditDistance: the matrix computes the
      least cost of an edit script ([editDistance_least]).  Editor: groups of
      edits and single writes are all or nothing ([ApplyMultiEdit_all_or_nothing],
      [WriteFile_atomic]).
    - ConfigRules: the list of problems is empty exactly for the configurations
      that pass ([collect_agrees]).
    - OAuth*: a code is redeemed at most once along any run
      ([code_redeemed_once]); the grants on every request ([code_grant_spec],
      [refresh_rotates]); an invariant of every reachable store ([run_store_ok]);
      revocation is unobservable ([revocation_unobservable]).  TokenStores: what
      any lawful store guarantees ([stored_token_lives]).  AuthMiddleware: exactly
      who passes a scoped route ([scoped_route_guard]).
    - ToolDiscovery: which server a tool is routed to ([freshTools_spec]), how old
      that answer may be ([lookup_fresh]), when the discovery of a server succeeds
      ([discoverServerTools_spec]), and when the recorded status is the one sent
      ([recorded_status]).
    - Connections: through every interleaving the manager has the connections of
      the services in the cluster ([connections_follow_cluster]), and its
      goroutines end ([goroutines_terminate]).  Relay: no channel is closed twice
      or written to after it was closed ([relay_safe]), the client gets the
      messages its mode lets through and then the response ([relay_stream]), its
      replies reach the server ([client_reply_reaches_server]), and the response
      with the client's id is recognised ([response_recognised]).
    - MemoryGraph: the tables refine an abstract graph, all or nothing, whatever
      calls fail ([store_refines_graph]).
    - AIProviders: text, reasoning and tool calls survive the streams of all four
      providers ([stream_roundtrip]).  AIManager: two health checks find a
      provider that answers, if there is one ([health_recovers]).
    - Controllers: whatever the calls come to, phases move along the edges of the
      state machine ([memory_phases_safe]) and objects are as they were or as
      specified ([server_reconciled], [postgres_reconciled]); when calls work, a
      memory server starts ([memory_starts]).  TaskSchedulerController: likewise
      ([scheduler_phases_safe], [scheduler_comes_up]); what a running reconcile
      does to cron jobs and recorded executions ([running_rewrites_history]), and
      where the concurrency lies ([concurrency_bounds]).

    Beside these, each file has Examples and theorems of behaviour that looks
    unintended, each with a comment that says so.

    ** Fuel and bounds

    Loops over lists are structural.  Where Go loops on a condition the model
    has fuel and a theorem that it never runs out: [sortLevels] one unit per
    step (each level removes one), [dfs] one per server (each call turns a white
    server gray), [lookupParents] the length of the path (each iteration
    shortens it); scanners of strings have one unit per byte.  The
    recursion of [EmbedResourceInPrompt] may go on for ever; [embed_ends_iff] says
    when, and that two units are enough otherwise.  The retry loops
    count attempts, as the code does.  Runs of servers, schedules and
    interleavings are lists of events or actions, and the theorems hold for every
    list.  Counters bounded by the number of items are in Z without wrap-around;
    sums and indices that can leave 64 bits wrap as GoNum says; times are in Z,
    seconds or nanoseconds.

    ** What is left to parameters

    net/url, regexp, SHA-256 with base64url, MD5, random bytes, text/template,
    encoding/json and the MCP tool call are arguments of the definitions that use
    them, or fields of a record or class such as [TokenGenerator], [StepEnv],
    [Codec] and [JobLib];
    robfig/cron is a class with laws, instantiated by [MapCron] in the witnesses,
    as are the sort of the context window and the backends of the audit log.  The
    operating system, the database and the API server of Kubernetes are state
    with documented operations whose every call may fail, as an oracle that the
    theorems quantify over decides.  A handler that runs under one lock is one
    step; where the code lets go of its lock between two parts, they are two.

    ** What is not modelled

    Log lines, HTTP and JSON rendering, the HTML approval page, metrics, deep
    copies of resources, the transports, the routing of the proxy and of the Matey
    MCP server, the SQL of the audit log and of the storage of executions, the
    reading of files, git and the network behind @-mentions, tree-sitter, and the
    command line with compose and the installer, which are input and output.
    Full-text search of the memory store is not modelled, and neither are the
    controller of the proxy, which builds objects as those that are modelled do,
    nor running a scheduled workflow in the process of the scheduler for want of
    an executor. *)
From Stdlib Require Export ZArith Lia Ascii.
From Stdlib Require Import Qcanon.
From stdpp Require Export prelude numbers gmap strings list list_numbers sorting relations.

(** stdpp keeps [String.append] folded; here it computes on constructors. *)
#[global] Arguments String.append !_ _ / : simpl nomatch.

(** ** Results of Go functions that return [(T, error)] *)

(** A Go function returning [(T, error)] is modelled by [res E T]: [Ok v] is
    the value with a nil error and [Err e] a non-nil error. *)
Inductive res (E A : Type) : Type :=
  | Ok (a : A)
  | Err (e : E).
Arguments Ok {E A} a.
Arguments Err {E A} e.

#[export] Instance res_ret {E} : MRet (res E) := λ A a, Ok a.
#[export] Instance res_bind {E} : MBind (res E) := λ A B f m,
  match m with Ok a => f a | Err e => Err e end.
#[export] Instance res_fmap {E} : FMap (res E) := λ A B f m,
  match m with Ok a => Ok (f a) | Err e => Err e end.

(** [guard_else c e] is the early return [if !c { return e }]. *)
Definition guard_else {E : Type} (c : bool) (e : E) : res E unit :=
  if c then Ok tt else Err e.

Definition is_ok {E A : Type} (r : res E A) : bool :=
  match r with Ok _ => true | Err _ => false end.

Section res_lemmas.
Context {E A B : Type}.
Implicit Types (m : res E A) (f : A → res E B).

Lemma res_bind_Ok m f b :
  m ≫= f = Ok b ↔ ∃ a, m = Ok a ∧ f a = Ok b.
Proof. destruct m; naive_solver. Qed.

Lemma res_bind_Err m f e :
  m ≫= f = Err e ↔ m = Err e ∨ ∃ a, m = Ok a ∧ f a = Err e.
Proof. destruct m; naive_solver. Qed.

Lemma guard_else_Ok c (e : E) u : guard_else c e = Ok u ↔ c = true.
Proof. destruct c, u; naive_solver. Qed.

Lemma guard_else_Err c (e e' : E) : guard_else c e = Err e' ↔ c = false ∧ e = e'.
Proof. destruct c; naive_solver. Qed.
End res_lemmas.

(** ** Values of type [interface{}] *)

(** The dynamic values the program stores in an [interface{}]: what
    encoding/json decodes and the integers the code boxes itself.  A float64
    is the rational it denotes (no NaN or infinity is ever stored). *)
Inductive Value : Type :=
  | VNil
  | VBool (b : bool)
  | VInt (z : Z)
  | VInt64 (z : Z)
  | VFloat64 (q : Qc)
  | VString (s : string)
  | VSlice (l : list Value)
  | VMap (m : list (string * Value)).

(** Whether values of the dynamic type can be compared with [==]. *)
Definition comparable (v : Value) : bool :=
  match v with VSlice _ | VMap _ => false | _ => true end.

(** [a == b] on interfaces.  [None] is the run-time panic of comparing two
    values of one uncomparable type; different dynamic types are unequal. *)
Definition iface_eq (a b : Value) : option bool :=
  match a, b with
  | VNil, VNil => Some true
  | VBool x, VBool y => Some (bool_decide (x = y))
  | VInt x, VInt y | VInt64 x, VInt64 y => Some (bool_decide (x = y))
  | VFloat64 x, VFloat64 y => Some (bool_decide (x = y))
  | VString x, VString y => Some (bool_decide (x = y))
  | VSlice _, VSlice _ | VMap _, VMap _ => None
  | _, _ => Some false
  end.

(** ** Iteration over Go maps *)

(** [for k, v := range m] visits every key once, in an order the language
    leaves open.  A definition that depends on the order takes it as an
    argument, and its theorems hold for each [order] with [range_order]. *)
Definition range_order {K V} `{Countable K} (m : gmap K V) (order : list K) : Prop :=
  order ≡ₚ (map_to_list m).*1.

(** [for k, v := range m { if p(v) { delete(m, k) } }] keeps the entries that
    fail [p], in whatever order they are visited. *)
Definition delete_if {K V} `{Countable K} (p : V → bool) (m : gmap K V) : gmap K V :=
  filter (λ kv, p kv.2 = false) m.

Section range_lemmas.
Context {K V : Type} `{Countable K}.
Implicit Types (m : gmap K V) (p : V → bool).

Lemma range_order_elem m order k :
  range_order m order → k ∈ order ↔ is_Some (m !! k).
Proof.
  intros Ho. rewrite Ho. rewrite list_elem_of_fmap. split.
  - intros [[k' v] [-> Hkv]]. apply elem_of_map_to_list in Hkv. eauto.
  - intros [v Hv]. exists (k, v). by rewrite elem_of_map_to_list.
Qed.

Lemma range_order_NoDup m order : range_order m order → NoDup order.
Proof. intros ->. apply NoDup_fst_map_to_list. Qed.

Lemma delete_if_lookup_Some p m k v :
  delete_if p m !! k = Some v ↔ m !! k = Some v ∧ p v = false.
Proof. apply map_lookup_filter_Some. Qed.

Lemma delete_if_lookup_kept p m k v :
  m !! k = Some v → p v = false → delete_if p m !! k = Some v.
Proof. rewrite delete_if_lookup_Some. auto. Qed.

Lemma delete_if_lookup_gone p m k v :
  m !! k = Some v → p v = true → delete_if p m !! k = None.
Proof.
  intros Hm Hp. apply eq_None_not_Some. intros [w Hw].
  apply delete_if_lookup_Some in Hw as [??]. congruence.
Qed.

Lemma delete_if_lookup_None p m k :
  m !! k = None → delete_if p m !! k = None.
Proof.
  intros Hm. apply eq_None_not_Some. intros [w Hw].
  apply delete_if_lookup_Some in Hw as [??]. congruence.
Qed.

Lemma delete_if_idemp p m : delete_if p (delete_if p m) = delete_if p m.
Proof.
  apply map_eq. intros k. apply option_eq. intros v.
  rewrite !delete_if_lookup_Some. naive_solver.
Qed.
End range_lemmas.

(** ** Filters that keep everything, or nothing *)

Lemma filter_none {A} (P : A → Prop) `{∀ x, Decision (P x)} l : Forall (λ x, ¬ P x) l → filter P l = [].
Proof. induction 1 as [|x l Hx _ IH]; [done|]. by rewrite filter_cons_False. Qed.

Lemma filter_every {A} (P : A → Prop) `{∀ x, Decision (P x)} l : Forall P l → filter P l = l.
Proof. induction 1 as [|x l Hx _ IH]; [done|]. by rewrite filter_cons_True, IH. Qed.

(** ** Automation *)

(** [m8e] collects the lemmas that close the routine lookup and result goals. *)
Create HintDb m8e.
#[export] Hint Resolve delete_if_lookup_kept delete_if_lookup_gone
  delete_if_lookup_None range_order_NoDup : m8e.
#[export] Hint Rewrite @res_bind_Ok @res_bind_Err @guard_else_Ok @guard_else_Err
  @delete_if_lookup_Some : m8e.

(** [inv_res] takes apart a hypothesis that a chain of fallible calls
    succeeded, or failed, into the facts about each call. *)
Ltac inv_res :=
  repeat match goal with
  | H : Ok _ = Ok _ |- _ => injection H as H; try subst
  | H : Err _ = Err _ |- _ => injection H as H; try subst
  | H : Ok _ = Err _ |- _ => discriminate H
  | H : Err _ = Ok _ |- _ => discriminate H
  | H : _ ≫= _ = Ok _ |- _ => apply res_bind_Ok in H; destruct H as (? & ? & ?)
  | H : guard_else _ _ = Ok _ |- _ => apply guard_else_Ok in H
  | H : guard_else _ _ = Err _ |- _ => apply guard_else_Err in H; destruct H as [? ?]
  end.

(** [case_if] splits on the condition of an [if] or the scrutinee of a [match]
    in a hypothesis or the goal, keeping the equation. *)
Ltac case_if :=
  match goal with
  | H : context [if ?c then _ else _] |- _ => destruct c eqn:?
  | |- context [if ?c then _ else _] => destruct c eqn:?
  | H : context [match ?c with _ => _ end] |- _ => destruct c eqn:?
  | |- context [match ?c with _ => _ end] => destruct c eqn:?
  end.
