(* ===== verification/GoString.v ===== *)
(** * Go strings

    A Go string is a sequence of bytes; a Rocq [string] is a sequence of 8-bit
    [ascii] characters, so one is modelled by the other.  This file defines the
    operations of package strings, unicode and unicode/utf8 the program uses,
    with the lemmas the components share.  [range] over a string, []rune(s) and
    the space tests decode UTF-8 exactly as the language does, an invalid byte
    being the rune U+FFFD of width one. *)
From stdpp Require Import pretty.
From S2P Require Import Prelude.

#[local] Open Scope nat_scope.

(** ** Slicing, prefixes, search *)

(** [s[:n]] and [s[n:]] for [n ≤ len(s)]. *)
Fixpoint stake (n : nat) (s : string) : string :=
  match n, s with
  | S n', String c s' => String c (stake n' s')
  | _, _ => ""
  end.

Fixpoint sdrop (n : nat) (s : string) : string :=
  match n, s with
  | S n', String _ s' => sdrop n' s'
  | _, _ => s
  end.

(** strings.HasPrefix and strings.TrimPrefix. *)
Fixpoint HasPrefix (s p : string) : bool :=
  match p, s with
  | "", _ => true
  | String c p', String d s' => Ascii.eqb c d && HasPrefix s' p'
  | _, _ => false
  end.

Definition TrimPrefix (s p : string) : string :=
  if HasPrefix s p then sdrop (String.length p) s else s.

(** strings.HasSuffix and strings.TrimSuffix. *)
Definition HasSuffix (s p : string) : bool :=
  (String.length p <=? String.length s) &&
  String.eqb (sdrop (String.length s - String.length p) s) p.

Definition TrimSuffix (s p : string) : string :=
  if HasSuffix s p then stake (String.length s - String.length p) s else s.

(** strings.Index: the first position where [sub] occurs. *)
Fixpoint Index (s sub : string) : option nat :=
  if HasPrefix s sub then Some 0
  else match s with
       | "" => None
       | String _ s' => S <$> Index s' sub
       end.

Definition Contains (s sub : string) : bool := bool_decide (is_Some (Index s sub)).

(** strings.IndexByte and strings.LastIndexByte. *)
Fixpoint IndexByte (s : string) (c : ascii) : option nat :=
  match s with
  | "" => None
  | String d s' => if Ascii.eqb d c then Some 0 else S <$> IndexByte s' c
  end.

Fixpoint LastIndexByte (s : string) (c : ascii) : option nat :=
  match s with
  | "" => None
  | String d s' =>
      match LastIndexByte s' c with
      | Some i => Some (S i)
      | None => if Ascii.eqb d c then Some 0 else None
      end
  end.

(** strings.Count(s, sep) for a one-byte [sep]. *)
Fixpoint CountByte (s : string) (c : ascii) : nat :=
  match s with
  | "" => 0
  | String d s' => (if Ascii.eqb d c then 1 else 0) + CountByte s' c
  end.

(** strings.Split(s, sep) for a one-byte [sep]: the first line and the rest. *)
Fixpoint splitByte (s : string) (c : ascii) : string * list string :=
  match s with
  | "" => ("", [])
  | String d s' =>
      let '(l, ls) := splitByte s' c in
      if Ascii.eqb d c then ("", l :: ls) else (String d l, ls)
  end.

Definition SplitByte (s : string) (c : ascii) : list string :=
  let '(l, ls) := splitByte s c in l :: ls.

(** strings.SplitN(s, sep, 2) for a one-byte [sep]. *)
Definition SplitByte2 (s : string) (c : ascii) : list string :=
  match IndexByte s c with
  | Some i => [stake i s; sdrop (S i) s]
  | None => [s]
  end.

(** strings.Join. *)
Fixpoint Join (l : list string) (sep : string) : string :=
  match l with
  | [] => ""
  | [x] => x
  | x :: l' => x +:+ sep +:+ Join l' sep
  end.

(** strings.ReplaceAll(s, old, new) for a one-byte [old]. *)
Fixpoint ReplaceByte (s : string) (c : ascii) (new : string) : string :=
  match s with
  | "" => ""
  | String d s' =>
      if Ascii.eqb d c then new +:+ ReplaceByte s' c new
      else String d (ReplaceByte s' c new)
  end.

Definition newline : ascii := "010"%char.
Definition carriageReturn : ascii := "013"%char.

(** ** UTF-8 *)

Definition rune : Type := N.
Definition RuneError : rune := 65533%N.

Definition byteN (c : ascii) : N := N_of_ascii c.

(** A continuation byte, or one in a narrower range. *)
Definition inRange (lo hi : N) (c : ascii) : bool := ((lo <=? byteN c) && (byteN c <=? hi))%N.
Definition cont (c : ascii) : bool := inRange 128 191 c.

(** The six low bits of a continuation byte. *)
Definition low6 (c : ascii) : N := (byteN c mod 64)%N.

(** What the first byte of a sequence asks for: its length and the range of
    the second byte (the acceptRanges table of unicode/utf8). *)
Inductive Lead := LAscii | LInvalid | LSeq (len : nat) (lo hi : N).

Definition lead (c : ascii) : Lead :=
  let b := byteN c in
  (if b <? 128 then LAscii
   else if b <? 194 then LInvalid
   else if b <? 224 then LSeq 2 128 191
   else if b =? 224 then LSeq 3 160 191
   else if b =? 237 then LSeq 3 128 159
   else if b <? 240 then LSeq 3 128 191
   else if b =? 240 then LSeq 4 144 191
   else if b <? 244 then LSeq 4 128 191
   else if b =? 244 then LSeq 4 128 143
   else LInvalid)%N.

Definition byte1 (c : ascii) : string := String c "".

(** The runes of a string, each with the bytes it was decoded from. *)
Fixpoint segments (s : string) : list (rune * string) :=
  match s with
  | "" => []
  | String b0 s1 =>
      match lead b0, s1 with
      | LAscii, _ => (byteN b0, byte1 b0) :: segments s1
      | LSeq 2 lo hi, String b1 s2 =>
          if inRange lo hi b1
          then ((byteN b0 mod 32) * 64 + low6 b1, String b0 (byte1 b1))%N :: segments s2
          else (RuneError, byte1 b0) :: segments s1
      | LSeq 3 lo hi, String b1 (String b2 s3) =>
          if inRange lo hi b1 && cont b2
          then (((byteN b0 mod 16) * 64 + low6 b1) * 64 + low6 b2,
                String b0 (String b1 (byte1 b2)))%N :: segments s3
          else (RuneError, byte1 b0) :: segments s1
      | LSeq 4 lo hi, String b1 (String b2 (String b3 s4)) =>
          if inRange lo hi b1 && cont b2 && cont b3
          then ((((byteN b0 mod 8) * 64 + low6 b1) * 64 + low6 b2) * 64 + low6 b3,
                String b0 (String b1 (String b2 (byte1 b3))))%N :: segments s4
          else (RuneError, byte1 b0) :: segments s1
      | _, _ => (RuneError, byte1 b0) :: segments s1
      end
  end.

(** []rune(s). *)
Definition runes (s : string) : list rune := (segments s).*1.

(** utf8.ValidString: no byte was decoded to RuneError on its own. *)
Definition Valid (s : string) : bool :=
  forallb (λ seg, negb ((seg.1 =? RuneError)%N && (String.length seg.2 =? 1)%nat)) (segments s).

(** strings.Builder.WriteRune: the UTF-8 encoding of a rune. *)
Definition chr (n : N) : ascii := ascii_of_N n.

Definition encodeRune (r : rune) : string :=
  (if r <? 128 then byte1 (chr r)
   else if r <? 2048 then String (chr (192 + r / 64)) (byte1 (chr (128 + r mod 64)))
   else if r <? 65536 then
     String (chr (224 + r / 4096))
       (String (chr (128 + r / 64 mod 64)) (byte1 (chr (128 + r mod 64))))
   else
     String (chr (240 + r / 262144))
       (String (chr (128 + r / 4096 mod 64))
          (String (chr (128 + r / 64 mod 64)) (byte1 (chr (128 + r mod 64))))))%N.

Definition concatS (l : list string) : string := foldr String.append "" l.

Definition encodeRunes (l : list rune) : string := concatS (encodeRune <$> l).

(** unicode.IsSpace. *)
Definition IsSpace (r : rune) : bool :=
  bool_decide (r ∈ [9; 10; 11; 12; 13; 32; 133; 160; 5760; 8232; 8233; 8239; 8287; 12288]%N) ||
  ((8192 <=? r) && (r <=? 8202))%N.

(** ** Spaces *)

Fixpoint dropSpace (l : list (rune * string)) : list (rune * string) :=
  match l with
  | [] => []
  | (r, b) :: l' => if IsSpace r then dropSpace l' else l
  end.

(** strings.TrimSpace. *)
Definition TrimSpace (s : string) : string :=
  concatS (reverse (dropSpace (reverse (dropSpace (segments s))))).*2.

(** strings.Fields: the maximal runs of non-space runes; [cur] is the run
    being read, as bytes. *)
Fixpoint fieldsAux (l : list (rune * string)) (cur : string) : list string :=
  match l with
  | [] => if String.eqb cur "" then [] else [cur]
  | (r, b) :: l' =>
      if IsSpace r
      then (if String.eqb cur "" then fieldsAux l' "" else cur :: fieldsAux l' "")
      else fieldsAux l' (cur +:+ b)
  end.

Definition Fields (s : string) : list string := fieldsAux (segments s) "".

(** ** Case *)

(** strings.ToLower and strings.ToUpper, as far as comparisons with ASCII
    strings can tell: ASCII letters change case, the non-ASCII runes whose
    simple mapping is an ASCII letter become that letter, and every other rune
    stays (Go may map it to another non-ASCII rune). *)
Definition toLowerRune (r : rune) : rune :=
  (if (65 <=? r) && (r <=? 90) then r + 32
   else if r =? 304 then 105 else if r =? 8490 then 107 else r)%N.

Definition toUpperRune (r : rune) : rune :=
  (if (97 <=? r) && (r <=? 122) then r - 32
   else if r =? 305 then 73 else if r =? 383 then 83 else r)%N.

Definition ToLower (s : string) : string := encodeRunes (toLowerRune <$> runes s).
Definition ToUpper (s : string) : string := encodeRunes (toUpperRune <$> runes s).

(** ** Lemmas *)

Section append.
Implicit Types (s t u : string).

Lemma sapp_nil_r s : s +:+ "" = s.
Proof. induction s as [|c s IH]; simpl; [done|by rewrite IH]. Qed.

Lemma sapp_assoc s t u : s +:+ (t +:+ u) = (s +:+ t) +:+ u.
Proof. induction s as [|c s IH]; simpl; [done|by rewrite IH]. Qed.

Lemma slength_app s t : String.length (s +:+ t) = String.length s + String.length t.
Proof. induction s as [|c s IH]; simpl; [done|by rewrite IH]. Qed.

Lemma sapp_cancel_l s t u : s +:+ t = s +:+ u → t = u.
Proof. induction s as [|c s IH]; simpl; [done|]. intros [= ?]. auto. Qed.

Lemma stake_sdrop n s : stake n s +:+ sdrop n s = s.
Proof. revert s. induction n as [|n IH]; intros [|c s]; simpl; [done..|]. by rewrite IH. Qed.

Lemma slength_stake n s : n ≤ String.length s → String.length (stake n s) = n.
Proof.
  revert s. induction n as [|n IH]; intros [|c s]; simpl; try done; try lia.
  intros ?. rewrite IH; lia.
Qed.

Lemma slength_sdrop n s : String.length (sdrop n s) = String.length s - n.
Proof. revert s. induction n as [|n IH]; intros [|c s]; simpl; [done..|]. by rewrite IH. Qed.

Lemma stake_app s t : stake (String.length s) (s +:+ t) = s.
Proof. induction s as [|c s IH]; simpl; [by destruct t|by rewrite IH]. Qed.

Lemma sdrop_app s t : sdrop (String.length s) (s +:+ t) = t.
Proof. induction s as [|c s IH]; simpl; [by destruct t|done]. Qed.

Lemma sdrop_0 s : sdrop 0 s = s.
Proof. by destruct s. Qed.

Lemma sdrop_add n m s : sdrop n (sdrop m s) = sdrop (m + n) s.
Proof.
  revert s. induction m as [|m IH]; intros s; [by rewrite sdrop_0|].
  destruct s as [|c s]; simpl; [by destruct n|apply IH].
Qed.

Lemma sdrop_all n s : String.length s ≤ n → sdrop n s = "".
Proof.
  revert s. induction n as [|n IH]; intros [|c s]; simpl; try done; try lia.
  intros ?. apply IH. lia.
Qed.
End append.

Section search.
Implicit Types (s t p sub : string) (c : ascii).

Lemma HasPrefix_spec s p : HasPrefix s p = true ↔ ∃ t, s = p +:+ t.
Proof.
  revert s. induction p as [|c p IH]; intros s.
  - destruct s; simpl; naive_solver.
  - destruct s as [|d s]; simpl; [split; [done|by intros [? ?]]|].
    rewrite andb_true_iff, Ascii.eqb_eq, IH. split.
    + intros [-> [t ->]]. by exists t.
    + intros [t [= -> ->]]. eauto.
Qed.

Lemma HasPrefix_app p t : HasPrefix (p +:+ t) p = true.
Proof. apply HasPrefix_spec. eauto. Qed.

Lemma TrimPrefix_app p t : TrimPrefix (p +:+ t) p = t.
Proof. unfold TrimPrefix. by rewrite HasPrefix_app, sdrop_app. Qed.

(** [Index] finds an occurrence, the first one, whenever there is one. *)
Lemma Index_Some s sub i :
  Index s sub = Some i →
  i + String.length sub ≤ String.length s ∧
  s = stake i s +:+ sub +:+ sdrop (i + String.length sub) s.
Proof.
  revert i. induction s as [|c s IH]; intros i; cbn [Index].
  - destruct (HasPrefix "" sub) eqn:Hp; [|done]. intros [= <-].
    apply HasPrefix_spec in Hp as [t Ht]. destruct sub; [|done]. by simplify_eq/=.
  - destruct (HasPrefix (String c s) sub) eqn:Hp.
    + intros [= <-]. apply HasPrefix_spec in Hp as [t Ht]. rewrite Ht.
      rewrite Nat.add_0_l, slength_app, sdrop_app. split; [lia|done].
    + intros (j & Hj & ->)%fmap_Some. apply IH in Hj as [? Hs]. simpl.
      split; [lia|]. by f_equal.
Qed.

Lemma Index_None s sub : Index s sub = None ↔ ∀ a b, s ≠ a +:+ sub +:+ b.
Proof.
  induction s as [|c s IH]; cbn [Index].
  - destruct (HasPrefix "" sub) eqn:Hp.
    + split; [done|]. intros Hn. apply HasPrefix_spec in Hp as [t Ht]. by destruct (Hn "" t).
    + split; [|done]. intros _ [|? a] b; [|done]. intros Hab.
      assert (HasPrefix "" sub = true); [|congruence]. apply HasPrefix_spec. eauto.
  - destruct (HasPrefix (String c s) sub) eqn:Hp.
    + split; [done|]. intros Hn. apply HasPrefix_spec in Hp as [t Ht]. by destruct (Hn "" t).
    + rewrite fmap_None, IH. split.
      * intros Hn [|d a] b; [|intros [= _ ?]; naive_solver]. intros Hab.
        assert (HasPrefix (String c s) sub = true); [|congruence].
        apply HasPrefix_spec. eauto.
      * intros Hn a b ->. by apply (Hn (String c a) b).
Qed.

Lemma Index_app_l p sub : is_Some (Index (p +:+ sub) sub).
Proof.
  apply not_eq_None_Some. rewrite Index_None. intros Hn.
  apply (Hn p ""). by rewrite sapp_nil_r.
Qed.

Lemma Contains_spec s sub : Contains s sub = true ↔ ∃ a b, s = a +:+ sub +:+ b.
Proof.
  unfold Contains. rewrite bool_decide_eq_true. split.
  - intros [i Hi]. apply Index_Some in Hi as [_ ->]. eauto.
  - intros (a & b & ->). apply not_eq_None_Some. rewrite Index_None. naive_solver.
Qed.
End search.

Section split_join.
Implicit Types (s : string) (c : ascii).

(** Joining the pieces of a split gives the string back. *)
Lemma Join_SplitByte s c : Join (SplitByte s c) (byte1 c) = s.
Proof.
  unfold SplitByte. induction s as [|d s IH]; [done|]. simpl.
  destruct (splitByte s c) as [l ls]. destruct (Ascii.eqb d c) eqn:Hd.
  - apply Ascii.eqb_eq in Hd as ->. simpl in *. by rewrite IH.
  - destruct ls; simpl in *; by rewrite IH.
Qed.

Lemma SplitByte_nonempty s c : SplitByte s c ≠ [].
Proof. unfold SplitByte. by destruct (splitByte s c). Qed.

Lemma SplitByte_cons s c : ∃ l ls, SplitByte s c = l :: ls.
Proof. unfold SplitByte. destruct (splitByte s c). eauto. Qed.

(** The number of pieces is one more than the number of separators. *)
Lemma length_SplitByte s c : length (SplitByte s c) = S (CountByte s c).
Proof.
  unfold SplitByte. induction s as [|d s IH]; [done|]. simpl.
  destruct (splitByte s c) as [l ls]. destruct (Ascii.eqb d c); simpl in *; lia.
Qed.

Lemma SplitByte_no_sep s c l : l ∈ SplitByte s c → CountByte l c = 0.
Proof.
  unfold SplitByte. revert l. induction s as [|d s IH]; intros l; simpl; [set_solver|].
  destruct (splitByte s c) as [l0 ls]. destruct (Ascii.eqb d c) eqn:Hd.
  - intros [->|?]%elem_of_cons; [done|auto].
  - intros [->|?]%elem_of_cons; [|apply IH; by right].
    simpl. rewrite Hd. apply IH. by left.
Qed.

Lemma IndexByte_Some s c i :
  IndexByte s c = Some i → s = stake i s +:+ String c (sdrop (S i) s) ∧ CountByte (stake i s) c = 0.
Proof.
  revert i. induction s as [|d s IH]; intros i; simpl; [done|].
  destruct (Ascii.eqb d c) eqn:Hd.
  - intros [= <-]. apply Ascii.eqb_eq in Hd as ->. simpl. by destruct s.
  - intros (j & [Hs Hc]%IH & ->)%fmap_Some. simpl. rewrite Hd.
    split; [by f_equal|done].
Qed.

Lemma IndexByte_None s c : IndexByte s c = None ↔ CountByte s c = 0.
Proof.
  induction s as [|d s IH]; simpl; [done|]. destruct (Ascii.eqb d c); [done|].
  by rewrite fmap_None, IH.
Qed.
Lemma CountByte_app s t c : CountByte (s +:+ t) c = CountByte s c + CountByte t c.
Proof. induction s as [|d s IH]; [done|]. simpl. rewrite IH. lia. Qed.

Lemma CountByte_here c s : CountByte (String c s) c = S (CountByte s c).
Proof. simpl. by rewrite Ascii.eqb_refl. Qed.

Lemma SplitByte_app s t c :
  SplitByte (s +:+ String c t) c = SplitByte s c ++ SplitByte t c.
Proof.
  unfold SplitByte. induction s as [|d s IH]; simpl.
  - rewrite Ascii.eqb_refl. by destruct (splitByte t c).
  - destruct (splitByte (s +:+ String c t) c) as [l ls], (splitByte s c) as [l' ls'],
      (splitByte t c) as [l'' ls'']. simpl in *. injection IH as -> ->. by destruct (Ascii.eqb d c).
Qed.

Lemma SplitByte_none s c : CountByte s c = 0 → SplitByte s c = [s].
Proof.
  unfold SplitByte. induction s as [|d s IH]; simpl; [done|].
  destruct (Ascii.eqb d c); [done|]. intros Hc. destruct (splitByte s c) as [l ls].
  specialize (IH Hc). by simplify_eq.
Qed.

(** Splitting a join gives the pieces back. *)
Lemma SplitByte_Join l c :
  l ≠ [] → Forall (λ s, CountByte s c = 0) l → SplitByte (Join l (byte1 c)) c = l.
Proof.
  intros Hne Hl. induction Hl as [|s l Hs Hl IH]; [done|].
  destruct l as [|s' l]; [by apply SplitByte_none|].
  change (Join (s :: s' :: l) (byte1 c)) with (s +:+ String c (Join (s' :: l) (byte1 c))).
  by rewrite SplitByte_app, SplitByte_none, IH.
Qed.

Lemma Join_app l1 l2 sep :
  l1 ≠ [] → l2 ≠ [] → Join (l1 ++ l2) sep = Join l1 sep +:+ sep +:+ Join l2 sep.
Proof.
  intros H1 H2. induction l1 as [|x l1 IH]; [done|]. destruct l1 as [|y l1].
  - by destruct l2.
  - change (Join ((x :: y :: l1) ++ l2) sep) with (x +:+ sep +:+ Join ((y :: l1) ++ l2) sep).
    change (Join (x :: y :: l1) sep) with (x +:+ sep +:+ Join (y :: l1) sep).
    rewrite IH by done. by rewrite <-!sapp_assoc.
Qed.
End split_join.

Section utf8.
Implicit Types (s t : string).

Lemma concatS_app l1 l2 : concatS (l1 ++ l2) = concatS l1 +:+ concatS l2.
Proof. induction l1 as [|x l1 IH]; simpl; [done|]. by rewrite IH, sapp_assoc. Qed.

(** Decoding loses no byte. *)
Lemma segments_concat s : concatS (segments s).*2 = s.
Proof.
  induction s as [s IH] using (induction_ltof1 _ String.length). unfold ltof in IH.
  destruct s as [|b0 s1]; [done|]. cbn [segments].
  assert (concatS (segments s1).*2 = s1) as H1 by (apply IH; simpl; lia).
  assert (∀ r b l, concatS ((r, b) :: l : list (rune * string)).*2 = b +:+ concatS l.*2) as Hc
    by done.
  assert (concatS ((RuneError, byte1 b0) :: segments s1).*2 = String b0 s1) as Herr
    by (by rewrite Hc, H1).
  destruct (lead b0) as [| |[|[|[|[|[|n]]]]] lo hi]; try exact Herr.
  - destruct s1 as [|b1 s2]; [exact Herr|]. destruct (inRange lo hi b1); [|exact Herr].
    etransitivity; [apply Hc|]. rewrite IH; [done|simpl; lia].
  - destruct s1 as [|b1 [|b2 s3]]; try exact Herr.
    destruct (inRange lo hi b1 && cont b2); [|exact Herr].
    etransitivity; [apply Hc|]. rewrite IH; [done|simpl; lia].
  - destruct s1 as [|b1 [|b2 [|b3 s4]]]; try exact Herr.
    destruct (inRange lo hi b1 && cont b2 && cont b3); [|exact Herr].
    etransitivity; [apply Hc|]. rewrite IH; [done|simpl; lia].
Qed.

(** An ASCII byte decodes to itself. *)
Lemma segments_ascii c s :
  (byteN c < 128)%N → segments (String c s) = (byteN c, byte1 c) :: segments s.
Proof.
  intros Hc. cbn [segments]. unfold lead.
  by rewrite (proj2 (N.ltb_lt _ _) Hc).
Qed.

Lemma runes_ascii c s : (byteN c < 128)%N → runes (String c s) = byteN c :: runes s.
Proof. intros Hc. unfold runes. by rewrite segments_ascii. Qed.
End utf8.

(** ** Lines of a text *)

(** What bufio.ScanLines does to the end of a line, and the lines it finds: the
    text after the last newline counts if there is any. *)
Definition dropCR (s : string) : string := TrimSuffix s (byte1 carriageReturn).

Definition textLines (s : string) : list string :=
  let ls := SplitByte s newline in
  if decide (last ls = Some "") then removelast ls else ls.

Lemma dropCR_id s : CountByte s carriageReturn = 0 → dropCR s = s.
Proof.
  intros Hc. unfold dropCR, TrimSuffix. destruct (HasSuffix _ _) eqn:E; [|done]. exfalso.
  apply andb_true_iff in E as [_ E%String.eqb_eq].
  rewrite <-(stake_sdrop (String.length s - String.length (byte1 carriageReturn)) s), E, CountByte_app in Hc.
  change (CountByte (byte1 carriageReturn) carriageReturn) with 1 in Hc. lia.
Qed.

Lemma textLines_newline t : textLines (t +:+ byte1 newline) = SplitByte t newline.
Proof.
  unfold textLines, byte1. rewrite SplitByte_app. change (SplitByte "" newline) with [""].
  rewrite last_snoc, decide_True by done. apply removelast_last.
Qed.

(** Lines written with their newlines are read back. *)
Lemma textLines_concat lines :
  Forall (λ l, CountByte l newline = 0) lines →
  textLines (concatS ((λ l, l +:+ byte1 newline) <$> lines)) = lines.
Proof.
  intros Hl. destruct (decide (lines = [])) as [->|Hne]; [done|].
  assert (concatS ((λ l, l +:+ byte1 newline) <$> lines) = Join lines (byte1 newline) +:+ byte1 newline) as ->.
  { clear Hl. induction lines as [|l lines IH]; [done|]. destruct lines as [|l' lines]; [simpl; by rewrite sapp_nil_r|].
    change (Join (l :: l' :: lines) (byte1 newline))
      with (l +:+ byte1 newline +:+ Join (l' :: lines) (byte1 newline)).
    cbn [fmap list_fmap concatS foldr] in IH |- *. rewrite IH by done.
    by rewrite <-!sapp_assoc. }
  by rewrite textLines_newline, SplitByte_Join.
Qed.

(** ** Integers in decimal *)

(** strconv.Itoa, and the verb %d of package fmt. *)
Definition Itoa (z : Z) : string := pretty z.

#[export] Instance Itoa_inj : Inj (=) (=) Itoa.
Proof. apply pretty_Z_inj. Qed.

(** Decimals consist of digits, after a sign. *)
Lemma pretty_N_go_CountByte c x s :
  (∀ d, pretty_N_char d ≠ c) → CountByte (pretty_N_go x s) c = CountByte s c.
Proof.
  intros Hc. revert s. induction (N.lt_wf_0 x) as [x _ IH]; intros s.
  destruct (decide (x = 0)%N) as [->|Hx]; [by rewrite pretty_N_go_0|].
  rewrite pretty_N_go_step by lia. rewrite IH by (apply N.div_lt; lia). simpl.
  by rewrite (proj2 (Ascii.eqb_neq _ _) (Hc _)).
Qed.

Lemma CountByte_Itoa z c :
  (∀ d, pretty_N_char d ≠ c) → c ≠ "-"%char → CountByte (Itoa z) c = 0.
Proof.
  intros Hc Hm.
  assert (∀ x : N, CountByte (pretty x) c = 0) as Hn.
  { intros x. unfold pretty, pretty_N. case_decide; [|by rewrite pretty_N_go_CountByte].
    cbn [CountByte]. by rewrite (proj2 (Ascii.eqb_neq "0" c) (Hc 0%N)). }
  unfold Itoa, pretty, pretty_Z. destruct z as [|p|p]; [apply (Hn 0%N)|apply Hn|].
  cbn [String.append CountByte]. rewrite (proj2 (Ascii.eqb_neq "-" c)) by done. apply (Hn (Npos p)).
Qed.

Lemma CountByte_Itoa_underscore z : CountByte (Itoa z) "_" = 0.
Proof. apply CountByte_Itoa; [|done]. intros d. unfold pretty_N_char. by repeat case_match. Qed.

#[export] Hint Rewrite slength_app stake_app sdrop_app sapp_nil_r TrimPrefix_app HasPrefix_app : m8e.

(** Examples: decoding, and the space functions on ASCII and non-ASCII spaces. *)
Example TrimSpace_ex : TrimSpace "  a b	
" = "a b".
Proof. vm_compute. reflexivity. Qed.

Example Fields_ex : Fields " mcp:tools  mcp:resources " = ["mcp:tools"; "mcp:resources"].
Proof. vm_compute. reflexivity. Qed.

Example runes_ex : runes "é€😀" = [233; 8364; 128512]%N.
Proof. vm_compute. reflexivity. Qed.

Example runes_invalid : runes (String (chr 195) "a") = [RuneError; 97%N].
Proof. vm_compute. reflexivity. Qed.

Example ToLower_ex : ToLower "BEARER" = "bearer".
Proof. vm_compute. reflexivity. Qed.
