(* ===== verification/GoPath.v ===== *)
(** * Paths and URLs

    The functions of package path/filepath (on Unix) that the program uses, and
    what it looks at of a parsed net/url URL.  [Clean] is the lexical
    normalisation that the access checks on paths rely on; its result is
    described by its elements, which contain no empty name, no "." and, for a
    rooted path, no "..". *)
From S2P Require Import Prelude GoString.

#[local] Open Scope nat_scope.

Set Default Proof Using "Type*".

(** net/url's parse of a URI, as far as the program looks at it. *)
Record URL := {
  url_Scheme : string;
  url_Host : string;
  url_Hostname : string;
  url_Path : string;
  url_RawQuery : string;
}.

Definition Separator : ascii := "/".

Definition IsAbs (path : string) : bool := HasPrefix path "/".

(** One path element of [Clean]: empty names and "." vanish, ".." removes the
    last element kept (the head of [stack]), unless there is none to remove. *)
Definition cleanStep (rooted : bool) (stack : list string) (elem : string) : list string :=
  if decide (elem = "" ∨ elem = ".") then stack
  else if decide (elem = "..") then
    match stack with
    | [] => if rooted then [] else [".."]
    | top :: rest => if decide (top = "..") then ".." :: stack else rest
    end
  else elem :: stack.

Definition cleanElems (rooted : bool) (elems : list string) : list string :=
  reverse (foldl (cleanStep rooted) [] elems).

(** The elements that are left of a path. *)
Definition elements (path : string) : list string :=
  cleanElems (IsAbs path) (SplitByte path Separator).

(** The path of some elements. *)
Definition render (rooted : bool) (elems : list string) : string :=
  if rooted then "/" +:+ Join elems "/"
  else match elems with [] => "." | _ => Join elems "/" end.

Definition Clean (path : string) : string := render (IsAbs path) (elements path).

(** filepath.Join of two elements. *)
Definition Join2 (a b : string) : string :=
  if decide (a = "") then (if decide (b = "") then "" else Clean b)
  else if decide (b = "") then Clean a
  else Clean (a +:+ "/" +:+ b).

Example Clean_ex1 : Clean "/a//b/../c/./d/" = "/a/c/d".
Proof. reflexivity. Qed.

Example Clean_ex2 : Clean "/../.." = "/" ∧ Clean "" = "." ∧ Clean "a/../../b" = "../b".
Proof. done. Qed.

(** ** Clean paths *)

(** A name a path can keep. *)
Definition name_ok (e : string) : Prop := e ≠ "" ∧ e ≠ "." ∧ CountByte e Separator = 0.

(** What [Clean] leaves: names, after ".." elements only at the front of a path
    that is not rooted. *)
Definition clean_elems (rooted : bool) (l : list string) : Prop :=
  Forall name_ok l ∧
  ∃ n rest, l = replicate n ".." ++ rest ∧ ".." ∉ rest ∧ (rooted = true → n = 0).

Lemma clean_elems_rooted l : clean_elems true l → ".." ∉ l.
Proof. intros (_ & n & rest & -> & Hr & Hn). by rewrite Hn. Qed.

Lemma clean_elems_nil rooted : clean_elems rooted [].
Proof. split; [done|]. exists 0, []. split_and!; [done|set_solver|done]. Qed.

(** The stack of the loop is clean at every moment. *)
Lemma cleanStep_clean rooted stack e :
  CountByte e Separator = 0 → clean_elems rooted (reverse stack) →
  clean_elems rooted (reverse (cleanStep rooted stack e)).
Proof.
  intros He [Hok (n & rest & Heq & Hrest & Hn)]. unfold cleanStep.
  destruct (decide (e = "" ∨ e = ".")) as [|Hne].
  { split; [done|]. by exists n, rest. }
  destruct (decide (e = "..")) as [->|Hdd].
  - destruct stack as [|top stack].
    { destruct rooted; [apply clean_elems_nil|]. split; [by repeat constructor|].
      exists 1, []. split_and!; [done|set_solver|done]. }
    rewrite reverse_cons in *. destruct (decide (top = "..")) as [->|Htop].
    + destruct rest as [|x rest _] using rev_ind.
      * rewrite app_nil_r in Heq. rewrite reverse_cons, reverse_cons, Heq. split.
        { apply Forall_app. split; [by rewrite <-Heq|]. by repeat constructor. }
        exists (S n), []. rewrite app_nil_r, replicate_S_end. split_and!; [done|set_solver|].
        intros Hr. rewrite (Hn Hr) in Heq. by destruct (reverse stack).
      * rewrite (assoc_L (++)) in Heq. apply app_inj_tail in Heq as [_ <-]. set_solver.
    + apply Forall_app in Hok as [Hok _]. split; [done|].
      destruct rest as [|x rest _] using rev_ind.
      * rewrite app_nil_r in Heq. destruct n as [|n]; [by destruct (reverse stack)|].
        rewrite replicate_S_end in Heq. by apply app_inj_tail in Heq as [_ ->].
      * rewrite (assoc_L (++)) in Heq. apply app_inj_tail in Heq as [-> <-].
        exists n, rest. split_and!; [done|set_solver|done].
  - rewrite reverse_cons, Heq. split.
    + rewrite <-Heq. apply Forall_app. split; [done|]. repeat constructor; naive_solver.
    + exists n, (rest ++ [e]). rewrite (assoc_L (++)). split_and!; [done| |done].
      rewrite elem_of_app, list_elem_of_singleton. naive_solver.
Qed.

Lemma cleanElems_clean rooted elems :
  Forall (λ e, CountByte e Separator = 0) elems → clean_elems rooted (cleanElems rooted elems).
Proof.
  unfold cleanElems. intros He.
  assert (∀ stack, clean_elems rooted (reverse stack) →
    clean_elems rooted (reverse (foldl (cleanStep rooted) stack elems))) as Hgen.
  { induction He as [|e elems He _ IH]; [done|]. intros stack Hs. simpl.
    by apply IH, cleanStep_clean. }
  apply Hgen, clean_elems_nil.
Qed.

Lemma elements_clean path : clean_elems (IsAbs path) (elements path).
Proof.
  apply cleanElems_clean, Forall_forall. intros e He. by eapply SplitByte_no_sep.
Qed.

(** Clean elements stay as they are. *)
Lemma foldl_clean rooted stack rest :
  Forall name_ok rest → ".." ∉ rest → foldl (cleanStep rooted) stack rest = reverse rest ++ stack.
Proof.
  revert stack. induction rest as [|e rest IH]; intros stack Hok Hdd; [done|].
  apply Forall_cons in Hok as [(Hn & Hd & _) Hok]. simpl.
  assert (cleanStep rooted stack e = e :: stack) as ->.
  { unfold cleanStep. rewrite decide_False by naive_solver. rewrite decide_False by set_solver.
    done. }
  rewrite IH; [|done|set_solver]. by rewrite reverse_cons, <-(assoc_L (++)).
Qed.

Lemma foldl_dotdots n : foldl (cleanStep false) [] (replicate n "..") = replicate n "..".
Proof.
  induction n as [|n IH]; [done|]. rewrite replicate_S_end, foldl_app, IH. simpl.
  destruct n as [|n]; [done|]. simpl. by rewrite <-replicate_S_end.
Qed.

Lemma cleanElems_id rooted l : clean_elems rooted l → cleanElems rooted l = l.
Proof.
  intros [Hok (n & rest & -> & Hrest & Hn)]. unfold cleanElems. rewrite foldl_app.
  apply Forall_app in Hok as [_ Hok]. destruct rooted.
  - rewrite Hn by done. simpl. rewrite foldl_clean by done. by rewrite app_nil_r, reverse_involutive.
  - rewrite foldl_dotdots, foldl_clean by done.
    by rewrite reverse_app, reverse_involutive, reverse_replicate.
Qed.

Lemma name_ok_dotdot : name_ok "..".
Proof. by repeat constructor. Qed.

Lemma clean_names rooted l : clean_elems rooted l → Forall (λ e, CountByte e Separator = 0) l.
Proof. intros [Hok _]. eapply Forall_impl; [done|]. by intros e (_ & _ & ?). Qed.

Lemma IsAbs_Join l : Forall name_ok l → IsAbs (Join l "/") = false.
Proof.
  intros Hok. destruct l as [|e l]; [done|]. apply Forall_cons in Hok as [(He & _ & Hc) _].
  destruct e as [|d e]; [done|]. apply not_true_iff_false. intros [t Ht]%HasPrefix_spec.
  destruct l; simpl in Ht; by injection Ht as ->.
Qed.

Lemma IsAbs_render rooted l : clean_elems rooted l → IsAbs (render rooted l) = rooted.
Proof.
  intros [Hok _]. unfold render. destruct rooted; [apply HasPrefix_app|].
  destruct l; [done|]. by apply IsAbs_Join.
Qed.

Lemma elements_render rooted l : clean_elems rooted l → elements (render rooted l) = l.
Proof.
  intros Hl. unfold elements. rewrite IsAbs_render by done. pose proof (clean_names _ _ Hl) as Hc.
  destruct l as [|e l]; [by destruct rooted|].
  assert (SplitByte (Join (e :: l) "/") Separator = e :: l) as Hs by (by apply SplitByte_Join).
  unfold render. destruct rooted.
  - change ("/" +:+ Join (e :: l) "/") with ("" +:+ String Separator (Join (e :: l) "/")).
    rewrite SplitByte_app, Hs. by apply (cleanElems_id true) in Hl.
  - rewrite Hs. by apply cleanElems_id.
Qed.

Lemma elements_Clean path : elements (Clean path) = elements path.
Proof. apply elements_render, elements_clean. Qed.

Lemma IsAbs_Clean path : IsAbs (Clean path) = IsAbs path.
Proof. apply IsAbs_render, elements_clean. Qed.

Lemma Clean_idemp path : Clean (Clean path) = Clean path.
Proof. unfold Clean at 1. by rewrite elements_Clean, IsAbs_Clean. Qed.

(** ** Paths below others *)

(** The text of a path below another one is the other's text, ended or followed
    by a separator. *)
Lemma Join_prefix r a :
  Forall name_ok a → Forall name_ok r → r ≠ [] → a ≠ [] →
  (r `prefix_of` a ↔
   ∃ t, Join a "/" = Join r "/" +:+ t ∧ (t = "" ∨ ∃ t', t = String Separator t')).
Proof.
  intros Ha Hr Hrne Hane.
  assert (∀ l, Forall name_ok l → l ≠ [] → SplitByte (Join l "/") Separator = l) as Hsplit.
  { intros l Hl Hne. apply SplitByte_Join; [done|]. eapply Forall_impl; [done|].
    by intros e (_ & _ & ?). }
  split.
  - intros [k ->]. destruct k as [|x k].
    + exists "". rewrite app_nil_r, sapp_nil_r. split; [done|by left].
    + exists (String Separator (Join (x :: k) "/")). split; [by apply Join_app|by right; eexists].
  - intros (t & Ht & Hcase). rewrite <-(Hsplit a), Ht by done. destruct Hcase as [->|[t' ->]].
    + rewrite sapp_nil_r, Hsplit by done. done.
    + rewrite SplitByte_app, Hsplit by done. by eexists.
Qed.

(** ** Files of a directory *)

(** filepath.Base: the last element that is not empty. *)
Definition Base (path : string) : string :=
  match last (filter (λ e, e ≠ "") (SplitByte path Separator)) with
  | Some e => e
  | None => if decide (path = "") then "." else "/"
  end.

(** filepath.Dir. *)
Definition Dir (path : string) : string :=
  Clean (stake match LastIndexByte path Separator with Some i => S i | None => 0 end path).

Example Base_ex : Base "/a/b.go" = "b.go" ∧ Base "a/" = "a" ∧ Base "//" = "/" ∧ Base "" = ".".
Proof. done. Qed.

Example Dir_ex : Dir "/a/b.go" = "/a" ∧ Dir "b.go" = "." ∧ Dir "/b" = "/" ∧ Dir "a/b/" = "a/b".
Proof. done. Qed.

(** A rooted, clean path that is not "/". *)
Definition clean_dir (d : string) : Prop := IsAbs d = true ∧ Clean d = d ∧ d ≠ "/".

(** A name under a clean directory. *)
Definition child_name (x : string) : Prop := name_ok x ∧ x ≠ "..".

Lemma IsAbs_app n t : n ≠ "" → IsAbs (n +:+ t) = IsAbs n.
Proof. destruct n as [|c n]; [done|]. intros _. by destruct n, t. Qed.

Lemma elements_child d x :
  IsAbs d = true → child_name x → elements (d +:+ "/" +:+ x) = elements d ++ [x].
Proof.
  intros Ha [(Hne & Hd & Hs) Hdd]. assert (d ≠ "") by (by intros ->).
  unfold elements. rewrite IsAbs_app, Ha by done.
  change (d +:+ "/" +:+ x) with (d +:+ String Separator x). rewrite SplitByte_app.
  rewrite (SplitByte_none x) by done. unfold cleanElems. rewrite foldl_app. simpl.
  unfold cleanStep at 1. rewrite decide_False by naive_solver. rewrite decide_False by done.
  by rewrite reverse_cons.
Qed.

(** The path of a file in a clean directory. *)
Lemma Join2_child d x : clean_dir d → child_name x → Join2 d x = d +:+ "/" +:+ x.
Proof.
  intros (Ha & Hc & Hr) Hx. unfold Join2. assert (x ≠ "") by apply Hx.
  rewrite decide_False by (by intros ->). rewrite decide_False by done.
  assert (d ≠ "") by (by intros ->). unfold Clean. rewrite elements_child, IsAbs_app, Ha by done.
  assert (d = render true (elements d)) as Hd by (by rewrite <-Ha).
  destruct (elements d) as [|e l] eqn:He; [by simpl in Hd|]. rewrite Hd at 1.
  change (render true ((e :: l) ++ [x])) with ("/" +:+ Join ((e :: l) ++ [x]) "/").
  change (render true (e :: l)) with ("/" +:+ Join (e :: l) "/").
  rewrite (Join_app (e :: l) [x]) by done. done.
Qed.

Lemma Base_no_sep path :
  CountByte (Base path) Separator = 0 ∨ Base path = "/".
Proof.
  unfold Base. destruct (last _) as [e|] eqn:Hl.
  - left. apply last_Some_elem_of, list_elem_of_filter in Hl as [_ Hl].
    by eapply SplitByte_no_sep.
  - case_decide; [by left|by right].
Qed.

(** A separator too many makes no difference. *)
Lemma Join2_slash d x : d ≠ "" → x ≠ "" → Join2 d (String Separator x) = Join2 d x.
Proof.
  intros Hd Hx. unfold Join2. rewrite !decide_False by done. unfold Clean, elements.
  change (d +:+ "/" +:+ String Separator x) with (d +:+ String Separator (String Separator x)).
  change (d +:+ "/" +:+ x) with (d +:+ String Separator x).
  rewrite !IsAbs_app by done.
  assert (SplitByte (String Separator x) Separator = "" :: SplitByte x Separator) as Hsep.
  { apply (SplitByte_app "" x). }
  rewrite !SplitByte_app, Hsep. unfold cleanElems. by rewrite !foldl_app.
Qed.
