(* ===== verification/GoNum.v ===== *)
(** * Go numbers and slices

    The 64-bit int with its wrap-around, the slice expression with its panic,
    and float64 as IEEE 754 binary64 with rounding to nearest, through the
    executable specification of the Standard Library. *)
From Stdlib Require Export SpecFloat.
From S2P Require Import Prelude.

#[local] Open Scope Z_scope.

Set Default Proof Using "Type*".

(** ** int *)

Definition int64 (z : Z) : Z := (z + 2 ^ 63) mod 2 ^ 64 - 2 ^ 63.

Definition MaxInt : Z := 2 ^ 63 - 1.

Definition in_int64 (z : Z) : Prop := - 2 ^ 63 ≤ z ≤ MaxInt.

#[export] Instance in_int64_dec z : Decision (in_int64 z).
Proof. unfold in_int64. apply _. Defined.

Lemma int64_id z : in_int64 z → int64 z = z.
Proof. unfold in_int64, int64, MaxInt. intros ?. rewrite Z.mod_small; lia. Qed.

Lemma int64_in z : in_int64 (int64 z).
Proof.
  unfold in_int64, int64, MaxInt. pose proof (Z.mod_pos_bound (z + 2 ^ 63) (2 ^ 64)). lia.
Qed.

(** The sum of two non-negative ints that does not fit is negative. *)
Lemma int64_overflow z : MaxInt < z < 2 ^ 64 → int64 z = z - 2 ^ 64 ∧ int64 z < 0.
Proof.
  unfold int64, MaxInt. intros ?.
  assert ((z + 2 ^ 63) mod 2 ^ 64 = z + 2 ^ 63 - 2 ^ 64) as ->; [|lia].
  symmetry. apply (Z.mod_unique _ _ 1); lia.
Qed.

(** ** Slices *)

(** len(l). *)
Definition len {A} (l : list A) : Z := Z.of_nat (length l).

(** [l[lo:hi]], for bounds up to the length; [None] is the panic. *)
Definition slice {A} (l : list A) (lo hi : Z) : option (list A) :=
  if decide (0 ≤ lo ≤ hi ∧ hi ≤ len l)
  then Some (take (Z.to_nat (hi - lo)) (drop (Z.to_nat lo) l)) else None.

Lemma slice_Some {A} (l : list A) lo hi :
  0 ≤ lo ≤ hi → hi ≤ len l →
  slice l lo hi = Some (take (Z.to_nat (hi - lo)) (drop (Z.to_nat lo) l)).
Proof. intros ? ?. unfold slice. by rewrite decide_True. Qed.

Lemma slice_None {A} (l : list A) lo hi :
  hi < lo ∨ lo < 0 ∨ len l < hi → slice l lo hi = None.
Proof. intros ?. unfold slice. rewrite decide_False; [done|lia]. Qed.

(** The last [n] elements. *)
Definition lastN {A} (n : nat) (l : list A) : list A := drop (length l - n) l.

Section lastN.
Context {A : Type}.
Implicit Types l : list A.

Lemma lastN_all n l : (length l ≤ n)%nat → lastN n l = l.
Proof. intros ?. unfold lastN. by replace (length l - n)%nat with 0%nat by lia. Qed.

Lemma length_lastN n l : length (lastN n l) = (n `min` length l)%nat.
Proof. unfold lastN. rewrite length_drop. lia. Qed.

Lemma lastN_app n l k : (n ≤ length k)%nat → lastN n (l ++ k) = lastN n k.
Proof.
  intros ?. unfold lastN. rewrite length_app, drop_app_ge by lia. f_equal. lia.
Qed.

Lemma lastN_split n l : ∃ k, l = k ++ lastN n l ∧ ((length (lastN n l) < n)%nat → k = []).
Proof.
  exists (take (length l - n) l). unfold lastN. split; [by rewrite take_drop|].
  rewrite length_drop. intros ?. apply nil_length_inv. rewrite length_take. lia.
Qed.

(** Forgetting more at each step forgets as much as once at the end. *)
Lemma lastN_snoc n l x : lastN n (lastN n l ++ [x]) = lastN n (l ++ [x]).
Proof.
  destruct (decide (length l ≤ n)%nat) as [|Hn]; [by rewrite (lastN_all n l)|].
  assert (l ++ [x] = take (length l - n) l ++ (lastN n l ++ [x])) as ->.
  { unfold lastN. by rewrite (assoc_L (++)), take_drop. }
  symmetry. apply lastN_app. rewrite length_app, length_lastN. simpl. lia.
Qed.

Lemma lastN_suffix n l : lastN n l `suffix_of` l.
Proof. destruct (lastN_split n l) as (k & Hk & _). by exists k. Qed.
End lastN.

(** ** float64 *)

Notation float64 := spec_float.

Definition prec64 : Z := 53.
Definition emax64 : Z := 1024.

(** float64(z). *)
Definition float64_of (z : Z) : float64 := binary_normalize prec64 emax64 z 0 false.

Definition fadd : float64 → float64 → float64 := SFadd prec64 emax64.
Definition fsub : float64 → float64 → float64 := SFsub prec64 emax64.
Definition fmul : float64 → float64 → float64 := SFmul prec64 emax64.
Definition fdiv : float64 → float64 → float64 := SFdiv prec64 emax64.
Definition fltb : float64 → float64 → bool := SFltb.
Definition feqb : float64 → float64 → bool := SFeqb.

(** The constant n/d, rounded once. *)
Definition float64_const (n d : Z) : float64 := fdiv (float64_of n) (float64_of d).

Example float64_ex : fadd (float64_const 1 10) (float64_const 2 10) ≠ float64_const 3 10.
Proof. by vm_compute. Qed.

Example float64_ex2 : feqb (fmul (float64_const 3 4) (float64_of 100)) (float64_of 75) = true.
Proof. reflexivity. Qed.

Definition is_nan (x : float64) : bool := match x with S754_nan => true | _ => false end.

(** math.Min and math.Max, which are NaN if an argument is. *)
Definition fmin (x y : float64) : float64 :=
  if is_nan x || is_nan y then S754_nan
  else match x, y with
       | S754_zero sx, S754_zero sy => S754_zero (sx || sy)
       | _, _ => if fltb x y then x else y
       end.

Definition fmax (x y : float64) : float64 :=
  if is_nan x || is_nan y then S754_nan
  else match x, y with
       | S754_zero sx, S754_zero sy => S754_zero (sx && sy)
       | _, _ => if fltb y x then x else y
       end.

(** x >= y. *)
Definition fgeb (x y : float64) : bool := SFleb y x.

(** NaN is below everything that is asked of it. *)
Lemma fgeb_nan y : fgeb S754_nan y = false.
Proof. by destruct y as [[]|[]| |[]]. Qed.

(** An integer of at most 53 bits is a float64. *)
Lemma digits2_pos_size p : digits2_pos p = Pos.size p.
Proof. induction p as [p IH|p IH|]; simpl; by rewrite ?IH. Qed.

Lemma digits2_shift p d : digits2_pos (Pos.iter xO p d) = (digits2_pos p + d)%positive.
Proof.
  revert p. induction d as [|d IH] using Pos.peano_ind; intros p; [simpl; lia|].
  rewrite Pos.iter_succ. simpl. rewrite IH. lia.
Qed.

Lemma shift_value p d : Zpos (Pos.iter xO p d) = Zpos p * 2 ^ Zpos d.
Proof.
  induction d as [|d IH] using Pos.peano_ind; [change (2 ^ 1) with 2; simpl; lia|].
  rewrite Pos.iter_succ, Pos2Z.inj_succ, Z.pow_succ_r by lia.
  change (Z.pos (Pos.iter xO p d)~0) with (2 * Z.pos (Pos.iter xO p d)). lia.
Qed.

Lemma digits2_bound p : Zpos p < 2 ^ 53 → Zpos (digits2_pos p) ≤ 53.
Proof.
  intros Hp. rewrite digits2_pos_size. pose proof (Pos.size_le p) as Hs.
  destruct (decide (Zpos (Pos.size p) ≤ 53)) as [|Hn]; [done|]. exfalso.
  assert (2 ^ 54 ≤ 2 ^ Zpos (Pos.size p)) as H2 by (apply Z.pow_le_mono_r; lia).
  assert (2 ^ Zpos (Pos.size p) ≤ Zpos p~0) as H3 by (rewrite <-Pos2Z.inj_pow; lia).
  change (Zpos p~0) with (2 * Zpos p) in H3. lia.
Qed.

(** Rounding a mantissa of 53 bits changes nothing. *)
Lemma binary_round_aux_exact m e :
  Zpos (digits2_pos m) = 53 → -1074 ≤ e ≤ 971 →
  binary_round_aux prec64 emax64 false (Zpos m) e loc_Exact = S754_finite false m e.
Proof.
  intros Hm He. unfold binary_round_aux, shr_fexp, fexp, emin, prec64, emax64. simpl Zdigits2.
  rewrite Hm. replace (Z.max (53 + e - 53) (3 - 1024 - 53) - e) with 0 by lia. simpl.
  rewrite Hm. replace (Z.max (53 + e - 53) (3 - 1024 - 53) - e) with 0 by lia. simpl.
  match goal with |- context [Z.leb e ?x] => assert (Z.leb e x = true) as -> by (apply Z.leb_le; lia) end. done.
Qed.

Lemma float64_of_exact p : Zpos p < 2 ^ 53 →
  ∃ m e, float64_of (Zpos p) = S754_finite false m e ∧ e ≤ 0 ∧ Zpos m = Zpos p * 2 ^ (- e).
Proof.
  intros Hp. pose proof (digits2_bound p Hp) as Hd.
  set (e := Zpos (digits2_pos p) - 53). exists (match e with Zneg d => Pos.iter xO p d | _ => p end), e.
  assert (fexp prec64 emax64 (Zpos (digits2_pos p) + 0) = e) as Hf
    by (unfold fexp, emin, prec64, emax64; lia).
  unfold float64_of, binary_normalize, binary_round. rewrite Hf. unfold shl_align.
  rewrite Z.sub_0_r. destruct e as [|d|d] eqn:He; [|lia|].
  - assert (Zpos (digits2_pos p) = 53) by lia. rewrite binary_round_aux_exact by lia.
    simpl. split_and!; [done|lia|lia].
  - rewrite binary_round_aux_exact; [|rewrite digits2_shift; lia|lia].
    split_and!; [done|lia|]. by rewrite shift_value.
Qed.
