(* ===== verification/GoTime.v ===== *)
(** * Durations

    time.ParseDuration of the Go standard library, with its overflow checks and
    its fractions computed in float64, as far as a program can tell: the value
    in nanoseconds, or that there is none; and strconv.Atoi. *)
From stdpp Require Import pretty.
From S2P Require Import Prelude GoString GoNum.

#[local] Open Scope Z_scope.

Set Default Proof Using "Type*".

Definition isDigitByte (c : ascii) : bool := inRange 48 57 c.

Definition digitOf (c : ascii) : Z := Z.of_N (byteN c) - 48.

Fixpoint digitsValue (acc : Z) (s : string) : option Z :=
  match s with
  | "" => Some acc
  | String c s' => if isDigitByte c then digitsValue (acc * 10 + digitOf c) s' else None
  end.

(** strconv.Atoi, and strconv.ParseInt(s, 10, 64), without the text of their
    errors. *)
Definition Atoi (s : string) : option Z :=
  let '(sign, digits) :=
    match s with
    | String "-" rest => (-1, rest)
    | String "+" rest => (1, rest)
    | _ => (1, s)
    end in
  if decide (digits = "") then None
  else
    n ← digitsValue 0 digits;
    if bool_decide (in_int64 (sign * n)) then Some (sign * n) else None.

(** ** Parts of a duration *)

(** The digits in front: their value, unless it exceeds 2^63, and the rest. *)
Fixpoint leadingInt (x : Z) (s : string) : option (Z * string) :=
  match s with
  | String c s' =>
      if isDigitByte c then
        if 2 ^ 63 / 10 <? x then None
        else
          let x := x * 10 + digitOf c in
          if 2 ^ 63 <? x then None else leadingInt x s'
      else Some (x, s)
  | "" => Some (x, "")
  end.

(** The digits of a fraction: further digits are skipped once the value would
    overflow. *)
Fixpoint leadingFraction (x : Z) (scale : float64) (overflow : bool) (s : string) :
    Z * float64 * string :=
  match s with
  | String c s' =>
      if isDigitByte c then
        if overflow then leadingFraction x scale true s'
        else if (2 ^ 63 - 1) / 10 <? x then leadingFraction x scale true s'
        else
          let y := x * 10 + digitOf c in
          if 2 ^ 63 <? y then leadingFraction x scale true s'
          else leadingFraction y (fmul scale (float64_of 10)) false s'
      else (x, scale, s)
  | "" => (x, scale, "")
  end.

(** The bytes of a unit: up to the next digit or dot. *)
Fixpoint unitText (s : string) : string * string :=
  match s with
  | String c s' =>
      if isDigitByte c || Ascii.eqb c "." then ("", s)
      else let '(u, rest) := unitText s' in (String c u, rest)
  | "" => ("", "")
  end.

Definition unitMap (u : string) : option Z :=
  if decide (u = "ns") then Some 1
  else if decide (u = "us" ∨ u = encodeRune 181%N +:+ "s" ∨ u = encodeRune 956%N +:+ "s")
  then Some 1000
  else if decide (u = "ms") then Some (10 ^ 6)
  else if decide (u = "s") then Some (10 ^ 9)
  else if decide (u = "m") then Some (60 * 10 ^ 9)
  else if decide (u = "h") then Some (3600 * 10 ^ 9)
  else None.

(** uint64(x) of a float64 that is not negative and small enough. *)
Definition truncate (x : float64) : Z :=
  match x with
  | S754_finite _ m e => if 0 <=? e then Z.shiftl (Zpos m) e else Z.shiftr (Zpos m) (- e)
  | _ => 0
  end.

(** One number with its unit, and the rest. *)
Definition durationPart (s : string) : option (Z * string) :=
  match s with
  | "" => None
  | String c _ =>
      if negb (isDigitByte c || Ascii.eqb c ".") then None
      else
        '(v, s1) ← leadingInt 0 s;
        let pre := (String.length s1 <? String.length s)%nat in
        let '(f, scale, s2, post) :=
          match s1 with
          | String "." t =>
              let '(f, scale, t') := leadingFraction 0 (float64_of 1) false t in
              (f, scale, t', (String.length t' <? String.length t)%nat)
          | _ => (0, float64_of 1, s1, false)
          end in
        if negb pre && negb post then None
        else
          let '(u, rest) := unitText s2 in
          if decide (u = "") then None
          else
            unit_ ← unitMap u;
            if 2 ^ 63 / unit_ <? v then None
            else
              let v := v * unit_ in
              let v := if 0 <? f
                       then v + truncate (fmul (float64_of f) (fdiv (float64_of unit_) scale))
                       else v in
              if 2 ^ 63 <? v then None else Some (v, rest)
  end.

(** The loop; each part has at least two bytes, so the length is enough fuel. *)
Fixpoint durationParts (fuel : nat) (d : Z) (s : string) : option Z :=
  match fuel with
  | O => None
  | S fuel =>
      if decide (s = "") then Some d
      else
        '(v, rest) ← durationPart s;
        let d := (d + v) mod 2 ^ 64 in
        if 2 ^ 63 <? d then None else durationParts fuel d rest
  end.

Definition ParseDuration (s : string) : option Z :=
  let '(neg, s) :=
    match s with
    | String "-" t => (true, t)
    | String "+" t => (false, t)
    | _ => (false, s)
    end in
  if decide (s = "0") then Some 0
  else if decide (s = "") then None
  else
    d ← durationParts (S (String.length s)) 0 s;
    if neg then Some (- d)
    else if 2 ^ 63 - 1 <? d then None
    else Some d.

Example ParseDuration_ex :
  ParseDuration "1h15m30.918s" = Some 4530918000000 ∧ ParseDuration "-1.5h" = Some (-5400000000000) ∧
  ParseDuration "300ms" = Some 300000000 ∧ ParseDuration "10" = None ∧ ParseDuration "" = None ∧
  ParseDuration "1x" = None ∧ ParseDuration ".s" = None ∧ ParseDuration "0" = Some 0 ∧
  ParseDuration "2562048h" = None ∧ ParseDuration "1.s" = Some 1000000000.
Proof. vm_compute. done. Qed.

Example Atoi_ex : Atoi "-12" = Some (-12) ∧ Atoi "9223372036854775808" = None ∧ Atoi "+" = None.
Proof. vm_compute. done. Qed.

(** ** Fuel and range *)

Lemma leadingInt_length x s v rest :
  leadingInt x s = Some (v, rest) → (String.length rest ≤ String.length s)%nat.
Proof.
  revert x. induction s as [|c s IH]; intros x Hl; simpl in *; [by injection Hl as _ <-|].
  destruct (isDigitByte c); [|by injection Hl as _ <-]. repeat case_match; try done.
  apply IH in Hl. lia.
Qed.

Lemma leadingFraction_length x scale ov s :
  (String.length (leadingFraction x scale ov s).2 ≤ String.length s)%nat.
Proof.
  revert x scale ov. induction s as [|c s IH]; intros x scale ov; simpl; [done|].
  destruct (isDigitByte c); [|done].
  repeat case_match;
    match goal with |- context [leadingFraction ?a ?b ?c s] => specialize (IH a b c) end; lia.
Qed.

Lemma unitText_split s : (unitText s).1 +:+ (unitText s).2 = s.
Proof.
  induction s as [|c s IH]; simpl; [done|]. destruct (isDigitByte c || Ascii.eqb c "."); [done|].
  destruct (unitText s) as [u rest]. simpl in *. by rewrite IH.
Qed.

Lemma durationPart_length s v rest :
  durationPart s = Some (v, rest) → (String.length rest < String.length s)%nat.
Proof.
  unfold durationPart. destruct s as [|c s0]; [done|]. set (s := String c s0).
  destruct (negb _); [done|]. destruct (leadingInt 0 s) as [[x s1]|] eqn:Hl; [|done].
  apply leadingInt_length in Hl. simpl.
  set (p := match s1 with String "." t => _ | _ => _ end).
  assert (String.length p.1.2 ≤ String.length s1)%nat as Hp.
  { subst p. destruct s1 as [|a t]; [done|].
    destruct a as [[] [] [] [] [] [] [] []]; try done. simpl.
    match goal with |- context [leadingFraction 0 ?b false t] =>
      pose proof (leadingFraction_length 0 b false t) as Hf;
      destruct (leadingFraction 0 b false t) as [[f scale] t'] end.
    simpl in *. lia. }
  destruct p as [[[f scale] s2] post]. simpl in Hp. destruct (negb _ && negb _); [done|].
  pose proof (unitText_split s2) as Hu. destruct (unitText s2) as [u r]. simpl in Hu.
  destruct (decide (u = "")) as [|Hne]; [done|]. destruct (unitMap u); [|done]. simpl.
  repeat case_match; try done; intros [= _ <-]; rewrite <-Hu, slength_app in Hp;
    destruct u; simpl in *; try done; lia.
Qed.

(** More fuel makes no difference. *)
Lemma durationParts_fuel n m d s :
  (String.length s < n)%nat → (String.length s < m)%nat →
  durationParts n d s = durationParts m d s.
Proof.
  revert m d s. induction n as [|n IH]; intros [|m] d s Hn Hm; [lia..|]. simpl.
  destruct (decide (s = "")); [done|]. destruct (durationPart s) as [[v rest]|] eqn:Hp; [|done].
  apply durationPart_length in Hp. simpl. case_match; [done|]. apply IH; lia.
Qed.

(** ** Seconds *)

(** int(x) of a float64. *)
Definition intOf (x : float64) : Z :=
  match x with S754_finite true _ _ => - truncate x | _ => truncate x end.

(** [Duration.Seconds], of nanoseconds. *)
Definition Seconds (d : Z) : float64 :=
  fadd (float64_of (Z.quot d (10 ^ 9))) (fdiv (float64_of (Z.rem d (10 ^ 9))) (float64_of (10 ^ 9))).

Lemma truncate_float64_of n : 0 ≤ n < 2 ^ 53 → truncate (float64_of n) = n.
Proof.
  intros [Hn Hb]. destruct n as [|p|p]; [done| |lia].
  destruct (float64_of_exact p Hb) as (m & e & -> & He & Hm). simpl.
  destruct (0 <=? e) eqn:H0; [apply Z.leb_le in H0; replace e with 0 in * by lia|].
  - rewrite Z.shiftl_0_r. lia.
  - rewrite Z.shiftr_div_pow2, Hm by lia. apply Z.div_mul. lia.
Qed.

Lemma float64_of_finite n : 0 ≤ n < 2 ^ 53 →
  float64_of n = S754_zero false ∨ ∃ m e, float64_of n = S754_finite false m e.
Proof.
  intros [Hn Hb]. destruct n as [|p|p]; [by left| |lia]. right.
  destruct (float64_of_exact p Hb) as (m & e & -> & _). eauto.
Qed.

(** Whole seconds are exact. *)
Lemma intOf_Seconds n : 0 ≤ n < 2 ^ 53 → intOf (Seconds (n * 10 ^ 9)) = n.
Proof.
  intros Hn. unfold Seconds. rewrite Z.quot_mul, Z.rem_mul by lia.
  change (fdiv (float64_of 0) (float64_of (10 ^ 9))) with (S754_zero false).
  pose proof (truncate_float64_of n Hn) as Ht.
  destruct (float64_of_finite n Hn) as [E|(m & e & E)]; rewrite E in *; exact Ht.
Qed.

(** What is printed of a number is read again. *)
Lemma digit_char d : (d < 10)%N →
  isDigitByte (pretty_N_char d) = true ∧ digitOf (pretty_N_char d) = Z.of_N d.
Proof.
  intros Hd. assert (d = 0 ∨ d = 1 ∨ d = 2 ∨ d = 3 ∨ d = 4 ∨ d = 5 ∨ d = 6 ∨ d = 7 ∨ d = 8 ∨ d = 9)%N
    as Hc by lia.
  by destruct_or! Hc; subst d.
Qed.

Lemma leadingInt_pretty n s : (Z.of_N n ≤ 2 ^ 63 / 10) →
  leadingInt 0 (pretty_N_go n s) = leadingInt (Z.of_N n) s.
Proof.
  revert s. induction (N.lt_wf_0 n) as [n _ IH]. intros s Hn.
  destruct (decide (n = 0)%N) as [->|H0]; [by rewrite pretty_N_go_0|].
  rewrite pretty_N_go_step by lia.
  assert (n / 10 < n)%N as Hl by (apply N.div_lt; lia).
  rewrite IH; [|done|lia].
  destruct (digit_char (n `mod` 10)) as [H1 H2]; [apply N.mod_lt; lia|]. simpl. rewrite H1, H2.
  rewrite (proj2 (Z.ltb_ge _ _)) by (change (2 ^ 63 / 10) with 922337203685477580 in *; lia).
  assert (Z.of_N (n / 10) * 10 + Z.of_N (n `mod` 10) = Z.of_N n) as ->
    by (pose proof (N.div_mod n 10 ltac:(lia)); lia).
  rewrite (proj2 (Z.ltb_ge _ _)); [done|]. change (2 ^ 63 / 10) with 922337203685477580 in *; lia.
Qed.

Lemma pretty_N_head n s : n ≠ 0%N → ∃ d t, (d < 10)%N ∧ pretty_N_go n s = String (pretty_N_char d) t ∧
  ∃ u, t = u +:+ s.
Proof.
  revert s. induction (N.lt_wf_0 n) as [n _ IH]. intros s H0. rewrite pretty_N_go_step by lia.
  assert (n `mod` 10 < 10)%N by (apply N.mod_lt; lia).
  destruct (decide (n / 10 = 0)%N) as [E|E].
  - rewrite E, pretty_N_go_0. eexists _, s. split_and!; [done..|]. by exists "".
  - destruct (IH (n / 10)%N) with (s := String (pretty_N_char (n `mod` 10)) s)
      as (d & t & Hd & -> & u & ->); [apply N.div_lt; lia|done|].
    eexists d, _. split_and!; [done..|]. exists (u +:+ String (pretty_N_char (n `mod` 10)) "").
    by rewrite <-sapp_assoc.
Qed.

Lemma pretty_N_go_app n s t : pretty_N_go n s +:+ t = pretty_N_go n (s +:+ t).
Proof.
  revert s. induction (N.lt_wf_0 n) as [n _ IH]. intros s.
  destruct (decide (n = 0)%N) as [->|H0]; [by rewrite !pretty_N_go_0|].
  rewrite !(pretty_N_go_step n) by lia. rewrite IH by (apply N.div_lt; lia). done.
Qed.

(** The text "Ns" of so many seconds is a duration. *)
Definition secondsText (n : Z) : string := Itoa n +:+ "s".

Lemma ParseDuration_unsigned c t : isDigitByte c = true → ParseDuration (String c t) =
  if decide (String c t = "0") then Some 0
  else if decide (String c t = "") then None
  else
    d ← durationParts (S (String.length (String c t))) 0 (String c t);
    if 2 ^ 63 - 1 <? d then None else Some d.
Proof. intros Hc. by destruct c as [[] [] [] [] [] [] [] []]. Qed.

Lemma ParseDuration_seconds n : 0 ≤ n ≤ 9223372036 → ParseDuration (secondsText n) = Some (n * 10 ^ 9).
Proof.
  intros Hn. destruct (decide (n = 0)) as [->|H0]; [by vm_compute|].
  unfold secondsText, Itoa. destruct n as [|p|p]; [done| |lia].
  change (pretty (Zpos p)) with (pretty_N_go (Npos p) ""). rewrite pretty_N_go_app. simpl.
  destruct (pretty_N_head (Npos p) "s") as (d & t & Hd & E & u & Hu); [done|].
  pose proof (leadingInt_pretty (Npos p) "s") as Hl.
  rewrite E in *. destruct (digit_char d Hd) as [Hdig _].
  assert (leadingInt 0 (String (pretty_N_char d) t) = Some (Zpos p, "s")) as Hl'.
  { rewrite Hl; [done|]. change (2 ^ 63 / 10) with 922337203685477580. lia. }
  assert (durationPart (String (pretty_N_char d) t) = Some (Zpos p * 10 ^ 9, "")) as Hp.
  { unfold durationPart. rewrite Hdig, Hl'. simpl orb. simpl negb. cbn match.
    assert (1 <=? String.length t = true)%nat as Hlen
      by (apply Nat.leb_le; rewrite Hu, slength_app; simpl; lia).
    simpl.
    destruct (String.length t) as [|k]; [done|]. simpl. change (2 ^ 63 / 10 ^ 9) with 9223372036.
    rewrite (proj2 (Z.ltb_ge 9223372036 _)) by lia.
    rewrite (proj2 (Z.ltb_ge (2 ^ 63) _)) by lia. done. }
  rewrite ParseDuration_unsigned by done. set (x := String (pretty_N_char d) t) in *.
  assert (x ≠ "0") as Hx. { intros ->. by vm_compute in Hl'. }
  rewrite decide_False by done. rewrite decide_False by done.
  cbn [durationParts]. rewrite decide_False by done. rewrite Hp.
  unfold mbind at 2. unfold option_bind at 2. rewrite Z.add_0_l, Z.mod_small by lia.
  rewrite (proj2 (Z.ltb_ge (2 ^ 63) _)) by lia.
  assert (∃ k, String.length x = S k) as [k ->] by (subst x; simpl; eauto).
  cbn [durationParts]. rewrite decide_True by done. unfold mbind, option_bind.
  rewrite (proj2 (Z.ltb_ge (2 ^ 63 - 1) _)) by lia. done.
Qed.
