(* ===== verification/Calls.v ===== *)
(** * Programs that call services which may fail

    The database of the workflow scheduler and its Kubernetes client are reached by
    calls each of which may fail, before or after it took effect.  A program is a
    function on the world it changes and on the number of calls made so far, which an
    oracle of the environment is asked about; an error is its text. *)
From S2P Require Import Prelude GoString.

Set Default Proof Using "Type*".

(** What becomes of a call: it works, it fails, or it works and its answer is lost. *)
Inductive Outcome := Works | Refused (text : string) | Lost (text : string).

Definition Prog (W A : Type) : Type := W * nat → res string A * (W * nat).

#[export] Instance Prog_ret W : MRet (Prog W) := λ A a w, (Ok a, w).
#[export] Instance Prog_bind W : MBind (Prog W) := λ A B f m w,
  match m w with (Ok a, w') => f a w' | (Err e, w') => (Err e, w') end.

Definition throw {W A} (e : string) : Prog W A := λ w, (Err e, w).

(** A program that goes on after an error. *)
Definition attempt {W A} (m : Prog W A) : Prog W (res string A) :=
  λ w, let '(r, w') := m w in (Ok r, w').

(** [fmt.Errorf("what: %w", err)] around the error of [m]. *)
Definition during {W A} (what : string) (m : Prog W A) : Prog W A := λ w,
  let '(r, w') := m w in
  (match r with Ok a => Ok a | Err e => Err (what +:+ ": " +:+ e) end, w').

Fixpoint each {W A} (f : A → Prog W ()) (l : list A) : Prog W () :=
  match l with
  | [] => mret ()
  | x :: rest => f x;; each f rest
  end.

Fixpoint collect {W A B} (f : A → Prog W B) (l : list A) : Prog W (list B) :=
  match l with
  | [] => mret []
  | x :: rest => y ← f x; ys ← collect f rest; mret (y :: ys)
  end.

Section calls.
Context {W : Type} (env : nat → Outcome).

(** A call: [f] is what the service does and answers. *)
Definition call {A} (f : W → res string A * W) : Prog W A := λ '(w, n),
  match env n with
  | Works => let '(r, w') := f w in (r, (w', S n))
  | Refused e => (Err e, (w, S n))
  | Lost e => (Err e, ((f w).2, S n))
  end.
End calls.

(** A program on a part of the world. *)
Definition on {W V A} (get : W → V) (set : V → W → W) (m : Prog V A) : Prog W A := λ '(w, n),
  let '(r, (v, n')) := m (get w, n) in (r, (set v w, n')).

(** ** Reasoning about programs *)

Section wp.
Context {W : Type}.
Implicit Types (n : nat).

(** After [m] from [w], [Q] holds of the result and the world. *)
Definition wp {A} (m : Prog W A) (w : W * nat) (Q : res string A → W * nat → Prop) : Prop :=
  Q (m w).1 (m w).2.

Lemma wp_run {A} (m : Prog W A) w (Q : res string A → W * nat → Prop) r w' :
  wp m w Q → m w = (r, w') → Q r w'.
Proof. unfold wp. intros H E. by rewrite E in H. Qed.

Lemma prog_mono {A} (m : Prog W A) w (Q Q' : res string A → W * nat → Prop) :
  wp m w Q → (∀ r w', Q r w' → Q' r w') → wp m w Q'.
Proof. unfold wp. auto. Qed.

Lemma wp_and {A} (m : Prog W A) w (Q Q' : res string A → W * nat → Prop) :
  wp m w Q → wp m w Q' → wp m w (λ r w', Q r w' ∧ Q' r w').
Proof. done. Qed.

Lemma prog_ret {A} (a : A) w (Q : res string A → W * nat → Prop) : Q (Ok a) w → wp (mret a) w Q.
Proof. done. Qed.

Lemma wp_throw {A} e w (Q : res string A → W * nat → Prop) : Q (Err e) w → wp (throw e) w Q.
Proof. done. Qed.

Lemma prog_bind {A A'} (m : Prog W A) (f : A → Prog W A') w Q :
  wp m w (λ r w', match r with Ok a => wp (f a) w' Q | Err e => Q (Err e) w' end) →
  wp (m ≫= f) w Q.
Proof. unfold wp, mbind, Prog_bind. by destruct (m w) as [[a|e] w']. Qed.

Lemma wp_attempt {A} (m : Prog W A) w Q : wp m w (λ r w', Q (Ok r) w') → wp (attempt m) w Q.
Proof. unfold wp, attempt. by destruct (m w). Qed.

Lemma wp_during {A} what (m : Prog W A) w (Q : res string A → W * nat → Prop) :
  wp m w (λ r w', match r with
                  | Ok a => Q (Ok a) w'
                  | Err e => Q (Err (what +:+ ": " +:+ e)) w'
                  end) → wp (during what m) w Q.
Proof. unfold wp, during. by destruct (m w) as [[a|e] w']. Qed.

(** What a call can come to. *)
Lemma wp_call {A} env (f : W → res string A * W) w n (Q : res string A → W * nat → Prop) :
  Q (f w).1 ((f w).2, S n) → (∀ e, Q (Err e) (w, S n)) → (∀ e, Q (Err e) ((f w).2, S n)) →
  wp (call env f) (w, n) Q.
Proof.
  unfold wp, call. intros H1 H2 H3. destruct (env n); [by destruct (f w)|apply H2|apply H3].
Qed.

(** A call that works. *)
Lemma wp_call_works {A} env (f : W → res string A * W) w n (Q : res string A → W * nat → Prop) :
  env n = Works → Q (f w).1 ((f w).2, S n) → wp (call env f) (w, n) Q.
Proof. unfold wp, call. intros ->. by destruct (f w). Qed.

(** A call that works, or else does not. *)
Lemma wp_call_outcome {A} env (f : W → res string A * W) w n (Q : res string A → W * nat → Prop) :
  (env n = Works → Q (f w).1 ((f w).2, S n)) → (∀ e x, env n ≠ Works → Q (Err e) x) →
  wp (call env f) (w, n) Q.
Proof.
  unfold wp, call. intros H1 H2. destruct (env n); [|by apply H2..]. destruct (f w). by apply H1.
Qed.

(** A loop keeps what each of its steps keeps. *)
Lemma wp_each {A} (f : A → Prog W ()) (l : list A) (I : W * nat → Prop) w :
  I w → (∀ x w, x ∈ l → I w → wp (f x) w (λ _ w', I w')) → wp (each f l) w (λ _ w', I w').
Proof.
  revert w. induction l as [|x l IH]; intros w Hw Hf; simpl; [done|].
  apply prog_bind. eapply prog_mono; [apply Hf; [by left|done]|]. intros [a|e] w' Hw'; [|done].
  apply IH; [done|]. intros y w'' Hy. apply Hf. by right.
Qed.

Lemma wp_on {V A} (get : W → V) (set : V → W → W) (m : Prog V A) w n Q :
  (let '(r, (v, n')) := m (get w, n) in Q r (set v w, n')) → wp (on get set m) (w, n) Q.
Proof. unfold wp, on. by destruct (m (get w, n)) as [r [v n']]. Qed.
End wp.
