(* ===== verification/WorkflowGraph.v ===== *)
(** * The workflow dependency graph

    [buildDependencyGraph] and [ValidateWorkflowDefinition] of
    internal/scheduler/workflow_engine.go, with the workflow data of
    internal/crd/mcptaskscheduler.go they read.  The level-by-level
    topological sort is proved sound (every step appears once, after its
    dependencies), complete (it succeeds exactly on duplicate-free, closed and
    acyclic step lists) and terminating. *)
From S2P Require Import Prelude.

(** ** Workflow data *)

(** [WorkflowRetryPolicy]: the fields the engine reads.  [MaxRetries] is an
    [int32]. *)
Record WorkflowRetryPolicy := {
  MaxRetries : Z;
  RetryDelay : string;
}.

(** [WorkflowStep].  [Parameters] is a [map[string]interface{}]; [RunPolicy] is
    a Go string type whose constants are below. *)
Record WorkflowStep := {
  Name : string;
  Tool : string;
  Parameters : gmap string Value;
  DependsOn : list string;
  Condition : string;
  RunPolicy : string;
  ContinueOnError : bool;
  Timeout : string;
  RetryPolicy : option WorkflowRetryPolicy;
}.

Definition WorkflowRunAlways : string := "Always".
Definition WorkflowRunOnSuccess : string := "OnSuccess".
Definition WorkflowRunOnFailure : string := "OnFailure".
Definition WorkflowRunOnCondition : string := "OnCondition".

(** [WorkflowDefinition]: the fields the engine reads. *)
Record WorkflowDefinition := {
  Schedule : string;
  Steps : list WorkflowStep;
  WfTimeout : string;
}.

(** The errors of the two functions, one constructor per message. *)
Inductive GraphError :=
  | NonExistentDependency (step dep : string)
  | CircularDependency.

Inductive ValidateError :=
  | ScheduleRequired
  | InvalidSchedule
  | NoSteps
  | StepNameRequired (i : nat)
  | DuplicateStepName (name : string)
  | StepToolRequired (name : string)
  | UnknownDependency (step dep : string).

(** ** buildDependencyGraph *)

(** The dependency check: the first step, and its first dependency, that name
    no step.  [stepMap] is only consulted for its keys here. *)
Fixpoint checkDependencies (stepMap : gmap string nat) (steps : list WorkflowStep) :
    res GraphError unit :=
  match steps with
  | [] => Ok tt
  | step :: rest =>
      match list_find (λ dep, stepMap !! dep = None) (DependsOn step) with
      | Some (_, dep) => Err (NonExistentDependency (Name step) dep)
      | None => checkDependencies stepMap rest
      end
  end.

(** [stepMap[step.Name] = i], in the order of the steps. *)
Definition buildStepMap (steps : list WorkflowStep) : gmap string nat :=
  foldl (λ m '(i, step), <[Name step := i]> m) ∅ (imap pair steps).

(** The two maps of the sort: [inDegree] and [adjList]. *)
Definition initInDegree (steps : list WorkflowStep) : gmap string Z :=
  foldl (λ m step, <[Name step := 0%Z]> m) ∅ steps.

Definition initAdjList (steps : list WorkflowStep) : gmap string (list string) :=
  foldl (λ m step, <[Name step := []]> m) ∅ steps.

(** One iteration of the edge loop: [adjList[dep] = append(...)] and
    [inDegree[step.Name]++], a missing key reading as the zero value. *)
Definition addEdge (g : gmap string Z * gmap string (list string)) (e : string * string) :
    gmap string Z * gmap string (list string) :=
  let '(inDegree, adjList) := g in
  let '(dep, name) := e in
  (<[name := (default 0 (inDegree !! name) + 1)%Z]> inDegree,
   <[dep := default [] (adjList !! dep) ++ [name]]> adjList).

(** The pairs (dependency, step) the edge loop visits, in its order. *)
Definition edges (steps : list WorkflowStep) : list (string * string) :=
  steps ≫= λ step, (λ dep, (dep, Name step)) <$> DependsOn step.

(** The inner loop over the neighbours of one step of the queue. *)
Fixpoint visitNeighbors (neighbors : list string) (inDegree : gmap string Z)
    (nextQueue : list string) : gmap string Z * list string :=
  match neighbors with
  | [] => (inDegree, nextQueue)
  | neighbor :: rest =>
      let d := (default 0 (inDegree !! neighbor) - 1)%Z in
      visitNeighbors rest (<[neighbor := d]> inDegree)
        (if (d =? 0)%Z then nextQueue ++ [neighbor] else nextQueue)
  end.

(** The loop over the queue, the steps of the current level. *)
Fixpoint visitQueue (adjList : gmap string (list string)) (queue : list string)
    (inDegree : gmap string Z) (nextQueue : list string) :
    gmap string Z * list string :=
  match queue with
  | [] => (inDegree, nextQueue)
  | stepName :: rest =>
      let '(inDegree', nextQueue') :=
        visitNeighbors (default [] (adjList !! stepName)) inDegree nextQueue in
      visitQueue adjList rest inDegree' nextQueue'
  end.

(** [for len(queue) > 0 { ... }], with fuel: [None] is running out of it. *)
Fixpoint sortLevels (fuel : nat) (adjList : gmap string (list string))
    (queue : list string) (inDegree : gmap string Z) (result : list (list string)) :
    option (list (list string)) :=
  match queue, fuel with
  | [], _ => Some result
  | _, O => None
  | _, S fuel' =>
      let '(inDegree', nextQueue) := visitQueue adjList queue inDegree [] in
      sortLevels fuel' adjList nextQueue inDegree' (result ++ [queue])
  end.

(** The function.  [order] is the order in which [range inDegree] visits the
    keys.  [None] would be a loop that does not end within [length steps]
    levels; [buildDependencyGraph_total] shows it does not happen. *)
Definition buildDependencyGraph (order : list string) (steps : list WorkflowStep) :
    option (res GraphError (list (list string))) :=
  match checkDependencies (buildStepMap steps) steps with
  | Err e => Some (Err e)
  | Ok _ =>
      let '(inDegree, adjList) :=
        foldl addEdge (initInDegree steps, initAdjList steps) (edges steps) in
      let queue := filter (λ n, inDegree !! n = Some 0%Z) order in
      match sortLevels (length steps) adjList queue inDegree [] with
      | None => None
      | Some result =>
          if decide (length (concat result) = length steps)
          then Some (Ok result) else Some (Err CircularDependency)
      end
  end.

(** ** ValidateWorkflowDefinition *)

Fixpoint validateSteps (i : nat) (stepNames : gset string) (steps : list WorkflowStep) :
    res ValidateError unit :=
  match steps with
  | [] => Ok tt
  | step :: rest =>
      if decide (Name step = "") then Err (StepNameRequired i)
      else if decide (Name step ∈ stepNames) then Err (DuplicateStepName (Name step))
      else
        let stepNames' := {[Name step]} ∪ stepNames in
        if decide (Tool step = "") then Err (StepToolRequired (Name step))
        else
          match list_find (λ dep, dep ∉ stepNames') (DependsOn step) with
          | Some (_, dep) => Err (UnknownDependency (Name step) dep)
          | None => validateSteps (S i) stepNames' rest
          end
  end.

(** [ParseCronExpression] answers whether robfig/cron's [ParseStandard]
    accepts the expression; the library is a parameter. *)
Definition ValidateWorkflowDefinition (ParseCronExpression : string → bool)
    (spec : WorkflowDefinition) : res ValidateError unit :=
  if decide (Schedule spec = "") then Err ScheduleRequired
  else if negb (ParseCronExpression (Schedule spec)) then Err InvalidSchedule
  else if decide (length (Steps spec) = 0) then Err NoSteps
  else validateSteps 0 ∅ (Steps spec).

(** ** Specification *)

(** Step [n] of [steps] names [d] among its dependencies. *)
Definition depends_on (steps : list WorkflowStep) (d n : string) : Prop :=
  ∃ step, step ∈ steps ∧ Name step = n ∧ d ∈ DependsOn step.

(** Every dependency names a step. *)
Definition closed_deps (steps : list WorkflowStep) : Prop :=
  ∀ d n, depends_on steps d n → d ∈ Name <$> steps.

(** No step depends on itself, however indirectly. *)
Definition acyclic (steps : list WorkflowStep) : Prop :=
  ∀ n, ¬ tc (depends_on steps) n n.

(** [levels] is a level order of [steps]: each step is in exactly one level,
    and its dependencies are in earlier ones. *)
Definition level_order (steps : list WorkflowStep) (levels : list (list string)) : Prop :=
  concat levels ≡ₚ Name <$> steps ∧
  ∀ before level after d n,
    levels = before ++ level :: after → n ∈ level → depends_on steps d n →
    d ∈ concat before.

(** The in-degree map the code ranges over. *)
Definition finalInDegree (steps : list WorkflowStep) : gmap string Z :=
  (foldl addEdge (initInDegree steps, initAdjList steps) (edges steps)).1.

(** ** Counting lemmas *)

Section counting.
Implicit Types (n d : string) (l ns : list string) (E : list (string * string)).

Definition occ n l : nat := length (filter (.= n) l).

Definition deg (m : gmap string Z) n : Z := default 0%Z (m !! n).

(** Edges into [n] whose source satisfies [P]. *)
Definition cntE E (P : string → Prop) `{∀ d, Decision (P d)} n : nat :=
  length (filter (λ e, P e.1 ∧ e.2 = n) E).

Lemma occ_nil n : occ n [] = 0.
Proof. done. Qed.

Lemma occ_cons n x l : occ n (x :: l) = (if decide (x = n) then 1 else 0) + occ n l.
Proof. unfold occ. rewrite filter_cons. by case_decide. Qed.

Lemma occ_app n l1 l2 : occ n (l1 ++ l2) = occ n l1 + occ n l2.
Proof. unfold occ. by rewrite filter_app, length_app. Qed.

Lemma occ_pos n l : n ∈ l ↔ 0 < occ n l.
Proof.
  induction l as [|x l IH]; [rewrite occ_nil; set_solver by lia|].
  rewrite occ_cons, elem_of_cons. case_decide; [naive_solver lia|].
  rewrite IH. split; [intros [->|]; [done|lia]|naive_solver lia].
Qed.

Lemma occ_Permutation n l1 l2 : l1 ≡ₚ l2 → occ n l1 = occ n l2.
Proof. intros Hp. unfold occ. by rewrite Hp. Qed.

Lemma cntE_cons E P `{∀ d, Decision (P d)} n e :
  cntE (e :: E) P n = (if decide (P e.1 ∧ e.2 = n) then 1 else 0) + cntE E P n.
Proof. unfold cntE. rewrite filter_cons. by case_decide. Qed.

Lemma cntE_zero E P `{∀ d, Decision (P d)} n :
  cntE E P n = 0 ↔ ∀ d, (d, n) ∈ E → ¬ P d.
Proof.
  induction E as [|[d' n'] E IH]; [split; [set_solver|done]|].
  rewrite cntE_cons. simpl. case_decide as Hd.
  - split; [lia|]. intros Hf. destruct Hd as [HP ->].
    exfalso. by apply (Hf d'); [left|].
  - rewrite Nat.add_0_l, IH. split.
    + intros Hf d [?|?]%elem_of_cons; [naive_solver|eauto].
    + intros Hf d ?. apply Hf. by right.
Qed.

(** Splitting the edges by where their source lies. *)
Lemma cntE_split E done queue n :
  (∀ d, d ∈ queue → d ∉ done) →
  cntE E (.∉ done) n = cntE E (.∈ queue) n + cntE E (.∉ done ++ queue) n.
Proof.
  intros Hdisj. induction E as [|[d n'] E IH]; [done|].
  rewrite !cntE_cons, IH. simpl.
  repeat case_decide; try lia; set_solver.
Qed.
End counting.

#[local] Open Scope Z_scope.

Lemma deg_insert m n k (v : Z) : deg (<[n := v]> m) k = if decide (n = k) then v else deg m k.
Proof. unfold deg. rewrite lookup_insert. by case_decide. Qed.

(** ** The loops *)

(** One pass over neighbours: every in-degree drops by the number of visits,
    and a step joins the next queue exactly when its positive in-degree is
    used up, once. *)
Lemma visitNeighbors_spec ns inDegree next inDegree' next' :
  visitNeighbors ns inDegree next = (inDegree', next') →
  (∀ n, deg inDegree' n = deg inDegree n - Z.of_nat (occ n ns)) ∧
  ∃ new, next' = next ++ new ∧ NoDup new ∧
    ∀ n, n ∈ new ↔ 0 < deg inDegree n ≤ Z.of_nat (occ n ns).
Proof.
  revert inDegree next. induction ns as [|x ns IH]; intros m next; simpl.
  - intros [= <- <-]. split; [intros n; rewrite occ_nil; lia|].
    exists []. rewrite app_nil_r. split_and!; [done|apply NoDup_nil_2|].
    intros n. rewrite occ_nil. split; [set_solver|lia].
  - fold (deg m x). intros Hv. apply IH in Hv as (Hdeg & new & -> & Hnd & Hnew). split.
    { intros n. rewrite Hdeg, deg_insert, occ_cons. repeat case_decide; subst; try done; lia. }
    destruct (deg m x - 1 =? 0) eqn:Hx; [apply Z.eqb_eq in Hx|apply Z.eqb_neq in Hx].
    + exists (x :: new). rewrite <-app_assoc. split_and!; [done| |].
      * apply NoDup_cons_2; [|done].
        rewrite Hnew, deg_insert. repeat case_decide; [lia|done].
      * intros n. rewrite elem_of_cons, Hnew, deg_insert, occ_cons.
        repeat case_decide; subst; try done.
        { split; [lia|by left]. }
        split; [intros [->|?]; [done|lia]|right; lia].
    + exists new. split_and!; [done|done|].
      intros n. rewrite Hnew, deg_insert, occ_cons.
      repeat case_decide; subst; try done; lia.
Qed.

Lemma visitNeighbors_app ns1 ns2 m next :
  visitNeighbors (ns1 ++ ns2) m next =
    let '(m', next') := visitNeighbors ns1 m next in visitNeighbors ns2 m' next'.
Proof. revert m next. induction ns1 as [|x ns1 IH]; intros m next; simpl; [done|apply IH]. Qed.

(** The neighbours of a step in an adjacency list. *)
Definition adj (adjList : gmap string (list string)) (d : string) : list string :=
  default [] (adjList !! d).

Lemma visitQueue_flat adjList queue m next :
  visitQueue adjList queue m next = visitNeighbors (queue ≫= adj adjList) m next.
Proof.
  revert m next. induction queue as [|q queue IH]; intros m next; [done|].
  rewrite bind_cons, visitNeighbors_app. simpl. unfold adj at 1.
  destruct (visitNeighbors _ m next) as [m' next']. apply IH.
Qed.

(** ** The maps built from the edges *)

Lemma foldl_addEdge_deg E m a n :
  deg (foldl addEdge (m, a) E).1 n = deg m n + Z.of_nat (occ n E.*2).
Proof.
  revert m a. induction E as [|[d k] E IH]; intros m a.
  - simpl. rewrite occ_nil. lia.
  - rewrite fmap_cons. cbn [foldl addEdge snd]. rewrite IH, occ_cons. fold (deg m k). rewrite deg_insert. repeat case_decide; subst; try done; lia.
Qed.

Lemma foldl_addEdge_adj E m a d :
  adj (foldl addEdge (m, a) E).2 d = adj a d ++ (filter (λ e, e.1 = d) E).*2.
Proof.
  revert m a. induction E as [|[d' k] E IH]; intros m a; simpl.
  - by rewrite app_nil_r.
  - rewrite IH, filter_cons. simpl. unfold adj. rewrite lookup_insert.
    case_decide; simpl; subst; [|done]. by rewrite <-app_assoc.
Qed.

Lemma foldl_init_lookup {V} (v : V) steps (m : gmap string V) n :
  foldl (λ m step, <[Name step := v]> m) m steps !! n =
    if decide (n ∈ Name <$> steps) then Some v else m !! n.
Proof.
  revert m. induction steps as [|step steps IH]; intros m; [done|].
  simpl. rewrite IH, lookup_insert.
  repeat case_decide; try done; set_solver.
Qed.

Lemma initInDegree_deg steps n : deg (initInDegree steps) n = 0.
Proof. unfold deg, initInDegree. rewrite foldl_init_lookup. by case_decide. Qed.

Lemma initAdjList_adj steps d : adj (initAdjList steps) d = [].
Proof. unfold adj, initAdjList. rewrite foldl_init_lookup. by case_decide. Qed.

Lemma edges_depends steps d n : (d, n) ∈ edges steps ↔ depends_on steps d n.
Proof.
  unfold edges, depends_on. rewrite list_elem_of_bind. split.
  - intros (step & (dep & ? & ?)%list_elem_of_fmap & ?). simplify_eq. eauto.
  - intros (step & ? & <- & ?). exists step. split; [|done].
    apply list_elem_of_fmap. eauto.
Qed.

Lemma occ_bind_adj E (a : gmap string (list string)) queue n :
  NoDup queue → (∀ d, adj a d = (filter (λ e, e.1 = d) E).*2) →
  occ n (queue ≫= adj a) = cntE E (.∈ queue) n.
Proof.
  intros Hnd Ha. induction queue as [|q queue IH].
  { simpl. rewrite occ_nil. symmetry. apply cntE_zero. set_solver. }
  apply NoDup_cons in Hnd as [Hq Hnd].
  rewrite bind_cons, occ_app, IH, Ha by done. clear IH Hnd Ha.
  induction E as [|[d k] E IH]; [done|].
  rewrite !cntE_cons, <-IH, filter_cons. simpl.
  repeat case_decide; simpl; rewrite ?occ_cons; simpl; repeat case_decide; set_solver by lia.
Qed.

(** ** The sort: invariant, termination, order *)

Section sort.
Context (E : list (string * string)) (names : list string)
  (adjList : gmap string (list string)).
Hypothesis Hadj : ∀ d, adj adjList d = (filter (λ e, e.1 = d) E).*2.
Hypothesis Htargets : ∀ d n, (d, n) ∈ E → n ∈ names.

(** The loop invariant: [inDegree] counts the edges from steps not yet in
    [finished]; the steps whose count is zero are those finished or queued. *)
Record sort_inv (finished queue : list string) (inDegree : gmap string Z) : Prop := {
  inv_NoDup : NoDup (finished ++ queue);
  inv_deg n : deg inDegree n = Z.of_nat (cntE E (.∉ finished) n);
  inv_ready n : n ∈ finished ++ queue ↔ n ∈ names ∧ cntE E (.∉ finished) n = 0%nat;
}.

(** Every step of a level has its dependencies in earlier levels. *)
Definition ordered (levels : list (list string)) : Prop :=
  ∀ before level after d n,
    levels = before ++ level :: after → n ∈ level → (d, n) ∈ E →
    d ∈ concat before.

Lemma sort_inv_step finished queue inDegree inDegree' next :
  sort_inv finished queue inDegree →
  visitQueue adjList queue inDegree [] = (inDegree', next) →
  sort_inv (finished ++ queue) next inDegree' ∧
  (∀ n, n ∈ next ↔ n ∈ names ∧ n ∉ finished ++ queue ∧
     ∀ d, (d, n) ∈ E → d ∈ finished ++ queue).
Proof.
  intros [Hnd Hdeg Hready]. rewrite visitQueue_flat.
  intros (Hdeg' & new & -> & Hnew & Hin)%visitNeighbors_spec. simpl.
  pose proof Hnd as (_ & Hdisj & Hq)%NoDup_app.
  assert (∀ d, d ∈ queue → d ∉ finished) as Hdisj' by set_solver.
  assert (∀ n, cntE E (.∉ finished) n =
    (cntE E (.∈ queue) n + cntE E (.∉ finished ++ queue) n)%nat) as Hsplit
    by (intros n; by apply cntE_split).
  assert (∀ n, n ∈ new ↔ (0 < cntE E (.∉ finished) n)%nat ∧
    cntE E (.∉ finished ++ queue) n = 0%nat) as Hin'.
  { intros n. rewrite Hin, Hdeg, (occ_bind_adj E) by done. rewrite (Hsplit n). lia. }
  assert (∀ n, (0 < cntE E (.∉ finished) n)%nat → n ∈ names) as Hnames.
  { intros n Hn. destruct (decide (n ∈ names)) as [|Hne]; [done|].
    assert (cntE E (.∉ finished) n = 0%nat); [|lia].
    apply cntE_zero. intros d ?. destruct Hne. by eapply Htargets. }
  split; [split|].
  - apply NoDup_app. split_and!; [done| |done].
    intros n Hn%Hready. rewrite Hin'. lia.
  - intros n. rewrite Hdeg', Hdeg, (occ_bind_adj E) by done. rewrite (Hsplit n). lia.
  - intros n. rewrite elem_of_app, Hready, Hin'. rewrite (Hsplit n).
    split; [|destruct (decide (cntE E (.∈ queue) n = 0%nat)); intuition lia].
    intros [[? ?]|[? ?]]; [split; [done|lia]|].
    split; [apply Hnames; rewrite (Hsplit n); lia|lia].
  - intros n. rewrite Hin', Hready, cntE_zero. split.
    + intros [Hp Hz]. split_and!; [by apply Hnames|intuition lia|].
      intros d Hd. destruct (decide (d ∈ finished ++ queue)); [done|].
      exfalso. by eapply Hz.
    + intros (Hn & Hnr & Hd). split; [|naive_solver].
      destruct (decide (cntE E (.∉ finished) n = 0%nat)); [|lia].
      destruct Hnr. done.
Qed.

Lemma ordered_snoc levels queue :
  ordered levels → (∀ d n, n ∈ queue → (d, n) ∈ E → d ∈ concat levels) →
  ordered (levels ++ [queue]).
Proof.
  intros Hord Hq before level after d n Heq Hn Hd.
  destruct after as [|a after _] using rev_ind.
  - apply app_inj_tail in Heq as [-> ->]. eauto.
  - rewrite app_comm_cons, app_assoc in Heq. apply app_inj_tail in Heq as [-> _]. eauto.
Qed.

Lemma sortLevels_total fuel queue inDegree levels :
  sort_inv (concat levels) queue inDegree →
  ordered levels →
  (length names ≤ fuel + length (concat levels))%nat →
  ∃ levels' inDegree',
    sortLevels fuel adjList queue inDegree levels = Some levels' ∧
    sort_inv (concat levels') [] inDegree' ∧ ordered levels'.
Proof.
  revert queue inDegree levels.
  induction fuel as [|fuel IH]; intros queue inDegree levels Hinv Hord Hfuel.
  - destruct queue as [|q queue]; [by eauto 10|]. exfalso.
    destruct Hinv as [Hnd _ Hready].
    assert (length (concat levels ++ q :: queue) ≤ length names)%nat as Hlen.
    { apply submseteq_length, NoDup_submseteq; [done|]. intros n Hn%Hready. naive_solver. }
    rewrite length_app in Hlen. simpl in Hlen. lia.
  - destruct queue as [|q queue']; [simpl; eauto 10|].
    remember (q :: queue') as queue eqn:Hqueue.
    assert (sortLevels (S fuel) adjList queue inDegree levels =
      let '(inDegree', nextQueue) := visitQueue adjList queue inDegree [] in
      sortLevels fuel adjList nextQueue inDegree' (levels ++ [queue])) as -> by by subst.
    destruct (visitQueue adjList queue inDegree []) as [inDegree' next] eqn:Hv.
    destruct (sort_inv_step _ _ _ _ _ Hinv Hv) as [Hinv' _].
    apply IH.
    + by rewrite concat_app, concat_cons, app_nil_r.
    + apply ordered_snoc; [done|]. intros d n Hn Hd.
      destruct (decide (d ∈ concat levels)) as [|Hne]; [done|exfalso].
      destruct Hinv as [_ _ Hready].
      destruct (Hready n) as [[_ Hz] _]; [set_solver|].
      rewrite cntE_zero in Hz. by eapply Hz.
    + rewrite concat_app, concat_cons, app_nil_r, length_app. subst queue. simpl. lia.
Qed.
End sort.

(** ** Acyclicity *)

(** A non-empty finite set in which everything has a predecessor has a cycle. *)
Section cycles.
Context (R : string → string → Prop) `{!RelDecision R} (X : list string).
Hypothesis Hpred : ∀ x, x ∈ X → ∃ y, y ∈ X ∧ R y x.

(** A walk against [R], nearest step first. *)
Definition descends (l : list string) : Prop :=
  ∀ i x y, l !! i = Some x → l !! S i = Some y → R y x.

Lemma descends_tc l i j x y :
  descends l → (i < j)%nat → l !! i = Some x → l !! j = Some y → tc R y x.
Proof.
  intros Hl Hij Hx. revert y. induction Hij as [|j Hij IH]; intros y Hy.
  - apply tc_once. by eapply Hl.
  - destruct (lookup_lt_is_Some_2 l j) as [z Hz].
    { apply lookup_lt_Some in Hy. lia. }
    eapply tc_l; [by eapply Hl|by apply IH].
Qed.

Lemma descends_exists x k :
  x ∈ X → ∃ l, length l = k ∧ (∀ y, y ∈ l → y ∈ X) ∧ descends (x :: l).
Proof.
  revert x. induction k as [|k IH]; intros x Hx.
  - exists []. split_and!; [done|set_solver|]. by intros [|i] ?? ? ?.
  - destruct (Hpred x Hx) as (y & Hy & HR).
    destruct (IH y Hy) as (l & Hlen & Hin & Hl).
    exists (y :: l). split_and!; [simpl; lia|set_solver|].
    intros [|i] a b Ha Hb; simpl in *; [by simplify_eq|by eapply Hl].
Qed.

Lemma not_NoDup_repeat (l : list string) :
  ¬ NoDup l → ∃ i j x, (i < j)%nat ∧ l !! i = Some x ∧ l !! j = Some x.
Proof.
  induction l as [|a l IH]; intros Hnd; [destruct Hnd; apply NoDup_nil_2|].
  destruct (decide (a ∈ l)) as [[j Hj]%list_elem_of_lookup|Ha].
  - exists 0%nat, (S j), a. split_and!; [lia|done|done].
  - destruct IH as (i & j & x & Hij & Hi & Hj).
    { intros ?. destruct Hnd. by apply NoDup_cons. }
    exists (S i), (S j), x. split_and!; [lia|done|done].
Qed.

Lemma finite_cycle x : x ∈ X → ∃ z, tc R z z.
Proof.
  intros Hx. destruct (descends_exists x (length X) Hx) as (l & Hlen & Hin & Hl).
  destruct (not_NoDup_repeat (x :: l)) as (i & j & z & Hij & Hi & Hj).
  - intros Hnd. assert (length (x :: l) ≤ length X)%nat; [|simpl in *; lia].
    apply submseteq_length, NoDup_submseteq; [done|set_solver].
  - exists z. by eapply descends_tc.
Qed.
End cycles.

#[export] Instance depends_on_dec steps : RelDecision (depends_on steps).
Proof.
  intros d n. refine (cast_if (decide ((d, n) ∈ edges steps))); by rewrite <-edges_depends.
Defined.

Lemma elem_of_concat (x : string) ls : x ∈ concat ls ↔ ∃ l, l ∈ ls ∧ x ∈ l.
Proof. induction ls as [|l ls IH]; simpl; [set_solver|]. rewrite elem_of_app, IH. set_solver. Qed.

(** ** The initial state of the sort *)

Lemma edges_target steps d n : (d, n) ∈ edges steps → n ∈ Name <$> steps.
Proof.
  rewrite edges_depends. intros (step & ? & <- & _). apply list_elem_of_fmap. eauto.
Qed.

Lemma foldl_addEdge_lookup E m a n :
  is_Some ((foldl addEdge (m, a) E).1 !! n) ↔ is_Some (m !! n) ∨ n ∈ E.*2.
Proof.
  revert m a. induction E as [|[d k] E IH]; intros m a; [set_solver|].
  rewrite fmap_cons. cbn [foldl addEdge snd].
  rewrite IH, lookup_insert, elem_of_cons. case_decide; naive_solver.
Qed.

Lemma finalInDegree_keys steps n : is_Some (finalInDegree steps !! n) ↔ n ∈ Name <$> steps.
Proof.
  unfold finalInDegree. rewrite foldl_addEdge_lookup. unfold initInDegree.
  rewrite foldl_init_lookup, lookup_empty. split.
  - case_decide; [done|]. intros [[? ?]|([d k] & -> & Hk)%list_elem_of_fmap]; [done|].
    by eapply edges_target.
  - intros ?. left. rewrite decide_True by done. eauto.
Qed.

Lemma finalInDegree_deg steps n :
  deg (finalInDegree steps) n = Z.of_nat (cntE (edges steps) (.∉ []) n).
Proof.
  unfold finalInDegree. rewrite foldl_addEdge_deg, initInDegree_deg, Z.add_0_l. f_equal.
  induction (edges steps) as [|[d k] E IH]; [done|].
  rewrite fmap_cons, occ_cons, cntE_cons, IH. cbn [fst snd].
  assert (d ∉ []) by apply not_elem_of_nil.
  destruct (decide (k = n)), (decide (d ∉ [] ∧ k = n)); tauto.
Qed.

(** The first queue: the steps with in-degree zero, in range order. *)
Definition initialQueue (steps : list WorkflowStep) (order : list string) : list string :=
  filter (λ n, finalInDegree steps !! n = Some 0) order.

Lemma initial_sort_inv steps order :
  range_order (finalInDegree steps) order →
  sort_inv (edges steps) (Name <$> steps) [] (initialQueue steps order) (finalInDegree steps).
Proof.
  intros Ho. split; simpl.
  - apply NoDup_filter. by eapply range_order_NoDup.
  - apply finalInDegree_deg.
  - intros n. unfold initialQueue.
    rewrite list_elem_of_filter, (range_order_elem _ _ _ Ho), finalInDegree_keys.
    assert (n ∈ Name <$> steps → finalInDegree steps !! n = Some 0 ↔
      cntE (edges steps) (.∉ []) n = 0%nat); [|naive_solver].
    intros [v Hv]%finalInDegree_keys. pose proof (finalInDegree_deg steps n) as Hdeg.
    unfold deg in Hdeg. rewrite Hv in *. cbn [default from_option id] in Hdeg. split; [intros [= ->]; lia|].
    intros Hz. f_equal. lia.
Qed.

Lemma checkDependencies_Ok m steps :
  checkDependencies m steps = Ok tt ↔ ∀ d n, depends_on steps d n → is_Some (m !! d).
Proof.
  induction steps as [|step steps IH]; simpl.
  { split; [|done]. intros _ d n (? & ?%elem_of_nil & _). done. }
  destruct (list_find _ _) as [[i dep]|] eqn:Hf.
  - apply list_find_Some in Hf as (Hi & Hn & _). split; [done|]. intros Hd.
    destruct (Hd dep (Name step)) as [? ?]; [|congruence].
    exists step. split_and!; [by left|done|by eapply list_elem_of_lookup_2].
  - apply list_find_None in Hf. rewrite Forall_forall in Hf. rewrite IH. split.
    + intros Hd d n (s & [->|?]%elem_of_cons & Hs & Hin).
      * apply not_eq_None_Some. by apply Hf.
      * apply (Hd d n). by exists s.
    + intros Hd d n (s & ? & ? & ?). apply (Hd d n). exists s. by split; [right|].
Qed.

Lemma checkDependencies_Err m steps e :
  checkDependencies m steps = Err e →
  ∃ d n, e = NonExistentDependency n d ∧ depends_on steps d n ∧ m !! d = None.
Proof.
  induction steps as [|step steps IH]; simpl; [done|].
  destruct (list_find _ _) as [[i dep]|] eqn:Hf.
  - apply list_find_Some in Hf as (Hi & Hn & _). intros [= <-].
    exists dep, (Name step). split_and!; [done| |done].
    exists step. split_and!; [by left|done|by eapply list_elem_of_lookup_2].
  - intros (d & n & -> & (s & ? & ? & ?) & ?)%IH.
    exists d, n. split_and!; [done| |done]. exists s. by split; [right|].
Qed.

Lemma buildStepMap_keys steps n : is_Some (buildStepMap steps !! n) ↔ n ∈ Name <$> steps.
Proof.
  unfold buildStepMap.
  assert (∀ k (m : gmap string nat),
    is_Some (foldl (λ m '(i, step), <[Name step := i]> m) m
      (imap (λ i step, (k + i, step))%nat steps) !! n) ↔
    n ∈ Name <$> steps ∨ is_Some (m !! n)) as Hgen.
  { induction steps as [|step steps IH]; intros k m; [set_solver|].
    simpl. rewrite (imap_ext _ (λ i step, (S k + i, step)%nat)) by (intros; simpl; f_equal; lia).
    rewrite IH, lookup_insert, elem_of_cons. case_decide; naive_solver. }
  specialize (Hgen 0%nat ∅). simpl in Hgen. rewrite (imap_ext _ pair) in Hgen by done.
  rewrite Hgen, lookup_empty. split; [intros [?|[??]]; done|auto].
Qed.

Lemma checkDependencies_closed steps :
  checkDependencies (buildStepMap steps) steps = Ok tt ↔ closed_deps steps.
Proof. rewrite checkDependencies_Ok. unfold closed_deps. by setoid_rewrite buildStepMap_keys. Qed.

(** ** The function as a whole *)

(** What a run of the function does: report a missing dependency, or complete
    the sort and compare the number of steps it placed. *)
Lemma buildDependencyGraph_run order steps :
  range_order (finalInDegree steps) order →
  (∃ d n, buildDependencyGraph order steps = Some (Err (NonExistentDependency n d)) ∧
     depends_on steps d n ∧ d ∉ Name <$> steps) ∨
  (closed_deps steps ∧ ∃ levels inDegree',
     sort_inv (edges steps) (Name <$> steps) (concat levels) [] inDegree' ∧
     ordered (edges steps) levels ∧
     buildDependencyGraph order steps =
       Some (if decide (length (concat levels) = length steps)
             then Ok levels else Err CircularDependency)).
Proof.
  intros Ho. unfold buildDependencyGraph.
  destruct (checkDependencies _ steps) as [[]|e] eqn:Hc.
  - right. split; [by apply checkDependencies_closed|].
    pose proof (initial_sort_inv _ _ Ho) as Hinv.
    pose proof (foldl_addEdge_adj (edges steps) (initInDegree steps) (initAdjList steps)) as Ha.
    unfold initialQueue, finalInDegree in Hinv.
    destruct (foldl addEdge _ _) as [inDegree adjList]. simpl in Hinv, Ha.
    setoid_rewrite initAdjList_adj in Ha. simpl in Ha.
    destruct (sortLevels_total (edges steps) (Name <$> steps) adjList Ha (edges_target steps)
      (length steps) _ inDegree [] Hinv) as (levels & m' & -> & Hinv' & Hord).
    + intros [|??] ?????; done.
    + rewrite length_fmap. lia.
    + exists levels, m'. split_and!; [done|done|]. by case_decide.
  - left. apply checkDependencies_Err in Hc as (d & n & -> & ? & Hd).
    exists d, n. split_and!; [done|done|]. rewrite <-buildStepMap_keys, Hd. by intros [??].
Qed.

(** The steps a finished sort has placed: those whose dependencies are placed. *)
Lemma sort_finished steps finished inDegree n :
  sort_inv (edges steps) (Name <$> steps) finished [] inDegree →
  n ∈ finished ↔ n ∈ Name <$> steps ∧ ∀ d, depends_on steps d n → d ∈ finished.
Proof.
  intros [_ _ Hready]. specialize (Hready n). rewrite app_nil_r, cntE_zero in Hready.
  rewrite Hready. setoid_rewrite <-edges_depends.
  split; intros [? Hd]; (split; [done|]); intros d ?.
  - destruct (decide (d ∈ finished)); [done|]. exfalso. by eapply Hd.
  - intros Hnd. destruct Hnd. by apply Hd.
Qed.

Lemma sort_finished_names steps finished inDegree :
  sort_inv (edges steps) (Name <$> steps) finished [] inDegree →
  finished ⊆+ Name <$> steps.
Proof.
  intros Hinv. apply NoDup_submseteq.
  - pose proof (inv_NoDup _ _ _ _ _ Hinv) as Hnd. by rewrite app_nil_r in Hnd.
  - intros n Hn. by apply (sort_finished _ _ _ _ Hinv) in Hn as [? _].
Qed.

Lemma sort_finished_all steps finished inDegree :
  sort_inv (edges steps) (Name <$> steps) finished [] inDegree →
  length finished = length steps ↔ NoDup (Name <$> steps) ∧ finished ≡ₚ Name <$> steps.
Proof.
  intros Hinv. pose proof (sort_finished_names _ _ _ Hinv) as Hsub.
  pose proof (inv_NoDup _ _ _ _ _ Hinv) as Hnd. rewrite app_nil_r in Hnd. split.
  - intros Hlen. assert (finished ≡ₚ Name <$> steps) as Hp.
    { apply submseteq_length_Permutation; [done|]. rewrite length_fmap. lia. }
    split; [by rewrite <-Hp|done].
  - intros [_ Hp]. by rewrite Hp, length_fmap.
Qed.

(** A closed, acyclic list of steps is placed completely. *)
Lemma sort_finished_acyclic steps finished inDegree :
  sort_inv (edges steps) (Name <$> steps) finished [] inDegree →
  closed_deps steps → NoDup (Name <$> steps) →
  finished ≡ₚ Name <$> steps ∨ ∃ n, tc (depends_on steps) n n.
Proof.
  intros Hinv Hclosed Hnd.
  set (X := filter (.∉ finished) (Name <$> steps)).
  destruct X as [|x X'] eqn:HX.
  - left. pose proof (inv_NoDup _ _ _ _ _ Hinv) as Hnd'. rewrite app_nil_r in Hnd'.
    apply NoDup_Permutation; [done|done|]. intros n. split.
    + intros Hn. by apply (sort_finished _ _ _ _ Hinv) in Hn as [? _].
    + intros Hn. destruct (decide (n ∈ finished)); [done|].
      assert (n ∈ X) as Hx by (apply list_elem_of_filter; done).
      rewrite HX in Hx. by apply elem_of_nil in Hx.
  - right. apply (finite_cycle (depends_on steps) X) with x; [|rewrite HX; by left].
    intros y [Hy Hny]%list_elem_of_filter.
    destruct (decide (Forall (.∈ finished)
      (filter (λ d, depends_on steps d y) (Name <$> steps)))) as [Hall|Hex].
    + destruct Hy. apply (sort_finished _ _ _ _ Hinv). split; [done|]. intros d Hd.
      rewrite Forall_forall in Hall. apply Hall. apply list_elem_of_filter.
      split; [done|]. by eapply Hclosed.
    + apply not_Forall_Exists, Exists_exists in Hex; [|apply _].
      destruct Hex as (d & [Hd ?]%list_elem_of_filter & ?).
      exists d. split; [|done]. by apply list_elem_of_filter.
Qed.

Lemma tc_depends_target steps d n : tc (depends_on steps) d n → n ∈ Name <$> steps.
Proof. induction 1 as [d n Hd|]; [apply edges_depends in Hd; by eapply edges_target|done]. Qed.

(** Indirect dependencies are in earlier levels too. *)
Lemma ordered_tc steps levels d n :
  ordered (edges steps) levels → tc (depends_on steps) d n →
  ∀ before level after, levels = before ++ level :: after → n ∈ level → d ∈ concat before.
Proof.
  intros Hord. induction 1 as [d n Hd|d e n Hd _ IH]; intros before level after Hl Hn.
  - eapply Hord; [done|done|by apply edges_depends].
  - pose proof (IH _ _ _ Hl Hn) as Hin.
    apply elem_of_concat in Hin as (l' & Hl' & Hin).
    apply list_elem_of_split in Hl' as (b & a & ->).
    rewrite concat_app. apply elem_of_app. left.
    eapply (Hord b l' (a ++ level :: after)); [|done|by apply edges_depends].
    by rewrite Hl, <-app_assoc.
Qed.

(** ** Properties of [buildDependencyGraph] *)

(** The levels of an accepted graph. *)
Lemma buildDependencyGraph_levels order steps levels :
  range_order (finalInDegree steps) order →
  buildDependencyGraph order steps = Some (Ok levels) →
  level_order steps levels ∧ NoDup (concat levels).
Proof.
  intros Ho Hb.
  destruct (buildDependencyGraph_run _ _ Ho) as [(? & ? & Hr & _)|(_ & ls & m & Hinv & Hord & Hr)];
    rewrite Hr in Hb; [done|].
  case_decide as Hlen; simplify_eq.
  apply (sort_finished_all _ _ _ Hinv) in Hlen as [Hnd Hp].
  split; [split; [done|]|by rewrite Hp].
  intros before level after d n -> Hn Hd%edges_depends. by eapply Hord.
Qed.

(** C3: the levels the engine executes form a level order of the steps: every
    step is in exactly one level and all its dependencies are in strictly
    earlier levels, so a step never starts before what it depends on. *)
Theorem buildDependencyGraph_sound order steps levels :
  range_order (finalInDegree steps) order →
  buildDependencyGraph order steps = Some (Ok levels) →
  level_order steps levels ∧ NoDup (concat levels).
Proof. apply buildDependencyGraph_levels. Qed.

(** C4: the sort succeeds exactly on the step lists with pairwise distinct
    names, whose dependencies all exist and do not form a cycle. *)
Theorem buildDependencyGraph_complete order steps :
  range_order (finalInDegree steps) order →
  (∃ levels, buildDependencyGraph order steps = Some (Ok levels)) ↔
  NoDup (Name <$> steps) ∧ closed_deps steps ∧ acyclic steps.
Proof.
  intros Ho.
  destruct (buildDependencyGraph_run _ _ Ho)
    as [(d & n & -> & Hd & Hn)|(Hc & ls & m & Hinv & Hord & ->)].
  { split; [by intros [? ?]|]. intros (_ & Hc & _). destruct Hn. by eapply Hc. }
  split.
  - intros [levels Heq]. case_decide as Hlen; simplify_eq.
    apply (sort_finished_all _ _ _ Hinv) in Hlen as [Hnd Hp].
    split_and!; [done|done|].
    intros n Hcyc.
    assert (n ∈ concat levels) as (l & Hl & Hin)%elem_of_concat.
    { rewrite Hp. by eapply tc_depends_target. }
    apply list_elem_of_split in Hl as (b & a & ->).
    pose proof (ordered_tc _ _ _ _ Hord Hcyc _ _ _ eq_refl Hin) as Hn.
    pose proof (inv_NoDup _ _ _ _ _ Hinv) as Hnd'.
    rewrite app_nil_r, concat_app, concat_cons in Hnd'.
    apply NoDup_app in Hnd' as (_ & Hdisj & _). apply (Hdisj n); [done|set_solver].
  - intros (Hnd & _ & Hac). exists ls.
    destruct (sort_finished_acyclic _ _ _ Hinv Hc Hnd) as [Hp|[n Hn]]; [|by destruct (Hac n)].
    by rewrite decide_True by (by rewrite Hp, length_fmap).
Qed.

(** The error is the right one.  A missing dependency is reported with a
    step that has it; "circular dependency" is reported only when every
    dependency exists and either two steps share a name or there is a cycle. *)
Theorem buildDependencyGraph_errors order steps e :
  range_order (finalInDegree steps) order →
  buildDependencyGraph order steps = Some (Err e) →
  match e with
  | NonExistentDependency n d => depends_on steps d n ∧ d ∉ Name <$> steps
  | CircularDependency =>
      closed_deps steps ∧
      (¬ NoDup (Name <$> steps) ∨ ∃ n, tc (depends_on steps) n n)
  end.
Proof.
  intros Ho Hb.
  destruct (buildDependencyGraph_run _ _ Ho)
    as [(d & n & Hr & ? & ?)|(Hc & ls & m & Hinv & Hord & Hr)]; rewrite Hr in Hb.
  { by simplify_eq. }
  case_decide as Hlen; simplify_eq. split; [done|].
  destruct (decide (NoDup (Name <$> steps))) as [Hnd|]; [right|by left].
  destruct (sort_finished_acyclic _ _ _ Hinv Hc Hnd) as [Hp|?]; [|done].
  destruct Hlen. apply (sort_finished_all _ _ _ Hinv). done.
Qed.

(** The sort loop ends: for every step list and every map order the
    function returns, an error or the levels, within one level per step. *)
Theorem buildDependencyGraph_total order steps :
  range_order (finalInDegree steps) order →
  ∃ r, buildDependencyGraph order steps = Some r.
Proof.
  intros Ho. destruct (buildDependencyGraph_run _ _ Ho) as [(? & ? & -> & _)|(_ & ? & ? & _ & _ & ->)]; eauto.
Qed.

(** ** Independence of the map order *)

Lemma NoDup_same_elems (l1 l2 : list string) :
  NoDup l1 → NoDup l2 → (∀ x, x ∈ l1 ↔ x ∈ l2) → l1 ≡ₚ l2.
Proof. apply NoDup_Permutation. Qed.

Lemma visitQueue_perm a q1 q2 m1 m2 m1' m2' n1 n2 :
  q1 ≡ₚ q2 → (∀ n, deg m1 n = deg m2 n) →
  visitQueue a q1 m1 [] = (m1', n1) → visitQueue a q2 m2 [] = (m2', n2) →
  n1 ≡ₚ n2 ∧ ∀ n, deg m1' n = deg m2' n.
Proof.
  intros Hq Hm. rewrite !visitQueue_flat.
  intros (Hd1 & ? & -> & ? & Hn1)%visitNeighbors_spec (Hd2 & ? & -> & ? & Hn2)%visitNeighbors_spec.
  assert (∀ n, occ n (q1 ≫= adj a) = occ n (q2 ≫= adj a)) as Hocc.
  { intros n. apply occ_Permutation. by rewrite Hq. }
  split; [apply NoDup_same_elems; [done|done|]; intros n; simpl; by rewrite Hn1, Hn2, Hm, Hocc|].
  intros n. by rewrite Hd1, Hd2, Hm, Hocc.
Qed.

Lemma sortLevels_perm fuel a q1 q2 m1 m2 r1 r2 :
  q1 ≡ₚ q2 → (∀ n, deg m1 n = deg m2 n) → Forall2 (≡ₚ) r1 r2 →
  option_Forall2 (Forall2 (≡ₚ)) (sortLevels fuel a q1 m1 r1) (sortLevels fuel a q2 m2 r2).
Proof.
  revert q1 q2 m1 m2 r1 r2. induction fuel as [|fuel IH]; intros q1 q2 m1 m2 r1 r2 Hq Hm Hr.
  { destruct q1 as [|x q1]; [apply Permutation_nil_l in Hq as <-; by constructor|].
    destruct q2 as [|y q2]; [by apply symmetry, Permutation_nil_cons in Hq|constructor]. }
  destruct q1 as [|x q1]; [apply Permutation_nil_l in Hq as <-; by constructor|].
  destruct q2 as [|y q2]; [by apply symmetry, Permutation_nil_cons in Hq|].
  cbn [sortLevels]. remember (x :: q1) as p1. remember (y :: q2) as p2.
  destruct (visitQueue a p1 m1 []) as [m1' n1] eqn:H1.
  destruct (visitQueue a p2 m2 []) as [m2' n2] eqn:H2.
  destruct (visitQueue_perm _ _ _ _ _ _ _ _ _ Hq Hm H1 H2).
  apply IH; [done|done|]. apply Forall2_app; [done|]. by constructor.
Qed.

(** Go's unspecified map iteration order does not matter: two runs give the
    same error, or the same levels up to the order of the steps inside each
    level (the steps the engine starts in parallel). *)
Theorem buildDependencyGraph_order_irrelevant order1 order2 steps :
  range_order (finalInDegree steps) order1 →
  range_order (finalInDegree steps) order2 →
  match buildDependencyGraph order1 steps, buildDependencyGraph order2 steps with
  | Some (Ok levels1), Some (Ok levels2) => Forall2 (≡ₚ) levels1 levels2
  | Some (Err e1), Some (Err e2) => e1 = e2
  | _, _ => False
  end.
Proof.
  intros Ho1 Ho2.
  destruct (buildDependencyGraph_total _ _ Ho1) as [r1 Hr1].
  destruct (buildDependencyGraph_total _ _ Ho2) as [r2 Hr2].
  rewrite Hr1, Hr2. unfold buildDependencyGraph in *.
  destruct (checkDependencies _ _) as [?|e]; [|by simplify_eq].
  unfold range_order, finalInDegree in *.
  destruct (foldl addEdge _ _) as [m al]. simpl in *.
  assert (filter (λ n, m !! n = Some 0) order1 ≡ₚ filter (λ n, m !! n = Some 0) order2) as Hq.
  { by rewrite Ho1, Ho2. }
  destruct (sortLevels_perm (length steps) al _ _ m m [] [] Hq) as [l1 l2 Hl|];
    [done|constructor| |done].
  assert (length (concat l1) = length (concat l2)) as Hlen.
  { clear -Hl. induction Hl as [|?? ?? Hp _ IH]; [done|]. simpl. by rewrite !length_app, Hp, IH. }
  rewrite Hlen in Hr1. case_decide; by simplify_eq.
Qed.

(** ** Properties of [ValidateWorkflowDefinition] *)

Lemma validateSteps_spec i S steps :
  validateSteps i S steps = Ok tt ↔
  NoDup (Name <$> steps) ∧ (∀ n, n ∈ Name <$> steps → n ∉ S) ∧
  (∀ before step after, steps = before ++ step :: after →
     Name step ≠ "" ∧ Tool step ≠ "" ∧
     ∀ d, d ∈ DependsOn step → d ∈ S ∨ d ∈ Name <$> (before ++ [step])).
Proof.
  revert i S. induction steps as [|s steps IH]; intros i S; simpl.
  { split; [|done]. intros _. split_and!; [apply NoDup_nil_2|set_solver|].
    by intros [|??] ???. }
  rewrite NoDup_cons. split.
  - intros Hv. do 3 (case_decide; [done|]).
    destruct (list_find _ _) as [[? ?]|] eqn:Hf; [done|].
    apply list_find_None in Hf. rewrite Forall_forall in Hf.
    apply IH in Hv as (Hnd & Hdisj & Hsteps). split_and!; [|done|clear -Hdisj H0; set_solver|].
    { intros Hin. apply (Hdisj _ Hin). set_solver. }
    intros [|b before] step after [= -> ->].
    + split_and!; [done|done|]. intros d Hd. specialize (Hf d Hd). clear -Hf.
      destruct (decide (d ∈ {[Name step]} ∪ S)); [set_solver|done].
    + destruct (Hsteps before step after eq_refl) as (? & ? & Hd). split_and!; [done|done|].
      intros d Hin. rewrite <-app_comm_cons, fmap_cons. clear -Hd Hin.
      destruct (Hd d Hin); set_solver.
  - intros ([Hn Hnd] & Hdisj & Hsteps).
    destruct (Hsteps [] s steps eq_refl) as (? & ? & Hd).
    rewrite !decide_False by set_solver.
    destruct (list_find _ _) as [[j d]|] eqn:Hf.
    { apply list_find_Some in Hf as (Hj & Hnot & _). destruct Hnot.
      apply list_elem_of_lookup_2, Hd in Hj. simpl in Hj. set_solver. }
    apply IH. split_and!; [done|set_solver|].
    intros before step after ->. destruct (Hsteps (s :: before) step after eq_refl) as (? & ? & Hd').
    split_and!; [done|done|]. intros d Hin. specialize (Hd' d Hin).
    rewrite <-app_comm_cons, fmap_cons in Hd'. set_solver.
Qed.

(** A position-based reason for acyclicity: dependencies come earlier. *)
Definition earlier (l : list string) (d n : string) : Prop :=
  ∃ i j, (i < j)%nat ∧ l !! i = Some d ∧ l !! j = Some n.

Lemma earlier_tc l d n : NoDup l → tc (earlier l) d n → earlier l d n.
Proof.
  intros Hnd. induction 1 as [|d e n (i & j & ? & ? & Hj) _ (j' & k & ? & Hj' & ?)]; [done|].
  assert (j = j') as -> by (by eapply NoDup_lookup).
  exists i, k. split_and!; [lia|done|done].
Qed.

Lemma earlier_irrefl l n : NoDup l → ¬ earlier l n n.
Proof.
  intros Hnd (i & j & Hij & Hi & Hj). assert (i = j) by (by eapply NoDup_lookup). lia.
Qed.

Lemma tc_depends_earlier steps l d n :
  (∀ d n, depends_on steps d n → earlier l d n) →
  tc (depends_on steps) d n → tc (earlier l) d n.
Proof. intros Hsub. induction 1; [apply tc_once|eapply tc_l]; eauto. Qed.

Lemma validated_earlier parse spec :
  ValidateWorkflowDefinition parse spec = Ok tt →
  NoDup (Name <$> Steps spec) ∧
  ∀ d n, depends_on (Steps spec) d n → d = n ∨ earlier (Name <$> Steps spec) d n.
Proof.
  unfold ValidateWorkflowDefinition. case_decide; [done|].
  destruct (negb _); [done|]. case_decide; [done|].
  intros (Hnd & _ & Hsteps)%validateSteps_spec. split; [done|].
  intros d n (step & (before & after & Heq)%list_elem_of_split & <- & Hd).
  destruct (Hsteps _ _ _ Heq) as (_ & _ & Hin).
  apply Hin in Hd as [?|Hd]; [set_solver|].
  rewrite fmap_app, elem_of_app in Hd.
  destruct Hd as [(i & Hi)%list_elem_of_lookup|Hd]; [right|left; set_solver].
  exists i, (length before). rewrite Heq, fmap_app, fmap_cons.
  pose proof (lookup_lt_Some _ _ _ Hi) as Hlt. rewrite length_fmap in Hlt.
  split_and!; [done|by apply lookup_app_l_Some|].
  rewrite lookup_app_r by (rewrite length_fmap; lia). by rewrite length_fmap, Nat.sub_diag.
Qed.

(** A definition that passes validation is executable: its dependency graph
    is built without error, unless a step depends on itself, the one case the
    validation lets through (it records a step's name before it checks the
    step's dependencies). *)
Theorem validated_graph parse spec order :
  ValidateWorkflowDefinition parse spec = Ok tt →
  range_order (finalInDegree (Steps spec)) order →
  (∃ levels, buildDependencyGraph order (Steps spec) = Some (Ok levels)) ↔
  ∀ step, step ∈ Steps spec → Name step ∉ DependsOn step.
Proof.
  intros (Hnd & Hdep)%validated_earlier Ho.
  destruct (buildDependencyGraph_run _ _ Ho)
    as [(d & n & _ & Hd & Hn)|(Hc & ls & m & Hinv & Hord & Hb)].
  { destruct Hn. destruct (Hdep _ _ Hd) as [->|(i & j & _ & Hi & _)].
    - apply edges_depends in Hd. by eapply edges_target.
    - by eapply list_elem_of_lookup_2. }
  rewrite Hb. split.
  - intros [levels Heq] step Hin Hself. case_decide as Hlen; simplify_eq.
    apply (sort_finished_all _ _ _ Hinv) in Hlen as [_ Hp].
    assert (depends_on (Steps spec) (Name step) (Name step)) as Hd by (by exists step).
    assert (Name step ∈ concat levels) as (l & Hl & Hn)%elem_of_concat.
    { rewrite Hp. apply edges_depends in Hd. by eapply edges_target. }
    apply list_elem_of_split in Hl as (b & a & ->).
    apply edges_depends in Hd. pose proof (Hord _ _ _ _ _ eq_refl Hn Hd) as Hb'.
    rewrite concat_app, concat_cons in Hp.
    rewrite <-Hp in Hnd. apply NoDup_app in Hnd as (_ & Hdisj & _).
    apply (Hdisj (Name step)); [done|set_solver].
  - intros Hself. exists ls. rewrite decide_True; [done|].
    destruct (sort_finished_acyclic _ _ _ Hinv Hc Hnd) as [Hp|[n Hn]].
    { by rewrite Hp, length_fmap. }
    destruct (earlier_irrefl _ n Hnd). apply earlier_tc; [done|].
    revert Hn. apply tc_depends_earlier.
    intros d' n' Hd. destruct (Hdep _ _ Hd) as [->|?]; [|done].
    destruct Hd as (s & ? & <- & ?). by destruct (Hself s).
Qed.

(** ** Witnesses *)

(** A step with a name, a tool and dependencies, everything else unset. *)
Definition plainStep (name : string) (deps : list string) : WorkflowStep := {|
  Name := name; Tool := "tool"; Parameters := ∅; DependsOn := deps; Condition := "";
  RunPolicy := ""; ContinueOnError := false; Timeout := ""; RetryPolicy := None |}.

Definition diamond : list WorkflowStep :=
  [plainStep "a" []; plainStep "b" ["a"]; plainStep "c" ["a"]; plainStep "d" ["b"; "c"]].

(** The order a [gmap] lists its keys in. *)
Definition someOrder (steps : list WorkflowStep) : list string :=
  (map_to_list (finalInDegree steps)).*1.

Lemma someOrder_range steps : range_order (finalInDegree steps) (someOrder steps).
Proof. unfold range_order, someOrder. reflexivity. Qed.

Example diamond_levels :
  buildDependencyGraph (someOrder diamond) diamond = Some (Ok [["a"]; ["b"; "c"]; ["d"]]).
Proof. vm_compute. reflexivity. Qed.

Lemma buildDependencyGraph_sound_witness :
  level_order diamond [["a"]; ["b"; "c"]; ["d"]] ∧
  NoDup (concat [["a"]; ["b"; "c"]; ["d"]]).
Proof.
  apply (buildDependencyGraph_sound (someOrder diamond)); [apply someOrder_range|vm_compute; reflexivity].
Defined.

Lemma buildDependencyGraph_complete_witness :
  NoDup (Name <$> diamond) ∧ closed_deps diamond ∧ acyclic diamond.
Proof.
  apply (buildDependencyGraph_complete (someOrder diamond)); [apply someOrder_range|].
  exists [["a"]; ["b"; "c"]; ["d"]]. vm_compute. reflexivity.
Defined.

(** Two steps of one name are reported as a circular dependency. *)
Lemma buildDependencyGraph_errors_witness :
  let steps := [plainStep "a" []; plainStep "a" []] in
  closed_deps steps ∧ (¬ NoDup (Name <$> steps) ∨ ∃ n, tc (depends_on steps) n n).
Proof.
  intros steps.
  apply (buildDependencyGraph_errors (someOrder steps) steps CircularDependency);
    [apply someOrder_range|vm_compute; reflexivity].
Defined.

Lemma buildDependencyGraph_total_witness :
  ∃ r, buildDependencyGraph (someOrder diamond) diamond = Some r.
Proof. apply buildDependencyGraph_total. apply someOrder_range. Defined.

Lemma buildDependencyGraph_order_irrelevant_witness :
  match buildDependencyGraph (someOrder diamond) diamond,
        buildDependencyGraph (reverse (someOrder diamond)) diamond with
  | Some (Ok levels1), Some (Ok levels2) => Forall2 (≡ₚ) levels1 levels2
  | Some (Err e1), Some (Err e2) => e1 = e2
  | _, _ => False
  end.
Proof.
  apply buildDependencyGraph_order_irrelevant; [apply someOrder_range|].
  unfold range_order. rewrite reverse_Permutation. reflexivity.
Defined.

Lemma validated_graph_witness :
  (∃ levels, buildDependencyGraph (someOrder diamond) diamond = Some (Ok levels)) ↔
  ∀ step, step ∈ diamond → Name step ∉ DependsOn step.
Proof.
  apply (validated_graph (λ _, true) {| Schedule := "* * * * *"; Steps := diamond; WfTimeout := "" |});
    [vm_compute; reflexivity|apply someOrder_range].
Defined.

(** Validation accepts a step that depends on itself; the graph then fails. *)
Example validated_self_dependency :
  ValidateWorkflowDefinition (λ _, true)
    {| Schedule := "* * * * *"; Steps := [plainStep "a" ["a"]]; WfTimeout := "" |} = Ok tt ∧
  buildDependencyGraph ["a"] [plainStep "a" ["a"]] = Some (Err CircularDependency).
Proof. split; vm_compute; reflexivity. Qed.
