(* ===== verification/WorkflowEngine.v ===== *)
(** * The workflow engine

    internal/scheduler/workflow_engine.go (ExecuteWorkflow,
    executeStepsInOrder, executeStep, shouldSkipStep) and the TemplateEngine of
    internal/scheduler/tool_executor.go.  The goroutines of a level, the two
    channels they report on and the select loop that collects them are modelled
    as actions of a level state, so a schedule is a list of actions; a step's
    tool calls are an environment the schedule supplies.  A step's goroutine is
    one action, as it shares only the template outputs, behind their mutex, with
    the others.  Fields that are only reported (execution and workflow IDs and
    names, log lines) are left out. *)
From S2P Require Import Prelude GoString WorkflowGraph.
From Stdlib Require Import Qcanon.

#[local] Open Scope Z_scope.

(** ** Data *)

Inductive StepExecutionStatus :=
  | StepPending | StepRunning | StepSucceeded | StepFailed | StepSkipped | StepRetrying.

Inductive WorkflowExecutionStatus :=
  | WorkflowRunning | WorkflowSucceeded | WorkflowFailed | WorkflowCancelled.

#[export] Instance StepExecutionStatus_eq_dec : EqDecision StepExecutionStatus.
Proof. solve_decision. Defined.

(** The errors the engine reports, one constructor per message. *)
Inductive EngineError :=
  | TemplateFailed
  | InvalidBoolean (v : string)
  | NotABoolean
  | ConditionFailed (e : EngineError)
  | RenderFailed
  | ToolError (msg : string)
  | ToolExecutionFailed (msg : string)
  | ContextDone
  | FailedAfter (attempts : Z) (last : option EngineError)
  | StepFailedError (step : string) (last : option EngineError)
  | LevelFailed (i : nat) (e : EngineError)
  | ExecutionCancelled
  | StoppedDueToFailures
  | GraphFailed (e : GraphError).

(** [StepExecution]; a zero [EndTime] is [None], an empty [Error] is [None]. *)
Record StepExecution := {
  se_Name : string;
  se_Tool : string;
  se_Parameters : gmap string Value;
  se_StartTime : Z;
  se_EndTime : option Z;
  se_Status : StepExecutionStatus;
  se_Output : Value;
  se_Error : option EngineError;
  se_Attempts : Z;
  se_Duration : Z;
  se_Condition : string;
  se_Skipped : bool;
  se_SkipReason : string;
}.

(** [StepExecutionResult], the fields the engine reads; [sr_Error] is the text
    of the error. *)
Record StepExecutionResult := {
  sr_Success : bool;
  sr_Output : Value;
  sr_Duration : Z;
  sr_Error : string;
}.

Record WorkflowExecutionContext := {
  ExecutionTimeout : Z;
  StepOutputs : gmap string Value;
  FailureThreshold : nat;
  FailureCount : nat;
  ContinueOnFailure : bool;
}.

Record WorkflowExecution := {
  we_StartTime : Z;
  we_EndTime : option Z;
  we_Status : WorkflowExecutionStatus;
  we_Steps : list StepExecution;
  we_Error : option EngineError;
  we_Context : WorkflowExecutionContext;
}.

(** ** TemplateEngine *)

Section template_engine.
(** [executeTemplate s outputs] is text/template with the sprig functions on
    template text [s]; [jsonUnmarshal] is encoding/json into an interface. *)
Context (executeTemplate : string → gmap string Value → option string)
  (jsonUnmarshal : string → option Value).

Definition renderString (stepOutputs : gmap string Value) (templateStr : string) :
    res EngineError Value :=
  if negb (Contains templateStr "{{") then Ok (VString templateStr)
  else
    match executeTemplate templateStr stepOutputs with
    | None => Err TemplateFailed
    | Some result =>
        match jsonUnmarshal result with
        | Some jsonResult => Ok jsonResult
        | None => Ok (VString result)
        end
    end.

Fixpoint renderValue (stepOutputs : gmap string Value) (value : Value) :
    res EngineError Value :=
  match value with
  | VString s => renderString stepOutputs s
  | VMap m =>
      rendered ← (fix renderMap (m : list (string * Value)) : res EngineError _ :=
        match m with
        | [] => Ok []
        | (k, val) :: m' =>
            renderedVal ← renderValue stepOutputs val;
            rest ← renderMap m';
            Ok ((k, renderedVal) :: rest)
        end) m;
      Ok (VMap rendered)
  | VSlice l =>
      rendered ← (fix renderSlice (l : list Value) : res EngineError _ :=
        match l with
        | [] => Ok []
        | val :: l' =>
            renderedVal ← renderValue stepOutputs val;
            rest ← renderSlice l';
            Ok (renderedVal :: rest)
        end) l;
      Ok (VSlice rendered)
  | _ => Ok value
  end.

(** Whatever the order of the parameters, one that fails to render fails the
    call. *)
Definition RenderParameters (stepOutputs parameters : gmap string Value) :
    res EngineError (gmap string Value) :=
  if decide (map_Forall (λ _ v, is_ok (renderValue stepOutputs v) = true) parameters)
  then Ok (omap (λ v, match renderValue stepOutputs v with
                      | Ok r => Some r | Err _ => None end) parameters)
  else Err RenderFailed.

(** The type switch on the rendered value.  [v != 0] compares interfaces, so
    an [int64] differs from the [int] 0 whatever its value. *)
Definition EvaluateCondition (stepOutputs : gmap string Value) (condition : string) :
    res EngineError bool :=
  if decide (condition = "") then Ok true
  else
    rendered ← renderString stepOutputs condition;
    match rendered with
    | VBool b => Ok b
    | VString v =>
        if decide (ToLower v ∈ ["true"; "1"; "yes"; "on"]) then Ok true
        else if decide (ToLower v ∈ ["false"; "0"; "no"; "off"; ""]) then Ok false
        else Err (InvalidBoolean v)
    | VInt z => Ok (negb (z =? 0))
    | VInt64 _ => Ok true
    | VFloat64 q => Ok (negb (bool_decide (q = Q2Qc (QArith_base.Qmake 0 1))))
    | _ => Err NotABoolean
    end.
End template_engine.

Definition SetStepOutput (stepOutputs : gmap string Value) (stepName : string) (output : Value) :
    gmap string Value := <[stepName := output]> stepOutputs.

(** ** executeStep *)

(** [shouldSkipStep]: whether to skip, and the reason. *)
Definition shouldSkipStep (step : WorkflowStep) (failureCount : nat) : bool * string :=
  if decide (RunPolicy step = WorkflowRunAlways) then (false, "")
  else if decide (RunPolicy step = WorkflowRunOnSuccess) then
    (if (0 <? failureCount)%nat
     then (true, "Previous steps have failures and run policy is OnSuccess") else (false, ""))
  else if decide (RunPolicy step = WorkflowRunOnFailure) then
    (if (failureCount =? 0)%nat
     then (true, "No previous failures and run policy is OnFailure") else (false, ""))
  else (false, "").

(** What the outside world does during one execution of a step: the answer of
    [toolExecutor.ExecuteStepWithContext] on each attempt, whether the context
    is done while waiting before each attempt, and the two clock readings. *)
Record StepEnv := {
  env_exec : string → gmap string Value → Z → res string StepExecutionResult;
  env_done : Z → bool;
  env_start : Z;
  env_end : Z;
}.

(** The ways out of the retry loop: the attempt that succeeded, the attempt
    whose wait was interrupted, or the last error. *)
Inductive LoopResult :=
  | LoopSuccess (attempt : Z) (r : StepExecutionResult)
  | LoopCancelled (attempt : Z)
  | LoopExhausted (lastError : option EngineError).

(** [for attempt := 1; attempt <= maxRetries; attempt++]: [remaining] iterations
    are left, the next being [attempt]. *)
Fixpoint attemptLoop (exec : Z → res string StepExecutionResult) (done : Z → bool)
    (remaining : nat) (attempt : Z) (lastError : option EngineError) : LoopResult :=
  match remaining with
  | O => LoopExhausted lastError
  | S remaining' =>
      if (1 <? attempt) && done attempt then LoopCancelled attempt
      else
        match exec attempt with
        | Err e => attemptLoop exec done remaining' (attempt + 1) (Some (ToolError e))
        | Ok result =>
            if sr_Success result then LoopSuccess attempt result
            else attemptLoop exec done remaining' (attempt + 1)
                   (Some (ToolExecutionFailed (sr_Error result)))
        end
  end.

(** [maxRetries]: 3, or the [int32] of the retry policy. *)
Definition maxRetriesOf (step : WorkflowStep) : Z :=
  match RetryPolicy step with None => 3 | Some p => MaxRetries p end.

(** Completing the record of a step: its status, error and attempts, the end
    time and the elapsed time. *)
Definition finishStep (step : WorkflowStep) (env : StepEnv) (params : gmap string Value)
    (status : StepExecutionStatus) (output : Value) (err : option EngineError)
    (attempts duration : Z) (skipped : bool) (reason : string) : StepExecution := {|
  se_Name := Name step; se_Tool := Tool step; se_Parameters := params;
  se_StartTime := env_start env; se_EndTime := Some (env_end env); se_Status := status;
  se_Output := output; se_Error := err; se_Attempts := attempts; se_Duration := duration;
  se_Condition := Condition step; se_Skipped := skipped; se_SkipReason := reason |}.

Section execute_step.
Context (executeTemplate : string → gmap string Value → option string)
  (jsonUnmarshal : string → option Value).

(** The result: the step's record, the error the function returns, and
    whether it set [execution.Context.ContinueOnFailure]. *)
Definition executeStep (stepOutputs : gmap string Value) (failureCount : nat)
    (env : StepEnv) (step : WorkflowStep) :
    StepExecution * option EngineError * bool :=
  let elapsed := env_end env - env_start env in
  let fail params err attempts :=
    finishStep step env params StepFailed VNil (Some err) attempts elapsed false "" in
  let skip reason :=
    finishStep step env (Parameters step) StepSkipped VNil None 0 elapsed true reason in
  let '(skipIt, reason) := shouldSkipStep step failureCount in
  if skipIt then (skip reason, None, false)
  else
    match (if decide (Condition step = "") then Ok true
           else EvaluateCondition executeTemplate jsonUnmarshal stepOutputs (Condition step)) with
    | Err e => (fail (Parameters step) (ConditionFailed e) 0, Some (ConditionFailed e), false)
    | Ok false => (skip "Condition evaluated to false", None, false)
    | Ok true =>
        match RenderParameters executeTemplate jsonUnmarshal stepOutputs (Parameters step) with
        | Err e => (fail (Parameters step) e 0, Some e, false)
        | Ok params =>
            let maxRetries := maxRetriesOf step in
            match attemptLoop (env_exec env (Tool step) params) (env_done env)
                    (Z.to_nat maxRetries) 1 None with
            | LoopSuccess attempt r =>
                (finishStep step env params StepSucceeded (sr_Output r) None attempt
                   (sr_Duration r) false "", None, false)
            | LoopCancelled attempt =>
                (fail params ContextDone attempt, Some ContextDone, false)
            | LoopExhausted lastError =>
                let se := fail params (FailedAfter maxRetries lastError) (Z.max 0 maxRetries) in
                if ContinueOnError step then (se, None, true)
                else (se, Some (StepFailedError (Name step) lastError), false)
            end
        end
    end.
End execute_step.

(** ** executeStepsInOrder *)

(** The state the engine keeps across levels: the template engine's outputs
    (which outlive one workflow) and the execution. *)
Record EngineState := {
  templateOutputs : gmap string Value;
  execution : WorkflowExecution;
}.

Definition set_Context (f : WorkflowExecutionContext → WorkflowExecutionContext)
    (x : WorkflowExecution) : WorkflowExecution := {|
  we_StartTime := we_StartTime x; we_EndTime := we_EndTime x; we_Status := we_Status x;
  we_Steps := we_Steps x; we_Error := we_Error x; we_Context := f (we_Context x) |}.

Definition set_ContinueOnFailure (b : bool) (c : WorkflowExecutionContext) :
    WorkflowExecutionContext := {|
  ExecutionTimeout := ExecutionTimeout c; StepOutputs := StepOutputs c;
  FailureThreshold := FailureThreshold c; FailureCount := FailureCount c;
  ContinueOnFailure := b |}.

Definition add_FailureCount (n : nat) (c : WorkflowExecutionContext) :
    WorkflowExecutionContext := {|
  ExecutionTimeout := ExecutionTimeout c; StepOutputs := StepOutputs c;
  FailureThreshold := FailureThreshold c; FailureCount := (FailureCount c + n)%nat;
  ContinueOnFailure := ContinueOnFailure c |}.

Definition put_StepOutput (name : string) (v : Value) (c : WorkflowExecutionContext) :
    WorkflowExecutionContext := {|
  ExecutionTimeout := ExecutionTimeout c; StepOutputs := <[name := v]> (StepOutputs c);
  FailureThreshold := FailureThreshold c; FailureCount := FailureCount c;
  ContinueOnFailure := ContinueOnFailure c |}.

(** A level in progress: the goroutines that have not run, the contents of the
    two channels, and the collector's [completedSteps] and [levelError]. *)
Record LevelState := {
  ls_engine : EngineState;
  ls_todo : list string;
  ls_results : list StepExecution;
  ls_errors : list EngineError;
  ls_completed : nat;
  ls_levelError : option EngineError;
}.

Definition startLevel (level : list string) (st : EngineState) : LevelState := {|
  ls_engine := st; ls_todo := level; ls_results := []; ls_errors := [];
  ls_completed := 0; ls_levelError := None |}.

(** The collector's [case result := <-stepResults]. *)
Definition recordResult (st : EngineState) (r : StepExecution) : EngineState :=
  let x := execution st in
  let x' := {| we_StartTime := we_StartTime x; we_EndTime := we_EndTime x;
               we_Status := we_Status x; we_Steps := we_Steps x ++ [r];
               we_Error := we_Error x; we_Context := we_Context x |} in
  if decide (se_Status r = StepSucceeded)
  then {| templateOutputs := SetStepOutput (templateOutputs st) (se_Name r) (se_Output r);
          execution := set_Context (put_StepOutput (se_Name r) (se_Output r)) x' |}
  else {| templateOutputs := templateOutputs st; execution := x' |}.

(** What can happen while the collector waits: the [i]th of the goroutines that
    have not run runs to its end, with the world answering as [env]; or the
    collector receives from one of its channels. *)
Inductive action :=
  | ARun (i : nat) (env : StepEnv)
  | ARecvResult
  | ARecvError.

(** The schedule of a level: its actions, and whether the collector's wait ends
    by [ctx.Done()]. *)
Record LevelSchedule := { actions : list action; cancelled : bool }.

Section execute_order.
Context (executeTemplate : string → gmap string Value → option string)
  (jsonUnmarshal : string → option Value)
  (stepMap : gmap string WorkflowStep).

(** One action; [None] when it is not enabled.  A goroutine reads the failure
    count and the template outputs as they are when it runs. *)
Definition levelAction (s : LevelState) (a : action) : option LevelState :=
  match a with
  | ARun i env =>
      name ← ls_todo s !! i;
      step ← stepMap !! name;
      let st := ls_engine s in
      let '(se, err, cont) :=
        executeStep executeTemplate jsonUnmarshal (templateOutputs st)
          (FailureCount (we_Context (execution st))) env step in
      let st' := if cont
        then {| templateOutputs := templateOutputs st;
                execution := set_Context (set_ContinueOnFailure true) (execution st) |}
        else st in
      Some {| ls_engine := st';
              ls_todo := delete i (ls_todo s);
              ls_results := match err with None => ls_results s ++ [se] | Some _ => ls_results s end;
              ls_errors := match err with None => ls_errors s | Some e => ls_errors s ++ [e] end;
              ls_completed := ls_completed s; ls_levelError := ls_levelError s |}
  | ARecvResult =>
      match ls_results s with
      | [] => None
      | r :: rest =>
          Some {| ls_engine := recordResult (ls_engine s) r; ls_todo := ls_todo s;
                  ls_results := rest; ls_errors := ls_errors s;
                  ls_completed := S (ls_completed s); ls_levelError := ls_levelError s |}
      end
  | ARecvError =>
      match ls_errors s with
      | [] => None
      | e :: rest =>
          Some {| ls_engine := ls_engine s; ls_todo := ls_todo s;
                  ls_results := ls_results s; ls_errors := rest;
                  ls_completed := S (ls_completed s);
                  ls_levelError := match ls_levelError s with
                                   | None => Some e | Some e' => Some e' end |}
      end
  end.

Fixpoint levelActions (s : LevelState) (l : list action) : option LevelState :=
  match l with
  | [] => Some s
  | a :: l' => s' ← levelAction s a; levelActions s' l'
  end.

Definition isFailed (se : StepExecution) : bool := bool_decide (se_Status se = StepFailed).

(** After the collector's loop: the level's error, then the failure count
    (every failed step recorded so far is counted again) and the stop. *)
Definition finishLevel (i : nat) (s : LevelState) : EngineState * option EngineError :=
  let st := ls_engine s in
  match ls_levelError s with
  | Some e => (st, Some (LevelFailed i e))
  | None =>
      let failures := length (filter (λ se, isFailed se = true) (we_Steps (execution st))) in
      let st' := {| templateOutputs := templateOutputs st;
                    execution := set_Context (add_FailureCount failures) (execution st) |} in
      if (0 <? failures)%nat && negb (ContinueOnFailure (we_Context (execution st)))
      then (st', Some StoppedDueToFailures) else (st', None)
  end.

(** One level under a schedule; [None] if the schedule does not take the
    collector to the end of its wait. *)
Definition runLevel (i : nat) (level : list string) (sch : LevelSchedule) (st : EngineState) :
    option (EngineState * option EngineError) :=
  s ← levelActions (startLevel level st) (actions sch);
  if cancelled sch then
    (if decide (ls_completed s < length level)%nat
     then Some (ls_engine s, Some ExecutionCancelled) else None)
  else
    (if decide (ls_completed s = length level) then Some (finishLevel i s) else None).

(** The loop over the levels, one schedule each. *)
Fixpoint executeLevels (i : nat) (levels : list (list string)) (schs : list LevelSchedule)
    (st : EngineState) : option (EngineState * option EngineError) :=
  match levels, schs with
  | [], _ => Some (st, None)
  | level :: levels', sch :: schs' =>
      r ← runLevel i level sch st;
      match r with
      | (st', Some e) => Some (st', Some e)
      | (st', None) => executeLevels (S i) levels' schs' st'
      end
  | _ :: _, [] => None
  end.
End execute_order.

(** [stepMap[step.Name] = &stepCopy]: the last step of a name wins. *)
Definition engineStepMap (steps : list WorkflowStep) : gmap string WorkflowStep :=
  foldl (λ m step, <[Name step := step]> m) ∅ steps.

Definition executeStepsInOrder executeTemplate jsonUnmarshal (steps : list WorkflowStep)
    (dependencyGraph : list (list string)) (schs : list LevelSchedule) (st : EngineState) :
    option (EngineState * option EngineError) :=
  executeLevels executeTemplate jsonUnmarshal (engineStepMap steps) 0 dependencyGraph schs st.

(** ** ExecuteWorkflow *)

Definition newExecution (steps : list WorkflowStep) (start timeout : Z) : WorkflowExecution := {|
  we_StartTime := start; we_EndTime := None; we_Status := WorkflowRunning; we_Steps := [];
  we_Error := None;
  we_Context := {| ExecutionTimeout := timeout; StepOutputs := ∅;
                   FailureThreshold := length steps; FailureCount := 0;
                   ContinueOnFailure := false |} |}.

(** The timeout of the execution's context: unset, parsed, or 30 minutes. *)
Definition executionTimeoutOf (ParseDuration : string → option Z) (wd : WorkflowDefinition) : Z :=
  if decide (WfTimeout wd = "") then 0
  else default 1800000000000 (ParseDuration (WfTimeout wd)).

Definition endExecution (x : WorkflowExecution) (status : WorkflowExecutionStatus)
    (err : option EngineError) (finish : Z) : WorkflowExecution := {|
  we_StartTime := we_StartTime x; we_EndTime := Some finish; we_Status := status;
  we_Steps := we_Steps x; we_Error := err; we_Context := we_Context x |}.

(** The execution and the returned error, with the template outputs left behind
    in the engine.  A failing step sets the execution's status and error; the
    Go error is only for a bad graph.  [None]: the schedules are not a run. *)
Definition ExecuteWorkflow ParseDuration executeTemplate jsonUnmarshal
    (order : list string) (wd : WorkflowDefinition) (schs : list LevelSchedule)
    (start finish : Z) (outputs : gmap string Value) :
    option (gmap string Value * WorkflowExecution * option EngineError) :=
  let x := newExecution (Steps wd) start (executionTimeoutOf ParseDuration wd) in
  g ← buildDependencyGraph order (Steps wd);
  match g with
  | Err e => Some (outputs, endExecution x WorkflowFailed (Some (GraphFailed e)) finish,
                   Some (GraphFailed e))
  | Ok levels =>
      r ← executeStepsInOrder executeTemplate jsonUnmarshal (Steps wd) levels schs
            {| templateOutputs := outputs; execution := x |};
      let '(st, err) := r in
      let status := match err with Some _ => WorkflowFailed | None => WorkflowSucceeded end in
      Some (templateOutputs st, endExecution (execution st) status err finish, None)
  end.

(** ** Lemmas on one step *)

Definition exec_success (exec : Z → res string StepExecutionResult) (k : Z)
    (r : StepExecutionResult) : Prop :=
  exec k = Ok r ∧ sr_Success r = true.

(** What a result says of a loop of [n] iterations from attempt [a]: no earlier
    attempt succeeded, and no earlier wait was interrupted. *)
Definition loop_spec exec (done : Z → bool) (a : Z) (n : nat) (res : LoopResult) : Prop :=
  match res with
  | LoopSuccess k r =>
      a ≤ k < a + Z.of_nat n ∧ exec_success exec k r ∧
      (∀ j, a ≤ j < k → ∀ r', ¬ exec_success exec j r') ∧
      (∀ j, a ≤ j ≤ k → 1 < j → done j = false)
  | LoopCancelled k =>
      a ≤ k < a + Z.of_nat n ∧ 1 < k ∧ done k = true ∧
      (∀ j, a ≤ j < k → ∀ r', ¬ exec_success exec j r')
  | LoopExhausted _ =>
      (∀ j, a ≤ j < a + Z.of_nat n → ∀ r', ¬ exec_success exec j r') ∧
      (∀ j, a ≤ j < a + Z.of_nat n → 1 < j → done j = false)
  end.

Lemma loop_spec_next exec done a n res :
  (∀ r', ¬ exec_success exec a r') → (1 < a → done a = false) →
  loop_spec exec done (a + 1) n res → loop_spec exec done a (S n) res.
Proof.
  intros Hna Hda.
  assert (∀ b, (∀ j, a + 1 ≤ j < b → ∀ r', ¬ exec_success exec j r') →
    ∀ j, a ≤ j < b → ∀ r', ¬ exec_success exec j r') as Hs.
  { intros b Hb j [? ?]. destruct (decide (j = a)) as [->|]; [done|]. apply Hb; lia. }
  assert (∀ b, (∀ j, a + 1 ≤ j < b → 1 < j → done j = false) →
    ∀ j, a ≤ j < b → 1 < j → done j = false) as Hd.
  { intros b Hb j [? ?] ?. destruct (decide (j = a)) as [->|]; [auto|]. apply Hb; lia. }
  destruct res as [k r|k|l]; simpl.
  - intros (? & ? & Hn & Hdn). split_and!; [lia|lia|done|by apply Hs|].
    intros j ??. apply (Hd (k + 1)); [|lia|done]. intros j' ??. apply Hdn; lia.
  - intros (? & ? & ? & Hn). split_and!; [lia|lia|lia|done|by apply Hs].
  - intros [Hn Hdn]. split; [apply Hs|apply Hd]; intros j ?; [apply Hn|apply Hdn]; lia.
Qed.

Lemma attemptLoop_spec exec done n a last :
  1 ≤ a → loop_spec exec done a n (attemptLoop exec done n a last).
Proof.
  revert a last. induction n as [|n IH]; intros a last Ha; [split; lia|].
  cbn [attemptLoop]. destruct ((1 <? a) && done a) eqn:Hd.
  { apply andb_true_iff in Hd as [?%Z.ltb_lt ?]. split_and!; try done; lia. }
  assert (1 < a → done a = false) as Hda.
  { intros ?%Z.ltb_lt. by destruct (1 <? a), (done a). }
  destruct (exec a) as [r|e] eqn:He; [destruct (sr_Success r) eqn:Hr|].
  - split_and!; [lia|lia|done|lia|]. intros j ??. assert (j = a) as -> by lia. auto.
  - apply loop_spec_next; [|done|apply IH; lia]. intros r' [??]. congruence.
  - apply loop_spec_next; [|done|apply IH; lia]. intros r' [??]. congruence.
Qed.

Section step_lemmas.
Context (executeTemplate : string → gmap string Value → option string)
  (jsonUnmarshal : string → option Value).

(** How a step can end: without an error, it succeeded, was skipped, or failed
    with ContinueOnError, the one case that sets ContinueOnFailure. *)
Lemma executeStep_outcome outs fc env step se err cont :
  executeStep executeTemplate jsonUnmarshal outs fc env step = (se, err, cont) →
  se_Name se = Name step ∧
  match err with
  | None =>
      (cont = false ∧ (se_Status se = StepSucceeded ∨ se_Status se = StepSkipped)) ∨
      (cont = true ∧ se_Status se = StepFailed ∧ ContinueOnError step = true)
  | Some _ => cont = false ∧ se_Status se = StepFailed
  end.
Proof.
  unfold executeStep. intros H.
  repeat (case_if; simplify_eq/=); naive_solver.
Qed.

(** The record of a step that reaches its tool. *)
Definition reaches_tool outs fc (step : WorkflowStep) (params : gmap string Value) : Prop :=
  (shouldSkipStep step fc).1 = false ∧
  (Condition step = "" ∨
   EvaluateCondition executeTemplate jsonUnmarshal outs (Condition step) = Ok true) ∧
  RenderParameters executeTemplate jsonUnmarshal outs (Parameters step) = Ok params.

(** A step succeeds exactly when it is not skipped, its condition holds,
    its parameters render, and some attempt within [maxRetries] succeeds
    before the context is done; it stops at the first such attempt, whose
    number and output are the ones recorded. *)
Theorem executeStep_succeeds outs fc env step se err cont :
  executeStep executeTemplate jsonUnmarshal outs fc env step = (se, err, cont) →
  se_Status se = StepSucceeded ↔
  ∃ params k r,
    reaches_tool outs fc step params ∧
    1 ≤ k ≤ maxRetriesOf step ∧
    exec_success (env_exec env (Tool step) params) k r ∧
    (∀ j, 1 ≤ j < k → ∀ r', ¬ exec_success (env_exec env (Tool step) params) j r') ∧
    (∀ j, 1 < j ≤ k → env_done env j = false) ∧
    se_Attempts se = k ∧ se_Output se = sr_Output r ∧ err = None.
Proof.
  unfold executeStep, reaches_tool. intros H.
  destruct (shouldSkipStep step fc) as [sk reason]. destruct sk.
  { simplify_eq/=. split; [done|]. naive_solver. }
  destruct (decide (Condition step = "")) as [Hc|Hc].
  2: destruct (EvaluateCondition _ _ outs (Condition step)) as [[]|e];
     [|simplify_eq/=; split; [done|naive_solver]..].
  all: destruct (RenderParameters _ _ outs (Parameters step)) as [params|e];
    [|simplify_eq/=; split; [done|naive_solver]].
  all: pose proof (attemptLoop_spec (env_exec env (Tool step) params) (env_done env)
    (Z.to_nat (maxRetriesOf step)) 1 None ltac:(lia)) as Hl; unfold loop_spec in Hl.
  all: destruct (attemptLoop _ _ _ 1 None) as [k r|k|last]; simplify_eq/=.
  all: try (split; [intros _|done]; destruct Hl as (? & ? & ? & Hdn);
    exists params, k, r; split_and!; auto; try lia; intros j ?; apply Hdn; lia).
  all: split; [by repeat case_if; simplify_eq/=|].
  all: intros (params' & k' & r' & (_ & _ & [= <-]) & Hk & Hex & Hnot & Hdone & _); exfalso.
  - destruct Hl as (? & ? & Hd & Hn).
    destruct (decide (k' < k)); [by eapply Hn; [|done]; lia|].
    rewrite Hdone in Hd; [done|lia].
  - destruct Hl as [Hn _]. by eapply Hn; [|done]; lia.
  - destruct Hl as (? & ? & Hd & Hn).
    destruct (decide (k' < k)); [by eapply Hn; [|done]; lia|].
    rewrite Hdone in Hd; [done|lia].
  - destruct Hl as [Hn _]. by eapply Hn; [|done]; lia.
Qed.

(** A retry policy whose [MaxRetries] is zero (its value when the field is
    omitted) never calls the tool: the step does not succeed, and no answer
    the tool could give changes its record. *)
Theorem zero_retries_never_runs outs fc env env' step p :
  RetryPolicy step = Some p → MaxRetries p ≤ 0 →
  env_start env = env_start env' → env_end env = env_end env' →
  executeStep executeTemplate jsonUnmarshal outs fc env step =
    executeStep executeTemplate jsonUnmarshal outs fc env' step ∧
  se_Status (executeStep executeTemplate jsonUnmarshal outs fc env step).1.1 ≠ StepSucceeded.
Proof.
  intros Hp Hm Hs He.
  assert (Z.to_nat (maxRetriesOf step) = 0%nat) as Hz.
  { unfold maxRetriesOf. rewrite Hp. lia. }
  split; unfold executeStep, finishStep; rewrite Hz; cbn [attemptLoop]; [by rewrite Hs, He|].
  repeat case_if; simplify_eq/=; done.
Qed.
End step_lemmas.

(** ** The level invariant *)

(** A recorded step is settled: it succeeded, was skipped, or failed in an
    execution that continues on failure. *)
Definition settled (cont : bool) (r : StepExecution) : Prop :=
  se_Status r = StepSucceeded ∨ se_Status r = StepSkipped ∨
  (se_Status r = StepFailed ∧ cont = true).

Definition continues (st : EngineState) : bool := ContinueOnFailure (we_Context (execution st)).
Definition failureCount (st : EngineState) : nat := FailureCount (we_Context (execution st)).
Definition recorded (st : EngineState) : list StepExecution := we_Steps (execution st).

Lemma settled_mono b b' r : (b = true → b' = true) → settled b r → settled b' r.
Proof. unfold settled. naive_solver. Qed.

(** A level [level] begun in [st0] has reached [s]: [new] are the records made
    so far and [failed] the names of the goroutines that returned an error. *)
Record level_inv (level : list string) (st0 : EngineState) (new : list StepExecution)
    (failed : list string) (s : LevelState) : Prop := {
  li_steps : recorded (ls_engine s) = recorded st0 ++ new;
  li_perm : level ≡ₚ ls_todo s ++ (se_Name <$> ls_results s) ++ (se_Name <$> new) ++ failed;
  li_count : (ls_completed s + length (ls_errors s) = length new + length failed)%nat;
  li_failed : failed ≠ [] ↔ ls_errors s ≠ [] ∨ ls_levelError s ≠ None;
  li_settled : Forall (settled (continues (ls_engine s))) (ls_results s ++ new);
  li_cont : continues st0 = true → continues (ls_engine s) = true;
  li_count_same : failureCount (ls_engine s) = failureCount st0;
  li_outputs : dom (templateOutputs st0) ⊆ dom (templateOutputs (ls_engine s));
}.

Lemma level_inv_start level st : level_inv level st [] [] (startLevel level st).
Proof. split; simpl; rewrite ?app_nil_r; naive_solver. Qed.

Lemma recordResult_recorded st r : recorded (recordResult st r) = recorded st ++ [r].
Proof. unfold recordResult, recorded. by case_decide. Qed.

Lemma recordResult_continues st r : continues (recordResult st r) = continues st.
Proof. unfold recordResult, continues. by case_decide. Qed.

Lemma recordResult_failureCount st r : failureCount (recordResult st r) = failureCount st.
Proof. unfold recordResult, failureCount. by case_decide. Qed.

Lemma recordResult_outputs st r :
  dom (templateOutputs st) ⊆ dom (templateOutputs (recordResult st r)).
Proof. unfold recordResult, SetStepOutput. case_decide; set_solver. Qed.

#[export] Hint Rewrite recordResult_recorded recordResult_continues
  recordResult_failureCount : m8e.

Section level_lemmas.
Context (executeTemplate : string → gmap string Value → option string)
  (jsonUnmarshal : string → option Value)
  (stepMap : gmap string WorkflowStep).
Hypothesis stepMap_name : ∀ n step, stepMap !! n = Some step → Name step = n.
Notation levelAction := (levelAction executeTemplate jsonUnmarshal stepMap).
Notation levelActions := (levelActions executeTemplate jsonUnmarshal stepMap).

Lemma level_inv_run level st0 new failed s i env s' :
  level_inv level st0 new failed s → levelAction s (ARun i env) = Some s' →
  ∃ failed', level_inv level st0 new failed' s'.
Proof.
  intros [Hst Hp Hc Hf Hs Hcont Hfc Ho] Ha. simpl in Ha.
  destruct (ls_todo s !! i) as [name|] eqn:Hi; simplify_eq/=.
  destruct (stepMap !! name) as [step|] eqn:Hm; simplify_eq/=.
  destruct (executeStep _ _ _ _ _ _) as [[se err] cont] eqn:He; simplify_eq/=.
  apply executeStep_outcome in He as [Hn He].
  rewrite (stepMap_name _ _ Hm) in Hn.
  apply delete_Permutation in Hi. revert Hi. generalize (delete i (ls_todo s)) as rest. intros rest Hi.
  destruct err as [e|].
  - destruct He as [-> _]. exists (failed ++ [name]). split; simpl; try done.
    + rewrite Hp, Hi. solve_Permutation.
    + rewrite !length_app. simpl. lia.
    + split; [intros _; left; by destruct (ls_errors s)|by destruct failed].
  - exists failed. split; simpl; try done; try (by destruct cont).
    + rewrite Hp, Hi, fmap_app. simpl. rewrite Hn. solve_Permutation.
    + rewrite Forall_app in Hs. destruct Hs as [Hs1 Hs2].
      assert (∀ r, settled (continues (ls_engine s)) r → settled
        (continues (if cont then {| templateOutputs := templateOutputs (ls_engine s);
          execution := set_Context (set_ContinueOnFailure true) (execution (ls_engine s)) |}
          else ls_engine s)) r) as Hmono.
      { intros r. apply settled_mono. by destruct cont. }
      rewrite !Forall_app, Forall_singleton. split_and!.
      1,3: by eapply Forall_impl.
      unfold settled. destruct He as [(-> & [?|?])|(-> & ? & ?)]; auto.
Qed.

Lemma level_inv_recv_result level st0 new failed s s' :
  level_inv level st0 new failed s → levelAction s ARecvResult = Some s' →
  ∃ r, level_inv level st0 (new ++ [r]) failed s'.
Proof.
  intros [Hst Hp Hc Hf Hs Hcont Hfc Ho] Ha. simpl in Ha.
  destruct (ls_results s) as [|r rest]; simplify_eq/=.
  exists r. split; simpl; autorewrite with m8e; try done.
  - rewrite Hst. by rewrite (assoc_L (++)).
  - rewrite Hp, fmap_app. simpl. solve_Permutation.
  - rewrite length_app. simpl. lia.
  - rewrite Forall_app, Forall_app, Forall_singleton. inversion Hs; subst.
    rewrite Forall_app in *. naive_solver.
  - etrans; [done|apply recordResult_outputs].
Qed.

Lemma level_inv_recv_error level st0 new failed s s' :
  level_inv level st0 new failed s → levelAction s ARecvError = Some s' →
  level_inv level st0 new failed s'.
Proof.
  intros [Hst Hp Hc Hf Hs Hcont Hfc Ho] Ha. simpl in Ha.
  destruct (ls_errors s) as [|e rest]; simplify_eq/=.
  split; simpl; try done; [simpl in Hc; lia|].
  rewrite Hf. split; [intros _; right; by case_match|by left].
Qed.

Lemma level_inv_actions level st0 l : ∀ s s' new failed,
  level_inv level st0 new failed s → levelActions s l = Some s' →
  ∃ new' failed', level_inv level st0 new' failed' s'.
Proof.
  induction l as [|a l IH]; intros s s' new failed Hi Ha; simplify_eq/=; [eauto|].
  destruct (levelAction s a) as [s1|] eqn:H1; simplify_eq/=.
  destruct a as [i env| |].
  - destruct (level_inv_run _ _ _ _ _ _ _ _ Hi H1) as [??]. eauto.
  - destruct (level_inv_recv_result _ _ _ _ _ _ Hi H1) as [??]. eauto.
  - eapply IH; [by eapply level_inv_recv_error|done].
Qed.

(** *** The end of a level *)

Definition failuresOf (st : EngineState) : nat :=
  length (filter (λ se, isFailed se = true) (recorded st)).

Lemma failuresOf_settled st :
  Forall (settled (continues st)) (recorded st) → (0 < failuresOf st)%nat → continues st = true.
Proof.
  intros Hs Hf. unfold failuresOf in Hf.
  destruct (filter _ (recorded st)) as [|se l] eqn:Hl; [simpl in Hf; lia|].
  assert (se ∈ filter (λ se, isFailed se = true) (recorded st)) as Hse by (rewrite Hl; left).
  apply list_elem_of_filter in Hse as [Hse%bool_decide_eq_true Hin].
  rewrite Forall_forall in Hs. destruct (Hs _ Hin) as [?|[?|[_ ?]]]; congruence.
Qed.

Lemma no_stop st :
  Forall (settled (continues st)) (recorded st) →
  (0 <? failuresOf st)%nat && negb (continues st) = false.
Proof.
  intros Hs. destruct (Nat.ltb_spec 0 (failuresOf st)) as [Hpos|]; [|done].
  by rewrite failuresOf_settled.
Qed.

(** The records of the earlier levels are settled, and the failure count is
    zero just when none of them failed. *)
Definition engine_inv (st : EngineState) : Prop :=
  Forall (settled (continues st)) (recorded st) ∧
  (failureCount st = 0%nat ↔ failuresOf st = 0%nat).

(** What a level does to the engine's state: it appends records of steps of
    the level, all settled; when it ends without an error it has recorded
    every step; and it never ends by the stop on failures. *)
Lemma runLevel_spec i level sch st st' err :
  engine_inv st →
  runLevel executeTemplate jsonUnmarshal stepMap i level sch st = Some (st', err) →
  ∃ new,
    recorded st' = recorded st ++ new ∧
    se_Name <$> new ⊆+ level ∧
    Forall (settled (continues st')) (recorded st') ∧
    dom (templateOutputs st) ⊆ dom (templateOutputs st') ∧
    err ≠ Some StoppedDueToFailures ∧
    (err = None → se_Name <$> new ≡ₚ level ∧ engine_inv st' ∧
    failureCount st' = (failureCount st + failuresOf st')%nat).
Proof.
  intros [Hset Hfc] Hr. unfold runLevel in Hr.
  destruct (levelActions _ _) as [s|] eqn:Hact; [|done]. cbn [mbind option_bind] in Hr.
  destruct (level_inv_actions _ _ _ _ _ _ _ (level_inv_start level st) Hact)
    as (new & failed & [Hst Hp Hc Hf Hs Hcont Hsame Ho]).
  assert (Forall (settled (continues (ls_engine s))) (recorded (ls_engine s))) as Hall.
  { rewrite Hst. rewrite Forall_app in *. destruct Hs as [? ?]. split; [|done].
    eapply Forall_impl; [done|]. intros r. by apply settled_mono. }
  assert (se_Name <$> new ⊆+ level) as Hsub.
  { rewrite Hp. etrans; [apply submseteq_inserts_r; reflexivity|].
    do 2 apply submseteq_inserts_l. reflexivity. }
  exists new. destruct (cancelled sch).
  { case_decide; simplify_eq. by split_and!. }
  case_decide as Hlen; [|done]. unfold finishLevel in Hr.
  destruct (ls_levelError s) as [e|] eqn:Hle; [simplify_eq; by split_and!|].
  assert (length new + length failed ≤ length level)%nat as Hll.
  { apply Permutation_length in Hp. rewrite !length_app, !length_fmap in Hp. lia. }
  assert (ls_errors s = []) as Herr.
  { destruct (ls_errors s); [done|]. simpl in Hc. lia. }
  assert (failed = []) as ->.
  { destruct failed; [done|]. exfalso.
    destruct Hf as [Hf _]. destruct Hf as [?|?]; congruence. }
  rewrite Herr in Hc. simpl in Hc.
  assert (se_Name <$> new ≡ₚ level) as Hnew.
  { apply submseteq_length_Permutation; [done|]. rewrite length_fmap. lia. }
  change (we_Steps (execution (ls_engine s))) with (recorded (ls_engine s)) in Hr.
  change (length _) with (failuresOf (ls_engine s)) in Hr.
  change (ContinueOnFailure _) with (continues (ls_engine s)) in Hr.
  rewrite (no_stop _ Hall) in Hr. simplify_eq/=.
  split_and!; try done. intros _. split; [done|].
  match goal with |- engine_inv ?st' ∧ _ => set (st1 := st') end.
  assert (failureCount st1 = (failureCount st + failuresOf st1)%nat) as Hcount.
  { change (failureCount st1) with (failureCount (ls_engine s) + failuresOf (ls_engine s))%nat.
    by rewrite Hsame. }
  split; [split; [done|]|done].
  assert (failuresOf st ≤ failuresOf (ls_engine s))%nat.
  { unfold failuresOf. rewrite Hst, filter_app, length_app. lia. }
  change (failuresOf st1) with (failuresOf (ls_engine s)) in *. lia.
Qed.

(** *** All levels *)

(** The records respect an ordering relation [before d n] on names: when the
    record of [n] is made, those of the names before it have been made. *)
Definition ordered_records (before : string → string → Prop) (l : list StepExecution) : Prop :=
  ∀ l1 r l2, l = l1 ++ r :: l2 → ∀ d, before d (se_Name r) → d ∈ se_Name <$> l1.

Lemma ordered_records_app before l new :
  ordered_records before l →
  (∀ r d, r ∈ new → before d (se_Name r) → d ∈ se_Name <$> l) →
  ordered_records before (l ++ new).
Proof.
  intros Hl Hn l1 r l2 Heq d Hd.
  apply app_eq_inv in Heq as [(k & -> & Hk)|(k & -> & Hk)].
  - destruct k as [|r' k]; simplify_eq/=.
    + rewrite app_nil_r in *. apply (Hn r); [set_solver|done].
    + by eapply Hl.
  - rewrite fmap_app. apply elem_of_app. left. apply (Hn r); [|done].
    rewrite Hk. set_solver.
Qed.

(** [executeLevels] from the state in which [done_levels] have been run. *)
Lemma executeLevels_spec (before : string → string → Prop) levels :
  ∀ schs i done_levels st st' err,
  (∀ b level a d n, done_levels ++ levels = b ++ level :: a → n ∈ level → before d n →
    d ∈ concat b) →
  se_Name <$> recorded st ≡ₚ concat done_levels →
  engine_inv st → ordered_records before (recorded st) →
  executeLevels executeTemplate jsonUnmarshal stepMap i levels schs st = Some (st', err) →
  ordered_records before (recorded st') ∧
  se_Name <$> recorded st' ⊆+ concat (done_levels ++ levels) ∧
  Forall (settled (continues st')) (recorded st') ∧
  dom (templateOutputs st) ⊆ dom (templateOutputs st') ∧
  err ≠ Some StoppedDueToFailures ∧
  (err = None → se_Name <$> recorded st' ≡ₚ concat (done_levels ++ levels) ∧ engine_inv st').
Proof.
  induction levels as [|level levels IH];
    intros schs i done_levels st st' err Hb Hn Hinv Hord Hr.
  { simplify_eq/=. rewrite app_nil_r. split_and!; try done; [by rewrite Hn|apply Hinv]. }
  destruct schs as [|sch schs]; [done|]. cbn [executeLevels] in Hr.
  destruct (runLevel _ _ _ _ _ _ _) as [[st1 err1]|] eqn:H1; [|done]. cbn [mbind option_bind] in Hr.
  apply runLevel_spec in H1 as (new & Hst & Hsub & Hset & Hdom & Hstop & Hok); [|done].
  assert (ordered_records before (recorded st1)) as Hord1.
  { rewrite Hst. apply ordered_records_app; [done|]. intros r d Hin Hd. rewrite Hn.
    eapply Hb; [done| |done]. eapply elem_of_submseteq; [|done]. by apply list_elem_of_fmap_2. }
  assert (done_levels ++ level :: levels = (done_levels ++ [level]) ++ levels) as Hsnoc.
  { by rewrite <-(assoc_L (++)). }
  destruct err1 as [e|]; simplify_eq/=.
  - split_and!; try done.
    rewrite Hst, fmap_app, Hn, concat_app, concat_cons.
    apply submseteq_app; [done|]. by apply submseteq_inserts_r.
  - destruct (Hok eq_refl) as (Hnew & Hinv1 & _). rewrite Hsnoc in *.
    eapply IH in Hr as (? & ? & ? & ? & ? & ?); [..|done]; try done.
    + split_and!; try done. by etrans.
    + rewrite Hst, fmap_app, Hn, Hnew, concat_app. simpl. by rewrite app_nil_r.
Qed.

(** The failure count that the loop over the levels leaves behind, from the
    records each level made: at its end a level counts the failed records of
    the whole execution so far, so that a failure is counted once for its own
    level and once more for each later one. *)
Fixpoint countedFailures (groups : list (list StepExecution)) : nat :=
  match groups with
  | [] => 0
  | g :: rest =>
      length (filter (λ se, isFailed se = true) g) * length groups + countedFailures rest
  end.

Lemma countedFailures_snoc groups g :
  countedFailures (groups ++ [g]) =
  (countedFailures groups +
   length (filter (λ se, isFailed se = true) (concat (groups ++ [g]))))%nat.
Proof.
  induction groups as [|g' groups IH]; simpl; [rewrite app_nil_r; lia|].
  rewrite IH, filter_app, !length_app. simpl. lia.
Qed.

(** What levels that all end without an error record, level by level. *)
Lemma executeLevels_groups levels : ∀ schs i groups0 st st',
  engine_inv st → recorded st = concat groups0 → failureCount st = countedFailures groups0 →
  executeLevels executeTemplate jsonUnmarshal stepMap i levels schs st = Some (st', None) →
  ∃ groups,
    Forall2 (λ level g, se_Name <$> g ≡ₚ level) levels groups ∧
    recorded st' = concat (groups0 ++ groups) ∧
    failureCount st' = countedFailures (groups0 ++ groups).
Proof.
  induction levels as [|level levels IH]; intros schs i groups0 st st' Hinv Hrec Hfc Hr.
  { simplify_eq/=. exists []. by rewrite app_nil_r. }
  destruct schs as [|sch schs]; [done|]. cbn [executeLevels] in Hr.
  destruct (runLevel _ _ _ _ _ _ _) as [[st1 err1]|] eqn:H1; [|done]. cbn [mbind option_bind] in Hr.
  apply runLevel_spec in H1 as (new & Hst & _ & _ & _ & _ & Hok); [|done].
  destruct err1 as [e|]; [done|]. destruct (Hok eq_refl) as (Hnew & Hinv1 & Hcount).
  assert (recorded st1 = concat (groups0 ++ [new])) as Hrec1.
  { rewrite Hst, Hrec, concat_app. simpl. by rewrite app_nil_r. }
  destruct (IH schs (S i) (groups0 ++ [new]) st1 st') as (groups & HF & Hg & Hc); try done.
  { rewrite countedFailures_snoc, <-Hfc, <-Hrec1. exact Hcount. }
  exists (new :: groups). rewrite <-(assoc_L (++)) in Hg, Hc. split_and!; [by constructor|done..].
Qed.

(** *** Progress *)

(** A level reached by a schedule can always be brought to its end: every
    waiting goroutine can run, and every report can be received. *)
Lemma level_progress level st0 new failed s (env : StepEnv) :
  (∀ n, n ∈ level → is_Some (stepMap !! n)) →
  level_inv level st0 new failed s → (ls_completed s < length level)%nat →
  ∃ a s', levelAction s a = Some s'.
Proof.
  intros Hm [Hst Hp Hc Hf Hs Hcont Hsame Ho] Hlt.
  destruct (ls_todo s) as [|n todo] eqn:Htodo.
  - destruct (ls_results s) as [|r rest] eqn:Hres; [|exists ARecvResult; simpl; rewrite Hres; eauto].
    destruct (ls_errors s) as [|e rest] eqn:Herr; [|exists ARecvError; simpl; rewrite Herr; eauto].
    exfalso. apply Permutation_length in Hp. simpl in *.
    rewrite length_app, length_fmap in Hp. lia.
  - destruct (Hm n) as [step Hstep]; [rewrite Hp; set_solver|].
    exists (ARun 0 env). simpl. rewrite Htodo. simpl. rewrite Hstep. simpl.
    destruct (executeStep _ _ _ _ _ _) as [[??]?]. eauto.
Qed.

(** The actions left before a level can do nothing more. *)
Definition levelMeasure (s : LevelState) : nat :=
  2 * length (ls_todo s) + length (ls_results s) + length (ls_errors s).

Lemma levelAction_measure s a s' :
  levelAction s a = Some s' → levelMeasure s = S (levelMeasure s').
Proof.
  unfold levelMeasure. destruct a as [i env| |]; simpl.
  - destruct (ls_todo s !! i) as [n|] eqn:Hi; [|done]. simpl.
    destruct (stepMap !! n) as [step|]; [|done]. simpl.
    destruct (executeStep _ _ _ _ _ _) as [[se err] cont]. intros [= <-]. simpl.
    rewrite length_delete by eauto.
    apply lookup_lt_Some in Hi. destruct err; rewrite length_app; simpl; lia.
  - destruct (ls_results s); [done|]. intros [= <-]. simpl. lia.
  - destruct (ls_errors s); [done|]. intros [= <-]. simpl. lia.
Qed.

Lemma levelActions_app s l1 l2 :
  levelActions s (l1 ++ l2) = (s1 ← levelActions s l1; levelActions s1 l2).
Proof.
  revert s. induction l1 as [|a l1 IH]; intros s; [done|]. simpl.
  destruct (levelAction s a); simpl; [apply IH|done].
Qed.

Lemma level_completes level st0 new failed s (env : StepEnv) :
  (∀ n, n ∈ level → is_Some (stepMap !! n)) → level_inv level st0 new failed s →
  ∃ l s', levelActions s l = Some s' ∧ ls_completed s' = length level.
Proof.
  intros Hm. remember (levelMeasure s) as m eqn:Hmeq. revert s new failed Hmeq.
  induction m as [m IH] using lt_wf_ind. intros s new failed -> Hinv.
  destruct (decide (ls_completed s < length level)%nat) as [Hlt|Hge].
  - destruct (level_progress _ _ _ _ _ env Hm Hinv Hlt) as (a & s1 & Ha).
    assert (levelActions s [a] = Some s1) as Ha' by (simpl; by rewrite Ha).
    destruct (level_inv_actions _ _ _ _ _ _ _ Hinv Ha') as (new1 & failed1 & Hinv1).
    pose proof (levelAction_measure _ _ _ Ha).
    destruct (IH (levelMeasure s1) ltac:(lia) s1 _ _ eq_refl Hinv1) as (l & s' & Hl & ?).
    exists (a :: l), s'. split; [|done]. simpl. by rewrite Ha.
  - exists [], s. split; [done|]. destruct Hinv as [_ Hp Hc _ _ _ _ _].
    apply Permutation_length in Hp. rewrite !length_app, !length_fmap in Hp. lia.
Qed.

(** A level always terminates: no schedule has more than two actions per
    step of the level, and a schedule that has not ended the collector's wait
    can always be extended to one that does (whatever the tools answer). *)
Theorem level_terminates level st l s (env : StepEnv) :
  (∀ n, n ∈ level → is_Some (stepMap !! n)) →
  levelActions (startLevel level st) l = Some s →
  (length l ≤ 2 * length level)%nat ∧
  ∃ l' s', levelActions (startLevel level st) (l ++ l') = Some s' ∧
           ls_completed s' = length level.
Proof.
  intros Hm Hl. split.
  - assert (∀ l s0, levelActions s0 l = Some s → (length l ≤ levelMeasure s0)%nat) as Hb.
    { clear Hl l. induction l as [|a l IH]; intros s0 Hl; simpl; [lia|].
      simpl in Hl. destruct (levelAction s0 a) as [s1|] eqn:H1; [|done].
      apply levelAction_measure in H1. apply IH in Hl. lia. }
    apply Hb in Hl. unfold levelMeasure in Hl. simpl in Hl. lia.
  - destruct (level_inv_actions _ _ _ _ _ _ _ (level_inv_start level st) Hl)
      as (new & failed & Hinv).
    destruct (level_completes _ _ _ _ _ env Hm Hinv) as (l' & s' & Hl' & ?).
    exists l', s'. split; [|done]. by rewrite levelActions_app, Hl.
Qed.

End level_lemmas.

(** ** The engine *)

Lemma engineStepMap_app steps step :
  engineStepMap (steps ++ [step]) = <[Name step := step]> (engineStepMap steps).
Proof. unfold engineStepMap. by rewrite foldl_snoc. Qed.

Lemma engineStepMap_name steps n step : engineStepMap steps !! n = Some step → Name step = n.
Proof.
  revert n step. induction steps as [|step0 steps IH] using rev_ind; intros n step Hn.
  - unfold engineStepMap in Hn. simpl in Hn. by rewrite lookup_empty in Hn.
  - rewrite engineStepMap_app in Hn. apply lookup_insert_Some in Hn as [[<- <-]|[_ ?]]; eauto.
Qed.

Lemma engineStepMap_dom steps n : n ∈ Name <$> steps → is_Some (engineStepMap steps !! n).
Proof.
  induction steps as [|step0 steps IH] using rev_ind; [by intros ?%elem_of_nil|].
  rewrite engineStepMap_app, fmap_app, elem_of_app. intros Hn.
  destruct (decide (Name step0 = n)) as [<-|Hne]; [rewrite lookup_insert_eq; eauto|].
  rewrite lookup_insert_ne by done. destruct Hn as [?|?%list_elem_of_singleton]; [auto|congruence].
Qed.

Section engine_theorems.
Context (executeTemplate : string → gmap string Value → option string)
  (jsonUnmarshal : string → option Value) (ParseDuration : string → option Z).

(** Everything an execution that got past its graph satisfies at its end. *)
Lemma ExecuteWorkflow_spec order wd schs start finish outputs outputs' x err :
  range_order (finalInDegree (Steps wd)) order →
  ExecuteWorkflow ParseDuration executeTemplate jsonUnmarshal order wd schs start finish outputs =
    Some (outputs', x, err) →
  let cont := ContinueOnFailure (we_Context x) in
  let failures := filter (λ se, isFailed se = true) (we_Steps x) in
  ordered_records (depends_on (Steps wd)) (we_Steps x) ∧
  se_Name <$> we_Steps x ⊆+ Name <$> Steps wd ∧
  Forall (settled cont) (we_Steps x) ∧
  dom outputs ⊆ dom outputs' ∧
  we_Error x ≠ Some StoppedDueToFailures ∧
  (we_Status x = WorkflowSucceeded →
    se_Name <$> we_Steps x ≡ₚ Name <$> Steps wd ∧
    (FailureCount (we_Context x) = 0%nat ↔ length failures = 0%nat) ∧
    ∃ levels groups,
      buildDependencyGraph order (Steps wd) = Some (Ok levels) ∧
      we_Steps x = concat groups ∧
      Forall2 (λ level g, se_Name <$> g ≡ₚ level) levels groups ∧
      FailureCount (we_Context x) = countedFailures groups).
Proof.
  intros Ho Hx. unfold ExecuteWorkflow in Hx.
  destruct (buildDependencyGraph order (Steps wd)) as [[levels|e]|] eqn:Hg; [..|done];
    cbn [mbind option_bind] in Hx.
  2: { simplify_eq/=. split_and!; try done; [|apply submseteq_nil_l].
    intros [] r l2 Heq; discriminate Heq. }
  destruct (buildDependencyGraph_levels _ _ _ Ho Hg) as [[Hperm Hord] Hnd].
  destruct (executeStepsInOrder _ _ _ _ _ _) as [[st err']|] eqn:Hr; [|done].
  simplify_eq/=. unfold executeStepsInOrder in Hr.
  pose proof Hr as Hgroups.
  eapply (executeLevels_spec _ _ _ (engineStepMap_name (Steps wd))
    (depends_on (Steps wd)) levels _ _ []) in Hr
    as (Hor & Hsub & Hset & Hdom & Hstop & Hok); simpl.
  - unfold recorded, continues in *. simpl in *. rewrite Hperm in Hsub.
    split_and!; try done. destruct err'; [done|]. intros _.
    destruct (Hok eq_refl) as [Hn [_ Hf]]. simpl in Hn. rewrite Hperm in Hn.
    do 2 (split; [done|]).
    eapply (executeLevels_groups _ _ _ (engineStepMap_name (Steps wd)) levels _ _ []) in Hgroups
      as (groups & HF & Hgs & Hc); [|split; [constructor|done]|done..].
    by exists levels, groups.
  - intros b level a d n Heq Hn Hd. simpl in Heq. by eapply Hord.
  - done.
  - split; [constructor|done].
  - intros [] r l2 Heq; discriminate Heq.
Qed.

(** C5: the records of an execution, however its goroutines interleave and
    however it ends, are of steps of the workflow, at most one each; a step
    is recorded only after all the steps it depends on, each of which
    succeeded, was skipped, or failed with the execution set to continue. *)
Theorem ExecuteWorkflow_order order wd schs start finish outputs outputs' x err :
  range_order (finalInDegree (Steps wd)) order →
  ExecuteWorkflow ParseDuration executeTemplate jsonUnmarshal order wd schs start finish outputs =
    Some (outputs', x, err) →
  se_Name <$> we_Steps x ⊆+ Name <$> Steps wd ∧
  ∀ l1 r l2 d,
    we_Steps x = l1 ++ r :: l2 → depends_on (Steps wd) d (se_Name r) →
    ∃ r', r' ∈ l1 ∧ se_Name r' = d ∧ settled (ContinueOnFailure (we_Context x)) r'.
Proof.
  intros Ho Hx. destruct (ExecuteWorkflow_spec _ _ _ _ _ _ _ _ _ Ho Hx)
    as (Hor & Hsub & Hset & _). split; [done|].
  intros l1 r l2 d Hl Hd. apply (Hor _ _ _ Hl) in Hd.
  apply list_elem_of_fmap in Hd as (r' & -> & Hr'). exists r'. split_and!; [done..|].
  rewrite Forall_forall in Hset. apply Hset. rewrite Hl. set_solver.
Qed.

(** C6: a workflow that succeeds has exactly one record per step.  The records
    are in groups, one for each level of the graph and in the levels' order,
    and the failure count, which the run policies OnSuccess and OnFailure of a
    later step consult, is [countedFailures] of the groups: a failed record is
    counted once for its own level and once more for every later level, so
    the count is the number of failures only when they are all in the last
    level.  It is zero exactly when no record is a failure. *)
Theorem ExecuteWorkflow_success order wd schs start finish outputs outputs' x err :
  range_order (finalInDegree (Steps wd)) order →
  ExecuteWorkflow ParseDuration executeTemplate jsonUnmarshal order wd schs start finish outputs =
    Some (outputs', x, err) →
  we_Status x = WorkflowSucceeded →
  se_Name <$> we_Steps x ≡ₚ Name <$> Steps wd ∧
  (FailureCount (we_Context x) = 0%nat ↔ ∀ se, se ∈ we_Steps x → se_Status se ≠ StepFailed) ∧
  ∃ levels groups,
    buildDependencyGraph order (Steps wd) = Some (Ok levels) ∧
    we_Steps x = concat groups ∧
    Forall2 (λ level g, se_Name <$> g ≡ₚ level) levels groups ∧
    FailureCount (we_Context x) = countedFailures groups.
Proof.
  intros Ho Hx Hs. destruct (ExecuteWorkflow_spec _ _ _ _ _ _ _ _ _ Ho Hx)
    as (_ & _ & _ & _ & _ & Hok). destruct (Hok Hs) as (Hn & Hf & Hg). split; [done|]. split; [|done].
  rewrite Hf, length_zero_iff_nil. split.
  - intros Hnil se Hse Hst.
    assert (se ∈ filter (λ se, isFailed se = true) (we_Steps x)) as Hin.
    { apply list_elem_of_filter. split; [by apply bool_decide_eq_true|done]. }
    rewrite Hnil in Hin. by apply elem_of_nil in Hin.
  - intros Hall. destruct (filter _ _) as [|se l] eqn:Hl; [done|].
    assert (se ∈ filter (λ se, isFailed se = true) (we_Steps x)) as Hin by (rewrite Hl; left).
    apply list_elem_of_filter in Hin as [Hst%bool_decide_eq_true Hin]. by destruct (Hall se).
Qed.

(** No run of a workflow ends with the error "workflow stopped due to step
    failures": the only failed steps an execution records are those that set
    ContinueOnFailure, and the error needs it unset. *)
Theorem ExecuteWorkflow_never_stopped order wd schs start finish outputs outputs' x err :
  range_order (finalInDegree (Steps wd)) order →
  ExecuteWorkflow ParseDuration executeTemplate jsonUnmarshal order wd schs start finish outputs =
    Some (outputs', x, err) →
  we_Error x ≠ Some StoppedDueToFailures.
Proof. intros Ho Hx. by destruct (ExecuteWorkflow_spec _ _ _ _ _ _ _ _ _ Ho Hx) as (?&?&?&?&?&?). Qed.

(** The template outputs outlive the workflow: every step output visible
    before an execution is still visible to templates after it, whichever
    workflow stored it. *)
Theorem ExecuteWorkflow_keeps_outputs order wd schs start finish outputs outputs' x err n :
  range_order (finalInDegree (Steps wd)) order →
  ExecuteWorkflow ParseDuration executeTemplate jsonUnmarshal order wd schs start finish outputs =
    Some (outputs', x, err) →
  is_Some (outputs !! n) → is_Some (outputs' !! n).
Proof.
  intros Ho Hx. destruct (ExecuteWorkflow_spec _ _ _ _ _ _ _ _ _ Ho Hx)
    as (?&?&?&Hd&?&?). rewrite <-!elem_of_dom. set_solver.
Qed.

Lemma executeLevels_runs stepMap (env : StepEnv) levels :
  (∀ n step, stepMap !! n = Some step → Name step = n) →
  (∀ n, n ∈ concat levels → is_Some (stepMap !! n)) →
  ∀ i st, ∃ schs r,
    executeLevels executeTemplate jsonUnmarshal stepMap i levels schs st = Some r.
Proof.
  intros Hname. induction levels as [|level levels IH]; intros Hm i st; [by exists [], (st, None)|].
  destruct (level_completes executeTemplate jsonUnmarshal stepMap Hname level st [] []
    (startLevel level st) env) as (l & s & Hl & Hc);
    [intros n Hn; apply Hm; set_solver|apply level_inv_start|].
  set (sch := {| actions := l; cancelled := false |}).
  assert (runLevel executeTemplate jsonUnmarshal stepMap i level sch st =
    Some (finishLevel i s)) as Hrun.
  { unfold runLevel. simpl. rewrite Hl. simpl. by rewrite decide_True. }
  destruct (finishLevel i s) as [st1 [e|]].
  - exists [sch], (st1, Some e). simpl. by rewrite Hrun.
  - destruct (IH ltac:(intros; apply Hm; set_solver) (S i) st1) as (schs & r & Hr).
    exists (sch :: schs), r. simpl. by rewrite Hrun.
Qed.

(** Every workflow definition, from every engine state, has a run to its
    end, whatever its tools answer; a bad graph ends it as failed. *)
Theorem ExecuteWorkflow_runs order wd start finish outputs (env : StepEnv) :
  range_order (finalInDegree (Steps wd)) order →
  ∃ schs outputs' x err,
    ExecuteWorkflow ParseDuration executeTemplate jsonUnmarshal order wd schs start finish outputs =
    Some (outputs', x, err) ∧
    we_EndTime x = Some finish ∧
    (∀ e, buildDependencyGraph order (Steps wd) = Some (Err e) →
      we_Status x = WorkflowFailed ∧ we_Steps x = [] ∧ err = Some (GraphFailed e)).
Proof.
  intros Ho. destruct (buildDependencyGraph_total _ _ Ho) as [g Hg].
  unfold ExecuteWorkflow. rewrite Hg. cbn [mbind option_bind]. destruct g as [levels|e].
  - destruct (buildDependencyGraph_levels _ _ _ Ho Hg) as [[Hp _] _].
    set (x := newExecution _ _ _).
    destruct (executeLevels_runs (engineStepMap (Steps wd)) env levels
      (engineStepMap_name _)) with (i := 0%nat) (st := {| templateOutputs := outputs; execution := x |})
      as (schs & [st err] & Hr).
    { intros n Hn. apply engineStepMap_dom. by rewrite <-Hp. }
    exists schs. unfold executeStepsInOrder. rewrite Hr. cbn [mbind option_bind].
    do 3 eexists. by split_and!.
  - exists []. do 3 eexists. split_and!; [done..|]. intros e' [= <-]. done.
Qed.
End engine_theorems.

(** ** Witnesses *)

Definition noTemplates : string → gmap string Value → option string := λ _ _, None.
Definition noJSON : string → option Value := λ _, None.
Definition noDuration : string → option Z := λ _, None.

(** A world in which every attempt from the [k]th succeeds. *)
Definition succeedsFrom (k : Z) : StepEnv := {|
  env_exec := λ tool _ attempt,
    if attempt <? k then Err "unavailable"
    else Ok {| sr_Success := true; sr_Output := VString tool; sr_Duration := 5; sr_Error := "" |};
  env_done := λ _, false; env_start := 0; env_end := 10 |}.

Definition diamondWorkflow : WorkflowDefinition :=
  {| Schedule := "@daily"; Steps := diamond; WfTimeout := "" |}.

(** The goroutines of the middle level run in the opposite order. *)
Definition diamondSchedule : list LevelSchedule := [
  {| actions := [ARun 0 (succeedsFrom 1); ARecvResult]; cancelled := false |};
  {| actions := [ARun 1 (succeedsFrom 2); ARun 0 (succeedsFrom 1); ARecvResult; ARecvResult];
     cancelled := false |};
  {| actions := [ARun 0 (succeedsFrom 3); ARecvResult]; cancelled := false |} ].

Definition diamondRun :=
  ExecuteWorkflow noDuration noTemplates noJSON (someOrder diamond) diamondWorkflow
    diamondSchedule 0 100 {["old" := VNil]}.

Definition diamondExecution : WorkflowExecution :=
  match diamondRun with Some (_, x, _) => x | None => newExecution [] 0 0 end.
Definition diamondOutputs : gmap string Value :=
  match diamondRun with Some (o, _, _) => o | None => ∅ end.

Lemma diamondRun_eq : diamondRun = Some (diamondOutputs, diamondExecution, None).
Proof. vm_compute. reflexivity. Qed.

Example diamond_records :
  (λ r, (se_Name r, se_Attempts r)) <$> we_Steps diamondExecution =
  [("a", 1); ("c", 2); ("b", 1); ("d", 3)] ∧ we_Status diamondExecution = WorkflowSucceeded.
Proof. split; vm_compute; reflexivity. Qed.

Lemma ExecuteWorkflow_order_witness :
  se_Name <$> we_Steps diamondExecution ⊆+ ["a"; "b"; "c"; "d"] ∧
  ∀ l1 r l2 d,
    we_Steps diamondExecution = l1 ++ r :: l2 → depends_on diamond d (se_Name r) →
    ∃ r', r' ∈ l1 ∧ se_Name r' = d ∧
      settled (ContinueOnFailure (we_Context diamondExecution)) r'.
Proof.
  apply (ExecuteWorkflow_order noTemplates noJSON noDuration (someOrder diamond) diamondWorkflow
    diamondSchedule 0 100 {["old" := VNil]} diamondOutputs diamondExecution None);
    [apply someOrder_range|apply diamondRun_eq].
Defined.

Lemma ExecuteWorkflow_success_witness :
  se_Name <$> we_Steps diamondExecution ≡ₚ ["a"; "b"; "c"; "d"] ∧
  (FailureCount (we_Context diamondExecution) = 0%nat ↔
   ∀ se, se ∈ we_Steps diamondExecution → se_Status se ≠ StepFailed) ∧
  ∃ levels groups,
    buildDependencyGraph (someOrder diamond) diamond = Some (Ok levels) ∧
    we_Steps diamondExecution = concat groups ∧
    Forall2 (λ level g, se_Name <$> g ≡ₚ level) levels groups ∧
    FailureCount (we_Context diamondExecution) = countedFailures groups.
Proof.
  apply (ExecuteWorkflow_success noTemplates noJSON noDuration (someOrder diamond) diamondWorkflow
    diamondSchedule 0 100 {["old" := VNil]} diamondOutputs diamondExecution None);
    [apply someOrder_range|apply diamondRun_eq|vm_compute; reflexivity].
Defined.

Lemma ExecuteWorkflow_never_stopped_witness :
  we_Error diamondExecution ≠ Some StoppedDueToFailures.
Proof.
  apply (ExecuteWorkflow_never_stopped noTemplates noJSON noDuration (someOrder diamond)
    diamondWorkflow diamondSchedule 0 100 {["old" := VNil]} diamondOutputs diamondExecution None);
    [apply someOrder_range|apply diamondRun_eq].
Defined.

Lemma ExecuteWorkflow_keeps_outputs_witness : is_Some (diamondOutputs !! "old").
Proof.
  apply (ExecuteWorkflow_keeps_outputs noTemplates noJSON noDuration (someOrder diamond)
    diamondWorkflow diamondSchedule 0 100 {["old" := VNil]} diamondOutputs diamondExecution None);
    [apply someOrder_range|apply diamondRun_eq|by eexists].
Defined.

Lemma ExecuteWorkflow_runs_witness :
  ∃ schs outputs' x err,
    ExecuteWorkflow noDuration noTemplates noJSON (someOrder diamond) diamondWorkflow schs 0 100 ∅ =
      Some (outputs', x, err) ∧
    we_EndTime x = Some 100 ∧
    (∀ e, buildDependencyGraph (someOrder diamond) diamond = Some (Err e) →
      we_Status x = WorkflowFailed ∧ we_Steps x = [] ∧ err = Some (GraphFailed e)).
Proof.
  apply (ExecuteWorkflow_runs noTemplates noJSON noDuration (someOrder diamond) diamondWorkflow
    0 100 ∅ (succeedsFrom 1)).
  apply someOrder_range.
Defined.

Lemma level_terminates_witness :
  let st := {| templateOutputs := ∅; execution := newExecution diamond 0 0 |} in
  (1 ≤ 4)%nat ∧
  ∃ l' s', levelActions noTemplates noJSON (engineStepMap diamond)
             (startLevel ["b"; "c"] st) ([ARun 1 (succeedsFrom 1)] ++ l') = Some s' ∧
           ls_completed s' = 2%nat.
Proof.
  intros st.
  destruct (levelActions noTemplates noJSON (engineStepMap diamond)
    (startLevel ["b"; "c"] st) [ARun 1 (succeedsFrom 1)]) as [s|] eqn:Hs; [|by vm_compute in Hs].
  apply (level_terminates noTemplates noJSON (engineStepMap diamond) (engineStepMap_name diamond)
    ["b"; "c"] st [ARun 1 (succeedsFrom 1)] s (succeedsFrom 1)); [|done].
  intros n Hn. apply engineStepMap_dom. simpl. set_solver.
Defined.

Definition flakyStep : WorkflowStep := plainStep "a" [].

Lemma executeStep_succeeds_witness :
  ∃ params k r,
    reaches_tool noTemplates noJSON ∅ 0 flakyStep params ∧
    1 ≤ k ≤ 3 ∧ exec_success (env_exec (succeedsFrom 2) "tool" params) k r ∧
    (∀ j, 1 ≤ j < k → ∀ r', ¬ exec_success (env_exec (succeedsFrom 2) "tool" params) j r') ∧
    (∀ j, 1 < j ≤ k → env_done (succeedsFrom 2) j = false) ∧ 2 = k ∧
    VString "tool" = sr_Output r ∧ @None EngineError = None.
Proof.
  apply (executeStep_succeeds noTemplates noJSON ∅ 0 (succeedsFrom 2) flakyStep
    (executeStep noTemplates noJSON ∅ 0 (succeedsFrom 2) flakyStep).1.1 None false);
    vm_compute; reflexivity.
Defined.

Definition zeroRetries : WorkflowStep := {|
  Name := "a"; Tool := "tool"; Parameters := ∅; DependsOn := []; Condition := "";
  RunPolicy := ""; ContinueOnError := false; Timeout := "";
  RetryPolicy := Some {| MaxRetries := 0; RetryDelay := "5s" |} |}.

Lemma zero_retries_never_runs_witness :
  executeStep noTemplates noJSON ∅ 0 (succeedsFrom 1) zeroRetries =
    executeStep noTemplates noJSON ∅ 0 (succeedsFrom 9) zeroRetries ∧
  se_Status (executeStep noTemplates noJSON ∅ 0 (succeedsFrom 1) zeroRetries).1.1 ≠ StepSucceeded.
Proof.
  apply (zero_retries_never_runs noTemplates noJSON ∅ 0 (succeedsFrom 1) (succeedsFrom 9)
    zeroRetries {| MaxRetries := 0; RetryDelay := "5s" |}); [reflexivity|simpl; lia|done|done].
Defined.
