(* ===== verification/CronEngine.v ===== *)
(** * The cron engine

    internal/scheduler/cron_engine.go: the engine's jobs over a cron library.
    The library (robfig/cron) is a type class of its operations with the laws
    the engine relies on.  Job specifications are shared between the caller,
    the engine's map and the library's closures, so they live in a heap and are
    named by location. *)
From S2P Require Import Prelude GoString.

#[local] Open Scope Z_scope.
Set Default Proof Using "Type*".

(** ** The cron library *)

Definition loc : Type := nat.

(** [C] is the library's state.  [cronEntries c] maps an entry's ID to its
    expression and the job its function runs; [cronIssued c] is the largest ID
    given so far; [nextTime expr tz now] is the
    schedule's next time after [now], defined for the expressions that parse. *)
Class CronLib (C : Type) := {
  cronNew : C;
  cronEntries : C → gmap nat (string * loc);
  cronIssued : C → nat;
  ParseStandard : string → bool;
  nextTime : string → string → Z → Z;
  AddFunc : string → loc → C → C * option nat;
  CronRemove : nat → C → C;
  CronStart : C → C;
  CronStop : C → C;
}.

(** What robfig/cron promises: an expression that parses is added under the next
    ID, one that does not is refused without effect; removing deletes the
    entry, if there is one; starting and stopping keep the entries. *)
Class CronLaws (C : Type) `{CronLib C} := {
  new_entries : cronEntries cronNew = ∅;
  add_parsed : ∀ expr l c, ParseStandard expr = true →
    ∃ c', AddFunc expr l c = (c', Some (S (cronIssued c))) ∧
      cronIssued c' = S (cronIssued c) ∧
      cronEntries c' = <[S (cronIssued c) := (expr, l)]> (cronEntries c);
  add_refused : ∀ expr l c, ParseStandard expr = false → AddFunc expr l c = (c, None);
  remove_entries : ∀ id c, cronEntries (CronRemove id c) = delete id (cronEntries c) ∧
    cronIssued (CronRemove id c) = cronIssued c;
  start_entries : ∀ c, cronEntries (CronStart c) = cronEntries c ∧
    cronIssued (CronStart c) = cronIssued c;
  stop_entries : ∀ c, cronEntries (CronStop c) = cronEntries c ∧
    cronIssued (CronStop c) = cronIssued c;
}.

(** ** The engine's state *)

(** [JobSpec]; the handler is what its environment makes it answer.  A nil
    [Timezone] is [None]; [cronEntryID] is 0 before a job is added. *)
Record JobSpec := {
  ID : string;
  JobName : string;
  JobSchedule : string;
  Timezone : option string;
  Enabled : bool;
  LastRun : option Z;
  NextRun : option Z;
  JobMaxRetries : Z;
  JobRetryDelay : Z;
  cronEntryID : nat;
}.

Record JobExecution := {
  je_JobID : string;
  je_StartTime : Z;
  je_EndTime : Z;
  je_Success : bool;
  je_Error : option string;
  je_Attempt : Z;
}.

(** The engine, with the heap of job specifications.  [engineCtx] is [None]
    before the first start, then whether the context is cancelled. *)
Record Engine (C : Type) := {
  cron : C;
  jobs : gmap string loc;
  heap : gmap loc JobSpec;
  started : bool;
  engineCtx : option bool;
}.
Arguments cron {C} e.
Arguments jobs {C} e.
Arguments heap {C} e.
Arguments started {C} e.
Arguments engineCtx {C} e.

Inductive CronError :=
  | InvalidCronExpression (expr : string)
  | AddFailed
  | JobNotFound (id : string).

Section engine.
Context {C : Type} `{CronLib C}.
Implicit Types (e : Engine C) (j : JobSpec) (l : loc).

Definition with_cron (c : C) e : Engine C := {|
  cron := c; jobs := jobs e; heap := heap e; started := started e; engineCtx := engineCtx e |}.
Definition with_jobs (m : gmap string loc) e : Engine C := {|
  cron := cron e; jobs := m; heap := heap e; started := started e; engineCtx := engineCtx e |}.
(** A write through a pointer to a job. *)
Definition with_job l j e : Engine C := {|
  cron := cron e; jobs := jobs e; heap := <[l := j]> (heap e); started := started e;
  engineCtx := engineCtx e |}.

Definition NewCronEngine : Engine C :=
  {| cron := cronNew; jobs := ∅; heap := ∅; started := false; engineCtx := None |}.

Definition Start e : Engine C :=
  if started e then e
  else {| cron := CronStart (cron e); jobs := jobs e; heap := heap e; started := true;
          engineCtx := Some false |}.

Definition Stop e : Engine C :=
  if negb (started e) then e
  else {| cron := CronStop (cron e); jobs := jobs e; heap := heap e; started := false;
          engineCtx := match engineCtx e with Some _ => Some true | None => None end |}.

(** The defaults [AddJob] fills in. *)
Definition withDefaults j : JobSpec := {|
  ID := ID j; JobName := JobName j; JobSchedule := JobSchedule j;
  Timezone := Some (default "UTC" (Timezone j)); Enabled := Enabled j;
  LastRun := LastRun j; NextRun := NextRun j;
  JobMaxRetries := if JobMaxRetries j =? 0 then 3 else JobMaxRetries j;
  JobRetryDelay := if JobRetryDelay j =? 0 then 30000000000 else JobRetryDelay j;
  cronEntryID := cronEntryID j |}.

Definition set_NextRun (t : Z) j : JobSpec := {|
  ID := ID j; JobName := JobName j; JobSchedule := JobSchedule j; Timezone := Timezone j;
  Enabled := Enabled j; LastRun := LastRun j; NextRun := Some t;
  JobMaxRetries := JobMaxRetries j; JobRetryDelay := JobRetryDelay j;
  cronEntryID := cronEntryID j |}.
Definition set_LastRun (t : Z) j : JobSpec := {|
  ID := ID j; JobName := JobName j; JobSchedule := JobSchedule j; Timezone := Timezone j;
  Enabled := Enabled j; LastRun := Some t; NextRun := NextRun j;
  JobMaxRetries := JobMaxRetries j; JobRetryDelay := JobRetryDelay j;
  cronEntryID := cronEntryID j |}.
Definition set_Entry (id : nat) (enabled : bool) j : JobSpec := {|
  ID := ID j; JobName := JobName j; JobSchedule := JobSchedule j; Timezone := Timezone j;
  Enabled := enabled; LastRun := LastRun j; NextRun := NextRun j;
  JobMaxRetries := JobMaxRetries j; JobRetryDelay := JobRetryDelay j;
  cronEntryID := id |}.

(** [AddJob(jobSpec)], with [jobSpec] the location [l].  The pointer stays the
    caller's: the defaults are written even when the expression is refused.
    Its dereference panics when [l] holds nothing: [None]. *)
Definition AddJob (now : Z) l e : option (Engine C * res CronError unit) :=
  j0 ← heap e !! l;
  let j := withDefaults j0 in
  if ParseStandard (JobSchedule j) then
    let j' := set_NextRun (nextTime (JobSchedule j) (default "UTC" (Timezone j)) now) j in
    match AddFunc (JobSchedule j') l (cron e) with
    | (_, None) => Some (with_job l j' e, Err AddFailed)
    | (c, Some entryID) =>
        Some (with_jobs (<[ID j' := l]> (jobs e))
                (with_job l (set_Entry entryID (Enabled j') j') (with_cron c e)), Ok tt)
    end
  else Some (with_job l j e, Err (InvalidCronExpression (JobSchedule j))).

Definition RemoveJob (jobID : string) e : option (Engine C * res CronError unit) :=
  match jobs e !! jobID with
  | None => Some (e, Err (JobNotFound jobID))
  | Some l =>
      job ← heap e !! l;
      Some (with_jobs (delete jobID (jobs e)) (with_cron (CronRemove (cronEntryID job) (cron e)) e),
            Ok tt)
  end.

Definition GetJob (jobID : string) e : option loc := jobs e !! jobID.

Definition ListJobs (order : list string) e : list loc := omap (λ k, jobs e !! k) order.

Definition EnableJob (jobID : string) e : option (Engine C * res CronError unit) :=
  match jobs e !! jobID with
  | None => Some (e, Err (JobNotFound jobID))
  | Some l =>
      job ← heap e !! l;
      if Enabled job then Some (e, Ok tt)
      else
        match AddFunc (JobSchedule job) l (cron e) with
        | (_, None) => Some (e, Err AddFailed)
        | (c, Some entryID) =>
            Some (with_job l (set_Entry entryID true job) (with_cron c e), Ok tt)
        end
  end.

Definition DisableJob (jobID : string) e : option (Engine C * res CronError unit) :=
  match jobs e !! jobID with
  | None => Some (e, Err (JobNotFound jobID))
  | Some l =>
      job ← heap e !! l;
      if negb (Enabled job) then Some (e, Ok tt)
      else
        Some (with_job l (set_Entry (cronEntryID job) false job)
                (with_cron (CronRemove (cronEntryID job) (cron e)) e), Ok tt)
  end.

(** ** The wrapped handler *)

(** The retry loop: the attempt it ended on, and the error it ended with.
    [handler] answers each attempt; [done] is whether the context is done
    before the delay after that attempt is over. *)
Fixpoint retryLoop (handler : Z → option string) (done : Z → bool) (maxRetries : Z)
    (remaining : nat) (attempt : Z) (lastErr : option string) : Z * res (option string) unit :=
  match remaining with
  | O => (attempt - 1, Err lastErr)
  | S remaining' =>
      match handler attempt with
      | None => (attempt, Ok tt)
      | Some err =>
          if (attempt <? maxRetries) && done attempt
          then (attempt, Err (Some "context canceled"))
          else retryLoop handler done maxRetries remaining' (attempt + 1) (Some err)
      end
  end.

(** Running the function the library holds for the job at [l]: the clock
    readings are the start, the last run, the end and the next-run base.  The
    schedule is parsed again and its error ignored, so an expression that no
    longer parses panics: [None]. *)
Definition wrappedHandler (t : nat → Z) (handler : Z → option string) (done : Z → bool) l e :
    option (Engine C * option JobExecution) :=
  job ← heap e !! l;
  if negb (Enabled job) then Some (e, None)
  else
    let '(attempt, outcome) :=
      retryLoop handler done (JobMaxRetries job) (Z.to_nat (JobMaxRetries job)) 1 None in
    let execution := {|
      je_JobID := ID job; je_StartTime := t 0%nat; je_EndTime := t 2%nat;
      je_Success := is_ok outcome;
      je_Error := match outcome with Ok _ => None | Err err => err end;
      je_Attempt := attempt |} in
    if ParseStandard (JobSchedule job) then
      Some (with_job l
        (set_NextRun (nextTime (JobSchedule job) (default "UTC" (Timezone job)) (t 3%nat))
           (set_LastRun (t 1%nat) job)) e, Some execution)
    else None.
End engine.

(** ** Expressions *)

Definition ParseCronExpression {C} `{CronLib C} (expr : string) : bool := ParseStandard expr.

Definition naturalExpressions : gmap string string := list_to_map [
  ("every minute", "* * * * *");
  ("every 5 minutes", "*/5 * * * *");
  ("every 15 minutes", "*/15 * * * *");
  ("every 30 minutes", "*/30 * * * *");
  ("every hour", "0 * * * *");
  ("every 2 hours", "0 */2 * * *");
  ("every 6 hours", "0 */6 * * *");
  ("every 12 hours", "0 */12 * * *");
  ("daily", "0 0 * * *");
  ("every day", "0 0 * * *");
  ("daily at noon", "0 12 * * *");
  ("daily at midnight", "0 0 * * *");
  ("weekly", "0 0 * * 0");
  ("every week", "0 0 * * 0");
  ("monthly", "0 0 1 * *");
  ("every month", "0 0 1 * *");
  ("yearly", "0 0 1 1 *");
  ("every year", "0 0 1 1 *") ].

(** [ConvertToCronExpression]; [None] is the unknown-expression error. *)
Definition ConvertToCronExpression (natural : string) : option string :=
  naturalExpressions !! natural.

(** ** The invariant *)

Section invariant.
Context {C : Type} `{CronLaws C}.
Implicit Types (e : Engine C) (j : JobSpec) (l : loc).

(** A registered job: the location filed under its own ID. *)
Definition registered e l j : Prop := jobs e !! ID j = Some l ∧ heap e !! l = Some j.

(** The library holds exactly one entry per registered enabled job: its own. *)
Record engine_ok e : Prop := {
  eo_jobs : ∀ k l, jobs e !! k = Some l →
    ∃ j, heap e !! l = Some j ∧ ID j = k ∧ ParseStandard (JobSchedule j) = true;
  eo_entries : ∀ id expr l,
    cronEntries (cron e) !! id = Some (expr, l) ↔
    ∃ j, registered e l j ∧ Enabled j = true ∧ cronEntryID j = id ∧ JobSchedule j = expr;
  eo_issued : ∀ l j, registered e l j → (cronEntryID j ≤ cronIssued (cron e))%nat;
  eo_distinct : ∀ l j l' j', registered e l j → registered e l' j' →
    cronEntryID j = cronEntryID j' → l = l';
}.

(** The operations of a disciplined client: it only adds jobs that are enabled
    and whose ID is not in use. *)
Inductive client_step e : Engine C → Prop :=
  | StepStart : client_step e (Start e)
  | StepStop : client_step e (Stop e)
  | StepNew l j : heap e !! l = None → client_step e (with_job l j e)
  | StepAdd now l j e' r :
      heap e !! l = Some j → Enabled j = true → jobs e !! ID j = None →
      AddJob now l e = Some (e', r) → client_step e e'
  | StepRemove id e' r : RemoveJob id e = Some (e', r) → client_step e e'
  | StepEnable id e' r : EnableJob id e = Some (e', r) → client_step e e'
  | StepDisable id e' r : DisableJob id e = Some (e', r) → client_step e e'
  | StepTick t handler done l e' x :
      wrappedHandler t handler done l e = Some (e', x) → client_step e e'.

Lemma registered_fun e l j j' : registered e l j → registered e l j' → j = j'.
Proof. intros [_ H1] [_ H2]. congruence. Qed.

Lemma engine_ok_new : engine_ok NewCronEngine.
Proof.
  split; unfold NewCronEngine, registered; simpl.
  - intros k l Hk. by rewrite lookup_empty in Hk.
  - intros id expr l. rewrite new_entries, lookup_empty. split; [done|].
    intros (j & [Hj _] & _). by rewrite lookup_empty in Hj.
  - intros l j [Hj _]. by rewrite lookup_empty in Hj.
  - intros l j l' j' [Hj _]. by rewrite lookup_empty in Hj.
Qed.

(** Changes that leave the library, the map and the registered jobs' identity,
    schedule, entry and switch alone. *)
Lemma engine_ok_frame e e' :
  jobs e' = jobs e → cronEntries (cron e') = cronEntries (cron e) →
  cronIssued (cron e') = cronIssued (cron e) →
  (∀ k l j', jobs e !! k = Some l → heap e' !! l = Some j' →
    ∃ j, heap e !! l = Some j ∧ ID j' = ID j ∧ JobSchedule j' = JobSchedule j ∧
      Enabled j' = Enabled j ∧ cronEntryID j' = cronEntryID j) →
  (∀ k l, jobs e !! k = Some l → is_Some (heap e' !! l)) →
  engine_ok e → engine_ok e'.
Proof.
  intros Hj Hc Hi Hh Hs [Ho He Hiss Hd].
  assert (∀ l j', registered e' l j' → ∃ j, registered e l j ∧ ID j' = ID j ∧
    JobSchedule j' = JobSchedule j ∧ Enabled j' = Enabled j ∧ cronEntryID j' = cronEntryID j) as Hreg.
  { intros l j' [Hk Hl]. rewrite Hj in Hk. destruct (Hh _ _ _ Hk Hl) as (j & ? & Hid & ?).
    exists j. split; [|done]. split; [by rewrite <-Hid|done]. }
  assert (∀ l j, registered e l j → ∃ j', registered e' l j' ∧
    JobSchedule j' = JobSchedule j ∧ Enabled j' = Enabled j ∧ cronEntryID j' = cronEntryID j) as Hreg'.
  { intros l j [Hk Hl]. destruct (Hs _ _ Hk) as [j' Hj'].
    destruct (Hh _ _ _ Hk Hj') as (j0 & ? & Hid & ?). simplify_eq. exists j'.
    split; [|done]. split; [by rewrite Hj, Hid|done]. }
  split.
  - intros k l Hk. rewrite Hj in Hk. destruct (Hs _ _ Hk) as [j' Hj'].
    destruct (Hh _ _ _ Hk Hj') as (j & Hl & Hid & Hsch & _). destruct (Ho _ _ Hk) as (j0 & ? & ? & ?).
    simplify_eq. exists j'. by rewrite Hid, Hsch.
  - intros id expr l. rewrite Hc, He. split.
    + intros (j & Hr & <- & <- & <-). destruct (Hreg' _ _ Hr) as (j' & ? & ? & ? & ?). eauto 10.
    + intros (j' & Hr & <- & <- & <-). destruct (Hreg _ _ Hr) as (j & ? & _ & ? & ? & ?). eauto 10.
  - intros l j' Hr. destruct (Hreg _ _ Hr) as (j & Hr' & _ & _ & _ & ->). rewrite Hi. eauto.
  - intros l1 j1 l2 j2 Hr1 Hr2. destruct (Hreg _ _ Hr1) as (j1' & ? & _ & _ & _ & ->).
    destruct (Hreg _ _ Hr2) as (j2' & ? & _ & _ & _ & ->). eauto.
Qed.

(** Rewriting one registered job through its pointer. *)
Lemma registered_update e l j j'' c l' j' :
  registered e l j → ID j'' = ID j →
  registered (with_job l j'' (with_cron c e)) l' j' ↔
  (l' = l ∧ j' = j'') ∨ (l' ≠ l ∧ registered e l' j').
Proof.
  intros [Hj Hl] Hid. unfold registered. simpl. split.
  - intros [Hk [[-> ->]|[? ?]]%lookup_insert_Some]; auto.
  - intros [[-> ->]|(Hne & Hk & Hh)].
    + by rewrite lookup_insert_eq, Hid.
    + by rewrite lookup_insert_ne by congruence.
Qed.

Lemma EnableJob_ok id e e' r : engine_ok e → EnableJob id e = Some (e', r) → engine_ok e'.
Proof.
  intros Hok. unfold EnableJob. intros Hs.
  destruct (jobs e !! id) as [l|] eqn:Hk; [|by simplify_eq].
  destruct (eo_jobs _ Hok _ _ Hk) as (j & Hl & Hid & Hparse). subst id. rewrite Hl in Hs.
  cbn [mbind option_bind] in Hs. destruct (Enabled j) eqn:Hen; [by simplify_eq|].
  destruct (add_parsed (JobSchedule j) l (cron e) Hparse) as (c' & Ha & Hi & He).
  rewrite Ha in Hs. simplify_eq. assert (registered e l j) as Hr by done.
  set (j'' := set_Entry (S (cronIssued (cron e))) true j).
  pose proof (λ l' j', registered_update e l j j'' c' l' j' Hr eq_refl) as Hu.
  destruct Hok as [Ho Hent Hiss Hd]. split.
  - intros k l' Hk'. simpl in *. destruct (decide (l' = l)) as [->|Hne].
    + destruct (Ho _ _ Hk') as (? & ? & ? & ?). simplify_eq. exists j''. by rewrite lookup_insert_eq.
    + rewrite lookup_insert_ne by done. eauto.
  - intros id expr l'. simpl. rewrite He, lookup_insert_Some, Hent. split.
    + intros [[<- [= <- <-]]|(Hne & j' & Hr' & Hen' & <- & <-)].
      * exists j''. split; [apply Hu; auto|done].
      * exists j'. split; [|done]. apply Hu. right. split; [|done]. intros ->.
        rewrite (registered_fun _ _ _ _ Hr Hr') in Hen. congruence.
    + intros (j' & [[-> ->]|[Hne Hr']]%Hu & Hen' & <- & <-); [by left|right].
      split; [|by eauto]. pose proof (Hiss _ _ Hr'). lia.
  - intros l' j' [[-> ->]|[Hne Hr']]%Hu; simpl; [lia|]. rewrite Hi. pose proof (Hiss _ _ Hr'). lia.
  - intros l1 j1 l2 j2 [[-> ->]|[? Hr1]]%Hu [[-> ->]|[? Hr2]]%Hu; simpl; [done| | |by eauto].
    + pose proof (Hiss _ _ Hr2). lia.
    + pose proof (Hiss _ _ Hr1). lia.
Qed.

Lemma DisableJob_ok id e e' r : engine_ok e → DisableJob id e = Some (e', r) → engine_ok e'.
Proof.
  intros Hok. unfold DisableJob. intros Hs.
  destruct (jobs e !! id) as [l|] eqn:Hk; [|by simplify_eq].
  destruct (eo_jobs _ Hok _ _ Hk) as (j & Hl & Hid & Hparse). subst id. rewrite Hl in Hs.
  cbn [mbind option_bind] in Hs. destruct (Enabled j) eqn:Hen; [|by simplify_eq/=].
  simplify_eq/=. assert (registered e l j) as Hr by done.
  destruct (remove_entries (cronEntryID j) (cron e)) as [He Hi].
  set (j'' := set_Entry (cronEntryID j) false j).
  pose proof (λ l' j', registered_update e l j j'' (CronRemove (cronEntryID j) (cron e)) l' j' Hr
    eq_refl) as Hu.
  destruct Hok as [Ho Hent Hiss Hd]. split.
  - intros k l' Hk'. simpl in *. destruct (decide (l' = l)) as [->|Hne].
    + destruct (Ho _ _ Hk') as (? & ? & ? & ?). simplify_eq. exists j''. by rewrite lookup_insert_eq.
    + rewrite lookup_insert_ne by done. eauto.
  - intros id expr l'. simpl. rewrite He, lookup_delete_Some, Hent. split.
    + intros (Hne & j' & Hr' & Hen' & <- & <-). exists j'. split; [|done]. apply Hu. right.
      split; [|done]. intros ->. by rewrite (registered_fun _ _ _ _ Hr Hr') in Hne.
    + intros (j' & [[-> ->]|[Hne Hr']]%Hu & Hen' & <- & <-); [done|].
      split; [|by eauto]. intros Heq. apply Hne. by eapply Hd.
  - intros l' j' [[-> ->]|[Hne Hr']]%Hu; simpl; rewrite Hi; [by eapply Hiss|by eauto].
  - intros l1 j1 l2 j2 [[-> ->]|[? Hr1]]%Hu [[-> ->]|[? Hr2]]%Hu; simpl; eauto.
Qed.

Lemma RemoveJob_ok id e e' r : engine_ok e → RemoveJob id e = Some (e', r) → engine_ok e'.
Proof.
  intros Hok. unfold RemoveJob. intros Hs.
  destruct (jobs e !! id) as [l|] eqn:Hk; [|by simplify_eq].
  destruct (eo_jobs _ Hok _ _ Hk) as (j & Hl & Hid & Hparse). subst id. rewrite Hl in Hs.
  simplify_eq/=. assert (registered e l j) as Hr by done.
  destruct (remove_entries (cronEntryID j) (cron e)) as [He Hi].
  assert (∀ l' j', registered (with_jobs (delete (ID j) (jobs e))
    (with_cron (CronRemove (cronEntryID j) (cron e)) e)) l' j' ↔
    ID j' ≠ ID j ∧ registered e l' j') as Hu.
  { intros l' j'. unfold registered. simpl. rewrite lookup_delete_Some. naive_solver. }
  destruct Hok as [Ho Hent Hiss Hd]. split.
  - intros k l' Hk'. simpl in *. apply lookup_delete_Some in Hk' as [? ?]. eauto.
  - intros id expr l'. simpl. rewrite He, lookup_delete_Some, Hent. split.
    + intros (Hne & j' & Hr' & Hen' & <- & <-). exists j'. split; [|done]. apply Hu.
      split; [|done]. intros Heq. apply Hne. destruct Hr' as [Hk' Hl'].
      rewrite Heq, Hk in Hk'. by simplify_eq.
    + intros (j' & [Hne Hr']%Hu & Hen' & <- & <-). split; [|by eauto]. intros Heq. apply Hne.
      rewrite (Hd _ _ _ _ Hr Hr' Heq) in Hr. by rewrite (registered_fun _ _ _ _ Hr Hr').
  - intros l' j' [_ Hr']%Hu. simpl. rewrite Hi. eauto.
  - intros l1 j1 l2 j2 [_ Hr1]%Hu [_ Hr2]%Hu. eauto.
Qed.

(** An expression that parses is added under the next ID. *)
Lemma AddJob_inv now l j e e' r :
  heap e !! l = Some j → AddJob now l e = Some (e', r) →
  (ParseStandard (JobSchedule j) = false ∧ r = Err (InvalidCronExpression (JobSchedule j)) ∧
   e' = with_job l (withDefaults j) e) ∨
  (ParseStandard (JobSchedule j) = true ∧ r = Ok tt ∧ ∃ c' next,
    cronIssued c' = S (cronIssued (cron e)) ∧
    cronEntries c' = <[S (cronIssued (cron e)) := (JobSchedule j, l)]> (cronEntries (cron e)) ∧
    e' = with_jobs (<[ID j := l]> (jobs e))
           (with_job l (set_Entry (S (cronIssued (cron e))) (Enabled j)
              (set_NextRun next (withDefaults j))) (with_cron c' e))).
Proof.
  unfold AddJob. intros Hl Hs. rewrite Hl in Hs. cbn in Hs.
  destruct (ParseStandard (JobSchedule j)) eqn:Hp; [right|left; by simplify_eq].
  destruct (add_parsed (JobSchedule j) l (cron e) Hp) as (c' & Ha & Hi & He).
  rewrite Ha in Hs. simplify_eq. split_and!; [done..|]. by eexists _, _.
Qed.

Lemma AddJob_ok now l j e e' r :
  engine_ok e → heap e !! l = Some j → Enabled j = true → jobs e !! ID j = None →
  AddJob now l e = Some (e', r) → engine_ok e'.
Proof.
  intros Hok Hl Hen Hn Ha.
  assert (∀ k, jobs e !! k ≠ Some l) as Hfree.
  { intros k Hk. destruct (eo_jobs _ Hok _ _ Hk) as (j0 & ? & <- & _). congruence. }
  apply (AddJob_inv _ _ _ _ _ _ Hl) in Ha as [(_ & _ & ->)|(Hp & _ & c' & next & Hi & He & ->)].
  { apply (engine_ok_frame e); try done; simpl; intros k l' ** ;
      assert (l' ≠ l) by (intros ->; by eapply Hfree);
      rewrite lookup_insert_ne in * by done; [eauto 10|].
    destruct (eo_jobs _ Hok k l') as (? & ? & _); eauto. }
  set (j'' := set_Entry _ _ _).
  assert (∀ l' j', registered (with_jobs (<[ID j := l]> (jobs e))
    (with_job l j'' (with_cron c' e))) l' j' ↔
    (l' = l ∧ j' = j'') ∨ (l' ≠ l ∧ registered e l' j')) as Hu.
  { intros l' j'. unfold registered. simpl. split.
    - intros [Hk [[-> ->]|[Hne Hh]]%lookup_insert_Some]; [auto|right].
      apply lookup_insert_Some in Hk as [[_ ?]|[_ ?]]; by auto.
    - intros [[-> ->]|(Hne & Hk & Hh)]; [by rewrite !lookup_insert_eq|].
      rewrite !lookup_insert_ne by congruence. done. }
  destruct Hok as [Ho Hent Hiss Hd]. split.
  - intros k l' Hk'. simpl in *. apply lookup_insert_Some in Hk' as [[<- <-]|[_ Hk']].
    + exists j''. by rewrite lookup_insert_eq.
    + rewrite lookup_insert_ne by (intros ->; by eapply Hfree). eauto.
  - intros id expr l'. simpl. rewrite He, lookup_insert_Some, Hent. split.
    + intros [[<- [= <- <-]]|(Hne & j' & Hr' & Hen' & <- & <-)].
      * exists j''. split; [apply Hu; auto|done].
      * exists j'. split; [|done]. apply Hu. right. split; [|done]. intros ->.
        destruct Hr' as [Hr' _]. by eapply Hfree.
    + intros (j' & [[-> ->]|[Hne Hr']]%Hu & Hen' & <- & <-); [by left|right].
      split; [|by eauto]. pose proof (Hiss _ _ Hr'). lia.
  - intros l' j' [[-> ->]|[Hne Hr']]%Hu; simpl; rewrite Hi; [lia|]. pose proof (Hiss _ _ Hr'). lia.
  - intros l1 j1 l2 j2 [[-> ->]|[? Hr1]]%Hu [[-> ->]|[? Hr2]]%Hu; simpl; [done| | |by eauto].
    + pose proof (Hiss _ _ Hr2). lia.
    + pose proof (Hiss _ _ Hr1). lia.
Qed.

Lemma wrappedHandler_frame t handler done l e e' x :
  wrappedHandler t handler done l e = Some (e', x) →
  e' = e ∨ ∃ j next last, heap e !! l = Some j ∧
    e' = with_job l (set_NextRun next (set_LastRun last j)) e.
Proof.
  unfold wrappedHandler. intros Hw. destruct (heap e !! l) as [j|]; [|done]. simpl in Hw.
  destruct (Enabled j); simpl in Hw; [|by simplify_eq; left].
  destruct (retryLoop _ _ _ _ _ _) as [att out].
  destruct (ParseStandard _); simplify_eq. right. by eexists _, _, _.
Qed.

Lemma client_step_ok e e' : engine_ok e → client_step e e' → engine_ok e'.
Proof.
  intros Hok Hs. destruct Hs as [| |l j Hn|now l j e' r Hl Hen Hn Ha|id e' r Hr|id e' r Hr|id e' r Hr
    |t handler done l e' x Hw].
  - unfold Start. destruct (started e); [done|]. destruct (start_entries (cron e)).
    apply (engine_ok_frame e); try done; simpl; [eauto 10|]. intros k l Hk.
    destruct (eo_jobs _ Hok _ _ Hk) as (? & ? & _). eauto.
  - unfold Stop. destruct (started e); [|done]. simpl. destruct (stop_entries (cron e)).
    apply (engine_ok_frame e); try done; simpl; [eauto 10|]. intros k l Hk.
    destruct (eo_jobs _ Hok _ _ Hk) as (? & ? & _). eauto.
  - apply (engine_ok_frame e); try done; simpl.
    + intros k l' j' Hk. destruct (eo_jobs _ Hok _ _ Hk) as (j0 & ? & _).
      rewrite lookup_insert_ne by congruence. eauto 10.
    + intros k l' Hk. destruct (eo_jobs _ Hok _ _ Hk) as (j0 & ? & _).
      rewrite lookup_insert_ne by congruence. eauto.
  - by eapply AddJob_ok.
  - by eapply RemoveJob_ok.
  - by eapply EnableJob_ok.
  - by eapply DisableJob_ok.
  - apply wrappedHandler_frame in Hw as [->|(j & next & last & Hl & ->)]; [done|].
    apply (engine_ok_frame e); try done; simpl.
    + intros k l' j' _ [[<- <-]|[_ ?]]%lookup_insert_Some; [exists j|]; eauto 10.
    + intros k l' Hk. destruct (eo_jobs _ Hok _ _ Hk) as (? & ? & _).
      destruct (decide (l = l')) as [->|]; [rewrite lookup_insert_eq|rewrite lookup_insert_ne by done];
        eauto.
Qed.

(** As long as jobs are added enabled and under unused IDs, the cron library
    holds exactly one entry for every enabled job, running that job on its
    schedule, and none for a disabled or removed one: in every state reached by
    starting, stopping, adding, removing, enabling, disabling and running. *)
Theorem one_entry_per_enabled_job e :
  rtc client_step NewCronEngine e →
  (∀ l j, registered e l j → Enabled j = true →
    ∃ id, cronEntries (cron e) !! id = Some (JobSchedule j, l) ∧
      ∀ id' expr, cronEntries (cron e) !! id' = Some (expr, l) → id' = id) ∧
  (∀ id expr l, cronEntries (cron e) !! id = Some (expr, l) →
    ∃ j, registered e l j ∧ Enabled j = true ∧ JobSchedule j = expr).
Proof.
  intros Hs. assert (engine_ok e) as [_ Hent _ _].
  { revert Hs. generalize engine_ok_new. generalize (NewCronEngine (C := C)).
    induction 2; eauto using client_step_ok. }
  split.
  - intros l j Hr Hen. exists (cronEntryID j). split; [apply Hent; eauto 10|].
    intros id' expr (j' & Hr' & _ & <- & _)%Hent. by rewrite (registered_fun _ _ _ _ Hr Hr').
  - intros id expr l (j & ? & ? & _ & ?)%Hent. eauto.
Qed.

(** A job added while disabled is scheduled all the same; enabling it then
    schedules it a second time, so that it runs twice, and removing it leaves
    the first entry behind, running an enabled job the engine no longer knows. *)
Theorem add_disabled_then_enable now l j e :
  engine_ok e → heap e !! l = Some j → Enabled j = false → jobs e !! ID j = None →
  ParseStandard (JobSchedule j) = true →
  ∃ e1 e2 e3 id1 id2 j2,
    AddJob now l e = Some (e1, Ok tt) ∧ EnableJob (ID j) e1 = Some (e2, Ok tt) ∧
    id1 ≠ id2 ∧
    cronEntries (cron e2) !! id1 = Some (JobSchedule j, l) ∧
    cronEntries (cron e2) !! id2 = Some (JobSchedule j, l) ∧
    RemoveJob (ID j) e2 = Some (e3, Ok tt) ∧ jobs e3 !! ID j = None ∧
    cronEntries (cron e3) !! id1 = Some (JobSchedule j, l) ∧
    heap e3 !! l = Some j2 ∧ Enabled j2 = true.
Proof.
  intros Hok Hl Hen Hn Hp. unfold AddJob. rewrite Hl. cbn. rewrite Hp.
  destruct (add_parsed (JobSchedule j) l (cron e) Hp) as (c1 & Ha1 & Hi1 & He1). rewrite Ha1.
  set (j1 := set_Entry _ _ _). set (e1 := with_jobs _ _).
  assert (heap e1 !! l = Some j1) as Hl1 by apply lookup_insert_eq.
  assert (jobs e1 !! ID j = Some l) as Hk1 by apply lookup_insert_eq.
  destruct (add_parsed (JobSchedule j) l c1 Hp) as (c2 & Ha2 & Hi2 & He2).
  set (j2 := set_Entry (S (cronIssued c1)) true j1). set (e2 := with_job l j2 (with_cron c2 e1)).
  assert (EnableJob (ID j) e1 = Some (e2, Ok tt)) as Hena.
  { unfold EnableJob. rewrite Hk1, Hl1. cbn [mbind option_bind].
    replace (Enabled j1) with false by done. change (cron e1) with c1.
    change (JobSchedule j1) with (JobSchedule j). by rewrite Ha2. }
  set (e3 := with_jobs (delete (ID j) (jobs e2)) (with_cron (CronRemove (cronEntryID j2) (cron e2)) e2)).
  assert (heap e2 !! l = Some j2) as Hl2 by apply lookup_insert_eq.
  exists e1, e2, e3, (S (cronIssued (cron e))), (S (cronIssued c1)), j2.
  destruct (remove_entries (cronEntryID j2) c2) as [Hrem _].
  split_and!; [done|done|lia| | | |by simpl; rewrite lookup_delete_eq| |done|done].
  - simpl. rewrite He2, lookup_insert_ne by lia. by rewrite He1, lookup_insert_eq.
  - simpl. by rewrite He2, lookup_insert_eq.
  - unfold RemoveJob. change (jobs e2 !! ID j) with (jobs e1 !! ID j). by rewrite Hk1, Hl2.
  - change (cronEntries (cron e3)) with (cronEntries (CronRemove (cronEntryID j2) c2)).
    rewrite Hrem, lookup_delete_ne by (simpl; lia).
    rewrite He2, lookup_insert_ne by lia. by rewrite He1, lookup_insert_eq.
Qed.

(** ** The retry loop *)

(** A tick of an enabled job calls its handler at most [MaxRetries] times,
    stops at the first success, and reports success exactly when some attempt
    within that bound succeeds with no cancellation before it; a disabled job is
    left alone. *)
Theorem wrappedHandler_spec t handler done l e e' j x :
  heap e !! l = Some j → wrappedHandler t handler done l e = Some (e', x) →
  (Enabled j = false → e' = e ∧ x = None) ∧
  (Enabled j = true → ∃ ex, x = Some ex ∧ je_JobID ex = ID j ∧
    0 ≤ je_Attempt ex ≤ Z.max 0 (JobMaxRetries j) ∧
    (je_Success ex = true ↔
      ∃ k, 1 ≤ k ≤ JobMaxRetries j ∧ handler k = None ∧
        (∀ i, 1 ≤ i < k → handler i ≠ None ∧ done i = false)) ∧
    (je_Success ex = true → handler (je_Attempt ex) = None ∧ je_Error ex = None)).
Proof.
  intros Hl Hw. unfold wrappedHandler in Hw. rewrite Hl in Hw. cbn [mbind option_bind] in Hw.
  destruct (Enabled j); simpl in Hw; [|by simplify_eq]. split; [done|intros _].
  assert (∀ n a last att out, 1 ≤ a → a + Z.of_nat n = Z.max 0 (JobMaxRetries j) + 1 →
    retryLoop handler done (JobMaxRetries j) n a last = (att, out) →
    a - 1 ≤ att ≤ Z.max 0 (JobMaxRetries j) ∧
    (is_ok out = true ↔ ∃ k, a ≤ k ≤ JobMaxRetries j ∧ handler k = None ∧
      (∀ i, a ≤ i < k → handler i ≠ None ∧ done i = false)) ∧
    (is_ok out = true → handler att = None)) as Hloop.
  { induction n as [|n IH]; intros a last att out Ha Hn Hr; simpl in Hr.
    - simplify_eq/=. split_and!; [lia|lia| |done]. split; [done|]. intros (k & ? & _). lia.
    - destruct (handler a) as [err|] eqn:Hh.
      + destruct ((a <? JobMaxRetries j) && done a) eqn:Hd.
        * simplify_eq/=. apply andb_true_iff in Hd as [Hlt%Z.ltb_lt Hda].
          split_and!; [lia|lia| |done]. split; [done|]. intros (k & Hk & Hhk & Hi).
          destruct (decide (k = att)) as [->|]; [congruence|]. destruct (Hi att); [lia|congruence].
        * apply IH in Hr as (Hat & Hiff & Hsucc); [|lia..].
          split_and!; [lia|lia| |done]. rewrite Hiff. split.
          -- intros (k & Hk & Hhk & Hi). exists k. split_and!; [lia|lia|done|].
             intros i Hia. destruct (decide (i = a)) as [->|]; [|apply Hi; lia].
             split; [congruence|]. apply andb_false_iff in Hd as [Hd%Z.ltb_ge|]; [lia|done].
          -- intros (k & Hk & Hhk & Hi). exists k.
             destruct (decide (k = a)) as [->|]; [congruence|].
             split_and!; [lia|lia|done|]. intros i Hia. apply Hi. lia.
      + simplify_eq/=. split_and!; [lia|lia| |done]. split; [|done]. intros _.
        exists att. split_and!; [lia|lia|done|]. intros i Hi. lia. }
  destruct (retryLoop _ _ _ _ _ _) as [att out] eqn:Hr.
  destruct (ParseStandard (JobSchedule j)); simplify_eq. eexists. split; [done|]. simpl.
  apply Hloop in Hr as (? & ? & ?); [|lia..].
  split_and!; [done|lia|lia|done|]. intros Hok. split; [auto|]. by destruct out.
Qed.
End invariant.

(** Every natural-language expression the engine knows converts to an
    expression of exactly five fields. *)
Theorem ConvertToCronExpression_fields natural expr :
  ConvertToCronExpression natural = Some expr → length (Fields expr) = 5%nat.
Proof.
  intros He.
  assert (map_Forall (λ _ v, length (Fields v) = 5%nat) naturalExpressions) as Hall.
  { apply (bool_decide_unpack _). vm_compute. exact I. }
  by apply (Hall natural).
Qed.

(** ** Witnesses *)

(** A cron library that accepts the expressions of five fields. *)
Record MapCron := { mc_entries : gmap nat (string * loc); mc_issued : nat }.

#[export] Instance MapCron_lib : CronLib MapCron := {|
  cronNew := {| mc_entries := ∅; mc_issued := 0 |};
  cronEntries := mc_entries; cronIssued := mc_issued;
  ParseStandard := λ expr, bool_decide (length (Fields expr) = 5%nat);
  nextTime := λ _ _ now, now + 60000000000;
  AddFunc := λ expr l c,
    if bool_decide (length (Fields expr) = 5%nat)
    then ({| mc_entries := <[S (mc_issued c) := (expr, l)]> (mc_entries c);
             mc_issued := S (mc_issued c) |}, Some (S (mc_issued c)))
    else (c, None);
  CronRemove := λ id c, {| mc_entries := delete id (mc_entries c); mc_issued := mc_issued c |};
  CronStart := id; CronStop := id |}.

#[export] Instance MapCron_laws : CronLaws MapCron.
Proof.
  split; try done.
  - intros expr l c Hp. simpl in *. rewrite Hp. eauto.
  - intros expr l c Hp. simpl in *. by rewrite Hp.
Qed.

Definition nightly (enabled : bool) : JobSpec := {|
  ID := "nightly"; JobName := "nightly"; JobSchedule := "0 0 * * *"; Timezone := None;
  Enabled := enabled; LastRun := None; NextRun := None; JobMaxRetries := 0; JobRetryDelay := 0;
  cronEntryID := 0 |}.

(** The engine after the caller has made a job, and after it was added. *)
Definition nightlyMade (enabled : bool) : Engine MapCron :=
  with_job 0%nat (nightly enabled) NewCronEngine.
Definition nightlyAdded : Engine MapCron :=
  default NewCronEngine (fst <$> AddJob 100 0%nat (nightlyMade true)).

Lemma one_entry_per_enabled_job_witness :
  (∀ l j, registered nightlyAdded l j → Enabled j = true →
    ∃ id, cronEntries (cron nightlyAdded) !! id = Some (JobSchedule j, l) ∧
      ∀ id' expr, cronEntries (cron nightlyAdded) !! id' = Some (expr, l) → id' = id) ∧
  (∀ id expr l, cronEntries (cron nightlyAdded) !! id = Some (expr, l) →
    ∃ j, registered nightlyAdded l j ∧ Enabled j = true ∧ JobSchedule j = expr).
Proof.
  apply (one_entry_per_enabled_job nightlyAdded).
  eapply rtc_l; [by apply (StepNew _ 0%nat (nightly true))|].
  apply rtc_once. apply (StepAdd _ 100 0%nat (nightly true) _ (Ok tt)); done.
Defined.

Lemma add_disabled_then_enable_witness :
  ∃ e1 e2 e3 id1 id2 j2,
    AddJob 100 0%nat (nightlyMade false) = Some (e1, Ok tt) ∧
    EnableJob "nightly" e1 = Some (e2, Ok tt) ∧ id1 ≠ id2 ∧
    cronEntries (cron e2) !! id1 = Some ("0 0 * * *", 0%nat) ∧
    cronEntries (cron e2) !! id2 = Some ("0 0 * * *", 0%nat) ∧
    RemoveJob "nightly" e2 = Some (e3, Ok tt) ∧ jobs e3 !! "nightly" = None ∧
    cronEntries (cron e3) !! id1 = Some ("0 0 * * *", 0%nat) ∧
    heap e3 !! 0%nat = Some j2 ∧ Enabled j2 = true.
Proof.
  apply (add_disabled_then_enable 100 0%nat (nightly false) (nightlyMade false)); try done.
  apply (client_step_ok NewCronEngine); [apply engine_ok_new|by apply StepNew].
Defined.

Definition nightlyTicked : Engine MapCron * option JobExecution :=
  default (NewCronEngine, None)
    (wrappedHandler (λ n, 200 + Z.of_nat n)
       (λ attempt, if attempt =? 3 then None else Some "busy") (λ _, false) 0%nat nightlyAdded).

Lemma wrappedHandler_spec_witness :
  ∃ ex, nightlyTicked.2 = Some ex ∧ je_JobID ex = "nightly" ∧
    0 ≤ je_Attempt ex ≤ 3 ∧
    (je_Success ex = true ↔
      ∃ k, 1 ≤ k ≤ 3 ∧ (if k =? 3 then None else Some "busy") = None ∧
        (∀ i, 1 ≤ i < k → (if i =? 3 then None else Some "busy") ≠ None ∧ false = false)) ∧
    (je_Success ex = true →
      (if je_Attempt ex =? 3 then None else Some "busy") = None ∧ je_Error ex = None).
Proof.
  destruct (heap nightlyAdded !! 0%nat) as [j|] eqn:Hj; [|by vm_compute in Hj].
  assert (j = default (nightly true) (heap nightlyAdded !! 0%nat)) as Hd by (by rewrite Hj).
  refine (eq_rect _ (λ P, P) (proj2 (wrappedHandler_spec (λ n, 200 + Z.of_nat n)
    (λ attempt, if attempt =? 3 then None else Some "busy") (λ _, false) 0%nat nightlyAdded
    nightlyTicked.1 j nightlyTicked.2 Hj _) _) _ _).
  - vm_compute. reflexivity.
  - rewrite Hd. vm_compute. reflexivity.
  - rewrite Hd. vm_compute. reflexivity.
Defined.

Lemma ConvertToCronExpression_fields_witness : length (Fields "0 12 * * *") = 5%nat.
Proof. apply (ConvertToCronExpression_fields "daily at noon"). vm_compute. reflexivity. Defined.
