(* ===== verification/Protocol.v ===== *)
(** * MCP messages and errors

    internal/protocol/errors.go: the error constructors and what a caller asks
    of an error; and the message layer of internal/protocol/protocol.go:
    messages and their constructors, [ValidateMessage], capabilities and the
    method tables.  Encoded JSON (json.RawMessage) is an opaque string. *)
From S2P Require Import Prelude GoString.

#[local] Open Scope Z_scope.

(** ** Errors *)

Record MCPError := {
  Code : Z;
  Message : string;
  Data : option (gmap string Value);
}.

Definition ParseError : Z := -32700.
Definition InvalidRequest : Z := -32600.
Definition MethodNotFound : Z := -32601.
Definition InvalidParams : Z := -32602.
Definition InternalError : Z := -32603.
Definition RequestFailed : Z := -32000.
Definition RequestCancelled : Z := -32001.
Definition RequestTimeout : Z := -32002.
Definition TransportError : Z := -31999.
Definition SessionError : Z := -31998.
Definition CapabilityError : Z := -31997.
Definition ProtocolError : Z := -31996.
Definition AuthenticationError : Z := -31995.
Definition AuthorizationError : Z := -31994.
Definition RateLimitError : Z := -31993.
Definition ResourceError : Z := -31992.
Definition ValidationError : Z := -31991.
Definition ExecutionError : Z := -31990.
Definition StateError : Z := -31989.
Definition ConfigurationError : Z := -31988.

Definition NewMCPError (code : Z) (message : string) (data : gmap string Value) : MCPError :=
  {| Code := code; Message := message; Data := Some data |}.

Definition NewParseError (details : string) : MCPError :=
  NewMCPError ParseError "Parse error"
    {["details" := VString details; "type" := VString "parse_error"]}.

Definition NewInvalidRequest (details : string) : MCPError :=
  NewMCPError InvalidRequest "Invalid Request"
    {["details" := VString details; "type" := VString "invalid_request"]}.

Definition NewMethodNotFound (method : string) : MCPError :=
  NewMCPError MethodNotFound ("Method not found: " +:+ method)
    {["method" := VString method; "type" := VString "method_not_found"]}.

Definition NewInvalidParams (details : string) (params : Value) : MCPError :=
  let data : gmap string Value :=
    {["details" := VString details; "type" := VString "invalid_params"]} in
  NewMCPError InvalidParams "Invalid params"
    match params with VNil => data | _ => <["provided_params" := params]> data end.

Definition NewInternalError (details : string) : MCPError :=
  NewMCPError InternalError "Internal error"
    {["details" := VString details; "type" := VString "internal_error"]}.

Definition NewRequestTimeout (operation timeout : string) : MCPError :=
  NewMCPError RequestTimeout "Request timed out"
    {["operation" := VString operation; "timeout" := VString timeout;
      "type" := VString "timeout_error"]}.

Definition NewTransportError (transport details : string) : MCPError :=
  NewMCPError TransportError "Transport error"
    {["transport" := VString transport; "details" := VString details;
      "type" := VString "transport_error"]}.

Definition NewSessionError (sessionId details : string) : MCPError :=
  NewMCPError SessionError "Session error"
    {["session_id" := VString sessionId; "details" := VString details;
      "type" := VString "session_error"]}.

Definition NewCapabilityError (capability details : string) : MCPError :=
  NewMCPError CapabilityError "Capability error"
    {["capability" := VString capability; "details" := VString details;
      "type" := VString "capability_error"]}.

Definition NewProtocolError (expectedVersion actualVersion : string) : MCPError :=
  NewMCPError ProtocolError "Protocol version mismatch"
    {["expected_version" := VString expectedVersion; "actual_version" := VString actualVersion;
      "type" := VString "protocol_error"]}.

Definition NewAuthenticationError (details : string) : MCPError :=
  NewMCPError AuthenticationError "Authentication failed"
    {["details" := VString details; "type" := VString "authentication_error"]}.

Definition NewAuthorizationError (resource action : string) : MCPError :=
  NewMCPError AuthorizationError "Authorization failed"
    {["resource" := VString resource; "action" := VString action;
      "type" := VString "authorization_error"]}.

Definition NewRateLimitError (limit window : string) : MCPError :=
  NewMCPError RateLimitError "Rate limit exceeded"
    {["limit" := VString limit; "window" := VString window;
      "type" := VString "rate_limit_error"]}.

Definition NewResourceError (resource operation details : string) : MCPError :=
  NewMCPError ResourceError "Resource access error"
    {["resource" := VString resource; "operation" := VString operation;
      "details" := VString details; "type" := VString "resource_error"]}.

Definition NewValidationError (field : string) (value : Value) (constraint : string) : MCPError :=
  NewMCPError ValidationError "Input validation failed"
    {["field" := VString field; "value" := value; "constraint" := VString constraint;
      "type" := VString "validation_error"]}.

Definition NewExecutionError (tool details : string) : MCPError :=
  NewMCPError ExecutionError "Execution failed"
    {["tool" := VString tool; "details" := VString details; "type" := VString "execution_error"]}.

Definition NewStateError (expectedState actualState : string) : MCPError :=
  NewMCPError StateError "Invalid server state"
    {["expected_state" := VString expectedState; "actual_state" := VString actualState;
      "type" := VString "state_error"]}.

Definition NewConfigurationError (component details : string) : MCPError :=
  NewMCPError ConfigurationError "Configuration error"
    {["component" := VString component; "details" := VString details;
      "type" := VString "configuration_error"]}.

Definition IsRetryable (e : MCPError) : bool :=
  bool_decide (Code e ∈ [RequestTimeout; TransportError; SessionError; RateLimitError]).

Definition IsTemporary (e : MCPError) : bool := IsRetryable e.

(** In seconds. *)
Definition GetRetryDelay (e : MCPError) : Z :=
  if decide (Code e ∈ [RequestTimeout; TransportError]) then 5
  else if decide (Code e = SessionError) then 30
  else if decide (Code e = RateLimitError) then 60
  else 0.

(** ** Messages *)

Definition MCPVersion : string := "2025-06-18".

Definition AcceptedMCPVersions : list string := ["2024-11-05"; "2025-03-26"; "2025-06-18"].

Definition IsAcceptedMCPVersion (version : string) : bool :=
  bool_decide (version ∈ AcceptedMCPVersions).

(** [None] is a nil field; [ID] is nil for [VNil]. *)
Record MCPMessage := {
  JSONRPC : string;
  ID : Value;
  Method : string;
  Params : option string;
  Result : option string;
  Error : option MCPError;
  ProgressTokenOf : string;
}.

Definition isNil (v : Value) : bool := match v with VNil => true | _ => false end.
Definition isSome {A} (o : option A) : bool := match o with Some _ => true | None => false end.

Definition ValidateMessage (msg : MCPMessage) : res MCPError unit :=
  if negb (String.eqb (JSONRPC msg) "2.0") then Err (NewInvalidRequest "jsonrpc field must be '2.0'")
  else if negb (isNil (ID msg)) then
    if negb (String.eqb (Method msg) "") then
      if isSome (Result msg) || isSome (Error msg)
      then Err (NewInvalidRequest "request cannot have result or error fields") else Ok tt
    else if negb (String.eqb (Method msg) "") || isSome (Params msg)
    then Err (NewInvalidRequest "response cannot have method or params fields")
    else if isSome (Result msg) && isSome (Error msg)
    then Err (NewInvalidRequest "response cannot have both result and error")
    else if negb (isSome (Result msg)) && negb (isSome (Error msg))
    then Err (NewInvalidRequest "response must have either result or error")
    else Ok tt
  else if String.eqb (Method msg) ""
  then Err (NewInvalidRequest "notification must have method field")
  else if isSome (Result msg) || isSome (Error msg)
  then Err (NewInvalidRequest "notification cannot have result or error fields")
  else Ok tt.

(** The optional progress token is the first of the variadic arguments. *)
Definition tokenOf (progressToken : list string) : string :=
  match progressToken with t :: _ => t | [] => "" end.

Section constructors.
(** json.Marshal, [None] when it fails. *)
Context (Marshal : Value → option string).

Definition marshalParams (params : Value) : option (option string) :=
  match params with VNil => Some None | _ => Some <$> Marshal params end.

(** A request, a response and a notification have subsets of the fields of a
    message; [None] is the error of json.Marshal. *)
Definition NewRequest (id : Value) (method : string) (params : Value)
    (progressToken : list string) : option MCPMessage :=
  paramsBytes ← marshalParams params;
  Some {| JSONRPC := "2.0"; ID := id; Method := method; Params := paramsBytes; Result := None;
          Error := None; ProgressTokenOf := tokenOf progressToken |}.

Definition NewResponse (id result : Value) (err : option MCPError) (progressToken : list string) :
    option MCPMessage :=
  resultBytes ← (if negb (isNil result) && negb (isSome err) then Some <$> Marshal result
                 else Some None);
  Some {| JSONRPC := "2.0"; ID := id; Method := ""; Params := None; Result := resultBytes;
          Error := err; ProgressTokenOf := tokenOf progressToken |}.

Definition NewNotification (method : string) (params : Value) : option MCPMessage :=
  paramsBytes ← marshalParams params;
  Some {| JSONRPC := "2.0"; ID := VNil; Method := method; Params := paramsBytes; Result := None;
          Error := None; ProgressTokenOf := "" |}.
End constructors.

(** ** Capabilities *)

(** The options of each capability, [None] when it is not supported; sampling,
    logging, elicitation and completions have no options. *)
Record CapabilitiesOpts := {
  Resources : option (bool * bool);
  Tools : option bool;
  Prompts : option bool;
  Sampling : option unit;
  Logging : option unit;
  Roots : option bool;
  Elicitation : option unit;
  Completions : option unit;
}.

(** Whether the server has a capability; a name it does not know counts. *)
Definition hasCapability (c : CapabilitiesOpts) (cap : string) : bool :=
  if String.eqb cap "resources" then isSome (Resources c)
  else if String.eqb cap "tools" then isSome (Tools c)
  else if String.eqb cap "prompts" then isSome (Prompts c)
  else if String.eqb cap "sampling" then isSome (Sampling c)
  else if String.eqb cap "logging" then isSome (Logging c)
  else if String.eqb cap "roots" then isSome (Roots c)
  else true.

Fixpoint ValidateCapabilities (c : CapabilitiesOpts) (required : list string) :
    res MCPError unit :=
  match required with
  | [] => Ok tt
  | cap :: rest =>
      if hasCapability c cap then ValidateCapabilities c rest
      else Err (NewCapabilityError cap ("server does not support " +:+ cap +:+ " capability"))
  end.

Definition CapabilityOptsFromConfig : CapabilitiesOpts := {|
  Resources := Some (true, true); Tools := Some true; Prompts := Some true;
  Sampling := Some tt; Logging := Some tt; Roots := Some true; Elicitation := None;
  Completions := None |}.

(** ** Methods *)

Definition progressSupportedMethods : list string :=
  ["tools/call"; "resources/read"; "resources/list"; "prompts/get"; "sampling/create"].

Definition IsProgressSupported (method : string) : bool :=
  bool_decide (method ∈ progressSupportedMethods).

Definition MethodSamplingCreate : string := "sampling/createMessage".

Definition standardMethods : list string := [
  "initialize"; "notifications/initialized"; "ping"; "resources/list"; "resources/read";
  "resources/subscribe"; "resources/unsubscribe"; "tools/list"; "tools/call"; "prompts/list";
  "prompts/get"; MethodSamplingCreate; "logging/setLevel"; "roots/list";
  "completion/complete"; "elicitation/create"; "notifications/cancelled";
  "notifications/progress"; "notifications/resources/updated";
  "notifications/resources/list_changed"; "notifications/tools/list_changed";
  "notifications/prompts/list_changed"; "notifications/roots/list_changed";
  "notifications/message"].

Definition IsStandardMethod (method : string) : bool := bool_decide (method ∈ standardMethods).

(** ** Properties *)

(** The three kinds of messages. *)
Inductive message_kind (msg : MCPMessage) : Prop :=
  | kind_request :
      ID msg ≠ VNil → Method msg ≠ "" → Result msg = None → Error msg = None → message_kind msg
  | kind_response :
      ID msg ≠ VNil → Method msg = "" → Params msg = None →
      (is_Some (Result msg) ↔ Error msg = None) → message_kind msg
  | kind_notification :
      ID msg = VNil → Method msg ≠ "" → Result msg = None → Error msg = None → message_kind msg.

Lemma isNil_true v : isNil v = true ↔ v = VNil.
Proof. by destruct v. Qed.

Lemma isSome_false {A} (o : option A) : isSome o = false ↔ o = None.
Proof. by destruct o. Qed.

Lemma response_kind msg :
  ID msg ≠ VNil → Method msg = "" →
  message_kind msg ↔
    isSome (Params msg) = false ∧ isSome (Result msg) ≠ isSome (Error msg).
Proof.
  intros Hid Hm. rewrite isSome_false. split.
  - intros [|_ _ Hp Hx|]; [done| |done]. split; [done|].
    destruct (Result msg), (Error msg); simpl; try done.
    + by pose proof (proj1 Hx (mk_is_Some _ _ eq_refl)).
    + destruct (proj2 Hx eq_refl) as [? ?]. done.
  - intros [Hp Hne]. apply kind_response; try done.
    destruct (Result msg), (Error msg); simpl in *; try done; split; try done.
Qed.

(** C40: a message is valid exactly when it is JSON-RPC 2.0 and a request, a
    response with either a result or an error, or a notification. *)
Theorem ValidateMessage_typed msg :
  ValidateMessage msg = Ok tt ↔ JSONRPC msg = "2.0" ∧ message_kind msg.
Proof.
  unfold ValidateMessage.
  destruct (String.eqb_spec (JSONRPC msg) "2.0") as [Hj|Hj]; simpl; [|naive_solver].
  destruct (isNil (ID msg)) eqn:Hid; simpl.
  - apply isNil_true in Hid. destruct (String.eqb_spec (Method msg) "") as [Hm|Hm]; simpl.
    { split; [done|]. by intros [_ []]. }
    destruct (Result msg) eqn:Hr; simpl.
    { split; [done|]. intros [_ []]; congruence. }
    destruct (Error msg) eqn:He; simpl.
    { split; [done|]. intros [_ []]; congruence. }
    split; [|done]. intros _. split; [done|]. by apply kind_notification.
  - assert (ID msg ≠ VNil) as Hid' by (by intros ?%isNil_true; congruence).
    destruct (String.eqb_spec (Method msg) "") as [Hm|Hm]; simpl.
    + rewrite (response_kind msg) by done.
      destruct (Params msg), (Result msg), (Error msg); simpl; naive_solver.
    + destruct (Result msg) eqn:Hr, (Error msg) eqn:He; simpl;
        (split; [intros ?; simplify_eq|intros [_ []]; congruence]).
      split; [done|]. by apply kind_request.
Qed.

(** The constructors build valid messages: every request and notification
    with a method, and a response exactly when it has an ID and a result or an
    error; a response to a request whose ID is null is never valid. *)
Theorem constructors_valid (Marshal : Value → option string) id method v err tokens :
  (∀ msg, NewRequest Marshal id method v tokens = Some msg → id ≠ VNil → method ≠ "" →
     ValidateMessage msg = Ok tt) ∧
  (∀ msg, NewNotification Marshal method v = Some msg → method ≠ "" →
     ValidateMessage msg = Ok tt) ∧
  (∀ msg, NewResponse Marshal id v err tokens = Some msg →
     ValidateMessage msg = Ok tt ↔ id ≠ VNil ∧ (v ≠ VNil ∨ is_Some err)).
Proof.
  split_and!.
  - intros msg (p & _ & [= <-])%bind_Some Hid Hm. unfold ValidateMessage. simpl.
    rewrite (proj2 (String.eqb_neq _ _) Hm). destruct (isNil id) eqn:Hn; [|done].
    by apply isNil_true in Hn.
  - intros msg (p & _ & [= <-])%bind_Some Hm. unfold ValidateMessage. simpl.
    by rewrite (proj2 (String.eqb_neq _ _) Hm).
  - intros msg (r & Hr & [= <-])%bind_Some. unfold ValidateMessage. simpl.
    rewrite <-(isNil_true id), <-(isNil_true v). destruct (isNil id); simpl; [naive_solver|].
    destruct err as [e|]; simpl in *.
    + rewrite andb_false_r in Hr. injection Hr as <-. simpl. naive_solver.
    + rewrite andb_true_r in Hr. destruct (isNil v); simpl in Hr.
      * injection Hr as <-. simpl. split; [done|]. intros [_ [?|[??]]]; done.
      * apply fmap_Some in Hr as (? & _ & ->). simpl. naive_solver.
Qed.

(** Contrary to its table, creating a message by sampling does not support
    progress reports: the table has another spelling of the method. *)
Example sampling_progress : IsProgressSupported MethodSamplingCreate = false.
Proof. reflexivity. Qed.

(** A retry is suggested exactly for the retryable errors. *)
Lemma GetRetryDelay_retryable e : IsRetryable e = true ↔ 0 < GetRetryDelay e.
Proof.
  unfold IsRetryable, GetRetryDelay. rewrite bool_decide_eq_true, !elem_of_cons.
  repeat case_decide; set_solver.
Qed.
