(* ===== verification/Roots.v ===== *)
(** * MCP roots

    internal/protocol/roots.go: the roots a client or server may access, their
    permissions and watchers.  The access check is proved to confine accepted
    paths to their root, whatever "." and ".." they contain; which of several
    nested roots decides is left to the order of map iteration. *)
From S2P Require Import Prelude GoString GoPath Protocol.

Set Default Proof Using "Type*".

(** ** Data *)

Record Root := { URI : string; Name : string }.

Record RootPermissions := { Read : bool; Write : bool; List : bool; Watch : bool }.

Record RootEntry := {
  EntryRoot : Root;
  Added : Z;
  LastUsed : Z;
  Permissions : option RootPermissions;
}.

(** A callback is a function of the caller, named by a number. *)
Record RootWatcher := {
  RootURI : string;
  Callback : nat;
  LastChange : Z;
  Active : bool;
}.

Record RootManager := {
  roots : gmap string RootEntry;
  watchers : gmap string RootWatcher;
}.

Definition NewRootManager : RootManager := {| roots := ∅; watchers := ∅ |}.

Definition setRoots (f : gmap string RootEntry → gmap string RootEntry) (rm : RootManager) :
    RootManager :=
  {| roots := f (roots rm); watchers := watchers rm |}.

Definition setWatchers (f : gmap string RootWatcher → gmap string RootWatcher)
    (rm : RootManager) : RootManager :=
  {| roots := roots rm; watchers := f (watchers rm) |}.

Definition touch (now : Z) (e : RootEntry) : RootEntry :=
  {| EntryRoot := EntryRoot e; Added := Added e; LastUsed := now; Permissions := Permissions e |}.

Definition defaultPermissions : RootPermissions :=
  {| Read := true; Write := false; List := true; Watch := false |}.

Section roots.
(** url.Parse, with the text of its error. *)
Context (urlParse : string → res string URL).

(** ** Validation and normalisation *)

Definition validateRootURI (uri : string) : res string unit :=
  if decide (uri = "") then Err "URI cannot be empty"
  else
    match urlParse uri with
    | Err e => Err ("invalid URI format: " +:+ e)
    | Ok parsedURL =>
        if decide (url_Scheme parsedURL = "file") then
          if decide (url_Path parsedURL = "") then Err "file URI must have a path" else Ok tt
        else if decide (url_Scheme parsedURL = "http" ∨ url_Scheme parsedURL = "https") then
          if decide (url_Host parsedURL = "") then Err "HTTP URI must have a host" else Ok tt
        else if decide (url_Scheme parsedURL = "") then
          if IsAbs uri then Ok tt else Err "relative paths not supported as roots"
        else Ok tt
    end.

(** The path of a file URI, otherwise the text itself. *)
Definition pathOf (path : string) : string :=
  if HasPrefix path "file://"
  then match urlParse path with Ok parsedURL => url_Path parsedURL | Err _ => path end
  else path.

Definition normalizePath (path : string) : string := Clean (pathOf path).

Definition isPathInRoot (path rootURI : string) : bool :=
  let normalizedRoot := normalizePath rootURI in
  if negb (HasPrefix path normalizedRoot) then false
  else if String.length normalizedRoot <? String.length path
  then bool_decide (String.get (String.length normalizedRoot) path = Some Separator)
  else true.

Definition hasPermission (permissions : option RootPermissions) (operation : string) : bool :=
  match permissions with
  | None => false
  | Some p =>
      if decide (operation = "read") then Read p
      else if decide (operation ∈ ["write"; "create"; "update"; "delete"]) then Write p
      else if decide (operation = "list") then List p
      else if decide (operation = "watch") then Watch p
      else false
  end.

(** ** Operations *)

Definition AddRoot (now : Z) (root : Root) (permissions : option RootPermissions)
    (rm : RootManager) : RootManager * res MCPError unit :=
  match validateRootURI (URI root) with
  | Err e => (rm, Err (NewValidationError "uri" (VString (URI root)) e))
  | Ok _ =>
      (setRoots (insert (URI root)
         {| EntryRoot := root; Added := now; LastUsed := now;
            Permissions := Some (default defaultPermissions permissions) |}) rm, Ok tt)
  end.

Definition RemoveRoot (uri : string) (rm : RootManager) : RootManager * res MCPError unit :=
  match roots rm !! uri with
  | None => (rm, Err (NewResourceError uri "remove" "root not found"))
  | Some _ => (setRoots (delete uri) (setWatchers (delete uri) rm), Ok tt)
  end.

Definition GetRoot (now : Z) (uri : string) (rm : RootManager) :
    RootManager * res MCPError RootEntry :=
  match roots rm !! uri with
  | None => (rm, Err (NewResourceError uri "get" "root not found"))
  | Some entry => (setRoots (insert uri (touch now entry)) rm, Ok (touch now entry))
  end.

Definition ListRoots (order : list string) (rm : RootManager) : list Root :=
  omap (λ uri, EntryRoot <$> roots rm !! uri) order.

(** The loop of CheckRootAccess: the first root of [order] that holds the path
    decides. *)
Fixpoint checkRoots (now : Z) (path normalizedPath operation : string) (order : list string)
    (rm : RootManager) : RootManager * res MCPError RootEntry :=
  match order with
  | [] => (rm, Err (NewAuthorizationError path "not within any managed root"))
  | uri :: rest =>
      match roots rm !! uri with
      | None => checkRoots now path normalizedPath operation rest rm
      | Some entry =>
          if isPathInRoot normalizedPath (URI (EntryRoot entry)) then
            if negb (hasPermission (Permissions entry) operation)
            then (rm, Err (NewAuthorizationError path operation))
            else (setRoots (insert uri (touch now entry)) rm, Ok (touch now entry))
          else checkRoots now path normalizedPath operation rest rm
      end
  end.

Definition CheckRootAccess (now : Z) (path operation : string) (order : list string)
    (rm : RootManager) : RootManager * res MCPError RootEntry :=
  checkRoots now path (normalizePath path) operation order rm.

(** A nil Permissions would panic here; AddRoot never stores one. *)
Definition WatchRoot (now : Z) (uri : string) (callback : nat) (rm : RootManager) :
    option (RootManager * res MCPError unit) :=
  match roots rm !! uri with
  | None => Some (rm, Err (NewResourceError uri "watch" "root not found"))
  | Some entry =>
      permissions ← Permissions entry;
      Some (if negb (Watch permissions) then (rm, Err (NewAuthorizationError uri "watch"))
            else (setWatchers (insert uri
                    {| RootURI := uri; Callback := callback; LastChange := now;
                       Active := true |}) rm, Ok tt))
  end.

Definition UnwatchRoot (uri : string) (rm : RootManager) : RootManager * res MCPError unit :=
  match watchers rm !! uri with
  | None => (rm, Err (NewResourceError uri "unwatch" "watcher not found"))
  | Some _ => (setWatchers (delete uri) rm, Ok tt)
  end.

Definition notified (uri watchedURI : string) (w : RootWatcher) : bool :=
  Active w && isPathInRoot uri watchedURI.

(** The new manager and the callbacks started, each with the URI and the event. *)
Definition NotifyRootChange (now : Z) (uri event : string) (order : list string)
    (rm : RootManager) : RootManager * list (nat * string * string) :=
  (setWatchers (map_imap (λ watchedURI w, Some
     (if notified uri watchedURI w
      then {| RootURI := RootURI w; Callback := Callback w; LastChange := now;
              Active := Active w |} else w))) rm,
   omap (λ watchedURI, w ← watchers rm !! watchedURI;
           if notified uri watchedURI w then Some (Callback w, uri, event) else None) order).

(** [workingDir] is filepath.Abs("."), [None] if it fails. *)
Definition CreateDefaultRoots (now : Z) (workingDir : option string) (rm : RootManager) :
    RootManager * bool :=
  match workingDir with
  | None => (rm, false)
  | Some dir =>
      let '(rm', r) := AddRoot now {| URI := "file://" +:+ dir; Name := "Working Directory" |}
        (Some {| Read := true; Write := false; List := true; Watch := true |}) rm in
      (rm', is_ok r)
  end.
End roots.

(** ** Paths in roots *)

Lemma get_app_length s t : String.get (String.length s) (s +:+ t) = String.get 0 t.
Proof. induction s as [|c s IH]; [done|]. apply IH. Qed.

Lemma isPathInRoot_text parse path root :
  isPathInRoot parse path root = true ↔
  ∃ t, path = normalizePath parse root +:+ t ∧ (t = "" ∨ ∃ t', t = String Separator t').
Proof.
  unfold isPathInRoot. set (n := normalizePath parse root).
  destruct (HasPrefix path n) eqn:Hp; simpl.
  - apply HasPrefix_spec in Hp as [t ->]. rewrite slength_app, get_app_length.
    assert ((∃ t0, n +:+ t = n +:+ t0 ∧ (t0 = "" ∨ ∃ t', t0 = String Separator t')) ↔
      (t = "" ∨ ∃ t', t = String Separator t')) as ->.
    { split; [|by exists t]. by intros (t0 & ->%sapp_cancel_l & ?). }
    destruct t as [|c t]; simpl.
    + rewrite Nat.add_0_r, Nat.ltb_irrefl. naive_solver.
    + destruct (Nat.ltb_spec (String.length n) (String.length n + S (String.length t))); [|lia].
      rewrite bool_decide_eq_true. naive_solver.
  - split; [done|]. intros (t & -> & _). by rewrite HasPrefix_app in Hp.
Qed.

(** [path] is [root] or lies below it, every "." and ".." resolved. *)
Definition below (path root : string) : Prop :=
  IsAbs path = IsAbs root ∧ elements root `prefix_of` elements path.

(** What the textual comparison of two clean paths comes to: the root "/" (or
    ".") is held to contain itself only. *)
Definition holds (path root : string) : Prop :=
  IsAbs path = IsAbs root ∧
  if decide (elements root = []) then elements path = [] else elements root `prefix_of` elements path.

Lemma holds_below path root :
  holds path root ↔ below path root ∧ (elements root = [] → elements path = []).
Proof.
  unfold holds, below. case_decide as Hr; [|naive_solver]. rewrite Hr.
  split; [intros [? ->]|intros [[? _] ?]]; split_and!; auto using prefix_nil.
Qed.

Lemma Join_nonempty l : Forall name_ok l → l ≠ [] → Join l "/" ≠ "".
Proof.
  intros Hl Hne. destruct l as [|e l]; [done|]. apply Forall_cons in Hl as [(He & _) _].
  destruct e; [done|]. by destruct l.
Qed.

Lemma SplitByte_names l : Forall name_ok l → l ≠ [] → SplitByte (Join l "/") Separator = l.
Proof.
  intros Hl Hne. apply SplitByte_Join; [done|]. eapply Forall_impl; [done|].
  by intros e (_ & _ & ?).
Qed.

(** No path of names starts with "." as an element. *)
Lemma Join_not_dot l t :
  Forall name_ok l → l ≠ [] → t = "" ∨ (∃ t', t = String Separator t') →
  Join l "/" ≠ "." +:+ t.
Proof.
  intros Hl Hne Ht Heq. pose proof (SplitByte_names l Hl Hne) as Hs. rewrite Heq in Hs.
  assert (head l = Some ".") as Hh by (rewrite <-Hs; by destruct Ht as [->|[t' ->]];
    [|rewrite SplitByte_app]).
  destruct l as [|e l]; [done|]. injection Hh as ->. by apply Forall_cons in Hl as [(_ & ? & _) _].
Qed.

Lemma render_prefix rooted a r :
  Forall name_ok a → Forall name_ok r → r ≠ [] →
  (r `prefix_of` a ↔
   ∃ t, render rooted a = render rooted r +:+ t ∧ (t = "" ∨ ∃ t', t = String Separator t')).
Proof.
  intros Ha Hr Hrne. pose proof (Join_nonempty r Hr Hrne) as Hj.
  destruct a as [|e a].
  - split; [by intros ?%prefix_nil_inv|]. intros (t & Ht & Hcase). exfalso.
    unfold render in Ht. destruct rooted.
    + injection Ht as Ht. by destruct (Join r "/").
    + destruct r as [|x r]; [done|].
      apply (Join_not_dot (x :: r) "" Hr); [done|by left|].
      destruct (Join (x :: r) "/") as [|c s]; [done|]. simpl in Ht. injection Ht as <- Ht.
      symmetry in Ht. destruct s as [|? ?]; [done|]. by destruct Hcase as [->|[? ->]].
  - rewrite (Join_prefix r (e :: a)) by done. unfold render. destruct rooted; [|by destruct r].
    split; intros (t & Ht & ?); exists t; (split; [|done]).
    + by rewrite Ht.
    + simpl in Ht. by injection Ht.
Qed.

Lemma render_prefix_nil rooted a :
  Forall name_ok a →
  (a = [] ↔ ∃ t, render rooted a = render rooted [] +:+ t ∧ (t = "" ∨ ∃ t', t = String Separator t')).
Proof.
  intros Ha. split.
  - intros ->. exists "". rewrite sapp_nil_r. split; [done|by left].
  - intros (t & Ht & Hcase). destruct a as [|e a]; [done|]. exfalso. unfold render in Ht.
    destruct rooted.
    + simpl in Ht. injection Ht as Ht. destruct Hcase as [->|[t' ->]].
      * by apply (Join_nonempty (e :: a) Ha).
      * pose proof (IsAbs_Join (e :: a) Ha) as Habs. unfold IsAbs in Habs.
        change (Join (e :: a) "/") with (Join (e :: a) "/") in Ht.
        assert (Join (e :: a) "/" = "/" +:+ t') as Heq by done.
        by rewrite Heq, HasPrefix_app in Habs.
    + by apply (Join_not_dot (e :: a) t Ha).
Qed.

Lemma render_nonempty rooted l : Forall name_ok l → render rooted l ≠ "".
Proof.
  intros Hl. unfold render. destruct rooted; [done|]. destruct l; [done|]. by apply Join_nonempty.
Qed.

(** The textual test on clean paths compares elements. *)
Lemma clean_holds path root :
  (∃ t, Clean path = Clean root +:+ t ∧ (t = "" ∨ ∃ t', t = String Separator t')) ↔
  holds path root.
Proof.
  destruct (elements_clean path) as [Hp _]. destruct (elements_clean root) as [Hr _].
  unfold holds. split.
  - intros (t & Ht & Hcase).
    assert (IsAbs path = IsAbs root) as Habs.
    { rewrite <-(IsAbs_Clean path), <-(IsAbs_Clean root), Ht.
      by apply IsAbs_app, render_nonempty. }
    split; [done|]. unfold Clean in Ht. rewrite Habs in Ht. case_decide as Hnil.
    + rewrite Hnil in Ht. apply (render_prefix_nil (IsAbs root)); eauto.
    + apply (render_prefix (IsAbs root)); eauto.
  - intros [Habs Hb]. unfold Clean. rewrite Habs. case_decide as Hnil.
    + rewrite Hb, Hnil. exists "". rewrite sapp_nil_r. split; [done|by left].
    + by apply (render_prefix (IsAbs root)).
Qed.

Lemma isPathInRoot_holds parse path root :
  isPathInRoot parse (normalizePath parse path) root = true ↔
  holds (pathOf parse path) (pathOf parse root).
Proof. by rewrite isPathInRoot_text, <-clean_holds. Qed.

(** ** The access check *)

Section check.
Context (parse : string → res string URL) (now : Z) (path operation : string).

Lemma checkRoots_Ok order rm rm' e :
  checkRoots parse now path (normalizePath parse path) operation order rm = (rm', Ok e) →
  ∃ uri e0, uri ∈ order ∧ roots rm !! uri = Some e0 ∧ e = touch now e0 ∧
    rm' = setRoots (insert uri e) rm ∧ hasPermission (Permissions e0) operation = true ∧
    holds (pathOf parse path) (pathOf parse (URI (EntryRoot e0))).
Proof.
  induction order as [|uri order IH]; simpl; [done|].
  destruct (roots rm !! uri) as [e0|] eqn:He; [|intros (u & e1 & ? & ?)%IH; exists u, e1; set_solver].
  destruct (isPathInRoot _ _ _) eqn:Hin; [|intros (u & e1 & ? & ?)%IH; exists u, e1; set_solver].
  destruct (hasPermission _ _) eqn:Hp; simpl; [|done]. intros [= <- <-].
  apply isPathInRoot_holds in Hin. exists uri, e0. split_and!; try done. set_solver.
Qed.

Lemma checkRoots_Err order rm rm' err :
  checkRoots parse now path (normalizePath parse path) operation order rm = (rm', Err err) →
  rm' = rm ∧
  ((∀ uri e0, uri ∈ order → roots rm !! uri = Some e0 →
      ¬ holds (pathOf parse path) (pathOf parse (URI (EntryRoot e0)))) ∨
   ∃ uri e0, roots rm !! uri = Some e0 ∧ hasPermission (Permissions e0) operation = false ∧
     holds (pathOf parse path) (pathOf parse (URI (EntryRoot e0)))).
Proof.
  induction order as [|uri order IH]; simpl.
  { intros [= <- <-]. split; [done|]. left. intros uri e0 Hin. by apply elem_of_nil in Hin. }
  destruct (roots rm !! uri) as [e0|] eqn:He.
  2: { intros [-> [Hno|?]]%IH; (split; [done|]); [|by right]. left.
       intros u e1 [->|Hin]%elem_of_cons Hu; [congruence|by eapply Hno]. }
  destruct (isPathInRoot _ _ _) eqn:Hin.
  - destruct (hasPermission _ _) eqn:Hp; simpl; [done|]. intros [= <- <-]. split; [done|]. right.
    exists uri, e0. by apply isPathInRoot_holds in Hin.
  - intros [-> [Hno|?]]%IH; (split; [done|]); [|by right]. left.
    intros u e1 [->|Hu]%elem_of_cons Hlook; [|by eapply Hno]. simplify_eq.
    rewrite <-isPathInRoot_holds. by rewrite Hin.
Qed.
End check.

(** C25: access is granted only to a path that is, after resolving every "."
    and "..", a root or below one, with permissions of that root that include
    the operation.  When it is refused, then either every root that the path is
    below is "/" (or the current directory), which is held to contain itself
    only, or some root that the path is below lacks the permission; another
    root, inside or around that one, may have it, and whether access is granted
    then depends on the order of the map ([nested_roots_order]).  So a path
    below a root other than "/" is granted, whatever the order, if every root
    that it is below permits the operation. *)
Theorem CheckRootAccess_confined parse now path operation order rm :
  range_order (roots rm) order →
  match (CheckRootAccess parse now path operation order rm).2 with
  | Ok e =>
      ∃ uri e0, roots rm !! uri = Some e0 ∧ e = touch now e0 ∧
        hasPermission (Permissions e0) operation = true ∧
        below (pathOf parse path) (pathOf parse (URI (EntryRoot e0)))
  | Err _ =>
      (∀ uri e0, roots rm !! uri = Some e0 →
         below (pathOf parse path) (pathOf parse (URI (EntryRoot e0))) →
         elements (pathOf parse (URI (EntryRoot e0))) = [] ∧ elements (pathOf parse path) ≠ []) ∨
      ∃ uri e0, roots rm !! uri = Some e0 ∧ hasPermission (Permissions e0) operation = false ∧
        below (pathOf parse path) (pathOf parse (URI (EntryRoot e0)))
  end.
Proof.
  intros Ho. unfold CheckRootAccess.
  destruct (checkRoots _ _ _ _ _ _ _) as [rm' [e|err]] eqn:Hc; simpl.
  - apply checkRoots_Ok in Hc as (uri & e0 & _ & ? & ? & _ & ? & [? _]%holds_below). by exists uri, e0.
  - apply checkRoots_Err in Hc as [_ [Hno|(uri & e0 & ? & ? & [? _]%holds_below)]];
      [left|right; by exists uri, e0].
    intros uri e0 Hu Hb. specialize (Hno uri e0). rewrite holds_below in Hno.
    destruct (decide (elements (pathOf parse (URI (EntryRoot e0))) = [])) as [Hnil|Hne].
    + split; [done|]. intros Hp. apply Hno; [apply (range_order_elem _ _ _ Ho); eauto|done|].
      by split.
    + exfalso. apply Hno; [apply (range_order_elem _ _ _ Ho); eauto|done|]. by split.
Qed.

(** The root "/" holds nothing but itself, since the byte after its own
    slash is not another one: with it as the only root every other path is
    refused, whatever the permissions. *)
Theorem root_slash_denies parse now path operation e :
  pathOf parse (URI (EntryRoot e)) = "/" → elements (pathOf parse path) ≠ [] →
  (CheckRootAccess parse now path operation ["/"]
     {| roots := {["/" := e]}; watchers := ∅ |}).2 =
    Err (NewAuthorizationError path "not within any managed root").
Proof.
  intros Hroot Hpath. unfold CheckRootAccess. simpl. rewrite lookup_singleton_eq.
  destruct (isPathInRoot _ _ _) eqn:Hin; [|done].
  apply isPathInRoot_holds in Hin as [_ Hb]. rewrite Hroot in Hb. by rewrite decide_True in Hb.
Qed.

Definition entryAt (uri : string) (p : RootPermissions) : RootEntry :=
  {| EntryRoot := {| URI := uri; Name := "" |}; Added := 0; LastUsed := 0; Permissions := Some p |}.

Definition nestedRoots : RootManager := {|
  roots := {["/data" := entryAt "/data" defaultPermissions;
             "/data/secret" := entryAt "/data/secret"
               {| Read := false; Write := false; List := false; Watch := false |}]};
  watchers := ∅ |}.

Definition noURL : string → res string URL := λ _, Err "not a URL".

(** With a root inside another one the answer depends on the order of map
    iteration: here the inner root denies what the outer one grants. *)
Lemma nested_roots_order :
  let access order := (CheckRootAccess noURL 7 "/data/x/../secret/key" "read" order nestedRoots).2 in
  access ["/data"; "/data/secret"] = Ok (touch 7 (entryAt "/data" defaultPermissions)) ∧
  access ["/data/secret"; "/data"] = Err (NewAuthorizationError "/data/x/../secret/key" "read").
Proof. done. Qed.

(** ** Change notifications *)

(** A change reported by its file URI reaches no watcher of an absolute path:
    the URI is compared as it is, while the root's is normalised. *)
Lemma file_uri_unnoticed parse uri watchedURI w :
  IsAbs (pathOf parse watchedURI) = true → HasPrefix uri "file:" = true →
  notified parse uri watchedURI w = false.
Proof.
  intros Habs [u ->]%HasPrefix_spec. unfold notified. apply andb_false_iff. right.
  apply not_true_iff_false. intros (t & Ht & _)%isPathInRoot_text.
  unfold normalizePath, Clean, render in Ht. rewrite Habs in Ht. done.
Qed.

(** ** The manager's invariant *)

(** Every operation on the manager. *)
Inductive rm_step (parse : string → res string URL) (rm : RootManager) : RootManager → Prop :=
  | step_add now root p : rm_step parse rm (AddRoot parse now root p rm).1
  | step_remove uri : rm_step parse rm (RemoveRoot uri rm).1
  | step_get now uri : rm_step parse rm (GetRoot now uri rm).1
  | step_check now path op order :
      rm_step parse rm (CheckRootAccess parse now path op order rm).1
  | step_watch now uri cb rm' r : WatchRoot now uri cb rm = Some (rm', r) → rm_step parse rm rm'
  | step_unwatch uri : rm_step parse rm (UnwatchRoot uri rm).1
  | step_notify now uri event order :
      rm_step parse rm (NotifyRootChange parse now uri event order rm).1
  | step_default now dir : rm_step parse rm (CreateDefaultRoots parse now dir rm).1.

Record rm_ok (parse : string → res string URL) (rm : RootManager) : Prop := {
  ok_roots : ∀ uri e, roots rm !! uri = Some e →
    URI (EntryRoot e) = uri ∧ is_Some (Permissions e) ∧ validateRootURI parse uri = Ok tt;
  ok_watchers : ∀ uri w, watchers rm !! uri = Some w →
    is_Some (roots rm !! uri) ∧ RootURI w = uri ∧ Active w = true;
}.

(** Changing a stored entry to one with the same root and permissions. *)
Lemma touch_ok parse now uri e rm :
  rm_ok parse rm → roots rm !! uri = Some e →
  rm_ok parse (setRoots (insert uri (touch now e)) rm).
Proof.
  intros [Hr Hw] He. split; simpl.
  - intros u e'. rewrite lookup_insert_Some. intros [[<- <-]|[_ ?]]; [|by apply Hr]. by apply (Hr _ e).
  - intros u w Hu. apply Hw in Hu as (Hs & ? & ?). split_and!; [|done..].
    rewrite lookup_insert_is_Some. destruct (decide (uri = u)); auto.
Qed.

Lemma AddRoot_ok parse now root p rm : rm_ok parse rm → rm_ok parse (AddRoot parse now root p rm).1.
Proof.
  intros [Hr Hw]. unfold AddRoot. destruct (validateRootURI parse (URI root)) as [[]|] eqn:Hv;
    [|by split]. split; simpl.
  - intros u e'. rewrite lookup_insert_Some. intros [[<- <-]|[_ ?]]; [by eauto|by apply Hr].
  - intros u w Hu. apply Hw in Hu as (Hs & ? & ?). split_and!; [|done..].
    rewrite lookup_insert_is_Some. destruct (decide (URI root = u)); auto.
Qed.

Lemma rm_step_ok parse rm rm' : rm_step parse rm rm' → rm_ok parse rm → rm_ok parse rm'.
Proof.
  intros [now root p|uri|now uri|now path op order|now uri cb rm'' r Hwatch|uri|now uri event order
    |now dir] Hok; pose proof Hok as [Hr Hw].
  - by apply AddRoot_ok.
  - unfold RemoveRoot. destruct (roots rm !! uri); [|done]. split; simpl.
    + intros u e [_ ?]%lookup_delete_Some. by apply Hr.
    + intros u w [Hne Hu]%lookup_delete_Some. rewrite lookup_delete_ne by done. by apply Hw.
  - unfold GetRoot. destruct (roots rm !! uri) eqn:He; [by apply touch_ok|done].
  - unfold CheckRootAccess. destruct (checkRoots _ _ _ _ _ _ _) as [rm1 [e|err]] eqn:Hc; simpl.
    + apply checkRoots_Ok in Hc as (uri & e0 & _ & He & -> & -> & _). by apply touch_ok.
    + by apply checkRoots_Err in Hc as [-> _].
  - unfold WatchRoot in Hwatch. destruct (roots rm !! uri) as [e|] eqn:He; [|by simplify_eq].
    apply bind_Some in Hwatch as (p & _ & Heq). destruct (Watch p); simplify_eq/=; [|done].
    split; [done|]. simpl. intros u w. rewrite lookup_insert_Some.
    intros [[<- <-]|[_ ?]]; [by eauto|by apply Hw].
  - unfold UnwatchRoot. destruct (watchers rm !! uri); [|done]. split; [done|]. simpl.
    intros u w [_ ?]%lookup_delete_Some. by apply Hw.
  - split; [done|]. simpl. intros u w. rewrite map_lookup_imap.
    intros (w0 & Hu & [= <-])%bind_Some. apply Hw in Hu as (? & ? & ?). by case_match.
  - unfold CreateDefaultRoots. destruct dir as [dir|]; [|done].
    pose proof (AddRoot_ok parse now {| URI := "file://" +:+ dir; Name := "Working Directory" |}
      (Some {| Read := true; Write := false; List := true; Watch := true |}) rm Hok) as Hadd.
    by destruct (AddRoot _ _ _ _ _).
Qed.

(** Whatever operations are called, every stored root has a valid URI, is
    stored under it and has permissions, so no operation panics; and every
    watcher is active and watches a root that exists. *)
Theorem roots_invariant parse rm :
  rtc (rm_step parse) NewRootManager rm →
  rm_ok parse rm ∧ ∀ now uri cb, is_Some (WatchRoot now uri cb rm).
Proof.
  intros Hrun.
  assert (rm_ok parse rm) as Hok.
  { revert rm Hrun. apply rtc_ind_r; [|by eauto using rm_step_ok].
    split; simpl; intros ? ?; by rewrite lookup_empty. }
  split; [done|]. intros now uri cb. unfold WatchRoot.
  destruct (roots rm !! uri) as [e|] eqn:He; [|done].
  destruct (ok_roots _ _ Hok _ _ He) as (_ & [p ->] & _). by eexists.
Qed.

(** But a watcher may lack the permission: adding a root again under stricter
    permissions leaves its watcher in place. *)
Lemma watch_outlives_permission parse now root p cb rm1 rm2 :
  validateRootURI parse (URI root) = Ok tt → Watch p = true →
  let rm0 := (AddRoot parse now root (Some p) NewRootManager).1 in
  WatchRoot now (URI root) cb rm0 = Some (rm1, Ok tt) → rm2 = (AddRoot parse now root None rm1).1 →
  is_Some (watchers rm2 !! URI root) ∧
  hasPermission (roots rm2 !! URI root ≫= Permissions) "watch" = false.
Proof.
  intros Hv Hp. unfold AddRoot. rewrite Hv. simpl. unfold WatchRoot. simpl.
  rewrite lookup_insert_eq. simpl. rewrite Hp. simpl. intros [= <-] ->.
  simpl. rewrite !lookup_insert_eq. by eauto.
Qed.

Lemma nestedRoots_order : range_order (roots nestedRoots) ["/data"; "/data/secret"].
Proof. unfold range_order. vm_compute. reflexivity || apply perm_swap. Qed.

Lemma CheckRootAccess_confined_witness :
  ∃ uri e0, roots nestedRoots !! uri = Some e0 ∧ hasPermission (Permissions e0) "read" = true ∧
    below "/data/x/../y" (URI (EntryRoot e0)).
Proof.
  pose proof (CheckRootAccess_confined noURL 7 "/data/x/../y" "read" _ _ nestedRoots_order) as H.
  vm_compute (CheckRootAccess noURL 7 "/data/x/../y" "read" _ nestedRoots).2 in H.
  destruct H as (uri & e0 & Hu & _ & Hp & Hb). exists uri, e0. split_and!; try done.
  revert Hb. unfold pathOf. simpl. by case_match.
Defined.

Lemma root_slash_denies_witness :
  (CheckRootAccess noURL 7 "/etc/hosts" "read" ["/"]
     {| roots := {["/" := entryAt "/" defaultPermissions]}; watchers := ∅ |}).2 =
    Err (NewAuthorizationError "/etc/hosts" "not within any managed root").
Proof. by apply root_slash_denies. Defined.

Definition pathURL : string → res string URL := λ uri,
  Ok {| url_Scheme := ""; url_Host := ""; url_Hostname := ""; url_Path := uri; url_RawQuery := "" |}.

Definition oneRoot : RootManager :=
  (AddRoot pathURL 7 {| URI := "/data"; Name := "data" |} None NewRootManager).1.

Lemma roots_invariant_witness :
  rm_ok pathURL oneRoot ∧ is_Some (WatchRoot 8 "/data" 1 oneRoot) ∧ is_Some (roots oneRoot !! "/data").
Proof.
  assert (rtc (rm_step pathURL) NewRootManager oneRoot) as Hrun by apply rtc_once, step_add.
  destruct (roots_invariant pathURL oneRoot Hrun) as [Hok Hw].
  split; [exact Hok|]. split; [apply Hw|]. vm_compute. eauto.
Defined.
