(* ===== verification/Subscriptions.v ===== *)
(** * Resource subscriptions

    internal/protocol/subscriptions.go: the subscriptions of clients to resource
    changes, kept twice, by ID and by client, and the notifications they cause.
    Subscriptions are never changed once stored, so the pointers the two maps
    share are modelled by the values.  Matching against a regular expression is
    a parameter. *)
From S2P Require Import Prelude GoString Protocol.

#[local] Open Scope nat_scope.

Set Default Proof Using "Type*".

(** ** Data *)

Record ResourceFilter := {
  Type_ : string;
  Pattern : string;
  Property : string;
  FValue : Value;
}.

Record SubscriptionOptions := {
  IncludeContent : bool;
  Debounce : Z;
  BatchSize : Z;
  ContentTypes : list string;
  MaxSize : Z;
  IncludeMetadata : bool;
}.

(** [LastNotified] is never set. *)
Record ResourceSubscription := {
  SubID : string;
  ClientID : string;
  SessionID : string;
  SubURI : string;
  IsTemplate : bool;
  Filters : list ResourceFilter;
  Options : SubscriptionOptions;
  Created : Z;
}.

(** The notify function is a function of the caller, named by a number. *)
Record ClientSubscriptions := {
  CID : string;
  CSession : string;
  Subscriptions : gmap string ResourceSubscription;
  NotifyFunc : nat;
  LastSeen : Z;
}.

Record ResourceContent := {
  CType : string;
  CData : string;
  MimeType : string;
  Size : Z;
  Encoding : string;
}.

Record ResourceUpdate := {
  UpdURI : string;
  UpdType : string;
  Content : option ResourceContent;
  Metadata : option (gmap string Value);
  Timestamp : Z;
}.

Record SubscribeRequest := {
  ReqURI : string;
  ReqFilters : list ResourceFilter;
  ReqOptions : SubscriptionOptions;
}.

Record SubscriptionManager := {
  subscriptions : gmap string ResourceSubscription;
  clients : gmap string ClientSubscriptions;
}.

Definition NewSubscriptionManager : SubscriptionManager :=
  {| subscriptions := ∅; clients := ∅ |}.

Definition setSubscriptions (m : gmap string ResourceSubscription) (c : ClientSubscriptions) :
    ClientSubscriptions :=
  {| CID := CID c; CSession := CSession c; Subscriptions := m; NotifyFunc := NotifyFunc c;
     LastSeen := LastSeen c |}.

Definition setLastSeen (t : Z) (c : ClientSubscriptions) : ClientSubscriptions :=
  {| CID := CID c; CSession := CSession c; Subscriptions := Subscriptions c;
     NotifyFunc := NotifyFunc c; LastSeen := t |}.

(** ** Subscribing *)

Definition isURITemplate (uri : string) : bool := Contains uri "{" && Contains uri "}".

Definition validTypes : list string := ["exact"; "prefix"; "glob"; "regex"].

Definition filterField (i : Z) (name : string) : string :=
  "filters[" +:+ Itoa i +:+ "]." +:+ name.

Fixpoint validateFilters (i : Z) (filters : list ResourceFilter) : res MCPError unit :=
  match filters with
  | [] => Ok tt
  | f :: rest =>
      if decide (Type_ f = "") then
        Err (NewValidationError (filterField i "type") (VString (Type_ f)) "filter type cannot be empty")
      else if negb (bool_decide (Type_ f ∈ validTypes)) then
        Err (NewValidationError (filterField i "type") (VString (Type_ f))
               "must be one of: [exact prefix glob regex]")
      else if decide (Property f = "") then
        Err (NewValidationError (filterField i "property") (VString (Property f))
               "filter property cannot be empty")
      else validateFilters (i + 1) rest
  end.

Definition subscriptionID (clientID : string) (nano : Z) : string :=
  "sub_" +:+ clientID +:+ "_" +:+ Itoa nano.

(** [nano], [created] and [seen] are the clock readings; the result is the ID of
    the subscription. *)
Definition Subscribe (nano created seen : Z) (clientID sessionID : string) (req : SubscribeRequest)
    (notifyFunc : nat) (sm : SubscriptionManager) : SubscriptionManager * res MCPError string :=
  if decide (ReqURI req = "") then
    (sm, Err (NewValidationError "uri" (VString (ReqURI req)) "URI cannot be empty"))
  else
    match validateFilters 0 (ReqFilters req) with
    | Err e => (sm, Err e)
    | Ok _ =>
        let id := subscriptionID clientID nano in
        let subscription := {|
          SubID := id; ClientID := clientID; SessionID := sessionID; SubURI := ReqURI req;
          IsTemplate := isURITemplate (ReqURI req); Filters := ReqFilters req;
          Options := ReqOptions req; Created := created |} in
        let client :=
          default {| CID := clientID; CSession := sessionID; Subscriptions := ∅;
                     NotifyFunc := notifyFunc; LastSeen := seen |} (clients sm !! clientID) in
        ({| subscriptions := <[id := subscription]> (subscriptions sm);
            clients := <[clientID := setLastSeen seen
              (setSubscriptions (<[id := subscription]> (Subscriptions client)) client)]>
              (clients sm) |}, Ok id)
    end.

Definition Unsubscribe (clientID id : string) (sm : SubscriptionManager) :
    SubscriptionManager * res MCPError unit :=
  match subscriptions sm !! id with
  | None => (sm, Err (NewValidationError "subscriptionId" (VString id) "subscription not found"))
  | Some subscription =>
      if decide (ClientID subscription ≠ clientID)
      then (sm, Err (NewAuthorizationError id "unsubscribe"))
      else
        ({| subscriptions := delete id (subscriptions sm);
            clients :=
              match clients sm !! clientID with
              | None => clients sm
              | Some client =>
                  let left := delete id (Subscriptions client) in
                  if decide (left = ∅) then delete clientID (clients sm)
                  else <[clientID := setSubscriptions left client]> (clients sm)
              end |}, Ok tt)
  end.

Definition GetSubscriptions (clientID : string) (sm : SubscriptionManager) :
    gmap string ResourceSubscription :=
  match clients sm !! clientID with None => ∅ | Some c => Subscriptions c end.

(** The clients last seen before the cutoff go, with their subscriptions. *)
Definition CleanupExpiredSubscriptions (now maxAge : Z) (sm : SubscriptionManager) :
    SubscriptionManager :=
  let expired c := bool_decide (LastSeen c < now - maxAge)%Z in
  {| subscriptions := filter (λ ids : string * ResourceSubscription,
       map_Forall (λ _ c, expired c = true → Subscriptions c !! ids.1 = None) (clients sm))
       (subscriptions sm);
     clients := delete_if expired (clients sm) |}.

(** ** Notifying *)

(** The substrings [{...}] of a template are replaced by a pattern for one path
    segment: from a brace, if the next closing brace is not right after it, on
    to that brace.  [name] is the text read since the brace, if one is open. *)
Fixpoint replaceVars (s : string) (name : option string) : string :=
  match s, name with
  | "", None => ""
  | "", Some n => "{" +:+ n
  | String c s', None =>
      if Ascii.eqb c "{" then replaceVars s' (Some "") else String c (replaceVars s' None)
  | String c s', Some n =>
      if Ascii.eqb c "}" then
        (if String.eqb n "" then "{}" else "([^/]+)") +:+ replaceVars s' None
      else replaceVars s' (Some (n +:+ byte1 c))
  end.

Definition templatePattern (template : string) : string :=
  let p1 := replaceVars template None in
  let p2 := ReplaceByte p1 "." "\." in
  let p3 := ReplaceByte p2 "*" ".*" in
  "^" +:+ p3 +:+ "$".

Definition globToRegex (glob : string) : string :=
  "^" +:+ ReplaceByte (ReplaceByte glob "*" ".*") "?" "." +:+ "$".

Section notify.
(** regexp.MatchString, false for a pattern that does not compile. *)
Context (MatchString : string → string → bool).

Definition matchURITemplate (template uri : string) : bool :=
  MatchString (templatePattern template) uri.

Definition doesURIMatch (subscription : ResourceSubscription) (uri : string) : bool :=
  if IsTemplate subscription then matchURITemplate (SubURI subscription) uri
  else String.eqb (SubURI subscription) uri.

(** The property of an update a filter looks at; an absent one is nil. *)
Definition filterProperty (property : string) (update : ResourceUpdate) : Value :=
  if decide (property = "type") then VString (UpdType update)
  else if decide (property = "uri") then VString (UpdURI update)
  else if decide (property = "mimeType") then
    match Content update with Some c => VString (MimeType c) | None => VNil end
  else if decide (property = "size") then
    match Content update with Some c => VInt64 (Size c) | None => VNil end
  else match Metadata update with Some m => default VNil (m !! property) | None => VNil end.

(** [None] is the panic of comparing two slices or two maps. *)
Definition matchFilterValue (filter : ResourceFilter) (actualValue : Value) : option bool :=
  if decide (Type_ filter = "exact") then iface_eq actualValue (FValue filter)
  else
    Some match actualValue, FValue filter with
         | VString str, VString pattern =>
             if decide (Type_ filter = "prefix") then HasPrefix str pattern
             else if decide (Type_ filter = "glob") then MatchString (globToRegex pattern) str
             else if decide (Type_ filter = "regex") then MatchString pattern str
             else false
         | _, _ => false
         end.

Definition applyFilter (filter : ResourceFilter) (update : ResourceUpdate) : option bool :=
  matchFilterValue filter (filterProperty (Property filter) update).

Fixpoint shouldIncludeUpdate (filters : list ResourceFilter) (update : ResourceUpdate) :
    option bool :=
  match filters with
  | [] => Some true
  | f :: rest =>
      ok ← applyFilter f update;
      if ok : bool then shouldIncludeUpdate rest update else Some false
  end.

(** The matching subscriptions, in the order the map is visited. *)
Definition findMatchingSubscriptions (uri : string) (order : list string)
    (sm : SubscriptionManager) : list ResourceSubscription :=
  filter (λ sub, doesURIMatch sub uri = true) (omap (λ id, subscriptions sm !! id) order).

(** The updates of each client, one per accepting subscription. *)
Fixpoint groupByClient (subs : list ResourceSubscription) (update : ResourceUpdate)
    (clientUpdates : gmap string (list ResourceUpdate)) :
    option (gmap string (list ResourceUpdate)) :=
  match subs with
  | [] => Some clientUpdates
  | sub :: rest =>
      ok ← shouldIncludeUpdate (Filters sub) update;
      groupByClient rest update
        (if ok : bool
         then <[ClientID sub := default [] (clientUpdates !! ClientID sub) ++ [update]]>
                clientUpdates
         else clientUpdates)
  end.

(** The calls of notify functions, with the updates of their notification, one
    per client; a client that is not there is only logged.  [order] visits the
    subscriptions, [clientOrder] the clients' updates. *)
Definition NotifyResourceUpdate (update : ResourceUpdate) (order : list string)
    (clientOrder : gmap string (list ResourceUpdate) → list string) (sm : SubscriptionManager) :
    option (list (nat * list ResourceUpdate)) :=
  clientUpdates ← groupByClient (findMatchingSubscriptions (UpdURI update) order sm) update ∅;
  Some (omap (λ clientID,
                updates ← clientUpdates !! clientID;
                client ← clients sm !! clientID;
                Some (NotifyFunc client, updates)) (clientOrder clientUpdates)).
End notify.


(** ** Subscription IDs *)

(** The text after the last underscore is the clock reading, so an ID
    determines its client. *)
Lemma sapp_split_char c (s s' t t' : string) :
  CountByte t c = 0 → CountByte t' c = 0 → s +:+ String c t = s' +:+ String c t' → s = s' ∧ t = t'.
Proof.
  intros Ht Ht'. revert s'. induction s as [|d s IH]; intros [|d' s'] Heq; simpl in Heq.
  - by injection Heq.
  - injection Heq as -> ->. rewrite CountByte_app, CountByte_here in Ht. lia.
  - injection Heq as -> <-. rewrite CountByte_app, CountByte_here in Ht'. lia.
  - injection Heq as -> Heq. by destruct (IH _ Heq) as [-> ->].
Qed.

Lemma subscriptionID_inj a b n m :
  subscriptionID a n = subscriptionID b m → a = b ∧ n = m.
Proof.
  intros Heq%sapp_cancel_l. apply sapp_split_char in Heq as [-> ?%Itoa_inj]; [done|..];
    apply CountByte_Itoa_underscore.
Qed.

(** ** The two maps agree *)

Record sm_ok (sm : SubscriptionManager) : Prop := {
  ok_sub : ∀ id s, subscriptions sm !! id = Some s →
    SubID s = id ∧ (∃ nano, id = subscriptionID (ClientID s) nano) ∧
    ∃ c, clients sm !! ClientID s = Some c ∧ Subscriptions c !! id = Some s;
  ok_client : ∀ cid c, clients sm !! cid = Some c →
    CID c = cid ∧ Subscriptions c ≠ ∅ ∧
    ∀ id s, Subscriptions c !! id = Some s → subscriptions sm !! id = Some s ∧ ClientID s = cid;
}.

(** Every operation on the manager. *)
Inductive sm_step (sm : SubscriptionManager) : SubscriptionManager → Prop :=
  | step_subscribe nano created seen cid session req notify :
      sm_step sm (Subscribe nano created seen cid session req notify sm).1
  | step_unsubscribe cid id : sm_step sm (Unsubscribe cid id sm).1
  | step_cleanup now maxAge : sm_step sm (CleanupExpiredSubscriptions now maxAge sm).

Lemma Subscribe_ok nano created seen cid session req notify sm :
  sm_ok sm → sm_ok (Subscribe nano created seen cid session req notify sm).1.
Proof.
  intros Hok. unfold Subscribe. case_decide; [done|].
  destruct (validateFilters 0 (ReqFilters req)); [|done]. simpl.
  set (id := subscriptionID cid nano). split; simpl.
  - intros id' s. rewrite lookup_insert_Some. intros [[<- <-]|[Hne Hs]]; simpl.
    + split; [done|]. split; [by eexists|]. eexists. rewrite lookup_insert_eq.
      split; [done|]. simpl. by rewrite lookup_insert_eq.
    + apply Hok in Hs as (Hid & Hn & c & Hc & Hcs). split; [done|]. split; [done|].
      destruct (decide (ClientID s = cid)) as [<-|].
      * eexists. rewrite lookup_insert_eq. split; [done|]. simpl.
        by rewrite lookup_insert_ne, Hc.
      * exists c. by rewrite lookup_insert_ne.
  - intros cid' c. rewrite lookup_insert_Some. intros [[<- <-]|[Hne Hc]]; simpl.
    + destruct (clients sm !! cid) as [c0|] eqn:Hc0; simpl.
      * apply Hok in Hc0 as (Hcid & _ & Hsubs). split; [done|]. split; [apply insert_non_empty|].
        intros id' s. rewrite !lookup_insert_Some. intros [[<- <-]|[? [? ?]%Hsubs]]; auto.
      * split; [done|]. split; [apply insert_non_empty|].
        intros id' s. rewrite !lookup_insert_Some, lookup_empty. naive_solver.
    + pose proof Hc as (Hcid & Hnone & Hsubs)%Hok. split; [done|]. split; [done|].
      intros id' s [Hs Hcl]%Hsubs. split; [|done]. rewrite lookup_insert_ne; [done|].
      intros <-. apply Hok in Hs as (_ & [n Heq] & _). apply subscriptionID_inj in Heq. naive_solver.
Qed.

Lemma Unsubscribe_ok cid id sm : sm_ok sm → sm_ok (Unsubscribe cid id sm).1.
Proof.
  intros Hok. unfold Unsubscribe. destruct (subscriptions sm !! id) as [s0|] eqn:Hs0; [|done].
  case_decide as Hcid; [done|]. subst cid.
  pose proof Hs0 as (Hid & [n0 Hn0] & c0 & Hc0 & Hcs0)%Hok. simpl. rewrite Hc0. split; simpl.
  - intros id' s [Hne Hs]%lookup_delete_Some.
    apply Hok in Hs as (Hid' & Hn & c & Hc & Hcs). split; [done|]. split; [done|].
    assert (delete id (Subscriptions c) !! id' = Some s) as Hdel by by rewrite lookup_delete_ne.
    destruct (decide (ClientID s = ClientID s0)) as [Heq|].
    + assert (c0 = c) as -> by congruence. rewrite decide_False.
      * eexists. rewrite Heq, lookup_insert_eq. by split.
      * intros He. by rewrite He, lookup_empty in Hdel.
    + exists c. case_decide; [rewrite lookup_delete_ne|rewrite lookup_insert_ne]; done.
  - intros cid' c Hc.
    assert ((cid' = ClientID s0 ∧ delete id (Subscriptions c0) ≠ ∅ ∧
      c = setSubscriptions (delete id (Subscriptions c0)) c0) ∨
      (cid' ≠ ClientID s0 ∧ clients sm !! cid' = Some c)) as [(-> & Hne & ->)|[Hne Hc']].
    { case_decide; [apply lookup_delete_Some in Hc|apply lookup_insert_Some in Hc]; naive_solver. }
    + simpl. pose proof Hc0 as (? & _ & Hsubs)%Hok. split; [done|]. split; [done|].
      intros id' s [? [? ?]%Hsubs]%lookup_delete_Some. by rewrite lookup_delete_ne.
    + pose proof Hc' as (? & ? & Hsubs)%Hok. split; [done|]. split; [done|].
      intros id' s [Hs ?]%Hsubs. split; [|done]. rewrite lookup_delete_ne; [done|].
      intros <-. naive_solver.
Qed.

Lemma Cleanup_ok now maxAge sm : sm_ok sm → sm_ok (CleanupExpiredSubscriptions now maxAge sm).
Proof.
  intros Hok. unfold CleanupExpiredSubscriptions. split; simpl.
  - intros id s [Hs Hkept]%map_lookup_filter_Some. simpl in Hkept.
    pose proof Hs as (Hid & Hn & c & Hc & Hcs)%Hok. split; [done|]. split; [done|].
    exists c. split; [|done]. apply delete_if_lookup_Some. split; [done|].
    apply not_true_iff_false. intros Hexp. pose proof (Hkept _ _ Hc Hexp) as Hno. simpl in Hno. by rewrite Hcs in Hno.
  - intros cid c [Hc Hexp]%delete_if_lookup_Some.
    pose proof Hc as (Hcid & Hne & Hsubs)%Hok. split; [done|]. split; [done|].
    intros id s Hs. pose proof Hs as [Hsub Hcl]%Hsubs. split; [|done].
    apply map_lookup_filter_Some. split; [done|]. simpl. intros cid' c' Hc' Hexp'.
    apply eq_None_not_Some. intros [s' Hs'].
    pose proof Hc' as (_ & _ & Hsubs')%Hok. apply Hsubs' in Hs' as [Hs' Hcl'].
    rewrite Hs' in Hsub. injection Hsub as ->. rewrite <-Hcl', Hcl, Hc in Hc'.
    injection Hc' as ->. by rewrite Hexp in Hexp'.
Qed.

Lemma sm_step_ok sm sm' : sm_step sm sm' → sm_ok sm → sm_ok sm'.
Proof. intros []; auto using Subscribe_ok, Unsubscribe_ok, Cleanup_ok. Qed.

Lemma sm_reachable_ok sm : rtc sm_step NewSubscriptionManager sm → sm_ok sm.
Proof.
  revert sm. apply rtc_ind_r; [|by eauto using sm_step_ok].
  split; simpl; intros ? ?; by rewrite lookup_empty.
Qed.

(** Whatever clients subscribe and unsubscribe and whenever expired ones are
    swept, the two maps hold the same subscriptions: one that is stored is
    listed for the client it names, and for no other, and no client is kept
    without a subscription. *)
Theorem subscriptions_agree sm :
  rtc sm_step NewSubscriptionManager sm →
  (∀ cid id s, GetSubscriptions cid sm !! id = Some s ↔
     subscriptions sm !! id = Some s ∧ ClientID s = cid) ∧
  ∀ cid c, clients sm !! cid = Some c → GetSubscriptions cid sm ≠ ∅.
Proof.
  intros Hok%sm_reachable_ok. split.
  - intros cid id s. unfold GetSubscriptions. destruct (clients sm !! cid) as [c|] eqn:Hc.
    + pose proof Hc as (_ & _ & Hsubs)%Hok. split; [by intros ?%Hsubs|].
      intros [(_ & _ & c' & Hc' & ?)%Hok Hcl]. rewrite Hcl in Hc'. by simplify_eq.
    + rewrite lookup_empty. split; [done|]. intros [(_ & _ & c' & Hc' & ?)%Hok Hcl]. congruence.
  - intros cid c Hc. unfold GetSubscriptions. rewrite Hc. by apply Hok in Hc as (_ & ? & _).
Qed.

(** Only the owner removes a subscription, and removes that one alone: on
    any reachable manager every other call fails and changes nothing. *)
Theorem Unsubscribe_owner_only sm cid id :
  rtc sm_step NewSubscriptionManager sm →
  let '(sm', r) := Unsubscribe cid id sm in
  match GetSubscriptions cid sm !! id with
  | Some _ =>
      r = Ok tt ∧ subscriptions sm' = delete id (subscriptions sm) ∧
      ∀ cid', GetSubscriptions cid' sm' =
        if decide (cid' = cid) then delete id (GetSubscriptions cid sm)
        else GetSubscriptions cid' sm
  | None => sm' = sm ∧ is_ok r = false
  end.
Proof.
  intros Hok%sm_reachable_ok. unfold Unsubscribe, GetSubscriptions.
  destruct (clients sm !! cid) as [c|] eqn:Hc; simpl.
  - pose proof Hc as (_ & _ & Hsubs)%Hok. destruct (Subscriptions c !! id) as [s|] eqn:Hs.
    + apply Hsubs in Hs as [Hs Hcl]. rewrite Hs, decide_False by naive_solver. simpl.
      split; [done|]. split; [done|]. intros cid'. case_decide as He; case_decide as Heq; try subst cid'.
      * by rewrite lookup_delete_eq.
      * by rewrite lookup_delete_ne.
      * by rewrite lookup_insert_eq.
      * by rewrite lookup_insert_ne.
    + destruct (subscriptions sm !! id) as [s'|] eqn:Hs'; [|done].
      rewrite decide_True; [done|]. intros Hcl.
      apply Hok in Hs' as (_ & _ & c' & Hc' & ?). rewrite Hcl in Hc'. congruence.
  - rewrite lookup_empty. destruct (subscriptions sm !! id) as [s'|] eqn:Hs'; [|done].
    rewrite decide_True; [done|]. intros Hcl.
    apply Hok in Hs' as (_ & _ & c' & Hc' & ?). congruence.
Qed.

(** A client that subscribes again, from a new session, keeps the notify
    function it first gave. *)
Lemma resubscribe_keeps_notify nano created seen cid session req notify sm c :
  clients sm !! cid = Some c → is_ok (Subscribe nano created seen cid session req notify sm).2 = true →
  NotifyFunc <$> clients (Subscribe nano created seen cid session req notify sm).1 !! cid =
    Some (NotifyFunc c).
Proof.
  intros Hc. unfold Subscribe. case_decide; [done|].
  destruct (validateFilters 0 (ReqFilters req)); [|done]. simpl. intros _.
  by rewrite lookup_insert_eq, Hc.
Qed.

(** ** Delivery *)

Section delivery.
Context (MatchString : string → string → bool) (update : ResourceUpdate).

(** No filter compares slices or maps. *)
Definition filters_comparable (s : ResourceSubscription) : Prop :=
  Forall (λ f, Type_ f = "exact" → comparable (FValue f) = true) (Filters s).

Lemma iface_eq_comparable a b : comparable b = true → is_Some (iface_eq a b).
Proof. destruct a, b; simpl; done. Qed.

Lemma shouldIncludeUpdate_total s :
  filters_comparable s → is_Some (shouldIncludeUpdate MatchString (Filters s) update).
Proof.
  unfold filters_comparable. induction 1 as [|f fs Hf _ IH]; [done|]. simpl.
  assert (is_Some (applyFilter MatchString f update)) as [b ->].
  { unfold applyFilter, matchFilterValue. case_decide; [|done]. auto using iface_eq_comparable. }
  simpl. by destruct b.
Qed.

(** An update is delivered for the subscriptions that accept it. *)
Definition accepts (s : ResourceSubscription) : Prop :=
  doesURIMatch MatchString s (UpdURI update) = true ∧
  shouldIncludeUpdate MatchString (Filters s) update = Some true.

#[global] Instance accepts_dec s : Decision (accepts s).
Proof. unfold accepts. apply _. Defined.

Definition included (cid : string) (subs : list ResourceSubscription) : list ResourceSubscription :=
  filter (λ s, ClientID s = cid ∧ shouldIncludeUpdate MatchString (Filters s) update = Some true) subs.

(** What a client should receive: a notification with the update once per
    accepting subscription of its own. *)
Definition expected (c : ClientSubscriptions) : option (nat * list ResourceUpdate) :=
  match filter accepts (map_to_list (Subscriptions c)).*2 with
  | [] => None
  | ss => Some (NotifyFunc c, replicate (length ss) update)
  end.

Lemma groupByClient_spec subs m :
  Forall filters_comparable subs →
  ∃ m', groupByClient MatchString subs update m = Some m' ∧
    ∀ cid, m' !! cid = match included cid subs with
                       | [] => m !! cid
                       | ss => Some (default [] (m !! cid) ++ replicate (length ss) update)
                       end.
Proof.
  intros Hsubs. revert m. induction Hsubs as [|s subs Hs _ IH]; intros m; [by exists m|]. simpl.
  destruct (shouldIncludeUpdate_total s Hs) as [b Hb]. rewrite Hb. simpl.
  destruct (IH (if b then <[ClientID s := default [] (m !! ClientID s) ++ [update]]> m else m))
    as (m' & -> & Hm').
  exists m'. split; [done|]. intros cid. rewrite Hm'. unfold included.
  rewrite filter_cons. destruct b.
  - destruct (decide (ClientID s = cid)) as [<-|Hne].
    + rewrite decide_True by done. rewrite lookup_insert_eq. simpl.
      destruct (filter _ subs); [done|]. by rewrite <-(assoc_L (++)).
    + rewrite decide_False by naive_solver. by rewrite lookup_insert_ne.
  - rewrite decide_False; [done|]. rewrite Hb. naive_solver.
Qed.
End delivery.

(** Mapping partially over two lists with the same relevant elements. *)
Lemma omap_Permutation_relevant {A B} (f : A → option B) (l1 l2 : list A) :
  NoDup l1 → NoDup l2 → (∀ x, is_Some (f x) → x ∈ l1 ↔ x ∈ l2) → omap f l1 ≡ₚ omap f l2.
Proof.
  intros H1 H2 Hel.
  assert (∀ l : list A, omap f l = omap f (filter (λ x, is_Some (f x)) l)) as Hf.
  { intros l. induction l as [|x l IH]; [done|]. rewrite filter_cons. csimpl.
    case_decide as Hx; csimpl; [by rewrite IH|]. destruct (f x); [|done]. by destruct Hx. }
  rewrite (Hf l1), (Hf l2). apply (omap_Permutation f), NoDup_Permutation.
  - by apply NoDup_filter.
  - by apply NoDup_filter.
  - intros x. rewrite !list_elem_of_filter. naive_solver.
Qed.

Section deliver_all.
Context (MatchString : string → string → bool) (update : ResourceUpdate).
Context (order : list string) (sm : SubscriptionManager).
Hypotheses (Hok : sm_ok sm) (Horder : range_order (subscriptions sm) order).

Notation matching := (findMatchingSubscriptions MatchString (UpdURI update) order sm).

Lemma matching_elem s :
  s ∈ matching ↔ subscriptions sm !! SubID s = Some s ∧ doesURIMatch MatchString s (UpdURI update) = true.
Proof.
  unfold findMatchingSubscriptions. rewrite list_elem_of_filter, list_elem_of_omap. split.
  - intros [? (id & _ & Hs)]. pose proof Hs as (-> & _)%Hok. done.
  - intros [Hs ?]. split; [done|]. exists (SubID s). split; [|done].
    apply (range_order_elem _ _ _ Horder). by eexists.
Qed.

Lemma matching_NoDup : NoDup matching.
Proof.
  apply NoDup_filter. pose proof (range_order_NoDup _ _ Horder) as Hnd.
  clear Horder. induction Hnd as [|id l Hid _ IH]; [constructor|]. simpl.
  destruct (subscriptions sm !! id) as [s|] eqn:Hs; [|done]. constructor; [|done].
  rewrite list_elem_of_omap. intros (id' & ? & Hs').
  apply Hok in Hs as (Hid1 & _). apply Hok in Hs' as (Hid2 & _). congruence.
Qed.

(** The subscriptions of a client that get the update, seen from the server and
    from the client. *)
Lemma included_accepts cid c :
  clients sm !! cid = Some c →
  included MatchString update cid matching ≡ₚ
    filter (accepts MatchString update) (map_to_list (Subscriptions c)).*2.
Proof.
  intros Hc. pose proof Hc as (_ & _ & Hsubs)%Hok. apply NoDup_Permutation.
  - apply NoDup_filter, matching_NoDup.
  - apply NoDup_filter, NoDup_fmap_2_strong; [|apply NoDup_map_to_list].
    intros [id1 s1] [id2 s2] [H1 _]%elem_of_map_to_list%Hsubs [H2 _]%elem_of_map_to_list%Hsubs.
    apply Hok in H1 as (? & _). apply Hok in H2 as (? & _). simpl. congruence.
  - intros s. unfold included. rewrite !list_elem_of_filter, matching_elem, list_elem_of_fmap.
    unfold accepts. split.
    + intros [[Hcl Hinc] [Hs Hm]]. split; [done|].
      apply Hok in Hs as (_ & _ & c' & Hc' & Hcs). rewrite Hcl in Hc'. simplify_eq.
      exists (SubID s, s). by rewrite elem_of_map_to_list.
    + intros [[Hm Hinc] ([id s'] & -> & [Hs Hcl]%elem_of_map_to_list%Hsubs)]. simpl in *.
      pose proof Hs as (-> & _)%Hok. done.
Qed.

Lemma included_client cid s ss :
  included MatchString update cid matching = s :: ss → is_Some (clients sm !! cid).
Proof.
  intros He. assert (s ∈ included MatchString update cid matching) as Hs by (rewrite He; by left).
  unfold included in Hs. rewrite list_elem_of_filter, matching_elem in Hs.
  destruct Hs as ((<- & _) & Hs & _). apply Hok in Hs as (_ & _ & c & -> & _). done.
Qed.

(** One client's notification. *)
Lemma client_notified cid (m' : gmap string (list ResourceUpdate)) :
  m' !! cid = match included MatchString update cid matching with
              | [] => None
              | ss => Some (replicate (length ss) update)
              end →
  (updates ← m' !! cid; client ← clients sm !! cid; Some (NotifyFunc client, updates)) =
    clients sm !! cid ≫= expected MatchString update.
Proof.
  intros ->. destruct (clients sm !! cid) as [c|] eqn:Hc; simpl; [|by case_match].
  pose proof (included_accepts _ _ Hc) as Hp. unfold expected.
  destruct (included _ _ _ _) as [|s ss].
  - apply Permutation_nil_l in Hp. by rewrite <-Hp.
  - pose proof (Permutation_length Hp) as Hlen. destruct (filter _ _); [done|]. simpl in *.
    by injection Hlen as ->.
Qed.
End deliver_all.

Lemma omap_map_to_list {V B} (f : V → option B) (m : gmap string V) :
  omap (λ kv : string * V, f kv.2) (map_to_list m) =
    omap (λ k, m !! k ≫= f) (map_to_list m).*1.
Proof.
  assert (∀ l : list (string * V), (∀ kv, kv ∈ l → m !! kv.1 = Some kv.2) →
    omap (λ kv : string * V, f kv.2) l = omap (λ k, m !! k ≫= f) l.*1) as Hgen.
  { induction l as [|[k v] l IH]; intros Hl; [done|]. csimpl.
    pose proof (Hl (k, v) ltac:(by left)) as Hkv. simpl in Hkv. rewrite Hkv. simpl.
    rewrite IH; [done|]. intros kv ?. apply Hl. by right. }
  apply Hgen. by intros [k v] ?%elem_of_map_to_list.
Qed.

(** An update reaches every client with an accepting subscription, in one
    call of its notify function that carries the update once per such
    subscription, and no other client; whatever the order of the maps, on any
    reachable manager whose filters compare no slices or maps. *)
Theorem NotifyResourceUpdate_delivers MatchString update order clientOrder sm :
  rtc sm_step NewSubscriptionManager sm →
  range_order (subscriptions sm) order → (∀ m, range_order m (clientOrder m)) →
  map_Forall (λ _, filters_comparable) (subscriptions sm) →
  ∃ calls, NotifyResourceUpdate MatchString update order clientOrder sm = Some calls ∧
    calls ≡ₚ omap (λ kv, expected MatchString update kv.2) (map_to_list (clients sm)).
Proof.
  intros Hok%sm_reachable_ok Ho Hco Hcmp. unfold NotifyResourceUpdate.
  destruct (groupByClient_spec MatchString update
    (findMatchingSubscriptions MatchString (UpdURI update) order sm) ∅) as (m' & -> & Hm').
  { apply Forall_forall. intros s [Hs _]%matching_elem; [|done..]. by apply (Hcmp _ _ Hs). }
  simpl. eexists. split; [done|]. rewrite omap_map_to_list.
  assert (∀ cid, (updates ← m' !! cid; client ← clients sm !! cid;
    Some (NotifyFunc client, updates)) = clients sm !! cid ≫= expected MatchString update) as Hcid.
  { intros cid. apply (client_notified _ _ order); [done..|]. by rewrite Hm', lookup_empty. }
  rewrite (list_omap_ext _ (λ cid, clients sm !! cid ≫= expected MatchString update) _
    (clientOrder m')); [|by apply Forall_Forall2_diag, Forall_forall].
  apply omap_Permutation_relevant; [by eapply range_order_NoDup|apply NoDup_fst_map_to_list|].
  intros cid [call Hcall]. rewrite (range_order_elem _ _ _ (Hco m')). rewrite <-Hcid in Hcall.
  apply bind_Some in Hcall as (us & Hus & (c & Hc & _)%bind_Some). rewrite list_elem_of_fmap.
  split; intros _; [|by eexists]. exists (cid, c). by rewrite elem_of_map_to_list.
Qed.

(** ** Filters *)

(** A filter on the size of the content that comes from JSON matches no update:
    the decoded float64 is never equal to an int64. *)
Lemma size_filter_never_matches MatchString filter update q :
  Type_ filter = "exact" → Property filter = "size" → FValue filter = VFloat64 q →
  applyFilter MatchString filter update = Some false.
Proof.
  intros Ht Hp Hv. unfold applyFilter, matchFilterValue, filterProperty. rewrite Ht, Hp, Hv. simpl.
  by destruct (Content update).
Qed.

(** Two slices make an exact filter panic. *)
Lemma slice_filter_panics MatchString filter update m k l l' :
  Type_ filter = "exact" → Property filter = k → k ∉ ["type"; "uri"; "mimeType"; "size"] →
  FValue filter = VSlice l → Metadata update = Some m → m !! k = Some (VSlice l') →
  applyFilter MatchString filter update = None.
Proof.
  intros Ht Hp Hk Hv Hm Hl. rewrite !elem_of_cons in Hk. unfold applyFilter.
  assert (filterProperty (Property filter) update = VSlice l') as ->.
  { unfold filterProperty. rewrite Hp, Hm, !decide_False by naive_solver. by rewrite Hl. }
  unfold matchFilterValue. by rewrite Ht, Hv.
Qed.

(** ** Concrete runs *)

Definition noOptions : SubscriptionOptions := {|
  IncludeContent := false; Debounce := 0; BatchSize := 0; ContentTypes := []; MaxSize := 0;
  IncludeMetadata := false |}.

Definition subscribeTo (uri : string) : SubscribeRequest := {|
  ReqURI := uri; ReqFilters := []; ReqOptions := noOptions |}.

Definition twoClients : SubscriptionManager :=
  (Subscribe 8 8 8 "bob" "s2" (subscribeTo "file:///a") 2
    (Subscribe 7 7 7 "ann" "s1" (subscribeTo "file:///a") 1 NewSubscriptionManager).1).1.

Lemma twoClients_reachable : rtc sm_step NewSubscriptionManager twoClients.
Proof. eapply rtc_l; [|eapply rtc_once]; apply step_subscribe. Qed.

Definition changed : ResourceUpdate := {|
  UpdURI := "file:///a"; UpdType := "changed"; Content := None; Metadata := None; Timestamp := 9 |}.

Lemma subscriptions_agree_witness :
  ∃ s, subscriptions twoClients !! "sub_ann_7" = Some s ∧ ClientID s = "ann".
Proof.
  eexists. apply (proj1 (subscriptions_agree twoClients twoClients_reachable)). reflexivity.
Defined.

Lemma Unsubscribe_owner_only_witness :
  (Unsubscribe "bob" "sub_ann_7" twoClients).1 = twoClients.
Proof.
  pose proof (Unsubscribe_owner_only twoClients "bob" "sub_ann_7" twoClients_reachable) as H.
  by destruct (Unsubscribe "bob" "sub_ann_7" twoClients), H.
Defined.

Lemma NotifyResourceUpdate_delivers_witness :
  ∃ calls, NotifyResourceUpdate (λ _ _, false) changed ["sub_bob_8"; "sub_ann_7"]
             (λ m, (map_to_list m).*1) twoClients = Some calls ∧
    calls ≡ₚ [(1, [changed]); (2, [changed])].
Proof.
  destruct (NotifyResourceUpdate_delivers (λ _ _, false) changed ["sub_bob_8"; "sub_ann_7"]
    (λ m, (map_to_list m).*1) twoClients twoClients_reachable) as (calls & Hc & Hp).
  - vm_compute. apply perm_swap || reflexivity.
  - intros m. unfold range_order. reflexivity.
  - apply map_Forall_to_list. vm_compute. repeat constructor.
  - exists calls. split; [done|]. rewrite Hp. vm_compute. apply perm_swap || reflexivity.
Defined.
