(* ===== verification/Sampling.v ===== *)
(** * Sampling requests and their human review

    internal/protocol/sampling.go: requests of servers to sample a language
    model, which a human may have to approve before a handler gets them.  The
    requests are objects on a heap that the manager's map points to, since a
    request being handled is written to after the handler returns, whatever the
    map holds by then.  The handler is called without the manager's lock, so
    processing a request is two steps, between which anything can happen. *)
From S2P Require Import Prelude GoString.

Set Default Proof Using "Type*".

(** ** Data *)

Record EmbeddedResource := {
  EURI : string;
  EName : string;
  EDescription : string;
  EContent : string;
  EMetadata : option (gmap string Value);
}.

Record SamplingContent := {
  CType : string;
  Text : string;
  ImageData : string;
  MimeType : string;
  Resource : option EmbeddedResource;
}.

Record SamplingMessage := {
  Role : string;
  Content : SamplingContent;
  Metadata : option (gmap string Value);
}.

Record ModelHint := { HintName : string }.

Record ModelPreferences := {
  Hints : list ModelHint;
  CostPriority : string;
  SpeedPriority : string;
  IntelligencePriority : string;
}.

Record SamplingContext := {
  ServerInfo : option (gmap string Value);
  ToolContext : list string;
  ResourceContext : list string;
  SessionContext : option (gmap string Value);
}.

Record HumanControlConfig := {
  RequireApproval : bool;
  AutoApprovePatterns : list string;
  BlockPatterns : list string;
  CMaxTokens : Z;
  AllowedModels : list string;
  TimeoutSeconds : Z;
}.

Record HumanReviewResult := {
  Approved : bool;
  Reviewer : string;
  ReviewTime : Z;
  Comments : string;
}.

(** Temperature, StopSequence and the review's Modifications are left zero by
    sampling.go and not read by it; MaxTokens is left zero and read. *)
Record SamplingRequest := {
  ID : string;
  ServerName : string;
  Messages : list SamplingMessage;
  ModelPrefs : ModelPreferences;
  MaxTokens : Z;
  SContext : SamplingContext;
  Created : Z;
  Status : string;
  HumanReview : option HumanReviewResult;
}.

(** [heap] holds the request objects ever made; a handler and a response are
    the caller's, named by numbers. *)
Record SamplingManager := {
  heap : gmap nat SamplingRequest;
  requests : gmap string nat;
  handlers : gmap string nat;
  humanControls : gmap string HumanControlConfig;
}.

Definition NewSamplingManager : SamplingManager :=
  {| heap := ∅; requests := ∅; handlers := ∅; humanControls := ∅ |}.

Definition setHeap (f : gmap nat SamplingRequest → gmap nat SamplingRequest)
    (sm : SamplingManager) : SamplingManager :=
  {| heap := f (heap sm); requests := requests sm; handlers := handlers sm;
     humanControls := humanControls sm |}.

Definition setRequests (f : gmap string nat → gmap string nat) (sm : SamplingManager) :
    SamplingManager :=
  {| heap := heap sm; requests := f (requests sm); handlers := handlers sm;
     humanControls := humanControls sm |}.

Definition setStatus (status : string) (r : SamplingRequest) : SamplingRequest :=
  {| ID := ID r; ServerName := ServerName r; Messages := Messages r; ModelPrefs := ModelPrefs r;
     MaxTokens := MaxTokens r; SContext := SContext r; Created := Created r; Status := status;
     HumanReview := HumanReview r |}.

Definition setReview (review : HumanReviewResult) (r : SamplingRequest) : SamplingRequest :=
  {| ID := ID r; ServerName := ServerName r; Messages := Messages r; ModelPrefs := ModelPrefs r;
     MaxTokens := MaxTokens r; SContext := SContext r; Created := Created r; Status := Status r;
     HumanReview := Some review |}.

(** The request an ID names, with its address. *)
Definition lookupRequest (requestID : string) (sm : SamplingManager) :
    option (nat * SamplingRequest) :=
  a ← requests sm !! requestID; r ← heap sm !! a; Some (a, r).

Definition notFound (requestID : string) : string :=
  "sampling request " +:+ requestID +:+ " not found".

(** ** Operations *)

Definition RegisterHandler (name : string) (handler : nat) (sm : SamplingManager) :
    SamplingManager :=
  {| heap := heap sm; requests := requests sm; handlers := <[name := handler]> (handlers sm);
     humanControls := humanControls sm |}.

Definition SetHumanControls (serverName : string) (config : HumanControlConfig)
    (sm : SamplingManager) : SamplingManager :=
  {| heap := heap sm; requests := requests sm; handlers := handlers sm;
     humanControls := <[serverName := config]> (humanControls sm) |}.

Definition samplingID (serverName : string) (nano : Z) : string :=
  "sampling_" +:+ serverName +:+ "_" +:+ Itoa nano.

Section manager.
(** strings.ToLower, with Unicode's case tables. *)
Context (ToLower : string → string).

Definition matchesPattern (request : SamplingRequest) (pattern : string) : bool :=
  existsb (λ msg, Contains (ToLower (Text (Content msg))) (ToLower pattern)) (Messages request).

Definition requiresHumanApproval (request : SamplingRequest) (config : HumanControlConfig) : bool :=
  if existsb (matchesPattern request) (AutoApprovePatterns config) then false
  else if existsb (matchesPattern request) (BlockPatterns config) then true
  else if (0 <? CMaxTokens config)%Z && (CMaxTokens config <? MaxTokens request)%Z then true
  else RequireApproval config.

(** [nano] and [created] are clock readings; [a] is the address of the new
    object, which the result gives with it. *)
Definition CreateSamplingRequest (nano created : Z) (a : nat) (serverName : string)
    (messages : list SamplingMessage) (prefs : ModelPreferences) (context : SamplingContext)
    (sm : SamplingManager) : SamplingManager * SamplingRequest :=
  let requestID := samplingID serverName nano in
  let request := {|
    ID := requestID; ServerName := serverName; Messages := messages; ModelPrefs := prefs;
    MaxTokens := 0; SContext := context; Created := created; Status := "pending";
    HumanReview := None |} in
  let request :=
    match humanControls sm !! serverName with
    | Some humanConfig =>
        if RequireApproval humanConfig && requiresHumanApproval request humanConfig
        then setStatus "awaiting_approval" request else request
    | None => request
    end in
  (setRequests (insert requestID a) (setHeap (insert a request) sm), request).

(** The hinted handlers in order, then the first one the map gives. *)
Definition selectHandler (request : SamplingRequest) (order : list string) (sm : SamplingManager) :
    option nat :=
  match omap (λ hint, handlers sm !! HintName hint) (Hints (ModelPrefs request)) with
  | handler :: _ => Some handler
  | [] => head (omap (λ name, handlers sm !! name) order)
  end.

(** ProcessSamplingRequest up to the call of the handler: which one is called,
    on which object. *)
Definition processBegin (requestID : string) (order : list string) (sm : SamplingManager) :
    res string (nat * nat) :=
  match lookupRequest requestID sm with
  | None => Err (notFound requestID)
  | Some (a, request) =>
      if decide (Status request = "awaiting_approval") then
        Err ("sampling request " +:+ requestID +:+ " is awaiting human approval")
      else if decide (Status request = "rejected") then
        Err ("sampling request " +:+ requestID +:+ " was rejected")
      else match selectHandler request order sm with
           | None => Err "no suitable handler found for sampling request"
           | Some handler => Ok (a, handler)
           end
  end.

(** From the handler's return on. *)
Definition processEnd (a : nat) (r : res string nat) (sm : SamplingManager) :
    SamplingManager * res string nat :=
  match r with
  | Err e => (setHeap (alter (setStatus "failed") a) sm, Err ("sampling request failed: " +:+ e))
  | Ok response => (setHeap (alter (setStatus "completed") a) sm, Ok response)
  end.

(** The two together, when nothing happens in between. *)
Definition ProcessSamplingRequest (handle : nat → option SamplingRequest → res string nat)
    (requestID : string) (order : list string) (sm : SamplingManager) :
    SamplingManager * res string nat :=
  match processBegin requestID order sm with
  | Err e => (sm, Err e)
  | Ok (a, handler) => processEnd a (handle handler (heap sm !! a)) sm
  end.

Definition reviewRequest (approved : bool) (now : Z) (requestID reviewer comments : string)
    (sm : SamplingManager) : SamplingManager * res string unit :=
  match lookupRequest requestID sm with
  | None => (sm, Err (notFound requestID))
  | Some (a, request) =>
      if decide (Status request ≠ "awaiting_approval") then
        (sm, Err ("sampling request " +:+ requestID +:+ " is not awaiting approval"))
      else
        (setHeap (insert a (setReview
           {| Approved := approved; Reviewer := reviewer; ReviewTime := now;
              Comments := comments |}
           (setStatus (if approved then "approved" else "rejected") request))) sm, Ok tt)
  end.

Definition ApproveRequest := reviewRequest true.
Definition RejectRequest := reviewRequest false.

Definition GetPendingRequests (order : list string) (sm : SamplingManager) :
    list SamplingRequest :=
  filter (λ r, Status r = "awaiting_approval")
    (omap (λ id, snd <$> lookupRequest id sm) order).

Definition GetRequestStatus (requestID : string) (sm : SamplingManager) : res string string :=
  match lookupRequest requestID sm with
  | None => Err (notFound requestID)
  | Some (_, request) => Ok (Status request)
  end.

Definition cleanable (cutoff : Z) (request : SamplingRequest) : bool :=
  (Created request <? cutoff)%Z &&
  bool_decide (Status request ∈ ["completed"; "failed"; "rejected"]).

Definition CleanupOldRequests (now maxAge : Z) (sm : SamplingManager) : SamplingManager :=
  setRequests (delete_if (λ a,
    match heap sm !! a with Some r => cleanable (now - maxAge) r | None => false end)) sm.
End manager.

Lemma lookupRequest_Some id sm a r :
  lookupRequest id sm = Some (a, r) ↔ requests sm !! id = Some a ∧ heap sm !! a = Some r.
Proof. unfold lookupRequest. rewrite bind_Some. setoid_rewrite bind_Some. naive_solver. Qed.

(** ** Runs

    A run is any list of actions, in which the handler of a request returns at
    any time after it was called ([EndA] names its call by the position in the list
    of the running ones).  The trace, newest event first, has the
    requests made, with whether they had to be approved, the reviews and the
    calls of handlers, by the request's address. *)
Inductive action :=
  | RegisterA (name : string) (handler : nat)
  | ControlsA (serverName : string) (config : HumanControlConfig)
  | CreateA (nano created : Z) (serverName : string) (messages : list SamplingMessage)
      (prefs : ModelPreferences) (context : SamplingContext)
  | BeginA (requestID : string) (order : list string)
  | EndA (i : nat) (r : res string nat)
  | ReviewA (approved : bool) (now : Z) (requestID reviewer comments : string)
  | CleanupA (now maxAge : Z).

Inductive event :=
  | CreatedE (a : nat) (needsApproval : bool)
  | ReviewedE (a : nat) (approved : bool)
  | HandledE (a handler : nat).

Definition eventAddr (e : event) : nat :=
  match e with CreatedE a _ | ReviewedE a _ | HandledE a _ => a end.

Record world := {
  manager : SamplingManager;
  next : nat;
  running : list nat;
  trace : list event;
}.

Definition startWorld : world :=
  {| manager := NewSamplingManager; next := 0; running := []; trace := [] |}.

Definition withManager (sm : SamplingManager) (w : world) : world :=
  {| manager := sm; next := next w; running := running w; trace := trace w |}.

Section runs.
Context (ToLower : string → string).

Definition exec (w : world) (act : action) : world :=
  let sm := manager w in
  match act with
  | RegisterA name handler => withManager (RegisterHandler name handler sm) w
  | ControlsA serverName config => withManager (SetHumanControls serverName config sm) w
  | CreateA nano created serverName messages prefs context =>
      let '(sm', r) :=
        CreateSamplingRequest ToLower nano created (next w) serverName messages prefs context sm in
      {| manager := sm'; next := S (next w); running := running w;
         trace := CreatedE (next w) (bool_decide (Status r = "awaiting_approval")) :: trace w |}
  | BeginA requestID order =>
      match processBegin requestID order sm with
      | Err _ => w
      | Ok (a, handler) =>
          {| manager := sm; next := next w; running := a :: running w;
             trace := HandledE a handler :: trace w |}
      end
  | EndA i r =>
      match running w !! i with
      | Some a =>
          {| manager := (processEnd a r sm).1; next := next w; running := delete i (running w);
             trace := trace w |}
      | None => w
      end
  | ReviewA approved now requestID reviewer comments =>
      let '(sm', r) := reviewRequest approved now requestID reviewer comments sm in
      {| manager := sm'; next := next w; running := running w;
         trace := match r, lookupRequest requestID sm with
                  | Ok _, Some (a, _) => ReviewedE a approved :: trace w
                  | _, _ => trace w
                  end |}
  | CleanupA now maxAge => withManager (CleanupOldRequests now maxAge sm) w
  end.

Definition run (acts : list action) : world := foldl exec startWorld acts.
End runs.

(** What the reviews in the trace say of a request's status, if it had to be
    approved. *)
Definition reviewed_status (tr : list event) (a : nat) (status : string) : Prop :=
  CreatedE a true ∈ tr →
  if decide (status = "awaiting_approval") then ∀ b, ReviewedE a b ∉ tr
  else if decide (status = "rejected") then True
  else ReviewedE a true ∈ tr ∧ ReviewedE a false ∉ tr.

(** Every call of a handler came after an approval, if one was needed. *)
Definition calls_approved (tr : list event) : Prop :=
  ∀ post a h pre, tr = post ++ HandledE a h :: pre → CreatedE a true ∈ pre →
    ReviewedE a true ∈ pre ∧ ReviewedE a false ∉ pre.

Definition open_status (status : string) : Prop :=
  status ≠ "awaiting_approval" ∧ status ≠ "rejected".

Record world_ok (w : world) : Prop := {
  ok_events : ∀ e, e ∈ trace w → eventAddr e < next w;
  ok_heap : ∀ a r, heap (manager w) !! a = Some r →
    a < next w ∧ reviewed_status (trace w) a (Status r);
  ok_running : ∀ a, a ∈ running w →
    ∃ r, heap (manager w) !! a = Some r ∧ open_status (Status r);
  ok_calls : calls_approved (trace w);
}.

Lemma calls_approved_cons e tr :
  calls_approved tr → (∀ a h, e = HandledE a h → CreatedE a true ∈ tr →
    ReviewedE a true ∈ tr ∧ ReviewedE a false ∉ tr) → calls_approved (e :: tr).
Proof.
  intros Hok He [|e' post] a h pre Heq; simplify_eq/=; [by eauto|by eapply Hok].
Qed.

(** Events that say nothing of a request leave what the reviews say of it. *)
Lemma reviewed_status_cons e tr a status :
  e ≠ CreatedE a true → (∀ b, e ≠ ReviewedE a b) →
  reviewed_status tr a status → reviewed_status (e :: tr) a status.
Proof.
  unfold reviewed_status. intros Hc Hr Hs [?|Hin]%elem_of_cons; [by subst|]. specialize (Hs Hin).
  destruct (decide (status = "awaiting_approval")).
  - intros b [?|?]%elem_of_cons; [naive_solver|by eapply Hs].
  - destruct (decide (status = "rejected")); [done|]. destruct Hs as [? ?].
    split; [by right|]. intros [?|?]%elem_of_cons; naive_solver.
Qed.

(** Only the objects matter. *)
Lemma world_ok_heap w sm : heap sm = heap (manager w) → world_ok w → world_ok (withManager sm w).
Proof. intros Hh []. split; simpl; rewrite ?Hh; done. Qed.

Lemma Create_ok lower w nano created srv msgs prefs ctx :
  world_ok w → world_ok (exec lower w (CreateA nano created srv msgs prefs ctx)).
Proof.
  intros [He Hh Hr Hc]. simpl. set (r := match humanControls _ !! _ with Some _ => _ | _ => _ end).
  assert (∀ e, e ∈ trace w → eventAddr e ≠ next w) as Hfresh by (intros e ?%He; lia).
  split; simpl.
  - intros e [->|?%He]%elem_of_cons; simpl; lia.
  - intros a r'. rewrite lookup_insert_Some. intros [[<- <-]|[Hne [Ha Hs]%Hh]]; (split; [lia|]).
    + intros [Heq|Hin]%elem_of_cons; [|by apply Hfresh in Hin].
      injection Heq as Heq. symmetry in Heq. apply bool_decide_eq_true in Heq. rewrite Heq. simpl.
      intros b [?|Hin]%elem_of_cons; [done|by apply Hfresh in Hin].
    + apply reviewed_status_cons; [|done|done]. intros [= ?]. lia.
  - intros a (r' & Ha & ?)%Hr. exists r'. split; [|done]. rewrite lookup_insert_ne; [done|].
    apply Hh in Ha. lia.
  - by apply calls_approved_cons.
Qed.

Lemma Begin_ok lower w id order : world_ok w → world_ok (exec lower w (BeginA id order)).
Proof.
  intros [He Hh Hr Hc]. simpl. unfold processBegin.
  destruct (lookupRequest id (manager w)) as [[a r]|] eqn:Hl; [|by split].
  apply lookupRequest_Some in Hl as [Hid Ha].
  destruct (decide (Status r = "awaiting_approval")) as [|Hwait]; [by split|].
  destruct (decide (Status r = "rejected")) as [|Hrej]; [by split|].
  destruct (selectHandler _ _ _) as [h|]; [|by split]. pose proof (Hh _ _ Ha) as [Hlt Hs].
  split; simpl.
  - intros e [->|?]%elem_of_cons; auto.
  - intros a' r' [Ha' Hs']%Hh. split; [done|]. by apply reviewed_status_cons.
  - intros a' [->|?]%elem_of_cons; [by exists r|auto].
  - apply calls_approved_cons; [done|]. intros ? ? [= <- <-] Hin. specialize (Hs Hin).
    by rewrite !decide_False in Hs.
Qed.

Lemma End_ok lower w i r : world_ok w → world_ok (exec lower w (EndA i r)).
Proof.
  intros [He Hh Hr Hc]. simpl. destruct (running w !! i) as [a|] eqn:Hrun; [|by split].
  apply list_elem_of_lookup_2 in Hrun. destruct (Hr _ Hrun) as (ra & Ha & Hopen).
  assert (∃ status, open_status status ∧
    heap (processEnd a r (manager w)).1 = alter (setStatus status) a (heap (manager w)))
    as (status & Hst & Hheap).
  { destruct r; [by exists "completed"|by exists "failed"]. }
  split; simpl; rewrite ?Hheap.
  - done.
  - intros a' r'. rewrite lookup_alter_Some.
    intros [(<- & r0 & Hr0 & ->)|[Hne [? ?]%Hh]]; [|done]. rewrite Ha in Hr0.
    injection Hr0 as <-. apply Hh in Ha as [? Hs0]. split; [done|].
    intros Hin. specialize (Hs0 Hin). destruct Hopen, Hst. rewrite !decide_False in Hs0 by done.
    simpl. by rewrite !decide_False.
  - intros a' Hin%list_elem_of_delete_inv. apply Hr in Hin as (r' & Ha' & Ho').
    destruct (decide (a = a')) as [<-|].
    + exists (setStatus status r'). by rewrite lookup_alter_eq, Ha'.
    + exists r'. by rewrite lookup_alter_ne.
  - done.
Qed.

Lemma Review_ok lower w approved now id reviewer comments :
  world_ok w → world_ok (exec lower w (ReviewA approved now id reviewer comments)).
Proof.
  intros [He Hh Hr Hc]. simpl. unfold reviewRequest.
  destruct (lookupRequest id (manager w)) as [[a r]|] eqn:Hl; [|by split].
  apply lookupRequest_Some in Hl as [Hid Ha]. case_decide as Hst; [by split|].
  pose proof (Hh _ _ Ha) as [Hlt Hs]. split; simpl.
  - intros e [->|?]%elem_of_cons; auto.
  - intros a' r'. rewrite lookup_insert_Some. intros [[<- <-]|[Hne [? ?]%Hh]]; (split; [done|]).
    + intros [?|Hin]%elem_of_cons; [done|]. specialize (Hs Hin). simpl.
      rewrite decide_True in Hs by done. destruct approved; simpl; [|done].
      split; [by left|]. intros [?|?]%elem_of_cons; [done|by eapply Hs].
    + apply reviewed_status_cons; naive_solver.
  - intros a' (r' & Ha' & [? ?])%Hr. exists r'. split; [|done].
    rewrite lookup_insert_ne; [done|]. intros <-. by simplify_eq.
  - by apply calls_approved_cons.
Qed.

Lemma run_ok lower acts : world_ok (run lower acts).
Proof.
  unfold run. assert (world_ok startWorld) as Hstart.
  { split; simpl; [set_solver|intros ? ?; by rewrite lookup_empty|set_solver|by intros [|]]. }
  revert Hstart. generalize startWorld. induction acts as [|act acts IH]; [done|].
  intros w Hw. apply IH. destruct act; eauto using Create_ok, Begin_ok, End_ok, Review_ok.
  all: by apply world_ok_heap.
Qed.

(** C24: whatever is done in whatever order, handlers returning at any time, a
    request that had to be approved when it was made goes to a handler only
    after a reviewer approved it, and never after one rejected it. *)
Theorem handled_only_approved lower acts post a h pre :
  trace (run lower acts) = post ++ HandledE a h :: pre → CreatedE a true ∈ pre →
  ReviewedE a true ∈ pre ∧ ReviewedE a false ∉ pre.
Proof. apply (ok_calls _ (run_ok lower acts)). Qed.

(** ** What the controls do *)

(** A new request awaits approval exactly when its server's controls require
    approval and no auto-approve pattern occurs in its messages. *)
Definition autoApproved (lower : string → string) (messages : list SamplingMessage)
    (config : HumanControlConfig) : bool :=
  existsb (λ pattern, existsb (λ msg, Contains (lower (Text (Content msg))) (lower pattern))
    messages) (AutoApprovePatterns config).

(** Of a server's controls only RequireApproval and the auto-approve patterns
    matter to a new request: the block patterns and the token limit decide
    nothing, since what they do not block awaits approval too, and a text that
    matches a block pattern goes through if it also matches an auto-approve
    pattern. *)
Theorem only_auto_approval_counts lower nano created a srv msgs prefs ctx sm :
  Status (CreateSamplingRequest lower nano created a srv msgs prefs ctx sm).2 =
    match humanControls sm !! srv with
    | Some config =>
        if RequireApproval config && negb (autoApproved lower msgs config)
        then "awaiting_approval" else "pending"
    | None => "pending"
    end.
Proof.
  unfold CreateSamplingRequest. simpl. destruct (humanControls sm !! srv) as [config|]; [|done].
  destruct (RequireApproval config) eqn:Hr; [|done]. simpl.
  unfold requiresHumanApproval, autoApproved, matchesPattern. simpl. rewrite Hr.
  destruct (existsb _ (AutoApprovePatterns config)); [done|].
  destruct (existsb _ (BlockPatterns config)); [done|]. by destruct (_ && _).
Qed.

(** ** The life of a request *)

(** A request that was completed is processed again when asked: its status is
    not looked at, so a handler that fails the second time makes it failed. *)
Lemma completed_processed_again handle id order sm a r h :
  lookupRequest id sm = Some (a, r) → Status r = "completed" →
  selectHandler r order sm = Some h → is_ok (handle h (Some r)) = false →
  GetRequestStatus id (ProcessSamplingRequest handle id order sm).1 = Ok "failed".
Proof.
  intros Hl Hst Hsel Hh. unfold ProcessSamplingRequest, processBegin. rewrite Hl, Hst. simpl.
  rewrite Hsel. apply lookupRequest_Some in Hl as [Hid Ha]. rewrite Ha.
  destruct (handle h (Some r)) as [|e]; [done|]. simpl. unfold GetRequestStatus, lookupRequest. simpl.
  rewrite Hid. simpl. by rewrite lookup_alter_eq, Ha.
Qed.

Definition textMessage (text : string) : SamplingMessage := {|
  Role := "user";
  Content := {| CType := "text"; Text := text; ImageData := ""; MimeType := ""; Resource := None |};
  Metadata := None |}.

Definition noPrefs : ModelPreferences := {|
  Hints := []; CostPriority := ""; SpeedPriority := ""; IntelligencePriority := "" |}.

Definition noContext : SamplingContext := {|
  ServerInfo := None; ToolContext := []; ResourceContext := []; SessionContext := None |}.

Definition strictControls : HumanControlConfig := {|
  RequireApproval := true; AutoApprovePatterns := ["weather"]; BlockPatterns := ["password"];
  CMaxTokens := 100; AllowedModels := []; TimeoutSeconds := 30 |}.

(** A request is made, processed in vain, approved and processed. *)
Definition approvedRun : list action := [
  RegisterA "llm" 5; ControlsA "srv" strictControls;
  CreateA 7 7 "srv" [textMessage "tell me a secret"] noPrefs noContext;
  BeginA "sampling_srv_7" ["llm"]; ReviewA true 8 "sampling_srv_7" "ann" "";
  BeginA "sampling_srv_7" ["llm"]; EndA 0 (Ok 1)].

Lemma handled_only_approved_witness :
  ReviewedE 0 true ∈ [ReviewedE 0 true; CreatedE 0 true].
Proof.
  apply (handled_only_approved ToLower approvedRun [] 0 5).
  - vm_compute. reflexivity.
  - right. left.
Defined.

Example approvedRun_completed :
  GetRequestStatus "sampling_srv_7" (manager (run ToLower approvedRun)) = Ok "completed".
Proof. vm_compute. reflexivity. Qed.

(** The password is asked for, and the weather. *)
Example block_pattern_overridden :
  Status (CreateSamplingRequest ToLower 7 7 0 "srv"
    [textMessage "What is the password? (And the weather?)"] noPrefs noContext
    (SetHumanControls "srv" strictControls NewSamplingManager)).2 = "pending".
Proof. vm_compute. reflexivity. Qed.
