(* ===== verification/Progress.v ===== *)
(** * Progress notifications

    internal/protocol/progress.go: tokens for requests in progress and the
    listeners that are called with every update of a token until it is completed
    or fails.  The manager has no lock; an operation is one step. *)
From S2P Require Import Prelude GoString GoNum Protocol.

#[local] Open Scope Z_scope.

Set Default Proof Using "Type*".

(** ** Data *)

Record ProgressToken := {
  Token : string;
  RequestID : Value;
  Created : Z;
}.

Record ProgressParams := {
  ProgressToken_ : string;
  Progress_ : float64;
  Total : option Z;
  Current : option Z;
  ProgressMessage : string;
  Details : Value;
}.

Record ProgressNotification := {
  pn_JSONRPC : string;
  pn_Method : string;
  pn_Params : ProgressParams;
}.

(** Listeners are functions of the caller, told apart by a number. *)
Record ProgressManager := {
  tokens : gmap string ProgressToken;
  listeners : gmap string (list nat);
}.

(** A call of a listener. *)
Record ListenerCall := { listener : nat; call_token : string; call_params : ProgressParams }.

Definition NewProgressManager : ProgressManager := {| tokens := ∅; listeners := ∅ |}.

Section manager.
(** A request ID as fmt's %d prints it. *)
Context (formatID : Value → string).

(** The clock is read twice: in nanoseconds for the token and for its creation. *)
Definition progressToken (nanos : Z) (requestID : Value) : string :=
  "prog_" +:+ Itoa nanos +:+ "_" +:+ formatID requestID.

Definition GenerateProgressToken (nanos now : Z) (requestID : Value) (pm : ProgressManager) :
    ProgressManager * string :=
  let token := progressToken nanos requestID in
  ({| tokens := <[token := {| Token := token; RequestID := requestID; Created := now |}]> (tokens pm);
      listeners := listeners pm |}, token).
End manager.

Definition IsValidToken (token : string) (pm : ProgressManager) : bool :=
  bool_decide (is_Some (tokens pm !! token)).

Definition AddProgressListener (token : string) (l : nat) (pm : ProgressManager) : ProgressManager :=
  {| tokens := tokens pm;
     listeners := <[token := default [] (listeners pm !! token) ++ [l]]> (listeners pm) |}.

Definition invalidToken (token : string) : MCPError :=
  NewValidationError "progressToken" (VString token) "token must be valid".

(** The calls that an update of a token makes, in the order of registration. *)
Definition notifyListeners (token : string) (params : ProgressParams) (pm : ProgressManager) :
    list ListenerCall :=
  (λ l, {| listener := l; call_token := token; call_params := params |}) <$>
    default [] (listeners pm !! token).

Definition UpdateProgress (token : string) (progress : float64) (message : string)
    (details : Value) (pm : ProgressManager) : res MCPError (list ListenerCall) :=
  if IsValidToken token pm then
    Ok (notifyListeners token
          {| ProgressToken_ := token; Progress_ := progress; Total := None; Current := None;
             ProgressMessage := message; Details := details |} pm)
  else Err (invalidToken token).

Definition detailedProgress (current total : Z) : float64 :=
  if total =? 0 then float64_of 0 else fdiv (float64_of current) (float64_of total).

Definition UpdateDetailedProgress (token : string) (current total : Z) (message : string)
    (details : Value) (pm : ProgressManager) : res MCPError (list ListenerCall) :=
  if IsValidToken token pm then
    Ok (notifyListeners token
          {| ProgressToken_ := token; Progress_ := detailedProgress current total;
             Total := Some total; Current := Some current; ProgressMessage := message;
             Details := details |} pm)
  else Err (invalidToken token).

Definition forget (token : string) (pm : ProgressManager) : ProgressManager :=
  {| tokens := delete token (tokens pm); listeners := delete token (listeners pm) |}.

Definition CompleteProgress (token message : string) (pm : ProgressManager) :
    ProgressManager * res MCPError (list ListenerCall) :=
  if IsValidToken token pm then
    (forget token pm, Ok (notifyListeners token
       {| ProgressToken_ := token; Progress_ := float64_of 1; Total := None; Current := None;
          ProgressMessage := message; Details := VNil |} pm))
  else (pm, Err (invalidToken token)).

Definition FailProgress (token err : string) (pm : ProgressManager) :
    ProgressManager * res MCPError (list ListenerCall) :=
  if IsValidToken token pm then
    (forget token pm, Ok (notifyListeners token
       {| ProgressToken_ := token; Progress_ := float64_of (-1); Total := None; Current := None;
          ProgressMessage := "Failed: " +:+ err;
          Details := VMap [("error", VString err)] |} pm))
  else (pm, Err (invalidToken token)).

(** ** Notifications *)

Definition CreateProgressNotification (params : ProgressParams) : ProgressNotification :=
  {| pn_JSONRPC := "2.0"; pn_Method := "notifications/progress"; pn_Params := params |}.

(** [Unmarshal] is json.Unmarshal into a notification. *)
Definition ParseProgressNotification (Unmarshal : string → res string ProgressNotification)
    (data : string) : res MCPError ProgressNotification :=
  match Unmarshal data with
  | Err e => Err (NewParseError ("invalid progress notification: " +:+ e))
  | Ok notification =>
      if decide (pn_Method notification = "notifications/progress") then Ok notification
      else Err (NewInvalidRequest ("expected notifications/progress, got " +:+ pn_Method notification))
  end.

(** The field that is not valid, and what it should be. *)
Definition ValidateProgressParams (params : ProgressParams) : res (string * string) unit :=
  if decide (ProgressToken_ params = "") then
    Err ("progressToken", "progress token cannot be empty")
  else if fltb (Progress_ params) (float64_of (-1)) || fltb (float64_of 1) (Progress_ params) then
    Err ("progress", "progress must be between -1.0 and 1.0")
  else
    match Current params, Total params with
    | Some current, Some total =>
        if current <? 0 then Err ("current", "current cannot be negative")
        else if total <? 0 then Err ("total", "total cannot be negative")
        else if total <? current then Err ("current", "current cannot exceed total")
        else Ok tt
    | _, _ => Ok tt
    end.

(** ** Runs *)

Section runs.
Context (formatID : Value → string).

Inductive progress_op :=
  | OpGenerate (nanos now : Z) (requestID : Value)
  | OpListen (token : string) (l : nat)
  | OpUpdate (token : string) (progress : float64) (message : string) (details : Value)
  | OpDetailed (token : string) (current total : Z) (message : string) (details : Value)
  | OpComplete (token message : string)
  | OpFail (token err : string).

Definition calls_of (r : res MCPError (list ListenerCall)) : list ListenerCall :=
  match r with Ok calls => calls | Err _ => [] end.

Definition progress_step (pm : ProgressManager) (op : progress_op) :
    ProgressManager * list ListenerCall :=
  match op with
  | OpGenerate nanos now id => ((GenerateProgressToken formatID nanos now id pm).1, [])
  | OpListen token l => (AddProgressListener token l pm, [])
  | OpUpdate token p m d => (pm, calls_of (UpdateProgress token p m d pm))
  | OpDetailed token c t m d => (pm, calls_of (UpdateDetailedProgress token c t m d pm))
  | OpComplete token m => let '(pm', r) := CompleteProgress token m pm in (pm', calls_of r)
  | OpFail token e => let '(pm', r) := FailProgress token e pm in (pm', calls_of r)
  end.

Fixpoint progress_run (pm : ProgressManager) (ops : list progress_op) :
    ProgressManager * list ListenerCall :=
  match ops with
  | [] => (pm, [])
  | op :: rest =>
      let '(pm1, calls1) := progress_step pm op in
      let '(pm2, calls2) := progress_run pm1 rest in
      (pm2, calls1 ++ calls2)
  end.

(** The operations that make a token. *)
Definition generates (token : string) (op : progress_op) : Prop :=
  match op with OpGenerate nanos _ id => progressToken formatID nanos id = token | _ => False end.

Lemma notifyListeners_token token params pm c :
  c ∈ notifyListeners token params pm → call_token c = token.
Proof. unfold notifyListeners. by intros (l & -> & _)%list_elem_of_fmap. Qed.

Lemma step_invalid token pm op :
  tokens pm !! token = None → ¬ generates token op →
  tokens (progress_step pm op).1 !! token = None ∧
  Forall (λ c, call_token c ≠ token) (progress_step pm op).2.
Proof.
  intros Hn Hg.
  assert (∀ t params, IsValidToken t pm = true →
    Forall (λ c, call_token c ≠ token) (notifyListeners t params pm)) as Hcalls.
  { intros t params Ht%bool_decide_eq_true. apply Forall_forall.
    intros c Hc%notifyListeners_token Heq. rewrite <-Heq, Hc in Hn. rewrite Hn in Ht. by destruct Ht. }
  destruct op as [nanos now id|t l|t p m d|t c n m d|t m|t e]; simpl.
  - split; [|done]. rewrite lookup_insert_ne; [done|]. exact Hg.
  - by split.
  - split; [done|]. unfold UpdateProgress. destruct (IsValidToken t pm) eqn:Ht; [by apply Hcalls|done].
  - split; [done|]. unfold UpdateDetailedProgress.
    destruct (IsValidToken t pm) eqn:Ht; [by apply Hcalls|done].
  - unfold CompleteProgress. destruct (IsValidToken t pm) eqn:Ht; simpl; [|by split].
    split; [|by apply Hcalls]. apply lookup_delete_None. by right.
  - unfold FailProgress. destruct (IsValidToken t pm) eqn:Ht; simpl; [|by split].
    split; [|by apply Hcalls]. apply lookup_delete_None. by right.
Qed.

(** A finished request is quiet: after a token was completed or has failed,
    no listener is ever called with it again, whatever operations follow, unless
    the token is generated a second time; and the last call each listener got
    says 1.0, or -1.0 for a failure. *)
Theorem finished_is_quiet pm op token ops :
  (∃ m, op = OpComplete token m) ∨ (∃ e, op = OpFail token e) →
  Forall (λ op, ¬ generates token op) ops →
  let '(pm1, last_calls) := progress_step pm op in
  (IsValidToken token pm = true →
   listener <$> last_calls = default [] (listeners pm !! token) ∧
   Forall (λ c, Progress_ (call_params c) = float64_of 1 ∨
                Progress_ (call_params c) = float64_of (-1)) last_calls) ∧
  Forall (λ c, call_token c ≠ token) (progress_run pm1 ops).2.
Proof.
  intros Hop Hops. destruct (progress_step pm op) as [pm1 last_calls] eqn:Hstep.
  assert (tokens pm1 !! token = None ∧ (IsValidToken token pm = true →
    listener <$> last_calls = default [] (listeners pm !! token) ∧
    Forall (λ c, Progress_ (call_params c) = float64_of 1 ∨
                 Progress_ (call_params c) = float64_of (-1)) last_calls)) as [Hn Hlast].
  { assert (IsValidToken token pm = false → tokens pm !! token = None) as Hinv.
    { intros Hi%bool_decide_eq_false. by apply eq_None_not_Some. }
    destruct Hop as [[m ->]|[e ->]]; simpl in Hstep; unfold CompleteProgress, FailProgress in Hstep;
      destruct (IsValidToken token pm); injection Hstep as <- <-;
      (split; [first [by apply lookup_delete_eq|by apply Hinv]|intros Hv; try done]);
      (split; [unfold notifyListeners; by rewrite <-list_fmap_compose, list_fmap_id|]);
      apply Forall_fmap, Forall_true; intros l; simpl; auto. }
  split; [done|]. clear Hstep Hop Hlast op pm last_calls. revert pm1 Hn.
  induction Hops as [|op ops Hg _ IH]; intros pm Hn; simpl; [constructor|].
  destruct (step_invalid token pm op Hn Hg) as [Hn1 Hc1].
  destruct (progress_step pm op) as [pm1 calls1]. specialize (IH pm1 Hn1).
  destruct (progress_run pm1 ops) as [pm2 calls2]. by apply Forall_app.
Qed.
End runs.

Lemma finished_is_quiet_witness :
  let f := λ _ : Value, "7" in
  let pm := (progress_run f NewProgressManager [OpGenerate 5 0 (VInt 7); OpListen "prog_5_7" 3]).1 in
  let pm1 := (progress_step f pm (OpComplete "prog_5_7" "done")).1 in
  Forall (λ c, call_token c ≠ "prog_5_7")
    (progress_run f pm1 [OpUpdate "prog_5_7" (float64_of 0) "late" VNil]).2.
Proof.
  intros f pm pm1.
  pose proof (finished_is_quiet f pm (OpComplete "prog_5_7" "done") "prog_5_7"
    [OpUpdate "prog_5_7" (float64_of 0) "late" VNil]) as H.
  destruct H as [_ H]; [by left; eexists|by repeat constructor; intros []|exact H].
Defined.

(** Listeners added to a token that is not valid, or not any more, stay for
    ever. *)
Example late_listener_stays :
  listeners (AddProgressListener "gone" 1 NewProgressManager) !! "gone" = Some [1%nat].
Proof. reflexivity. Qed.

(** Two requests that are given the same nanosecond and print alike share a
    token: completing one completes both. *)
Example tokens_collide :
  progressToken (λ _, "1") 5 (VInt 1) = progressToken (λ _, "1") 5 (VInt64 1).
Proof. reflexivity. Qed.
