(* ===== verification/StandardMethods.v ===== *)
(** * The standard methods of a server

    internal/protocol/standard_methods.go: the handshake of MCP (initialize,
    notifications/initialized), ping, roots/list and cancellation, over the
    messages of Protocol.v and the root manager of Roots.v; the switches of the
    server's capabilities and the checks on an initialize request.  A Go struct
    that is answered is the [Value] its JSON tags make of it; what is logged or
    printed is left out, but not the panic of logging to a nil logger. *)
From S2P Require Import Prelude GoString GoPath Protocol Roots.

Set Default Proof Using "Type*".

(** ** Data *)

Record ServerInfo := { ServerName : string; ServerVersion : string }.

Record ClientInfo := { ClientName : string; ClientVersion : string }.

Record InitializeParams := {
  ProtocolVersion : string;
  ClientCapabilities : CapabilitiesOpts;
  Client : ClientInfo;
  ClientRoots : list Root;
}.

Record InitializeResult := {
  ResultVersion : string;
  ResultServer : ServerInfo;
  ResultCapabilities : CapabilitiesOpts;
  Instructions : string;
  ResultRoots : list Root;
}.

(** [logger] tells whether there is one. *)
Record StandardMethodHandler := {
  capabilities : CapabilitiesOpts;
  serverInfo : ServerInfo;
  rootManager : RootManager;
  initialized : bool;
  logger : bool;
}.

Definition NewStandardMethodHandler (info : ServerInfo) (caps : CapabilitiesOpts)
    (log : bool) : StandardMethodHandler :=
  {| capabilities := caps; serverInfo := info; rootManager := NewRootManager;
     initialized := false; logger := log |}.

Definition setCapabilities (c : CapabilitiesOpts) (h : StandardMethodHandler) :=
  {| capabilities := c; serverInfo := serverInfo h; rootManager := rootManager h;
     initialized := initialized h; logger := logger h |}.

Definition setRootManager (rm : RootManager) (h : StandardMethodHandler) :=
  {| capabilities := capabilities h; serverInfo := serverInfo h; rootManager := rm;
     initialized := initialized h; logger := logger h |}.

Definition setInitialized (h : StandardMethodHandler) :=
  {| capabilities := capabilities h; serverInfo := serverInfo h; rootManager := rootManager h;
     initialized := true; logger := logger h |}.

(** An error is one of the protocol, or that of json.Marshal. *)
Inductive HandlerError :=
  | EMCP (e : MCPError)
  | EMarshal.

(** ** What the structs are in JSON *)

Definition field (name : string) (present : bool) (v : Value) : list (string * Value) :=
  if present then [(name, v)] else [].

Definition serverValue (i : ServerInfo) : Value :=
  VMap [("name", VString (ServerName i)); ("version", VString (ServerVersion i))].

Definition listChangedValue (b : bool) : Value := VMap (field "listChanged" b (VBool b)).

Definition optField {A} (name : string) (f : A → Value) (o : option A) : list (string * Value) :=
  match o with Some a => [(name, f a)] | None => [] end.

Definition emptyObject (_ : unit) : Value := VMap [].

Definition capabilitiesValue (c : CapabilitiesOpts) : Value :=
  VMap (optField "resources" (λ o, VMap (field "listChanged" o.1 (VBool o.1) ++
                                         field "subscribe" o.2 (VBool o.2))) (Resources c) ++
        optField "tools" listChangedValue (Tools c) ++
        optField "prompts" listChangedValue (Prompts c) ++
        optField "sampling" emptyObject (Sampling c) ++
        optField "logging" emptyObject (Logging c) ++
        optField "roots" listChangedValue (Protocol.Roots c) ++
        optField "elicitation" emptyObject (Elicitation c) ++
        optField "completions" emptyObject (Completions c)).

Definition rootValue (r : Root) : Value :=
  VMap (("uri", VString (URI r)) ::
        field "name" (negb (String.eqb (Name r) "")) (VString (Name r))).

Definition initializeValue (r : InitializeResult) : Value :=
  VMap ([("protocolVersion", VString (ResultVersion r)); ("serverInfo", serverValue (ResultServer r));
         ("capabilities", capabilitiesValue (ResultCapabilities r))] ++
        field "instructions" (negb (String.eqb (Instructions r) "")) (VString (Instructions r)) ++
        field "roots" (bool_decide (ResultRoots r ≠ [])) (VSlice (rootValue <$> ResultRoots r))).

Definition rootsListValue (roots : list Root) : Value :=
  VMap [("roots", VSlice (rootValue <$> roots))].

(** [now] in seconds. *)
Definition pingValue (now : Z) : Value :=
  VMap [("status", VString "ok"); ("timestamp", VInt64 now)].

Definition CreateInitializeResponse (info : ServerInfo) (caps : CapabilitiesOpts)
    (roots : list Root) : InitializeResult :=
  {| ResultVersion := MCPVersion; ResultServer := info; ResultCapabilities := caps;
     Instructions := ""; ResultRoots := roots |}.

Definition CreatePingResponse (now : Z) : gmap string Value :=
  {["timestamp" := VInt64 now; "status" := VString "ok"; "version" := VString MCPVersion]}.

(** ** The handler *)

Section handler.
(** url.Parse and json.Marshal, and json.Unmarshal into the types the handler
    reads; [None] is their error. *)
Context (urlParse : string → res string URL) (Marshal : Value → option string)
  (parseInitialize : string → option InitializeParams)
  (parseRootsList : string → option unit)
  (parseObject : string → option (gmap string Value))
  (parseCancelled : string → option (Value * string)).

Definition clientPermissions : RootPermissions :=
  {| Read := true; Write := false; List := true; Watch := false |}.

(** A root that is refused is reported and left out. *)
Definition storeRoots (now : Z) (roots : list Root) (rm : RootManager) : RootManager :=
  foldl (λ rm root, (AddRoot urlParse now root (Some clientPermissions) rm).1) rm roots.

Definition respond (id result : Value) : res HandlerError MCPMessage :=
  match NewResponse Marshal id result None [] with
  | Some msg => Ok msg
  | None => Err EMarshal
  end.

(** [order] is the order in which ListRoots ranges over the roots, [wd] the
    working directory.  The version the client asks for is only logged. *)
Definition handleInitialize (now : Z) (wd : option string) (order : list string)
    (params : string) (id : Value) (h : StandardMethodHandler) :
    StandardMethodHandler * res HandlerError MCPMessage :=
  match parseInitialize params with
  | None => (h, Err (EMCP (NewInvalidParams "failed to parse initialize parameters"
                             (VString params))))
  | Some p =>
      let rm := storeRoots now (ClientRoots p) (rootManager h) in
      let rm := if decide (ClientRoots p = []) then (CreateDefaultRoots urlParse now wd rm).1
                else rm in
      let h := setRootManager rm h in
      let result := CreateInitializeResponse (serverInfo h) (capabilities h)
                      (ListRoots order (rootManager h)) in
      (setInitialized h, respond id (initializeValue result))
  end.

Definition notInitialized : HandlerError := EMCP (NewStateError "initialized" "not_initialized").

(** A call of the logger, which panics if it is nil. *)
Definition log (h : StandardMethodHandler) : option unit := if logger h then Some tt else None.

(** [None] is a panic. *)
Definition handleInitialized (params : string) (h : StandardMethodHandler) :
    option (res HandlerError unit) :=
  if negb (initialized h) then Some (Err notInitialized)
  else
    _ ← (if decide (params = "") then Some tt
         else match parseObject params with
              | None => log h
              | Some initParams => log h
              end);
    _ ← log h;
    Some (Ok tt).

Definition handlePing (now : Z) (id : Value) : res HandlerError MCPMessage :=
  respond id (pingValue now).

Definition handleRootsList (order : list string) (params : string) (id : Value)
    (h : StandardMethodHandler) : res HandlerError MCPMessage :=
  if negb (initialized h) then Err notInitialized
  else if bool_decide (params ≠ "") && negb (isSome (parseRootsList params))
  then Err (EMCP (NewInvalidParams "failed to parse roots/list parameters" (VString params)))
  else respond id (rootsListValue (ListRoots order (rootManager h))).

(** Nothing is cancelled: the notification is acknowledged. *)
Definition handleCancelled (params : string) : res HandlerError unit :=
  match parseCancelled params with
  | None => Err (EMCP (NewInvalidParams "failed to parse cancel parameters" (VString params)))
  | Some _ => Ok tt
  end.

Definition HandleStandardMethod (now : Z) (wd : option string) (order : list string)
    (method params : string) (id : Value) (h : StandardMethodHandler) :
    StandardMethodHandler * res HandlerError MCPMessage :=
  if decide (method = "initialize") then handleInitialize now wd order params id h
  else if decide (method = "ping") then (h, handlePing now id)
  else if decide (method = "roots/list") then (h, handleRootsList order params id h)
  else (h, Err (EMCP (NewMethodNotFound method))).

Definition HandleStandardNotification (method params : string) (h : StandardMethodHandler) :
    option (res HandlerError unit) :=
  if decide (method = "notifications/initialized") then handleInitialized params h
  else if decide (method = "notifications/cancelled") then Some (handleCancelled params)
  else Some (Err (EMCP (NewMethodNotFound method))).
End handler.

Definition IsInitialized (h : StandardMethodHandler) : bool := initialized h.
Definition GetCapabilities (h : StandardMethodHandler) : CapabilitiesOpts := capabilities h.
Definition GetServerInfo (h : StandardMethodHandler) : ServerInfo := serverInfo h.
Definition GetRootManager (h : StandardMethodHandler) : RootManager := rootManager h.

(** ** Capabilities *)

(** A capability that is on keeps its options. *)
Definition switch {A} (enabled : bool) (new : A) (old : option A) : option A :=
  if enabled then Some (default new old) else None.

(** The options argument of the code is ignored. *)
Definition SetCapability (capability : string) (enabled : bool) (h : StandardMethodHandler) :
    StandardMethodHandler * res MCPError unit :=
  let c := capabilities h in
  let set r t p s l ro :=
    (setCapabilities {| Resources := r; Tools := t; Prompts := p; Sampling := s; Logging := l;
       Protocol.Roots := ro; Elicitation := Elicitation c; Completions := Completions c |} h,
     Ok tt) in
  let r := Resources c in let t := Tools c in let p := Prompts c in
  let s := Sampling c in let l := Logging c in let ro := Protocol.Roots c in
  if decide (capability = "resources") then set (switch enabled (true, true) r) t p s l ro
  else if decide (capability = "tools") then set r (switch enabled true t) p s l ro
  else if decide (capability = "prompts") then set r t (switch enabled true p) s l ro
  else if decide (capability = "sampling") then set r t p (switch enabled tt s) l ro
  else if decide (capability = "logging") then set r t p s (switch enabled tt l) ro
  else if decide (capability = "roots") then set r t p s l (switch enabled true ro)
  else (h, Err (NewValidationError "capability" (VString capability) "unknown capability")).

(** ** The checks on an initialize request *)

Definition rootField (i : nat) (name : string) : string :=
  "roots[" +:+ Itoa (Z.of_nat i) +:+ "]." +:+ name.

Fixpoint validateRoots (i : nat) (roots : list Root) : res MCPError unit :=
  match roots with
  | [] => Ok tt
  | root :: rest =>
      if decide (URI root = "")
      then Err (NewValidationError (rootField i "uri") (VString (URI root)) "root URI is required")
      else if decide (Name root = "")
      then Err (NewValidationError (rootField i "name") (VString (Name root))
                  "root name is required")
      else validateRoots (S i) rest
  end.

Definition ValidateInitializeRequest (p : InitializeParams) : res MCPError unit :=
  if decide (ProtocolVersion p = "")
  then Err (NewValidationError "protocolVersion" (VString (ProtocolVersion p))
              "protocol version is required")
  else if decide (ClientName (Client p) = "")
  then Err (NewValidationError "clientInfo.name" (VString (ClientName (Client p)))
              "client name is required")
  else if decide (ClientVersion (Client p) = "")
  then Err (NewValidationError "clientInfo.version" (VString (ClientVersion (Client p)))
              "client version is required")
  else validateRoots 0 (ClientRoots p).

(** ** A server and its clients *)

Section server.
Context (urlParse : string → res string URL) (Marshal : Value → option string)
  (parseInitialize : string → option InitializeParams)
  (parseRootsList : string → option unit)
  (parseObject : string → option (gmap string Value))
  (parseCancelled : string → option (Value * string)).

#[local] Notation handle := (HandleStandardMethod urlParse Marshal parseInitialize parseRootsList).

(** What happens to a handler.  [Access] is a check of a path by whoever holds
    its root manager. *)
Inductive Event :=
  | Request (now : Z) (wd : option string) (order : list string) (method params : string)
      (id : Value)
  | Notification (method params : string)
  | Capability (capability : string) (enabled : bool)
  | Access (now : Z) (path operation : string) (order : list string).

Definition handlerStep (h : StandardMethodHandler) (e : Event) : StandardMethodHandler :=
  match e with
  | Request now wd order method params id => (handle now wd order method params id h).1
  | Notification _ _ => h
  | Capability capability enabled => (SetCapability capability enabled h).1
  | Access now path operation order =>
      setRootManager (CheckRootAccess urlParse now path operation order (rootManager h)).1 h
  end.

Definition serve (events : list Event) (h : StandardMethodHandler) : StandardMethodHandler :=
  foldl handlerStep h events.

(** An initialize request whose parameters are read. *)
Definition isHandshake (e : Event) : bool :=
  match e with
  | Request _ _ _ method params _ =>
      bool_decide (method = "initialize") && isSome (parseInitialize params)
  | _ => false
  end.

(** ** The handshake *)

Lemma SetCapability_rest cap b h :
  initialized (SetCapability cap b h).1 = initialized h ∧
  rootManager (SetCapability cap b h).1 = rootManager h ∧
  serverInfo (SetCapability cap b h).1 = serverInfo h ∧
  logger (SetCapability cap b h).1 = logger h.
Proof. unfold SetCapability. by repeat case_decide. Qed.

Lemma handlerStep_initialized h e :
  initialized (handlerStep h e) = initialized h || isHandshake e.
Proof.
  destruct e as [now wd order method params id| |cap b|]; simpl; rewrite ?orb_false_r; try done.
  - unfold HandleStandardMethod. destruct (decide (method = "initialize")) as [->|Hne].
    + rewrite bool_decide_true by done. unfold handleInitialize.
      destruct (parseInitialize params); simpl; by rewrite ?orb_true_r, ?orb_false_r.
    + rewrite bool_decide_false by done. rewrite orb_false_r. by repeat case_decide.
  - by destruct (SetCapability_rest cap b h) as (-> & _).
Qed.

Lemma serve_initialized events h :
  initialized (serve events h) = initialized h || existsb isHandshake events.
Proof.
  revert h. induction events as [|e events IH]; intros h; [by rewrite orb_false_r|].
  change (serve (e :: events) h) with (serve events (handlerStep h e)).
  by rewrite IH, handlerStep_initialized, <-orb_assoc.
Qed.

(** Whatever requests, notifications and changes of capabilities a new
    handler has seen, it refuses the list of its roots, and the notification
    that the handshake is over, with a state error exactly as long as it has
    read no initialize request. *)
Theorem handshake_first info caps lg events now wd order params id :
  let h := serve events (NewStandardMethodHandler info caps lg) in
  ((handle now wd order "roots/list" params id h).2 = Err notInitialized ↔
     existsb isHandshake events = false) ∧
  (HandleStandardNotification parseObject parseCancelled "notifications/initialized" params h =
     Some (Err notInitialized) ↔ existsb isHandshake events = false).
Proof.
  intros h. pose proof (serve_initialized events (NewStandardMethodHandler info caps lg)) as Hi.
  change (serve events _) with h in Hi. simpl in Hi. rewrite <-Hi.
  unfold HandleStandardMethod, handleRootsList, HandleStandardNotification, handleInitialized.
  rewrite !decide_False, !decide_True by done. simpl. destruct (initialized h); simpl; [|done].
  split.
  - split; [|done]. case_match; [done|]. unfold respond. by case_match.
  - split; [|done]. destruct (if decide _ then _ else _) as [[]|]; simpl; [|done].
    by destruct (log h) as [[]|].
Qed.

(** ** The roots *)

Definition readOnly (rm : RootManager) : Prop :=
  ∀ uri e, roots rm !! uri = Some e → hasPermission (Permissions e) "write" = false.

Lemma readOnly_insert uri e rm :
  hasPermission (Permissions e) "write" = false → readOnly rm →
  readOnly (setRoots (insert uri e) rm).
Proof. intros Hw Hrm u e'. simpl. rewrite lookup_insert_Some. intros [[<- <-]|[_ ?]]; [done|by eapply Hrm]. Qed.

Lemma AddRoot_readOnly now root p rm :
  Write p = false → readOnly rm → readOnly (AddRoot urlParse now root (Some p) rm).1.
Proof.
  intros Hp Hrm. unfold AddRoot. case_match; simpl; [|done]. by apply readOnly_insert.
Qed.

Lemma storeRoots_readOnly now l rm : readOnly rm → readOnly (storeRoots urlParse now l rm).
Proof.
  revert rm. induction l as [|root l IH]; intros rm Hrm; [done|].
  apply IH. by apply AddRoot_readOnly.
Qed.

Lemma CreateDefaultRoots_readOnly now wd rm :
  readOnly rm → readOnly (CreateDefaultRoots urlParse now wd rm).1.
Proof.
  intros Hrm. unfold CreateDefaultRoots. destruct wd as [dir|]; [|done].
  set (p := Build_RootPermissions _ _ _ _). set (r := Build_Root _ _).
  pose proof (AddRoot_readOnly now r p rm eq_refl Hrm). by destruct (AddRoot _ _ _ _ _).
Qed.

Lemma CheckRootAccess_readOnly now path op order rm :
  readOnly rm → readOnly (CheckRootAccess urlParse now path op order rm).1.
Proof.
  intros Hrm. unfold CheckRootAccess. destruct (checkRoots _ _ _ _ _ _ _) as [rm' [e|err]] eqn:Hc.
  - apply checkRoots_Ok in Hc as (uri & e0 & _ & Hu & -> & -> & _).
    apply readOnly_insert; [|done]. by apply (Hrm uri e0).
  - by apply checkRoots_Err in Hc as [-> _].
Qed.

Lemma handlerStep_readOnly h e :
  readOnly (rootManager h) → readOnly (rootManager (handlerStep h e)).
Proof.
  intros Hrm. destruct e as [now wd order method params id| |cap b|]; simpl; [|done| |].
  - unfold HandleStandardMethod. repeat case_decide; simpl; try done.
    unfold handleInitialize. destruct (parseInitialize params) as [p|]; simpl; [|done].
    pose proof (storeRoots_readOnly now (ClientRoots p) _ Hrm).
    case_decide; [by apply CreateDefaultRoots_readOnly|done].
  - by destruct (SetCapability_rest cap b h) as (_ & -> & _).
  - by apply CheckRootAccess_readOnly.
Qed.

Lemma serve_readOnly events h :
  readOnly (rootManager h) → readOnly (rootManager (serve events h)).
Proof.
  revert h. induction events as [|e events IH]; intros h Hrm; [done|].
  apply IH. by apply handlerStep_readOnly.
Qed.

Definition writes : list string := ["write"; "create"; "update"; "delete"].

Lemma hasPermission_writes p op :
  op ∈ writes → hasPermission p op = hasPermission p "write".
Proof. intros Hop. destruct p as [p|]; [|done]. unfold hasPermission.
  rewrite (decide_True _ _ Hop). case_decide as Hr; [|done]. subst op.
  unfold writes in Hop. rewrite !elem_of_cons, elem_of_nil in Hop. intuition discriminate.
Qed.

(** C27: nothing a client sends makes a root writable: after any sequence of
    requests, notifications, changes of capabilities and checks, every check of
    a path for writing, creating, updating or deleting is refused, in whatever
    order the roots are visited. *)
Theorem client_roots_read_only info caps lg events now path op order :
  op ∈ writes →
  let h := serve events (NewStandardMethodHandler info caps lg) in
  ∃ e, CheckRootAccess urlParse now path op order (rootManager h) = (rootManager h, Err e).
Proof.
  intros Hop h.
  assert (readOnly (rootManager h)) as Hrm.
  { apply serve_readOnly. intros uri e. simpl. by rewrite lookup_empty. }
  unfold CheckRootAccess. destruct (checkRoots _ _ _ _ _ _ _) as [rm' [e|err]] eqn:Hc.
  - apply checkRoots_Ok in Hc as (uri & e0 & _ & Hu & _ & _ & Hp & _).
    apply Hrm in Hu. by rewrite hasPermission_writes, Hu in Hp.
  - apply checkRoots_Err in Hc as [-> _]. by eexists.
Qed.

(** The roots of a client that are stored: the valid ones, the last of those
    with one URI. *)
Lemma storeRoots_lookup now l rm uri :
  EntryRoot <$> roots (storeRoots urlParse now l rm) !! uri =
  match last (filter (λ r, URI r = uri ∧ is_ok (validateRootURI urlParse uri) = true) l) with
  | Some r => Some r
  | None => EntryRoot <$> roots rm !! uri
  end.
Proof.
  revert rm. induction l as [|r l IH]; intros rm; [done|].
  change (storeRoots urlParse now (r :: l) rm)
    with (storeRoots urlParse now l (AddRoot urlParse now r (Some clientPermissions) rm).1).
  rewrite IH. set (f := filter _ l). rewrite filter_cons. fold f.
  unfold AddRoot. destruct (decide _) as [[Hu Hv]|Hno].
  - rewrite last_cons. destruct (last f); [done|]. rewrite Hu.
    destruct (validateRootURI urlParse uri); [|done]. simpl. by rewrite lookup_insert_eq.
  - destruct (last f); [done|].
    destruct (validateRootURI urlParse (URI r)) eqn:Hv; [|done]. simpl.
    rewrite lookup_insert_ne; [done|]. intros Hu. apply Hno. by rewrite <-Hu, Hv.
Qed.

(** The answer to initialize, and the roots the handler then has: it does not
    depend on the version, the capabilities or the name of the client. *)
Lemma handleInitialize_spec now wd order params id h p :
  parseInitialize params = Some p →
  let rm := storeRoots urlParse now (ClientRoots p) (rootManager h) in
  let rm := if decide (ClientRoots p = []) then (CreateDefaultRoots urlParse now wd rm).1 else rm in
  handle now wd order "initialize" params id h =
    (setInitialized (setRootManager rm h),
     respond Marshal id (initializeValue
       (CreateInitializeResponse (serverInfo h) (capabilities h) (ListRoots order rm)))).
Proof. intros Hp. unfold HandleStandardMethod, handleInitialize. by rewrite Hp. Qed.

(** The version is negotiated softly: a client gets the same answer and
    leaves the same state whatever version, capabilities and name it sends, and
    if it is answered, the answer is a valid response with its own request ID
    whose result states MCPVersion as the protocol version. *)
Theorem version_negotiated now wd order params params' id h p p' :
  parseInitialize params = Some p → parseInitialize params' = Some p' →
  ClientRoots p = ClientRoots p' → id ≠ VNil →
  handle now wd order "initialize" params id h = handle now wd order "initialize" params' id h ∧
  ∀ msg, (handle now wd order "initialize" params id h).2 = Ok msg →
    ValidateMessage msg = Ok tt ∧ ID msg = id ∧
    ∃ fields, Result msg = Marshal (VMap (("protocolVersion", VString MCPVersion) :: fields)).
Proof.
  intros Hp Hp' Hr Hid. rewrite (handleInitialize_spec _ _ _ _ _ _ _ Hp).
  rewrite (handleInitialize_spec _ _ _ _ _ _ _ Hp'), <-Hr. split; [done|].
  intros msg. cbn [snd]. unfold respond, NewResponse. simpl.
  destruct (Marshal (initializeValue _)) as [text|] eqn:Hm; simpl; [|done]. intros [= <-].
  split; [by destruct id|]. split; [done|]. rewrite <-Hm. by eexists.
Qed.

(** A root of an earlier handshake stays until one of the same URI is sent. *)
Lemma roots_accumulate now wd order params id h p uri r :
  parseInitialize params = Some p → ClientRoots p ≠ [] →
  Forall (λ r, URI r ≠ uri) (ClientRoots p) → EntryRoot <$> roots (rootManager h) !! uri = Some r →
  EntryRoot <$>
    roots (rootManager (handle now wd order "initialize" params id h).1) !! uri = Some r.
Proof.
  intros Hp Hne Hu Hr. rewrite (handleInitialize_spec _ _ _ _ _ _ _ Hp). simpl.
  rewrite decide_False by done. rewrite storeRoots_lookup, filter_none; [done|].
  eapply Forall_impl; [exact Hu|]. by intros r' Hno [? _].
Qed.

(** After a handshake the handler holds, under each URI, the last root the
    client sent with that URI if the URI is valid, and otherwise what it held
    before. *)
Theorem handshake_roots now wd order params id h p uri :
  parseInitialize params = Some p → ClientRoots p ≠ [] →
  EntryRoot <$> roots (rootManager (handle now wd order "initialize" params id h).1) !! uri =
  match last (filter (λ r, URI r = uri) (ClientRoots p)) with
  | Some r => if is_ok (validateRootURI urlParse uri) then Some r
              else EntryRoot <$> roots (rootManager h) !! uri
  | None => EntryRoot <$> roots (rootManager h) !! uri
  end.
Proof.
  intros Hp Hne. rewrite (handleInitialize_spec _ _ _ _ _ _ _ Hp). simpl.
  rewrite decide_False by done. rewrite storeRoots_lookup.
  destruct (is_ok (validateRootURI urlParse uri)).
  - by rewrite (list_filter_iff _ (λ r, URI r = uri)) by (intros; split; [by intros [? _]|done]).
  - rewrite filter_none; [simpl; by case_match|]. apply Forall_forall. by intros r _ [_ ?].
Qed.
End server.

(** ** Capabilities *)

Definition switchable : list string :=
  ["resources"; "tools"; "prompts"; "sampling"; "logging"; "roots"].

Lemma switch_isSome {A} b (new : A) old : isSome (switch b new old) = b.
Proof. by destruct b. Qed.

Lemma SetCapability_other cap b h other :
  other ≠ cap →
  hasCapability (capabilities (SetCapability cap b h).1) other = hasCapability (capabilities h) other.
Proof.
  intros Hne%String.eqb_neq. unfold SetCapability.
  repeat (case_decide; [subst; unfold hasCapability; simpl; by rewrite Hne|]). done.
Qed.

Lemma SetCapability_same cap b h :
  cap ∈ switchable → hasCapability (capabilities (SetCapability cap b h).1) cap = b.
Proof.
  intros Hin. unfold switchable in Hin. rewrite !elem_of_cons, elem_of_nil in Hin.
  destruct Hin as [->|[->|[->|[->|[->|[->|[]]]]]]]; unfold SetCapability;
    repeat first [rewrite decide_True by done | rewrite decide_False by done];
    apply switch_isSome.
Qed.

(** Switching one of the six capabilities of the first specification makes
    the server have it, or not have it, and leaves every other one as it was;
    any other name, "elicitation" and "completions" among them, is an error
    that changes nothing. *)
Theorem SetCapability_spec cap b h :
  let h' := (SetCapability cap b h).1 in let r := (SetCapability cap b h).2 in
  (is_ok r = true ↔ cap ∈ switchable) ∧ (cap ∉ switchable → h' = h) ∧
  ∀ other, hasCapability (capabilities h') other =
    if decide (other = cap ∧ cap ∈ switchable) then b else hasCapability (capabilities h) other.
Proof.
  intros h' r. subst h' r. destruct (decide (cap ∈ switchable)) as [Hin|Hout].
  - split_and!; [|done|].
    + split; [done|]. intros _. unfold switchable in Hin.
      rewrite !elem_of_cons, elem_of_nil in Hin. unfold SetCapability. repeat (case_decide; [done|]). naive_solver.
    + intros other. case_decide as Hd.
      * destruct Hd as [-> _]. by apply SetCapability_same.
      * apply SetCapability_other. naive_solver.
  - assert (SetCapability cap b h = (h, Err (NewValidationError "capability" (VString cap)
      "unknown capability"))) as ->.
    { unfold switchable in Hout. unfold SetCapability.
      repeat (case_decide; [subst; exfalso; apply Hout; set_solver|]). done. }
    simpl. split; [done|]. split; [done|]. intros other. by rewrite decide_False by naive_solver.
Qed.

(** ** The checks on an initialize request *)

Definition named (r : Root) : Prop := URI r ≠ "" ∧ Name r ≠ "".

Lemma validateRoots_spec roots i :
  match validateRoots i roots with
  | Ok _ => Forall named roots
  | Err e => ∃ before r after k, roots = before ++ r :: after ∧ Forall named before ∧
      ¬ named r ∧ k = (i + length before)%nat ∧
      e = if decide (URI r = "")
          then NewValidationError (rootField k "uri") (VString "") "root URI is required"
          else NewValidationError (rootField k "name") (VString "") "root name is required"
  end.
Proof.
  revert i. induction roots as [|r roots IH]; intros i; simpl; [done|].
  destruct (decide (URI r = "")) as [Hu|Hu].
  { exists [], r, roots, i. rewrite decide_True, Hu by done. unfold named.
    split_and!; [done|constructor|tauto|simpl; lia|done]. }
  destruct (decide (Name r = "")) as [Hn|Hn].
  { exists [], r, roots, i. rewrite decide_False, Hn by done. unfold named.
    split_and!; [done|constructor|tauto|simpl; lia|done]. }
  specialize (IH (S i)). destruct (validateRoots (S i) roots) as [[]|e]; [by constructor|].
  destruct IH as (before & r' & after & k & -> & Hb & Hr & -> & ->).
  exists (r :: before), r', after, (i + S (length before))%nat.
  replace (S i + length before)%nat with (i + S (length before))%nat by lia.
  split_and!; [done|by constructor|done..].
Qed.

(** An initialize request passes exactly if it states a version (any
    version), the client's name and version and a URI and a name for each root;
    and if only a root is wrong, the error names the first such root. *)
Theorem ValidateInitializeRequest_spec p :
  let complete := ProtocolVersion p ≠ "" ∧ ClientName (Client p) ≠ "" ∧
    ClientVersion (Client p) ≠ "" in
  (ValidateInitializeRequest p = Ok tt ↔ complete ∧ Forall named (ClientRoots p)) ∧
  (∀ before r after, complete → ClientRoots p = before ++ r :: after → Forall named before →
     URI r = "" →
     ValidateInitializeRequest p = Err (NewValidationError (rootField (length before) "uri")
       (VString "") "root URI is required")).
Proof.
  intros complete. unfold ValidateInitializeRequest. subst complete.
  repeat (case_decide; [naive_solver|]).
  pose proof (validateRoots_spec (ClientRoots p) 0) as Hs. split.
  - destruct (validateRoots 0 (ClientRoots p)) as [[]|e]; [naive_solver|].
    destruct Hs as (before & r & after & k & Hc & _ & Hr & _). split; [done|].
    intros [_ Hall]. rewrite Hc, Forall_app, Forall_cons in Hall. naive_solver.
  - intros before r after _ Hc Hb Hu. destruct (validateRoots 0 (ClientRoots p)) as [[]|e].
    + rewrite Hc, Forall_app, Forall_cons in Hs. unfold named in Hs. naive_solver.
    + destruct Hs as (before' & r' & after' & k & Hc' & Hb' & Hr' & -> & ->).
      assert (before' = before ∧ r' = r) as [-> ->].
      { rewrite Hc in Hc'. assert (¬ named r) as Hr by (unfold named; naive_solver).
        clear -Hc' Hb Hb' Hr Hr'. revert before Hc' Hb.
        induction before' as [|x l IH]; intros [|y m] Heq Hm; simplify_eq/=; try done;
          rewrite ?Forall_cons in *; [naive_solver|naive_solver|].
        destruct Hm, Hb'. by edestruct IH as [-> ->]. }
      by rewrite decide_True.
Qed.

(** ** Examples *)

Module StandardExamples.

Definition toyMarshal (v : Value) : option string := Some "{}".

Definition clientCaps : CapabilitiesOpts :=
  {| Resources := None; Tools := None; Prompts := None; Sampling := None; Logging := None;
     Protocol.Roots := None; Elicitation := None; Completions := None |}.

Definition paramsOf (version : string) (roots : list Root) : InitializeParams :=
  {| ProtocolVersion := version; ClientCapabilities := clientCaps;
     Client := {| ClientName := "editor"; ClientVersion := "1.0" |}; ClientRoots := roots |}.

Definition rootA : Root := {| URI := "/work/a"; Name := "a" |}.
Definition rootB : Root := {| URI := "/work/b"; Name := "b" |}.

(** Three texts of parameters. *)
Definition toyParse (params : string) : option InitializeParams :=
  if decide (params = "A") then Some (paramsOf "2025-06-18" [rootA])
  else if decide (params = "A old") then Some (paramsOf "2024-11-05" [rootA])
  else if decide (params = "B") then Some (paramsOf "2025-06-18" [rootB])
  else None.

Definition toyParseAny {A} (v : A) (params : string) : option A := Some v.

Definition info : ServerInfo := {| ServerName := "m8e"; ServerVersion := "1" |}.
Definition new : StandardMethodHandler := NewStandardMethodHandler info clientCaps false.

Definition initialize (params : string) : Event :=
  Request 7 None ["/work/a"; "/work/b"] "initialize" params (VInt 1).

Definition served (events : list Event) : StandardMethodHandler :=
  serve pathURL toyMarshal toyParse (toyParseAny tt) events new.

(** Without a logger the handshake can be begun but not ended: the
    notification of the client makes the handler panic, where initialize
    checks for the nil logger. *)
Lemma nil_logger_panics :
  HandleStandardNotification (toyParseAny ∅) (toyParseAny (VNil, "")) "notifications/initialized"
    "" (served [initialize "A"]) = None.
Proof. done. Qed.

(** The roots a client sees are those of every client before it. *)
Lemma second_client_sees_the_first :
  ListRoots ["/work/a"; "/work/b"] (rootManager (served [initialize "A"; initialize "B"])) =
  [rootA; rootB].
Proof. vm_compute. reflexivity. Qed.

Lemma client_roots_read_only_witness :
  ∃ e, CheckRootAccess pathURL 9 "/work/a/f" "write" ["/work/a"]
         (rootManager (served [initialize "A"])) = (rootManager (served [initialize "A"]), Err e).
Proof.
  apply (client_roots_read_only pathURL toyMarshal toyParse (toyParseAny tt) info clientCaps false
    [initialize "A"] 9 "/work/a/f" "write" ["/work/a"]).
  unfold writes. set_solver.
Defined.

Lemma version_negotiated_witness :
  let handle := HandleStandardMethod pathURL toyMarshal toyParse (toyParseAny tt) 7 None ["/work/a"]
                  "initialize" in
  handle "A" (VInt 1) new = handle "A old" (VInt 1) new ∧
  ∀ msg, (handle "A" (VInt 1) new).2 = Ok msg → ValidateMessage msg = Ok tt ∧ ID msg = VInt 1 ∧
    ∃ fields, Result msg = toyMarshal (VMap (("protocolVersion", VString MCPVersion) :: fields)).
Proof.
  apply (version_negotiated pathURL toyMarshal toyParse (toyParseAny tt) 7 None ["/work/a"]
    "A" "A old" (VInt 1) new (paramsOf "2025-06-18" [rootA]) (paramsOf "2024-11-05" [rootA]));
    done.
Defined.

Lemma handshake_roots_witness :
  EntryRoot <$> roots (rootManager
    (HandleStandardMethod pathURL toyMarshal toyParse (toyParseAny tt) 7 None ["/work/a"]
      "initialize" "A" (VInt 1) new).1) !! "/work/a" = Some rootA.
Proof.
  rewrite (handshake_roots pathURL toyMarshal toyParse (toyParseAny tt) 7 None ["/work/a"]
    "A" (VInt 1) new (paramsOf "2025-06-18" [rootA]) "/work/a"); done.
Defined.

Lemma SetCapability_spec_witness :
  (SetCapability "elicitation" true new).1 = new.
Proof.
  apply (SetCapability_spec "elicitation" true new). unfold switchable. set_solver.
Defined.

Lemma ValidateInitializeRequest_spec_witness :
  ValidateInitializeRequest (paramsOf "any" [rootA; {| URI := ""; Name := "c" |}]) =
    Err (NewValidationError "roots[1].uri" (VString "") "root URI is required").
Proof.
  apply (proj2 (ValidateInitializeRequest_spec
    (paramsOf "any" [rootA; {| URI := ""; Name := "c" |}])) [rootA] {| URI := ""; Name := "c" |} []);
    [done|done| |done].
  by repeat constructor.
Defined.

End StandardExamples.
