(* ===== verification/ChangeNotifications.v ===== *)
(** * Change notifications

    internal/protocol/change_notifications.go: clients are told that the tools or
    the prompts of a server changed, when the hash of its sorted listing did.
    The two halves of the manager, for tools and for prompts, are the same code
    over two types of items, here a section over the type. *)
From S2P Require Import Prelude GoString Protocol.

#[local] Open Scope Z_scope.

Set Default Proof Using "Type*".

(** ** Data *)

Record PromptArgument := {
  arg_Name : string;
  arg_Description : string;
  arg_Required : bool;
}.

Record PromptDefinition := {
  prompt_Name : string;
  prompt_Description : string;
  Arguments_ : list PromptArgument;
}.

Record ToolDefinition := {
  tool_Name : string;
  tool_Description : string;
  InputSchema : gmap string Value;
}.

(** A notification function is told by a number; [LastNotify] is nil for the
    zero time. *)
Record ChangeSubscriber := {
  ClientID : string;
  SessionID : string;
  NotifyFunc : nat;
  Subscribed : Z;
  LastNotify : option Z;
}.

(** Subscribers and hashes for one type of items. *)
Record Changes := {
  subscribers : gmap string ChangeSubscriber;
  hashes : gmap string string;
}.

Record ChangeNotificationManager := {
  tool_changes : Changes;
  prompt_changes : Changes;
}.

Definition NewChangeNotificationManager : ChangeNotificationManager :=
  {| tool_changes := {| subscribers := ∅; hashes := ∅ |};
     prompt_changes := {| subscribers := ∅; hashes := ∅ |} |}.

(** ** Sorting by exchanges *)

Section items.
Context {Item : Type} (Name : Item → string).

(** The loop over [j]: the item at [i] and those after it. *)
Fixpoint exchangePass (x : Item) (ys : list Item) : Item * list Item :=
  match ys with
  | [] => (x, [])
  | y :: ys' =>
      if String.leb (Name x) (Name y)
      then let '(z, r) := exchangePass x ys' in (z, y :: r)
      else let '(z, r) := exchangePass y ys' in (z, x :: r)
  end.

(** The loop over [i], of which there are [n] iterations. *)
Fixpoint exchangeSort (n : nat) (l : list Item) : list Item :=
  match n, l with
  | S n', x :: ys => let '(z, r) := exchangePass x ys in z :: exchangeSort n' r
  | _, _ => l
  end.

(** ** Subscribers *)

(** json.Marshal of a listing, and the hexadecimal MD5 sum of a text. *)
Context (Marshal : list Item → res string string) (md5hex : string → string).

Definition calculateHash (items : list Item) : res string string :=
  jsonData ← Marshal (exchangeSort (length items) items);
  Ok (md5hex jsonData).

Definition subscribe (now : Z) (clientID sessionID : string) (notifyFunc : nat) (c : Changes) :
    Changes :=
  {| subscribers := <[clientID := {| ClientID := clientID; SessionID := sessionID;
                                     NotifyFunc := notifyFunc; Subscribed := now;
                                     LastNotify := None |}]> (subscribers c);
     hashes := hashes c |}.

Definition unsubscribe (clientID : string) (c : Changes) : Changes :=
  {| subscribers := delete clientID (subscribers c); hashes := hashes c |}.

(** Every subscriber is called; [delivered] tells whose function succeeds. *)
Definition notifyAll (now : Z) (delivered : string → bool) (c : Changes) : Changes :=
  {| subscribers := map_imap (λ clientID s,
       Some (if delivered clientID
             then {| ClientID := ClientID s; SessionID := SessionID s; NotifyFunc := NotifyFunc s;
                     Subscribed := Subscribed s; LastNotify := Some now |}
             else s)) (subscribers c);
     hashes := hashes c |}.

(** The clients that are called, in the order of the map, are the second
    component. *)
Definition update (now : Z) (delivered : string → bool) (order : list string)
    (what serverName : string) (items : list Item) (c : Changes) :
    res string (Changes * list string) :=
  match calculateHash items with
  | Err e => Err ("failed to calculate " +:+ what +:+ " hash: " +:+ e)
  | Ok currentHash =>
      let previousHash := hashes c !! serverName in
      if decide (previousHash = Some currentHash) then Ok (c, [])
      else
        let c' := {| subscribers := subscribers c;
                     hashes := <[serverName := currentHash]> (hashes c) |} in
        match previousHash with
        | Some _ => Ok (notifyAll now delivered c', order)
        | None => Ok (c', [])
        end
  end.

Definition cleanup (now maxAge : Z) (c : Changes) : Changes :=
  let cutoff := now - maxAge in
  {| subscribers := delete_if (λ s,
       (Subscribed s <? cutoff) &&
       match LastNotify s with None => true | Some t => t <? cutoff end) (subscribers c);
     hashes := hashes c |}.
End items.

(** ** The manager's operations *)

Definition onTools (f : Changes → Changes) (cnm : ChangeNotificationManager) :
    ChangeNotificationManager :=
  {| tool_changes := f (tool_changes cnm); prompt_changes := prompt_changes cnm |}.

Definition onPrompts (f : Changes → Changes) (cnm : ChangeNotificationManager) :
    ChangeNotificationManager :=
  {| tool_changes := tool_changes cnm; prompt_changes := f (prompt_changes cnm) |}.

Definition SubscribeToToolChanges (now : Z) (clientID sessionID : string) (notifyFunc : nat) :=
  onTools (subscribe now clientID sessionID notifyFunc).

Definition SubscribeToPromptChanges (now : Z) (clientID sessionID : string) (notifyFunc : nat) :=
  onPrompts (subscribe now clientID sessionID notifyFunc).

Definition UnsubscribeFromToolChanges (clientID : string) := onTools (unsubscribe clientID).

Definition UnsubscribeFromPromptChanges (clientID : string) := onPrompts (unsubscribe clientID).

Definition ForceNotifyToolChanges (now : Z) (delivered : string → bool) :=
  onTools (notifyAll now delivered).

Definition ForceNotifyPromptChanges (now : Z) (delivered : string → bool) :=
  onPrompts (notifyAll now delivered).

Definition CleanupInactiveSubscribers (now maxAge : Z) (cnm : ChangeNotificationManager) :
    ChangeNotificationManager :=
  onPrompts (cleanup now maxAge) (onTools (cleanup now maxAge) cnm).

Definition GetToolSubscribers (cnm : ChangeNotificationManager) : gmap string ChangeSubscriber :=
  subscribers (tool_changes cnm).

Definition GetPromptSubscribers (cnm : ChangeNotificationManager) : gmap string ChangeSubscriber :=
  subscribers (prompt_changes cnm).

Section manager.
Context (MarshalTools : list ToolDefinition → res string string).
Context (MarshalPrompts : list PromptDefinition → res string string).
Context (md5hex : string → string).

Definition calculateToolsHash := calculateHash tool_Name MarshalTools md5hex.

Definition calculatePromptsHash := calculateHash prompt_Name MarshalPrompts md5hex.

Definition UpdateTools (now : Z) (delivered : string → bool) (order : list string)
    (serverName : string) (tools : list ToolDefinition) (cnm : ChangeNotificationManager) :
    res string (ChangeNotificationManager * list string) :=
  '(c, called) ← update tool_Name MarshalTools md5hex now delivered order "tools" serverName tools
                   (tool_changes cnm);
  Ok (onTools (λ _, c) cnm, called).

Definition UpdatePrompts (now : Z) (delivered : string → bool) (order : list string)
    (serverName : string) (prompts : list PromptDefinition) (cnm : ChangeNotificationManager) :
    res string (ChangeNotificationManager * list string) :=
  '(c, called) ← update prompt_Name MarshalPrompts md5hex now delivered order "prompts" serverName
                   prompts (prompt_changes cnm);
  Ok (onPrompts (λ _, c) cnm, called).
End manager.

(** ** The sort *)

Section sorted.
Context {Item : Type} (Name : Item → string).

Definition name_le (x y : Item) : Prop := String.le (Name x) (Name y).

#[local] Instance name_le_trans : Transitive name_le.
Proof. intros x y z. unfold name_le. apply transitivity. Qed.

Lemma exchangePass_perm x ys :
  (exchangePass Name x ys).1 :: (exchangePass Name x ys).2 ≡ₚ x :: ys.
Proof.
  revert x. induction ys as [|y ys IH]; intros x; simpl; [done|].
  destruct (String.leb (Name x) (Name y)).
  - specialize (IH x). destruct (exchangePass Name x ys) as [z r]. simpl in *.
    rewrite Permutation_swap, IH. apply Permutation_swap.
  - specialize (IH y). destruct (exchangePass Name y ys) as [z r]. simpl in *.
    by rewrite Permutation_swap, IH.
Qed.

Lemma leb_false_le a b : String.leb a b = false → String.le b a.
Proof.
  intros H. destruct (total String.le a b) as [Hab|]; [|done].
  unfold String.le in Hab. by rewrite H in Hab.
Qed.

(** The first item after a pass has the least name. *)
Lemma exchangePass_least x ys :
  name_le (exchangePass Name x ys).1 x ∧
  Forall (name_le (exchangePass Name x ys).1) (exchangePass Name x ys).2.
Proof.
  revert x. induction ys as [|y ys IH]; intros x; simpl.
  { split; [unfold name_le; reflexivity|constructor]. }
  destruct (String.leb (Name x) (Name y)) eqn:Hxy.
  - destruct (IH x) as [Hx Hr]. destruct (exchangePass Name x ys) as [z r]. simpl in *.
    split; [done|]. constructor; [|done]. trans x; [done|]. unfold name_le, String.le. by rewrite Hxy.
  - apply leb_false_le in Hxy. destruct (IH y) as [Hy Hr].
    destruct (exchangePass Name y ys) as [z r]. simpl in *.
    split; [by trans y|]. constructor; [by trans y|done].
Qed.

Lemma length_exchangePass x ys : length (exchangePass Name x ys).2 = length ys.
Proof. pose proof (Permutation_length (exchangePass_perm x ys)) as H. simpl in H. lia. Qed.

Lemma exchangeSort_perm n l : exchangeSort Name n l ≡ₚ l.
Proof.
  revert l. induction n as [|n IH]; intros [|x ys]; simpl; [done..|].
  pose proof (exchangePass_perm x ys) as Hp. destruct (exchangePass Name x ys) as [z r]. simpl in Hp.
  by rewrite IH.
Qed.

Lemma exchangeSort_sorted n l :
  (length l ≤ n)%nat → StronglySorted name_le (exchangeSort Name n l).
Proof.
  revert l. induction n as [|n IH]; intros [|x ys] Hn; simpl in *; [constructor|lia|constructor|].
  pose proof (exchangePass_least x ys) as [_ Hl]. pose proof (length_exchangePass x ys) as Hlen.
  destruct (exchangePass Name x ys) as [z r]. simpl in *. constructor; [apply IH; lia|].
  by rewrite exchangeSort_perm.
Qed.

(** Listings of differently named items that are permutations of each other are
    sorted alike. *)
Lemma exchangeSort_unique l1 l2 :
  NoDup (Name <$> l1) → l1 ≡ₚ l2 →
  exchangeSort Name (length l1) l1 = exchangeSort Name (length l2) l2.
Proof.
  intros Hnd Hp. apply (StronglySorted_unique_strong name_le).
  - intros x1 x2. rewrite !exchangeSort_perm, <-Hp. intros H1 H2 H12 H21.
    assert (Name x1 = Name x2) as Heq by (by apply (anti_symm String.le)).
    apply list_elem_of_lookup in H1 as [i Hi], H2 as [j Hj].
    assert (i = j) as ->; [|congruence].
    eapply (NoDup_lookup _ i j (Name x1) Hnd); rewrite list_lookup_fmap.
    + by rewrite Hi.
    + by rewrite Hj, Heq.
  - by apply exchangeSort_sorted.
  - by apply exchangeSort_sorted.
  - by rewrite !exchangeSort_perm.
Qed.
End sorted.

(** ** Who is told, and when *)

Section notified.
Context {Item : Type} (Name : Item → string).
Context (Marshal : list Item → res string string) (md5hex : string → string).

(** One operation on the listings and subscribers of one type of items. *)
Inductive change_op :=
  | OpSubscribe (now : Z) (clientID sessionID : string) (notifyFunc : nat)
  | OpUnsubscribe (clientID : string)
  | OpUpdate (now : Z) (delivered : string → bool) (order : list string) (serverName : string)
      (items : list Item)
  | OpForce (now : Z) (delivered : string → bool)
  | OpCleanup (now maxAge : Z).

Definition change_step (what : string) (c : Changes) (op : change_op) : Changes :=
  match op with
  | OpSubscribe now client session f => subscribe now client session f c
  | OpUnsubscribe client => unsubscribe client c
  | OpUpdate now delivered order server items =>
      match update Name Marshal md5hex now delivered order what server items c with
      | Ok (c', _) => c'
      | Err _ => c
      end
  | OpForce now delivered => notifyAll now delivered c
  | OpCleanup now maxAge => cleanup now maxAge c
  end.

Definition change_run (what : string) (ops : list change_op) : Changes :=
  foldl (change_step what) {| subscribers := ∅; hashes := ∅ |} ops.

(** The listing of a server that was last taken in: updates whose listing cannot
    be marshalled do not count. *)
Definition last_listing (server : string) (ops : list change_op) : option (list Item) :=
  last (omap (λ op,
    match op with
    | OpUpdate _ _ _ server' items =>
        if decide (server' = server ∧ is_ok (calculateHash Name Marshal md5hex items) = true)
        then Some items else None
    | _ => None
    end) ops).

Lemma hashes_notifyAll now delivered c : hashes (notifyAll now delivered c) = hashes c.
Proof. done. Qed.

Lemma update_hashes now delivered order what server items c c' called :
  update Name Marshal md5hex now delivered order what server items c = Ok (c', called) →
  ∃ h, calculateHash Name Marshal md5hex items = Ok h ∧ hashes c' = <[server := h]> (hashes c).
Proof.
  unfold update. destruct (calculateHash _ _ _ items) as [h|e]; [|done]. intros H.
  exists h. split; [done|]. case_decide as Hh; [injection H as <- _; by rewrite insert_id|].
  destruct (hashes c !! server); injection H as <- _; done.
Qed.

(** The hash kept for a server is that of its last listing. *)
Lemma hashes_run what ops server :
  hashes (change_run what ops) !! server =
    (l ← last_listing server ops;
     match calculateHash Name Marshal md5hex l with Ok h => Some h | Err _ => None end).
Proof.
  unfold change_run. induction ops as [|op ops IH] using rev_ind; [done|].
  rewrite foldl_snoc. unfold last_listing. rewrite omap_app, last_app. simpl.
  destruct op as [| |now delivered order server' items| |]; try exact IH. simpl.
  destruct (update Name Marshal md5hex now delivered order what server' items _) as [[c' called]|e] eqn:Hu.
  - apply update_hashes in Hu as (h & Hh & ->). rewrite Hh.
    destruct (decide (server' = server)) as [->|Hne].
    + rewrite decide_True by done. simpl. by rewrite lookup_insert_eq, Hh.
    + rewrite decide_False by naive_solver. simpl. by rewrite lookup_insert_ne.
  - assert (is_ok (calculateHash Name Marshal md5hex items) ≠ true) as Hbad.
    { unfold update in Hu. destruct (calculateHash _ _ _ items); [|done].
      repeat case_match; done. }
    rewrite decide_False by naive_solver. exact IH.
Qed.

(** Whether the subscribers are told of a listing: if the server has had another
    one.  Hashes that differ are enough of a reason; equal hashes of different
    listings would be a collision. *)
Lemma update_called what ops now delivered order server items c' called :
  update Name Marshal md5hex now delivered order what server items (change_run what ops) =
    Ok (c', called) →
  NoDup (Name <$> items) →
  match last_listing server ops with
  | None => called = [] ∧ subscribers c' = subscribers (change_run what ops)
  | Some l =>
      (l ≡ₚ items → called = [] ∧ c' = change_run what ops) ∧
      (calculateHash Name Marshal md5hex l ≠ calculateHash Name Marshal md5hex items →
       called = order ∧
       subscribers c' = subscribers (notifyAll now delivered (change_run what ops)))
  end.
Proof.
  intros Hu Hnd. unfold update in Hu.
  destruct (calculateHash Name Marshal md5hex items) as [h|e] eqn:Hh; [|done].
  rewrite hashes_run in Hu. destruct (last_listing server ops) as [l|] eqn:Hl; simpl in Hu.
  - assert (∃ h', calculateHash Name Marshal md5hex l = Ok h') as [h' Hh'].
    { clear Hu. unfold last_listing in Hl. apply last_Some_elem_of, list_elem_of_omap in Hl as (op & _ & Hop).
      destruct op; try done. case_decide as Hd; [|done]. injection Hop as <-.
      destruct Hd as [_ Hd].
      revert Hd. destruct (calculateHash Name Marshal md5hex items0) as [x|]; [by exists x|done]. }
    rewrite Hh' in *. split.
    + intros Hp. assert (h' = h) as ->.
      { unfold calculateHash in Hh, Hh'.
        rewrite (exchangeSort_unique Name l items) in Hh'; [congruence| |done]. by rewrite Hp. }
      rewrite decide_True in Hu by done. by injection Hu as <- <-.
    + intros Hne. rewrite decide_False in Hu by congruence. by injection Hu as <- <-.
  - by injection Hu as <- <-.
Qed.
End notified.
Arguments change_op : clear implicits.

(** ** Runs of the manager *)

Section runs.
Context (MarshalTools : list ToolDefinition → res string string).
Context (MarshalPrompts : list PromptDefinition → res string string).
Context (md5hex : string → string).

Inductive manager_op :=
  | ToolOp (op : change_op ToolDefinition)
  | PromptOp (op : change_op PromptDefinition)
  | CleanupOp (now maxAge : Z).

Definition manager_step (cnm : ChangeNotificationManager) (op : manager_op) :
    ChangeNotificationManager :=
  match op with
  | ToolOp (OpSubscribe now client session f) => SubscribeToToolChanges now client session f cnm
  | ToolOp (OpUnsubscribe client) => UnsubscribeFromToolChanges client cnm
  | ToolOp (OpUpdate now delivered order server tools) =>
      match UpdateTools MarshalTools md5hex now delivered order server tools cnm with
      | Ok (cnm', _) => cnm' | Err _ => cnm end
  | ToolOp (OpForce now delivered) => ForceNotifyToolChanges now delivered cnm
  | PromptOp (OpSubscribe now client session f) => SubscribeToPromptChanges now client session f cnm
  | PromptOp (OpUnsubscribe client) => UnsubscribeFromPromptChanges client cnm
  | PromptOp (OpUpdate now delivered order server prompts) =>
      match UpdatePrompts MarshalPrompts md5hex now delivered order server prompts cnm with
      | Ok (cnm', _) => cnm' | Err _ => cnm end
  | PromptOp (OpForce now delivered) => ForceNotifyPromptChanges now delivered cnm
  | ToolOp (OpCleanup now maxAge) | PromptOp (OpCleanup now maxAge) | CleanupOp now maxAge =>
      CleanupInactiveSubscribers now maxAge cnm
  end.

Definition manager_run (ops : list manager_op) : ChangeNotificationManager :=
  foldl manager_step NewChangeNotificationManager ops.

(** What a run does to the tools, and to the prompts. *)
Definition toolOps (ops : list manager_op) : list (change_op ToolDefinition) :=
  omap (λ op, match op with
              | ToolOp op => Some op
              | PromptOp (OpCleanup now maxAge) | CleanupOp now maxAge => Some (OpCleanup now maxAge)
              | PromptOp _ => None
              end) ops.

Definition promptOps (ops : list manager_op) : list (change_op PromptDefinition) :=
  omap (λ op, match op with
              | PromptOp op => Some op
              | ToolOp (OpCleanup now maxAge) | CleanupOp now maxAge => Some (OpCleanup now maxAge)
              | ToolOp _ => None
              end) ops.

Lemma UpdateTools_changes now delivered order server tools cnm :
  (λ r, (tool_changes r.1, r.2)) <$>
    UpdateTools MarshalTools md5hex now delivered order server tools cnm =
  update tool_Name MarshalTools md5hex now delivered order "tools" server tools (tool_changes cnm).
Proof. unfold UpdateTools. by destruct (update _ _ _ _ _ _ _ _ _ _) as [[c called]|e]. Qed.

Lemma UpdatePrompts_changes now delivered order server prompts cnm :
  (λ r, (prompt_changes r.1, r.2)) <$>
    UpdatePrompts MarshalPrompts md5hex now delivered order server prompts cnm =
  update prompt_Name MarshalPrompts md5hex now delivered order "prompts" server prompts
    (prompt_changes cnm).
Proof. unfold UpdatePrompts. by destruct (update _ _ _ _ _ _ _ _ _ _) as [[c called]|e]. Qed.

(** Each half of the manager sees its own operations. *)
Lemma manager_run_halves ops :
  tool_changes (manager_run ops) = change_run tool_Name MarshalTools md5hex "tools" (toolOps ops) ∧
  prompt_changes (manager_run ops) =
    change_run prompt_Name MarshalPrompts md5hex "prompts" (promptOps ops).
Proof.
  unfold manager_run. induction ops as [|op ops [IHt IHp]] using rev_ind; [done|].
  rewrite foldl_snoc. unfold toolOps, promptOps, change_run. rewrite !omap_app, !foldl_app.
  fold (toolOps ops) (promptOps ops).
  fold (change_run tool_Name MarshalTools md5hex "tools" (toolOps ops)).
  fold (change_run prompt_Name MarshalPrompts md5hex "prompts" (promptOps ops)).
  rewrite <-IHt, <-IHp. destruct op as [[]|[]|]; try by split.
  - simpl. unfold UpdateTools. by destruct (update _ _ _ _ _ _ _ _ _ _) as [[c called]|e].
  - simpl. unfold UpdatePrompts. by destruct (update _ _ _ _ _ _ _ _ _ _) as [[c called]|e].
Qed.

(** The clients subscribed to tool changes are told of a listing of a server
    exactly if the server has had a different listing before: along any run of
    the manager, a first listing and one that only permutes the last one are
    kept quiet, and a listing with another hash makes every subscriber be called
    once, in whatever order the map is visited. *)
Theorem UpdateTools_tells_changes ops now delivered order server tools cnm' called :
  let cnm := manager_run ops in
  UpdateTools MarshalTools md5hex now delivered order server tools cnm = Ok (cnm', called) →
  NoDup (tool_Name <$> tools) → range_order (GetToolSubscribers cnm) order →
  prompt_changes cnm' = prompt_changes cnm ∧
  match last_listing tool_Name MarshalTools md5hex server (toolOps ops) with
  | None => called = []
  | Some l =>
      (l ≡ₚ tools → called = [] ∧ cnm' = cnm) ∧
      (calculateToolsHash MarshalTools md5hex l ≠ calculateToolsHash MarshalTools md5hex tools →
       NoDup called ∧ ∀ client, client ∈ called ↔ is_Some (GetToolSubscribers cnm !! client))
  end.
Proof.
  intros cnm Hu Hnd Hord. destruct (manager_run_halves ops) as [Ht _]. fold cnm in Ht.
  unfold UpdateTools in Hu.
  destruct (update _ _ _ _ _ _ _ _ _ _) as [[c called']|e] eqn:Hc; [|done]. injection Hu as <- <-.
  split; [done|]. rewrite Ht in Hc. apply update_called in Hc; [|done].
  destruct (last_listing _ _ _ _ _) as [l|]; [|apply Hc]. destruct Hc as [Hsame Hdiff]. split.
  - intros Hp. destruct (Hsame Hp) as [-> ->]. split; [done|]. rewrite <-Ht.
    unfold onTools. by destruct cnm.
  - intros Hne. destruct (Hdiff Hne) as [-> _]. split; [by eapply range_order_NoDup|].
    intros client. by apply range_order_elem.
Qed.
End runs.

(** ** An example *)

Definition toyTool (name : string) : ToolDefinition :=
  {| tool_Name := name; tool_Description := ""; InputSchema := ∅ |}.

(** A listing as the names it has; the text is its own hash. *)
Definition toyMarshal (tools : list ToolDefinition) : res string string :=
  Ok (Join (tool_Name <$> tools) ",").

Definition toyOps : list manager_op :=
  [ToolOp (OpSubscribe 0 "ann" "s1" 7);
   ToolOp (OpUpdate 1 (λ _, true) [] "files" [toyTool "read"; toyTool "list"])].

Lemma UpdateTools_tells_changes_witness :
  let run := manager_run toyMarshal (λ _, Err "") (λ s, s) in
  ∃ cnm', UpdateTools toyMarshal (λ s, s) 2 (λ _, true) ["ann"] "files" [toyTool "write"] (run toyOps) =
    Ok (cnm', ["ann"]) ∧ NoDup ["ann"].
Proof.
  intros run.
  destruct (UpdateTools toyMarshal (λ s, s) 2 (λ _, true) ["ann"] "files" [toyTool "write"] (run toyOps))
    as [[cnm' called]|e] eqn:Hu; [|vm_compute in Hu; discriminate Hu].
  assert (called = ["ann"]) as ->.
  { apply (f_equal (λ r, match r with Ok x => x.2 | Err _ => [] end)) in Hu.
    vm_compute in Hu. by symmetry. }
  exists cnm'. split; [done|].
  destruct (UpdateTools_tells_changes toyMarshal (λ _, Err "") (λ s, s) toyOps 2 (λ _, true) ["ann"]
    "files" [toyTool "write"] cnm' ["ann"] Hu) as [_ H].
  - apply NoDup_singleton.
  - assert ((map_to_list (GetToolSubscribers (run toyOps))).*1 = ["ann"]) as Hk
      by (vm_compute; reflexivity).
    unfold run in Hk. unfold range_order. by rewrite Hk.
  - apply H. vm_compute. discriminate.
Defined.

(** An update of prompts leaves the tools alone, and a listing in another order is
    no change. *)
Example reordered_is_quiet :
  let run := manager_run toyMarshal (λ _, Err "") (λ s, s) in
  (λ r, r.2) <$> UpdateTools toyMarshal (λ s, s) 2 (λ _, true) ["ann"] "files"
    [toyTool "list"; toyTool "read"] (run toyOps) = Ok [].
Proof. vm_compute. reflexivity. Qed.
