(* ===== verification/UriTemplates.v ===== *)
(** * URI templates

    internal/protocol/uri_templates.go: parsing RFC 6570 templates and expanding
    them with the values of variables.  A template is proved to be a sequence of
    literals and expressions in one way, its expansion to be the literals with
    the expansions of the expressions between them, and the values in a simple
    expansion to be recoverable from it. *)
From Stdlib Require Import Qcanon.
From S2P Require Import Prelude GoString GoNum GoTime.

#[local] Open Scope nat_scope.

Set Default Proof Using "Type*".

(** ** Data *)

Record VariableSpec := {
  Name : string;
  Modifier : string;
  MaxLength : Z;
}.

Record TemplateExpression := {
  Operator : string;
  Variables : list VariableSpec;
  Raw : string;
  StartPos : nat;
  EndPos : nat;
}.

Record URITemplate := {
  Template : string;
  Expressions : list TemplateExpression;
}.

Inductive TemplateError :=
  | EmptyExpression
  | EmptyVariableList
  | EmptyVariable
  | InvalidPrefixLength (length : string)
  | PrefixLengthRange
  | InvalidVariableName (name : string).

(** ** Escapes *)

Definition hexDigit (n : N) : ascii := chr (if n <? 10 then 48 + n else 55 + n)%N.

(** Bytes that url.QueryEscape leaves as they are. *)
Definition unreserved (c : ascii) : bool :=
  inRange 97 122 c || inRange 65 90 c || inRange 48 57 c ||
  bool_decide (c ∈ ["-"; "_"; "."; "~"]%char).

Definition escapeByte (c : ascii) : string :=
  if unreserved c then byte1 c
  else if Ascii.eqb c " " then "+"
  else String "%" (String (hexDigit (byteN c / 16)) (byte1 (hexDigit (byteN c mod 16)))).

(** url.QueryEscape. *)
Fixpoint QueryEscape (s : string) : string :=
  match s with
  | "" => ""
  | String c s' => escapeByte c +:+ QueryEscape s'
  end.

(** ** Parsing *)

(** The matches of the expression [\{([^}]+)\}] in a template: where they start
    and end, and the text between the braces.  [opened] is the position and the
    text since the brace that a match would start with. *)
Fixpoint scan (opened : option (nat * string)) (pos : nat) (s : string) :
    list (nat * nat * string) :=
  match s with
  | "" => []
  | String c s' =>
      match opened with
      | None => scan (if Ascii.eqb c "{" then Some (pos, "") else None) (S pos) s'
      | Some (start, text) =>
          if Ascii.eqb c "}" then
            if decide (text = "") then scan None (S pos) s'
            else (start, S pos, text) :: scan None (S pos) s'
          else scan (Some (start, text +:+ byte1 c)) (S pos) s'
      end
  end.

Section parsing.
(** unicode.IsLetter or unicode.IsDigit, for runes that are not ASCII. *)
Context (unicodeAlnum : rune → bool).

Definition isAlnum (r : rune) : bool :=
  (if r <? 128
   then ((48 <=? r) && (r <=? 57)) || ((65 <=? r) && (r <=? 90)) || ((97 <=? r) && (r <=? 122))
   else unicodeAlnum r)%N.

Definition isValidVariableName (name : string) : bool :=
  match runes name with
  | [] => false
  | r :: rs =>
      (isAlnum r || (r =? 95)%N) &&
      forallb (λ r, isAlnum r || (r =? 95)%N || (r =? 46)%N) rs
  end.

Definition parseVariableSpec (varSpec : string) : res TemplateError VariableSpec :=
  if decide (varSpec = "") then Err EmptyVariable
  else
    let named modifier name :=
      if isValidVariableName name
      then Ok {| Name := name; Modifier := modifier; MaxLength := 0 |}
      else Err (InvalidVariableName name) in
    if HasSuffix varSpec "*" then named "*" (stake (String.length varSpec - 1) varSpec)
    else
      match Index varSpec ":" with
      | None => named "" varSpec
      | Some idx =>
          let lengthStr := sdrop (S idx) varSpec in
          match Atoi lengthStr with
          | None => Err (InvalidPrefixLength lengthStr)
          | Some maxLength =>
              if (maxLength <=? 0)%Z || (10000 <? maxLength)%Z then Err PrefixLengthRange
              else Ok {| Name := stake idx varSpec; Modifier := ":"; MaxLength := maxLength |}
          end
      end.

Fixpoint parseVariables (l : list string) : res TemplateError (list VariableSpec) :=
  match l with
  | [] => Ok []
  | variable :: rest =>
      varSpec ← parseVariableSpec (TrimSpace variable);
      more ← parseVariables rest;
      Ok (varSpec :: more)
  end.

Definition parseVariableList (varList : string) : res TemplateError (list VariableSpec) :=
  if decide (varList = "") then Err EmptyVariableList
  else parseVariables (SplitByte varList ",").

Definition operators : list string := ["+"; "#"; "."; "/"; ";"; "?"; "&"].

(** The operator and the variables of an expression. *)
Definition parseExpression (expr : string) : res TemplateError (string * list VariableSpec) :=
  if decide (expr = "") then Err EmptyExpression
  else
    let op := match filter (λ op, HasPrefix expr op = true) operators with
              | op :: _ => op
              | [] => ""
              end in
    vars ← parseVariableList (sdrop (String.length op) expr);
    Ok (op, vars).

(** The error is with the text of the expression it is about. *)
Fixpoint parseMatches (matches_ : list (nat * nat * string)) :
    res (string * TemplateError) (list TemplateExpression) :=
  match matches_ with
  | [] => Ok []
  | (start, end_, text) :: rest =>
      match parseExpression text with
      | Err e => Err (text, e)
      | Ok (op, vars) =>
          more ← parseMatches rest;
          Ok ({| Operator := op; Variables := vars; Raw := "{" +:+ text +:+ "}";
                 StartPos := start; EndPos := end_ |} :: more)
      end
  end.

Definition ParseURITemplate (template : string) : res (string * TemplateError) URITemplate :=
  exprs ← parseMatches (scan None 0 template);
  Ok {| Template := template; Expressions := exprs |}.
End parsing.

(** ** Expanding *)

Section expanding.
(** strconv.FormatFloat(v, 'f', -1, 64) and fmt.Sprintf("%v", v). *)
Context (FormatFloat : Qc → string) (Sprint : Value → string).

Definition valueToString (value : Value) : string :=
  match value with
  | VNil => ""
  | VString v => v
  | VInt v | VInt64 v => Itoa v
  | VFloat64 v => FormatFloat v
  | VBool v => if v then "true" else "false"
  | VSlice _ | VMap _ => Sprint value
  end.

Definition encodeReserved (s : string) : string :=
  concatS ((λ r, let char := encodeRune r in
                 if Contains ":/?#[]@!$&'()*+,;=" char then char else QueryEscape char) <$> runes s).

(** The prefix modifier. *)
Definition applyModifier (varSpec : VariableSpec) (strValue : string) : string :=
  if decide (Modifier varSpec = ":") then
    if (0 <? MaxLength varSpec)%Z && (MaxLength varSpec <? Z.of_nat (String.length strValue))%Z
    then stake (Z.to_nat (MaxLength varSpec)) strValue else strValue
  else strValue.

Section variables.
Context (variables : gmap string Value).

(** The values that are not empty, encoded. *)
Definition encodedValues (encode : string → string) (vars : list VariableSpec) : list string :=
  omap (λ varSpec,
    value ← variables !! Name varSpec;
    let strValue := valueToString value in
    if decide (strValue = "") then None
    else Some (encode (applyModifier varSpec strValue))) vars.

Definition expandSimple (vars : list VariableSpec) : string :=
  Join (encodedValues QueryEscape vars) ",".

Definition expandReserved (vars : list VariableSpec) : string :=
  Join (encodedValues encodeReserved vars) ",".

Definition prefixed (prefix expansion : string) : string :=
  if decide (expansion = "") then "" else prefix +:+ expansion.

Definition expandFragment (vars : list VariableSpec) : string :=
  prefixed "#" (expandReserved vars).

Definition expandDot (vars : list VariableSpec) : string :=
  prefixed "." (expandSimple vars).

Definition joined (prefix sep : string) (parts : list string) : string :=
  match parts with [] => "" | _ => prefix +:+ Join parts sep end.

Definition expandSlash (vars : list VariableSpec) : string :=
  joined "/" "/" (encodedValues QueryEscape vars).

(** The values with their names; [empty] is what follows a name without a
    value. *)
Definition namedValues (empty : string) (vars : list VariableSpec) : list string :=
  omap (λ varSpec,
    value ← variables !! Name varSpec;
    let strValue := applyModifier varSpec (valueToString value) in
    Some (if decide (strValue = "") then Name varSpec +:+ empty
          else Name varSpec +:+ "=" +:+ QueryEscape strValue)) vars.

Definition expandSemicolon (vars : list VariableSpec) : string :=
  joined ";" ";" (namedValues "" vars).

Definition expandQuery (vars : list VariableSpec) : string :=
  joined "?" "&" (namedValues "=" vars).

Definition expandQueryAmp (vars : list VariableSpec) : string :=
  let expansion := expandQuery vars in
  if decide (expansion = "") then "" else "&" +:+ sdrop 1 expansion.

Definition expandExpression (op : string) (vars : list VariableSpec) : res string string :=
  match op with
  | "" => Ok (expandSimple vars)
  | "+" => Ok (expandReserved vars)
  | "#" => Ok (expandFragment vars)
  | "." => Ok (expandDot vars)
  | "/" => Ok (expandSlash vars)
  | ";" => Ok (expandSemicolon vars)
  | "?" => Ok (expandQuery vars)
  | "&" => Ok (expandQueryAmp vars)
  | _ => Err ("unsupported operator: " +:+ op)
  end.

(** [result[:start] + expansion + result[end:]]; [None] is a panic. *)
Definition replaceSpan (result : string) (start end_ : nat) (expansion : string) : option string :=
  if (start <=? String.length result) && (end_ <=? String.length result)
  then Some (stake start result +:+ expansion +:+ sdrop end_ result) else None.

Fixpoint expandAll (exprs : list TemplateExpression) (result : string) :
    option (res string string) :=
  match exprs with
  | [] => Some (Ok result)
  | expr :: rest =>
      match expandExpression (Operator expr) (Variables expr) with
      | Err e => Some (Err ("failed to expand expression '" +:+ Raw expr +:+ "': " +:+ e))
      | Ok expansion =>
          result' ← replaceSpan result (StartPos expr) (EndPos expr) expansion;
          expandAll rest result'
      end
  end.

Definition Expand (ut : URITemplate) : option (res string string) :=
  expandAll (reverse (Expressions ut)) (Template ut).
End variables.
End expanding.

(** ** Asking about a template *)

Fixpoint addNames (seen names : list string) : list string :=
  match names with
  | [] => []
  | n :: rest => if decide (n ∈ seen) then addNames seen rest else n :: addNames (n :: seen) rest
  end.

Definition GetVariableNames (ut : URITemplate) : list string :=
  addNames [] (expr ← Expressions ut; Name <$> Variables expr).

Definition validateExpression (expr : TemplateExpression) : res string unit :=
  match Variables expr with
  | [] => Err ("expression '" +:+ Raw expr +:+ "' has no variables")
  | vars => guard_else (forallb (λ v, negb (String.eqb (Name v) "")) vars)
              ("empty variable name in expression '" +:+ Raw expr +:+ "'")
  end.

Fixpoint validateExpressions (exprs : list TemplateExpression) : res string unit :=
  match exprs with
  | [] => Ok tt
  | expr :: rest => _ ← validateExpression expr; validateExpressions rest
  end.

Definition Validate (ut : URITemplate) : res string unit :=
  let openBraces := CountByte (Template ut) "{" in
  let closeBraces := CountByte (Template ut) "}" in
  _ ← guard_else (openBraces =? closeBraces)
        ("mismatched braces: " +:+ Itoa (Z.of_nat openBraces) +:+ " open, " +:+
         Itoa (Z.of_nat closeBraces) +:+ " close");
  validateExpressions (Expressions ut).

Example parse_ex :
  ParseURITemplate (λ _, false) "/a/{x}{?y,z:3}" = Ok {|
    Template := "/a/{x}{?y,z:3}";
    Expressions := [
      {| Operator := ""; Variables := [{| Name := "x"; Modifier := ""; MaxLength := 0 |}];
         Raw := "{x}"; StartPos := 3; EndPos := 6 |};
      {| Operator := "?"; Variables := [{| Name := "y"; Modifier := ""; MaxLength := 0 |};
                                        {| Name := "z"; Modifier := ":"; MaxLength := 3 |}];
         Raw := "{?y,z:3}"; StartPos := 6; EndPos := 14 |}] |}.
Proof. reflexivity. Qed.

(** ** Templates as literals and expressions *)

(** A literal in which no expression starts: each opening brace is followed by a
    closing one at once. *)
Fixpoint closed (s : string) : bool :=
  match s with
  | "" => true
  | String c s' =>
      if Ascii.eqb c "{" then
        match s' with String "}" s'' => closed s'' | _ => false end
      else closed s'
  end.

(** The text between the braces of an expression. *)
Definition expr_ok (e : string) : Prop := e ≠ "" ∧ CountByte e "}" = 0.

(** What may follow the last expression: a literal, and then a brace that is
    never closed. *)
Definition tail_ok (tl : string) : Prop :=
  ∃ a b, tl = a +:+ b ∧ closed a = true ∧ (b = "" ∨ ∃ c, b = String "{" c ∧ CountByte c "}" = 0).

Definition template_text (ps : list (string * string)) (tl : string) : string :=
  foldr (λ p s, p.1 +:+ String "{" (p.2 +:+ String "}" s)) tl ps.

Definition template_ok (ps : list (string * string)) (tl : string) : Prop :=
  Forall (λ p, closed p.1 = true ∧ expr_ok p.2) ps ∧ tail_ok tl.

(** Where the expressions are. *)
Fixpoint positions (pos : nat) (ps : list (string * string)) : list (nat * nat * string) :=
  match ps with
  | [] => []
  | (l, e) :: rest =>
      let start := pos + String.length l in
      let end_ := start + String.length e + 2 in
      (start, end_, e) :: positions end_ rest
  end.

Lemma closed_ind (P : string → Prop) :
  P "" → (∀ s, closed s = true → P s → P (String "{" (String "}" s))) →
  (∀ c s, c ≠ "{"%char → closed s = true → P s → P (String c s)) → ∀ s, closed s = true → P s.
Proof.
  intros H0 H1 H2 s. remember (String.length s) as n eqn:Hn. revert s Hn.
  induction (lt_wf n) as [n _ IH]. intros [|c s] -> Hc; [done|]. simpl in Hc.
  destruct (Ascii.eqb_spec c "{") as [->|Hne].
  - destruct s as [|d s]; [done|].
    assert (d = "}"%char ∧ closed s = true) as [-> Hs].
    { destruct d as [[] [] [] [] [] [] [] []]; naive_solver. }
    apply H1; [done|]. eapply IH; [|done|done]. simpl. lia.
  - apply H2; [done..|]. eapply IH; [|done|done]. simpl. lia.
Qed.

Lemma closed_app a b : closed a = true → closed b = true → closed (a +:+ b) = true.
Proof.
  intros Ha Hb. revert a Ha. apply closed_ind; [done|by intros s _ ?|].
  intros c s Hc _ IH. simpl. by rewrite (proj2 (Ascii.eqb_neq _ _) Hc).
Qed.

Lemma closed_no_brace a : CountByte a "{" = 0 → closed a = true.
Proof.
  induction a as [|c a IH]; simpl; [done|]. destruct (Ascii.eqb c "{"); [lia|]. intros ?. by apply IH.
Qed.

Lemma scan_closed pos l rest :
  closed l = true → scan None pos (l +:+ rest) = scan None (pos + String.length l) rest.
Proof.
  intros Hl. revert pos. pattern l. revert l Hl. apply closed_ind.
  - intros pos. simpl. by rewrite Nat.add_0_r.
  - intros s _ IH pos. simpl. rewrite IH. f_equal. lia.
  - intros c s Hc _ IH pos. simpl. rewrite (proj2 (Ascii.eqb_neq _ _) Hc), IH. f_equal. lia.
Qed.

Lemma scan_open pos start acc e rest :
  CountByte e "}" = 0 → acc +:+ e ≠ "" →
  scan (Some (start, acc)) pos (e +:+ String "}" rest) =
    (start, pos + String.length e + 1, acc +:+ e) :: scan None (pos + String.length e + 1) rest.
Proof.
  revert pos acc. induction e as [|c e IH]; intros pos acc He Hne; simpl in *.
  - rewrite sapp_nil_r in *. rewrite decide_False by done. do 2 f_equal; [f_equal|]; lia.
  - destruct (Ascii.eqb c "}"); [lia|].
    assert ((acc +:+ byte1 c) +:+ e = acc +:+ String c e) as Hacc by (by rewrite <-sapp_assoc).
    rewrite IH by (congruence || done). rewrite Hacc. do 2 f_equal; [f_equal|]; lia.
Qed.

Lemma scan_unclosed pos x c : CountByte c "}" = 0 → scan (Some x) pos c = [].
Proof.
  revert pos x. induction c as [|d c IH]; intros pos [start acc] Hc; simpl in *; [done|].
  destruct (Ascii.eqb d "}"); [lia|]. by apply IH.
Qed.

Lemma scan_tail pos tl : tail_ok tl → scan None pos tl = [].
Proof.
  intros (a & b & -> & Ha & Hb). rewrite scan_closed by done.
  destruct Hb as [->|(c & -> & Hc)]; [done|]. simpl. by apply scan_unclosed.
Qed.

(** Scanning a template finds its expressions. *)
Lemma scan_template pos ps tl :
  template_ok ps tl → scan None pos (template_text ps tl) = positions pos ps.
Proof.
  intros [Hps Htl]. revert pos. induction Hps as [|[l e] ps [Hl [Hne He]] _ IH]; intros pos; simpl.
  - by apply scan_tail.
  - rewrite scan_closed by done. simpl. rewrite scan_open by done. simpl. rewrite IH.
    do 2 f_equal; [f_equal|]; lia.
Qed.

Lemma IndexByte_split s c i :
  IndexByte s c = Some i → ∃ a r, s = a +:+ String c r ∧ CountByte a c = 0.
Proof. intros [Heq Hc]%IndexByte_Some. by exists (stake i s), (sdrop (S i) s). Qed.

(** Every text is a template. *)
Lemma template_exists t : ∃ ps tl, t = template_text ps tl ∧ template_ok ps tl.
Proof.
  remember (String.length t) as n eqn:Hn. revert t Hn.
  induction (lt_wf n) as [n _ IH]. intros t ->.
  destruct (IndexByte t "{") as [i|] eqn:Hi.
  2:{ apply IndexByte_None in Hi. exists [], t. split; [done|]. split; [done|].
      exists t, "". rewrite sapp_nil_r. split_and!; [done|by apply closed_no_brace|by left]. }
  apply IndexByte_split in Hi as (a & r & -> & Ha). apply closed_no_brace in Ha.
  destruct (IndexByte r "}") as [j|] eqn:Hj.
  2:{ apply IndexByte_None in Hj. exists [], (a +:+ String "{" r). split; [done|]. split; [done|].
      exists a, (String "{" r). split_and!; [done..|]. right. by exists r. }
  apply IndexByte_split in Hj as (e & r' & -> & He).
  destruct (IH (String.length r')) with (t := r') as (ps & tl & -> & Hps & Htl);
    [rewrite slength_app; simpl; rewrite slength_app; simpl; lia|done|].
  destruct (decide (e = "")) as [->|Hne].
  2:{ exists ((a, e) :: ps), tl. split; [done|]. split; [|done]. by apply Forall_cons. }
  assert (∀ l, closed l = true → closed (a +:+ String "{" (String "}" l)) = true) as Hlit.
  { intros l Hl. by apply closed_app. }
  destruct Hps as [|[l e] ps [Hl He'] Hps].
  - exists [], (a +:+ String "{" (String "}" tl)). split; [done|]. split; [done|].
    destruct Htl as (x & b & -> & Hx & Hb). exists (a +:+ String "{" (String "}" x)), b.
    split_and!; [by rewrite <-sapp_assoc|by apply Hlit|done].
  - exists ((a +:+ String "{" (String "}" l), e) :: ps), tl.
    split; [simpl; by rewrite <-sapp_assoc|]. split; [|done]. apply Forall_cons. split; [|done].
    split; [by apply Hlit|done].
Qed.

(** ** What expanding gives *)

Section expansion.
Context (unicodeAlnum : rune → bool) (FormatFloat : Qc → string) (Sprint : Value → string).

(** The expressions parsed from a template, with their positions. *)
Fixpoint exprsAt (pos : nat) (ps : list (string * string))
    (xs : list (string * list VariableSpec)) : list TemplateExpression :=
  match ps, xs with
  | (l, e) :: ps', (op, vars) :: xs' =>
      let start := pos + String.length l in
      let end_ := start + String.length e + 2 in
      {| Operator := op; Variables := vars; Raw := "{" +:+ e +:+ "}"; StartPos := start;
         EndPos := end_ |} :: exprsAt end_ ps' xs'
  | _, _ => []
  end.

Definition parses (p : string * string) (x : string * list VariableSpec) : Prop :=
  parseExpression unicodeAlnum p.2 = Ok x.

Lemma parseMatches_positions pos ps :
  match parseMatches unicodeAlnum (positions pos ps) with
  | Ok exprs => ∃ xs, Forall2 parses ps xs ∧ exprs = exprsAt pos ps xs
  | Err (text, e) => text ∈ ps.*2 ∧ parseExpression unicodeAlnum text = Err e
  end.
Proof.
  revert pos. induction ps as [|[l e] ps IH]; intros pos; simpl; [by exists []|].
  destruct (parseExpression unicodeAlnum e) as [[op vars]|err] eqn:He; [|split; [by left|done]].
  specialize (IH (pos + String.length l + String.length e + 2)).
  destruct (parseMatches _ _) as [exprs|[text err]]; simpl.
  - destruct IH as (xs & Hxs & ->). exists ((op, vars) :: xs). split; [|done]. by constructor.
  - destruct IH as [Ht He']. split; [by right|done].
Qed.

(** The operators that are parsed are those that can be expanded. *)
Lemma parseExpression_op e op vars :
  parseExpression unicodeAlnum e = Ok (op, vars) → op = "" ∨ op ∈ operators.
Proof.
  unfold parseExpression. case_decide; [done|]. intros (vs & _ & Hp)%res_bind_Ok.
  injection Hp as <- _.
  destruct (filter _ operators) as [|x l] eqn:Hf; [by left|right].
  assert (x ∈ x :: l) as Hx by by left. rewrite <-Hf in Hx.
  by apply list_elem_of_filter in Hx as [_ ?].
Qed.

Section variables.
Context (variables : gmap string Value).

Definition expansionOf (x : string * list VariableSpec) : string :=
  match expandExpression FormatFloat Sprint variables x.1 x.2 with Ok s => s | Err _ => "" end.

Definition expanded (ps : list (string * string)) (xs : list (string * list VariableSpec))
    (tl : string) : string :=
  foldr (λ px s, px.1.1 +:+ expansionOf px.2 +:+ s) tl (zip ps xs).

Lemma expandExpression_Ok p x :
  parses p x → expandExpression FormatFloat Sprint variables x.1 x.2 = Ok (expansionOf x).
Proof.
  destruct x as [op vars]. intros [->|Hop]%parseExpression_op; [done|]. unfold expansionOf. simpl.
  apply list_elem_of_In in Hop. by repeat destruct Hop as [<-|Hop].
Qed.

Lemma expandAll_app l1 l2 r :
  expandAll FormatFloat Sprint variables (l1 ++ l2) r =
  match expandAll FormatFloat Sprint variables l1 r with
  | Some (Ok r') => expandAll FormatFloat Sprint variables l2 r'
  | x => x
  end.
Proof.
  revert r. induction l1 as [|x l1 IH]; intros r; simpl; [done|].
  destruct (expandExpression _ _ _ _ _); [|done].
  destruct (replaceSpan _ _ _ _); [apply IH|done].
Qed.

Lemma expandAll_exprsAt pre ps xs tl :
  Forall2 parses ps xs →
  expandAll FormatFloat Sprint variables (reverse (exprsAt (String.length pre) ps xs))
    (pre +:+ template_text ps tl) = Some (Ok (pre +:+ expanded ps xs tl)).
Proof.
  intros Hps. revert pre. induction Hps as [|[l e] [op vars] ps xs Hp _ IH]; intros pre; [done|].
  simpl. rewrite reverse_cons, expandAll_app.
  set (pre' := pre +:+ l +:+ String "{" (e +:+ "}")).
  assert (String.length pre' = String.length pre + String.length l + String.length e + 2) as Hlen.
  { unfold pre'. rewrite !slength_app. simpl. rewrite slength_app. simpl. lia. }
  assert (pre +:+ l +:+ String "{" (e +:+ String "}" (template_text ps tl)) =
          pre' +:+ template_text ps tl) as ->.
  { unfold pre'. rewrite <-!sapp_assoc. simpl. by rewrite <-sapp_assoc. }
  rewrite <-Hlen, IH. simpl. pose proof (expandExpression_Ok _ _ Hp) as Hx. simpl in Hx.
  rewrite Hx. unfold replaceSpan.
  rewrite !slength_app, Hlen, !(proj2 (Nat.leb_le _ _)) by lia. simpl. do 2 f_equal.
  assert (stake (String.length pre + String.length l) (pre' +:+ expanded ps xs tl) = pre +:+ l) as ->.
  { rewrite <-slength_app. unfold pre'. rewrite (sapp_assoc pre l), <-sapp_assoc. apply stake_app. }
  rewrite <-Hlen, sdrop_app. by rewrite <-sapp_assoc.
Qed.
End variables.

(** Every template is a sequence of literals and expressions, each text
    between braces being an expression if it is not empty; parsing fails only
    on an expression that is not well-formed; and expanding what was parsed
    never fails or panics: it gives the literals with the expansions of the
    expressions in between, for all values of the variables. *)
Theorem Expand_template template :
  ∃ ps tl, template = template_text ps tl ∧ template_ok ps tl ∧
    match ParseURITemplate unicodeAlnum template with
    | Ok ut => ∃ xs, Forall2 parses ps xs ∧
        ∀ variables, Expand FormatFloat Sprint variables ut =
          Some (Ok (expanded variables ps xs tl))
    | Err (text, e) => text ∈ ps.*2 ∧ parseExpression unicodeAlnum text = Err e
    end.
Proof.
  destruct (template_exists template) as (ps & tl & -> & Hok). exists ps, tl.
  split_and!; [done..|]. unfold ParseURITemplate. rewrite (scan_template 0) by done.
  pose proof (parseMatches_positions 0 ps) as Hp.
  destruct (parseMatches _ _) as [exprs|[text e]]; [|done].
  destruct Hp as (xs & Hxs & ->). exists xs. split; [done|]. intros variables. unfold Expand.
  by apply (expandAll_exprsAt variables "").
Qed.
End expansion.

(** ** Recovering the values *)

Definition hexValue (c : ascii) : option N :=
  (if inRange 48 57 c then Some (byteN c - 48)
   else if inRange 65 70 c then Some (byteN c - 55)
   else if inRange 97 102 c then Some (byteN c - 87)
   else None)%N.

(** url.QueryUnescape. *)
Fixpoint QueryUnescape (s : string) : option string :=
  match s with
  | "" => Some ""
  | String c s' =>
      if Ascii.eqb c "%" then
        match s' with
        | String h (String l rest) =>
            hi ← hexValue h; lo ← hexValue l;
            t ← QueryUnescape rest; Some (String (chr (16 * hi + lo)) t)
        | _ => None
        end
      else t ← QueryUnescape s'; Some (String (if Ascii.eqb c "+" then " "%char else c) t)
  end.

Lemma QueryUnescape_escapeByte c s :
  QueryUnescape (escapeByte c +:+ s) = t ← QueryUnescape s; Some (String c t).
Proof. destruct c as [[] [] [] [] [] [] [] []]; simpl; by destruct (QueryUnescape s). Qed.

Lemma QueryUnescape_Escape s : QueryUnescape (QueryEscape s) = Some s.
Proof.
  induction s as [|c s IH]; [done|]. simpl. by rewrite QueryUnescape_escapeByte, IH.
Qed.

(** No separator is left unescaped. *)
Definition separator (c : ascii) : bool :=
  bool_decide (c ∈ [","; "/"; ";"; "?"; "&"; "="; "#"; "{"; "}"]%char).

Lemma escapeByte_no_separator c d : separator d = true → CountByte (escapeByte c) d = 0.
Proof.
  intros Hd%bool_decide_eq_true%list_elem_of_In.
  repeat destruct Hd as [<-|Hd]; [..|done]; destruct c as [[] [] [] [] [] [] [] []]; reflexivity.
Qed.

Lemma QueryEscape_no_separator s d : separator d = true → CountByte (QueryEscape s) d = 0.
Proof.
  intros Hd. induction s as [|c s IH]; simpl; [done|].
  by rewrite CountByte_app, IH, escapeByte_no_separator.
Qed.

Section values.
Context (FormatFloat : Qc → string) (Sprint : Value → string) (variables : gmap string Value).

(** The texts of the variables that have one, cut as the modifiers say. *)
Definition valueTexts (vars : list VariableSpec) : list string :=
  omap (λ varSpec,
    value ← variables !! Name varSpec;
    let strValue := valueToString FormatFloat Sprint value in
    if decide (strValue = "") then None else Some (applyModifier varSpec strValue)) vars.

Lemma encodedValues_texts encode vars :
  encodedValues FormatFloat Sprint variables encode vars = encode <$> valueTexts vars.
Proof.
  induction vars as [|v vars IH]; simpl; [done|].
  destruct (variables !! Name v); simpl; [|done]. case_decide; simpl; [done|]. by rewrite IH.
Qed.

Lemma decode_values sep l :
  separator sep = true → l ≠ [] →
  mapM QueryUnescape (SplitByte (Join (QueryEscape <$> l) (byte1 sep)) sep) = Some l.
Proof.
  intros Hsep Hl. rewrite SplitByte_Join.
  - apply mapM_Some, Forall2_fmap_l, Forall_Forall2_diag, Forall_true. intros x.
    apply QueryUnescape_Escape.
  - by destruct l.
  - apply Forall_fmap, Forall_true. intros x. by apply QueryEscape_no_separator.
Qed.

(** The values in a simple expansion can be read back: splitting it at the
    commas, or one with the operator / at the slashes, and decoding the parts
    gives the texts of the variables, whatever characters they contain; no
    value can add a part of its own. *)
Theorem expandSimple_decodes vars :
  valueTexts vars ≠ [] →
  mapM QueryUnescape (SplitByte (expandSimple FormatFloat Sprint variables vars) ",") =
    Some (valueTexts vars) ∧
  mapM QueryUnescape
    (tail (SplitByte (expandSlash FormatFloat Sprint variables vars) "/")) =
    Some (valueTexts vars).
Proof.
  intros Hne. unfold expandSimple, expandSlash. rewrite encodedValues_texts.
  split; [by apply (decode_values ",")|].
  destruct (valueTexts vars) as [|x l] eqn:Hv; [done|].
  change (joined "/" "/" (QueryEscape <$> x :: l)) with ("/" +:+ Join (QueryEscape <$> x :: l) "/").
  assert (SplitByte ("/" +:+ Join (QueryEscape <$> x :: l) "/") "/" =
    "" :: SplitByte (Join (QueryEscape <$> x :: l) "/") "/") as Hs by apply (SplitByte_app "").
  rewrite Hs. by apply (decode_values "/").
Qed.
End values.

Lemma expandSimple_decodes_witness :
  let vars := [{| Name := "x"; Modifier := ""; MaxLength := 0 |}] in
  let m : gmap string Value := {[ "x" := VString "a,b/c?" ]} in
  expandSimple (λ _, "") (λ _, "") m vars = "a%2Cb%2Fc%3F" ∧
  mapM QueryUnescape (SplitByte (expandSimple (λ _, "") (λ _, "") m vars) ",") = Some ["a,b/c?"].
Proof.
  intros vars m. split; [reflexivity|].
  by apply (expandSimple_decodes (λ _, "") (λ _, "") m vars).
Defined.

(** ** Where RFC 6570 asks for something else *)

Definition spec_of (name modifier : string) (n : Z) : VariableSpec :=
  {| Name := name; Modifier := modifier; MaxLength := n |}.

(** A space becomes a plus sign, which is not an escape in a path. *)
Example space_is_plus :
  expandSlash (λ _, "") (λ _, "") {[ "x" := VString "a b" ]} [spec_of "x" "" 0] = "/a+b".
Proof. reflexivity. Qed.

(** Values after a dot are separated by commas, and lists are not exploded. *)
Example dot_joins_with_comma :
  expandDot (λ _, "") (λ _, "") {[ "x" := VString "a"; "y" := VString "b" ]}
    [spec_of "x" "" 0; spec_of "y" "" 0] = ".a,b".
Proof. reflexivity. Qed.

(** A prefix counts bytes and can cut a character in two. *)
Example prefix_cuts_characters :
  expandSimple (λ _, "") (λ _, "") {[ "x" := VString (encodeRune 233%N) ]} [spec_of "x" ":" 1] = "%C3".
Proof. reflexivity. Qed.

(** Empty values vanish. *)
Example empty_value_vanishes :
  expandSimple (λ _, "") (λ _, "") {[ "x" := VString "a"; "y" := VString "" ]}
    [spec_of "x" "" 0; spec_of "y" "" 0] = "a".
Proof. reflexivity. Qed.
