(* ===== verification/Resources.v ===== *)
(** * MCP resources

    internal/protocol/resources.go: the resources a server offers, the cache in
    front of them, their embedding into prompts, their transformation and the
    search for them.  Callers and the two maps share resources by pointer, so
    the resources are kept in a store, by address, which the operations change.
    SHA-256, the table of MIME types and the JSON encoder are parameters. *)
From S2P Require Import Prelude GoString GoPath GoNum Protocol UriTemplates.

#[local] Open Scope Z_scope.

Set Default Proof Using "Type*".

(** ** Data *)

(** [None] is the zero time. *)
Record ResourceContentData := {
  DataType : string;
  Content_Data : string;
  DataEncoding : string;
  Hash : string;
  Compression : string;
  LastModified : option Z;
}.

Record ResourcePermissions := {
  MayRead : bool;
  MayWrite : bool;
  MayExecute : bool;
  MayDelete : bool;
  MayShare : bool;
  Roles : list string;
  Users : list string;
}.

Record IndexingConfig := {
  IndexEnabled : bool;
  FullText : bool;
  Keywords : list string;
  Summary : string;
  Searchable : bool;
}.

Record ResourceMetadata := {
  Author : string;
  Version : string;
  Tags : list string;
  Language : string;
  MetaEncoding : string;
  ContentType : string;
  MetaPermissions : option ResourcePermissions;
  Indexing : option IndexingConfig;
  Custom : gmap string Value;
}.

Record ResourceEmbedding := {
  Strategy : string;
  MaxSize : Z;
  EmbedTransform : string;
  EmbedContext : gmap string Value;
  Fallback : string;
}.

(** [TTL] in nanoseconds. *)
Record CacheConfig := {
  CacheEnabled : bool;
  TTL : Z;
  Refreshable : bool;
  CacheTags : list string;
  Key : string;
}.

Record Resource := {
  URI : string;
  Name : string;
  Description : string;
  MimeType : string;
  Size : Z;
  Content : option ResourceContentData;
  Metadata : option ResourceMetadata;
  Annotations : gmap string Value;
  ResourceTemplate : option URITemplate;
  Embedding : option ResourceEmbedding;
  Cache : option CacheConfig;
  Created : option Z;
  Modified : option Z;
  Accessed : option Z;
}.

(** The address of a resource. *)
Definition ptr : Type := nat.

Record CachedResource := {
  CachedPtr : ptr;
  CachedAt : Z;
  ExpiresAt : option Z;
  AccessCount : Z;
  LastAccess : Z;
  CachedTags : list string;
}.

(** The interface: [Transform] takes the time, the resource, the format and the
    options; [None] is a panic. *)
Record ResourceTransformer := {
  GetSupportedFormats : list string;
  Transform : Z → Resource → string → gmap string Value →
    option (res string ResourceContentData);
}.

(** [store] are the resources in memory. *)
Record ResourceManager := {
  store : gmap ptr Resource;
  resources : gmap string ptr;
  cache : gmap string CachedResource;
  transformers : gmap string ResourceTransformer;
}.

Record EmbeddedPromptResource := {
  EmbeddedPtr : ptr;
  Inline : bool;
  EmbeddedTransform : string;
  EmbeddedContext : gmap string Value;
}.

Definition NewResourceManager (σ : gmap ptr Resource) : ResourceManager :=
  {| store := σ; resources := ∅; cache := ∅; transformers := ∅ |}.

Definition setStore (f : gmap ptr Resource → gmap ptr Resource) (rm : ResourceManager) :=
  {| store := f (store rm); resources := resources rm; cache := cache rm;
     transformers := transformers rm |}.

Definition setResources (f : gmap string ptr → gmap string ptr) (rm : ResourceManager) :=
  {| store := store rm; resources := f (resources rm); cache := cache rm;
     transformers := transformers rm |}.

Definition setCache (f : gmap string CachedResource → gmap string CachedResource)
    (rm : ResourceManager) :=
  {| store := store rm; resources := resources rm; cache := f (cache rm);
     transformers := transformers rm |}.

Definition setAccessed (now : Z) (r : Resource) : Resource :=
  {| URI := URI r; Name := Name r; Description := Description r; MimeType := MimeType r;
     Size := Size r; Content := Content r; Metadata := Metadata r; Annotations := Annotations r;
     ResourceTemplate := ResourceTemplate r; Embedding := Embedding r; Cache := Cache r;
     Created := Created r; Modified := Modified r; Accessed := Some now |}.

Definition setHash (hash : string) (c : ResourceContentData) : ResourceContentData :=
  {| DataType := DataType c; Content_Data := Content_Data c; DataEncoding := DataEncoding c;
     Hash := hash; Compression := Compression c; LastModified := LastModified c |}.

(** filepath.Ext: from the last dot of the last element of the path. *)
Definition Ext (path : string) : string :=
  match LastIndexByte path "." with
  | Some i => let ext := sdrop i path in
              if decide (IndexByte ext Separator = None) then ext else ""
  | None => ""
  end.

(** ** Operations *)

Section manager.
Context (hashHex : string → string) (TypeByExtension : string → string).

Definition generateContentHash (content : string) : string := hashHex content.

Definition hashed (c : ResourceContentData) : ResourceContentData :=
  if decide (Hash c = "") then setHash (generateContentHash (Content_Data c)) c else c.

Definition detectMimeType (r : Resource) : string :=
  if decide (MimeType r = "" ∧ URI r ≠ "") then
    let ext := Ext (URI r) in
    if decide (ext ≠ "") then TypeByExtension ext else MimeType r
  else MimeType r.

(** What AddResource writes to the resource it is given. *)
Definition completed (now : Z) (r : Resource) : Resource :=
  {| URI := URI r; Name := Name r; Description := Description r; MimeType := detectMimeType r;
     Size := Size r; Content := hashed <$> Content r; Metadata := Metadata r;
     Annotations := Annotations r; ResourceTemplate := ResourceTemplate r;
     Embedding := Embedding r; Cache := Cache r;
     Created := Some (default now (Created r)); Modified := Some now; Accessed := Accessed r |}.

Definition addToCache (now : Z) (p : ptr) (r : Resource) (rm : ResourceManager) :
    ResourceManager :=
  match Cache r with
  | None => rm
  | Some config =>
      if negb (CacheEnabled config) then rm
      else
        let cacheKey := if decide (Key config ≠ "") then Key config else URI r in
        let expires := if 0 <? TTL config then Some (now + TTL config) else None in
        setCache (insert cacheKey
          {| CachedPtr := p; CachedAt := now; ExpiresAt := expires; AccessCount := 0;
             LastAccess := now; CachedTags := CacheTags config |}) rm
  end.

Definition caches (r : Resource) : bool :=
  match Cache r with Some config => CacheEnabled config | None => false end.

(** [None] is the panic of a nil pointer. *)
Definition AddResource (now : Z) (p : ptr) (rm : ResourceManager) :
    option (ResourceManager * res string unit) :=
  r ← store rm !! p;
  Some (if decide (URI r = "") then (rm, Err "resource URI cannot be empty")
        else
          let r := completed now r in
          let rm := setResources (insert (URI r) p) (setStore (insert p r) rm) in
          (if caches r then addToCache now p r rm else rm, Ok tt)).

Definition isExpired (now : Z) (c : CachedResource) : bool :=
  match ExpiresAt c with Some t => t <? now | None => false end.

Definition getFromCache (now : Z) (uri : string) (rm : ResourceManager) :
    ResourceManager * option CachedResource :=
  match cache rm !! uri with
  | None => (rm, None)
  | Some cached =>
      if isExpired now cached then (setCache (delete uri) rm, None) else (rm, Some cached)
  end.

Definition countAccess (now : Z) (c : CachedResource) : CachedResource :=
  {| CachedPtr := CachedPtr c; CachedAt := CachedAt c; ExpiresAt := ExpiresAt c;
     AccessCount := int64 (AccessCount c + 1); LastAccess := now; CachedTags := CachedTags c |}.

Definition GetResource (now : Z) (uri : string) (rm : ResourceManager) :
    ResourceManager * res string ptr :=
  match getFromCache now uri rm with
  | (rm, Some cached) => (setCache (insert uri (countAccess now cached)) rm, Ok (CachedPtr cached))
  | (rm, None) =>
      match resources rm !! uri with
      | None => (rm, Err ("resource not found: " +:+ uri))
      | Some p => (setStore (alter (setAccessed now) p) rm, Ok p)
      end
  end.

(** Whether a resource is too large to be embedded inline. *)
Definition tooLarge (r : Resource) : option ResourceEmbedding :=
  match Embedding r with
  | Some e => if (0 <? MaxSize e) && (MaxSize e <? Size r) then Some e else None
  | None => None
  end.

(** [clock n] is the time at the [n]-th reading; [None] is a computation that
    goes on when the fuel is spent. *)
Fixpoint EmbedResourceInPrompt (fuel : nat) (clock : nat → Z) (uri strategy : string)
    (options : gmap string Value) (rm : ResourceManager) :
    option (ResourceManager * res string EmbeddedPromptResource) :=
  match fuel with
  | O => None
  | S fuel =>
      match GetResource (clock 0%nat) uri rm with
      | (rm, Err err) => Some (rm, Err ("failed to get resource for embedding: " +:+ err))
      | (rm, Ok p) =>
          let embedded inline transform :=
            Some (rm, Ok {| EmbeddedPtr := p; Inline := inline; EmbeddedTransform := transform;
                            EmbeddedContext := options |}) in
          if decide (strategy = "inline") then
            match store rm !! p ≫= tooLarge with
            | Some e =>
                if decide (Fallback e ≠ "")
                then EmbedResourceInPrompt fuel (λ n, clock (S n)) uri (Fallback e) options rm
                else embedded false ""
            | None => embedded true ""
            end
          else if decide (strategy = "reference") then embedded false ""
          else if decide (strategy = "summary") then embedded false "summary"
          else Some (rm, Err ("unsupported embedding strategy: " +:+ strategy))
      end
  end.

(** The transformer that is taken, in the order the map is ranged over. *)
Definition findTransformer (order : list string) (targetFormat : string) (rm : ResourceManager) :
    option ResourceTransformer :=
  head (filter (λ t, targetFormat ∈ GetSupportedFormats t) (omap (λ n, transformers rm !! n) order)).

Definition TransformResource (now : Z) (order : list string) (uri targetFormat : string)
    (options : gmap string Value) (rm : ResourceManager) :
    option (res string ResourceContentData) :=
  match resources rm !! uri ≫= λ p, store rm !! p with
  | None => Some (Err ("resource not found: " +:+ uri))
  | Some r =>
      match findTransformer order targetFormat rm with
      | Some t => Transform t now r targetFormat options
      | None => Some (Err ("no transformer found for format: " +:+ targetFormat))
      end
  end.

Definition RegisterTransformer (name : string) (t : ResourceTransformer) (rm : ResourceManager) :
    ResourceManager :=
  {| store := store rm; resources := resources rm; cache := cache rm;
     transformers := <[name := t]> (transformers rm) |}.

Definition CleanupCache (now : Z) (rm : ResourceManager) : ResourceManager :=
  setCache (delete_if (isExpired now)) rm.

(** *** Statistics *)

Definition addAccess (n : Z) (c : CachedResource) : Z := int64 (n + AccessCount c).

Definition GetCacheStats (now : Z) (rm : ResourceManager) : gmap string Value :=
  let entries := (map_to_list (cache rm)).*2 in
  {["totalEntries" := VInt (len entries);
    "totalAccess" := VInt64 (foldl addAccess 0 entries);
    "expiredCount" := VInt (len (filter (λ c, isExpired now c = true) entries));
    "resourceCount" := VInt (Z.of_nat (size (resources rm)))]}.

(** *** Search *)

Definition searchText (r : Resource) : string :=
  foldl (λ text tag, text +:+ " " +:+ ToLower tag)
    (ToLower (Name r +:+ " " +:+ Description r))
    match Metadata r with Some m => Tags m | None => [] end.

(** A filter with a size of another type than int64 passes. *)
Definition passesFilter (r : Resource) (key : string) (value : Value) : bool :=
  if decide (key = "mimeType") then bool_decide (iface_eq (VString (MimeType r)) value = Some true)
  else if decide (key = "tag") then
    match Metadata r with
    | None => false
    | Some m => existsb (λ tag, bool_decide (iface_eq (VString tag) value = Some true)) (Tags m)
    end
  else if decide (key = "minSize") then
    match value with VInt64 size => negb (Size r <? size) | _ => true end
  else if decide (key = "maxSize") then
    match value with VInt64 size => negb (size <? Size r) | _ => true end
  else true.

(** A filter that fails decides, so the order of the filters is of no account. *)
Definition matchesSearch (r : Resource) (query : string) (filters : gmap string Value) : bool :=
  (String.eqb query "" || Contains (searchText r) query) &&
  forallb (λ kv, passesFilter r kv.1 kv.2) (map_to_list filters).

Definition Search (order : list string) (query : string) (filters : gmap string Value)
    (rm : ResourceManager) : list ptr :=
  let queryLower := ToLower query in
  filter (λ p, from_option (λ r, matchesSearch r queryLower filters) false (store rm !! p) = true)
    (omap (λ uri, resources rm !! uri) order).
End manager.

(** ** The text transformer *)

(** What convertToJSON puts in the map it encodes. *)
Record JSONView := {
  jsonURI : string;
  jsonName : string;
  jsonDescription : string;
  jsonMimeType : string;
  jsonSize : Z;
  jsonCreated : option Z;
  jsonModified : option Z;
  jsonContent : option ResourceContentData;
  jsonMetadata : option ResourceMetadata;
}.

Definition boolOption (options : gmap string Value) (name : string) (otherwise : bool) : bool :=
  match options !! name with Some (VBool b) => b | _ => otherwise end.

Definition GetTransformationOptions (fromFormat toFormat : string) : gmap string Value :=
  if decide (toFormat = "summary")
  then {["maxLength" := VInt 200; "includeMetadata" := VBool true]}
  else if decide (toFormat = "markdown")
  then {["includeHeaders" := VBool true; "includeMetadata" := VBool false]}
  else if decide (toFormat = "json")
  then {["includeContent" := VBool true; "includeMetadata" := VBool true]}
  else ∅.

Section transformer.
Context (hashHex : string → string) (MarshalIndent : JSONView → option string).

Definition textContent (now : Z) (data : string) : ResourceContentData :=
  {| DataType := "text"; Content_Data := data; DataEncoding := "utf-8"; Hash := hashHex data;
     Compression := ""; LastModified := Some now |}.

(** [s[:n]], with the panic of a negative bound. *)
Definition cut (s : string) (n : Z) : option string :=
  if decide (0 ≤ n ≤ Z.of_nat (String.length s)) then Some (stake (Z.to_nat n) s) else None.

Definition createSummary (now : Z) (r : Resource) (options : gmap string Value) :
    option (res string ResourceContentData) :=
  let maxLength := match options !! "maxLength" with Some (VInt ml) => ml | _ => 200 end in
  let summary := if decide (Description r = "") then Name r else Description r in
  summary ← (if maxLength <? Z.of_nat (String.length summary)
             then (λ s, s +:+ "...") <$> cut summary maxLength else Some summary);
  Some (Ok (textContent now summary)).

Definition convertToMarkdown (now : Z) (r : Resource) (options : gmap string Value) :
    res string ResourceContentData :=
  let nl := byte1 newline +:+ byte1 newline in
  let headers :=
    if boolOption options "includeHeaders" true
    then "# " +:+ Name r +:+ nl +:+
         (if decide (Description r ≠ "") then Description r +:+ nl else "")
    else "" in
  Ok (textContent now
    (headers +:+ match Content r with Some c => Content_Data c | None => "" end)).

Definition jsonView (r : Resource) (options : gmap string Value) : JSONView :=
  {| jsonURI := URI r; jsonName := Name r; jsonDescription := Description r;
     jsonMimeType := MimeType r; jsonSize := Size r; jsonCreated := Created r;
     jsonModified := Modified r;
     jsonContent := if boolOption options "includeContent" true then Content r else None;
     jsonMetadata := if boolOption options "includeMetadata" true then Metadata r else None |}.

Definition convertToJSON (now : Z) (r : Resource) (options : gmap string Value) :
    res string ResourceContentData :=
  match MarshalIndent (jsonView r options) with
  | None => Err "failed to marshal JSON"
  | Some jsonData => Ok (textContent now jsonData)
  end.

Definition textTransform (now : Z) (r : Resource) (targetFormat : string)
    (options : gmap string Value) : option (res string ResourceContentData) :=
  match Content r with
  | None => Some (Err "resource has no content")
  | Some _ =>
      if decide (targetFormat = "summary") then createSummary now r options
      else if decide (targetFormat = "markdown") then Some (convertToMarkdown now r options)
      else if decide (targetFormat = "json") then Some (convertToJSON now r options)
      else Some (Err ("unsupported format: " +:+ targetFormat))
  end.

Definition DefaultTextTransformer : ResourceTransformer :=
  {| GetSupportedFormats := ["summary"; "markdown"; "json"]; Transform := textTransform |}.
End transformer.

(** ** The cache is transparent *)

Section transparency.
Context (hashHex : string → string) (TypeByExtension : string → string).

#[local] Notation add := (AddResource hashHex TypeByExtension).

Inductive Op :=
  | OpAdd (now : Z) (p : ptr)
  | OpGet (now : Z) (uri : string)
  | OpEmbed (fuel : nat) (clock : nat → Z) (uri strategy : string) (options : gmap string Value)
  | OpRegister (name : string) (t : ResourceTransformer)
  | OpCleanup (now : Z).

Definition opStep (rm : ResourceManager) (o : Op) : ResourceManager :=
  match o with
  | OpAdd now p => from_option fst rm (add now p rm)
  | OpGet now uri => (GetResource now uri rm).1
  | OpEmbed fuel clock uri strategy options =>
      from_option fst rm (EmbedResourceInPrompt fuel clock uri strategy options rm)
  | OpRegister name t => RegisterTransformer name t rm
  | OpCleanup now => CleanupCache now rm
  end.

Definition runOps (ops : list Op) (rm : ResourceManager) : ResourceManager := foldl opStep rm ops.

(** The specification: the resource last added under each URI. *)
Definition added (σ : gmap ptr Resource) (m : gmap string ptr) (o : Op) : gmap string ptr :=
  match o with
  | OpAdd _ p => match σ !! p with
                 | Some r => if decide (URI r = "") then m else <[URI r := p]> m
                 | None => m
                 end
  | _ => m
  end.

Definition latest (σ : gmap ptr Resource) (ops : list Op) : gmap string ptr := foldl (added σ) ∅ ops.

(** What of a resource the manager never changes, and what it is cached under. *)
Definition kind (r : Resource) : string * option CacheConfig := (URI r, Cache r).

Definition ownKey (r : Resource) : Prop :=
  ∀ config, Cache r = Some config → Key config = "" ∨ Key config = URI r.

(** Resources are cached under their own URI, and those of one URI are either
    all cached or all not. *)
Definition disciplined (σ : gmap ptr Resource) : Prop :=
  (∀ p r, σ !! p = Some r → ownKey r) ∧
  (∀ p p' r r', σ !! p = Some r → σ !! p' = Some r' → URI r = URI r' → caches r = caches r').

Record coherent (σ : gmap ptr Resource) (rm : ResourceManager) : Prop := {
  co_kind : ∀ p, kind <$> store rm !! p = kind <$> σ !! p;
  co_cache : ∀ uri c, cache rm !! uri = Some c →
    resources rm !! uri = Some (CachedPtr c) ∧
    ∃ r, σ !! CachedPtr c = Some r ∧ URI r = uri ∧ caches r = true;
}.

Lemma kind_facts r r' : kind r = kind r' → URI r = URI r' ∧ Cache r = Cache r' ∧ caches r = caches r'.
Proof. unfold kind, caches. intros [= -> ->]. done. Qed.

(** A manager with the same resources and no other cached ones. *)
Lemma coherent_weaken σ rm rm' :
  (∀ p, kind <$> store rm' !! p = kind <$> store rm !! p) → resources rm' = resources rm →
  (∀ u c, cache rm' !! u = Some c → ∃ c', cache rm !! u = Some c' ∧ CachedPtr c' = CachedPtr c) →
  coherent σ rm → coherent σ rm'.
Proof.
  intros Hs Hr Hsub [Hk Hc]. split.
  - intros p. by rewrite Hs.
  - intros u c (c' & Hu & <-)%Hsub. rewrite Hr. by apply Hc.
Qed.

Lemma kind_alter now p q (σ : gmap ptr Resource) :
  kind <$> alter (setAccessed now) p σ !! q = kind <$> σ !! q.
Proof. rewrite lookup_alter. case_decide; [subst|done]. by destruct (σ !! q). Qed.

Lemma GetResource_coherent σ now uri rm :
  coherent σ rm →
  coherent σ (GetResource now uri rm).1 ∧ resources (GetResource now uri rm).1 = resources rm ∧
  (GetResource now uri rm).2 = match resources rm !! uri with
    | Some p => Ok p | None => Err ("resource not found: " +:+ uri) end.
Proof.
  intros Hco. unfold GetResource, getFromCache.
  destruct (cache rm !! uri) as [c|] eqn:Hu; [destruct (isExpired now c)|]; cbn [fst snd].
  - simpl. destruct (resources rm !! uri) as [p|]; simpl; (split; [|done]);
      (eapply (coherent_weaken σ rm); [intros q; simpl; by rewrite ?kind_alter|done| |exact Hco]);
      simpl; intros u c' [_ ?]%lookup_delete_Some; eauto.
  - destruct (co_cache _ _ Hco _ _ Hu) as [-> _]. split; [|done].
    eapply (coherent_weaken σ rm); [| | |exact Hco]; simpl; try done.
    intros u c'. rewrite lookup_insert_Some. intros [[<- <-]|[_ ?]]; eauto.
  - destruct (resources rm !! uri) as [p|]; simpl; (split; [|done]); [|done].
    eapply (coherent_weaken σ rm); [| | |exact Hco]; simpl; try done; [|eauto].
    intros. apply kind_alter.
Qed.

Lemma EmbedResourceInPrompt_coherent σ fuel clock uri strategy options rm rm' e :
  coherent σ rm → EmbedResourceInPrompt fuel clock uri strategy options rm = Some (rm', e) →
  coherent σ rm' ∧ resources rm' = resources rm.
Proof.
  revert clock strategy rm. induction fuel as [|fuel IH]; intros clock strategy rm Hco; simpl; [done|].
  destruct (GetResource_coherent σ (clock 0%nat) uri rm Hco) as (Hco' & Hr & _).
  destruct (GetResource _ _ _) as [rm1 [p|err]]; [|by intros [= <- <-]]. simpl in Hco', Hr.
  repeat case_decide; try (by intros [= <- <-]).
  destruct (store rm1 !! p ≫= tooLarge) as [em|]; [|by intros [= <- <-]].
  case_decide; [|by intros [= <- <-]].
  intros Hrec. apply IH in Hrec as [? ->]; [|done]. done.
Qed.

Lemma completed_kind now r : kind (completed hashHex TypeByExtension now r) = kind r.
Proof. done. Qed.

Lemma AddResource_coherent σ now p rm :
  disciplined σ → coherent σ rm →
  let rm' := opStep rm (OpAdd now p) in
  coherent σ rm' ∧ resources rm' = added σ (resources rm) (OpAdd now p).
Proof.
  intros [Hown Huni] [Hk Hc]. simpl. unfold AddResource.
  pose proof (Hk p) as Hkp. destruct (store rm !! p) as [r|] eqn:Hr; simpl in *.
  2: { destruct (σ !! p); [done|]. simpl. by split; [|]. }
  destruct (σ !! p) as [r0|] eqn:Hr0; [|done]. injection Hkp as Hu Hca. rewrite <-Hu.
  destruct (decide (URI r = "")); simpl; [by split|].
  set (rc := completed _ _ now r).
  assert (∀ q, kind <$> <[p := rc]> (store rm) !! q = kind <$> σ !! q) as Hk'.
  { intros q. destruct (decide (q = p)) as [->|]; [|by rewrite lookup_insert_ne].
    rewrite lookup_insert_eq, <-Hk, Hr. done. }
  assert (caches rc = caches r0) as Hcr by (unfold caches; simpl; by rewrite Hca).
  assert (caches rc = false → ∀ uri c, cache rm !! uri = Some c →
    <[URI r := p]> (resources rm) !! uri = Some (CachedPtr c) ∧
    ∃ r, σ !! CachedPtr c = Some r ∧ URI r = uri ∧ caches r = true) as Hno.
  { intros Hf uri c Hcu. destruct (Hc uri c Hcu) as (? & r1 & Hr1 & <- & Ht).
    rewrite lookup_insert_ne; [by eauto|]. intros Heq. rewrite Hu in Heq.
    pose proof (Huni _ _ _ _ Hr0 Hr1 Heq). congruence. }
  destruct (caches rc) eqn:Hcc; [|split; [split; [exact Hk'|by apply Hno]|done]].
  unfold addToCache. change (Cache rc) with (Cache r). rewrite Hca.
  unfold caches in Hcr. destruct (Cache r0) as [config|] eqn:Hcfg; [|done]. rewrite <-Hcr. simpl.
  split; [|done].
  assert ((if decide (Key config ≠ "") then Key config else URI r) = URI r) as ->.
  { case_decide; [|done]. destruct (Hown p r0 Hr0 config Hcfg) as [?|Hkey]; [done|congruence]. }
  split; [exact Hk'|]. simpl. intros uri c. rewrite !lookup_insert_Some.
  intros [[<- <-]|[Hne Hcu]].
  - split; [by left|]. exists r0. unfold caches. by rewrite Hcfg.
  - destruct (Hc uri c Hcu). split; [by right|done].
Qed.

Lemma opStep_coherent σ rm o :
  disciplined σ → coherent σ rm →
  coherent σ (opStep rm o) ∧ resources (opStep rm o) = added σ (resources rm) o.
Proof.
  intros Hd Hco. destruct o as [now p|now uri|fuel clock uri strategy options|name t|now].
  - by apply AddResource_coherent.
  - by destruct (GetResource_coherent σ now uri rm Hco) as (? & ? & _).
  - simpl. destruct (EmbedResourceInPrompt _ _ _ _ _ _) as [[rm' e]|] eqn:He; simpl; [|done].
    by eapply EmbedResourceInPrompt_coherent.
  - split; [|done]. by destruct Hco.
  - split; [|done]. eapply (coherent_weaken σ rm); [done|done| |exact Hco].
    intros u c [? _]%delete_if_lookup_Some. eauto.
Qed.

Lemma runOps_coherent σ ops rm m :
  disciplined σ → coherent σ rm → resources rm = m →
  coherent σ (runOps ops rm) ∧ resources (runOps ops rm) = foldl (added σ) m ops.
Proof.
  intros Hd. revert rm m. induction ops as [|o ops IH]; intros rm m Hco <-; [done|].
  destruct (opStep_coherent σ rm o Hd Hco). by apply IH.
Qed.

Lemma coherent_new σ : coherent σ (NewResourceManager σ).
Proof. split; [done|]. intros uri c. simpl. by rewrite lookup_empty. Qed.

(** C26: as long as resources are cached under their own URI, and not cached
    under a URI for one time and uncached under it for another, the cache is
    transparent: whatever was added, read, embedded, registered and cleaned up
    before, and whenever, reading a URI gives the resource last added under
    it, or the error that there is none. *)
Theorem cache_transparent σ ops now uri :
  disciplined σ →
  (GetResource now uri (runOps ops (NewResourceManager σ))).2 =
  match latest σ ops !! uri with
  | Some p => Ok p
  | None => Err ("resource not found: " +:+ uri)
  end.
Proof.
  intros Hd. destruct (runOps_coherent σ ops _ ∅ Hd (coherent_new σ) eq_refl) as [Hco Hr].
  destruct (GetResource_coherent σ now uri _ Hco) as (_ & _ & ->). by rewrite Hr.
Qed.
End transparency.

(** ** Expiry *)

(** Cleaning up removes exactly the expired entries and is invisible: from
    then on every read has the same answer with and without it. *)
Theorem cleanup_invisible now rm :
  (∀ uri c, cache (CleanupCache now rm) !! uri = Some c ↔
     cache rm !! uri = Some c ∧ isExpired now c = false) ∧
  ∀ later uri, now ≤ later →
    (GetResource later uri (CleanupCache now rm)).2 = (GetResource later uri rm).2.
Proof.
  split; [intros uri c; apply delete_if_lookup_Some|].
  intros later uri Hle. unfold GetResource, getFromCache. simpl.
  destruct (cache rm !! uri) as [c|] eqn:Hc.
  - destruct (isExpired now c) eqn:Hn.
    + rewrite (delete_if_lookup_gone _ _ _ c) by done.
      assert (isExpired later c = true) as ->.
      { unfold isExpired in *. destruct (ExpiresAt c); [|done]. lia. }
      simpl. by destruct (resources rm !! uri).
    + rewrite (delete_if_lookup_kept _ _ _ c) by done.
      destruct (isExpired later c); [|done]. simpl. by destruct (resources rm !! uri).
  - rewrite delete_if_lookup_None by done. simpl. by destruct (resources rm !! uri).
Qed.

(** A resource read from the cache is not marked as accessed: its time of
    access is that of the entry. *)
Lemma cached_read_keeps_accessed now uri rm c :
  cache rm !! uri = Some c → isExpired now c = false →
  store (GetResource now uri rm).1 = store rm.
Proof. intros Hc He. unfold GetResource, getFromCache. by rewrite Hc, He. Qed.

(** ** Statistics *)

Lemma filter_fmap {A B} (p : B → bool) (f : A → B) b (l : list A) :
  filter (λ x, p x = b) (f <$> l) = f <$> filter (λ a, p (f a) = b) l.
Proof.
  induction l as [|a l IH]; [done|]. rewrite fmap_cons, !filter_cons, IH. by case_decide.
Qed.

Lemma delete_if_entries {A} (p : A → bool) (m : gmap string A) :
  (map_to_list (delete_if p m)).*2 ≡ₚ filter (λ a, p a = false) (map_to_list m).*2.
Proof.
  rewrite filter_fmap. apply fmap_Permutation.
  apply NoDup_Permutation; [apply NoDup_map_to_list|apply NoDup_filter, NoDup_map_to_list|].
  intros [k a]. rewrite elem_of_map_to_list, list_elem_of_filter, elem_of_map_to_list.
  rewrite delete_if_lookup_Some. simpl. tauto.
Qed.

Lemma filter_split_length {A} (p : A → bool) (l : list A) :
  (length (filter (λ a, p a = true) l) + length (filter (λ a, p a = false) l) = length l)%nat.
Proof.
  induction l as [|a l IH]; [done|]. rewrite !filter_cons.
  destruct (p a); repeat case_decide; simpl; try done; lia.
Qed.

(** The statistics count what the cache holds: cleaning up at the time of
    the count removes as many entries as were counted expired. *)
Theorem stats_count_expired now rm :
  let before := GetCacheStats now rm in
  let after := GetCacheStats now (CleanupCache now rm) in
  ∃ total expired, before !! "totalEntries" = Some (VInt total) ∧
    before !! "expiredCount" = Some (VInt expired) ∧
    after !! "totalEntries" = Some (VInt (total - expired)) ∧
    after !! "expiredCount" = Some (VInt 0).
Proof.
  intros before after. set (entries := (map_to_list (cache rm)).*2).
  pose proof (delete_if_entries (isExpired now) (cache rm)) as Hkept. fold entries in Hkept.
  pose proof (filter_split_length (isExpired now) entries) as Hlen.
  exists (len entries), (len (filter (λ c, isExpired now c = true) entries)).
  split; [done|]. split; [done|]. split.
  - change (after !! "totalEntries")
      with (Some (VInt (len (map_to_list (delete_if (isExpired now) (cache rm))).*2))).
    unfold len. rewrite Hkept. do 2 f_equal. lia.
  - change (after !! "expiredCount") with (Some (VInt (len (filter (λ c, isExpired now c = true)
      (map_to_list (delete_if (isExpired now) (cache rm))).*2)))).
    unfold len. rewrite Hkept, filter_none; [done|].
    apply Forall_forall. intros c [Hc _]%list_elem_of_filter. by rewrite Hc.
Qed.

(** ** Embedding *)

(** Every read of the URI gives the resource, however it is cached. *)
Definition serves (rm : ResourceManager) (uri : string) (p : ptr) : Prop :=
  resources rm !! uri = Some p ∧ ∀ c, cache rm !! uri = Some c → CachedPtr c = p.

Lemma setAccessed_tooLarge now q p (σ : gmap ptr Resource) :
  alter (setAccessed now) q σ !! p ≫= tooLarge = σ !! p ≫= tooLarge.
Proof. rewrite lookup_alter. case_decide; [subst|done]. by destruct (σ !! p). Qed.

Lemma GetResource_serves now uri p rm :
  serves rm uri p →
  ∃ rm', GetResource now uri rm = (rm', Ok p) ∧ serves rm' uri p ∧
    store rm' !! p ≫= tooLarge = store rm !! p ≫= tooLarge.
Proof.
  intros [Hr Hc]. unfold GetResource, getFromCache.
  destruct (cache rm !! uri) as [c|] eqn:Hu; [destruct (isExpired now c)|]; simpl.
  - rewrite Hr. eexists. split; [done|]. split; [|apply setAccessed_tooLarge].
    split; [done|]. simpl. by rewrite lookup_delete_eq.
  - rewrite (Hc c eq_refl). eexists. split; [done|]. split; [|done]. split; [done|]. simpl.
    rewrite lookup_insert_eq. intros c' [= <-]. exact (Hc c eq_refl).
  - rewrite Hr. eexists. split; [done|]. split; [|apply setAccessed_tooLarge].
    split; [done|]. simpl. by rewrite Hu.
Qed.

(** Embedding inline falls back to embedding inline. *)
Definition fallsBackToItself (strategy : string) (large : option ResourceEmbedding) : Prop :=
  strategy = "inline" ∧ Fallback <$> large = Some "inline".

#[export] Instance fallsBackToItself_dec strategy large :
  Decision (fallsBackToItself strategy large).
Proof. unfold fallsBackToItself. apply _. Defined.

(** The strategy that is followed in the end. *)
Definition effective (strategy : string) (large : option ResourceEmbedding) : string :=
  if decide (strategy = "inline") then
    match large with
    | Some e => if decide (Fallback e ≠ "") then Fallback e else "reference"
    | None => strategy
    end
  else strategy.

Definition embedding (p : ptr) (options : gmap string Value) (strategy : string) :
    res string EmbeddedPromptResource :=
  let embedded inline transform :=
    Ok {| EmbeddedPtr := p; Inline := inline; EmbeddedTransform := transform;
          EmbeddedContext := options |} in
  if decide (strategy = "inline") then embedded true ""
  else if decide (strategy = "reference") then embedded false ""
  else if decide (strategy = "summary") then embedded false "summary"
  else Err ("unsupported embedding strategy: " +:+ strategy).

(** One step: what is answered, or the strategy to go on with. *)
Lemma embed_step fuel clock uri p strategy options rm :
  serves rm uri p →
  ∃ rm', serves rm' uri p ∧ store rm' !! p ≫= tooLarge = store rm !! p ≫= tooLarge ∧
    EmbedResourceInPrompt (S fuel) clock uri strategy options rm =
    let s := effective strategy (store rm !! p ≫= tooLarge) in
    if decide (strategy = "inline" ∧ is_Some (store rm !! p ≫= tooLarge) ∧
               Fallback <$> (store rm !! p ≫= tooLarge) ≠ Some "")
    then EmbedResourceInPrompt fuel (λ n, clock (S n)) uri s options rm'
    else Some (rm', embedding p options s).
Proof.
  intros Hs. destruct (GetResource_serves (clock 0%nat) uri p rm Hs) as (rm' & Hg & Hs' & Ht).
  exists rm'. split; [done|]. split; [done|]. simpl. rewrite Hg, Ht. unfold effective, embedding.
  destruct (decide (strategy = "inline")) as [->|Hne].
  - destruct (store rm !! p ≫= tooLarge) as [e|]; simpl.
    + destruct (decide (Fallback e = "")) as [->|Hf].
      * destruct (decide (_ ∧ _)) as [(_ & _ & [])|_]; done.
      * rewrite (decide_True (P := _ ∧ _)) by (split; [done|split; [by eexists|congruence]]).
        by rewrite !(decide_True (P := Fallback e ≠ "")).
    + done.
  - rewrite (decide_False (P := strategy = "inline" ∧ _)) by tauto. by repeat case_decide.
Qed.

(** C28: embedding a resource of the manager ends, at the latest at the second
    read, with the embedding of the strategy asked for or of the fallback of a
    resource too large to be inlined, except when that fallback is to inline
    it: then it goes on for ever. *)
Theorem embed_ends_iff clock uri p strategy options rm :
  serves rm uri p →
  let large := store rm !! p ≫= tooLarge in
  (fallsBackToItself strategy large →
     ∀ fuel, EmbedResourceInPrompt fuel clock uri strategy options rm = None) ∧
  (¬ fallsBackToItself strategy large →
     ∃ rm', EmbedResourceInPrompt 2 clock uri strategy options rm =
       Some (rm', embedding p options (effective strategy large))).
Proof.
  intros Hs large. split.
  - intros Hloop fuel. revert clock rm Hs large Hloop.
    induction fuel as [|fuel IH]; intros clock rm Hs large [-> Hf]; [done|].
    destruct (embed_step fuel clock uri p "inline" options rm Hs) as (rm' & Hs' & Ht & ->).
    fold large in Ht |- *. destruct large as [e|] eqn:Hl; [|done]. simpl in Hf. injection Hf as Hf.
    unfold effective. simpl. rewrite Hf, decide_True by (split_and!; [done|by eexists|done]).
    simpl. apply IH; [done|]. split; [done|]. by rewrite Ht; simpl; rewrite Hf.
  - intros Hno. destruct (embed_step 1 clock uri p strategy options rm Hs) as (rm' & Hs' & Ht & ->).
    cbv zeta. fold large in Ht |- *. case_decide as Hd; [|by eexists].
    destruct Hd as (-> & [e Hl] & Hf). rewrite Hl in Hno, Hf, Ht |- *. simpl in Hf.
    assert (Fallback e ≠ "") as Hf' by congruence.
    assert (effective "inline" (Some e) = Fallback e) as -> by (unfold effective; by rewrite !decide_True).
    assert (Fallback e ≠ "inline") as Hi by (intros Heq; apply Hno; split; [done|simpl; by rewrite Heq]).
    destruct (embed_step 0 (λ n, clock (S n)) uri p (Fallback e) options rm' Hs') as (rm2 & _ & _ & ->).
    cbv zeta. rewrite decide_False by tauto. unfold effective. rewrite decide_False by done.
    by eexists.
Qed.

(** ** Search *)

(** A search finds exactly the resources of the manager whose text holds
    the query, in lower case, and that pass every filter, each under the URIs it
    is stored under; the order of the map only orders the results. *)
Theorem Search_spec order query filters rm p :
  range_order (resources rm) order →
  p ∈ Search order query filters rm ↔
  ∃ uri r, resources rm !! uri = Some p ∧ store rm !! p = Some r ∧
    (ToLower query = "" ∨ Contains (searchText r) (ToLower query) = true) ∧
    ∀ key value, filters !! key = Some value → passesFilter r key value = true.
Proof.
  intros Ho. unfold Search. rewrite list_elem_of_filter, list_elem_of_omap.
  assert (∀ r, matchesSearch r (ToLower query) filters = true ↔
    (ToLower query = "" ∨ Contains (searchText r) (ToLower query) = true) ∧
    ∀ key value, filters !! key = Some value → passesFilter r key value = true) as Hm.
  { intros r. unfold matchesSearch. rewrite andb_true_iff, orb_true_iff, String.eqb_eq, forallb_forall.
    apply and_iff_compat_l. split.
    - intros Hall key value Hk. apply (Hall (key, value)). by apply list_elem_of_In, elem_of_map_to_list.
    - intros Hall [key value] Hk%list_elem_of_In%elem_of_map_to_list. by apply Hall. }
  split.
  - intros [Hp (uri & Hin & Hu)]. destruct (store rm !! p) as [r|] eqn:Hr; [|done].
    simpl in Hp. apply Hm in Hp. exists uri, r. tauto.
  - intros (uri & r & Hu & -> & Hr%Hm). split; [done|]. exists uri. split; [|done].
    apply (range_order_elem _ _ _ Ho). by eexists.
Qed.

(** A size read from JSON is a float64, and filters nothing. *)
Lemma json_sizes_ignored r q :
  passesFilter r "minSize" (VFloat64 q) = true ∧ passesFilter r "maxSize" (VFloat64 q) = true.
Proof. done. Qed.

(** ** Transformation *)

Section transformation.
Context (hashHex : string → string) (MarshalIndent : JSONView → option string).

#[local] Notation transform := (textTransform hashHex MarshalIndent).

Definition maxLengthOf (options : gmap string Value) : Z :=
  match options !! "maxLength" with Some (VInt ml) => ml | _ => 200 end.

Lemma createSummary_spec now r options :
  match createSummary hashHex now r options with
  | None => maxLengthOf options < 0
  | Some res => 0 ≤ maxLengthOf options ∧
      ∃ data, res = Ok (textContent hashHex now data) ∧
        Z.of_nat (String.length data) ≤ maxLengthOf options + 3
  end.
Proof.
  unfold createSummary. fold (maxLengthOf options). set (m := maxLengthOf options).
  set (s := if decide _ then _ else _). destruct (Z.ltb_spec m (Z.of_nat (String.length s))); simpl.
  - unfold cut. case_decide; simpl; [|lia]. split; [lia|]. eexists. split; [done|].
    rewrite slength_app, slength_stake by lia. simpl. lia.
  - split; [lia|]. exists s. split; [done|lia].
Qed.

(** The text transformer never refuses a format it declares: for a
    resource with content it gives a text whose hash is that of its data, or the
    error of the JSON encoder, or it panics, exactly when asked for a summary
    with a negative maximal length.  A summary has at most three bytes more
    than that length, and Markdown ends in the data of the resource. *)
Theorem textTransform_spec now r targetFormat options c :
  Content r = Some c →
  targetFormat ∈ GetSupportedFormats (DefaultTextTransformer hashHex MarshalIndent) →
  match transform now r targetFormat options with
  | None => targetFormat = "summary" ∧ maxLengthOf options < 0
  | Some (Err e) => targetFormat = "json" ∧ MarshalIndent (jsonView r options) = None ∧
      e = "failed to marshal JSON"
  | Some (Ok d) =>
      DataType d = "text" ∧ Hash d = hashHex (Content_Data d) ∧ LastModified d = Some now ∧
      (targetFormat = "summary" → 0 ≤ maxLengthOf options ∧
         Z.of_nat (String.length (Content_Data d)) ≤ maxLengthOf options + 3) ∧
      (targetFormat = "markdown" → ∃ headers, Content_Data d = headers +:+ Content_Data c)
  end.
Proof.
  intros Hc Hf. simpl in Hf. rewrite !elem_of_cons, elem_of_nil in Hf.
  unfold textTransform. rewrite Hc. destruct Hf as [->|[->|[->|[]]]];
    repeat first [rewrite decide_True by done | rewrite decide_False by done].
  - pose proof (createSummary_spec now r options) as Hs.
    destruct (createSummary _ _ _ _) as [res|]; [|done].
    destruct Hs as (? & data & -> & ?). by simpl.
  - simpl. split_and!; try done. intros _. rewrite Hc. by eexists.
  - unfold convertToJSON. by destruct (MarshalIndent _).
Qed.

(** With no other transformer, TransformResource is the text transformer on
    the three formats, and an error on any other. *)
Lemma TransformResource_default now uri p r targetFormat options rm :
  resources rm !! uri = Some p → store rm !! p = Some r →
  transformers rm = {["text" := DefaultTextTransformer hashHex MarshalIndent]} →
  TransformResource now ["text"] uri targetFormat options rm =
  if decide (targetFormat ∈ ["summary"; "markdown"; "json"])
  then transform now r targetFormat options
  else Some (Err ("no transformer found for format: " +:+ targetFormat)).
Proof.
  intros Hu Hr Ht. unfold TransformResource, findTransformer. rewrite Hu. simpl. rewrite Hr, Ht. simpl.
  rewrite lookup_singleton_eq. simpl. rewrite filter_cons. simpl. by case_decide.
Qed.
End transformation.

(** ** Examples *)

Module ResourceExamples.

Definition toyHash (s : string) : string := "#" +:+ s.
Definition toyTypes (ext : string) : string := if decide (ext = ".md") then "text/markdown" else "".
Definition noJSON (v : JSONView) : option string := None.

Definition plain (uri name : string) : Resource :=
  {| URI := uri; Name := name; Description := ""; MimeType := ""; Size := 5; Content := None;
     Metadata := None; Annotations := ∅; ResourceTemplate := None; Embedding := None;
     Cache := None; Created := None; Modified := None; Accessed := None |}.

Definition withCache (ttl : Z) (key : string) (r : Resource) : Resource :=
  {| URI := URI r; Name := Name r; Description := Description r; MimeType := MimeType r;
     Size := Size r; Content := Content r; Metadata := Metadata r; Annotations := Annotations r;
     ResourceTemplate := ResourceTemplate r; Embedding := Embedding r;
     Cache := Some {| CacheEnabled := true; TTL := ttl; Refreshable := false; CacheTags := [];
                      Key := key |};
     Created := Created r; Modified := Modified r; Accessed := Accessed r |}.

Definition withFallback (fallback : string) (r : Resource) : Resource :=
  {| URI := URI r; Name := Name r; Description := Description r; MimeType := MimeType r;
     Size := Size r; Content := Content r; Metadata := Metadata r; Annotations := Annotations r;
     ResourceTemplate := ResourceTemplate r;
     Embedding := Some {| Strategy := "inline"; MaxSize := 4; EmbedTransform := "";
                          EmbedContext := ∅; Fallback := fallback |};
     Cache := Cache r; Created := Created r; Modified := Modified r; Accessed := Accessed r |}.

Definition withData (data hash : string) (r : Resource) : Resource :=
  {| URI := URI r; Name := Name r; Description := Description r; MimeType := MimeType r;
     Size := Size r;
     Content := Some {| DataType := "text"; Content_Data := data; DataEncoding := "utf-8";
                        Hash := hash; Compression := ""; LastModified := None |};
     Metadata := Metadata r; Annotations := Annotations r; ResourceTemplate := ResourceTemplate r;
     Embedding := Embedding r; Cache := Cache r; Created := Created r; Modified := Modified r;
     Accessed := Accessed r |}.

Definition after (σ : gmap ptr Resource) (ops : list Op) : ResourceManager :=
  runOps toyHash toyTypes ops (NewResourceManager σ).

(** A resource that replaces a cached one and is not cached itself is not
    served: the old one is, as long as the entry lives, without a TTL for ever. *)
Lemma stale_copy_served now :
  (GetResource now "r" (after {[1%nat := withCache 0 "" (plain "r" "old"); 2%nat := plain "r" "new"]}
     [OpAdd 7 1%nat; OpAdd 8 2%nat])).2 = Ok 1%nat.
Proof. done. Qed.

(** A cache key is looked up as a URI: the resource with the key is never read
    through it, and it is served in place of the one that has that URI. *)
Lemma key_serves_another now :
  (GetResource now "b" (after {[1%nat := withCache 0 "b" (plain "a" "A"); 2%nat := plain "b" "B"]}
     [OpAdd 7 2%nat; OpAdd 8 1%nat])).2 = Ok 1%nat.
Proof. done. Qed.

(** The hash of a resource added again with other data is that of the old data. *)
Lemma stale_hash :
  (λ r, Hash <$> Content r) <$>
    store (after {[1%nat := withData "new" "#old" (plain "r" "R")]} [OpAdd 7 1%nat]) !! 1%nat =
  Some (Some "#old").
Proof. vm_compute. reflexivity. Qed.

Definition docs : gmap ptr Resource :=
  {[1%nat := withCache 10 "" (plain "docs/a.md" "A"); 2%nat := withCache 10 "" (plain "docs/a.md" "A2")]}.

Lemma docs_disciplined : disciplined docs.
Proof.
  assert (∀ p r, docs !! p = Some r → r = withCache 10 "" (plain "docs/a.md" "A") ∨
    r = withCache 10 "" (plain "docs/a.md" "A2")) as Hd.
  { intros p r. unfold docs. rewrite !lookup_insert_Some, lookup_singleton_Some. naive_solver. }
  split.
  - intros p r [-> | ->]%Hd config [= <-]; by left.
  - intros p p' r r' [-> | ->]%Hd [-> | ->]%Hd _; done.
Defined.

Lemma cache_transparent_witness :
  (GetResource 9 "docs/a.md" (after docs [OpAdd 5 1%nat; OpGet 6 "docs/a.md"; OpAdd 7 2%nat])).2 = Ok 2%nat ∧
  (GetResource 99 "docs/a.md" (after docs [OpAdd 5 1%nat; OpAdd 7 2%nat; OpCleanup 50])).2 = Ok 2%nat.
Proof.
  split; unfold after; rewrite (cache_transparent toyHash toyTypes docs _ _ "docs/a.md" docs_disciplined);
    reflexivity.
Defined.

(** The MIME type is that of the extension. *)
Lemma mime_ex :
  MimeType <$> store (after docs [OpAdd 5 1%nat]) !! 1%nat = Some "text/markdown".
Proof. vm_compute. reflexivity. Qed.

Lemma cleanup_invisible_witness :
  let rm := after docs [OpAdd 5 1%nat] in
  (GetResource 20 "docs/a.md" (CleanupCache 16 rm)).2 = (GetResource 20 "docs/a.md" rm).2.
Proof. apply (cleanup_invisible 16 (after docs [OpAdd 5 1%nat])). lia. Defined.

Definition large (fallback : string) : ResourceManager :=
  after {[1%nat := withFallback fallback (plain "big" "Big")]} [OpAdd 5 1%nat].

Lemma large_serves fallback : serves (large fallback) "big" 1%nat.
Proof. split; [done|]. intros c. by vm_compute. Defined.

Lemma embed_ends_iff_witness :
  (∀ fuel, EmbedResourceInPrompt fuel (λ _, 7) "big" "inline" ∅ (large "inline") = None) ∧
  ∃ rm', EmbedResourceInPrompt 2 (λ _, 7) "big" "inline" ∅ (large "summary") =
    Some (rm', Ok {| EmbeddedPtr := 1%nat; Inline := false; EmbeddedTransform := "summary";
                     EmbeddedContext := ∅ |}).
Proof.
  split.
  - apply (embed_ends_iff (λ _, 7) "big" 1%nat "inline" ∅ (large "inline") (large_serves _)).
    split; reflexivity.
  - apply (embed_ends_iff (λ _, 7) "big" 1%nat "inline" ∅ (large "summary") (large_serves _)).
    intros [_ Hf]. vm_compute in Hf. discriminate Hf.
Defined.

Lemma Search_spec_witness :
  1%nat ∈ Search ["docs/a.md"] "A" {["mimeType" := VString "text/markdown"]} (after docs [OpAdd 5 1%nat]).
Proof.
  apply (Search_spec ["docs/a.md"]); [vm_compute; reflexivity|].
  exists "docs/a.md". eexists. split; [reflexivity|]. split; [vm_compute; reflexivity|].
  split; [right; vm_compute; reflexivity|].
  intros key value [<- <-]%lookup_singleton_Some. vm_compute. reflexivity.
Defined.

Lemma textTransform_spec_witness :
  textTransform toyHash noJSON 7 (withData "text" "" (plain "r" "R")) "markdown" ∅ =
    Some (Ok (textContent toyHash 7 ("# R" +:+ byte1 newline +:+ byte1 newline +:+ "text"))) ∧
  (textTransform toyHash noJSON 7 (withData "text" "" (plain "r" "R")) "summary"
     {["maxLength" := VInt (-1)]} = None → maxLengthOf {["maxLength" := VInt (-1)]} < 0).
Proof.
  split; [vm_compute; reflexivity|]. intros Hn.
  pose proof (textTransform_spec toyHash noJSON 7 (withData "text" "" (plain "r" "R")) "summary"
    {["maxLength" := VInt (-1)]} _ eq_refl ltac:(simpl; set_solver)) as Ht.
  rewrite Hn in Ht. by destruct Ht.
Defined.

(** A negative length makes the summary panic. *)
Lemma negative_summary_panics :
  textTransform toyHash noJSON 7 (withData "text" "" (plain "r" "R")) "summary"
    {["maxLength" := VInt (-1)]} = None.
Proof. vm_compute. reflexivity. Qed.

(** A summary may end within a character. *)
Lemma summary_cuts_a_character :
  Content_Data <$> (textTransform toyHash noJSON 7
      (withData "text" "" (plain "r" (encodeRunes [233%N]))) "summary" {["maxLength" := VInt 1]}
    ≫= λ r, match r with Ok d => Some d | Err _ => None end) =
  Some (byte1 (chr 195) +:+ "...").
Proof. vm_compute. reflexivity. Qed.

End ResourceExamples.
