(* ===== verification/AuditLog.v ===== *)
(** * The audit log

    internal/audit: the entries and their filters (helpers.go), the backend
    interface as a class with its laws (backend.go), the memory backend
    (memory_backend.go), the AuditLogger over any backend (audit.go) and the
    older Logger (logger.go).  The file backend is in AuditFile.v.  Counts and
    indices are 64-bit ints, and a slice expression out of bounds is a panic. *)
From S2P Require Import Prelude GoString GoNum.

#[local] Open Scope Z_scope.

Set Default Proof Using "Type*".

(** ** Entries *)

Record AuditEntry := {
  ID : string;
  Timestamp : Z;
  Event : string;
  UserID : string;
  ClientID : string;
  IP : string;
  UserAgent : string;
  Details : option (gmap string Value);
  Success : bool;
  EError : string;
}.

(** A nil Success asks for both; a zero time for all times. *)
Record AuditFilter := {
  FEvent : string;
  FUserID : string;
  FClientID : string;
  FSuccess : option bool;
  StartTime : Z;
  EndTime : Z;
}.

Definition IsZeroTime (t : Z) : bool := t =? 0.

Definition matchesFilter (entry : AuditEntry) (filter : option AuditFilter) : bool :=
  match filter with
  | None => true
  | Some f =>
      if negb (String.eqb (FEvent f) "") && negb (String.eqb (Event entry) (FEvent f)) then false
      else if negb (String.eqb (FUserID f) "") && negb (String.eqb (UserID entry) (FUserID f))
      then false
      else if negb (String.eqb (FClientID f) "") &&
              negb (String.eqb (ClientID entry) (FClientID f)) then false
      else if match FSuccess f with
              | Some success => negb (Bool.eqb (Success entry) success)
              | None => false
              end then false
      else if negb (IsZeroTime (StartTime f)) && (Timestamp entry <? StartTime f) then false
      else if negb (IsZeroTime (EndTime f)) && (EndTime f <? Timestamp entry) then false
      else true
  end.

Definition paginate (entries : list AuditEntry) (limit offset : Z) :
    option (list AuditEntry * Z) :=
  let total := len entries in
  let offset := if offset <? 0 then 0 else offset in
  let offset := if total <? offset then total else offset in
  let end_ :=
    if 0 <=? limit
    then (let e := int64 (offset + limit) in if total <? e then total else e)
    else total in
  page ← slice entries offset end_;
  Some (page, total).

Record AuditStats := {
  TotalEntries : Z;
  EventCounts : gmap string Z;
  SuccessRate : float64;
}.

Definition PercentageMultiplier : Z := 100.

Definition countEntry (stats : gmap string Z * Z) (entry : AuditEntry) : gmap string Z * Z :=
  (<[Event entry := default 0 (stats.1 !! Event entry) + 1]> stats.1,
   if Success entry then stats.2 + 1 else stats.2).

Definition computeStats (entries : list AuditEntry) : AuditStats :=
  let '(counts, successCount) := foldl countEntry (∅, 0) entries in
  {| TotalEntries := len entries; EventCounts := counts;
     SuccessRate :=
       if 0 <? len entries
       then fmul (fdiv (float64_of successCount) (float64_of (len entries)))
              (float64_of PercentageMultiplier)
       else S754_zero false |}.

(** The matching entries, newest first: the loop of every backend's Query. *)
Definition newestFirst (filter_ : option AuditFilter) (entries : list AuditEntry) :
    list AuditEntry :=
  filter (λ e, matchesFilter e filter_ = true) (reverse entries).

(** ** The backend interface

    [Query] is [None] when it panics. *)
Class StorageBackend (B : Type) := {
  Store : AuditEntry → B → B * res string unit;
  Query : Z → Z → option AuditFilter → B → option (B * res string (list AuditEntry * Z));
  Stats : B → B * res string AuditStats;
  Cleanup : Z → B → B * res string unit;
}.

(** What a backend promises while it is [good], of the entries it retains in
    order of storing: a stored entry it can represent is the last one, and only the oldest are
    forgotten; a query pages through the matching ones, newest first; a cleanup
    keeps what is newer than the cutoff. *)
Class BackendLaws (B : Type) `{StorageBackend B} := {
  retained : B → list AuditEntry;
  good : B → Prop;
  storable : AuditEntry → Prop;
  store_retained e b b' : good b → storable e → Store e b = (b', Ok tt) →
    good b' ∧ last (retained b') = Some e ∧ retained b' `suffix_of` retained b ++ [e];
  query_retained limit offset f b b' r : good b → Query limit offset f b = Some (b', Ok r) →
    good b' ∧ retained b' = retained b ∧
    paginate (newestFirst f (retained b)) limit offset = Some r;
  cleanup_retained cutoff b b' : good b → Cleanup cutoff b = (b', Ok tt) →
    good b' ∧ retained b' `sublist_of` retained b ∧
    ∀ e, e ∈ retained b → cutoff < Timestamp e → e ∈ retained b';
}.

(** ** The memory backend *)

Record memoryBackend := { entries : list AuditEntry; maxEntries : nat }.

Definition newMemoryBackend (maxEntries : Z) : memoryBackend :=
  {| entries := []; maxEntries := if maxEntries <=? 0 then 1 else Z.to_nat maxEntries |}.

Definition memoryStore (entry : AuditEntry) (b : memoryBackend) : memoryBackend :=
  let all := entries b ++ [entry] in
  {| entries := if (maxEntries b <? length all)%nat then lastN (maxEntries b) all else all;
     maxEntries := maxEntries b |}.

Definition memoryCleanup (cutoff : Z) (b : memoryBackend) : memoryBackend :=
  {| entries := filter (λ e, cutoff < Timestamp e) (entries b); maxEntries := maxEntries b |}.

#[export] Instance memory_StorageBackend : StorageBackend memoryBackend := {|
  Store e b := (memoryStore e b, Ok tt);
  Query limit offset f b :=
    r ← paginate (newestFirst f (entries b)) limit offset; Some (b, Ok r);
  Stats b := (b, Ok (computeStats (entries b)));
  Cleanup cutoff b := (memoryCleanup cutoff b, Ok tt);
|}.

(** ** The AuditLogger *)

Section logger.
Context {B : Type} `{StorageBackend B}.

Record AuditLogger := {
  enabled : bool;
  storage : string;
  maxAge : Z;
  events : gset string;
  backend : option B;
}.

Definition withBackend (b : B) (al : AuditLogger) : AuditLogger :=
  {| enabled := enabled al; storage := storage al; maxAge := maxAge al; events := events al;
     backend := Some b |}.

Definition generateAuditID (nano : Z) : string := "audit_" +:+ Itoa nano.

(** A failure to store is only logged. *)
Definition storeEntry (entry : AuditEntry) (al : AuditLogger) : AuditLogger :=
  match backend al with
  | None => al
  | Some b => withBackend (Store entry b).1 al
  end.

(** [nano] and [now] are clock readings, [err] the text of a non-nil error. *)
Definition Log (nano now : Z) (event userID clientID ip userAgent : string) (success : bool)
    (details : option (gmap string Value)) (err : option string) (al : AuditLogger) : AuditLogger :=
  if negb (enabled al) then al
  else if negb (bool_decide (event ∈ events al)) then al
  else storeEntry {|
    ID := generateAuditID nano; Timestamp := now; Event := event; UserID := userID;
    ClientID := clientID; IP := ip; UserAgent := userAgent; Details := details;
    Success := success; EError := default "" err |} al.

Definition GetEntries (limit offset : Z) (f : option AuditFilter) (al : AuditLogger) :
    option (AuditLogger * res string (list AuditEntry * Z)) :=
  match backend al with
  | None => Some (al, Ok ([], 0))
  | Some b => '(b', r) ← Query limit offset f b; Some (withBackend b' al, r)
  end.

Definition noStats : AuditStats :=
  {| TotalEntries := 0; EventCounts := ∅; SuccessRate := S754_zero false |}.

Definition GetStats (al : AuditLogger) : AuditLogger * AuditStats :=
  match backend al with
  | None => (al, noStats)
  | Some b =>
      match Stats b with
      | (b', Ok stats) => (withBackend b' al, stats)
      | (b', Err _) => (withBackend b' al, noStats)
      end
  end.

(** One tick of the cleanup goroutine. *)
Definition cleanupOldEntries (now : Z) (al : AuditLogger) : AuditLogger :=
  match backend al with
  | None => al
  | Some b => withBackend (Cleanup (now - maxAge al) b).1 al
  end.

Definition tokenDetails (tokenType : string) : option (gmap string Value) :=
  Some {["token_type" := VString tokenType]}.

Definition LogOAuthTokenIssued (nano now : Z) (userID clientID ip userAgent tokenType : string)
    (success : bool) (err : option string) : AuditLogger → AuditLogger :=
  Log nano now "oauth.token.issued" userID clientID ip userAgent success (tokenDetails tokenType) err.

Definition LogOAuthTokenRevoked (nano now : Z) (userID clientID ip userAgent tokenType : string)
    (success : bool) (err : option string) : AuditLogger → AuditLogger :=
  Log nano now "oauth.token.revoked" userID clientID ip userAgent success (tokenDetails tokenType)
    err.

Definition LogServerAccess (nano now : Z) (userID clientID ip userAgent serverName scope : string)
    (success : bool) (err : option string) : AuditLogger → AuditLogger :=
  Log nano now (if success then "server.access.granted" else "server.access.denied")
    userID clientID ip userAgent success
    (Some {["server_name" := VString serverName; "scope" := VString scope]}) err.

Definition LogUserLogin (nano now : Z) (userID ip userAgent : string) (success : bool)
    (err : option string) : AuditLogger → AuditLogger :=
  Log nano now "oauth.user.login" userID "" ip userAgent success None err.

(** The settings the constructors read; [MaxAge] is the parsed duration, 0 if it
    does not parse. *)
Record AuditConfig := {
  Enabled : bool;
  Storage : string;
  MaxEntries : Z;
  MaxAge : Z;
  Events : list string;
}.

Definition DefaultRetention : Z := 7 * 24 * 3600 * 10 ^ 9.

(** [newBackend] makes the backend of a storage name with a number of entries. *)
Definition NewAuditLoggerWithError (newBackend : string → Z → res string B) (config : AuditConfig) :
    res string AuditLogger :=
  b ← newBackend (Storage config) (if MaxEntries config <=? 0 then 1 else MaxEntries config);
  Ok {| enabled := Enabled config; storage := Storage config;
        maxAge := if MaxAge config =? 0 then DefaultRetention else MaxAge config;
        events := list_to_set (Events config); backend := Some b |}.

Definition NewAuditLogger (newBackend : string → Z → res string B) (config : AuditConfig) :
    AuditLogger :=
  match NewAuditLoggerWithError newBackend config with
  | Ok al => al
  | Err _ => {| enabled := false; storage := Storage config; maxAge := 0; events := ∅;
                backend := None |}
  end.
End logger.
Arguments AuditLogger : clear implicits.

(** ** The older Logger

    Its Entry has the fields of [AuditEntry]. *)
Module Logger.
Record Logger := {
  enabled : bool;
  maxEntries : Z;
  maxAge : Z;
  events : gset string;
  entries : list AuditEntry;
}.

Definition NewLogger (maxEntries maxAge : Z) (events : list string) : Logger :=
  {| enabled := true; maxEntries := maxEntries;
     maxAge := if maxAge =? 0 then DefaultRetention else maxAge;
     events := list_to_set events; entries := [] |}.

Definition logEntry (entry : AuditEntry) (l : Logger) : option Logger :=
  let all := entries l ++ [entry] in
  kept ← if maxEntries l <? len all then slice all (len all - maxEntries l) (len all) else Some all;
  Some {| enabled := enabled l; maxEntries := maxEntries l; maxAge := maxAge l;
          events := events l; entries := kept |}.

Definition Log (nano now : Z) (event userID clientID ip userAgent : string) (success : bool)
    (details : option (gmap string Value)) (err : option string) (l : Logger) : option Logger :=
  if negb (enabled l) || negb (bool_decide (event ∈ events l)) then Some l
  else logEntry {|
    ID := "audit_" +:+ Itoa nano; Timestamp := now; Event := event; UserID := userID;
    ClientID := clientID; IP := ip; UserAgent := userAgent; Details := details;
    Success := success; EError := default "" err |} l.

Definition GetEntries (limit offset : Z) (l : Logger) : option (list AuditEntry * Z) :=
  let total := len (entries l) in
  let start := if total <? offset then total else offset in
  let end_ := int64 (start + limit) in
  let end_ := if total <? end_ then total else end_ in
  page ← slice (entries l) start end_;
  Some (page, total).
End Logger.

(** ** Pagination *)

(** Pagination returns the entries from the offset on, at most limit of
    them (all for a negative limit), for every offset and limit except those
    whose sum exceeds the largest int once the offset is clamped to the length:
    then the sum wraps to a negative index and the slice expression panics. *)
Theorem paginate_spec entries limit offset :
  in_int64 limit → in_int64 offset → len entries ≤ MaxInt →
  let start := Z.min (Z.max offset 0) (len entries) in
  paginate entries limit offset =
    if decide (0 ≤ limit ∧ MaxInt < start + limit) then None
    else Some (if limit <? 0 then drop (Z.to_nat start) entries
               else take (Z.to_nat limit) (drop (Z.to_nat start) entries), len entries).
Proof.
  intros Hl Ho Hlen start. unfold paginate. simpl.
  set (off := if len entries <? _ then _ else _).
  assert (off = start) as -> by (subst off start; repeat case_match; lia).
  assert (0 ≤ start ≤ len entries) as Hs by (unfold len in *; lia).
  assert (Z.to_nat (len entries) = length entries) as Hn by (unfold len; lia).
  unfold in_int64 in *. destruct (Z.leb_spec 0 limit) as [Hpos|Hneg].
  - rewrite (proj2 (Z.ltb_ge limit 0)) by lia. case_decide as Hover.
    + destruct (int64_overflow (start + limit)) as [_ Hw]; [unfold MaxInt in *; lia|].
      rewrite (proj2 (Z.ltb_ge _ (int64 _))) by lia. rewrite slice_None; [done|lia].
    + rewrite int64_id by (unfold in_int64; lia).
      destruct (Z.ltb_spec (len entries) (start + limit)); rewrite slice_Some by lia; simpl.
      * rewrite !take_ge; [done|rewrite length_drop; lia..].
      * by rewrite Z.add_simpl_l.
  - rewrite decide_False by lia. rewrite (proj2 (Z.ltb_lt limit 0)) by lia.
    rewrite slice_Some by lia. simpl. rewrite take_ge; [done|rewrite length_drop; lia].
Qed.

(** The older logger checks neither sign. *)
Lemma Logger_GetEntries_panics limit offset l :
  offset < 0 ∨ (limit < 0 ∧ 0 ≤ offset ∧ in_int64 limit ∧ len (Logger.entries l) ≤ MaxInt) →
  Logger.GetEntries limit offset l = None.
Proof.
  intros H. unfold Logger.GetEntries. set (total := len _).
  assert (0 ≤ total) by (subst total; unfold len; lia). cbv zeta.
  destruct H as [Hneg|(Hneg & Hoff & Hl & Hmax)].
  - rewrite (proj2 (Z.ltb_ge total offset)) by lia. rewrite slice_None; [done|lia].
  - set (start := if total <? offset then _ else _).
    assert (0 ≤ start ≤ total) by (subst start; case_match; lia).
    unfold in_int64, MaxInt in *. rewrite int64_id by (unfold in_int64, MaxInt; lia).
    rewrite slice_None; [done|]. case_match; lia.
Qed.

(** A negative maximum makes every logged event panic. *)
Lemma Logger_negative_maximum entry l :
  Logger.maxEntries l < 0 → Logger.logEntry entry l = None.
Proof.
  intros H. unfold Logger.logEntry. cbv zeta. rewrite (proj2 (Z.ltb_lt _ _)) by (unfold len; lia).
  rewrite slice_None; [done|lia].
Qed.

(** ** The memory backend implements a log of bounded memory *)

(** The specification: everything stored and not yet cleaned up. *)
Inductive log_op := StoreOp (e : AuditEntry) | CleanupOp (cutoff : Z).

Definition spec_step (log : list AuditEntry) (op : log_op) : list AuditEntry :=
  match op with
  | StoreOp e => log ++ [e]
  | CleanupOp cutoff => filter (λ e, cutoff < Timestamp e) log
  end.

Definition memory_step (b : memoryBackend) (op : log_op) : memoryBackend :=
  match op with StoreOp e => memoryStore e b | CleanupOp cutoff => memoryCleanup cutoff b end.

Lemma memoryStore_entries e b : entries (memoryStore e b) = lastN (maxEntries b) (entries b ++ [e]).
Proof.
  simpl. destruct (Nat.ltb_spec (maxEntries b) (length (entries b ++ [e]))); [done|].
  by rewrite lastN_all.
Qed.

(** Entries are stored in the order of their times. *)
Definition in_time_order (log : list AuditEntry) : Prop :=
  StronglySorted (λ e e', Timestamp e ≤ Timestamp e') log.

(** Cleaning what is remembered remembers what is clean. *)
Lemma filter_lastN cutoff n log :
  in_time_order log →
  filter (λ e, cutoff < Timestamp e) (lastN n log) = lastN n (filter (λ e, cutoff < Timestamp e) log).
Proof.
  intros Hs. destruct (lastN_split n log) as (k & Hk & Hlen).
  assert (length (lastN n log) ≤ n)%nat as Hln by (rewrite length_lastN; lia).
  set (l := lastN n log) in *. clearbody l. subst log.
  apply StronglySorted_app in Hs as (Hkl & _ & _). rewrite filter_app.
  destruct (decide (Forall (λ e, ¬ cutoff < Timestamp e) k)) as [Hnone|Hsome].
  - rewrite (filter_none _ k Hnone). simpl. rewrite lastN_all; [done|].
    pose proof (length_filter (λ e, cutoff < Timestamp e) l). lia.
  - apply not_Forall_Exists in Hsome as (x & Hx & Hcut)%Exists_exists; [|apply _].
    apply dec_stable in Hcut. rewrite (filter_every _ l).
    + rewrite lastN_app, lastN_all; [done|lia|]. destruct (decide (length l < n)%nat) as [Hlt|]; [|lia].
      rewrite (Hlen Hlt) in Hx. by apply elem_of_nil in Hx.
    + apply Forall_forall. intros y Hy. specialize (Hkl x y Hx Hy). simpl in Hkl. lia.
Qed.

Lemma in_time_order_filter (P : AuditEntry → Prop) `{∀ e, Decision (P e)} log :
  in_time_order log → in_time_order (filter P log).
Proof.
  induction 1 as [|e log Hs IH He]; [constructor|]. rewrite filter_cons. case_decide; [|done].
  constructor; [done|]. apply Forall_forall. intros x [_ Hx]%list_elem_of_filter.
  by rewrite Forall_forall in He; apply He.
Qed.

(** What the run of the specification is at each store: in order. *)
Fixpoint stored_in_order (log : list AuditEntry) (ops : list log_op) : Prop :=
  match ops with
  | [] => True
  | op :: rest =>
      match op with StoreOp e => Forall (λ e', Timestamp e' ≤ Timestamp e) log | _ => True end ∧
      stored_in_order (spec_step log op) rest
  end.

Lemma memory_refines n ops log b :
  maxEntries b = n → entries b = lastN n log → in_time_order log → stored_in_order log ops →
  maxEntries (foldl memory_step b ops) = n ∧
  entries (foldl memory_step b ops) = lastN n (foldl spec_step log ops).
Proof.
  revert log b. induction ops as [|op ops IH]; intros log b Hn He Hs Ho; [done|].
  destruct Ho as [Hop Ho]. simpl. apply IH; [by destruct op| | |done].
  - destruct op as [e|cutoff].
    + change (entries (memory_step b (StoreOp e))) with (entries (memoryStore e b)).
      by rewrite memoryStore_entries, Hn, He, lastN_snoc.
    + simpl. rewrite He. by apply filter_lastN.
  - destruct op as [e|cutoff]; simpl; [|by apply in_time_order_filter].
    apply StronglySorted_app. split_and!; [|done|repeat constructor].
    intros x y Hx ->%list_elem_of_singleton. rewrite Forall_forall in Hop. by apply Hop.
Qed.

(** With entries stored in the order of their times, a memory backend for n
    entries answers every query as if it held the last n entries of the whole
    log with its cleanups: pages of the matching ones, newest first. *)
Theorem memory_backend_refines_log max ops limit offset f :
  stored_in_order [] ops →
  let n := if decide (max ≤ 0) then 1%nat else Z.to_nat max in
  let b := foldl memory_step (newMemoryBackend max) ops in
  Query limit offset f b =
    (r ← paginate (newestFirst f (lastN n (foldl spec_step [] ops))) limit offset; Some (b, Ok r)).
Proof.
  intros Ho n b. subst b. destruct (memory_refines n ops [] (newMemoryBackend max)) as [_ He].
  - subst n. simpl. case_decide as Hm.
    + by rewrite (proj2 (Z.leb_le _ _)).
    + by rewrite (proj2 (Z.leb_gt _ _)) by lia.
  - by rewrite lastN_all by (simpl; lia).
  - constructor.
  - done.
  - simpl. by rewrite He.
Qed.

(** ** What the logger guarantees over any backend *)

#[export] Instance memory_BackendLaws : BackendLaws memoryBackend.
Proof.
  refine {| retained := entries; good := λ b, (0 < maxEntries b)%nat;
    storable := λ _, True |}.
  - intros e b b' Hb _ [= <-]. split; [done|]. rewrite memoryStore_entries.
    destruct (lastN_split (maxEntries b) (entries b ++ [e])) as (k & Hk & _).
    split; [|by exists k].
    assert (lastN (maxEntries b) (entries b ++ [e]) ≠ []) as Hne.
    { intros Heq. apply (f_equal length) in Heq. rewrite length_lastN, length_app in Heq.
      simpl in Heq. lia. }
    destruct (lastN _ _) as [|x l _] using rev_ind; [done|]. rewrite (assoc_L (++)) in Hk.
    apply app_inj_tail in Hk as [_ <-]. by rewrite last_snoc.
  - intros limit offset f b b' r Hb (r' & ? & [= <- <-])%bind_Some. done.
  - intros cutoff b b' Hb [= <-]. simpl. split; [done|]. split; [apply sublist_filter|].
    intros e ? ?. by rewrite list_elem_of_filter.
Defined.

Section over_any_backend.
Context {B : Type} `{BackendLaws B}.

Lemma paginate_head es limit page total :
  0 < limit ≤ MaxInt → paginate es limit 0 = Some (page, total) →
  head page = head es ∧ total = len es.
Proof.
  intros Hl. unfold paginate. change (0 <? 0) with false. cbv iota zeta.
  assert (0 ≤ len es) as Hlen by (unfold len; lia).
  rewrite (proj2 (Z.ltb_ge (len es) 0)), (proj2 (Z.leb_le 0 limit)), Z.add_0_l by lia.
  rewrite int64_id by (unfold in_int64; lia).
  assert (∃ e, (if len es <? limit then len es else limit) = e ∧ 0 ≤ e ≤ len es ∧ (es ≠ [] → 0 < e))
    as (e & -> & He & Hpos).
  { eexists. split; [done|]. destruct (Z.ltb_spec (len es) limit); (split; [lia|]); [|lia].
    destruct es; [done|]. unfold len. simpl. lia. }
  rewrite slice_Some by lia. intros [= <- <-]. split; [|done]. destruct es as [|x es].
  - by rewrite drop_nil, take_nil.
  - specialize (Hpos ltac:(done)). by destruct (Z.to_nat (e - 0)) eqn:?; [lia|].
Qed.

Lemma head_filter_last {A} (P : A → Prop) `{∀ x, Decision (P x)} l x :
  last l = Some x → P x → head (filter P (reverse l)) = Some x.
Proof.
  destruct l as [|y l _] using rev_ind; [done|]. rewrite last_snoc, reverse_snoc.
  intros [= ->] Hx. by rewrite filter_cons_True.
Qed.

(** With any lawful backend an event that is enabled and whose entry is stored
    is the first answer to every query from the start that it matches. *)
Theorem logged_event_found (al : AuditLogger B) b b1 nano now event user client ip agent success
    details err :
  let entry := {|
    ID := generateAuditID nano; Timestamp := now; Event := event; UserID := user;
    ClientID := client; IP := ip; UserAgent := agent; Details := details; Success := success;
    EError := default "" err |} in
  enabled al = true → event ∈ events al → backend al = Some b → good b → storable entry →
  Store entry b = (b1, Ok tt) →
  let al1 := Log nano now event user client ip agent success details err al in
  ∀ f limit al2 page total,
    0 < limit ≤ MaxInt → matchesFilter entry f = true →
    GetEntries limit 0 f al1 = Some (al2, Ok (page, total)) → head page = Some entry ∧ 1 ≤ total.
Proof.
  intros entry Hen Hev Hb Hg Hable Hst al1 f limit al2 page total Hl Hm.
  assert (backend al1 = Some b1) as Hb1.
  { subst al1. unfold Log. rewrite Hen. simpl. rewrite bool_decide_eq_true_2 by done. simpl.
    unfold storeEntry. rewrite Hb. fold entry. by rewrite Hst. }
  destruct (store_retained _ _ _ Hg Hable Hst) as (Hg1 & Hlast & _).
  unfold GetEntries. rewrite Hb1. intros ([b2 r] & Hq & [= <- ->])%bind_Some.
  destruct (query_retained _ _ _ _ _ _ Hg1 Hq) as (_ & _ & Hp).
  apply paginate_head in Hp as [Hhead ->]; [|done].
  apply (head_filter_last (λ e, matchesFilter e f = true)) in Hlast; [|done].
  change (head (newestFirst f (retained b1)) = Some entry) in Hlast. rewrite Hhead. split; [done|].
  destruct (newestFirst f (retained b1)); [done|]. unfold len. simpl. lia.
Qed.
End over_any_backend.

(** ** Statistics *)

(** The counts are those of the entries' events; the rate counts successes. *)
Lemma computeStats_counts es :
  TotalEntries (computeStats es) = len es ∧
  (∀ event, default 0 (EventCounts (computeStats es) !! event) =
     len (filter (λ e, Event e = event) es)) ∧
  (es ≠ [] → SuccessRate (computeStats es) =
     fmul (fdiv (float64_of (len (filter (λ e, Success e = true) es))) (float64_of (len es)))
       (float64_of 100)).
Proof.
  unfold computeStats. destruct (foldl countEntry (∅, 0) es) as [counts ok] eqn:Hfold. simpl.
  assert (∀ es m k, let '(counts, ok) := foldl countEntry (m, k) es in
    (∀ event, default 0 (counts !! event) =
       default 0 (m !! event) + len (filter (λ e, Event e = event) es)) ∧
    ok = k + len (filter (λ e, Success e = true) es)) as Hgen.
  { clear. intros es. induction es as [|e es IH]; intros m k; [split; intros; unfold len; simpl; lia|].
    simpl. specialize (IH (<[Event e := default 0 (m !! Event e) + 1]> m)
      (if Success e then k + 1 else k)). unfold countEntry at 2. simpl.
    destruct (foldl _ _ es) as [counts ok]. destruct IH as [Hc ->]. split.
    - intros event. rewrite Hc, filter_cons. destruct (decide (Event e = event)) as [<-|Hne].
      + rewrite lookup_insert_eq. unfold len. simpl. lia.
      + by rewrite lookup_insert_ne.
    - rewrite filter_cons. case_decide as Hs.
      + rewrite Hs. unfold len. simpl. lia.
      + by destruct (Success e). }
  specialize (Hgen es ∅ 0). rewrite Hfold in Hgen. destruct Hgen as [Hc ->].
  split; [done|]. split.
  - intros event. by rewrite Hc, lookup_empty.
  - intros Hne. rewrite (proj2 (Z.ltb_lt 0 (len es))); [done|]. destruct es; [done|].
    unfold len. simpl. lia.
Qed.

(** ** Concrete runs *)

Definition entryAt (t : Z) : AuditEntry := {|
  ID := generateAuditID t; Timestamp := t; Event := "oauth.user.login"; UserID := "ann";
  ClientID := ""; IP := "10.0.0.1"; UserAgent := "cli"; Details := None; Success := true;
  EError := "" |}.

Lemma paginate_spec_witness :
  paginate [entryAt 2; entryAt 1] MaxInt 1 = None.
Proof.
  rewrite (paginate_spec [entryAt 2; entryAt 1] MaxInt 1).
  - reflexivity.
  - by vm_compute.
  - by vm_compute.
  - by vm_compute.
Defined.

Lemma memory_backend_refines_log_witness :
  Query 10 0 None (foldl memory_step (newMemoryBackend 2)
    [StoreOp (entryAt 1); StoreOp (entryAt 2); StoreOp (entryAt 3)]) =
  Some (foldl memory_step (newMemoryBackend 2)
    [StoreOp (entryAt 1); StoreOp (entryAt 2); StoreOp (entryAt 3)],
    Ok ([entryAt 3; entryAt 2], 2)).
Proof.
  rewrite (memory_backend_refines_log 2
    [StoreOp (entryAt 1); StoreOp (entryAt 2); StoreOp (entryAt 3)] 10 0 None).
  - reflexivity.
  - simpl. repeat constructor; by vm_compute.
Defined.

Definition loginLogger : AuditLogger memoryBackend := {|
  enabled := true; storage := "memory"; maxAge := DefaultRetention;
  events := {["oauth.user.login"]}; backend := Some (newMemoryBackend 2) |}.

Lemma logged_event_found_witness :
  ∃ al2 page total,
    GetEntries 5 0 None (LogUserLogin 7 7 "ann" "10.0.0.1" "cli" true None loginLogger) =
      Some (al2, Ok (page, total)) ∧ UserID <$> head page = Some "ann".
Proof.
  eexists _, _, _. split; [reflexivity|].
  erewrite (proj1 (logged_event_found loginLogger (newMemoryBackend 2)
    (memoryStore (entryAt 7) (newMemoryBackend 2)) 7 7 "oauth.user.login" "ann" "" "10.0.0.1" "cli"
    true None None eq_refl ltac:(set_solver) eq_refl ltac:(simpl; lia) I eq_refl
    None 5 _ _ _ ltac:(unfold MaxInt; lia) eq_refl eq_refl)).
  reflexivity.
Defined.
