(* ===== verification/AuditFile.v ===== *)
(** * The audit log on disk

    internal/audit/file_backend.go: entries as lines of JSON in an active file
    that is rotated by size.  The backend's state contains the file system, a map
    from paths to contents; its n-th call meets the n-th [Outside], a clock
    reading and the errors the operating system answers with.  The buffered
    writer keeps an error for ever, as bufio does; its buffer is empty between
    calls, since every entry is flushed. *)
From S2P Require Import Prelude GoString GoNum AuditLog.

#[local] Open Scope Z_scope.

Set Default Proof Using "Type*".

(** ** Data *)

(** The error of each operation, if it fails; a failing write has written some
    bytes. *)
Record Outside := {
  clock : Z;
  writeError : option (nat * string);
  syncError : option string;
  closeError : option string;
  renameError : option string;
  removeError : string → option string;
  openError : option string;
  chmodError : option string;
  statError : option string;
  readError : string → option string;
}.

Record fileBackend := {
  fs : gmap string string;
  path : string;
  maxFileSize : Z;
  maxBackups : nat;
  isOpen : bool;
  writerError : option string;
  size : Z;
  calls : nat;
}.

Definition setFs (f : gmap string string → gmap string string) (b : fileBackend) : fileBackend :=
  {| fs := f (fs b); path := path b; maxFileSize := maxFileSize b; maxBackups := maxBackups b;
     isOpen := isOpen b; writerError := writerError b; size := size b; calls := calls b |}.

Definition setFile (open_ : bool) (err : option string) (size_ : Z) (b : fileBackend) : fileBackend :=
  {| fs := fs b; path := path b; maxFileSize := maxFileSize b; maxBackups := maxBackups b;
     isOpen := open_; writerError := err; size := size_; calls := calls b |}.

Definition nextCall (b : fileBackend) : fileBackend :=
  {| fs := fs b; path := path b; maxFileSize := maxFileSize b; maxBackups := maxBackups b;
     isOpen := isOpen b; writerError := writerError b; size := size b; calls := S (calls b) |}.

Definition fileLength (s : string) : Z := Z.of_nat (String.length s).

Definition newline : string := String "010" "".

(** filepath.Glob(path + ".*"), for a path without metacharacters: sorted, and
    without a further separator. *)
Definition isBackup (path p : string) : bool :=
  HasPrefix p (path +:+ ".") && (CountByte (TrimPrefix p path) "/" =? 0)%nat.

Definition backups (b : fileBackend) : list string :=
  merge_sort String.le (filter (λ p, isBackup (path b) p = true) (map_to_list (fs b)).*1).

Section backend.
(** encoding/json, and the text of a time in the name of a rotated file. *)
Context (Marshal : AuditEntry → res string string) (Unmarshal : string → option AuditEntry).
Context (stampText : Z → string) (env : nat → Outside).

(** ** Reading *)

Definition maxLine : Z := 4 * 1024 * 1024.

(** bufio.ScanLines on a file. *)
Definition fileLines (s : string) : list string := textLines s.

Definition parseLine (line : string) : option AuditEntry :=
  let line := dropCR line in
  if decide (line = "") then None else Unmarshal line.

Definition parseFile (content : string) : list AuditEntry :=
  omap parseLine (fileLines content).

Definition scanFails (content : string) : bool :=
  existsb (λ line, maxLine <=? fileLength line) (fileLines content).

Definition readEntriesFromFile (o : Outside) (p : string) (b : fileBackend) :
    res string (list AuditEntry) :=
  match readError o p with
  | Some e => Err ("audit file backend: open " +:+ p +:+ ": " +:+ e)
  | None =>
      match fs b !! p with
      | None => Ok []
      | Some content =>
          if scanFails content
          then Err ("audit file backend: scan " +:+ p +:+ ": bufio.Scanner: token too long")
          else Ok (parseFile content)
      end
  end.

Fixpoint readFiles (o : Outside) (ps : list string) (b : fileBackend) :
    res string (list AuditEntry) :=
  match ps with
  | [] => Ok []
  | p :: rest =>
      entries ← readEntriesFromFile o p b;
      more ← readFiles o rest b;
      Ok (entries ++ more)
  end.

Definition readAllLocked (o : Outside) (b : fileBackend) : res string (list AuditEntry) :=
  match writerError b with
  | Some e => Err ("audit file backend: flush before read: " +:+ e)
  | None => readFiles o (backups b ++ [path b]) b
  end.

(** ** Writing *)

Definition closedText (p : string) : string := "close " +:+ p +:+ ": file already closed".

Definition openActive (o : Outside) (b : fileBackend) : fileBackend * res string unit :=
  match openError o with
  | Some e => (b, Err ("audit file backend: open " +:+ path b +:+ ": " +:+ e))
  | None =>
      let b := setFs (λ m, <[path b := default "" (m !! path b)]> m) b in
      match chmodError o with
      | Some e => (b, Err ("audit file backend: chmod " +:+ path b +:+ ": " +:+ e))
      | None =>
          match statError o with
          | Some e => (b, Err ("audit file backend: stat " +:+ path b +:+ ": " +:+ e))
          | None =>
              (setFile true None (fileLength (default "" (fs b !! path b))) b, Ok tt)
          end
      end
  end.

(** [mkdirError] is that of creating the directory, [o] what meets the call. *)
Definition newFileBackend (o : Outside) (mkdirError : option string) (files : gmap string string)
    (filePath : string) (maxFileSize_ : Z) (maxBackups_ : nat) : res string fileBackend :=
  if decide (filePath = "") then Err "audit file backend: empty file path"
  else
    match mkdirError with
    | Some e => Err ("audit file backend: create dir: " +:+ e)
    | None =>
        let b := {| fs := files; path := filePath;
                    maxFileSize := if maxFileSize_ <=? 0 then 50 * 1024 * 1024 else maxFileSize_;
                    maxBackups := maxBackups_; isOpen := false; writerError := None; size := 0;
                    calls := 0 |} in
        match openActive o b with (b', Ok _) => Ok b' | (_, Err e) => Err e end
    end.

(** Removes files until one cannot be removed. *)
Fixpoint removeFiles (o : Outside) (ps : list string) (b : fileBackend) :
    fileBackend * res string unit :=
  match ps with
  | [] => (b, Ok tt)
  | p :: rest =>
      match removeError o p with
      | Some e => (b, Err ("audit file backend: prune " +:+ p +:+ ": " +:+ e))
      | None => removeFiles o rest (setFs (delete p) b)
      end
  end.

Definition pruneBackups (o : Outside) (b : fileBackend) : fileBackend * res string unit :=
  let matches := backups b in
  if (length matches <=? maxBackups b)%nat then (b, Ok tt)
  else removeFiles o (take (length matches - maxBackups b) matches) b.

Definition rotated (o : Outside) (b : fileBackend) : string :=
  path b +:+ "." +:+ stampText (clock o).

Definition rotate (o : Outside) (b : fileBackend) : fileBackend * res string unit :=
  match writerError b with
  | Some e => (b, Err ("audit file backend: flush before rotate: " +:+ e))
  | None =>
      if negb (isOpen b)
      then (b, Err ("audit file backend: close before rotate: " +:+ closedText (path b)))
      else
        let b := setFile false (writerError b) (size b) b in
        match closeError o with
        | Some e => (b, Err ("audit file backend: close before rotate: " +:+ e))
        | None =>
            match renameError o, fs b !! path b with
            | Some e, _ => (b, Err ("audit file backend: rotate rename: " +:+ e))
            | None, None =>
                (b, Err ("audit file backend: rotate rename: no such file or directory"))
            | None, Some content =>
                let b := setFs (λ m, <[rotated o b := content]> (delete (path b) m)) b in
                match pruneBackups o b with
                | (b', Err e) => (b', Err e)
                | (b', Ok _) => openActive o b'
                end
            end
        end
  end.

(** The writer's buffer has 4096 bytes; a longer line is written at once, a
    shorter one when it is flushed. *)
Definition stage (line : string) : string :=
  if 4096 <? fileLength line then "audit file backend: write entry: "
  else "audit file backend: flush: ".

Definition append (o : Outside) (line : string) (b : fileBackend) : fileBackend * res string unit :=
  match writerError b with
  | Some e => (b, Err ("audit file backend: write entry: " +:+ e))
  | None =>
      if negb (isOpen b) then
        (setFile false (Some ("write " +:+ path b +:+ ": file already closed")) (size b) b,
         Err (stage line +:+ "write " +:+ path b +:+ ": file already closed"))
      else
        match writeError o with
        | Some (n, e) =>
            (setFile true (Some e) (size b)
               (setFs (alter (λ content, content +:+ stake n line) (path b)) b),
             Err (stage line +:+ e))
        | None =>
            let b := setFs (alter (λ content, content +:+ line) (path b)) b in
            match syncError o with
            | Some e => (b, Err ("audit file backend: fsync: " +:+ e))
            | None => (setFile true None (size b + fileLength line) b, Ok tt)
            end
        end
  end.

Definition fileStore (entry : AuditEntry) (b0 : fileBackend) : fileBackend * res string unit :=
  let o := env (calls b0) in
  let b := nextCall b0 in
  match Marshal entry with
  | Err e => (b, Err ("audit file backend: marshal entry: " +:+ e))
  | Ok text =>
      let line := text +:+ newline in
      if (maxFileSize b <? size b + fileLength line) && (0 <? size b) then
        match rotate o b with
        | (b', Err e) => (b', Err e)
        | (b', Ok _) => append o line b'
        end
      else append o line b
  end.

(** ** Queries and cleanup *)

Definition fileQuery (limit offset : Z) (f : option AuditFilter) (b0 : fileBackend) :
    option (fileBackend * res string (list AuditEntry * Z)) :=
  let b := nextCall b0 in
  match readAllLocked (env (calls b0)) b with
  | Err e => Some (b, Err e)
  | Ok all => r ← paginate (newestFirst f all) limit offset; Some (b, Ok r)
  end.

Definition fileStats (b0 : fileBackend) : fileBackend * res string AuditStats :=
  let b := nextCall b0 in
  (b, match readAllLocked (env (calls b0)) b with
      | Err e => Err e
      | Ok all => Ok (computeStats all)
      end).

Definition newest (entries : list AuditEntry) : Z :=
  foldl (λ t e, if t <? Timestamp e then Timestamp e else t) 0 entries.

Fixpoint cleanupFiles (o : Outside) (cutoff : Z) (ps : list string) (b : fileBackend) :
    fileBackend * res string unit :=
  match ps with
  | [] => (b, Ok tt)
  | p :: rest =>
      match readEntriesFromFile o p b with
      | Err e => (b, Err e)
      | Ok entries =>
          let t := newest entries in
          if negb (IsZeroTime t) && (t <? cutoff) then
            match removeError o p with
            | Some e => (b, Err ("audit file backend: cleanup remove " +:+ p +:+ ": " +:+ e))
            | None => cleanupFiles o cutoff rest (setFs (delete p) b)
            end
          else cleanupFiles o cutoff rest b
      end
  end.

Definition fileCleanup (cutoff : Z) (b0 : fileBackend) : fileBackend * res string unit :=
  let b := nextCall b0 in cleanupFiles (env (calls b0)) cutoff (backups b) b.

#[local] Instance file_StorageBackend : StorageBackend fileBackend := {|
  Store := fileStore; Query := fileQuery; Stats := fileStats; Cleanup := fileCleanup |}.
End backend.

(** ** Failures are final *)

(** What an operation does to the backend. *)
Inductive file_op :=
  | FStore (e : AuditEntry)
  | FQuery (limit offset : Z) (f : option AuditFilter)
  | FCleanup (cutoff : Z).

Section failures.
Context (Marshal : AuditEntry → res string string) (Unmarshal : string → option AuditEntry).
Context (stampText : Z → string) (env : nat → Outside).

Notation fileStore := (fileStore Marshal stampText env).

(** The backend after the operation; a query that panics leaves it as it is. *)
Definition file_step (b : fileBackend) (op : file_op) : fileBackend :=
  match op with
  | FStore e => (fileStore e b).1
  | FQuery limit offset f =>
      match fileQuery Unmarshal env limit offset f b with Some (b', _) => b' | None => b end
  | FCleanup cutoff => (fileCleanup Unmarshal env cutoff b).1
  end.

(** The file is closed or its writer has failed. *)
Definition dead (b : fileBackend) : Prop := isOpen b = false ∨ is_Some (writerError b).

Lemma append_Err o line b b' e :
  append o line b = (b', Err e) → syncError o = None → dead b'.
Proof.
  unfold append. destruct (writerError b) as [w|] eqn:Hw.
  { intros [= <- _] _. right. by rewrite Hw. }
  destruct (isOpen b) eqn:Ho; simpl; [|intros [= <- _] _; by left].
  destruct (writeError o) as [[n e']|]; [intros [= <- _] _; right; by eexists|].
  intros Heq Hs. by rewrite Hs in Heq.
Qed.

Lemma openActive_Err o b b' e :
  openActive o b = (b', Err e) → isOpen b' = isOpen b.
Proof.
  unfold openActive. destruct (openError o); [by intros [= <- _]|].
  destruct (chmodError o); [by intros [= <- _]|].
  destruct (statError o); [by intros [= <- _]|done].
Qed.

Lemma removeFiles_isOpen o ps b : isOpen (removeFiles o ps b).1 = isOpen b.
Proof.
  revert b. induction ps as [|p ps IH]; intros b; [done|]. simpl.
  destruct (removeError o p); [done|]. by rewrite IH.
Qed.

Lemma pruneBackups_isOpen o b : isOpen (pruneBackups o b).1 = isOpen b.
Proof. unfold pruneBackups. case_match; [done|]. apply removeFiles_isOpen. Qed.

Lemma rotate_Err o b b' e : rotate stampText o b = (b', Err e) → dead b'.
Proof.
  unfold rotate. destruct (writerError b) as [w|] eqn:Hw.
  { intros [= <- _]. right. by rewrite Hw. }
  destruct (isOpen b) eqn:Ho; simpl; [|intros [= <- _]; by left].
  destruct (closeError o); [intros [= <- _]; by left|].
  destruct (renameError o); [intros [= <- _]; by left|].
  destruct (fs b !! path b) as [content|]; [|intros [= <- _]; by left].
  set (b1 := setFs _ _). pose proof (pruneBackups_isOpen o b1) as Hp.
  destruct (pruneBackups o b1) as [b2 [[]|e']]; simpl in Hp.
  - intros Hopen%openActive_Err. left. by rewrite Hopen, Hp.
  - intros [= <- _]. left. by rewrite Hp.
Qed.

Lemma dead_store entry b : dead b → dead (fileStore entry b).1 ∧ is_ok (fileStore entry b).2 = false.
Proof.
  intros Hd. unfold AuditFile.fileStore. destruct (Marshal entry) as [text|]; [|split; [exact Hd|done]].
  assert (dead (nextCall b)) as Hd' by done. set (b1 := nextCall b) in *.
  assert (∀ o line, dead (append o line b1).1 ∧ is_ok (append o line b1).2 = false) as Happ.
  { intros o line. unfold append.
    destruct (writerError b1) as [w|] eqn:Hw; [split; [exact Hd'|done]|].
    destruct Hd' as [->|Hs]; [|rewrite Hw in Hs; by destruct Hs]. simpl. split; [by left|done]. }
  destruct (_ && _); [|apply Happ].
  assert (∃ e, rotate stampText (env (calls b)) b1 = (b1, Err e)) as [e ->]; [|split; [exact Hd'|done]].
  unfold rotate. destruct (writerError b1) as [w|] eqn:Hw; [by eexists|].
  destruct Hd' as [->|Hs]; [|rewrite Hw in Hs; by destruct Hs]. by eexists.
Qed.

Lemma cleanupFiles_file o cutoff ps b :
  isOpen (cleanupFiles Unmarshal o cutoff ps b).1 = isOpen b ∧
  writerError (cleanupFiles Unmarshal o cutoff ps b).1 = writerError b.
Proof.
  revert b. induction ps as [|p ps IH]; intros b; [done|]. simpl.
  destruct (readEntriesFromFile _ _ _ _); [|done]. destruct (_ && _); [|apply IH].
  destruct (removeError o p); [done|]. apply (IH (setFs (delete p) b)).
Qed.

Lemma dead_step op b : dead b → dead (file_step b op).
Proof.
  intros Hd. destruct op as [e|limit offset f|cutoff]; simpl.
  - by apply dead_store.
  - unfold fileQuery. destruct (readAllLocked _ _ _); [|done]. by destruct (paginate _ _ _).
  - unfold fileCleanup. destruct (cleanupFiles_file (env (calls b)) cutoff (backups (nextCall b)) (nextCall b))
      as [Ho Hw]. unfold dead. by rewrite Ho, Hw.
Qed.

(** C38: once storing an entry has failed, other than in its encoding or in the
    final fsync, no entry is ever stored again, whatever the operating system
    answers from then on: a failed rotation leaves the file closed, and a failed
    write stays in the writer. *)
Theorem failed_store_is_final entry text b b' e :
  fileStore entry b = (b', Err e) → Marshal entry = Ok text → syncError (env (calls b)) = None →
  ∀ ops entry', is_ok (fileStore entry' (foldl file_step b' ops)).2 = false.
Proof.
  intros Hst Hm Hs. assert (dead b') as Hd.
  { unfold AuditFile.fileStore in Hst. rewrite Hm in Hst. destruct (_ && _).
    - destruct (rotate _ _ _) as [b1 [[]|e']] eqn:Hr; [by apply append_Err in Hst|].
      injection Hst as <- _. by apply rotate_Err in Hr.
    - by apply append_Err in Hst. }
  intros ops entry'. apply dead_store. clear Hst. revert b' Hd.
  induction ops as [|op ops IH]; intros b' Hd; [done|]. apply IH, dead_step, Hd.
Qed.
End failures.

(** ** Lines *)

(** A file of whole lines. *)
Definition complete (content : string) : Prop := content = "" ∨ ∃ t, content = t +:+ newline.

Lemma fileLines_newline t : fileLines (t +:+ newline) = SplitByte t "010".
Proof. apply (textLines_newline t). Qed.

Lemma fileLines_append content text :
  complete content → CountByte text "010" = 0%nat →
  fileLines (content +:+ (text +:+ newline)) = fileLines content ++ [text].
Proof.
  intros Hc Ht. rewrite sapp_assoc, fileLines_newline. destruct Hc as [->|[t ->]].
  - by apply SplitByte_none.
  - rewrite fileLines_newline. unfold newline. rewrite <-sapp_assoc. simpl.
    by rewrite SplitByte_app, (SplitByte_none text).
Qed.

(** An entry that a line can represent. *)
Definition encodable (Marshal : AuditEntry → res string string)
    (Unmarshal : string → option AuditEntry) (e : AuditEntry) : Prop :=
  ∃ text, Marshal e = Ok text ∧ CountByte text "010" = 0%nat ∧ parseLine Unmarshal text = Some e.

Lemma parseFile_append Unmarshal content text e :
  complete content → CountByte text "010" = 0%nat → parseLine Unmarshal text = Some e →
  parseFile Unmarshal (content +:+ (text +:+ newline)) = parseFile Unmarshal content ++ [e].
Proof.
  intros Hc Ht He. unfold parseFile. rewrite fileLines_append, omap_app by done. csimpl.
  by rewrite He.
Qed.

(** Written after a truncated line, as an unclean shutdown leaves it, the first
    entry is swallowed by it and lost to every reader. *)
Lemma truncated_tail_swallows_entry Unmarshal content tail text :
  complete content → CountByte tail "010" = 0%nat → CountByte text "010" = 0%nat →
  parseLine Unmarshal tail = None → parseLine Unmarshal (tail +:+ text) = None →
  parseFile Unmarshal (content +:+ tail +:+ (text +:+ newline)) = parseFile Unmarshal content.
Proof.
  intros Hc Ht Hx Hp1 Hp2. rewrite (sapp_assoc tail text newline). unfold parseFile.
  rewrite fileLines_append, omap_app by (done || (rewrite CountByte_app; lia)). csimpl.
  by rewrite Hp2, app_nil_r.
Qed.

(** ** Rotated files *)

Lemma String_le_app s t u : String.le (s +:+ t) (s +:+ u) ↔ String.le t u.
Proof.
  induction s as [|c s IH]; [done|]. rewrite <-IH. unfold String.le, String.leb. simpl.
  assert (Ascii.compare c c = Eq) as -> by (unfold Ascii.compare; apply N.compare_refl). done.
Qed.

Lemma backups_elem b p : p ∈ backups b ↔ isBackup (path b) p = true ∧ is_Some (fs b !! p).
Proof.
  unfold backups. rewrite merge_sort_Permutation, list_elem_of_filter, list_elem_of_fmap.
  split.
  - intros [Hb ([q c] & -> & Hq%elem_of_map_to_list)]. simpl in *. by rewrite Hq.
  - intros [Hb [c Hc]]. split; [done|]. exists (p, c). by rewrite elem_of_map_to_list.
Qed.

Lemma backups_NoDup b : NoDup (backups b).
Proof.
  unfold backups. rewrite merge_sort_Permutation. apply NoDup_filter, NoDup_fst_map_to_list.
Qed.

Lemma backups_sorted b : StronglySorted String.le (backups b).
Proof. apply StronglySorted_merge_sort; apply _. Qed.

(** The backups are the one sorted list of the backup files. *)
Lemma backups_unique b l :
  StronglySorted String.le l → NoDup l →
  (∀ p, p ∈ l ↔ isBackup (path b) p = true ∧ is_Some (fs b !! p)) → backups b = l.
Proof.
  intros Hs Hnd Hl. apply (StronglySorted_unique String.le); [apply backups_sorted|done|].
  apply NoDup_Permutation; [apply backups_NoDup|done|]. intros p. by rewrite backups_elem, Hl.
Qed.

Lemma StronglySorted_filter {A} (R : relation A) (P : A → Prop) `{∀ x, Decision (P x)} l :
  StronglySorted R l → StronglySorted R (filter P l).
Proof.
  induction 1 as [|x l Hs IH Hx]; [constructor|]. rewrite filter_cons. case_decide; [|done].
  constructor; [done|]. apply Forall_forall. intros y [_ Hy]%list_elem_of_filter.
  by rewrite Forall_forall in Hx; apply Hx.
Qed.

(** With fewer files the backups are those left. *)
Lemma backups_filter b b' :
  path b' = path b → (∀ p, isBackup (path b) p = true → is_Some (fs b' !! p) → is_Some (fs b !! p)) →
  backups b' = filter (λ p, is_Some (fs b' !! p)) (backups b).
Proof.
  intros Hp Hsub. apply backups_unique.
  - apply StronglySorted_filter, backups_sorted.
  - apply NoDup_filter, backups_NoDup.
  - intros p. rewrite list_elem_of_filter, backups_elem, Hp. naive_solver.
Qed.

Lemma removeFiles_spec o ps b b' :
  removeFiles o ps b = (b', Ok tt) →
  path b' = path b ∧ maxBackups b' = maxBackups b ∧ maxFileSize b' = maxFileSize b ∧
  isOpen b' = isOpen b ∧ writerError b' = writerError b ∧ size b' = size b ∧ calls b' = calls b ∧
  ∀ p, fs b' !! p = if decide (p ∈ ps) then None else fs b !! p.
Proof.
  revert b. induction ps as [|q ps IH]; intros b; simpl; [by intros [= <-]|].
  destruct (removeError o q); [done|]. intros H. apply IH in H. simpl in H.
  destruct H as (?&?&?&?&?&?&?&Hfs). split_and!; try done. intros p. rewrite Hfs.
  repeat case_decide; try done.
  - set_solver.
  - apply lookup_delete_None. left. set_solver.
  - apply lookup_delete_ne. set_solver.
Qed.

(** The oldest files go. *)
Lemma pruneBackups_spec o b b' :
  pruneBackups o b = (b', Ok tt) →
  path b' = path b ∧ maxBackups b' = maxBackups b ∧ maxFileSize b' = maxFileSize b ∧
  calls b' = calls b ∧ backups b' = lastN (maxBackups b) (backups b) ∧
  ∀ p, p ∉ backups b ∨ p ∈ backups b' → fs b' !! p = fs b !! p.
Proof.
  unfold pruneBackups. destruct (Nat.leb_spec (length (backups b)) (maxBackups b)).
  { intros [= <-]. split_and!; try done. by rewrite lastN_all. }
  unfold lastN. set (k := (length (backups b) - maxBackups b)%nat).
  intros (Hp & Hmb & Hms & _ & _ & _ & Hcalls & Hfs)%removeFiles_spec.
  pose proof (backups_NoDup b) as Hnd. rewrite <-(take_drop k (backups b)) in Hnd.
  apply NoDup_app in Hnd as (_ & Hdisj & Hnd).
  assert (backups b' = drop k (backups b)) as Hb.
  { apply backups_unique; [|done|].
    - pose proof (backups_sorted b) as Hs. rewrite <-(take_drop k (backups b)) in Hs.
      by eapply StronglySorted_app_1_r.
    - intros p. rewrite Hp, Hfs. split.
      + intros Hin. rewrite decide_False by (intros ?; by eapply Hdisj).
        apply backups_elem. rewrite <-(take_drop k (backups b)). apply elem_of_app. by right.
      + intros [Hb Hs]. case_decide as Ht; [by destruct Hs|].
        assert (p ∈ backups b) as Hin by (by apply backups_elem).
        rewrite <-(take_drop k (backups b)), elem_of_app in Hin. naive_solver. }
  split_and!; try done. intros p Hcase. rewrite Hfs. rewrite decide_False; [done|].
  intros Ht. destruct Hcase as [Hn|Hin].
  - apply Hn. rewrite <-(take_drop k (backups b)). apply elem_of_app. by left.
  - rewrite Hb in Hin. by eapply Hdisj.
Qed.

Lemma isBackup_length path p : isBackup path p = true → (String.length path < String.length p)%nat.
Proof.
  unfold isBackup. intros [[t ->]%HasPrefix_spec _]%andb_true_iff. rewrite !slength_app. simpl. lia.
Qed.

Lemma isBackup_self path : isBackup path path = false.
Proof. apply not_true_iff_false. intros ?%isBackup_length. lia. Qed.

Lemma openActive_spec o b b' :
  openActive o b = (b', Ok tt) →
  path b' = path b ∧ maxBackups b' = maxBackups b ∧ maxFileSize b' = maxFileSize b ∧
  calls b' = calls b ∧ isOpen b' = true ∧ writerError b' = None ∧
  backups b' = backups b ∧ fs b' = <[path b := default "" (fs b !! path b)]> (fs b).
Proof.
  unfold openActive. destruct (openError o); [done|]. destruct (chmodError o); [done|].
  destruct (statError o); [done|]. intros [= <-]. split_and!; try done.
  apply backups_unique; [apply backups_sorted|apply backups_NoDup|]. intros p.
  rewrite backups_elem. simpl. split; intros [Hp Hs]; (split; [done|]).
  all: assert (path b ≠ p) by (intros <-; by rewrite isBackup_self in Hp).
  - by rewrite lookup_insert_ne.
  - by rewrite lookup_insert_ne in Hs.
Qed.

(** The state between renaming the active file and pruning. *)
Definition renamed (stampText : Z → string) (o : Outside) (content : string) (b : fileBackend) :
    fileBackend :=
  setFs (λ m, <[rotated stampText o b := content]> (delete (path b) m))
    (setFile false None (size b) b).

Lemma rotate_spec stampText o b b' :
  rotate stampText o b = (b', Ok tt) →
  ∃ content, fs b !! path b = Some content ∧
    path b' = path b ∧ maxBackups b' = maxBackups b ∧ maxFileSize b' = maxFileSize b ∧
    calls b' = calls b ∧ isOpen b' = true ∧ writerError b' = None ∧
    let b1 := renamed stampText o content b in
    backups b' = lastN (maxBackups b) (backups b1) ∧
    (rotated stampText o b ≠ path b → fs b' !! path b = Some "") ∧
    ∀ p, p ∈ backups b' → fs b' !! p = fs b1 !! p.
Proof.
  unfold rotate. destruct (writerError b); [done|]. destruct (isOpen b); [|done]. simpl.
  destruct (closeError o); [done|]. destruct (renameError o); [done|].
  destruct (fs b !! path b) as [content|] eqn:Hc; [|done].
  change (setFs _ _) with (renamed stampText o content b). set (b1 := renamed _ _ _ _).
  destruct (pruneBackups o b1) as [b2 [[]|]] eqn:Hprune; [|done].
  apply pruneBackups_spec in Hprune as (Hp & Hmb & Hms & Hcalls & Hb2 & Hfs).
  intros (Hp' & Hmb' & Hms' & Hcalls' & Ho & Hw & Hb' & Hfs')%openActive_spec.
  exists content. split; [done|]. rewrite Hp', Hp, Hmb', Hmb, Hms', Hms, Hcalls', Hcalls.
  split_and!; try done.
  - by rewrite Hb', Hb2.
  - intros Hne. rewrite Hfs', Hp. change (path b1) with (path b). rewrite lookup_insert_eq.
    rewrite Hfs. { simpl. by rewrite lookup_insert_ne, lookup_delete_eq. }
    left. rewrite backups_elem. change (path b1) with (path b). by rewrite isBackup_self; intros [].
  - intros p Hin. rewrite Hb' in Hin. rewrite Hfs', Hp. change (path b1) with (path b).
    rewrite lookup_insert_ne; [apply Hfs; by right|]. intros <-.
    apply backups_elem in Hin as [Hx _]. rewrite Hp in Hx. change (path b1) with (path b) in Hx.
    by rewrite isBackup_self in Hx.
Qed.

(** After a successful rotation at most maxBackups rotated files are left. *)
Theorem rotation_bounds_backups stampText o b b' :
  rotate stampText o b = (b', Ok tt) → (length (backups b') ≤ maxBackups b')%nat.
Proof.
  intros (content & _ & _ & -> & _ & _ & _ & _ & -> & _)%rotate_spec. rewrite length_lastN. lia.
Qed.

(** ** The file backend keeps the promises of a backend *)

Section laws.
Context (Marshal : AuditEntry → res string string) (Unmarshal : string → option AuditEntry).
Context (stampText : Z → string) (env : nat → Outside).

Notation stamp n := (stampText (clock (env n))).

(** The clock moves on between calls, and later times have later names; names
    hold no separator. *)
Hypothesis stamp_later : ∀ n m, (n < m)%nat → String.le (stamp n) (stamp m) ∧ stamp n ≠ stamp m.
Hypothesis stamp_name : ∀ t, CountByte (stampText t) "/" = 0%nat.

Definition fileEntries (b : fileBackend) (p : string) : list AuditEntry :=
  parseFile Unmarshal (default "" (fs b !! p)).

Definition file_retained (b : fileBackend) : list AuditEntry :=
  (backups b ++ [path b]) ≫= fileEntries b.

(** The file is open, holds whole lines, and the backups are the backend's own. *)
Record file_good (b : fileBackend) : Prop := {
  good_open : isOpen b = true;
  good_writer : writerError b = None;
  good_active : ∃ content, fs b !! path b = Some content ∧ complete content;
  good_backups : ∀ p, p ∈ backups b →
    ∃ n, (n < calls b)%nat ∧ p = path b +:+ "." +:+ stamp n;
}.

Lemma nextCall_good b : file_good b → file_good (nextCall b).
Proof.
  intros [Ho Hw Ha Hb]. split; [done..|].
  intros p Hp. destruct (Hb p Hp) as (n & Hn & ->).
  exists n. split; [simpl; lia|done].
Qed.

Lemma bind_entries_ext ps b b' :
  (∀ p, p ∈ ps → fs b' !! p = fs b !! p) → ps ≫= fileEntries b' = ps ≫= fileEntries b.
Proof.
  intros H. induction ps as [|p ps IH]; [done|]. csimpl. rewrite IH by (intros; apply H; by right).
  unfold fileEntries at 1 3. by rewrite H by left.
Qed.

Lemma path_not_backup b : path b ∉ backups b.
Proof. rewrite backups_elem, isBackup_self. by intros []. Qed.

Lemma append_good o e text b b' :
  file_good b → CountByte text "010" = 0%nat → parseLine Unmarshal text = Some e →
  append o (text +:+ newline) b = (b', Ok tt) →
  file_good b' ∧ file_retained b' = file_retained b ++ [e].
Proof.
  intros [Ho Hw (content & Hc & Hcomp) Hb] Ht He. unfold append. rewrite Hw, Ho. simpl.
  destruct (writeError o) as [[]|]; [done|]. destruct (syncError o); [done|]. intros [= <-].
  set (b' := setFile _ _ _ _).
  assert (backups b' = backups b) as Hbk.
  { apply backups_unique; [apply backups_sorted|apply backups_NoDup|]. intros p.
    rewrite backups_elem. simpl. by rewrite lookup_alter_is_Some. }
  assert (fs b' !! path b = Some (content +:+ (text +:+ newline))) as Hc'.
  { simpl. by rewrite lookup_alter_eq, Hc. }
  split.
  - split; [done..| |].
    + exists (content +:+ (text +:+ newline)). split; [done|]. right. exists (content +:+ text).
      by rewrite sapp_assoc.
    + rewrite Hbk. done.
  - unfold file_retained. rewrite Hbk, !bind_app. rewrite (bind_entries_ext _ b b').
    + change (path b') with (path b). csimpl. unfold fileEntries at 2 4. rewrite Hc', Hc. simpl.
      rewrite !app_nil_r, (parseFile_append _ _ _ e) by done. by rewrite (assoc_L (++)).
    + intros p Hp. simpl. rewrite lookup_alter_ne; [done|]. intros <-. by apply path_not_backup in Hp.
Qed.

Lemma renamed_backups b content :
  file_good b → backups (renamed stampText (env (calls b)) content (nextCall b)) =
    backups b ++ [rotated stampText (env (calls b)) b].
Proof.
  clear Marshal Unmarshal. intros [_ _ _ Hb]. set (new := rotated stampText (env (calls b)) b).
  assert (∀ p, p ∈ backups b → String.le p new ∧ p ≠ new) as Hlt.
  { intros p (n & Hn & ->)%Hb. subst new. unfold rotated. destruct (stamp_later _ _ Hn) as [Hle Hne].
    split; [by rewrite !String_le_app|]. by intros ?%sapp_cancel_l%sapp_cancel_l. }
  apply backups_unique.
  - apply StronglySorted_app. split_and!; [|apply backups_sorted|repeat constructor].
    intros x y Hx ->%list_elem_of_singleton. by apply Hlt.
  - apply NoDup_app. split_and!; [apply backups_NoDup| |apply NoDup_singleton].
    intros p Hp ->%list_elem_of_singleton. by apply Hlt in Hp as [_ ?].
  - intros p. rewrite elem_of_app, list_elem_of_singleton, backups_elem. simpl.
    rewrite lookup_insert_is_Some. change (rotated _ _ (nextCall b)) with new.
    assert (isBackup (path b) new = true) as Hnew.
    { subst new. unfold rotated, isBackup. rewrite sapp_assoc, HasPrefix_app. simpl.
      rewrite <-sapp_assoc, TrimPrefix_app. simpl. by rewrite stamp_name. }
    destruct (decide (p = new)) as [->|Hne]; [by naive_solver|].
    rewrite lookup_delete_is_Some. split.
    + intros [[Hp Hs]|?]; [|done]. split; [done|]. right. split; [done|]. split; [|done].
      intros <-. by rewrite isBackup_self in Hp.
    + intros [Hp [?|(_ & _ & Hs)]]; [done|by left].
Qed.

Lemma rotate_good b b' :
  file_good b → rotate stampText (env (calls b)) (nextCall b) = (b', Ok tt) →
  file_good b' ∧ file_retained b' `suffix_of` file_retained b.
Proof.
  intros Hg (content & Hc & Hp & _ & _ & Hcalls & Ho & Hw & Hbk & Hact & Hfs)%rotate_spec.
  simpl in Hc, Hp, Hcalls. rewrite (renamed_backups b content Hg) in Hbk. simpl in Hbk, Hact.
  set (new := rotated stampText (env (calls b)) b) in *.
  change (rotated stampText (env (calls b)) (nextCall b)) with new in *.
  assert (new ≠ path b) as Hne.
  { intros Heq. apply (f_equal String.length) in Heq. subst new. unfold rotated in Heq.
    rewrite !slength_app in Heq. simpl in Heq. lia. }
  specialize (Hact Hne). pose proof Hg as [_ _ _ Hb]. split.
  - split; [done..|exists ""; rewrite Hp; split; [done|by left]|]. intros p Hin. rewrite Hbk in Hin.
    rewrite Hp, Hcalls.
    assert (p ∈ backups b ++ [new]) as Hin'.
    { destruct (lastN_suffix (maxBackups b) (backups b ++ [new])) as [k ->].
      rewrite elem_of_app. by right. }
    rewrite elem_of_app, list_elem_of_singleton in Hin'. destruct Hin' as [Hpb| ->].
    + destruct (Hb p Hpb) as (n & ? & ->). exists n. split; [lia|done].
    + exists (calls b). split; [lia|done].
  - unfold file_retained. rewrite Hp, bind_app.
    assert ([path b] ≫= fileEntries b' = []) as ->.
    { csimpl. unfold fileEntries. by rewrite Hact. }
    set (b1 := renamed stampText (env (calls b)) content (nextCall b)) in *.
    rewrite app_nil_r, (bind_entries_ext _ b1 b') by done. rewrite Hbk.
    assert ((backups b ++ [new]) ≫= fileEntries b1 = (backups b ++ [path b]) ≫= fileEntries b) as <-.
    { rewrite !bind_app. f_equal.
      - apply bind_entries_ext. intros p Hin. pose proof (path_not_backup b) as Hpath.
        destruct (Hb p Hin) as (n & Hn & Heq). simpl. rewrite lookup_insert_ne, lookup_delete_ne.
        + done.
        + by intros <-.
        + intros Hx. change (new = p) in Hx. subst p new. unfold rotated in Hx.
          apply sapp_cancel_l, sapp_cancel_l in Hx. by destruct (stamp_later _ _ Hn) as [_ []].
      - csimpl. unfold fileEntries. change (fs b1 !! new) with
          (<[new := content]> (delete (path b) (fs b)) !! new).
        by rewrite lookup_insert_eq, Hc. }
    destruct (lastN_split (maxBackups b) (backups b ++ [new])) as (k & Hk & _).
    rewrite Hk at 2. rewrite bind_app. by eexists.
Qed.

Lemma fileStore_good e b b' :
  file_good b → encodable Marshal Unmarshal e →
  fileStore Marshal stampText env e b = (b', Ok tt) →
  file_good b' ∧ last (file_retained b') = Some e ∧
  file_retained b' `suffix_of` file_retained b ++ [e].
Proof.
  intros Hg (text & Hm & Ht & He). unfold fileStore. rewrite Hm.
  assert (∀ o b1, file_good b1 → file_retained b1 `suffix_of` file_retained b →
    append o (text +:+ newline) b1 = (b', Ok tt) →
    file_good b' ∧ last (file_retained b') = Some e ∧
    file_retained b' `suffix_of` file_retained b ++ [e]) as Happ.
  { intros o b1 Hg1 Hs Ha. destruct (append_good _ _ _ _ _ Hg1 Ht He Ha) as [Hg' ->].
    split; [done|]. rewrite last_snoc. split; [done|]. destruct Hs as [k ->].
    exists k. by rewrite (assoc_L (++)). }
  destruct (_ && _).
  - destruct (rotate _ _ _) as [b1 [[]|]] eqn:Hr; [|done].
    apply rotate_good in Hr as [Hg1 Hs]; [|done]. by apply (Happ _ b1).
  - by apply Happ; [apply nextCall_good|].
Qed.

Lemma readFiles_Ok o ps b es : readFiles Unmarshal o ps b = Ok es → es = ps ≫= fileEntries b.
Proof.
  revert es. induction ps as [|p ps IH]; intros es; simpl; [by intros [= <-]|].
  intros (l & Hl & (more & Hm & [= <-])%res_bind_Ok)%res_bind_Ok. csimpl. f_equal; [|by apply IH].
  unfold readEntriesFromFile in Hl. unfold fileEntries. destruct (readError o p); [done|].
  destruct (fs b !! p) as [c|]; simpl in *; [|by injection Hl as <-].
  destruct (scanFails c); [done|]. by injection Hl as <-.
Qed.

Lemma fileQuery_good limit offset f b b' r :
  file_good b → fileQuery Unmarshal env limit offset f b = Some (b', Ok r) →
  file_good b' ∧ file_retained b' = file_retained b ∧
  paginate (newestFirst f (file_retained b)) limit offset = Some r.
Proof.
  intros Hg. unfold fileQuery. destruct (readAllLocked _ _ _) as [all|] eqn:Hr; [|done].
  intros (r' & Hp & [= <- <-])%bind_Some. split; [by apply nextCall_good|]. split; [done|].
  unfold readAllLocked in Hr. simpl in Hr. rewrite (good_writer _ Hg) in Hr.
  apply readFiles_Ok in Hr as ->. exact Hp.
Qed.

(** No entry of a removed file is newer than the cutoff. *)
Lemma newest_le es e : e ∈ es → Timestamp e ≤ newest es.
Proof.
  clear stamp_later stamp_name. unfold newest. assert (∀ t, t ≤ foldl (λ t e, if t <? Timestamp e then Timestamp e else t) t es ∧
    ∀ e, e ∈ es → Timestamp e ≤ foldl (λ t e, if t <? Timestamp e then Timestamp e else t) t es)
    as Hgen; [|by apply Hgen].
  induction es as [|x es IH]; intros t; simpl; [split; [lia|set_solver]|].
  destruct (IH (if t <? Timestamp x then Timestamp x else t)) as [H1 H2].
  destruct (Z.ltb_spec t (Timestamp x)).
  all: split; [lia|]; intros e' [->|?]%elem_of_cons; [lia|auto].
Qed.

Lemma cleanupFiles_Ok o cutoff ps b b' :
  cleanupFiles Unmarshal o cutoff ps b = (b', Ok tt) →
  path b' = path b ∧ isOpen b' = isOpen b ∧ writerError b' = writerError b ∧ calls b' = calls b ∧
  ∀ p, fs b' !! p = fs b !! p ∨
    p ∈ ps ∧ fs b' !! p = None ∧ ∀ e, e ∈ fileEntries b p → Timestamp e < cutoff.
Proof.
  clear stamp_later stamp_name. revert b.
  induction ps as [|q ps IH]; intros b; simpl; [intros [= <-]; split_and!; auto|].
  destruct (readEntriesFromFile _ _ _ _) as [es|] eqn:Hr; [|done].
  destruct (_ && _) eqn:Hrem.
  - destruct (removeError o q); [done|]. intros (Hp & Ho & Hw & Hn & Hfs)%IH. simpl in *.
    split_and!; try done. intros p. destruct (decide (q = p)) as [<-|Hne].
    + right. split; [by left|]. split.
      { destruct (Hfs q) as [->|(_ & -> & _)]; [by rewrite lookup_delete_eq|done]. }
      apply andb_true_iff in Hrem as [_ Hlt]. apply Z.ltb_lt in Hlt. intros e He.
      assert (Timestamp e ≤ newest es); [|lia]. apply newest_le.
      pose proof (readFiles_Ok o [q] b es) as Hes. simpl in Hes. rewrite Hr in Hes. simpl in Hes.
      rewrite app_nil_r in Hes. rewrite Hes by done. csimpl. by rewrite app_nil_r.
    + destruct (Hfs p) as [->|(Hin & Hnone & He)].
      * left. by rewrite lookup_delete_ne.
      * right. split; [by right|]. split; [done|]. intros e Hin'. apply He.
        unfold fileEntries in *. simpl. by rewrite lookup_delete_ne.
  - intros (Hp & Ho & Hw & Hn & Hfs)%IH. split_and!; try done. intros p.
    destruct (Hfs p) as [|(? & ? & ?)]; [by left|right]. split; [by right|done].
Qed.

Lemma sublist_bind_filter (P : string → Prop) `{∀ p, Decision (P p)} b b' ps :
  (∀ p, P p → fs b' !! p = fs b !! p) →
  (filter P ps ≫= fileEntries b') `sublist_of` (ps ≫= fileEntries b).
Proof.
  intros Hfs. induction ps as [|p ps IH]; [done|]. rewrite filter_cons. csimpl.
  case_decide as Hp; csimpl.
  - apply sublist_app; [|done]. unfold fileEntries. by rewrite Hfs.
  - by apply sublist_inserts_l.
Qed.

Lemma fileCleanup_good cutoff b b' :
  file_good b → fileCleanup Unmarshal env cutoff b = (b', Ok tt) →
  file_good b' ∧ file_retained b' `sublist_of` file_retained b ∧
  ∀ e, e ∈ file_retained b → cutoff < Timestamp e → e ∈ file_retained b'.
Proof.
  intros Hg (Hp & Ho & Hw & Hn & Hfs)%cleanupFiles_Ok. simpl in *.
  pose proof (path_not_backup b) as Hnb.
  assert (∀ p, is_Some (fs b' !! p) → fs b' !! p = fs b !! p) as Hkept.
  { intros p Hs. destruct (Hfs p) as [?|(_ & Hnone & _)]; [done|]. rewrite Hnone in Hs. by destruct Hs. }
  assert (fs b' !! path b = fs b !! path b) as Hact.
  { destruct (Hfs (path b)) as [?|(Hin & _)]; done. }
  assert (backups b' = filter (λ p, is_Some (fs b' !! p)) (backups b)) as Hbk.
  { apply backups_filter; [done|]. intros p _ Hs. by rewrite <-(Hkept p Hs). }
  assert (fileEntries b' (path b) = fileEntries b (path b)) as Hpe.
  { unfold fileEntries. by rewrite Hact. }
  split_and!.
  - destruct (nextCall_good b Hg) as [Ho' Hw' Ha' Hb']. split.
    + by rewrite Ho.
    + by rewrite Hw.
    + rewrite Hp, Hact. apply Ha'.
    + rewrite Hbk, Hp, Hn. intros p [_ Hin]%list_elem_of_filter. by apply Hb'.
  - unfold file_retained. rewrite Hp, Hbk, !bind_app. apply sublist_app.
    + by apply sublist_bind_filter.
    + csimpl. by rewrite Hpe.
  - unfold file_retained. rewrite Hp, Hbk. intros e. rewrite !list_elem_of_bind.
    intros (p & He & Hin) Hlt. exists p. rewrite elem_of_app in *.
    destruct Hin as [Hin|Hin]; [|rewrite list_elem_of_singleton in Hin; subst p].
    + destruct (Hfs p) as [Heq|(_ & _ & Hold)]; [|apply Hold in He; lia].
      split; [unfold fileEntries; by rewrite Heq|]. left. apply list_elem_of_filter.
      split; [|done]. rewrite Heq. by apply backups_elem in Hin as [_ ?].
    + split; [by rewrite Hpe|]. right. by left.
Qed.

#[local] Existing Instance file_StorageBackend.

(** So what is proved of the logger over any backend holds of this one. *)
#[local] Instance file_BackendLaws :
  @BackendLaws fileBackend (file_StorageBackend Marshal Unmarshal stampText env).
Proof.
  refine {| retained := file_retained; good := file_good;
            storable := encodable Marshal Unmarshal |}.
  - intros. by apply fileStore_good.
  - intros limit offset f b b' r. apply fileQuery_good.
  - intros cutoff b b'. apply fileCleanup_good.
Defined.

(** Entries stored one after the other, [None] if one is not. *)
Fixpoint storeAll (es : list AuditEntry) (b : fileBackend) : option fileBackend :=
  match es with
  | [] => Some b
  | e :: rest =>
      match fileStore Marshal stampText env e b with
      | (b', Ok _) => storeAll rest b'
      | (_, Err _) => None
      end
  end.

Lemma newFileBackend_good o filePath max_ backups_ b :
  newFileBackend o None ∅ filePath max_ backups_ = Ok b → file_good b ∧ file_retained b = [].
Proof.
  unfold newFileBackend. case_decide; [done|]. set (b0 := Build_fileBackend _ _ _ _ _ _ _ _).
  destruct (openActive o b0) as [b' [[]|]] eqn:Ho; [|done]. intros [= <-].
  apply openActive_spec in Ho as (Hp & _ & _ & _ & Hopen & Hw & Hbk & Hfs).
  assert (backups b0 = []) as Hb0.
  { apply backups_unique; [constructor|constructor|]. intros p. simpl. rewrite lookup_empty.
    split; [by intros ?%elem_of_nil|]. by intros [_ [? ?]]. }
  rewrite Hb0 in Hbk. assert (fs b' !! path b' = Some "") as Ha.
  { by rewrite Hp, Hfs, lookup_insert_eq. }
  split.
  - split; [done..|exists ""; split; [done|by left]|]. rewrite Hbk. intros p Hin.
    by apply elem_of_nil in Hin.
  - unfold file_retained. rewrite Hbk. csimpl. unfold fileEntries. by rewrite Ha.
Qed.

Lemma storeAll_good es b b' :
  file_good b → Forall (encodable Marshal Unmarshal) es → storeAll es b = Some b' →
  file_good b' ∧ (es ≠ [] → last (file_retained b') = last es) ∧
  file_retained b' `suffix_of` file_retained b ++ es.
Proof.
  intros Hg He. revert b Hg. induction He as [|e es He _ IH]; intros b Hg; simpl.
  { intros [= <-]. rewrite app_nil_r. done. }
  destruct (fileStore _ _ _ _ _) as [b1 [[]|]] eqn:Hst; [|done].
  apply fileStore_good in Hst as (Hg1 & Hlast & Hsuf); [|done..].
  destruct es as [|e' es]; [by intros [= <-]|].
  intros (Hg' & Hlast' & Hsuf')%IH; [|done]. split; [done|]. split.
  - intros _. by apply Hlast'.
  - destruct Hsuf as [k1 Hk1], Hsuf' as [k2 Hk2]. exists (k1 ++ k2).
    rewrite <-(assoc_L (++)), <-Hk2, (assoc_L (++)), <-Hk1. by rewrite <-(assoc_L (++)).
Qed.

(** C29: entries stored in a new log file and its rotations are read back by a
    query for all of them newest first, starting with the last one; only the
    oldest can be missing, with the rotated files that were pruned. *)
Theorem file_log_end_to_end o filePath max_ backups_ b0 es b1 b2 page total :
  newFileBackend o None ∅ filePath max_ backups_ = Ok b0 →
  Forall (encodable Marshal Unmarshal) es → storeAll es b0 = Some b1 →
  fileQuery Unmarshal env (-1) 0 None b1 = Some (b2, Ok (page, total)) →
  reverse page `suffix_of` es ∧ total = len page ∧ (es ≠ [] → head page = last es).
Proof.
  intros [Hg Hnil]%newFileBackend_good He Hst Hq.
  destruct (storeAll_good _ _ _ Hg He Hst) as (Hg1 & Hlast & Hsuf). rewrite Hnil in Hsuf.
  apply fileQuery_good in Hq as (_ & _ & Hp); [|done].
  assert (newestFirst None (file_retained b1) = reverse (file_retained b1)) as Hn
    by (by apply filter_every, Forall_forall).
  rewrite Hn in Hp. unfold paginate in Hp. cbv zeta in Hp. change (0 <? 0) with false in Hp.
  change (0 <=? -1) with false in Hp. cbv iota in Hp.
  rewrite (proj2 (Z.ltb_ge _ 0)), slice_Some in Hp by (unfold len; lia). simpl in Hp.
  injection Hp as <- <-. rewrite drop_0, take_ge by (unfold len; lia).
  rewrite reverse_involutive. split; [done|]. split; [done|]. intros Hne. rewrite <-(Hlast Hne).
  by destruct (file_retained b1) as [|x l _] using rev_ind; [|rewrite last_snoc, reverse_snoc].
Qed.
End laws.

(** ** Concrete runs *)

(** Entries told apart by their user, one line each. *)
Definition toyMarshal (e : AuditEntry) : res string string :=
  if decide (UserID e = "bad") then Err "json: unsupported value" else Ok (UserID e).

Definition toyEntry (user : string) : AuditEntry := {|
  ID := ""; Timestamp := 5; Event := "oauth.user.login"; UserID := user; ClientID := ""; IP := "";
  UserAgent := ""; Details := None; Success := true; EError := "" |}.

Definition toyUnmarshal (line : string) : option AuditEntry := Some (toyEntry line).

Definition calm (t : Z) : Outside := {|
  clock := t; writeError := None; syncError := None; closeError := None; renameError := None;
  removeError := λ _, None; openError := None; chmodError := None; statError := None;
  readError := λ _, None |}.

Definition calmEnv (n : nat) : Outside := calm (Z.of_nat n).

(** Times as strings of as many letters, in lexical order. *)
Definition toyStamp (t : Z) : string := Nat.iter (Z.to_nat t) (String "t") "".

Lemma toyStamp_later n m : (n < m)%nat →
  String.le (toyStamp (clock (calmEnv n))) (toyStamp (clock (calmEnv m))) ∧
  toyStamp (clock (calmEnv n)) ≠ toyStamp (clock (calmEnv m)).
Proof.
  simpl. unfold toyStamp. rewrite !Nat2Z.id. revert m. induction n as [|n IH]; intros [|m] Hlt; try lia.
  - split; [|done]. unfold String.le. done.
  - destruct (IH m) as [Hle Hne]; [lia|]. split; [by apply (String_le_app "t")|].
    intros Heq. apply Hne. by injection Heq.
Qed.

Lemma toyStamp_name t : CountByte (toyStamp t) "/" = 0%nat.
Proof. unfold toyStamp. by induction (Z.to_nat t) as [|n IH]. Qed.

Definition toyLog : res string fileBackend := newFileBackend (calm 0) None ∅ "/log/audit" 6 1.

Lemma file_log_end_to_end_witness :
  ∃ b0 b1 b2 page, toyLog = Ok b0 ∧
    storeAll toyMarshal toyStamp calmEnv [toyEntry "ann"; toyEntry "bob"; toyEntry "cy"; toyEntry "dan"]
      b0 = Some b1 ∧
    fileQuery toyUnmarshal calmEnv (-1) 0 None b1 = Some (b2, Ok (page, 2)) ∧
    UserID <$> head page = Some "dan".
Proof.
  eexists _, _, _, _. split; [reflexivity|]. split; [vm_compute; reflexivity|].
  split; [vm_compute; reflexivity|].
  rewrite (proj2 (proj2 (file_log_end_to_end toyMarshal toyUnmarshal toyStamp calmEnv toyStamp_later
    toyStamp_name (calm 0) "/log/audit" 6 1 _
    [toyEntry "ann"; toyEntry "bob"; toyEntry "cy"; toyEntry "dan"] _ _ _ _
    ltac:(reflexivity) ltac:(repeat constructor; by eexists) ltac:(vm_compute; reflexivity)
    ltac:(vm_compute; reflexivity)))); done.
Defined.

(** The second call cannot rename the file. *)
Definition stuckEnv (n : nat) : Outside :=
  let o := calmEnv n in
  {| clock := clock o; writeError := None; syncError := None; closeError := None;
     renameError := if decide (n = 1%nat) then Some "rename: permission denied" else None;
     removeError := λ _, None; openError := None; chmodError := None; statError := None;
     readError := λ _, None |}.

Definition afterAnn : fileBackend := {|
  fs := {["/log/audit" := "annann" +:+ newline]}; path := "/log/audit"; maxFileSize := 6;
  maxBackups := 1; isOpen := true; writerError := None; size := 7; calls := 1 |}.

Lemma failed_store_is_final_witness :
  ∃ b' e, fileStore toyMarshal toyStamp stuckEnv (toyEntry "bob") afterAnn = (b', Err e) ∧
    is_ok (fileStore toyMarshal toyStamp stuckEnv (toyEntry "cy")
      (foldl (file_step toyMarshal toyUnmarshal toyStamp stuckEnv) b' [FCleanup 9])).2 = false.
Proof.
  eexists _, _. split; [vm_compute; reflexivity|].
  apply (failed_store_is_final toyMarshal toyUnmarshal toyStamp stuckEnv (toyEntry "bob") "bob"
    afterAnn _ "audit file backend: rotate rename: rename: permission denied");
    vm_compute; reflexivity.
Defined.

Lemma rotation_bounds_backups_witness :
  ∃ b', rotate toyStamp (calm 3) afterAnn = (b', Ok tt) ∧ (length (backups b') ≤ 1)%nat.
Proof.
  eexists. split; [vm_compute; reflexivity|].
  apply (rotation_bounds_backups toyStamp (calm 3) afterAnn). vm_compute. reflexivity.
Defined.
