(* ===== verification/ContextWindow.v ===== *)
(** * The context manager's token budget

    internal/context/manager.go: the items of a conversation's context, and the
    window of those that fit a number of tokens, chosen by one of five
    strategies.  Priorities are float64s (computed without fused operations);
    token counts are 64-bit ints.  The order sort.Slice leaves is a parameter
    with the laws of a sort, as are the hash and the orders of maps. *)
From S2P Require Import Prelude GoString GoNum.

#[local] Open Scope Z_scope.

Set Default Proof Using "Type*".

(** ** Data *)

Record ContextItem := {
  ID : string;
  Type_ : string;
  FilePath : string;
  Content : string;
  Metadata : option (gmap string Value);
  TokenCount : Z;
  Timestamp : Z;
  AccessCount : Z;
  LastAccess : Z;
  Priority : float64;
  Hash : string;
}.

Record ContextWindow := {
  Items : list ContextItem;
  TotalTokens : Z;
  WMaxTokens : Z;
  Truncated : bool;
  Strategy : string;
}.

Record ContextConfig := {
  MaxTokens : Z;
  TruncationStrategy : string;
  TypePriorities : option (gmap string float64);
  RetentionDays : Z;
  TokenEstimator : option (string → Z);
}.

Definition defaultTypePriorities : gmap string float64 := {[
  "edit" := float64_of 1; "file" := float64_const 8 10; "definition" := float64_const 7 10;
  "mention" := float64_const 6 10; "diagnostic" := float64_const 5 10;
  "git" := float64_const 4 10; "log" := float64_const 3 10 ]}.

Definition defaultTokenEstimator (content : string) : Z := Z.of_nat (String.length content) / 4.

(** The manager's configuration, with the defaults filled in. *)
Record Config := {
  cMaxTokens : Z;
  cStrategy : string;
  cPriorities : gmap string float64;
  cRetentionDays : Z;
  cEstimator : string → Z;
}.

Record ContextManager := {
  config : Config;
  items : gmap string ContextItem;
  window : ContextWindow;
}.

Definition NewContextManager (c : ContextConfig) : ContextManager :=
  let max := if MaxTokens c =? 0 then 32768 else MaxTokens c in
  {| config := {|
       cMaxTokens := max;
       cStrategy := if decide (TruncationStrategy c = "") then "intelligent"
                    else TruncationStrategy c;
       cPriorities := default defaultTypePriorities (TypePriorities c);
       cRetentionDays := if RetentionDays c =? 0 then 7 else RetentionDays c;
       cEstimator := default defaultTokenEstimator (TokenEstimator c) |};
     items := ∅;
     window := {| Items := []; TotalTokens := 0; WMaxTokens := max; Truncated := false;
                  Strategy := "" |} |}.

Definition setItems (f : gmap string ContextItem → gmap string ContextItem)
    (cm : ContextManager) : ContextManager :=
  {| config := config cm; items := f (items cm); window := window cm |}.

Definition setPriority (p : float64) (i : ContextItem) : ContextItem :=
  {| ID := ID i; Type_ := Type_ i; FilePath := FilePath i; Content := Content i;
     Metadata := Metadata i; TokenCount := TokenCount i; Timestamp := Timestamp i;
     AccessCount := AccessCount i; LastAccess := LastAccess i; Priority := p; Hash := Hash i |}.

Definition setFilePath (p : string) (i : ContextItem) : ContextItem :=
  {| ID := ID i; Type_ := Type_ i; FilePath := p; Content := Content i; Metadata := Metadata i;
     TokenCount := TokenCount i; Timestamp := Timestamp i; AccessCount := AccessCount i;
     LastAccess := LastAccess i; Priority := Priority i; Hash := Hash i |}.

Definition accessed (now : Z) (i : ContextItem) : ContextItem :=
  {| ID := ID i; Type_ := Type_ i; FilePath := FilePath i; Content := Content i;
     Metadata := Metadata i; TokenCount := TokenCount i; Timestamp := Timestamp i;
     AccessCount := int64 (AccessCount i + 1); LastAccess := now; Priority := Priority i;
     Hash := Hash i |}.

(** ** Priorities *)

(** A float64 held as the rational it denotes, whose denominator is a power of
    two. *)
Definition float64_of_value (q : Qcanon.Qc) : float64 :=
  binary_normalize prec64 emax64 (QArith_base.Qnum (Qcanon.this q))
    (- Z.log2 (Zpos (QArith_base.Qden (Qcanon.this q)))) false.

Definition typePriority (c : Config) (contextType : string) : float64 :=
  default (S754_zero false) (cPriorities c !! contextType).

Definition calculatePriority (c : Config) (contextType filePath content : string)
    (metadata : option (gmap string Value)) : float64 :=
  let p := typePriority c contextType in
  let p := if decide (contextType = "edit") then fadd p (float64_const 3 10) else p in
  let p := if Z.of_nat (String.length content) <? 1000 then fadd p (float64_const 1 10) else p in
  let p := if HasSuffix filePath ".go" then fadd p (float64_const 2 10) else p in
  match m ← metadata; m !! "priority" with
  | Some (VFloat64 q) => fadd p (float64_of_value q)
  | _ => p
  end.

(** time.Duration.Hours, of nanoseconds. *)
Definition Hour : Z := 3600 * 10 ^ 9.

Definition Hours (d : Z) : float64 :=
  fadd (float64_of (Z.quot d Hour)) (fdiv (float64_of (Z.rem d Hour)) (float64_of Hour)).

(** [age] is the time since the last access. *)
Definition calculateIntelligentPriority (c : Config) (age : Z) (item : ContextItem) : float64 :=
  let one := float64_of 1 in
  let recencyFactor := fdiv one (fadd one (fdiv (Hours age) (float64_of 24))) in
  let p := fadd (typePriority c (Type_ item)) (fmul recencyFactor (float64_const 3 10)) in
  let usage := fdiv (float64_of (AccessCount item)) (float64_of 10) in
  let usage := if fltb one usage then one else usage in
  let p := fadd p (fmul usage (float64_const 2 10)) in
  if 1000 <? TokenCount item then
    let penalty := fdiv (float64_of (TokenCount item)) (float64_of 10000) in
    let penalty := if fltb (float64_const 3 10) penalty then float64_const 3 10 else penalty in
    fsub p penalty
  else p.

(** ** Sorting *)

(** sort.Slice: a permutation, in order if [less] is a strict weak order; the
    order of equivalent elements is left open. *)
Class SortLib := { sortSlice : ∀ {A}, (A → A → bool) → list A → list A }.

Definition strict_weak_order {A} (less : A → A → bool) : Prop :=
  (∀ x, less x x = false) ∧ (∀ x y z, less x y = true → less y z = true → less x z = true) ∧
  (∀ x y z, less x y = false → less y z = false → less x z = false).

Class SortLaws `{SortLib} := {
  sort_perm {A} (less : A → A → bool) l : sortSlice less l ≡ₚ l;
  sort_sorted {A} (less : A → A → bool) l :
    strict_weak_order less → StronglySorted (λ x y, less y x = false) (sortSlice less l);
}.

Section manager.
Context `{SortLib}.

(** ** Truncation *)

Definition lessNewest (x y : ContextItem) : bool := Timestamp y <? Timestamp x.
Definition lessRecent (x y : ContextItem) : bool := LastAccess y <? LastAccess x.

Definition lessImportant (x y : ContextItem) : bool :=
  if negb (feqb (Priority x) (Priority y)) then fltb (Priority y) (Priority x)
  else LastAccess y <? LastAccess x.

Definition lessPriority (x y : ContextItem) : bool := fltb (Priority y) (Priority x).

(** The loop of selectItemsWithinTokenLimit: what does not fit is skipped. *)
Fixpoint selectItems (max tokens : Z) (l : list ContextItem) : list ContextItem :=
  match l with
  | [] => []
  | item :: rest =>
      if int64 (tokens + TokenCount item) <=? max
      then item :: selectItems max (int64 (tokens + TokenCount item)) rest
      else selectItems max tokens rest
  end.

(** One type's items up to the first that does not fit, with the tokens so far. *)
Fixpoint selectGroup (max tokens : Z) (l : list ContextItem) : list ContextItem * Z :=
  match l with
  | [] => ([], tokens)
  | item :: rest =>
      if int64 (tokens + TokenCount item) <=? max
      then let '(selected, t) := selectGroup max (int64 (tokens + TokenCount item)) rest in
           (item :: selected, t)
      else ([], tokens)
  end.

(** [typeOrder] is the order in which the priorities' map is visited. *)
Definition getTypesByPriority (c : Config) (typeOrder : list string) : list string :=
  sortSlice (λ x y, fltb (typePriority c y) (typePriority c x)) typeOrder.

Fixpoint selectTypes (max tokens : Z) (types : list string) (l : list ContextItem) :
    list ContextItem :=
  match types with
  | [] => []
  | t :: rest =>
      let group := filter (λ i, Type_ i = t) l in
      if decide (group = []) then selectTypes max tokens rest l
      else
        let '(selected, tokens') := selectGroup max tokens (sortSlice lessImportant group) in
        selected ++ (if max <=? tokens' then [] else selectTypes max tokens' rest l)
  end.

Definition truncateByType (c : Config) (typeOrder : list string) (l : list ContextItem) :
    list ContextItem :=
  selectTypes (cMaxTokens c) 0 (getTypesByPriority c typeOrder) l.

(** The selected items with the name of the strategy.  The intelligent strategy
    finds its priorities in the items, where [prioritise] has put them. *)
Definition applyTruncationStrategy (c : Config) (typeOrder : list string) (l : list ContextItem) :
    list ContextItem * string :=
  if decide (cStrategy c = "oldest") then
    (selectItems (cMaxTokens c) 0 (sortSlice lessNewest l), "oldest")
  else if decide (cStrategy c = "lru") then
    (selectItems (cMaxTokens c) 0 (sortSlice lessRecent l), "lru")
  else if decide (cStrategy c = "by_type") then (truncateByType c typeOrder l, "by_type")
  else if decide (cStrategy c = "by_priority") then
    (selectItems (cMaxTokens c) 0 (sortSlice lessImportant l), "by_priority")
  else (selectItems (cMaxTokens c) 0 (sortSlice lessPriority l), "intelligent").

Definition intelligent (c : Config) : bool :=
  negb (bool_decide (cStrategy c ∈ ["oldest"; "lru"; "by_type"; "by_priority"])).

(** The first loop of truncateIntelligent writes to the stored items; [ages] are
    the times since their last accesses. *)
Definition prioritise (c : Config) (ages : string → Z) (i : ContextItem) : ContextItem :=
  if intelligent c then setPriority (calculateIntelligentPriority c (ages (ID i)) i) i else i.

Definition sumTokens (l : list ContextItem) : Z := foldl (λ t i, int64 (t + TokenCount i)) 0 l.

(** What a call of [updateWindow] meets: the orders of the maps and the ages. *)
Record Visit := { itemOrder : list string; typeOrder : list string; ages : string → Z }.

Definition allItems (order : list string) (m : gmap string ContextItem) : list ContextItem :=
  omap (λ id, m !! id) order.

Definition updateWindow (v : Visit) (cm : ContextManager) : ContextManager :=
  let items' := prioritise (config cm) (ages v) <$> items cm in
  let all := allItems (itemOrder v) items' in
  let '(selected, strategy) := applyTruncationStrategy (config cm) (typeOrder v) all in
  {| config := config cm; items := items';
     window := {| Items := selected; TotalTokens := sumTokens selected;
                  WMaxTokens := WMaxTokens (window cm);
                  Truncated := (length selected <? length all)%nat; Strategy := strategy |} |}.

(** ** Operations *)

(** crypto/sha256 in hexadecimal. *)
Context (sha256hex : string → string).

Definition calculateHash (content : string) : string := stake 8 (sha256hex content).

Definition generateID (contextType filePath content : string) : string :=
  stake 16 (sha256hex (contextType +:+ ":" +:+ filePath +:+ ":" +:+ calculateHash content)).

(** [now] and [access] are clock readings. *)
Definition AddContext (v : Visit) (now access : Z) (contextType filePath content : string)
    (metadata : option (gmap string Value)) (cm : ContextManager) : ContextManager :=
  let id := generateID contextType filePath content in
  let tokens := cEstimator (config cm) content in
  let priority := calculatePriority (config cm) contextType filePath content metadata in
  let item :=
    match items cm !! id with
    | Some existing =>
        {| ID := ID existing; Type_ := Type_ existing; FilePath := FilePath existing;
           Content := content;
           Metadata := match metadata with Some _ => metadata | None => Metadata existing end;
           TokenCount := tokens; Timestamp := Timestamp existing;
           AccessCount := int64 (AccessCount existing + 1); LastAccess := access;
           Priority := priority; Hash := calculateHash content |}
    | None =>
        {| ID := id; Type_ := contextType; FilePath := filePath; Content := content;
           Metadata := metadata; TokenCount := tokens; Timestamp := now; AccessCount := 1;
           LastAccess := access; Priority := priority; Hash := calculateHash content |}
    end in
  updateWindow v (setItems (insert id item) cm).

Definition GetContext (now : Z) (id : string) (cm : ContextManager) :
    ContextManager * res string ContextItem :=
  match items cm !! id with
  | None => (cm, Err ("context item not found: " +:+ id))
  | Some item => (setItems (insert id (accessed now item)) cm, Ok (accessed now item))
  end.

Definition GetContextByFile (order : list string) (filePath : string) (cm : ContextManager) :
    list ContextItem :=
  sortSlice lessImportant (filter (λ i, FilePath i = filePath) (allItems order (items cm))).

Definition GetCurrentWindow (cm : ContextManager) : ContextWindow := window cm.

Definition UpdateFilePath (oldPath newPath : string) (cm : ContextManager) : ContextManager :=
  setItems (fmap (λ i, if decide (FilePath i = oldPath) then setFilePath newPath i else i)) cm.

Definition RemoveContext (v : Visit) (id : string) (cm : ContextManager) : ContextManager :=
  updateWindow v (setItems (delete id) cm).

Definition RemoveContextByFile (v : Visit) (filePath : string) (cm : ContextManager) :
    ContextManager :=
  updateWindow v (setItems (delete_if (λ i, bool_decide (FilePath i = filePath))) cm).

(** [cutoff] is the time RetentionDays days ago. *)
Definition CleanupExpired (v : Visit) (cutoff : Z) (cm : ContextManager) : ContextManager :=
  updateWindow v
    (setItems (delete_if (λ i, (Timestamp i <? cutoff) && (LastAccess i <? cutoff))) cm).

Definition UpdateMaxTokens (v : Visit) (maxTokens : Z) (cm : ContextManager) : ContextManager :=
  let c := config cm in
  let w := window cm in
  let cm' := {|
    config := {| cMaxTokens := maxTokens; cStrategy := cStrategy c; cPriorities := cPriorities c;
                 cRetentionDays := cRetentionDays c; cEstimator := cEstimator c |};
    items := items cm;
    window := {| Items := Items w; TotalTokens := TotalTokens w; WMaxTokens := maxTokens;
                 Truncated := Truncated w; Strategy := Strategy w |} |} in
  if maxTokens <? TotalTokens (window cm') then updateWindow v cm' else cm'.

Record Statistics := {
  total_items : Z;
  total_tokens : Z;
  window_tokens : Z;
  window_items : Z;
  truncated : bool;
  type_breakdown : gmap string Z;
  max_tokens : Z;
  utilization : float64;
}.

Definition GetStats (order : list string) (cm : ContextManager) : Statistics :=
  let all := allItems order (items cm) in
  {| total_items := Z.of_nat (size (items cm));
     total_tokens := sumTokens all;
     window_tokens := TotalTokens (window cm);
     window_items := len (Items (window cm));
     truncated := Truncated (window cm);
     type_breakdown := foldl (λ m i, <[Type_ i := default 0 (m !! Type_ i) + 1]> m) ∅ all;
     max_tokens := cMaxTokens (config cm);
     utilization := fdiv (float64_of (TotalTokens (window cm)))
                      (float64_of (cMaxTokens (config cm))) |}.
End manager.

(** ** Selections *)

(** Token counts are far from the end of the ints; text has at most a quarter of
    its length, so the default estimator's are. *)
Definition tokens_ok (n : Z) : Prop := 0 ≤ n < 2 ^ 62.

Definition items_ok (l : list ContextItem) : Prop := Forall (λ i, tokens_ok (TokenCount i)) l.

Fixpoint total (l : list ContextItem) : Z :=
  match l with [] => 0 | i :: rest => TokenCount i + total rest end.

Lemma total_app l k : total (l ++ k) = total l + total k.
Proof. induction l as [|i l IH]; simpl; lia. Qed.

Lemma total_nonneg l : items_ok l → 0 ≤ total l.
Proof. unfold items_ok, tokens_ok. induction 1; simpl in *; lia. Qed.

Lemma int64_tokens n m : 0 ≤ n < 2 ^ 62 → 0 ≤ m < 2 ^ 62 → int64 (n + m) = n + m.
Proof. intros ? ?. apply int64_id. unfold in_int64, MaxInt. lia. Qed.

Lemma sumTokens_total l : items_ok l → total l < 2 ^ 62 → sumTokens l = total l.
Proof.
  intros Hl Ht. unfold sumTokens.
  assert (∀ t, 0 ≤ t → t + total l < 2 ^ 62 →
    foldl (λ t i, int64 (t + TokenCount i)) t l = t + total l) as Hgen; [|by apply Hgen].
  clear Ht. induction Hl as [|i l Hi Hl IH]; intros t H0 Ht; simpl in *; [lia|].
  pose proof (total_nonneg l Hl). unfold tokens_ok in Hi. rewrite int64_tokens by lia.
  rewrite IH; lia.
Qed.

Lemma items_ok_sub l k : l ⊆+ k → items_ok k → items_ok l.
Proof.
  unfold items_ok. rewrite !Forall_forall. intros Hs Hk i Hi. apply Hk.
  by eapply elem_of_submseteq.
Qed.

(** What a way of selecting promises: a part of the items within the budget
    left. *)
Definition selects (max tokens : Z) (l selected : list ContextItem) : Prop :=
  selected ⊆+ l ∧ tokens + total selected ≤ Z.max tokens max.

Lemma selectItems_spec max tokens l :
  items_ok l → tokens_ok tokens → max < 2 ^ 62 →
  selects max tokens l (selectItems max tokens l) ∧
  ∀ i, i ∈ l → i ∉ selectItems max tokens l →
    max < tokens + total (selectItems max tokens l) + TokenCount i.
Proof.
  unfold selects. intros Hl Ht Hm. revert tokens Ht.
  induction Hl as [|i l Hi Hl IH]; intros tokens Ht; simpl.
  { split; [split; [done|lia]|set_solver]. }
  unfold tokens_ok in *. rewrite int64_tokens by done.
  destruct (Z.leb_spec (tokens + TokenCount i) max) as [Hle|Hgt].
  - destruct (IH (tokens + TokenCount i)) as [[Hsub Hsum] Hmax]; [lia|]. simpl.
    split; [split; [by constructor|lia]|]. intros j. rewrite !elem_of_cons. intros Hj Hn.
    assert (max < tokens + TokenCount i + total (selectItems max (tokens + TokenCount i) l) +
      TokenCount j); [|lia]. apply Hmax; naive_solver.
  - destruct (IH tokens) as [[Hsub Hsum] Hmax]; [lia|].
    split; [split; [by constructor|lia]|]. intros j. rewrite elem_of_cons.
    intros [->|Hj] Hn; [|by apply Hmax].
    assert (0 ≤ total (selectItems max tokens l)); [|lia].
    by eapply total_nonneg, items_ok_sub.
Qed.

Lemma selectGroup_spec max tokens l :
  items_ok l → tokens_ok tokens → max < 2 ^ 62 →
  let '(selected, t) := selectGroup max tokens l in
  t = tokens + total selected ∧ selects max tokens l selected.
Proof.
  unfold selects. intros Hl Ht Hm. revert tokens Ht.
  induction Hl as [|i l Hi Hl IH]; intros tokens Ht; simpl; [split; [lia|split; [done|lia]]|].
  unfold tokens_ok in *. rewrite int64_tokens by done.
  destruct (Z.leb_spec (tokens + TokenCount i) max) as [Hle|Hgt].
  - specialize (IH (tokens + TokenCount i) ltac:(lia)).
    destruct (selectGroup _ _ _) as [selected t]. destruct IH as (-> & Hsub & Hsum). simpl.
    split; [lia|]. split; [by constructor|lia].
  - simpl. split; [lia|]. split; [apply submseteq_nil_l|lia].
Qed.

Lemma submseteq_filter_intro (P : ContextItem → Prop) `{∀ i, Decision (P i)} l k :
  l ⊆+ k → Forall P l → l ⊆+ filter P k.
Proof.
  intros Hs Hl. assert (filter P l = l) as <-.
  2: { clear Hl. induction Hs as [|i l k _ IH|i j l|i l k _ IH|l k m _ IH1 _ IH2]; [done|..].
       - rewrite !filter_cons. case_decide; [by constructor|done].
       - rewrite !filter_cons. repeat case_decide; try done. constructor.
       - rewrite filter_cons. case_decide; [by constructor|done].
       - by etrans. }
  clear Hs. induction Hl as [|i l Hi Hl IH]; [done|]. by rewrite filter_cons_True, IH.
Qed.

Lemma filter_both (P : ContextItem → Prop) `{∀ i, Decision (P i)} l :
  filter P l ++ filter (λ i, ¬ P i) l ≡ₚ l.
Proof.
  induction l as [|i l IH]; [done|]. rewrite !filter_cons. destruct (decide (P i)).
  - rewrite decide_False by naive_solver. simpl. by rewrite IH.
  - rewrite decide_True by done. by rewrite <-Permutation_middle, IH.
Qed.

Lemma selectTypes_spec `{SortLaws} max tokens types l :
  NoDup types → items_ok l → tokens_ok tokens → max < 2 ^ 62 →
  selects max tokens l (selectTypes max tokens types l) ∧
  Forall (λ i, Type_ i ∈ types) (selectTypes max tokens types l).
Proof.
  intros Hnd Hl Ht Hm. revert tokens l Hl Ht.
  induction Hnd as [|t types Hin Hnd IH]; intros tokens l Hl Ht; simpl.
  { split; [split; [apply submseteq_nil_l|simpl; lia]|constructor]. }
  destruct (decide (filter (λ i, Type_ i = t) l = [])) as [|Hne].
  { destruct (IH tokens l) as [? Hf]; [done..|]. split; [done|].
    eapply Forall_impl; [exact Hf|]. intros i. simpl. rewrite elem_of_cons. by right. }
  set (group := sortSlice lessImportant (filter (λ i, Type_ i = t) l)).
  assert (group ≡ₚ filter (λ i, Type_ i = t) l) as Hperm by apply sort_perm.
  assert (group ⊆+ l) as Hgl by (rewrite Hperm; apply sublist_submseteq, sublist_filter).
  pose proof (selectGroup_spec max tokens group (items_ok_sub _ _ Hgl Hl) Ht Hm) as Hgroup.
  destruct (selectGroup max tokens group) as [sel t']. destruct Hgroup as (-> & Hsub & Hsum).
  assert (Forall (λ i, Type_ i = t) sel) as Hsel.
  { apply Forall_forall. intros i Hi. eapply elem_of_submseteq in Hi; [|exact Hsub].
    rewrite Hperm, list_elem_of_filter in Hi. by destruct Hi. }
  assert (Forall (λ i, Type_ i ∈ t :: types) sel) as Hsel'.
  { eapply Forall_impl; [exact Hsel|]. intros i ->. by left. }
  pose proof (items_ok_sub _ _ Hsub (items_ok_sub _ _ Hgl Hl)) as Hselok.
  pose proof (total_nonneg _ Hselok). unfold tokens_ok in Ht.
  destruct (Z.leb_spec max (tokens + total sel)).
  { rewrite app_nil_r. split; [split; [by trans group|lia]|done]. }
  destruct (IH (tokens + total sel) l) as [[Hrest Hrsum] Hrt]; [done|unfold tokens_ok; lia|].
  split; [split|].
  - trans (filter (λ i, Type_ i = t) l ++ filter (λ i, Type_ i ≠ t) l).
    + apply submseteq_app; [by rewrite <-Hperm|]. apply submseteq_filter_intro; [done|].
      eapply Forall_impl; [exact Hrt|]. intros i Hi <-. done.
    + by rewrite filter_both.
  - rewrite total_app. lia.
  - apply Forall_app. split; [done|]. eapply Forall_impl; [exact Hrt|]. intros i ?. by right.
Qed.

(** ** The window of any reachable manager *)

Section window.
Context `{SortLaws} (sha256hex : string → string).

Lemma applyTruncationStrategy_selects c typeOrder l :
  NoDup typeOrder → items_ok l → cMaxTokens c < 2 ^ 62 →
  selects (cMaxTokens c) 0 l (applyTruncationStrategy c typeOrder l).1.
Proof.
  intros Hnd Hl Hm. unfold applyTruncationStrategy.
  assert (∀ less, selects (cMaxTokens c) 0 l (selectItems (cMaxTokens c) 0 (sortSlice less l)))
    as Hsel.
  { intros less. pose proof (sort_perm less l) as Hp.
    destruct (selectItems_spec (cMaxTokens c) 0 (sortSlice less l)) as [[Hs ?] _];
      [by eapply items_ok_sub; [rewrite Hp|]|unfold tokens_ok; lia|done|].
    split; [etrans; [exact Hs|by rewrite Hp]|done]. }
  repeat (case_decide; [first [apply Hsel|apply selectTypes_spec]|]); try done.
  all: first [unfold getTypesByPriority; by rewrite sort_perm|apply Hsel|unfold tokens_ok; lia].
Qed.

(** The operations that change the manager, with the orders of maps of a visit
    and a limit that is no huge int. *)
Definition visit_ok (v : Visit) (cm : ContextManager) : Prop :=
  NoDup (itemOrder v) ∧ NoDup (typeOrder v).

Inductive cm_step (cm : ContextManager) : ContextManager → Prop :=
  | step_add v now access type file content metadata : visit_ok v cm →
      cm_step cm (AddContext sha256hex v now access type file content metadata cm)
  | step_get now id : cm_step cm (GetContext now id cm).1
  | step_rename old new : cm_step cm (UpdateFilePath old new cm)
  | step_remove v id : visit_ok v cm → cm_step cm (RemoveContext v id cm)
  | step_remove_file v file : visit_ok v cm → cm_step cm (RemoveContextByFile v file cm)
  | step_cleanup v cutoff : visit_ok v cm → cm_step cm (CleanupExpired v cutoff cm)
  | step_limit v max : visit_ok v cm → max < 2 ^ 62 → cm_step cm (UpdateMaxTokens v max cm).

Record cm_ok (cm : ContextManager) : Prop := {
  ok_estimator : ∀ content, tokens_ok (cEstimator (config cm) content);
  ok_limit : cMaxTokens (config cm) < 2 ^ 62;
  ok_items : map_Forall (λ id i, ID i = id ∧ tokens_ok (TokenCount i)) (items cm);
  ok_window_limit : WMaxTokens (window cm) = cMaxTokens (config cm);
  ok_window_items : items_ok (Items (window cm));
  ok_total : TotalTokens (window cm) = total (Items (window cm));
  ok_budget : TotalTokens (window cm) ≤ Z.max 0 (cMaxTokens (config cm));
}.

Lemma allItems_ok order (m : gmap string ContextItem) :
  map_Forall (λ id i, ID i = id ∧ tokens_ok (TokenCount i)) m → items_ok (allItems order m).
Proof.
  intros Hm. apply Forall_forall. intros i (id & _ & Hi)%list_elem_of_omap. by apply Hm in Hi as [_ ?].
Qed.

Lemma prioritise_items c ages (m : gmap string ContextItem) :
  map_Forall (λ id i, ID i = id ∧ tokens_ok (TokenCount i)) m →
  map_Forall (λ id i, ID i = id ∧ tokens_ok (TokenCount i)) (prioritise c ages <$> m).
Proof.
  intros Hm id i. rewrite lookup_fmap. intros (j & Hj & ->)%fmap_Some. apply Hm in Hj as [? ?].
  unfold prioritise. by destruct (intelligent c).
Qed.

(** Making the window again. *)
Lemma updateWindow_ok v cm :
  NoDup (typeOrder v) → (∀ content, tokens_ok (cEstimator (config cm) content)) →
  cMaxTokens (config cm) < 2 ^ 62 →
  map_Forall (λ id i, ID i = id ∧ tokens_ok (TokenCount i)) (items cm) →
  WMaxTokens (window cm) = cMaxTokens (config cm) → cm_ok (updateWindow v cm).
Proof.
  intros Hnd He Hm Hi Hw. unfold updateWindow. set (all := allItems _ _).
  assert (items_ok all) as Hall by (by apply allItems_ok, prioritise_items).
  pose proof (applyTruncationStrategy_selects (config cm) (typeOrder v) all Hnd Hall Hm) as [Hs Ht].
  destruct (applyTruncationStrategy _ _ _) as [selected strategy]. simpl in *.
  pose proof (items_ok_sub _ _ Hs Hall) as Hsel.
  split; simpl; [done|done|by apply prioritise_items|done|done| |].
  - apply sumTokens_total; [done|]. lia.
  - rewrite sumTokens_total; [lia|done|lia].
Qed.

Lemma AddContext_ok v now access type file content metadata cm :
  cm_ok cm → NoDup (typeOrder v) →
  cm_ok (AddContext sha256hex v now access type file content metadata cm).
Proof.
  intros [He Hm Hi Hw _ _ _] Hnd. apply updateWindow_ok; simpl; try done.
  apply map_Forall_insert_2; [|done]. simpl.
  destruct (items cm !! _) as [existing|] eqn:Hex; simpl; [|done]. by apply Hi in Hex as [? _].
Qed.

Lemma cm_step_ok cm cm' : cm_step cm cm' → cm_ok cm → cm_ok cm'.
Proof.
  intros Hstep Hok. pose proof Hok as [He Hm Hi Hw Hwi Ht Hb].
  destruct Hstep as [v now access type file content metadata [_ Hv]|now id|old new|v id [_ Hv]
    |v file [_ Hv]|v cutoff [_ Hv]|v max [_ Hv] Hmax].
  - by apply AddContext_ok.
  - unfold GetContext. destruct (items cm !! id) as [i|] eqn:Hid; [|done]. split; simpl; try done.
    apply map_Forall_insert_2; [|done]. by apply Hi in Hid.
  - split; simpl; try done. intros id i. rewrite lookup_fmap. intros (j & Hj & ->)%fmap_Some.
    apply Hi in Hj as [? ?]. by case_decide.
  - apply updateWindow_ok; simpl; try done. by apply map_Forall_delete.
  - apply updateWindow_ok; simpl; try done. intros id i [? _]%delete_if_lookup_Some. by apply Hi.
  - apply updateWindow_ok; simpl; try done. intros id i [? _]%delete_if_lookup_Some. by apply Hi.
  - unfold UpdateMaxTokens. simpl. destruct (Z.ltb_spec max (TotalTokens (window cm))).
    + by apply updateWindow_ok.
    + split; simpl; try done. lia.
Qed.

Lemma cm_reachable_ok c cm :
  (∀ content, tokens_ok (default defaultTokenEstimator (TokenEstimator c) content)) →
  MaxTokens c < 2 ^ 62 → rtc cm_step (NewContextManager c) cm → cm_ok cm.
Proof.
  intros He Hm. revert cm. apply rtc_ind_r; [|by eauto using cm_step_ok].
  split; simpl; try done; try constructor.
  - case_match; lia.
  - case_match; lia.
Qed.

(** C31: through any sequence of operations, with no strategy named or any other,
    the tokens of the window are those of its items and never exceed the current
    limit, lowered ones included. *)
Theorem window_within_budget c cm :
  (∀ content, tokens_ok (default defaultTokenEstimator (TokenEstimator c) content)) →
  MaxTokens c < 2 ^ 62 → rtc cm_step (NewContextManager c) cm →
  let w := GetCurrentWindow cm in
  TotalTokens w = total (Items w) ∧ 0 ≤ TotalTokens w ≤ Z.max 0 (WMaxTokens w) ∧
  WMaxTokens w = cMaxTokens (config cm).
Proof.
  intros He Hm Hrun w. destruct (cm_reachable_ok c cm He Hm Hrun). subst w. unfold GetCurrentWindow.
  rewrite ok_total0. pose proof (total_nonneg _ ok_window_items0). split; [done|]. split; [lia|done].
Qed.

(** The windows a strategy other than by_type makes. *)
Lemma applyTruncationStrategy_maximal c typeOrder l i :
  cStrategy c ≠ "by_type" → items_ok l → cMaxTokens c < 2 ^ 62 → i ∈ l →
  i ∉ (applyTruncationStrategy c typeOrder l).1 →
  cMaxTokens c < total (applyTruncationStrategy c typeOrder l).1 + TokenCount i.
Proof.
  intros Hst Hl Hm Hi.
  assert (∀ less, i ∉ selectItems (cMaxTokens c) 0 (sortSlice less l) →
    cMaxTokens c < total (selectItems (cMaxTokens c) 0 (sortSlice less l)) + TokenCount i) as Hsel.
  { intros less. destruct (selectItems_spec (cMaxTokens c) 0 (sortSlice less l)) as [_ Hmax].
    - eapply items_ok_sub; [by rewrite sort_perm|done].
    - unfold tokens_ok. lia.
    - done.
    - apply Hmax. by rewrite sort_perm. }
  unfold applyTruncationStrategy. repeat (case_decide; [first [apply Hsel|done]|]). apply Hsel.
Qed.

Definition keyed (m : gmap string ContextItem) : Prop :=
  map_Forall (λ id i, ID i = id ∧ tokens_ok (TokenCount i)) m.

Lemma allItems_elem order (m m' : gmap string ContextItem) i :
  range_order m order → (∀ id, is_Some (m' !! id) → is_Some (m !! id)) →
  i ∈ allItems order m' ↔ ∃ id, m' !! id = Some i.
Proof.
  intros Ho Hd. unfold allItems. rewrite list_elem_of_omap. split; [intros (id & _ & ?); eauto|].
  intros [id Hid]. exists id. split; [|done]. apply (range_order_elem _ _ _ Ho). eauto.
Qed.

Lemma allItems_NoDup order m : NoDup order → keyed m → NoDup (ID <$> allItems order m).
Proof.
  intros Ho Hm. unfold allItems.
  induction Ho as [|id l Hid _ IH]; [constructor|]. csimpl.
  destruct (m !! id) as [i|] eqn:Hlook; [|done]. csimpl. constructor; [|done].
  intros (j & Heq & (id' & Hin & Hj)%list_elem_of_omap)%list_elem_of_fmap.
  apply Hm in Hlook as [<- _], Hj as [<- _]. by rewrite Heq in Hid.
Qed.

(** A selection is shorter exactly when it misses an item. *)
Lemma selection_misses sel all :
  NoDup (ID <$> all) → sel ⊆+ all →
  (length sel < length all)%nat ↔ ∃ i, i ∈ all ∧ i ∉ sel.
Proof.
  intros Hnd Hs. split.
  - intros Hlt. destruct (decide (Forall (λ i, ID i ∈ ID <$> sel) all)) as [Hf|Hf].
    + assert (ID <$> all ⊆+ ID <$> sel) as Hsub%submseteq_length; [|rewrite !length_fmap in Hsub; lia].
      apply NoDup_submseteq; [done|]. intros id (x & -> & Hx)%list_elem_of_fmap.
      rewrite Forall_forall in Hf. by apply Hf.
    + apply not_Forall_Exists in Hf as (i & Hia & Hn)%Exists_exists; [|apply _].
      exists i. split; [done|]. intros Hs'. by apply Hn, list_elem_of_fmap_2.
  - intros (i & Hia & Hn). pose proof (submseteq_length _ _ Hs).
    destruct (decide (length sel < length all)%nat) as [|Hge]; [done|].
    destruct Hn. assert (sel ≡ₚ all) as -> by (apply submseteq_length_Permutation; [done|lia]). done.
Qed.

(** Under every strategy but by_type the window leaves out only items that do
    not fit next to it, and says that it is truncated exactly when it leaves out
    some. *)
Theorem window_maximal v cm :
  cm_ok cm → range_order (items cm) (itemOrder v) → NoDup (typeOrder v) →
  cStrategy (config cm) ≠ "by_type" →
  let cm' := updateWindow v cm in
  let w := GetCurrentWindow cm' in
  (∀ id i, items cm' !! id = Some i → i ∉ Items w →
     cMaxTokens (config cm') < TotalTokens w + TokenCount i) ∧
  (Truncated w = true ↔ ∃ id i, items cm' !! id = Some i ∧ i ∉ Items w).
Proof.
  clear sha256hex. intros [He Hm Hi _ _ _ _] Ho Hnd Hst cm' w. subst w cm'. unfold updateWindow, GetCurrentWindow.
  set (items' := prioritise _ _ <$> items cm). set (all := allItems (itemOrder v) items').
  assert (keyed items') as Hi' by by apply prioritise_items.
  assert (items_ok all) as Hall by by apply allItems_ok.
  assert (∀ i, i ∈ all ↔ ∃ id, items' !! id = Some i) as Hel.
  { intros i. apply (allItems_elem _ (items cm)); [done|]. intros id. unfold items'.
    by rewrite lookup_fmap, fmap_is_Some. }
  pose proof (allItems_NoDup _ _ (range_order_NoDup _ _ Ho) Hi') as Hnda.
  pose proof (applyTruncationStrategy_selects (config cm) (typeOrder v) all Hnd Hall Hm) as [Hs Hb].
  pose proof (applyTruncationStrategy_maximal (config cm) (typeOrder v) all) as Hmax.
  destruct (applyTruncationStrategy _ _ _) as [sel strategy]. simpl in *.
  pose proof (items_ok_sub _ _ Hs Hall) as Hsel. split.
  - intros id i Hid Hn. rewrite sumTokens_total; [|done|lia]. apply Hmax; [done..| |done].
    apply Hel. eauto.
  - rewrite Nat.ltb_lt, selection_misses by done. setoid_rewrite Hel. naive_solver.
Qed.

(** Under by_type an item whose type has no priority is never shown, however
    much room there is. *)
Lemma unknown_type_never_shown v cm i :
  cm_ok cm → range_order (cPriorities (config cm)) (typeOrder v) →
  cStrategy (config cm) = "by_type" → cPriorities (config cm) !! Type_ i = None →
  i ∉ Items (GetCurrentWindow (updateWindow v cm)).
Proof.
  intros [He Hm Hi _ _ _ _] Ho Hst Hnone. unfold updateWindow, GetCurrentWindow.
  set (all := allItems _ _).
  assert (items_ok all) as Hall by (by apply allItems_ok, prioritise_items).
  unfold applyTruncationStrategy. rewrite Hst. simpl. unfold truncateByType.
  destruct (selectTypes_spec (cMaxTokens (config cm)) 0
    (getTypesByPriority (config cm) (typeOrder v)) all) as [_ Hf]; [|done|unfold tokens_ok; lia|done|].
  { unfold getTypesByPriority. rewrite sort_perm. by eapply range_order_NoDup. }
  intros Hin. rewrite Forall_forall in Hf. apply Hf in Hin. unfold getTypesByPriority in Hin.
  rewrite sort_perm, (range_order_elem _ _ _ Ho), Hnone in Hin. by destruct Hin.
Qed.

(** ** What the default strategy ignores *)

(** Items equal up to their priority. *)
Definition same_but_priority (i j : ContextItem) : Prop :=
  setPriority (S754_zero false) i = setPriority (S754_zero false) j.

Lemma prioritise_same c ages i j :
  intelligent c = true → same_but_priority i j → prioritise c ages i = prioritise c ages j.
Proof.
  intros Hc Heq. unfold prioritise. rewrite Hc. destruct i, j. unfold same_but_priority in Heq.
  simpl in Heq. by simplify_eq.
Qed.

(** Under the intelligent strategy, the default one, the window does not
    depend on the items' priorities: whatever the metadata asked for, or the
    type, size and name of a file earned when it was added, is overwritten. *)
Theorem explicit_priority_ignored v cm cm' :
  intelligent (config cm) = true → config cm' = config cm →
  WMaxTokens (window cm') = WMaxTokens (window cm) →
  (∀ id, option_Forall2 same_but_priority (items cm !! id) (items cm' !! id)) →
  updateWindow v cm = updateWindow v cm'.
Proof.
  intros Hc Hconf Hw Hi. unfold updateWindow. rewrite Hconf, Hw.
  assert (prioritise (config cm) (ages v) <$> items cm = prioritise (config cm) (ages v) <$> items cm')
    as ->; [|done].
  apply map_eq. intros id. rewrite !lookup_fmap. specialize (Hi id).
  destruct Hi as [i j Hij|]; [|done]. simpl. f_equal. by apply prioritise_same.
Qed.

(** ** What leaves the window as it was *)

(** Raising the limit does not make the window again, so it stays truncated even
    if everything fits. *)
Lemma raised_limit_stays_truncated v max cm :
  TotalTokens (window cm) ≤ max →
  Truncated (window (UpdateMaxTokens v max cm)) = Truncated (window cm) ∧
  Items (window (UpdateMaxTokens v max cm)) = Items (window cm).
Proof.
  intros Hm. unfold UpdateMaxTokens. simpl.
  by destruct (Z.ltb_spec max (TotalTokens (window cm))); [lia|].
Qed.

(** Renaming a file leaves its old name in the window. *)
Lemma renamed_file_stale_window old new cm :
  GetCurrentWindow (UpdateFilePath old new cm) = GetCurrentWindow cm.
Proof. done. Qed.
End window.

(** ** Concrete runs *)

Definition not_after {A} (less : A → A → bool) (x y : A) : Prop := less y x = false.

#[export] Instance not_after_dec {A} (less : A → A → bool) : RelDecision (not_after less).
Proof. intros x y. unfold not_after. apply _. Defined.

(** A sort that leaves equivalent elements in order. *)
#[export] Instance merge_SortLib : SortLib :=
  {| sortSlice A less l := merge_sort (not_after less) l |}.

Lemma merge_sort_sorted {A} (less : A → A → bool) l :
  strict_weak_order less → StronglySorted (not_after less) (merge_sort (not_after less) l).
Proof.
  intros (Hirr & Htr & Hntr). apply StronglySorted_merge_sort.
  - intros x y z Hxy Hyz. by apply (Hntr z y x).
  - intros x y. unfold not_after. destruct (less y x) eqn:Hyx; [|by left]. right.
    apply not_true_iff_false. intros Hxy. specialize (Htr _ _ _ Hyx Hxy). by rewrite Hirr in Htr.
Qed.

#[export] Instance merge_SortLaws : SortLaws.
Proof.
  split.
  - intros A less l. apply merge_sort_Permutation.
  - intros A less l. apply merge_sort_sorted.
Defined.

Definition toyConfig : ContextConfig := {|
  MaxTokens := 10; TruncationStrategy := ""; TypePriorities := None; RetentionDays := 0;
  TokenEstimator := Some (λ s, Z.of_nat (String.length s) `mod` 100) |}.

Definition toyVisit (order : list string) : Visit := {|
  itemOrder := order; typeOrder := ["edit"; "file"]; ages := λ _, 0 |}.

Definition toyHash (s : string) : string := s +:+ "----------------".

Definition withFile : ContextManager :=
  AddContext toyHash (toyVisit ["file:main.go:abc"]) 1 1 "file" "main.go" "abcdefgh" None
    (NewContextManager toyConfig).

Lemma toy_tokens content :
  tokens_ok (default defaultTokenEstimator (TokenEstimator toyConfig) content).
Proof. simpl. unfold tokens_ok. pose proof (Z.mod_pos_bound (Z.of_nat (String.length content)) 100). lia. Qed.

Lemma withFile_reachable : rtc (cm_step toyHash) (NewContextManager toyConfig) withFile.
Proof. apply rtc_once, step_add. split; repeat constructor; set_solver. Qed.

Lemma window_within_budget_witness :
  TotalTokens (GetCurrentWindow withFile) = 8 ∧ TotalTokens (GetCurrentWindow withFile) ≤ 10.
Proof.
  destruct (window_within_budget toyHash toyConfig withFile toy_tokens ltac:(reflexivity)
    withFile_reachable) as (_ & [_ Hle] & _).
  split; [vm_compute; reflexivity|exact Hle].
Defined.

Definition bothFiles : ContextManager :=
  AddContext toyHash (toyVisit ["file:main.go:abc"; "file:util.go:xyz"]) 2 2 "file" "util.go" "xyzxy"
    None withFile.

Lemma bothFiles_ok : cm_ok bothFiles.
Proof.
  apply (cm_reachable_ok toyHash toyConfig); [apply toy_tokens|done|].
  eapply rtc_r; [apply withFile_reachable|]. apply step_add. split; repeat constructor; set_solver.
Qed.

Lemma toyTypes_NoDup : NoDup ["edit"; "file"].
Proof. repeat constructor; set_solver. Qed.

Lemma window_maximal_witness :
  let cm := updateWindow (toyVisit (map_to_list (items bothFiles)).*1) bothFiles in
  Truncated (GetCurrentWindow cm) = true ∧
  ∃ id i, items cm !! id = Some i ∧ i ∉ Items (GetCurrentWindow cm).
Proof.
  assert (Truncated (GetCurrentWindow (updateWindow (toyVisit (map_to_list (items bothFiles)).*1)
    bothFiles)) = true) as Ht by (vm_compute; reflexivity).
  split; [exact Ht|].
  refine (proj1 (proj2 (window_maximal (toyVisit (map_to_list (items bothFiles)).*1) bothFiles bothFiles_ok
    _ _ _)) Ht).
  - unfold range_order, toyVisit. cbn [itemOrder]. reflexivity.
  - apply toyTypes_NoDup.
  - vm_compute. discriminate.
Defined.

Lemma raised_same p cm id :
  option_Forall2 same_but_priority (items cm !! id) (items (setItems (fmap (setPriority p)) cm) !! id).
Proof.
  destruct cm as [c m w]. cbn [items setItems]. rewrite lookup_fmap.
  destruct (m !! id); by constructor.
Qed.

Lemma explicit_priority_ignored_witness :
  updateWindow (toyVisit ["file:main.go:abc"; "file:util.go:xyz"]) bothFiles =
    updateWindow (toyVisit ["file:main.go:abc"; "file:util.go:xyz"])
      (setItems (fmap (setPriority (float64_of 99))) bothFiles).
Proof.
  apply explicit_priority_ignored; [reflexivity|reflexivity|reflexivity|].
  intros id. apply raised_same.
Defined.
