(* ===== verification/BashPolicy.v ===== *)
(** * The execute_bash policy

    internal/mcp/bash_policy.go: the policy loaded from the environment, the
    shell tokenizer, the words it takes to be commands, the allowlist check and
    the scrubbing of secret variables.  The tokenizer works on runes, as the
    code does; the log lines are not modelled.  What the check is compared with
    is a part of the shell's grammar ([Script]) with the text that it is written
    as and the programs that it names. *)
From S2P Require Import Prelude GoString.

Set Default Proof Using "Type".

(** ** Policies *)

Inductive BashMode := BashModeAllowlist | BashModeUnrestricted | BashModeDisabled | OtherMode (m : string).

Record BashPolicy := {
  Mode : BashMode;
  Allowlist : gset string;
}.

Definition defaultBashAllowlist : list string := [
  "kubectl"; "matey"; "helm";
  "ls"; "cat"; "head"; "tail"; "find"; "stat"; "file"; "tree"; "wc"; "du"; "df";
  "grep"; "egrep"; "fgrep"; "rg"; "awk"; "sed"; "cut"; "sort"; "uniq"; "tr"; "jq"; "yq";
  "ps"; "top"; "uptime"; "free"; "env"; "printenv"; "whoami"; "id"; "hostname"; "uname"; "date";
  "echo"; "pwd"; "which"; "dirname"; "basename"; "true"; "false"; "test"; "diff";
  "git"; "curl"; "wget"].

Definition parseMode (m : string) : BashMode :=
  if decide (m = "unrestricted") then BashModeUnrestricted
  else if decide (m = "disabled") then BashModeDisabled
  else BashModeAllowlist.

(** The policy from the values of MATEY_BASH_MODE and MATEY_BASH_ALLOWLIST. *)
Definition LoadBashPolicy (mode allowlist : string) : BashPolicy := {|
  Mode := parseMode (ToLower (TrimSpace mode));
  Allowlist :=
    list_to_set defaultBashAllowlist ∪
    (if decide (allowlist = "") then ∅
     else list_to_set (filter (λ b, b ≠ "") (TrimSpace <$> SplitByte allowlist ","))) |}.

(** ** The tokenizer *)

Inductive shellToken := Word (text : string) | Operator (text : string).

#[export] Instance shellToken_eq_dec : EqDecision shellToken.
Proof. solve_decision. Defined.

Inductive TokenError :=
  | BacktickSubstitution
  | DollarSubstitution
  | QuotedSubstitution
  | UnbalancedSingle
  | UnbalancedDouble.

Section runes.
#[local] Open Scope N_scope.
Definition rBacktick : rune := 96.
Definition rDollar : rune := 36.
Definition rOpen : rune := 40.
Definition rSingle : rune := 39.
Definition rDouble : rune := 34.
Definition rNewline : rune := 10.
Definition isBlank (c : rune) : bool := bool_decide (c ∈ [32; 9; 10; 13]).
(** [|&;(){}<>] *)
Definition isOperatorRune (c : rune) : bool :=
  bool_decide (c ∈ [124; 38; 59; 40; 41; 123; 125; 60; 62]).
(** [||], [&&], [|&], [>>] and [<<] *)
Definition isTwoRune (c d : rune) : bool :=
  bool_decide ((c, d) ∈ [(124, 124); (38, 38); (124, 38); (62, 62); (60, 60)]).
End runes.

(** Which quotes the scan is inside; the code scans a quoted part in an inner
    loop over the same runes. *)
Inductive Quote := Unquoted | InSingle | InDouble.

Definition flush (cur : string) : list shellToken :=
  if decide (cur = "") then [] else [Word cur].

(** The runes still to read, the builder's text; the result is the tokens from
    here on. *)
Fixpoint shellLoop (q : Quote) (rs : list rune) (cur : string) : res TokenError (list shellToken) :=
  match rs with
  | [] =>
      match q with
      | Unquoted => Ok (flush cur)
      | InSingle => Err UnbalancedSingle
      | InDouble => Err UnbalancedDouble
      end
  | c :: rest =>
      match q with
      | InSingle =>
          if decide (c = rSingle) then shellLoop Unquoted rest cur
          else shellLoop InSingle rest (cur +:+ encodeRune c)
      | InDouble =>
          if decide (c = rDouble) then shellLoop Unquoted rest cur
          else if decide (c = rBacktick ∨ c = rDollar ∧ head rest = Some rOpen)
          then Err QuotedSubstitution
          else shellLoop InDouble rest (cur +:+ encodeRune c)
      | Unquoted =>
          if decide (c = rBacktick) then Err BacktickSubstitution
          else if decide (c = rDollar) then
            if decide (head rest = Some rOpen) then Err DollarSubstitution
            else shellLoop Unquoted rest (cur +:+ encodeRune c)
          else if decide (c = rSingle) then shellLoop InSingle rest cur
          else if decide (c = rDouble) then shellLoop InDouble rest cur
          else if isBlank c then
            tokens ← shellLoop Unquoted rest ""; Ok (flush cur ++ tokens)
          else if isOperatorRune c then
            match rest with
            | d :: rest' =>
                if isTwoRune c d then
                  tokens ← shellLoop Unquoted rest' "";
                  Ok (flush cur ++ Operator (encodeRune c +:+ encodeRune d) :: tokens)
                else
                  tokens ← shellLoop Unquoted rest "";
                  Ok (flush cur ++ Operator (encodeRune c) :: tokens)
            | [] => Ok (flush cur ++ [Operator (encodeRune c)])
            end
          else shellLoop Unquoted rest (cur +:+ encodeRune c)
      end
  end.

Definition shellTokens (command : string) : res TokenError (list shellToken) :=
  shellLoop Unquoted (runes command) "".

(** ** Command words *)

Definition commandSeparators : list string := ["|"; "||"; "&&"; ";"; "&"; "("; "{"; "|&"; "!"].

Definition isNameByte (c : ascii) : bool :=
  let n := N_of_ascii c in
  ((n =? 95) || ((65 <=? n) && (n <=? 90)) || ((97 <=? n) && (n <=? 122)) ||
   ((48 <=? n) && (n <=? 57)))%N.

Fixpoint all_bytes (p : ascii → bool) (s : string) : bool :=
  match s with "" => true | String c s' => p c && all_bytes p s' end.

Definition isEnvAssignment (word : string) : bool :=
  match IndexByte word "=" with
  | None | Some O => false
  | Some eq => all_bytes isNameByte (stake eq word)
  end.

(** The loop over the tokens, collecting in order. *)
Fixpoint collectBinaries (expectCommand : bool) (tokens : list shellToken) : list string :=
  match tokens with
  | [] => []
  | Operator op :: rest =>
      collectBinaries (bool_decide (op ∈ commandSeparators) || expectCommand) rest
  | Word w :: rest =>
      if expectCommand then
        if isEnvAssignment w then collectBinaries true rest
        else w :: collectBinaries false rest
      else collectBinaries false rest
  end.

Definition string_lt_eq (a b : string) : Prop := String.leb a b = true.
#[export] Instance string_lt_eq_dec : RelDecision string_lt_eq.
Proof. intros a b. unfold string_lt_eq. apply _. Defined.

(** [dedupe], on a sorted list. *)
Fixpoint dedupeFrom (last : string) (l : list string) : list string :=
  match l with
  | [] => []
  | v :: l' => if decide (v = last) then dedupeFrom last l' else v :: dedupeFrom v l'
  end.
Definition dedupe (l : list string) : list string :=
  match l with [] => [] | v :: l' => v :: dedupeFrom v l' end.

Definition commandBinaries (command : string) : res TokenError (list string) :=
  tokens ← shellTokens command;
  Ok (dedupe (merge_sort string_lt_eq (collectBinaries true tokens))).

(** ** The check *)

Inductive PolicyError :=
  | PolicyDisabled
  | CannotParse (e : TokenError)
  | NoCommand
  | NotAllowed (base : string)
  | UnknownMode (m : string).

(** [/usr/bin/kubectl] is [kubectl]. *)
Definition baseName (bin : string) : string :=
  match LastIndexByte bin "/" with Some idx => sdrop (S idx) bin | None => bin end.

Definition checkAllowlist (p : BashPolicy) (command : string) : res PolicyError unit :=
  match commandBinaries command with
  | Err e => Err (CannotParse e)
  | Ok [] => Err NoCommand
  | Ok binaries =>
      match list_find (λ bin, baseName bin ∉ Allowlist p) binaries with
      | Some (_, bin) => Err (NotAllowed (baseName bin))
      | None => Ok tt
      end
  end.

Definition Check (p : BashPolicy) (command : string) : res PolicyError unit :=
  match Mode p with
  | BashModeDisabled => Err PolicyDisabled
  | BashModeUnrestricted => Ok tt
  | BashModeAllowlist => checkAllowlist p command
  | OtherMode m => Err (UnknownMode m)
  end.

(** ** The environment of the child *)

Definition secretEnvSubstrings : list string :=
  ["TOKEN"; "SECRET"; "PASSWORD"; "PASSWD"; "APIKEY"; "API_KEY"; "ACCESS_KEY"; "PRIVATE_KEY";
   "CREDENTIAL"; "SESSION"; "AUTH"].

Definition looksSecret (name : string) : bool :=
  existsb (Contains (ToUpper name)) secretEnvSubstrings.

Fixpoint scrubbedEnviron (src : list string) : list string :=
  match src with
  | [] => []
  | kv :: rest =>
      match IndexByte kv "=" with
      | None => kv :: scrubbedEnviron rest
      | Some eq =>
          if looksSecret (stake eq kv) then scrubbedEnviron rest else kv :: scrubbedEnviron rest
      end
  end.

Definition policyOf (mode : string) : BashPolicy := LoadBashPolicy mode "".

Example check_pipeline : Check (policyOf "") "kubectl get pods | grep web" = Ok tt.
Proof. vm_compute. reflexivity. Qed.
Example check_rm : Check (policyOf "") "ls && rm -rf /" = Err (NotAllowed "rm").
Proof. vm_compute. reflexivity. Qed.
Example check_quoted : Check (policyOf "") "echo 'a | rm' $(x)" = Err (CannotParse DollarSubstitution).
Proof. vm_compute. reflexivity. Qed.
Example check_env : Check (policyOf "") "FOO=1 /bin/rm x" = Err (NotAllowed "rm").
Proof. vm_compute. reflexivity. Qed.
Example check_newline : Check (policyOf "") ("ls" +:+ String newline "rm -rf /") = Ok tt.
Proof. vm_compute. reflexivity. Qed.

(** ** The words taken to be commands *)

Lemma elem_of_dedupe w l : w ∈ dedupe l ↔ w ∈ l.
Proof.
  destruct l as [|v l]; [done|]. simpl. rewrite !elem_of_cons.
  assert (∀ v, w = v ∨ w ∈ dedupeFrom v l ↔ w = v ∨ w ∈ l) as Hd; [|apply Hd].
  clear v. induction l as [|x l IH]; intros v; simpl; [done|].
  case_decide as Hx; [subst; rewrite IH, elem_of_cons; naive_solver|].
  rewrite !elem_of_cons, IH. naive_solver.
Qed.

Lemma commandBinaries_Ok command l :
  commandBinaries command = Ok l →
  ∃ tokens, shellTokens command = Ok tokens ∧ ∀ w, w ∈ l ↔ w ∈ collectBinaries true tokens.
Proof.
  unfold commandBinaries. intros (tokens & Ht & [= <-])%res_bind_Ok. exists tokens.
  split; [done|]. intros w. by rewrite elem_of_dedupe, merge_sort_Permutation.
Qed.

(** The check in allowlist mode, by the words that the walk takes to be commands. *)
Lemma checkAllowlist_Ok p command :
  checkAllowlist p command = Ok tt ↔
  ∃ tokens, shellTokens command = Ok tokens ∧ collectBinaries true tokens ≠ [] ∧
    ∀ w, w ∈ collectBinaries true tokens → baseName w ∈ Allowlist p.
Proof.
  unfold checkAllowlist. destruct (commandBinaries command) as [l|e] eqn:Hc.
  - apply commandBinaries_Ok in Hc as (tokens & Ht & Hl). rewrite Ht.
    assert (l ≠ [] ↔ collectBinaries true tokens ≠ []) as Hnil.
    { split; intros Hn Hz; apply Hn; [destruct l as [|b l]|destruct (collectBinaries true tokens) as [|b k]];
        [done| |done|].
      - exfalso. apply (elem_of_nil b). rewrite <-Hz. apply Hl. by left.
      - exfalso. apply (elem_of_nil b). rewrite <-Hz. apply Hl. by left. }
    destruct l as [|b l].
    { split; [done|]. intros (? & [= <-] & Hne & _). by apply Hnil in Hne. }
    destruct (list_find _ (b :: l)) as [[i x]|] eqn:Hf.
    + split; [done|]. intros (? & [= <-] & _ & Hall).
      apply list_find_Some in Hf as (Hx & Hn & _). destruct Hn. apply Hall, Hl.
      by eapply list_elem_of_lookup_2.
    + split; [|done]. intros _. exists tokens. split_and!; [done|by apply Hnil|].
      intros w Hw. apply Hl in Hw. apply list_find_None in Hf. rewrite Forall_forall in Hf.
      apply dec_stable. by apply Hf.
  - split; [done|]. intros (tokens & Ht & _). unfold commandBinaries in Hc. by rewrite Ht in Hc.
Qed.

(** ** What a shell runs *)

(** The part of the shell's language that the policy is compared with: words
    with quoted parts, commands with assignments, arguments and redirections,
    chained by the control operators, in subshells and groups.  This is the
    grammar of the shell, with the text that each tree is written as and the
    programs that the shell starts for it; it says nothing of how the policy
    reads the text. *)

(** A part of a word: plain, in apostrophes, or in quotation marks. *)
Inductive Piece :=
  | Plain (s : string)
  | SingleQuoted (s : string)
  | DoubleQuoted (s : string).

Definition ShellWord : Type := list Piece.

Definition squote : ascii := "'"%char.
Definition dquote : ascii := "034"%char.

Definition pieceText (q : Piece) : string :=
  match q with
  | Plain s => s
  | SingleQuoted s => byte1 squote +:+ s +:+ byte1 squote
  | DoubleQuoted s => byte1 dquote +:+ s +:+ byte1 dquote
  end.
Definition pieceMeaning (q : Piece) : string :=
  match q with Plain s | SingleQuoted s | DoubleQuoted s => s end.

Definition wordText (w : ShellWord) : string := concatS (pieceText <$> w).
Definition wordMeaning (w : ShellWord) : string := concatS (pieceMeaning <$> w).

(** Bytes without a meaning of their own to the shell. *)
Definition plainBytes : string := "-_./:,+@%=".
Definition plainByte (c : ascii) : bool :=
  let n := byteN c in
  (((48 <=? n) && (n <=? 57)) || ((65 <=? n) && (n <=? 90)) || ((97 <=? n) && (n <=? 122)))%N ||
  negb (Nat.eqb (CountByte plainBytes c) 0).

Definition asciiByte (c : ascii) : bool := (byteN c <? 128)%N.

(** In apostrophes everything but an apostrophe stands for itself, in quotation
    marks everything but a quotation mark, a backslash, a dollar and a backtick. *)
Definition piece_ok (q : Piece) : bool :=
  match q with
  | Plain s => all_bytes plainByte s
  | SingleQuoted s => all_bytes (λ c, asciiByte c && negb (Ascii.eqb c squote)) s
  | DoubleQuoted s =>
      all_bytes (λ c, asciiByte c && negb (Ascii.eqb c dquote || Ascii.eqb c "\" || Ascii.eqb c "$" ||
                                          Ascii.eqb c "`")) s
  end.

Definition word_ok (w : ShellWord) : Prop := Forall (λ q, piece_ok q = true) w.

Inductive Redirection := RedirectIn | RedirectOut | RedirectAppend.

Definition redirectionText (r : Redirection) : string :=
  match r with RedirectIn => "<" | RedirectOut => ">" | RedirectAppend => ">>" end.

(** The program of a command, with its arguments and the redirections after them. *)
Record Invocation := {
  program : ShellWord;
  arguments : list ShellWord;
  redirections : list (Redirection * ShellWord);
}.

(** Assignments alone, or before a program. *)
Record SimpleCommand := {
  assignments : list (string * ShellWord);
  invocation : option Invocation;
}.

Inductive ChainOperator := Piped | PipedBoth | IfFailed | IfSucceeded | Sequenced | InBackground.

Definition operatorText (o : ChainOperator) : string :=
  match o with
  | Piped => "|" | PipedBoth => "|&" | IfFailed => "||" | IfSucceeded => "&&"
  | Sequenced => ";" | InBackground => "&"
  end.

(** Operators may have blanks around them, or none. *)
Inductive Script :=
  | Command (c : SimpleCommand)
  | Chain (a : Script) (before : nat) (o : ChainOperator) (after : nat) (b : Script)
  | Subshell (s : Script)
  | Group (s : Script).

Fixpoint blanks (n : nat) : string := match n with O => "" | S n => String " " (blanks n) end.

Definition invocationText (i : Invocation) : string :=
  wordText (program i) +:+ concatS ((λ w, " " +:+ wordText w) <$> arguments i) +:+
  concatS ((λ '(r, w), " " +:+ redirectionText r +:+ " " +:+ wordText w) <$> redirections i).

Definition assignmentText (a : string * ShellWord) : string := a.1 +:+ "=" +:+ wordText a.2.

Definition simpleText (c : SimpleCommand) : string :=
  Join ((assignmentText <$> assignments c) ++ option_list (invocationText <$> invocation c)) " ".

Fixpoint scriptText (s : Script) : string :=
  match s with
  | Command c => simpleText c
  | Chain a before o after b =>
      scriptText a +:+ blanks before +:+ operatorText o +:+ blanks after +:+ scriptText b
  | Subshell s => "(" +:+ scriptText s +:+ ")"
  | Group s => "{ " +:+ scriptText s +:+ "; }"
  end.

(** The programs that a script names, those that only run if others fail or
    succeed included. *)
Fixpoint programs (s : Script) : list string :=
  match s with
  | Command c => (λ i, wordMeaning (program i)) <$> option_list (invocation c)
  | Chain a _ _ _ b => programs a ++ programs b
  | Subshell s | Group s => programs s
  end.

(** The words with which the shell begins or ends a construct of its own. *)
Definition reservedWords : list string :=
  ["if"; "then"; "else"; "elif"; "fi"; "for"; "in"; "while"; "until"; "do"; "done"; "case";
   "esac"; "select"; "function"; "time"; "coproc"].

Record invocation_ok (i : Invocation) : Prop := {
  io_program : word_ok (program i);
  io_named : wordMeaning (program i) ≠ "";
  io_no_assignment : CountByte (wordMeaning (program i)) "=" = 0%nat;
  io_not_reserved : wordMeaning (program i) ∉ reservedWords;
  io_arguments : Forall word_ok (arguments i);
  io_redirections : Forall (λ p, word_ok p.2 ∧ wordMeaning p.2 ≠ "") (redirections i);
}.

Definition name_ok (name : string) : Prop :=
  all_bytes isNameByte name = true ∧
  ∃ c rest, name = String c rest ∧ negb ((48 <=? byteN c) && (byteN c <=? 57))%N = true.

Record simple_ok (c : SimpleCommand) : Prop := {
  so_something : assignments c ≠ [] ∨ is_Some (invocation c);
  so_assignments : Forall (λ a, name_ok a.1 ∧ word_ok a.2) (assignments c);
  so_invocation : ∀ i, invocation c = Some i → invocation_ok i;
}.

Fixpoint script_ok (s : Script) : Prop :=
  match s with
  | Command c => simple_ok c
  | Chain a _ _ _ b => script_ok a ∧ script_ok b
  | Subshell s | Group s => script_ok s
  end.

(** ** No substitution gets through *)

(** Outside single quotes the tokenizer refuses both substitutions. *)
Lemma shellLoop_no_substitution n rs q cur tokens :
  (length rs ≤ n)%nat → q ≠ InSingle → rSingle ∉ rs → shellLoop q rs cur = Ok tokens →
  rBacktick ∉ rs ∧ ∀ pre post, rs ≠ pre ++ rDollar :: rOpen :: post.
Proof.
  revert rs q cur tokens.
  induction n as [|n IH]; intros rs q cur tokens Hn Hq Hs Hr; destruct rs as [|c rs];
    [split; [by intros ?%elem_of_nil|by intros [] ?]|simpl in Hn; lia| |].
  { split; [by intros ?%elem_of_nil|by intros [] ?]. }
  apply not_elem_of_cons in Hs as [Hc Hs]. simpl in Hn.
  assert (∀ q' cur' tokens', q' ≠ InSingle → shellLoop q' rs cur' = Ok tokens' →
    c ≠ rBacktick → (c = rDollar → head rs ≠ Some rOpen) →
    rBacktick ∉ c :: rs ∧ ∀ pre post, c :: rs ≠ pre ++ rDollar :: rOpen :: post) as Hstep.
  { intros q' cur' tokens' Hq' Hr' Hb Hd. destruct (IH rs q' cur' tokens') as [H1 H2]; [lia|done..|].
    split; [by apply not_elem_of_cons|]. intros [|x pre] post Heq; simplify_eq/=; [by apply Hd|].
    by eapply H2. }
  destruct q; [|done|]; simpl in Hr.
  - case_decide as Hb; [done|]. case_decide as Hd.
    { case_decide as Ho; [done|]. eapply (Hstep Unquoted); eauto. }
    case_decide; [done|]. case_decide; [eapply (Hstep InDouble); naive_solver|].
    case_match; [apply res_bind_Ok in Hr as (ts & Hr & _); eapply (Hstep Unquoted); naive_solver|].
    case_match; [|eapply (Hstep Unquoted); naive_solver].
    destruct rs as [|d rs']; [split; [set_solver|intros [|? []] ? ?; simplify_eq]|].
    case_match; apply res_bind_Ok in Hr as (ts & Hr & _); [|eapply (Hstep Unquoted); naive_solver].
    apply not_elem_of_cons in Hs as [Hd' Hs]. simpl in Hn.
    destruct (IH rs' Unquoted "" ts) as [H1' H2']; [lia|done..|].
    assert (d ≠ rBacktick ∧ d ≠ rDollar) as [Hdb Hdd].
    { match goal with Ht : isTwoRune c d = true |- _ => unfold isTwoRune in Ht;
        apply bool_decide_eq_true in Ht end. split; intros ->; set_solver. }
    split; [by rewrite !not_elem_of_cons|]. intros [|x [|y pre]] post Heq; simplify_eq/=.
    by eapply H2'.
  - case_decide; [eapply (Hstep Unquoted); try done; [by subst|by subst]|].
    case_decide as Hx; [done|]. eapply (Hstep InDouble); naive_solver.
Qed.

(** A command accepted in allowlist mode that has no single quote contains
    no backtick and no "$(", quoted or not. *)
Theorem accepted_no_substitution p command :
  Mode p = BashModeAllowlist → Check p command = Ok tt → rSingle ∉ runes command →
  rBacktick ∉ runes command ∧ ∀ pre post, runes command ≠ pre ++ rDollar :: rOpen :: post.
Proof.
  intros Hm Hc Hs. unfold Check, checkAllowlist in Hc. rewrite Hm in Hc.
  destruct (commandBinaries command) as [l|e] eqn:Hb; [|done].
  apply commandBinaries_Ok in Hb as (tokens & Ht & _).
  by eapply (shellLoop_no_substitution (length (runes command)) _ Unquoted).
Qed.

(** ** Newlines do not separate commands *)

Definition plainRune (c : rune) : bool :=
  negb (bool_decide (c = rBacktick ∨ c = rDollar ∨ c = rSingle ∨ c = rDouble)) &&
  negb (isBlank c) && negb (isOperatorRune c).

Lemma shellLoop_plain c rs cur :
  plainRune c = true → shellLoop Unquoted (c :: rs) cur = shellLoop Unquoted rs (cur +:+ encodeRune c).
Proof.
  unfold plainRune. intros [[Hs Hb]%andb_true_iff Ho]%andb_true_iff. simpl.
  apply negb_true_iff in Hs, Hb, Ho. apply bool_decide_eq_false in Hs.
  rewrite !decide_False by (intros ->; apply Hs; auto). by rewrite Hb, Ho.
Qed.

Lemma shellLoop_blank c rs cur :
  isBlank c = true →
  shellLoop Unquoted (c :: rs) cur = (tokens ← shellLoop Unquoted rs ""; Ok (flush cur ++ tokens)).
Proof.
  intros Hb. simpl. assert (∀ x, isBlank x = false → c ≠ x) as Hne by (intros x ? ->; congruence).
  rewrite !decide_False by (apply Hne; done). by rewrite Hb.
Qed.

(** Text without special characters is a list of words. *)
Lemma shellLoop_text rs cur :
  Forall (λ c, plainRune c || isBlank c = true) rs →
  ∃ ws, shellLoop Unquoted rs cur = Ok (Word <$> ws).
Proof.
  intros Hrs. revert cur. induction Hrs as [|c rs Hc _ IH]; intros cur.
  - simpl. unfold flush. case_decide; [by exists []|by exists [cur]].
  - apply orb_true_iff in Hc as [Hc|Hc].
    + rewrite shellLoop_plain by done. apply IH.
    + rewrite shellLoop_blank by done. destruct (IH "") as [ws ->].
      unfold flush. case_decide; [by exists ws|by exists (cur :: ws)].
Qed.

Lemma collectBinaries_words ws : collectBinaries false (Word <$> ws) = [].
Proof. by induction ws. Qed.

(** A byte that is an ordinary character of a word. *)
Definition wordByte (c : ascii) : bool := (byteN c <? 128)%N && plainRune (byteN c).

Lemma encodeRune_ascii c : (byteN c < 128)%N → encodeRune (byteN c) = byte1 c.
Proof.
  intros Hc. unfold encodeRune. rewrite (proj2 (N.ltb_lt _ _) Hc). unfold chr, byteN.
  by rewrite ascii_N_embedding.
Qed.

Lemma shellLoop_word a rest cur :
  all_bytes wordByte a = true →
  shellLoop Unquoted (runes (a +:+ rest)) cur = shellLoop Unquoted (runes rest) (cur +:+ a).
Proof.
  revert cur. induction a as [|c a IH]; intros cur Ha; cbn [String.append];
    [by rewrite sapp_nil_r|].
  simpl in Ha. apply andb_true_iff in Ha as [Hc Ha]. unfold wordByte in Hc.
  apply andb_true_iff in Hc as [Hc%N.ltb_lt Hp].
  rewrite runes_ascii, shellLoop_plain, IH, encodeRune_ascii by done.
  unfold byte1. by rewrite <-sapp_assoc.
Qed.

(** A newline does not start a new command for the policy, although it does
    for the shell: an allowed binary, a newline and any further text without
    special characters is accepted, whatever command that text is. *)
Theorem newline_hides_command p a text :
  Mode p = BashModeAllowlist → a ≠ "" → all_bytes wordByte a = true →
  isEnvAssignment a = false → baseName a ∈ Allowlist p →
  Forall (λ c, plainRune c || isBlank c = true) (runes text) →
  Check p (a +:+ String newline text) = Ok tt.
Proof.
  intros Hm Hne Ha Henv Hbase Htext. unfold Check, checkAllowlist, commandBinaries, shellTokens.
  rewrite Hm, shellLoop_word by done. cbn [String.append].
  assert (runes (String newline text) = rNewline :: runes text) as -> by (by rewrite runes_ascii).
  rewrite shellLoop_blank by done. destruct (shellLoop_text (runes text) "" Htext) as [ws ->].
  unfold flush. rewrite decide_False by done. simpl. rewrite Henv, collectBinaries_words. simpl.
  rewrite decide_False; [done|]. intros Hn. by apply Hn.
Qed.

(** ** The words of a script *)

Lemma all_bytes_impl (f g : ascii → bool) s :
  (∀ c, f c = true → g c = true) → all_bytes f s = true → all_bytes g s = true.
Proof.
  intros Hfg. induction s as [|c s IH]; [done|]. simpl.
  intros [Hc Hs]%andb_true_iff. apply andb_true_iff. auto.
Qed.

Lemma plainByte_word c : plainByte c = true → wordByte c = true.
Proof. by destruct c as [[] [] [] [] [] [] [] []]; vm_compute. Qed.

Lemma isNameByte_word c : isNameByte c = true → wordByte c = true.
Proof. by destruct c as [[] [] [] [] [] [] [] []]; vm_compute. Qed.

Lemma shellLoop_single a rest cur :
  all_bytes (λ c, asciiByte c && negb (Ascii.eqb c squote)) a = true →
  shellLoop InSingle (runes (a +:+ String squote rest)) cur = shellLoop Unquoted (runes rest) (cur +:+ a).
Proof.
  revert cur. induction a as [|c a IH]; intros cur Ha; cbn [String.append].
  { by rewrite runes_ascii, sapp_nil_r. }
  simpl in Ha. apply andb_true_iff in Ha as [[Hc Hq]%andb_true_iff Ha]. apply N.ltb_lt in Hc.
  rewrite runes_ascii by done. cbn [shellLoop]. rewrite decide_False.
  - rewrite IH, encodeRune_ascii by done. unfold byte1. by rewrite <-sapp_assoc.
  - intros He. apply negb_true_iff, Ascii.eqb_neq in Hq. apply Hq.
    unfold byteN, rSingle in He. rewrite <-(ascii_N_embedding c), He. done.
Qed.

Lemma shellLoop_double a rest cur :
  all_bytes (λ c, asciiByte c && negb (Ascii.eqb c dquote || Ascii.eqb c "\" || Ascii.eqb c "$" ||
                                      Ascii.eqb c "`")) a = true →
  shellLoop InDouble (runes (a +:+ String dquote rest)) cur = shellLoop Unquoted (runes rest) (cur +:+ a).
Proof.
  revert cur. induction a as [|c a IH]; intros cur Ha; cbn [String.append].
  { by rewrite runes_ascii, sapp_nil_r. }
  simpl in Ha. apply andb_true_iff in Ha as [[Hc Hq]%andb_true_iff Ha]. apply N.ltb_lt in Hc.
  rewrite !negb_orb, !andb_true_iff, !negb_true_iff, !Ascii.eqb_neq in Hq.
  destruct Hq as [[[Hq _] Hd] Hb].
  assert (∀ r k, byteN c = r → ascii_of_N r = k → c = k) as Hbyte.
  { intros r k He <-. unfold byteN in He. by rewrite <-He, ascii_N_embedding. }
  rewrite runes_ascii by done. cbn [shellLoop]. rewrite !decide_False.
  - rewrite IH, encodeRune_ascii by done. unfold byte1. by rewrite <-sapp_assoc.
  - intros [He|[He _]]; [by apply Hb, (Hbyte _ _ He)|by apply Hd, (Hbyte _ _ He)].
  - intros He. by apply Hq, (Hbyte _ _ He).
Qed.

Lemma shellLoop_piece q rest cur : piece_ok q = true →
  shellLoop Unquoted (runes (pieceText q +:+ rest)) cur =
  shellLoop Unquoted (runes rest) (cur +:+ pieceMeaning q).
Proof.
  destruct q as [a|a|a]; cbn [pieceText pieceMeaning piece_ok]; intros Ha.
  - apply shellLoop_word. eapply all_bytes_impl; [apply plainByte_word|done].
  - rewrite <-!sapp_assoc. cbn [String.append byte1]. by apply shellLoop_single.
  - rewrite <-!sapp_assoc. cbn [String.append byte1]. by apply shellLoop_double.
Qed.

Lemma shellLoop_wordText w rest cur : word_ok w →
  shellLoop Unquoted (runes (wordText w +:+ rest)) cur =
  shellLoop Unquoted (runes rest) (cur +:+ wordMeaning w).
Proof.
  intros Hw. revert cur. induction Hw as [|q w Hq _ IH]; intros cur; [by rewrite sapp_nil_r|].
  unfold wordText, wordMeaning. rewrite !fmap_cons. cbn [concatS foldr].
  rewrite <-!sapp_assoc, shellLoop_piece by done. unfold wordText, wordMeaning, concatS in IH.
  by rewrite IH, <-!sapp_assoc.
Qed.

(** ** The operators *)

Lemma operator_only c : isOperatorRune c = true →
  c ≠ rBacktick ∧ c ≠ rDollar ∧ c ≠ rSingle ∧ c ≠ rDouble ∧ isBlank c = false.
Proof.
  unfold isOperatorRune. intros Hc%bool_decide_eq_true.
  repeat (apply elem_of_cons in Hc as [->|Hc]; [by vm_compute|]). by apply elem_of_nil in Hc.
Qed.

Lemma shellLoop_operator c rest cur :
  isOperatorRune c = true → (∀ d, head rest = Some d → isTwoRune c d = false) →
  shellLoop Unquoted (c :: rest) cur =
  (tokens ← shellLoop Unquoted rest ""; Ok (flush cur ++ Operator (encodeRune c) :: tokens)).
Proof.
  intros Hc Hd. destruct (operator_only c Hc) as (H1 & H2 & H3 & H4 & H5). cbn [shellLoop].
  rewrite !decide_False by done. rewrite H5, Hc. destruct rest as [|d rest]; [done|].
  by rewrite (Hd d eq_refl).
Qed.

Lemma shellLoop_operator2 c d rest cur :
  isOperatorRune c = true → isTwoRune c d = true →
  shellLoop Unquoted (c :: d :: rest) cur =
  (tokens ← shellLoop Unquoted rest "";
   Ok (flush cur ++ Operator (encodeRune c +:+ encodeRune d) :: tokens)).
Proof.
  intros Hc Hd. destruct (operator_only c Hc) as (H1 & H2 & H3 & H4 & H5). cbn [shellLoop].
  rewrite !decide_False by done. by rewrite H5, Hc, Hd.
Qed.

(** The end of the text, a blank or an operator: a word ends here. *)
Definition ends (t : string) : Prop :=
  t = "" ∨ ∃ c t', t = String c t' ∧ asciiByte c = true ∧
    (isBlank (byteN c) || isOperatorRune (byteN c)) = true.

Lemma shellLoop_ends t cur : ends t →
  shellLoop Unquoted (runes t) cur =
  (tokens ← shellLoop Unquoted (runes t) ""; Ok (flush cur ++ tokens)).
Proof.
  assert (∀ (r : res TokenError (list shellToken)) l,
    (tokens ← (tokens ← r; Ok (flush "" ++ l ++ tokens)); Ok (flush cur ++ tokens)) =
    (tokens ← r; Ok (flush cur ++ l ++ tokens))) as Hr by (by intros [|] l).
  intros [->|(c & t' & -> & Hc%N.ltb_lt & [Hb|Ho]%orb_true_iff)].
  - cbn. by rewrite app_nil_r.
  - rewrite runes_ascii, !shellLoop_blank by done. by rewrite (Hr _ []).
  - rewrite runes_ascii by done. destruct (runes t') as [|d rest] eqn:Ht.
    + rewrite (shellLoop_operator _ _ cur) by (done || by intros d Hd).
      rewrite (shellLoop_operator _ [] "") by (done || by intros d Hd). symmetry; apply (Hr _ [_]).
    + destruct (isTwoRune (byteN c) d) eqn:H2.
      * rewrite (shellLoop_operator2 _ _ _ cur) by done. rewrite (shellLoop_operator2 _ d rest "") by done. symmetry; apply (Hr _ [_]).
      * rewrite (shellLoop_operator _ _ cur) by (done || by intros d' [= <-]).
        rewrite (shellLoop_operator _ (d :: rest) "")
          by (done || by intros d' [= <-]).
        symmetry; apply (Hr _ [_]).
Qed.

(** The text [s], between the end of a word and another, is the tokens [l]. *)
Definition tokenizes (s : string) (l : list shellToken) : Prop :=
  ∀ t, ends t →
    shellLoop Unquoted (runes (s +:+ t)) "" =
    (tokens ← shellLoop Unquoted (runes t) ""; Ok (l ++ tokens)).

(** The text goes on with what does not belong to an operator before it. *)
Definition safe (s : string) : Prop :=
  ∃ c s', s = String c s' ∧ asciiByte c = true ∧ c ∉ ["|"%char; "&"%char; "<"%char; ">"%char].

Definition safeByte (c : ascii) : bool :=
  asciiByte c && bool_decide (c ∉ ["|"%char; "&"%char; "<"%char; ">"%char]).

Lemma safe_byte c s : safeByte c = true → safe (String c s).
Proof. intros [Ha Hc%bool_decide_eq_true]%andb_true_iff. by exists c, s. Qed.

Lemma res_map_app (r : res TokenError (list shellToken)) l1 l2 :
  (tokens ← (tokens ← r; Ok (l2 ++ tokens)); Ok (l1 ++ tokens)) =
  (tokens ← r; Ok ((l1 ++ l2) ++ tokens)).
Proof. destruct r; simpl; rewrite ?app_assoc; done. Qed.

Lemma tokenizes_nil : tokenizes "" [].
Proof. intros t _. cbn [String.append app]. by destruct (shellLoop Unquoted (runes t) ""). Qed.

Lemma tokenizes_app s1 l1 s2 l2 :
  tokenizes s1 l1 → tokenizes s2 l2 → (∀ t, ends t → ends (s2 +:+ t)) → tokenizes (s1 +:+ s2) (l1 ++ l2).
Proof.
  intros H1 H2 He t Ht. rewrite <-sapp_assoc, H1, H2 by auto. apply res_map_app.
Qed.

Lemma ends_blank s : ends (" " +:+ s).
Proof. right. by exists " "%char, s. Qed.

Lemma tokenizes_blank s l : tokenizes s l → tokenizes (" " +:+ s) l.
Proof.
  intros Hs t Ht. cbn [String.append]. rewrite runes_ascii, shellLoop_blank by done.
  unfold tokenizes in Hs. rewrite Hs by done. apply (res_map_app _ []).
Qed.

Lemma tokenizes_word w : word_ok w → tokenizes (wordText w) (flush (wordMeaning w)).
Proof. intros Hw t Ht. rewrite shellLoop_wordText by done. by apply shellLoop_ends. Qed.

(** An operator of one character that none of two begins with. *)
Lemma tokenizes_bracket c s l :
  c ∈ ["("%char; ")"%char; "{"%char; "}"%char; ";"%char] → tokenizes s l →
  tokenizes (String c s) (Operator (byte1 c) :: l).
Proof.
  intros Hc Hs t Ht. cbn [String.append].
  assert (byteN c < 128 ∧ isOperatorRune (byteN c) = true ∧ ∀ d, isTwoRune (byteN c) d = false)%N
    as (Ha & Ho & Htwo).
  { assert (∀ r d, r ∈ [40; 41; 123; 125; 59]%N → isTwoRune r d = false) as H2.
    { intros r d Hr. apply bool_decide_eq_false. intros Hin.
      repeat (apply elem_of_cons in Hr as [->|Hr]; [set_solver|]). by apply elem_of_nil in Hr. }
    repeat (apply elem_of_cons in Hc as [->|Hc]; [split_and!; [done|done|]; intros d; apply H2; vm_compute; set_solver|]).
    by apply elem_of_nil in Hc. }
  rewrite runes_ascii by done. rewrite shellLoop_operator by auto.
  rewrite Hs, encodeRune_ascii by done. apply (res_map_app _ [_]).
Qed.

Lemma safe_head s t c : safe s → ∀ d, head (runes (s +:+ t)) = Some d → isTwoRune c d = false.
Proof.
  intros (x & s' & -> & Hx%N.ltb_lt & Hn) d. cbn [String.append]. rewrite runes_ascii by done.
  intros [= <-]. apply bool_decide_eq_false. intros Hin. apply Hn.
  assert (∀ r k, byteN x = r → ascii_of_N r = k → x = k) as Hbyte.
  { intros r k He <-. unfold byteN in He. by rewrite <-He, ascii_N_embedding. }
  repeat (apply elem_of_cons in Hin as [[= _ He]|Hin]; [rewrite (Hbyte _ _ He eq_refl); set_solver|]).
  by apply elem_of_nil in Hin.
Qed.

(** The control operators and the redirections. *)
Lemma tokenizes_operator o s l :
  o ∈ ["|"; "|&"; "||"; "&&"; ";"; "&"; "<"; ">"; ">>"] → tokenizes s l → safe s →
  tokenizes (o +:+ s) (Operator o :: l).
Proof.
  intros Ho Hs Hsafe t Ht.
  assert (∀ c, (byteN c < 128)%N → isOperatorRune (byteN c) = true →
    shellLoop Unquoted (runes ((String c "" +:+ s) +:+ t)) "" =
    (tokens ← shellLoop Unquoted (runes t) ""; Ok ((Operator (byte1 c) :: l) ++ tokens))) as H1.
  { intros c Hc Hop. cbn [String.append]. rewrite runes_ascii by done.
    rewrite shellLoop_operator by (done || by eapply safe_head).
    rewrite Hs, encodeRune_ascii by done. apply (res_map_app _ [_]). }
  assert (∀ c d, (byteN c < 128)%N → (byteN d < 128)%N → isOperatorRune (byteN c) = true →
    isTwoRune (byteN c) (byteN d) = true →
    shellLoop Unquoted (runes ((String c (String d "") +:+ s) +:+ t)) "" =
    (tokens ← shellLoop Unquoted (runes t) "";
     Ok ((Operator (String c (String d "")) :: l) ++ tokens))) as H2.
  { intros c d Hc Hd Hop Htwo. cbn [String.append]. rewrite !runes_ascii by done.
    rewrite shellLoop_operator2 by done.
    rewrite Hs, !encodeRune_ascii by done. apply (res_map_app _ [_]). }
  repeat (apply elem_of_cons in Ho as [->|Ho]; [(by apply H1) || (by apply H2)|]).
  by apply elem_of_nil in Ho.
Qed.

(** ** Scripts *)

Definition wordToken (w : ShellWord) : list shellToken := flush (wordMeaning w).

Definition invocationTokens (i : Invocation) : list shellToken :=
  wordToken (program i) ++ concat (wordToken <$> arguments i) ++
  concat ((λ p, Operator (redirectionText p.1) :: wordToken p.2) <$> redirections i).

Definition simpleTokens (c : SimpleCommand) : list shellToken :=
  ((λ a, Word (a.1 +:+ "=" +:+ wordMeaning a.2)) <$> assignments c) ++
  concat (invocationTokens <$> option_list (invocation c)).

Fixpoint scriptTokens (s : Script) : list shellToken :=
  match s with
  | Command c => simpleTokens c
  | Chain a _ o _ b => scriptTokens a ++ Operator (operatorText o) :: scriptTokens b
  | Subshell s => Operator "(" :: scriptTokens s ++ [Operator ")"]
  | Group s => Operator "{" :: scriptTokens s ++ [Operator ";"; Operator "}"]
  end.

Lemma tokenizes_words l : Forall word_ok l →
  tokenizes (concatS ((λ w, " " +:+ wordText w) <$> l)) (concat (wordToken <$> l)) ∧
  ∀ t, ends t → ends (concatS ((λ w, " " +:+ wordText w) <$> l) +:+ t).
Proof.
  induction 1 as [|w l Hw _ [IH1 IH2]]; [by split; [apply tokenizes_nil|]|]. rewrite !fmap_cons.
  split; [|intros t _; apply ends_blank].
  cbn [concatS foldr concat]. apply tokenizes_app; [by apply tokenizes_blank, tokenizes_word|done..].
Qed.

Lemma tokenizes_redirections l : Forall (λ p : Redirection * ShellWord, word_ok p.2 ∧ wordMeaning p.2 ≠ "") l →
  tokenizes (concatS ((λ '(r, w), " " +:+ redirectionText r +:+ " " +:+ wordText w) <$> l))
    (concat ((λ p, Operator (redirectionText p.1) :: wordToken p.2) <$> l)) ∧
  ∀ t, ends t → ends (concatS ((λ '(r, w), " " +:+ redirectionText r +:+ " " +:+ wordText w) <$> l) +:+ t).
Proof.
  induction 1 as [|[r w] l [Hw _] _ [IH1 IH2]]; [by split; [apply tokenizes_nil|]|]. rewrite !fmap_cons.
  split; [|intros t _; apply ends_blank].
  cbn [concatS foldr concat fst snd]. apply tokenizes_app; [|done..]. apply tokenizes_blank, tokenizes_operator.
  - destruct r; simpl; set_solver.
  - by apply tokenizes_blank, tokenizes_word.
  - by apply safe_byte.
Qed.

Lemma tokenizes_invocation i : invocation_ok i → tokenizes (invocationText i) (invocationTokens i).
Proof.
  intros [Hp _ _ _ Ha Hr]. destruct (tokenizes_words _ Ha) as [Hw Hwe].
  destruct (tokenizes_redirections _ Hr) as [Hd Hde].
  apply tokenizes_app; [by apply tokenizes_word| |].
  - apply tokenizes_app; done.
  - intros t Ht. rewrite <-sapp_assoc. auto.
Qed.

Lemma tokenizes_assignment a : name_ok a.1 → word_ok a.2 →
  tokenizes (assignmentText a) [Word (a.1 +:+ "=" +:+ wordMeaning a.2)].
Proof.
  intros [Hn _] Hw t Ht. unfold assignmentText. rewrite <-!sapp_assoc.
  rewrite shellLoop_word by by (eapply all_bytes_impl; [apply isNameByte_word|]).
  rewrite (shellLoop_word "=") by done. rewrite shellLoop_wordText by done.
  rewrite shellLoop_ends by done. unfold flush. rewrite decide_False; [by rewrite <-!sapp_assoc|].
  intros He. apply (f_equal String.length) in He. rewrite !slength_app in He. simpl in He. lia.
Qed.

Lemma tokenizes_join parts tokens : Forall2 tokenizes parts tokens →
  tokenizes (Join parts " ") (concat tokens).
Proof.
  induction 1 as [|p l parts tokens Hp Hl IH]; [apply tokenizes_nil|].
  destruct Hl as [|p' l' parts tokens Hp' Hl].
  - simpl. by rewrite app_nil_r.
  - change (Join (p :: p' :: parts) " ") with (p +:+ (" " +:+ Join (p' :: parts) " ")).
    apply tokenizes_app; [done|by apply tokenizes_blank|]. intros t _. apply ends_blank.
Qed.

Lemma tokenizes_simple c : simple_ok c → tokenizes (simpleText c) (simpleTokens c).
Proof.
  intros [_ Ha Hi]. unfold simpleText, simpleTokens.
  assert (∀ l : list (string * ShellWord), (λ a, Word (a.1 +:+ "=" +:+ wordMeaning a.2)) <$> l =
    concat ((λ a, [Word (a.1 +:+ "=" +:+ wordMeaning a.2)]) <$> l)) as ->.
  { clear. intros l. induction l as [|a l IH]; [done|]. rewrite !fmap_cons, IH. done. }
  rewrite <-concat_app. apply tokenizes_join, Forall2_app.
  - rewrite Forall2_fmap. induction Ha as [|a l [Hn Hw] _ IH]; constructor; [by apply tokenizes_assignment|done].
  - destruct (invocation c) as [i|]; simpl; [|constructor]. constructor; [|constructor].
    by apply tokenizes_invocation, Hi.
Qed.

(** A script does not begin with a character of an operator that others go on with. *)
Lemma plainByte_safe c : plainByte c = true → safeByte c = true.
Proof. by destruct c as [[] [] [] [] [] [] [] []]; vm_compute. Qed.

Lemma isNameByte_safe c : isNameByte c = true → safeByte c = true.
Proof. by destruct c as [[] [] [] [] [] [] [] []]; vm_compute. Qed.

Lemma safe_word w t : word_ok w → wordMeaning w ≠ "" → safe (wordText w +:+ t).
Proof.
  intros Hw. induction Hw as [|q w Hq _ IH]; [done|].
  unfold wordText, wordMeaning. rewrite !fmap_cons. cbn [concatS foldr].
  destruct q as [[|c s]|s|s]; cbn [pieceText pieceMeaning].
  - intros Hm. by apply IH.
  - intros _. simpl in Hq. apply andb_true_iff in Hq as [Hc _]. by apply safe_byte, plainByte_safe.
  - intros _. by apply safe_byte.
  - intros _. by apply safe_byte.
Qed.

Lemma safe_simple c t : simple_ok c → safe (simpleText c +:+ t).
Proof.
  intros [Hs Ha Hi]. unfold simpleText. destruct (assignments c) as [|a l].
  - destruct Hs as [Hs|[i Hc]]; [done|]. destruct (Hi i Hc) as [Hp Hn _ _ _ _]. rewrite Hc.
    simpl. unfold invocationText. rewrite <-sapp_assoc. by apply safe_word.
  - apply Forall_cons in Ha as [[[Hb (x & n & Hx & _)] _] _].
    assert (∃ r, Join ((assignmentText <$> a :: l) ++ option_list (invocationText <$> invocation c)) " " =
      String x r) as [r ->].
    { rewrite fmap_cons. unfold assignmentText at 1. rewrite Hx. simpl. case_match; eexists; reflexivity. }
    rewrite Hx in Hb. simpl in Hb. apply andb_true_iff in Hb as [Hb _].
    by apply safe_byte, isNameByte_safe.
Qed.

Lemma safe_script s t : script_ok s → safe (scriptText s +:+ t).
Proof.
  revert t. induction s as [c|a IHa n o m b IHb|s IH|s IH]; intros t Hs; simpl in *;
    [by apply safe_simple| |by apply safe_byte..].
  rewrite <-sapp_assoc. apply IHa, Hs.
Qed.

Lemma tokenizes_blanks n s l : tokenizes s l → tokenizes (blanks n +:+ s) l.
Proof. intros Hs. induction n as [|n IH]; [done|]. by apply (tokenizes_blank (blanks n +:+ s)). Qed.

Lemma safe_blanks n s : safe s → safe (blanks n +:+ s).
Proof. destruct n; [done|]. intros _. by apply safe_byte. Qed.

Lemma ends_operator o s : ends (operatorText o +:+ s).
Proof. right. destruct o; eexists _, _; by split_and!. Qed.

(** The tokenizer reads a script as its words and operators. *)
Lemma tokenizes_script s : script_ok s → tokenizes (scriptText s) (scriptTokens s).
Proof.
  induction s as [c|a IHa n o m b IHb|s IH|s IH]; intros Hs; cbn [scriptText scriptTokens].
  - by apply tokenizes_simple.
  - destruct Hs as [Ha Hb]. apply tokenizes_app; [by apply IHa| |].
    + apply tokenizes_blanks, tokenizes_operator; [destruct o; simpl; set_solver|by apply tokenizes_blanks, IHb|].
      apply safe_blanks. rewrite <-(sapp_nil_r (scriptText b)). by apply safe_script.
    + intros t _. rewrite <-sapp_assoc. destruct n; [|apply ends_blank].
      cbn [blanks String.append]. rewrite <-sapp_assoc. apply ends_operator.
  - apply (tokenizes_bracket "(" (scriptText s +:+ ")")); [set_solver|].
    apply tokenizes_app; [by apply IH|apply (tokenizes_bracket ")" ""); [set_solver|apply tokenizes_nil]|].
    intros t _. right. by eexists _, _.
  - apply (tokenizes_bracket "{" (" " +:+ scriptText s +:+ "; }")); [set_solver|].
    apply tokenizes_blank, tokenizes_app; [by apply IH| |intros t _; right; by eexists _, _].
    apply (tokenizes_bracket ";" " }"); [set_solver|].
    apply (tokenizes_blank "}"), (tokenizes_bracket "}" ""); [set_solver|apply tokenizes_nil].
Qed.

(** ** The walk over a script's tokens *)

Lemma isEnvAssignment_name name v : name_ok name → isEnvAssignment (name +:+ "=" +:+ v) = true.
Proof.
  intros [Hb (c & n & -> & _)]. unfold isEnvAssignment.
  assert (∀ s, all_bytes isNameByte s = true → IndexByte (s +:+ String "=" v) "=" = Some (String.length s)) as Hi.
  { induction s as [|d s IH]; [done|]. simpl. intros [Hd Hs]%andb_true_iff.
    destruct (Ascii.eqb_spec d "=") as [->|_]; [done|]. by rewrite IH. }
  change ("=" +:+ v) with (String "=" v). rewrite (Hi (String c n)) by done. cbn [String.length].
  change (S (String.length n)) with (String.length (String c n)).
  by rewrite (stake_app (String c n)).
Qed.

Lemma isEnvAssignment_none w : CountByte w "=" = 0%nat → isEnvAssignment w = false.
Proof. intros Hw. unfold isEnvAssignment. by rewrite (proj2 (IndexByte_None _ _) Hw). Qed.

(** After a program nothing is a command until a separator. *)
Definition inert (l : list shellToken) : Prop :=
  ∀ rest, collectBinaries false (l ++ rest) = collectBinaries false rest.

Lemma inert_app l k : inert l → inert k → inert (l ++ k).
Proof. intros Hl Hk rest. by rewrite <-app_assoc, Hl, Hk. Qed.

Lemma inert_concat l : Forall inert l → inert (concat l).
Proof. induction 1; [done|by apply inert_app]. Qed.

Lemma inert_word w : inert (wordToken w).
Proof. intros rest. unfold wordToken, flush. by case_decide. Qed.

Lemma collect_invocation i rest : invocation_ok i →
  collectBinaries true (invocationTokens i ++ rest) =
  wordMeaning (program i) :: collectBinaries false rest.
Proof.
  intros [_ Hn He _ _ _]. unfold invocationTokens, wordToken at 1, flush. rewrite decide_False by done.
  simpl. rewrite isEnvAssignment_none by done. f_equal. apply inert_app.
  - apply inert_concat, Forall_fmap, Forall_forall. intros w _. apply inert_word.
  - apply inert_concat, Forall_fmap, Forall_forall. intros [r w] _ rest'. simpl.
    assert (bool_decide (redirectionText r ∈ commandSeparators) = false) as ->.
    { apply bool_decide_eq_false. destruct r; by apply (bool_decide_unpack _). }
    apply inert_word.
Qed.

Lemma collect_assignments l rest : Forall (λ a : string * ShellWord, name_ok a.1 ∧ word_ok a.2) l →
  collectBinaries true (((λ a, Word (a.1 +:+ "=" +:+ wordMeaning a.2)) <$> l) ++ rest) =
  collectBinaries true rest.
Proof.
  induction 1 as [|a l [Hn _] _ IH]; [done|]. rewrite fmap_cons. cbn [app collectBinaries].
  by rewrite isEnvAssignment_name.
Qed.

Lemma collect_script s : script_ok s → ∃ b, ∀ rest,
  collectBinaries true (scriptTokens s ++ rest) = programs s ++ collectBinaries b rest.
Proof.
  induction s as [c|a IHa n o m b IHb|s IH|s IH]; intros Hs; cbn [scriptTokens programs].
  - destruct Hs as [_ Ha Hi]. unfold simpleTokens. destruct (invocation c) as [i|].
    + exists false. intros rest. rewrite <-app_assoc, collect_assignments by done. simpl.
      rewrite app_nil_r. by apply collect_invocation, Hi.
    + exists true. intros rest. rewrite <-app_assoc. by apply collect_assignments.
  - destruct Hs as [Hsa Hsb]. destruct (IHa Hsa) as [x Hx], (IHb Hsb) as [y Hy]. exists y. intros rest.
    rewrite <-app_assoc, Hx. cbn [app collectBinaries].
    assert (bool_decide (operatorText o ∈ commandSeparators) = true) as ->.
    { apply bool_decide_eq_true. destruct o; by apply (bool_decide_unpack _). }
    simpl. by rewrite Hy, app_assoc.
  - destruct (IH Hs) as [x Hx]. exists x. intros rest. cbn [app collectBinaries].
    change (bool_decide ("(" ∈ commandSeparators) || true) with true.
    by rewrite <-app_assoc, Hx.
  - destruct (IH Hs) as [x Hx]. exists true. intros rest. cbn [app collectBinaries].
    change (bool_decide ("{" ∈ commandSeparators) || true) with true.
    by rewrite <-app_assoc, Hx.
Qed.

(** C34: take any script of the shell made of words with quoted parts, assignments,
    arguments, redirections after the program, the control operators |, |&, ||,
    &&, ; and & with or without blanks, subshells and groups, all in ASCII, and
    with programs that are neither empty, nor with an equals sign, nor reserved
    words.  In allowlist mode it is accepted exactly if it names a program and
    every program that it names, path aside, is on the allowlist; those that a
    branch might not reach, and quoted ones, count.  Outside of these scripts the
    claim of the comments, that a program off the list fails the command, is
    false: a command after a newline ([newline_hides_command]), after an escaped
    quotation mark ([escaped_quote_hides]) or after a redirection that comes first
    ([leading_redirection_hides]) is not looked at. *)
Theorem Check_allowlist p s :
  Mode p = BashModeAllowlist → script_ok s →
  Check p (scriptText s) = Ok tt ↔
  programs s ≠ [] ∧ ∀ w, w ∈ programs s → baseName w ∈ Allowlist p.
Proof.
  intros Hm Hs. unfold Check. rewrite Hm, checkAllowlist_Ok.
  assert (shellTokens (scriptText s) = Ok (scriptTokens s)) as Ht.
  { unfold shellTokens. rewrite <-(sapp_nil_r (scriptText s)).
    rewrite (tokenizes_script s Hs "") by by left. cbn. by rewrite app_nil_r. }
  destruct (collect_script s Hs) as [b Hb]. specialize (Hb []). rewrite !app_nil_r in Hb. simpl in Hb.
  rewrite Ht. split.
  - intros (tokens & [= <-] & H1 & H2). by rewrite Hb in H1, H2.
  - intros [H1 H2]. exists (scriptTokens s). by rewrite Hb.
Qed.

(** In the shell the quotation marks are escaped and rm is a command. *)
Example escaped_quote_hides :
  Check (policyOf "") ("echo \" +:+ String dquote " ; rm -rf / ; echo \" +:+ String dquote "") = Ok tt.
Proof. vm_compute. reflexivity. Qed.

(** In the shell ls is the file that the output of rm goes to. *)
Example leading_redirection_hides : Check (policyOf "") "> ls rm -rf /" = Ok tt.
Proof. vm_compute. reflexivity. Qed.

(** The error output sent after the other one is taken for a command 1. *)
Example descriptor_refused : Check (policyOf "") "ls 2>&1" = Err (NotAllowed "1").
Proof. vm_compute. reflexivity. Qed.

(** ** The scrubbed environment *)

(** The child's environment keeps the parent's entries in order and drops
    exactly those whose name, in upper case, contains one of the secret words;
    an entry without "=" stays. *)
Theorem scrubbedEnviron_spec src :
  scrubbedEnviron src `sublist_of` src ∧
  ∀ kv, kv ∈ scrubbedEnviron src ↔
    kv ∈ src ∧
    ∀ eq, IndexByte kv "=" = Some eq →
      ∀ pat, pat ∈ secretEnvSubstrings → ¬ ∃ a b, ToUpper (stake eq kv) = a +:+ pat +:+ b.
Proof.
  assert (∀ name, looksSecret name = true ↔
    ∃ pat, pat ∈ secretEnvSubstrings ∧ ∃ a b, ToUpper name = a +:+ pat +:+ b) as Hls.
  { intros name. unfold looksSecret. rewrite existsb_exists. setoid_rewrite <-list_elem_of_In.
    by setoid_rewrite Contains_spec. }
  induction src as [|kv src [IHs IHe]]; cbn [scrubbedEnviron].
  { split; [constructor|]. intros kv. split; [by intros ?%elem_of_nil|]. by intros [?%elem_of_nil _]. }
  assert (∀ x, x ∈ src → x ∈ kv :: src) as Hin by (intros; by right).
  destruct (IndexByte kv "=") as [eq|] eqn:Hi; [destruct (looksSecret (stake eq kv)) eqn:Hk|].
  - split; [by constructor|]. intros x. rewrite IHe, elem_of_cons. split; [naive_solver|].
    intros [[->|?] Hx]; [|naive_solver]. apply Hls in Hk as (pat & Hpat & Hab). by destruct (Hx _ Hi pat).
  - split; [by constructor|]. intros x. rewrite !elem_of_cons, IHe. split; [|naive_solver].
    intros [->|[? Hx]]; [|auto]. split; [by left|]. intros eq' Heq pat Hpat Hab. simplify_eq.
    assert (looksSecret (stake eq kv) = true) by (apply Hls; eauto). congruence.
  - split; [by constructor|]. intros x. rewrite !elem_of_cons, IHe. split; [|naive_solver].
    intros [->|[? Hx]]; [|auto]. split; [by left|]. intros eq' Heq. congruence.
Qed.

(** Whatever the environment says, the loaded policy refuses everything,
    filters by the allowlist, or, only when MATEY_BASH_MODE is "unrestricted" up
    to case and surrounding space, accepts everything; the default binaries are
    always on the list. *)
Theorem LoadBashPolicy_modes mode allowlist command :
  let p := LoadBashPolicy mode allowlist in
  (Check p command = Err PolicyDisabled ∨ Check p command = checkAllowlist p command ∨
   ToLower (TrimSpace mode) = "unrestricted" ∧ Check p command = Ok tt) ∧
  ∀ b, b ∈ defaultBashAllowlist → b ∈ Allowlist p.
Proof.
  intros p. split.
  - unfold Check, p, LoadBashPolicy. cbn [Mode]. unfold parseMode. repeat case_decide; auto.
  - intros b Hb. unfold p, LoadBashPolicy. cbn [Allowlist].
    apply elem_of_union_l. by apply elem_of_list_to_set.
Qed.

(** ** Witnesses *)

(** A build without blanks in a subshell, then a pipeline in the background. *)
Definition plainCommand (w : string) (args : list string) : Script :=
  Command {| assignments := []; invocation :=
    Some {| program := [Plain w]; arguments := (λ a, [Plain a]) <$> args; redirections := [] |} |}.

Definition sampleScript : Script :=
  Chain (Subshell (Chain (plainCommand "kubectl" ["get"; "pods"]) 0 IfSucceeded 0
           (Command {| assignments := [("LANG", [Plain "C"])];
              invocation := Some {| program := [Plain "/bin/"; SingleQuoted "rm"];
                arguments := [[DoubleQuoted "a | b"]];
                redirections := [(RedirectAppend, [Plain "log"])] |} |})))
    1 PipedBoth 0 (plainCommand "grep" ["web"]).

Lemma sampleScript_ok : script_ok sampleScript.
Proof.
  assert (∀ w args, all_bytes plainByte w = true → w ≠ "" → CountByte w "=" = 0%nat →
    w ∉ reservedWords → Forall (λ a, all_bytes plainByte a = true) args →
    script_ok (plainCommand w args)) as Hplain.
  { intros w args Hw Hn He Hr Ha. simpl. split; [right; by eexists|constructor|].
    simpl. intros i [= <-].
    assert (wordMeaning [Plain w] = w) as Hm by (unfold wordMeaning; simpl; by rewrite sapp_nil_r).
    split; cbn [program arguments redirections]; rewrite ?Hm; try done.
    - by repeat constructor.
    - apply Forall_fmap. eapply Forall_impl; [exact Ha|]. intros a Hb. by repeat constructor. }
  split; [split|].
  - apply Hplain; try done; [by apply (bool_decide_unpack _)|by repeat constructor].
  - split; simpl; [left; done| |].
    + constructor; [|constructor]. split; [split; [done|]|by repeat constructor].
      by exists "L"%char, "ANG".
    + intros i [= <-]. split; simpl; try done.
      * by repeat constructor.
      * by apply (bool_decide_unpack _).
      * by repeat constructor.
      * constructor; [|constructor]. split; [by repeat constructor|done].
  - apply Hplain; try done; [by apply (bool_decide_unpack _)|by repeat constructor].
Qed.

Example sampleScript_text :
  scriptText sampleScript =
  "(kubectl get pods&&LANG=C /bin/'rm' " +:+ byte1 dquote +:+ "a | b" +:+ byte1 dquote +:+ " >> log) |&grep web".
Proof. vm_compute. reflexivity. Qed.

Lemma Check_allowlist_witness : Check (policyOf "") (scriptText sampleScript) ≠ Ok tt.
Proof.
  intros Hc. apply (Check_allowlist (policyOf "") sampleScript eq_refl sampleScript_ok) in Hc as [_ Hc].
  specialize (Hc "/bin/rm"). revert Hc. apply (bool_decide_unpack _). vm_compute. exact I.
Defined.

Lemma accepted_no_substitution_witness :
  rBacktick ∉ runes "kubectl get pods | grep web" ∧
  ∀ pre post, runes "kubectl get pods | grep web" ≠ pre ++ rDollar :: rOpen :: post.
Proof.
  apply (accepted_no_substitution (policyOf "")); [reflexivity|vm_compute; reflexivity|].
  apply (bool_decide_unpack _). vm_compute. exact I.
Defined.

Lemma newline_hides_command_witness :
  Check (policyOf "") ("ls" +:+ String newline "rm -rf /") = Ok tt.
Proof.
  apply newline_hides_command; [reflexivity|done|reflexivity|reflexivity| |].
  - apply (bool_decide_unpack _). vm_compute. exact I.
  - apply (bool_decide_unpack _). vm_compute. exact I.
Defined.
