(* ===== verification/EditDiff.v ===== *)
(** * SEARCH/REPLACE diffs

    internal/edit/diff.go: parsing a diff into blocks ([ParseDiff]) and applying
    the blocks one after the other ([ApplyDiff]), by exact search first and two
    line-based fallbacks after it.  The parser is proved to accept exactly the
    texts of a grammar of blocks; the application is specified for exact
    matches and for the fallbacks, which drop a line break and can panic. *)
From S2P Require Import Prelude GoString.

#[local] Open Scope nat_scope.

Set Default Proof Using "Type*".

(** ** Markers *)

(** The leading bytes [c] of a line: how many, and the rest. *)
Fixpoint spanByte (c : ascii) (s : string) : nat * string :=
  match s with
  | "" => (0, "")
  | String d s' =>
      if Ascii.eqb d c then let '(n, rest) := spanByte c s' in (S n, rest) else (0, s)
  end.

(** The class \s of package regexp. *)
Definition spaceRE (c : ascii) : bool := bool_decide (byteN c ∈ [9; 10; 12; 13; 32]%N).

Fixpoint dropSpaceRE (s : string) : string :=
  match s with
  | String c s' => if spaceRE c then dropSpaceRE s' else s
  | "" => ""
  end.

(** The pattern [^[c]{3,}\s*word>?$]. *)
Definition markerRE (c : ascii) (word line : string) : bool :=
  let '(n, rest) := spanByte c line in
  (3 <=? n) &&
  (String.eqb (dropSpaceRE rest) word || String.eqb (dropSpaceRE rest) (word +:+ ">")).

Definition isSearchBlockStart (line : string) : bool :=
  markerRE "-" "SEARCH" line || markerRE "<" "SEARCH" line.

(** The pattern [^[=]{3,}$]. *)
Definition isSearchBlockEnd (line : string) : bool :=
  let '(n, rest) := spanByte "=" line in (3 <=? n) && String.eqb rest "".

Definition isReplaceBlockEnd (line : string) : bool :=
  markerRE "+" "REPLACE" line || markerRE ">" "REPLACE" line.

Definition isPartialMarker (line : string) : bool :=
  (HasPrefix line "-" || HasPrefix line "<" || HasPrefix line "=" || HasPrefix line "+" ||
   HasPrefix line ">") &&
  negb (isSearchBlockStart line) && negb (isSearchBlockEnd line) &&
  negb (isReplaceBlockEnd line).

(** ** Parsing *)

Record DiffFormat := {
  SearchContent : string;
  ReplaceContent : string;
  StartLine : Z;
  EndLine : Z;
}.

(** [operations] is created empty and never written. *)
Record DiffProcessor := {
  originalContent : string;
  blocks : list DiffFormat;
}.

Definition NewDiffProcessor (content : string) : DiffProcessor :=
  {| originalContent := content; blocks := [] |}.

Definition emptyBlock : DiffFormat :=
  {| SearchContent := ""; ReplaceContent := ""; StartLine := 0; EndLine := 0 |}.

Definition withEndLine (n : Z) (b : DiffFormat) : DiffFormat :=
  {| SearchContent := SearchContent b; ReplaceContent := ReplaceContent b;
     StartLine := StartLine b; EndLine := n |}.

Inductive ParseError :=
  | NestedSearch (line : Z)
  | UnexpectedSearchEnd (line : Z)
  | UnexpectedReplaceEnd (line : Z).

(** The variables of the loop, the processor's blocks among them. *)
Record ParseState := {
  parsed : list DiffFormat;
  currentBlock : DiffFormat;
  inSearch : bool;
  inReplace : bool;
}.

(** [if acc != "" { acc += "\n" }; acc += line]. *)
Definition accumulate (acc line : string) : string :=
  (if String.eqb acc "" then acc else acc +:+ byte1 newline) +:+ line.

Definition addSearch (line : string) (b : DiffFormat) : DiffFormat :=
  {| SearchContent := accumulate (SearchContent b) line; ReplaceContent := ReplaceContent b;
     StartLine := StartLine b; EndLine := EndLine b |}.

Definition addReplace (line : string) (b : DiffFormat) : DiffFormat :=
  {| SearchContent := SearchContent b; ReplaceContent := accumulate (ReplaceContent b) line;
     StartLine := StartLine b; EndLine := EndLine b |}.

(** The body of the loop for line number [n] (from 1). *)
Definition parseLine (n : Z) (line : string) (st : ParseState) : res ParseError ParseState :=
  if isSearchBlockStart line then
    if inSearch st || inReplace st then Err (NestedSearch n)
    else Ok {| parsed := parsed st; inSearch := true; inReplace := inReplace st;
               currentBlock := {| SearchContent := ""; ReplaceContent := "";
                                  StartLine := n; EndLine := 0 |} |}
  else if isSearchBlockEnd line then
    if negb (inSearch st) then Err (UnexpectedSearchEnd n)
    else Ok {| parsed := parsed st; currentBlock := currentBlock st;
               inSearch := false; inReplace := true |}
  else if isReplaceBlockEnd line then
    if negb (inReplace st) then Err (UnexpectedReplaceEnd n)
    else Ok {| parsed := parsed st ++ [withEndLine n (currentBlock st)];
               currentBlock := emptyBlock; inSearch := inSearch st; inReplace := false |}
  else
    Ok {| parsed := parsed st; inSearch := inSearch st; inReplace := inReplace st;
          currentBlock :=
            if inSearch st then addSearch line (currentBlock st)
            else if inReplace st then addReplace line (currentBlock st)
            else currentBlock st |}.

(** The loop; on an error the blocks parsed before it stay in the processor. *)
Fixpoint parseLines (n : Z) (lines : list string) (st : ParseState) :
    ParseState * option ParseError :=
  match lines with
  | [] => (st, None)
  | line :: rest =>
      match parseLine n line st with
      | Ok st' => parseLines (n + 1) rest st'
      | Err e => (st, Some e)
      end
  end.

(** The lines of the diff, without an unfinished marker while streaming. *)
Definition inputLines (diffContent : string) (isFinal : bool) : list string :=
  let lines := SplitByte diffContent newline in
  match last lines with
  | Some lastLine =>
      if negb isFinal && isPartialMarker lastLine then take (length lines - 1) lines else lines
  | None => lines
  end.

Definition startParse (dp : DiffProcessor) : ParseState :=
  {| parsed := blocks dp; currentBlock := emptyBlock; inSearch := false; inReplace := false |}.

Definition ParseDiff (dp : DiffProcessor) (diffContent : string) (isFinal : bool) :
    DiffProcessor * option ParseError :=
  let lines := inputLines diffContent isFinal in
  match parseLines 1 lines (startParse dp) with
  | (st, Some e) => ({| originalContent := originalContent dp; blocks := parsed st |}, Some e)
  | (st, None) =>
      ({| originalContent := originalContent dp;
          blocks := if isFinal && inReplace st
                    then parsed st ++ [withEndLine (Z.of_nat (length lines)) (currentBlock st)]
                    else parsed st |}, None)
  end.

Example ParseDiff_ex :
  blocks (ParseDiff (NewDiffProcessor "") "note
------- SEARCH

old
=======
new
+++++++ REPLACE
" true).1 = [{| SearchContent := "old"; ReplaceContent := "new"; StartLine := 2; EndLine := 7 |}].
Proof. vm_compute. reflexivity. Qed.

(** ** The marker patterns *)

Fixpoint repeatByte (c : ascii) (n : nat) : string :=
  match n with O => "" | S n' => String c (repeatByte c n') end.

Fixpoint allSpaceRE (s : string) : bool :=
  match s with "" => true | String c s' => spaceRE c && allSpaceRE s' end.

Lemma spanByte_spec c s n rest : spanByte c s = (n, rest) → s = repeatByte c n +:+ rest.
Proof.
  revert n. induction s as [|d s IH]; intros n; simpl.
  - by intros [= <- <-].
  - destruct (Ascii.eqb_spec d c) as [->|].
    + destruct (spanByte c s) as [m r]. intros [= <- <-]. simpl. f_equal. by apply IH.
    + by intros [= <- <-].
Qed.

Lemma spanByte_repeat c n rest :
  (∀ d s, rest = String d s → d ≠ c) → spanByte c (repeatByte c n +:+ rest) = (n, rest).
Proof.
  intros Hr. induction n as [|n IH]; simpl.
  - destruct rest as [|d s]; [done|]. simpl. destruct (Ascii.eqb_spec d c) as [->|]; [|done].
    by destruct (Hr c s).
  - by rewrite Ascii.eqb_refl, IH.
Qed.

Lemma dropSpaceRE_spec s : ∃ ws, allSpaceRE ws = true ∧ s = ws +:+ dropSpaceRE s.
Proof.
  induction s as [|c s (ws & Hws & Hs)]; [by exists ""|]. simpl.
  destruct (spaceRE c) eqn:Hc; [|by exists ""].
  exists (String c ws). simpl. rewrite Hc. split; [done|]. by rewrite <-Hs.
Qed.

Lemma dropSpaceRE_app ws d s :
  allSpaceRE ws = true → spaceRE d = false → dropSpaceRE (ws +:+ String d s) = String d s.
Proof.
  induction ws as [|c ws IH]; simpl; intros Hws Hd; [by rewrite Hd|].
  apply andb_true_iff in Hws as [-> ?]. auto.
Qed.

(** The scan agrees with the pattern: at least three bytes [c], white space, the
    word and perhaps ">". *)
Lemma markerRE_spec c d word line :
  spaceRE c = false → spaceRE d = false → c ≠ d →
  markerRE c (String d word) line = true ↔
  ∃ n ws, 3 ≤ n ∧ allSpaceRE ws = true ∧
    (line = repeatByte c n +:+ ws +:+ String d word ∨
     line = repeatByte c n +:+ ws +:+ String d (word +:+ ">")).
Proof.
  intros Hc Hd Hcd. unfold markerRE. split.
  - destruct (spanByte c line) as [n rest] eqn:Hspan. apply spanByte_spec in Hspan as ->.
    rewrite andb_true_iff, orb_true_iff, !String.eqb_eq. intros [Hn%Nat.leb_le Hw].
    destruct (dropSpaceRE_spec rest) as (ws & Hws & Hrest). exists n, ws.
    split_and!; [done|done|]. rewrite Hrest. destruct Hw as [-> | ->]; [by left|by right].
  - intros (n & ws & Hn & Hws & Hline).
    assert (∃ w, line = repeatByte c n +:+ (ws +:+ String d w) ∧ (w = word ∨ w = word +:+ ">"))
      as (w & -> & Hw) by (destruct Hline; eauto).
    rewrite spanByte_repeat.
    + rewrite dropSpaceRE_app by done. rewrite andb_true_iff, orb_true_iff, !String.eqb_eq.
      split; [by apply Nat.leb_le|]. destruct Hw as [-> | ->]; [by left|by right].
    + intros e s Hes ->. destruct ws as [|f ws]; simpl in *; simplify_eq.
      by rewrite Hc in Hws.
Qed.

(** A line has at most one kind of marker. *)
Definition plain (line : string) : Prop :=
  isSearchBlockStart line = false ∧ isSearchBlockEnd line = false ∧
  isReplaceBlockEnd line = false.

Lemma spanByte_head c s n rest :
  spanByte c s = (S n, rest) → ∃ s', s = String c s'.
Proof.
  destruct s as [|d s]; simpl; [done|]. destruct (Ascii.eqb_spec d c) as [->|]; [|done]. eauto.
Qed.

Lemma markerRE_head c word line : markerRE c word line = true → ∃ s, line = String c s.
Proof.
  unfold markerRE. destruct (spanByte c line) as [[|n] rest] eqn:Hs; [done|]. intros _.
  by eapply spanByte_head.
Qed.

Lemma isSearchBlockStart_head line :
  isSearchBlockStart line = true → ∃ c s, line = String c s ∧ (c = "-" ∨ c = "<")%char.
Proof.
  unfold isSearchBlockStart. rewrite orb_true_iff.
  intros [[s ->]%markerRE_head|[s ->]%markerRE_head]; eauto.
Qed.

Lemma isReplaceBlockEnd_head line :
  isReplaceBlockEnd line = true → ∃ c s, line = String c s ∧ (c = "+" ∨ c = ">")%char.
Proof.
  unfold isReplaceBlockEnd. rewrite orb_true_iff.
  intros [[s ->]%markerRE_head|[s ->]%markerRE_head]; eauto.
Qed.

Lemma isSearchBlockEnd_head line :
  isSearchBlockEnd line = true → ∃ s, line = String "=" s.
Proof.
  unfold isSearchBlockEnd. destruct (spanByte "=" line) as [[|n] rest] eqn:Hs; [done|]. intros _.
  by eapply spanByte_head.
Qed.

Lemma search_end_only line :
  isSearchBlockEnd line = true → isSearchBlockStart line = false.
Proof.
  intros [s ->]%isSearchBlockEnd_head. apply not_true_iff_false.
  by intros (c & s' & [= <- _] & [|])%isSearchBlockStart_head.
Qed.

Lemma replace_end_only line :
  isReplaceBlockEnd line = true → isSearchBlockStart line = false ∧ isSearchBlockEnd line = false.
Proof.
  intros (c & s & -> & Hc)%isReplaceBlockEnd_head. split; apply not_true_iff_false.
  - intros (c' & s' & [= <- _] & Hc')%isSearchBlockStart_head. by destruct Hc, Hc'; subst.
  - intros [s' [= -> _]]%isSearchBlockEnd_head. by destruct Hc.
Qed.

(** ** The grammar of a diff *)

(** The content of a block: its lines, without the empty ones at the front. *)
Definition contentOf (lines : list string) : string := foldl accumulate "" lines.

Definition mkBlock (n : Z) (search replace : list string) (last : Z) : DiffFormat :=
  {| SearchContent := contentOf search; ReplaceContent := contentOf replace;
     StartLine := n; EndLine := last |}.

(** [diff_text isFinal n lines bs]: from line number [n] on, the diff consists of
    plain lines outside blocks and of the blocks [bs]; a search part without its
    end is no block, and a replace part without its end is one only in a final
    diff. *)
Inductive diff_text (isFinal : bool) : Z → list string → list DiffFormat → Prop :=
  | dt_end n : diff_text isFinal n [] []
  | dt_outside n l ls bs :
      plain l → diff_text isFinal (n + 1) ls bs → diff_text isFinal n (l :: ls) bs
  | dt_block n s search m replace e ls bs :
      isSearchBlockStart s = true → Forall plain search →
      isSearchBlockEnd m = true → Forall plain replace → isReplaceBlockEnd e = true →
      diff_text isFinal (n + Z.of_nat (length search + length replace) + 3) ls bs →
      diff_text isFinal n (s :: search ++ m :: replace ++ e :: ls)
        (mkBlock n search replace (n + Z.of_nat (length search + length replace) + 2) :: bs)
  | dt_open_search n s search :
      isSearchBlockStart s = true → Forall plain search →
      diff_text isFinal n (s :: search) []
  | dt_open_replace n s search m replace :
      isSearchBlockStart s = true → Forall plain search →
      isSearchBlockEnd m = true → Forall plain replace →
      diff_text isFinal n (s :: search ++ m :: replace)
        (if isFinal
         then [mkBlock n search replace (n + Z.of_nat (length search + length replace) + 1)]
         else []).

(** ** The parser and the grammar *)

(** Where the parser is, with the lines of the block it is in. *)
Inductive mode :=
  | Idle
  | Searching (start : Z) (s : string) (search : list string)
  | Replacing (start : Z) (s : string) (search : list string) (m : string)
      (replace : list string).

Definition modeState (bs : list DiffFormat) (md : mode) : ParseState :=
  match md with
  | Idle => {| parsed := bs; currentBlock := emptyBlock; inSearch := false; inReplace := false |}
  | Searching start _ search =>
      {| parsed := bs; currentBlock := mkBlock start search [] 0; inSearch := true;
         inReplace := false |}
  | Replacing start _ search _ replace =>
      {| parsed := bs; currentBlock := mkBlock start search replace 0; inSearch := false;
         inReplace := true |}
  end.

(** The lines read since the block began, and the line it began on. *)
Definition modeText (md : mode) : list string :=
  match md with
  | Idle => []
  | Searching _ s search => s :: search
  | Replacing _ s search m replace => s :: search ++ m :: replace
  end.

Definition modeStart (n : Z) (md : mode) : Z :=
  match md with Idle => n | Searching start _ _ | Replacing start _ _ _ _ => start end.

Definition mode_ok (n : Z) (md : mode) : Prop :=
  n = (modeStart n md + Z.of_nat (length (modeText md)))%Z ∧
  match md with
  | Idle => True
  | Searching _ s search => isSearchBlockStart s = true ∧ Forall plain search
  | Replacing _ s search m replace =>
      isSearchBlockStart s = true ∧ Forall plain search ∧
      isSearchBlockEnd m = true ∧ Forall plain replace
  end.

(** The blocks [ParseDiff] leaves after the last line, number [last]. *)
Definition finish (isFinal : bool) (last : Z) (st : ParseState) : list DiffFormat :=
  if isFinal && inReplace st then parsed st ++ [withEndLine last (currentBlock st)]
  else parsed st.

Lemma contentOf_snoc ls l : contentOf (ls ++ [l]) = accumulate (contentOf ls) l.
Proof. unfold contentOf. by rewrite foldl_app. Qed.

(** One line from a mode: a plain line extends the part being read... *)
Definition modePlain (line : string) (md : mode) : mode :=
  match md with
  | Idle => Idle
  | Searching start s search => Searching start s (search ++ [line])
  | Replacing start s search m replace => Replacing start s search m (replace ++ [line])
  end.

Lemma parseLine_plain n line bs md :
  plain line → parseLine n line (modeState bs md) = Ok (modeState bs (modePlain line md)).
Proof.
  intros (Hs & Hm & He). unfold parseLine. rewrite Hs, Hm, He.
  destruct md; simpl; [done|..]; unfold mkBlock, addSearch, addReplace; simpl;
    by rewrite contentOf_snoc.
Qed.

(** ... and markers move between the modes. *)
Lemma parseLine_start n s bs :
  isSearchBlockStart s = true →
  parseLine n s (modeState bs Idle) = Ok (modeState bs (Searching n s [])).
Proof. intros Hs. unfold parseLine. by rewrite Hs. Qed.

Lemma parseLine_middle n m bs start s search :
  isSearchBlockEnd m = true →
  parseLine n m (modeState bs (Searching start s search)) =
    Ok (modeState bs (Replacing start s search m [])).
Proof. intros Hm. unfold parseLine. by rewrite (search_end_only m Hm), Hm. Qed.

Lemma parseLine_end n e bs start s search m replace :
  isReplaceBlockEnd e = true →
  parseLine n e (modeState bs (Replacing start s search m replace)) =
    Ok (modeState (bs ++ [mkBlock start search replace n]) Idle).
Proof.
  intros He. unfold parseLine. destruct (replace_end_only e He) as [-> ->]. by rewrite He.
Qed.

(** Every accepted line is of one of these four sorts. *)
Lemma parseLine_Ok n line bs md st :
  parseLine n line (modeState bs md) = Ok st →
  (plain line ∧ st = modeState bs (modePlain line md)) ∨
  (isSearchBlockStart line = true ∧ md = Idle ∧ st = modeState bs (Searching n line [])) ∨
  (∃ start s search, isSearchBlockEnd line = true ∧ md = Searching start s search ∧
     st = modeState bs (Replacing start s search line [])) ∨
  (∃ start s search m replace, isReplaceBlockEnd line = true ∧
     md = Replacing start s search m replace ∧
     st = modeState (bs ++ [mkBlock start search replace n]) Idle).
Proof.
  intros Hp. pose proof Hp as Hp'. unfold parseLine in Hp'.
  destruct (isSearchBlockStart line) eqn:Hs; [|destruct (isSearchBlockEnd line) eqn:Hm;
    [|destruct (isReplaceBlockEnd line) eqn:He]].
  - destruct md; simpl in Hp'; try done. rewrite parseLine_start in Hp by done.
    injection Hp as <-. right. by left.
  - destruct md as [|start s search|]; simpl in Hp'; try done.
    rewrite parseLine_middle in Hp by done. injection Hp as <-. right. right. left.
    by exists start, s, search.
  - destruct md as [| |start s search m replace]; simpl in Hp'; try done.
    rewrite parseLine_end in Hp by done. injection Hp as <-. do 3 right.
    by exists start, s, search, m, replace.
  - left. split; [done|]. rewrite parseLine_plain in Hp by done. by injection Hp.
Qed.

Lemma mode_ok_plain n line md :
  plain line → mode_ok n md → mode_ok (n + 1) (modePlain line md).
Proof.
  intros Hp. unfold mode_ok. destruct md; simpl; rewrite ?length_app; simpl;
    rewrite ?length_app; simpl; intros [Hn Hok]; split; try lia; try done.
  - destruct Hok as [? ?]. split; [done|]. by rewrite Forall_app, Forall_singleton.
  - destruct Hok as (? & ? & ? & ?). split_and!; [done..|]. by rewrite Forall_app, Forall_singleton.
Qed.

Lemma modeText_plain line md ls :
  md ≠ Idle → modeText (modePlain line md) ++ ls = modeText md ++ line :: ls.
Proof.
  destruct md; simpl; [done|..]; intros _; rewrite <-?(assoc_L (++)); [done|].
  by rewrite <-app_comm_cons, <-(assoc_L (++)).
Qed.

(** Soundness: what the parser accepts is in the grammar. *)
Lemma parseLines_sound isFinal ls n md bs0 out :
  mode_ok n md → parseLines n ls (modeState bs0 md) = (out, None) →
  ∃ bs, diff_text isFinal (modeStart n md) (modeText md ++ ls) bs ∧
    finish isFinal (n + Z.of_nat (length ls) - 1) out = bs0 ++ bs.
Proof.
  revert n md bs0 out. induction ls as [|line ls IH]; intros n md bs0 out [Hn Hok]; simpl.
  - intros [= <-]. rewrite app_nil_r. unfold finish. destruct md as [|start s search|start s search m replace]; simpl in *.
    + exists []. rewrite app_nil_r, andb_false_r. split; [constructor|done].
    + exists []. rewrite app_nil_r, andb_false_r. destruct Hok. by split; [constructor|].
    + eexists. destruct Hok as (? & ? & ? & ?). split; [by apply dt_open_replace|].
      rewrite andb_true_r. destruct isFinal; [|by rewrite app_nil_r].
      do 2 f_equal. unfold withEndLine, mkBlock. simpl. f_equal. rewrite length_app in Hn. simpl in Hn. lia.
  - destruct (parseLine n line _) as [st|] eqn:Hp; [|done]. intros Hout.
    apply parseLine_Ok in Hp as [[Hpl ->]|[(Hs & -> & ->)|[(start & s & search & Hm & -> & ->)|
      (start & s & search & m & replace & He & -> & ->)]]].
    + apply IH in Hout as (bs & Hd & Hf); [|by apply mode_ok_plain].
      exists bs. split; [|by rewrite <-Hf; f_equal; lia].
      destruct md; [by apply dt_outside|..]; by rewrite modeText_plain in Hd.
    + edestruct IH as (bs & Hd & Hf); [|exact Hout|].
      { split; [simpl in *; lia|]. by split. }
      exists bs. split; [done|]. rewrite <-Hf. f_equal. lia.
    + edestruct IH as (bs & Hd & Hf); [|exact Hout|].
      { destruct Hok. split; [|by split_and!]. simpl in *. rewrite length_app. simpl. lia. }
      exists bs. split; [|rewrite <-Hf; f_equal; lia]. simpl in *. by rewrite <-(assoc_L (++)) in Hd.
    + edestruct IH as (bs & Hd & Hf); [|exact Hout|].
      { split; [simpl; lia|done]. }
      exists (mkBlock start search replace n :: bs). destruct Hok as (? & ? & ? & ?). simpl in *.
      rewrite length_app in Hn. simpl in Hn. split.
      * rewrite <-(assoc_L (++)), <-app_comm_cons.
        replace n with (start + Z.of_nat (length search + length replace) + 2)%Z at 1 by lia.
        apply dt_block; try done. by replace (_ + 3)%Z with (n + 1)%Z by lia.
      * rewrite <-(assoc_L (++)) in Hf. etransitivity; [|exact Hf]. f_equal. lia.
Qed.

(** Completeness: the parser accepts what is in the grammar. *)
Lemma parseLines_plain ls1 ls2 n bs md :
  Forall plain ls1 →
  parseLines n (ls1 ++ ls2) (modeState bs md) =
    parseLines (n + Z.of_nat (length ls1)) ls2 (modeState bs (foldl (flip modePlain) md ls1)).
Proof.
  intros Hp. revert n md. induction Hp as [|l ls1 Hl _ IH]; intros n md.
  - simpl. by rewrite Z.add_0_r.
  - cbn [app parseLines length foldl]. rewrite parseLine_plain by done. rewrite IH. f_equal. lia.
Qed.

Lemma modePlain_search start s pre ls :
  foldl (flip modePlain) (Searching start s pre) ls = Searching start s (pre ++ ls).
Proof.
  revert pre. induction ls as [|l ls IH]; intros pre; [by rewrite app_nil_r|].
  simpl. by rewrite IH, <-(assoc_L (++)).
Qed.

Lemma modePlain_replace start s search m pre ls :
  foldl (flip modePlain) (Replacing start s search m pre) ls =
    Replacing start s search m (pre ++ ls).
Proof.
  revert pre. induction ls as [|l ls IH]; intros pre; [by rewrite app_nil_r|].
  simpl. by rewrite IH, <-(assoc_L (++)).
Qed.

Lemma parseLines_search n s search ls bs :
  isSearchBlockStart s = true → Forall plain search →
  parseLines n (s :: search ++ ls) (modeState bs Idle) =
    parseLines (n + 1 + Z.of_nat (length search)) ls (modeState bs (Searching n s search)).
Proof.
  intros Hs Hp. cbn [parseLines]. rewrite parseLine_start by done.
  by rewrite parseLines_plain, modePlain_search.
Qed.

Lemma parseLines_replace n s search m replace ls bs :
  isSearchBlockStart s = true → Forall plain search →
  isSearchBlockEnd m = true → Forall plain replace →
  parseLines n (s :: search ++ m :: replace ++ ls) (modeState bs Idle) =
    parseLines (n + Z.of_nat (length search + length replace) + 2) ls
      (modeState bs (Replacing n s search m replace)).
Proof.
  intros Hs Hp Hm Hr. rewrite parseLines_search by done. cbn [parseLines].
  rewrite parseLine_middle by done. rewrite parseLines_plain, modePlain_replace by done.
  simpl. f_equal. lia.
Qed.

Lemma parseLines_complete isFinal n ls bs :
  diff_text isFinal n ls bs → ∀ bs0, ∃ out, parseLines n ls (modeState bs0 Idle) = (out, None) ∧
    finish isFinal (n + Z.of_nat (length ls) - 1) out = bs0 ++ bs.
Proof.
  induction 1 as [n|n l ls bs Hl _ IH|n s search m replace e ls bs Hs Hp Hm Hr He _ IH
    |n s search Hs Hp|n s search m replace Hs Hp Hm Hr]; intros bs0.
  - eexists. split; [done|]. unfold finish. simpl. by rewrite andb_false_r, app_nil_r.
  - cbn [parseLines]. rewrite parseLine_plain by done. destruct (IH bs0) as (out & Hout & Hf).
    exists out. split; [done|]. rewrite <-Hf. f_equal. simpl. lia.
  - rewrite parseLines_replace by done. cbn [parseLines]. rewrite parseLine_end by done.
    edestruct IH as (out & Hout & Hf). exists out. split.
    + rewrite <-Hout. f_equal. lia.
    + rewrite <-(assoc_L (++)) in Hf. etransitivity; [|exact Hf]. f_equal. simpl.
      rewrite !length_app. simpl. rewrite length_app. simpl. lia.
  - rewrite <-(app_nil_r (s :: search)), <-app_comm_cons. rewrite parseLines_search by done.
    eexists. split; [done|]. unfold finish. simpl. by rewrite andb_false_r, app_nil_r.
  - pose proof (parseLines_replace n s search m replace [] bs0 Hs Hp Hm Hr) as Heq.
    rewrite app_nil_r in Heq. rewrite Heq. eexists. split; [done|]. unfold finish. simpl. rewrite andb_true_r.
    destruct isFinal; [|by rewrite app_nil_r]. do 2 f_equal. unfold withEndLine, mkBlock. simpl.
    f_equal. rewrite !length_app. simpl. lia.
Qed.

(** C23: [ParseDiff] succeeds exactly on the texts of the grammar, and appends
    exactly their blocks, contents and line numbers included. *)
Theorem ParseDiff_grammar dp diffContent isFinal dp' :
  ParseDiff dp diffContent isFinal = (dp', None) ↔
  ∃ bs, diff_text isFinal 1 (inputLines diffContent isFinal) bs ∧
    dp' = {| originalContent := originalContent dp; blocks := blocks dp ++ bs |}.
Proof.
  unfold ParseDiff. change (startParse dp) with (modeState (blocks dp) Idle).
  set (lines := inputLines diffContent isFinal). split.
  - destruct (parseLines 1 lines _) as [st [e|]] eqn:Hp; [done|]. intros [= <-].
    apply (parseLines_sound isFinal) in Hp as (bs & Hd & Hf); [|done].
    exists bs. split; [done|]. f_equal. rewrite <-Hf. unfold finish.
    by replace (1 + Z.of_nat (length lines) - 1)%Z with (Z.of_nat (length lines)) by lia.
  - intros (bs & Hd & ->). apply (parseLines_complete _ _ _ _) with (bs0 := blocks dp) in Hd
      as (out & -> & Hf). do 2 f_equal. rewrite <-Hf. unfold finish.
    by replace (1 + Z.of_nat (length lines) - 1)%Z with (Z.of_nat (length lines)) by lia.
Qed.

(** A block's leading empty lines are lost; the others are kept as they are. *)
Fixpoint dropEmpty (ls : list string) : list string :=
  match ls with
  | l :: ls' => if String.eqb l "" then dropEmpty ls' else ls
  | [] => []
  end.

Lemma Join_snoc l ls sep x : Join (l :: ls ++ [x]) sep = Join (l :: ls) sep +:+ sep +:+ x.
Proof.
  revert l. induction ls as [|y ls IH]; intros l; [done|].
  change (Join (l :: (y :: ls) ++ [x]) sep) with (l +:+ sep +:+ Join (y :: ls ++ [x]) sep).
  rewrite IH. change (Join (l :: y :: ls) sep) with (l +:+ sep +:+ Join (y :: ls) sep).
  by rewrite !sapp_assoc.
Qed.

Lemma Join_cons_nonempty l ls sep : l ≠ "" → Join (l :: ls) sep ≠ "".
Proof. destruct l; [done|]. by destruct ls. Qed.

Lemma contentOf_spec ls : contentOf ls = Join (dropEmpty ls) (byte1 newline).
Proof.
  induction ls as [|l ls IH] using rev_ind; [done|]. rewrite contentOf_snoc, IH. clear IH.
  induction ls as [|x ls IH]; cbn [dropEmpty app].
  - unfold accumulate. simpl. destruct (String.eqb_spec l ""); by subst.
  - destruct (String.eqb_spec x "") as [|Hx]; [done|]. unfold accumulate.
    destruct (String.eqb_spec (Join (x :: ls) (byte1 newline)) "") as [He|_].
    + by apply Join_cons_nonempty in He.
    + by rewrite Join_snoc, sapp_assoc.
Qed.

(** ** Application *)

(** [s[n:]] with the bounds check: [None] is a panic. *)
Definition sliceFrom (s : string) (n : nat) : option string :=
  if n <=? String.length s then Some (sdrop n s) else None.

(** The sum of [len(line) + 1]. *)
Definition linesLength (lines : list string) : nat :=
  foldr (λ l n, String.length l + 1 + n) 0 lines.

(** Both fallbacks look for the line of a character index like this; it stays 0
    when no line begins at or after the index. *)
Fixpoint startLineNum (startIndex i charCount : nat) (lines : list string) : nat :=
  match lines with
  | [] => 0
  | line :: rest =>
      if startIndex <=? charCount then i
      else startLineNum startIndex (S i) (charCount + String.length line + 1) rest
  end.

(** [for i := start; i <= count-size; i++], the first [i] with [p i]. *)
Definition findLine (p : nat → bool) (start count size : nat) : option nat :=
  find p (seq start (S count - size - start)).

(** The character positions of [size] lines from line [i]. *)
Definition lineRange (lines : list string) (i size : nat) : nat * nat :=
  let matchStart := linesLength (take i lines) in
  (matchStart, matchStart + linesLength (take size (drop i lines))).

(** [searchLines] without a trailing empty line. *)
Definition searchLinesOf (searchContent : string) : list string :=
  let lines := SplitByte searchContent newline in
  match last lines with
  | Some "" => take (length lines - 1) lines
  | _ => lines
  end.

(** Whether all search lines match, trimmed, at line [i]. *)
Definition trimmedMatchAt (contentLines searchLines : list string) (i : nat) : bool :=
  bool_decide (TrimSpace <$> take (length searchLines) (drop i contentLines) =
               TrimSpace <$> searchLines).

Definition lineTrimmedMatch (content searchContent : string) (startIndex : nat) :
    option (nat * nat) :=
  let contentLines := SplitByte content newline in
  let searchLines := searchLinesOf searchContent in
  i ← findLine (trimmedMatchAt contentLines searchLines)
        (startLineNum startIndex 0 0 contentLines) (length contentLines) (length searchLines);
  Some (lineRange contentLines i (length searchLines)).

(** Whether the first and last search lines match around line [i]. *)
Definition anchorMatchAt (contentLines searchLines : list string) (i : nat) : bool :=
  bool_decide (TrimSpace <$> contentLines !! i = TrimSpace <$> head searchLines) &&
  bool_decide (TrimSpace <$> contentLines !! (i + length searchLines - 1) =
               TrimSpace <$> last searchLines).

Definition blockAnchorMatch (content searchContent : string) (startIndex : nat) :
    option (nat * nat) :=
  if length (SplitByte searchContent newline) <? 3 then None
  else
    let searchLines := searchLinesOf searchContent in
    let contentLines := SplitByte content newline in
    i ← findLine (anchorMatchAt contentLines searchLines)
          (startLineNum startIndex 0 0 contentLines) (length contentLines) (length searchLines);
    Some (lineRange contentLines i (length searchLines)).

Definition truncateForError (content : string) : string :=
  if 100 <? String.length content then stake 100 content +:+ "..." else content.

Inductive ApplyError := NoMatch (search : string).

(** [content[:start] + replace + content[end:]] and the offset after it. *)
Definition replaceRange (content replace : string) (range : nat * nat) :
    option (res ApplyError (string * nat)) :=
  after ← sliceFrom content range.2;
  Some (Ok (stake range.1 content +:+ replace +:+ after,
            range.1 + String.length replace)).

(** [None] is a panic. *)
Definition applyBlock (content : string) (block : DiffFormat) (offset : nat) :
    option (res ApplyError (string * nat)) :=
  let searchContent := SearchContent block in
  let replaceContent := ReplaceContent block in
  if String.eqb searchContent "" then Some (Ok (replaceContent, String.length replaceContent))
  else
    tail ← sliceFrom content offset;
    match Index tail searchContent with
    | Some index =>
        replaceRange content replaceContent
          (offset + index, offset + index + String.length searchContent)
    | None =>
        match lineTrimmedMatch content searchContent offset with
        | Some range => replaceRange content replaceContent range
        | None =>
            match blockAnchorMatch content searchContent offset with
            | Some range => replaceRange content replaceContent range
            | None => Some (Err (NoMatch (truncateForError searchContent)))
            end
        end
    end.

(** The loop over the blocks. *)
Fixpoint applyBlocks (result : string) (offset : nat) (bs : list DiffFormat) :
    option (res ApplyError string) :=
  match bs with
  | [] => Some (Ok result)
  | block :: rest =>
      r ← applyBlock result block offset;
      match r with
      | Ok (newContent, newOffset) => applyBlocks newContent newOffset rest
      | Err e => Some (Err e)
      end
  end.

Definition ApplyDiff (dp : DiffProcessor) : option (res ApplyError string) :=
  applyBlocks (originalContent dp) 0 (blocks dp).

(** ** Lines and positions *)

Definition linesText (lines : list string) : string :=
  foldr (λ l s, l +:+ String newline s) "" lines.

Lemma linesLength_text lines : linesLength lines = String.length (linesText lines).
Proof.
  induction lines as [|l lines IH]; [done|]. simpl. rewrite IH, slength_app. simpl. lia.
Qed.

Lemma linesText_app l1 l2 : linesText (l1 ++ l2) = linesText l1 +:+ linesText l2.
Proof.
  induction l1 as [|l l1 IH]; [done|]. simpl. rewrite IH, <-sapp_assoc. done.
Qed.

Lemma Join_linesText l1 l2 :
  l2 ≠ [] → Join (l1 ++ l2) (byte1 newline) = linesText l1 +:+ Join l2 (byte1 newline).
Proof.
  intros Hne. induction l1 as [|l l1 IH]; [done|].
  change (linesText (l :: l1)) with (l +:+ byte1 newline +:+ linesText l1).
  rewrite <-!sapp_assoc, <-IH. simpl.
  destruct (l1 ++ l2) as [|x ls] eqn:Hl; [by apply app_nil in Hl as [_ ?]|done].
Qed.

Lemma Join_linesText_end lines :
  lines ≠ [] → Join lines (byte1 newline) +:+ byte1 newline = linesText lines.
Proof.
  intros Hne. destruct lines as [|x lines _] using rev_ind; [done|].
  rewrite Join_linesText, linesText_app, <-sapp_assoc by done. done.
Qed.

Lemma sliceFrom_app s t : sliceFrom (s +:+ t) (String.length s) = Some t.
Proof.
  unfold sliceFrom. rewrite sdrop_app, slength_app.
  destruct (Nat.leb_spec (String.length s) (String.length s + String.length t)); [done|lia].
Qed.

Lemma replaceRange_exact content search replace before after :
  content = before +:+ search +:+ after →
  replaceRange content replace
    (String.length before, String.length before + String.length search) =
    Some (Ok (before +:+ replace +:+ after, String.length before + String.length replace)).
Proof.
  intros ->. unfold replaceRange. simpl.
  rewrite <-(slength_app before search), sapp_assoc, sliceFrom_app. simpl.
  by rewrite <-sapp_assoc, stake_app.
Qed.

(** Replacing lines [mid] of a text, when other lines follow: the line break
    after them goes as well. *)
Lemma replaceRange_lines content replace pre mid post :
  SplitByte content newline = pre ++ mid ++ post → post ≠ [] →
  replaceRange content replace (lineRange (SplitByte content newline) (length pre) (length mid)) =
    Some (Ok (linesText pre +:+ replace +:+ Join post (byte1 newline),
              String.length (linesText pre) + String.length replace)).
Proof.
  intros Hl Hpost. unfold replaceRange, lineRange. rewrite Hl. simpl.
  rewrite take_app_length, drop_app_length, take_app_length, !linesLength_text.
  pose proof (Join_SplitByte content newline) as Hc. rewrite Hl, (assoc_L (++)) in Hc.
  rewrite Join_linesText, linesText_app in Hc by done.
  rewrite <-Hc, <-(slength_app (linesText pre) (linesText mid)).
  rewrite sliceFrom_app. simpl. by rewrite <-sapp_assoc, stake_app.
Qed.

(** When they are the last lines the end of the range is past the text: a panic. *)
Lemma replaceRange_end content replace pre mid :
  SplitByte content newline = pre ++ mid → mid ≠ [] →
  replaceRange content replace (lineRange (SplitByte content newline) (length pre) (length mid)) =
    None.
Proof.
  intros Hl Hmid. unfold replaceRange, lineRange. rewrite Hl. simpl.
  rewrite take_app_length, drop_app_length, firstn_all, !linesLength_text.
  pose proof (Join_SplitByte content newline) as Hc. rewrite Hl in Hc.
  rewrite <-(slength_app (linesText pre) (linesText mid)), <-linesText_app, <-(Join_linesText_end (pre ++ mid)), Hc.
  - unfold sliceFrom. rewrite slength_app. simpl.
    destruct (Nat.leb_spec (String.length content + 1) (String.length content)); [lia|done].
  - by intros [_ ?]%app_nil.
Qed.

Lemma find_seq p start n i :
  find p (seq start n) = Some i →
  p i = true ∧ start ≤ i < start + n ∧ ∀ j, start ≤ j < i → p j = false.
Proof.
  revert start. induction n as [|n IH]; intros start; [done|]. simpl.
  destruct (p start) eqn:Hp.
  - intros [= <-]. split_and!; [done|lia|lia|lia].
  - intros (Hi & Hlt & Hmin)%IH. split_and!; [done|lia|lia|]. intros j Hj.
    destruct (decide (j = start)) as [->|]; [done|]. apply Hmin. lia.
Qed.

Lemma findLine_Some p start count size i :
  findLine p start count size = Some i →
  p i = true ∧ start ≤ i ∧ i + size ≤ count ∧ ∀ j, start ≤ j < i → p j = false.
Proof. unfold findLine. intros (? & ? & ?)%find_seq. split_and!; [done|lia|lia|done]. Qed.

Lemma findLine_None p start count size i :
  findLine p start count size = None → start ≤ i → i + size ≤ count → p i = false.
Proof.
  unfold findLine. intros Hf Hs Hi. apply (find_none _ _ Hf). apply in_seq. lia.
Qed.

(** The first occurrence. *)
Lemma Index_first s sub i a c : Index s sub = Some i → s = a +:+ sub +:+ c → i ≤ String.length a.
Proof.
  revert i a. induction s as [|d s IH]; intros i a; cbn [Index].
  - destruct (HasPrefix "" sub); [|done]. intros [= <-]. lia.
  - destruct (HasPrefix (String d s) sub) eqn:Hp; [intros [= <-]; lia|].
    intros (j & Hj & ->)%fmap_Some Hs. destruct a as [|e a]; simpl in Hs |- *.
    + by rewrite Hs, HasPrefix_app in Hp.
    + injection Hs as -> ->. pose proof (IH j a Hj eq_refl). lia.
Qed.

(** [sdrop] into a concatenation. *)
Lemma sdrop_split n s t u :
  sdrop n s = t +:+ u → n ≤ String.length s → s = (stake n s +:+ t) +:+ u.
Proof. intros Hd _. by rewrite <-sapp_assoc, <-Hd, stake_sdrop. Qed.

Lemma sdrop_app_ge n s t : n ≤ String.length s → sdrop n (s +:+ t) = sdrop n s +:+ t.
Proof.
  revert s. induction n as [|n IH]; intros s Hn; [by rewrite !sdrop_0|].
  destruct s as [|c s]; simpl in *; [lia|]. apply IH. lia.
Qed.

(** ** What applying a block does *)

(** [search] occurs in the content at or after the offset, after [before]. *)
Definition occurs (content search : string) (offset : nat) (before after : string) : Prop :=
  content = before +:+ search +:+ after ∧ offset ≤ String.length before.

(** Lines that equal the search lines up to surrounding space. *)
Definition trimmed (searchContent : string) (mid : list string) : Prop :=
  TrimSpace <$> mid = TrimSpace <$> searchLinesOf searchContent.

(** As many lines as the search lines, of at least three, of which the first
    and the last do, whatever is between them. *)
Definition anchored (searchContent : string) (mid : list string) : Prop :=
  3 ≤ length (SplitByte searchContent newline) ∧
  length mid = length (searchLinesOf searchContent) ∧
  TrimSpace <$> head mid = TrimSpace <$> head (searchLinesOf searchContent) ∧
  TrimSpace <$> last mid = TrimSpace <$> last (searchLinesOf searchContent).

(** No lines from number [start] on satisfy [P]. *)
Definition no_lines (P : list string → Prop) (lines : list string) (start : nat) : Prop :=
  ∀ pre mid post, lines = pre ++ mid ++ post → start ≤ length pre → ¬ P mid.

(** [mid], after [pre], are the first lines from number [start] on with [P]. *)
Definition first_lines (P : list string → Prop) (lines : list string) (start : nat)
    (pre mid : list string) : Prop :=
  P mid ∧ start ≤ length pre ∧
  ∀ pre' mid' post', lines = pre' ++ mid' ++ post' → start ≤ length pre' → P mid' →
    length pre ≤ length pre'.

(** The lines the fallbacks choose: trimmed ones, else anchored ones. *)
Definition chosen (searchContent : string) (lines : list string) (start : nat)
    (pre mid : list string) : Prop :=
  first_lines (trimmed searchContent) lines start pre mid ∨
  (no_lines (trimmed searchContent) lines start ∧
   first_lines (anchored searchContent) lines start pre mid).

Inductive block_result (content : string) (b : DiffFormat) (offset : nat) :
    option (res ApplyError (string * nat)) → Prop :=
  | br_whole :
      SearchContent b = "" →
      block_result content b offset
        (Some (Ok (ReplaceContent b, String.length (ReplaceContent b))))
  | br_exact before after :
      SearchContent b ≠ "" →
      occurs content (SearchContent b) offset before after →
      (∀ before' after', occurs content (SearchContent b) offset before' after' →
         String.length before ≤ String.length before') →
      block_result content b offset
        (Some (Ok (before +:+ ReplaceContent b +:+ after,
                   String.length before + String.length (ReplaceContent b))))
  | br_lines pre mid post :
      SearchContent b ≠ "" →
      (∀ before after, ¬ occurs content (SearchContent b) offset before after) →
      SplitByte content newline = pre ++ mid ++ post → post ≠ [] →
      chosen (SearchContent b) (SplitByte content newline)
        (startLineNum offset 0 0 (SplitByte content newline)) pre mid →
      block_result content b offset
        (Some (Ok (linesText pre +:+ ReplaceContent b +:+ Join post (byte1 newline),
                   String.length (linesText pre) + String.length (ReplaceContent b))))
  | br_panic pre mid :
      SearchContent b ≠ "" →
      (∀ before after, ¬ occurs content (SearchContent b) offset before after) →
      SplitByte content newline = pre ++ mid →
      chosen (SearchContent b) (SplitByte content newline)
        (startLineNum offset 0 0 (SplitByte content newline)) pre mid →
      block_result content b offset None
  | br_none :
      SearchContent b ≠ "" →
      (∀ before after, ¬ occurs content (SearchContent b) offset before after) →
      no_lines (trimmed (SearchContent b)) (SplitByte content newline)
        (startLineNum offset 0 0 (SplitByte content newline)) →
      no_lines (anchored (SearchContent b)) (SplitByte content newline)
        (startLineNum offset 0 0 (SplitByte content newline)) →
      block_result content b offset
        (Some (Err (NoMatch (truncateForError (SearchContent b))))).

Lemma Index_occurs content search offset k :
  offset ≤ String.length content → Index (sdrop offset content) search = Some k →
  ∃ before after, occurs content search offset before after ∧
    String.length before = offset + k ∧
    ∀ before' after', occurs content search offset before' after' →
      offset + k ≤ String.length before'.
Proof.
  intros Hoff Hi. pose proof (Index_Some _ _ _ Hi) as [Hlen Hs].
  exists (stake offset content +:+ stake k (sdrop offset content)),
    (sdrop (k + String.length search) (sdrop offset content)).
  assert (String.length (stake offset content +:+ stake k (sdrop offset content)) = offset + k)
    as Hb by (rewrite slength_app, !slength_stake; lia).
  split_and!; [|done|].
  - split; [|lia]. by rewrite <-sapp_assoc, <-Hs, stake_sdrop.
  - intros before' after' [Hc Ho]. rewrite Hc, sdrop_app_ge in Hi by done.
    pose proof (Index_first _ _ _ _ _ Hi eq_refl) as Hf. rewrite slength_sdrop in Hf. lia.
Qed.

Lemma Index_not_occurs content search offset :
  Index (sdrop offset content) search = None →
  ∀ before after, ¬ occurs content search offset before after.
Proof.
  intros Hi before after [Hc Ho]. rewrite Index_None in Hi.
  apply (Hi (sdrop offset before) after). by rewrite Hc, sdrop_app_ge.
Qed.

Lemma searchLinesOf_nonempty s : s ≠ "" → searchLinesOf s ≠ [].
Proof.
  intros Hs. unfold searchLinesOf. pose proof (Join_SplitByte s newline) as Hj.
  destruct (SplitByte_cons s newline) as (x & ls & Hl). rewrite Hl in *.
  destruct (last (x :: ls)) as [[|]|] eqn:Hlast; [|done|done].
  destruct ls as [|y ls]; [|done]. simpl in *. congruence.
Qed.

(** A test [p] of the line numbers that decides [P] on the lines found there
    makes [findLine] find the first lines with [P]. *)
Section find_lines.
Context (P : list string → Prop) (p : nat → bool) (lines : list string) (start size : nat).
Hypothesis (P_length : ∀ mid, P mid → length mid = size).
Hypothesis (p_decides : ∀ pre mid post, lines = pre ++ mid ++ post → length mid = size →
  p (length pre) = true ↔ P mid).

Lemma findLine_first i :
  findLine p start (length lines) size = Some i →
  ∃ pre mid post, lines = pre ++ mid ++ post ∧ length pre = i ∧ length mid = size ∧
    first_lines P lines start pre mid.
Proof.
  intros (Hi & Hs & Hle & Hmin)%findLine_Some.
  exists (take i lines), (take size (drop i lines)), (drop size (drop i lines)).
  assert (lines = take i lines ++ take size (drop i lines) ++ drop size (drop i lines)) as Hl
    by (by rewrite !take_drop).
  assert (length (take i lines) = i) as Hpre by (rewrite length_take; lia).
  assert (length (take size (drop i lines)) = size) as Hmid
    by (rewrite length_take, length_drop; lia).
  split_and!; [done..|]. split_and!; [|lia|].
  - apply (p_decides _ _ _ Hl Hmid). by rewrite Hpre.
  - intros pre' mid' post' Hl' Hs' HP. rewrite Hpre. destruct (decide (i ≤ length pre')); [done|].
    apply (p_decides _ _ _ Hl') in HP as Hp; [|by apply P_length].
    rewrite Hmin in Hp; [done|lia].
Qed.

Lemma findLine_no_lines :
  findLine p start (length lines) size = None → no_lines P lines start.
Proof.
  intros Hf pre mid post Hl Hs HP. pose proof (P_length _ HP) as Hmid.
  apply (findLine_None _ _ _ _ (length pre)) in Hf; [|done|rewrite Hl, !length_app; lia].
  apply (p_decides _ _ _ Hl Hmid) in HP. congruence.
Qed.
End find_lines.

Lemma trimmed_length search mid :
  trimmed search mid → length mid = length (searchLinesOf search).
Proof. intros Heq. apply (f_equal length) in Heq. by rewrite !length_fmap in Heq. Qed.

Lemma anchored_length search mid :
  anchored search mid → length mid = length (searchLinesOf search).
Proof. by intros (_ & ? & _). Qed.

(** Both tests of the fallbacks decide their relation. *)
Lemma trimmedMatchAt_mid search lines pre mid post :
  lines = pre ++ mid ++ post → length mid = length (searchLinesOf search) →
  trimmedMatchAt lines (searchLinesOf search) (length pre) = true ↔ trimmed search mid.
Proof.
  intros -> Hmid. unfold trimmedMatchAt, trimmed.
  rewrite <-Hmid, drop_app_length, take_app_length. apply bool_decide_eq_true.
Qed.

Lemma anchorMatchAt_mid search lines pre mid post :
  3 ≤ length (SplitByte search newline) → search ≠ "" →
  lines = pre ++ mid ++ post → length mid = length (searchLinesOf search) →
  anchorMatchAt lines (searchLinesOf search) (length pre) = true ↔ anchored search mid.
Proof.
  intros H3 Hne -> Hmid. unfold anchorMatchAt, anchored.
  rewrite andb_true_iff, !bool_decide_eq_true, <-Hmid.
  assert (length mid ≠ 0) as Hlen.
  { rewrite Hmid. intros Hnil%nil_length_inv. by eapply searchLinesOf_nonempty. }
  assert ((pre ++ mid ++ post) !! length pre = head mid) as ->.
  { rewrite lookup_app_r, Nat.sub_diag by lia. by destruct mid. }
  assert ((pre ++ mid ++ post) !! (length pre + length mid - 1) = last mid) as ->; [|tauto].
  rewrite lookup_app_r by lia. rewrite lookup_app_l by lia. rewrite last_lookup. f_equal. lia.
Qed.

(** What replacing the chosen lines gives. *)
Lemma chosen_result content b offset pre mid post :
  SearchContent b ≠ "" →
  (∀ before after, ¬ occurs content (SearchContent b) offset before after) →
  SplitByte content newline = pre ++ mid ++ post →
  length mid = length (searchLinesOf (SearchContent b)) →
  chosen (SearchContent b) (SplitByte content newline)
    (startLineNum offset 0 0 (SplitByte content newline)) pre mid →
  block_result content b offset
    (replaceRange content (ReplaceContent b)
       (lineRange (SplitByte content newline) (length pre) (length mid))).
Proof.
  intros Hne Hno Hl Hmid Hc. destruct post as [|x post].
  - rewrite app_nil_r in Hl. rewrite (replaceRange_end _ _ _ _ Hl); [by eapply br_panic|].
    intros ->. by eapply searchLinesOf_nonempty, nil_length_inv.
  - rewrite (replaceRange_lines _ _ _ _ _ Hl) by done. by eapply br_lines.
Qed.

Lemma applyBlock_result content b offset :
  offset ≤ String.length content →
  block_result content b offset (applyBlock content b offset).
Proof.
  intros Hoff. unfold applyBlock.
  destruct (String.eqb_spec (SearchContent b) "") as [|Hne]; [by constructor|].
  unfold sliceFrom. rewrite (proj2 (Nat.leb_le _ _) Hoff). simpl.
  destruct (Index (sdrop offset content) (SearchContent b)) as [k|] eqn:Hi.
  { destruct (Index_occurs _ _ _ _ Hoff Hi) as (before & after & [Hc Ho] & <- & Hmin).
    rewrite (replaceRange_exact _ _ _ _ _ Hc). by apply (br_exact _ _ _ before after). }
  pose proof (Index_not_occurs _ _ _ Hi) as Hno. unfold lineTrimmedMatch, blockAnchorMatch.
  set (lines := SplitByte content newline). set (start := startLineNum offset 0 0 lines).
  destruct (findLine (trimmedMatchAt _ _) _ _ _) as [i|] eqn:Hf; simpl.
  { eapply findLine_first in Hf as (pre & mid & post & Hl & <- & <- & Hfirst);
      [|apply trimmed_length|apply trimmedMatchAt_mid].
    apply (chosen_result _ _ _ _ _ post); try done; [by apply trimmed_length, Hfirst|by left]. }
  eapply findLine_no_lines in Hf; [|apply trimmed_length|apply trimmedMatchAt_mid].
  destruct (Nat.ltb_spec (length (SplitByte (SearchContent b) newline)) 3) as [Hlt|Hge].
  { apply br_none; [done..|]. intros pre mid post _ _ (? & _). lia. }
  assert (∀ pre mid post, lines = pre ++ mid ++ post →
    length mid = length (searchLinesOf (SearchContent b)) →
    anchorMatchAt lines (searchLinesOf (SearchContent b)) (length pre) = true ↔
      anchored (SearchContent b) mid) as Hdec
    by (intros; by eapply anchorMatchAt_mid).
  destruct (findLine (anchorMatchAt _ _) _ _ _) as [i|] eqn:Hf'; simpl.
  - eapply findLine_first in Hf' as (pre & mid & post & Hl & <- & <- & Hfirst);
      [|apply anchored_length|exact Hdec].
    apply (chosen_result _ _ _ _ _ post); try done; [by apply anchored_length, Hfirst|by right].
  - eapply findLine_no_lines in Hf'; [|apply anchored_length|exact Hdec]. by apply br_none.
Qed.

(** What [applyBlock] does, completely.  An empty search replaces the whole
    file; otherwise the first occurrence at or after the offset is replaced;
    failing that, the first trimmed or else anchored lines are replaced together
    with the line break that follows them, and when they are the last lines of
    the file the slice [content[matchEnd:]] panics; failing that, an error. *)
Theorem applyBlock_spec content b offset :
  offset ≤ String.length content →
  block_result content b offset (applyBlock content b offset).
Proof. apply applyBlock_result. Qed.

(** ** Applying a whole diff *)

(** The offset after a block lies in the new content, so the slice
    [content[offset:]] of the next block never panics. *)
Lemma applyBlock_offset content b offset content' offset' :
  offset ≤ String.length content → applyBlock content b offset = Some (Ok (content', offset')) →
  offset' ≤ String.length content'.
Proof.
  intros Hoff Happ. pose proof (applyBlock_result content b offset Hoff) as Hr.
  rewrite Happ in Hr. inversion Hr; subst; rewrite ?slength_app; lia.
Qed.

(** The blocks are found one after the other in the content, each at the first
    occurrence of its search text after the one before; [out] is the content
    with each replaced. *)
Inductive exact_diff : string → list DiffFormat → string → Prop :=
  | exact_end tail : exact_diff tail [] tail
  | exact_block gap b rest bs out :
      SearchContent b ≠ "" →
      (∀ gap' rest', gap +:+ SearchContent b +:+ rest = gap' +:+ SearchContent b +:+ rest' →
         String.length gap ≤ String.length gap') →
      exact_diff rest bs out →
      exact_diff (gap +:+ SearchContent b +:+ rest) (b :: bs)
        (gap +:+ ReplaceContent b +:+ out).

Lemma applyBlock_exact before gap b rest :
  SearchContent b ≠ "" →
  (∀ gap' rest', gap +:+ SearchContent b +:+ rest = gap' +:+ SearchContent b +:+ rest' →
     String.length gap ≤ String.length gap') →
  applyBlock (before +:+ gap +:+ SearchContent b +:+ rest) b (String.length before) =
    Some (Ok ((before +:+ gap +:+ ReplaceContent b) +:+ rest,
              String.length (before +:+ gap +:+ ReplaceContent b))).
Proof.
  intros Hne Hmin. unfold applyBlock. rewrite (proj2 (String.eqb_neq _ _) Hne).
  rewrite sliceFrom_app. simpl.
  assert (Index (gap +:+ SearchContent b +:+ rest) (SearchContent b) = Some (String.length gap))
    as ->.
  { destruct (Index _ _) as [k|] eqn:Hi; [|by rewrite Index_None in Hi; destruct (Hi gap rest)].
    pose proof (Index_first _ _ _ _ _ Hi eq_refl). apply Index_Some in Hi as [Hk Hs].
    apply Hmin in Hs. rewrite slength_stake in Hs by lia. f_equal. lia. }
  rewrite <-slength_app.
  rewrite (replaceRange_exact _ (SearchContent b) _ (before +:+ gap) rest)
    by (by rewrite <-!sapp_assoc).
  by rewrite !slength_app, Nat.add_assoc, <-!sapp_assoc.
Qed.

Lemma applyBlocks_exact before content bs out :
  exact_diff content bs out →
  applyBlocks (before +:+ content) (String.length before) bs = Some (Ok (before +:+ out)).
Proof.
  intros Hd. revert before. induction Hd as [tail|gap b rest bs out Hne Hmin _ IH]; intros before;
    [done|]. cbn [applyBlocks]. rewrite applyBlock_exact by done. simpl.
  rewrite IH. by rewrite <-!sapp_assoc.
Qed.

(** A diff whose search texts occur one after the other in the file is
    applied as it says: each first occurrence is replaced, nothing else changes,
    and no block is looked for in the text another one put in. *)
Theorem ApplyDiff_exact dp out :
  exact_diff (originalContent dp) (blocks dp) out → ApplyDiff dp = Some (Ok out).
Proof. apply (applyBlocks_exact ""). Qed.

(** A diff never panics as long as its blocks are found exactly: a panic
    comes only from a block that a fallback matched with the end of the file. *)
Theorem ApplyDiff_panic dp :
  ApplyDiff dp = None →
  ∃ bs b bs' content offset, blocks dp = bs ++ b :: bs' ∧
    offset ≤ String.length content ∧
    applyBlocks (originalContent dp) 0 bs = Some (Ok content) ∧
    ∃ pre mid, SplitByte content newline = pre ++ mid ∧
      (trimmed (SearchContent b) mid ∨ anchored (SearchContent b) mid).
Proof.
  unfold ApplyDiff.
  assert (0 ≤ String.length (originalContent dp)) as Hoff by lia. revert Hoff.
  generalize (originalContent dp) 0. induction (blocks dp) as [|b bs IH]; [done|].
  intros content offset Hoff. cbn [applyBlocks].
  destruct (applyBlock content b offset) as [[[content' offset']|e]|] eqn:Happ; simpl; [|done|].
  - intros Hnone. pose proof (applyBlock_offset _ _ _ _ _ Hoff Happ) as Hoff'.
    destruct (IH _ _ Hoff' Hnone) as (bs1 & b' & bs2 & c & o & -> & Ho & Hc & Hm).
    exists (b :: bs1), b', bs2, c, o. split_and!; [done|done| |done]. simpl. by rewrite Happ.
  - intros _. pose proof (applyBlock_result content b offset Hoff) as Hr. rewrite Happ in Hr.
    inversion Hr as [| | |pre mid _ _ Hl Hc|]; subst.
    exists [], b, bs, content, offset. split_and!; [done..|]. exists pre, mid. split; [done|].
    by destruct Hc as [[? _]|(_ & ? & _)]; [left|right].
Qed.

(** ** Witnesses *)

Definition block (search replace : string) : DiffFormat :=
  {| SearchContent := search; ReplaceContent := replace; StartLine := 1; EndLine := 5 |}.

(** A fallback match loses the line break after the matched line. *)
Lemma applyBlock_spec_witness :
  block_result "  a
b
" (block "a " "c") 0 (Some (Ok ("cb
", 1))).
Proof.
  apply (applyBlock_spec "  a
b
" (block "a " "c") 0). apply Nat.le_0_l.
Defined.

(** On the last line of a file without a final line break it panics. *)
Lemma ApplyDiff_panic_witness :
  ∃ bs b bs' content offset,
    [block "a " "c"] = bs ++ b :: bs' ∧ offset ≤ String.length content ∧
    applyBlocks "b
  a" 0 bs = Some (Ok content) ∧
    ∃ pre mid, SplitByte content newline = pre ++ mid ∧
      (trimmed (SearchContent b) mid ∨ anchored (SearchContent b) mid).
Proof.
  apply (ApplyDiff_panic {| originalContent := "b
  a"; blocks := [block "a " "c"] |}). vm_compute. reflexivity.
Defined.

(** A fallback can go back before the offset: the second block changes the first
    line although the first block ended on the second one. *)
Example fallback_rewinds :
  ApplyDiff {| originalContent := "a
b c"; blocks := [block "c" "d"; block "a " "x"] |} = Some (Ok "xb d").
Proof. vm_compute. reflexivity. Qed.

Lemma ApplyDiff_exact_witness :
  ApplyDiff {| originalContent := "a b a"; blocks := [block "a" "b"; block "a" "c"] |} =
    Some (Ok "b b c").
Proof.
  apply ApplyDiff_exact. simpl.
  apply (exact_block "" (block "a" "b") " b a" _ " b c"); [done|simpl; lia|].
  apply (exact_block " b " (block "a" "c") "" _ ""); [done| |constructor].
  intros gap' rest' Heq.
  destruct gap' as [|c1 [|c2 [|c3 gap']]]; simpl in *; simplify_eq; lia.
Defined.
