(* ===== verification/EditDistance.v ===== *)
(** * The Levenshtein distance

    editDistance of internal/edit/fallback.go, computed row by row of its
    matrix, against the least cost of an edit script. *)
From S2P Require Import Prelude GoString.

#[local] Open Scope Z_scope.

Set Default Proof Using "Type*".

Notation bytes := String.list_ascii_of_string.

Definition min3 (a b c : Z) : Z :=
  if a <? b then (if a <? c then a else c) else (if b <? c then b else c).

(** The entries of a row after the first, from the row above: [left] is the
    entry before, [diag] the one above that. *)
Fixpoint fillRow (ai : ascii) (left diag : Z) (above : list Z) (b : list ascii) : list Z :=
  match b, above with
  | bj :: b', up :: above' =>
      let cost := if Ascii.eqb ai bj then 0 else 1 in
      let d := min3 (up + 1) (left + 1) (diag + cost) in
      d :: fillRow ai d up above' b'
  | _, _ => []
  end.

(** Row [i] of the matrix, for the [i]-th character. *)
Definition nextRow (b : list ascii) (above : list Z) (i : Z) (ai : ascii) : list Z :=
  i :: fillRow ai i (default 0 (head above)) (tail above) b.

Fixpoint fillMatrix (b : list ascii) (above : list Z) (i : Z) (a : list ascii) : list Z :=
  match a with
  | [] => above
  | ai :: a' => fillMatrix b (nextRow b above i ai) (i + 1) a'
  end.

Definition firstRow (b : list ascii) : list Z := Z.of_nat <$> seq 0 (S (length b)).

Definition editDistance (a b : string) : Z :=
  let la := bytes a in
  let lb := bytes b in
  if decide (la = []) then Z.of_nat (length lb)
  else if decide (lb = []) then Z.of_nat (length la)
  else default 0 (last (fillMatrix lb (firstRow lb) 1 la)).

Example editDistance_ex : editDistance "kitten" "sitting" = 3.
Proof. reflexivity. Qed.

(** ** Edit scripts *)

(** [edits a b n]: [a] becomes [b] by [n] deletions, insertions and
    substitutions of characters. *)
Inductive edits : list ascii → list ascii → Z → Prop :=
  | edits_nil : edits [] [] 0
  | edits_keep x a b n : edits a b n → edits (x :: a) (x :: b) n
  | edits_substitute x y a b n : edits a b n → edits (x :: a) (y :: b) (n + 1)
  | edits_delete x a b n : edits a b n → edits (x :: a) b (n + 1)
  | edits_insert y a b n : edits a b n → edits a (y :: b) (n + 1).

Lemma edits_app a b n c d m : edits a b n → edits c d m → edits (a ++ c) (b ++ d) (n + m).
Proof.
  intros Hab Hcd. induction Hab as [|x a b n _ IH|x y a b n _ IH|x a b n _ IH|y a b n _ IH]; simpl.
  - done.
  - by constructor.
  - replace (n + 1 + m) with (n + m + 1) by lia. by constructor.
  - replace (n + 1 + m) with (n + m + 1) by lia. by constructor.
  - replace (n + 1 + m) with (n + m + 1) by lia. by constructor.
Qed.

Lemma edits_reverse a b n : edits a b n → edits (reverse a) (reverse b) n.
Proof.
  induction 1 as [|x a b n _ IH|x y a b n _ IH|x a b n _ IH|y a b n _ IH]; rewrite ?reverse_cons.
  - constructor.
  - replace n with (n + 0) by lia. apply edits_app; [done|]. repeat constructor.
  - apply edits_app; [done|]. apply (edits_substitute x y [] [] 0). constructor.
  - rewrite <-(app_nil_r (reverse b)). apply edits_app; [done|].
    apply (edits_delete x [] [] 0). constructor.
  - rewrite <-(app_nil_r (reverse a)). apply edits_app; [done|].
    apply (edits_insert y [] [] 0). constructor.
Qed.

(** ** The recursion the matrix computes *)

Fixpoint lev (a : list ascii) : list ascii → Z :=
  match a with
  | [] => λ b, Z.of_nat (length b)
  | x :: a' =>
      let fix go (b : list ascii) : Z :=
        match b with
        | [] => Z.of_nat (length (x :: a'))
        | y :: b' =>
            min3 (lev a' (y :: b') + 1) (go b' + 1) (lev a' b' + if Ascii.eqb x y then 0 else 1)
        end in
      go
  end.

Lemma lev_nil_r a : lev a [] = Z.of_nat (length a).
Proof. by destruct a. Qed.

Lemma lev_cons x a y b :
  lev (x :: a) (y :: b) =
    min3 (lev a (y :: b) + 1) (lev (x :: a) b + 1) (lev a b + if Ascii.eqb x y then 0 else 1).
Proof. done. Qed.

Lemma min3_spec a b c : min3 a b c ≤ a ∧ min3 a b c ≤ b ∧ min3 a b c ≤ c ∧
  (min3 a b c = a ∨ min3 a b c = b ∨ min3 a b c = c).
Proof. unfold min3. repeat case_match; lia. Qed.

Lemma edits_length_l a : edits a [] (Z.of_nat (length a)).
Proof.
  induction a as [|x a IH]; [constructor|]. rewrite length_cons, Nat2Z.inj_succ.
  by apply edits_delete.
Qed.

Lemma edits_length_r b : edits [] b (Z.of_nat (length b)).
Proof.
  induction b as [|y b IH]; [constructor|]. rewrite length_cons, Nat2Z.inj_succ.
  by apply edits_insert.
Qed.

(** The recursion's value is the cost of a script. *)
Lemma lev_edits a b : edits a b (lev a b).
Proof.
  revert b. induction a as [|x a IHa]; intros b; [apply edits_length_r|].
  induction b as [|y b IHb]; [apply edits_length_l|]. rewrite lev_cons.
  destruct (min3_spec (lev a (y :: b) + 1) (lev (x :: a) b + 1)
    (lev a b + if Ascii.eqb x y then 0 else 1)) as (_ & _ & _ & [-> |[-> | ->]]).
  - by apply edits_delete.
  - by apply edits_insert.
  - destruct (Ascii.eqb_spec x y) as [->|].
    + rewrite Z.add_0_r. by apply edits_keep.
    + by apply edits_substitute.
Qed.

Lemma lev_delete x a b : lev (x :: a) b ≤ lev a b + 1.
Proof.
  destruct b as [|y b]; [rewrite !lev_nil_r, length_cons; lia|]. rewrite lev_cons.
  destruct (min3_spec (lev a (y :: b) + 1) (lev (x :: a) b + 1)
    (lev a b + if Ascii.eqb x y then 0 else 1)) as (? & _). lia.
Qed.

Lemma lev_insert y a b : lev a (y :: b) ≤ lev a b + 1.
Proof.
  destruct a as [|x a]; [cbn [lev]; rewrite length_cons; lia|]. rewrite lev_cons.
  destruct (min3_spec (lev a (y :: b) + 1) (lev (x :: a) b + 1)
    (lev a b + if Ascii.eqb x y then 0 else 1)) as (_ & ? & _). lia.
Qed.

Lemma lev_both x y a b : lev (x :: a) (y :: b) ≤ lev a b + if Ascii.eqb x y then 0 else 1.
Proof.
  rewrite lev_cons. by destruct (min3_spec (lev a (y :: b) + 1) (lev (x :: a) b + 1)
    (lev a b + if Ascii.eqb x y then 0 else 1)) as (_ & _ & ? & _).
Qed.

(** And no script costs less. *)
Lemma lev_least a b n : edits a b n → lev a b ≤ n.
Proof.
  induction 1 as [|x a b n _ IH|x y a b n _ IH|x a b n _ IH|y a b n _ IH]; [done|..].
  - pose proof (lev_both x x a b) as Hb. rewrite Ascii.eqb_refl in Hb. lia.
  - pose proof (lev_both x y a b). destruct (Ascii.eqb x y); lia.
  - pose proof (lev_delete x a b). lia.
  - pose proof (lev_insert y a b). lia.
Qed.

(** ** The matrix *)

(** The row of a prefix [ra], reversed, of the first string: its distances to
    the prefixes of the second. *)
Definition rowOf (ra b : list ascii) : list Z :=
  (λ j, lev ra (reverse (take j b))) <$> seq 0 (S (length b)).

(** The part of a row from column [j] on. *)
Lemma fillRow_spec ai ra pre b :
  fillRow ai (lev (ai :: ra) (reverse pre)) (lev ra (reverse pre))
    ((λ j, lev ra (reverse (take j (pre ++ b)))) <$> seq (S (length pre)) (length b)) b =
  (λ j, lev (ai :: ra) (reverse (take j (pre ++ b)))) <$> seq (S (length pre)) (length b).
Proof.
  revert pre. induction b as [|y b IH]; intros pre; [done|]. cbn [length seq fmap list_fmap fillRow].
  assert (take (S (length pre)) (pre ++ y :: b) = pre ++ [y]) as Htake.
  { rewrite take_app_ge by lia. by replace (S (length pre) - length pre)%nat with 1%nat by lia. }
  rewrite Htake, reverse_snoc. rewrite <-lev_cons. f_equal.
  specialize (IH (pre ++ [y])). rewrite length_app, reverse_snoc in IH. cbn [length] in IH.
  rewrite Nat.add_1_r, <-(assoc_L (++)) in IH. exact IH.
Qed.

Lemma nextRow_spec ai ra b :
  nextRow b (rowOf ra b) (Z.of_nat (S (length ra))) ai = rowOf (ai :: ra) b.
Proof.
  unfold nextRow, rowOf. cbn [seq fmap list_fmap head tail default].
  rewrite take_0, reverse_nil, !lev_nil_r. change (length (ai :: ra)) with (S (length ra)). f_equal.
  pose proof (fillRow_spec ai ra [] b) as Hf. rewrite reverse_nil, !lev_nil_r in Hf. exact Hf.
Qed.

Lemma fillMatrix_spec a ra b :
  fillMatrix b (rowOf ra b) (Z.of_nat (S (length ra))) a = rowOf (reverse a ++ ra) b.
Proof.
  revert ra. induction a as [|x a IH]; intros ra; [done|]. simpl. rewrite nextRow_spec.
  replace (Z.of_nat (S (length ra)) + 1) with (Z.of_nat (S (length (x :: ra)))) by (simpl; lia).
  rewrite IH. by rewrite reverse_cons, <-(assoc_L (++)).
Qed.

Lemma firstRow_spec b : firstRow b = rowOf [] b.
Proof.
  unfold firstRow, rowOf. apply list_fmap_ext. intros i j Hi. apply lookup_seq in Hi as [-> Hlt].
  cbn [lev]. rewrite length_reverse, length_take. f_equal. lia.
Qed.

Lemma last_rowOf ra b : last (rowOf ra b) = Some (lev ra (reverse b)).
Proof.
  unfold rowOf. rewrite seq_S, fmap_app, last_app. simpl. by rewrite firstn_all.
Qed.

Lemma editDistance_lev a b :
  editDistance a b = lev (reverse (bytes a)) (reverse (bytes b)).
Proof.
  unfold editDistance. case_decide as Ha.
  { rewrite Ha, reverse_nil. cbn [lev]. by rewrite length_reverse. }
  case_decide as Hb; [by rewrite Hb, reverse_nil, lev_nil_r, length_reverse|].
  rewrite firstRow_spec. change 1 with (Z.of_nat (S (length (@nil ascii)))).
  by rewrite fillMatrix_spec, last_rowOf, app_nil_r.
Qed.

(** C33: editDistance is the least number of deletions, insertions and
    substitutions of bytes that turn one string into the other. *)
Theorem editDistance_least a b :
  edits (bytes a) (bytes b) (editDistance a b) ∧
  ∀ n, edits (bytes a) (bytes b) n → editDistance a b ≤ n.
Proof.
  rewrite editDistance_lev. split.
  - pose proof (edits_reverse _ _ _ (lev_edits (reverse (bytes a))
      (reverse (bytes b)))) as He. by rewrite !reverse_involutive in He.
  - intros n He%edits_reverse. by apply lev_least.
Qed.
