(* ===== verification/Fallback.v ===== *)
(** * Finding the text to edit

    internal/edit/fallback.go: the FallbackMatcher, which looks for a search
    text in a file's content by six strategies and takes the match of highest
    confidence.  Indices are byte offsets; a slice out of bounds is a panic, the
    value [None].  Confidences are float64s.  Regular expressions the code is not
    explicit about and the fuzzy finder are parameters. *)
From S2P Require Import Prelude GoString GoNum EditDistance.

#[local] Open Scope nat_scope.

Set Default Proof Using "Type*".

(** ** Data *)

Inductive MatchStrategy :=
  | StrategyExact
  | StrategyLineTrimmed
  | StrategyBlockAnchor
  | StrategyFuzzyContext
  | StrategyLineNumber
  | StrategyRegexPattern.

#[export] Instance MatchStrategy_dec : EqDecision MatchStrategy.
Proof. solve_decision. Defined.

Record MatchResult := {
  Strategy : MatchStrategy;
  StartIndex : nat;
  EndIndex : nat;
  Confidence : float64;
  MatchedText : string;
  Context : string;
  Modifications : list string;
}.

Record MatcherConfig := {
  MinConfidence : float64;
  MaxDistance : Z;
  ContextLines : Z;
  StrictMode : bool;
}.

Record FallbackMatcher := {
  content : string;
  searchContent : string;
  startIndex : nat;
  minConfidence : float64;
  maxDistance : Z;
  contextLines : Z;
  strictMode : bool;
}.

Definition is_zero (x : float64) : bool := feqb x (S754_zero false).

Definition NewFallbackMatcher (content searchContent : string) (startIndex : nat)
    (config : MatcherConfig) : FallbackMatcher :=
  {| content := content; searchContent := searchContent; startIndex := startIndex;
     minConfidence := if is_zero (MinConfidence config) then float64_const 7 10
                      else MinConfidence config;
     maxDistance := if (MaxDistance config =? 0)%Z then 50%Z else MaxDistance config;
     contextLines := if (ContextLines config =? 0)%Z then 3%Z else ContextLines config;
     strictMode := StrictMode config |}.

(** What a strategy answers: a panic, an error or a match. *)
Notation outcome := (option (res string MatchResult)).

(** ** Lines and indices *)

Definition lines (s : string) : list string := SplitByte s "010".

Definition getLineNumberFromIndex (fm : FallbackMatcher) (index : nat) : option nat :=
  if decide (index ≤ String.length (content fm))
  then Some (CountByte (stake index (content fm)) "010") else None.

Definition getIndexFromLineNumber (fm : FallbackMatcher) (lineNum : nat) : nat :=
  let ls := lines (content fm) in
  if length ls <=? lineNum then String.length (content fm)
  else foldr (λ l n, String.length l + 1 + n) 0 (take lineNum ls).

(** A search text without the empty line after its last newline. *)
Definition dropTrailingEmpty (ls : list string) : list string :=
  if decide (last ls = Some "") then removelast ls else ls.

(** [l[i : i+n]]. *)
Definition block {A} (i n : nat) (l : list A) : list A := take n (drop i l).

(** ** Confidence *)

Definition lineText (i : Z) (what : string) : string := "Line " +:+ Itoa i +:+ ": " +:+ what.

(** The lines that match exactly, those that match but for spaces or well
    enough, and the remarks. *)
Fixpoint scoreLines (maxDistance i : Z) (contentLines searchLines : list string) :
    Z * Z * list string :=
  match contentLines, searchLines with
  | contentLine :: cs, searchLine :: ss =>
      let '(exactMatches, trimmedMatches, mods) := scoreLines maxDistance (i + 1) cs ss in
      if decide (contentLine = searchLine) then ((exactMatches + 1)%Z, trimmedMatches, mods)
      else if decide (TrimSpace contentLine = TrimSpace searchLine) then
        (exactMatches, (trimmedMatches + 1)%Z, lineText (i + 1) "whitespace differences" :: mods)
      else
        let distance := editDistance (TrimSpace contentLine) (TrimSpace searchLine) in
        let partialScore :=
          fsub (float64_of 1)
            (fdiv (float64_of distance) (float64_of (Z.of_nat (String.length searchLine)))) in
        if (distance <=? maxDistance)%Z && fltb (float64_const 1 2) partialScore then
          (exactMatches, (trimmedMatches + 1)%Z,
           lineText (i + 1) (Itoa distance +:+ " character differences") :: mods)
        else (exactMatches, trimmedMatches, lineText (i + 1) "no match" :: mods)
  | _, _ => (0%Z, 0%Z, [])
  end.

Definition calculateLineMatchConfidence (fm : FallbackMatcher)
    (contentLines searchLines : list string) : float64 * list string :=
  if decide (length contentLines ≠ length searchLines) then (S754_zero false, [])
  else
    let '(exactMatches, trimmedMatches, mods) :=
      scoreLines (maxDistance fm) 0 contentLines searchLines in
    (fdiv (fadd (float64_of exactMatches) (fmul (float64_of trimmedMatches) (float64_const 8 10)))
       (float64_of (len searchLines)), mods).

(** ** Strategies *)

(** The first line from which the content is a good enough match; [score] gives
    the confidence of a line, if it is a candidate. *)
Fixpoint firstLine {A} (minConfidence : float64) (score : nat → option (float64 * A))
    (order : list nat) : option (nat * (float64 * A)) :=
  match order with
  | [] => None
  | i :: rest =>
      match score i with
      | Some (confidence, x) =>
          if fgeb confidence minConfidence then Some (i, (confidence, x))
          else firstLine minConfidence score rest
      | None => firstLine minConfidence score rest
      end
  end.

(** for i := start; i <= total-size; i++. *)
Definition positions (start total size : nat) : list nat :=
  if size <=? total then seq start (S (total - size) - start) else [].

(** The match of [n] whole lines from line [i]. *)
Definition lineMatch (fm : FallbackMatcher) (s : MatchStrategy) (i n : nat) (confidence : float64)
    (modifications : list string) (context : string) : MatchResult :=
  {| Strategy := s;
     StartIndex := getIndexFromLineNumber fm i;
     EndIndex := getIndexFromLineNumber fm (i + n);
     Confidence := confidence;
     MatchedText := Join (block i n (lines (content fm))) (byte1 newline);
     Context := context;
     Modifications := modifications |}.

Definition exactMatch (fm : FallbackMatcher) : outcome :=
  if decide (startIndex fm ≤ String.length (content fm)) then
    Some match Index (sdrop (startIndex fm) (content fm)) (searchContent fm) with
         | Some index =>
             Ok {| Strategy := StrategyExact; StartIndex := startIndex fm + index;
                   EndIndex := startIndex fm + index + String.length (searchContent fm);
                   Confidence := float64_of 1; MatchedText := searchContent fm; Context := "";
                   Modifications := [] |}
         | None => Err "no exact match found"
         end
  else None.

Definition lineTrimmedMatch (fm : FallbackMatcher) : outcome :=
  let contentLines := lines (content fm) in
  let searchLines := dropTrailingEmpty (lines (searchContent fm)) in
  let n := length searchLines in
  startLineNum ← getLineNumberFromIndex fm (startIndex fm);
  Some match firstLine (minConfidence fm)
               (λ i, Some (calculateLineMatchConfidence fm (block i n contentLines) searchLines))
               (positions startLineNum (length contentLines) n) with
       | Some (i, (confidence, mods)) =>
           Ok (lineMatch fm StrategyLineTrimmed i n confidence mods "")
       | None => Err "no line-trimmed match found"
       end.

(** The middle of a block of [n] lines whose first and last line match. *)
Definition anchorScore (fm : FallbackMatcher) (contentLines searchLines : list string) (i : nat) :
    option (float64 * list string) :=
  let n := length searchLines in
  let trimmed (l : option string) := TrimSpace (default "" l) in
  if decide (trimmed (contentLines !! i) ≠ trimmed (head searchLines)) then None
  else if decide (trimmed (contentLines !! (i + n - 1)) ≠ trimmed (last searchLines)) then None
  else
    let '(confidence, mods) :=
      calculateLineMatchConfidence fm (block (i + 1) (n - 2) contentLines)
        (block 1 (n - 2) searchLines) in
    Some (fmin (float64_of 1) (fmul confidence (float64_const 11 10)), mods).

Definition blockAnchorMatch (fm : FallbackMatcher) : outcome :=
  if length (lines (searchContent fm)) <? 3
  then Some (Err "insufficient lines for block anchor matching")
  else
    let searchLines := dropTrailingEmpty (lines (searchContent fm)) in
    let contentLines := lines (content fm) in
    let n := length searchLines in
    startLineNum ← getLineNumberFromIndex fm (startIndex fm);
    Some match firstLine (minConfidence fm) (anchorScore fm contentLines searchLines)
                 (positions startLineNum (length contentLines) n) with
         | Some (i, (confidence, mods)) =>
             Ok (lineMatch fm StrategyBlockAnchor i n confidence mods "")
         | None => Err "no block anchor match found"
         end.

(** The hint: the digits of the first match of (?i)line\s+(\d+). *)
Definition isDigit (c : ascii) : bool := (48 <=? byteN c)%N && (byteN c <=? 57)%N.

Definition isRegexSpace (c : ascii) : bool := bool_decide (byteN c ∈ [9; 10; 12; 13; 32]%N).

Fixpoint takeDigits (s : string) : string :=
  match s with
  | String c s' => if isDigit c then String c (takeDigits s') else ""
  | "" => ""
  end.

Fixpoint dropSpaces (s : string) : string :=
  match s with
  | String c s' => if isRegexSpace c then dropSpaces s' else s
  | "" => ""
  end.

Definition hintHere (s : string) : option string :=
  if decide (ToLower (stake 4 s) = "line") then
    let rest := sdrop 4 s in
    let digits := takeDigits (dropSpaces rest) in
    if decide (dropSpaces rest = rest ∨ digits = "") then None else Some digits
  else None.

Fixpoint lineHint (s : string) : option string :=
  match hintHere s with
  | Some digits => Some digits
  | None => match s with "" => None | String _ s' => lineHint s' end
  end.

(** strconv.Atoi on digits: [None] if out of range. *)
Fixpoint decimal (acc : Z) (s : string) : Z :=
  match s with
  | "" => acc
  | String c s' => decimal (acc * 10 + (Z.of_N (byteN c) - 48)) s'
  end.

Definition Atoi (digits : string) : option Z :=
  let n := decimal 0 digits in if (n <=? MaxInt)%Z then Some n else None.

Definition lineNumberMatch (fm : FallbackMatcher) : outcome :=
  match lineHint (searchContent fm) with
  | None => Some (Err "no line number hints found")
  | Some digits =>
      match Atoi digits with
      | None => Some (Err ("invalid line number: " +:+ digits))
      | Some hint =>
          let lineNum := int64 (hint - 1) in
          let contentLines := lines (content fm) in
          let searchLines := lines (searchContent fm) in
          let fits := int64 (lineNum + len searchLines) in
          if (0 <=? lineNum)%Z && (fits <=? len contentLines)%Z then
            blockContentLines ← slice contentLines lineNum fits;
            let '(confidence, mods) :=
              calculateLineMatchConfidence fm blockContentLines searchLines in
            Some (if fgeb confidence (minConfidence fm)
                  then Ok (lineMatch fm StrategyLineNumber (Z.to_nat lineNum) (length searchLines)
                             confidence mods ("Line number hint: " +:+ Itoa hint))
                  else Err "line number match failed")
          else Some (Err "line number match failed")
      end
  end.

(** The patterns, by what the search text contains. *)
Definition extractRegexPatterns (s : string) : list string :=
  (if Contains s "func " then ["func\s+\w+\s*\([^)]*\)(?:\s*\([^)]*\))?\s*{"] else []) ++
  (if Contains s "type " && Contains s "struct" then ["type\s+\w+\s+struct\s*{"] else []) ++
  (if Contains s "import" then ["import\s*\([^)]*\)"] else []).

Definition calculateRegexConfidence (pattern matchedText : string) : float64 :=
  let c := float64_const 6 10 in
  let c := if 20 <? String.length pattern then fadd c (float64_const 1 10) else c in
  let c := if 50 <? String.length matchedText then fadd c (float64_const 1 10) else c in
  let c := if String.length pattern <? 10 then fsub c (float64_const 2 10) else c in
  fmax (S754_zero false) (fmin (float64_of 1) c).

Section matcher.
(** regexp: [None] for a pattern that does not compile, otherwise the bounds of
    the first match, if any.  github.com/sahilm/fuzzy: the candidates that match,
    with their scores. *)
Context (FindStringIndex : string → string → option (option (nat * nat))).
Context (fuzzyFind : string → list string → list (string * Z)).

Fixpoint tryPatterns (fm : FallbackMatcher) (patterns : list string) : res string MatchResult :=
  match patterns with
  | [] => Err "no regex pattern match found"
  | pattern :: rest =>
      match FindStringIndex pattern (sdrop (startIndex fm) (content fm)) with
      | Some (Some (i, j)) =>
          let matchedText := stake (j - i) (sdrop (startIndex fm + i) (content fm)) in
          let confidence := calculateRegexConfidence pattern matchedText in
          if fgeb confidence (minConfidence fm) then
            Ok {| Strategy := StrategyRegexPattern; StartIndex := startIndex fm + i;
                  EndIndex := startIndex fm + j; Confidence := confidence;
                  MatchedText := matchedText; Context := "Regex pattern: " +:+ pattern;
                  Modifications := [] |}
          else tryPatterns fm rest
      | _ => tryPatterns fm rest
      end
  end.

Definition regexPatternMatch (fm : FallbackMatcher) : outcome :=
  if strictMode fm then Some (Err "regex matching disabled in strict mode")
  else
    match extractRegexPatterns (searchContent fm) with
    | [] => Some (Err "no regex pattern match found")
    | patterns =>
        if decide (startIndex fm ≤ String.length (content fm))
        then Some (tryPatterns fm patterns) else None
    end.

(** The line of each candidate text: the last one with that text. *)
Definition lineOf (startLineNum : nat) (contentLines : list string) (text : string) : nat :=
  foldl (λ n i, if decide (TrimSpace (default "" (contentLines !! i)) = text) then i else n) 0
    (seq startLineNum (length contentLines - startLineNum)).

Fixpoint tryFuzzy (fm : FallbackMatcher) (startLineNum : nat) (matches : list (string * Z)) :
    res string MatchResult :=
  match matches with
  | [] => Err "no fuzzy context match found"
  | (text, score) :: rest =>
      let contentLines := lines (content fm) in
      let searchLines := lines (searchContent fm) in
      let lineNum := lineOf startLineNum contentLines text in
      if (score <? 0)%Z then tryFuzzy fm startLineNum rest
      else if lineNum + length searchLines <=? length contentLines then
        let '(confidence, mods) :=
          calculateLineMatchConfidence fm (block lineNum (length searchLines) contentLines)
            searchLines in
        let fuzzyConfidence := fdiv (float64_of (- score)) (float64_of 100) in
        let confidence := fdiv (fadd confidence fuzzyConfidence) (float64_of 2) in
        if fgeb confidence (minConfidence fm) then
          Ok (lineMatch fm StrategyFuzzyContext lineNum (length searchLines) confidence mods
                ("Fuzzy match score: " +:+ Itoa score))
        else tryFuzzy fm startLineNum rest
      else tryFuzzy fm startLineNum rest
  end.

Definition fuzzyContextMatch (fm : FallbackMatcher) : outcome :=
  if strictMode fm then Some (Err "fuzzy matching disabled in strict mode")
  else
    let contentLines := lines (content fm) in
    let searchLines := lines (searchContent fm) in
    let first := TrimSpace (default "" (head searchLines)) in
    let primaryLine :=
      if decide (first = "" ∧ 1 < length searchLines)
      then TrimSpace (default "" (searchLines !! 1)) else first in
    startLineNum ← getLineNumberFromIndex fm (startIndex fm);
    let candidates := filter (λ l, l ≠ "") (TrimSpace <$> drop startLineNum contentLines) in
    Some (tryFuzzy fm startLineNum (fuzzyFind primaryLine candidates)).

Definition tryStrategy (fm : FallbackMatcher) (s : MatchStrategy) : outcome :=
  match s with
  | StrategyExact => exactMatch fm
  | StrategyLineTrimmed => lineTrimmedMatch fm
  | StrategyBlockAnchor => blockAnchorMatch fm
  | StrategyFuzzyContext => fuzzyContextMatch fm
  | StrategyLineNumber => lineNumberMatch fm
  | StrategyRegexPattern => regexPatternMatch fm
  end.

Definition strategies : list MatchStrategy :=
  [StrategyExact; StrategyLineTrimmed; StrategyBlockAnchor; StrategyLineNumber;
   StrategyRegexPattern; StrategyFuzzyContext].

(** The message of the error also prints the least confidence. *)
Definition noMatch : string := "no suitable match found with confidence".

Fixpoint findBest (fm : FallbackMatcher) (best : option MatchResult) (ss : list MatchStrategy) :
    outcome :=
  match ss with
  | [] => Some match best with Some m => Ok m | None => Err noMatch end
  | s :: rest =>
      r ← tryStrategy fm s;
      match r with
      | Err _ => findBest fm best rest
      | Ok m =>
          if fgeb (Confidence m) (minConfidence fm) then
            if bool_decide (Strategy m = StrategyExact) && fgeb (Confidence m) (float64_const 95 100)
            then Some (Ok m)
            else
              findBest fm
                match best with
                | None => Some m
                | Some b => if fltb (Confidence b) (Confidence m) then Some m else best
                end rest
          else findBest fm best rest
      end
  end.

Definition FindBestMatch (fm : FallbackMatcher) : outcome := findBest fm None strategies.
End matcher.

(** ** Lines and indices are inverse *)

(** The text of whole lines. *)
Fixpoint linesText (l : list string) : string :=
  match l with [] => "" | x :: rest => x +:+ String newline (linesText rest) end.

Lemma linesText_length l :
  String.length (linesText l) = foldr (λ l n, String.length l + 1 + n) 0 l.
Proof.
  induction l as [|x l IH]; [done|]. cbn [linesText foldr].
  rewrite slength_app. cbn [String.length]. lia.
Qed.

Lemma linesText_count l :
  Forall (λ x, CountByte x newline = 0) l → CountByte (linesText l) newline = length l.
Proof.
  induction 1 as [|x l Hx _ IH]; [done|]. cbn [linesText].
  rewrite CountByte_app, CountByte_here, Hx, IH. done.
Qed.

Lemma Join_lines_split n l :
  n < length l → Join l (byte1 newline) = linesText (take n l) +:+ Join (drop n l) (byte1 newline).
Proof.
  revert l. induction n as [|n IH]; intros l Hn; [by rewrite drop_0|].
  destruct l as [|x l]; simpl in Hn; [lia|]. destruct l as [|y l]; [simpl in Hn; lia|].
  change (Join (x :: y :: l) (byte1 newline)) with (x +:+ String newline (Join (y :: l) (byte1 newline))).
  rewrite (IH (y :: l)) by (simpl in *; lia). cbn [take linesText drop]. rewrite <-sapp_assoc. done.
Qed.

Lemma lines_no_newline s : Forall (λ x, CountByte x newline = 0) (lines s).
Proof. apply Forall_forall. intros x Hx. by eapply SplitByte_no_sep. Qed.

(** A content before and from a line on. *)
Lemma content_at_line fm n :
  n < length (lines (content fm)) →
  getIndexFromLineNumber fm n = String.length (linesText (take n (lines (content fm)))) ∧
  content fm = linesText (take n (lines (content fm))) +:+
    Join (drop n (lines (content fm))) (byte1 newline).
Proof.
  intros Hn. split.
  - unfold getIndexFromLineNumber. rewrite (proj2 (Nat.leb_gt _ _)) by done. by rewrite linesText_length.
  - rewrite <-Join_lines_split by done. symmetry. apply Join_SplitByte.
Qed.

(** The line of the index of a line is that line. *)
Theorem line_index_roundtrip fm n :
  n < length (lines (content fm)) →
  getLineNumberFromIndex fm (getIndexFromLineNumber fm n) = Some n.
Proof.
  intros Hn. destruct (content_at_line fm n Hn) as [-> Hc].
  assert (CountByte (linesText (take n (lines (content fm)))) newline = n) as HA.
  { rewrite linesText_count by (by apply Forall_take, lines_no_newline). rewrite length_take. lia. }
  set (A := linesText _) in *. set (B := Join _ _) in Hc. clearbody A B.
  unfold getLineNumberFromIndex. rewrite Hc, slength_app, decide_True by lia.
  rewrite stake_app. f_equal. exact HA.
Qed.

Lemma getIndex_le fm n : getIndexFromLineNumber fm n ≤ String.length (content fm).
Proof.
  destruct (decide (n < length (lines (content fm)))) as [Hn|Hn].
  - destruct (content_at_line fm n Hn) as [-> Hc]. set (A := linesText _) in *.
    set (B := Join _ _) in Hc. clearbody A B. rewrite Hc, slength_app. lia.
  - unfold getIndexFromLineNumber. rewrite (proj2 (Nat.leb_le _ _)) by lia. done.
Qed.

Lemma getIndex_mono fm n m : n ≤ m → getIndexFromLineNumber fm n ≤ getIndexFromLineNumber fm m.
Proof.
  intros Hnm. destruct (decide (m < length (lines (content fm)))) as [Hm|Hm].
  - rewrite (proj1 (content_at_line fm n ltac:(lia))), (proj1 (content_at_line fm m Hm)).
    replace (take m (lines (content fm))) with
      (take n (lines (content fm)) ++ take (m - n) (drop n (lines (content fm)))).
    + rewrite !linesText_length, foldr_app.
      generalize (foldr (λ (l : string) (n0 : nat), String.length l + 1 + n0) 0
        (take (m - n) (drop n (lines (content fm))))). intros k.
      induction (take n (lines (content fm))); simpl; lia.
    + rewrite take_take_drop. f_equal. lia.
  - assert (getIndexFromLineNumber fm m = String.length (content fm)) as ->; [|apply getIndex_le].
    unfold getIndexFromLineNumber. by rewrite (proj2 (Nat.leb_le _ _)) by lia.
Qed.

(** ** Matches lie in the content *)

Definition in_content (fm : FallbackMatcher) (m : MatchResult) : Prop :=
  StartIndex m ≤ EndIndex m ≤ String.length (content fm).

Lemma lineMatch_in fm s i n c mods ctx : in_content fm (lineMatch fm s i n c mods ctx).
Proof. split; [apply getIndex_mono; simpl; lia|apply getIndex_le]. Qed.

Section bounds.
Context (FindStringIndex : string → string → option (option (nat * nat))).
Context (fuzzyFind : string → list string → list (string * Z)).

(** A regular expression matches a part of its text. *)
Hypothesis FindStringIndex_in : ∀ pattern text i j,
  FindStringIndex pattern text = Some (Some (i, j)) → i ≤ j ≤ String.length text.

Lemma exactMatch_in fm m : exactMatch fm = Some (Ok m) → in_content fm m.
Proof.
  unfold exactMatch, in_content. case_decide as Hs; [|done].
  destruct (Index _ _) as [i|] eqn:Hi; [|done]. intros [= <-]. simpl.
  apply Index_Some in Hi as [Hi _]. rewrite slength_sdrop in Hi. lia.
Qed.

Lemma tryPatterns_in fm patterns m :
  startIndex fm ≤ String.length (content fm) →
  tryPatterns FindStringIndex fm patterns = Ok m → in_content fm m.
Proof.
  intros Hs. induction patterns as [|p ps IH]; simpl; [done|].
  destruct (FindStringIndex _ _) as [[[i j]|]|] eqn:Hf; [|done..].
  destruct (fgeb _ _); [|done]. intros [= <-]. unfold in_content. simpl.
  apply FindStringIndex_in in Hf. rewrite slength_sdrop in Hf. lia.
Qed.

Lemma tryFuzzy_in fm k matches m : tryFuzzy fm k matches = Ok m → in_content fm m.
Proof.
  induction matches as [|[text score] ms IH]; cbn [tryFuzzy]; [done|].
  destruct (score <? 0)%Z; [done|]. destruct (_ <=? _); [|done].
  destruct (calculateLineMatchConfidence _ _ _) as [c mods]. cbv zeta. destruct (fgeb _ _); [|done].
  intros [= <-]. apply lineMatch_in.
Qed.

Lemma tryStrategy_in fm s m :
  tryStrategy FindStringIndex fuzzyFind fm s = Some (Ok m) → in_content fm m.
Proof.
  destruct s; simpl.
  - apply exactMatch_in.
  - unfold lineTrimmedMatch. intros (k & _ & Hm)%bind_Some.
    destruct (firstLine _ _ _) as [[i [c mods]]|]; [|done]. injection Hm as <-. apply lineMatch_in.
  - unfold blockAnchorMatch. destruct (_ <? 3); [done|]. intros (k & _ & Hm)%bind_Some.
    destruct (firstLine _ _ _) as [[i [c mods]]|]; [|done]. injection Hm as <-. apply lineMatch_in.
  - unfold fuzzyContextMatch. destruct (strictMode fm); [done|]. cbv zeta.
    intros (k & _ & Hm)%bind_Some. injection Hm. apply tryFuzzy_in.
  - unfold lineNumberMatch. destruct (lineHint _) as [d|]; [|done].
    destruct (Atoi d) as [h|]; [|done]. cbv zeta. destruct (_ && _); [|done].
    intros (b & _ & Hm)%bind_Some. destruct (calculateLineMatchConfidence _ _ _) as [c mods].
    destruct (fgeb _ _); [|done]. injection Hm as <-. apply lineMatch_in.
  - unfold regexPatternMatch. destruct (strictMode fm); [done|].
    destruct (extractRegexPatterns _) as [|p ps]; [done|]. case_decide; [|done].
    intros Hm. apply (tryPatterns_in _ (p :: ps)); [done|]. congruence.
Qed.

Definition best_ok (fm : FallbackMatcher) (m : MatchResult) : Prop :=
  in_content fm m ∧ fgeb (Confidence m) (minConfidence fm) = true.

Lemma findBest_ok fm best ss m :
  (∀ b, best = Some b → best_ok fm b) →
  findBest FindStringIndex fuzzyFind fm best ss = Some (Ok m) → best_ok fm m.
Proof.
  revert best. induction ss as [|s ss IH]; intros best Hb; simpl.
  { destruct best; [|done]. intros [= <-]. by apply Hb. }
  intros (r & Hr & Hm)%bind_Some. destruct r as [b|e]; [|by apply (IH best)].
  destruct (fgeb (Confidence b) (minConfidence fm)) eqn:Hc; [|by apply (IH best)].
  assert (best_ok fm b) as Hok by (split; [by eapply tryStrategy_in|done]).
  destruct (_ && _); [by simplify_eq|]. apply IH in Hm; [done|]. intros b' Hb'.
  destruct best as [b0|]; [destruct (fltb _ _)|]; simplify_eq; auto.
Qed.

(** What the matcher finds lies within the content and is at least as
    confident as was asked, whatever the strategy. *)
Theorem FindBestMatch_in_bounds fm m :
  FindBestMatch FindStringIndex fuzzyFind fm = Some (Ok m) →
  StartIndex m ≤ EndIndex m ≤ String.length (content fm) ∧
  fgeb (Confidence m) (minConfidence fm) = true.
Proof. intros Hm. by apply (findBest_ok fm None strategies). Qed.
End bounds.

(** A text that occurs from the start index on is found where it occurs first,
    by the exact strategy, for every least confidence up to 1. *)
Theorem exact_match_first FindStringIndex fuzzyFind fm i :
  startIndex fm ≤ String.length (content fm) →
  fgeb (float64_of 1) (minConfidence fm) = true →
  Index (sdrop (startIndex fm) (content fm)) (searchContent fm) = Some i →
  ∃ m, FindBestMatch FindStringIndex fuzzyFind fm = Some (Ok m) ∧ Strategy m = StrategyExact ∧
    StartIndex m = startIndex fm + i ∧ EndIndex m = StartIndex m + String.length (searchContent fm) ∧
    stake (EndIndex m - StartIndex m) (sdrop (StartIndex m) (content fm)) = searchContent fm.
Proof.
  intros Hs Hmin Hi. unfold FindBestMatch, strategies. cbn [findBest tryStrategy].
  unfold exactMatch. rewrite decide_True, Hi by done. cbn [mbind option_bind Confidence Strategy].
  rewrite Hmin. eexists. split; [reflexivity|]. cbn [Strategy StartIndex EndIndex].
  split; [done|]. split; [done|]. split; [done|].
  apply Index_Some in Hi as [Hle Heq]. rewrite <-sdrop_add.
  set (t := sdrop (startIndex fm) (content fm)) in *.
  assert (String.length (stake i t) = i) as Hp by (apply slength_stake; lia).
  set (p := stake i t) in *. set (rest := sdrop (i + _) t) in *. clearbody p rest.
  rewrite Heq. subst i. rewrite sdrop_app.
  replace (_ - _) with (String.length (searchContent fm)) by lia. apply stake_app.
Qed.

(** ** What the strategies do at their limits *)

(** No lines to compare give NaN, which is no confidence at all. *)
Lemma no_lines_nan fm : calculateLineMatchConfidence fm [] [] = (S754_nan, []).
Proof. reflexivity. Qed.

(** A search text of two lines that ends in a newline is long enough for the
    anchors, but never matches by them, however equal: there are no lines
    between, and 0/0 is no confidence. *)
Theorem two_line_anchor_never_matches fm first last_ :
  length (lines (searchContent fm)) = 3 → startIndex fm ≤ String.length (content fm) →
  dropTrailingEmpty (lines (searchContent fm)) = [first; last_] →
  blockAnchorMatch fm = Some (Err "no block anchor match found").
Proof.
  intros Hlen Hs Hd. unfold blockAnchorMatch. rewrite Hlen, Hd.
  unfold getLineNumberFromIndex. rewrite decide_True by done. cbn [Nat.ltb Nat.leb mbind option_bind].
  assert (∀ l, firstLine (minConfidence fm)
    (anchorScore fm (lines (content fm)) [first; last_]) l = None) as Hnone; [|by rewrite Hnone].
  induction l as [|i l IH]; [done|]. cbn [firstLine]. unfold anchorScore at 1.
  destruct (decide _); [done|]. destruct (decide _); [done|].
  assert (calculateLineMatchConfidence fm (block (i + 1) (length [first; last_] - 2) (lines (content fm)))
    (block 1 (length [first; last_] - 2) [first; last_]) = (S754_nan, [])) as -> by reflexivity.
  change (fmin (float64_of 1) (fmul S754_nan (float64_const 11 10))) with S754_nan.
  by rewrite fgeb_nan.
Qed.

(** A hint at the largest line number makes the matcher panic when the search
    text has more than one line: the end of the block wraps around to a negative
    index. *)
Theorem line_hint_panics fm digits :
  lineHint (searchContent fm) = Some digits → Atoi digits = Some MaxInt →
  (2 ≤ len (lines (searchContent fm)) < MaxInt)%Z → lineNumberMatch fm = None.
Proof.
  intros Hh Ha Hlen. unfold lineNumberMatch. rewrite Hh, Ha. cbv zeta.
  set (n := len (lines (searchContent fm))) in *. clearbody n.
  rewrite (int64_id (MaxInt - 1)) by (unfold in_int64, MaxInt; lia).
  destruct (int64_overflow (MaxInt - 1 + n)) as [_ Hneg]; [unfold MaxInt in *; lia|].
  assert (0 ≤ len (lines (content fm)))%Z by (unfold len; lia).
  rewrite (proj2 (Z.leb_le 0 (MaxInt - 1))) by (unfold MaxInt; lia).
  rewrite (proj2 (Z.leb_le (int64 (MaxInt - 1 + n)) _)) by lia.
  cbn [andb]. rewrite slice_None; [done|unfold MaxInt in *; lia].
Qed.

(** With the default least confidence, a search text with a function in it
    matches whatever function comes first, by its signature alone. *)
Lemma any_function_matches FindStringIndex fm i j :
  strictMode fm = false → minConfidence fm = float64_const 7 10 →
  startIndex fm ≤ String.length (content fm) → Contains (searchContent fm) "func " = true →
  FindStringIndex "func\s+\w+\s*\([^)]*\)(?:\s*\([^)]*\))?\s*{"
    (sdrop (startIndex fm) (content fm)) = Some (Some (i, j)) →
  ∃ m, regexPatternMatch FindStringIndex fm = Some (Ok m) ∧ StartIndex m = startIndex fm + i.
Proof.
  intros Hst Hmin Hs Hc Hf. unfold regexPatternMatch, extractRegexPatterns. rewrite Hst, Hc. simpl.
  rewrite decide_True, Hf by done. rewrite Hmin.
  assert (∀ t, fgeb (calculateRegexConfidence "func\s+\w+\s*\([^)]*\)(?:\s*\([^)]*\))?\s*{" t)
    (float64_const 7 10) = true) as ->; [|by eexists].
  intros t. unfold calculateRegexConfidence. by destruct (50 <? String.length t).
Qed.

(** The best a fuzzy match can be is half of what an equal block is. *)
Example fuzzy_at_best :
  fgeb (fdiv (fadd (float64_of 1) (fdiv (float64_of (- 0)) (float64_of 100))) (float64_of 2))
    (float64_const 7 10) = false.
Proof. vm_compute. reflexivity. Qed.

(** ** Concrete runs *)

Definition noRegex (pattern text : string) : option (option (nat * nat)) := Some None.

Definition noFuzzy (text : string) (candidates : list string) : list (string * Z) := [].

Definition toyMatcher (content search : string) : FallbackMatcher :=
  NewFallbackMatcher content search 0
    {| MinConfidence := S754_zero false; MaxDistance := 0; ContextLines := 0; StrictMode := false |}.

Definition threeLines : string := "a
  b
c".

Lemma line_index_roundtrip_witness :
  getLineNumberFromIndex (toyMatcher threeLines "") (getIndexFromLineNumber (toyMatcher threeLines "") 2)
    = Some 2 ∧ getIndexFromLineNumber (toyMatcher threeLines "") 2 = 6.
Proof.
  split; [apply line_index_roundtrip; vm_compute; lia|reflexivity].
Defined.

Lemma FindBestMatch_in_bounds_witness :
  ∃ m, FindBestMatch noRegex noFuzzy (toyMatcher threeLines "b
c") = Some (Ok m) ∧ Strategy m = StrategyExact ∧ StartIndex m ≤ EndIndex m ≤ 7.
Proof.
  eexists. split; [vm_compute; reflexivity|]. split; [reflexivity|].
  apply (FindBestMatch_in_bounds noRegex noFuzzy ltac:(done) (toyMatcher threeLines "b
c")).
  vm_compute. reflexivity.
Defined.

Lemma exact_match_first_witness :
  ∃ m, FindBestMatch noRegex noFuzzy (toyMatcher "abcb" "b") = Some (Ok m) ∧ StartIndex m = 1.
Proof.
  destruct (exact_match_first noRegex noFuzzy (toyMatcher "abcb" "b") 1) as (m & Hm & _ & Hi & _).
  - vm_compute. lia.
  - vm_compute. reflexivity.
  - vm_compute. reflexivity.
  - exists m. by rewrite Hi.
Defined.

Lemma two_line_anchor_never_matches_witness :
  blockAnchorMatch (toyMatcher "x
y
z" "x
y
") = Some (Err "no block anchor match found").
Proof.
  apply (two_line_anchor_never_matches _ "x" "y"); [reflexivity|vm_compute; lia|reflexivity].
Defined.

Lemma line_hint_panics_witness :
  lineNumberMatch (toyMatcher "x" "# Line 9223372036854775807
x") = None.
Proof.
  apply (line_hint_panics _ "9223372036854775807"); [reflexivity|reflexivity|].
  vm_compute. split; [discriminate|reflexivity].
Defined.
