(* ===== verification/Editor.v ===== *)
(** * The file editor

    internal/edit/editor.go: reading files with a guess at their encoding,
    writing them through a temporary file with a backup made before, applying
    SEARCH/REPLACE diffs, and undoing single edits and groups of edits.  The
    state is a [World]: the regular files, the number of system calls made so
    far, and the goroutines that prune backups, which run between the system
    calls of the editor as a schedule says.  Every system call may fail. *)
From S2P Require Import Prelude GoString GoPath EditDiff.

#[local] Open Scope nat_scope.

Set Default Proof Using "Type*".

(** ** Data *)

Record FileEdit := {
  FilePath : string;
  OldContent : string;
  NewContent : string;
  Backup : string;
  Timestamp : Z;
  Applied : bool;
  EditError : string;
}.

Record MultiEditOperation := {
  OperationID : string;
  Description : string;
  Edits : list FileEdit;
  OperationTimestamp : Z;
  OperationApplied : bool;
  Rollback : bool;
}.

Definition ValidationFunc : Type := string → string → option string.

Record FileEditor := {
  backupDir : string;
  maxBackups : nat;
  validateFunc : option ValidationFunc;
  k8sIntegrated : bool;
}.

Record EditorConfig := {
  BackupDir : string;
  MaxBackups : nat;
  ValidateFunc : option ValidationFunc;
  K8sIntegrated : bool;
}.

(** What newFileEditor sets; the directory's creation may fail, which is only
    reported. *)
Definition NewFileEditor (tempDir : string) (config : EditorConfig) : FileEditor :=
  {| backupDir := if decide (BackupDir config = "") then Join2 tempDir "matey-edit-backups"
                  else BackupDir config;
     maxBackups := if decide (MaxBackups config = 0) then 10 else MaxBackups config;
     validateFunc := ValidateFunc config;
     k8sIntegrated := K8sIntegrated config |}.

(** ** The world *)

(** A cleanup goroutine: before it has listed the backups, and with the files it
    still has to remove. *)
Inductive Task :=
  | ListBackups (filePath : string)
  | RemoveBackups (paths : list string).

Record World := {
  files : gmap string string;
  calls : nat;
  tasks : list Task;
}.

(** A failing system call; a failing write may have truncated the file and
    written some bytes. *)
Record Fault := { faultText : string; faultWritten : option nat }.

(** What the operating system and the scheduler do: the n-th system call fails,
    the goroutines that take a step before it, the removals that fail for them;
    time.Now at that moment, as a number and as text. *)
Record Outside := {
  fault : nat → option Fault;
  schedule : nat → list nat;
  removeFault : nat → string → bool;
  stamp : nat → string;
  unixTime : nat → Z;
}.

(** The encodings other than plain UTF-8 that are detected. *)
Inductive Encoding := UTF8BOM | UTF16LE | UTF16BE | Latin1.

Definition setFiles (f : gmap string string → gmap string string) (w : World) : World :=
  {| files := f (files w); calls := calls w; tasks := tasks w |}.

Definition setTasks (f : list Task → list Task) (w : World) : World :=
  {| files := files w; calls := calls w; tasks := f (tasks w) |}.

Definition tick (w : World) : World :=
  {| files := files w; calls := S (calls w); tasks := tasks w |}.

(** An operation that may fail. *)
Definition M (A : Type) : Type := World → World * res string A.

#[export] Instance M_ret : MRet M := λ A a w, (w, Ok a).
#[export] Instance M_bind : MBind M := λ A B f m w,
  match m w with (w', Ok a) => f a w' | (w', Err e) => (w', Err e) end.

Definition throw {A} (e : string) : M A := λ w, (w, Err e).

(** fmt.Errorf("msg: %w", err). *)
Definition wrap {A} (msg : string) (m : M A) : M A := λ w,
  match m w with (w', Ok a) => (w', Ok a) | (w', Err e) => (w', Err (msg +:+ ": " +:+ e)) end.

(** filepath.Glob of a pattern with one star, the first one, and no other
    metacharacter: what stands for the star has no separator. *)
Definition globMatch (pattern p : string) : bool :=
  match IndexByte pattern "*" with
  | None => String.eqb pattern p
  | Some i =>
      let rest := TrimPrefix p (stake i pattern) in
      HasPrefix p (stake i pattern) && HasSuffix rest (sdrop (S i) pattern) &&
      (CountByte (TrimSuffix rest (sdrop (S i) pattern)) Separator =? 0)
  end.

Definition Glob (pattern : string) (w : World) : list string :=
  merge_sort String.le (filter (λ p, globMatch pattern p = true) (map_to_list (files w)).*1).

Section editor.
(** golang.org/x/text's decoders. *)
Context (decode : Encoding → string → res string string).
Context (fe : FileEditor) (o : Outside).

Definition getBackupPattern (filePath : string) : string :=
  Join2 (backupDir fe) (Base filePath +:+ ".*.backup").

Definition GetBackupHistory (filePath : string) (w : World) : list string :=
  Glob (getBackupPattern filePath) w.

(** The backups that are too many, the first ones in the order of Glob. *)
Definition oldBackups (filePath : string) (w : World) : list string :=
  let backups := GetBackupHistory filePath w in
  take (length backups - maxBackups fe) backups.

(** ** The cleanup goroutines *)

(** One step of the [i]-th goroutine before system call [n]. *)
Definition taskStep (n i : nat) (w : World) : World :=
  match tasks w !! i with
  | None => w
  | Some (ListBackups filePath) =>
      setTasks (<[i := RemoveBackups (oldBackups filePath w)]>) w
  | Some (RemoveBackups []) => setTasks (delete i) w
  | Some (RemoveBackups (p :: rest)) =>
      if removeFault o n p || bool_decide (files w !! p = None) then setTasks (delete i) w
      else setTasks (<[i := RemoveBackups rest]>) (setFiles (delete p) w)
  end.

Definition runTasks (n : nat) (w : World) : World :=
  foldl (λ w i, taskStep n i w) w (schedule o n).

(** ** System calls *)

(** A call: the goroutines run, then it fails as the operating system says or
    does what it should. *)
Definition syscall {A} (onFault : Fault → World → World) (body : M A) : M A := λ w,
  let n := calls w in
  let w := tick (runTasks n w) in
  match fault o n with
  | Some ft => (onFault ft w, Err (faultText ft))
  | None => body w
  end.

Definition noEffect (_ : Fault) (w : World) : World := w.

Definition noSuchFile (op p : string) : string := op +:+ " " +:+ p +:+ ": no such file or directory".

(** [_, err := os.Stat(p); os.IsNotExist(err)]. *)
Definition notExist (p : string) : M bool := λ w,
  let '(w', r) := syscall noEffect (λ w, (w, Ok (bool_decide (files w !! p = None)))) w in
  (w', match r with Ok b => Ok b | Err _ => Ok false end).

(** The open file is the content it had: the editor itself does not write to a
    file it has open, and removing a file leaves its content readable. *)
Definition osOpen (p : string) : M string := syscall noEffect (λ w,
  match files w !! p with
  | Some content => (w, Ok content)
  | None => (w, Err (noSuchFile "open" p))
  end).

Definition osCall : M unit := syscall noEffect (λ w, (w, Ok tt)).

Definition truncated (p content : string) (ft : Fault) : World → World :=
  setFiles (λ m, match faultWritten ft with
                 | Some n => <[p := stake n content]> m
                 | None => m
                 end).

Definition osWriteFile (p content : string) : M unit :=
  syscall (truncated p content) (λ w, (setFiles (<[p := content]>) w, Ok tt)).

Definition osRename (a b : string) : M unit := syscall noEffect (λ w,
  match files w !! a with
  | Some content => (setFiles (λ m, <[b := content]> (delete a m)) w, Ok tt)
  | None => (w, Err (noSuchFile "rename" a))
  end).

Definition osRemove (p : string) : M unit := syscall noEffect (λ w,
  match files w !! p with
  | Some _ => (setFiles (delete p) w, Ok tt)
  | None => (w, Err (noSuchFile "remove" p))
  end).

(** A call whose failure is only reported. *)
Definition bestEffort (m : M unit) : M unit := λ w, ((m w).1, Ok tt).

(** ** Reading *)

Definition detectEncoding (data : string) : option Encoding :=
  if HasPrefix data (String "239" (String "187" (String "191" ""))) then Some UTF8BOM
  else if HasPrefix data (String "255" (String "254" "")) then Some UTF16LE
  else if HasPrefix data (String "254" (String "255" "")) then Some UTF16BE
  else if Valid data then None
  else Some Latin1.

Definition ReadFile (filePath : string) : M string :=
  missing ← notExist filePath;
  if (missing : bool) then throw ("file does not exist: " +:+ filePath)
  else
    data ← wrap ("failed to open file " +:+ filePath) (osOpen filePath);
    _ ← wrap ("failed to read file " +:+ filePath) osCall;
    _ ← wrap "failed to seek to beginning of file" osCall;
    _ ← wrap ("failed to read file content " +:+ filePath) osCall;
    content ←
      wrap ("failed to read file content " +:+ filePath) (λ w,
        (w, match detectEncoding (stake 1024 data) with
            | Some encoding => decode encoding data
            | None => Ok data
            end));
    if Valid content then mret content
    else throw ("file " +:+ filePath +:+ " contains invalid UTF-8").

(** ** Backups *)

Definition backupPath (filePath timestamp : string) : string :=
  Join2 (backupDir fe) (Base filePath +:+ "." +:+ timestamp +:+ ".backup").

(** [go fe.CleanupBackups(filePath)]. *)
Definition goCleanup (filePath : string) : M unit := λ w,
  (setTasks (λ ts, ts ++ [ListBackups filePath]) w, Ok tt).

Definition writeBackup (filePath timestamp : string) : M string :=
  content ← wrap "failed to read original file" (ReadFile filePath);
  _ ← wrap "failed to write backup" (osWriteFile (backupPath filePath timestamp) content);
  _ ← goCleanup filePath;
  mret (backupPath filePath timestamp).

Definition createBackup (filePath : string) : M string :=
  missing ← notExist filePath;
  if (missing : bool) then mret ""
  else λ w, writeBackup filePath (stamp o (calls w)) w.

Fixpoint removeAll (ps : list string) : M unit :=
  match ps with
  | [] => mret tt
  | p :: rest => _ ← wrap "failed to remove old backup" (osRemove p); removeAll rest
  end.

(** The call of a client, rather than the goroutine. *)
Definition CleanupBackups (filePath : string) : M unit := λ w,
  removeAll (oldBackups filePath w) w.

(** ** Writing *)

Definition validate (filePath content : string) : M unit :=
  match validateFunc fe with
  | None => mret tt
  | Some f =>
      match f filePath content with
      | None => mret tt
      | Some e => throw ("content validation failed: " +:+ e)
      end
  end.

Definition renameOver (tempFile filePath : string) : M unit := λ w,
  match osRename tempFile filePath w with
  | (w', Ok _) => (w', Ok tt)
  | (w', Err e) => ((osRemove tempFile w').1, Err ("failed to rename temp file: " +:+ e))
  end.

(** recordOperation, at the end, has no effect. *)
Definition WriteFile (filePath content : string) : M unit :=
  _ ← wrap "failed to create backup" (createBackup filePath);
  _ ← validate filePath content;
  _ ← wrap ("failed to create directory " +:+ Dir filePath) osCall;
  _ ← wrap "failed to write temp file" (osWriteFile (filePath +:+ ".tmp") content);
  renameOver (filePath +:+ ".tmp") filePath.

(** ** Diffs *)

Definition parseErrorText (e : ParseError) : string :=
  match e with
  | NestedSearch n => "malformed diff: nested search blocks at line " +:+ Itoa n
  | UnexpectedSearchEnd n => "malformed diff: unexpected search block end at line " +:+ Itoa n
  | UnexpectedReplaceEnd n => "malformed diff: unexpected replace block end at line " +:+ Itoa n
  end.

Definition applyErrorText (e : ApplyError) : string :=
  match e with
  | NoMatch search =>
      "failed to apply diff block: could not find match for search content: " +:+ search
  end.

(** What ApplyDiff returns: an edit, or an error with the edit that was not
    written, if it came so far; [None] is a panic of the diff processor.  A
    failing ReadFile always ends it: os.IsNotExist does not look into the errors
    of fmt.Errorf. *)
Definition DiffResult : Type := option (res (option FileEdit * string) FileEdit).

Definition failed (e : string) : DiffResult := Some (Err (None, e)).

Definition setApplied (e : FileEdit) : FileEdit :=
  {| FilePath := FilePath e; OldContent := OldContent e; NewContent := NewContent e;
     Backup := Backup e; Timestamp := Timestamp e; Applied := true; EditError := EditError e |}.

Definition setError (err : string) (e : FileEdit) : FileEdit :=
  {| FilePath := FilePath e; OldContent := OldContent e; NewContent := NewContent e;
     Backup := Backup e; Timestamp := Timestamp e; Applied := false; EditError := err |}.

(** From the new content on: backup, write, and the edit that says so. *)
Definition writeEdit (filePath originalContent newContent : string) (w : World) :
    World * DiffResult :=
  match createBackup filePath w with
  | (w1, Err e) => (w1, failed ("failed to create backup: " +:+ e))
  | (w1, Ok backup) =>
      let edit := {| FilePath := filePath; OldContent := originalContent;
                     NewContent := newContent; Backup := backup;
                     Timestamp := unixTime o (calls w1); Applied := false; EditError := "" |} in
      match WriteFile filePath newContent w1 with
      | (w2, Err e) => (w2, Some (Err (Some (setError e edit), e)))
      | (w2, Ok _) => (w2, Some (Ok (setApplied edit)))
      end
  end.

Definition ApplyDiff (filePath diffContent : string) (w : World) : World * DiffResult :=
  match ReadFile filePath w with
  | (w1, Err e) => (w1, failed ("failed to read file: " +:+ e))
  | (w1, Ok originalContent) =>
      match ParseDiff (NewDiffProcessor originalContent) diffContent true with
      | (_, Some e) => (w1, failed ("failed to parse diff: " +:+ parseErrorText e))
      | (processor, None) =>
          match EditDiff.ApplyDiff processor with
          | None => (w1, None)
          | Some (Err e) => (w1, failed ("failed to apply diff: " +:+ applyErrorText e))
          | Some (Ok newContent) => writeEdit filePath originalContent newContent w1
          end
      end
  end.

(** ** Undoing *)

Definition RollbackEdit (edit : FileEdit) : M unit :=
  if negb (Applied edit) then throw "edit was not successfully applied"
  else if decide (Backup edit = "") then throw "no backup available for rollback"
  else
    backupContent ← wrap "failed to read backup" (ReadFile (Backup edit));
    wrap "failed to restore file" (WriteFile (FilePath edit) backupContent).

(** Edits with their index, the last one first; failures end the rollback. *)
Fixpoint rollbackList (edits : list (nat * FileEdit)) : M unit :=
  match edits with
  | [] => mret tt
  | (i, edit) :: rest =>
      _ ← (if Applied edit
           then wrap ("failed to rollback edit " +:+ Itoa (Z.of_nat i)) (RollbackEdit edit)
           else mret tt);
      rollbackList rest
  end.

Definition RollbackMultiEdit (operation : MultiEditOperation) : M unit :=
  if negb (OperationApplied operation) then throw "multi-edit was not successfully applied"
  else rollbackList (reverse (imap pair (Edits operation))).

(** Failures are only reported. *)
Fixpoint rollbackEach (edits : list FileEdit) : M unit :=
  match edits with
  | [] => mret tt
  | edit :: rest => _ ← bestEffort (RollbackEdit edit); rollbackEach rest
  end.

Definition rollbackEdits (edits : list FileEdit) : M unit := rollbackEach (reverse edits).

(** [order] is the order in which the map of backups is visited. *)
Fixpoint rollbackBackups (backups : gmap string string) (order : list string) : M unit :=
  match order with
  | [] => mret tt
  | p :: rest =>
      let backup := default "" (backups !! p) in
      _ ← (if decide (backup = "") then mret tt else bestEffort (osRemove backup));
      rollbackBackups backups rest
  end.

(** ** Groups of edits *)

(** The backups made before a group is applied, or the error of the first that
    could not be made with those made so far. *)
Fixpoint backupAll (edits : list FileEdit) (backups : gmap string string) (w : World) :
    World * gmap string string * option string :=
  match edits with
  | [] => (w, backups, None)
  | edit :: rest =>
      match createBackup (FilePath edit) w with
      | (w', Err e) =>
          (w', backups, Some ("failed to create backup for " +:+ FilePath edit +:+ ": " +:+ e))
      | (w', Ok backup) => backupAll rest (<[FilePath edit := backup]> backups) w'
      end
  end.

Definition withBackup (backups : gmap string string) (time : Z) (edit : FileEdit) : FileEdit :=
  {| FilePath := FilePath edit; OldContent := OldContent edit; NewContent := NewContent edit;
     Backup := default "" (backups !! FilePath edit); Timestamp := time; Applied := Applied edit;
     EditError := EditError edit |}.

(** Applies the edits of [todo]; [applied] were.  The result is the slice of
    edits, which the caller shares, with an error if one could not be applied
    and the others were undone. *)
Fixpoint applyAll (backups : gmap string string) (applied todo : list FileEdit) (w : World) :
    World * list FileEdit * option string :=
  match todo with
  | [] => (w, applied, None)
  | edit :: rest =>
      let newEdit := withBackup backups (unixTime o (calls w)) edit in
      match WriteFile (FilePath edit) (NewContent edit) w with
      | (w1, Err e) =>
          let '(w2, _) := rollbackEdits applied w1 in
          (w2, applied ++ setError e newEdit :: rest,
           Some ("failed to apply edit to " +:+ FilePath edit +:+ ": " +:+ e))
      | (w1, Ok _) => applyAll backups (applied ++ [setApplied newEdit]) rest w1
      end
  end.

Definition withEdits (op : MultiEditOperation) (edits : list FileEdit) (time : Z) (applied : bool) :
    MultiEditOperation :=
  {| OperationID := OperationID op; Description := Description op; Edits := edits;
     OperationTimestamp := time; OperationApplied := applied; Rollback := Rollback op |}.

(** The operation, if one is returned, and the error. *)
Definition ApplyMultiEdit (order : list string) (op : MultiEditOperation) (w : World) :
    World * option MultiEditOperation * option string :=
  match backupAll (Edits op) ∅ w with
  | (w1, backups, Some e) => ((rollbackBackups backups order w1).1, None, Some e)
  | (w1, backups, None) =>
      match applyAll backups [] (Edits op) w1 with
      | (w2, edits, Some e) =>
          (w2, Some (withEdits op edits (OperationTimestamp op) false), Some e)
      | (w2, edits, None) =>
          (w2, Some (withEdits op edits (unixTime o (calls w2)) true), None)
      end
  end.

End editor.

(** ** Paths of the backup directory *)

(** A path inside a directory. *)
Definition below (dir p : string) : Prop := HasPrefix p (dir +:+ "/") = true.

Lemma below_child d x : below d (d +:+ "/" +:+ x).
Proof. unfold below. rewrite sapp_assoc. apply HasPrefix_app. Qed.

Lemma child_name_long x : CountByte x Separator = 0 → 2 < String.length x → child_name x.
Proof.
  intros Hs Hl. split; [split_and!|]; [intros ->|intros ->|done|intros ->]; simpl in Hl; lia.
Qed.

(** The name of a backup, or a pattern for names. *)
Lemma Join2_base d fp x :
  clean_dir d → CountByte x Separator = 0 → 2 < String.length x →
  ∃ y, Join2 d (Base fp +:+ x) = d +:+ "/" +:+ y +:+ x ∧
    y = (if decide (Base fp = "/") then "" else Base fp).
Proof.
  intros Hd Hs Hl. destruct (Base_no_sep fp) as [Hb|Hb].
  - exists (Base fp). split; [|rewrite decide_False; [done|by intros Heq; rewrite Heq in Hb]].
    rewrite Join2_child; [by rewrite sapp_assoc|done|].
    apply child_name_long; [rewrite CountByte_app; lia|rewrite slength_app; lia].
  - exists "". rewrite Hb. split; [|by rewrite decide_True]. 
    change (Join2 d (String Separator x) = d +:+ "/" +:+ x).
    assert (child_name x) by (by apply child_name_long).
    assert (d ≠ "") by (intros ->; by destruct Hd).
    assert (x ≠ "") by (intros ->; simpl in Hl; lia). by rewrite Join2_slash, Join2_child.
Qed.

(** The text of a pattern before its star has at least the starless text in
    front of it. *)
Lemma stake_IndexByte a b c i :
  CountByte a c = 0 → IndexByte (a +:+ b) c = Some i → ∃ t, stake i (a +:+ b) = a +:+ t.
Proof.
  revert i. induction a as [|d a IH]; intros i Ha Hi; [by eexists|]. simpl in *.
  destruct (Ascii.eqb d c); [lia|]. destruct (IndexByte (a +:+ b) c) as [j|]; [|done].
  injection Hi as <-. destruct (IH j) as [t Ht]; [done..|]. exists t. simpl. by rewrite Ht.
Qed.

Lemma HasPrefix_shorter s p t : HasPrefix s (p +:+ t) = true → HasPrefix s p = true.
Proof. intros [r ->]%HasPrefix_spec. rewrite <-sapp_assoc. apply HasPrefix_app. Qed.

Lemma Glob_elem pattern w p :
  p ∈ Glob pattern w ↔ is_Some (files w !! p) ∧ globMatch pattern p = true.
Proof.
  unfold Glob. rewrite merge_sort_Permutation, list_elem_of_filter, list_elem_of_fmap. split.
  - intros [Hm ([q c] & -> & Hq)]. apply elem_of_map_to_list in Hq. eauto.
  - intros [[c Hc] Hm]. split; [done|]. exists (p, c). by rewrite elem_of_map_to_list.
Qed.

(** How many files a pattern finds. *)
Lemma length_Glob pattern w :
  length (Glob pattern w) = size (filter (λ kv, globMatch pattern kv.1 = true) (files w)).
Proof.
  unfold Glob. rewrite merge_sort_Permutation. induction (files w) as [|p c m Hp IH] using map_ind.
  - by rewrite map_filter_empty, map_to_list_empty, map_size_empty.
  - rewrite map_to_list_insert by done. simpl. rewrite filter_cons. simpl.
    destruct (decide (globMatch pattern p = true)) as [Hm|Hm]; simpl.
    + rewrite map_filter_insert_True, map_size_insert_None; [by f_equal| |done].
      by apply map_lookup_filter_None_2; left.
    + by rewrite map_filter_insert_False, delete_id by done.
Qed.

Lemma length_Glob_insert pattern p c w :
  length (Glob pattern (setFiles (<[p:=c]>) w)) ≤ S (length (Glob pattern w)).
Proof.
  rewrite !length_Glob. simpl. destruct (decide (globMatch pattern p = true)).
  - rewrite map_filter_insert_True by done. rewrite map_size_insert. case_match; simpl; lia.
  - rewrite map_filter_insert_False, map_filter_delete by done.
    rewrite map_size_delete. case_match; simpl; lia.
Qed.

Lemma length_Glob_delete pattern p w :
  length (Glob pattern (setFiles (delete p) w)) ≤ length (Glob pattern w).
Proof.
  rewrite !length_Glob. simpl. rewrite map_filter_delete, map_size_delete. case_match; simpl; lia.
Qed.

Lemma length_Glob_files pattern w w' : files w' = files w → length (Glob pattern w') = length (Glob pattern w).
Proof. intros Hf. by rewrite !length_Glob, Hf. Qed.

(** ** What an operation leaves alone *)

Section frame.
Context (decode : Encoding → string → res string string) (fe : FileEditor) (o : Outside).
Context (Hdir : clean_dir (backupDir fe)) (Hstar : CountByte (backupDir fe) "*" = 0).
Context (Hstamp : ∀ n, CountByte (stamp o n) Separator = 0).

Definition inBackups (p : string) : Prop := below (backupDir fe) p.

Definition task_ok (t : Task) : Prop :=
  match t with RemoveBackups ps => Forall inBackups ps | ListBackups _ => True end.

Definition tasks_ok (w : World) : Prop := Forall task_ok (tasks w).

(** A step that changes, outside the backup directory, only files in [W]. *)
Definition keeps (W : string → Prop) (w w' : World) : Prop :=
  tasks_ok w' ∧ ∀ p, ¬ inBackups p → ¬ W p → files w' !! p = files w !! p.

Definition framed {A} (W : string → Prop) (m : M A) : Prop :=
  ∀ w, tasks_ok w → keeps W w (m w).1.

Lemma keeps_refl W w : tasks_ok w → keeps W w w.
Proof. done. Qed.

Lemma keeps_trans W w1 w2 w3 : keeps W w1 w2 → keeps W w2 w3 → keeps W w1 w3.
Proof. intros [_ H1] [Ht H2]. split; [done|]. intros p Hp HW. by rewrite H2, H1. Qed.

Lemma keeps_files W (f : gmap string string → gmap string string) w :
  tasks_ok w → (∀ p, ¬ inBackups p → ¬ W p → f (files w) !! p = files w !! p) →
  keeps W w (setFiles f w).
Proof. done. Qed.

Lemma getBackupPattern_below filePath p :
  globMatch (getBackupPattern fe filePath) p = true → inBackups p.
Proof.
  intros Hm. unfold getBackupPattern in Hm.
  destruct (Join2_base (backupDir fe) filePath ".*.backup") as (y & Heq & _);
    [done|done|simpl; lia|]. rewrite Heq in Hm. unfold globMatch in Hm.
  assert (∀ t, backupDir fe +:+ "/" +:+ t = (backupDir fe +:+ "/") +:+ t) as Hassoc
    by (intros; apply sapp_assoc).
  rewrite Hassoc in Hm. destruct (IndexByte _ "*") as [i|] eqn:Hi.
  - apply stake_IndexByte in Hi as [t Ht]; [|rewrite CountByte_app; simpl; lia].
    rewrite Ht in Hm. rewrite !andb_true_iff in Hm. destruct Hm as [[Hm _] _].
    by apply HasPrefix_shorter in Hm.
  - apply String.eqb_eq in Hm as <-. rewrite <-Hassoc. apply below_child.
Qed.

Lemma oldBackups_below filePath w : Forall inBackups (oldBackups fe filePath w).
Proof.
  apply Forall_take, Forall_forall. intros p [_ Hm]%Glob_elem. by eapply getBackupPattern_below.
Qed.

Lemma taskStep_keeps W n i w : tasks_ok w → keeps W w (taskStep fe o n i w).
Proof.
  intros Hok. unfold taskStep. destruct (tasks w !! i) as [[filePath|[|p ps]]|] eqn:Ht; [..|done].
  - split; [|done]. apply Forall_insert; [done|]. apply oldBackups_below.
  - split; [|done]. by apply Forall_delete.
  - assert (Forall inBackups (p :: ps)) as [Hp Hps]%Forall_cons by exact (Forall_lookup_1 _ _ _ _ Hok Ht).
    destruct (removeFault o n p || _).
    + split; [|done]. by apply Forall_delete.
    + split; [by apply Forall_insert|]. intros q Hq _. simpl.
      rewrite lookup_delete_ne; [done|congruence].
Qed.

Lemma runTasks_keeps W n w : tasks_ok w → keeps W w (runTasks fe o n w).
Proof.
  unfold runTasks. revert w. induction (schedule o n) as [|i l IH]; intros w Hok; [done|]. simpl.
  pose proof (taskStep_keeps W n i w Hok) as Hk.
  eapply keeps_trans; [done|]. apply IH, Hk.
Qed.

Lemma framed_ret {A} W (a : A) : framed W (mret a).
Proof. intros w Hok. by apply keeps_refl. Qed.

Lemma framed_throw {A} W e : framed W (throw (A := A) e).
Proof. intros w Hok. by apply keeps_refl. Qed.

Lemma framed_bind {A B} W (m : M A) (f : A → M B) :
  framed W m → (∀ a, framed W (f a)) → framed W (m ≫= f).
Proof.
  intros Hm Hf w Hok. specialize (Hm w Hok). unfold mbind, M_bind.
  destruct (m w) as [w1 [a|e]]; [|done]. simpl in Hm. eapply keeps_trans; [done|].
  apply Hf, Hm.
Qed.

Lemma framed_wrap {A} W msg (m : M A) : framed W m → framed W (wrap msg m).
Proof.
  intros Hm w Hok. specialize (Hm w Hok). unfold wrap. by destruct (m w) as [w1 [a|e]].
Qed.

Lemma framed_bestEffort W m : framed W m → framed W (bestEffort m).
Proof. intros Hm w Hok. by apply Hm. Qed.

Lemma framed_syscall {A} W g (body : M A) :
  (∀ ft w, tasks_ok w → keeps W w (g ft w)) → framed W body → framed W (syscall fe o g body).
Proof.
  intros Hg Hb w Hok. unfold syscall.
  assert (keeps W w (tick (runTasks fe o (calls w) w))) as Hk by (by apply runTasks_keeps).
  destruct (fault o (calls w)) as [ft|].
  - eapply keeps_trans; [done|]. apply Hg, Hk.
  - eapply keeps_trans; [done|]. apply Hb, Hk.
Qed.

Lemma framed_run {A} W (m : M A) w w' r :
  framed W m → tasks_ok w → m w = (w', r) → keeps W w w'.
Proof. intros Hm Hok Heq. specialize (Hm w Hok). by rewrite Heq in Hm. Qed.

Lemma framed_pure {A} W (r : World → res string A) : framed W (λ w, (w, r w)).
Proof. intros w Hok. by apply keeps_refl. Qed.

Lemma framed_osCall W : framed W (osCall fe o).
Proof. apply framed_syscall; [by intros|apply framed_pure]. Qed.

Lemma framed_notExist W p : framed W (notExist fe o p).
Proof.
  intros w Hok. unfold notExist.
  assert (framed W (syscall fe o noEffect (λ w, (w, Ok (bool_decide (files w !! p = None)))))) as Hf.
  { apply framed_syscall; [by intros|apply framed_pure]. }
  specialize (Hf w Hok). destruct (syscall _ _ _ _ w) as [w' []]; exact Hf.
Qed.

Lemma framed_osOpen W p : framed W (osOpen fe o p).
Proof. apply framed_syscall; [by intros|]. intros w Hok. simpl. by case_match. Qed.

Lemma framed_osWriteFile (W : string → Prop) p c :
  (¬ inBackups p → W p) → framed W (osWriteFile fe o p c).
Proof.
  intros Hp. apply framed_syscall.
  - intros ft w Hok. unfold truncated. apply keeps_files; [done|]. intros q Hq HW.
    case_match; [|done]. rewrite lookup_insert_ne; [done|]. intros ->. by apply HW, Hp.
  - intros w Hok. apply keeps_files; [done|]. intros q Hq HW.
    rewrite lookup_insert_ne; [done|]. intros ->. by apply HW, Hp.
Qed.

Lemma framed_osRename (W : string → Prop) a b :
  (¬ inBackups a → W a) → (¬ inBackups b → W b) → framed W (osRename fe o a b).
Proof.
  intros Ha Hb. apply framed_syscall; [by intros|]. intros w Hok. simpl. case_match; [|done].
  apply keeps_files; [done|]. intros q Hq HW.
  rewrite lookup_insert_ne, lookup_delete_ne; [done|..]; intros ->; by auto.
Qed.

Lemma framed_osRemove (W : string → Prop) p : (¬ inBackups p → W p) → framed W (osRemove fe o p).
Proof.
  intros Hp. apply framed_syscall; [by intros|]. intros w Hok. simpl. case_match; [|done].
  apply keeps_files; [done|]. intros q Hq HW. rewrite lookup_delete_ne; [done|]. intros ->; by auto.
Qed.

Lemma framed_ReadFile W p : framed W (ReadFile decode fe o p).
Proof.
  apply framed_bind; [apply framed_notExist|]. intros [|]; [apply framed_throw|].
  apply framed_bind; [apply framed_wrap, framed_osOpen|]. intros data.
  do 3 (apply framed_bind; [apply framed_wrap, framed_osCall|]; intros _).
  apply framed_bind; [apply framed_wrap, framed_pure|]. intros c.
  destruct (Valid c); [apply framed_ret|apply framed_throw].
Qed.

Lemma backupPath_below p n : inBackups (backupPath fe p (stamp o n)).
Proof.
  unfold backupPath.
  destruct (Join2_base (backupDir fe) p ("." +:+ stamp o n +:+ ".backup")) as (y & -> & _);
    [done| | |apply below_child].
  - simpl. rewrite CountByte_app, Hstamp. done.
  - simpl. rewrite slength_app. simpl. lia.
Qed.

Lemma framed_createBackup W p : framed W (createBackup decode fe o p).
Proof.
  apply framed_bind; [apply framed_notExist|]. intros [|]; [apply framed_ret|].
  intros w. apply framed_bind; [apply framed_wrap, framed_ReadFile|]. intros c.
  apply framed_bind; [|intros _; apply framed_bind; [|intros _; apply framed_ret]].
  - apply framed_wrap, framed_osWriteFile. intros []. apply backupPath_below.
  - clear. intros w Hok. split; [|done]. apply Forall_app. split; [done|]. by repeat constructor.
Qed.

Lemma framed_validate W p c : framed W (validate fe p c).
Proof.
  unfold validate. destruct (validateFunc fe) as [f|]; [|apply framed_ret].
  destruct (f p c); [apply framed_throw|apply framed_ret].
Qed.

Lemma framed_renameOver (W : string → Prop) a b :
  (¬ inBackups a → W a) → (¬ inBackups b → W b) → framed W (renameOver fe o a b).
Proof.
  intros Ha Hb w Hok. unfold renameOver. destruct (osRename fe o a b w) as [w1 [[]|e]] eqn:Hr.
  - by eapply framed_run in Hr; [|apply framed_osRename|].
  - eapply framed_run in Hr; [|by apply framed_osRename|done]. simpl.
    eapply keeps_trans; [done|]. by apply framed_osRemove, Hr.
Qed.

(** The paths that writing a file touches outside the backup directory. *)
Definition touched (p q : string) : Prop := q = p ∨ q = p +:+ ".tmp".

Lemma framed_WriteFile p c : framed (touched p) (WriteFile decode fe o p c).
Proof.
  apply framed_bind; [apply framed_wrap, framed_createBackup|]. intros _.
  apply framed_bind; [apply framed_validate|]. intros _.
  apply framed_bind; [apply framed_wrap, framed_osCall|]. intros _.
  apply framed_bind; [apply framed_wrap, framed_osWriteFile; by right|]. intros _.
  apply framed_renameOver; [by right|by left].
Qed.

(** *** Writing is atomic *)

Lemma M_bind_inv {A B} (m : M A) (f : A → M B) w w' r :
  (m ≫= f) w = (w', r) →
  (∃ w1 a, m w = (w1, Ok a) ∧ f a w1 = (w', r)) ∨ (∃ e, m w = (w', Err e) ∧ r = Err e).
Proof. unfold mbind, M_bind. destruct (m w) as [w1 [a|e]]; naive_solver. Qed.

Lemma wrap_Ok {A} msg (m : M A) w w' a : wrap msg m w = (w', Ok a) → m w = (w', Ok a).
Proof. unfold wrap. destruct (m w) as [w1 [b|e]]; naive_solver. Qed.

Lemma syscall_Ok {A} g (body : M A) w w' a :
  syscall fe o g body w = (w', Ok a) → tasks_ok w →
  ∃ w0, keeps (λ _, False) w w0 ∧ body w0 = (w', Ok a).
Proof.
  intros Hs Hok. unfold syscall in Hs. exists (tick (runTasks fe o (calls w) w)).
  split; [by apply runTasks_keeps|]. by destruct (fault o (calls w)).
Qed.

(** A file outside the backup directory that was written is there. *)
Lemma osWriteFile_Ok p c w w' :
  osWriteFile fe o p c w = (w', Ok tt) → files w' !! p = Some c.
Proof.
  unfold osWriteFile, syscall. intros Hw. destruct (fault o (calls w)); [done|].
  injection Hw as <-. apply lookup_insert_eq.
Qed.

Lemma renameOver_spec a b w w' r :
  tasks_ok w → ¬ inBackups a → ¬ inBackups b → a ≠ b → renameOver fe o a b w = (w', r) →
  match r with
  | Ok _ => files w' !! b = files w !! a
  | Err _ => files w' !! b = files w !! b
  end.
Proof.
  intros Hok Ha Hb Hab Hr. unfold renameOver in Hr.
  destruct (osRename fe o a b w) as [w1 [[]|e]] eqn:Hw.
  - injection Hr as <- <-. apply syscall_Ok in Hw as (w0 & [_ Hk] & Hw); [|done].
    destruct (files w0 !! a) eqn:Hfa; [|done]. injection Hw as <-. simpl.
    by rewrite lookup_insert_eq, <-Hfa, Hk by auto.
  - injection Hr as <- <-. assert (keeps (λ _, False) w w1) as [Hok1 Hk1].
    { unfold osRename, syscall in Hw. pose proof (runTasks_keeps (λ _, False) (calls w) w Hok) as Hk.
      destruct (fault o (calls w)); [by injection Hw as <- _|]. simpl in Hw.
      by destruct (files (runTasks _ _ _ _) !! a); [|injection Hw as <- _]. }
    assert (framed (λ q, q = a) (osRemove fe o a)) as Hf by (by apply framed_osRemove).
    destruct (Hf w1 Hok1) as [_ Hk2]. by rewrite Hk2, Hk1 by auto.
Qed.

(** A first step that leaves a file alone: it succeeds, or all ends there. *)
Lemma bind_keeps {A B} W (m : M A) (f : A → M B) p w w' r :
  framed W m → ¬ inBackups p → ¬ W p → tasks_ok w → (m ≫= f) w = (w', r) →
  (∃ w1 a, m w = (w1, Ok a) ∧ tasks_ok w1 ∧ files w1 !! p = files w !! p ∧ f a w1 = (w', r)) ∨
  (is_ok r = false ∧ files w' !! p = files w !! p).
Proof.
  intros Hm Hp HW Hok Hw.
  apply M_bind_inv in Hw as [(w1 & a & H1 & Hw)|(e & H1 & ->)];
    pose proof (framed_run _ _ _ _ _ Hm Hok H1) as [Hok1 Hk]; [|right; split; [done|by apply Hk]].
  left. exists w1, a. split_and!; [done..|by apply Hk|done].
Qed.

(** Writing a file is atomic: whatever system calls fail and however the
    cleanup goroutines run in between, after [WriteFile] the file holds the new
    content if it reported success, and what it held before if it reported an
    error; of all other files outside the backup directory only the temporary
    file can have changed, and the goroutines still remove nothing but
    backups. *)
Theorem WriteFile_atomic p c w w' r :
  tasks_ok w → ¬ inBackups p → ¬ inBackups (p +:+ ".tmp") →
  WriteFile decode fe o p c w = (w', r) →
  tasks_ok w' ∧
  files w' !! p = (if is_ok r then Some c else files w !! p) ∧
  ∀ q, ¬ inBackups q → q ≠ p → q ≠ p +:+ ".tmp" → files w' !! q = files w !! q.
Proof.
  intros Hok Hp Ht Hw.
  assert (keeps (touched p) w w') as [Hok' Hk].
  { by eapply framed_run in Hw; [|apply framed_WriteFile|]. }
  split_and!; [done| |by intros q ? ? ?; apply Hk; [|intros [|]]]. clear Hok' Hk.
  assert (p ≠ p +:+ ".tmp") as Hne.
  { intros Heq%(f_equal String.length). rewrite slength_app in Heq. simpl in Heq. lia. }
  set (W := λ q, q = p +:+ ".tmp"). assert (¬ W p) as HWp by done. unfold WriteFile in Hw.
  eapply (bind_keeps W) in Hw as [(w1 & b & _ & Hok1 & <- & Hw)|[-> ->]];
    [| |by apply framed_wrap, framed_createBackup|done..]; [|done].
  eapply (bind_keeps W) in Hw as [(w2 & [] & _ & Hok2 & <- & Hw)|[-> ->]];
    [| |by apply framed_validate|done..]; [|done].
  eapply (bind_keeps W) in Hw as [(w3 & [] & _ & Hok3 & <- & Hw)|[-> ->]];
    [| |by apply framed_wrap, framed_osCall|done..]; [|done].
  eapply (bind_keeps W) in Hw as [(w4 & [] & H4 & Hok4 & <- & Hw)|[-> ->]];
    [| |by apply framed_wrap, framed_osWriteFile|done..]; [|done].
  apply wrap_Ok, osWriteFile_Ok in H4.
  apply renameOver_spec in Hw; [|done..]. destruct r; simpl; congruence.
Qed.

(** ** Room for backups *)

(** While the backups of no file are too many, and will not be for [k] more, the
    goroutines remove nothing. *)
Definition idle (t : Task) : Prop :=
  match t with RemoveBackups (_ :: _) => False | _ => True end.

Definition calm (k : nat) (w : World) : Prop :=
  Forall idle (tasks w) ∧ ∀ p, length (GetBackupHistory fe p w) + k ≤ maxBackups fe.

Lemma calm_le k k' w : calm k w → k' ≤ k → calm k' w.
Proof. intros [Hi Hr] Hk. split; [done|]. intros p. specialize (Hr p). lia. Qed.

Lemma calm_tasks_ok k w : calm k w → tasks_ok w.
Proof. intros [Hi _]. eapply Forall_impl; [done|]. intros [q|[|q ps]] Ht; by try constructor. Qed.

(** The files and the number of calls stay. *)
Definition unmoved (w w' : World) : Prop := files w' = files w ∧ calls w' = calls w.

Lemma taskStep_calm k n i w :
  calm k w → calm k (taskStep fe o n i w) ∧ unmoved w (taskStep fe o n i w).
Proof.
  intros [Hi Hr]. unfold taskStep. destruct (tasks w !! i) as [t|] eqn:Ht; [|done].
  pose proof (Forall_lookup_1 _ _ _ _ Hi Ht) as Hid. destruct t as [p|[|p ps]]; [..|done].
  - assert (oldBackups fe p w = []) as ->.
    { unfold oldBackups. specialize (Hr p). replace (_ - _) with 0 by lia. done. }
    split; [|done]. split; [by apply Forall_insert|done].
  - split; [|done]. split; [by apply Forall_delete|done].
Qed.

Lemma runTasks_calm k n w :
  calm k w → calm k (runTasks fe o n w) ∧ unmoved w (runTasks fe o n w).
Proof.
  unfold runTasks. revert w. induction (schedule o n) as [|i l IH]; intros w Hc; [done|]. simpl.
  destruct (taskStep_calm k n i w Hc) as [Hc1 [Hf1 Hn1]].
  destruct (IH _ Hc1) as [Hc2 [Hf2 Hn2]]. split; [done|]. split; congruence.
Qed.

Lemma calm_insert k p c w : calm (S k) w → calm k (setFiles (<[p:=c]>) w).
Proof.
  intros [Hi Hr]. split; [done|]. intros q. specialize (Hr q). unfold GetBackupHistory in *.
  pose proof (length_Glob_insert (getBackupPattern fe q) p c w). lia.
Qed.

Lemma calm_insert_outside k p c w : calm k w → ¬ inBackups p → calm k (setFiles (<[p:=c]>) w).
Proof.
  intros [Hi Hr] Hp. split; [done|]. intros q. specialize (Hr q). unfold GetBackupHistory in *.
  rewrite length_Glob in *. simpl. rewrite map_filter_insert_False, map_filter_delete, map_size_delete.
  - case_match; simpl; lia.
  - intros Hm. by eapply Hp, getBackupPattern_below.
Qed.

Lemma calm_delete k p w : calm k w → calm k (setFiles (delete p) w).
Proof.
  intros [Hi Hr]. split; [done|]. intros q. specialize (Hr q). unfold GetBackupHistory in *.
  pose proof (length_Glob_delete (getBackupPattern fe q) p w). lia.
Qed.

(** *** What an operation does then *)

(** A system call failed in between. *)
Definition faulted (w w' : World) : Prop :=
  ∃ n, calls w ≤ n < calls w' ∧ is_Some (fault o n).

(** With room for [k] backups at the start and [k'] at the end, from the files
    [mp], the operation succeeds as [Q] says, or fails as [E] says, and then
    because of a system call or because of [R]. *)
Definition spec {A} (k k' : nat) (mp : gmap string string) (m : M A)
    (Q : A → gmap string string → Prop) (E : gmap string string → Prop) (R : Prop) : Prop :=
  ∀ w w' r, calm k w → files w = mp → m w = (w', r) →
    calm k' w' ∧ calls w ≤ calls w' ∧
    match r with
    | Ok a => Q a (files w')
    | Err _ => E (files w') ∧ (faulted w w' ∨ R)
    end.

Lemma spec_ret {A} k mp (a : A) (Q : A → gmap string string → Prop) E R :
  Q a mp → spec k k mp (mret a) Q E R.
Proof. intros HQ w w' r Hc Hf [= <- <-]. split_and!; [done|done|by rewrite Hf]. Qed.

Lemma spec_mono {A} k k' mp (m : M A) (Q Q' : A → gmap string string → Prop) E E' (R R' : Prop) :
  spec k k' mp m Q E R → (∀ a mp', Q a mp' → Q' a mp') → (∀ mp', E mp' → E' mp') → (R → R') →
  spec k k' mp m Q' E' R'.
Proof.
  intros Hm HQ HE HR w w' r Hc Hf Hw. destruct (Hm _ _ _ Hc Hf Hw) as (Hc' & Hn & Hr).
  split_and!; [done..|]. destruct r; naive_solver.
Qed.

Lemma spec_bind {A B} k k1 k2 mp (m : M A) (f : A → M B) Q1 Q2 E R :
  spec k k1 mp m Q1 E R → (∀ a mp1, Q1 a mp1 → spec k1 k2 mp1 (f a) Q2 E R) → k2 ≤ k1 →
  spec k k2 mp (m ≫= f) Q2 E R.
Proof.
  intros Hm Hf Hk w w' r Hc Hw Hr. apply M_bind_inv in Hr as [(w1 & a & H1 & Hr)|(e & H1 & ->)].
  - destruct (Hm _ _ _ Hc Hw H1) as (Hc1 & Hn1 & HQ1).
    destruct (Hf _ _ HQ1 _ _ _ Hc1 eq_refl Hr) as (Hc2 & Hn2 & HQ2).
    split_and!; [done|lia|]. destruct r; [done|]. destruct HQ2 as [HE [(n & Hn & Hft)|HR]].
    + split; [done|left]. exists n. split; [lia|done].
    + split; [done|by right].
  - destruct (Hm _ _ _ Hc Hw H1) as (Hc1 & Hn1 & HQ1). split; [by eapply calm_le|]. by split.
Qed.

Lemma spec_wrap {A} k k' mp msg (m : M A) Q E R :
  spec k k' mp m Q E R → spec k k' mp (wrap msg m) Q E R.
Proof.
  intros Hm w w' r Hc Hf Hw. unfold wrap in Hw. destruct (m w) as [w1 r1] eqn:H1.
  specialize (Hm _ _ _ Hc Hf H1). destruct r1; injection Hw as <- <-; exact Hm.
Qed.

Lemma spec_syscall {A} k k' mp g (body : M A) Q (E : gmap string string → Prop) (R : Prop) :
  (∀ w, calm k w → files w = mp → calm k' (body w).1 ∧ calls (body w).1 = calls w ∧
     ∃ a, (body w).2 = Ok a ∧ Q a (files (body w).1)) →
  (∀ ft w, calm k w → files w = mp → calm k' (g ft w) ∧ calls (g ft w) = calls w ∧ E (files (g ft w))) →
  spec k k' mp (syscall fe o g body) Q E R.
Proof.
  intros Hb Hg w w' r Hc Hf Hw. unfold syscall in Hw.
  destruct (runTasks_calm k (calls w) w Hc) as [Hc1 [Hf1 Hn1]].
  assert (calm k (tick (runTasks fe o (calls w) w))) as Hc2 by apply Hc1.
  destruct (fault o (calls w)) as [ft|] eqn:Hft.
  - injection Hw as <- <-. destruct (Hg ft _ Hc2 ltac:(simpl; congruence)) as (? & Hn & ?).
    simpl in Hn. split_and!; [done|simpl; lia|done|left].
    exists (calls w). split; [simpl; lia|by eexists].
  - destruct (Hb _ Hc2 ltac:(simpl; congruence)) as (? & Hn & a & Ha & HQ). rewrite Hw in *.
    simpl in *. subst. split_and!; [done|lia|done].
Qed.

(** An operation that only reads. *)
Definition reads {A} (k : nat) (mp : gmap string string) (m : M A) (a : A) : Prop :=
  spec k k mp m (λ b mp', b = a ∧ mp' = mp) (λ mp', mp' = mp) False.

Lemma reads_bind {A B} k mp (m : M A) (f : A → M B) a b :
  reads k mp m a → reads k mp (f a) b → reads k mp (m ≫= f) b.
Proof. intros Hm Hf. eapply spec_bind; [done| |done]. by intros ? ? [-> ->]. Qed.

Lemma reads_pure {A} k mp (r : World → res string A) a :
  (∀ w, files w = mp → r w = Ok a) → reads k mp (λ w, (w, r w)) a.
Proof. intros Hr w w' x Hc Hf [= <- <-]. by rewrite Hr. Qed.

Lemma reads_syscall {A} k mp (body : World → res string A) a :
  (∀ w, files w = mp → body w = Ok a) →
  reads k mp (syscall fe o noEffect (λ w, (w, body w))) a.
Proof.
  intros Hb. apply spec_syscall; [|done]. intros w Hc Hf. split_and!; [done..|].
  exists a. split; [by apply Hb|done].
Qed.

Lemma reads_osCall k mp : reads k mp (osCall fe o) tt.
Proof. by apply (reads_syscall k mp (λ _, Ok tt)). Qed.

Lemma reads_notExist k mp p c : mp !! p = Some c → reads k mp (notExist fe o p) false.
Proof.
  intros Hp w w' r Hc Hf Hw. unfold notExist in Hw.
  destruct (syscall _ _ _ _ w) as [w1 r1] eqn:H1.
  eapply (reads_syscall k mp (λ w, Ok (bool_decide (files w !! p = None)))) in H1 as (? & ? & Hr);
    [|intros v Hv; rewrite Hv, Hp; done|done|done].
  injection Hw as <- <-. split_and!; [done..|]. destruct r1; naive_solver.
Qed.

(** A content that is read as it is. *)
Definition plain (c : string) : Prop :=
  Valid c = true ∧ detectEncoding (stake 1024 c) = None.

Lemma reads_ReadFile k mp p c :
  mp !! p = Some c → plain c → reads k mp (ReadFile decode fe o p) c.
Proof.
  intros Hp [Hv Hd]. eapply reads_bind; [by eapply reads_notExist|]. simpl.
  eapply reads_bind.
  { apply spec_wrap. unfold osOpen. intros w w' r Hc Hf Hw.
    eapply (reads_syscall k mp (λ w, match files w !! p with
       | Some content => Ok content | None => Err (noSuchFile "open" p) end) c); [|done|done|].
    - intros v Hfv. by rewrite Hfv, Hp.
    - rewrite <-Hw. unfold syscall. destruct (fault o (calls w)); [done|].
      by destruct (files _ !! p). }
  do 3 (eapply reads_bind; [apply spec_wrap, reads_osCall|]).
  eapply reads_bind; [apply spec_wrap, (reads_pure _ _ (λ _, match detectEncoding (stake 1024 c) with
    | Some encoding => decode encoding c | None => Ok c end) c); by rewrite Hd|].
  rewrite Hv. by apply spec_ret.
Qed.

(** *** Backups and writes *)

Definition isBackupOf (p b : string) : Prop := ∃ n, b = backupPath fe p (stamp o n).

Lemma isBackupOf_below p b : isBackupOf p b → inBackups b.
Proof. intros [n ->]. apply backupPath_below. Qed.

Definition same_but (P : string → Prop) (m m' : gmap string string) : Prop :=
  ∀ q, ¬ P q → m' !! q = m !! q.

Lemma spec_osWriteFile k k' mp p c R :
  (∀ w c', calm k w → calm k' (setFiles (<[p:=c']>) w)) → k' ≤ k →
  spec k k' mp (osWriteFile fe o p c) (λ _ mp', mp' = <[p:=c]> mp)
    (same_but (λ q, q = p) mp) R.
Proof.
  intros Hins Hk. apply spec_syscall.
  - intros w Hc Hf. split_and!; [by apply Hins|done|]. exists tt. simpl. by rewrite Hf.
  - intros ft w Hc Hf. unfold truncated. destruct (faultWritten ft) as [n|].
    + split_and!; [by apply (Hins w (stake n c))|done|]. intros q Hq. simpl.
      by rewrite lookup_insert_ne, Hf.
    + split_and!; [by eapply calm_le|done|]. intros q _. simpl. by rewrite Hf.
Qed.

Lemma createBackup_spec k mp p c :
  mp !! p = Some c → plain c →
  spec (S k) k mp (createBackup decode fe o p)
    (λ b mp', isBackupOf p b ∧ mp' = <[b:=c]> mp) (same_but (isBackupOf p) mp) False.
Proof.
  intros Hp Hpl.
  assert (∀ n, spec (S k) k mp (writeBackup decode fe o p (stamp o n))
    (λ b mp', isBackupOf p b ∧ mp' = <[b:=c]> mp) (same_but (isBackupOf p) mp) False) as Hwb.
  { intros n. set (b := backupPath fe p (stamp o n)).
    assert (isBackupOf p b) as Hb by by exists n.
    eapply (spec_bind _ (S k)); [| |lia].
    { eapply spec_mono; [apply spec_wrap, reads_ReadFile; done|by intros ? ? H; exact H|
        by intros ? ->|done]. }
    intros ? ? [-> ->]. eapply (spec_bind _ k); [| |done].
    { eapply spec_mono; [apply spec_wrap, (spec_osWriteFile (S k) k); [|lia]|
        by intros ? ? H; exact H| |done].
      - intros w c' Hc. by apply calm_insert.
      - intros mp' Hs q Hq. apply Hs. by intros ->. }
    intros [] ? ->. eapply (spec_bind _ k _ _ _ _ (λ _ mp', mp' = <[b:=c]> mp)); [| |done].
    - intros w w' r [Hi Hr] Hf [= <- <-]. split_and!; [|done|done].
      split; [|done]. apply Forall_app. split; [done|by repeat constructor].
    - intros [] ? ->. by apply spec_ret. }
  eapply (spec_bind _ (S k)); [| |lia].
  { eapply spec_mono; [by eapply reads_notExist|by intros ? ? H; exact H|by intros ? ->|done]. }
  intros ? ? [-> ->]. simpl. intros w w' r Hc Hf Hw. by eapply Hwb.
Qed.

Definition accepts (p c : string) : Prop := ∀ f, validateFunc fe = Some f → f p c = None.

Lemma spec_validate k mp p c E :
  E mp → spec k k mp (validate fe p c) (λ _ mp', mp' = mp) E (¬ accepts p c).
Proof.
  intros HE w w' r Hc Hf Hw. unfold validate in Hw.
  destruct (validateFunc fe) as [f|] eqn:Hv; [|by injection Hw as <- <-].
  destruct (f p c) as [e|] eqn:He; injection Hw as <- <-; [|done].
  split_and!; [done|done|by rewrite Hf|right]. intros Ha. by rewrite (Ha f) in He.
Qed.

(** A path that the editor may be asked to write. *)
Definition outside (p : string) : Prop := ¬ inBackups p ∧ ¬ inBackups (p +:+ ".tmp").

Lemma tmp_ne p : p ≠ p +:+ ".tmp".
Proof. clear. intros Heq%(f_equal String.length). rewrite slength_app in Heq. simpl in Heq. lia. Qed.

Lemma spec_renameOver k mp p c :
  mp !! (p +:+ ".tmp") = Some c → ¬ inBackups p →
  spec k k mp (renameOver fe o (p +:+ ".tmp") p)
    (λ _ mp', mp' !! p = Some c ∧ same_but (touched p) mp mp')
    (same_but (λ q, q = p +:+ ".tmp") mp) False.
Proof.
  intros Ht Hp w w' r Hc Hf Hw. unfold renameOver in Hw.
  destruct (osRename fe o (p +:+ ".tmp") p w) as [w1 r1] eqn:H1.
  assert (spec k k mp (osRename fe o (p +:+ ".tmp") p)
    (λ _ mp', mp' !! p = Some c ∧ same_but (touched p) mp mp') (λ mp', mp' = mp) False) as Hspec.
  { apply spec_syscall; [|done]. clear -Ht Hp Hdir Hstar. intros w Hc Hf. rewrite Hf, Ht. simpl. split_and!.
    - change (calm k (setFiles (<[p:=c]>) (setFiles (delete (p +:+ ".tmp")) w))).
      apply calm_insert_outside; [by apply calm_delete|done].
    - done.
    - exists tt. split; [done|]. rewrite lookup_insert_eq. split; [done|]. intros q Hq.
      rewrite lookup_insert_ne by (intros <-; apply Hq; by left).
      rewrite lookup_delete_ne by (intros <-; apply Hq; by right). by rewrite Hf. }
  destruct (Hspec _ _ _ Hc Hf H1) as (Hc1 & Hn1 & Hr1).
  destruct r1 as [[]|e]; injection Hw as <- <-; [done|]. destruct Hr1 as [Hf1 Hft].
  destruct (osRemove fe o (p +:+ ".tmp") w1) as [w2 r2] eqn:H2. simpl.
  assert (spec k k mp (osRemove fe o (p +:+ ".tmp")) (λ _ mp', mp' = delete (p +:+ ".tmp") mp)
    (λ mp', mp' = mp) False) as Hrem.
  { apply spec_syscall; [|done]. clear -Ht Hdir Hstar. intros w Hc Hf. rewrite Hf, Ht. simpl.
    split_and!; [by apply calm_delete|done|]. exists tt. by rewrite Hf. }
  destruct (Hrem _ _ _ Hc1 Hf1 H2) as (Hc2 & Hn2 & Hr2). split_and!; [done|lia| |].
  - intros q Hq. destruct r2; [rewrite Hr2; by rewrite lookup_delete_ne by congruence|].
    destruct Hr2 as [-> _]. done.
  - destruct Hft as [(n & Hn & Hft)|[]]. left. exists n. split; [lia|done].
Qed.

Lemma same_but_mono (P P' : string → Prop) m m' :
  same_but P m m' → (∀ q, P q → P' q) → same_but P' m m'.
Proof. intros Hs HP q Hq. apply Hs. auto. Qed.

Lemma same_but_trans P m1 m2 m3 : same_but P m1 m2 → same_but P m2 m3 → same_but P m1 m3.
Proof. intros H1 H2 q Hq. by rewrite H2, H1. Qed.

Lemma same_but_insert (P : string → Prop) p c m : P p → same_but P m (<[p:=c]> m).
Proof. intros Hp q Hq. rewrite lookup_insert_ne; [done|]. by intros <-. Qed.

(** What is left untouched by a write that fails. *)
Definition spoilt (p q : string) : Prop := q = p +:+ ".tmp" ∨ isBackupOf p q.

Definition write_failed (mp : gmap string string) (p c : string) (mp' : gmap string string) : Prop :=
  mp' !! p = Some c ∧ same_but (spoilt p) mp mp'.

Definition write_done (mp : gmap string string) (p c c' : string) (mp' : gmap string string) : Prop :=
  mp' !! p = Some c' ∧
  ∃ b, isBackupOf p b ∧ mp' !! b = Some c ∧ same_but (λ q, touched p q ∨ q = b) mp mp'.

Lemma spoilt_not p : outside p → ¬ spoilt p p.
Proof.
  intros [Hp _] [Heq|Hb%isBackupOf_below]; [|done]. by apply tmp_ne in Heq.
Qed.

Lemma write_failed_intro mp p c mp' :
  mp !! p = Some c → outside p → same_but (spoilt p) mp mp' → write_failed mp p c mp'.
Proof. intros Hp Ho Hs. split; [|done]. rewrite Hs; [done|]. by apply spoilt_not. Qed.

Lemma WriteFile_spec k mp p c c' :
  mp !! p = Some c → plain c → outside p →
  spec (S k) k mp (WriteFile decode fe o p c')
    (λ _, write_done mp p c c') (write_failed mp p c) (¬ accepts p c').
Proof.
  intros Hp Hpl Ho.
  assert (∀ mp', same_but (spoilt p) mp mp' → write_failed mp p c mp') as Hfail
    by (intros; by apply write_failed_intro).
  eapply (spec_bind _ k _ _ _ _ (λ b mp1, isBackupOf p b ∧ mp1 = <[b:=c]> mp)); [| |done].
  { eapply spec_mono; [by apply spec_wrap, createBackup_spec|done| |done].
    intros mp' Hs. apply Hfail. eapply same_but_mono; [done|]. by right. }
  intros b ? [Hb ->].
  assert (same_but (spoilt p) mp (<[b:=c]> mp)) as Hsb by (apply same_but_insert; by right).
  eapply (spec_bind _ k _ _ _ _ (λ _ mp1, mp1 = <[b:=c]> mp)); [| |done].
  { apply spec_validate. by apply Hfail. }
  intros [] ? ->. eapply (spec_bind _ k _ _ _ _ (λ _ mp1, mp1 = <[b:=c]> mp)); [| |done].
  { eapply spec_mono; [apply spec_wrap, reads_osCall|by intros ? ? [_ ->]|intros ? ->; by apply Hfail|done]. }
  intros [] ? ->.
  eapply (spec_bind _ k _ _ _ _ (λ _ mp1, mp1 = <[p +:+ ".tmp":=c']> (<[b:=c]> mp))); [| |done].
  { eapply spec_mono; [apply spec_wrap, (spec_osWriteFile k k)|done| |done]; [|done|].
    - intros w x Hc. apply calm_insert_outside; [done|apply Ho].
    - intros mp' Hs. apply Hfail. eapply same_but_trans; [done|].
      eapply same_but_mono; [done|]. by left. }
  intros [] ? ->. eapply spec_mono; [apply spec_renameOver| | |done].
  - apply lookup_insert_eq.
  - apply Ho.
  - intros [] mp' [Hp' Hs]. split; [done|]. exists b. pose proof (isBackupOf_below _ _ Hb) as Hbb.
    assert (b ≠ p) by (intros ->; by destruct Ho).
    assert (b ≠ p +:+ ".tmp") by (intros ->; by destruct Ho). split_and!; [done| |].
    + rewrite Hs by (intros [|]; congruence). rewrite lookup_insert_ne by done. apply lookup_insert_eq.
    + eapply same_but_trans; [|by eapply same_but_mono; [done|left]].
      apply (same_but_trans _ _ (<[b:=c]> mp)); apply same_but_insert; [by right|by left; right].
  - intros mp' Hs. apply Hfail. eapply same_but_trans; [done|]. eapply same_but_trans.
    + apply same_but_insert. by left.
    + eapply same_but_mono; [done|]. by left.
Qed.

Lemma backupPath_nonempty p n : backupPath fe p (stamp o n) ≠ "".
Proof.
  unfold backupPath. destruct (Join2_base (backupDir fe) p ("." +:+ stamp o n +:+ ".backup"))
    as (y & -> & _); [done|by simpl; rewrite CountByte_app, Hstamp|simpl; rewrite slength_app; simpl; lia|].
  by destruct (backupDir fe).
Qed.

Lemma isBackupOf_nonempty p b : isBackupOf p b → b ≠ "".
Proof. intros [n ->]. apply backupPath_nonempty. Qed.

Lemma RollbackEdit_spec k mp e c c' :
  Applied e = true → isBackupOf (FilePath e) (Backup e) →
  mp !! Backup e = Some c → plain c →
  mp !! FilePath e = Some c' → plain c' → outside (FilePath e) →
  spec (S k) k mp (RollbackEdit decode fe o e)
    (λ _, write_done mp (FilePath e) c' c) (write_failed mp (FilePath e) c')
    (¬ accepts (FilePath e) c).
Proof.
  intros Ha Hb Hbc Hc Hpc Hc' Ho. unfold RollbackEdit. rewrite Ha. simpl.
  rewrite decide_False by (by eapply isBackupOf_nonempty).
  eapply (spec_bind _ (S k) _ _ _ _ (λ b mp1, b = c ∧ mp1 = mp)); [| |lia].
  - eapply spec_mono; [by apply spec_wrap, reads_ReadFile|done| |done]. intros ? ->. by split.
  - intros ? ? [-> ->]. by apply spec_wrap, WriteFile_spec.
Qed.

(** What a write to a file can change. *)
Definition disturbed (p q : string) : Prop := touched p q ∨ isBackupOf p q.

Lemma write_done_disturbed mp p c c' mp' :
  write_done mp p c c' mp' → same_but (disturbed p) mp mp'.
Proof.
  intros (_ & b & Hb & _ & Hs). eapply same_but_mono; [done|]. intros q [Ht| ->]; [by left|by right].
Qed.

Lemma write_failed_disturbed mp p c mp' : write_failed mp p c mp' → same_but (disturbed p) mp mp'.
Proof.
  intros [_ Hs]. eapply same_but_mono; [done|]. intros q [Ht|Hb]; [by left; right|by right].
Qed.

Lemma disturbed_below p q : disturbed p q → touched p q ∨ inBackups q.
Proof. intros [?|?%isBackupOf_below]; auto. Qed.

(** *** Diffs and their rollback *)

Lemma spec_run {A} k k' mp (m : M A) Q E R w w' r :
  spec k k' mp m Q E R → calm k w → files w = mp → m w = (w', r) →
  calm k' w' ∧ match r with
               | Ok a => Q a (files w')
               | Err _ => E (files w') ∧ (faulted w w' ∨ R)
               end.
Proof. intros Hm Hc Hf Hw. by destruct (Hm _ _ _ Hc Hf Hw) as (? & ? & ?). Qed.

(** Without failing calls from some moment on, and no other reason, it succeeds. *)
Lemma spec_succeeds {A} k k' mp (m : M A) Q E (R : Prop) w w' r :
  spec k k' mp m Q E R → calm k w → files w = mp → m w = (w', r) →
  (∀ n, calls w ≤ n → fault o n = None) → ¬ R →
  calm k' w' ∧ calls w ≤ calls w' ∧ ∃ a, r = Ok a ∧ Q a (files w').
Proof.
  intros Hm Hc Hf Hw Hn HR. destruct (Hm _ _ _ Hc Hf Hw) as (? & ? & Hr).
  split_and!; [done..|]. destruct r as [a|e]; [by exists a|].
  destruct Hr as [_ [(n & Hle & Hs)|?]]; [|done]. rewrite Hn in Hs by lia. by destruct Hs.
Qed.

Lemma ApplyDiff_Ok p d c w w1 edit :
  calm 3 w → outside p → files w !! p = Some c → plain c →
  ApplyDiff decode fe o p d w = (w1, Some (Ok edit)) →
  calm 1 w1 ∧
  EditDiff.ApplyDiff (ParseDiff (NewDiffProcessor c) d true).1 = Some (Ok (NewContent edit)) ∧
  FilePath edit = p ∧ OldContent edit = c ∧ Applied edit = true ∧ isBackupOf p (Backup edit) ∧
  files w1 !! Backup edit = Some c ∧ files w1 !! p = Some (NewContent edit) ∧
  same_but (disturbed p) (files w) (files w1).
Proof.
  intros Hc Ho Hp Hpl Hd. unfold ApplyDiff in Hd.
  destruct (ReadFile decode fe o p w) as [w0 r0] eqn:H0.
  eapply spec_run in H0 as [Hc0 H0]; [|by apply reads_ReadFile|done..].
  destruct r0 as [c0|]; [|done]. destruct H0 as [-> Hf0].
  destruct (ParseDiff _ _ _) as [dp [|]]; [done|]. simpl.
  destruct (EditDiff.ApplyDiff dp) as [[new|]|]; [|done..]. unfold writeEdit in Hd.
  destruct (createBackup decode fe o p w0) as [w2 r2] eqn:H2.
  eapply spec_run in H2 as [Hc2 H2]; [|by apply (createBackup_spec 2)|done..].
  destruct r2 as [b|]; [|done]. destruct H2 as [Hb Hf2].
  assert (b ≠ p) as Hbp by (intros ->; apply isBackupOf_below in Hb; by destruct Ho).
  assert (files w2 !! p = Some c) as Hp2 by (by rewrite Hf2, lookup_insert_ne).
  destruct (WriteFile decode fe o p new w2) as [w3 r3] eqn:H3.
  eapply spec_run in H3 as [Hc3 H3]; [|by apply (WriteFile_spec 1)|done..].
  destruct r3 as [[]|]; [|done]. injection Hd as <- <-. simpl.
  destruct H3 as (Hnew & b' & Hb' & Hfb' & Hs3). split_and!; [done..| |done|].
  - destruct (decide (b = b')) as [->|Hne]; [done|]. rewrite Hs3, Hf2; [apply lookup_insert_eq|].
    intros [[->| ->]| ->]; [done| |done]. apply isBackupOf_below in Hb. by destruct Ho.
  - eapply same_but_trans; [|eapply (same_but_mono _ _ (files w2)); [done|]].
    + rewrite Hf2. apply same_but_insert. by right.
    + intros q [?| ->]; [by left|by right].
Qed.

(** A diff that was applied can be taken back: the edit that [ApplyDiff]
    returns holds the file's old content and the new one that the diff gives,
    which the file now has; and from then on, if no system call fails and the
    validator accepts the old content, [RollbackEdit] succeeds and the file has
    its old content again, nothing else outside the backup directory being
    changed but the temporary file.  It needs room for the three backups that
    are made on the way, and contents that are plain UTF-8 up to byte 1024 too. *)
Theorem ApplyDiff_RollbackEdit p d c w w1 edit w2 r :
  calm 3 w → outside p → files w !! p = Some c → plain c →
  ApplyDiff decode fe o p d w = (w1, Some (Ok edit)) →
  plain (NewContent edit) → accepts p c → (∀ n, calls w1 ≤ n → fault o n = None) →
  RollbackEdit decode fe o edit w1 = (w2, r) →
  EditDiff.ApplyDiff (ParseDiff (NewDiffProcessor c) d true).1 = Some (Ok (NewContent edit)) ∧
  OldContent edit = c ∧ files w1 !! p = Some (NewContent edit) ∧
  r = Ok tt ∧ files w2 !! p = Some c ∧
  ∀ q, ¬ inBackups q → q ≠ p → q ≠ p +:+ ".tmp" → files w2 !! q = files w !! q.
Proof.
  intros Hc Ho Hp Hpl Hd Hpn Ha Hn Hr.
  destruct (ApplyDiff_Ok p d c w w1 edit) as (Hc1 & Hdiff & Hfp & Hold & Happ & Hb & Hfb & Hnew & Hs);
    [done..|]. rewrite <-Hfp in *.
  eapply spec_succeeds in Hr as (_ & _ & [] & -> & Hw); [|by eapply (RollbackEdit_spec 0)|done..|by auto].
  split_and!; [done..|by apply Hw|]. intros q Hq Hqp Hqt.
  apply write_done_disturbed in Hw. rewrite Hw, Hs; [done|..]; intros Hx;
    by apply disturbed_below in Hx as [[|]|].
Qed.

(** ** Groups of edits *)

Context (Hlen : ∀ n, String.length (stamp o n) = 15).

Lemma slength_cancel_r s t s' t' : s +:+ t = s' +:+ t' → String.length t = String.length t' → s = s'.
Proof.
  clear. revert s'. induction s as [|a s IH]; intros [|a' s'] Heq Hl; simpl in *; [done|..].
  - exfalso. subst t. simpl in Hl. rewrite slength_app in Hl. lia.
  - exfalso. subst t'. simpl in Hl. rewrite slength_app in Hl. lia.
  - injection Heq as -> Heq. f_equal. by eapply IH.
Qed.

Lemma Base_nonempty p : Base p ≠ "".
Proof.
  clear. unfold Base. destruct (last _) as [e|] eqn:Hl.
  - by apply last_Some_elem_of, list_elem_of_filter in Hl as [? _].
  - by case_decide.
Qed.

(** A backup tells the base name of its file, since all time stamps have one
    length. *)
Lemma isBackupOf_Base p q b : isBackupOf p b → isBackupOf q b → Base p = Base q.
Proof.
  intros [n Hn] [m Hm]. rewrite Hn in Hm. clear Hn. unfold backupPath in Hm.
  destruct (Join2_base (backupDir fe) p ("." +:+ stamp o n +:+ ".backup")) as (y & Hy & Hyb);
    [done|by simpl; rewrite CountByte_app, Hstamp|simpl; rewrite slength_app; simpl; lia|].
  destruct (Join2_base (backupDir fe) q ("." +:+ stamp o m +:+ ".backup")) as (z & Hz & Hzb);
    [done|by simpl; rewrite CountByte_app, Hstamp|simpl; rewrite slength_app; simpl; lia|].
  rewrite Hy, Hz in Hm. apply sapp_cancel_l, sapp_cancel_l in Hm.
  apply slength_cancel_r in Hm; [|simpl; by rewrite !slength_app, !Hlen]. subst z.
  pose proof (Base_nonempty p). pose proof (Base_nonempty q).
  repeat case_decide; congruence.
Qed.

(** Paths that do not get into each other's way: different base names, and none
    is another's temporary file. *)
Definition apart (ps : list string) : Prop :=
  NoDup (Base <$> ps) ∧ ∀ p q, p ∈ ps → q ∈ ps → p ≠ q +:+ ".tmp".

Definition distant (p q : string) : Prop :=
  Base p ≠ Base q ∧ p ≠ q +:+ ".tmp" ∧ q ≠ p +:+ ".tmp".

Lemma apart_cons p ps : apart (p :: ps) → apart ps ∧ ∀ q, q ∈ ps → distant p q.
Proof.
  intros [[Hp Hnd]%NoDup_cons Ht]. split.
  - split; [done|]. intros. apply Ht; by right.
  - intros q Hq. split_and!; [|apply Ht; [by left|by right]|apply Ht; [by right|by left]].
    intros Heq. apply Hp. rewrite Heq. by apply list_elem_of_fmap_2.
Qed.

Lemma apart_app ps p qs :
  apart (ps ++ p :: qs) → apart ps ∧ (∀ q, q ∈ ps → distant p q) ∧ (∀ q, q ∈ qs → distant p q).
Proof.
  clear. intros [Hnd Ht]. rewrite fmap_app, fmap_cons in Hnd.
  apply NoDup_app in Hnd as (Hps & Hd & [Hp Hqs]%NoDup_cons). split_and!.
  - split; [done|]. intros x y Hx Hy. apply Ht; apply elem_of_app; by left.
  - intros q Hq. split_and!; [|apply Ht; set_solver|apply Ht; set_solver].
    intros Heq. apply (Hd (Base q)); [by apply list_elem_of_fmap_2|]. rewrite <-Heq. by left.
  - intros q Hq. split_and!; [|apply Ht; set_solver|apply Ht; set_solver].
    intros Heq. apply Hp. rewrite Heq. by apply list_elem_of_fmap_2.
Qed.

Lemma distant_undisturbed p q : distant p q → outside q → ¬ disturbed p q.
Proof.
  intros (Hb & Ht & Ht') [Ho _] [[->| ->]|?]%disturbed_below; by auto.
Qed.

(** Reasoning about a group relies on the contents [cs] that the files had, and
    on backups [bs] with these contents. *)
Section group.
Context (cs : string → string).

Definition fits (e : FileEdit) : Prop :=
  outside (FilePath e) ∧ plain (cs (FilePath e)) ∧ plain (NewContent e) ∧
  accepts (FilePath e) (cs (FilePath e)).

Definition kept (bs : gmap string string) (mp : gmap string string) (p : string) : Prop :=
  ∃ b, bs !! p = Some b ∧ isBackupOf p b ∧ mp !! b = Some (cs p).

Lemma kept_distant bs mp mp' p q :
  kept bs mp q → same_but (disturbed p) mp mp' → distant p q → outside p → kept bs mp' q.
Proof.
  intros (b & Hbs & Hb & Hm) Hs (Hbase & _) [Ho Hot]. exists b. split_and!; [done..|].
  rewrite Hs; [done|]. pose proof (isBackupOf_below _ _ Hb) as Hbb.
  intros [[->| ->]|Hp]; [done..|]. apply Hbase. by eapply isBackupOf_Base.
Qed.

Definition disturbed_by (es : list FileEdit) (q : string) : Prop :=
  ∃ e, e ∈ es ∧ disturbed (FilePath e) q.

Lemma disturbed_outside es q :
  disturbed_by es q → outside q → ∃ e, e ∈ es ∧ touched (FilePath e) q.
Proof. intros (e & He & [?|?]%disturbed_below) [? _]; [by exists e|done]. Qed.

(** Every edit's file holds its old content and gets a backup with it, or
    something failed and the backups made belong to the files. *)
Lemma backupAll_spec k es bs w w' bs' err :
  apart (FilePath <$> es) → Forall fits es →
  (∀ e, e ∈ es → files w !! FilePath e = Some (cs (FilePath e))) →
  calm (length es + k) w → backupAll decode fe o es bs w = (w', bs', err) →
  calm k w' ∧ same_but (λ q, ∃ e, e ∈ es ∧ isBackupOf (FilePath e) q) (files w) (files w') ∧
  (∀ p, p ∉ FilePath <$> es → bs' !! p = bs !! p) ∧
  (∀ p b, bs' !! p = Some b → bs !! p = Some b ∨ isBackupOf p b) ∧
  (err = None → ∀ e, e ∈ es → kept bs' (files w') (FilePath e)) ∧
  (err ≠ None → ∃ n, is_Some (fault o n)).
Proof.
  revert bs w. induction es as [|e es IH]; intros bs w Hap Hfit Hcs Hc Hw.
  { injection Hw as <- <- <-. split_and!; [done|done|done|by left|by intros ? ? ?%elem_of_nil|done]. }
  rewrite fmap_cons in Hap. apply apart_cons in Hap as [Hap Hdist].
  apply Forall_cons in Hfit as [(Ho & Hpl & _) Hfit]. simpl in Hw.
  destruct (createBackup decode fe o (FilePath e) w) as [w1 r1] eqn:H1.
  eapply spec_run in H1 as [Hc1 H1];
    [|apply (createBackup_spec (length es + k)); [apply Hcs; by left|done]|done..].
  destruct r1 as [b|x].
  2:{ injection Hw as <- <- <-. destruct H1 as [Hs Hcause].
      split_and!; [eapply calm_le; [exact Hc1|lia]| |done|by left|done|].
      2:{ intros _. destruct Hcause as [(n & _ & Hn)|[]]. by exists n. }
      eapply same_but_mono; [done|]. intros q Hq. exists e. split; [by left|done]. }
  destruct H1 as [Hb Hf1].
  assert (∀ q, outside q → files w1 !! q = files w !! q) as Hout.
  { intros q [Hq _]. rewrite Hf1, lookup_insert_ne; [done|]. intros ->. by eapply Hq, isBackupOf_below. }
  apply IH in Hw as (Hc' & Hs & Hbs & Hbb & Hk & Herr); [|done..| |done].
  2:{ intros e' He'. rewrite Hout; [by apply Hcs; right|].
      by apply (proj1 (Forall_forall _ _) Hfit) in He' as [? _]. }
  split_and!; [done|..].
  - eapply same_but_trans; [|eapply same_but_mono; [exact Hs|]].
    + rewrite Hf1. apply same_but_insert. exists e. split; [by left|done].
    + intros q (e' & He' & Hq). exists e'. split; [by right|done].
  - intros p Hp. rewrite fmap_cons, not_elem_of_cons in Hp. destruct Hp as [Hne Hp].
    rewrite Hbs, lookup_insert_ne; congruence.
  - intros p b' [Hp|?]%Hbb; [|by right].
    apply lookup_insert_Some in Hp as [[<- <-]|[_ ?]]; [by right|by left].
  - intros Hnone e' [->|He']%elem_of_cons; [|by apply Hk]. exists b. split_and!; [|done|].
    + rewrite Hbs; [apply lookup_insert_eq|]. intros Hin. by destruct (Hdist _ Hin).
    + rewrite Hs, Hf1; [apply lookup_insert_eq|]. intros (e' & He' & Hb').
      destruct (Hdist (FilePath e')) as [Hbase _]; [by apply list_elem_of_fmap_2|].
      apply Hbase. by eapply isBackupOf_Base.
  - done.
Qed.

(** An edit that was applied after its file had been backed up. *)
Definition applied_edit (bs : gmap string string) (e : FileEdit) : Prop :=
  Applied e = true ∧ Backup e = default "" (bs !! FilePath e) ∧ fits e.

(** Without failing calls the edits are all taken back. *)
Lemma rollbackEach_spec k bs es w w' r :
  apart (FilePath <$> es) → Forall (applied_edit bs) es →
  (∀ e, e ∈ es → kept bs (files w) (FilePath e) ∧ files w !! FilePath e = Some (NewContent e)) →
  (∀ n, calls w ≤ n → fault o n = None) → calm (length es + k) w →
  rollbackEach decode fe o es w = (w', r) →
  calm k w' ∧ same_but (disturbed_by es) (files w) (files w') ∧
  ∀ e, e ∈ es → files w' !! FilePath e = Some (cs (FilePath e)).
Proof.
  revert w. induction es as [|e es IH]; intros w Hap Hall Hst Hn Hc Hw.
  { injection Hw as <- _. split_and!; [done|done|by intros ? ?%elem_of_nil]. }
  rewrite fmap_cons in Hap. apply apart_cons in Hap as [Hap Hdist].
  apply Forall_cons in Hall as [(Ha & Hbe & Ho & Hpl & Hpn & Hacc) Hall].
  destruct (Hst e) as [(b & Hbs & Hb & Hfb) Hnew]; [by left|]. rewrite Hbs in Hbe. simpl in Hbe.
  simpl in Hw. apply M_bind_inv in Hw as [(w1 & [] & H1 & Hw)|(x & H1 & _)]; [|done].
  unfold bestEffort in H1. destruct (RollbackEdit decode fe o e w) as [w0 r0] eqn:H0.
  injection H1 as <-. eapply spec_succeeds in H0 as (Hc1 & Hle & [] & _ & Hd);
    [|eapply (RollbackEdit_spec (length es + k)); rewrite ?Hbe; done|done..|by intros []].
  pose proof (write_done_disturbed _ _ _ _ _ Hd) as Hs1.
  apply IH in Hw as (Hc' & Hs & Hcs); [|done|done| |by intros n ?; apply Hn; lia|done].
  - split_and!; [done| |].
    + eapply same_but_trans; (eapply same_but_mono; [done|]).
      * intros q Hq. exists e. split; [by left|done].
      * intros q (e' & He' & Hq). exists e'. split; [by right|done].
    + intros e' [->|He']%elem_of_cons; [|by apply Hcs]. rewrite Hs; [apply Hd|].
      intros (e' & He' & Hq). revert Hq. apply distant_undisturbed; [|done].
      destruct (Hdist (FilePath e')) as (? & ? & ?); [by apply list_elem_of_fmap_2|]. by split_and!.
  - intros e' He'. pose proof (Hdist (FilePath e') (list_elem_of_fmap_2 _ _ _ He')) as Hde.
    destruct (Hst e') as [Hk Hnew']; [by right|].
    apply (proj1 (Forall_forall _ _) Hall) in He' as (_ & _ & Ho' & _). split.
    + by eapply kept_distant.
    + rewrite Hs1; [done|]. by apply distant_undisturbed.
Qed.

(** The only reason to fail: one system call, or the validator. *)
Definition one_cause (es : list FileEdit) : Prop :=
  (∀ n, fault o n = None) ∨
  (∀ e, e ∈ es → accepts (FilePath e) (NewContent e)) ∧
  ∀ n m, is_Some (fault o n) → is_Some (fault o m) → n = m.

Lemma one_cause_after es e w w1 :
  one_cause es → e ∈ es → faulted w w1 ∨ ¬ accepts (FilePath e) (NewContent e) →
  ∀ n, calls w1 ≤ n → fault o n = None.
Proof.
  intros [Hn|[Ha Hone]] He Hc n Hle; [by apply Hn|]. destruct Hc as [(m & Hm & Hs)|[]]; [|by apply Ha].
  apply eq_None_not_Some. intros Hsn. specialize (Hone _ _ Hs Hsn). lia.
Qed.

Lemma apart_reverse ps : apart ps → apart (reverse ps).
Proof.
  clear. intros [Hnd Ht]. split; [by rewrite fmap_reverse, reverse_Permutation|].
  intros p q Hp Hq. apply Ht; by apply elem_of_reverse.
Qed.

Lemma distant_sym p q : distant p q → distant q p.
Proof. intros (? & ? & ?). by split_and!. Qed.

(** The state of a file, and its backup, after a write to one apart from it. *)
Lemma after_distant bs mp mp' p q x :
  same_but (disturbed p) mp mp' → distant p q → outside p → outside q →
  kept bs mp q ∧ mp !! q = x → kept bs mp' q ∧ mp' !! q = x.
Proof.
  intros Hs Hd Ho Hq [Hk <-]. split; [by eapply kept_distant|]. by apply Hs, distant_undisturbed.
Qed.

Definition holds (bs mp : gmap string string) (f : FileEdit → string) (e : FileEdit) : Prop :=
  kept bs mp (FilePath e) ∧ mp !! FilePath e = Some (f e).

Lemma after_distant_all bs mp mp' e f (es : list FileEdit) :
  same_but (disturbed (FilePath e)) mp mp' →
  (∀ q, q ∈ FilePath <$> es → distant (FilePath e) q) → outside (FilePath e) →
  (∀ e', e' ∈ es → fits e') →
  (∀ e', e' ∈ es → holds bs mp f e') → ∀ e', e' ∈ es → holds bs mp' f e'.
Proof.
  intros Hs Hd Ho Hf Hh e' He'. eapply after_distant; [done| |done|by apply Hf|by apply Hh].
  by apply Hd, list_elem_of_fmap_2.
Qed.

(** Taking back the edits applied when one could not be: all files have their
    old contents. *)
Lemma undone_spec k bs applied e rest w w' r :
  apart (FilePath <$> (applied ++ e :: rest)) → Forall (applied_edit bs) applied →
  Forall fits (e :: rest) → (∀ e', e' ∈ applied → holds bs (files w) NewContent e') →
  (∀ e', e' ∈ e :: rest → files w !! FilePath e' = Some (cs (FilePath e'))) →
  (∀ n, calls w ≤ n → fault o n = None) → calm (length applied + k) w →
  rollbackEdits decode fe o applied w = (w', r) →
  ∀ e', e' ∈ applied ++ e :: rest → files w' !! FilePath e' = Some (cs (FilePath e')).
Proof.
  intros Hap Hdone Hfit Hst Htodo Hn Hc Hw e' He'. unfold rollbackEdits in Hw.
  rewrite fmap_app in Hap.
  apply (rollbackEach_spec k bs) in Hw as (_ & Hs & Hcs).
  - apply elem_of_app in He' as [He'|He']; [by apply Hcs, elem_of_reverse|].
    rewrite Hs; [by apply Htodo|]. intros (d & Hd & Hq). rewrite elem_of_reverse in Hd. revert Hq.
    apply distant_undisturbed; [|by apply (proj1 (Forall_forall _ _) Hfit) in He' as [? _]].
    apply list_elem_of_split in He' as (l1 & l2 & Heq). rewrite Heq, fmap_app, fmap_cons in Hap.
    rewrite (assoc_L (++)) in Hap. apply apart_app in Hap as (_ & Hap & _).
    apply distant_sym, Hap, elem_of_app. left. by apply list_elem_of_fmap_2.
  - rewrite fmap_reverse. apply apart_reverse. destruct rest; by apply apart_app in Hap as [? _].
  - by apply Forall_reverse.
  - intros d Hd. rewrite elem_of_reverse in Hd. by apply Hst.
  - done.
  - by rewrite length_reverse.
Qed.

(** A system call fails, or the validator rejects a new content. *)
Definition failing (es : list FileEdit) : Prop :=
  (∃ n, is_Some (fault o n)) ∨ ∃ e, e ∈ es ∧ ¬ accepts (FilePath e) (NewContent e).

Lemma write_done_kept bs mp mp' p c' :
  kept bs mp p → outside p → write_done mp p (cs p) c' mp' → kept bs mp' p.
Proof.
  intros (b & Hbs & Hb & Hfb) Ho (_ & b' & Hb' & Hfb' & Hs). exists b. split_and!; [done..|].
  destruct (decide (b = b')) as [->|Hne]; [done|].
  rewrite Hs; [done|]. intros [[->| ->]| ->]; [..|done]; apply isBackupOf_below in Hb; by destruct Ho.
Qed.

(** The edit that was applied stands for the one that was to do. *)
Lemma moved_edit applied e todo newEdit e' :
  FilePath newEdit = FilePath e → NewContent newEdit = NewContent e → e' ∈ applied ++ e :: todo →
  ∃ e2, e2 ∈ (applied ++ [newEdit]) ++ todo ∧ FilePath e2 = FilePath e' ∧ NewContent e2 = NewContent e'.
Proof.
  clear. intros Hp Hn He'. rewrite <-(assoc_L (++)).
  apply elem_of_app in He' as [?|[->|?]%elem_of_cons].
  - exists e'. split; [|done]. apply elem_of_app. by left.
  - exists newEdit. split; [|done]. apply elem_of_app. right. by left.
  - exists e'. split; [|done]. apply elem_of_app. right. by right.
Qed.

Lemma applyAll_spec k bs all applied todo w w' es' err :
  one_cause all → (∀ e, e ∈ todo → e ∈ all) → apart (FilePath <$> (applied ++ todo)) →
  Forall (applied_edit bs) applied → Forall fits todo →
  (∀ e, e ∈ applied → holds bs (files w) NewContent e) →
  (∀ e, e ∈ todo → holds bs (files w) (cs ∘ FilePath) e) →
  calm (2 * length todo + length applied + k) w →
  applyAll decode fe o bs applied todo w = (w', es', err) →
  (∀ e, e ∈ applied ++ todo →
    files w' !! FilePath e = Some (if err then cs (FilePath e) else NewContent e)) ∧
  (err ≠ None → failing todo).
Proof.
  intros Hone. revert applied w.
  induction todo as [|e todo IH]; intros applied w Hall Hap Hdone Hfit Hst Htodo Hc Hw.
  { injection Hw as <- _ <-. rewrite app_nil_r. split; [|done]. intros e He. by apply Hst. }
  pose proof Hap as Hap'. rewrite fmap_app, fmap_cons in Hap'.
  destruct (apart_app _ _ _ Hap') as (Hapd & Hdist & Hdist'). clear Hap'.
  pose proof Hfit as Hfits. apply Forall_cons in Hfit as [Hfe Hfit].
  pose proof Hfe as (Ho & Hpl & Hpn & Hacc).
  assert (∀ e', e' ∈ applied → fits e') as Hfd.
  { intros e' He'. by apply (proj1 (Forall_forall _ _) Hdone) in He' as (_ & _ & ?). }
  destruct (Htodo e) as [Hk Hcse]; [by left|]. simpl in Hw.
  pose proof (WriteFile_spec (2 * length todo + S (length applied) + k) (files w) (FilePath e)
    _ (NewContent e) Hcse Hpl Ho) as Hspec.
  destruct (WriteFile decode fe o (FilePath e) (NewContent e) w) as [w1 r1] eqn:H1.
  apply (spec_run _ _ _ _ _ _ _ _ _ _ Hspec) in H1 as [Hc1 H1];
    [|eapply calm_le; [exact Hc|simpl; lia]|done]. clear Hspec.
  destruct r1 as [[]|x].
  - pose proof (write_done_disturbed _ _ _ _ _ H1) as Hs1.
    set (newEdit := setApplied (withBackup bs (unixTime o (calls w)) e)) in Hw.
    apply IH in Hw as [Hw Herr]; [split| | | | | | |].
    + intros e' He'. by destruct (moved_edit applied e todo newEdit e') as (e2 & ? & <- & <-); auto.
    + intros Hne. destruct (Herr Hne) as [?|(e' & He' & ?)]; [by left|right].
      exists e'. split; [by right|done].
    + intros d Hd. apply Hall. by right.
    + rewrite <-(assoc_L (++)), !fmap_app, fmap_cons in *. exact Hap.
    + apply Forall_app. split; [done|]. apply Forall_singleton. by split_and!.
    + done.
    + intros d [Hd|Hd%list_elem_of_singleton]%elem_of_app.
      * eapply after_distant_all; [done|exact Hdist|done|done|done|done].
      * subst d. split; [|apply H1]. by eapply write_done_kept.
    + eapply after_distant_all; [done|exact Hdist'|done| |].
      * intros d Hd. by apply (proj1 (Forall_forall _ _) Hfit).
      * intros d Hd. apply Htodo. by right.
    + eapply calm_le; [exact Hc1|]. rewrite length_app. simpl. lia.
  - destruct H1 as [H1 Hcause]. pose proof (write_failed_disturbed _ _ _ _ H1) as Hs1.
    destruct (rollbackEdits decode fe o applied w1) as [w2 r2] eqn:H2.
    injection Hw as <- _ <-. split.
    + eapply (undone_spec (2 * length todo + 1 + k)); [done..| | | | |exact H2].
      * eapply after_distant_all; [done|exact Hdist|done|done|done].
      * intros d [->|Hd]%elem_of_cons; [apply H1|].
        eapply (after_distant_all bs (files w) (files w1) e (cs ∘ FilePath) todo);
          [done|exact Hdist'|done| | |done]; intros e' He'.
        -- by apply (proj1 (Forall_forall _ _) Hfit).
        -- apply Htodo. by right.
      * eapply one_cause_after; [done| |done]. apply Hall. by left.
      * eapply calm_le; [exact Hc1|lia].
    + intros _. destruct Hcause as [(n & _ & Hn)|Hrej]; [left; by exists n|right].
      exists e. split; [by left|done].
Qed.

Lemma framed_rollbackBackups bs order :
  (∀ p b, bs !! p = Some b → inBackups b) →
  framed (λ _, False) (rollbackBackups fe o bs order).
Proof.
  intros Hbs. induction order as [|p order IH]; [apply framed_ret|]. simpl.
  apply framed_bind; [|done]. case_decide as Hb; [apply framed_ret|].
  apply framed_bestEffort, framed_osRemove. intros Hout. apply Hout.
  destruct (bs !! p) as [b|] eqn:Hp; [|done]. by apply (Hbs p).
Qed.
End group.

(** C30: a group of edits is applied completely or not at all: if one system call
    fails, or the validator rejects a new content, every file of the group has
    its old content afterwards; otherwise, and only otherwise, every file has its
    new content.  This needs files that exist, with old and new contents in plain
    UTF-8, base names that all differ (the backups carry no directory), no file
    that is another's temporary file, old contents that the validator accepts, one
    cause of failure only, a failing call or rejected contents ([one_cause]), no
    clean-up of backups under way, and room for the backups that are made: three
    free ones for each edit ([calm]), so up to three edits with the default limit
    of ten. *)
Theorem ApplyMultiEdit_all_or_nothing order op w w' result err :
  apart (FilePath <$> Edits op) →
  Forall (fits (λ p, default "" (files w !! p))) (Edits op) →
  (∀ e, e ∈ Edits op → is_Some (files w !! FilePath e)) →
  one_cause (Edits op) → calm (3 * length (Edits op)) w →
  ApplyMultiEdit decode fe o order op w = (w', result, err) →
  (∀ e, e ∈ Edits op →
    files w' !! FilePath e = (if err then files w !! FilePath e else Some (NewContent e))) ∧
  (err ≠ None → failing (Edits op)).
Proof.
  intros Hap Hfit Hex Hone Hc Hw. set (cs := λ p, default "" (files w !! p)) in *.
  assert (∀ e, e ∈ Edits op → files w !! FilePath e = Some (cs (FilePath e))) as Hcs.
  { intros e' He'. unfold cs. by destruct (Hex e' He') as [c ->]. }
  unfold ApplyMultiEdit in Hw.
  destruct (backupAll decode fe o (Edits op) ∅ w) as [[w1 bs] err1] eqn:H1.
  apply (backupAll_spec cs (2 * length (Edits op))) in H1 as (Hc1 & Hs & _ & Hbb & Hk & Herr1);
    [|done..|eapply calm_le; [exact Hc|lia]].
  assert (∀ e, e ∈ Edits op → files w1 !! FilePath e = Some (cs (FilePath e))) as Hcs1.
  { intros e' He'. rewrite Hs; [by apply Hcs|]. intros (e2 & _ & Hb%isBackupOf_below).
    by apply (proj1 (Forall_forall _ _) Hfit) in He' as [[? _] _]. }
  destruct err1 as [x|].
  - injection Hw as <- _ <-. split; [|intros _; left; by apply Herr1].
    intros e He. rewrite (Hcs e He), <-(Hcs1 e He).
    destruct (framed_rollbackBackups bs order) with (w := w1) as [_ Hf].
    + intros p b [?|?%isBackupOf_below]%Hbb; [by rewrite lookup_empty in *|done].
    + by eapply calm_tasks_ok.
    + apply Hf; [|by intros []]. by apply (proj1 (Forall_forall _ _) Hfit) in He as [[? _] _].
  - destruct (applyAll decode fe o bs [] (Edits op) w1) as [[w2 es] err2] eqn:H2.
    eapply (applyAll_spec cs 0 bs (Edits op)) in H2 as [H2 Herr2]; [|done|done|done|done|done| | |].
    + destruct err2; injection Hw as <- _ <-; (split; [|done]); intros e He; rewrite ?(Hcs e He); by apply H2.
    + by intros ? ?%elem_of_nil.
    + intros e' He'. split; [by apply Hk|by apply Hcs1].
    + eapply calm_le; [exact Hc1|]. simpl. lia.
Qed.
End frame.

(** ** Validators *)

Definition validateGo : ValidationFunc := λ filePath content,
  if negb (HasSuffix filePath ".go") then None
  else if negb (Contains content "package ") then Some "go file must contain a package declaration"
  else None.

(** [jsonValid] is the error of json.Unmarshal, if any. *)
Definition validateJSON (jsonValid : string → option string) : ValidationFunc := λ filePath content,
  if negb (HasSuffix filePath ".json") then None
  else match jsonValid content with Some e => Some ("invalid JSON: " +:+ e) | None => None end.

(** The first line with a tab, from line [i] on. *)
Fixpoint findTab (i : nat) (lines : list string) : option string :=
  match lines with
  | [] => None
  | line :: rest =>
      if Contains line (byte1 "009")
      then Some ("YAML file contains tabs at line " +:+ Itoa (Z.of_nat (S i)) +:+ " (use spaces)")
      else findTab (S i) rest
  end.

Definition validateYAML : ValidationFunc := λ filePath content,
  if negb (HasSuffix filePath ".yaml") && negb (HasSuffix filePath ".yml") then None
  else findTab 0 (SplitByte content newline).

Definition validateDockerfile : ValidationFunc := λ filePath content,
  if negb (String.eqb (Base filePath) "Dockerfile") && negb (HasSuffix filePath ".dockerfile")
  then None
  else if negb (Contains (ToUpper content) "FROM ")
  then Some "dockerfile must contain a FROM instruction" else None.

Fixpoint CombineValidators (validators : list ValidationFunc) : ValidationFunc :=
  λ filePath content,
    match validators with
    | [] => None
    | f :: rest =>
        match f filePath content with
        | Some e => Some e
        | None => CombineValidators rest filePath content
        end
    end.

Lemma CombineValidators_None fs p c :
  CombineValidators fs p c = None ↔ Forall (λ f : ValidationFunc, f p c = None) fs.
Proof.
  induction fs as [|f fs IH]; simpl; [done|]. rewrite Forall_cons, <-IH.
  destruct (f p c); naive_solver.
Qed.

(** ** Examples *)

Definition toyDecode (_ : Encoding) (s : string) : res string string := Ok s.

Definition toyEditor : FileEditor := {|
  backupDir := "/bk"; maxBackups := 10;
  validateFunc := Some (λ _ c, if Contains c "bad" then Some "bad content" else None);
  k8sIntegrated := false |}.

(** Nothing fails, and all happens within one second. *)
Definition quietOS : Outside := {|
  fault := λ _, None; schedule := λ _, [0]; removeFault := λ _ _, false;
  stamp := λ _, "20240102-030405"; unixTime := λ _, 0%Z |}.

Definition toyWorld (l : list (string * string)) : World :=
  {| files := list_to_map l; calls := 0; tasks := [] |}.

Definition toyEdit (p new : string) : FileEdit := {|
  FilePath := p; OldContent := ""; NewContent := new; Backup := ""; Timestamp := 0%Z;
  Applied := false; EditError := "" |}.

Definition toyOperation (es : list FileEdit) : MultiEditOperation := {|
  OperationID := "m"; Description := ""; Edits := es; OperationTimestamp := 0%Z;
  OperationApplied := false; Rollback := false |}.

Lemma toy_dir : clean_dir (backupDir toyEditor).
Proof. by split_and!. Qed.

Lemma calm_start k w :
  tasks w = [] → size (files w) + k ≤ maxBackups toyEditor → calm toyEditor k w.
Proof.
  intros Ht Hs. split; [by rewrite Ht|]. intros p. unfold GetBackupHistory. rewrite length_Glob.
  pose proof (map_size_filter (λ kv, globMatch (getBackupPattern toyEditor p) kv.1 = true) (files w)). lia.
Qed.

Lemma toy_outside p :
  HasPrefix p "/bk/" = false → HasPrefix (p +:+ ".tmp") "/bk/" = false → outside toyEditor p.
Proof. intros H1 H2. split; intros Hb; [apply not_false_iff_true in Hb|apply not_false_iff_true in Hb]; by apply Hb. Qed.

Lemma plain_text c : Valid c = true → detectEncoding (stake 1024 c) = None → plain c.
Proof. by split. Qed.

Lemma WriteFile_atomic_witness :
  let w := toyWorld [("/src/a.go", "package a")] in
  files (WriteFile toyDecode toyEditor quietOS "/src/a.go" "bad" w).1 !! "/src/a.go" =
    Some "package a".
Proof.
  intros w. destruct (WriteFile toyDecode toyEditor quietOS "/src/a.go" "bad" w) as [w' r] eqn:Hw.
  assert (is_ok r = false) as Hr.
  { change r with (w', r).2. rewrite <-Hw. vm_compute. reflexivity. }
  assert (outside toyEditor "/src/a.go") as [Ho Ht] by (by apply toy_outside).
  destruct (WriteFile_atomic toyDecode toyEditor quietOS toy_dir eq_refl (λ _, eq_refl)
    "/src/a.go" "bad" w w' r) as (_ & Hf & _); [constructor|exact Ho|exact Ht|exact Hw|].
  rewrite Hr in Hf. exact Hf.
Defined.

Definition toyDiff : string :=
  Join ["<<<<<<< SEARCH"; "package a"; "======="; "package b"; ">>>>>>> REPLACE"] (byte1 newline).

Lemma ApplyDiff_RollbackEdit_witness :
  let w := toyWorld [("/src/a.go", "package a")] in
  ∃ edit w1, ApplyDiff toyDecode toyEditor quietOS "/src/a.go" toyDiff w = (w1, Some (Ok edit)) ∧
    files w1 !! "/src/a.go" = Some "package b" ∧
    files (RollbackEdit toyDecode toyEditor quietOS edit w1).1 !! "/src/a.go" = Some "package a".
Proof.
  intros w. destruct (ApplyDiff toyDecode toyEditor quietOS "/src/a.go" toyDiff w) as [w1 r1] eqn:Hd.
  assert (NewContent <$> (match r1 with Some (Ok e) => Some e | _ => None end) = Some "package b") as Hn.
  { change r1 with (w1, r1).2. rewrite <-Hd. vm_compute. reflexivity. }
  destruct r1 as [[edit|]|]; [|done..]. injection Hn as Hn. exists edit, w1. split; [done|].
  destruct (RollbackEdit toyDecode toyEditor quietOS edit w1) as [w2 r] eqn:Hr.
  destruct (ApplyDiff_RollbackEdit toyDecode toyEditor quietOS toy_dir eq_refl (λ _, eq_refl)
    "/src/a.go" toyDiff "package a" w w1 edit w2 r) as (_ & _ & Hf & _ & Hb & _).
  - apply calm_start; [done|]. vm_compute. lia.
  - by apply toy_outside.
  - reflexivity.
  - by apply plain_text.
  - exact Hd.
  - rewrite Hn. by apply plain_text.
  - intros f [= <-]. reflexivity.
  - done.
  - exact Hr.
  - rewrite Hn in Hf. by split.
Defined.

Lemma toy_apart ps :
  bool_decide (NoDup (Base <$> ps)) = true →
  bool_decide (Forall (λ p, Forall (λ q, p ≠ q +:+ ".tmp") ps) ps) = true → apart ps.
Proof.
  intros Hn%bool_decide_eq_true Hf%bool_decide_eq_true. split; [done|]. intros p q Hp Hq.
  apply (proj1 (Forall_forall _ _) Hf) in Hp. by apply (proj1 (Forall_forall _ _) Hp) in Hq.
Qed.

Lemma toy_fits cs p new :
  HasPrefix p "/bk/" = false → HasPrefix (p +:+ ".tmp") "/bk/" = false →
  Valid (cs p) = true → detectEncoding (stake 1024 (cs p)) = None → Contains (cs p) "bad" = false →
  Valid new = true → detectEncoding (stake 1024 new) = None →
  fits toyEditor cs (toyEdit p new).
Proof.
  intros. split_and!; [by apply toy_outside|done|done|]. intros f [= <-]. simpl.
  by destruct (Contains (cs p) "bad").
Qed.

(** The last edit is refused; the first one is taken back. *)
Definition refusedOperation : MultiEditOperation :=
  toyOperation [toyEdit "/src/a.go" "package b"; toyEdit "/src/c.go" "bad"].

Lemma ApplyMultiEdit_all_or_nothing_witness :
  let w := toyWorld [("/src/a.go", "package a"); ("/src/c.go", "package c")] in
  files (ApplyMultiEdit toyDecode toyEditor quietOS [] refusedOperation w).1.1 !! "/src/a.go" =
    Some "package a".
Proof.
  intros w.
  destruct (ApplyMultiEdit toyDecode toyEditor quietOS [] refusedOperation w) as [[w' op'] err] eqn:Hw.
  assert (is_Some err) as [e He].
  { change err with (w', op', err).2. rewrite <-Hw. vm_compute. by eexists. }
  destruct (ApplyMultiEdit_all_or_nothing toyDecode toyEditor quietOS toy_dir eq_refl (λ _, eq_refl)
    (λ _, eq_refl) [] refusedOperation w w' op' err) as [Hf _].
  - apply toy_apart; reflexivity.
  - apply Forall_cons. split; [by apply toy_fits|]. apply Forall_singleton. by apply toy_fits.
  - apply (proj1 (Forall_forall (λ d, is_Some (files w !! FilePath d)) _)).
    apply Forall_cons. split; [by eexists|]. apply Forall_singleton. by eexists.
  - left. done.
  - apply calm_start; [done|]. vm_compute. lia.
  - exact Hw.
  - assert (toyEdit "/src/a.go" "package b" ∈ Edits refusedOperation) as Hin by by left.
    specialize (Hf _ Hin). rewrite He in Hf. refine (eq_trans Hf _). vm_compute. reflexivity.
Defined.

(** With equal base names the backups of one second are the same file, and a
    group that is refused gives one file the new content of another. *)
Example equal_base_names_mixed_up :
  let w := toyWorld [("/src/a/x.go", "old a"); ("/src/b/x.go", "old b"); ("/src/c.go", "c")] in
  let op := toyOperation [toyEdit "/src/a/x.go" "new a"; toyEdit "/src/b/x.go" "new b";
                          toyEdit "/src/c.go" "bad"] in
  let w' := (ApplyMultiEdit toyDecode toyEditor quietOS [] op w).1.1 in
  files w' !! "/src/a/x.go" = Some "new b" ∧ files w' !! "/src/b/x.go" = Some "old b".
Proof. vm_compute. by split. Qed.

(** Undoing a group does not remove the files it made. *)
Example new_file_stays :
  let op := toyOperation [toyEdit "/src/new.go" "new"; toyEdit "/src/c.go" "bad"] in
  let w' := (ApplyMultiEdit toyDecode toyEditor quietOS [] op (toyWorld [("/src/c.go", "c")])).1.1 in
  files w' !! "/src/new.go" = Some "new".
Proof. vm_compute. done. Qed.
