(* ===== verification/ConfigValidate.v ===== *)
(** * Validation of the configuration

    Two parts of internal/config/validate.go: [findDependencyCycles], the
    three-colour depth-first search over the servers' depends_on lists, proved
    to terminate, to report only real cycles, each once, and to report one
    whenever there is one; and [lineIndex.lookup], which gives an error the line
    of the closest indexed ancestor of its path. *)
From S2P Require Import Prelude GoString.

Set Default Proof Using "Type*".

(** ** The search *)

Inductive Color := White | Gray | Black.
#[export] Instance Color_eq_dec : EqDecision Color.
Proof. solve_decision. Defined.

(** The variables the closure [dfs] captures; an absent colour is white. *)
Record SearchState := {
  color : gmap string Color;
  stack : list string;
  cycles : list (list string);
  seen : gset string;
}.

Definition colorOf (st : SearchState) (n : string) : Color := default White (color st !! n).

(** [cycle := append([]string{}, stack[start:]...)] from the first occurrence of
    [dep] on the stack ([start] stays 0 if there is none), closed with [dep]. *)
Definition stackStart (dep : string) (stk : list string) : nat :=
  match list_find (λ n, n = dep) stk with Some (i, _) => i | None => 0 end.

Definition extractCycle (dep : string) (stk : list string) : list string :=
  drop (stackStart dep stk) stk ++ [dep].

Definition addCycle (cycle : list string) (st : SearchState) : SearchState :=
  let key := Join cycle "," in
  if decide (key ∈ seen st) then st
  else {| color := color st; stack := stack st; cycles := cycles st ++ [cycle];
          seen := {[key]} ∪ seen st |}.

Definition enter (node : string) (st : SearchState) : SearchState := {|
  color := <[node := Gray]> (color st); stack := stack st ++ [node];
  cycles := cycles st; seen := seen st |}.

Definition leave (node : string) (st : SearchState) : SearchState := {|
  color := <[node := Black]> (color st); stack := take (length (stack st) - 1) (stack st);
  cycles := cycles st; seen := seen st |}.

Section search.
(** The servers, by name, with their [DependsOn]. *)
Context (servers : gmap string (list string)).

Definition dependsOn (node : string) : list string := default [] (servers !! node).

(** The loop over the dependencies of a node, [rec] being the recursive call. *)
Fixpoint visitDeps (rec : string → SearchState → option SearchState) (deps : list string)
    (st : SearchState) : option SearchState :=
  match deps with
  | [] => Some st
  | dep :: rest =>
      if decide (servers !! dep = None) then visitDeps rec rest st
      else
        st' ← match colorOf st dep with
              | White => rec dep st
              | Gray => Some (addCycle (extractCycle dep (stack st)) st)
              | Black => Some st
              end;
        visitDeps rec rest st'
  end.

(** [dfs], with fuel for the depth of the recursion. *)
Fixpoint dfs (fuel : nat) (node : string) (st : SearchState) : option SearchState :=
  match fuel with
  | O => None
  | S fuel' =>
      st' ← visitDeps (dfs fuel') (dependsOn node) (enter node st);
      Some (leave node st')
  end.

(** The loop over the names, in sorted order. *)
Fixpoint searchFrom (fuel : nat) (names : list string) (st : SearchState) : option SearchState :=
  match names with
  | [] => Some st
  | name :: rest =>
      st' ← (if decide (colorOf st name = White) then dfs fuel name st else Some st);
      searchFrom fuel rest st'
  end.

Definition initialSearch : SearchState :=
  {| color := ∅; stack := []; cycles := []; seen := ∅ |}.

Definition string_le (a b : string) : Prop := String.leb a b = true.
#[export] Instance string_le_dec : RelDecision string_le.
Proof. intros a b. unfold string_le. apply _. Defined.

Definition sortedNames : list string := merge_sort string_le (map_to_list servers).*1.

(** The recursion is never deeper than the number of servers: each level turns a
    white server gray. *)
Definition findDependencyCycles : option (list (list string)) :=
  cycles <$> searchFrom (size servers) sortedNames initialSearch.

(** ** Specification *)

(** [d] is a dependency of [n] that exists. *)
Definition edge (n d : string) : Prop := d ∈ dependsOn n ∧ is_Some (servers !! d).

Lemma edge_source n d : edge n d → is_Some (servers !! n).
Proof. intros [Hd _]. unfold dependsOn in Hd. destruct (servers !! n); [done|]. by inversion Hd. Qed.

(** Consecutive servers of a list depend on each other. *)
Definition chain (l : list string) : Prop :=
  ∀ l1 n d l2, l = l1 ++ n :: d :: l2 → edge n d.

(** A cycle lists distinct servers in order, with the entry repeated at the end. *)
Definition is_cycle (c : list string) : Prop :=
  chain c ∧ ∃ x l, c = x :: l ++ [x] ∧ NoDup (x :: l).

(** The key under which a reported cycle is remembered. *)
Definition cycleKey (c : list string) : string := Join c ",".

Lemma chain_app_r l1 l2 : chain (l1 ++ l2) → chain l2.
Proof. intros Hc m1 n d m2 ->. apply (Hc (l1 ++ m1) n d m2). by rewrite <-(assoc_L (++)). Qed.

Lemma chain_app_l l1 l2 : chain (l1 ++ l2) → chain l1.
Proof.
  intros Hc m1 n d m2 ->. apply (Hc m1 n d (m2 ++ l2)). by rewrite <-(assoc_L (++)).
Qed.

Lemma chain_snoc l n d : chain (l ++ [n]) → edge n d → chain ((l ++ [n]) ++ [d]).
Proof.
  intros Hc He l1 a b l2 Heq. destruct l2 as [|z l2 _] using rev_ind.
  - assert ((l ++ [n]) ++ [d] = (l1 ++ [a]) ++ [b]) as Heq' by (by rewrite Heq, <-!(assoc_L (++))).
    apply app_inj_tail in Heq' as [Heq' <-]. by apply app_inj_tail in Heq' as [_ <-].
  - apply (Hc l1 a b l2).
    assert ((l ++ [n]) ++ [d] = (l1 ++ a :: b :: l2) ++ [z]) as Heq'
      by (rewrite Heq, <-(assoc_L (++)); done).
    by apply app_inj_tail in Heq' as [? _].
Qed.

Lemma chain_singleton n : chain [n].
Proof. intros [|? []] ? ? ? Heq; simplify_eq/=. Qed.

(** What holds of the state between steps: the stack is a chain of distinct
    existing servers, exactly the gray ones; the reported cycles are real, and
    remembered under distinct keys; and while none is reported, black servers
    depend only on black ones and lie on no cycle. *)
Record search_inv (st : SearchState) : Prop := {
  si_chain : chain (stack st);
  si_nodup : NoDup (stack st);
  si_gray : ∀ n, colorOf st n = Gray ↔ n ∈ stack st;
  si_exists : ∀ n, colorOf st n ≠ White → is_Some (servers !! n);
  si_cycles : Forall is_cycle (cycles st);
  si_seen : ∀ k, k ∈ seen st ↔ k ∈ cycleKey <$> cycles st;
  si_keys : NoDup (cycleKey <$> cycles st);
  si_black : cycles st = [] →
    ∀ n, colorOf st n = Black → (∀ d, edge n d → colorOf st d = Black) ∧ ¬ tc edge n n;
}.

(** How the search may change the state: white servers turn black, the cycles
    grow, and the stack is put back. *)
Record search_ext (st st' : SearchState) : Prop := {
  se_stack : stack st' = stack st;
  se_cycles : cycles st `prefix_of` cycles st';
  se_color : ∀ n, colorOf st n ≠ White → colorOf st' n = colorOf st n;
}.

#[export] Instance search_ext_preorder : PreOrder search_ext.
Proof.
  split.
  - intros st. split; [done|by exists []; rewrite app_nil_r|done].
  - intros s1 s2 s3 [Hs1 Hc1 Hn1] [Hs2 Hc2 Hn2]. split; [congruence|by etrans|].
    intros n Hn. rewrite Hn2; [by apply Hn1|]. by rewrite Hn1.
Qed.

Lemma color_enter node st n :
  colorOf (enter node st) n = if decide (n = node) then Gray else colorOf st n.
Proof.
  unfold colorOf. simpl. case_decide; subst; [by rewrite lookup_insert_eq|].
  by rewrite lookup_insert_ne.
Qed.

Lemma color_leave node st n :
  colorOf (leave node st) n = if decide (n = node) then Black else colorOf st n.
Proof.
  unfold colorOf. simpl. case_decide; subst; [by rewrite lookup_insert_eq|].
  by rewrite lookup_insert_ne.
Qed.

Lemma color_addCycle c st n : colorOf (addCycle c st) n = colorOf st n.
Proof. unfold addCycle. by case_decide. Qed.

Lemma enter_inv node st :
  search_inv st → colorOf st node = White → is_Some (servers !! node) →
  (stack st = [] ∨ ∃ l n, stack st = l ++ [n] ∧ edge n node) →
  search_inv (enter node st).
Proof.
  intros [Hch Hnd Hg Hex Hcy Hse Hke Hb] Hw Hs Htop. split; try done.
  - simpl. destruct Htop as [->|(l & n & Heq & He)]; [apply chain_singleton|].
    rewrite Heq in *. by apply chain_snoc.
  - simpl. apply NoDup_app. split_and!; [done| |apply NoDup_singleton].
    intros n Hn ->%list_elem_of_singleton. apply Hg in Hn. congruence.
  - intros n. rewrite color_enter. simpl. rewrite elem_of_app, list_elem_of_singleton, <-Hg.
    case_decide; naive_solver.
  - intros n. rewrite color_enter. case_decide; subst; auto.
  - intros Hnil n. rewrite color_enter. case_decide; [done|]. intros Hn.
    destruct (Hb Hnil n Hn) as [Hd Ht]. split; [|done]. intros d Hnd'. rewrite color_enter.
    case_decide; [|by apply Hd]. subst. apply Hd in Hnd'. congruence.
Qed.

(** A dependency met on the stack closes a real cycle. *)
Lemma extractCycle_cycle l n dep :
  chain (l ++ [n]) → NoDup (l ++ [n]) → dep ∈ l ++ [n] → edge n dep →
  is_cycle (extractCycle dep (l ++ [n])).
Proof.
  intros Hch Hnd Hin He. unfold extractCycle, stackStart.
  destruct (list_find _ (l ++ [n])) as [[i x]|] eqn:Hf.
  2: { apply list_find_None in Hf. rewrite Forall_forall in Hf. by destruct (Hf _ Hin). }
  apply list_find_Some in Hf as (Hi & -> & _).
  pose proof (take_drop i (l ++ [n])) as Hsplit.
  assert (i < length (l ++ [n]))%nat as Hlt by (by eapply lookup_lt_Some).
  assert (drop i (l ++ [n]) = drop i l ++ [n]) as Hd.
  { rewrite drop_app. rewrite length_app in Hlt. simpl in Hlt.
    by replace (i - length l)%nat with 0%nat by lia. }
  assert (drop i (l ++ [n]) = dep :: drop (S i) (l ++ [n])) as Hdc by (by apply drop_S).
  rewrite <-Hsplit in Hch, Hnd. split.
  - rewrite Hd. apply chain_snoc; [|done]. rewrite <-Hd. by eapply chain_app_r.
  - apply NoDup_app in Hnd as (_ & _ & Hnd). rewrite Hdc in *.
    by exists dep, (drop (S i) (l ++ [n])).
Qed.

Lemma addCycle_inv l n dep st :
  search_inv st → stack st = l ++ [n] → colorOf st dep = Gray → edge n dep →
  search_inv (addCycle (extractCycle dep (stack st)) st) ∧
  search_ext st (addCycle (extractCycle dep (stack st)) st) ∧
  cycles (addCycle (extractCycle dep (stack st)) st) ≠ [].
Proof.
  intros Hinv Hst Hgray He. pose proof Hinv as [Hch Hnd Hg Hex Hcy Hse Hke Hb].
  assert (is_cycle (extractCycle dep (stack st))) as Hcyc.
  { rewrite Hst in *. apply extractCycle_cycle; [done|done| |done]. by apply Hg. }
  unfold addCycle. fold (cycleKey (extractCycle dep (stack st))). case_decide as Hk.
  - split_and!; [done|done|]. intros Hnil. apply Hse in Hk. rewrite Hnil in Hk. by inversion Hk.
  - split_and!; [split|split|]; simpl; try done.
    + apply Forall_app. split; [done|]. by constructor.
    + intros k. rewrite fmap_app, elem_of_app, <-Hse, elem_of_union, elem_of_singleton. simpl.
      rewrite list_elem_of_singleton. tauto.
    + rewrite fmap_app. apply NoDup_app. split_and!; [done| |apply NoDup_singleton].
      intros k Hk' ->%list_elem_of_singleton. by apply Hk, Hse.
    + by intros [_ ?]%app_nil.
    + by eexists.
    + by intros [_ ?]%app_nil.
Qed.

(** Leaving a node whose dependencies are all black. *)
Lemma leave_inv l node st :
  search_inv st → stack st = l ++ [node] →
  (cycles st = [] → ∀ d, edge node d → colorOf st d = Black) →
  search_inv (leave node st) ∧ stack (leave node st) = l.
Proof.
  intros [Hch Hnd Hg Hex Hcy Hse Hke Hb] Hst Hdeps.
  assert (take (length (stack st) - 1) (stack st) = l) as Hl.
  { rewrite Hst, length_app. simpl. rewrite take_app_length'; [done|lia]. }
  rewrite Hst in Hch, Hnd. apply NoDup_app in Hnd as (Hnd & Hnot & _).
  assert (colorOf st node = Gray) as Hgn by (apply Hg; rewrite Hst; set_solver).
  split; [|done]. split; simpl; try done; rewrite ?Hl.
  - by eapply chain_app_l.
  - done.
  - intros n. rewrite color_leave. case_decide as Hn.
    + subst. split; [done|]. intros Hin. by destruct (Hnot _ Hin (list_elem_of_here _ _)).
    + rewrite Hg, Hst, elem_of_app, list_elem_of_singleton. tauto.
  - intros n. rewrite color_leave. case_decide; [subst|auto]. intros _. apply Hex. by rewrite Hgn.
  - intros Hnil n. rewrite color_leave. intros Hn.
    assert (∀ m d, colorOf st m = Black → rtc edge m d → colorOf st d = Black) as Hclosed.
    { intros m d Hm Hr. revert Hm. induction Hr as [|m m' d He _ IH]; [done|].
      intros Hm. by apply IH, (Hb Hnil m). }
    assert (∀ d, (n = node ∨ colorOf st n = Black) → edge n d → colorOf st d = Black) as Hd.
    { intros d [->|Hm] He; [by apply Hdeps|]. by apply (Hb Hnil n). }
    assert (n = node ∨ colorOf st n = Black) as Hor by (case_decide; auto). clear Hn.
    split.
    + intros d He. rewrite color_leave. case_decide; [done|]. by apply Hd.
    + destruct Hor as [->|Hbl]; [|by apply (Hb Hnil n)].
      intros Ht. assert (colorOf st node = Black); [|congruence].
      inversion Ht as [? ? He|? d ? He Htc]; subst; [by apply Hdeps|].
      apply (Hclosed d); [by apply Hdeps|]. by apply tc_rtc.
Qed.

(** ** The search terminates and keeps the invariant *)

(** The servers not yet visited: the measure of the recursion. *)
Definition whites (st : SearchState) : gset string :=
  filter (λ n, colorOf st n = White) (dom servers).

Lemma whites_ext st st' : search_ext st st' → size (whites st') ≤ size (whites st).
Proof.
  intros [_ _ Hc]. apply subseteq_size. intros n. unfold whites.
  rewrite !elem_of_filter. intros [Hw Hd]. split; [|done].
  destruct (decide (colorOf st n = White)) as [|Hn]; [done|]. apply Hc in Hn as Heq. congruence.
Qed.

Lemma whites_enter node st :
  colorOf st node = White → is_Some (servers !! node) →
  size (whites (enter node st)) < size (whites st).
Proof.
  intros Hw Hs. apply subset_size. split.
  - intros n. unfold whites. rewrite !elem_of_filter, color_enter. case_decide; naive_solver.
  - intros Hsub. assert (node ∈ whites (enter node st)) as Hin.
    { apply Hsub. unfold whites. by rewrite elem_of_filter, elem_of_dom. }
    unfold whites in Hin. rewrite elem_of_filter, color_enter in Hin.
    rewrite decide_True in Hin by done. by destruct Hin.
Qed.

(** What a call of [dfs] on a white node promises. *)
Definition visit_ok (n : string) (st : SearchState) (r : option SearchState) : Prop :=
  ∃ st', r = Some st' ∧ search_inv st' ∧ search_ext st st' ∧ colorOf st' n = Black.

(** Where [dfs] may be called. *)
Definition visit_pre (node : string) (st : SearchState) : Prop :=
  search_inv st ∧ colorOf st node = White ∧ is_Some (servers !! node) ∧
  (stack st = [] ∨ ∃ l n, stack st = l ++ [n] ∧ edge n node).

Lemma visitDeps_spec rec fuel node l deps st :
  (∀ n s, visit_pre n s → size (whites s) ≤ fuel → visit_ok n s (rec n s)) →
  (∀ d, d ∈ deps → d ∈ dependsOn node) →
  search_inv st → stack st = l ++ [node] → size (whites st) ≤ fuel →
  ∃ st', visitDeps rec deps st = Some st' ∧ search_inv st' ∧ search_ext st st' ∧
    (cycles st' = [] → ∀ d, d ∈ deps → is_Some (servers !! d) → colorOf st' d = Black).
Proof.
  intros Hrec. revert st. induction deps as [|dep deps IH]; intros st Hsub Hinv Hst Hfuel.
  { exists st. split_and!; [done|done|done|]. intros _ d Hd. by inversion Hd. }
  simpl. case_decide as Hdep.
  - destruct (IH st) as (st' & Heq & Hinv' & Hext & Hbl); [set_solver|done|done|done|].
    exists st'. split_and!; [done|done|done|]. intros Hnil d [->|Hd]%elem_of_cons [? Hs]; eauto.
    congruence.
  - assert (is_Some (servers !! dep)) as Hs by (by destruct (servers !! dep)).
    assert (edge node dep) as He by (split; [set_solver|done]).
    assert (∃ s, match colorOf st dep with White => rec dep st
        | Gray => Some (addCycle (extractCycle dep (stack st)) st) | Black => Some st end = Some s
      ∧ search_inv s ∧ search_ext st s ∧ (cycles s = [] → colorOf s dep = Black))
      as (s & -> & Hinvs & Hexts & Hbls).
    { destruct (colorOf st dep) eqn:Hc.
      - destruct (Hrec dep st) as (s & ? & ? & ? & ?); [|done|by eauto].
        split_and!; [done|done|done|]. right. by exists l, node.
      - destruct (addCycle_inv l node dep st) as (? & ? & ?); [done..|].
        eexists. split_and!; [done|done|done|]. done.
      - exists st. by split_and!. }
    destruct (IH s) as (st' & Heq & Hinv' & Hext & Hbl); [set_solver|done| | |].
    { by rewrite (se_stack _ _ Hexts). }
    { apply whites_ext in Hexts. lia. }
    exists st'. split_and!; [done|done|by etrans|]. intros Hnil d [->|Hd]%elem_of_cons Hsd; [|by eauto].
    assert (cycles s = []) as Hnils.
    { destruct Hext as [_ [k Hk] _]. rewrite Hnil in Hk. by destruct (cycles s). }
    rewrite (se_color _ _ Hext), Hbls; [done|done|]. by rewrite Hbls.
Qed.

Lemma dfs_spec fuel node st :
  visit_pre node st → size (whites st) ≤ fuel → visit_ok node st (dfs fuel node st).
Proof.
  revert node st. induction fuel as [|fuel IH]; intros node st (Hinv & Hw & Hs & Htop) Hfuel.
  { pose proof (whites_enter node st Hw Hs). lia. }
  pose proof (whites_enter node st Hw Hs) as Hlt.
  destruct (visitDeps_spec (dfs fuel) fuel node (stack st) (dependsOn node) (enter node st))
    as (s & Heq & Hinvs & Hexts & Hdeps); [done|done|by apply enter_inv|done|lia|].
  assert (stack s = stack st ++ [node]) as Hst by (by rewrite (se_stack _ _ Hexts)).
  destruct (leave_inv (stack st) node s) as [Hinv' Hst']; [done|done| |].
  { intros Hnil d [Hd ?]. by apply Hdeps. }
  exists (leave node s). simpl. rewrite Heq. split_and!; [done|done| |].
  - split; [done|apply Hexts|]. intros n Hn. rewrite color_leave.
    rewrite decide_False by congruence. rewrite (se_color _ _ Hexts); rewrite color_enter;
      by rewrite decide_False by congruence.
  - by rewrite color_leave, decide_True.
Qed.

Lemma searchFrom_spec fuel names st :
  search_inv st → stack st = [] → size (whites st) ≤ fuel →
  (∀ n, n ∈ names → is_Some (servers !! n)) →
  ∃ st', searchFrom fuel names st = Some st' ∧ search_inv st' ∧ search_ext st st' ∧
    ∀ n, n ∈ names → colorOf st' n = Black.
Proof.
  revert st. induction names as [|name names IH]; intros st Hinv Hst Hfuel Hex.
  { exists st. split_and!; [done|done|done|]. intros n Hn. by inversion Hn. }
  assert (∃ s, (if decide (colorOf st name = White) then dfs fuel name st else Some st) = Some s
    ∧ search_inv s ∧ search_ext st s ∧ colorOf s name = Black) as (s & Heq & Hinvs & Hexts & Hb).
  { case_decide as Hc.
    - destruct (dfs_spec fuel name st) as (s & ? & ? & ? & ?); [|done|by eauto].
      split_and!; [done|done|apply Hex; set_solver|by left].
    - exists st. split_and!; [done|done|done|]. destruct (colorOf st name) eqn:Hcn; [done| |done].
      apply (si_gray _ Hinv) in Hcn. rewrite Hst in Hcn. by inversion Hcn. }
  destruct (IH s) as (st' & Heq' & Hinv' & Hext & Hbl); [done| | |set_solver|].
  { by rewrite (se_stack _ _ Hexts). }
  { apply whites_ext in Hexts. lia. }
  exists st'. simpl. rewrite Heq. simpl. split_and!; [done|done|by etrans|].
  intros n [->|Hn]%elem_of_cons; [|by apply Hbl]. rewrite (se_color _ _ Hext); by rewrite Hb.
Qed.

Lemma initialSearch_inv : search_inv initialSearch.
Proof.
  split; simpl; try done.
  - intros [|? []] ? ? ? Heq; simplify_eq/=.
  - apply NoDup_nil_2.
  - intros n. split; [done|]. intros Hn. by inversion Hn.
  - intros k. split; intros Hk; set_solver.
  - apply NoDup_nil_2.
Qed.

Lemma sortedNames_elem n : n ∈ sortedNames ↔ is_Some (servers !! n).
Proof.
  unfold sortedNames. rewrite merge_sort_Permutation, list_elem_of_fmap. split.
  - intros ([k v] & -> & Hkv). apply elem_of_map_to_list in Hkv. eauto.
  - intros [v Hv]. exists (n, v). by rewrite elem_of_map_to_list.
Qed.

(** The whole search, from its last state. *)
Lemma findDependencyCycles_state :
  ∃ st, findDependencyCycles = Some (cycles st) ∧ search_inv st ∧
    ∀ n, is_Some (servers !! n) → colorOf st n = Black.
Proof.
  destruct (searchFrom_spec (size servers) sortedNames initialSearch)
    as (st & Heq & Hinv & _ & Hb); [apply initialSearch_inv|done| | |].
  { rewrite <-size_dom. apply subseteq_size. unfold whites. set_solver. }
  { intros n. by rewrite sortedNames_elem. }
  exists st. unfold findDependencyCycles. rewrite Heq. split_and!; [done|done|].
  intros n Hn. apply Hb. by rewrite sortedNames_elem.
Qed.

(** A reported cycle is a path of dependencies from a server to itself. *)
Lemma chain_tc x l y : chain (x :: l ++ [y]) → tc edge x y.
Proof.
  revert x. induction l as [|z l IH]; intros x Hc.
  - apply tc_once. by apply (Hc [] x y []).
  - apply tc_l with z; [by apply (Hc [] x z (l ++ [y]))|]. apply IH.
    by apply (chain_app_r [x]).
Qed.
End search.

(** ** Correctness *)

(** For every configuration the search terminates, and every list it
    reports is a real cycle: existing servers, each in the depends_on list of
    the one before, all distinct except that the entry server is repeated at
    the end (so [cycle[0]] never panics); and no cycle is reported twice. *)
Theorem findDependencyCycles_sound (servers : gmap string (list string)) :
  ∃ cs, findDependencyCycles servers = Some cs ∧
    Forall (is_cycle servers) cs ∧ NoDup (cycleKey <$> cs).
Proof.
  destruct (findDependencyCycles_state servers) as (st & Heq & Hinv & _).
  exists (cycles st). by destruct Hinv.
Qed.

(** The search is complete as a check: it reports nothing exactly when no
    server depends on itself, directly or through other servers. *)
Lemma cycles_none_iff (servers : gmap string (list string)) :
  findDependencyCycles servers = Some [] ↔ ∀ n, ¬ tc (edge servers) n n.
Proof.
  destruct (findDependencyCycles_state servers) as (st & -> & Hinv & Hblack). split.
  - intros [= Hnil] n Htc.
    assert (is_Some (servers !! n)) as Hs by (inversion Htc; subst; by eapply edge_source).
    by apply (si_black _ _ Hinv Hnil n) in Htc; [|apply Hblack].
  - intros Hacyc. f_equal. destruct (cycles st) as [|c cs] eqn:Hc; [done|]. exfalso.
    pose proof (si_cycles _ _ Hinv) as Hall. rewrite Hc in Hall.
    inversion Hall as [|? ? (Hch & x & l & -> & _)]; subst.
    by apply (Hacyc x), (chain_tc _ _ l).
Qed.

(** A server that depends on two others of one cycle. *)
Definition two_cycles : gmap string (list string) :=
  {["a" := ["b"; "c"]; "b" := ["c"]; "c" := ["a"]]}.

(** Contrary to its doc comment, the function does not return every cycle:
    with a -> b -> c -> a and a -> c it reports the first cycle and misses
    a -> c -> a, since c is already black when a's second dependency is met. *)
Theorem findDependencyCycles_misses_cycle :
  is_cycle two_cycles ["a"; "c"; "a"] ∧
  findDependencyCycles two_cycles = Some [["a"; "b"; "c"; "a"]].
Proof.
  split; [|by vm_compute]. split.
  - intros l1 n d l2 Heq.
    assert ((n = "a" ∧ d = "c") ∨ (n = "c" ∧ d = "a")) as [[-> ->]|[-> ->]].
    { destruct l1 as [|? [|? [|? [|? ?]]]]; simplify_eq/=; auto. }
    all: split; [by apply (bool_decide_unpack _); vm_compute|by eexists].
  - exists "a", ["c"]. split; [done|]. apply (bool_decide_unpack _). by vm_compute.
Qed.

(** ** Locating an error in the file *)

(** [lineIndex]; the line of a path that is not indexed is 0. *)
Record lineIndex := { file : string; paths : gmap string Z }.

(** The path up to its last dot, empty if there is none. *)
Definition parentPath (path : string) : string :=
  match LastIndexByte path "." with Some idx => stake idx path | None => "" end.

(** The loop [for path != ""], with fuel for its iterations. *)
Fixpoint lookupParents (ps : gmap string Z) (fuel : nat) (path : string) : option Z :=
  if decide (path = "") then Some 0%Z
  else match fuel with
       | O => None
       | S fuel' =>
           match ps !! parentPath path with
           | Some line => Some line
           | None => lookupParents ps fuel' (parentPath path)
           end
       end.

(** [lookup] on a possibly nil index; each iteration shortens the path, so its
    length is enough fuel. *)
Definition lookup (li : option lineIndex) (path : string) : option Z :=
  match li with
  | None => Some 0%Z
  | Some li =>
      match paths li !! path with
      | Some line => Some line
      | None => lookupParents (paths li) (String.length path) path
      end
  end.

(** [p] is [path], one of its parents, or the document itself. *)
Definition ancestor (p path : string) : Prop :=
  p = path ∨ p = "" ∨ ∃ r, path = p +:+ String "." r.

Lemma LastIndexByte_None s c : LastIndexByte s c = None → CountByte s c = 0.
Proof.
  induction s as [|d s IH]; [done|]. simpl. destruct (LastIndexByte s c); [done|].
  destruct (Ascii.eqb d c); [done|]. intros _. by rewrite IH.
Qed.

Lemma LastIndexByte_Some s c i :
  LastIndexByte s c = Some i →
  ∃ a b, s = a +:+ String c b ∧ String.length a = i ∧ CountByte b c = 0.
Proof.
  revert i. induction s as [|d s IH]; intros i; [done|]. simpl.
  destruct (LastIndexByte s c) as [j|] eqn:Hl.
  - intros [= <-]. destruct (IH j eq_refl) as (a & b & -> & <- & Hb). by exists (String d a), b.
  - destruct (Ascii.eqb_spec d c) as [->|]; [|done]. intros [= <-].
    exists "", s. split_and!; [done|done|]. by apply LastIndexByte_None.
Qed.

(** Two ways of cutting a string, the first no later than the second. *)
Lemma sapp_split a b p r c :
  a +:+ String c b = p +:+ String c r → CountByte b c = 0 →
  p = a ∨ ∃ r', a = p +:+ String c r'.
Proof.
  revert p. induction a as [|d a IH]; intros p Heq Hb.
  - destruct p as [|e p]; [by left|]. injection Heq as <- Heq. exfalso.
    rewrite Heq, CountByte_app, CountByte_here in Hb. lia.
  - destruct p as [|e p]; simpl in Heq; injection Heq as <- Heq; [right; by exists a|].
    destruct (IH p Heq Hb) as [->|[r' ->]]; [by left|]. right. by exists r'.
Qed.

Lemma ancestor_parent p path : ancestor p path → p = path ∨ ancestor p (parentPath path).
Proof.
  unfold parentPath. intros [->|[->|[r Hr]]]; [by left|by right; right; left|]. right.
  destruct (LastIndexByte path ".") as [idx|] eqn:Hl.
  - apply LastIndexByte_Some in Hl as (a & b & Hab & <- & Hb). rewrite Hab, stake_app.
    destruct (sapp_split a b p r ".") as [->|[r' ->]]; [congruence|done|by left|].
    right. right. by exists r'.
  - apply LastIndexByte_None in Hl. rewrite Hr, CountByte_app, CountByte_here in Hl. lia.
Qed.

Lemma parentPath_ancestor path : ancestor (parentPath path) path.
Proof.
  unfold parentPath. destruct (LastIndexByte path ".") as [idx|] eqn:Hl; [|by right; left].
  apply LastIndexByte_Some in Hl as (a & b & -> & <- & _). rewrite stake_app.
  right. right. by exists b.
Qed.

Lemma ancestor_trans p q r : ancestor p q → ancestor q r → ancestor p r.
Proof.
  intros [->|[->|[s ->]]]; [done|by right; left|].
  intros [<-|[Hnil|[t ->]]]; [right; right; by exists s| |].
  - by destruct p.
  - right. right. exists (s +:+ String "." t). by rewrite <-sapp_assoc.
Qed.

Lemma length_ancestor p path : ancestor p path → String.length p ≤ String.length path.
Proof. intros [->|[->|[r ->]]]; rewrite ?slength_app; simpl; lia. Qed.

Lemma length_parentPath path :
  path ≠ "" → String.length (parentPath path) < String.length path.
Proof.
  intros Hne. unfold parentPath. destruct (LastIndexByte path ".") as [idx|] eqn:Hl.
  - apply LastIndexByte_Some in Hl as (a & b & -> & <- & _).
    rewrite stake_app, slength_app. simpl. lia.
  - destruct path; [done|]. simpl. lia.
Qed.

(** [line] is the line of the closest indexed ancestor of [path], if any. *)
Definition closest_line (ps : gmap string Z) (path : string) (line : Z) : Prop :=
  (∃ p, ancestor p path ∧ ps !! p = Some line ∧
     ∀ q, ancestor q path → is_Some (ps !! q) → String.length q ≤ String.length p) ∨
  (line = 0%Z ∧ ∀ p, ancestor p path → ps !! p = None).

Lemma closest_line_here ps path line : ps !! path = Some line → closest_line ps path line.
Proof.
  intros Hp. left. exists path. split_and!; [by left|done|].
  intros q Hq _. by apply length_ancestor.
Qed.

Lemma closest_line_parent ps path line :
  ps !! path = None → closest_line ps (parentPath path) line → closest_line ps path line.
Proof.
  intros Hnone [(p & Ha & Hp & Hmax)|[-> Hall]]; [left|right].
  - exists p. split_and!; [|done|].
    + eapply ancestor_trans; [done|]. apply parentPath_ancestor.
    + intros q [->|Hq]%ancestor_parent Hs; [destruct Hs; congruence|by apply Hmax].
  - split; [done|]. by intros p [->|Hp]%ancestor_parent; [|apply Hall].
Qed.

Lemma lookupParents_spec ps fuel path :
  String.length path ≤ fuel → ps !! path = None →
  ∃ line, lookupParents ps fuel path = Some line ∧ closest_line ps path line.
Proof.
  revert path. induction fuel as [|fuel IH]; intros path Hf Hnone; simpl;
    case_decide as Hp; subst.
  1, 3: exists 0%Z; split; [done|]; right; split; [done|].
  1, 2: by intros p [->|[->|[r Hr]]]; [| |destruct p].
  - destruct path; [done|]. simpl in Hf. lia.
  - pose proof (length_parentPath path Hp) as Hlen.
    destruct (ps !! parentPath path) as [line|] eqn:Hq.
    + exists line. split; [done|]. by apply closest_line_parent, closest_line_here.
    + destruct (IH (parentPath path)) as (line & ? & ?); [lia|done|].
      exists line. split; [done|]. by apply closest_line_parent.
Qed.

(** Locating an error terminates, and gives the line of the closest indexed
    ancestor of its path, or 0 when not even the document is indexed. *)
Lemma lookup_closest_line (li : lineIndex) (path : string) :
  ∃ line, lookup (Some li) path = Some line ∧ closest_line (paths li) path line.
Proof.
  unfold lookup. destruct (paths li !! path) as [line|] eqn:Hp.
  - exists line. split; [done|]. by apply closest_line_here.
  - by apply lookupParents_spec.
Qed.
