(* ===== verification/ConfigRules.v ===== *)
(** * The rules of the configuration

    internal/config/config.go and the rest of internal/config/validate.go: loading
    a compose file (.env, environment variables, YAML, overrides), the rules that
    [ValidateConfig] checks up to the first problem, and [collectValidationErrors],
    which lists all problems with their lines.  The two are proved to agree, but
    for dependency cycles, which only the second looks for. *)
From S2P Require Import Prelude GoString GoPath GoNum GoTime ConfigValidate.

#[local] Open Scope Z_scope.

Set Default Proof Using "Type*".

(** ** Data: the fields that the rules read *)

Record HumanControlConfig := { TimeoutSeconds : Z; HC_MaxTokens : Z }.

Record ResourcePath := { Source : string; Target : string }.

Record ResourcesConfig := {
  Paths : list ResourcePath;
  SyncInterval : string;
  CacheTTL : Z;
}.

Record ToolConfig := { ToolName : string; ToolTimeout : string }.

Record SecurityConfig := { AppArmor : string; Seccomp : string }.

Record ResourceLimits := {
  CPUs : string;
  Memory : string;
  MemorySwap : string;
  PIDs : Z;
}.

Record ServerConfig := {
  Command : string;
  Image : string;
  BuildContext : string;
  Protocol : string;
  HttpPort : Z;
  Args : list string;
  Ports : list string;
  Capabilities : list string;
  Env : gmap string string;
  DependsOn : list string;
  HumanControl : option HumanControlConfig;
  Resources : ResourcesConfig;
  Tools : list ToolConfig;
  Security : SecurityConfig;
  Limits : ResourceLimits;
}.

Record ConnectionConfig := { Transport : string; ConnPort : Z }.

Record OAuthConfig := {
  OAuthEnabled : bool;
  Issuer : string;
  AccessTokenTTL : string;
  RefreshTokenTTL : string;
}.

Record ProxyAuthConfig := { ProxyAuthEnabled : bool; APIKey : string }.

Record DashboardConfig := { DashboardEnabled : bool; DashboardPort : Z; ProxyURL : string }.

Record ProxyConfig := { Proxy_URL : string; Proxy_Host : string; Proxy_Port : Z }.

(** The overrides of one server in an environment. *)
Record ServerOverrideConfig := {
  OverrideEnv : gmap string string;
  OverrideResources : ResourcesConfig;
}.

Record EnvironmentConfig := { OverrideServers : gmap string ServerOverrideConfig }.

Record ComposeConfig := {
  Version : string;
  Servers : gmap string ServerConfig;
  Connections : gmap string ConnectionConfig;
  Environments : gmap string EnvironmentConfig;
  CurrentEnv : string;
  ProxyAuth : ProxyAuthConfig;
  Dashboard : DashboardConfig;
  OAuth : option OAuthConfig;
  RegistryURL : string;
  Proxy : ProxyConfig;
}.

(** ** Rules *)

Section rules.
(** The text of the errors of time.ParseDuration, and whether strconv.ParseFloat
    accepts a text. *)
Context (durationError : string → string) (parsesFloat : string → bool).

Definition quoted (s : string) : string := "'" +:+ s +:+ "'".

Definition serverText (name msg : string) : string := "server " +:+ quoted name +:+ " " +:+ msg.

(** The loop over [l] with its index, up to the first error. *)
Fixpoint eachFrom {A} (f : Z → A → res string unit) (i : Z) (l : list A) : res string unit :=
  match l with
  | [] => Ok tt
  | x :: rest => _ ← f i x; eachFrom f (i + 1) rest
  end.

Definition each {A} (f : Z → A → res string unit) (l : list A) : res string unit :=
  eachFrom f 0 l.

(** An optional duration. *)
Definition checkDuration (s : string) (msg : string → string) : res string unit :=
  if decide (s = "") then Ok tt
  else match ParseDuration s with
       | Some _ => Ok tt
       | None => Err (msg (durationError s))
       end.

Definition hasPortInArgsOrMapping (server : ServerConfig) : bool :=
  existsb (λ arg, HasPrefix arg "--port" || HasPrefix arg "-p") (Args server) ||
  existsb (λ p, match last (SplitByte p ":") with
                | Some part => negb (String.eqb part "")
                | None => false
                end) (Ports server).

Definition validatePortMapping (portMapping : string) : res string unit :=
  each (λ _ part,
    if decide (part = "") then Err ("empty port in mapping " +:+ quoted portMapping)
    else match Atoi part with
         | Some _ => Ok tt
         | None =>
             guard_else (Contains part "-")
               ("invalid port number " +:+ quoted part +:+ " in mapping " +:+ quoted portMapping)
         end) (SplitByte portMapping ":").

Definition validProtocols : list string := ["stdio"; "http"; "sse"; "tcp"].

Definition validCaps : list string :=
  ["resources"; "tools"; "prompts"; "sampling"; "logging"; "roots"].

Definition validateServerConfig (name : string) (server : ServerConfig) : res string unit :=
  if String.eqb (Command server) "" && String.eqb (Image server) "" &&
     String.eqb (BuildContext server) ""
  then Err (serverText name "must specify either command, image, or build context")
  else if String.eqb (BuildContext server) "" && String.eqb (Image server) "" &&
          String.eqb (Command server) ""
  then Err (serverText name "must specify either command or image when not using build")
  else
    _ ← guard_else (String.eqb (Protocol server) "" || bool_decide (Protocol server ∈ validProtocols))
          (serverText name ("has invalid protocol: " +:+ quoted (Protocol server) +:+
                            ". Must be one of: [stdio http sse tcp]"));
    _ ← guard_else
          (negb ((String.eqb (Protocol server) "http" || String.eqb (Protocol server) "sse") &&
                 (HttpPort server =? 0)) || hasPortInArgsOrMapping server)
          (serverText name ("uses " +:+ quoted (Protocol server) +:+
                            " protocol but 'http_port' is not defined and cannot be inferred"));
    _ ← each (λ _ cap, guard_else (bool_decide (cap ∈ validCaps))
                         (serverText name ("has invalid capability: " +:+ quoted cap)))
          (Capabilities server);
    each (λ i port,
      match validatePortMapping port with
      | Ok _ => Ok tt
      | Err e => Err (serverText name ("has invalid port mapping at index " +:+ Itoa i +:+ ": " +:+ e))
      end) (Ports server).

Definition validateHumanControlConfig (serverName : string) (hc : HumanControlConfig) :
    res string unit :=
  if TimeoutSeconds hc <? 0 then
    Err (serverText serverName ("has invalid human control timeout: " +:+ Itoa (TimeoutSeconds hc) +:+
                                " (must be >= 0)"))
  else if HC_MaxTokens hc <? 0 then
    Err (serverText serverName ("has invalid human control max_tokens: " +:+ Itoa (HC_MaxTokens hc) +:+
                                " (must be >= 0)"))
  else if (0 <? TimeoutSeconds hc) && (TimeoutSeconds hc <? 5) then
    Err (serverText serverName ("human control timeout too low: " +:+ Itoa (TimeoutSeconds hc) +:+
                                " seconds (minimum 5 seconds)"))
  else Ok tt.

(** Whether a source exists is looked at without consequence. *)
Definition validateResourcePaths (serverName : string) (resources : ResourcesConfig) :
    res string unit :=
  _ ← each (λ i path,
        if decide (Source path = "") then
          Err (serverText serverName ("resource path " +:+ Itoa i +:+ " missing source"))
        else if decide (Target path = "") then
          Err (serverText serverName ("resource path " +:+ Itoa i +:+ " missing target"))
        else Ok tt) (Paths resources);
  checkDuration (SyncInterval resources) (λ e,
    serverText serverName ("has invalid resource sync_interval " +:+ quoted (SyncInterval resources) +:+
                           ": " +:+ e)).

(** [toolNames] are the names so far. *)
Fixpoint validateTools (serverName : string) (i : Z) (toolNames : list string)
    (tools : list ToolConfig) : res string unit :=
  match tools with
  | [] => Ok tt
  | tool :: rest =>
      if decide (ToolName tool = "") then
        Err (serverText serverName ("tool " +:+ Itoa i +:+ " missing name"))
      else if decide (ToolName tool ∈ toolNames) then
        Err (serverText serverName ("has duplicate tool name: " +:+ quoted (ToolName tool)))
      else
        _ ← checkDuration (ToolTimeout tool) (λ e,
              serverText serverName ("tool " +:+ quoted (ToolName tool) +:+ " has invalid timeout " +:+
                                     quoted (ToolTimeout tool) +:+ ": " +:+ e));
        validateTools serverName (i + 1) (ToolName tool :: toolNames) rest
  end.

Definition validateToolsConfig (serverName : string) (tools : list ToolConfig) : res string unit :=
  validateTools serverName 0 [] tools.

Definition checkProfile (serverName kind profile : string) : res string unit :=
  guard_else (String.eqb profile "" || bool_decide (profile ∈ ["unconfined"; "default"]) ||
              HasPrefix profile "/")
    (serverText serverName ("has invalid " +:+ kind +:+ " profile: " +:+ quoted profile)).

Definition validateSecurityConfig (serverName : string) (security : SecurityConfig) :
    res string unit :=
  _ ← checkProfile serverName "apparmor" (AppArmor security);
  checkProfile serverName "seccomp" (Seccomp security).

Definition isValidMemoryFormat (memory : string) : bool :=
  if decide (memory = "") then true
  else
    let memory := ToLower memory in
    let number s := bool_decide (is_Some (Atoi s)) in
    if existsb (HasSuffix memory) ["b"; "k"; "m"; "g"]
    then number (stake (String.length memory - 1) memory)
    else number memory.

Definition validateResourceLimits (serverName : string) (limits : ResourceLimits) :
    res string unit :=
  _ ← guard_else (String.eqb (CPUs limits) "" || parsesFloat (CPUs limits))
        (serverText serverName ("has invalid CPU limit: " +:+ quoted (CPUs limits)));
  _ ← guard_else (isValidMemoryFormat (Memory limits))
        (serverText serverName ("has invalid memory limit format: " +:+ quoted (Memory limits)));
  _ ← guard_else (isValidMemoryFormat (MemorySwap limits))
        (serverText serverName ("has invalid memory swap format: " +:+ quoted (MemorySwap limits)));
  guard_else (0 <=? PIDs limits)
    (serverText serverName ("has invalid PIDs limit: " +:+ Itoa (PIDs limits) +:+ " (must be >= 0)")).

Definition validTransports : list string := ["stdio"; "http"; "https"; "tcp"; "websocket"; "http+sse"].

Definition validateConnection (name : string) (conn : ConnectionConfig) : res string unit :=
  _ ← guard_else (bool_decide (Transport conn ∈ validTransports))
        ("connection " +:+ quoted name +:+ " has invalid transport: " +:+ quoted (Transport conn));
  guard_else ((0 <=? ConnPort conn) && (ConnPort conn <=? 65535))
    ("connection " +:+ quoted name +:+ " has invalid port: " +:+ Itoa (ConnPort conn)).

Definition validateOAuthConfig (oauth : OAuthConfig) : res string unit :=
  _ ← guard_else (negb (String.eqb (Issuer oauth) "")) "oauth.issuer is required when OAuth is enabled";
  _ ← checkDuration (AccessTokenTTL oauth) (λ e, "invalid oauth.tokens.access_token_ttl: " +:+ e);
  checkDuration (RefreshTokenTTL oauth) (λ e, "invalid oauth.tokens.refresh_token_ttl: " +:+ e).

(** [order] is the order in which the map of connections is visited. *)
Definition validateConnections (order : list string) (conns : gmap string ConnectionConfig) :
    res string unit :=
  each (λ _ name, match conns !! name with
                  | Some conn => validateConnection name conn
                  | None => Ok tt
                  end) order.

Definition validateGlobalConfig (order : list string) (config : ComposeConfig) : res string unit :=
  _ ← guard_else (negb (ProxyAuthEnabled (ProxyAuth config) && String.eqb (APIKey (ProxyAuth config)) ""))
        "proxy_auth is enabled but api_key is not specified";
  _ ← (if DashboardEnabled (Dashboard config) then
         _ ← guard_else ((0 <? DashboardPort (Dashboard config)) &&
                         (DashboardPort (Dashboard config) <=? 65535))
               "dashboard port must be between 1 and 65535";
         guard_else (negb (String.eqb (ProxyURL (Dashboard config)) ""))
           "dashboard is enabled but proxy_url is not specified"
       else Ok tt);
  _ ← validateConnections order (Connections config);
  match OAuth config with
  | Some oauth => if OAuthEnabled oauth then validateOAuthConfig oauth else Ok tt
  | None => Ok tt
  end.

(** The body of the loop over the servers. *)
Definition validateServer (servers : gmap string ServerConfig) (name : string)
    (server : ServerConfig) : res string unit :=
  _ ← validateServerConfig name server;
  _ ← each (λ _ dep, guard_else (bool_decide (is_Some (servers !! dep)))
                       (serverText name ("depends on undefined server " +:+ quoted dep)))
        (DependsOn server);
  _ ← match HumanControl server with
      | Some hc => validateHumanControlConfig name hc
      | None => Ok tt
      end;
  _ ← validateResourcePaths name (Resources server);
  _ ← validateToolsConfig name (Tools server);
  _ ← validateSecurityConfig name (Security server);
  validateResourceLimits name (Limits server).

(** [serverOrder] and [connOrder] are the orders of the two maps. *)
Definition ValidateConfig (serverOrder connOrder : list string) (config : ComposeConfig) :
    res string unit :=
  _ ← guard_else (String.eqb (Version config) "1")
        ("unsupported version: " +:+ quoted (Version config) +:+ ", expected '1'");
  _ ← each (λ _ name, match Servers config !! name with
                      | Some server => validateServer (Servers config) name server
                      | None => Ok tt
                      end) serverOrder;
  validateGlobalConfig connOrder config.

(** ** All problems of a configuration *)

Record ValidationError := { File : string; Line : Z; Path : string; Message : string }.

(** [quote] is the rendering of a string by %q. *)
Context (quote : string → string).

Definition stripServerPrefix (msg name : string) : string :=
  let prefix1 := "server " +:+ quoted name +:+ " " in
  let prefix2 := "server " +:+ quoted name in
  if HasPrefix msg prefix1 then TrimSpace (sdrop (String.length prefix1) msg)
  else if HasPrefix msg prefix2 then TrimSpace (sdrop (String.length prefix2) msg)
  else msg.

Definition globalErrorPath (msg : string) : string :=
  if Contains msg "proxy_auth" then "proxy_auth"
  else if Contains msg "dashboard" then "dashboard"
  else if Contains msg "oauth" then "oauth"
  else if Contains msg "connection" then "connections"
  else "".

(** What [add] is given for the error of a check of one server. *)
Definition serverProblem (path name : string) (r : res string unit) : list (string * string) :=
  match r with Ok _ => [] | Err e => [(path, stripServerPrefix e name)] end.

(** The body of the loop over the sorted names. *)
Definition serverProblems (servers : gmap string ServerConfig) (name : string)
    (server : ServerConfig) : list (string * string) :=
  let base := "servers." +:+ name in
  serverProblem base name (validateServerConfig name server) ++
  omap (λ dep, if decide (servers !! dep = None)
               then Some (base +:+ ".depends_on", "depends on undefined server " +:+ quote dep)
               else None) (DependsOn server) ++
  match HumanControl server with
  | Some hc =>
      serverProblem (base +:+ ".lifecycle.human_control") name (validateHumanControlConfig name hc)
  | None => []
  end ++
  serverProblem (base +:+ ".resources") name (validateResourcePaths name (Resources server)) ++
  serverProblem (base +:+ ".tools") name (validateToolsConfig name (Tools server)) ++
  serverProblem (base +:+ ".security") name (validateSecurityConfig name (Security server)) ++
  serverProblem (base +:+ ".deploy.resources") name (validateResourceLimits name (Limits server)).

(** [cycle[0]] exists in every cycle. *)
Definition cycleProblem (cycle : list string) : string * string :=
  ("servers." +:+ default "" (head cycle) +:+ ".depends_on",
   "circular dependency detected: " +:+ Join cycle " -> ").

(** The closure [add]; [lookup] always has enough fuel. *)
Definition located (li : lineIndex) (p : string * string) : ValidationError :=
  {| File := file li; Line := default 0 (lookup (Some li) p.1); Path := p.1; Message := p.2 |}.

(** [None] would be a search for cycles that runs out of fuel. *)
Definition collectValidationErrors (connOrder : list string) (cfg : ComposeConfig)
    (li : lineIndex) : option (list ValidationError) :=
  let deps := DependsOn <$> Servers cfg in
  let version :=
    if decide (Version cfg = "1") then []
    else [("version", "unsupported version: " +:+ quote (Version cfg) +:+ ", expected " +:+
                      quote "1")] in
  let servers :=
    concat ((λ name, match Servers cfg !! name with
                     | Some server => serverProblems (Servers cfg) name server
                     | None => []
                     end) <$> sortedNames deps) in
  let global :=
    match validateGlobalConfig connOrder cfg with
    | Ok _ => []
    | Err e => [{| File := file li; Line := default 0 (lookup (Some li) (globalErrorPath e));
                   Path := ""; Message := e |}]
    end in
  cycles ← findDependencyCycles deps;
  Some ((located li <$> version ++ servers ++ (cycleProblem <$> cycles)) ++ global).

(** ** The two validations agree *)

Lemma eachFrom_Ok {A} (f : Z → A → res string unit) (g : A → Prop) i l :
  (∀ j x, f j x = Ok tt ↔ g x) → eachFrom f i l = Ok tt ↔ ∀ x, x ∈ l → g x.
Proof.
  clear. intros Hf. revert i. induction l as [|x l IH]; intros i; simpl.
  { split; [|done]. intros _ x Hx. by inversion Hx. }
  rewrite res_bind_Ok. split.
  - intros ([] & Hx & Hl) y [->|Hy]%elem_of_cons; [by eapply Hf|]. by eapply IH.
  - intros Hall. exists tt. split; [apply Hf, Hall; set_solver|]. apply IH. set_solver.
Qed.

Lemma each_Ok {A} (f : Z → A → res string unit) (g : A → Prop) l :
  (∀ j x, f j x = Ok tt ↔ g x) → each f l = Ok tt ↔ ∀ x, x ∈ l → g x.
Proof. apply eachFrom_Ok. Qed.

Lemma seq_Ok (r : res string unit) (k : unit → res string unit) :
  (x ← r; k x) = Ok tt ↔ r = Ok tt ∧ k tt = Ok tt.
Proof. clear. destruct r as [[]|]; simpl; naive_solver. Qed.

Lemma serverProblem_nil path name r : serverProblem path name r = [] ↔ r = Ok tt.
Proof. clear. destruct r as [[]|]; simpl; naive_solver. Qed.

Lemma omap_nil {A B} (f : A → option B) l : omap f l = [] ↔ ∀ x, x ∈ l → f x = None.
Proof.
  clear. induction l as [|x l IH]; simpl; [split; [|done]; intros _ x Hx; by inversion Hx|].
  split.
  - destruct (f x) eqn:Hx; [done|]. intros Hl y [->|Hy]%elem_of_cons; [done|]. by apply IH.
  - intros Hall. rewrite (Hall x) by set_solver. apply IH. set_solver.
Qed.

Lemma fmap_empty {A B} (f : A → B) (l : list A) : f <$> l = [] ↔ l = [].
Proof. clear. split; [apply fmap_nil_inv|by intros ->]. Qed.

(** One server has a problem listed exactly when its checks fail. *)
Lemma serverProblems_nil servers name server :
  serverProblems servers name server = [] ↔ validateServer servers name server = Ok tt.
Proof.
  unfold serverProblems, validateServer.
  rewrite !app_nil, !serverProblem_nil, !seq_Ok.
  rewrite (each_Ok _ (λ dep, is_Some (servers !! dep))), omap_nil.
  2: { intros _ dep. rewrite guard_else_Ok. apply bool_decide_eq_true. }
  assert (∀ dep : string,
    (if decide (servers !! dep = None)
     then Some ("servers." +:+ name +:+ ".depends_on", "depends on undefined server " +:+ quote dep)
     else None) = None ↔ is_Some (servers !! dep)) as Hdep.
  { intros dep. rewrite <-not_eq_None_Some. case_decide; naive_solver. }
  setoid_rewrite Hdep.
  destruct (HumanControl server); rewrite ?serverProblem_nil; naive_solver.
Qed.

(** What [ValidateConfig] checks, for every order of the servers. *)
Lemma servers_Ok order config :
  range_order (Servers config) order →
  each (λ _ name, match Servers config !! name with
                  | Some server => validateServer (Servers config) name server
                  | None => Ok tt
                  end) order = Ok tt ↔
  ∀ name server, Servers config !! name = Some server →
    validateServer (Servers config) name server = Ok tt.
Proof.
  clear quote. intros Ho. rewrite (each_Ok _ (λ name, ∀ server, Servers config !! name = Some server →
    validateServer (Servers config) name server = Ok tt)).
  - split.
    + intros Hall name server Hs. apply Hall; [|done]. apply (range_order_elem _ _ _ Ho). eauto.
    + intros Hall name _ server. apply Hall.
  - intros _ name. destruct (Servers config !! name); naive_solver.
Qed.

Lemma connections_Ok order order' conns :
  range_order conns order → range_order conns order' →
  validateConnections order conns = Ok tt ↔ validateConnections order' conns = Ok tt.
Proof.
  intros Ho Ho'. unfold validateConnections.
  rewrite !(each_Ok _ (λ name, match conns !! name with
                               | Some conn => validateConnection name conn
                               | None => Ok tt
                               end = Ok tt)) by done.
  by setoid_rewrite (range_order_elem _ _ _ Ho); setoid_rewrite (range_order_elem _ _ _ Ho').
Qed.

Lemma global_Ok order order' config :
  range_order (Connections config) order → range_order (Connections config) order' →
  validateGlobalConfig order config = Ok tt ↔ validateGlobalConfig order' config = Ok tt.
Proof.
  intros Ho Ho'. unfold validateGlobalConfig. rewrite !seq_Ok.
  by rewrite (connections_Ok _ _ _ Ho Ho').
Qed.

Lemma global_nil order config li :
  match validateGlobalConfig order config with
  | Ok _ => []
  | Err e => [{| File := file li; Line := default 0 (lookup (Some li) (globalErrorPath e));
                 Path := ""; Message := e |}]
  end = [] ↔ validateGlobalConfig order config = Ok tt.
Proof. clear quote parsesFloat. destruct (validateGlobalConfig order config) as [[]|]; naive_solver. Qed.

Lemma servers_nil (config : ComposeConfig) :
  concat ((λ name, match Servers config !! name with
                   | Some server => serverProblems (Servers config) name server
                   | None => []
                   end) <$> sortedNames (DependsOn <$> Servers config)) = [] ↔
  ∀ name server, Servers config !! name = Some server →
    validateServer (Servers config) name server = Ok tt.
Proof.
  rewrite concat_nil_Forall, Forall_fmap, Forall_forall. split.
  - intros Hall name server Hs. apply serverProblems_nil.
    specialize (Hall name). simpl in Hall. rewrite Hs in Hall. apply Hall, sortedNames_elem.
    rewrite lookup_fmap, Hs. by eexists.
  - intros Hall name _. simpl. destruct (Servers config !! name) eqn:Hs; [|done].
    by apply serverProblems_nil, Hall.
Qed.

(** The list of problems is complete as a check. *)
Lemma collect_nil_iff (serverOrder connOrder connOrder' : list string) (config : ComposeConfig)
    (li : lineIndex) :
  range_order (Servers config) serverOrder →
  range_order (Connections config) connOrder → range_order (Connections config) connOrder' →
  ∃ errs, collectValidationErrors connOrder config li = Some errs ∧
    (errs = [] ↔ ValidateConfig serverOrder connOrder' config = Ok tt ∧
                 ∀ n, ¬ tc (edge (DependsOn <$> Servers config)) n n).
Proof.
  intros Hs Hc Hc'. unfold collectValidationErrors.
  destruct (findDependencyCycles (DependsOn <$> Servers config)) as [cs|] eqn:Hcs.
  2: { by destruct (findDependencyCycles_state (DependsOn <$> Servers config)) as (? & ? & _);
       simplify_eq. }
  simpl. eexists. split; [done|].
  rewrite app_nil, global_nil, fmap_empty, !app_nil, fmap_empty, servers_nil.
  unfold ValidateConfig. rewrite !seq_Ok, (servers_Ok _ _ Hs), (global_Ok _ _ _ Hc Hc').
  rewrite <-cycles_none_iff, Hcs, guard_else_Ok, String.eqb_eq.
  case_decide; naive_solver.
Qed.

(** The problems with a path are located by it. *)
Lemma collect_lines connOrder config li errs :
  collectValidationErrors connOrder config li = Some errs →
  Forall (λ e, Path e ≠ "" → closest_line (paths li) (Path e) (Line e)) errs.
Proof.
  unfold collectValidationErrors.
  destruct (findDependencyCycles _) as [cs|]; simpl; intros [= <-].
  apply Forall_app. split.
  - rewrite Forall_fmap. apply Forall_true. intros p _. cbn [compose located Path Line].
    by destruct (lookup_closest_line li p.1) as (line & -> & Hl).
  - destruct (validateGlobalConfig connOrder config); by repeat constructor.
Qed.

(** C39: the two validations agree.  Listing the problems always terminates,
    and for every configuration, whatever order Go's maps are visited in, the list is
    empty exactly when [ValidateConfig] accepts the configuration and no
    server depends on itself, directly or through others.  The line of every
    problem that has a path is that of the closest ancestor of the path in the file. *)
Theorem collect_agrees (serverOrder connOrder connOrder' : list string) (config : ComposeConfig)
    (li : lineIndex) :
  range_order (Servers config) serverOrder →
  range_order (Connections config) connOrder → range_order (Connections config) connOrder' →
  ∃ errs, collectValidationErrors connOrder config li = Some errs ∧
    (errs = [] ↔ ValidateConfig serverOrder connOrder' config = Ok tt ∧
                 ∀ n, ¬ tc (edge (DependsOn <$> Servers config)) n n) ∧
    Forall (λ e, Path e ≠ "" → closest_line (paths li) (Path e) (Line e)) errs.
Proof.
  intros Hs Hc Hc'. destruct (collect_nil_iff _ _ _ _ li Hs Hc Hc') as (errs & He & Hiff).
  exists errs. split_and!; [done|done|]. by apply (collect_lines connOrder config).
Qed.
End rules.

(** ** A configuration whose servers depend on each other *)

Definition no_resources : ResourcesConfig := {| Paths := []; SyncInterval := ""; CacheTTL := 0 |}.

Definition plain_server (deps : list string) (ports : list string) : ServerConfig := {|
  Command := "run"; Image := ""; BuildContext := ""; Protocol := "http"; HttpPort := 0;
  Args := []; Ports := ports; Capabilities := ["tools"]; Env := ∅; DependsOn := deps;
  HumanControl := None; Resources := no_resources; Tools := [];
  Security := {| AppArmor := ""; Seccomp := "" |};
  Limits := {| CPUs := ""; Memory := "512m"; MemorySwap := ""; PIDs := 0 |} |}.

Definition circular_config : ComposeConfig := {|
  Version := "1";
  Servers := {["a" := plain_server ["b"] ["8080"]; "b" := plain_server ["a"] ["80:80"]]};
  Connections := {["c" := {| Transport := "tcp"; ConnPort := 9000 |}]};
  Environments := ∅; CurrentEnv := "";
  ProxyAuth := {| ProxyAuthEnabled := false; APIKey := "" |};
  Dashboard := {| DashboardEnabled := false; DashboardPort := 0; ProxyURL := "" |};
  OAuth := None; RegistryURL := ""; Proxy := {| Proxy_URL := ""; Proxy_Host := ""; Proxy_Port := 0 |} |}.

Definition circular_index : lineIndex :=
  {| file := "matey.yaml"; paths := {["servers" := 2; "servers.a" := 3; "" := 1]} |}.

(** [ValidateConfig] accepts it, and the list has the cycle, at the line of the
    server. *)
Theorem collect_agrees_witness :
  collectValidationErrors (λ s, s) (λ _, true) (λ s, s) ["c"] circular_config circular_index =
    Some [{| File := "matey.yaml"; Line := 3; Path := "servers.a.depends_on";
             Message := "circular dependency detected: a -> b -> a" |}] ∧
  ValidateConfig (λ s, s) (λ _, true) ["b"; "a"] ["c"] circular_config = Ok tt ∧
  ∃ errs, collectValidationErrors (λ s, s) (λ _, true) (λ s, s) ["c"] circular_config circular_index =
      Some errs ∧
    (errs = [] ↔ ValidateConfig (λ s, s) (λ _, true) ["b"; "a"] ["c"] circular_config = Ok tt ∧
       ∀ n, ¬ tc (edge (DependsOn <$> Servers circular_config)) n n) ∧
    Forall (λ e, Path e ≠ "" → closest_line (paths circular_index) (Path e) (Line e)) errs.
Proof.
  split; [by vm_compute|]. split; [by vm_compute|]. apply collect_agrees.
  - unfold range_order. apply (bool_decide_unpack _). by vm_compute.
  - unfold range_order. apply (bool_decide_unpack _). by vm_compute.
  - unfold range_order. apply (bool_decide_unpack _). by vm_compute.
Defined.
