(* ===== verification/ConfigLoad.v ===== *)
(** * Loading the configuration

    The rest of internal/config/config.go and of internal/config/validate.go:
    the .env file, the expansion of environment variables, the lines of the YAML
    tree, the overrides of an environment, [LoadConfig] and [ValidateFile], and
    the accessors.  Reading files and gopkg.in/yaml.v3 are parameters; os.ExpandEnv is
    modelled as the standard library has it. *)
From S2P Require Import Prelude GoString GoPath GoNum GoTime ConfigValidate ConfigRules.

#[local] Open Scope Z_scope.

Set Default Proof Using "Type*".

(** ** The environment of the process *)

Notation Environ := (gmap string string).

Definition Getenv (env : Environ) (key : string) : string := default "" (env !! key).

Definition hasNUL (s : string) : bool := negb (CountByte s "000" =? 0)%nat.

(** Setenv refuses an empty key, one with an equals sign, and zero bytes. *)
Definition Setenv (env : Environ) (key value : string) : Environ :=
  if String.eqb key "" || negb (CountByte key "=" =? 0)%nat || hasNUL key || hasNUL value
  then env else <[key := value]> env.

(** *** os.ExpandEnv *)

Definition isShellSpecialVar (c : ascii) : bool :=
  isDigitByte c || bool_decide (c ∈ ["*"; "#"; "$"; "@"; "!"; "?"; "-"]%char).

Definition isAlphaNum (c : ascii) : bool :=
  Ascii.eqb c "_" || isDigitByte c || inRange 97 122 c || inRange 65 90 c.

Fixpoint alphaNums (s : string) : string :=
  match s with
  | String c s' => if isAlphaNum c then String c (alphaNums s') else ""
  | "" => ""
  end.

(** The name at the start of a non-empty text, and the bytes it takes. *)
Definition getShellName (s : string) : string * nat :=
  match s with
  | String "{" rest =>
      match IndexByte rest "}" with
      | Some O => ("", 2%nat)
      | Some i => (stake i rest, (i + 2)%nat)
      | None => ("", 1%nat)
      end
  | String c _ =>
      if isShellSpecialVar c then (byte1 c, 1%nat)
      else (alphaNums s, String.length (alphaNums s))
  | "" => ("", O)
  end.

(** The loop of os.Expand; the next [skip] bytes belong to a name. *)
Fixpoint expandFrom (mapping : string → string) (skip : nat) (s : string) : string :=
  match s with
  | "" => ""
  | String c s' =>
      match skip with
      | S skip' => expandFrom mapping skip' s'
      | O =>
          if Ascii.eqb c "$" && negb (String.eqb s' "") then
            let '(name, w) := getShellName s' in
            (if String.eqb name "" then (if decide (w = O) then "$" else "") else mapping name) +:+
            expandFrom mapping w s'
          else String c (expandFrom mapping O s')
      end
  end.

Definition ExpandEnv (env : Environ) (s : string) : string := expandFrom (Getenv env) 0 s.

(** *** The .env file *)

(** A line of the file: the variable it assigns, if any. *)
Definition envLine (line : string) : option (string * string) :=
  let line := TrimSpace line in
  if String.eqb line "" || HasPrefix line "#" then None
  else match SplitByte2 line "=" with
       | [key; value] => Some (TrimSpace key, TrimSpace value)
       | _ => None
       end.

Definition setIfEmpty (env : Environ) (kv : string * string) : Environ :=
  if decide (Getenv env kv.1 = "") then Setenv env kv.1 kv.2 else env.

Section files.
(** The contents of a file, if it can be read. *)
Context (readFile : string → option string).

Definition loadDotEnv (configFilePath : string) (env : Environ) : Environ :=
  match readFile (Join2 (Dir configFilePath) ".env") with
  | None => env
  | Some data => foldl setIfEmpty env (omap envLine (SplitByte data newline))
  end.
End files.

(** ** The lines of a YAML document *)

Inductive NodeKind := DocumentNode | SequenceNode | MappingNode | ScalarNode | AliasNode.
#[export] Instance NodeKind_eq_dec : EqDecision NodeKind.
Proof. solve_decision. Defined.

(** The fields of yaml.Node that are read; an alias has no content. *)
Inductive Node := mkNode (Kind : NodeKind) (NodeValue : string) (NodeLine : Z) (Content : list Node).

Definition Kind (n : Node) : NodeKind := let 'mkNode k _ _ _ := n in k.
Definition NodeValue (n : Node) : string := let 'mkNode _ v _ _ := n in v.
Definition NodeLine (n : Node) : Z := let 'mkNode _ _ l _ := n in l.
Definition Content (n : Node) : list Node := let 'mkNode _ _ _ c := n in c.

Definition keyPath (prefix key : string) : string :=
  if decide (prefix = "") then key else prefix +:+ "." +:+ key.

Definition itemPath (prefix : string) (i : Z) : string := prefix +:+ "[" +:+ Itoa i +:+ "]".

Section index.
(** The recursive call. *)
Context (index : string → Node → gmap string Z → gmap string Z) (prefix : string).

(** Content alternates key, value, key, value... *)
Fixpoint indexPairs (l : list Node) (li : gmap string Z) : gmap string Z :=
  match l with
  | key :: val :: rest =>
      let path := keyPath prefix (NodeValue key) in
      indexPairs rest (index path val (<[path := NodeLine key]> li))
  | _ => li
  end.

Fixpoint indexItems (i : Z) (l : list Node) (li : gmap string Z) : gmap string Z :=
  match l with
  | child :: rest =>
      let path := itemPath prefix i in
      indexItems (i + 1) rest (index path child (<[path := NodeLine child]> li))
  | [] => li
  end.
End index.

Fixpoint indexNode (prefix : string) (node : Node) (li : gmap string Z) : gmap string Z :=
  let 'mkNode kind _ _ content := node in
  match kind with
  | MappingNode => indexPairs indexNode prefix content li
  | SequenceNode => indexItems indexNode prefix 0 content li
  | _ => li
  end.

(** [root] is what was parsed, never nil. *)
Definition buildLineIndex (file : string) (root : Node) : lineIndex :=
  let doc :=
    match Content root with
    | child :: _ => if decide (Kind root = DocumentNode) then child else root
    | [] => root
    end in
  {| file := file; paths := indexNode "" doc ∅ |}.

(** ** The errors of the YAML library *)

(** fmt.Sscanf of one %d: white space but no line break, a sign, digits. *)
Fixpoint skipBlanks (l : list (rune * string)) : option string :=
  match l with
  | [] => Some ""
  | (r, t) :: rest =>
      if decide (r = 10%N) then None
      else if decide (r = 13%N) then
        match rest with
        | (10%N, _) :: _ => None
        | _ => skipBlanks rest
        end
      else if IsSpace r then skipBlanks rest
      else Some (concatS (snd <$> (r, t) :: rest))
  end.

Fixpoint digitsPrefix (s : string) : string :=
  match s with
  | String c s' => if isDigitByte c then String c (digitsPrefix s') else ""
  | "" => ""
  end.

Definition scanInt (s : string) : option Z :=
  s ← skipBlanks (segments s);
  match s with
  | String "-" rest => Atoi ("-" +:+ digitsPrefix rest)
  | String "+" rest => Atoi ("+" +:+ digitsPrefix rest)
  | _ => Atoi (digitsPrefix s)
  end.

Definition splitYAMLLine (msg : string) : Z * string :=
  let clean := TrimSpace (TrimSpace (TrimPrefix msg "yaml:")) in
  if HasPrefix clean "line " then
    let rest := sdrop (String.length "line ") clean in
    match IndexByte rest ":" with
    | None => (0, clean)
    | Some idx =>
        match scanInt (stake idx rest) with
        | None => (0, clean)
        | Some line => (line, TrimSpace (sdrop (idx + 1) rest))
        end
    end
  else (0, clean).

(** A syntax error, or a *yaml.TypeError. *)
Inductive YAMLError :=
  | SyntaxError (text : string)
  | TypeError (Errors : list string).

Definition yamlErrorsToValidation (file : string) (err : YAMLError) : list ValidationError :=
  let one msg :=
    let '(line, clean) := splitYAMLLine msg in
    {| File := file; Line := line; Path := ""; Message := clean |} in
  match err with
  | TypeError Errors => one <$> Errors
  | SyntaxError text => [one text]
  end.

(** ** Overrides *)

(** What an override does to its server. *)
Definition overrideServer (server : ServerConfig) (overrides : ServerOverrideConfig) : ServerConfig :=
  let res := Resources server in
  let over := OverrideResources overrides in
  {| Command := Command server; Image := Image server; BuildContext := BuildContext server;
     Protocol := Protocol server; HttpPort := HttpPort server; Args := Args server;
     Ports := Ports server; Capabilities := Capabilities server;
     Env := OverrideEnv overrides ∪ Env server;
     DependsOn := DependsOn server; HumanControl := HumanControl server;
     Resources := {|
       Paths := if decide (Paths over = []) then Paths res else Paths over;
       SyncInterval := if decide (SyncInterval over = "") then SyncInterval res
                       else SyncInterval over;
       CacheTTL := if 0 <? CacheTTL over then CacheTTL over else CacheTTL res |};
     Tools := Tools server; Security := Security server; Limits := Limits server |}.

Definition withServers (servers : gmap string ServerConfig) (config : ComposeConfig) : ComposeConfig := {|
  Version := Version config; Servers := servers; Connections := Connections config;
  Environments := Environments config; CurrentEnv := CurrentEnv config;
  ProxyAuth := ProxyAuth config; Dashboard := Dashboard config; OAuth := OAuth config;
  RegistryURL := RegistryURL config; Proxy := Proxy config |}.

Definition withCurrentEnv (name : string) (config : ComposeConfig) : ComposeConfig := {|
  Version := Version config; Servers := Servers config; Connections := Connections config;
  Environments := Environments config; CurrentEnv := name;
  ProxyAuth := ProxyAuth config; Dashboard := Dashboard config; OAuth := OAuth config;
  RegistryURL := RegistryURL config; Proxy := Proxy config |}.

(** The body of the loop over the overrides. *)
Definition overrideOne (overrides : gmap string ServerOverrideConfig)
    (servers : gmap string ServerConfig) (name : string) : gmap string ServerConfig :=
  match overrides !! name, servers !! name with
  | Some o, Some server => <[name := overrideServer server o]> servers
  | _, _ => servers
  end.

(** [order] is the order in which the overrides are visited. *)
Definition applyEnvironmentOverrides (order : list string) (config : ComposeConfig)
    (envConfig : EnvironmentConfig) : ComposeConfig :=
  withServers (foldl (overrideOne (OverrideServers envConfig)) (Servers config) order) config.

(** The steps that follow decoding, in both ways of loading; [orders] gives the
    order of each map of overrides. *)
Definition chooseEnvironment (orders : gmap string ServerOverrideConfig → list string)
    (env : Environ) (config : ComposeConfig) : ComposeConfig :=
  let envName := Getenv env "MCP_ENV" in
  let envName := if decide (envName = "") then "development" else envName in
  let config := withCurrentEnv envName config in
  match Environments config !! envName with
  | Some envConfig =>
      applyEnvironmentOverrides (orders (OverrideServers envConfig)) config envConfig
  | None => config
  end.

(** ** Accessors *)

Record TimeoutConfig := {
  Connect : string;
  Read : string;
  Write : string;
  Idle : string;
  HealthCheck : string;
  Shutdown : string;
  LifecycleHook : string;
}.

Definition second : Z := 1000000000.
Definition DefaultConnectTimeout : Z := 10 * second.
Definition DefaultReadTimeout : Z := 25 * 60 * second.
Definition DefaultProtoTimeout : Z := 60 * second.
Definition DefaultHealthTimeout : Z := 5 * second.

Definition durationOr (s : string) (fallback : Z) : Z :=
  if decide (s = "") then fallback else default fallback (ParseDuration s).

Definition GetConnectTimeout (tc : TimeoutConfig) : Z := durationOr (Connect tc) DefaultConnectTimeout.
Definition GetReadTimeout (tc : TimeoutConfig) : Z := durationOr (Read tc) DefaultReadTimeout.
Definition GetWriteTimeout (tc : TimeoutConfig) : Z := durationOr (Write tc) DefaultReadTimeout.
Definition GetIdleTimeout (tc : TimeoutConfig) : Z := durationOr (Idle tc) DefaultProtoTimeout.
Definition GetHealthCheckTimeout (tc : TimeoutConfig) : Z :=
  durationOr (HealthCheck tc) DefaultHealthTimeout.
Definition GetShutdownTimeout (tc : TimeoutConfig) : Z := durationOr (Shutdown tc) DefaultReadTimeout.
Definition GetLifecycleHookTimeout (tc : TimeoutConfig) : Z :=
  durationOr (LifecycleHook tc) DefaultReadTimeout.

(** [cwd] is the working directory, if it is known. *)
Definition GetProjectName (cwd : option string) (filePath : string) : string :=
  let dir := Dir filePath in
  Base (if decide (dir = ".") then default dir cwd else dir).

Definition IsCapabilityEnabled (server : ServerConfig) (capability : string) : bool :=
  existsb (String.eqb capability) (Capabilities server).

(** The second map wins. *)
Definition MergeEnv (serverEnv extraEnv : gmap string string) : gmap string string :=
  extraEnv ∪ serverEnv.

(** [order] is the order in which the map is visited. *)
Definition ConvertToEnvList (order : list string) (env : gmap string string) : list string :=
  omap (λ k, v ← env !! k; Some (k +:+ "=" +:+ v)) order.

Definition GetRegistryImage (c : ComposeConfig) (imageName : string) : string :=
  if decide (RegistryURL c = "") then imageName
  else if Contains imageName "/" && Contains (default "" (head (SplitByte imageName "/"))) ":"
  then imageName
  else if HasPrefix imageName (RegistryURL c +:+ "/") then imageName
  else RegistryURL c +:+ "/" +:+ imageName.

Definition GetProxyURL (c : ComposeConfig) : string :=
  let url := Proxy_URL (Proxy c) in
  if decide (url = "") then
    let host := if decide (Proxy_Host (Proxy c) = "") then "localhost" else Proxy_Host (Proxy c) in
    let port := if decide (Proxy_Port (Proxy c) = 0) then 9876 else Proxy_Port (Proxy c) in
    "http://" +:+ host +:+ ":" +:+ Itoa port
  else if negb (HasPrefix url "http://") && negb (HasPrefix url "https://") then "https://" +:+ url
  else url.

(** ** Loading and validating *)

Section load.
Context (durationError : string → string) (parsesFloat : string → bool) (quote : string → string).
Context (readFile : string → option string).
(** gopkg.in/yaml.v3: Unmarshal into the configuration, Unmarshal into a tree,
    and Decode of the tree; the text of an error. *)
Context (unmarshal : string → res YAMLError ComposeConfig)
        (parse : string → res YAMLError Node)
        (decode : Node → res YAMLError ComposeConfig)
        (errorText : YAMLError → string).
(** The orders in which the maps of a loaded configuration are visited. *)
Context (orders : gmap string ServerOverrideConfig → list string)
        (serverOrders : ComposeConfig → list string) (connOrders : ComposeConfig → list string).

(** [readError] is the text of os.ReadFile's error. *)
Definition LoadConfig (readError : string) (filePath : string) (env : Environ) :
    Environ * res string ComposeConfig :=
  let env := loadDotEnv readFile filePath env in
  (env,
   match readFile filePath with
   | None => Err ("failed to read config file " +:+ quoted filePath +:+ ": " +:+ readError)
   | Some data =>
       match unmarshal (ExpandEnv env data) with
       | Err e => Err ("failed to parse config file " +:+ quoted filePath +:+ ": " +:+ errorText e)
       | Ok config =>
           let config := chooseEnvironment orders env config in
           match ValidateConfig durationError parsesFloat (serverOrders config) (connOrders config)
                   config with
           | Ok _ => Ok config
           | Err e => Err ("invalid configuration in " +:+ quoted filePath +:+ ": " +:+ e)
           end
       end
   end).

(** [None] would be a search for cycles that runs out of fuel. *)
Definition ValidateFile (readError : string) (filePath : string) (env : Environ) :
    Environ * option (res (list ValidationError) ComposeConfig) :=
  let env := loadDotEnv readFile filePath env in
  (env,
   match readFile filePath with
   | None =>
       Some (Err [{| File := filePath; Line := 0; Path := "";
                     Message := "failed to read config file: " +:+ readError |}])
   | Some data =>
       match parse (ExpandEnv env data) with
       | Err e => Some (Err (yamlErrorsToValidation filePath e))
       | Ok root =>
           let li := buildLineIndex filePath root in
           match decode root with
           | Err e => Some (Err (yamlErrorsToValidation filePath e))
           | Ok cfg =>
               let cfg := chooseEnvironment orders env cfg in
               errs ← collectValidationErrors durationError parsesFloat quote (connOrders cfg) cfg li;
               Some (if decide (errs = []) then Ok cfg else Err errs)
           end
       end
   end).

End load.

(** ** The .env file *)

(** Setenv accepts the assignment. *)
Definition settable (key value : string) : bool :=
  negb (String.eqb key "" || negb (CountByte key "=" =? 0)%nat || hasNUL key || hasNUL value).

(** The first value other than the empty one that the assignments give [key]. *)
Fixpoint firstAssigned (key : string) (l : list (string * string)) : string :=
  match l with
  | [] => ""
  | (k, v) :: rest =>
      if bool_decide (k = key) && settable k v && negb (String.eqb v "") then v
      else firstAssigned key rest
  end.

Lemma Getenv_setIfEmpty env k v key :
  Getenv (setIfEmpty env (k, v)) key =
    if bool_decide (k = key) && bool_decide (Getenv env key = "") && settable k v then v
    else Getenv env key.
Proof.
  unfold setIfEmpty, Setenv, settable. simpl.
  destruct (_ || _ || _ || _); simpl; rewrite ?andb_false_r, ?andb_true_r.
  { by case_decide. }
  destruct (decide (k = key)) as [->|Hk].
  - rewrite (bool_decide_true (key = key)) by done. simpl.
    case_decide as He; [rewrite bool_decide_true by done|by rewrite bool_decide_false].
    unfold Getenv. by rewrite lookup_insert_eq.
  - rewrite (bool_decide_false (k = key)) by done. simpl. case_decide; [|done].
    unfold Getenv. by rewrite lookup_insert_ne.
Qed.

Lemma Getenv_assignments l env key :
  Getenv (foldl setIfEmpty env l) key =
    if decide (Getenv env key = "") then firstAssigned key l else Getenv env key.
Proof.
  revert env. induction l as [|[k v] l IH]; intros env; simpl; [by case_decide|].
  rewrite IH, Getenv_setIfEmpty.
  destruct (bool_decide (k = key)), (settable k v); simpl; rewrite ?andb_false_r; try done.
  destruct (decide (Getenv env key = "")) as [He|He].
  - rewrite (bool_decide_true _ He). simpl.
    destruct (String.eqb_spec v "") as [->|Hv]; simpl; try case_decide; done.
  - rewrite (bool_decide_false _ He). simpl. by rewrite decide_False.
Qed.

(** The variables after the .env file is read, given by its assignments in
    order: a variable that is set keeps its value, and another gets
    the first non-empty value assigned to it. *)
Theorem loadDotEnv_spec (readFile : string → option string) (path : string) (env : Environ)
    (key : string) :
  Getenv (loadDotEnv readFile path env) key =
    if decide (Getenv env key = "") then
      match readFile (Join2 (Dir path) ".env") with
      | Some data => firstAssigned key (omap envLine (SplitByte data newline))
      | None => ""
      end
    else Getenv env key.
Proof.
  unfold loadDotEnv. destruct (readFile _); [apply Getenv_assignments|by case_decide].
Qed.

(** ** The expansion of variables *)

(** No dollar sign is followed by what would start a name. *)
Definition startsName (c : ascii) : bool :=
  Ascii.eqb c "{" || isShellSpecialVar c || isAlphaNum c.

Fixpoint noVariable (s : string) : bool :=
  match s with
  | String "$" (String c _ as s') => negb (startsName c) && noVariable s'
  | String _ s' => noVariable s'
  | "" => true
  end.

Lemma getShellName_nothing c s : startsName c = false → getShellName (String c s) = ("", O).
Proof.
  unfold startsName. intros [[Hb Hs]%orb_false_iff Ha]%orb_false_iff.
  assert (alphaNums (String c s) = "") as Hn by (simpl; by rewrite Ha).
  destruct c as [[] [] [] [] [] [] [] []]; try done; by vm_compute in Hs, Ha.
Qed.

Lemma getShellName_empty c s : getShellName (String c s) = ("", O) → startsName c = false.
Proof.
  intros H. destruct (startsName c) eqn:Hc; [|done]. exfalso. revert H.
  unfold getShellName, startsName in *.
  destruct (Ascii.eqb_spec c "{") as [->|Hb].
  { destruct (IndexByte s "}") as [[|i]|]; intros [=]. }
  destruct (isShellSpecialVar c) eqn:Hs.
  { destruct c as [[] [] [] [] [] [] [] []]; try done. }
  simpl in Hc.
  assert (alphaNums (String c s) = String c (alphaNums s)) as -> by (simpl; by rewrite Hc).
  destruct c as [[] [] [] [] [] [] [] []]; try done.
Qed.

Lemma startsName_dollar : startsName "$" = true.
Proof. by vm_compute. Qed.

Lemma noVariable_cons c s : c ≠ "$"%char → noVariable (String c s) = noVariable s.
Proof. intros Hc. destruct c as [[] [] [] [] [] [] [] []]; first [done|by destruct Hc]. Qed.

Lemma noVariable_dollar c s :
  noVariable (String "$" (String c s)) = negb (startsName c) && noVariable (String c s).
Proof. done. Qed.

Lemma noVariable_app a b : CountByte a "$" = 0%nat → noVariable (a +:+ b) = noVariable b.
Proof.
  induction a as [|c a IH]; intros Ha; [done|]. simpl in Ha.
  destruct (Ascii.eqb_spec c "$") as [|Hc]; [lia|]. simpl.
  change (noVariable (String c (a +:+ b)) = noVariable b). rewrite noVariable_cons by done.
  by apply IH.
Qed.

(** [expandFrom] one byte at a time. *)
Lemma expandFrom_here m c s : c ≠ "$"%char → expandFrom m 0 (String c s) = String c (expandFrom m 0 s).
Proof. intros Hc. simpl. by destruct (Ascii.eqb_spec c "$"). Qed.

Lemma expandFrom_dollar m d s :
  expandFrom m 0 (String "$" (String d s)) =
    let '(name, w) := getShellName (String d s) in
    (if String.eqb name "" then (if decide (w = O) then "$" else "") else m name) +:+
    expandFrom m w (String d s).
Proof. done. Qed.

Lemma expandFrom_keeps m s : noVariable s = true → expandFrom m 0 s = s.
Proof.
  induction s as [|c s IH]; [done|]. intros Hs.
  destruct (decide (c = "$"%char)) as [->|Hc].
  - destruct s as [|d s]; [done|]. rewrite noVariable_dollar in Hs.
    apply andb_true_iff in Hs as [Hd%negb_true_iff Hs].
    rewrite expandFrom_dollar, (getShellName_nothing d s Hd), IH by done. done.
  - rewrite noVariable_cons in Hs by done. rewrite expandFrom_here by done. by rewrite IH.
Qed.

Lemma expandFrom_noVariable m skip s :
  (∀ x, CountByte (m x) "$" = 0%nat) → noVariable (expandFrom m skip s) = true.
Proof.
  intros Hm. revert skip. induction s as [|c s IH]; intros [|skip]; [done|done| |apply IH].
  destruct (decide (c = "$"%char)) as [->|Hc].
  2: { rewrite expandFrom_here, noVariable_cons by done. apply IH. }
  destruct s as [|d s]; [done|]. rewrite expandFrom_dollar.
  destruct (getShellName (String d s)) as [name w] eqn:Hg.
  destruct (String.eqb_spec name "") as [->|Hn].
  2: { rewrite noVariable_app by apply Hm. apply IH. }
  case_decide as Hw; [subst|apply IH]. apply getShellName_empty in Hg.
  assert (d ≠ "$"%char) as Hd by (intros ->; by rewrite startsName_dollar in Hg).
  specialize (IH O). rewrite expandFrom_here in IH |- * by done.
  change (noVariable (String "$" (String d (expandFrom m 0 s))) = true).
  by rewrite noVariable_dollar, Hg, IH.
Qed.

(** A configuration file has no way to write a literal dollar sign before a
    letter, digit, brace or special character, as in a password: unless a
    variable's value brings one in, no such text is left after expansion.  Text without
    it is unchanged, so expanding twice is expanding once. *)
Theorem ExpandEnv_no_literal (env : Environ) (s : string) :
  (∀ k v, env !! k = Some v → CountByte v "$" = 0%nat) →
  noVariable (ExpandEnv env s) = true ∧ ExpandEnv env (ExpandEnv env s) = ExpandEnv env s.
Proof.
  intros Henv. assert (noVariable (ExpandEnv env s) = true) as Hn.
  { apply expandFrom_noVariable. intros x. unfold Getenv.
    destruct (env !! x) eqn:Hx; [by eapply Henv|done]. }
  split; [done|]. by apply expandFrom_keeps.
Qed.

Theorem ExpandEnv_no_literal_witness :
  noVariable (ExpandEnv {["A" := "x"]} "key: pa$$word ${A} $A- 5$ $(y)") = true ∧
  ExpandEnv {["A" := "x"]} "key: pa$$word ${A} $A- 5$ $(y)" = "key: paword x x- 5$ $(y)".
Proof.
  split; [|by vm_compute]. apply ExpandEnv_no_literal.
  intros k v [_ <-]%lookup_singleton_Some. by vm_compute.
Defined.

(** ** The line index *)

(** [key] and [val] are a pair of a mapping's content. *)
Inductive pairIn (key val : Node) : list Node → Prop :=
  | pair_here rest : pairIn key val (key :: val :: rest)
  | pair_later k v rest : pairIn key val rest → pairIn key val (k :: v :: rest).

(** In the tree [node], found under [prefix], a mapping key or an item of a
    sequence with path [path] is at [line]. *)
Inductive locates : string → Node → string → Z → Prop :=
  | locates_key prefix v l content key val :
      pairIn key val content →
      locates prefix (mkNode MappingNode v l content) (keyPath prefix (NodeValue key)) (NodeLine key)
  | locates_value prefix v l content key val path line :
      pairIn key val content → locates (keyPath prefix (NodeValue key)) val path line →
      locates prefix (mkNode MappingNode v l content) path line
  | locates_item prefix v l content i child :
      content !! i = Some child →
      locates prefix (mkNode SequenceNode v l content) (itemPath prefix (Z.of_nat i)) (NodeLine child)
  | locates_inside prefix v l content i child path line :
      content !! i = Some child → locates (itemPath prefix (Z.of_nat i)) child path line →
      locates prefix (mkNode SequenceNode v l content) path line.

Fixpoint Node_ind_all (P : Node → Prop)
    (H : ∀ k v l content, Forall P content → P (mkNode k v l content)) (n : Node) : P n :=
  let 'mkNode k v l content := n in
  H k v l content
    ((fix all (c : list Node) : Forall P c :=
        match c with
        | [] => Forall_nil_2 _
        | m :: c' => Forall_cons_2 _ _ _ (Node_ind_all P H m) (all c')
        end) content).

Lemma list_pair_ind {A} (P : list A → Prop) :
  P [] → (∀ x, P [x]) → (∀ x y l, P l → P (x :: y :: l)) → ∀ l, P l.
Proof.
  intros H0 H1 H2. fix IH 1. intros [|x [|y l]]; [done|apply H1|apply H2, IH].
Qed.

(** What an index of the part [loc] of a tree adds to [li]: lines of the part,
    and one for every path of the part. *)
Definition indexes (loc : string → Z → Prop) (li li' : gmap string Z) : Prop :=
  (∀ p n, li' !! p = Some n → li !! p = Some n ∨ loc p n) ∧
  (∀ p, is_Some (li !! p) ∨ (∃ n, loc p n) → is_Some (li' !! p)).

Lemma indexes_insert path line li :
  indexes (λ p n, p = path ∧ n = line) li (<[path := line]> li).
Proof.
  split.
  - intros p n. rewrite lookup_insert_Some. naive_solver.
  - intros p H. destruct (decide (p = path)) as [->|Hp]; [rewrite lookup_insert_eq; by eexists|].
    rewrite lookup_insert_ne by done. destruct H as [|(? & -> & _)]; done.
Qed.

Lemma indexes_trans (loc1 loc2 : string → Z → Prop) li1 li2 li3 :
  indexes loc1 li1 li2 → indexes loc2 li2 li3 →
  indexes (λ p n, loc1 p n ∨ loc2 p n) li1 li3.
Proof. intros [Ha Ha'] [Hb Hb']. split; naive_solver. Qed.

Lemma indexes_none (loc : string → Z → Prop) li : (∀ p n, ¬ loc p n) → indexes loc li li.
Proof. intros Hn. split; naive_solver. Qed.

Lemma indexes_iff (loc loc' : string → Z → Prop) li li' :
  (∀ p n, loc p n ↔ loc' p n) → indexes loc li li' → indexes loc' li li'.
Proof. intros Heq [H1 H2]. split; naive_solver. Qed.

Section index_spec.
Context (index : string → Node → gmap string Z → gmap string Z) (prefix : string).

Lemma indexPairs_spec content li :
  Forall (λ m, ∀ prefix li, indexes (locates prefix m) li (index prefix m li)) content →
  indexes (λ p n, ∃ key val, pairIn key val content ∧
      ((p = keyPath prefix (NodeValue key) ∧ n = NodeLine key) ∨
       locates (keyPath prefix (NodeValue key)) val p n))
    li (indexPairs index prefix content li).
Proof.
  revert li. induction content as [|x|key val content IH] using list_pair_ind; intros li Hall.
  - apply indexes_none. intros p n (? & ? & Hp & _). by inversion Hp.
  - apply indexes_none. intros p n (? & ? & Hp & _). by inversion Hp.
  - apply Forall_cons in Hall as [_ [Hval Hrest]%Forall_cons]. simpl.
    eapply indexes_iff; cycle 1.
    + eapply indexes_trans; [apply indexes_insert|].
      eapply indexes_trans; [apply Hval|by apply IH].
    + intros p n. simpl. symmetry. split.
      * intros (k & v & Hp & Hor). inversion Hp; subst; naive_solver.
      * intros [Hh|[Hv|(k & v & Hp & Hor)]].
        -- exists key, val. split; [constructor|by left].
        -- exists key, val. split; [constructor|by right].
        -- exists k, v. split; [by constructor|done].
Qed.

Lemma indexItems_spec content i li :
  Forall (λ m, ∀ prefix li, indexes (locates prefix m) li (index prefix m li)) content →
  indexes (λ p n, ∃ j child, content !! j = Some child ∧
      ((p = itemPath prefix (i + Z.of_nat j) ∧ n = NodeLine child) ∨
       locates (itemPath prefix (i + Z.of_nat j)) child p n))
    li (indexItems index prefix i content li).
Proof.
  revert i li. induction content as [|child content IH]; intros i li Hall.
  - apply indexes_none. by intros p n (? & ? & ? & _).
  - apply Forall_cons in Hall as [Hc Hrest]. simpl.
    eapply indexes_iff; cycle 1.
    + eapply indexes_trans; [apply indexes_insert|].
      eapply indexes_trans; [apply Hc|by apply IH].
    + intros p n. simpl. symmetry. split.
      * intros ([|j] & c & Hj & Hor); simplify_eq/=; rewrite ?Z.add_0_r in Hor; [naive_solver|].
        right. right. exists j, c. split; [done|].
        by replace (i + 1 + Z.of_nat j) with (i + Z.of_nat (S j)) by lia.
      * intros [Hh|[Hv|(j & c & Hj & Hor)]].
        -- exists O, child. rewrite Z.add_0_r. split; [done|by left].
        -- exists O, child. rewrite Z.add_0_r. split; [done|by right].
        -- exists (S j), c. split; [done|].
           by replace (i + Z.of_nat (S j)) with (i + 1 + Z.of_nat j) by lia.
Qed.
End index_spec.

Lemma indexNode_spec node prefix li :
  indexes (locates prefix node) li (indexNode prefix node li).
Proof.
  revert prefix li. induction node as [kind v l content Hall] using Node_ind_all.
  intros prefix li. destruct kind; simpl.
  1, 4, 5: apply indexes_none; intros p n Hl; by inversion Hl.
  - eapply indexes_iff; [|by apply indexItems_spec]. intros p n. simpl. split.
    + intros (j & c & Hj & [[-> ->]|Hl]); [by apply locates_item|by eapply locates_inside].
    + intros Hl. inversion Hl; subst; naive_solver.
  - eapply indexes_iff; [|by apply indexPairs_spec]. intros p n. simpl. split.
    + intros (k & c & Hp & [[-> ->]|Hl]); [by eapply locates_key|by eapply locates_value].
    + intros Hl. inversion Hl; subst; naive_solver.
Qed.

(** The index of a document has a line for exactly the paths of its mapping
    keys and sequence items, and the line is that of such a key or item.
    (Two nodes can have one path, since keys may contain dots; one of their
    lines is kept.) *)
Theorem buildLineIndex_spec (fname : string) (doc root : Node) (p : string) :
  Kind root = DocumentNode → Content root = [doc] →
  (∀ line, paths (buildLineIndex fname root) !! p = Some line → locates "" doc p line) ∧
  (is_Some (paths (buildLineIndex fname root) !! p) ↔ ∃ line, locates "" doc p line).
Proof.
  intros Hk Hc. unfold buildLineIndex. rewrite Hc, decide_True by done. simpl.
  destruct (indexNode_spec doc "" ∅) as [H1 H2].
  assert (∀ line, indexNode "" doc ∅ !! p = Some line → locates "" doc p line) as Hl
    by (intros line [Hin|Hin]%H1; [by rewrite lookup_empty in Hin|done]).
  split; [done|]. split; [intros [line ?]; eauto|]. intros Hex. apply H2. by right.
Qed.

(** ** Overrides *)

Lemma foldl_overrideOne overrides order servers name :
  NoDup order →
  foldl (overrideOne overrides) servers order !! name =
    match servers !! name, overrides !! name with
    | Some server, Some o => Some (if decide (name ∈ order) then overrideServer server o else server)
    | r, _ => r
    end.
Proof.
  revert servers. induction order as [|n order IH]; intros servers Hnd; simpl.
  { by destruct (servers !! name), (overrides !! name). }
  apply NoDup_cons in Hnd as [Hn Hnd]. rewrite IH by done. unfold overrideOne.
  destruct (decide (n = name)) as [->|Hne].
  - destruct (overrides !! name) as [o|]; [|by destruct (servers !! name)].
    destruct (servers !! name) as [server|] eqn:Hs; [|by rewrite Hs].
    rewrite lookup_insert_eq, decide_False, decide_True by (try done; set_solver). done.
  - assert ((match overrides !! n with
             | Some o => match servers !! n with
                         | Some server => <[n:=overrideServer server o]> servers
                         | None => servers
                         end
             | None => servers
             end) !! name = servers !! name) as ->.
    { destruct (overrides !! n), (servers !! n); try done. by rewrite lookup_insert_ne. }
    destruct (servers !! name), (overrides !! name); try done.
    repeat case_decide; try done; set_solver.
Qed.

(** Whatever order the overrides are visited in, an environment overrides
    exactly the servers that exist, each by its own override. *)
Theorem applyEnvironmentOverrides_spec (order : list string) (config : ComposeConfig)
    (envConfig : EnvironmentConfig) (name : string) :
  range_order (OverrideServers envConfig) order →
  Servers (applyEnvironmentOverrides order config envConfig) !! name =
    match Servers config !! name, OverrideServers envConfig !! name with
    | Some server, Some o => Some (overrideServer server o)
    | r, _ => r
    end.
Proof.
  intros Ho. simpl. rewrite foldl_overrideOne by (by eapply range_order_NoDup).
  destruct (Servers config !! name), (OverrideServers envConfig !! name) eqn:Hn; try done.
  rewrite decide_True; [done|]. apply (range_order_elem _ _ _ Ho). by eexists.
Qed.

(** ** The two ways of loading *)

Section agree.
Context (durationError : string → string) (parsesFloat : string → bool) (quote : string → string).
Context (readFile : string → option string).
Context (unmarshal : string → res YAMLError ComposeConfig)
        (parse : string → res YAMLError Node)
        (decode : Node → res YAMLError ComposeConfig)
        (errorText : YAMLError → string).
Context (orders : gmap string ServerOverrideConfig → list string)
        (serverOrders : ComposeConfig → list string) (connOrders connOrders' : ComposeConfig → list string).

(** A file validates exactly when it loads and its servers do not depend on
    themselves.  With one environment and one file, [ValidateFile] always
    returns, leaves the environment as [LoadConfig] does, and returns a
    configuration exactly when [LoadConfig] returns the same one and no server in
    it depends on itself, directly or through others: [LoadConfig], which
    every other command uses, accepts such servers.  (Of the YAML library it
    is assumed that unmarshalling into a structure is parsing into a tree and
    decoding the tree.) *)
Theorem ValidateFile_agrees (readError path : string) (env : Environ) :
  (∀ text cfg, unmarshal text = Ok cfg ↔ ∃ n, parse text = Ok n ∧ decode n = Ok cfg) →
  (∀ cfg, range_order (Servers cfg) (serverOrders cfg)) →
  (∀ cfg, range_order (Connections cfg) (connOrders cfg)) →
  (∀ cfg, range_order (Connections cfg) (connOrders' cfg)) →
  let load := LoadConfig durationError parsesFloat readFile unmarshal errorText orders serverOrders
                connOrders readError path env in
  let validate := ValidateFile durationError parsesFloat quote readFile parse decode orders
                    connOrders' readError path env in
  validate.1 = load.1 ∧
  ∃ r, validate.2 = Some r ∧
    ∀ cfg, r = Ok cfg ↔
      load.2 = Ok cfg ∧ ∀ n, ¬ tc (edge (DependsOn <$> Servers cfg)) n n.
Proof.
  intros Hyaml Hso Hco Hco'. simpl. split; [done|].
  destruct (readFile path) as [data|]; [|eexists; split; [done|]; naive_solver].
  set (text := ExpandEnv _ data). specialize (Hyaml text).
  destruct (parse text) as [root|e].
  2: { eexists. split; [done|]. destruct (unmarshal text) as [c|]; [|naive_solver].
       destruct (proj1 (Hyaml c) eq_refl) as (? & ? & _). done. }
  destruct (decode root) as [c|e] eqn:Hd.
  2: { eexists. split; [done|]. destruct (unmarshal text) as [c|]; [|naive_solver].
       destruct (proj1 (Hyaml c) eq_refl) as (? & ? & ?). congruence. }
  rewrite (proj2 (Hyaml c)) by eauto.
  set (cfg := chooseEnvironment _ _ c).
  destruct (collect_nil_iff durationError parsesFloat quote (serverOrders cfg) (connOrders' cfg)
    (connOrders cfg) cfg (buildLineIndex path root)) as (errs & -> & Hiff); [done..|].
  cbn [mbind option_bind]. eexists. split; [done|]. intros cfg'.
  destruct (ValidateConfig _ _ _ _ cfg) as [[]|]; case_decide; naive_solver.
Qed.
End agree.

(** A disk with one configuration file, and the tree a YAML library makes of it:
    the two servers of [circular_config]. *)
Definition sample_disk (path : string) : option string :=
  if decide (path = "d/matey.yaml") then Some "version: 1..."
  else if decide (path = "d/.env") then Some ("# comment" +:+ String newline "MCP_ENV = production")
  else None.

Definition sample_scalar (v : string) (line : Z) : Node := mkNode ScalarNode v line [].

Definition sample_tree : Node :=
  mkNode DocumentNode "" 1 [mkNode MappingNode "" 1
    [sample_scalar "version" 1; sample_scalar "1" 1;
     sample_scalar "servers" 2; mkNode MappingNode "" 3
       [sample_scalar "a" 3; mkNode MappingNode "" 4
          [sample_scalar "depends_on" 4; mkNode SequenceNode "" 4 [sample_scalar "b" 4]];
        sample_scalar "b" 5; mkNode MappingNode "" 6
          [sample_scalar "depends_on" 6; mkNode SequenceNode "" 6 [sample_scalar "a" 6]]]]].

Definition key_order {V} (m : gmap string V) : list string := (map_to_list m).*1.

Definition sample_load : Environ * res string ComposeConfig :=
  LoadConfig (λ s, s) (λ _, true) sample_disk (λ _, Ok circular_config) (λ _, "") key_order
    (λ c, key_order (Servers c)) (λ c, key_order (Connections c)) "" "d/matey.yaml" ∅.

Definition sample_validate : Environ * option (res (list ValidationError) ComposeConfig) :=
  ValidateFile (λ s, s) (λ _, true) (λ s, s) sample_disk (λ _, Ok sample_tree)
    (λ _, Ok circular_config) key_order (λ c, key_order (Connections c)) "" "d/matey.yaml" ∅.

(** The file loads and does not validate: the problem is at line 4. *)
Theorem ValidateFile_agrees_witness :
  sample_validate.1 !! "MCP_ENV" = Some "production" ∧
  sample_load.2 = Ok (withCurrentEnv "production" circular_config) ∧
  sample_validate.2 = Some (Err
    [{| File := "d/matey.yaml"; Line := 4; Path := "servers.a.depends_on";
        Message := "circular dependency detected: a -> b -> a" |}]) ∧
  (sample_validate.1 = sample_load.1 ∧
   ∃ r, sample_validate.2 = Some r ∧
     ∀ cfg, r = Ok cfg ↔
       sample_load.2 = Ok cfg ∧ ∀ n, ¬ tc (edge (DependsOn <$> Servers cfg)) n n).
Proof.
  do 3 (split; [by vm_compute|]).
  apply (ValidateFile_agrees (λ s, s) (λ _, true) (λ s, s) sample_disk (λ _, Ok circular_config)
    (λ _, Ok sample_tree) (λ _, Ok circular_config)); [|intros cfg; unfold range_order; reflexivity..].
  intros text cfg. split; [intros [= <-]; by exists sample_tree|]. by intros (n & [= <-] & ?).
Defined.

(** The index of the same tree. *)
Theorem buildLineIndex_spec_witness :
  paths (buildLineIndex "f" sample_tree) !! "servers.b.depends_on[0]" = Some 6 ∧
  (∀ doc, Content sample_tree = [doc] →
   is_Some (paths (buildLineIndex "f" sample_tree) !! "servers.b.depends_on[0]") ↔
   ∃ line, locates "" doc "servers.b.depends_on[0]" line).
Proof. split; [by vm_compute|]. intros doc Hc. by apply buildLineIndex_spec. Defined.
