(* ===== verification/OAuth.v ===== *)
(** * The OAuth authorization server: data and core operations

    internal/auth/oauth.go: the clients, codes and tokens of the
    AuthorizationServer, its token generator and PKCE interfaces, client
    registration and validation, access-token validation, scope matching and
    the expiry sweep.  The HTTP handlers are in OAuthHandlers.v. *)
From S2P Require Import Prelude GoString GoPath.

#[local] Open Scope Z_scope.

(** ** Data

    A [time.Time] is a number of nanoseconds; 0 is the zero time. *)
Definition IsZero (t : Z) : bool := t =? 0.
Definition After (t u : Z) : bool := u <? t.

Record OAuthConfig := {
  oc_ClientID : string;
  oc_ClientSecret : string;
  oc_RedirectURIs : list string;
  oc_GrantTypes : list string;
  oc_ResponseTypes : list string;
  oc_Scope : string;
  oc_TokenEndpointAuth : string;
  oc_ClientName : string;
  oc_ClientURI : string;
  oc_LogoURI : string;
  oc_TosURI : string;
  oc_PolicyURI : string;
  oc_SoftwareID : string;
  oc_SoftwareVersion : string;
  oc_CodeChallengeMethod : string;
}.

Record OAuthClient := {
  cl_ID : string;
  cl_Secret : string;
  cl_RedirectURIs : list string;
  cl_GrantTypes : list string;
  cl_ResponseTypes : list string;
  cl_Scope : string;
  cl_ClientName : string;
  cl_ClientURI : string;
  cl_LogoURI : string;
  cl_TosURI : string;
  cl_PolicyURI : string;
  cl_TokenEndpointAuthMethod : string;
  cl_CreatedAt : Z;
  cl_ExpiresAt : Z;
  cl_SoftwareID : string;
  cl_SoftwareVersion : string;
  cl_CodeChallengeMethod : string;
  cl_Public : bool;
}.

(** [State], [Nonce] and [Claims] are never set on a code. *)
Record AuthorizationCode := {
  ac_Code : string;
  ac_ClientID : string;
  ac_UserID : string;
  ac_RedirectURI : string;
  ac_Scope : string;
  ac_ExpiresAt : Z;
  ac_CreatedAt : Z;
  ac_Challenge : string;
  ac_ChallengeMethod : string;
  ac_Used : bool;
}.

(** [Claims] is never set on a token. *)
Record AccessToken := {
  at_Token : string;
  at_Type : string;
  at_ClientID : string;
  at_UserID : string;
  at_Scope : string;
  at_ExpiresAt : Z;
  at_CreatedAt : Z;
  at_Revoked : bool;
}.

Record RefreshToken := {
  rt_Token : string;
  rt_ClientID : string;
  rt_UserID : string;
  rt_Scope : string;
  rt_ExpiresAt : Z;
  rt_CreatedAt : Z;
  rt_Revoked : bool;
}.

(** The three [IsExpired] methods, at the instant [now] they read. *)
Definition codeIsExpired (now : Z) (c : AuthorizationCode) : bool := After now (ac_ExpiresAt c).
Definition accessIsExpired (now : Z) (t : AccessToken) : bool := After now (at_ExpiresAt t).
Definition refreshIsExpired (now : Z) (t : RefreshToken) : bool := After now (rt_ExpiresAt t).

(** [t.Revoked = true] through the pointer the maps hold. *)
Definition revokeAccess (t : AccessToken) : AccessToken := {|
  at_Token := at_Token t; at_Type := at_Type t; at_ClientID := at_ClientID t;
  at_UserID := at_UserID t; at_Scope := at_Scope t; at_ExpiresAt := at_ExpiresAt t;
  at_CreatedAt := at_CreatedAt t; at_Revoked := true |}.
Definition revokeRefresh (t : RefreshToken) : RefreshToken := {|
  rt_Token := rt_Token t; rt_ClientID := rt_ClientID t; rt_UserID := rt_UserID t;
  rt_Scope := rt_Scope t; rt_ExpiresAt := rt_ExpiresAt t; rt_CreatedAt := rt_CreatedAt t;
  rt_Revoked := true |}.

(** The mutable fields of an [AuthorizationServer]. *)
Record Server := {
  clients : gmap string OAuthClient;
  authCodes : gmap string AuthorizationCode;
  accessTokens : gmap string AccessToken;
  refreshTokens : gmap string RefreshToken;
}.

Definition set_clients f (s : Server) := {| clients := f (clients s);
  authCodes := authCodes s; accessTokens := accessTokens s; refreshTokens := refreshTokens s |}.
Definition set_authCodes f (s : Server) := {| clients := clients s;
  authCodes := f (authCodes s); accessTokens := accessTokens s; refreshTokens := refreshTokens s |}.
Definition set_accessTokens f (s : Server) := {| clients := clients s;
  authCodes := authCodes s; accessTokens := f (accessTokens s); refreshTokens := refreshTokens s |}.
Definition set_refreshTokens f (s : Server) := {| clients := clients s;
  authCodes := authCodes s; accessTokens := accessTokens s; refreshTokens := f (refreshTokens s) |}.

(** The fields fixed when the server is made. *)
Record ServerConfig := {
  dynamicClients : bool;
  supportedScopes : list string;
  authCodeLifetime : Z;
  tokenLifetime : Z;
  refreshLifetime : Z;
}.

Definition second : Z := 1000000000.
Definition hour : Z := 3600 * second.

(** ** NewAuthorizationServer *)

(** The configuration fields that [NewAuthorizationServer] completes. *)
Record AuthorizationServerConfig := {
  AuthorizationEndpoint : string;
  TokenEndpoint : string;
  UserinfoEndpoint : string;
  RevocationEndpoint : string;
  RegistrationEndpoint : string;
  ScopesSupported : list string;
  ResponseTypesSupported : list string;
  GrantTypesSupported : list string;
  TokenEndpointAuthMethodsSupported : list string;
  CodeChallengeMethodsSupported : list string;
}.

Definition orString (s d : string) : string := if decide (s = "") then d else s.
Definition orList (l d : list string) : list string := if decide (length l = 0%nat) then d else l.

Definition defaultConfig (c : AuthorizationServerConfig) : AuthorizationServerConfig := {|
  AuthorizationEndpoint := orString (AuthorizationEndpoint c) "/oauth/authorize";
  TokenEndpoint := orString (TokenEndpoint c) "/oauth/token";
  RegistrationEndpoint := orString (RegistrationEndpoint c) "/oauth/register";
  UserinfoEndpoint := orString (UserinfoEndpoint c) "/oauth/userinfo";
  RevocationEndpoint := orString (RevocationEndpoint c) "/oauth/revoke";
  ResponseTypesSupported := orList (ResponseTypesSupported c) ["code"];
  GrantTypesSupported := orList (GrantTypesSupported c)
    ["authorization_code"; "client_credentials"; "refresh_token"];
  TokenEndpointAuthMethodsSupported := orList (TokenEndpointAuthMethodsSupported c)
    ["client_secret_post"; "client_secret_basic"; "none"];
  CodeChallengeMethodsSupported := orList (CodeChallengeMethodsSupported c) ["S256"];
  ScopesSupported := orList (ScopesSupported c)
    ["mcp:*"; "mcp:tools"; "mcp:resources"; "mcp:prompts"] |}.

Definition NewAuthorizationServer (config : AuthorizationServerConfig) : Server * ServerConfig :=
  ({| clients := ∅; authCodes := ∅; accessTokens := ∅; refreshTokens := ∅ |},
   {| dynamicClients := true;
      supportedScopes := ScopesSupported (defaultConfig config);
      authCodeLifetime := 10 * 60 * second;
      tokenLifetime := 1 * hour;
      refreshLifetime := 24 * 7 * hour |}).

(** ** The TokenGenerator and CodeVerifier interfaces *)

(** What the [TokenGenerator] answers to the calls of one request, each method
    being called at most once in a request; [None] is an error. *)
Record TokenGenerator := {
  GenerateAuthorizationCode : option string;
  GenerateAccessToken : option string;
  GenerateRefreshToken : option string;
  GenerateClientID : option string;
  GenerateClientSecret : option string;
}.

(** The methods of [CodeVerifier] the server relies on, and what it relies on:
    the challenge generated from a verifier is accepted with it, and only the
    S256 method is. *)
Class CodeVerifier := {
  VerifyCodeChallenge : string → string → string → bool;
  GenerateCodeChallenge : string → string → option string;
  generated_challenge_verifies : ∀ verifier method challenge,
    GenerateCodeChallenge verifier method = Some challenge →
    VerifyCodeChallenge verifier challenge method = true;
  only_S256_verifies : ∀ verifier challenge method,
    VerifyCodeChallenge verifier challenge method = true → method = "S256";
}.

(** [DefaultCodeVerifier]; [sha256b64] is the unpadded URL-safe base64 text of
    the SHA-256 hash. *)
Definition defaultVerify (sha256b64 : string → string) (verifier challenge method : string) : bool :=
  if decide (method = "S256") then bool_decide (sha256b64 verifier = challenge) else false.

Definition defaultGenerate (sha256b64 : string → string) (verifier method : string) : option string :=
  if decide (method = "S256") then Some (sha256b64 verifier) else None.

#[export] Program Instance DefaultCodeVerifier (sha256b64 : string → string) : CodeVerifier := {|
  VerifyCodeChallenge := defaultVerify sha256b64;
  GenerateCodeChallenge := defaultGenerate sha256b64 |}.
Next Obligation.
  intros h v m c. unfold defaultVerify, defaultGenerate. case_decide; [|done].
  intros [= <-]. by apply bool_decide_eq_true.
Qed.
Next Obligation. intros h v c m. unfold defaultVerify. by case_decide. Qed.

(** [generateRandomStringFromSet]: one character of [charset] per random byte. *)
Definition generateRandomStringFromSet (random : list N) (charset : list ascii) : list ascii :=
  (λ b, default "000"%char (charset !! (N.to_nat b mod length charset)%nat)) <$> random.

(** ** Registration *)

Inductive RegisterError :=
  | ClientIDFailed
  | ClientExists (id : string)
  | EmptyRedirectURI
  | InvalidRedirectURI (uri : string)
  | ClientSecretFailed.

Section registration.
Context (urlParse : string → option URL).

(** The loop over the redirect URIs. *)
Fixpoint checkRedirectURIs (uris : list string) : res RegisterError unit :=
  match uris with
  | [] => Ok tt
  | uri :: rest =>
      if decide (uri = "") then Err EmptyRedirectURI
      else
        match urlParse uri with
        | None => Err (InvalidRedirectURI uri)
        | Some parsed =>
            if decide (url_Scheme parsed = "" ∨ url_Host parsed = "")
            then Err (InvalidRedirectURI uri) else checkRedirectURIs rest
        end
  end.

Definition isPublicConfig (config : OAuthConfig) : bool :=
  bool_decide (oc_ClientSecret config = "" ∧
    (oc_TokenEndpointAuth config = "none" ∨ oc_TokenEndpointAuth config = "")).

(** [created] and [expiryBase] are the two clock readings. *)
Definition newClient (config : OAuthConfig) (clientID clientSecret : string) (isPublic : bool)
    (created expiryBase : Z) : OAuthClient := {|
  cl_ID := clientID;
  cl_Secret := clientSecret;
  cl_RedirectURIs := oc_RedirectURIs config;
  cl_GrantTypes := orList (oc_GrantTypes config)
    (if isPublic then ["authorization_code"; "refresh_token"]
     else ["authorization_code"; "client_credentials"; "refresh_token"]);
  cl_ResponseTypes := orList (oc_ResponseTypes config) ["code"];
  cl_Scope := oc_Scope config;
  cl_ClientName := oc_ClientName config;
  cl_ClientURI := oc_ClientURI config;
  cl_LogoURI := oc_LogoURI config;
  cl_TosURI := oc_TosURI config;
  cl_PolicyURI := oc_PolicyURI config;
  cl_TokenEndpointAuthMethod := orString (oc_TokenEndpointAuth config)
    (if isPublic then "none" else "client_secret_post");
  cl_CreatedAt := created;
  cl_ExpiresAt := if isPublic then 0 else expiryBase + 365 * 24 * hour;
  cl_SoftwareID := oc_SoftwareID config;
  cl_SoftwareVersion := oc_SoftwareVersion config;
  cl_CodeChallengeMethod := oc_CodeChallengeMethod config;
  cl_Public := isPublic |}.

Definition RegisterClient (gen : TokenGenerator) (created expiryBase : Z) (config : OAuthConfig)
    (s : Server) : Server * res RegisterError OAuthClient :=
  let r :=
    clientID ← (if decide (oc_ClientID config = "")
                then match GenerateClientID gen with Some id => Ok id | None => Err ClientIDFailed end
                else Ok (oc_ClientID config));
    _ ← guard_else (bool_decide (clients s !! clientID = None)) (ClientExists clientID);
    _ ← checkRedirectURIs (oc_RedirectURIs config);
    let isPublic := isPublicConfig config in
    clientSecret ←
      (if isPublic then Ok ""
       else if decide (oc_ClientSecret config = "")
       then match GenerateClientSecret gen with Some x => Ok x | None => Err ClientSecretFailed end
       else Ok (oc_ClientSecret config));
    Ok (newClient config clientID clientSecret isPublic created expiryBase) in
  match r with
  | Ok client => (set_clients (insert (cl_ID client) client) s, Ok client)
  | Err e => (s, Err e)
  end.
End registration.

(** ** Validation *)

Definition GetClient (s : Server) (clientID : string) : option OAuthClient := clients s !! clientID.

Inductive ClientError := InvalidClient | InvalidClientCredentials | ClientSecretExpired.

Definition ValidateClient (now : Z) (s : Server) (clientID clientSecret : string) :
    res ClientError OAuthClient :=
  match GetClient s clientID with
  | None => Err InvalidClient
  | Some client =>
      if cl_Public client then Ok client
      else
        _ ← guard_else (bool_decide (cl_Secret client = clientSecret)) InvalidClientCredentials;
        _ ← guard_else (negb (negb (IsZero (cl_ExpiresAt client)) && After now (cl_ExpiresAt client)))
              ClientSecretExpired;
        Ok client
  end.

Inductive TokenError := InvalidToken | TokenExpired.

(** [ValidateAccessToken]'s answer.  On an expired token it also starts a
    goroutine that runs [deleteAccessToken] once the lock is free. *)
Definition ValidateAccessToken (now : Z) (s : Server) (token : string) : res TokenError AccessToken :=
  match accessTokens s !! token with
  | None => Err InvalidToken
  | Some accessToken =>
      if IsZero (at_ExpiresAt accessToken) || After now (at_ExpiresAt accessToken)
      then Err TokenExpired else Ok accessToken
  end.

Definition deleteAccessToken (token : string) : Server → Server := set_accessTokens (delete token).

Definition HasScope (tokenScope requiredScope : string) : bool :=
  if decide (tokenScope = "") then false
  else existsb (λ scope, bool_decide (scope = requiredScope ∨ scope = "mcp:*")) (Fields tokenScope).

(** The sweep over the three maps, at one reading of the clock. *)
Definition CleanupExpiredTokens (now : Z) (s : Server) : Server := {|
  clients := clients s;
  authCodes := delete_if (λ c, After now (ac_ExpiresAt c)) (authCodes s);
  accessTokens := delete_if (λ t, After now (at_ExpiresAt t)) (accessTokens s);
  refreshTokens := delete_if (λ t, After now (rt_ExpiresAt t)) (refreshTokens s) |}.

Definition GetTokenCount (s : Server) : nat * nat * nat :=
  (size (accessTokens s), size (refreshTokens s), size (authCodes s)).

(** ** Properties *)

Lemma ValidateClient_Ok now s id secret client :
  ValidateClient now s id secret = Ok client ↔
  clients s !! id = Some client ∧
  (cl_Public client = true ∨
   cl_Secret client = secret ∧
   (cl_ExpiresAt client = 0 ∨ now ≤ cl_ExpiresAt client)).
Proof.
  unfold ValidateClient, GetClient. destruct (clients s !! id) as [c|]; [|naive_solver].
  destruct (cl_Public c) eqn:Hp; [naive_solver|].
  rewrite !res_bind_Ok. unfold IsZero, After. split.
  - intros (? & Hs%guard_else_Ok%bool_decide_eq_true & Hr). apply res_bind_Ok in Hr as (? & Hg & [= <-]).
    apply guard_else_Ok in Hg. split; [done|]. right. split; [done|].
    destruct (Z.eqb_spec (cl_ExpiresAt c) 0), (Z.ltb_spec (cl_ExpiresAt c) now); naive_solver.
  - intros ([= ->] & [?|[Hs He]]); [congruence|]. exists tt.
    split; [by apply guard_else_Ok, bool_decide_eq_true|].
    apply res_bind_Ok. exists tt. split; [|done]. apply guard_else_Ok.
    destruct (Z.eqb_spec (cl_ExpiresAt client) 0), (Z.ltb_spec (cl_ExpiresAt client) now);
      naive_solver lia.
Qed.

Lemma ValidateAccessToken_Ok now s token t :
  ValidateAccessToken now s token = Ok t ↔
  accessTokens s !! token = Some t ∧ at_ExpiresAt t ≠ 0 ∧ now ≤ at_ExpiresAt t.
Proof.
  unfold ValidateAccessToken, IsZero, After.
  destruct (accessTokens s !! token) as [a|]; [|naive_solver].
  destruct (Z.eqb_spec (at_ExpiresAt a) 0), (Z.ltb_spec (at_ExpiresAt a) now); naive_solver lia.
Qed.

Lemma checkRedirectURIs_Ok urlParse uris u :
  checkRedirectURIs urlParse uris = Ok u ↔
  ∀ uri, uri ∈ uris →
    uri ≠ "" ∧ ∃ parsed, urlParse uri = Some parsed ∧ url_Scheme parsed ≠ "" ∧ url_Host parsed ≠ "".
Proof.
  induction uris as [|uri uris IH]; simpl.
  { destruct u. split; [|done]. by intros _ ? ?%elem_of_nil. }
  setoid_rewrite elem_of_cons. case_decide as Hu.
  { split; [done|]. intros Hall. by destruct (Hall uri (or_introl eq_refl)). }
  destruct (urlParse uri) as [parsed|] eqn:Hp.
  2: { split; [done|]. intros Hall. destruct (Hall uri (or_introl eq_refl)) as (? & ? & ? & _).
       congruence. }
  case_decide as Hh; [|rewrite IH].
  - split; [done|]. intros Hall. destruct (Hall uri (or_introl eq_refl)) as (? & ? & ? & ? & ?).
    simplify_eq. tauto.
  - split; [|naive_solver]. intros Hall uri' [->|?]; [|by apply Hall].
    split; [done|]. exists parsed. tauto.
Qed.

(** A registration that succeeds, taken apart. *)
Lemma RegisterClient_inv urlParse gen t1 t2 config s s' client :
  RegisterClient urlParse gen t1 t2 config s = (s', Ok client) →
  clients s !! cl_ID client = None ∧ s' = set_clients (insert (cl_ID client) client) s ∧
  checkRedirectURIs urlParse (oc_RedirectURIs config) = Ok tt ∧
  client = newClient config (cl_ID client) (cl_Secret client) (isPublicConfig config) t1 t2 ∧
  (isPublicConfig config = true → cl_Secret client = "").
Proof.
  unfold RegisterClient. intros Hr. case_match eqn:Hres; simplify_eq/=.
  apply res_bind_Ok in Hres as (id & _ & Hres). apply res_bind_Ok in Hres as (? & Hg & Hres).
  apply guard_else_Ok, bool_decide_eq_true in Hg.
  apply res_bind_Ok in Hres as ([] & Hc & Hres). apply res_bind_Ok in Hres as (sec & Hs & [= <-]).
  simpl. split_and!; [done..|]. intros Hp. rewrite Hp in Hs. by injection Hs.
Qed.

Lemma RegisterClient_error urlParse gen t1 t2 config s s' e :
  RegisterClient urlParse gen t1 t2 config s = (s', Err e) → s' = s.
Proof. unfold RegisterClient. intros Hr. case_match; by simplify_eq. Qed.

(** Registering a client then authenticating with what registration
    returned succeeds: a public client with any secret at any time, a
    confidential one with exactly its secret until its year is over.  Clients
    registered before are unaffected, and a failed registration changes
    nothing. *)
Theorem RegisterClient_then_validate urlParse gen t1 t2 config s s' r :
  RegisterClient urlParse gen t1 t2 config s = (s', r) →
  (∀ e, r = Err e → s' = s) ∧
  ∀ client, r = Ok client →
    clients s !! cl_ID client = None ∧
    (∀ now secret,
      ValidateClient now s' (cl_ID client) secret = Ok client ↔
      isPublicConfig config = true ∨
      secret = cl_Secret client ∧ (t2 + 365 * 24 * hour = 0 ∨ now ≤ t2 + 365 * 24 * hour)) ∧
    (∀ now id secret, id ≠ cl_ID client →
      ValidateClient now s' id secret = ValidateClient now s id secret).
Proof.
  intros Hr. split.
  { intros e ->. by eapply RegisterClient_error. }
  intros client ->. apply RegisterClient_inv in Hr as (Hn & -> & _ & Hc & Hp).
  split_and!; [done| |].
  - intros now secret. rewrite ValidateClient_Ok. cbn [clients set_clients].
    rewrite lookup_insert_eq. rewrite Hc. cbn [cl_Public cl_Secret cl_ExpiresAt newClient].
    destruct (isPublicConfig config); naive_solver.
  - intros now id secret Hne. unfold ValidateClient, GetClient. cbn [clients set_clients].
    by rewrite lookup_insert_ne.
Qed.

(** The sweep is invisible to later validations: it removes only what
    every later check rejects as expired, and doing it twice changes nothing. *)
Theorem CleanupExpiredTokens_invisible now later s token t :
  now ≤ later →
  (ValidateAccessToken later (CleanupExpiredTokens now s) token = Ok t ↔
   ValidateAccessToken later s token = Ok t) ∧
  (∀ code c, After later (ac_ExpiresAt c) = false →
    authCodes (CleanupExpiredTokens now s) !! code = Some c ↔ authCodes s !! code = Some c) ∧
  (∀ value rt, After later (rt_ExpiresAt rt) = false →
    refreshTokens (CleanupExpiredTokens now s) !! value = Some rt ↔
    refreshTokens s !! value = Some rt) ∧
  CleanupExpiredTokens now (CleanupExpiredTokens now s) = CleanupExpiredTokens now s.
Proof.
  intros Hle. unfold CleanupExpiredTokens, After. cbn.
  split_and!.
  - rewrite !ValidateAccessToken_Ok. cbn. rewrite delete_if_lookup_Some, Z.ltb_ge.
    naive_solver lia.
  - intros code c Hc%Z.ltb_ge. rewrite delete_if_lookup_Some, Z.ltb_ge. naive_solver lia.
  - intros value rt Hc%Z.ltb_ge. rewrite delete_if_lookup_Some, Z.ltb_ge. naive_solver lia.
  - by rewrite !delete_if_idemp.
Qed.

Lemma HasScope_true tokenScope required :
  HasScope tokenScope required = true ↔
  required ∈ Fields tokenScope ∨ "mcp:*" ∈ Fields tokenScope.
Proof.
  unfold HasScope. case_decide as He.
  { subst. split; [done|]. by intros [?%elem_of_nil|?%elem_of_nil]. }
  rewrite existsb_exists. setoid_rewrite bool_decide_eq_true. setoid_rewrite <-list_elem_of_In.
  naive_solver.
Qed.

(** ** Witnesses *)

Definition noGen : TokenGenerator := {|
  GenerateAuthorizationCode := Some "code"; GenerateAccessToken := Some "access";
  GenerateRefreshToken := Some "refresh"; GenerateClientID := Some "client";
  GenerateClientSecret := Some "secret" |}.

Definition exampleURL : URL := {|
  url_Scheme := "https"; url_Host := "app.example"; url_Hostname := "app.example";
  url_Path := "/cb"; url_RawQuery := "" |}.

Definition parseExample (uri : string) : option URL :=
  if decide (uri = "https://app.example/cb") then Some exampleURL else None.

Definition emptyServer : Server :=
  {| clients := ∅; authCodes := ∅; accessTokens := ∅; refreshTokens := ∅ |}.

(** A registration with a method that needs a secret. *)
Definition confidentialConfig : OAuthConfig := {|
  oc_ClientID := ""; oc_ClientSecret := ""; oc_RedirectURIs := ["https://app.example/cb"];
  oc_GrantTypes := []; oc_ResponseTypes := []; oc_Scope := "";
  oc_TokenEndpointAuth := "client_secret_basic"; oc_ClientName := "App"; oc_ClientURI := "";
  oc_LogoURI := ""; oc_TosURI := ""; oc_PolicyURI := ""; oc_SoftwareID := "";
  oc_SoftwareVersion := ""; oc_CodeChallengeMethod := "" |}.

Definition exampleClient : OAuthClient :=
  newClient confidentialConfig "client" "secret" false 5 6.

Definition registeredServer : Server := set_clients (insert "client" exampleClient) emptyServer.

Lemma RegisterClient_then_validate_witness :
  clients emptyServer !! "client" = None ∧
  (∀ now secret,
    ValidateClient now registeredServer "client" secret = Ok exampleClient ↔
    isPublicConfig confidentialConfig = true ∨
    secret = "secret" ∧ (6 + 365 * 24 * hour = 0 ∨ now ≤ 6 + 365 * 24 * hour)) ∧
  (∀ now id secret, id ≠ "client" →
    ValidateClient now registeredServer id secret = ValidateClient now emptyServer id secret).
Proof.
  refine (proj2 (RegisterClient_then_validate parseExample noGen 5 6 confidentialConfig emptyServer
    registeredServer (Ok exampleClient) _) exampleClient eq_refl).
  vm_compute; reflexivity.
Defined.

Definition exampleAccess (token : string) (expires : Z) : AccessToken := {|
  at_Token := token; at_Type := "Bearer"; at_ClientID := "client"; at_UserID := "demo-user";
  at_Scope := "mcp:tools"; at_ExpiresAt := expires; at_CreatedAt := 1; at_Revoked := false |}.

Definition twoTokens : Server := {|
  clients := {["client" := exampleClient]}; authCodes := ∅;
  accessTokens := {["old" := exampleAccess "old" 10; "new" := exampleAccess "new" 90]};
  refreshTokens := ∅ |}.

Lemma CleanupExpiredTokens_invisible_witness :
  (ValidateAccessToken 60 (CleanupExpiredTokens 50 twoTokens) "new" = Ok (exampleAccess "new" 90) ↔
   ValidateAccessToken 60 twoTokens "new" = Ok (exampleAccess "new" 90)) ∧
  (∀ code c, After 60 (ac_ExpiresAt c) = false →
    authCodes (CleanupExpiredTokens 50 twoTokens) !! code = Some c ↔
    authCodes twoTokens !! code = Some c) ∧
  (∀ value rt, After 60 (rt_ExpiresAt rt) = false →
    refreshTokens (CleanupExpiredTokens 50 twoTokens) !! value = Some rt ↔
    refreshTokens twoTokens !! value = Some rt) ∧
  CleanupExpiredTokens 50 (CleanupExpiredTokens 50 twoTokens) = CleanupExpiredTokens 50 twoTokens.
Proof.
  apply (CleanupExpiredTokens_invisible 50 60 twoTokens "new" (exampleAccess "new" 90)). lia.
Defined.

Example cleanup_removes_old :
  GetTokenCount (CleanupExpiredTokens 50 twoTokens) = (1, 0, 0)%nat.
Proof. vm_compute. reflexivity. Qed.
