(* ===== verification/OAuthHandlers.v ===== *)
(** * The OAuth authorization server: HTTP handlers

    internal/auth/handlers.go: the authorize, token, register, userinfo and
    revoke endpoints as functions from a request and the server's state to the
    new state and the response, and [serve], one event of the server's life.
    A handler looks its client up before it takes the lock; clients are only
    ever added, so treating a handler as one step loses nothing. *)
From S2P Require Import Prelude GoString GoPath OAuth.

#[local] Open Scope Z_scope.

(** ** Requests and responses *)

(** What the handlers read of an [*http.Request].  [FormError] is the text of
    [ParseForm]'s error, [Form] and [Query] are the [Get] methods (a missing
    key is the empty string), [JSONBody] the decoded body. *)
Record Request := {
  Method : string;
  Query : string → string;
  FormError : option string;
  Form : string → string;
  Authorization : string;
  BasicAuth : option (string * string);
  JSONBody : option OAuthConfig;
}.

Record AuthorizationRequest := {
  ar_ResponseType : string;
  ar_ClientID : string;
  ar_RedirectURI : string;
  ar_Scope : string;
  ar_State : string;
  ar_CodeChallenge : string;
  ar_CodeChallengeMethod : string;
  ar_Nonce : string;
}.

Inductive Response :=
  | StatusOK
  | HttpError (message : string) (status : Z)
  | RedirectTo (location : string)
  | ApprovalPage (req : AuthorizationRequest) (displayName clientID : string)
  | TokenErrorResponse (error description : string)
  | TokenResponse (access_token : string) (expires_in : Z) (refresh_token scope : option string)
  | RegisterResponse (client : OAuthClient) (issued_at secret_expires_at : Z)
  | UserInfoResponse (sub client_id scope : string) (iat exp : Z) (client_name : option string)
  | UserInfoErrorResponse (error description : string)
  | RevokeErrorResponse (status : Z) (error description : string)
  | RevokeResponse.

Definition StatusBadRequest : Z := 400.
Definition StatusUnauthorized : Z := 401.
Definition StatusMethodNotAllowed : Z := 405.
Definition StatusNotFound : Z := 404.

Definition nonEmpty (s : string) : option string := if decide (s = "") then None else Some s.
Definition contains (slice : list string) (item : string) : bool := bool_decide (item ∈ slice).

(** [t.Unix()], with 0 the zero time. *)
Definition Unix (t : Z) : Z := t / second - 62135596800.

Definition clientErrorText (e : ClientError) : string :=
  match e with
  | InvalidClient => "invalid client"
  | InvalidClientCredentials => "invalid client credentials"
  | ClientSecretExpired => "client secret expired"
  end.

Definition tokenErrorText (e : TokenError) : string :=
  match e with InvalidToken => "invalid token" | TokenExpired => "token expired" end.

(** The text of a registration error, without the cause a generator wraps. *)
Definition registerErrorText (e : RegisterError) : string :=
  match e with
  | ClientIDFailed => "failed to generate client ID"
  | ClientExists id => "client with ID " +:+ id +:+ " already exists"
  | EmptyRedirectURI => "redirect URI cannot be empty"
  | InvalidRedirectURI uri => "invalid redirect URI: " +:+ uri
  | ClientSecretFailed => "failed to generate client secret"
  end.

Definition getClientDisplayName (client : OAuthClient) : string :=
  if decide (cl_ClientName client = "") then cl_ID client else cl_ClientName client.

(** [extractBearerToken], and [extractToken] of the middleware. *)
Definition extractBearerToken (r : Request) : string :=
  if decide (Authorization r = "") then ""
  else
    match SplitByte2 (Authorization r) " " with
    | [scheme; token] => if decide (ToLower scheme = "bearer") then token else ""
    | _ => ""
    end.

(** ** Scopes and redirect URIs *)

Definition validateScope (cfg : ServerConfig) (scope : string) : bool :=
  forallb (λ requestedScope,
    existsb (λ supportedScope,
      bool_decide (supportedScope = requestedScope ∨ supportedScope = "mcp:*"))
      (supportedScopes cfg)) (Fields scope).

Definition isScopeSubset (requested original : string) : bool :=
  forallb (λ reqScope, contains (Fields original) reqScope) (Fields requested).

Section handlers.
(** [urlParse] is net/url's [Parse], [withQuery uri kvs] the text of the parsed
    [uri] with the query parameters [kvs] set, [quote] the [%q] verb. *)
Context (urlParse : string → option URL) (withQuery : string → list (string * string) → string)
  (quote : string → string).
Context `{CodeVerifier} (cfg : ServerConfig).

Definition isLoopbackHost (h : string) : bool := bool_decide (h = "localhost" ∨ h = "127.0.0.1").

Definition isLoopbackURIMatch (registered requested : string) : bool :=
  match urlParse registered, urlParse requested with
  | Some regURL, Some reqURL =>
      bool_decide (url_Scheme regURL = "http") && bool_decide (url_Scheme reqURL = "http") &&
      isLoopbackHost (url_Hostname regURL) && isLoopbackHost (url_Hostname reqURL) &&
      bool_decide (url_Path regURL = url_Path reqURL) &&
      bool_decide (url_RawQuery regURL = url_RawQuery reqURL)
  | _, _ => false
  end.

Definition validateRedirectURI (client : OAuthClient) (uri : string) : bool :=
  existsb (λ registeredURI, bool_decide (registeredURI = uri) || isLoopbackURIMatch registeredURI uri)
    (cl_RedirectURIs client).

Definition redirectWithError (redirectURI errorCode description state : string) : Response :=
  if decide (redirectURI = "") then HttpError (errorCode +:+ ": " +:+ description) StatusBadRequest
  else
    match urlParse redirectURI with
    | None => HttpError "Invalid redirect URI" StatusBadRequest
    | Some _ =>
        RedirectTo (withQuery redirectURI
          ([("error", errorCode); ("error_description", description)] ++
           (if decide (state = "") then [] else [("state", state)])))
    end.

(** ** The authorize endpoint *)

Definition parseAuthorizationRequest (r : Request) : res string AuthorizationRequest :=
  query ← (if decide (Method r = "GET") then Ok (Query r)
           else if decide (Method r = "POST") then
             match FormError r with
             | Some e => Err ("failed to parse form: " +:+ e) | None => Ok (Form r) end
           else Err ("unsupported method: " +:+ Method r));
  _ ← guard_else (bool_decide (query "response_type" ≠ "")) "response_type is required";
  _ ← guard_else (bool_decide (query "client_id" ≠ "")) "client_id is required";
  let method :=
    if decide (query "code_challenge" ≠ "" ∧ query "code_challenge_method" = "")
    then "S256" else query "code_challenge_method" in
  _ ← guard_else (bool_decide (method = "" ∨ method = "S256"))
        ("code_challenge_method " +:+ quote method +:+ " is not supported; use S256");
  Ok {| ar_ResponseType := query "response_type"; ar_ClientID := query "client_id";
        ar_RedirectURI := query "redirect_uri"; ar_Scope := query "scope";
        ar_State := query "state"; ar_CodeChallenge := query "code_challenge";
        ar_CodeChallengeMethod := method; ar_Nonce := query "nonce" |}.

(** [expiryBase] and [created] are the two readings of the clock. *)
Definition generateAuthorizationCode (gen : TokenGenerator) (expiryBase created : Z)
    (clientID userID redirectURI scope challenge challengeMethod : string) (s : Server) :
    Server * option AuthorizationCode :=
  match GenerateAuthorizationCode gen with
  | None => (s, None)
  | Some code =>
      let authCode := {|
        ac_Code := code; ac_ClientID := clientID; ac_UserID := userID;
        ac_RedirectURI := redirectURI; ac_Scope := scope;
        ac_ExpiresAt := expiryBase + authCodeLifetime cfg; ac_CreatedAt := created;
        ac_Challenge := challenge; ac_ChallengeMethod := challengeMethod; ac_Used := false |} in
      (set_authCodes (insert code authCode) s, Some authCode)
  end.

Definition processAuthorization (gen : TokenGenerator) (t : nat → Z) (r : Request)
    (authReq : AuthorizationRequest) (s : Server) : Server * Response :=
  match FormError r with
  | Some _ => (s, redirectWithError (ar_RedirectURI authReq) "server_error" "Failed to parse form"
                    (ar_State authReq))
  | None =>
      if decide (Form r "action" = "approve") then
        match generateAuthorizationCode gen (t 0%nat) (t 1%nat) (ar_ClientID authReq) "demo-user"
                (ar_RedirectURI authReq) (ar_Scope authReq) (ar_CodeChallenge authReq)
                (ar_CodeChallengeMethod authReq) s with
        | (s', None) =>
            (s', redirectWithError (ar_RedirectURI authReq) "server_error"
                   "Failed to generate authorization code" (ar_State authReq))
        | (s', Some authCode) =>
            match urlParse (ar_RedirectURI authReq) with
            | None => (s', HttpError "Invalid redirect URI" StatusBadRequest)
            | Some _ =>
                (s', RedirectTo (withQuery (ar_RedirectURI authReq)
                  ([("code", ac_Code authCode)] ++
                   (if decide (ar_State authReq = "") then [] else [("state", ar_State authReq)]))))
            end
        end
      else (s, redirectWithError (ar_RedirectURI authReq) "access_denied"
                 "User denied authorization" (ar_State authReq))
  end.

Definition HandleAuthorize (gen : TokenGenerator) (t : nat → Z) (r : Request) (s : Server) :
    Server * Response :=
  if decide (Method r = "OPTIONS") then (s, StatusOK)
  else if decide (Method r ≠ "GET" ∧ Method r ≠ "POST")
  then (s, HttpError "Method not allowed" StatusMethodNotAllowed)
  else
    match parseAuthorizationRequest r with
    | Err e => (s, redirectWithError "" "invalid_request" e "")
    | Ok authReq =>
        match GetClient s (ar_ClientID authReq) with
        | None => (s, redirectWithError (ar_RedirectURI authReq) "invalid_client" "Unknown client"
                        (ar_State authReq))
        | Some client =>
            if negb (validateRedirectURI client (ar_RedirectURI authReq))
            then (s, HttpError "Invalid redirect URI" StatusBadRequest)
            else if negb (contains (cl_ResponseTypes client) (ar_ResponseType authReq))
            then (s, redirectWithError (ar_RedirectURI authReq) "unsupported_response_type"
                       "Response type not supported for this client" (ar_State authReq))
            else if bool_decide (ar_Scope authReq ≠ "") && negb (validateScope cfg (ar_Scope authReq))
            then (s, redirectWithError (ar_RedirectURI authReq) "invalid_scope" "Invalid scope"
                       (ar_State authReq))
            else if decide (Method r = "GET")
            then (s, ApprovalPage authReq (getClientDisplayName client) (cl_ID client))
            else processAuthorization gen t r authReq s
        end
    end.

(** ** The token endpoint *)

(** The form's client credentials, or those of HTTP Basic authentication when
    either is missing. *)
Definition requestCredentials (r : Request) : string * string :=
  if decide (Form r "client_id" = "" ∨ Form r "client_secret" = "")
  then default (Form r "client_id", Form r "client_secret") (BasicAuth r)
  else (Form r "client_id", Form r "client_secret").

(** The tokens the generators store; [expiryBase] and [created] are the two
    readings of the clock. *)
Definition newAccessToken (expiryBase created : Z) (clientID userID scope token : string) :
    AccessToken := {|
  at_Token := token; at_Type := "Bearer"; at_ClientID := clientID; at_UserID := userID;
  at_Scope := scope; at_ExpiresAt := expiryBase + tokenLifetime cfg;
  at_CreatedAt := created; at_Revoked := false |}.

Definition generateAccessToken (gen : TokenGenerator) (expiryBase created : Z)
    (clientID userID scope : string) (s : Server) : Server * option AccessToken :=
  match GenerateAccessToken gen with
  | None => (s, None)
  | Some token =>
      let accessToken := newAccessToken expiryBase created clientID userID scope token in
      (set_accessTokens (insert token accessToken) s, Some accessToken)
  end.

Definition newRefreshToken (expiryBase created : Z) (clientID userID scope token : string) :
    RefreshToken := {|
  rt_Token := token; rt_ClientID := clientID; rt_UserID := userID;
  rt_Scope := scope; rt_ExpiresAt := expiryBase + refreshLifetime cfg;
  rt_CreatedAt := created; rt_Revoked := false |}.

Definition generateRefreshToken (gen : TokenGenerator) (expiryBase created : Z)
    (clientID userID scope : string) (s : Server) : Server * option RefreshToken :=
  match GenerateRefreshToken gen with
  | None => (s, None)
  | Some token =>
      let refreshToken := newRefreshToken expiryBase created clientID userID scope token in
      (set_refreshTokens (insert token refreshToken) s, Some refreshToken)
  end.

(** [int(s.tokenLifetime.Seconds())]. *)
Definition expiresIn : Z := Z.quot (tokenLifetime cfg) second.

(** The PKCE check of a code: [None] if it passes, or the error description. *)
Definition checkPKCE (authCode : AuthorizationCode) (codeVerifier : string) : option string :=
  if decide (ac_Challenge authCode = "") then None
  else if decide (codeVerifier = "") then Some "Code verifier required"
  else if VerifyCodeChallenge codeVerifier (ac_Challenge authCode) (ac_ChallengeMethod authCode)
  then None else Some "Invalid code verifier".

Definition handleAuthorizationCodeGrant (gen : TokenGenerator) (t : nat → Z) (r : Request)
    (s : Server) : Server * Response :=
  let code := Form r "code" in
  let '(clientID, clientSecret) := requestCredentials r in
  match ValidateClient (t 0%nat) s clientID clientSecret with
  | Err e => (s, TokenErrorResponse "invalid_client" (clientErrorText e))
  | Ok client =>
      match authCodes s !! code with
      | None => (s, TokenErrorResponse "invalid_grant" "Invalid authorization code")
      | Some authCode =>
          if After (t 1%nat) (ac_ExpiresAt authCode)
          then (set_authCodes (delete code) s,
                TokenErrorResponse "invalid_grant" "Authorization code expired")
          else if decide (ac_ClientID authCode ≠ clientID)
          then (s, TokenErrorResponse "invalid_grant"
                     "Authorization code was not issued to this client")
          else if decide (ac_RedirectURI authCode ≠ Form r "redirect_uri")
          then (s, TokenErrorResponse "invalid_grant" "Redirect URI mismatch")
          else
            match checkPKCE authCode (Form r "code_verifier") with
            | Some description => (s, TokenErrorResponse "invalid_grant" description)
            | None =>
                let '(s1, access) := generateAccessToken gen (t 2%nat) (t 3%nat) (cl_ID client)
                                       (ac_UserID authCode) (ac_Scope authCode) s in
                match access with
                | None => (s1, TokenErrorResponse "server_error" "Failed to generate access token")
                | Some accessToken =>
                    if contains (cl_GrantTypes client) "refresh_token" then
                      let '(s2, refresh) := generateRefreshToken gen (t 4%nat) (t 5%nat) (cl_ID client)
                                              (ac_UserID authCode) (ac_Scope authCode) s1 in
                      match refresh with
                      | None =>
                          (s2, TokenErrorResponse "server_error" "Failed to generate refresh token")
                      | Some refreshToken =>
                          (set_authCodes (delete code) s2,
                           TokenResponse (at_Token accessToken) expiresIn
                             (Some (rt_Token refreshToken)) (nonEmpty (ac_Scope authCode)))
                      end
                    else
                      (set_authCodes (delete code) s1,
                       TokenResponse (at_Token accessToken) expiresIn None
                         (nonEmpty (ac_Scope authCode)))
                end
            end
      end
  end.

(** This handler inserts the token without taking the server's lock. *)
Definition handleClientCredentialsGrant (gen : TokenGenerator) (t : nat → Z) (r : Request)
    (s : Server) : Server * Response :=
  let scope := Form r "scope" in
  let '(clientID, clientSecret) := requestCredentials r in
  match ValidateClient (t 0%nat) s clientID clientSecret with
  | Err e => (s, TokenErrorResponse "invalid_client" (clientErrorText e))
  | Ok client =>
      if negb (contains (cl_GrantTypes client) "client_credentials")
      then (s, TokenErrorResponse "unauthorized_client"
                 "Client credentials grant not allowed for this client")
      else if bool_decide (scope ≠ "") && negb (validateScope cfg scope)
      then (s, TokenErrorResponse "invalid_scope" "Invalid scope")
      else
        match generateAccessToken gen (t 1%nat) (t 2%nat) (cl_ID client) "" scope s with
        | (s', None) => (s', TokenErrorResponse "server_error" "Failed to generate access token")
        | (s', Some accessToken) =>
            (s', TokenResponse (at_Token accessToken) expiresIn None (nonEmpty scope))
        end
  end.

(** The range over the refresh tokens, visited in [order]. *)
Definition findRefreshToken (order : list string) (m : gmap string RefreshToken)
    (value clientID : string) : option RefreshToken :=
  head (filter (λ rt, rt_Token rt = value ∧ rt_ClientID rt = clientID)
          (omap (λ k, m !! k) order)).

Definition handleRefreshTokenGrant (gen : TokenGenerator) (t : nat → Z) (order : list string)
    (r : Request) (s : Server) : Server * Response :=
  let value := Form r "refresh_token" in
  let requested := Form r "scope" in
  if decide (value = "") then (s, TokenErrorResponse "invalid_request" "refresh_token is required")
  else
    let '(clientID, clientSecret) := requestCredentials r in
    match ValidateClient (t 0%nat) s clientID clientSecret with
    | Err e => (s, TokenErrorResponse "invalid_client" (clientErrorText e))
    | Ok client =>
        match findRefreshToken order (refreshTokens s) value clientID with
        | None => (s, TokenErrorResponse "invalid_grant" "Invalid refresh token")
        | Some refreshToken =>
            if After (t 1%nat) (rt_ExpiresAt refreshToken)
            then (set_refreshTokens (delete (rt_Token refreshToken)) s,
                  TokenErrorResponse "invalid_grant" "Refresh token expired")
            else if bool_decide (requested ≠ "") &&
                    negb (isScopeSubset requested (rt_Scope refreshToken))
            then (s, TokenErrorResponse "invalid_scope" "Requested scope exceeds original scope")
            else
              let scope := if decide (requested = "") then rt_Scope refreshToken else requested in
              let s0 := set_refreshTokens (delete (rt_Token refreshToken)) s in
              let '(s1, access) := generateAccessToken gen (t 2%nat) (t 3%nat) (cl_ID client)
                                     (rt_UserID refreshToken) scope s0 in
              match access with
              | None => (s1, TokenErrorResponse "server_error" "Failed to generate access token")
              | Some accessToken =>
                  let '(s2, refresh) := generateRefreshToken gen (t 4%nat) (t 5%nat) (cl_ID client)
                                          (rt_UserID refreshToken) scope s1 in
                  match refresh with
                  | None =>
                      (s2, TokenErrorResponse "server_error" "Failed to generate refresh token")
                  | Some newToken =>
                      (s2, TokenResponse (at_Token accessToken) expiresIn
                             (Some (rt_Token newToken)) (nonEmpty scope))
                  end
              end
        end
    end.

Definition HandleToken (gen : TokenGenerator) (t : nat → Z) (order : list string) (r : Request)
    (s : Server) : Server * Response :=
  if decide (Method r ≠ "POST") then (s, HttpError "Method not allowed" StatusMethodNotAllowed)
  else
    match FormError r with
    | Some _ => (s, TokenErrorResponse "invalid_request" "Failed to parse request")
    | None =>
        let grantType := Form r "grant_type" in
        if decide (grantType = "authorization_code") then handleAuthorizationCodeGrant gen t r s
        else if decide (grantType = "client_credentials") then handleClientCredentialsGrant gen t r s
        else if decide (grantType = "refresh_token") then handleRefreshTokenGrant gen t order r s
        else (s, TokenErrorResponse "unsupported_grant_type" "Grant type not supported")
    end.

(** ** The register, userinfo and revoke endpoints *)

Definition HandleRegister (gen : TokenGenerator) (t : nat → Z) (r : Request) (s : Server) :
    Server * Response :=
  if negb (dynamicClients cfg)
  then (s, HttpError "Dynamic client registration not supported" StatusNotFound)
  else if decide (Method r ≠ "POST")
  then (s, HttpError "Method not allowed" StatusMethodNotAllowed)
  else
    match JSONBody r with
    | None => (s, HttpError "Invalid JSON" StatusBadRequest)
    | Some config =>
        if decide (oc_RedirectURIs config = [])
        then (s, HttpError "redirect_uris is required" StatusBadRequest)
        else
          match RegisterClient urlParse gen (t 0%nat) (t 1%nat) config s with
          | (s', Err e) => (s', HttpError (registerErrorText e) StatusBadRequest)
          | (s', Ok client) =>
              (s', RegisterResponse client (Unix (cl_CreatedAt client))
                     (if IsZero (cl_ExpiresAt client) then 0 else Unix (cl_ExpiresAt client)))
          end
    end.

Definition HandleUserInfo (now : Z) (r : Request) (s : Server) : Response :=
  if decide (Method r ≠ "GET" ∧ Method r ≠ "POST")
  then HttpError "Method not allowed" StatusMethodNotAllowed
  else if decide (extractBearerToken r = "")
  then UserInfoErrorResponse "invalid_token" "Access token required"
  else
    match ValidateAccessToken now s (extractBearerToken r) with
    | Err e => UserInfoErrorResponse "invalid_token" (tokenErrorText e)
    | Ok accessToken =>
        match GetClient s (at_ClientID accessToken) with
        | None => UserInfoErrorResponse "invalid_token" "Invalid client"
        | Some client =>
            UserInfoResponse (at_UserID accessToken) (at_ClientID accessToken) (at_Scope accessToken)
              (Unix (at_CreatedAt accessToken)) (Unix (at_ExpiresAt accessToken))
              (nonEmpty (cl_ClientName client))
        end
    end.

(** Revoking the tokens of one client and user. *)
Definition revokeRefreshOf (clientID userID : string) : gmap string RefreshToken → gmap string RefreshToken :=
  fmap (λ t, if decide (rt_ClientID t = clientID ∧ rt_UserID t = userID) then revokeRefresh t else t).
Definition revokeAccessOf (clientID userID : string) : gmap string AccessToken → gmap string AccessToken :=
  fmap (λ t, if decide (at_ClientID t = clientID ∧ at_UserID t = userID) then revokeAccess t else t).

Definition ownsToken (authenticated : option OAuthClient) (clientID : string) : bool :=
  match authenticated with None => true | Some client => bool_decide (clientID = cl_ID client) end.

(** The two attempts of [HandleRevoke], each with whether it revoked. *)
Definition revokeAsAccess (token hint : string) (authenticated : option OAuthClient) (s : Server) :
    Server * bool :=
  if decide (hint = "" ∨ hint = "access_token") then
    match accessTokens s !! token with
    | Some accessToken =>
        if ownsToken authenticated (at_ClientID accessToken)
        then (set_refreshTokens (revokeRefreshOf (at_ClientID accessToken) (at_UserID accessToken))
                (set_accessTokens (insert token (revokeAccess accessToken)) s), true)
        else (s, false)
    | None => (s, false)
    end
  else (s, false).

Definition revokeAsRefresh (token hint : string) (authenticated : option OAuthClient) (s : Server) :
    Server :=
  if decide (hint = "" ∨ hint = "refresh_token") then
    match refreshTokens s !! token with
    | Some refreshToken =>
        if ownsToken authenticated (rt_ClientID refreshToken)
        then set_accessTokens (revokeAccessOf (rt_ClientID refreshToken) (rt_UserID refreshToken))
               (set_refreshTokens (insert token (revokeRefresh refreshToken)) s)
        else s
    | None => s
    end
  else s.

(** The Basic credentials are consulted only when a client ID came in the form
    without a secret; a request without a client ID is not authenticated. *)
Definition revokeClient (now : Z) (r : Request) (s : Server) : res ClientError (option OAuthClient) :=
  if decide (Form r "client_id" = "") then Ok None
  else
    let '(clientID, clientSecret) :=
      if decide (Form r "client_secret" = "")
      then default (Form r "client_id", Form r "client_secret") (BasicAuth r)
      else (Form r "client_id", Form r "client_secret") in
    client ← ValidateClient now s clientID clientSecret;
    Ok (Some client).

Definition sendRevokeError (error description : string) : Response :=
  RevokeErrorResponse
    (if decide (error = "invalid_client") then StatusUnauthorized else StatusBadRequest)
    error description.

Definition HandleRevoke (now : Z) (r : Request) (s : Server) : Server * Response :=
  if decide (Method r ≠ "POST") then (s, HttpError "Method not allowed" StatusMethodNotAllowed)
  else
    match FormError r with
    | Some _ => (s, sendRevokeError "invalid_request" "Failed to parse request")
    | None =>
        let token := Form r "token" in
        let hint := Form r "token_type_hint" in
        if decide (token = "")
        then (s, sendRevokeError "invalid_request" "token parameter is required")
        else
          match revokeClient now r s with
          | Err e => (s, sendRevokeError "invalid_client" (clientErrorText e))
          | Ok authenticated =>
              let '(s1, revoked) := revokeAsAccess token hint authenticated s in
              (if revoked then s1 else revokeAsRefresh token hint authenticated s1, RevokeResponse)
          end
    end.

(** ** One event of the server's life *)

(** A request to an endpoint, the deletion an expired token's validation has
    scheduled, or a sweep; each with what it draws from the outside. *)
Inductive Event :=
  | EvAuthorize (gen : TokenGenerator) (t : nat → Z) (r : Request)
  | EvToken (gen : TokenGenerator) (t : nat → Z) (order : list string) (r : Request)
  | EvRegister (gen : TokenGenerator) (t : nat → Z) (r : Request)
  | EvUserInfo (now : Z) (r : Request)
  | EvRevoke (now : Z) (r : Request)
  | EvDeleteExpired (token : string)
  | EvCleanup (now : Z).

Definition serve (e : Event) (s : Server) : Server * option Response :=
  match e with
  | EvAuthorize gen t r => let '(s', a) := HandleAuthorize gen t r s in (s', Some a)
  | EvToken gen t order r => let '(s', a) := HandleToken gen t order r s in (s', Some a)
  | EvRegister gen t r => let '(s', a) := HandleRegister gen t r s in (s', Some a)
  | EvUserInfo now r => (s, Some (HandleUserInfo now r s))
  | EvRevoke now r => let '(s', a) := HandleRevoke now r s in (s', Some a)
  | EvDeleteExpired token => (deleteAccessToken token s, None)
  | EvCleanup now => (CleanupExpiredTokens now s, None)
  end.

(** The server's reachable states and the answers on the way. *)
Fixpoint run (l : list Event) (s : Server) : Server * list (option Response) :=
  match l with
  | [] => (s, [])
  | e :: l' =>
      let '(s1, a) := serve e s in
      let '(s2, answers) := run l' s1 in (s2, a :: answers)
  end.

End handlers.
