(* ===== verification/OAuthSafety.v ===== *)
(** * The OAuth authorization server: safety

    The store's transitions as a relation [store_step] that every event of the
    server refines, the invariant they preserve, and what follows for the
    grants: codes are redeemed once, refresh tokens rotate within their scope,
    revocation has no effect on validation, and the authorize endpoint redirects
    errors of an unknown client anywhere. *)
From S2P Require Import Prelude GoString GoPath OAuth OAuthHandlers.

#[local] Open Scope Z_scope.
Set Default Proof Using "Type".

(** ** Scopes *)

Lemma validateScope_true cfg scope :
  validateScope cfg scope = true ↔
  ∀ x, x ∈ Fields scope → x ∈ supportedScopes cfg ∨ "mcp:*" ∈ supportedScopes cfg.
Proof.
  unfold validateScope. rewrite forallb_forall. setoid_rewrite existsb_exists.
  setoid_rewrite <-list_elem_of_In. setoid_rewrite bool_decide_eq_true. naive_solver.
Qed.

Lemma isScopeSubset_true requested original :
  isScopeSubset requested original = true ↔ Fields requested ⊆ Fields original.
Proof.
  unfold isScopeSubset, contains. rewrite forallb_forall. setoid_rewrite <-list_elem_of_In.
  setoid_rewrite bool_decide_eq_true. done.
Qed.

Section safety.
Context (urlParse : string → option URL) (withQuery : string → list (string * string) → string)
  (quote : string → string).
Context `{CodeVerifier} (cfg : ServerConfig).
Implicit Types (s : Server) (r : Request) (gen : TokenGenerator) (t : nat → Z).

(** ** The abstract store *)

Definition redirect_ok (c : OAuthClient) : Prop :=
  ∀ uri, uri ∈ cl_RedirectURIs c →
    uri ≠ "" ∧ ∃ parsed, urlParse uri = Some parsed ∧ url_Scheme parsed ≠ "" ∧ url_Host parsed ≠ "".

(** What a code or token in the store is bound to. *)
Definition code_bound s (c : AuthorizationCode) : Prop :=
  (∃ client, clients s !! ac_ClientID c = Some client ∧
     validateRedirectURI urlParse client (ac_RedirectURI c) = true) ∧
  validateScope cfg (ac_Scope c) = true ∧
  (ac_Challenge c ≠ "" → ac_ChallengeMethod c = "S256").
Definition access_bound s (a : AccessToken) : Prop :=
  is_Some (clients s !! at_ClientID a) ∧ validateScope cfg (at_Scope a) = true.
Definition refresh_bound s (a : RefreshToken) : Prop :=
  is_Some (clients s !! rt_ClientID a) ∧ validateScope cfg (rt_Scope a) = true.

Definition access_marked (m m' : gmap string AccessToken) : Prop :=
  ∀ k a', m' !! k = Some a' → ∃ a, m !! k = Some a ∧ (a' = a ∨ a' = revokeAccess a).
Definition refresh_marked (m m' : gmap string RefreshToken) : Prop :=
  ∀ k a', m' !! k = Some a' → ∃ a, m !! k = Some a ∧ (a' = a ∨ a' = revokeRefresh a).

(** One change of the store. *)
Inductive store_step s : Server → Prop :=
  | AddClient c :
      clients s !! cl_ID c = None → redirect_ok c →
      store_step s (set_clients (insert (cl_ID c) c) s)
  | AddCode c : code_bound s c → store_step s (set_authCodes (insert (ac_Code c) c) s)
  | AddAccess a : access_bound s a → store_step s (set_accessTokens (insert (at_Token a) a) s)
  | AddRefresh a : refresh_bound s a → store_step s (set_refreshTokens (insert (rt_Token a) a) s)
  | DropCode k : store_step s (set_authCodes (delete k) s)
  | DropAccess k : store_step s (set_accessTokens (delete k) s)
  | DropRefresh k : store_step s (set_refreshTokens (delete k) s)
  | MarkAccess f : access_marked (accessTokens s) (f (accessTokens s)) →
      store_step s (set_accessTokens f s)
  | MarkRefresh f : refresh_marked (refreshTokens s) (f (refreshTokens s)) →
      store_step s (set_refreshTokens f s)
  | Sweep now : store_step s (CleanupExpiredTokens now s).

Record store_ok s : Prop := {
  so_clients : ∀ k c, clients s !! k = Some c → cl_ID c = k ∧ redirect_ok c;
  so_codes : ∀ k c, authCodes s !! k = Some c → ac_Code c = k ∧ code_bound s c;
  so_access : ∀ k a, accessTokens s !! k = Some a → at_Token a = k ∧ access_bound s a;
  so_refresh : ∀ k a, refreshTokens s !! k = Some a → rt_Token a = k ∧ refresh_bound s a;
}.

Lemma store_ok_empty : store_ok emptyServer.
Proof. split; intros k c Hk; simpl in Hk; by rewrite lookup_empty in Hk. Qed.

(** The bounds of codes and tokens only look at the clients, which only grow. *)
Lemma bound_mono s s' :
  clients s ⊆ clients s' →
  (∀ c, code_bound s c → code_bound s' c) ∧ (∀ a, access_bound s a → access_bound s' a) ∧
  (∀ a, refresh_bound s a → refresh_bound s' a).
Proof.
  intros Hsub. split_and!.
  - intros c [(client & Hc & Hv) Hrest]. split; [|done]. exists client. split; [|done].
    by eapply lookup_weaken.
  - intros a [[c Hc] ?]. split; [|done]. exists c. by eapply lookup_weaken.
  - intros a [[c Hc] ?]. split; [|done]. exists c. by eapply lookup_weaken.
Qed.

Lemma step_clients s s' : store_step s s' → clients s ⊆ clients s'.
Proof. destruct 1; simpl; try done. by apply insert_subseteq. Qed.

(** A store whose entries are old ones, or bound ones, is well formed. *)
Lemma store_ok_step s s' : store_ok s → store_step s s' → store_ok s'.
Proof.
  intros [Hc Ho Ha Hr] Hs. pose proof (step_clients _ _ Hs) as Hsub.
  destruct (bound_mono _ _ Hsub) as (Mc & Ma & Mr). revert Mc Ma Mr.
  destruct Hs as [c Hn Hok|c Hb|a Hb|a Hb|k0|k0|k0|f Hm|f Hm|now]; intros Mc Ma Mr;
    split; simpl; intros k x Hk;
    try (apply lookup_insert_Some in Hk as [[<- <-]|[_ Hk]]);
    try (apply lookup_delete_Some in Hk as [_ Hk]);
    try (apply delete_if_lookup_Some in Hk as [Hk _]);
    try (apply Hm in Hk as (y & Hk & [->| ->]));
    first [by eauto
      | by destruct (Ho _ _ Hk); eauto | by destruct (Ha _ _ Hk); eauto
      | by destruct (Hr _ _ Hk); eauto].
Qed.

Lemma store_ok_steps s s' : rtc store_step s s' → store_ok s → store_ok s'.
Proof. induction 1; eauto using store_ok_step. Qed.

(** ** Every event refines the store's steps *)

Local Hint Constructors rtc : core.
Local Hint Resolve rtc_once : core.

Lemma parse_challenge r a :
  parseAuthorizationRequest quote r = Ok a → ar_CodeChallenge a ≠ "" →
  ar_CodeChallengeMethod a = "S256".
Proof.
  unfold parseAuthorizationRequest. intros Hp Hc.
  apply res_bind_Ok in Hp as (query & _ & Hp). inv_res. simpl in *.
  case_decide; [done|].
  match goal with Hm : bool_decide _ = true |- _ => apply bool_decide_eq_true in Hm end.
  destruct (decide (query "code_challenge_method" = "")); naive_solver.
Qed.

Lemma authorize_refines gen t r s s' a :
  HandleAuthorize urlParse withQuery quote cfg gen t r s = (s', a) →
  rtc (store_step) s s'.
Proof.
  unfold HandleAuthorize. intros Hh.
  do 2 (case_decide; [by simplify_eq/=|]).
  destruct (parseAuthorizationRequest quote r) as [req|] eqn:Hp; [|by simplify_eq/=].
  destruct (GetClient s (ar_ClientID req)) as [client|] eqn:Hg; [|by simplify_eq/=].
  destruct (validateRedirectURI _ client _) eqn:Hv; [|by simplify_eq/=].
  destruct (contains _ _); [|by simplify_eq/=]. cbn [negb] in Hh.
  destruct (bool_decide _ && _) eqn:Hs; [by simplify_eq/=|].
  case_decide; [by simplify_eq/=|].
  unfold processAuthorization, generateAuthorizationCode in Hh.
  destruct (FormError r); [by simplify_eq/=|]. case_decide; [|by simplify_eq/=].
  destruct (GenerateAuthorizationCode gen) as [code|]; [|by simplify_eq/=].
  assert (s' = set_authCodes (insert code {|
    ac_Code := code; ac_ClientID := ar_ClientID req; ac_UserID := "demo-user";
    ac_RedirectURI := ar_RedirectURI req; ac_Scope := ar_Scope req;
    ac_ExpiresAt := t 0%nat + authCodeLifetime cfg; ac_CreatedAt := t 1%nat;
    ac_Challenge := ar_CodeChallenge req; ac_ChallengeMethod := ar_CodeChallengeMethod req;
    ac_Used := false |}) s) as -> by (simpl in Hh; by case_match; simplify_eq).
  apply rtc_once. apply (AddCode s). split_and!; simpl.
  - by exists client.
  - destruct (decide (ar_Scope req = "")) as [->|Hne]; [done|].
    apply andb_false_iff in Hs as [Hs%bool_decide_eq_false|Hs%negb_false_iff]; [by destruct Hs|done].
  - by eapply parse_challenge.
Qed.

Lemma generateAccess_refines gen e c clientID userID scope s s' a :
  is_Some (clients s !! clientID) → validateScope cfg scope = true →
  generateAccessToken cfg gen e c clientID userID scope s = (s', a) →
  rtc store_step s s' ∧ clients s' = clients s.
Proof.
  unfold generateAccessToken. intros Hc Hs Hg. case_match; simplify_eq; [|done].
  split; [|done]. apply rtc_once. by apply (AddAccess s (newAccessToken _ _ _ _ _ _ _)).
Qed.

Lemma generateRefresh_refines gen e c clientID userID scope s s' a :
  is_Some (clients s !! clientID) → validateScope cfg scope = true →
  generateRefreshToken cfg gen e c clientID userID scope s = (s', a) →
  rtc store_step s s' ∧ clients s' = clients s.
Proof.
  unfold generateRefreshToken. intros Hc Hs Hg. case_match; simplify_eq; [|done].
  split; [|done]. apply rtc_once. by apply (AddRefresh s (newRefreshToken _ _ _ _ _ _ _)).
Qed.

Lemma ValidateClient_registered now s id secret client :
  store_ok s → ValidateClient now s id secret = Ok client →
  clients s !! id = Some client ∧ cl_ID client = id.
Proof.
  intros Hok Hv. apply ValidateClient_Ok in Hv as [Hc _].
  split; [done|]. by apply (so_clients _ Hok).
Qed.

Lemma code_grant_refines gen t r s s' a :
  store_ok s → handleAuthorizationCodeGrant cfg gen t r s = (s', a) → rtc store_step s s'.
Proof.
  intros Hok. unfold handleAuthorizationCodeGrant. intros Hh.
  destruct (requestCredentials r) as [id secret].
  destruct (ValidateClient _ s id secret) as [client|] eqn:Hv; [|by simplify_eq/=].
  apply (ValidateClient_registered _ _ _ _ _ Hok) in Hv as [Hc <-].
  destruct (authCodes s !! Form r "code") as [c|] eqn:Hcode; [|by simplify_eq/=].
  destruct (so_codes _ Hok _ _ Hcode) as [_ (_ & Hscope & _)].
  case_match; [simplify_eq; apply rtc_once, DropCode|].
  do 2 (case_decide; [by simplify_eq/=|]).
  destruct (checkPKCE _ _); [by simplify_eq/=|].
  destruct (generateAccessToken _ _ _ _ _ _ _ _) as [s1 access] eqn:Ha.
  apply generateAccess_refines in Ha as [Hr1 Hc1]; [|by eauto|done].
  destruct access as [access|]; [|by simplify_eq/=].
  case_match; [|simplify_eq; eapply rtc_r; [done|apply DropCode]].
  destruct (generateRefreshToken _ _ _ _ _ _ _ _) as [s2 refresh] eqn:Hf.
  apply generateRefresh_refines in Hf as [Hr2 Hc2]; [|by rewrite Hc1; eauto|done].
  destruct refresh; simplify_eq; [|by etrans].
  eapply rtc_r; [by etrans|apply DropCode].
Qed.

Lemma client_credentials_refines gen t r s s' a :
  store_ok s → handleClientCredentialsGrant cfg gen t r s = (s', a) → rtc store_step s s'.
Proof.
  intros Hok. unfold handleClientCredentialsGrant. intros Hh.
  destruct (requestCredentials r) as [id secret].
  destruct (ValidateClient _ s id secret) as [client|] eqn:Hv; [|by simplify_eq/=].
  apply (ValidateClient_registered _ _ _ _ _ Hok) in Hv as [Hc <-].
  destruct (negb (contains _ _)); [by simplify_eq/=|].
  destruct (bool_decide _ && _) eqn:Hs; [by simplify_eq/=|].
  destruct (generateAccessToken _ _ _ _ _ _ _ _) as [s1 access] eqn:Ha.
  apply generateAccess_refines in Ha as [Hr1 Hc1]; [|by eauto|].
  - by destruct access; simplify_eq.
  - destruct (decide (Form r "scope" = "")) as [->|Hne]; [done|].
    apply andb_false_iff in Hs as [Hs%bool_decide_eq_false|Hs%negb_false_iff]; [by destruct Hs|done].
Qed.

Lemma validateScope_subset requested original :
  validateScope cfg original = true → isScopeSubset requested original = true →
  validateScope cfg requested = true.
Proof. rewrite !validateScope_true, isScopeSubset_true. intros Ho Hs x Hx. by apply Ho, Hs. Qed.

Lemma findRefreshToken_Some order m value id rt :
  findRefreshToken order m value id = Some rt →
  rt_Token rt = value ∧ rt_ClientID rt = id ∧ ∃ k, m !! k = Some rt.
Proof.
  unfold findRefreshToken. intros Hh. apply head_Some_elem_of in Hh.
  apply list_elem_of_filter in Hh as [[? ?] Hin]. apply list_elem_of_omap in Hin as (k & _ & ?).
  eauto.
Qed.

(** With the keys of a well-formed store, the range is a lookup. *)
Lemma findRefreshToken_lookup order s value id :
  store_ok s → range_order (refreshTokens s) order →
  findRefreshToken order (refreshTokens s) value id =
  (rt ← refreshTokens s !! value; if decide (rt_ClientID rt = id) then Some rt else None).
Proof.
  intros Hok Ho. destruct (findRefreshToken _ _ _ _) as [rt|] eqn:Hf.
  - apply findRefreshToken_Some in Hf as (<- & Hid & k & Hk).
    destruct (so_refresh _ Hok _ _ Hk) as [-> _]. rewrite Hk. simpl. by rewrite decide_True.
  - destruct (refreshTokens s !! value) as [rt|] eqn:Hk; [|done]. simpl. case_decide; [|done].
    unfold findRefreshToken in Hf. apply head_None in Hf. exfalso.
    assert (rt ∈ filter (λ rt, rt_Token rt = value ∧ rt_ClientID rt = id)
      (omap (λ k, refreshTokens s !! k) order)) as Hin; [|by rewrite Hf in Hin; apply elem_of_nil in Hin].
    apply list_elem_of_filter. split; [split; [by apply (so_refresh _ Hok)|done]|].
    apply list_elem_of_omap. exists value. split; [|done].
    apply (range_order_elem _ _ _ Ho). eauto.
Qed.

Lemma refresh_grant_refines gen t order r s s' a :
  store_ok s → handleRefreshTokenGrant cfg gen t order r s = (s', a) → rtc store_step s s'.
Proof.
  intros Hok. unfold handleRefreshTokenGrant. intros Hh.
  case_decide; [by simplify_eq/=|].
  destruct (requestCredentials r) as [id secret].
  destruct (ValidateClient _ s id secret) as [client|] eqn:Hv; [|by simplify_eq/=].
  apply (ValidateClient_registered _ _ _ _ _ Hok) in Hv as [Hc <-].
  destruct (findRefreshToken _ _ _ _) as [rt|] eqn:Hf; [|by simplify_eq/=].
  apply findRefreshToken_Some in Hf as (_ & _ & k & Hk).
  destruct (so_refresh _ Hok _ _ Hk) as [<- [_ Hscope]].
  case_match; [simplify_eq; apply rtc_once, DropRefresh|].
  destruct (bool_decide _ && _) eqn:Hs; [by simplify_eq/=|].
  set (scope := if decide (Form r "scope" = "") then rt_Scope rt else Form r "scope") in *.
  assert (validateScope cfg scope = true) as Hsc.
  { unfold scope. destruct (decide (Form r "scope" = "")) as [|Hne]; [done|].
    apply andb_false_iff in Hs as [Hs%bool_decide_eq_false|Hs%negb_false_iff]; [by destruct Hs|].
    by eapply validateScope_subset. }
  pose proof (DropRefresh s (rt_Token rt)) as Hdrop.
  destruct (generateAccessToken _ _ _ _ _ _ _ _) as [s1 access] eqn:Ha.
  apply generateAccess_refines in Ha as [Hr1 Hc1]; [|by eauto|done].
  destruct access as [access|]; [|simplify_eq; by eapply rtc_l].
  destruct (generateRefreshToken _ _ _ _ _ _ _ _) as [s2 refresh] eqn:Hf.
  apply generateRefresh_refines in Hf as [Hr2 Hc2]; [|by rewrite Hc1; eauto|done].
  eapply rtc_l; [done|]. destruct refresh; simplify_eq; by etrans.
Qed.

Lemma register_refines gen t r s s' a :
  HandleRegister urlParse cfg gen t r s = (s', a) → rtc store_step s s'.
Proof.
  unfold HandleRegister. intros Hh.
  destruct (negb _); [by simplify_eq|]. case_decide; [by simplify_eq|].
  destruct (JSONBody r) as [config|]; [|by simplify_eq]. case_decide; [by simplify_eq|].
  destruct (RegisterClient _ _ _ _ _ _) as [s1 [client|e]] eqn:Hr; simplify_eq.
  - apply RegisterClient_inv in Hr as (Hn & -> & Hu & Hc & _).
    apply rtc_once, AddClient; [done|]. intros uri. rewrite Hc.
    by apply (checkRedirectURIs_Ok _ _ tt).
  - by apply RegisterClient_error in Hr as ->.
Qed.

Lemma access_marked_insert (m : gmap string AccessToken) k a :
  m !! k = Some a → access_marked m (insert k (revokeAccess a) m).
Proof. intros Hk k' a' [[<- <-]|[? ?]]%lookup_insert_Some; eauto. Qed.
Lemma refresh_marked_insert (m : gmap string RefreshToken) k a :
  m !! k = Some a → refresh_marked m (insert k (revokeRefresh a) m).
Proof. intros Hk k' a' [[<- <-]|[? ?]]%lookup_insert_Some; eauto. Qed.
Lemma access_marked_revoke c u (m : gmap string AccessToken) :
  access_marked m (revokeAccessOf c u m).
Proof.
  intros k a Hk. unfold revokeAccessOf in Hk. apply lookup_fmap_Some in Hk as (a0 & <- & ?).
  exists a0. split; [done|]. case_decide; auto.
Qed.
Lemma refresh_marked_revoke c u (m : gmap string RefreshToken) :
  refresh_marked m (revokeRefreshOf c u m).
Proof.
  intros k a Hk. unfold revokeRefreshOf in Hk. apply lookup_fmap_Some in Hk as (a0 & <- & ?).
  exists a0. split; [done|]. case_decide; auto.
Qed.

Lemma revokeAsAccess_refines token hint auth s :
  rtc store_step s (revokeAsAccess token hint auth s).1.
Proof.
  unfold revokeAsAccess. repeat (case_match; try done). simpl.
  eapply rtc_r; [|apply MarkRefresh, refresh_marked_revoke].
  apply rtc_once, MarkAccess. by apply access_marked_insert.
Qed.

Lemma revokeAsRefresh_refines token hint auth s :
  rtc store_step s (revokeAsRefresh token hint auth s).
Proof.
  unfold revokeAsRefresh. repeat (case_match; try done).
  eapply rtc_r; [|apply MarkAccess, access_marked_revoke].
  apply rtc_once, MarkRefresh. by apply refresh_marked_insert.
Qed.

Lemma revoke_refines now r s s' a : HandleRevoke now r s = (s', a) → rtc store_step s s'.
Proof.
  unfold HandleRevoke. intros Hh. case_decide; [by simplify_eq|].
  destruct (FormError r); [by simplify_eq|]. case_decide; [by simplify_eq|].
  destruct (revokeClient _ _ _) as [auth|]; [|by simplify_eq].
  pose proof (revokeAsAccess_refines (Form r "token") (Form r "token_type_hint") auth s) as Ha.
  destruct (revokeAsAccess _ _ _ _) as [s1 [|]]; simplify_eq/=; [done|].
  etrans; [done|apply revokeAsRefresh_refines].
Qed.

Lemma serve_refines e s s' a :
  store_ok s → serve urlParse withQuery quote cfg e s = (s', a) → rtc store_step s s'.
Proof.
  intros Hok. destruct e; simpl; intros Hs.
  - destruct (HandleAuthorize _ _ _ _ _ _ _ _) eqn:Hh; simplify_eq. by eapply authorize_refines.
  - destruct (HandleToken _ _ _ _ _ _) eqn:Hh; simplify_eq. unfold HandleToken in Hh.
    repeat (case_match; try by simplify_eq);
      eauto using code_grant_refines, client_credentials_refines, refresh_grant_refines.
  - destruct (HandleRegister _ _ _ _ _ _) eqn:Hh; simplify_eq. by eapply register_refines.
  - by simplify_eq.
  - destruct (HandleRevoke _ _ _) eqn:Hh; simplify_eq. by eapply revoke_refines.
  - simplify_eq. apply rtc_once, DropAccess.
  - simplify_eq. apply rtc_once, Sweep.
Qed.

Lemma run_store_ok_from l s0 s answers :
  store_ok s0 → run urlParse withQuery quote cfg l s0 = (s, answers) → store_ok s.
Proof.
  revert s0 s answers. induction l as [|e l IH]; intros s0 s answers Hok Hr; simpl in Hr;
    [by simplify_eq|].
  destruct (serve _ _ _ _ e s0) as [s1 a] eqn:Hs. destruct (run _ _ _ _ l s1) as [s2 as'] eqn:Hr2.
  simplify_eq. eapply IH; [|done]. by eapply store_ok_steps; [eapply serve_refines|].
Qed.

(** C2: from an empty server, whatever requests arrive and in whatever order,
    every code and token in the store is filed under its own value, belongs to
    a registered client and carries only supported scopes; every code goes to a
    redirect URI its client registered (or a loopback equivalent), and is
    protected, if at all, by an S256 challenge. *)
Theorem run_store_ok l s answers :
  run urlParse withQuery quote cfg l emptyServer = (s, answers) → store_ok s.
Proof. apply run_store_ok_from, store_ok_empty. Qed.

End safety.

(** ** The code grant *)

Section code_grant.
Context `{CodeVerifier} (cfg : ServerConfig).
Implicit Types (s : Server) (r : Request) (gen : TokenGenerator) (t : nat → Z).

(** The checks a code has to pass to be redeemed by a request. *)
Definition code_redeemable t r s (client : OAuthClient) (c : AuthorizationCode) : Prop :=
  ValidateClient (t 0%nat) s (requestCredentials r).1 (requestCredentials r).2 = Ok client ∧
  authCodes s !! Form r "code" = Some c ∧
  t 1%nat ≤ ac_ExpiresAt c ∧
  ac_ClientID c = (requestCredentials r).1 ∧
  ac_RedirectURI c = Form r "redirect_uri" ∧
  (ac_Challenge c ≠ "" →
   Form r "code_verifier" ≠ "" ∧
   VerifyCodeChallenge (Form r "code_verifier") (ac_Challenge c) (ac_ChallengeMethod c) = true).

Lemma checkPKCE_None c v :
  checkPKCE c v = None ↔
  (ac_Challenge c ≠ "" →
   v ≠ "" ∧ VerifyCodeChallenge v (ac_Challenge c) (ac_ChallengeMethod c) = true).
Proof. unfold checkPKCE. repeat case_decide; [naive_solver..|]. case_if; naive_solver. Qed.

(** The tokens a redeemed code mints. *)
Definition codeAccess gen t client (c : AuthorizationCode) : option AccessToken :=
  newAccessToken cfg (t 2%nat) (t 3%nat) (cl_ID client) (ac_UserID c) (ac_Scope c) <$>
    GenerateAccessToken gen.
Definition codeRefresh gen t client (c : AuthorizationCode) : option RefreshToken :=
  newRefreshToken cfg (t 4%nat) (t 5%nat) (cl_ID client) (ac_UserID c) (ac_Scope c) <$>
    GenerateRefreshToken gen.

(** The code grant.  A redeemable code is exchanged for an access token
    with the code's user and scope, and for a refresh token when the client has
    that grant, and is deleted; any other request mints nothing.  If a token
    generator fails, the code survives, and with it an access token the failed
    answer does not carry. *)
Theorem code_grant_spec gen t r s :
  (∀ client c, code_redeemable t r s client c →
    handleAuthorizationCodeGrant cfg gen t r s =
    match codeAccess gen t client c with
    | None => (s, TokenErrorResponse "server_error" "Failed to generate access token")
    | Some access =>
        let s1 := set_accessTokens (insert (at_Token access) access) s in
        if contains (cl_GrantTypes client) "refresh_token" then
          match codeRefresh gen t client c with
          | None => (s1, TokenErrorResponse "server_error" "Failed to generate refresh token")
          | Some rt =>
              (set_authCodes (delete (Form r "code")) (set_refreshTokens (insert (rt_Token rt) rt) s1),
               TokenResponse (at_Token access) (expiresIn cfg) (Some (rt_Token rt))
                 (nonEmpty (ac_Scope c)))
          end
        else
          (set_authCodes (delete (Form r "code")) s1,
           TokenResponse (at_Token access) (expiresIn cfg) None (nonEmpty (ac_Scope c)))
    end) ∧
  ((¬ ∃ client c, code_redeemable t r s client c) →
    ∃ error description,
      (handleAuthorizationCodeGrant cfg gen t r s).2 = TokenErrorResponse error description ∧
      let s' := (handleAuthorizationCodeGrant cfg gen t r s).1 in
      accessTokens s' = accessTokens s ∧ refreshTokens s' = refreshTokens s ∧
      (s' = s ∨ s' = set_authCodes (delete (Form r "code")) s)).
Proof.
  split.
  - intros client c (Hv & Hc & Hexp & Hid & Huri & Hpkce%checkPKCE_None).
    unfold handleAuthorizationCodeGrant. destruct (requestCredentials r) as [id secret].
    simpl in *. rewrite Hv, Hc. unfold After. rewrite (proj2 (Z.ltb_ge _ _) Hexp).
    rewrite decide_False by (intros Hx; by apply Hx).
    rewrite decide_False by (intros Hx; by apply Hx). rewrite Hpkce.
    unfold generateAccessToken, generateRefreshToken, codeAccess, codeRefresh.
    destruct (GenerateAccessToken gen); [|done]. simpl.
    destruct (contains _ _); [|done]. by destruct (GenerateRefreshToken gen).
  - intros Hno. unfold handleAuthorizationCodeGrant.
    destruct (requestCredentials r) as [id secret] eqn:Hcr.
    destruct (ValidateClient _ s id secret) as [client|] eqn:Hv; [|by simpl; eauto 10].
    destruct (authCodes s !! Form r "code") as [c|] eqn:Hcode; [|by simpl; eauto 10].
    destruct (After (t 1%nat) _) eqn:Hexp; [simpl; eauto 10|].
    case_decide as Hid; [simpl; eauto 10|]. case_decide as Huri; [simpl; eauto 10|].
    destruct (checkPKCE _ _) eqn:Hpkce; [simpl; eauto 10|].
    destruct Hno. exists client, c. unfold code_redeemable. rewrite Hcr. simpl.
    unfold After in Hexp. apply Z.ltb_ge in Hexp. rewrite checkPKCE_None in Hpkce.
    split_and!; try done; by apply dec_stable.
Qed.

Lemma code_grant_response gen t r s s' a :
  handleAuthorizationCodeGrant cfg gen t r s = (s', a) →
  (authCodes s' = authCodes s ∧ ∃ error description, a = TokenErrorResponse error description) ∨
  (is_Some (authCodes s !! Form r "code") ∧ authCodes s' = delete (Form r "code") (authCodes s)).
Proof.
  unfold handleAuthorizationCodeGrant, generateAccessToken, generateRefreshToken. intros Hh.
  repeat (case_match; simplify_eq/=); eauto 10.
Qed.

End code_grant.

(** ** Codes are redeemed at most once *)

Section redemption.
Context (urlParse : string → option URL) (withQuery : string → list (string * string) → string)
  (quote : string → string).
Context `{CodeVerifier} (cfg : ServerConfig).
Implicit Types (s : Server) (r : Request) (gen : TokenGenerator) (t : nat → Z).

(** An event that can put code [c] in the store, and a redemption of [c]: a
    token request for it that is answered with a token. *)
Definition mints (e : Event) (c : string) : Prop :=
  match e with EvAuthorize gen _ _ => GenerateAuthorizationCode gen = Some c | _ => False end.
Definition redeems (c : string) (ea : Event * option Response) : Prop :=
  match ea with
  | (EvToken _ _ _ r, Some (TokenResponse _ _ _ _)) =>
      Form r "grant_type" = "authorization_code" ∧ Form r "code" = c
  | _ => False
  end.
#[export] Instance redeems_dec c ea : Decision (redeems c ea).
Proof. destruct ea as [[] [[]|]]; simpl; apply _. Defined.

Lemma authorize_codes gen t r s s' a c :
  HandleAuthorize urlParse withQuery quote cfg gen t r s = (s', a) →
  GenerateAuthorizationCode gen ≠ Some c → authCodes s' !! c = authCodes s !! c.
Proof.
  unfold HandleAuthorize, processAuthorization, generateAuthorizationCode. intros Hh Hc.
  repeat (case_match; simplify_eq/=; try done); by rewrite lookup_insert_ne by congruence.
Qed.

Lemma other_grants_codes gen t order r s s' a :
  handleClientCredentialsGrant cfg gen t r s = (s', a) ∨
  handleRefreshTokenGrant cfg gen t order r s = (s', a) →
  authCodes s' = authCodes s.
Proof.
  unfold handleClientCredentialsGrant, handleRefreshTokenGrant, generateAccessToken,
    generateRefreshToken.
  intros [Hh|Hh]; repeat (case_match; simplify_eq/=); done.
Qed.

Lemma token_codes gen t order r s s' a :
  HandleToken cfg gen t order r s = (s', a) →
  authCodes s' = authCodes s ∧
    (Form r "grant_type" = "authorization_code" → ∀ x e rf sc, a ≠ TokenResponse x e rf sc) ∨
  is_Some (authCodes s !! Form r "code") ∧ authCodes s' = delete (Form r "code") (authCodes s).
Proof.
  unfold HandleToken. intros Hh. case_decide; [simplify_eq; auto|].
  destruct (FormError r); [simplify_eq; auto|]. case_decide as Hg.
  - apply code_grant_response in Hh as [(? & ? & ? & ->)|?]; auto.
  - left. split; [|done].
    case_decide; [by eapply (other_grants_codes gen t order); left|].
    case_decide; [by eapply (other_grants_codes gen t order); right|]. by simplify_eq.
Qed.

Lemma revoke_codes now r s : authCodes (HandleRevoke now r s).1 = authCodes s.
Proof.
  unfold HandleRevoke, revokeAsAccess, revokeAsRefresh. repeat (case_match; simplify_eq/=); done.
Qed.

Lemma register_codes gen t r s : authCodes (HandleRegister urlParse cfg gen t r s).1 = authCodes s.
Proof.
  unfold HandleRegister, RegisterClient. repeat (case_match; simplify_eq/=); done.
Qed.

Lemma serve_absent_code e s s' a c :
  serve urlParse withQuery quote cfg e s = (s', a) →
  ¬ mints e c → authCodes s !! c = None → authCodes s' !! c = None ∧ ¬ redeems c (e, a).
Proof.
  intros Hs Hm Hc. destruct e; simpl in *.
  - destruct (HandleAuthorize _ _ _ _ _ _ _ _) eqn:Hh; simplify_eq.
    apply (authorize_codes _ _ _ _ _ _ c) in Hh; [|done]. rewrite Hh. auto.
  - destruct (HandleToken _ _ _ _ _ _) as [s1 b] eqn:Hh; simplify_eq.
    apply token_codes in Hh as [[-> Hno]|[[x Hx] ->]].
    + split; [done|]. destruct b; try tauto. intros [Hg _]. by eapply Hno.
    + split; [by rewrite lookup_delete_None; auto|].
      destruct b; try tauto. intros [_ <-]. congruence.
  - pose proof (register_codes gen t r s) as Hh.
    destruct (HandleRegister _ _ _ _ _ _); simplify_eq/=. rewrite Hh. auto.
  - simplify_eq. auto.
  - pose proof (revoke_codes now r s) as Hh. destruct (HandleRevoke _ _ _); simplify_eq/=.
    rewrite Hh. auto.
  - simplify_eq/=. auto.
  - simplify_eq/=. split; [|done]. by apply delete_if_lookup_None.
Qed.

Lemma serve_redeems e s s' a c :
  serve urlParse withQuery quote cfg e s = (s', a) → redeems c (e, a) → authCodes s' !! c = None.
Proof.
  intros Hs Hr. destruct e; try done. simpl in *.
  destruct (HandleToken _ _ _ _ _ _) as [s1 b] eqn:Hh; simplify_eq.
  destruct b; try done. destruct Hr as [Hg <-].
  apply token_codes in Hh as [[_ Hno]|[_ ->]]; [by exfalso; eapply Hno|].
  by rewrite lookup_delete_None; auto.
Qed.

(** C1: an authorization code is redeemed at most once: along any run of the
    server in which the generator does not produce the code again, at most one
    request for it is answered with a token. *)
Theorem code_redeemed_once l s c :
  (∀ e, e ∈ l → ¬ mints e c) →
  (length (filter (redeems c) (zip l (run urlParse withQuery quote cfg l s).2)) ≤ 1)%nat.
Proof.
  assert (∀ l s, (∀ e, e ∈ l → ¬ mints e c) → authCodes s !! c = None →
    filter (redeems c) (zip l (run urlParse withQuery quote cfg l s).2) = []) as Hnone.
  { clear l s. intros l. induction l as [|e l IH]; intros s Hm Hc; [done|]. simpl.
    destruct (serve _ _ _ _ e s) as [s1 a] eqn:Hs. destruct (run _ _ _ _ l s1) as [s2 as'] eqn:Hr.
    apply (serve_absent_code _ _ _ _ c) in Hs as [Hc1 Hn]; [|set_solver|done].
    simpl. rewrite filter_cons_False by done. specialize (IH s1). rewrite Hr in IH.
    apply IH; [set_solver|done]. }
  revert s. induction l as [|e l IH]; intros s Hm; [simpl; lia|]. simpl.
  destruct (serve _ _ _ _ e s) as [s1 a] eqn:Hs. destruct (run _ _ _ _ l s1) as [s2 as'] eqn:Hr.
  simpl. rewrite filter_cons. destruct (decide (redeems c (e, a))) as [Hred|].
  - specialize (Hnone l s1). rewrite Hr in Hnone. simpl in *.
    rewrite Hnone; [simpl; lia|set_solver|by eapply serve_redeems].
  - specialize (IH s1). rewrite Hr in IH. apply IH. set_solver.
Qed.

End redemption.

(** ** Refresh-token rotation *)

Section rotation.
Context (urlParse : string → option URL) (cfg : ServerConfig).
Implicit Types (s : Server) (r : Request) (gen : TokenGenerator) (t : nat → Z).

(** A refresh that is answered with tokens consumes the refresh token it was
    given: the store's refresh tokens are the old ones without it and with the
    new one, which has the same client and user and no scope the old one lacked,
    as has the access token. *)
Theorem refresh_rotates gen t order r s s' access e rf sc :
  store_ok urlParse cfg s → range_order (refreshTokens s) order →
  handleRefreshTokenGrant cfg gen t order r s = (s', TokenResponse access e rf sc) →
  ∃ old new a,
    refreshTokens s !! Form r "refresh_token" = Some old ∧
    rt_ClientID old = (requestCredentials r).1 ∧ t 1%nat ≤ rt_ExpiresAt old ∧
    rf = Some (rt_Token new) ∧
    refreshTokens s' =
      <[rt_Token new := new]> (delete (Form r "refresh_token") (refreshTokens s)) ∧
    (size (refreshTokens s') ≤ size (refreshTokens s))%nat ∧
    rt_ClientID new = rt_ClientID old ∧ rt_UserID new = rt_UserID old ∧
    Fields (rt_Scope new) ⊆ Fields (rt_Scope old) ∧
    accessTokens s' = <[access := a]> (accessTokens s) ∧ at_ClientID a = rt_ClientID old ∧
    at_UserID a = rt_UserID old ∧ Fields (at_Scope a) ⊆ Fields (rt_Scope old).
Proof.
  intros Hok Ho. unfold handleRefreshTokenGrant, generateAccessToken, generateRefreshToken.
  intros Hh. case_decide; [done|].
  destruct (requestCredentials r) as [id secret].
  rewrite (findRefreshToken_lookup urlParse cfg) in Hh by done.
  destruct (ValidateClient _ s id secret) as [client|] eqn:Hv; [|done].
  apply (ValidateClient_registered _ _ _ _ _ _ _ Hok) in Hv as [Hc <-].
  destruct (refreshTokens s !! Form r "refresh_token") as [old|] eqn:Hold; [|done].
  cbn [mbind option_bind] in Hh. case_decide as Hid; [|done].
  destruct (so_refresh _ _ _ Hok _ _ Hold) as [Htok _].
  destruct (After _ _) eqn:Hexp; [done|]. unfold After in Hexp. apply Z.ltb_ge in Hexp.
  destruct (bool_decide _ && _) eqn:Hs; [done|].
  destruct (GenerateAccessToken gen) as [tok|]; [|done].
  destruct (GenerateRefreshToken gen) as [rtok|]; simplify_eq/=.
  assert (Fields (if decide (Form r "scope" = "") then rt_Scope old else Form r "scope") ⊆
    Fields (rt_Scope old)) as Hsub.
  { case_decide; [done|]. apply isScopeSubset_true.
    apply andb_false_iff in Hs as [Hs%bool_decide_eq_false|Hs%negb_false_iff]; [by destruct Hs|done]. }
  eexists old, (newRefreshToken cfg _ _ _ _ _ rtok), _. simpl. rewrite Htok.
  split_and!; try done.
  rewrite map_size_insert, map_size_delete, Hold.
  assert (size (refreshTokens s) ≠ 0%nat); [|simpl; destruct (delete _ _ !! rtok); unfold id; lia].
  intros Hz%map_size_empty_iff. by rewrite Hz, lookup_empty in Hold.
Qed.

End rotation.

(** ** The authorize endpoint *)

Section authorize.
Context (urlParse : string → option URL) (withQuery : string → list (string * string) → string)
  (quote : string → string).
Context `{CodeVerifier} (cfg : ServerConfig).
Implicit Types (s : Server) (r : Request) (gen : TokenGenerator) (t : nat → Z).

(** For a client ID that is not registered, the authorize endpoint sends the
    browser to whatever redirect URI the request names, as long as it parses:
    the check against registered URIs is never reached. *)
Theorem unknown_client_redirects_anywhere gen t r s req parsed :
  parseAuthorizationRequest quote r = Ok req →
  Method r = "GET" ∨ Method r = "POST" →
  clients s !! ar_ClientID req = None →
  ar_RedirectURI req ≠ "" → urlParse (ar_RedirectURI req) = Some parsed →
  ∃ params,
    HandleAuthorize urlParse withQuery quote cfg gen t r s =
    (s, RedirectTo (withQuery (ar_RedirectURI req) params)).
Proof.
  intros Hp Hm Hc Hne Hu. unfold HandleAuthorize, GetClient, redirectWithError.
  rewrite Hp, Hc, Hu. rewrite decide_False by (intros ?; naive_solver congruence).
  rewrite decide_False by tauto. rewrite decide_False by done. eauto.
Qed.

(** An authorization code is only ever sent to a redirect URI its client
    registered (or a loopback equivalent): if the endpoint stores a code, the
    client exists, the URI passed the check, and the scopes are supported. *)
Theorem code_only_to_registered_uri gen t r s s' a :
  HandleAuthorize urlParse withQuery quote cfg gen t r s = (s', a) → s' ≠ s →
  ∃ req client code,
    parseAuthorizationRequest quote r = Ok req ∧ Method r = "POST" ∧
    Form r "action" = "approve" ∧
    clients s !! ar_ClientID req = Some client ∧
    validateRedirectURI urlParse client (ar_RedirectURI req) = true ∧
    validateScope cfg (ar_Scope req) = true ∧
    GenerateAuthorizationCode gen = Some code ∧
    s' = set_authCodes (insert code {|
      ac_Code := code; ac_ClientID := ar_ClientID req; ac_UserID := "demo-user";
      ac_RedirectURI := ar_RedirectURI req; ac_Scope := ar_Scope req;
      ac_ExpiresAt := t 0%nat + authCodeLifetime cfg; ac_CreatedAt := t 1%nat;
      ac_Challenge := ar_CodeChallenge req; ac_ChallengeMethod := ar_CodeChallengeMethod req;
      ac_Used := false |}) s ∧
    (∀ uri, a = RedirectTo uri → ∃ params, uri = withQuery (ar_RedirectURI req) params).
Proof.
  unfold HandleAuthorize. intros Hh Hne.
  case_decide; [by simplify_eq|]. case_decide as Hm; [by simplify_eq|].
  destruct (parseAuthorizationRequest quote r) as [req|] eqn:Hp; [|by simplify_eq].
  destruct (GetClient s (ar_ClientID req)) as [client|] eqn:Hg; [|by simplify_eq].
  destruct (validateRedirectURI _ client _) eqn:Hv; [|by simplify_eq/=].
  destruct (contains _ _); [|by simplify_eq/=]. cbn [negb] in Hh.
  destruct (bool_decide _ && _) eqn:Hs; [by simplify_eq|]. case_decide as HG; [by simplify_eq|].
  unfold processAuthorization, generateAuthorizationCode in Hh.
  destruct (FormError r); [by simplify_eq|]. case_decide as Hap; [|by simplify_eq].
  destruct (GenerateAuthorizationCode gen) as [code|]; [|by simplify_eq].
  assert (validateScope cfg (ar_Scope req) = true) as Hsc.
  { destruct (decide (ar_Scope req = "")) as [->|]; [done|].
    apply andb_false_iff in Hs as [Hs%bool_decide_eq_false|Hs%negb_false_iff]; [by destruct Hs|done]. }
  assert (Method r = "POST") by (apply dec_stable; tauto).
  exists req, client, code. cbn [ac_Code] in Hh.
  destruct (urlParse (ar_RedirectURI req)); simplify_eq; (split_and!; try done);
    intros uri ?; simplify_eq; eauto.
Qed.
End authorize.

(** With no configured scopes the server supports "mcp:*", and then every
    requested scope is valid, whatever it is. *)
Theorem default_scopes_accept_all c scope :
  ScopesSupported c = [] → validateScope (NewAuthorizationServer c).2 scope = true.
Proof.
  intros Hc. apply validateScope_true. intros x Hx. right. simpl. rewrite Hc. set_solver.
Qed.

(** ** Witnesses *)

(** A request with the given form; the query is the same. *)
Definition formRequest (method : string) (fields : gmap string string) : Request := {|
  Method := method; Query := λ k, default "" (fields !! k); FormError := None;
  Form := λ k, default "" (fields !! k); Authorization := ""; BasicAuth := None;
  JSONBody := None |}.

Definition registerRequest : Request := {|
  Method := "POST"; Query := λ _, ""; FormError := None; Form := λ _, "";
  Authorization := ""; BasicAuth := None; JSONBody := Some confidentialConfig |}.

Definition authorizeFields : gmap string string := {[
  "response_type" := "code"; "client_id" := "client"; "redirect_uri" := "https://app.example/cb";
  "scope" := "mcp:tools mcp:resources"; "state" := "xyz"; "code_challenge" := "hash of v";
  "action" := "approve" ]}.

Definition codeFields : gmap string string := {[
  "grant_type" := "authorization_code"; "code" := "code"; "client_id" := "client";
  "client_secret" := "secret"; "redirect_uri" := "https://app.example/cb";
  "code_verifier" := "v" ]}.

Definition refreshFields : gmap string string := {[
  "grant_type" := "refresh_token"; "refresh_token" := "refresh"; "client_id" := "client";
  "client_secret" := "secret"; "scope" := "mcp:tools" ]}.

Definition exampleCfg : ServerConfig :=
  (NewAuthorizationServer {|
    AuthorizationEndpoint := ""; TokenEndpoint := ""; UserinfoEndpoint := "";
    RevocationEndpoint := ""; RegistrationEndpoint := "";
    ScopesSupported := ["mcp:tools"; "mcp:resources"]; ResponseTypesSupported := [];
    GrantTypesSupported := []; TokenEndpointAuthMethodsSupported := [];
    CodeChallengeMethodsSupported := [] |}).2.

Definition clockFrom (z : Z) : nat → Z := λ n, z + Z.of_nat n.
Definition exampleHash (v : string) : string := "hash of " +:+ v.
Definition exampleQuery (uri : string) (kvs : list (string * string)) : string :=
  foldl (λ acc kv, acc +:+ " " +:+ kv.1 +:+ "=" +:+ kv.2) uri kvs.

Definition exampleEvents : list Event := [
  EvRegister noGen (clockFrom 10) registerRequest;
  EvAuthorize noGen (clockFrom 20) (formRequest "POST" authorizeFields);
  EvToken noGen (clockFrom 30) [] (formRequest "POST" codeFields);
  EvToken noGen (clockFrom 40) [] (formRequest "POST" codeFields) ].

Definition exampleVerifier : CodeVerifier := DefaultCodeVerifier exampleHash.

Definition exampleRun (l : list Event) : Server * list (option Response) :=
  run (H := exampleVerifier) parseExample exampleQuery id exampleCfg l emptyServer.

(** The second redemption of the code is refused. *)
Example exampleRun_answers :
  tail (exampleRun exampleEvents).2 = [
    Some (RedirectTo "https://app.example/cb code=code state=xyz");
    Some (TokenResponse "access" 3600 (Some "refresh") (Some "mcp:tools mcp:resources"));
    Some (TokenErrorResponse "invalid_grant" "Invalid authorization code") ].
Proof. vm_compute. reflexivity. Qed.

Lemma run_store_ok_witness : store_ok parseExample exampleCfg (exampleRun exampleEvents).1.
Proof.
  apply (run_store_ok parseExample exampleQuery id (H := exampleVerifier) exampleCfg exampleEvents
    (exampleRun exampleEvents).1 (exampleRun exampleEvents).2).
  vm_compute. reflexivity.
Defined.

Lemma code_redeemed_once_witness :
  (length (filter (redeems "code") (zip (tail (tail exampleEvents))
    (run (H := exampleVerifier) parseExample exampleQuery id exampleCfg (tail (tail exampleEvents))
      (exampleRun (take 2 exampleEvents)).1).2)) ≤ 1)%nat.
Proof.
  apply (code_redeemed_once parseExample exampleQuery id (H := exampleVerifier) exampleCfg
    (tail (tail exampleEvents)) (exampleRun (take 2 exampleEvents)).1 "code").
  intros e He Hm. simpl in He. by repeat (apply elem_of_cons in He as [->|He]; [done|]);
    apply elem_of_nil in He.
Defined.

(** The state after the code has been redeemed. *)
Definition redeemedServer : Server := (exampleRun (take 3 exampleEvents)).1.

Lemma redeemedServer_ok : store_ok parseExample exampleCfg redeemedServer.
Proof.
  eapply (run_store_ok_from parseExample exampleQuery id (H := exampleVerifier) exampleCfg
    (take 3 exampleEvents) emptyServer); [apply store_ok_empty|vm_compute; reflexivity].
Qed.

Definition freshGen : TokenGenerator := {|
  GenerateAuthorizationCode := Some "code2"; GenerateAccessToken := Some "access2";
  GenerateRefreshToken := Some "refresh2"; GenerateClientID := Some "client2";
  GenerateClientSecret := Some "secret2" |}.

Definition refreshedServer : Server :=
  (handleRefreshTokenGrant exampleCfg freshGen (clockFrom 50) ["refresh"]
    (formRequest "POST" refreshFields) redeemedServer).1.

Lemma refresh_rotates_witness :
  ∃ old new a,
    refreshTokens redeemedServer !! "refresh" = Some old ∧
    rt_ClientID old = "client" ∧ 51 ≤ rt_ExpiresAt old ∧
    Some "refresh2" = Some (rt_Token new) ∧
    refreshTokens refreshedServer =
      <[rt_Token new := new]> (delete "refresh" (refreshTokens redeemedServer)) ∧
    (size (refreshTokens refreshedServer) ≤ size (refreshTokens redeemedServer))%nat ∧
    rt_ClientID new = rt_ClientID old ∧ rt_UserID new = rt_UserID old ∧
    Fields (rt_Scope new) ⊆ Fields (rt_Scope old) ∧
    accessTokens refreshedServer = <["access2" := a]> (accessTokens redeemedServer) ∧
    at_ClientID a = rt_ClientID old ∧ at_UserID a = rt_UserID old ∧
    Fields (at_Scope a) ⊆ Fields (rt_Scope old).
Proof.
  apply (refresh_rotates parseExample exampleCfg freshGen (clockFrom 50) ["refresh"]
    (formRequest "POST" refreshFields) redeemedServer refreshedServer "access2" 3600
    (Some "refresh2") (Some "mcp:tools")).
  - apply redeemedServer_ok.
  - unfold range_order. vm_compute. reflexivity.
  - vm_compute. reflexivity.
Defined.

Definition strangerFields : gmap string string := {[
  "response_type" := "code"; "client_id" := "nobody"; "redirect_uri" := "https://app.example/cb" ]}.

Definition strangerRequest : AuthorizationRequest := {|
  ar_ResponseType := "code"; ar_ClientID := "nobody"; ar_RedirectURI := "https://app.example/cb";
  ar_Scope := ""; ar_State := ""; ar_CodeChallenge := ""; ar_CodeChallengeMethod := "";
  ar_Nonce := "" |}.

Lemma unknown_client_redirects_anywhere_witness :
  ∃ params,
    HandleAuthorize parseExample exampleQuery id exampleCfg noGen (clockFrom 1)
      (formRequest "GET" strangerFields) emptyServer =
    (emptyServer, RedirectTo (exampleQuery "https://app.example/cb" params)).
Proof.
  apply (unknown_client_redirects_anywhere parseExample exampleQuery id exampleCfg noGen
    (clockFrom 1) (formRequest "GET" strangerFields) emptyServer strangerRequest exampleURL);
    [vm_compute; reflexivity|by left|reflexivity|done|reflexivity].
Defined.

Definition authorizedAnswer := HandleAuthorize parseExample exampleQuery id exampleCfg noGen
  (clockFrom 20) (formRequest "POST" authorizeFields) registeredServer.

Lemma code_only_to_registered_uri_witness :
  ∃ req client code,
    parseAuthorizationRequest id (formRequest "POST" authorizeFields) = Ok req ∧
    Method (formRequest "POST" authorizeFields) = "POST" ∧
    Form (formRequest "POST" authorizeFields) "action" = "approve" ∧
    clients registeredServer !! ar_ClientID req = Some client ∧
    validateRedirectURI parseExample client (ar_RedirectURI req) = true ∧
    validateScope exampleCfg (ar_Scope req) = true ∧
    GenerateAuthorizationCode noGen = Some code ∧
    authorizedAnswer.1 = set_authCodes (insert code {|
      ac_Code := code; ac_ClientID := ar_ClientID req; ac_UserID := "demo-user";
      ac_RedirectURI := ar_RedirectURI req; ac_Scope := ar_Scope req;
      ac_ExpiresAt := clockFrom 20 0%nat + authCodeLifetime exampleCfg;
      ac_CreatedAt := clockFrom 20 1%nat; ac_Challenge := ar_CodeChallenge req;
      ac_ChallengeMethod := ar_CodeChallengeMethod req; ac_Used := false |}) registeredServer ∧
    (∀ uri, authorizedAnswer.2 = RedirectTo uri →
      ∃ params, uri = exampleQuery (ar_RedirectURI req) params).
Proof.
  apply (code_only_to_registered_uri parseExample exampleQuery id exampleCfg noGen (clockFrom 20)
    (formRequest "POST" authorizeFields) registeredServer authorizedAnswer.1 authorizedAnswer.2).
  - apply surjective_pairing.
  - intros Heq. apply (f_equal (λ s, size (authCodes s))) in Heq. vm_compute in Heq. discriminate.
Defined.

Lemma default_scopes_accept_all_witness :
  validateScope (NewAuthorizationServer {|
    AuthorizationEndpoint := ""; TokenEndpoint := ""; UserinfoEndpoint := "";
    RevocationEndpoint := ""; RegistrationEndpoint := ""; ScopesSupported := [];
    ResponseTypesSupported := []; GrantTypesSupported := [];
    TokenEndpointAuthMethodsSupported := []; CodeChallengeMethodsSupported := [] |}).2
    "admin:everything" = true.
Proof. by apply default_scopes_accept_all. Defined.

(** The code in the store is redeemable, and its redemption answers with tokens. *)
Definition authorizedServer : Server := (exampleRun (take 2 exampleEvents)).1.
Definition authorizedClient : OAuthClient :=
  newClient confidentialConfig "client" "secret" false 10 11.
Definition authorizedCode : AuthorizationCode := {|
  ac_Code := "code"; ac_ClientID := "client"; ac_UserID := "demo-user";
  ac_RedirectURI := "https://app.example/cb"; ac_Scope := "mcp:tools mcp:resources";
  ac_ExpiresAt := 20 + 600 * second; ac_CreatedAt := 21; ac_Challenge := "hash of v";
  ac_ChallengeMethod := "S256"; ac_Used := false |}.

Lemma code_grant_spec_witness :
  (handleAuthorizationCodeGrant (H := exampleVerifier) exampleCfg noGen (clockFrom 30)
    (formRequest "POST" codeFields) authorizedServer).2 =
  TokenResponse "access" 3600 (Some "refresh") (Some "mcp:tools mcp:resources").
Proof.
  rewrite (proj1 (code_grant_spec (H := exampleVerifier) exampleCfg noGen (clockFrom 30)
    (formRequest "POST" codeFields) authorizedServer) authorizedClient authorizedCode).
  - vm_compute. reflexivity.
  - unfold code_redeemable. split_and!; try (vm_compute; reflexivity); [vm_compute; done|].
    intros _. split; [done|vm_compute; reflexivity].
Defined.
