(* ===== verification/OAuthRevocation.v ===== *)
(** * The OAuth authorization server: what revocation changes

    Two servers that differ only in the Revoked marks of their tokens answer
    every later run of events alike, because no handler reads the mark.  So a
    revocation request has no observable effect on the endpoints of
    internal/auth/handlers.go. *)
From S2P Require Import Prelude GoString GoPath OAuth OAuthHandlers OAuthSafety.

#[local] Open Scope Z_scope.
Set Default Proof Using "Type".

(** Equal up to the marks. *)
Record same_unmarked (s1 s2 : Server) : Prop := {
  su_clients : clients s1 = clients s2;
  su_codes : authCodes s1 = authCodes s2;
  su_access : revokeAccess <$> accessTokens s1 = revokeAccess <$> accessTokens s2;
  su_refresh : revokeRefresh <$> refreshTokens s1 = revokeRefresh <$> refreshTokens s2;
}.

#[export] Instance same_unmarked_equiv : Equivalence same_unmarked.
Proof.
  split.
  - done.
  - intros s1 s2 []. by split.
  - intros s1 s2 s3 [] []. split; congruence.
Qed.

(** Tokens equal up to the mark agree on every other field. *)
Lemma revokeAccess_inv a b :
  revokeAccess <$> Some a = revokeAccess <$> Some b →
  at_ClientID a = at_ClientID b ∧ at_UserID a = at_UserID b ∧ at_Scope a = at_Scope b ∧
  at_ExpiresAt a = at_ExpiresAt b ∧ at_CreatedAt a = at_CreatedAt b.
Proof. intros [=]. by split_and!. Qed.

Lemma revokeRefresh_inv a b :
  revokeRefresh <$> Some a = revokeRefresh <$> Some b →
  rt_Token a = rt_Token b ∧ rt_ClientID a = rt_ClientID b ∧ rt_UserID a = rt_UserID b ∧
  rt_Scope a = rt_Scope b ∧ rt_ExpiresAt a = rt_ExpiresAt b.
Proof. intros [=]. by split_and!. Qed.

Lemma same_lookup_access s1 s2 k :
  same_unmarked s1 s2 →
  revokeAccess <$> (accessTokens s1 !! k) = revokeAccess <$> (accessTokens s2 !! k).
Proof. intros [_ _ Ha _]. by rewrite <-!lookup_fmap, Ha. Qed.

Lemma same_lookup_refresh s1 s2 k :
  same_unmarked s1 s2 →
  revokeRefresh <$> (refreshTokens s1 !! k) = revokeRefresh <$> (refreshTokens s2 !! k).
Proof. intros [_ _ _ Hr]. by rewrite <-!lookup_fmap, Hr. Qed.

(** The mutators respect the equivalence. *)
Lemma same_insert_access k a a' s1 s2 :
  same_unmarked s1 s2 → revokeAccess a = revokeAccess a' →
  same_unmarked (set_accessTokens (insert k a) s1) (set_accessTokens (insert k a') s2).
Proof. intros [] Ha. split; simpl; try done. rewrite !fmap_insert. congruence. Qed.

Lemma same_insert_refresh k a a' s1 s2 :
  same_unmarked s1 s2 → revokeRefresh a = revokeRefresh a' →
  same_unmarked (set_refreshTokens (insert k a) s1) (set_refreshTokens (insert k a') s2).
Proof. intros [] Ha. split; simpl; try done. rewrite !fmap_insert. congruence. Qed.

#[export] Instance set_codes_proper f : Proper (same_unmarked ==> same_unmarked) (set_authCodes f).
Proof. intros s1 s2 []. split; simpl; congruence. Qed.

#[export] Instance set_clients_proper f : Proper (same_unmarked ==> same_unmarked) (set_clients f).
Proof. intros s1 s2 []. split; simpl; congruence. Qed.

#[export] Instance delete_access_proper k :
  Proper (same_unmarked ==> same_unmarked) (set_accessTokens (delete k)).
Proof. intros s1 s2 []. split; simpl; try done. rewrite !fmap_delete. congruence. Qed.

#[export] Instance delete_refresh_proper k :
  Proper (same_unmarked ==> same_unmarked) (set_refreshTokens (delete k)).
Proof. intros s1 s2 []. split; simpl; try done. rewrite !fmap_delete. congruence. Qed.

Lemma delete_if_fmap {V} (p : V → bool) (f : V → V) (m : gmap string V) :
  (∀ v, p (f v) = p v) → f <$> delete_if p m = delete_if p (f <$> m).
Proof.
  intros Hp. apply map_eq. intros k. apply option_eq. intros v.
  rewrite lookup_fmap, delete_if_lookup_Some, lookup_fmap.
  rewrite !fmap_Some. setoid_rewrite delete_if_lookup_Some. split.
  - intros (x & [Hx ?] & ->). rewrite Hp. eauto.
  - intros [(x & Hx & ->) Hf]. rewrite Hp in Hf. eauto.
Qed.

#[export] Instance cleanup_proper now :
  Proper (same_unmarked ==> same_unmarked) (CleanupExpiredTokens now).
Proof.
  intros s1 s2 [Hc Ho Ha Hr]. split; simpl; [done|by rewrite Ho|..];
    rewrite !delete_if_fmap by done; congruence.
Qed.

(** Marking tokens stays within a class. *)
Lemma fmap_revokeAccess_marks (P : AccessToken → Prop) `{∀ a, Decision (P a)}
    (m : gmap string AccessToken) :
  revokeAccess <$> ((λ a, if decide (P a) then revokeAccess a else a) <$> m) = revokeAccess <$> m.
Proof. rewrite <-map_fmap_compose. apply map_fmap_ext. intros k a _. simpl. by case_decide. Qed.

Lemma fmap_revokeRefresh_marks (P : RefreshToken → Prop) `{∀ a, Decision (P a)}
    (m : gmap string RefreshToken) :
  revokeRefresh <$> ((λ a, if decide (P a) then revokeRefresh a else a) <$> m) = revokeRefresh <$> m.
Proof. rewrite <-map_fmap_compose. apply map_fmap_ext. intros k a _. simpl. by case_decide. Qed.

Lemma revokeAsAccess_same token hint auth s :
  same_unmarked (revokeAsAccess token hint auth s).1 s.
Proof.
  unfold revokeAsAccess. repeat (case_match; try done). simpl. split; simpl; try done.
  - rewrite fmap_insert. simpl. by rewrite insert_id by (by rewrite lookup_fmap, H0).
  - apply fmap_revokeRefresh_marks.
Qed.

Lemma revokeAsRefresh_same token hint auth s :
  same_unmarked (revokeAsRefresh token hint auth s) s.
Proof.
  unfold revokeAsRefresh. repeat (case_match; try done). split; simpl; try done.
  - apply fmap_revokeAccess_marks.
  - rewrite fmap_insert. simpl. by rewrite insert_id by (by rewrite lookup_fmap, H0).
Qed.

(** A revocation changes only marks. *)
Lemma HandleRevoke_same now r s : same_unmarked (HandleRevoke now r s).1 s.
Proof.
  unfold HandleRevoke. case_decide; [done|]. destruct (FormError r); [done|].
  case_decide; [done|]. destruct (revokeClient _ _ _) as [auth|]; [|done].
  pose proof (revokeAsAccess_same (Form r "token") (Form r "token_type_hint") auth s) as Ha.
  destruct (revokeAsAccess _ _ _ _) as [s1 [|]]; simpl in *; [done|].
  by rewrite revokeAsRefresh_same.
Qed.

(** ** Handlers in lockstep *)

(** Two answers of an operation: equivalent states, equal results. *)
Definition alike {A} (x y : Server * A) : Prop := same_unmarked x.1 y.1 ∧ x.2 = y.2.

Lemma alike_intro {A} s1 s2 (a : A) : same_unmarked s1 s2 → alike (s1, a) (s2, a).
Proof. by split. Qed.

Create HintDb lockstep.
#[local] Hint Resolve alike_intro : lockstep.

Section lockstep.
Context (urlParse : string → option URL) (withQuery : string → list (string * string) → string)
  (quote : string → string).
Context `{CodeVerifier} (cfg : ServerConfig).
Implicit Types (s : Server) (r : Request) (gen : TokenGenerator) (t : nat → Z).

Lemma GetClient_same s1 s2 id : same_unmarked s1 s2 → GetClient s1 id = GetClient s2 id.
Proof. intros []. unfold GetClient. congruence. Qed.

Lemma ValidateClient_same now s1 s2 id secret :
  same_unmarked s1 s2 → ValidateClient now s1 id secret = ValidateClient now s2 id secret.
Proof. intros Hs. unfold ValidateClient. by rewrite (GetClient_same _ _ _ Hs). Qed.

Lemma generateAccess_same gen e c id u sc s1 s2 :
  same_unmarked s1 s2 →
  alike (generateAccessToken cfg gen e c id u sc s1) (generateAccessToken cfg gen e c id u sc s2).
Proof.
  intros Hs. unfold generateAccessToken. destruct (GenerateAccessToken gen); apply alike_intro;
    [by apply same_insert_access|done].
Qed.

Lemma generateRefresh_same gen e c id u sc s1 s2 :
  same_unmarked s1 s2 →
  alike (generateRefreshToken cfg gen e c id u sc s1) (generateRefreshToken cfg gen e c id u sc s2).
Proof.
  intros Hs. unfold generateRefreshToken. destruct (GenerateRefreshToken gen); apply alike_intro;
    [by apply same_insert_refresh|done].
Qed.

Lemma code_grant_same gen t r s1 s2 :
  same_unmarked s1 s2 →
  alike (handleAuthorizationCodeGrant cfg gen t r s1) (handleAuthorizationCodeGrant cfg gen t r s2).
Proof.
  intros Hs. unfold handleAuthorizationCodeGrant. destruct (requestCredentials r) as [id secret].
  rewrite (ValidateClient_same _ _ _ _ _ Hs), (su_codes _ _ Hs).
  destruct (ValidateClient _ s2 id secret) as [client|]; [|by apply alike_intro].
  destruct (authCodes s2 !! _) as [c|]; [|by apply alike_intro].
  destruct (After _ _); [apply alike_intro; by rewrite Hs|].
  do 2 (case_decide; [by apply alike_intro|]).
  destruct (checkPKCE _ _); [by apply alike_intro|].
  destruct (generateAccess_same gen (t 2%nat) (t 3%nat) (cl_ID client) (ac_UserID c) (ac_Scope c)
    _ _ Hs) as [Hs' Ha].
  destruct (generateAccessToken _ _ _ _ _ _ _ s1) as [s1' a1],
    (generateAccessToken _ _ _ _ _ _ _ s2) as [s2' a2]. simpl in *. subst a2.
  destruct a1 as [a|]; [|by apply alike_intro].
  destruct (contains _ _); [|apply alike_intro; by rewrite Hs'].
  destruct (generateRefresh_same gen (t 4%nat) (t 5%nat) (cl_ID client) (ac_UserID c) (ac_Scope c)
    _ _ Hs') as [Hs'' Hr].
  destruct (generateRefreshToken _ _ _ _ _ _ _ s1') as [s1'' r1],
    (generateRefreshToken _ _ _ _ _ _ _ s2') as [s2'' r2]. simpl in *. subst r2.
  destruct r1; apply alike_intro; [by rewrite Hs''|done].
Qed.

Lemma client_credentials_same gen t r s1 s2 :
  same_unmarked s1 s2 →
  alike (handleClientCredentialsGrant cfg gen t r s1) (handleClientCredentialsGrant cfg gen t r s2).
Proof.
  intros Hs. unfold handleClientCredentialsGrant. destruct (requestCredentials r) as [id secret].
  rewrite (ValidateClient_same _ _ _ _ _ Hs).
  destruct (ValidateClient _ s2 id secret) as [client|]; [|by apply alike_intro].
  do 2 (case_match; [by apply alike_intro|]).
  destruct (generateAccess_same gen (t 1%nat) (t 2%nat) (cl_ID client) "" (Form r "scope")
    _ _ Hs) as [Hs' Ha].
  destruct (generateAccessToken _ _ _ _ _ _ _ s1) as [s1' a1],
    (generateAccessToken _ _ _ _ _ _ _ s2) as [s2' a2]. simpl in *. subst a2.
  by destruct a1; apply alike_intro.
Qed.

(** The range finds the same token up to its mark. *)
Lemma findRefresh_same order s1 s2 value id :
  same_unmarked s1 s2 →
  revokeRefresh <$> findRefreshToken order (refreshTokens s1) value id =
  revokeRefresh <$> findRefreshToken order (refreshTokens s2) value id.
Proof.
  intros Hs. unfold findRefreshToken. induction order as [|k order IH]; [done|]. simpl.
  pose proof (same_lookup_refresh _ _ k Hs) as Hk.
  destruct (refreshTokens s1 !! k) as [r1|], (refreshTokens s2 !! k) as [r2|]; try done.
  simpl. rewrite !filter_cons. destruct (revokeRefresh_inv _ _ Hk) as (H1 & H2 & _). rewrite H1, H2.
  by case_decide.
Qed.

Lemma refresh_grant_same gen t order r s1 s2 :
  same_unmarked s1 s2 →
  alike (handleRefreshTokenGrant cfg gen t order r s1) (handleRefreshTokenGrant cfg gen t order r s2).
Proof.
  intros Hs. unfold handleRefreshTokenGrant. case_decide; [by apply alike_intro|].
  destruct (requestCredentials r) as [id secret]. rewrite (ValidateClient_same _ _ _ _ _ Hs).
  destruct (ValidateClient _ s2 id secret) as [client|]; [|by apply alike_intro].
  pose proof (findRefresh_same order _ _ (Form r "refresh_token") id Hs) as Hf.
  destruct (findRefreshToken order (refreshTokens s1) _ _) as [r1|],
    (findRefreshToken order (refreshTokens s2) _ _) as [r2|]; try done.
  destruct (revokeRefresh_inv _ _ Hf) as (H1 & _ & H3 & H4 & H5). rewrite H1, H3, H4, H5.
  destruct (After _ _); [apply alike_intro; by rewrite Hs|].
  case_match; [by apply alike_intro|].
  set (sc := if decide (Form r "scope" = "") then rt_Scope r2 else Form r "scope").
  assert (same_unmarked (set_refreshTokens (delete (rt_Token r2)) s1)
    (set_refreshTokens (delete (rt_Token r2)) s2)) as Hs0 by (by rewrite Hs).
  destruct (generateAccess_same gen (t 2%nat) (t 3%nat) (cl_ID client) (rt_UserID r2) sc
    _ _ Hs0) as [Hs' Ha].
  destruct (generateAccessToken _ _ _ _ _ _ _ (set_refreshTokens _ s1)) as [s1' a1],
    (generateAccessToken _ _ _ _ _ _ _ (set_refreshTokens _ s2)) as [s2' a2]. simpl in *. subst a2.
  destruct a1 as [a|]; [|by apply alike_intro].
  destruct (generateRefresh_same gen (t 4%nat) (t 5%nat) (cl_ID client) (rt_UserID r2) sc
    _ _ Hs') as [Hs'' Hr].
  destruct (generateRefreshToken _ _ _ _ _ _ _ s1') as [s1'' x1],
    (generateRefreshToken _ _ _ _ _ _ _ s2') as [s2'' x2]. simpl in *. subst x2.
  by destruct x1; apply alike_intro.
Qed.

Lemma token_same gen t order r s1 s2 :
  same_unmarked s1 s2 →
  alike (HandleToken cfg gen t order r s1) (HandleToken cfg gen t order r s2).
Proof.
  intros Hs. unfold HandleToken. case_decide; [by apply alike_intro|].
  destruct (FormError r); [by apply alike_intro|].
  case_decide; [by apply code_grant_same|]. case_decide; [by apply client_credentials_same|].
  case_decide; [by apply refresh_grant_same|]. by apply alike_intro.
Qed.

Lemma authorize_same gen t r s1 s2 :
  same_unmarked s1 s2 →
  alike (HandleAuthorize urlParse withQuery quote cfg gen t r s1)
        (HandleAuthorize urlParse withQuery quote cfg gen t r s2).
Proof.
  intros Hs. unfold HandleAuthorize. do 2 (case_decide; [by apply alike_intro|]).
  destruct (parseAuthorizationRequest quote r) as [req|]; [|by apply alike_intro].
  rewrite (GetClient_same _ _ _ Hs).
  destruct (GetClient s2 _) as [client|]; [|by apply alike_intro].
  do 2 (destruct (negb _); [by apply alike_intro|]).
  destruct (bool_decide _ && _); [by apply alike_intro|]. case_decide; [by apply alike_intro|].
  unfold processAuthorization, generateAuthorizationCode.
  destruct (FormError r); [by apply alike_intro|]. case_decide; [|by apply alike_intro].
  destruct (GenerateAuthorizationCode gen); [|by apply alike_intro].
  destruct (urlParse _); apply alike_intro; by rewrite Hs.
Qed.

Lemma register_same gen t r s1 s2 :
  same_unmarked s1 s2 →
  alike (HandleRegister urlParse cfg gen t r s1) (HandleRegister urlParse cfg gen t r s2).
Proof.
  intros Hs. unfold HandleRegister, RegisterClient. rewrite (su_clients _ _ Hs).
  case_match; [by apply alike_intro|]. case_decide; [by apply alike_intro|].
  destruct (JSONBody r); [|by apply alike_intro]. case_decide; [by apply alike_intro|].
  case_match; case_match; simplify_eq; apply alike_intro; by try rewrite Hs.
Qed.

Lemma userinfo_same now r s1 s2 :
  same_unmarked s1 s2 → HandleUserInfo now r s1 = HandleUserInfo now r s2.
Proof.
  intros Hs. unfold HandleUserInfo, ValidateAccessToken.
  do 2 (case_decide; [done|]).
  pose proof (same_lookup_access _ _ (extractBearerToken r) Hs) as Hk.
  destruct (accessTokens s1 !! _) as [a1|], (accessTokens s2 !! _) as [a2|]; try done.
  destruct (revokeAccess_inv _ _ Hk) as (H3 & H4 & H5 & H6 & H7). rewrite H6.
  destruct (_ || _); [done|]. rewrite H3, H4, H5, H6, H7. by rewrite (GetClient_same _ _ _ Hs).
Qed.

Lemma revoke_same now r s1 s2 :
  same_unmarked s1 s2 → alike (HandleRevoke now r s1) (HandleRevoke now r s2).
Proof.
  intros Hs. split; [by rewrite !HandleRevoke_same|].
  unfold HandleRevoke, revokeClient. case_decide; [done|]. destruct (FormError r); [done|].
  case_decide; [done|]. case_decide.
  - by destruct (revokeAsAccess _ _ None s1), (revokeAsAccess _ _ None s2).
  - match goal with |- context [if ?d then default _ _ else _] => destruct (if d then _ else _)
      as [id secret] end.
    rewrite (ValidateClient_same _ _ _ _ _ Hs).
    destruct (ValidateClient _ s2 id secret) as [client|]; [|done]. simpl.
    by destruct (revokeAsAccess _ _ (Some client) s1), (revokeAsAccess _ _ (Some client) s2).
Qed.

Lemma serve_same e s1 s2 :
  same_unmarked s1 s2 →
  alike (serve urlParse withQuery quote cfg e s1) (serve urlParse withQuery quote cfg e s2).
Proof.
  intros Hs. destruct e; simpl.
  - destruct (authorize_same gen t r _ _ Hs) as [Hx Hy]. destruct (HandleAuthorize _ _ _ _ _ _ _ s1),
      (HandleAuthorize _ _ _ _ _ _ _ s2). simpl in *. subst. by apply alike_intro.
  - destruct (token_same gen t order r _ _ Hs) as [Hx Hy].
    destruct (HandleToken _ _ _ _ _ s1), (HandleToken _ _ _ _ _ s2).
    simpl in *. subst. by apply alike_intro.
  - destruct (register_same gen t r _ _ Hs) as [Hx Hy].
    destruct (HandleRegister _ _ _ _ _ s1), (HandleRegister _ _ _ _ _ s2).
    simpl in *. subst. by apply alike_intro.
  - rewrite (userinfo_same _ _ _ _ Hs). by apply alike_intro.
  - destruct (revoke_same now r _ _ Hs) as [Hx Hy].
    destruct (HandleRevoke _ _ s1), (HandleRevoke _ _ s2). simpl in *. subst. by apply alike_intro.
  - apply alike_intro. unfold deleteAccessToken. by rewrite Hs.
  - apply alike_intro. by rewrite Hs.
Qed.

Lemma run_same l s1 s2 :
  same_unmarked s1 s2 →
  alike (run urlParse withQuery quote cfg l s1) (run urlParse withQuery quote cfg l s2).
Proof.
  revert s1 s2. induction l as [|e l IH]; intros s1 s2 Hs; [by apply alike_intro|]. simpl.
  destruct (serve_same e _ _ Hs) as [Hx Hy].
  destruct (serve _ _ _ _ e s1) as [s1' a1], (serve _ _ _ _ e s2) as [s2' a2].
  simpl in *. subst a2. destruct (IH _ _ Hx) as [Hx' Hy'].
  destruct (run _ _ _ _ l s1'), (run _ _ _ _ l s2'). simpl in *. subst. by apply alike_intro.
Qed.

(** A revocation request has no observable effect: every later run of
    events is answered exactly as if it had not been made, and in particular
    the revoked token still validates and still refreshes. *)
Theorem revocation_unobservable now r l s :
  (run urlParse withQuery quote cfg l (HandleRevoke now r s).1).2 =
  (run urlParse withQuery quote cfg l s).2 ∧
  (∀ later token,
    is_ok (ValidateAccessToken later (HandleRevoke now r s).1 token) =
    is_ok (ValidateAccessToken later s token)).
Proof.
  split; [apply run_same, HandleRevoke_same|]. intros later token.
  pose proof (same_lookup_access _ _ token (HandleRevoke_same now r s)) as Hk.
  unfold ValidateAccessToken.
  destruct (accessTokens _ !! token) as [a1|], (accessTokens s !! token) as [a2|]; try done.
  destruct (revokeAccess_inv _ _ Hk) as (_ & _ & _ & H6 & _). rewrite H6. by case_match.
Qed.
End lockstep.

(** ** A run *)

Definition revokeRequest : Request :=
  formRequest "POST" {["token" := "access"; "client_id" := "client"; "client_secret" := "secret"]}.
Definition bearerRequest : Request := {|
  Method := "GET"; Query := λ _, ""; FormError := None; Form := λ _, "";
  Authorization := "Bearer access"; BasicAuth := None; JSONBody := None |}.

(** The revocation marks the token, answers 200, and userinfo still accepts it. *)
Example revoked_token_accepted :
  let s := (HandleRevoke 60 revokeRequest redeemedServer).1 in
  (at_Revoked <$> (accessTokens s !! "access")) = Some true ∧
  (HandleRevoke 60 revokeRequest redeemedServer).2 = RevokeResponse ∧
  HandleUserInfo 70 bearerRequest s =
    UserInfoResponse "demo-user" "client" "mcp:tools mcp:resources"
      (Unix 33) (Unix (32 + 3600 * second)) (Some "App").
Proof. split_and!; vm_compute; reflexivity. Qed.
