(* ===== verification/TokenStores.v ===== *)
(** * The token stores

    internal/auth/token_store.go (TokenStore) and internal/auth/memory_store.go
    (MemoryTokenStore), two in-memory stores with one life cycle.  What a store
    promises its clients is an interface: [TokenStoreLaws], that both satisfy,
    and [RevocationLaws], that only MemoryTokenStore does. *)
From S2P Require Import Prelude OAuth.

#[local] Open Scope Z_scope.
Set Default Proof Using "Type".

(** ** The interface *)

Class TokenStoreOps (S : Type) := {
  StoreAccess : AccessToken → S → S;
  GetAccess : Z → S → string → option AccessToken;
  RevokeAccess : string → S → S;
  Sweep : Z → S → S;
}.

(** A token is returned as stored until it expires, and a sweep is invisible to
    later readers. *)
Class TokenStoreLaws (S : Type) `{TokenStoreOps S} := {
  get_stored : ∀ now t s,
    at_Revoked t = false → now ≤ at_ExpiresAt t →
    GetAccess now (StoreAccess t s) (at_Token t) = Some t;
  get_stored_other : ∀ now t s k,
    k ≠ at_Token t → GetAccess now (StoreAccess t s) k = GetAccess now s k;
  get_unexpired : ∀ now s k t, GetAccess now s k = Some t → now ≤ at_ExpiresAt t;
  get_swept : ∀ now later s k,
    now ≤ later → GetAccess later (Sweep now s) k = GetAccess later s k;
  get_revoked_other : ∀ now s k k',
    k' ≠ k → GetAccess now (RevokeAccess k s) k' = GetAccess now s k';
}.

(** A revoked token is never returned again. *)
Class RevocationLaws (S : Type) `{TokenStoreOps S} := {
  get_revoked : ∀ now s k, GetAccess now (RevokeAccess k s) k = None;
}.

(** ** TokenStore *)

Module TokenStore.
(** The store's maps. *)
Record store := {
  accessTokens : gmap string AccessToken;
  refreshTokens : gmap string RefreshToken;
  authCodes : gmap string AuthorizationCode;
}.

Definition NewTokenStore : store := {| accessTokens := ∅; refreshTokens := ∅; authCodes := ∅ |}.

Definition set_accessTokens f s := {| accessTokens := f (accessTokens s);
  refreshTokens := refreshTokens s; authCodes := authCodes s |}.
Definition set_refreshTokens f s := {| accessTokens := accessTokens s;
  refreshTokens := f (refreshTokens s); authCodes := authCodes s |}.
Definition set_authCodes f s := {| accessTokens := accessTokens s;
  refreshTokens := refreshTokens s; authCodes := f (authCodes s) |}.

Definition StoreAccessToken (t : AccessToken) (s : store) : store :=
  set_accessTokens (insert (at_Token t) t) s.

Definition GetAccessToken (now : Z) (s : store) (tokenStr : string) : option AccessToken :=
  token ← accessTokens s !! tokenStr;
  if accessIsExpired now token then None else Some token.

Definition StoreRefreshToken (t : RefreshToken) (s : store) : store :=
  set_refreshTokens (insert (rt_Token t) t) s.

Definition GetRefreshToken (now : Z) (s : store) (tokenStr : string) : option RefreshToken :=
  token ← refreshTokens s !! tokenStr;
  if refreshIsExpired now token then None else Some token.

Definition StoreAuthorizationCode (c : AuthorizationCode) (s : store) : store :=
  set_authCodes (insert (ac_Code c) c) s.

Definition useCode (c : AuthorizationCode) : AuthorizationCode := {|
  ac_Code := ac_Code c; ac_ClientID := ac_ClientID c; ac_UserID := ac_UserID c;
  ac_RedirectURI := ac_RedirectURI c; ac_Scope := ac_Scope c; ac_ExpiresAt := ac_ExpiresAt c;
  ac_CreatedAt := ac_CreatedAt c; ac_Challenge := ac_Challenge c;
  ac_ChallengeMethod := ac_ChallengeMethod c; ac_Used := true |}.

(** The returned pointer is the stored code, now marked used. *)
Definition GetAndUseAuthorizationCode (now : Z) (codeStr : string) (s : store) :
    store * option AuthorizationCode :=
  match authCodes s !! codeStr with
  | None => (s, None)
  | Some code =>
      if codeIsExpired now code || ac_Used code then (s, None)
      else (set_authCodes (insert codeStr (useCode code)) s, Some (useCode code))
  end.

Definition RevokeAccessToken (tokenStr : string) (s : store) : store :=
  set_accessTokens (alter revokeAccess tokenStr) s.

Definition RevokeRefreshToken (tokenStr : string) (s : store) : store :=
  set_refreshTokens (alter revokeRefresh tokenStr) s.

(** One pass over the three maps; each entry reads the clock itself, and [now]
    is one instant for all of them. *)
Definition performCleanup (now : Z) (s : store) : store := {|
  accessTokens := delete_if (accessIsExpired now) (accessTokens s);
  refreshTokens := delete_if (refreshIsExpired now) (refreshTokens s);
  authCodes := delete_if (codeIsExpired now) (authCodes s) |}.

#[global] Instance ops : TokenStoreOps store := {|
  StoreAccess := StoreAccessToken; GetAccess := GetAccessToken;
  RevokeAccess := RevokeAccessToken; Sweep := performCleanup |}.
End TokenStore.

(** ** MemoryTokenStore *)

Module MemoryTokenStore.
Record store := {
  accessTokens : gmap string AccessToken;
  refreshTokens : gmap string RefreshToken;
  authCodes : gmap string AuthorizationCode;
}.

Definition NewMemoryTokenStore : store :=
  {| accessTokens := ∅; refreshTokens := ∅; authCodes := ∅ |}.

Definition set_accessTokens f s := {| accessTokens := f (accessTokens s);
  refreshTokens := refreshTokens s; authCodes := authCodes s |}.

Inductive StoreError := TokenNotFound | TokenRevoked | MemTokenExpired.

Definition StoreAccessToken (t : AccessToken) (s : store) : store :=
  set_accessTokens (insert (at_Token t) t) s.

Definition GetAccessToken (now : Z) (s : store) (token : string) : res StoreError AccessToken :=
  match accessTokens s !! token with
  | None => Err TokenNotFound
  | Some accessToken =>
      if at_Revoked accessToken then Err TokenRevoked
      else if After now (at_ExpiresAt accessToken) then Err MemTokenExpired
      else Ok accessToken
  end.

Definition RevokeAccessToken (token : string) (s : store) : store * res StoreError unit :=
  match accessTokens s !! token with
  | None => (s, Err TokenNotFound)
  | Some accessToken => (set_accessTokens (insert token (revokeAccess accessToken)) s, Ok tt)
  end.

Definition CleanupExpiredTokens (now : Z) (s : store) : store := {|
  accessTokens := delete_if (λ t, at_Revoked t || After now (at_ExpiresAt t)) (accessTokens s);
  refreshTokens := delete_if (λ t, rt_Revoked t || After now (rt_ExpiresAt t)) (refreshTokens s);
  authCodes := delete_if (λ c, ac_Used c || After now (ac_ExpiresAt c)) (authCodes s) |}.

(** The counts of the entries that are neither used up nor at their expiry. *)
Definition GetStats (now : Z) (s : store) : nat * nat * nat :=
  (size (filter (λ kv, at_Revoked kv.2 = false ∧ now < at_ExpiresAt kv.2) (accessTokens s)),
   size (filter (λ kv, rt_Revoked kv.2 = false ∧ now < rt_ExpiresAt kv.2) (refreshTokens s)),
   size (filter (λ kv, ac_Used kv.2 = false ∧ now < ac_ExpiresAt kv.2) (authCodes s))).

#[global] Instance ops : TokenStoreOps store := {|
  StoreAccess := StoreAccessToken;
  GetAccess := λ now s k, match GetAccessToken now s k with Ok t => Some t | Err _ => None end;
  RevokeAccess := λ k s, (RevokeAccessToken k s).1;
  Sweep := CleanupExpiredTokens |}.
End MemoryTokenStore.

(** ** Lookups *)

Lemma TokenStore_get now s k t :
  TokenStore.GetAccessToken now s k = Some t ↔
  TokenStore.accessTokens s !! k = Some t ∧ now ≤ at_ExpiresAt t.
Proof.
  unfold TokenStore.GetAccessToken, accessIsExpired, After.
  destruct (TokenStore.accessTokens s !! k) as [t'|]; simpl; [|naive_solver].
  destruct (Z.ltb_spec (at_ExpiresAt t') now); naive_solver lia.
Qed.

Lemma MemoryTokenStore_get now s k t :
  GetAccess (S := MemoryTokenStore.store) now s k = Some t ↔
  MemoryTokenStore.accessTokens s !! k = Some t ∧ at_Revoked t = false ∧ now ≤ at_ExpiresAt t.
Proof.
  simpl. unfold MemoryTokenStore.GetAccessToken, After.
  destruct (MemoryTokenStore.accessTokens s !! k) as [t'|]; simpl; [|naive_solver].
  destruct (at_Revoked t') eqn:Hr, (Z.ltb_spec (at_ExpiresAt t') now);
    (split; [intros Heq; simplify_eq/=; split_and!; auto with lia
            |intros ([= ->] & ? & ?); try congruence; lia]).
Qed.

(** ** The stores implement the interface *)

#[export] Instance TokenStore_laws : TokenStoreLaws TokenStore.store.
Proof.
  split.
  - intros now t s _ He. apply TokenStore_get. simpl. by rewrite lookup_insert_eq.
  - intros now t s k Hk. simpl. unfold TokenStore.GetAccessToken. simpl. by rewrite lookup_insert_ne.
  - intros now s k t Hg. by apply TokenStore_get in Hg as [_ ?].
  - intros now later s k Hle. apply option_eq. intros t.
    simpl. rewrite !TokenStore_get. simpl. rewrite delete_if_lookup_Some.
    unfold accessIsExpired, After. rewrite Z.ltb_ge. naive_solver lia.
  - intros now s k k' Hk. simpl. unfold TokenStore.GetAccessToken. simpl. by rewrite lookup_alter_ne.
Qed.

#[export] Instance MemoryTokenStore_laws : TokenStoreLaws MemoryTokenStore.store.
Proof.
  split.
  - intros now t s Hr He. apply MemoryTokenStore_get. simpl. by rewrite lookup_insert_eq.
  - intros now t s k Hk. simpl. unfold MemoryTokenStore.GetAccessToken. simpl.
    by rewrite lookup_insert_ne.
  - intros now s k t Hg. by apply MemoryTokenStore_get in Hg as (_ & _ & ?).
  - intros now later s k Hle. apply option_eq. intros t.
    rewrite !MemoryTokenStore_get. simpl. rewrite delete_if_lookup_Some.
    unfold After. rewrite orb_false_iff, Z.ltb_ge. naive_solver lia.
  - intros now s k k' Hk. simpl. unfold MemoryTokenStore.GetAccessToken,
      MemoryTokenStore.RevokeAccessToken.
    destruct (MemoryTokenStore.accessTokens s !! k); simpl; [|done]. by rewrite lookup_insert_ne.
Qed.

#[export] Instance MemoryTokenStore_revocation : RevocationLaws MemoryTokenStore.store.
Proof.
  split. intros now s k. apply eq_None_not_Some. intros [t Ht].
  apply MemoryTokenStore_get in Ht as (Hl & Hr & _). simpl in Hl.
  unfold MemoryTokenStore.RevokeAccessToken in Hl.
  destruct (MemoryTokenStore.accessTokens s !! k) eqn:Hk; simpl in Hl; [|congruence].
  rewrite lookup_insert_eq in Hl. by simplify_eq/=.
Qed.

(** ** What a client of the interface gets *)

(** The operations that do not touch the token filed under [k]. *)
Inductive other_op {S} `{TokenStoreOps S} (k : string) (later : Z) : S → S → Prop :=
  | OtherStore t s : at_Token t ≠ k → other_op k later s (StoreAccess t s)
  | OtherRevoke k' s : k' ≠ k → other_op k later s (RevokeAccess k' s)
  | OtherSweep now s : now ≤ later → other_op k later s (Sweep now s).

Lemma other_op_get {S} `{TokenStoreLaws S} k later s s' :
  other_op k later s s' → GetAccess later s' k = GetAccess later s k.
Proof.
  destruct 1; [by apply get_stored_other|by apply get_revoked_other|by apply get_swept].
Qed.

(** In any store that keeps the interface's laws, a stored token is returned
    unchanged until it expires, whatever other tokens are stored or revoked and
    however often expired entries are swept meanwhile; and never after. *)
Theorem stored_token_lives {S} `{TokenStoreLaws S} t s s' later :
  at_Revoked t = false → rtc (other_op (at_Token t) later) (StoreAccess t s) s' →
  (later ≤ at_ExpiresAt t → GetAccess later s' (at_Token t) = Some t) ∧
  (at_ExpiresAt t < later → GetAccess later s' (at_Token t) ≠ Some t).
Proof.
  intros Hr Hs. split.
  - intros He. rewrite <-(get_stored later t s Hr He). remember (StoreAccess t s) as s0 eqn:Heq.
    clear Heq. induction Hs as [|s1 s2 s3 H12 _ IH]; [done|]. rewrite IH. by apply other_op_get.
  - intros He Hg. apply get_unexpired in Hg. lia.
Qed.

(** TokenStore does not honour revocation: whatever the store and the
    token, GetAccessToken and GetRefreshToken succeed after a revocation exactly
    when they did before it, while MemoryTokenStore never returns a revoked
    token again. *)
Theorem TokenStore_ignores_revocation now s k (m : MemoryTokenStore.store) :
  (is_Some (TokenStore.GetAccessToken now (TokenStore.RevokeAccessToken k s) k) ↔
   is_Some (TokenStore.GetAccessToken now s k)) ∧
  (is_Some (TokenStore.GetRefreshToken now (TokenStore.RevokeRefreshToken k s) k) ↔
   is_Some (TokenStore.GetRefreshToken now s k)) ∧
  ∀ t, MemoryTokenStore.GetAccessToken now (MemoryTokenStore.RevokeAccessToken k m).1 k ≠ Ok t.
Proof.
  split_and!.
  - unfold TokenStore.GetAccessToken, accessIsExpired. simpl. rewrite lookup_alter_eq.
    destruct (TokenStore.accessTokens s !! k); [|done]. simpl. by case_match.
  - unfold TokenStore.GetRefreshToken, refreshIsExpired. simpl. rewrite lookup_alter_eq.
    destruct (TokenStore.refreshTokens s !! k); [|done]. simpl. by case_match.
  - intros t Ht. pose proof (get_revoked (S := MemoryTokenStore.store) now m k) as Hg.
    simpl in Hg. by rewrite Ht in Hg.
Qed.

(** An authorization code is handed out at most once: after a successful
    GetAndUseAuthorizationCode every further call for it fails, at any time and
    after any sweeps, and a code swept while used is one no call would return. *)
Theorem code_used_once now code s s' c :
  TokenStore.GetAndUseAuthorizationCode now code s = (s', Some c) →
  now ≤ ac_ExpiresAt c ∧
  (∀ later, TokenStore.GetAndUseAuthorizationCode later code s' = (s', None)) ∧
  (∀ sweep later, (TokenStore.GetAndUseAuthorizationCode later code
    (TokenStore.performCleanup sweep s')).2 = None).
Proof.
  unfold TokenStore.GetAndUseAuthorizationCode. intros Hg.
  destruct (TokenStore.authCodes s !! code) as [c0|] eqn:Hc; [|done].
  destruct (codeIsExpired now c0 || ac_Used c0) eqn:Hx; [done|]. simplify_eq/=.
  apply orb_false_iff in Hx as [He _]. unfold codeIsExpired, After in He. apply Z.ltb_ge in He.
  split_and!; [done|..].
  - intros later. rewrite lookup_insert_eq. simpl. by rewrite orb_true_r.
  - intros sweep later. destruct (delete_if _ _ !! code) as [c1|] eqn:Hd; [|done].
    apply delete_if_lookup_Some in Hd as [Hd _]. rewrite lookup_insert_eq in Hd.
    simplify_eq. simpl. by rewrite orb_true_r.
Qed.

(** ** Witnesses *)

Lemma stored_token_lives_witness :
  (60 ≤ 90 → GetAccess (S := MemoryTokenStore.store) 60
    (Sweep 50 (StoreAccess (exampleAccess "old" 10)
      (StoreAccess (exampleAccess "new" 90) MemoryTokenStore.NewMemoryTokenStore))) "new" =
    Some (exampleAccess "new" 90)) ∧
  (90 < 60 → GetAccess (S := MemoryTokenStore.store) 60
    (Sweep 50 (StoreAccess (exampleAccess "old" 10)
      (StoreAccess (exampleAccess "new" 90) MemoryTokenStore.NewMemoryTokenStore))) "new" ≠
    Some (exampleAccess "new" 90)).
Proof.
  apply (stored_token_lives (exampleAccess "new" 90) MemoryTokenStore.NewMemoryTokenStore); [done|].
  eapply rtc_l; [by apply (OtherStore _ _ (exampleAccess "old" 10))|].
  apply rtc_once. apply OtherSweep. lia.
Defined.

Definition exampleCode : AuthorizationCode := {|
  ac_Code := "code"; ac_ClientID := "client"; ac_UserID := "demo-user"; ac_RedirectURI := "";
  ac_Scope := ""; ac_ExpiresAt := 30; ac_CreatedAt := 1; ac_Challenge := "";
  ac_ChallengeMethod := ""; ac_Used := false |}.

Lemma code_used_once_witness :
  let s' := TokenStore.StoreAuthorizationCode (TokenStore.useCode exampleCode)
              TokenStore.NewTokenStore in
  20 ≤ 30 ∧
  (∀ later, TokenStore.GetAndUseAuthorizationCode later "code" s' = (s', None)) ∧
  (∀ sweep later, (TokenStore.GetAndUseAuthorizationCode later "code"
    (TokenStore.performCleanup sweep s')).2 = None).
Proof.
  apply (code_used_once 20 "code"
    (TokenStore.StoreAuthorizationCode exampleCode TokenStore.NewTokenStore) _
    (TokenStore.useCode exampleCode)).
  vm_compute. reflexivity.
Defined.
