(* ===== verification/AuthMiddleware.v ===== *)
(** * The authentication middleware

    internal/auth/middleware.go: the API-key middleware and the
    AuthenticationMiddleware as functions from a next handler to a handler.  A
    request that is let through reaches the next handler with the context the
    middleware built; a refusal is an answer of its own. *)
From S2P Require Import Prelude GoString GoPath OAuth OAuthHandlers OAuthSafety OAuthRevocation.

#[local] Open Scope Z_scope.
Set Default Proof Using "Type".

(** ** Contexts, answers and handlers *)

(** The values under the five context keys; [None] is a key that is not set. *)
Record AuthContext := {
  ctx_client : option OAuthClient;
  ctx_token : option AccessToken;
  ctx_user : option string;
  ctx_scope : option string;
  ctx_authType : option string;
}.

Definition emptyContext : AuthContext := {|
  ctx_client := None; ctx_token := None; ctx_user := None; ctx_scope := None;
  ctx_authType := None |}.

Definition withAuthType (a : string) (c : AuthContext) : AuthContext := {|
  ctx_client := ctx_client c; ctx_token := ctx_token c; ctx_user := ctx_user c;
  ctx_scope := ctx_scope c; ctx_authType := Some a |}.

(** The context of a request authenticated by an OAuth token. *)
Definition withOAuth (client : OAuthClient) (t : AccessToken) : AuthContext := {|
  ctx_client := Some client; ctx_token := Some t; ctx_user := Some (at_UserID t);
  ctx_scope := Some (at_Scope t); ctx_authType := Some "oauth" |}.

Inductive Answer :=
  | Served (ctx : AuthContext)
  | PlainError (message : string) (status : Z)
  | AuthError (status : Z) (error description : string).

Definition Handler : Type := Request → AuthContext → Answer.

(** A handler that serves every request it gets. *)
Definition serveAll : Handler := λ _ ctx, Served ctx.

Definition StatusForbidden : Z := 403.
Definition sendUnauthorized (error description : string) : Answer :=
  AuthError StatusUnauthorized error description.
Definition sendForbidden (error description : string) : Answer :=
  AuthError StatusForbidden error description.
Definition constantTimeEqual (a b : string) : bool := bool_decide (a = b).

(** ** APIKeyMiddleware *)

Definition APIKeyServeHTTP (APIKey : string) (next : Handler) : Handler := λ r ctx,
  if decide (Method r = "OPTIONS") then next r ctx
  else if decide (Authorization r = "")
  then PlainError "Missing Authorization header" StatusUnauthorized
  else if negb (HasPrefix (Authorization r) "Bearer ")
  then PlainError "Invalid Authorization header format" StatusUnauthorized
  else if negb (constantTimeEqual (TrimPrefix (Authorization r) "Bearer ") APIKey)
  then PlainError "Invalid API key" StatusForbidden
  else next r (withAuthType "api_key" ctx).

(** ** AuthenticationMiddleware *)

(** [server] is [None] when no authorization server is configured; it is the
    server's state when the request is handled, at the instant [now]. *)
Record AuthenticationMiddleware := { server : option Server; apiKey : string }.

Definition NewAuthenticationMiddleware (s : option Server) : AuthenticationMiddleware :=
  {| server := s; apiKey := "" |}.
Definition SetAPIKey (k : string) (m : AuthenticationMiddleware) : AuthenticationMiddleware :=
  {| server := server m; apiKey := k |}.

Definition extractToken (r : Request) : string := extractBearerToken r.

Inductive OAuthError := NotConfigured | TokenRejected (e : TokenError).

Definition oauthErrorText (e : OAuthError) : string :=
  match e with
  | NotConfigured => "OAuth server not configured"
  | TokenRejected e => tokenErrorText e
  end.

Section middleware.
Context (m : AuthenticationMiddleware) (now : Z).

(** The same lookup and expiry check as [ValidateAccessToken], with the same
    scheduled deletion. *)
Definition validateOAuthToken (token : string) : res OAuthError AccessToken :=
  match server m with
  | None => Err NotConfigured
  | Some s =>
      match accessTokens s !! token with
      | None => Err (TokenRejected InvalidToken)
      | Some accessToken =>
          if IsZero (at_ExpiresAt accessToken) || After now (at_ExpiresAt accessToken)
          then Err (TokenRejected TokenExpired) else Ok accessToken
      end
  end.

Definition serverClient (id : string) : option OAuthClient := s ← server m; GetClient s id.

Definition keyMatches (token : string) : bool :=
  bool_decide (apiKey m ≠ "") && constantTimeEqual token (apiKey m).

Definition RequireAuthentication (next : Handler) : Handler := λ r ctx,
  if decide (Method r = "OPTIONS") then next r ctx
  else
    let token := extractToken r in
    if decide (token = "") then sendUnauthorized "missing_token" "Access token required"
    else
      match validateOAuthToken token with
      | Ok accessToken =>
          match serverClient (at_ClientID accessToken) with
          | None => sendUnauthorized "invalid_token" "Invalid client"
          | Some client => next r (withOAuth client accessToken)
          end
      | Err oauthErr =>
          if keyMatches token then next r (withAuthType "api_key" ctx)
          else sendUnauthorized "invalid_token" (oauthErrorText oauthErr)
      end.

Definition hasScope (tokenScope requiredScope : string) : bool := HasScope tokenScope requiredScope.

Definition RequireScope (requiredScope : string) (next : Handler) : Handler := λ r ctx,
  match ctx_authType ctx with
  | None => sendForbidden "insufficient_scope" "No authentication information"
  | Some authType =>
      if decide (authType = "api_key") then next r ctx
      else
        match ctx_scope ctx with
        | None => sendForbidden "insufficient_scope" "No scope information"
        | Some tokenScope =>
            if hasScope tokenScope requiredScope then next r ctx
            else sendForbidden "insufficient_scope" "Required scope not granted"
        end
  end.

(** The context OAuth gives a token, if it does. *)
Definition tryOAuth (token : string) : option AuthContext :=
  match validateOAuthToken token with
  | Ok accessToken =>
      client ← serverClient (at_ClientID accessToken); Some (withOAuth client accessToken)
  | Err _ => None
  end.

Definition tryAPIKey (token : string) (ctx : AuthContext) : option AuthContext :=
  if keyMatches token then Some (withAuthType "api_key" ctx) else None.

Definition OptionalAuthentication (next : Handler) : Handler := λ r ctx,
  let token := extractToken r in
  if decide (token = "") then next r ctx
  else
    match tryOAuth token with
    | Some ctx' => next r ctx'
    | None => match tryAPIKey token ctx with Some ctx' => next r ctx' | None => next r ctx end
    end.

Definition RequireAPIKey (next : Handler) : Handler := λ r ctx,
  if decide (apiKey m = "") then next r ctx
  else if decide (extractToken r = "")
  then PlainError "Missing Authorization header" StatusUnauthorized
  else if negb (constantTimeEqual (extractToken r) (apiKey m))
  then PlainError "Invalid API key" StatusForbidden
  else next r (withAuthType "api_key" ctx).

Definition FlexibleAuthentication (preferOAuth : bool) (next : Handler) : Handler := λ r ctx,
  let token := extractToken r in
  if decide (token = "") then sendUnauthorized "missing_token" "Access token required"
  else
    let authenticated :=
      if preferOAuth
      then match tryOAuth token with Some c => Some c | None => tryAPIKey token ctx end
      else match tryAPIKey token ctx with Some c => Some c | None => tryOAuth token end in
    match authenticated with
    | Some ctx' => next r ctx'
    | None => sendUnauthorized "invalid_token" "Invalid access token or API key"
    end.

(** ** Properties *)

(** Who is behind a token. *)
Definition oauth_identity (token : string) (client : OAuthClient) (t : AccessToken) : Prop :=
  ∃ s, server m = Some s ∧ accessTokens s !! token = Some t ∧ at_ExpiresAt t ≠ 0 ∧
    now ≤ at_ExpiresAt t ∧ clients s !! at_ClientID t = Some client.
Definition key_identity (token : string) : Prop := apiKey m ≠ "" ∧ token = apiKey m.

Lemma keyMatches_true token : keyMatches token = true ↔ key_identity token.
Proof.
  unfold keyMatches, constantTimeEqual, key_identity.
  by rewrite andb_true_iff, !bool_decide_eq_true.
Qed.

Lemma validateOAuthToken_Ok token t :
  validateOAuthToken token = Ok t ↔
  ∃ s, server m = Some s ∧ accessTokens s !! token = Some t ∧ at_ExpiresAt t ≠ 0 ∧
    now ≤ at_ExpiresAt t.
Proof.
  unfold validateOAuthToken, IsZero, After. destruct (server m) as [s|]; [|naive_solver].
  destruct (accessTokens s !! token) as [t'|] eqn:Ht; [|naive_solver].
  destruct (Z.eqb_spec (at_ExpiresAt t') 0), (Z.ltb_spec (at_ExpiresAt t') now); naive_solver lia.
Qed.

Lemma tryOAuth_Some token ctx :
  tryOAuth token = Some ctx ↔
  ∃ client t, oauth_identity token client t ∧ ctx = withOAuth client t.
Proof.
  unfold tryOAuth, oauth_identity, serverClient. split.
  - destruct (validateOAuthToken token) as [t|] eqn:Hv; [|done].
    apply validateOAuthToken_Ok in Hv as (s & Hs & ? & ? & ?). rewrite Hs. unfold GetClient.
    simpl. destruct (clients s !! _) eqn:Hc; intros; simplify_eq/=. eauto 10.
  - intros (client & t & (s & Hs & ? & ? & ? & Hc) & ->).
    rewrite (proj2 (validateOAuthToken_Ok token t)) by eauto. rewrite Hs. unfold GetClient.
    simpl. by rewrite Hc.
Qed.

Lemma tryAPIKey_Some token ctx ctx' :
  tryAPIKey token ctx = Some ctx' ↔ key_identity token ∧ ctx' = withAuthType "api_key" ctx.
Proof.
  unfold tryAPIKey. destruct (keyMatches token) eqn:Hk.
  - apply keyMatches_true in Hk. naive_solver.
  - split; [done|]. intros [Hk' _]. apply keyMatches_true in Hk'. congruence.
Qed.

(** C37: behind RequireAuthentication and RequireScope, a request that is not a
    preflight is served exactly when its token is a live OAuth token of a
    registered client with the scope (or "mcp:*"), or, not being a live OAuth
    token, it is the API key; a preflight is refused for lack of
    authentication, since it skipped it. *)
Theorem scoped_route_guard requiredScope r ctx :
  RequireAuthentication (RequireScope requiredScope serveAll) r emptyContext = Served ctx ↔
  Method r ≠ "OPTIONS" ∧ extractToken r ≠ "" ∧
  ((∃ client t, oauth_identity (extractToken r) client t ∧ ctx = withOAuth client t ∧
      (requiredScope ∈ Fields (at_Scope t) ∨ "mcp:*" ∈ Fields (at_Scope t))) ∨
   (key_identity (extractToken r) ∧ (¬ ∃ t, validateOAuthToken (extractToken r) = Ok t) ∧
    ctx = withAuthType "api_key" emptyContext)).
Proof.
  unfold RequireAuthentication, RequireScope, hasScope, serveAll.
  case_decide as Hm; [naive_solver|]. case_decide as Ht; [naive_solver|].
  destruct (validateOAuthToken (extractToken r)) as [t|e] eqn:Hv.
  - unfold serverClient. pose proof Hv as Hv'.
    apply validateOAuthToken_Ok in Hv' as (s & Hs & Hl & ? & ?). rewrite Hs. unfold GetClient. simpl.
    destruct (clients s !! at_ClientID t) as [client|] eqn:Hc.
    + cbn -[HasScope].
      destruct (HasScope (at_Scope t) requiredScope) eqn:Hsc.
      * apply HasScope_true in Hsc. split.
        -- intros [= <-]. split_and!; try done. left. exists client, t. split_and!; try done.
           exists s. by split_and!.
        -- intros (_ & _ & [(c' & t' & (s' & ? & ? & ? & ? & ?) & -> & _)|(_ & Hn & _)]).
           ++ by simplify_eq.
           ++ destruct Hn. eauto.
      * split; [done|]. intros (_ & _ & [(c' & t' & (s' & ? & ? & ? & ? & ?) & -> & Hsc')|(_ & Hn & _)]).
        -- simplify_eq. apply HasScope_true in Hsc'. congruence.
        -- destruct Hn. eauto.
    + split; [done|]. intros (_ & _ & [(c' & t' & (s' & ? & ? & ? & ? & ?) & _)|(_ & Hn & _)]).
      * by simplify_eq.
      * destruct Hn. eauto.
  - assert (∀ client t, ¬ oauth_identity (extractToken r) client t) as Hno.
    { intros client t (s & ? & ? & ? & ? & _).
      assert (validateOAuthToken (extractToken r) = Ok t) by (apply validateOAuthToken_Ok; eauto).
      congruence. }
    destruct (keyMatches (extractToken r)) eqn:Hk.
    + apply keyMatches_true in Hk. simpl. split.
      * intros [= <-]. split_and!; try done. right. split_and!; try done. intros [t ?]. congruence.
      * intros (_ & _ & [(? & ? & Hi & _)|(_ & _ & ->)]); [by destruct (Hno _ _ Hi)|done].
    + split; [done|]. intros (_ & _ & [(? & ? & Hi & _)|(Hk' & _)]); [by destruct (Hno _ _ Hi)|].
      apply keyMatches_true in Hk'. congruence.
Qed.

(** Which of OAuth and the API key FlexibleAuthentication prefers does not
    change whom it lets through, only the context of a token that is both. *)
Theorem flexible_preference next r ctx :
  (∃ ctx', FlexibleAuthentication true next r ctx = next r ctx' ∧
     (tryOAuth (extractToken r) = Some ctx' ∨ tryAPIKey (extractToken r) ctx = Some ctx')) ∧
  (∃ ctx', FlexibleAuthentication false next r ctx = next r ctx' ∧
     (tryOAuth (extractToken r) = Some ctx' ∨ tryAPIKey (extractToken r) ctx = Some ctx')) ∨
  FlexibleAuthentication true next r ctx = FlexibleAuthentication false next r ctx ∧
  (∃ error description,
    FlexibleAuthentication true next r ctx = sendUnauthorized error description) ∧
  (extractToken r = "" ∨
   (¬ ∃ client t, oauth_identity (extractToken r) client t) ∧ ¬ key_identity (extractToken r)).
Proof.
  unfold FlexibleAuthentication. case_decide as Ht; [right; eauto 10|].
  destruct (tryOAuth (extractToken r)) as [c1|] eqn:H1,
    (tryAPIKey (extractToken r) ctx) as [c2|] eqn:H2; [left; eauto 10..|right].
  split_and!; [done|eauto|right]. split.
  - intros (client & t & Hi).
    assert (tryOAuth (extractToken r) = Some (withOAuth client t)) by (apply tryOAuth_Some; eauto).
    congruence.
  - intros Hk. assert (tryAPIKey (extractToken r) ctx = Some (withAuthType "api_key" ctx))
      by (by apply tryAPIKey_Some). congruence.
Qed.

(** OptionalAuthentication lets every request through, and marks it as
    authenticated only when its token is a live OAuth token of a registered
    client, or the API key. *)
Theorem optional_authentication r ctx :
  ctx_authType ctx = None →
  ∃ ctx', OptionalAuthentication serveAll r ctx = Served ctx' ∧
    (ctx_authType ctx' = Some "oauth" ↔
      ∃ client t, extractToken r ≠ "" ∧ oauth_identity (extractToken r) client t) ∧
    (ctx_authType ctx' = Some "api_key" →
      extractToken r ≠ "" ∧ key_identity (extractToken r)).
Proof.
  intros Hctx. unfold OptionalAuthentication, serveAll. case_decide as Ht.
  { exists ctx. rewrite Hctx. split_and!; try done. naive_solver. }
  destruct (tryOAuth (extractToken r)) as [c1|] eqn:H1.
  - apply tryOAuth_Some in H1 as (client & t & Hi & ->). eexists. split; [done|].
    split; [|done]. simpl. split; eauto.
  - assert (¬ ∃ client t, extractToken r ≠ "" ∧ oauth_identity (extractToken r) client t) as Hno.
    { intros (client & t & _ & Hi).
      assert (tryOAuth (extractToken r) = Some (withOAuth client t)) by (apply tryOAuth_Some; eauto).
      congruence. }
    destruct (tryAPIKey (extractToken r) ctx) as [c2|] eqn:H2.
    + apply tryAPIKey_Some in H2 as [Hk ->]. eexists. split; [done|]. simpl. by split.
    + exists ctx. rewrite Hctx. by split_and!.
Qed.

End middleware.

(** The middleware accepts revoked tokens: a request is served after a
    revocation exactly when it was served before it. *)
Theorem middleware_ignores_revocation s key now r revokeNow revoke :
  (∃ ctx, RequireAuthentication
     {| server := Some (HandleRevoke revokeNow revoke s).1; apiKey := key |} now serveAll r
     emptyContext = Served ctx) ↔
  (∃ ctx, RequireAuthentication {| server := Some s; apiKey := key |} now serveAll r
     emptyContext = Served ctx).
Proof.
  unfold RequireAuthentication, validateOAuthToken, serverClient, keyMatches, serveAll.
  cbn [server apiKey mbind option_bind].
  pose proof (HandleRevoke_same revokeNow revoke s) as Hs.
  pose proof (same_lookup_access _ _ (extractToken r) Hs) as Hk.
  case_decide; [done|]. case_decide; [done|].
  destruct (accessTokens (HandleRevoke revokeNow revoke s).1 !! _) as [a1|],
    (accessTokens s !! _) as [a2|]; try done.
  destruct (revokeAccess_inv _ _ Hk) as (Hid & _ & _ & He & _). rewrite He.
  destruct (_ || _); [done|]. rewrite Hid, (GetClient_same _ _ _ Hs). destruct (GetClient s _); naive_solver.
Qed.

(** ** Witnesses *)

Definition bearer (token : string) : Request := {|
  Method := "GET"; Query := λ _, ""; FormError := None; Form := λ _, "";
  Authorization := "Bearer " +:+ token; BasicAuth := None; JSONBody := None |}.

Definition exampleMiddleware : AuthenticationMiddleware :=
  SetAPIKey "key" (NewAuthenticationMiddleware (Some twoTokens)).

Example guard_examples :
  RequireAuthentication exampleMiddleware 50 (RequireScope "mcp:tools" serveAll) (bearer "new")
    emptyContext = Served (withOAuth exampleClient (exampleAccess "new" 90)) ∧
  RequireAuthentication exampleMiddleware 50 (RequireScope "mcp:admin" serveAll) (bearer "new")
    emptyContext = AuthError 403 "insufficient_scope" "Required scope not granted" ∧
  RequireAuthentication exampleMiddleware 50 (RequireScope "mcp:tools" serveAll) (bearer "old")
    emptyContext = AuthError 401 "invalid_token" "token expired" ∧
  RequireAuthentication exampleMiddleware 50 (RequireScope "mcp:tools" serveAll) (bearer "key")
    emptyContext = Served (withAuthType "api_key" emptyContext).
Proof. split_and!; vm_compute; reflexivity. Qed.

Lemma optional_authentication_witness :
  ∃ ctx', OptionalAuthentication exampleMiddleware 50 serveAll (bearer "new") emptyContext =
      Served ctx' ∧
    (ctx_authType ctx' = Some "oauth" ↔
      ∃ client t, extractToken (bearer "new") ≠ "" ∧
        oauth_identity exampleMiddleware 50 (extractToken (bearer "new")) client t) ∧
    (ctx_authType ctx' = Some "api_key" →
      extractToken (bearer "new") ≠ "" ∧
      key_identity exampleMiddleware (extractToken (bearer "new"))).
Proof. by apply optional_authentication. Defined.
