(* ===== verification/ServiceDiscovery.v ===== *)
(** * Discovery of MCP services in the cluster

    internal/discovery/service_discovery.go: how Kubernetes services become
    endpoints, the registry of endpoints that the informer's events keep, and the
    notification of handlers.  A handler is an interface ([DiscoveryHandler]) that
    may fail to return; Connections has the one the program uses. *)
From S2P Require Import Prelude GoString.

#[local] Open Scope Z_scope.

Set Default Proof Using "Type*".

(** ** Data *)

(** What is read of a Kubernetes service. *)
Record Service := {
  SvcName : string;
  SvcNamespace : string;
  SvcLabels : gmap string string;
  SvcPorts : list Z;
  SvcType : string;
}.

Record ServiceEndpoint := {
  Name : string;
  Namespace : string;
  URL : string;
  Endpoint : string;
  Protocol : string;
  Port : Z;
  Capabilities : list string;
  Labels : gmap string string;
  LastDiscovered : Z;
  HealthStatus : string;
  ServiceType : string;
}.

(** The effect of each notification on a handler of type [H] at a time, and
    whether the call returns. *)
Class DiscoveryHandler (H : Type) := {
  OnServiceAdded : Z → ServiceEndpoint → H → H * bool;
  OnServiceModified : Z → ServiceEndpoint → H → H * bool;
  OnServiceDeleted : Z → string → string → H → H * bool;
}.

(** ** From services to endpoints *)

Definition label (service : Service) (key : string) : string :=
  default "" (SvcLabels service !! key).

Definition getServiceName (service : Service) : string :=
  match SvcLabels service !! "mcp.matey.ai/server-name" with
  | Some serverName => serverName
  | None => SvcName service
  end.

Definition parseCapabilities (caps : string) : list string :=
  if decide (caps = "") then []
  else filter (λ part, part ≠ "") (SplitByte caps ".").

Definition buildServiceEndpoint (now : Z) (service : Service) : option ServiceEndpoint :=
  if decide (label service "mcp.matey.ai/role" ≠ "server") then None
  else
    let protocol := label service "mcp.matey.ai/protocol" in
    let protocol := if decide (protocol = "") then "http" else protocol in
    let serviceName := getServiceName service in
    if decide (serviceName = "") then None
    else
      let port := default 0 (head (SvcPorts service)) in
      let endpoint := SvcName service +:+ "." +:+ SvcNamespace service +:+
                      ".svc.cluster.local:" +:+ Itoa port in
      Some {|
        Name := serviceName;
        Namespace := SvcNamespace service;
        URL := "http://" +:+ endpoint;
        Endpoint := endpoint;
        Protocol := protocol;
        Port := port;
        Capabilities :=
          match SvcLabels service !! "mcp.matey.ai/capabilities" with
          | Some caps => parseCapabilities caps
          | None => []
          end;
        Labels := SvcLabels service;
        LastDiscovered := now;
        HealthStatus := "unknown";
        ServiceType := SvcType service;
      |}.

(** ** The registry *)

Record K8sServiceDiscovery (H : Type) := {
  handlers : list H;
  services : gmap string ServiceEndpoint;
  running : bool;
}.
Arguments handlers {H} _.
Arguments services {H} _.
Arguments running {H} _.

(** The loop that notifies the handlers; it stops in a call that does not return. *)
Fixpoint notifyAll {H} (call : H → H * bool) (hs : list H) : list H * bool :=
  match hs with
  | [] => ([], true)
  | h :: rest =>
      let '(h', returns) := call h in
      if returns then
        let '(rest', returns') := notifyAll call rest in (h' :: rest', returns')
      else (h' :: rest, false)
  end.

Section registry.
Context {H : Type} `{DiscoveryHandler H}.
Implicit Types (sd : K8sServiceDiscovery H).

Definition AddHandler (handler : H) sd : K8sServiceDiscovery H :=
  {| handlers := handlers sd ++ [handler]; services := services sd; running := running sd |}.

(** [Start] up to the informers, and [Stop]. *)
Definition Start sd : res string (K8sServiceDiscovery H) :=
  if running sd then Err "service discovery is already running"
  else Ok {| handlers := handlers sd; services := services sd; running := true |}.

Definition Stop sd : K8sServiceDiscovery H :=
  if running sd then {| handlers := handlers sd; services := services sd; running := false |} else sd.

(** [order] is the order in which the map is visited. *)
Definition GetServices (order : list string) sd : list ServiceEndpoint :=
  omap (λ n, services sd !! n) order.

Definition GetService (name : string) sd : option ServiceEndpoint := services sd !! name.

Definition setServices (f : gmap string ServiceEndpoint → gmap string ServiceEndpoint) sd :
    K8sServiceDiscovery H :=
  {| handlers := handlers sd; services := f (services sd); running := running sd |}.

Definition notifyHandlers (call : H → H * bool) sd : K8sServiceDiscovery H * bool :=
  let '(hs, returns) := notifyAll call (handlers sd) in
  ({| handlers := hs; services := services sd; running := running sd |}, returns).

Definition handleServiceAdded (now : Z) (service : Service) sd : K8sServiceDiscovery H * bool :=
  match buildServiceEndpoint now service with
  | None => (sd, true)
  | Some endpoint =>
      notifyHandlers (OnServiceAdded now endpoint) (setServices <[Name endpoint := endpoint]> sd)
  end.

Definition handleServiceModified (now : Z) (service : Service) sd : K8sServiceDiscovery H * bool :=
  match buildServiceEndpoint now service with
  | None => (sd, true)
  | Some endpoint =>
      notifyHandlers (OnServiceModified now endpoint) (setServices <[Name endpoint := endpoint]> sd)
  end.

Definition handleServiceDeleted (now : Z) (service : Service) sd : K8sServiceDiscovery H * bool :=
  let serviceName := getServiceName service in
  if decide (serviceName = "") then (sd, true)
  else
    notifyHandlers (OnServiceDeleted now serviceName (SvcNamespace service))
      (setServices (delete serviceName) sd).

(** An event of the informer, dispatched by [setupInformers]. *)
Inductive InformerEvent :=
  | AddEvent (service : Service)
  | UpdateEvent (service : Service)
  | DeleteEvent (service : Service).

Definition handleEvent (now : Z) (e : InformerEvent) sd : K8sServiceDiscovery H * bool :=
  match e with
  | AddEvent s => handleServiceAdded now s sd
  | UpdateEvent s => handleServiceModified now s sd
  | DeleteEvent s => handleServiceDeleted now s sd
  end.

(** Events come one after another; nothing follows one whose handling does not return. *)
Fixpoint handleEvents (l : list (Z * InformerEvent)) sd : K8sServiceDiscovery H * bool :=
  match l with
  | [] => (sd, true)
  | (now, e) :: rest =>
      match handleEvent now e sd with
      | (sd', true) => handleEvents rest sd'
      | (sd', false) => (sd', false)
      end
  end.
End registry.

(** ** Immediate discovery *)

Section discover.
(** The services of the namespace that a label selector picks, if the list
    request succeeds. *)
Context (List : list (string * string) → option (list Service)).

Definition endpointsOf (now : Z) (items : list Service) : list ServiceEndpoint :=
  omap (buildServiceEndpoint now) items.

Definition DiscoverMCPServers (now : Z) : option (list ServiceEndpoint) :=
  endpointsOf now <$> List [("mcp.matey.ai/role", "server")].

Definition DiscoverMCPServices (now : Z) : option (list ServiceEndpoint) := DiscoverMCPServers now.

Definition DiscoverMCPServicesByProtocol (now : Z) (protocol : string) :
    option (list ServiceEndpoint) :=
  endpointsOf now <$> List [("mcp.matey.ai/role", "server"); ("mcp.matey.ai/protocol", protocol)].

Definition DiscoverMCPServicesByCapability (now : Z) (capability : string) :
    option (list ServiceEndpoint) :=
  items ← List [("mcp.matey.ai/role", "server")];
  Some (filter (λ e, capability ∈ Capabilities e) (endpointsOf now items)).
End discover.

(** ** Capabilities *)

(** The list the controller joined is read back. *)
Lemma parseCapabilities_Join (caps : list string) :
  Forall (λ c, c ≠ "" ∧ CountByte c "." = 0%nat) caps → parseCapabilities (Join caps ".") = caps.
Proof.
  intros Hall. unfold parseCapabilities. case_decide as Hd.
  - destruct caps as [|c caps]; [done|]. apply Forall_cons in Hall as [[Hc _] _].
    destruct caps as [|d caps]; simpl in Hd; by destruct c.
  - destruct caps as [|c caps]; [done|]. change "." with (byte1 ".").
    rewrite SplitByte_Join.
    + assert (∀ l : list string, Forall (λ p, p ≠ "" ∧ CountByte p "." = 0%nat) l →
        filter (λ part : string, part ≠ "") l = l) as Hf.
      { induction 1 as [|p l [Hp _] _ IH]; [done|]. by rewrite filter_cons_True, IH. }
      by apply Hf.
    + done.
    + eapply Forall_impl; [exact Hall|]. by intros ? [_ ?].
Qed.

(** ** The registry mirrors the cluster *)

Section mirror.
Context {H : Type} `{DiscoveryHandler H}.

(** The events an informer of one namespace sends for a set of services, by
    their names: an addition, an update or a removal.  The services are [steady]:
    each has its own server name, and an update changes neither it nor whether
    the service is an MCP server. *)
Definition is_server (s : Service) : Prop := label s "mcp.matey.ai/role" = "server".

Inductive steady_step : gmap string Service → InformerEvent → gmap string Service → Prop :=
  | steady_add c s :
      c !! SvcName s = None → getServiceName s ≠ "" →
      (∀ k s', c !! k = Some s' → getServiceName s' ≠ getServiceName s) →
      steady_step c (AddEvent s) (<[SvcName s := s]> c)
  | steady_update c s old :
      c !! SvcName s = Some old → getServiceName s = getServiceName old →
      (is_server s ↔ is_server old) →
      steady_step c (UpdateEvent s) (<[SvcName s := s]> c)
  | steady_delete c s :
      c !! SvcName s = Some s →
      steady_step c (DeleteEvent s) (delete (SvcName s) c).

Inductive steady_run : gmap string Service → list (Z * InformerEvent) → gmap string Service → Prop :=
  | steady_nil c : steady_run c [] c
  | steady_cons c now e c' l c'' :
      steady_step c e c' → steady_run c' l c'' → steady_run c ((now, e) :: l) c''.

(** What a registry should hold: the endpoint of each server of the cluster, as
    of some time. *)
Definition mirrors (c : gmap string Service) (m : gmap string ServiceEndpoint) : Prop :=
  (∀ k s, c !! k = Some s → SvcName s = k ∧ getServiceName s ≠ "") ∧
  (∀ k k' s s', c !! k = Some s → c !! k' = Some s' → getServiceName s = getServiceName s' → k = k') ∧
  (∀ n e, m !! n = Some e →
     ∃ k s now, c !! k = Some s ∧ getServiceName s = n ∧ buildServiceEndpoint now s = Some e) ∧
  (∀ k s, c !! k = Some s → is_server s → is_Some (m !! getServiceName s)).

Lemma build_server now s :
  getServiceName s ≠ "" → (is_Some (buildServiceEndpoint now s) ↔ is_server s).
Proof.
  clear. intros Hn. unfold buildServiceEndpoint, is_server.
  destruct (decide (label s "mcp.matey.ai/role" = "server")) as [Hr|Hr].
  - rewrite decide_False by (by intros ?). rewrite decide_False by done. split; [done|by eexists].
  - rewrite decide_True by done. split; [by intros [? ?]|done].
Qed.

Lemma build_Name now s e : buildServiceEndpoint now s = Some e → Name e = getServiceName s.
Proof. clear. unfold buildServiceEndpoint. repeat case_decide; naive_solver. Qed.

(** The registry part of handling an event, whatever the handlers do. *)
Definition register (now : Z) (e : InformerEvent) (m : gmap string ServiceEndpoint) :
    gmap string ServiceEndpoint :=
  match e with
  | AddEvent s | UpdateEvent s =>
      match buildServiceEndpoint now s with Some ep => <[Name ep := ep]> m | None => m end
  | DeleteEvent s => if decide (getServiceName s = "") then m else delete (getServiceName s) m
  end.

Lemma notifyHandlers_services call (sd : K8sServiceDiscovery H) :
  services (notifyHandlers call sd).1 = services sd.
Proof. unfold notifyHandlers. by destruct (notifyAll call (handlers sd)). Qed.

Lemma handleEvent_services now e (sd : K8sServiceDiscovery H) :
  services (handleEvent now e sd).1 = register now e (services sd).
Proof.
  destruct e as [s|s|s]; simpl;
    unfold handleServiceAdded, handleServiceModified, handleServiceDeleted.
  1, 2: destruct (buildServiceEndpoint now s); [|done]; by rewrite notifyHandlers_services.
  case_decide; [done|]. by rewrite notifyHandlers_services.
Qed.

Lemma mirrors_set c m now s :
  mirrors c m → getServiceName s ≠ "" →
  (∀ k s', c !! k = Some s' → k ≠ SvcName s → getServiceName s' ≠ getServiceName s) →
  (∀ old, c !! SvcName s = Some old → getServiceName s = getServiceName old ∧ (is_server s ↔ is_server old)) →
  mirrors (<[SvcName s := s]> c)
    (match buildServiceEndpoint now s with Some ep => <[Name ep := ep]> m | None => m end).
Proof.
  clear. intros (Hk & Hinj & Hm & Hc) Hn Hother Hold.
  assert (∀ n e, m !! n = Some e → n ≠ getServiceName s →
    ∃ k s' now', <[SvcName s := s]> c !! k = Some s' ∧ getServiceName s' = n ∧
      buildServiceEndpoint now' s' = Some e) as Hkeep.
  { intros n e He Hne. destruct (Hm n e He) as (k & s' & now' & Hs' & <- & Hb).
    destruct (decide (k = SvcName s)) as [->|].
    - destruct (Hold s' Hs') as [Hsn _]. congruence.
    - exists k, s', now'. by rewrite lookup_insert_ne by done. }
  split_and!.
  - intros k s' [[<- <-]|[_ Hs']]%lookup_insert_Some; [done|]. by apply Hk.
  - intros k k' s1 s2 [[<- <-]|[Hne1 H1]]%lookup_insert_Some [[<- <-]|[Hne2 H2]]%lookup_insert_Some Heq.
    + done.
    + exfalso. by apply (Hother k' s2).
    + exfalso. by apply (Hother k s1).
    + by eapply Hinj.
  - intros n e. destruct (buildServiceEndpoint now s) as [ep|] eqn:Hb.
    + intros [[<- <-]|[Hne He]]%lookup_insert_Some.
      * exists (SvcName s), s, now. rewrite lookup_insert_eq. split_and!; [done| |done].
        symmetry. by apply (build_Name now).
      * apply Hkeep; [done|]. by rewrite <-(build_Name now s ep Hb).
    + intros He. apply Hkeep; [done|]. intros ->.
      destruct (Hm _ e He) as (k & s' & now' & Hs' & Hsn & Hb').
      destruct (decide (k = SvcName s)) as [->|Hks]; [|by apply (Hother k s')].
      destruct (Hold s' Hs') as [_ Hiff].
      assert (is_Some (buildServiceEndpoint now s)) as [? ?]; [|congruence].
      apply build_server; [done|]. apply Hiff. eapply build_server; [by eapply Hk|]. by eexists.
  - intros k s' [[<- <-]|[Hne Hs']]%lookup_insert_Some Hsrv.
    + assert (is_Some (buildServiceEndpoint now s)) as [ep Hb] by (by apply build_server).
      rewrite Hb, (build_Name now s ep Hb), lookup_insert_eq. by eexists.
    + destruct (Hc k s' Hs' Hsrv) as [e He]. destruct (buildServiceEndpoint now s) as [ep|] eqn:Hb; [|by eexists].
      destruct (decide (Name ep = getServiceName s')) as [->|]; [rewrite lookup_insert_eq; by eexists|].
      rewrite lookup_insert_ne by done. by eexists.
Qed.

Lemma steady_step_mirrors c e c' now m :
  steady_step c e c' → mirrors c m → mirrors c' (register now e m).
Proof.
  clear. intros Hs Hm. destruct Hs as [c s Hnew Hn Hd|c s old Hold Hsn Hiff|c s Hs].
  - apply mirrors_set; [done|done|by intros k s' ? _; eapply Hd|congruence].
  - destruct Hm as (Hk & Hinj & Hm'). apply mirrors_set; [done|rewrite Hsn; by eapply Hk| |].
    + intros k s' Hs' Hne Heq. apply Hne. eapply Hinj; [done|done|congruence].
    + intros old' ?. simplify_eq. done.
  - destruct Hm as (Hk & Hinj & Hm & Hc). simpl. destruct (Hk _ _ Hs) as [_ Hne].
    rewrite decide_False by done. split_and!.
    + intros k s' [_ ?]%lookup_delete_Some. by apply Hk.
    + intros k k' s1 s2 [_ ?]%lookup_delete_Some [_ ?]%lookup_delete_Some. by apply Hinj.
    + intros n e [Hn He]%lookup_delete_Some. destruct (Hm n e He) as (k & s' & now' & Hs' & <- & Hb).
      exists k, s', now'. rewrite lookup_delete_ne; [done|]. intros <-. congruence.
    + intros k s' [Hks Hs']%lookup_delete_Some Hsrv. rewrite lookup_delete_ne; [by eapply Hc|].
      intros Heq. apply Hks. by eapply Hinj.
Qed.

(** While the services are steady and the handlers return, the registry holds
    exactly the endpoints of the servers that exist. *)
Lemma registry_mirrors l c c' (sd sd' : K8sServiceDiscovery H) :
  steady_run c l c' → mirrors c (services sd) → handleEvents l sd = (sd', true) →
  mirrors c' (services sd').
Proof.
  intros Hrun. revert sd. induction Hrun as [c|c now e c1 l c2 Hs _ IH]; intros sd Hm; simpl.
  { by intros [= <-]. }
  destruct (handleEvent now e sd) as [sd1 []] eqn:He; [|done]. apply IH.
  replace (services sd1) with (services (handleEvent now e sd).1) by (by rewrite He).
  rewrite handleEvent_services. by eapply steady_step_mirrors.
Qed.

Lemma mirrors_empty : mirrors ∅ ∅.
Proof. clear. unfold mirrors. by setoid_rewrite lookup_empty. Qed.
End mirror.

(** ** When the cluster is not steady *)

Definition plain_service (name : string) (labels : gmap string string) : Service :=
  {| SvcName := name; SvcNamespace := "matey"; SvcLabels := labels; SvcPorts := [8080];
     SvcType := "ClusterIP" |}.

Definition server_labels : gmap string string := {["mcp.matey.ai/role" := "server"]}.

(** A service that loses its role label keeps its endpoint. *)
Lemma lost_label_kept {H} `{DiscoveryHandler H} (sd : K8sServiceDiscovery H) now s :
  label s "mcp.matey.ai/role" ≠ "server" → handleEvent now (UpdateEvent s) sd = (sd, true).
Proof.
  intros Hl. simpl. unfold handleServiceModified, buildServiceEndpoint. by rewrite decide_True.
Qed.

(** Removing a service that is no MCP server removes the endpoint of the server
    that has its name as a label. *)
Lemma deletion_of_other : ∀ {H} `{DiscoveryHandler H} (sd : K8sServiceDiscovery H) now,
  handlers sd = [] →
  services (handleEvent now (DeleteEvent (plain_service "db" ∅)) sd).1 = delete "db" (services sd).
Proof. intros. simpl. unfold handleServiceDeleted, notifyHandlers. simpl. by rewrite H1. Qed.

(** A selector picks the services with the labels it names. *)
Definition selects (sel : list (string * string)) (s : Service) : Prop :=
  Forall (λ kv, SvcLabels s !! kv.1 = Some kv.2) sel.

(** Servers without a protocol label count as http, but are not found by protocol. *)
Lemma default_protocol_not_listed List now s :
  (∀ sel items, List sel = Some items → Forall (selects sel) items) →
  SvcLabels s !! "mcp.matey.ai/protocol" = None →
  (∀ e, buildServiceEndpoint now s = Some e → Protocol e = "http") ∧
  ∀ items, List [("mcp.matey.ai/role", "server"); ("mcp.matey.ai/protocol", "http")] = Some items →
    s ∉ items.
Proof.
  intros Hl Hp. split.
  - intros e. unfold buildServiceEndpoint, label. rewrite Hp. repeat case_decide; naive_solver.
  - intros items Hi Hin. apply Hl in Hi. rewrite Forall_forall in Hi.
    apply Hi in Hin as [_ [Hin _]%Forall_cons]%Forall_cons. simpl in Hin. congruence.
Qed.
