(* ===== verification/Connections.v ===== *)
(** * Connections to discovered servers

    internal/discovery/connection_manager.go.  Connections are objects on a heap
    that the manager's map points to: a goroutine keeps working on its connection
    after the map has dropped it.  An operation that takes the manager's mutex is
    one step; a goroutine is one step per stretch between network calls and locks,
    and any goroutine may go next.  The mutex is not reentrant, and one handler
    locks it twice ([muHeld] records that it is held for ever). *)
From S2P Require Import Prelude GoString ServiceDiscovery.

#[local] Open Scope Z_scope.

Set Default Proof Using "Type*".

(** ** Data *)

(** MCPHTTPConnection, MCPSSEConnection and MCPStreamableHTTPConnection, which
    have the same fields; of the HTTP client nothing is kept. *)
Record Handle := {
  BaseURL : string;
  HandleUsed : Z;
  SessionID : string;
  AuthToken : string;
  Healthy : bool;
}.

Record MCPConnection := {
  ConnName : string;
  ConnEndpoint : string;
  ConnProtocol : string;
  ConnPort : Z;
  ConnCapabilities : list string;
  Status : string;
  LastSeen : Z;
  HTTPConnection : option Handle;
  SSEConnection : option Handle;
  StreamableHTTPConnection : option Handle;
  LastUsed : Z;
  ErrorCount : Z;
  ConsecutiveFailures : Z;
  LastKeepAlive : Z;
}.

Definition setHandles (http sse stream : option Handle) (c : MCPConnection) : MCPConnection := {|
  ConnName := ConnName c; ConnEndpoint := ConnEndpoint c; ConnProtocol := ConnProtocol c;
  ConnPort := ConnPort c; ConnCapabilities := ConnCapabilities c; Status := Status c;
  LastSeen := LastSeen c; HTTPConnection := http; SSEConnection := sse;
  StreamableHTTPConnection := stream; LastUsed := LastUsed c; ErrorCount := ErrorCount c;
  ConsecutiveFailures := ConsecutiveFailures c; LastKeepAlive := LastKeepAlive c |}.

(** Status, ErrorCount, ConsecutiveFailures and LastKeepAlive at once. *)
Definition setHealth (status : string) (errors failures keepAlive : Z) (c : MCPConnection) :
    MCPConnection := {|
  ConnName := ConnName c; ConnEndpoint := ConnEndpoint c; ConnProtocol := ConnProtocol c;
  ConnPort := ConnPort c; ConnCapabilities := ConnCapabilities c; Status := status;
  LastSeen := LastSeen c; HTTPConnection := HTTPConnection c; SSEConnection := SSEConnection c;
  StreamableHTTPConnection := StreamableHTTPConnection c; LastUsed := LastUsed c;
  ErrorCount := errors; ConsecutiveFailures := failures; LastKeepAlive := keepAlive |}.

Definition setSeen (seen used : Z) (c : MCPConnection) : MCPConnection := {|
  ConnName := ConnName c; ConnEndpoint := ConnEndpoint c; ConnProtocol := ConnProtocol c;
  ConnPort := ConnPort c; ConnCapabilities := ConnCapabilities c; Status := Status c;
  LastSeen := seen; HTTPConnection := HTTPConnection c; SSEConnection := SSEConnection c;
  StreamableHTTPConnection := StreamableHTTPConnection c; LastUsed := used;
  ErrorCount := ErrorCount c; ConsecutiveFailures := ConsecutiveFailures c;
  LastKeepAlive := LastKeepAlive c |}.

(** What the goroutines of the manager are about to do: initialize a connection,
    record the outcome, wait for a retry, check health and record the outcome,
    send a keep-alive and record the outcome. *)
Inductive Goroutine :=
  | Initialize (a : nat)
  | Initialized (a : nat) (err : option string)
  | Retry (a : nat)
  | CheckHealth (a : nat)
  | Checked (a : nat) (healthy : bool)
  | SendKeepAlive (a : nat)
  | KeptAlive (a : nat) (success : bool).

Record DynamicConnectionManager := {
  heap : gmap nat MCPConnection;
  connections : gmap string nat;
  goroutines : list Goroutine;
  cancelled : bool;
  muHeld : bool;
}.

Definition maxRetries : Z := 5.
Definition maxConsecutiveFailures : Z := 3.

(** time.Time{} in nanoseconds since 1970. *)
Definition zeroTime : Z := -62135596800000000000.

Definition minute : Z := 60000000000.

Definition NewDynamicConnectionManager : DynamicConnectionManager :=
  {| heap := ∅; connections := ∅; goroutines := []; cancelled := false; muHeld := false |}.

Definition setHeap (f : gmap nat MCPConnection → gmap nat MCPConnection) (m : DynamicConnectionManager) :
    DynamicConnectionManager :=
  {| heap := f (heap m); connections := connections m; goroutines := goroutines m;
     cancelled := cancelled m; muHeld := muHeld m |}.

Definition setConnections (f : gmap string nat → gmap string nat) (m : DynamicConnectionManager) :
    DynamicConnectionManager :=
  {| heap := heap m; connections := f (connections m); goroutines := goroutines m;
     cancelled := cancelled m; muHeld := muHeld m |}.

(** [go]: the goroutines start. *)
Definition spawn (gs : list Goroutine) (m : DynamicConnectionManager) : DynamicConnectionManager :=
  {| heap := heap m; connections := connections m; goroutines := goroutines m ++ gs;
     cancelled := cancelled m; muHeld := muHeld m |}.

(** The object at an address; nothing is ever freed. *)
Definition update (a : nat) (f : MCPConnection → MCPConnection) (m : DynamicConnectionManager) :
    DynamicConnectionManager :=
  setHeap (alter f a) m.

(** ** Initializing and closing *)

Definition newHandle (baseURL : string) (now : Z) : Handle :=
  {| BaseURL := baseURL; HandleUsed := now; SessionID := ""; AuthToken := ""; Healthy := true |}.

Definition initializeHTTPConnection (now : Z) (c : MCPConnection) : MCPConnection :=
  setHandles (Some (newHandle (ConnEndpoint c) now)) (SSEConnection c) (StreamableHTTPConnection c) c.

Definition initializeStreamableHTTPConnection (now : Z) (c : MCPConnection) : MCPConnection :=
  setHandles (HTTPConnection c) (SSEConnection c) (Some (newHandle (ConnEndpoint c) now)) c.

Definition initializeSSEConnection (now : Z) (c : MCPConnection) : MCPConnection :=
  setHandles (HTTPConnection c) (Some (newHandle (ConnEndpoint c) now)) (StreamableHTTPConnection c) c.

(** [initializeConnection] up to its lock. *)
Definition openConnection (now : Z) (c : MCPConnection) : MCPConnection * option string :=
  if decide (ConnProtocol c = "http") then (initializeHTTPConnection now c, None)
  else if decide (ConnProtocol c = "http-stream") then (initializeStreamableHTTPConnection now c, None)
  else if decide (ConnProtocol c = "sse") then (initializeSSEConnection now c, None)
  else (c, Some ("unsupported protocol: " +:+ ConnProtocol c)).

(** The rest of it: the connection, and whether it goes on to a retry or a health check. *)
Definition recordOpened (now : Z) (err : option string) (a : nat) (c : MCPConnection) :
    MCPConnection * list Goroutine :=
  match err with
  | Some _ =>
      let c := setHealth "failed" (ErrorCount c + 1) (ConsecutiveFailures c) (LastKeepAlive c) c in
      (c, if ErrorCount c <=? maxRetries then [Retry a] else [])
  | None => (setHealth "connected" 0 0 now c, [CheckHealth a])
  end.

(** The handles are marked unhealthy and dropped. *)
Definition closeConnection (c : MCPConnection) : MCPConnection :=
  setHandles None None None
    (setHealth "disconnected" (ErrorCount c) (ConsecutiveFailures c) (LastKeepAlive c) c).

(** ** Health and keep-alive *)

(** What comes back from a request: nothing, or a status and the keys of the JSON
    object in the body, if that is what the body is. *)
Inductive Reply :=
  | NoReply
  | HTTPReply (StatusCode : Z) (Body : option (list string)).

(** [sendHTTPHealthRequest]: the keys of the response, or an error. *)
Definition sendHTTPHealthRequest (reply : Reply) : option (list string) :=
  match reply with
  | NoReply => None
  | HTTPReply status body => if (status <? 200) || (500 <=? status) then None else body
  end.

Definition mcpResponse (reply : Reply) : bool :=
  match sendHTTPHealthRequest reply with
  | None => false
  | Some keys => bool_decide ("result" ∈ keys) || bool_decide ("error" ∈ keys)
  end.

Definition checkHTTPHealth (reply : Reply) (c : MCPConnection) : bool :=
  match HTTPConnection c with None => false | Some _ => mcpResponse reply end.

Definition checkStreamableHTTPHealth (reply : Reply) (c : MCPConnection) : bool :=
  match StreamableHTTPConnection c with None => false | Some _ => mcpResponse reply end.

Definition sseAnswers (reply : Reply) (c : MCPConnection) : bool :=
  match SSEConnection c, reply with
  | Some _, HTTPReply status _ => status =? 200
  | _, _ => false
  end.

Definition checkSSEHealth (reply : Reply) (c : MCPConnection) : bool := sseAnswers reply c.

(** [checkConnectionHealth] up to its lock. *)
Definition checkProtocol (reply : Reply) (c : MCPConnection) : bool :=
  if decide (ConnProtocol c = "http") then checkHTTPHealth reply c
  else if decide (ConnProtocol c = "http-stream") then checkStreamableHTTPHealth reply c
  else if decide (ConnProtocol c = "sse") then checkSSEHealth reply c
  else true.

Definition recordHealth (healthy : bool) (c : MCPConnection) : MCPConnection :=
  if healthy then
    setHealth (if decide (Status c = "unhealthy") then "connected" else Status c)
      0 0 (LastKeepAlive c) c
  else
    let failures := ConsecutiveFailures c + 1 in
    setHealth (if maxConsecutiveFailures <=? failures then "unhealthy" else Status c)
      (ErrorCount c + 1) failures (LastKeepAlive c) c.

(** [StatusCode < 500], on any response. *)
Definition pinged (reply : Reply) : bool :=
  match reply with NoReply => false | HTTPReply status _ => status <? 500 end.

Definition sendHTTPKeepAlive (reply : Reply) (c : MCPConnection) : bool :=
  match HTTPConnection c with None => false | Some _ => pinged reply end.

Definition sendStreamableHTTPKeepAlive (reply : Reply) (c : MCPConnection) : bool :=
  match StreamableHTTPConnection c with None => false | Some _ => pinged reply end.

Definition sendSSEKeepAlive (reply : Reply) (c : MCPConnection) : bool := sseAnswers reply c.

(** [sendKeepAlive] up to its second lock; [None] if the connection is not connected. *)
Definition sendKeepAlive (reply : Reply) (c : MCPConnection) : option bool :=
  if decide (Status c = "connected") then
    Some (if decide (ConnProtocol c = "http") then sendHTTPKeepAlive reply c
          else if decide (ConnProtocol c = "http-stream") then sendStreamableHTTPKeepAlive reply c
          else if decide (ConnProtocol c = "sse") then sendSSEKeepAlive reply c
          else true)
  else None.

Definition recordKeepAlive (now : Z) (success : bool) (c : MCPConnection) : MCPConnection :=
  if success then setHealth (Status c) (ErrorCount c) 0 now c
  else setHealth (Status c) (ErrorCount c) (ConsecutiveFailures c + 1) (LastKeepAlive c) c.

(** ** One step of a goroutine *)

(** [timer] is what a goroutine that waits chooses once the context is cancelled:
    a retry has its delay and a keep-alive its slot of the semaphore, or
    they end.  (The bound of the semaphore is left out, which allows more.) *)
Definition runGoroutine (now : Z) (timer : bool) (reply : Reply) (g : Goroutine)
    (m : DynamicConnectionManager) : DynamicConnectionManager :=
  match g with
  | Initialize a =>
      match heap m !! a with
      | None => m
      | Some c =>
          let '(c', err) := openConnection now c in
          spawn [Initialized a err] (update a (λ _, c') m)
      end
  | Initialized a err =>
      match heap m !! a with
      | None => m
      | Some c =>
          let '(c', gs) := recordOpened now err a c in spawn gs (update a (λ _, c') m)
      end
  | Retry a => if cancelled m && negb timer then m else spawn [Initialize a] m
  | CheckHealth a =>
      match heap m !! a with
      | None => m
      | Some c => spawn [Checked a (checkProtocol reply c)] m
      end
  | Checked a healthy => update a (recordHealth healthy) m
  | SendKeepAlive a =>
      if cancelled m && negb timer then m else
      match c ← heap m !! a; sendKeepAlive reply c with
      | None => m
      | Some success => spawn [KeptAlive a success] m
      end
  | KeptAlive a success => update a (recordKeepAlive now success) m
  end.

(** The [i]-th goroutine goes on. *)
Definition runNth (now : Z) (timer : bool) (reply : Reply) (i : nat) (m : DynamicConnectionManager) :
    option DynamicConnectionManager :=
  g ← goroutines m !! i;
  Some (runGoroutine now timer reply g
    {| heap := heap m; connections := connections m; goroutines := delete i (goroutines m);
       cancelled := cancelled m; muHeld := muHeld m |}).

(** ** Events of the service discovery *)

(** A new object, at an address not used before. *)
Definition newConnection (name : string) (c : MCPConnection) (m : DynamicConnectionManager) :
    DynamicConnectionManager * nat :=
  let a := fresh (dom (heap m)) in
  (setConnections <[name := a]> (setHeap <[a := c]> m), a).

Definition connectionTo (now : Z) (endpoint : ServiceEndpoint) : MCPConnection := {|
  ConnName := Name endpoint; ConnEndpoint := URL endpoint; ConnProtocol := Protocol endpoint;
  ConnPort := Port endpoint; ConnCapabilities := Capabilities endpoint; Status := "connecting";
  LastSeen := zeroTime; HTTPConnection := None; SSEConnection := None;
  StreamableHTTPConnection := None; LastUsed := now; ErrorCount := 0; ConsecutiveFailures := 0;
  LastKeepAlive := now |}.

(** The operations return the new state and whether the call returns; one
    that waits for the mutex leaves the state as it is. *)
Definition onServiceAdded (now : Z) (endpoint : ServiceEndpoint) (m : DynamicConnectionManager) :
    DynamicConnectionManager * bool :=
  if muHeld m then (m, false)
  else match connections m !! Name endpoint with
       | Some _ => (m, true)
       | None =>
           let '(m', a) := newConnection (Name endpoint) (connectionTo now endpoint) m in
           (spawn [Initialize a] m', true)
       end.

Definition holdForever (m : DynamicConnectionManager) : DynamicConnectionManager :=
  {| heap := heap m; connections := connections m; goroutines := goroutines m;
     cancelled := cancelled m; muHeld := true |}.

Definition modifyConnection (endpoint : ServiceEndpoint) (c : MCPConnection) : MCPConnection := {|
  ConnName := Name endpoint; ConnEndpoint := URL endpoint; ConnProtocol := Protocol endpoint;
  ConnPort := Port endpoint; ConnCapabilities := Capabilities endpoint; Status := Status c;
  LastSeen := LastSeen c; HTTPConnection := HTTPConnection c; SSEConnection := SSEConnection c;
  StreamableHTTPConnection := StreamableHTTPConnection c; LastUsed := LastUsed c;
  ErrorCount := ErrorCount c; ConsecutiveFailures := ConsecutiveFailures c;
  LastKeepAlive := LastKeepAlive c |}.

(** [conn.HTTPConnection != nil && conn.HTTPConnection.BaseURL != endpoint.URL] *)
Definition urlChanged (endpoint : ServiceEndpoint) (c : MCPConnection) : bool :=
  match HTTPConnection c with
  | Some h => negb (String.eqb (BaseURL h) (URL endpoint))
  | None => false
  end.

(** An unknown service is passed on to [onServiceAdded], which locks the mutex
    that is held here. *)
Definition onServiceModified (now : Z) (endpoint : ServiceEndpoint) (m : DynamicConnectionManager) :
    DynamicConnectionManager * bool :=
  if muHeld m then (m, false)
  else match connections m !! Name endpoint with
       | None => onServiceAdded now endpoint (holdForever m)
       | Some a =>
           match heap m !! a with
           | None => (m, true)
           | Some c =>
               let c := modifyConnection endpoint c in
               if urlChanged endpoint c
               then (spawn [Initialize a] (update a (λ _, closeConnection c) m), true)
               else (update a (λ _, c) m, true)
           end
       end.

(** Closing a connection and dropping it from the map. *)
Definition dropConnection (name : string) (m : DynamicConnectionManager) : DynamicConnectionManager :=
  match connections m !! name with
  | Some a => setConnections (delete name) (update a closeConnection m)
  | None => m
  end.

Definition onServiceDeleted (now : Z) (serviceName namespace : string)
    (m : DynamicConnectionManager) : DynamicConnectionManager * bool :=
  if muHeld m then (m, false) else (dropConnection serviceName m, true).

#[export] Instance connections_handler : DiscoveryHandler DynamicConnectionManager := {
  OnServiceAdded := onServiceAdded;
  OnServiceModified := onServiceModified;
  OnServiceDeleted := onServiceDeleted;
}.

(** ** Operations *)

Section operations.
Implicit Types (m : DynamicConnectionManager).

Definition connectionOf m (name : string) : option (nat * MCPConnection) :=
  a ← connections m !! name; c ← heap m !! a; Some (a, c).

(** The connection at the time, its status read without its lock; [None] if the
    call does not return. *)
Definition GetConnection (now : Z) (serviceName : string) m :
    DynamicConnectionManager * option (res string nat) :=
  if muHeld m then (m, None)
  else match connectionOf m serviceName with
       | None => (m, Some (Err ("no connection found for service: " +:+ serviceName)))
       | Some (a, c) =>
           if decide (Status c = "connected") then (update a (setSeen (LastSeen c) now) m, Some (Ok a))
           else (m, Some (Err ("service " +:+ serviceName +:+ " is not connected (status: " +:+
                               Status c +:+ ")")))
       end.

Record ConnectionStatus := { Connected : bool; LastConnected : Z; StatusErrorCount : Z }.

Definition GetConnectionStatus m : option (gmap string ConnectionStatus) :=
  if muHeld m then None
  else Some (omap (λ a, c ← heap m !! a;
    Some {| Connected := bool_decide (Status c = "connected"); LastConnected := LastUsed c;
            StatusErrorCount := ErrorCount c |}) (connections m)).

Definition GetAllConnections m : option (gmap string nat) :=
  if muHeld m then None else Some (connections m).

(** [order] is the order in which the map is visited, here and below. *)
Definition GetConnections (order : list string) m : option (list nat) :=
  if muHeld m then None else Some (omap (λ n, connections m !! n) order).

Definition GetHealthyConnections (now maxAge : Z) (order : list string) m : option (list nat) :=
  if muHeld m then None
  else Some (omap (λ n, '(a, c) ← connectionOf m n;
    if decide (Status c = "connected" ∧ now - maxAge < LastSeen c) then Some a else None) order).

(** What an operation that can fail returns; [None] if it does not return. *)
Definition Returned : Type := option (res string unit).

Definition AddConnection (conn : option MCPConnection) m : DynamicConnectionManager * Returned :=
  match conn with
  | None => (m, Some (Err "connection cannot be nil"))
  | Some c =>
      if muHeld m then (m, None) else ((newConnection (ConnName c) c m).1, Some (Ok tt))
  end.

Definition connectionNotFound (name : string) : string := "connection " +:+ name +:+ " not found".

Definition RemoveConnection (name : string) m : DynamicConnectionManager * Returned :=
  if muHeld m then (m, None)
  else match connections m !! name with
       | Some _ => (dropConnection name m, Some (Ok tt))
       | None => (m, Some (Err (connectionNotFound name)))
       end.

Definition UpdateConnectionStatus (now : Z) (name status : string) m :
    DynamicConnectionManager * Returned :=
  if muHeld m then (m, None)
  else match connections m !! name with
       | None => (m, Some (Err (connectionNotFound name)))
       | Some a =>
           (update a (λ c, setSeen now (LastUsed c)
              (setHealth status (ErrorCount c) (ConsecutiveFailures c) (LastKeepAlive c) c)) m,
            Some (Ok tt))
       end.

Definition isStale (now maxAge : Z) m (name : string) : bool :=
  match connectionOf m name with
  | Some (_, c) => LastSeen c <? now - maxAge
  | None => false
  end.

Definition CleanupStaleConnections (now maxAge : Z) (order : list string) m :
    DynamicConnectionManager * bool :=
  if muHeld m then (m, false)
  else (foldl (λ m name, dropConnection name m) m (filter (isStale now maxAge m) order), true).

(** The context is cancelled before the mutex is taken. *)
Definition Stop (order : list string) m : DynamicConnectionManager * bool :=
  let m := {| heap := heap m; connections := connections m; goroutines := goroutines m;
              cancelled := true; muHeld := muHeld m |} in
  if muHeld m then (m, false) else (foldl (λ m name, dropConnection name m) m order, true).

(** ** Periodic work *)

Definition performHealthChecks (order : list string) m : DynamicConnectionManager * bool :=
  if muHeld m then (m, false)
  else (spawn (CheckHealth <$> omap (λ n, connections m !! n) order) m, true).

Definition performKeepAlive (order : list string) m : DynamicConnectionManager * bool :=
  if muHeld m then (m, false)
  else (spawn (SendKeepAlive <$> omap (λ n, connections m !! n) order) m, true).

Definition shouldRecover (now : Z) (c : MCPConnection) : bool :=
  (String.eqb (Status c) "failed" || String.eqb (Status c) "unhealthy") &&
  (maxRetries <? ErrorCount c) && (5 * minute <? now - LastUsed c).

(** The body of the loop over the connections. *)
Definition recoverConnection (now : Z) m (a : nat) : DynamicConnectionManager :=
  match heap m !! a with
  | None => m
  | Some c =>
      if shouldRecover now c
      then spawn [Initialize a] (update a (setHealth "connecting" 0 0 (LastKeepAlive c)) m)
      else m
  end.

Definition attemptConnectionRecovery (now : Z) (order : list string) m :
    DynamicConnectionManager * bool :=
  if muHeld m then (m, false)
  else (foldl (recoverConnection now) m (omap (λ n, connections m !! n) order), true).

(** The services found at the start, one after another. *)
Fixpoint addServices (now : Z) (l : list ServiceEndpoint) m : DynamicConnectionManager * bool :=
  match l with
  | [] => (m, true)
  | e :: rest =>
      let '(m', returns) := onServiceAdded now e m in
      if returns then addServices now rest m' else (m', false)
  end.

(** [Start] after the loops are started; [None] is a discovery that fails. *)
Definition Start (now : Z) (discovered : option (list ServiceEndpoint)) m :
    DynamicConnectionManager * bool :=
  match discovered with None => (m, true) | Some l => addServices now l m end.
End operations.

(** ** Runs *)

(** Everything that can happen to a manager, at a time. *)
Inductive Action :=
  | Added (e : ServiceEndpoint)
  | Modified (e : ServiceEndpoint)
  | Deleted (name namespace : string)
  | Run (timer : bool) (reply : Reply) (i : nat)
  | HealthTick (order : list string)
  | KeepAliveTick (order : list string)
  | RecoveryTick (order : list string)
  | Get (name : string)
  | AddConn (c : option MCPConnection)
  | Remove (name : string)
  | SetStatus (name status : string)
  | Cleanup (maxAge : Z) (order : list string)
  | StopAll (order : list string).

(** The effect, and whether the call returns. *)
Definition returned {A} (mr : DynamicConnectionManager * option A) : DynamicConnectionManager * bool :=
  (mr.1, bool_decide (is_Some mr.2)).

Definition exec (now : Z) (act : Action) (m : DynamicConnectionManager) :
    DynamicConnectionManager * bool :=
  match act with
  | Added e => onServiceAdded now e m
  | Modified e => onServiceModified now e m
  | Deleted name namespace => onServiceDeleted now name namespace m
  | Run timer reply i => (default m (runNth now timer reply i m), true)
  | HealthTick order => performHealthChecks order m
  | KeepAliveTick order => performKeepAlive order m
  | RecoveryTick order => attemptConnectionRecovery now order m
  | Get name => returned (GetConnection now name m)
  | AddConn c => returned (AddConnection c m)
  | Remove name => returned (RemoveConnection name m)
  | SetStatus name status => returned (UpdateConnectionStatus now name status m)
  | Cleanup maxAge order => CleanupStaleConnections now maxAge order m
  | StopAll order => Stop order m
  end.

(** Calls that do not return stop only their callers. *)
Definition run (acts : list (Z * Action)) (m : DynamicConnectionManager) : DynamicConnectionManager :=
  foldl (λ m ta, (exec ta.1 ta.2 m).1) m acts.

(** ** The mutex *)

(** What no operation but one changes. *)
Lemma muHeld_update a f m : muHeld (update a f m) = muHeld m.
Proof. done. Qed.

Lemma dropConnection_muHeld name m : muHeld (dropConnection name m) = muHeld m.
Proof. unfold dropConnection. by destruct (connections m !! name). Qed.

Lemma foldl_muHeld {A} (f : DynamicConnectionManager → A → DynamicConnectionManager) l m :
  (∀ m x, muHeld (f m x) = muHeld m) → muHeld (foldl f m l) = muHeld m.
Proof. intros Hf. revert m. induction l as [|x l IH]; intros m; simpl; [done|]. by rewrite IH. Qed.

Lemma recoverConnection_muHeld now m a : muHeld (recoverConnection now m a) = muHeld m.
Proof. unfold recoverConnection. repeat case_match; done. Qed.

Lemma runGoroutine_muHeld now timer reply g m : muHeld (runGoroutine now timer reply g m) = muHeld m.
Proof. destruct g; simpl; repeat case_match; simplify_eq; done. Qed.

(** The one operation: a service that is modified and not known. *)
Definition unknownModified (act : Action) (m : DynamicConnectionManager) : Prop :=
  ∃ e, act = Modified e ∧ connections m !! Name e = None.

(** The operations that lock the mutex. *)
Definition locks (act : Action) : Prop :=
  match act with Run _ _ _ | AddConn None => False | _ => True end.

Lemma exec_free now act m :
  muHeld m = false →
  (muHeld (exec now act m).1 = true ∧ (exec now act m).2 = false ∧ unknownModified act m) ∨
  (muHeld (exec now act m).1 = false ∧ (exec now act m).2 = true ∧ ¬ unknownModified act m).
Proof.
  intros Hm. destruct act as [e|e|n ns|t r i|o|o|o|n|c|n|n st|age o|o]; simpl.
  2: { unfold onServiceModified. rewrite Hm. destruct (connections m !! Name e) as [a|] eqn:Ha.
       - right. split_and!; [| |intros (e' & [= <-] & ?); congruence].
         all: destruct (heap m !! a); [|done]; by case_match.
       - left. split_and!; [done|done|by exists e]. }
  all: right; split_and!; [| |by intros (? & ? & _)].
  all: unfold onServiceAdded, onServiceDeleted, performHealthChecks, performKeepAlive,
    attemptConnectionRecovery, returned, GetConnection, AddConnection, RemoveConnection,
    UpdateConnectionStatus, CleanupStaleConnections, Stop, runNth; simpl; rewrite ?Hm; try done.
  all: try (repeat case_match; simplify_eq/=; rewrite ?dropConnection_muHeld; done).
  - destruct (goroutines m !! i); [|done]. simpl. by rewrite runGoroutine_muHeld.
  - simpl. rewrite foldl_muHeld; [done|]. intros. apply recoverConnection_muHeld.
  - simpl. rewrite foldl_muHeld; [done|]. intros. apply dropConnection_muHeld.
  - simpl. rewrite foldl_muHeld; [done|]. intros. apply dropConnection_muHeld.
Qed.

Lemma exec_held now act m :
  muHeld m = true →
  muHeld (exec now act m).1 = true ∧ ((exec now act m).2 = false ↔ locks act).
Proof.
  intros Hm. destruct act as [e|e|n ns|t r i|o|o|o|n|[c|]|n|n st|age o|o]; simpl;
    unfold onServiceAdded, onServiceModified, onServiceDeleted, performHealthChecks, performKeepAlive,
    attemptConnectionRecovery, returned, GetConnection, AddConnection, RemoveConnection,
    UpdateConnectionStatus, CleanupStaleConnections, Stop, runNth; simpl; rewrite ?Hm; try done.
  destruct (goroutines m !! i); [|done]. simpl. by rewrite runGoroutine_muHeld.
Qed.

Lemma run_app l1 l2 m : run (l1 ++ l2) m = run l2 (run l1 m).
Proof. unfold run. by rewrite foldl_app. Qed.

Lemma run_held acts m : muHeld m = true → muHeld (run acts m) = true.
Proof.
  revert m. induction acts as [|[now act] acts IH]; intros m Hm; simpl; [done|].
  by apply IH, exec_held.
Qed.

(** One event stops the manager for good.  Along every sequence of events,
    ticks, calls and goroutine steps, the manager's mutex is held for ever
    exactly if a service was once modified that had no connection (since
    its handler locks the mutex a second time), and a call does not return
    exactly if it is that event or needs the mutex after it.  Until then every call
    returns. *)
Theorem unknown_modified_blocks (acts : list (Z * Action)) :
  let m := run acts NewDynamicConnectionManager in
  (muHeld m = true ↔
   ∃ pre now e post, acts = pre ++ (now, Modified e) :: post ∧
     connections (run pre NewDynamicConnectionManager) !! Name e = None) ∧
  ∀ now act, (exec now act m).2 = false ↔ unknownModified act m ∨ (locks act ∧ muHeld m = true).
Proof.
  split.
  - split.
    + induction acts as [|[now act] acts IH] using rev_ind; [done|].
      rewrite run_app. simpl. intros Hh.
      destruct (muHeld (run acts NewDynamicConnectionManager)) eqn:Hm.
      * destruct (IH eq_refl) as (pre & t & e & post & -> & Hn).
        exists pre, t, e, (post ++ [(now, act)]). by rewrite <-(assoc_L (++)).
      * destruct (exec_free now act _ Hm) as [(_ & _ & e & -> & Hn)|(? & _)]; [|congruence].
        by exists acts, now, e, [].
    + intros (pre & now & e & post & -> & Hn). rewrite run_app. simpl. apply run_held.
      destruct (muHeld (run pre NewDynamicConnectionManager)) eqn:Hm.
      * by apply (exec_held now (Modified e)).
      * destruct (exec_free now (Modified e) _ Hm) as [(? & _)|(_ & _ & Hno)]; [done|].
        exfalso. apply Hno. by exists e.
  - intros now act. destruct (muHeld _) eqn:Hm.
    + rewrite (proj2 (exec_held now act _ Hm)). split; [auto|].
      intros [(e & -> & _)|[? _]]; done.
    + destruct (exec_free now act _ Hm) as [(_ & -> & Hu)|(_ & -> & Hu)]; naive_solver.
Qed.

(** ** Deleted services *)

(** The actions that can add a connection of a name. *)
Definition adds (n : string) (act : Action) : Prop :=
  match act with
  | Added e => Name e = n
  | AddConn (Some c) => ConnName c = n
  | _ => False
  end.

Lemma dropConnection_connections name m :
  connections (dropConnection name m) = delete name (connections m).
Proof.
  unfold dropConnection. destruct (connections m !! name) eqn:Hn; simpl; [done|].
  by rewrite delete_id.
Qed.

Lemma foldl_connections {A} (f : DynamicConnectionManager → A → DynamicConnectionManager) l m :
  (∀ m x, connections (f m x) = connections m) → connections (foldl f m l) = connections m.
Proof. intros Hf. revert m. induction l as [|x l IH]; intros m; simpl; [done|]. by rewrite IH. Qed.

Lemma foldl_drop_None l n m :
  connections m !! n = None →
  connections (foldl (λ m name, dropConnection name m) m l) !! n = None.
Proof.
  revert m. induction l as [|x l IH]; intros m Hn; simpl; [done|]. apply IH.
  rewrite dropConnection_connections. rewrite lookup_delete_None. auto.
Qed.

Lemma recoverConnection_connections now m a :
  connections (recoverConnection now m a) = connections m.
Proof. unfold recoverConnection. repeat case_match; done. Qed.

Lemma runGoroutine_connections now timer reply g m :
  connections (runGoroutine now timer reply g m) = connections m.
Proof. destruct g; simpl; repeat case_match; simplify_eq; done. Qed.

Lemma exec_None n now act m :
  connections m !! n = None → ¬ adds n act → connections (exec now act m).1 !! n = None.
Proof.
  intros Hn Ha. destruct (muHeld m) eqn:Hm.
  { destruct act as [e|e|k ns|t r i|o|o|o|k|[c|]|k|k st|age o|o]; simpl;
      unfold onServiceAdded, onServiceModified, onServiceDeleted, performHealthChecks,
      performKeepAlive, attemptConnectionRecovery, returned, GetConnection, AddConnection,
      RemoveConnection, UpdateConnectionStatus, CleanupStaleConnections, Stop, runNth;
      simpl; rewrite ?Hm; try done.
    destruct (goroutines m !! i); [|done]. simpl. by rewrite runGoroutine_connections. }
  destruct act as [e|e|k ns|t r i|o|o|o|k|[c|]|k|k st|age o|o]; simpl;
    unfold onServiceAdded, onServiceModified, onServiceDeleted, performHealthChecks,
    performKeepAlive, attemptConnectionRecovery, returned, GetConnection, AddConnection,
    RemoveConnection, UpdateConnectionStatus, CleanupStaleConnections, Stop, runNth;
    simpl; rewrite ?Hm; try done.
  - simpl in Ha. repeat case_match; simplify_eq/=; [done|by rewrite lookup_insert_ne].
  - destruct (connections m !! Name e); [|done]. repeat case_match; done.
  - simpl. rewrite dropConnection_connections. apply lookup_delete_None. auto.
  - destruct (goroutines m !! i); [|done]. simpl. by rewrite runGoroutine_connections.
  - simpl. rewrite foldl_connections; [done|]. intros. apply recoverConnection_connections.
  - repeat case_match; done.
  - simpl in Ha |- *. by rewrite lookup_insert_ne.
  - destruct (connections m !! k); [|done]. simpl. rewrite dropConnection_connections.
    apply lookup_delete_None. auto.
  - by destruct (connections m !! k).
  - by apply foldl_drop_None.
  - by apply foldl_drop_None.
Qed.

Lemma run_None n acts m :
  connections m !! n = None → Forall (λ ta, ¬ adds n ta.2) acts → connections (run acts m) !! n = None.
Proof.
  revert m. induction acts as [|[now act] acts IH]; intros m Hn Hall; simpl; [done|].
  apply Forall_cons in Hall as [Ha Hall]. apply IH; [|done]. by apply exec_None.
Qed.

(** A deleted service is not served again.  Once a deletion returns, no
    call gets a connection to that name until one is added again, whatever the
    goroutines that still work on the old connection do: initializing it,
    retrying, checking its health. *)
Theorem deleted_not_served (pre post : list (Z * Action)) (now now' : Z) (name namespace : string) :
  let m := run pre NewDynamicConnectionManager in
  (exec now (Deleted name namespace) m).2 = true →
  Forall (λ ta, ¬ adds name ta.2) post →
  let m' := run post (exec now (Deleted name namespace) m).1 in
  (GetConnection now' name m').2 =
    if muHeld m' then None else Some (Err ("no connection found for service: " +:+ name)).
Proof.
  intros m Hret Hall m'. assert (connections m' !! name = None) as Hn.
  { apply run_None; [|done]. simpl in Hret |- *. unfold onServiceDeleted in *.
    destruct (muHeld m); [done|]. simpl. rewrite dropConnection_connections. apply lookup_delete_eq. }
  unfold GetConnection, connectionOf. rewrite Hn. by destruct (muHeld m').
Qed.

(** ** Health *)

(** What the checks of a connection found, in the order their outcomes are recorded. *)
Inductive Outcome := ByHealth (healthy : bool) | ByKeepAlive (success : bool).

Definition succeeded (o : Outcome) : bool := match o with ByHealth b | ByKeepAlive b => b end.

Definition recordOutcome (now : Z) (c : MCPConnection) (o : Outcome) : MCPConnection :=
  match o with ByHealth b => recordHealth b c | ByKeepAlive b => recordKeepAlive now b c end.

(** The failures since the last success, of either kind. *)
Definition failuresInRow (hist : list Outcome) : Z :=
  foldl (λ n o, if succeeded o then 0 else n + 1) 0 hist.

(** The health check that ends [hist] fails for at least the third time in a row. *)
Definition thirdFailure (hist : list Outcome) : Prop :=
  ∃ pre, hist = pre ++ [ByHealth false] ∧ 3 ≤ failuresInRow hist.

Lemma failuresInRow_snoc hist o :
  failuresInRow (hist ++ [o]) = if succeeded o then 0 else failuresInRow hist + 1.
Proof. unfold failuresInRow. by rewrite foldl_app. Qed.

(** A connected server counts as unhealthy exactly after a failing health
    check that was at least the third failure in a row, keep-alives counted,
    and until the next successful health check; a keep-alive can reset the count, so a
    server that answers pings but not the protocol need never count as
    unhealthy, but does not itself change the status. *)
Theorem unhealthy_iff (now : Z) (hist : list Outcome) (c : MCPConnection) :
  Status c = "connected" → ConsecutiveFailures c = 0 →
  let c' := foldl (recordOutcome now) c hist in
  ConsecutiveFailures c' = failuresInRow hist ∧
  (Status c' = "connected" ∨ Status c' = "unhealthy") ∧
  (Status c' = "unhealthy" ↔
   ∃ pre post, hist = pre ++ post ∧ thirdFailure pre ∧ ByHealth true ∉ post).
Proof.
  intros Hs Hc. induction hist as [|o hist IH] using rev_ind; simpl.
  { split_and!; [done|by left|]. rewrite Hs. split; [done|].
    intros (pre & post & [-> _]%eq_sym%app_nil & (k & Hk & _) & _). by destruct k. }
  rewrite foldl_app, failuresInRow_snoc. simpl.
  destruct IH as (Hf & Hor & Hiff). set (c1 := foldl (recordOutcome now) c hist) in *.
  assert (∀ o', ByHealth true ≠ o' → ¬ thirdFailure (hist ++ [o']) →
    (∃ pre post, hist ++ [o'] = pre ++ post ∧ thirdFailure pre ∧ ByHealth true ∉ post) ↔
    Status c1 = "unhealthy") as Hsame.
  { intros o' Ho' Hno. rewrite Hiff. split.
    - intros (pre & post & Heq & Hth & Hnot). destruct post as [|x post _] using rev_ind.
      { rewrite app_nil_r in Heq. by rewrite <-Heq in Hth. }
      rewrite (assoc_L (++)) in Heq. apply app_inj_tail in Heq as [-> ->].
      exists pre, post. set_solver.
    - intros (pre & post & -> & Hth & Hnot). exists pre, (post ++ [o']).
      rewrite <-(assoc_L (++)). split_and!; [done|done|]. set_solver. }
  assert (∀ o', o' ≠ ByHealth false → ¬ thirdFailure (hist ++ [o'])) as Hno.
  { intros o' Ho' (k & Hk & _). by apply app_inj_tail in Hk as [_ ?]. }
  destruct o as [[]|[]]; simpl; unfold recordHealth, recordKeepAlive; simpl.
  - split_and!; [done|case_decide; [by left|by destruct Hor; [left|]]|].
    split; [case_decide; [done|by intros ?]|].
    intros (pre & post & Heq & Hth & Hnot). exfalso.
    destruct post as [|x post _] using rev_ind.
    + rewrite app_nil_r in Heq. rewrite <-Heq in Hth. by apply (Hno (ByHealth true)) in Hth.
    + rewrite (assoc_L (++)) in Heq. apply app_inj_tail in Heq as [-> <-]. set_solver.
  - rewrite Hf. split_and!; [done|case_if; [by right|done]|].
    unfold maxConsecutiveFailures. destruct (Z.leb_spec 3 (failuresInRow hist + 1)) as [Hle|Hlt].
    + split; [|done]. intros _. exists (hist ++ [ByHealth false]), [].
      rewrite app_nil_r. split_and!; [done| |by apply not_elem_of_nil].
      exists hist. by rewrite failuresInRow_snoc.
    + rewrite Hsame; [done|done|]. intros (k & Hk & Hle). rewrite failuresInRow_snoc in Hle.
      simpl in Hle. lia.
  - split_and!; [done|done|]. rewrite Hsame; [done|done|by apply Hno].
  - split_and!; [by rewrite Hf|done|]. rewrite Hsame; [done|done|by apply Hno].
Qed.

(** A server whose health checks all fail but which answers each ping. *)
Lemma pings_hide_failures now n c :
  Status c = "connected" → ConsecutiveFailures c = 0 →
  Status (foldl (recordOutcome now) c (concat (replicate n [ByHealth false; ByKeepAlive true]))) =
    "connected".
Proof.
  revert c. induction n as [|n IH]; intros c Hs Hc; simpl; [done|]. apply IH; simpl.
  - by rewrite Hc.
  - done.
Qed.

(** ** The goroutines come to rest *)

(** One step of some goroutine. *)
Definition goroutine_step (m' m : DynamicConnectionManager) : Prop :=
  ∃ now timer reply i, runNth now timer reply i m = Some m'.

Definition supported (h : gmap nat MCPConnection) (a : nat) : bool :=
  match h !! a with
  | Some c => bool_decide (ConnProtocol c ∈ ["http"; "http-stream"; "sse"])
  | None => false
  end.

Definition errorsOf (h : gmap nat MCPConnection) (a : nat) : Z :=
  match h !! a with Some c => ErrorCount c | None => 0 end.

(** The steps a goroutine has before it; those of connections that cannot be
    opened are counted apart, since their retries are bounded by the error
    count, which a health check can set back. *)
Definition rank (h : gmap nat MCPConnection) (g : Goroutine) : nat :=
  match g with
  | Initialized a (Some _) => if supported h a then 8 else 0
  | Retry a => if supported h a then 7 else 0
  | Initialize a => if supported h a then 6 else 0
  | Initialized _ None => 5
  | CheckHealth _ => 4
  | Checked _ _ => 3
  | SendKeepAlive _ => 2
  | KeptAlive _ _ => 1
  end.

Definition attemptsLeft (h : gmap nat MCPConnection) (a : nat) : nat :=
  Z.to_nat (maxRetries + 1 - errorsOf h a).

Definition retryRank (h : gmap nat MCPConnection) (g : Goroutine) : nat :=
  match g with
  | Initialized a (Some _) => 1 + 3 * attemptsLeft h a
  | Initialize a => 2 + 3 * attemptsLeft h a
  | Retry a => 3 + 3 * attemptsLeft h a
  | _ => 0
  end.

Definition total (f : Goroutine → nat) (l : list Goroutine) : nat := sum_list_with f l.

Lemma total_ranks_app f l k : total f (l ++ k) = (total f l + total f k)%nat.
Proof. apply sum_list_with_app. Qed.

Lemma total_delete f l i g : l !! i = Some g → total f l = (f g + total f (delete i l))%nat.
Proof.
  revert i. induction l as [|x l IH]; intros [|i] Hi; simplify_eq/=; [done|].
  unfold total in *. simpl. rewrite (IH i Hi). simpl. lia.
Qed.

Lemma total_mono f f' l : (∀ g, f g ≤ f' g)%nat → (total f l ≤ total f' l)%nat.
Proof. intros Hf. induction l as [|x l IH]; [done|]. unfold total in *. simpl. specialize (Hf x). lia. Qed.

Lemma total_ext f f' l : (∀ g, f g = f' g) → total f l = total f' l.
Proof. intros Hf. induction l as [|x l IH]; [done|]. unfold total in *. simpl. by rewrite Hf, IH. Qed.

(** A step either uses up rank, or keeps it and uses up retry rank. *)
Definition ranked_step (g : Goroutine) (m m' : DynamicConnectionManager) : Prop :=
  ∃ gs, goroutines m' = goroutines m ++ gs ∧
    (∀ x, rank (heap m') x = rank (heap m) x) ∧
    ((total (rank (heap m)) gs < rank (heap m) g)%nat ∨
     (total (rank (heap m)) gs = rank (heap m) g ∧
      (total (retryRank (heap m')) gs < retryRank (heap m) g)%nat ∧
      ∀ x, (retryRank (heap m') x ≤ retryRank (heap m) x)%nat)).

Lemma rank_supported h h' :
  (∀ a, supported h' a = supported h a) → ∀ x, rank h' x = rank h x.
Proof. intros Hs x. destruct x as [a|a []|a|a|a b|a|a b]; simpl; by rewrite ?Hs. Qed.

Lemma supported_alter h a f :
  (∀ c, ConnProtocol (f c) = ConnProtocol c) → ∀ b, supported (alter f a h) b = supported h b.
Proof.
  intros Hf b. unfold supported. destruct (decide (a = b)) as [->|].
  - rewrite lookup_alter_eq. destruct (h !! b) as [c|]; simpl; [by rewrite Hf|done].
  - by rewrite lookup_alter_ne.
Qed.

Lemma openConnection_spec now c c' err :
  openConnection now c = (c', err) →
  ConnProtocol c' = ConnProtocol c ∧ ErrorCount c' = ErrorCount c ∧
  (err = None ↔ ConnProtocol c ∈ ["http"; "http-stream"; "sse"]).
Proof.
  unfold openConnection. intros H. repeat case_decide; simplify_eq/=;
    (split_and!; [done|done|]); set_solver.
Qed.

Lemma alter_const (h : gmap nat MCPConnection) a c c' b :
  h !! a = Some c → alter (λ _, c') a h !! b = if decide (b = a) then Some c' else h !! b.
Proof.
  intros Hc. case_decide; subst; [by rewrite lookup_alter_eq, Hc|by rewrite lookup_alter_ne].
Qed.

Lemma supported_replace h a c c' :
  h !! a = Some c → ConnProtocol c' = ConnProtocol c →
  ∀ b, supported (alter (λ _, c') a h) b = supported h b.
Proof.
  intros Hc Hp b. unfold supported. rewrite (alter_const _ _ _ _ _ Hc).
  case_decide; [subst; by rewrite Hc, Hp|done].
Qed.

Lemma retryRank_mono h h' :
  (∀ a, errorsOf h a ≤ errorsOf h' a) → ∀ x, (retryRank h' x ≤ retryRank h x)%nat.
Proof.
  intros He x. unfold retryRank, attemptsLeft.
  destruct x as [a|a []|a|a|a b|a|a b]; try specialize (He a); lia.
Qed.

Lemma initialize_ranked now timer reply a m :
  ranked_step (Initialize a) m (runGoroutine now timer reply (Initialize a) m).
Proof.
  simpl. destruct (heap m !! a) as [c|] eqn:Hc.
  2: { exists []. rewrite app_nil_r. split_and!; [done|done|]. right.
       simpl. unfold supported. rewrite Hc. split_and!; [done|lia|done]. }
  destruct (openConnection now c) as [c' err] eqn:Ho.
  apply openConnection_spec in Ho as (Hp & He & Herr).
  exists [Initialized a err]. split; [done|]. split.
  { intros x. simpl. apply rank_supported. by apply (supported_replace _ _ c). }
  assert (∀ b, errorsOf (alter (λ _, c') a (heap m)) b = errorsOf (heap m) b) as Hee.
  { intros b. unfold errorsOf. rewrite (alter_const _ _ _ _ _ Hc).
    case_decide; [subst; by rewrite Hc|done]. }
  destruct err as [e|].
  - assert (supported (heap m) a = false) as Hs.
    { unfold supported. rewrite Hc. apply bool_decide_eq_false. by intros [=]%Herr. }
    right. unfold total. simpl. rewrite Hs. unfold attemptsLeft. simpl. rewrite Hee.
    split_and!; [done|lia|]. intros x. apply retryRank_mono. intros b. by rewrite Hee.
  - assert (supported (heap m) a = true) as Hs.
    { unfold supported. rewrite Hc. apply bool_decide_eq_true. by apply Herr. }
    left. unfold total. simpl. rewrite Hs. lia.
Qed.

Lemma initialized_ranked now timer reply a err m :
  ranked_step (Initialized a err) m (runGoroutine now timer reply (Initialized a err) m).
Proof.
  simpl. destruct (heap m !! a) as [c|] eqn:Hc.
  2: { exists []. rewrite app_nil_r. split_and!; [done|done|]. destruct err as [e|]; simpl; [|left; lia].
       right. unfold supported. rewrite Hc. split_and!; [done|lia|done]. }
  unfold recordOpened. destruct err as [e|]; simpl.
  2: { exists [CheckHealth a]. split; [done|]. split; [|left; unfold total; simpl; lia].
       apply rank_supported. by apply (supported_replace _ _ c). }
  set (c' := setHealth _ _ _ _ c).
  eexists. split; [done|].
  split; [apply rank_supported; by apply (supported_replace _ _ c)|].
  destruct (supported (heap m) a) eqn:Hs.
  { left. simpl. rewrite Hs. destruct (_ <=? _); unfold total; simpl; rewrite ?Hs; lia. }
  right. assert (errorsOf (alter (λ _, c') a (heap m)) a = ErrorCount c + 1) as Hea.
  { unfold errorsOf. rewrite (alter_const _ _ _ _ _ Hc), decide_True by done. done. }
  assert (errorsOf (heap m) a = ErrorCount c) as Heb by (unfold errorsOf; by rewrite Hc).
  simpl. rewrite Hs. destruct (Z.leb_spec (ErrorCount c + 1) maxRetries) as [Hle|Hlt];
    unfold total; simpl; rewrite ?Hs.
  - split_and!; [done| |].
    + unfold attemptsLeft. rewrite Hea, Heb. unfold maxRetries in *. lia.
    + apply retryRank_mono. intros b. unfold errorsOf. rewrite (alter_const _ _ _ _ _ Hc).
      case_decide; [subst; rewrite Hc; simpl; lia|lia].
  - split_and!; [done|lia|]. apply retryRank_mono. intros b. unfold errorsOf.
    rewrite (alter_const _ _ _ _ _ Hc). case_decide; [subst; rewrite Hc; simpl; lia|lia].
Qed.

Lemma runGoroutine_ranked now timer reply g m :
  ranked_step g m (runGoroutine now timer reply g m).
Proof.
  destruct g as [a|a err|a|a|a b|a|a b].
  - apply initialize_ranked.
  - apply initialized_ranked.
  - simpl. destruct (cancelled m && negb timer).
    + exists []. rewrite app_nil_r. split_and!; [done|done|]. simpl.
      destruct (supported (heap m) a) eqn:Hs; [left; unfold total; simpl; lia|].
      right. split_and!; [done|unfold total; simpl; lia|done].
    + exists [Initialize a]. split_and!; [done|done|]. unfold total. simpl.
      destruct (supported (heap m) a) eqn:Hs; [left; lia|]. right. split_and!; [done|lia|done].
  - simpl. destruct (heap m !! a) as [c|].
    + eexists. split_and!; [done|done|]. left. unfold total. simpl. lia.
    + exists []. rewrite app_nil_r. split_and!; [done|done|]. left. unfold total. simpl. lia.
  - exists []. simpl. rewrite app_nil_r. split_and!; [done| |left; unfold total; simpl; lia].
    apply rank_supported, supported_alter. intros c. unfold recordHealth. by destruct b.
  - simpl. destruct (_ && _); [|destruct (_ ≫= _)].
    1, 3: exists []; rewrite app_nil_r; split_and!; [done|done|]; left; unfold total; simpl; lia.
    eexists. split_and!; [done|done|]. left. unfold total. simpl. lia.
  - exists []. simpl. rewrite app_nil_r. split_and!; [done| |left; unfold total; simpl; lia].
    apply rank_supported, supported_alter. intros c. unfold recordKeepAlive. by destruct b.
Qed.

(** C35: the manager's goroutines come to rest.  From every state, whatever its
    connections, when no further event, tick or call arrives, no order of the
    goroutines and no answers of the servers let them go on for ever: retries
    are bounded although a health check sets the error count back. *)
Theorem goroutines_terminate (m : DynamicConnectionManager) : Acc goroutine_step m.
Proof.
  remember (total (rank (heap m)) (goroutines m)) as r eqn:Hr.
  remember (total (retryRank (heap m)) (goroutines m)) as c eqn:Hc.
  revert c m Hr Hc. induction (lt_wf r) as [r _ IHr]. intros c.
  induction (lt_wf c) as [c _ IHc]. intros m -> ->. constructor.
  intros m' (now & timer & reply & i & Hrun). unfold runNth in Hrun.
  destruct (goroutines m !! i) as [g|] eqn:Hg; [|done]. simpl in Hrun.
  injection Hrun as <-. set (m0 := {| heap := heap m; connections := connections m;
    goroutines := delete i (goroutines m); cancelled := cancelled m; muHeld := muHeld m |}).
  destruct (runGoroutine_ranked now timer reply g m0) as (gs & Hgs & Hrank & Hor).
  simpl in Hgs, Hrank, Hor. set (m' := runGoroutine now timer reply g m0) in *.
  assert (total (rank (heap m')) (goroutines m') =
    (total (rank (heap m)) (delete i (goroutines m)) + total (rank (heap m)) gs)%nat) as Htot.
  { rewrite Hgs, total_ranks_app. f_equal; by apply total_ext. }
  pose proof (total_delete (rank (heap m)) _ i g Hg) as Hdel.
  pose proof (total_delete (retryRank (heap m)) _ i g Hg) as Hdel'.
  destruct Hor as [Hlt|(Heq & Hlt & Hle)].
  - assert (total (rank (heap m')) (goroutines m') < total (rank (heap m)) (goroutines m))%nat
      as Hdown by lia.
    by apply (IHr _ Hdown (total (retryRank (heap m')) (goroutines m')) m').
  - assert (total (rank (heap m')) (goroutines m') = total (rank (heap m)) (goroutines m)) as Hsame by lia.
    pose proof (total_mono _ _ (delete i (goroutines m)) Hle) as Hmono.
    assert (total (retryRank (heap m')) (goroutines m') <
      total (retryRank (heap m)) (goroutines m))%nat as Hdown by (rewrite Hgs, total_ranks_app; lia).
    by apply (IHc _ Hdown m').
Qed.

(** ** Discovery and connections together *)

(** What the service discovery knows of a connection. *)
Definition profile (c : MCPConnection) : string * string * string * Z * list string :=
  (ConnName c, ConnEndpoint c, ConnProtocol c, ConnPort c, ConnCapabilities c).


(** The map and the profiles stay. *)
Definition same_profiles (m m' : DynamicConnectionManager) : Prop :=
  connections m' = connections m ∧ ∀ a, profile <$> heap m' !! a = profile <$> heap m !! a.

#[export] Instance same_profiles_preorder : PreOrder same_profiles.
Proof.
  split; [done|]. intros m1 m2 m3 [Hc1 Hp1] [Hc2 Hp2]. split; [congruence|].
  intros a. by rewrite Hp2.
Qed.














Definition System : Type := K8sServiceDiscovery DynamicConnectionManager.



Definition NewSystem : System :=
  {| handlers := [NewDynamicConnectionManager]; services := ∅; running := true |}.






(** ** Scenes *)

Definition scene_service (labels : gmap string string) : Service :=
  {| SvcName := "gh"; SvcNamespace := "matey";
     SvcLabels := <["mcp.matey.ai/role" := "server"]> labels; SvcPorts := [8080];
     SvcType := "ClusterIP" |}.

Definition scene_endpoint (name url protocol : string) : ServiceEndpoint := {|
  Name := name; Namespace := "matey"; URL := url; Endpoint := url; Protocol := protocol; Port := 80;
  Capabilities := []; Labels := ∅; LastDiscovered := 0; HealthStatus := "unknown";
  ServiceType := "ClusterIP" |}.

Definition ok_reply : Reply := HTTPReply 200 (Some ["result"]).

(** Connections of discovered services are never seen, so the removal of stale ones
    removes them; the informer's next resynchronisation then blocks the manager. *)
Lemma cleanup_then_resync_blocks :
  let m := run [(0, Added (scene_endpoint "gh" "u" "http")); (1, Run true ok_reply 0);
                (2, Run true ok_reply 0); (3, Cleanup (60 * minute) ["gh"]);
                (4, Modified (scene_endpoint "gh" "u" "http"))] NewDynamicConnectionManager in
  connections m = ∅ ∧ muHeld m = true ∧ (exec 5 (Get "gh") m).2 = false.
Proof. by vm_compute. Qed.

(** A changed URL is ignored by connections other than plain HTTP ones: the
    handle keeps the old one. *)
Lemma sse_url_not_updated :
  let m := run [(0, Added (scene_endpoint "gh" "old" "sse")); (1, Run true ok_reply 0);
                (2, Run true ok_reply 0); (3, Modified (scene_endpoint "gh" "new" "sse"))]
             NewDynamicConnectionManager in
  (λ ac, (ConnEndpoint ac.2, Status ac.2, BaseURL <$> SSEConnection ac.2)) <$> connectionOf m "gh" =
    Some ("new", "connected", Some "old").
Proof. by vm_compute. Qed.

(** A connection that is closed while it is being initialized ends up connected
    without a handle. *)
Lemma connected_without_handle :
  let m := run [(0, Added (scene_endpoint "gh" "old" "http")); (1, Run true ok_reply 0);
                (2, Modified (scene_endpoint "gh" "new" "http")); (3, Run true ok_reply 0)]
             NewDynamicConnectionManager in
  (λ ac, (Status ac.2, HTTPConnection ac.2)) <$> connectionOf m "gh" = Some ("connected", None) ∧
  (GetConnection 4 "gh" m).2 = Some (Ok 0%nat).
Proof. by vm_compute. Qed.

(** A service that becomes an MCP server by an update blocks the manager. *)
Lemma late_label_blocks :
  muHeld <$> handlers (handleEvents [(0, AddEvent (plain_service "gh" ∅));
    (1, UpdateEvent (scene_service ∅))] NewSystem).1 = [true].
Proof. by vm_compute. Qed.

Theorem deleted_not_served_witness :
  (GetConnection 9 "gh" (run [(2, Run true ok_reply 0); (3, Run true ok_reply 0)]
    (exec 1 (Deleted "gh" "matey")
      (run [(0, Added (scene_endpoint "gh" "u" "http"))] NewDynamicConnectionManager)).1)).2 =
    Some (Err "no connection found for service: gh").
Proof.
  pose proof (deleted_not_served [(0, Added (scene_endpoint "gh" "u" "http"))]
    [(2, Run true ok_reply 0); (3, Run true ok_reply 0)] 1 9 "gh" "matey") as H.
  apply H; [by vm_compute|]. repeat constructor; by intros ?.
Defined.

Definition scene_conn : MCPConnection :=
  setHealth "connected" 0 0 0 (connectionTo 0 (scene_endpoint "gh" "u" "http")).

Theorem unhealthy_iff_witness :
  Status (foldl (recordOutcome 0) scene_conn
    [ByHealth false; ByKeepAlive false; ByHealth false; ByKeepAlive true]) = "unhealthy" ∧
  ∃ pre post, [ByHealth false; ByKeepAlive false; ByHealth false; ByKeepAlive true] = pre ++ post ∧
    thirdFailure pre ∧ ByHealth true ∉ post.
Proof.
  split; [by vm_compute|].
  pose proof (unhealthy_iff 0 [ByHealth false; ByKeepAlive false; ByHealth false; ByKeepAlive true]
    scene_conn eq_refl eq_refl) as (_ & _ & H).
  apply H. by vm_compute.
Defined.



