(* ===== verification/ToolDiscovery.v ===== *)
(** * Tools and the servers that offer them

    internal/server: the cache of tools (tool_cache.go) with the discovery that
    fills it and the lookup that routes a tool to its server
    (tool_discovery.go, and the list of tools of protocol_bridge.go), and the
    collaborators of the proxy that every request meets: request identifiers
    (id_generator.go), statistics of connections (connection_stats.go) and the
    recorder of status codes (proxy_metrics.go).  What a server answers is an
    input.  A cache operation under its mutex is one step; a lookup and a
    discovery are several, among which those of other lookups, of the periodic
    discovery and of reloads may fall ([proxyStep]). *)
From S2P Require Import Prelude GoString GoNum ServiceDiscovery Connections.

#[local] Open Scope Z_scope.

Set Default Proof Using "Type*".

(** ** The tool cache *)

Record ToolCache := {
  tools : gmap string string;
  expiry : Z;
}.

Definition newToolCache : ToolCache := {| tools := ∅; expiry := zeroTime |}.

Definition lookupTool (toolName : string) (c : ToolCache) : option string := tools c !! toolName.

(** Whether the cache is empty, whether it is expired, and its size. *)
Definition state (now : Z) (c : ToolCache) : bool * bool * Z :=
  (bool_decide (size (tools c) = 0%nat), expiry c <? now, Z.of_nat (size (tools c))).

Definition cacheSize (c : ToolCache) : Z := Z.of_nat (size (tools c)).

Definition snapshot (c : ToolCache) : gmap string string := tools c.

Definition replace (now : Z) (fresh : gmap string string) (ttl : Z) (c : ToolCache) : ToolCache :=
  {| tools := fresh; expiry := now + ttl |}.

Definition invalidate (now : Z) (c : ToolCache) : ToolCache := {| tools := ∅; expiry := now |}.

(** ** What a server answers *)

(** A JSON object, as map[string]interface{}. *)
Definition Object : Type := list (string * Value).

Fixpoint get (key : string) (o : Object) : Value :=
  match o with
  | [] => VNil
  | (k, v) :: o => if decide (k = key) then v else get key o
  end.

Definition asObject (v : Value) : option Object := match v with VMap o => Some o | _ => None end.
Definition asSlice (v : Value) : option (list Value) :=
  match v with VSlice l => Some l | _ => None end.
Definition asString (v : Value) : option string := match v with VString s => Some s | _ => None end.

Definition getString (m : Object) (key : string) : string := default "" (asString (get key m)).

Definition getMap (m : Object) (key : string) : Object :=
  default [("type", VString "object"); ("properties", VMap [])] (asObject (get key m)).

Record Tool := { ToolName : string; ToolDescription : string; ToolParameters : Object }.

Definition toolOf (item : Value) : option Tool :=
  toolMap ← asObject item;
  let tool := {| ToolName := getString toolMap "name";
                 ToolDescription := getString toolMap "description";
                 ToolParameters := getMap toolMap "inputSchema" |} in
  if decide (ToolName tool ≠ "") then Some tool else None.

Definition parseToolsFromMCPResponse (response : Object) : res string (list Tool) :=
  match asObject (get "result" response) with
  | None => Err "invalid MCP response format"
  | Some result =>
      match asSlice (get "tools" result) with
      | None => Err "no tools array in response"
      | Some toolsArray => Ok (omap toolOf toolsArray)
      end
  end.

Record ToolSpec := {
  SpecType : string;
  SpecName : string;
  SpecDescription : string;
  Parameters : Object;
}.

Definition noParameters : Object :=
  [("type", VString "object"); ("properties", VMap []); ("required", VSlice [])].

(** A tool without a name is left out, one with an empty name is kept. *)
Definition specOf (serverName : string) (tool : Value) : option ToolSpec :=
  toolMap ← asObject tool;
  name ← asString (get "name" toolMap);
  Some {| SpecType := "function"; SpecName := name;
          SpecDescription := default ("Tool from " +:+ serverName +:+ " server")
                               (asString (get "description" toolMap));
          Parameters := default noParameters (asObject (get "inputSchema" toolMap)) |}.

Section responses.
(** fmt.Sprintf with %v. *)
Context (Sprint : Object → string).

Definition parseToolsResponse (serverName : string) (response : Object) :
    res string (list ToolSpec) :=
  match asObject (get "error" response) with
  | Some errResp => Err ("server returned error: " +:+ Sprint errResp)
  | None =>
      let specs :=
        match asObject (get "result" response) ≫= λ result, asSlice (get "tools" result) with
        | Some tools => omap (specOf serverName) tools
        | None => []
        end in
      if decide (specs = []) then Err "no tools found in response" else Ok specs
  end.

(** ** Discovery with retries *)

Definition maxAttempts : nat := 3.

Definition isRetryable (err : string) : bool :=
  (Contains err "timeout" || Contains err "i/o timeout") ||
  (Contains err "connection refused" || Contains err "no such host").

Definition discoveryFailed : string := "failed to discover tools after 3 attempts".

(** What an attempt comes to: tools, or an error.  [None] is the panic of
    asking the text of a nil error, if a response were parsed to no tools. *)
Definition attemptOutcome (serverName : string) (reply : res string Object) :
    option (res string (list ToolSpec)) :=
  match reply with
  | Err e => Some (Err e)
  | Ok response =>
      match parseToolsResponse serverName response with
      | Ok [] => None
      | Ok specs => Some (Ok specs)
      | Err e => Some (Err e)
      end
  end.

(** [remaining] attempts are left, the first of which is the [attempt]-th;
    [cancelled attempt] tells whether the context ends while waiting after it. *)
Fixpoint discoverLoop (serverName : string) (send : nat → res string Object)
    (cancelled : nat → bool) (remaining attempt : nat) : option (res string (list ToolSpec)) :=
  match remaining with
  | O => Some (Err discoveryFailed)
  | S remaining =>
      outcome ← attemptOutcome serverName (send attempt);
      match outcome with
      | Ok specs => Some (Ok specs)
      | Err e =>
          if negb (Nat.eqb remaining 0) && isRetryable e then
            if cancelled attempt then Some (Err "context canceled")
            else discoverLoop serverName send cancelled remaining (S attempt)
          else Some (Err discoveryFailed)
      end
  end.

(** [conn] is the protocol of the connection, or the error that there is none. *)
Definition discoverServerTools (serverName : string) (conn : res string string)
    (sendSSE sendHTTP : nat → res string Object) (cancelled : nat → bool) :
    option (res string (list ToolSpec)) :=
  match conn with
  | Err e => Some (Err ("server connection " +:+ serverName +:+ " not found: " +:+ e))
  | Ok protocol =>
      let protocol := if decide (protocol = "") then "http" else protocol in
      if decide (protocol = "sse")
      then discoverLoop serverName sendSSE cancelled maxAttempts 1
      else if decide (protocol = "http")
      then discoverLoop serverName sendHTTP cancelled maxAttempts 1
      else if decide (protocol = "stdio")
      then Some (Err ("STDIO transport no longer supported for server " +:+ serverName))
      else Some (Err ("unknown protocol " +:+ protocol +:+ " for server " +:+ serverName))
  end.
End responses.

(** ** The cache and the servers *)

(** The connections, in the order their map is ranged over, and what each
    server answers to a request for its tools. *)
Record World := {
  conns : list (string * MCPConnection);
  ask : string → MCPConnection → res string Object;
}.

Definition notConnected (serverName : string) (conn : MCPConnection) : string :=
  "server " +:+ serverName +:+ " is not connected (status: " +:+ Status conn +:+ ")".

Definition makeToolsListRequest (w : World) (serverName : string) (conn : MCPConnection) :
    res string (list Tool) :=
  if negb (bool_decide (Status conn = "connected")) then Err (notConnected serverName conn)
  else if decide (ConnProtocol conn ∈ ["http"; "http-stream"; "sse"]) then
    match ask w serverName conn with
    | Ok response => parseToolsFromMCPResponse response
    | Err e => Err e
    end
  else Err ("unsupported protocol for tools discovery: " +:+ ConnProtocol conn).

Definition discoverK8sServerTools (w : World) (serverName : string) (conn : MCPConnection) :
    gmap string string :=
  if negb (bool_decide ("tools" ∈ ConnCapabilities conn)) then ∅
  else match makeToolsListRequest w serverName conn with
       | Err _ => ∅
       | Ok actualTools => foldl (λ m tool, <[ToolName tool := serverName]> m) ∅ actualTools
       end.

(** The tools of the connected servers; a later server takes the tools of its
    names over. *)
Definition freshTools (w : World) : gmap string string :=
  foldl (λ m '(serverName, conn),
    if bool_decide (Status conn = "connected")
    then discoverK8sServerTools w serverName conn ∪ m else m) ∅ (conns w).

Definition second : Z := 1000000000.
Definition toolDiscoveryCacheTTL : Z := 600 * second.

(** [conn] is the connection of the server, or the error that there is none. *)
Definition DiscoverServerTools (w : World) (serverName : string) (conn : res string MCPConnection) :
    res string (list Tool) :=
  match conn with
  | Err e => Err ("no connection available for server " +:+ serverName +:+ ": " +:+ e)
  | Ok conn =>
      if negb (bool_decide (Status conn = "connected")) then Err (notConnected serverName conn)
      else match makeToolsListRequest w serverName conn with
           | Err e => Err ("tool discovery failed for " +:+ serverName +:+ ": " +:+ e)
           | Ok tools => Ok tools
           end
  end.

(** *** Lookups, discoveries and reloads at the same time *)

(** One turn of the loop over the connections of [discoverTools]: the status
    of the connection and the server's answer are those of this moment. *)
Definition collectTools (serverName : string) (conn : MCPConnection) (reply : res string Object)
    (freshCache : gmap string string) : gmap string string :=
  if bool_decide (Status conn = "connected")
  then discoverK8sServerTools {| conns := []; ask := λ _ _, reply |} serverName conn ∪ freshCache
  else freshCache.

(** Where a goroutine is: in a discovery, before it has the connections
    ([Refreshing]) or with servers left to ask ([Discovering]), or before the
    lookup that ends [FindServerForTool] ([LookingUp]).  A discovery is either
    on behalf of the lookup of a tool or a periodic one. *)
Inductive Goroutine :=
  | Refreshing (call : option string)
  | Discovering (call : option string) (names : list string) (freshCache : gmap string string)
  | LookingUp (toolName : string).

(** The answers are those that calls of [FindServerForTool] returned. *)
Record ProxyState := {
  toolCache : ToolCache;
  goroutines : gmap nat Goroutine;
  answers : list (nat * string * option string);
}.

Definition newProxyState : ProxyState :=
  {| toolCache := newToolCache; goroutines := ∅; answers := [] |}.

(** [FindServerForTool] up to its first unlock: go on to a discovery or to
    the lookup. *)
Definition FindServerForTool (now : Z) (toolName : string) (c : ToolCache) : Goroutine :=
  let '(cacheEmpty, cacheExpired, _) := state now c in
  if cacheEmpty || cacheExpired then Refreshing (Some toolName) else LookingUp toolName.

(** The steps: goroutine [i] calls [FindServerForTool], or is the discovery
    loop at a tick; it copies the map of connections, to be ranged over in the
    order of [names]; it asks the next server; it replaces the cache; it looks
    the tool up; and a reload of the proxy. *)
Inductive ProxyEvent :=
  | EFind (i : nat) (toolName : string)
  | ETick (i : nat)
  | EConnections (i : nat) (names : list string)
  | EAsk (i : nat) (serverName : string) (conn : MCPConnection) (reply : res string Object)
  | EReplace (i : nat)
  | ELookup (i : nat)
  | EReload.

Definition set_goroutine (i : nat) (g : Goroutine) (p : ProxyState) : ProxyState :=
  {| toolCache := toolCache p; goroutines := <[i := g]> (goroutines p); answers := answers p |}.

(** [None]: the goroutine is not at that step. *)
Definition proxyStep (p : ProxyState) (te : Z * ProxyEvent) : option ProxyState :=
  let now := te.1 in
  match te.2 with
  | EFind i toolName =>
      match goroutines p !! i with
      | None => Some (set_goroutine i (FindServerForTool now toolName (toolCache p)) p)
      | Some _ => None
      end
  | ETick i =>
      match goroutines p !! i with
      | None => Some (set_goroutine i (Refreshing None) p)
      | Some _ => None
      end
  | EConnections i names =>
      match goroutines p !! i with
      | Some (Refreshing call) => Some (set_goroutine i (Discovering call names ∅) p)
      | _ => None
      end
  | EAsk i serverName conn reply =>
      match goroutines p !! i with
      | Some (Discovering call (name :: names) freshCache) =>
          if decide (name = serverName)
          then Some (set_goroutine i
                 (Discovering call names (collectTools serverName conn reply freshCache)) p)
          else None
      | _ => None
      end
  | EReplace i =>
      match goroutines p !! i with
      | Some (Discovering call [] freshCache) =>
          Some {| toolCache := replace now freshCache toolDiscoveryCacheTTL (toolCache p);
                  goroutines := match call with
                                | Some toolName => <[i := LookingUp toolName]> (goroutines p)
                                | None => delete i (goroutines p)
                                end;
                  answers := answers p |}
      | _ => None
      end
  | ELookup i =>
      match goroutines p !! i with
      | Some (LookingUp toolName) =>
          Some {| toolCache := toolCache p; goroutines := delete i (goroutines p);
                  answers := answers p ++ [(i, toolName, lookupTool toolName (toolCache p))] |}
      | _ => None
      end
  | EReload =>
      Some {| toolCache := invalidate now (toolCache p); goroutines := goroutines p;
              answers := answers p |}
  end.

Fixpoint runProxy (events : list (Z * ProxyEvent)) (p : ProxyState) : option ProxyState :=
  match events with
  | [] => Some p
  | e :: events => p ← proxyStep p e; runProxy events p
  end.

(** ** Request identifiers *)

Record idGenerator := { counter : Z }.

Definition nextInt (g : idGenerator) : idGenerator * Z :=
  let n := int64 (counter g + 1) in ({| counter := n |}, n).

Definition nextString (g : idGenerator) : idGenerator * string :=
  let '(g, n) := nextInt g in (g, Itoa n).

(** ** Statistics of connections *)

(** [None] is the zero time. *)
Record ConnectionStats := {
  TotalRequests : Z;
  FailedRequests : Z;
  TimeoutErrors : Z;
  LastError : option Z;
  LastSuccess : option Z;
}.

Definition noStats : ConnectionStats :=
  {| TotalRequests := 0; FailedRequests := 0; TimeoutErrors := 0; LastError := None;
     LastSuccess := None |}.

Definition record (now : Z) (serverName : string) (success : bool)
    (stats : gmap string ConnectionStats) : gmap string ConnectionStats :=
  let s := default noStats (stats !! serverName) in
  <[serverName :=
    if success
    then {| TotalRequests := int64 (TotalRequests s + 1); FailedRequests := FailedRequests s;
            TimeoutErrors := TimeoutErrors s; LastError := LastError s; LastSuccess := Some now |}
    else {| TotalRequests := int64 (TotalRequests s + 1);
            FailedRequests := int64 (FailedRequests s + 1);
            TimeoutErrors := TimeoutErrors s; LastError := Some now;
            LastSuccess := LastSuccess s |}]> stats.

(** ** Status codes *)

(** The response of net/http: the status that was sent, once the header is out,
    and the informational statuses sent before it. *)
Record Response := { sent : option Z; informational : list Z }.

Definition httpWriteHeader (code : Z) (r : Response) : Response :=
  match sent r with
  | Some _ => r
  | None => if (100 <=? code) && (code <=? 199) && negb (code =? 101)
            then {| sent := None; informational := informational r ++ [code] |}
            else {| sent := Some code; informational := informational r |}
  end.

(** Writing a body, or flushing, sends the header if it is not sent yet. *)
Definition httpBody (r : Response) : Response :=
  {| sent := Some (default 200 (sent r)); informational := informational r |}.

Record statusRecorder := {
  response : Response;
  status : Z;
  wroteHeader : bool;
}.

Definition newStatusRecorder (w : Response) : statusRecorder :=
  {| response := w; status := 200; wroteHeader := false |}.

Definition WriteHeader (code : Z) (s : statusRecorder) : statusRecorder :=
  if wroteHeader s then s
  else {| response := httpWriteHeader code (response s); status := code; wroteHeader := true |}.

Definition Write (s : statusRecorder) : statusRecorder :=
  {| response := httpBody (response s); status := status s; wroteHeader := true |}.

Definition Flush (s : statusRecorder) : statusRecorder :=
  {| response := httpBody (response s); status := status s; wroteHeader := wroteHeader s |}.

(** ** Who serves a tool *)

(** The names in the list of tools of a server. *)
Definition offers (w : World) (serverName : string) (conn : MCPConnection) (toolName : string) :
    Prop :=
  Status conn = "connected" ∧ "tools" ∈ ConnCapabilities conn ∧
  ∃ l, makeToolsListRequest w serverName conn = Ok l ∧ toolName ∈ ToolName <$> l.

Lemma foldl_insert_names (l : list Tool) serverName (m : gmap string string) toolName :
  foldl (λ m tool, <[ToolName tool := serverName]> m) m l !! toolName =
  if decide (toolName ∈ ToolName <$> l) then Some serverName else m !! toolName.
Proof.
  revert m. induction l as [|t l IH]; intros m; [by rewrite decide_False by set_solver|].
  cbn [foldl]. rewrite IH, fmap_cons. destruct (decide (toolName ∈ ToolName <$> l)).
  - rewrite decide_True; [done|]. apply elem_of_cons. auto.
  - destruct (decide (toolName = ToolName t)) as [->|Hne].
    + rewrite lookup_insert_eq, decide_True; [done|]. apply elem_of_cons. auto.
    + rewrite lookup_insert_ne, decide_False; [done| |done]. by intros [?|?]%elem_of_cons.
Qed.

Lemma discoverK8sServerTools_lookup w serverName conn toolName s :
  Status conn = "connected" →
  discoverK8sServerTools w serverName conn !! toolName = Some s ↔
  s = serverName ∧ offers w serverName conn toolName.
Proof.
  intros Hc. unfold discoverK8sServerTools, offers. case_bool_decide; simpl.
  - destruct (makeToolsListRequest w serverName conn) as [l|]; [|rewrite lookup_empty; naive_solver].
    rewrite foldl_insert_names, lookup_empty. case_decide; naive_solver.
  - rewrite lookup_empty. naive_solver.
Qed.

(** The map that a pass over connections leaves. *)
Definition collect (w : World) (l : list (string * MCPConnection)) (m : gmap string string) :
    gmap string string :=
  foldl (λ m '(serverName, conn),
    if bool_decide (Status conn = "connected")
    then discoverK8sServerTools w serverName conn ∪ m else m) m l.

Lemma collect_lookup w l m toolName s :
  collect w l m !! toolName = Some s ↔
  (∃ before conn after, l = before ++ (s, conn) :: after ∧ offers w s conn toolName ∧
     Forall (λ p, ¬ offers w p.1 p.2 toolName) after) ∨
  (Forall (λ p, ¬ offers w p.1 p.2 toolName) l ∧ m !! toolName = Some s).
Proof.
  revert m. induction l as [|[n conn] l IH]; intros m.
  { split; [by auto|]. intros [([] & ? & ? & ? & _)|[_ ?]]; done. }
  change (collect w ((n, conn) :: l) m) with (collect w l
    (if bool_decide (Status conn = "connected") then discoverK8sServerTools w n conn ∪ m else m)).
  rewrite IH. clear IH.
  assert ((if bool_decide (Status conn = "connected") then discoverK8sServerTools w n conn ∪ m else m)
      !! toolName = Some s ↔
    (s = n ∧ offers w n conn toolName) ∨ (¬ offers w n conn toolName ∧ m !! toolName = Some s)) as ->.
  { case_bool_decide as Hs.
    - rewrite lookup_union_Some_raw, discoverK8sServerTools_lookup by done.
      rewrite eq_None_not_Some. split; (intros [?|[Hn ?]]; [by left|right; split; [|done]]).
      + intros Ho. apply Hn. exists n. by apply discoverK8sServerTools_lookup.
      + intros [s' [-> Ho]%discoverK8sServerTools_lookup]; done.
    - split; [|by intros [[_ [? _]]|[_ ?]]]. intros ?. right. split; [|done]. by intros [? _]. }
  split.
  - intros [(before & c & after & -> & Ho & Ha)|[Hl [[-> Ho]|[Hn Hm]]]].
    + left. by exists ((n, conn) :: before), c, after.
    + left. by exists [], conn, l.
    + right. split; [by constructor|done].
  - intros [([|p before] & c & after & Heq & Ho & Ha)|[[Hn Hl]%Forall_cons Hm]].
    + simplify_eq/=. right. split; [done|by left].
    + simplify_eq/=. left. by exists before, c, after.
    + right. split; [done|]. by right.
Qed.

(** C14: a discovery routes a tool to the last connected server, in the order
    of the map, that has the tools capability and lists the tool; it routes no
    other tool; and where only one server offers a tool, the order of the map
    is of no account. *)
Theorem freshTools_spec w toolName :
  (∀ s, freshTools w !! toolName = Some s ↔
     ∃ before conn after, conns w = before ++ (s, conn) :: after ∧ offers w s conn toolName ∧
       Forall (λ p, ¬ offers w p.1 p.2 toolName) after) ∧
  ∀ order, order ≡ₚ conns w →
    (∀ s s' c c', (s, c) ∈ conns w → (s', c') ∈ conns w →
       offers w s c toolName → offers w s' c' toolName → s = s') →
    freshTools {| conns := order; ask := ask w |} !! toolName = freshTools w !! toolName.
Proof.
  assert (∀ w' s, freshTools w' !! toolName = Some s ↔
     ∃ before conn after, conns w' = before ++ (s, conn) :: after ∧ offers w' s conn toolName ∧
       Forall (λ p, ¬ offers w' p.1 p.2 toolName) after) as Hs.
  { intros w' s. change (freshTools w') with (collect w' (conns w') ∅).
    rewrite collect_lookup, lookup_empty. naive_solver. }
  split; [apply Hs|]. intros order Ho Huniq.
  assert (∀ w' s, freshTools w' !! toolName = Some s →
    ∃ c, (s, c) ∈ conns w' ∧ offers w' s c toolName) as Hin.
  { intros w' s (before & c & after & -> & ? & _)%Hs. exists c. set_solver. }
  assert (∀ w' s c, (s, c) ∈ conns w' → offers w' s c toolName →
    is_Some (freshTools w' !! toolName)) as Hsome.
  { intros w' s c Hc Hof. apply not_eq_None_Some. intros Hno.
    change (freshTools w') with (collect w' (conns w') ∅) in Hno.
    assert (∀ l m, (s, c) ∈ l → collect w' l m !! toolName = None → False) as Hl; [|by eapply Hl].
    clear Hno Hc. intros l. induction l as [|[n c'] l IH] using rev_ind; [set_solver|].
    intros m Hin' Hnone. unfold collect in Hnone. rewrite foldl_app in Hnone. simpl in Hnone.
    rewrite elem_of_app in Hin'. destruct Hin' as [Hin'|Hin'].
    - apply (IH m Hin'). case_bool_decide; [|done]. by apply lookup_union_None in Hnone as [_ ?].
    - apply list_elem_of_singleton in Hin'. injection Hin' as <- <-.
      rewrite bool_decide_true in Hnone by apply Hof.
      apply lookup_union_None in Hnone as [Hnone _].
      assert (discoverK8sServerTools w' s c !! toolName = Some s) as Hd
        by (by apply discoverK8sServerTools_lookup; [apply Hof|]). congruence. }
  set (w' := {| conns := order; ask := ask w |}).
  destruct (freshTools w !! toolName) as [s|] eqn:Hw.
  - destruct (Hin w s Hw) as (c & Hc & Hof).
    destruct (Hsome w' s c) as [s' Hs']; [by rewrite <-Ho in Hc|done|].
    destruct (Hin w' s' Hs') as (c' & Hc' & Hof'). rewrite Hs'. f_equal. symmetry.
    eapply (Huniq s s' c c'); [done| |done|done]. by rewrite <-Ho.
  - apply eq_None_not_Some. intros [s' Hs']. destruct (Hin w' s' Hs') as (c' & Hc' & Hof').
    destruct (Hsome w s' c') as [? ?]; [by rewrite <-Ho|done|congruence].
Qed.

(** ** How old an answer may be *)

Definition writesCache (e : ProxyEvent) : bool :=
  match e with EReplace _ | EReload => true | _ => false end.

Definition starts (i : nat) (e : ProxyEvent) : bool :=
  match e with EFind k _ | ETick k => bool_decide (k = i) | _ => false end.

Definition begins (i : nat) (e : ProxyEvent) : bool :=
  match e with EConnections k _ => bool_decide (k = i) | _ => false end.

(** The servers that goroutine [i] asked, and what they answered. *)
Definition asksOf (i : nat) (events : list (Z * ProxyEvent)) :
    list (string * MCPConnection * res string Object) :=
  omap (λ te, match te.2 with
              | EAsk k serverName conn reply =>
                  if decide (k = i) then Some (serverName, conn, reply) else None
              | _ => None
              end) events.

Definition collected (asks : list (string * MCPConnection * res string Object)) : gmap string string :=
  foldl (λ m '(serverName, conn, reply), collectTools serverName conn reply m) ∅ asks.

(** No event of [events] is one of those that [f] tells. *)
Definition without (f : ProxyEvent → bool) (events : list (Z * ProxyEvent)) : Prop :=
  Forall (λ te, f te.2 = false) events.

Lemma without_snoc f events e :
  without f (events ++ [e]) ↔ without f events ∧ f e.2 = false.
Proof. unfold without. by rewrite Forall_app, Forall_singleton. Qed.

Definition isDiscovering (g : Goroutine) : bool :=
  match g with Discovering _ _ _ => true | _ => false end.

(** Nobody is between the copy of the connections and the replacement. *)
Definition quiet (p : ProxyState) : Prop :=
  ∀ k g, goroutines p !! k = Some g → isDiscovering g = false.

(** Goroutine [i] copied the connections, has asked servers since, and has
    the servers [left] to ask. *)
Definition discovery (i : nat) (events : list (Z * ProxyEvent)) (left : list string)
    (freshCache : gmap string string) : Prop :=
  ∃ t names asked, events = (t, EConnections i names) :: asked ∧ without (begins i) asked ∧
    names = (asksOf i asked).*1.*1 ++ left ∧ freshCache = collected (asksOf i asked).

Lemma runProxy_app es1 es2 p :
  runProxy (es1 ++ es2) p = (q ← runProxy es1 p; runProxy es2 q).
Proof.
  revert p. induction es1 as [|e es1 IH]; intros p; [done|]. simpl.
  destruct (proxyStep p e); simpl; [apply IH|done].
Qed.

Lemma runProxy_snoc es e p q :
  runProxy (es ++ [e]) p = Some q ↔ ∃ r, runProxy es p = Some r ∧ proxyStep r e = Some q.
Proof.
  rewrite runProxy_app. destruct (runProxy es p) as [r|]; simpl; [|by split; [|intros (? & ? & _)]].
  split; [|by intros (r' & [= <-] & ->)].
  destruct (proxyStep r e) as [q'|] eqn:Hs; [intros [= <-]; eauto|done].
Qed.

Lemma asksOf_snoc i es e :
  asksOf i (es ++ [e]) = asksOf i es ++
    match e.2 with
    | EAsk k serverName conn reply => if decide (k = i) then [(serverName, conn, reply)] else []
    | _ => []
    end.
Proof.
  unfold asksOf. rewrite omap_app. simpl. destruct e as [t []]; try done. simpl. by case_decide.
Qed.

(** The last step that wrote the cache was a replacement, at [t], by the
    discovery that found [freshCache]. *)
Definition installed (es : list (Z * ProxyEvent)) (t : Z) (freshCache : gmap string string) : Prop :=
  ∃ a d k b, es = (a ++ d) ++ (t, EReplace k) :: b ∧ without writesCache b ∧
    discovery k d [] freshCache.

(** The last step that wrote the cache was a reload. *)
Definition emptied (es : list (Z * ProxyEvent)) (fresh : gmap string string) : Prop :=
  fresh = ∅ ∧ ∃ a t b, es = a ++ (t, EReload) :: b ∧ without writesCache b.

Lemma installed_snoc es t fresh e :
  installed es t fresh → writesCache e.2 = false → installed (es ++ [e]) t fresh.
Proof.
  intros (a & d & k & b & -> & Hb & Hd) He. exists a, d, k, (b ++ [e]).
  split_and!; [by rewrite <-!app_assoc|by apply without_snoc|done].
Qed.

Lemma emptied_snoc es fresh e :
  emptied es fresh → writesCache e.2 = false → emptied (es ++ [e]) fresh.
Proof.
  intros (-> & a & t & b & -> & Hb) He. split; [done|]. exists a, t, (b ++ [e]).
  split; [by rewrite <-app_assoc|by apply without_snoc].
Qed.

(** What a lookup that began at [t0] may take its answer from. *)
Definition usable (es since : list (Z * ProxyEvent)) (t0 : Z) (fresh : gmap string string) : Prop :=
  emptied since fresh ∨ ∃ t, installed es t fresh ∧ t0 ≤ t + toolDiscoveryCacheTTL.

Definition callOf (g : Goroutine) : option string :=
  match g with
  | Refreshing call | Discovering call _ _ => call
  | LookingUp toolName => Some toolName
  end.

Record proxy_inv (es : list (Z * ProxyEvent)) (p : ProxyState) : Prop := {
  pi_cache : tools (toolCache p) = ∅ ∨
    ∃ t, installed es t (tools (toolCache p)) ∧ expiry (toolCache p) = t + toolDiscoveryCacheTTL;
  pi_discovering : ∀ k call names fresh,
    goroutines p !! k = Some (Discovering call names fresh) →
    ∃ a d, es = a ++ d ∧ discovery k d names fresh;
  pi_called : ∀ k g toolName, goroutines p !! k = Some g → callOf g = Some toolName →
    ∃ a t0 b, es = a ++ (t0, EFind k toolName) :: b ∧ without (starts k) b ∧
      (g = LookingUp toolName → usable es b t0 (tools (toolCache p)));
}.

Lemma proxy_inv_new : proxy_inv [] newProxyState.
Proof. split; [by left|done|done]. Qed.

(** A discovery goes on while others step. *)
Lemma discovery_snoc k d names fresh e :
  discovery k d names fresh → begins k e.2 = false →
  (∀ serverName conn reply, e.2 ≠ EAsk k serverName conn reply) →
  discovery k (d ++ [e]) names fresh.
Proof.
  intros (t & names0 & x & -> & Hx & -> & ->) Hb Ha. exists t, ((asksOf k x).*1.*1 ++ names), (x ++ [e]).
  assert (asksOf k (x ++ [e]) = asksOf k x) as ->.
  { rewrite asksOf_snoc. destruct e as [t' []]; simpl in *; rewrite ?app_nil_r; try done.
    rewrite decide_False; [by rewrite app_nil_r|]. intros ->. by eapply Ha. }
  split_and!; [done|by apply without_snoc|done..].
Qed.

Lemma discovery_ask k d name names fresh now conn reply :
  discovery k d (name :: names) fresh →
  discovery k (d ++ [(now, EAsk k name conn reply)]) names (collectTools name conn reply fresh).
Proof.
  intros (t & names0 & x & -> & Hx & -> & ->).
  exists t, ((asksOf k x).*1.*1 ++ name :: names), (x ++ [(now, EAsk k name conn reply)]).
  rewrite asksOf_snoc. simpl. rewrite decide_True by done.
  split_and!; [done|by apply without_snoc| |].
  - rewrite !fmap_app. simpl. by rewrite <-app_assoc.
  - unfold collected. by rewrite foldl_app.
Qed.

(** A goroutine of the next state is one that did not step, or the one that
    stepped, whose state is new. *)
Lemma proxyStep_goroutines p e p' k g :
  proxyStep p e = Some p' → goroutines p' !! k = Some g →
  goroutines p !! k = Some g ∧ starts k e.2 = false ∧ begins k e.2 = false ∧
    (∀ s c r, e.2 ≠ EAsk k s c r) ∨
  match e.2 with
  | EFind i toolName => k = i ∧ g = FindServerForTool e.1 toolName (toolCache p)
  | ETick i => k = i ∧ g = Refreshing None
  | EConnections i names => k = i ∧ ∃ call, goroutines p !! i = Some (Refreshing call) ∧
      g = Discovering call names ∅
  | EAsk i s c r => k = i ∧ ∃ call names fresh,
      goroutines p !! i = Some (Discovering call (s :: names) fresh) ∧
      g = Discovering call names (collectTools s c r fresh)
  | EReplace i => k = i ∧ ∃ toolName fresh,
      goroutines p !! i = Some (Discovering (Some toolName) [] fresh) ∧ g = LookingUp toolName
  | ELookup _ | EReload => False
  end.
Proof.
  destruct e as [now e]. intros Hs Hg. unfold proxyStep in Hs. simpl in *.
  destruct e as [i tool|i|i names|i s c r|i|i|]; simpl in *; repeat case_match; simplify_eq/=;
    try (destruct (decide (k = i)) as [->|Hne];
      [rewrite ?lookup_insert_eq, ?lookup_delete_eq in Hg; simplify_eq/=; try (right; naive_solver)
      |rewrite ?lookup_insert_ne, ?lookup_delete_ne in Hg by done; left;
       rewrite ?bool_decide_false by congruence; split_and!; [done..|congruence]]).
  left. by split_and!.
Qed.

(** What a step does to the cache. *)
Lemma proxyStep_cache p e p' :
  proxyStep p e = Some p' →
  match e.2 with
  | EReplace i => ∃ call fresh, goroutines p !! i = Some (Discovering call [] fresh) ∧
      toolCache p' = replace e.1 fresh toolDiscoveryCacheTTL (toolCache p)
  | EReload => toolCache p' = invalidate e.1 (toolCache p)
  | _ => toolCache p' = toolCache p
  end.
Proof.
  destruct e as [now e]. intros Hs. unfold proxyStep in Hs. simpl in *.
  destruct e; simpl in *; repeat case_match; simplify_eq/=; eauto.
Qed.

Lemma discovery_begins k t names : discovery k [(t, EConnections k names)] names ∅.
Proof. exists t, names, []. by split_and!; [|constructor|..]. Qed.

(** The cache after a step, and what a lookup that began before may take. *)
Lemma usable_step es p e p' since t0 :
  proxy_inv es p → proxyStep p e = Some p' → t0 ≤ e.1 →
  (writesCache e.2 = false → usable es since t0 (tools (toolCache p))) →
  usable (es ++ [e]) (since ++ [e]) t0 (tools (toolCache p')).
Proof.
  intros Hi Hs Ht Hu.
  assert (writesCache e.2 = false → toolCache p' = toolCache p →
    usable (es ++ [e]) (since ++ [e]) t0 (tools (toolCache p'))) as Hkeep.
  { intros Hw ->. destruct (Hu Hw) as [He|(t & Hin & Ht')]; [left; by apply emptied_snoc|].
    right. exists t. split; [by apply installed_snoc|done]. }
  apply proxyStep_cache in Hs. destruct e as [now []]; simpl in *; try by apply Hkeep.
  - destruct Hs as (call & fresh & Hg & ->). right. exists now.
    apply (pi_discovering _ _ Hi) in Hg as (a & d & -> & Hd). split.
    + exists a, d, i, []. by split_and!; [|constructor|].
    + unfold toolDiscoveryCacheTTL, second. lia.
  - rewrite Hs. left. split; [done|]. exists since, now, []. by split; [|constructor].
Qed.

Lemma proxy_inv_cache es p e p' :
  proxy_inv es p → proxyStep p e = Some p' →
  tools (toolCache p') = ∅ ∨
  ∃ t, installed (es ++ [e]) t (tools (toolCache p')) ∧
    expiry (toolCache p') = t + toolDiscoveryCacheTTL.
Proof.
  intros Hi Hs. apply proxyStep_cache in Hs.
  assert (writesCache e.2 = false → tools (toolCache p) = ∅ ∨
    ∃ t, installed (es ++ [e]) t (tools (toolCache p)) ∧
      expiry (toolCache p) = t + toolDiscoveryCacheTTL) as Hkeep.
  { intros Hw. destruct (pi_cache _ _ Hi) as [?|(t & ? & ?)]; [by left|right].
    exists t. split; [by apply installed_snoc|done]. }
  destruct e as [now []]; simpl in *; rewrite ?Hs; auto.
  destruct Hs as (call & fresh & Hg & ->). right. exists now. split; [|done].
  apply (pi_discovering _ _ Hi) in Hg as (a & d & -> & Hd).
  exists a, d, i, []. by split_and!; [|constructor|].
Qed.

Lemma proxy_inv_step es p e p' :
  Forall (λ te, te.1 ≤ e.1) es → proxy_inv es p → proxyStep p e = Some p' →
  proxy_inv (es ++ [e]) p'.
Proof.
  intros Ht Hi Hs. split; [by eapply proxy_inv_cache|..].
  - intros k call names fresh Hg.
    destruct (proxyStep_goroutines _ _ _ _ _ Hs Hg) as [(Hg' & _ & Hb & Ha)|Hg'].
    + apply (pi_discovering _ _ Hi) in Hg' as (a & d & -> & Hd).
      exists a, (d ++ [e]). split; [by rewrite <-app_assoc|]. by apply discovery_snoc.
    + destruct e as [now []]; simpl in *; try done.
      * destruct Hg' as [_ Hf]. unfold FindServerForTool in Hf. by repeat case_match.
      * by destruct Hg'.
      * destruct Hg' as (-> & call' & _ & [= -> -> ->]). exists es, [(now, EConnections i names0)].
        split; [done|]. apply discovery_begins.
      * destruct Hg' as (-> & call' & names' & fresh' & Hg' & [= -> -> ->]).
        apply (pi_discovering _ _ Hi) in Hg' as (a & d & -> & Hd).
        exists a, (d ++ [(now, EAsk i serverName conn reply)]).
        split; [by rewrite <-app_assoc|]. by apply discovery_ask.
      * destruct Hg' as (_ & ? & ? & _ & ?). done.
  - intros k g toolName Hg Hcall.
    assert (∀ a t0 b, es = a ++ (t0, EFind k toolName) :: b → without (starts k) b →
      starts k e.2 = false →
      (g = LookingUp toolName → writesCache e.2 = false → usable es b t0 (tools (toolCache p))) →
      ∃ a t0 b, es ++ [e] = a ++ (t0, EFind k toolName) :: b ∧ without (starts k) b ∧
        (g = LookingUp toolName → usable (es ++ [e]) b t0 (tools (toolCache p')))) as Hkeep.
    { intros a t0 b Heq Hb He Hu. exists a, t0, (b ++ [e]).
      split_and!; [by rewrite Heq, <-app_assoc|by apply without_snoc|]. intros Hl.
      apply usable_step with p; [done..| |auto].
      rewrite Forall_forall in Ht. apply (Ht (t0, EFind k toolName)). rewrite Heq. set_solver. }
    destruct (proxyStep_goroutines _ _ _ _ _ Hs Hg) as [(Hg' & Hst & _ & _)|Hg'].
    + destruct (pi_called _ _ Hi k g toolName Hg' Hcall) as (a & t0 & b & Heq & Hb & Hu).
      apply (Hkeep a t0 b); auto.
    + destruct e as [now []]; simpl in *; try done.
      * destruct Hg' as [-> ->]. apply proxyStep_cache in Hs. simpl in Hs. rewrite Hs.
        assert (toolName0 = toolName) as ->.
        { unfold FindServerForTool in Hcall. by repeat case_match; simplify_eq/=. }
        exists es, now, []. split_and!; [done|constructor|].
        unfold FindServerForTool, state.
        destruct (bool_decide_reflect (size (tools (toolCache p)) = 0%nat)) as [|Hsize]; [done|].
        destruct (Z.ltb_spec (expiry (toolCache p)) now) as [|Hexp]; [done|]. intros _.
        destruct (pi_cache _ _ Hi) as [Hc|(t & Hin & Hx)]; [by rewrite Hc in Hsize|].
        right. exists t. rewrite <-Hx. split; [by apply installed_snoc|done].
      * by destruct Hg' as [_ ->].
      * destruct Hg' as (-> & call & Hg' & ->). simpl in Hcall. subst call.
        destruct (pi_called _ _ Hi i _ toolName Hg' eq_refl) as (a & t0 & b & Heq & Hb & _).
        by apply (Hkeep a t0 b).
      * destruct Hg' as (-> & call & names & fresh & Hg' & ->). simpl in Hcall. subst call.
        destruct (pi_called _ _ Hi i _ toolName Hg' eq_refl) as (a & t0 & b & Heq & Hb & _).
        by apply (Hkeep a t0 b).
      * destruct Hg' as (-> & tool & fresh & Hg' & ->). simpl in Hcall. simplify_eq.
        destruct (pi_called _ _ Hi i _ toolName Hg' eq_refl) as (a & t0 & b & Heq & Hb & _).
        by apply (Hkeep a t0 b).
Qed.

Lemma runProxy_inv es p :
  StronglySorted Z.le es.*1 → runProxy es newProxyState = Some p → proxy_inv es p.
Proof.
  revert p. induction es as [|e es IH] using rev_ind; intros p Hs Hr.
  { injection Hr as <-. apply proxy_inv_new. }
  apply runProxy_snoc in Hr as (q & Hq & Hstep).
  rewrite fmap_app, StronglySorted_app in Hs. destruct Hs as (Hle & Hsorted & _).
  eapply proxy_inv_step; [|by eapply IH|done].
  apply Forall_forall. intros te Hin.
  apply Hle; [by apply list_elem_of_fmap_2|by apply list_elem_of_singleton].
Qed.

(** Without copying the connections anew, nobody comes to be in a discovery. *)
Lemma not_discovering k es : ∀ p p',
  (∀ g, goroutines p !! k = Some g → isDiscovering g = false) →
  without (begins k) es → runProxy es p = Some p' →
  ∀ g, goroutines p' !! k = Some g → isDiscovering g = false.
Proof.
  induction es as [|e es IH]; intros p p' Hp Hb Hr; [by injection Hr as <-|].
  simpl in Hr. destruct (proxyStep p e) as [q|] eqn:Hs; [|done].
  apply Forall_cons in Hb as [He Hb]. apply (IH q p'); [|done..].
  intros g Hg. destruct (proxyStep_goroutines _ _ _ _ _ Hs Hg) as [(Hg' & _)|Hg']; [by apply Hp|].
  destruct e as [now []]; simpl in *; try done.
  - destruct Hg' as [_ ->]. unfold FindServerForTool. by repeat case_match.
  - by destruct Hg' as [_ ->].
  - destruct Hg' as [-> _]. by rewrite bool_decide_true in He.
  - destruct Hg' as (-> & call & names & fresh & Hg' & _). by apply Hp in Hg'.
  - by destruct Hg' as (_ & ? & ? & _ & ->).
Qed.

(** A discovery that replaces the cache began after every reload that found
    nobody in a discovery. *)
Lemma discovery_after_reload x t y a d k tk b p fresh :
  x ++ (t, EReload) :: y = (a ++ d) ++ (tk, EReplace k) :: b → without writesCache b →
  discovery k d [] fresh → runProxy (x ++ (t, EReload) :: y) newProxyState = Some p →
  (∀ q, runProxy x newProxyState = Some q → quiet q) →
  x ++ [(t, EReload)] `prefix_of` a.
Proof.
  intros Heq Hb (tc & names & asked & -> & Hbeg & _) Hr Hq. rewrite Heq, runProxy_app in Hr.
  destruct (runProxy (a ++ _) newProxyState) as [pr|] eqn:Hpr; [|done].
  simpl in Hr. destruct (proxyStep pr (tk, EReplace k)) as [pr'|] eqn:Hk; [|done].
  assert (∃ call fresh, goroutines pr !! k = Some (Discovering call [] fresh)) as (call & fr & Hg).
  { apply proxyStep_cache in Hk as (call & fr & ? & _). eauto. }
  apply app_eq_inv in Heq as [(u & Hu & Hv)|(u & Hu & Hv)].
  - exfalso. destruct u as [|r u]; [done|]. injection Hv as <- ->.
    unfold without in Hb. rewrite Forall_app, Forall_cons in Hb. by destruct Hb as (_ & ? & _).
  - destruct u as [|r u]; [done|]. injection Hv as <- Hv.
    apply app_eq_inv in Hu as [(v & -> & Hv')|(v & -> & Hv')].
    + destruct v as [|r v]; [done|]. injection Hv' as <- _.
      exists v. by rewrite <-app_assoc.
    + exfalso. destruct v as [|c v]; [done|]. injection Hv' as <- ->.
      rewrite app_comm_cons, app_assoc, runProxy_app in Hpr.
      destruct (runProxy (a ++ _) newProxyState) as [q|] eqn:Hqq; [|done].
      apply Forall_app in Hbeg as [_ Hbeg].
      assert (isDiscovering (Discovering call [] fr) = false); [|done].
      eapply (not_discovering k _ q pr); [|exact Hbeg|exact Hpr|exact Hg].
      intros g. apply (Hq q eq_refl).
Qed.

(** C15: lookups, periodic discoveries and reloads of the proxy run at the
    same time, each a sequence of separately locked steps.  The answer of a
    lookup that began (read the state of the cache) at [t0] comes from the last
    step that wrote the cache: either a reload that emptied it after the lookup
    had begun, and then the tool is not found, whatever the servers offer; or
    the replacement that ended some discovery, at the earliest ten minutes
    before [t0], and then the answer is what that discovery collected from the
    servers it asked one after the other.  That discovery began after every
    reload during which no discovery was under way; one that was under way
    may install, after the reload, what it collected before
    ([reload_overtaken]).  The clock does not go back. *)
Theorem lookup_fresh events now i p :
  StronglySorted Z.le events.*1 →
  runProxy (events ++ [(now, ELookup i)]) newProxyState = Some p →
  ∃ toolName answer before t0 since,
    last (answers p) = Some (i, toolName, answer) ∧
    events = before ++ (t0, EFind i toolName) :: since ∧ without (starts i) since ∧
    ((∃ x t y, since = x ++ (t, EReload) :: y ∧ without writesCache y ∧ answer = None) ∨
     ∃ a begin names asked k t y,
       events = (a ++ (begin, EConnections k names) :: asked) ++ (t, EReplace k) :: y ∧
       without writesCache y ∧ without (begins k) asked ∧
       t0 ≤ t + toolDiscoveryCacheTTL ∧
       names = (asksOf k asked).*1.*1 ∧ answer = collected (asksOf k asked) !! toolName ∧
       ∀ x tr z, events = x ++ (tr, EReload) :: z →
         (∀ q, runProxy x newProxyState = Some q → quiet q) →
         x ++ [(tr, EReload)] `prefix_of` a).
Proof.
  intros Hs Hr. apply runProxy_snoc in Hr as (q & Hq & Hstep).
  pose proof (runProxy_inv _ _ Hs Hq) as Hi. unfold proxyStep in Hstep. simpl in Hstep.
  destruct (goroutines q !! i) as [[| |toolName]|] eqn:Hg; [done..| |done].
  injection Hstep as <-. simpl. rewrite last_snoc.
  destruct (pi_called _ _ Hi i _ toolName Hg eq_refl) as (a & t0 & b & Heq & Hb & Hu).
  exists toolName, (lookupTool toolName (toolCache q)), a, t0, b. split_and!; [done..|].
  unfold lookupTool. destruct (Hu eq_refl) as [[He (x & t & y & -> & Hy)]|(t & Hin & Ht)].
  - left. exists x, t, y. split_and!; [done..|]. by rewrite He, lookup_empty.
  - right. destruct Hin as (a' & d & k & y & Hev & Hy & Hd).
    pose proof Hd as (begin & names & asked & -> & Hbeg & Hn & Hc). rewrite app_nil_r in Hn.
    exists a', begin, names, asked, k, t, y. rewrite Hc. split_and!; [done..|].
    intros x tr z Hx Hquiet. rewrite Hx in Hev, Hq. by eapply discovery_after_reload.
Qed.

(** A discovery during which the servers' answers do not change collects
    [freshTools]. *)
Lemma collected_freshTools w :
  collected ((λ '(serverName, conn), (serverName, conn, ask w serverName conn)) <$> conns w) =
  freshTools w.
Proof.
  unfold collected, freshTools. generalize (∅ : gmap string string) as m.
  induction (conns w) as [|[n c] l IH]; intros m; [done|]. simpl. apply IH.
Qed.

(** While no server offers a tool, nothing is cached: every lookup asks every
    server again. *)
Lemma empty_world_always_asked now toolName c :
  tools c = ∅ → FindServerForTool now toolName c = Refreshing (Some toolName).
Proof. intros Hc. unfold FindServerForTool, state. by rewrite Hc, map_size_empty. Qed.

(** ** Retries *)

Section retries.
Context (Sprint : Object → string) (serverName : string).
Context (send : nat → res string Object) (cancelled : nat → bool).

Lemma parseToolsResponse_nonempty response : parseToolsResponse Sprint serverName response ≠ Ok [].
Proof. unfold parseToolsResponse. case_match; [done|]. case_decide; [done|]. congruence. Qed.

(** What the response to an attempt comes to. *)
Definition outcomeOf (k : nat) : res string (list ToolSpec) :=
  send k ≫= parseToolsResponse Sprint serverName.

Lemma attemptOutcome_total k : attemptOutcome Sprint serverName (send k) = Some (outcomeOf k).
Proof.
  unfold attemptOutcome, outcomeOf. destruct (send k) as [response|e]; simpl; [|done].
  pose proof (parseToolsResponse_nonempty response).
  by destruct (parseToolsResponse Sprint serverName response) as [[|]|].
Qed.

(** A failure that is retried. *)
Definition goesOn (k : nat) : Prop :=
  ∃ e, outcomeOf k = Err e ∧ isRetryable e = true ∧ cancelled k = false.

Lemma discoverLoop_spec remaining attempt :
  ∃ r, discoverLoop Sprint serverName send cancelled remaining attempt = Some r ∧
  ∀ specs, r = Ok specs ↔ ∃ k, (attempt ≤ k < attempt + remaining)%nat ∧
    outcomeOf k = Ok specs ∧ ∀ j, (attempt ≤ j < k)%nat → goesOn j.
Proof.
  revert attempt. induction remaining as [|remaining IH]; intros attempt; simpl.
  { eexists. split; [done|]. intros specs. split; [done|]. intros (k & ? & _). lia. }
  rewrite attemptOutcome_total. simpl. destruct (outcomeOf attempt) as [specs|e] eqn:Ho.
  { eexists. split; [done|]. intros specs'. split.
    - intros [= <-]. exists attempt. split; [lia|]. split; [done|lia].
    - intros (k & Hk & Hs & Hj). destruct (decide (k = attempt)) as [->|]; [congruence|].
      destruct (Hj attempt) as (e & ? & _); [lia|congruence]. }
  assert (∀ r : res string (list ToolSpec), ¬ (goesOn attempt ∧ remaining ≠ 0%nat) →
    (∀ specs, r ≠ Ok specs) → ∀ specs, r = Ok specs ↔
    ∃ k, (attempt ≤ k < attempt + S remaining)%nat ∧ outcomeOf k = Ok specs ∧
      ∀ j, (attempt ≤ j < k)%nat → goesOn j) as Hstop.
  { intros r Hno Hr specs. split; [by intros ?%Hr|]. intros (k & Hk & Hs & Hj).
    destruct (decide (k = attempt)) as [->|]; [congruence|].
    destruct Hno. split; [apply Hj; lia|lia]. }
  destruct (Nat.eqb_spec remaining 0) as [->|Hrem]; simpl.
  { eexists. split; [done|]. apply Hstop; [tauto|done]. }
  destruct (isRetryable e) eqn:Hre; [destruct (cancelled attempt) eqn:Hca|].
  - eexists. split; [done|]. apply Hstop; [|done]. intros [(e' & ? & ? & ?) _]. congruence.
  - destruct (IH (S attempt)) as (r & -> & Hr). exists r. split; [done|]. intros specs. rewrite Hr.
    assert (goesOn attempt) as Hg by (by exists e).
    split; intros (k & Hk & Hs & Hj); exists k.
    + split; [lia|]. split; [done|]. intros j Hj'. destruct (decide (j = attempt)) as [->|]; [done|].
      apply Hj. lia.
    + assert (k ≠ attempt) by (intros ->; congruence). split; [lia|]. split; [done|].
      intros j ?. apply Hj. lia.
  - eexists. split; [done|]. apply Hstop; [|done]. intros [(e' & ? & ? & ?) _]. congruence.
Qed.

(** The loop over the transport that a protocol chooses. *)
Lemma discoverLoop_transport (P : (nat → res string Object) → Prop) :
  (∀ s, P s ↔ s = send) →
  ∃ r, discoverLoop Sprint serverName send cancelled maxAttempts 1 = Some r ∧
  ∀ specs, r = Ok specs ↔ ∃ s k, P s ∧ (1 ≤ k ≤ 3)%nat ∧
    s k ≫= parseToolsResponse Sprint serverName = Ok specs ∧
    ∀ j, (1 ≤ j < k)%nat → ∃ e, s j ≫= parseToolsResponse Sprint serverName = Err e ∧
      isRetryable e = true ∧ cancelled j = false.
Proof.
  intros HP. destruct (discoverLoop_spec maxAttempts 1) as (r & Hr & Hspec). exists r.
  split; [done|]. intros specs. rewrite Hspec. unfold maxAttempts. split.
  - intros (k & ? & ? & ?). exists send, k. rewrite HP. split; [done|]. split; [lia|done].
  - intros (s & k & ->%HP & ? & ? & ?). exists k. split; [lia|done].
Qed.
End retries.

(** The discovery of a server's tools never panics, and it succeeds, over
    HTTP and event streams alike, exactly if one of three attempts is answered
    with tools after attempts that all failed in a way that is retried and
    whose waits were not cancelled; the tools are those of that attempt.  It
    fails for every other protocol, streamable HTTP included. *)
Theorem discoverServerTools_spec Sprint serverName conn sendSSE sendHTTP cancelled :
  ∃ r, discoverServerTools Sprint serverName conn sendSSE sendHTTP cancelled = Some r ∧
  ∀ specs, r = Ok specs ↔ ∃ send k,
    (conn = Ok "sse" ∧ send = sendSSE ∨ (conn = Ok "http" ∨ conn = Ok "") ∧ send = sendHTTP) ∧
    (1 ≤ k ≤ 3)%nat ∧ outcomeOf Sprint serverName send k = Ok specs ∧
    ∀ j, (1 ≤ j < k)%nat → goesOn Sprint serverName send cancelled j.
Proof.
  unfold discoverServerTools. destruct conn as [protocol|e].
  2: { eexists. split; [done|]. intros specs. split; [done|]. intros (s & k & Hc & _). naive_solver. }
  destruct (decide (protocol = "")) as [->|Hne];
    [|destruct (decide (protocol = "sse")) as [->|]; [|destruct (decide (protocol = "http")) as [->|]]];
    repeat first [rewrite decide_True by done | rewrite decide_False by done].
  1-3: apply discoverLoop_transport; intros s; naive_solver.
  case_decide; (eexists; split; [done|]; intros specs; split; [done|]; intros (s & k & Hc & _); naive_solver).
Qed.

(** ** The two readers of a list of tools *)

(** The cache and the OpenAPI pages read the same tools from an answer: the
    names of the one are those of the other without the empty ones, and where
    the one sees a list without tools that have a name, the other sees none. *)
Theorem readers_agree Sprint serverName response l :
  asObject (get "error" response) = None →
  parseToolsFromMCPResponse response = Ok l →
  ToolName <$> l = filter (λ n, n ≠ "")
    match parseToolsResponse Sprint serverName response with
    | Ok specs => SpecName <$> specs
    | Err _ => []
    end.
Proof.
  intros He. unfold parseToolsFromMCPResponse, parseToolsResponse. rewrite He.
  destruct (asObject (get "result" response)) as [result|]; [|done]. simpl.
  destruct (asSlice (get "tools" result)) as [items|]; [|done]. intros [= <-].
  assert (ToolName <$> omap toolOf items =
    filter (λ n, n ≠ "") (SpecName <$> omap (specOf serverName) items)) as ->.
  { induction items as [|v items IH]; [done|]. simpl. unfold toolOf at 1, specOf at 1.
    destruct (asObject v) as [o|]; simpl; [|done].
    destruct (asString (get "name" o)) as [n|] eqn:Hname;
      (assert (getString o "name" = default "" (asString (get "name" o))) as Hn by done);
      rewrite Hname in Hn; simpl in Hn |- *; destruct (decide (getString o "name" ≠ "")) as [Hd|Hd];
      simpl; try (by rewrite Hn in Hd).
    - rewrite Hn in Hd |- *. rewrite filter_cons_True by done. f_equal. exact IH.
    - rewrite Hn in Hd. rewrite filter_cons_False by done. exact IH. }
  by case_decide as Hs; [rewrite Hs|].
Qed.

(** ** Request identifiers *)

Fixpoint takeIds (n : nat) (g : idGenerator) : list Z :=
  match n with O => [] | S n => let '(g, i) := nextInt g in i :: takeIds n g end.

(** The first 2^63 - 1 identifiers are 1, 2, 3 and so on, and the texts
    of them are distinct. *)
Theorem ids_distinct n :
  Z.of_nat n ≤ MaxInt →
  takeIds n {| counter := 0 |} = Z.of_nat <$> seq 1 n ∧
  NoDup (Itoa <$> takeIds n {| counter := 0 |}).
Proof.
  intros Hn.
  assert (∀ m k, Z.of_nat (k + m) ≤ MaxInt →
    takeIds m {| counter := Z.of_nat k |} = Z.of_nat <$> seq (S k) m) as Hseq.
  { induction m as [|m IH]; intros k Hk; [done|]. simpl.
    rewrite int64_id by (unfold in_int64, MaxInt in *; lia). f_equal; [lia|].
    replace (Z.of_nat k + 1) with (Z.of_nat (S k)) by lia. apply IH. lia. }
  change 0 with (Z.of_nat 0). rewrite (Hseq n 0%nat) by lia. split; [done|].
  rewrite <-list_fmap_compose. apply NoDup_fmap_2; [|apply NoDup_seq].
  intros a b. unfold compose. intros Hab%(inj Itoa). lia.
Qed.

(** ** Statistics *)

(** After any requests, fewer than 2^63, the statistics of a server are
    the numbers of its requests and of those that failed; the number of timeouts
    is zero whatever failed. *)
Theorem stats_count (requests : list (Z * string * bool)) serverName :
  Z.of_nat (length requests) ≤ MaxInt →
  let stats := foldl (λ m '(now, n, ok), record now n ok m) ∅ requests in
  let own := filter (λ q, q.1.2 = serverName) requests in
  let s := default noStats (stats !! serverName) in
  TotalRequests s = len own ∧ FailedRequests s = len (filter (λ q, q.2 = false) own) ∧
  TimeoutErrors s = 0 ∧
  LastSuccess s = (λ q, q.1.1) <$> last (filter (λ q, q.2 = true) own) ∧
  LastError s = (λ q, q.1.1) <$> last (filter (λ q, q.2 = false) own).
Proof.
  induction requests as [|[[now n] ok] requests IH] using rev_ind; intros Hlen; [done|].
  rewrite length_app in Hlen. simpl in Hlen. cbv zeta in *. rewrite foldl_app, filter_app. cbn [foldl].
  destruct IH as (Ht & Hf & Ho & Hs & He); [lia|].
  set (m := foldl _ ∅ requests) in *. set (own := filter _ requests) in *.
  assert (0 ≤ len own ≤ len requests) as Hown
    by (unfold len, own; pose proof (length_filter (λ q : Z * string * bool, q.1.2 = serverName) requests); lia).
  assert (0 ≤ len (filter (λ q, q.2 = false) own) ≤ len own) as Hfail
    by (unfold len; pose proof (length_filter (λ q : Z * string * bool, q.2 = false) own); lia).
  unfold record. rewrite filter_cons. simpl. destruct (decide (n = serverName)) as [->|Hne].
  2: { rewrite lookup_insert_ne by done. simpl. by rewrite app_nil_r. }
  rewrite lookup_insert_eq, !filter_app. unfold len in *. destruct ok; simpl;
    rewrite ?filter_cons, ?app_nil_r, ?length_app, ?last_snoc; simpl;
    rewrite ?app_nil_r, ?last_snoc, ?Ht, ?Hf, ?int64_id by (unfold in_int64, MaxInt in *; lia);
    simpl; split_and!; try done; rewrite ?length_app; simpl; try lia;
    [exact (eq_sym (f_equal _ (last_snoc (now, serverName, true) _)))
    |exact (eq_sym (f_equal _ (last_snoc (now, serverName, false) _)))].
Qed.

(** ** Status codes *)

Inductive WriterOp := OpHeader (code : Z) | OpWrite | OpFlush.

Definition writerStep (s : statusRecorder) (o : WriterOp) : statusRecorder :=
  match o with OpHeader code => WriteHeader code s | OpWrite => Write s | OpFlush => Flush s end.

Definition serveWriter (ops : list WriterOp) : statusRecorder :=
  foldl writerStep (newStatusRecorder {| sent := None; informational := [] |}) ops.

(** What the client gets in the end: a handler that wrote nothing sends 200. *)
Definition clientStatus (s : statusRecorder) : Z := default 200 (sent (response s)).

Definition informationalCode (code : Z) : Prop := 100 ≤ code ≤ 199 ∧ code ≠ 101.

(** No informational status, and no flush before the first header or body. *)
Definition plainWriter (ops : list WriterOp) : Prop :=
  match ops with
  | [] => True
  | OpHeader code :: _ => ¬ informationalCode code
  | OpWrite :: _ => True
  | OpFlush :: _ => False
  end.

Lemma writer_done ops s :
  wroteHeader s = true → sent (response s) = Some (status s) →
  let s' := foldl writerStep s ops in status s' = status s ∧ sent (response s') = Some (status s).
Proof.
  revert s. induction ops as [|o ops IH]; intros s Hw Hs; [done|]. simpl.
  assert (wroteHeader (writerStep s o) = true ∧ status (writerStep s o) = status s ∧
    sent (response (writerStep s o)) = Some (status s)) as (Hw' & Hst & Hs').
  { destruct o; simpl; [|by rewrite Hs..]. unfold WriteHeader. by rewrite Hw. }
  rewrite <-Hst. apply IH; [done|]. by rewrite Hst.
Qed.

(** The status that the metrics record is the one the client gets,
    whatever a handler writes and in whatever order, as long as it does not
    begin with an informational status or a flush. *)
Theorem recorded_status ops :
  plainWriter ops → status (serveWriter ops) = clientStatus (serveWriter ops).
Proof.
  destruct ops as [|o ops]; [done|]. intros Hp. unfold serveWriter, clientStatus. cbn [foldl].
  assert (let s := writerStep (newStatusRecorder {| sent := None; informational := [] |}) o in
    wroteHeader s = true ∧ sent (response s) = Some (status s)) as [Hw Hs].
  { destruct o as [code| |]; [|done|done]. split; [done|]. simpl in *.
    unfold httpWriteHeader, informationalCode in *. simpl.
    destruct (Z.leb_spec 100 code), (Z.leb_spec code 199), (Z.eqb_spec code 101); simpl; done || lia. }
  by destruct (writer_done ops _ Hw Hs) as [-> ->].
Qed.

(** ** Examples *)

Module ToolExamples.

Definition connected (name protocol : string) : string * MCPConnection :=
  (name, {| ConnName := name; ConnEndpoint := ""; ConnProtocol := protocol; ConnPort := 80;
            ConnCapabilities := ["tools"]; Status := "connected"; LastSeen := 0;
            HTTPConnection := None; SSEConnection := None; StreamableHTTPConnection := None;
            LastUsed := 0; ErrorCount := 0; ConsecutiveFailures := 0; LastKeepAlive := 0 |}).

Definition toolsAnswer (names : list string) : Object :=
  [("result", VMap [("tools", VSlice ((λ n, VMap [("name", VString n)]) <$> names))])].

(** Server a offers read and write, server b offers write. *)
Definition answersOf (serverName : string) (conn : MCPConnection) : res string Object :=
  if decide (serverName = "a") then Ok (toolsAnswer ["read"; "write"])
  else if decide (serverName = "b") then Ok (toolsAnswer ["write"]) else Err "connection refused".

Definition world (order : list string) : World :=
  {| conns := (λ n, connected n "http") <$> order; ask := answersOf |}.

(** A tool that two servers offer goes to either of them, as the map happens to
    be ranged over. *)
Lemma shared_tool_order :
  freshTools (world ["a"; "b"]) !! "write" = Some "b" ∧
  freshTools (world ["b"; "a"]) !! "write" = Some "a".
Proof. split; vm_compute; reflexivity. Qed.

Lemma freshTools_spec_witness :
  freshTools {| conns := conns (world ["c"; "a"]); ask := answersOf |} !! "read" =
    freshTools (world ["a"; "c"]) !! "read" ∧ freshTools (world ["a"; "c"]) !! "read" = Some "a".
Proof.
  split; [|vm_compute; reflexivity].
  apply (freshTools_spec (world ["a"; "c"]) "read"); [apply perm_swap|].
  assert (∀ s c, (s, c) ∈ conns (world ["a"; "c"]) → offers (world ["a"; "c"]) s c "read" → s = "a")
    as Ha; [|intros s s' c c' H1 H2 H3 H4; by rewrite (Ha s c H1 H3), (Ha s' c' H2 H4)].
  intros s c Hin (_ & _ & l & Hl & _). simpl in Hin.
  apply elem_of_cons in Hin as [[= -> ->]|Hin]; [done|].
  apply list_elem_of_singleton in Hin as [= -> ->]. vm_compute in Hl. discriminate Hl.
Defined.

(** Goroutine [i] looks up a tool, asking the servers of [names] on the way. *)
Definition discoverAs (i : nat) (t : Z) (names : list string) : list (Z * ProxyEvent) :=
  (t, EConnections i names) ::
  ((λ n, (t, EAsk i n (connected n "http").2 (answersOf n (connected n "http").2))) <$> names) ++
  [(t, EReplace i)].

Definition lookUpAs (i : nat) (toolName : string) (t : Z) (names : list string) :
    list (Z * ProxyEvent) :=
  (t, EFind i toolName) :: discoverAs i t names ++ [(t, ELookup i)].

Definition answersAfter (events : list (Z * ProxyEvent)) : option (list (nat * string * option string)) :=
  answers <$> runProxy events newProxyState.

(** A lookup within the ten minutes does not see that the server is gone, one
    after them does. *)
Lemma lookup_stale :
  answersAfter (lookUpAs 1 "read" 0 ["a"] ++
    [(599 * second, EFind 2 "read"); (599 * second, ELookup 2)]) =
    Some [(1%nat, "read", Some "a"); (2%nat, "read", Some "a")] ∧
  answersAfter (lookUpAs 1 "read" 0 ["a"] ++ lookUpAs 2 "read" (601 * second) []) =
    Some [(1%nat, "read", Some "a"); (2%nat, "read", None)].
Proof. split; vm_compute; reflexivity. Qed.

(** A periodic discovery asks the only server; the server is taken down and the
    proxy reloaded; the discovery then installs what it collected, and a
    lookup that begins a second after the reload finds the tool at the server
    that is gone, without asking anybody. *)
Lemma reload_overtaken :
  answersAfter (((0, ETick 1) :: take 2 (discoverAs 1 0 ["a"])) ++
    [(5 * second, EReload); (6 * second, EReplace 1);
     (6 * second, EFind 2 "read"); (6 * second, ELookup 2)]) =
  Some [(2%nat, "read", Some "a")].
Proof. vm_compute. reflexivity. Qed.

(** A reload between the discovery of a lookup and its last step: the tool is
    not found, although the only server offers it throughout. *)
Lemma reload_between :
  answersAfter ((0, EFind 1 "read") :: discoverAs 1 0 ["a"] ++
    [(1 * second, EReload); (1 * second, ELookup 1)]) =
  Some [(1%nat, "read", None)].
Proof. vm_compute. reflexivity. Qed.

(** The lookup of a tool after a reload: the discovery that answers it began
    after the reload. *)
Lemma lookup_fresh_witness :
  let events := ((0, EReload) :: (1, EFind 1 "read") :: discoverAs 1 2 ["a"]) in
  ∃ toolName answer before t0 since,
    Some (1%nat, "read", Some "a") = Some (1%nat, toolName, answer) ∧
    events = before ++ (t0, EFind 1 toolName) :: since ∧ without (starts 1) since ∧
    ((∃ x t y, since = x ++ (t, EReload) :: y ∧ without writesCache y ∧ answer = None) ∨
     ∃ a begin names asked k t y,
       events = (a ++ (begin, EConnections k names) :: asked) ++ (t, EReplace k) :: y ∧
       without writesCache y ∧ without (begins k) asked ∧
       t0 ≤ t + toolDiscoveryCacheTTL ∧
       names = (asksOf k asked).*1.*1 ∧ answer = collected (asksOf k asked) !! toolName ∧
       ∀ x tr z, events = x ++ (tr, EReload) :: z →
         (∀ q, runProxy x newProxyState = Some q → quiet q) →
         x ++ [(tr, EReload)] `prefix_of` a).
Proof.
  intros events.
  destruct (runProxy (events ++ [(3, ELookup 1)]) newProxyState) as [p|] eqn:Hr;
    [|vm_compute in Hr; discriminate Hr].
  assert (last (answers p) = Some (1%nat, "read", Some "a")) as <-.
  { vm_compute in Hr. injection Hr as <-. reflexivity. }
  apply (lookup_fresh events 3 1 p); [|exact Hr].
  unfold events, discoverAs. simpl. repeat constructor; lia.
Defined.

Definition noSprint (o : Object) : string := "map[]".

(** The third attempt succeeds after two time-outs, and a refusal by the server
    itself is not retried. *)
Lemma third_attempt :
  discoverServerTools noSprint "a" (Ok "") (λ _, Err "") 
    (λ k, if Nat.eqb k 3 then Ok (toolsAnswer ["read"]) else Err "i/o timeout") (λ _, false) =
  Some (Ok [{| SpecType := "function"; SpecName := "read"; SpecDescription := "Tool from a server";
               Parameters := noParameters |}]) ∧
  discoverServerTools noSprint "a" (Ok "http") (λ _, Err "")
    (λ k, if Nat.eqb k 1 then Ok [("error", VMap [])] else Ok (toolsAnswer ["read"])) (λ _, false) =
  Some (Err discoveryFailed).
Proof. split; vm_compute; reflexivity. Qed.

Lemma readers_agree_witness :
  ToolName <$> [{| ToolName := "read"; ToolDescription := ""; ToolParameters := getMap [] "" |}] =
  filter (λ n, n ≠ "") ["read"; ""].
Proof.
  rewrite (readers_agree noSprint "a" (toolsAnswer ["read"; ""])); vm_compute; reflexivity.
Defined.

Lemma ids_distinct_witness : takeIds 3 {| counter := 0 |} = [1; 2; 3].
Proof. rewrite (proj1 (ids_distinct 3 ltac:(vm_compute; discriminate))). reflexivity. Defined.

Lemma stats_count_witness :
  let stats := foldl (λ m '(now, n, ok), record now n ok m) ∅
    [(5, "a", true); (6, "b", false); (7, "a", false)] in
  TotalRequests (default noStats (stats !! "a")) = 2 ∧ TimeoutErrors (default noStats (stats !! "a")) = 0.
Proof.
  destruct (stats_count [(5, "a", true); (6, "b", false); (7, "a", false)] "a") as (Ht & _ & Ho & _).
  - vm_compute. discriminate.
  - split; [exact Ht|exact Ho].
Defined.

Lemma recorded_status_witness :
  status (serveWriter [OpHeader 404; OpWrite; OpHeader 500; OpFlush]) =
    clientStatus (serveWriter [OpHeader 404; OpWrite; OpHeader 500; OpFlush]).
Proof. apply recorded_status. simpl. unfold informationalCode. lia. Defined.

(** A flush sends 200, which the recorder does not know: a status written after
    it is recorded and never sent. *)
Lemma flush_hides_status :
  status (serveWriter [OpFlush; OpHeader 500]) = 500 ∧
  clientStatus (serveWriter [OpFlush; OpHeader 500]) = 200.
Proof. done. Qed.

(** After an informational status the recorder swallows the real one: the
    client gets 200. *)
Lemma informational_swallows :
  status (serveWriter [OpHeader 103; OpHeader 404]) = 103 ∧
  clientStatus (serveWriter [OpHeader 103; OpHeader 404]) = 200.
Proof. done. Qed.

End ToolExamples.
