(* ===== verification/MemoryGraph.v ===== *)
(** * The knowledge graph of the memory service

    internal/memory/memory_store.go over the tables that the migrations of
    internal/memory/migrations.go create.  A statement is a function on the tables,
    with the constraints and cascades of the schema; a call to the database can
    fail at any point, and a commit can fail without it being known whether it took
    effect.  The operations are proved to refine those of an abstract graph,
    all or nothing.  One transaction runs at a time. *)
From S2P Require Import Prelude GoString.

Set Default Proof Using "Type*".

(** ** Tables *)

Record EntityRow := {
  row_name : string;
  row_type : string;
  row_created : Z;
  row_updated : Z;
}.

Record ObservationRow := {
  row_entity : nat;
  row_content : string;
  row_observed : Z;
}.

Record RelationRow := {
  row_from : nat;
  row_to : nat;
  row_relation : string;
  row_related : Z;
}.

(** The rows by their serial keys, and the next key of each table's sequence. *)
Record Tables := {
  entities : gmap nat EntityRow;
  observations : gmap nat ObservationRow;
  relations : gmap nat RelationRow;
}.

Record Sequences := { entitySeq : nat; observationSeq : nat; relationSeq : nat }.

Definition noTables : Tables := {| entities := ∅; observations := ∅; relations := ∅ |}.

Record Entity := {
  Name : string;
  EntityType : string;
  Observations : list string;
  CreatedAt : Z;
  UpdatedAt : Z;
}.

Record Relation := { From : string; To : string; RelationType : string; RelatedAt : Z }.

Record KnowledgeGraph := { Entities : list Entity; Relations : list Relation }.

(** ** Statements *)

Definition findKey {A} (p : A → bool) (m : gmap nat A) : option nat :=
  head (filter (λ kr : nat * A, p kr.2 = true) (map_to_list m)).*1.

Definition entityKey (name : string) (t : Tables) : option nat :=
  findKey (λ r, String.eqb (row_name r) name) (entities t).

(** INSERT INTO entities ... ON CONFLICT (name) DO UPDATE; a conflict uses up a key. *)
Definition upsertEntity (now : Z) (name entityType : string) (q : Sequences) (t : Tables) : Tables :=
  match entityKey name t with
  | Some k =>
      {| entities := alter (λ r, {| row_name := row_name r; row_type := entityType;
           row_created := row_created r; row_updated := now |}) k (entities t);
         observations := observations t; relations := relations t |}
  | None =>
      {| entities := <[entitySeq q := {| row_name := name; row_type := entityType;
           row_created := now; row_updated := now |}]> (entities t);
         observations := observations t; relations := relations t |}
  end.

Definition sameObservation (k : nat) (content : string) (r : ObservationRow) : bool :=
  (row_entity r =? k)%nat && String.eqb (row_content r) content.

(** INSERT INTO observations ... ON CONFLICT (entity_id, content) DO NOTHING *)
Definition insertObservation (now : Z) (k : nat) (content : string) (q : Sequences) (t : Tables) :
    Tables :=
  match findKey (sameObservation k content) (observations t) with
  | Some _ => t
  | None =>
      {| entities := entities t;
         observations := <[observationSeq q := {| row_entity := k; row_content := content;
           row_observed := now |}]> (observations t);
         relations := relations t |}
  end.

Definition sameRelation (from to : nat) (relationType : string) (r : RelationRow) : bool :=
  (row_from r =? from)%nat && (row_to r =? to)%nat && String.eqb (row_relation r) relationType.

(** INSERT INTO relations ... ON CONFLICT DO NOTHING *)
Definition insertRelation (now : Z) (from to : nat) (relationType : string) (q : Sequences)
    (t : Tables) : Tables :=
  match findKey (sameRelation from to relationType) (relations t) with
  | Some _ => t
  | None =>
      {| entities := entities t; observations := observations t;
         relations := <[relationSeq q := {| row_from := from; row_to := to;
           row_relation := relationType; row_related := now |}]> (relations t) |}
  end.

Definition keepRows {A} (p : A → bool) (m : gmap nat A) : gmap nat A :=
  filter (λ kr : nat * A, p kr.2 = true) m.

(** DELETE FROM entities WHERE name IN (...), with the cascades of the foreign keys. *)
Definition deleteEntityRows (names : list string) (t : Tables) : Tables :=
  let left := keepRows (λ r, negb (bool_decide (row_name r ∈ names))) (entities t) in
  let exists_ k := bool_decide (is_Some (left !! k)) in
  {| entities := left;
     observations := keepRows (λ r, exists_ (row_entity r)) (observations t);
     relations := keepRows (λ r, exists_ (row_from r) && exists_ (row_to r)) (relations t) |}.

Definition deleteObservationRow (k : nat) (content : string) (t : Tables) : Tables :=
  {| entities := entities t;
     observations := keepRows (λ r, negb (sameObservation k content r)) (observations t);
     relations := relations t |}.

Definition deleteRelationRow (from to : nat) (relationType : string) (t : Tables) : Tables :=
  {| entities := entities t; observations := observations t;
     relations := keepRows (λ r, negb (sameRelation from to relationType r)) (relations t) |}.

(** UPDATE entities SET updated_at = now() WHERE id = $1 *)
Definition touchEntity (now : Z) (k : nat) (t : Tables) : Tables :=
  {| entities := alter (λ r, {| row_name := row_name r; row_type := row_type r;
       row_created := row_created r; row_updated := now |}) k (entities t);
     observations := observations t; relations := relations t |}.

(** ** Transactions *)

(** A database error carries the texts it was wrapped in, outermost first. *)
Inductive Error :=
  | EntityNotFound (name : string)
  | EmptyName
  | EmptyEntityType (name : string)
  | EmptyRelationType (from to : string)
  | DatabaseFailed (context : list string) (cause : string).

Record TxState := { tables : Tables; sequences : Sequences; calls : nat }.

Definition Tx (A : Type) : Type := TxState → TxState * res Error A.

#[export] Instance tx_ret : MRet Tx := λ A a s, (s, Ok a).
#[export] Instance tx_bind : MBind Tx := λ A B f m s,
  let '(s', r) := m s in match r with Ok a => f a s' | Err e => (s', Err e) end.

Definition throw {A} (e : Error) : Tx A := λ s, (s, Err e).

Fixpoint each {A} (f : A → Tx unit) (l : list A) : Tx unit :=
  match l with
  | [] => mret tt
  | x :: rest => _ ← f x; each f rest
  end.

Section store.
(** Whether the n-th call to the database fails, with the text of the error, and
    whether a commit that fails took effect. *)
Context (fault : nat → option string) (committedAnyway : nat → bool).

(** A call, its effect on tables and sequences, and its result. *)
Definition call {A} (context : list string) (f : Tables → Sequences → Tables * Sequences * A) : Tx A := λ s,
  match fault (calls s) with
  | Some e =>
      ({| tables := tables s; sequences := sequences s; calls := S (calls s) |},
       Err (DatabaseFailed context e))
  | None =>
      let '(t, q, a) := f (tables s) (sequences s) in
      ({| tables := t; sequences := q; calls := S (calls s) |}, Ok a)
  end.

Definition exec (what : string) (f : Tables → Tables) : Tx unit :=
  call [what] (λ t q, (f t, q, tt)).

(** [fmt.Errorf("what: %w", err)] around the error of [m]. *)
Definition during {A} (what : string) (m : Tx A) : Tx A := λ s,
  let '(s', r) := m s in
  (s', match r with
       | Err (DatabaseFailed context e) => Err (DatabaseFailed (what :: context) e)
       | _ => r
       end).

Definition lookupEntityID (name : string) : Tx nat :=
  found ← call ["failed to look up entity " +:+ name] (λ t q, (t, q, entityKey name t));
  match found with Some k => mret k | None => throw (EntityNotFound name) end.

(** Begin, the body, and a commit or a rollback; sequences are not rolled back. *)
Definition transaction (body : Tx unit) : Tx unit := λ s,
  match exec "failed to begin transaction" id s with
  | (s0, Err e) => (s0, Err e)
  | (s0, Ok _) =>
      match body s0 with
      | (s1, Err e) =>
          ({| tables := tables s; sequences := sequences s1; calls := S (calls s1) |}, Err e)
      | (s1, Ok _) =>
          match fault (calls s1) with
          | None => ({| tables := tables s1; sequences := sequences s1; calls := S (calls s1) |}, Ok tt)
          | Some e =>
              ({| tables := if committedAnyway (calls s1) then tables s1 else tables s;
                  sequences := sequences s1; calls := S (S (calls s1)) |},
               Err (DatabaseFailed ["failed to commit transaction"] e))
          end
      end
  end.

Definition nextEntity (q : Sequences) : Sequences :=
  {| entitySeq := S (entitySeq q); observationSeq := observationSeq q; relationSeq := relationSeq q |}.
Definition nextObservation (q : Sequences) : Sequences :=
  {| entitySeq := entitySeq q; observationSeq := S (observationSeq q); relationSeq := relationSeq q |}.
Definition nextRelation (q : Sequences) : Sequences :=
  {| entitySeq := entitySeq q; observationSeq := observationSeq q; relationSeq := S (relationSeq q) |}.

(** ** Operations *)

Definition addObservation (now : Z) (name : string) (k : nat) (content : string) : Tx unit :=
  call ["failed to insert observation for entity " +:+ name]
    (λ t q, (insertObservation now k content q t, nextObservation q, tt)).

(** The bodies of the loops over entities, observations and relations. *)
Definition createEntity (now : Z) (entity : Entity) : Tx unit :=
  if decide (Name entity = "") then throw EmptyName
  else if decide (EntityType entity = "") then throw (EmptyEntityType (Name entity))
  else
    _ ← call ["failed to insert entity " +:+ Name entity]
          (λ t q, (upsertEntity now (Name entity) (EntityType entity) q t, nextEntity q, tt));
    k ← lookupEntityID (Name entity);
    each (addObservation now (Name entity) k) (Observations entity).

Definition CreateEntities (now : Z) (l : list Entity) : Tx unit :=
  match l with [] => mret tt | _ => transaction (each (createEntity now) l) end.

Definition DeleteEntities (names : list string) : Tx unit :=
  match names with
  | [] => mret tt
  | _ => transaction (exec "failed to delete entities" (deleteEntityRows names))
  end.

Definition observe (now : Z) (nc : string * list string) : Tx unit :=
  k ← lookupEntityID nc.1;
  _ ← each (addObservation now nc.1 k) nc.2;
  exec ("failed to update entity timestamp " +:+ nc.1) (touchEntity now k).

(** The map of observations as the list of its entries in the order visited. *)
Definition AddObservations (now : Z) (l : list (string * list string)) : Tx unit :=
  match l with [] => mret tt | _ => transaction (each (observe now) l) end.

Definition unobserve (now : Z) (nc : string * list string) : Tx unit :=
  k ← lookupEntityID nc.1;
  _ ← each (λ content, exec ("failed to delete observation for entity " +:+ nc.1)
                         (deleteObservationRow k content)) nc.2;
  exec ("failed to update entity timestamp " +:+ nc.1) (touchEntity now k).

Definition DeleteObservations (now : Z) (l : list (string * list string)) : Tx unit :=
  match l with [] => mret tt | _ => transaction (each (unobserve now) l) end.

Definition relate (now : Z) (r : Relation) : Tx unit :=
  if decide (RelationType r = "") then throw (EmptyRelationType (From r) (To r))
  else
    from ← lookupEntityID (From r);
    to ← lookupEntityID (To r);
    call ["failed to insert relation " +:+ From r +:+ " -> " +:+ To r]
      (λ t q, (insertRelation now from to (RelationType r) q t, nextRelation q, tt)).

Definition CreateRelations (now : Z) (l : list Relation) : Tx unit :=
  match l with [] => mret tt | _ => transaction (each (relate now) l) end.

Definition unrelate (r : Relation) : Tx unit :=
  from ← lookupEntityID (From r);
  to ← lookupEntityID (To r);
  exec ("failed to delete relation " +:+ From r +:+ " -> " +:+ To r)
    (deleteRelationRow from to (RelationType r)).

Definition DeleteRelations (l : list Relation) : Tx unit :=
  match l with [] => mret tt | _ => transaction (each unrelate l) end.

(** ** Queries *)

(** The orders of ORDER BY, whose collation and ties are the database's. *)
Context (byName : list EntityRow → list EntityRow)
        (byTime : list ObservationRow → list ObservationRow)
        (byEnds : list Relation → list Relation).

Definition observationsIn (name : string) (t : Tables) : list string :=
  row_content <$> byTime (filter (λ o, row_name <$> entities t !! row_entity o = Some name)
                            (map_to_list (observations t)).*2).

Definition getObservationsForEntity (name : string) : Tx (list string) :=
  call [] (λ t q, (t, q, observationsIn name t)).

(** The loop over the rows of entities; [wrapped] is what the caller does with an error
    of the observations of the entity named. *)
Fixpoint withObservations (wrapped : string → Tx (list string) → Tx (list string))
    (rows : list EntityRow) : Tx (list Entity) :=
  match rows with
  | [] => mret []
  | r :: rest =>
      obs ← wrapped (row_name r) (getObservationsForEntity (row_name r));
      es ← withObservations wrapped rest;
      mret ({| Name := row_name r; EntityType := row_type r; Observations := obs;
               CreatedAt := row_created r; UpdatedAt := row_updated r |} :: es)
  end.

Definition getAllEntities : Tx (list Entity) :=
  rows ← call [] (λ t q, (t, q, byName (map_to_list (entities t)).*2));
  withObservations (λ _ m, m) rows.

(** The join with the entities at both ends. *)
Definition joined (t : Tables) (r : RelationRow) : option Relation :=
  e1 ← entities t !! row_from r;
  e2 ← entities t !! row_to r;
  Some {| From := row_name e1; To := row_name e2; RelationType := row_relation r;
          RelatedAt := row_related r |}.

Definition joinedRelations (t : Tables) : list Relation :=
  omap (joined t) (map_to_list (relations t)).*2.

Definition getAllRelations : Tx (list Relation) :=
  call [] (λ t q, (t, q, byEnds (joinedRelations t))).

Definition ReadGraph : Tx KnowledgeGraph :=
  es ← during "failed to get entities" getAllEntities;
  rs ← during "failed to get relations" getAllRelations;
  mret {| Entities := es; Relations := rs |}.

Definition OpenNodes (names : list string) : Tx (list Entity) :=
  match names with
  | [] => mret []
  | _ =>
      rows ← call ["failed to open nodes"]
        (λ t q, (t, q, byName (filter (λ r, row_name r ∈ names) (map_to_list (entities t)).*2)));
      withObservations (λ name, during ("failed to get observations for entity " +:+ name)) rows
  end.

Definition GetRelationsForEntities (names : list string) : Tx (list Relation) :=
  match names with
  | [] => mret []
  | _ => call ["failed to get relations for entities"]
           (λ t q, (t, q, byEnds (filter (λ r, From r ∈ names ∨ To r ∈ names) (joinedRelations t))))
  end.

(** The counts, and the number of entities of each type. *)
Record Stats := {
  entityCount : nat;
  observationCount : nat;
  relationCount : nat;
  entityTypes : gmap string nat;
}.

Definition countType (m : gmap string nat) (r : EntityRow) : gmap string nat :=
  <[row_type r := S (default 0 (m !! row_type r))]> m.

Definition GetStats : Tx Stats :=
  es ← call ["failed to count entities"] (λ t q, (t, q, size (entities t)));
  os ← call ["failed to count observations"] (λ t q, (t, q, size (observations t)));
  rs ← call ["failed to count relations"] (λ t q, (t, q, size (relations t)));
  ts ← call ["failed to get entity types"]
         (λ t q, (t, q, foldl countType ∅ (map_to_list (entities t)).*2));
  mret {| entityCount := es; observationCount := os; relationCount := rs; entityTypes := ts |}.
End store.

(** ** The abstract graph *)

Record Graph := {
  Types : gmap string string;
  Observed : gset (string * string);
  Related : gset (string * string * string);
}.

Definition emptyGraph : Graph := {| Types := ∅; Observed := ∅; Related := ∅ |}.

Definition addObserved (n : string) (cs : list string) (g : Graph) : Graph :=
  {| Types := Types g; Observed := list_to_set (pair n <$> cs) ∪ Observed g; Related := Related g |}.

Lemma elem_of_pairs (m n c : string) (cs : list string) :
  (m, c) ∈ (list_to_set (pair n <$> cs) : gset (string * string)) ↔ m = n ∧ c ∈ cs.
Proof.
  rewrite elem_of_list_to_set, list_elem_of_fmap. split.
  - by intros (c' & [= -> ->] & Hc).
  - intros [-> Hc]. by exists c.
Qed.

Definition specCreate (e : Entity) (g : Graph) : res Error Graph :=
  if decide (Name e = "") then Err EmptyName
  else if decide (EntityType e = "") then Err (EmptyEntityType (Name e))
  else Ok (addObserved (Name e) (Observations e)
             {| Types := <[Name e := EntityType e]> (Types g); Observed := Observed g;
                Related := Related g |}).

Definition known (n : string) (g : Graph) : res Error unit :=
  match Types g !! n with Some _ => Ok tt | None => Err (EntityNotFound n) end.

Definition specDelete (names : list string) (g : Graph) : Graph := {|
  Types := filter (λ nt, nt.1 ∉ names) (Types g);
  Observed := filter (λ nc, nc.1 ∉ names) (Observed g);
  Related := filter (λ r, r.1.1 ∉ names ∧ r.1.2 ∉ names) (Related g) |}.

Definition specObserve (nc : string * list string) (g : Graph) : res Error Graph :=
  _ ← known nc.1 g; Ok (addObserved nc.1 nc.2 g).

Definition specUnobserve (nc : string * list string) (g : Graph) : res Error Graph :=
  _ ← known nc.1 g;
  Ok {| Types := Types g; Observed := Observed g ∖ list_to_set (pair nc.1 <$> nc.2);
        Related := Related g |}.

Definition specRelate (r : Relation) (g : Graph) : res Error Graph :=
  if decide (RelationType r = "") then Err (EmptyRelationType (From r) (To r))
  else
    _ ← known (From r) g;
    _ ← known (To r) g;
    Ok {| Types := Types g; Observed := Observed g;
          Related := {[ (From r, To r, RelationType r) ]} ∪ Related g |}.

Definition specUnrelate (r : Relation) (g : Graph) : res Error Graph :=
  _ ← known (From r) g;
  _ ← known (To r) g;
  Ok {| Types := Types g; Observed := Observed g;
        Related := Related g ∖ {[ (From r, To r, RelationType r) ]} |}.

Fixpoint specEach {A} (f : A → Graph → res Error Graph) (l : list A) (g : Graph) : res Error Graph :=
  match l with
  | [] => Ok g
  | x :: rest => g' ← f x g; specEach f rest g'
  end.

(** The operations that change the graph. *)
Inductive Op :=
  | Create (l : list Entity)
  | Delete (names : list string)
  | Observe (l : list (string * list string))
  | Unobserve (l : list (string * list string))
  | Relate (l : list Relation)
  | Unrelate (l : list Relation).

Definition specOp (op : Op) (g : Graph) : res Error Graph :=
  match op with
  | Create l => specEach specCreate l g
  | Delete names => Ok (specDelete names g)
  | Observe l => specEach specObserve l g
  | Unobserve l => specEach specUnobserve l g
  | Relate l => specEach specRelate l g
  | Unrelate l => specEach specUnrelate l g
  end.

(** ** Tables that represent a graph *)

Definition nameOf (t : Tables) (k : nat) : option string := row_name <$> entities t !! k.

(** The constraints of the schema, and keys below their sequences. *)
Record tables_ok (t : Tables) (q : Sequences) : Prop := {
  ok_names : ∀ k k' n, nameOf t k = Some n → nameOf t k' = Some n → k = k';
  ok_entity : ∀ o r, observations t !! o = Some r → is_Some (nameOf t (row_entity r));
  ok_content : ∀ o o' r r', observations t !! o = Some r → observations t !! o' = Some r' →
    row_entity r = row_entity r' → row_content r = row_content r' → o = o';
  ok_from : ∀ o r, relations t !! o = Some r → is_Some (nameOf t (row_from r));
  ok_to : ∀ o r, relations t !! o = Some r → is_Some (nameOf t (row_to r));
  ok_triple : ∀ o o' r r', relations t !! o = Some r → relations t !! o' = Some r' →
    row_from r = row_from r' → row_to r = row_to r' → row_relation r = row_relation r' → o = o';
  ok_entitySeq : ∀ k, is_Some (entities t !! k) → k < entitySeq q;
  ok_observationSeq : ∀ k, is_Some (observations t !! k) → k < observationSeq q;
  ok_relationSeq : ∀ k, is_Some (relations t !! k) → k < relationSeq q;
}.

Record represents (t : Tables) (g : Graph) : Prop := {
  rep_types : ∀ n ty, Types g !! n = Some ty ↔
    ∃ k r, entities t !! k = Some r ∧ row_name r = n ∧ row_type r = ty;
  rep_observed : ∀ n c, (n, c) ∈ Observed g ↔
    ∃ o r, observations t !! o = Some r ∧ row_content r = c ∧ nameOf t (row_entity r) = Some n;
  rep_related : ∀ a b ty, (a, b, ty) ∈ Related g ↔
    ∃ o r, relations t !! o = Some r ∧ row_relation r = ty ∧
      nameOf t (row_from r) = Some a ∧ nameOf t (row_to r) = Some b;
}.

Definition seq_le (q q' : Sequences) : Prop :=
  entitySeq q ≤ entitySeq q' ∧ observationSeq q ≤ observationSeq q' ∧ relationSeq q ≤ relationSeq q'.

#[export] Instance seq_le_preorder : PreOrder seq_le.
Proof. split; unfold seq_le; [intros ?; lia|intros ? ? ? ? ?; lia]. Qed.

Lemma tables_ok_seq t q q' : tables_ok t q → seq_le q q' → tables_ok t q'.
Proof.
  intros [] (? & ? & ?). split; try done.
  all: intros k Hk; eapply Nat.lt_le_trans; eauto.
Qed.

(** *** Searching a table *)

Lemma findKey_Some {A} (p : A → bool) (m : gmap nat A) k :
  findKey p m = Some k → ∃ r, m !! k = Some r ∧ p r = true.
Proof.
  unfold findKey. intros Hk.
  assert (k ∈ (filter (λ kr : nat * A, p kr.2 = true) (map_to_list m)).*1) as Hin.
  { destruct (filter _ _).*1 as [|x l]; [done|]. simpl in Hk. simplify_eq. by left. }
  apply list_elem_of_fmap in Hin as ([k' r] & -> & [Hp Hin]%list_elem_of_filter).
  apply elem_of_map_to_list in Hin. eauto.
Qed.

Lemma findKey_None {A} (p : A → bool) (m : gmap nat A) k r :
  findKey p m = None → m !! k = Some r → p r = false.
Proof.
  unfold findKey. intros Hnone Hk. destruct (p r) eqn:Hp; [|done]. exfalso.
  assert ((k, r) ∈ filter (λ kr : nat * A, p kr.2 = true) (map_to_list m)) as Hin.
  { apply list_elem_of_filter. split; [done|]. by apply elem_of_map_to_list. }
  destruct (filter _ _); [by inversion Hin|done].
Qed.

Lemma entityKey_Some t n k : entityKey n t = Some k → nameOf t k = Some n.
Proof.
  unfold nameOf. intros (r & -> & Hr%String.eqb_eq)%findKey_Some. simpl. by f_equal.
Qed.

Lemma entityKey_None t n k : entityKey n t = None → nameOf t k ≠ Some n.
Proof.
  unfold nameOf. intros Hnone. destruct (entities t !! k) as [r|] eqn:Hr; [|done]. simpl.
  intros [= Hn]. apply (findKey_None _ _ k r) in Hnone; [|done].
  by apply String.eqb_neq in Hnone.
Qed.

Lemma represents_known t g n : represents t g → (is_Some (Types g !! n) ↔ ∃ k, nameOf t k = Some n).
Proof.
  intros [Ht _ _]. unfold nameOf. split.
  - intros [ty (k & r & Hr & <- & _)%Ht]. exists k. by rewrite Hr.
  - intros [k Hk]. destruct (entities t !! k) as [r|] eqn:Hr; simplify_eq/=.
    exists (row_type r). apply Ht. eauto.
Qed.

Lemma keepRows_Some {A} (p : A → bool) (m : gmap nat A) k r :
  keepRows p m !! k = Some r ↔ m !! k = Some r ∧ p r = true.
Proof. apply map_lookup_filter_Some. Qed.

(** *** Statements that keep the names of all keys *)

(** Changing the rows of entities but not their names. *)
Lemma same_names_ok t t' q :
  tables_ok t q → (∀ k, nameOf t' k = nameOf t k) →
  observations t' = observations t → relations t' = relations t → tables_ok t' q.
Proof.
  intros [] Hn Ho Hr. split; rewrite ?Ho, ?Hr; try done.
  - intros k k' n. rewrite !Hn. apply ok_names0.
  - intros o r. rewrite Hn. apply ok_entity0.
  - intros o r. rewrite Hn. apply ok_from0.
  - intros o r. rewrite Hn. apply ok_to0.
  - intros k [r Hk]. apply ok_entitySeq0. specialize (Hn k). unfold nameOf in Hn.
    rewrite Hk in Hn. destruct (entities t !! k); [by eexists|done].
Qed.

(** Tables with the same names of all keys, of which only entities differ. *)
Lemma same_names_represents t t' g types :
  represents t g → (∀ k, nameOf t' k = nameOf t k) →
  observations t' = observations t → relations t' = relations t →
  (∀ n ty, types !! n = Some ty ↔
    ∃ k r, entities t' !! k = Some r ∧ row_name r = n ∧ row_type r = ty) →
  represents t' {| Types := types; Observed := Observed g; Related := Related g |}.
Proof.
  intros [_ Ho Hr] Hn Heo Her Ht. split; simpl; [done| |].
  - intros n c. rewrite Ho, Heo. by setoid_rewrite Hn.
  - intros a b ty. rewrite Hr, Her. by setoid_rewrite Hn.
Qed.

Lemma nameOf_alter (f : EntityRow → EntityRow) k0 t os rs k :
  (∀ r, row_name (f r) = row_name r) →
  nameOf {| entities := alter f k0 (entities t); observations := os; relations := rs |} k = nameOf t k.
Proof.
  intros Hf. unfold nameOf. simpl. destruct (decide (k0 = k)) as [->|].
  - rewrite lookup_alter_eq. destruct (entities t !! k); simpl; [by rewrite Hf|done].
  - by rewrite lookup_alter_ne.
Qed.

Lemma touchEntity_spec now k t q g :
  tables_ok t q → represents t g →
  tables_ok (touchEntity now k t) q ∧ represents (touchEntity now k t) g ∧
  ∀ k', nameOf (touchEntity now k t) k' = nameOf t k'.
Proof.
  intros Hok Hrep. assert (∀ k', nameOf (touchEntity now k t) k' = nameOf t k') as Hn
    by (intros k'; by apply nameOf_alter).
  split_and!; [by eapply same_names_ok| |done].
  destruct g as [ts os rs]. apply (same_names_represents t _ {| Types := ts; Observed := os; Related := rs |} ts);
    [done|done|done|done|].
  intros n ty. destruct Hrep as [Ht _ _]. simpl in Ht. rewrite Ht. simpl. split.
  - intros (k' & r & Hr & Hrn & Hrt). destruct (decide (k = k')) as [->|].
    + exists k'. eexists. rewrite lookup_alter_eq, Hr. by split_and!.
    + exists k', r. by rewrite lookup_alter_ne.
  - intros (k' & r & Hr & Hrn & Hrt). destruct (decide (k = k')) as [->|].
    + rewrite lookup_alter_eq in Hr. destruct (entities t !! k') as [r'|] eqn:Hr'; simplify_eq/=. eauto.
    + rewrite lookup_alter_ne in Hr by done. eauto.
Qed.

Definition setType (n ty : string) (g : Graph) : Graph :=
  {| Types := <[n := ty]> (Types g); Observed := Observed g; Related := Related g |}.

Lemma upsertEntity_spec now n ty t q g :
  tables_ok t q → represents t g →
  tables_ok (upsertEntity now n ty q t) (nextEntity q) ∧
  represents (upsertEntity now n ty q t) (setType n ty g).
Proof.
  intros Hok Hrep. assert (seq_le q (nextEntity q)) as Hle by (unfold seq_le; simpl; lia).
  unfold upsertEntity. destruct (entityKey n t) as [k|] eqn:Hk.
  - apply entityKey_Some in Hk.
    set (t' := {| entities := alter _ k (entities t); observations := _; relations := _ |}).
    assert (∀ k', nameOf t' k' = nameOf t k') as Hn by (intros k'; by apply nameOf_alter).
    split; [eapply tables_ok_seq; [by eapply same_names_ok|done]|].
    apply (same_names_represents t); [done|done|done|done|].
    intros m ty'. unfold nameOf in Hk. destruct (entities t !! k) as [r0|] eqn:Hr0; simplify_eq/=.
    rewrite lookup_insert_Some, (rep_types _ _ Hrep). split.
    + intros [[<- <-]|[Hne (k' & r & Hr & <- & <-)]].
      * exists k. eexists. rewrite lookup_alter_eq, Hr0. by split_and!.
      * exists k', r. rewrite lookup_alter_ne; [done|]. intros ->. congruence.
    + intros (k' & r & Hr & <- & <-). destruct (decide (k = k')) as [->|Hkk].
      * rewrite lookup_alter_eq, Hr0 in Hr. simplify_eq/=. by left.
      * rewrite lookup_alter_ne in Hr by done. right. split; [|eauto]. intros Heq. apply Hkk.
        apply (ok_names _ _ Hok k k' (row_name r)); unfold nameOf; [rewrite Hr0; simpl; congruence|by rewrite Hr].
  - set (r0 := {| row_name := n; row_type := ty; row_created := now; row_updated := now |}).
    set (t' := {| entities := <[entitySeq q := r0]> (entities t); observations := observations t;
                  relations := relations t |}).
    assert (entities t !! entitySeq q = None) as Hfresh.
    { apply eq_None_not_Some. intros Hs. apply (ok_entitySeq _ _ Hok) in Hs. lia. }
    assert (∀ k', nameOf t' k' = if decide (k' = entitySeq q) then Some n else nameOf t k') as Hn.
    { intros k'. unfold nameOf. simpl. case_decide; [subst; by rewrite lookup_insert_eq|].
      by rewrite lookup_insert_ne. }
    assert (∀ k', is_Some (nameOf t k') → nameOf t' k' = nameOf t k') as Hold.
    { intros k' [m Hm]. rewrite Hn. rewrite decide_False; [done|]. intros ->.
      unfold nameOf in Hm. by rewrite Hfresh in Hm. }
    assert (∀ k' m, nameOf t' k' = Some m ↔ (k' = entitySeq q ∧ m = n) ∨ nameOf t k' = Some m) as Hiff.
    { intros k' m. rewrite Hn. case_decide as Hd; [subst|naive_solver].
      split; [intros [= ->]; by left|]. intros [[_ ->]|Hm]; [done|].
      unfold nameOf in Hm. by rewrite Hfresh in Hm. }
    split.
    + destruct Hok. split; simpl; try done.
      * intros k k' m [[-> ->]|Hm]%Hiff [[-> Hmn]|Hm']%Hiff; [done| | |by eapply ok_names0].
        -- by apply (entityKey_None _ _ k') in Hk.
        -- subst. by apply (entityKey_None _ _ k) in Hk.
      * intros o r Ho. rewrite Hold; by eapply ok_entity0.
      * intros o r Ho. rewrite Hold; by eapply ok_from0.
      * intros o r Ho. rewrite Hold; by eapply ok_to0.
      * intros k [r [[<- _]|[_ Hr]]%lookup_insert_Some]; [lia|].
        assert (k < entitySeq q) by (apply ok_entitySeq0; by eexists). lia.
    + split; simpl.
      * intros m ty'. rewrite lookup_insert_Some, (rep_types _ _ Hrep). split.
        -- intros [[<- <-]|[Hne (k & r & Hr & <- & <-)]].
           ++ exists (entitySeq q), r0. by rewrite lookup_insert_eq.
           ++ exists k, r. rewrite lookup_insert_ne; [done|]. intros <-. congruence.
        -- intros (k & r & [[<- <-]|[Hne Hr]]%lookup_insert_Some & <- & <-); [by left|].
           right. split; [|eauto]. intros ->.
           apply (entityKey_None _ _ k) in Hk. apply Hk. unfold nameOf. by rewrite Hr.
      * intros m c. rewrite (rep_observed _ _ Hrep). split; intros (o & r & Ho & Hc & Hm);
          exists o, r; (split_and!; [done|done|]).
        -- rewrite Hold; [done|by eexists].
        -- by rewrite <-Hold by (by eapply ok_entity).
      * intros a b ty'. rewrite (rep_related _ _ Hrep). split; intros (o & r & Ho & Hc & Ha & Hb);
          exists o, r; (split_and!; [done|done| |]).
        -- rewrite Hold; [done|by eexists].
        -- rewrite Hold; [done|by eexists].
        -- by rewrite <-Hold by (by eapply ok_from).
        -- by rewrite <-Hold by (by eapply ok_to).
Qed.

(** *** Statements that keep the entities *)

Lemma insertObservation_spec now n k c t q g :
  nameOf t k = Some n → tables_ok t q → represents t g →
  tables_ok (insertObservation now k c q t) (nextObservation q) ∧
  represents (insertObservation now k c q t) (addObserved n [c] g).
Proof.
  intros Hn Hok Hrep.
  assert (seq_le q (nextObservation q)) as Hle by (unfold seq_le; simpl; lia).
  unfold insertObservation.
  destruct (findKey _ (observations t)) as [o|] eqn:Hf.
  - split; [by eapply tables_ok_seq|].
    apply findKey_Some in Hf as (r & Ho & [Hr%Nat.eqb_eq Hc%String.eqb_eq]%andb_true_iff).
    destruct Hrep as [Ht Hob Hr']. split; [done| |done]. intros m c'.
    cbn [Observed addObserved]. rewrite elem_of_union, Hob, (elem_of_pairs _ _ _ [c]), list_elem_of_singleton.
    split; [|by right]. intros [[-> ->]|Hm]; [|done]. exists o, r. by subst.
  - assert (∀ o r, observations t !! o = Some r → ¬ (row_entity r = k ∧ row_content r = c)) as Hnone.
    { intros o r Ho [Hk Hc]. apply (findKey_None _ _ o r) in Hf; [|done].
      unfold sameObservation in Hf. rewrite Hk, Hc, Nat.eqb_refl, String.eqb_refl in Hf. done. }
    assert (observations t !! observationSeq q = None) as Hfresh.
    { apply eq_None_not_Some. intros Hs. apply (ok_observationSeq _ _ Hok) in Hs. lia. }
    split.
    + destruct Hok. split; simpl; try done.
      * intros o r [[<- <-]|[_ Hr]]%lookup_insert_Some; [by eexists|by eapply ok_entity0].
      * intros o o' r r' [[<- <-]|[? Hr]]%lookup_insert_Some [[<- <-]|[? Hr']]%lookup_insert_Some Hk Hc;
          simpl in *; [done| | |by eapply ok_content0].
        -- by destruct (Hnone _ _ Hr').
        -- by destruct (Hnone _ _ Hr).
      * intros o [r [[<- _]|[_ Hr]]%lookup_insert_Some]; [lia|].
        assert (o < observationSeq q) by (apply ok_observationSeq0; by eexists). lia.
    + destruct Hrep as [Ht Hob Hr']. split; [done| |done]. intros m c'.
      cbn [Observed addObserved]. rewrite elem_of_union, Hob, (elem_of_pairs _ _ _ [c]), list_elem_of_singleton. simpl. split.
      * intros [[-> ->]|(o & r & Ho & Hc & Hm)].
        -- exists (observationSeq q). eexists. rewrite lookup_insert_eq. by split_and!.
        -- exists o, r. rewrite lookup_insert_ne; [done|]. intros <-. congruence.
      * intros (o & r & [[<- <-]|[_ Hr]]%lookup_insert_Some & <- & Hm); simpl in *.
        -- left. change (nameOf t k = Some m) in Hm. split; [congruence|done].
        -- right. eauto.
Qed.

Lemma insertRelation_spec now a b k k' ty t q g :
  nameOf t k = Some a → nameOf t k' = Some b → tables_ok t q → represents t g →
  tables_ok (insertRelation now k k' ty q t) (nextRelation q) ∧
  represents (insertRelation now k k' ty q t)
    {| Types := Types g; Observed := Observed g; Related := {[ (a, b, ty) ]} ∪ Related g |}.
Proof.
  intros Ha Hb Hok Hrep.
  assert (seq_le q (nextRelation q)) as Hle by (unfold seq_le; simpl; lia).
  unfold insertRelation. destruct (findKey _ (relations t)) as [o|] eqn:Hf.
  - split; [by eapply tables_ok_seq|].
    apply findKey_Some in Hf as (r & Ho & Hs). unfold sameRelation in Hs.
    apply andb_true_iff in Hs as [[Hk%Nat.eqb_eq Hk'%Nat.eqb_eq]%andb_true_iff Hc%String.eqb_eq].
    destruct Hrep as [Ht Hob Hre]. split; [done|done|]. intros a' b' ty'. simpl.
    rewrite elem_of_union, elem_of_singleton, Hre. split; [|by right].
    intros [[= -> -> ->]|Hm]; [|done]. exists o, r. by subst.
  - assert (∀ o r, relations t !! o = Some r →
      ¬ (row_from r = k ∧ row_to r = k' ∧ row_relation r = ty)) as Hnone.
    { intros o r Ho (Hk & Hk' & Hc). apply (findKey_None _ _ o r) in Hf; [|done].
      unfold sameRelation in Hf. by rewrite Hk, Hk', Hc, !Nat.eqb_refl, String.eqb_refl in Hf. }
    assert (relations t !! relationSeq q = None) as Hfresh.
    { apply eq_None_not_Some. intros Hs. apply (ok_relationSeq _ _ Hok) in Hs. lia. }
    split.
    + destruct Hok. split; simpl; try done.
      * intros o r [[<- <-]|[_ Hr]]%lookup_insert_Some; [by eexists|by eapply ok_from0].
      * intros o r [[<- <-]|[_ Hr]]%lookup_insert_Some; [by eexists|by eapply ok_to0].
      * intros o o' r r' [[<- <-]|[? Hr]]%lookup_insert_Some [[<- <-]|[? Hr']]%lookup_insert_Some Hk Hk' Hc;
          simpl in *; [done| | |by eapply ok_triple0].
        -- by destruct (Hnone _ _ Hr').
        -- by destruct (Hnone _ _ Hr).
      * intros o [r [[<- _]|[_ Hr]]%lookup_insert_Some]; [lia|].
        assert (o < relationSeq q) by (apply ok_relationSeq0; by eexists). lia.
    + destruct Hrep as [Ht Hob Hre]. split; [done|done|]. intros a' b' ty'. simpl.
      rewrite elem_of_union, elem_of_singleton, Hre. split.
      * intros [[= -> -> ->]|(o & r & Ho & Hc & Hm)].
        -- exists (relationSeq q). eexists. rewrite lookup_insert_eq. by split_and!.
        -- exists o, r. rewrite lookup_insert_ne; [done|]. intros <-. congruence.
      * intros (o & r & [[<- <-]|[_ Hr]]%lookup_insert_Some & <- & Hm1 & Hm2); simpl in *.
        -- left. change (nameOf t k = Some a') in Hm1. change (nameOf t k' = Some b') in Hm2. congruence.
        -- right. eauto 6.
Qed.

(** Dropping rows of observations and relations. *)
Lemma fewer_rows_ok t q os rs :
  tables_ok t q → os ⊆ observations t → rs ⊆ relations t →
  tables_ok {| entities := entities t; observations := os; relations := rs |} q.
Proof.
  intros [] Ho Hr.
  assert (∀ o r, os !! o = Some r → observations t !! o = Some r) as Ho'
    by (intros o r Hor; by eapply lookup_weaken).
  assert (∀ o r, rs !! o = Some r → relations t !! o = Some r) as Hr'
    by (intros o r Hor; by eapply lookup_weaken).
  split; simpl; try done.
  - intros o r Hor. by apply (ok_entity0 o), Ho'.
  - intros o o' r r' H1 H2. by apply (ok_content0 o o' r r'); apply Ho'.
  - intros o r Hor. by apply (ok_from0 o), Hr'.
  - intros o r Hor. by apply (ok_to0 o), Hr'.
  - intros o o' r r' H1 H2. by apply (ok_triple0 o o' r r'); apply Hr'.
  - intros o [r Hor]. apply ok_observationSeq0. eexists. by apply Ho'.
  - intros o [r Hor]. apply ok_relationSeq0. eexists. by apply Hr'.
Qed.

Lemma keepRows_subseteq {A} (p : A → bool) (m : gmap nat A) : keepRows p m ⊆ m.
Proof. apply map_filter_subseteq. Qed.

Lemma deleteObservationRow_spec n k c t q g :
  nameOf t k = Some n → tables_ok t q → represents t g →
  tables_ok (deleteObservationRow k c t) q ∧
  represents (deleteObservationRow k c t)
    {| Types := Types g; Observed := Observed g ∖ {[ (n, c) ]}; Related := Related g |}.
Proof.
  intros Hn Hok [Ht Ho Hr]. split; [apply fewer_rows_ok; [done|apply keepRows_subseteq|done]|].
  split; simpl; [done| |done]. intros m c'.
  rewrite elem_of_difference, elem_of_singleton, Ho. split.
  - intros [(o & r & Hor & <- & Hm) Hne]. exists o, r. split_and!; [|done|done].
    apply keepRows_Some. split; [done|]. apply negb_true_iff. unfold sameObservation.
    destruct (Nat.eqb_spec (row_entity r) k) as [Hk|]; [|done].
    destruct (String.eqb_spec (row_content r) c) as [Hc|]; [|done]. exfalso. apply Hne.
    rewrite Hk in Hm. change (nameOf t k = Some m) in Hm. congruence.
  - intros (o & r & [Hor Hs%negb_true_iff]%keepRows_Some & <- & Hm). split; [eauto|].
    intros [= -> <-]. assert (row_entity r = k) as Hk by (by eapply ok_names).
    unfold sameObservation in Hs. rewrite Hk in Hs. by rewrite Nat.eqb_refl, String.eqb_refl in Hs.
Qed.

Lemma deleteRelationRow_spec a b k k' ty t q g :
  nameOf t k = Some a → nameOf t k' = Some b → tables_ok t q → represents t g →
  tables_ok (deleteRelationRow k k' ty t) q ∧
  represents (deleteRelationRow k k' ty t)
    {| Types := Types g; Observed := Observed g; Related := Related g ∖ {[ (a, b, ty) ]} |}.
Proof.
  intros Ha Hb Hok [Ht Ho Hr]. split; [apply fewer_rows_ok; [done|done|apply keepRows_subseteq]|].
  split; simpl; [done|done|]. intros a' b' ty'.
  rewrite elem_of_difference, elem_of_singleton, Hr. split.
  - intros [(o & r & Hor & <- & Hma & Hmb) Hne]. exists o, r. split_and!; [|done|done|done].
    apply keepRows_Some. split; [done|]. apply negb_true_iff. unfold sameRelation.
    destruct (Nat.eqb_spec (row_from r) k) as [Hk|]; [|done].
    destruct (Nat.eqb_spec (row_to r) k') as [Hk'|]; [|done].
    destruct (String.eqb_spec (row_relation r) ty) as [Hty|]; [|done]. exfalso. apply Hne.
    rewrite Hk in Hma. rewrite Hk' in Hmb. change (nameOf t k = Some a') in Hma.
    change (nameOf t k' = Some b') in Hmb. congruence.
  - intros (o & r & [Hor Hs%negb_true_iff]%keepRows_Some & <- & Hma & Hmb). split; [eauto 6|].
    intros [= -> -> <-]. assert (row_from r = k) as Hk by (by eapply ok_names).
    assert (row_to r = k') as Hk' by (by eapply ok_names).
    unfold sameRelation in Hs. rewrite Hk, Hk' in Hs. by rewrite !Nat.eqb_refl, String.eqb_refl in Hs.
Qed.

Lemma deleteEntityRows_spec names t q g :
  tables_ok t q → represents t g →
  tables_ok (deleteEntityRows names t) q ∧ represents (deleteEntityRows names t) (specDelete names g).
Proof.
  intros Hok Hrep. set (t' := deleteEntityRows names t).
  assert (∀ k n, nameOf t' k = Some n ↔ nameOf t k = Some n ∧ n ∉ names) as Hn.
  { intros k n. unfold nameOf. simpl. split.
    - destruct (keepRows _ _ !! k) as [r|] eqn:Hr; [|done].
      apply keepRows_Some in Hr as [-> Hb%negb_true_iff%bool_decide_eq_false]. by intros [= <-].
    - destruct (entities t !! k) as [r|] eqn:Hr; [|by intros [? _]]. intros [[= <-] Hnot].
      assert (keepRows (λ r : EntityRow, negb (bool_decide (row_name r ∈ names))) (entities t) !! k = Some r) as ->;
        [|done].
      apply keepRows_Some. split; [done|]. by apply negb_true_iff, bool_decide_eq_false. }
  assert (∀ k, bool_decide (is_Some (keepRows (λ r, negb (bool_decide (row_name r ∈ names)))
    (entities t) !! k)) = true ↔ is_Some (nameOf t' k)) as Hex.
  { intros k. rewrite bool_decide_eq_true. unfold nameOf. by rewrite fmap_is_Some. }
  assert (∀ o r, observations t' !! o = Some r ↔
    observations t !! o = Some r ∧ is_Some (nameOf t' (row_entity r))) as Ho.
  { intros o r. simpl. rewrite keepRows_Some. by rewrite Hex. }
  assert (∀ o r, relations t' !! o = Some r ↔
    relations t !! o = Some r ∧ is_Some (nameOf t' (row_from r)) ∧ is_Some (nameOf t' (row_to r))) as Hr.
  { intros o r. simpl. rewrite keepRows_Some, andb_true_iff. by rewrite !Hex. }
  split.
  - destruct Hok. split.
    + intros k k' n [? _]%Hn [? _]%Hn. by eapply ok_names0.
    + by intros o r [_ ?]%Ho.
    + intros o o' r r' [? _]%Ho [? _]%Ho. by eapply ok_content0.
    + by intros o r (_ & ? & _)%Hr.
    + by intros o r (_ & _ & ?)%Hr.
    + intros o o' r r' [? _]%Hr [? _]%Hr. by eapply ok_triple0.
    + intros k [r [? _]%keepRows_Some]. apply ok_entitySeq0. by eexists.
    + intros k [r [? _]%Ho]. apply ok_observationSeq0. by eexists.
    + intros k [r [? _]%Hr]. apply ok_relationSeq0. by eexists.
  - destruct Hrep as [Ht Hob Hre]. split.
    + intros n ty. simpl. rewrite map_lookup_filter_Some, Ht. simpl. split.
      * intros [(k & r & Hk & <- & <-) Hnot]. exists k, r. split_and!; [|done|done].
        apply keepRows_Some. split; [done|]. by apply negb_true_iff, bool_decide_eq_false.
      * intros (k & r & [Hk Hb%negb_true_iff%bool_decide_eq_false]%keepRows_Some & <- & <-).
        split; [|done]. exists k, r. by split_and!.
    + intros n c. cbn [Observed specDelete]. rewrite elem_of_filter, Hob. simpl. split.
      * intros [Hnot (o & r & Hor & Hc & Hnm)]. exists o, r.
        assert (nameOf t' (row_entity r) = Some n) as Hnm' by (by apply Hn).
        split_and!; [|done|done]. apply Ho. split; [done|by eexists].
      * intros (o & r & [Hor _]%Ho & Hc & [Hnm Hnot]%Hn). split; [done|]. exists o, r. by split_and!.
    + intros a b ty. cbn [Related specDelete]. rewrite elem_of_filter, Hre. simpl. split.
      * intros [[Hna Hnb] (o & r & Hor & Hc & Ha & Hb)]. exists o, r.
        assert (nameOf t' (row_from r) = Some a) as Ha' by (by apply Hn).
        assert (nameOf t' (row_to r) = Some b) as Hb' by (by apply Hn).
        split_and!; [|done|done|done]. apply Hr. split_and!; [done|by eexists|by eexists].
      * intros (o & r & [Hor _]%Hr & Hc & [Ha Hna]%Hn & [Hb Hnb]%Hn).
        split; [done|]. exists o, r. by split_and!.
Qed.

(** ** Simulation *)

Section simulation.
Context (fault : nat → option string) (committedAnyway : nat → bool).

(** From tables that represent a graph and satisfy [P], the body of a
    transaction does to the tables what [f] does to the graph, errors
    included, unless the database fails. *)
Definition simulates (P : Tables → Prop) (m : Tx unit) (f : Graph → res Error Graph) : Prop :=
  ∀ s g, tables_ok (tables s) (sequences s) → represents (tables s) g → P (tables s) →
    seq_le (sequences s) (sequences (m s).1) ∧
    match (m s).2 with
    | Ok _ =>
        tables_ok (tables (m s).1) (sequences (m s).1) ∧ P (tables (m s).1) ∧
        ∃ g', f g = Ok g' ∧ represents (tables (m s).1) g'
    | Err (DatabaseFailed _ _) => ∃ n, is_Some (fault n)
    | Err e => f g = Err e
    end.

Implicit Types (P : Tables → Prop).

Lemma sim_ext P m f f' : (∀ g, f g = f' g) → simulates P m f → simulates P m f'.
Proof. intros Hf Hm s g Hok Hrep HP. specialize (Hm s g Hok Hrep HP). by rewrite <-!Hf. Qed.

Lemma sim_ret P : simulates P (mret tt) Ok.
Proof. intros s g Hok Hrep HP. simpl. split; [done|]. eauto. Qed.

Lemma sim_throw P e : (∀ ctx text, e ≠ DatabaseFailed ctx text) → simulates P (throw e) (λ _, Err e).
Proof. intros He s g Hok Hrep HP. simpl. split; [done|]. destruct e; [done..|]. by destruct (He context cause). Qed.

Lemma sim_bind P m m' f f' :
  simulates P m f → simulates P m' f' → simulates P (_ ← m; m') (λ g, f g ≫= f').
Proof.
  intros Hm Hm' s g Hok Hrep HP. destruct (Hm s g Hok Hrep HP) as [Hle Hr].
  unfold mbind, tx_bind. destruct (m s) as [s1 r] eqn:Hs. simpl in *.
  destruct r as [u|e].
  - destruct Hr as (Hok1 & HP1 & g1 & Hg & Hrep1). destruct (Hm' s1 g1 Hok1 Hrep1 HP1) as [Hle' Hr'].
    split; [by etrans|]. destruct (m' s1) as [s2 [u2|e2]]; simpl in *.
    + destruct Hr' as (? & ? & g2 & Hg2 & ?). split_and!; [done|done|]. exists g2. by rewrite Hg.
    + destruct e2; simpl in *; rewrite ?Hg; done.
  - split; [done|]. destruct e; simpl in *; rewrite ?Hr; done.
Qed.

Lemma sim_each {A} P (body : A → Tx unit) (f : A → Graph → res Error Graph) l :
  (∀ x, simulates P (body x) (f x)) → simulates P (each body l) (specEach f l).
Proof.
  intros Hb. induction l as [|x l IH]; simpl; [apply sim_ret|]. apply sim_bind; [apply Hb|done].
Qed.

(** One statement. *)
Lemma sim_call P what stmt (next : Sequences → Sequences) (h : Graph → Graph) :
  (∀ q, seq_le q (next q)) →
  (∀ t q g, tables_ok t q → represents t g → P t →
     tables_ok (stmt q t) (next q) ∧ represents (stmt q t) (h g) ∧ P (stmt q t)) →
  simulates P (call fault what (λ t q, (stmt q t, next q, tt))) (λ g, Ok (h g)).
Proof.
  intros Hle Hst s g Hok Hrep HP. unfold call. destruct (fault (calls s)) as [e|] eqn:Hf; simpl.
  - split; [done|]. exists (calls s). by rewrite Hf.
  - split; [apply Hle|]. destruct (Hst _ _ _ Hok Hrep HP) as (? & ? & ?). eauto.
Qed.

Lemma sim_exec P what stmt (h : Graph → Graph) :
  (∀ t q g, tables_ok t q → represents t g → P t →
     tables_ok (stmt t) q ∧ represents (stmt t) (h g) ∧ P (stmt t)) →
  simulates P (exec fault what stmt) (λ g, Ok (h g)).
Proof. intros Hst. apply (sim_call P [what] (λ _, stmt) (λ q, q) h); [done|]. intros; by apply Hst. Qed.

Definition oneCall (s : TxState) : TxState :=
  {| tables := tables s; sequences := sequences s; calls := S (calls s) |}.

Lemma lookup_steps {A} n (m : nat → Tx A) s :
  (k ← lookupEntityID fault n; m k) s =
    match fault (calls s) with
    | Some e => (oneCall s, Err (DatabaseFailed ["failed to look up entity " +:+ n] e))
    | None => match entityKey n (tables s) with
              | Some k => m k (oneCall s)
              | None => (oneCall s, Err (EntityNotFound n))
              end
    end.
Proof.
  unfold mbind, tx_bind, lookupEntityID, call. unfold mbind, tx_bind.
  destruct (fault (calls s)); [done|]. by destruct (entityKey n (tables s)).
Qed.

(** Looking up an entity, and going on with its key. *)
Lemma sim_lookup P n (m : nat → Tx unit) f :
  (∀ k, simulates (λ t, P t ∧ nameOf t k = Some n) (m k) f) →
  simulates P (k ← lookupEntityID fault n; m k) (λ g, known n g ≫= λ _, f g).
Proof.
  intros Hm s g Hok Hrep HP. rewrite lookup_steps.
  destruct (fault (calls s)) as [e|] eqn:Hf; cbn [fst snd oneCall tables sequences].
  { split; [done|]. exists (calls s). by rewrite Hf. }
  pose proof (represents_known (tables s) g n Hrep) as Hkn. unfold known.
  destruct (entityKey n (tables s)) as [k|] eqn:Hk; cbn [fst snd oneCall tables sequences].
  - apply entityKey_Some in Hk.
    assert (is_Some (Types g !! n)) as [ty ->] by (apply Hkn; eauto).
    destruct (Hm k (oneCall s) g Hok Hrep) as [Hle Hr]; [done|]. split; [done|].
    destruct (m k (oneCall s)) as [s1 [u|e]]; simpl in *; [|done].
    destruct Hr as (? & [? _] & ?). by split_and!.
  - split; [done|]. destruct (Types g !! n) as [ty|] eqn:Hty; [|done]. exfalso.
    destruct (proj1 Hkn) as [k Hk']; [by eexists|]. by apply (entityKey_None _ _ k) in Hk.
Qed.

(** *** The bodies of the operations *)

Lemma seq_le_nextEntity q : seq_le q (nextEntity q).
Proof. unfold seq_le; simpl; lia. Qed.

Lemma seq_le_nextObservation q : seq_le q (nextObservation q).
Proof. unfold seq_le; simpl; lia. Qed.

Lemma seq_le_nextRelation q : seq_le q (nextRelation q).
Proof. unfold seq_le; simpl; lia. Qed.

Lemma nameOf_insertObservation now k c q t k' :
  nameOf (insertObservation now k c q t) k' = nameOf t k'.
Proof. unfold insertObservation. by case_match. Qed.

Lemma addObserved_app n cs cs' g : addObserved n cs' (addObserved n cs g) = addObserved n (cs ++ cs') g.
Proof.
  unfold addObserved. simpl. f_equal. rewrite fmap_app, list_to_set_app_L. set_solver.
Qed.

Lemma sim_observations now n k cs :
  simulates (λ t, True ∧ nameOf t k = Some n) (each (addObservation fault now n k) cs)
    (λ g, Ok (addObserved n cs g)).
Proof.
  eapply sim_ext; [|apply (sim_each _ _ (λ c g, Ok (addObserved n [c] g)))].
  - intros g. revert g. induction cs as [|c cs IH]; intros g; simpl.
    + destruct g. unfold addObserved. simpl. by rewrite (left_id_L ∅ (∪)).
    + rewrite IH. by rewrite addObserved_app.
  - intros c. apply (sim_call _ _ (insertObservation now k c)); [apply seq_le_nextObservation|].
    intros t q g Hok Hrep [_ Hn]. rewrite nameOf_insertObservation.
    destruct (insertObservation_spec now n k c t q g Hn Hok Hrep). by split_and!.
Qed.

Lemma sim_createEntity now e : simulates (λ _, True) (createEntity fault now e) (specCreate e).
Proof.
  unfold createEntity, specCreate. case_decide; [by apply sim_throw|]. case_decide; [by apply sim_throw|].
  eapply sim_ext; [|eapply sim_bind].
  2: { apply (sim_call _ _ (upsertEntity now (Name e) (EntityType e)) nextEntity (setType (Name e) (EntityType e)));
       [apply seq_le_nextEntity|]. intros t q g Hok Hrep _.
       destruct (upsertEntity_spec now (Name e) (EntityType e) t q g Hok Hrep). by split_and!. }
  2: { apply sim_lookup. intros k. apply sim_observations. }
  intros g. simpl. unfold known, setType. simpl. by rewrite lookup_insert_eq.
Qed.

Lemma sim_touch now n k P :
  (∀ t t', (∀ k', nameOf t' k' = nameOf t k') → P t → P t') →
  simulates P (exec fault ("failed to update entity timestamp " +:+ n) (touchEntity now k)) Ok.
Proof.
  intros HP. apply (sim_ext _ _ (λ g, Ok (id g))); [done|]. apply sim_exec.
  intros t q g Hok Hrep Hp. destruct (touchEntity_spec now k t q g Hok Hrep) as (? & ? & ?).
  split_and!; [done|done|]. by eapply HP.
Qed.

Lemma sim_observe now nc : simulates (λ _, True) (observe fault now nc) (specObserve nc).
Proof.
  apply sim_lookup. intros k.
  apply (sim_ext _ _ (λ g, Ok (addObserved nc.1 nc.2 g) ≫= Ok)); [done|].
  apply sim_bind; [apply sim_observations|]. apply sim_touch.
  intros t t' Hn [_ ?]. by rewrite Hn.
Qed.

Lemma sim_unobserve now nc : simulates (λ _, True) (unobserve fault now nc) (specUnobserve nc).
Proof.
  apply sim_lookup. intros k.
  eapply sim_ext; [|apply sim_bind; [apply (sim_each _ _ (λ c g,
    Ok {| Types := Types g; Observed := Observed g ∖ {[ (nc.1, c) ]}; Related := Related g |}))|]].
  3: { apply sim_touch. intros t t' Hn [_ ?]. by rewrite Hn. }
  - simpl. induction nc.2 as [|c cs IH]; intros g; simpl.
    + destruct g. by rewrite difference_empty_L.
    + rewrite IH. simpl. by rewrite difference_difference_l_L.
  - intros c. apply sim_exec. intros t q g Hok Hrep [_ Hn].
    destruct (deleteObservationRow_spec nc.1 k c t q g Hn Hok Hrep). by split_and!.
Qed.

Lemma sim_relate now r : simulates (λ _, True) (relate fault now r) (specRelate r).
Proof.
  unfold relate, specRelate. case_decide; [by apply sim_throw|].
  apply sim_lookup. intros k. apply sim_lookup. intros k'.
  apply (sim_call _ _ (insertRelation now k k' (RelationType r)) nextRelation
    (λ g, {| Types := Types g; Observed := Observed g;
             Related := {[ (From r, To r, RelationType r) ]} ∪ Related g |}));
    [apply seq_le_nextRelation|].
  intros t q g Hok Hrep [[_ Ha] Hb].
  destruct (insertRelation_spec now _ _ k k' (RelationType r) t q g Ha Hb Hok Hrep).
  assert (∀ k0, nameOf (insertRelation now k k' (RelationType r) q t) k0 = nameOf t k0) as Hn
    by (intros k0; unfold insertRelation; by case_match).
  by rewrite !Hn.
Qed.

Lemma sim_unrelate r : simulates (λ _, True) (unrelate fault r) (specUnrelate r).
Proof.
  apply sim_lookup. intros k. apply sim_lookup. intros k'. apply sim_exec.
  intros t q g Hok Hrep [[_ Ha] Hb].
  destruct (deleteRelationRow_spec _ _ k k' (RelationType r) t q g Ha Hb Hok Hrep). by split_and!.
Qed.

(** *** Transactions *)

(** What an operation may do: all of it, or nothing and the error of the graph; if
    the database fails, all or nothing. *)
Definition all_or_nothing (op : Tx unit) (f : Graph → res Error Graph) : Prop :=
  ∀ s g, tables_ok (tables s) (sequences s) → represents (tables s) g →
    tables_ok (tables (op s).1) (sequences (op s).1) ∧
    match (op s).2 with
    | Ok _ => ∃ g', f g = Ok g' ∧ represents (tables (op s).1) g'
    | Err (DatabaseFailed _ _) =>
        (∃ n, is_Some (fault n)) ∧
        (represents (tables (op s).1) g ∨ ∃ g', f g = Ok g' ∧ represents (tables (op s).1) g')
    | Err e => f g = Err e ∧ tables (op s).1 = tables s
    end.

Lemma transaction_atomic body f :
  simulates (λ _, True) body f → all_or_nothing (transaction fault committedAnyway body) f.
Proof.
  intros Hb s g Hok Hrep. unfold transaction, exec, call.
  destruct (fault (calls s)) as [e|] eqn:Hf; simpl.
  { split; [done|]. split; [|by left]. exists (calls s). by rewrite Hf. }
  fold (oneCall s). destruct (Hb (oneCall s) g Hok Hrep I) as [Hle Hr].
  destruct (body (oneCall s)) as [s1 [u|e]]; simpl in *.
  - destruct Hr as (Hok1 & _ & g' & Hg' & Hrep'). destruct (fault (calls s1)) as [e|] eqn:Hf1; simpl.
    + split; [destruct (committedAnyway (calls s1)); [done|by eapply tables_ok_seq]|].
      split; [exists (calls s1); by rewrite Hf1|]. destruct (committedAnyway (calls s1)); eauto.
    + split; [done|]. eauto.
  - split; [by eapply tables_ok_seq|]. destruct e; simpl in *; [done..|]. split; [done|by left].
Qed.

Lemma nothing_to_do f : (∀ g, f g = Ok g) → all_or_nothing (mret tt) f.
Proof. intros Hf s g Hok Hrep. simpl. split; [done|]. exists g. by rewrite Hf. Qed.

Definition execOp (now : Z) (op : Op) : Tx unit :=
  match op with
  | Create l => CreateEntities fault committedAnyway now l
  | Delete names => DeleteEntities fault committedAnyway names
  | Observe l => AddObservations fault committedAnyway now l
  | Unobserve l => DeleteObservations fault committedAnyway now l
  | Relate l => CreateRelations fault committedAnyway now l
  | Unrelate l => DeleteRelations fault committedAnyway l
  end.

Lemma specDelete_nil g : specDelete [] g = g.
Proof.
  destruct g as [ts os rs]. unfold specDelete. simpl. f_equal.
  - apply map_filter_id. intros n ty _. apply not_elem_of_nil.
  - apply set_eq. intros x. rewrite elem_of_filter. pose proof (not_elem_of_nil x.1). tauto.
  - apply set_eq. intros x. rewrite elem_of_filter.
    pose proof (not_elem_of_nil x.1.1). pose proof (not_elem_of_nil x.1.2). tauto.
Qed.

(** Each operation is one of the graph, all or nothing. *)
Lemma execOp_all_or_nothing now op : all_or_nothing (execOp now op) (specOp op).
Proof.
  destruct op as [l|names|l|l|l|l]; simpl.
  2: { destruct names as [|n names].
       - apply nothing_to_do. intros g. exact (f_equal Ok (specDelete_nil g)).
       - apply transaction_atomic. apply (sim_exec _ _ _ (specDelete (n :: names))).
         intros t q g Hok Hrep _. by destruct (deleteEntityRows_spec (n :: names) t q g Hok Hrep). }
  all: destruct l as [|x l]; [by apply nothing_to_do|]; apply transaction_atomic, sim_each.
  - apply sim_createEntity.
  - apply sim_observe.
  - apply sim_unobserve.
  - apply sim_relate.
  - apply sim_unrelate.
Qed.
End simulation.

(** ** Sequences of operations *)

Section runs.
Context (fault : nat → option string) (committedAnyway : nat → bool).

(** The operations one after another, each with the time it runs at, and their
    results. *)
Fixpoint execOps (ops : list (Z * Op)) (s : TxState) : TxState * list (res Error unit) :=
  match ops with
  | [] => (s, [])
  | (now, op) :: rest =>
      let '(s1, r) := execOp fault committedAnyway now op s in
      let '(s2, rs) := execOps rest s1 in
      (s2, r :: rs)
  end.

End runs.

(** What results tell of the graph: an operation that returns no error took effect;
    an error of the operation's own left the graph as it was; a database error left
    it as it was, or the operation took effect in full. *)
Inductive graph_run : list Op → list (res Error unit) → Graph → Graph → Prop :=
  | graph_run_nil g : graph_run [] [] g g
  | graph_run_done op ops rs g g' g'' :
      specOp op g = Ok g' → graph_run ops rs g' g'' → graph_run (op :: ops) (Ok tt :: rs) g g''
  | graph_run_refused op ops rs g g'' e :
      specOp op g = Err e → graph_run ops rs g g'' → graph_run (op :: ops) (Err e :: rs) g g''
  | graph_run_failed op ops rs g g'' ctx e :
      graph_run ops rs g g'' → graph_run (op :: ops) (Err (DatabaseFailed ctx e) :: rs) g g''
  | graph_run_unnoticed op ops rs g g' g'' ctx e :
      specOp op g = Ok g' → graph_run ops rs g' g'' →
      graph_run (op :: ops) (Err (DatabaseFailed ctx e) :: rs) g g''.

Definition freshStore : TxState :=
  {| tables := noTables;
     sequences := {| entitySeq := 1; observationSeq := 1; relationSeq := 1 |}; calls := 0 |}.

Lemma freshStore_ok :
  tables_ok (tables freshStore) (sequences freshStore) ∧ represents (tables freshStore) emptyGraph.
Proof.
  assert (∀ A k (r : A), (∅ : gmap nat A) !! k ≠ Some r) as Hno by (intros; by rewrite lookup_empty).
  split; split; unfold nameOf; simpl.
  2-6: intros; by exfalso; eapply Hno.
  2-4: by intros k [r Hr%Hno].
  - intros k k' n. by rewrite lookup_empty.
  - intros n ty. split; [by intros ?%lookup_empty_Some|]. by intros (k & r & []%Hno & _).
  - intros n c. split; [by intros ?%not_elem_of_empty|]. by intros (k & r & []%Hno & _).
  - intros a b ty. split; [by intros ?%not_elem_of_empty|]. by intros (k & r & []%Hno & _).
Qed.

Definition databaseError (r : res Error unit) : bool :=
  match r with Err (DatabaseFailed _ _) => true | _ => false end.

Lemma execOps_run fault committedAnyway ops : ∀ s g,
  tables_ok (tables s) (sequences s) → represents (tables s) g →
  let '(s', rs) := execOps fault committedAnyway ops s in
  ∃ g', graph_run ops.*2 rs g g' ∧ represents (tables s') g' ∧
    tables_ok (tables s') (sequences s') ∧
    (existsb databaseError rs = true → ∃ n, is_Some (fault n)).
Proof.
  induction ops as [|[now op] ops IH]; intros s g Hok Hrep; simpl.
  { exists g. split_and!; [constructor|done..]. }
  pose proof (execOp_all_or_nothing fault committedAnyway now op s g Hok Hrep) as [Hok1 Hr].
  destruct (execOp fault committedAnyway now op s) as [s1 r]. simpl in *.
  assert (∀ g1, represents (tables s1) g1 →
    (∀ rs g', graph_run ops.*2 rs g1 g' → graph_run (op :: ops.*2) (r :: rs) g g') →
    (databaseError r = true → ∃ n, is_Some (fault n)) →
    let '(s2, rs) := let '(s2, rs) := execOps fault committedAnyway ops s1 in (s2, r :: rs) in
    ∃ g', graph_run (op :: ops.*2) rs g g' ∧ represents (tables s2) g' ∧
      tables_ok (tables s2) (sequences s2) ∧
      (existsb databaseError rs = true → ∃ n, is_Some (fault n))) as Hnext.
  { intros g1 Hrep1 Hstep Hfault. specialize (IH s1 g1 Hok1 Hrep1).
    destruct (execOps fault committedAnyway ops s1) as [s2 rs]. destruct IH as (g' & ? & ? & ? & ?).
    exists g'. split_and!; [by apply Hstep|done|done|].
    simpl. intros [?|?]%orb_true_iff; auto. }
  clear IH. destruct r as [[]|[| | | |ctx e]]; simpl in *.
  - destruct Hr as (g1 & Hg1 & Hrep1). apply (Hnext g1); [done| |done]. intros. by eapply graph_run_done.
  - destruct Hr as [Hg1 Heq]. apply (Hnext g); [by rewrite Heq| |done]. intros. by apply graph_run_refused.
  - destruct Hr as [Hg1 Heq]. apply (Hnext g); [by rewrite Heq| |done]. intros. by apply graph_run_refused.
  - destruct Hr as [Hg1 Heq]. apply (Hnext g); [by rewrite Heq| |done]. intros. by apply graph_run_refused.
  - destruct Hr as [Hg1 Heq]. apply (Hnext g); [by rewrite Heq| |done]. intros. by apply graph_run_refused.
  - destruct Hr as [Hf [Hrep1|(g1 & Hg1 & Hrep1)]].
    + apply (Hnext g); [done| |done]. intros. by apply graph_run_failed.
    + apply (Hnext g1); [done| |done]. intros. by eapply graph_run_unnoticed.
Qed.

(** *** Reading *)

Section reading.
Context (byName : list EntityRow → list EntityRow)
        (byTime : list ObservationRow → list ObservationRow)
        (byEnds : list Relation → list Relation).

(** ORDER BY only orders. *)
Context (byName_perm : ∀ l, byName l ≡ₚ l) (byTime_perm : ∀ l, byTime l ≡ₚ l)
        (byEnds_perm : ∀ l, byEnds l ≡ₚ l).

Definition nothingFails : nat → option string := λ _, None.

Definition entityOf (t : Tables) (r : EntityRow) : Entity :=
  {| Name := row_name r; EntityType := row_type r;
     Observations := observationsIn byTime (row_name r) t;
     CreatedAt := row_created r; UpdatedAt := row_updated r |}.

Lemma withObservations_ok wrapped rows : ∀ s,
  (∀ n m s', wrapped n m s' = m s') →
  ∃ c, withObservations nothingFails byTime wrapped rows s =
    ({| tables := tables s; sequences := sequences s; calls := c |}, Ok (entityOf (tables s) <$> rows)).
Proof.
  induction rows as [|r rows IH]; intros s Hw; simpl.
  { exists (calls s). by destruct s. }
  unfold mbind, tx_bind. rewrite Hw. unfold getObservationsForEntity, call, nothingFails at 1. simpl.
  destruct (IH (oneCall s) Hw) as [c Hc]. unfold oneCall in Hc. simpl in Hc. rewrite Hc. by exists c.
Qed.

Lemma elem_of_values {A} (m : gmap nat A) (r : A) :
  r ∈ (map_to_list m).*2 ↔ ∃ k, m !! k = Some r.
Proof.
  rewrite list_elem_of_fmap. split.
  - intros ([k r'] & -> & Hk%elem_of_map_to_list). by exists k.
  - intros [k Hk]. exists (k, r). split; [done|]. by apply elem_of_map_to_list.
Qed.

Lemma NoDup_omap {A B} (f : A → option B) (l : list A) :
  NoDup l → (∀ x y z, x ∈ l → y ∈ l → f x = Some z → f y = Some z → x = y) → NoDup (omap f l).
Proof.
  induction 1 as [|x l Hx Hl IH]; intros Hf; csimpl; [constructor|].
  assert (NoDup (omap f l)) as Hnd.
  { apply IH. intros x' y z Hx' Hy. apply Hf; by right. }
  destruct (f x) as [z|] eqn:Hz; [|done]. constructor; [|done].
  intros (y & Hy & Hyz)%list_elem_of_omap. apply Hx.
  assert (x = y) as -> by (eapply Hf; [left|by right|done|done]). done.
Qed.

(** Values that tell their keys apart by [f] come each once. *)
Lemma values_NoDup_by {A B} (f : A → B) (m : gmap nat A) :
  (∀ k k' r r', m !! k = Some r → m !! k' = Some r' → f r = f r' → k = k') →
  NoDup (f <$> (map_to_list m).*2).
Proof.
  intros Hf. rewrite <-list_fmap_compose. apply NoDup_fmap_2_strong; [|apply NoDup_map_to_list].
  intros [k r] [k' r'] Hk%elem_of_map_to_list Hk'%elem_of_map_to_list. simpl. intros Heq.
  assert (k = k') as <- by (by eapply Hf). congruence.
Qed.

(** The graph as it is read. *)
Definition ends (r : Relation) : string * string * string := (From r, To r, RelationType r).

Record lists (kg : KnowledgeGraph) (g : Graph) : Prop := {
  lists_once : NoDup (Name <$> Entities kg);
  lists_types : ∀ n ty, Types g !! n = Some ty ↔ ∃ e, e ∈ Entities kg ∧ Name e = n ∧ EntityType e = ty;
  lists_observed : ∀ e, e ∈ Entities kg →
    NoDup (Observations e) ∧ ∀ c, c ∈ Observations e ↔ (Name e, c) ∈ Observed g;
  lists_related : NoDup (ends <$> Relations kg) ∧ ∀ x, x ∈ ends <$> Relations kg ↔ x ∈ Related g;
}.

Lemma nameOf_Some t k n : nameOf t k = Some n ↔ ∃ r, entities t !! k = Some r ∧ row_name r = n.
Proof. unfold nameOf. rewrite fmap_Some. naive_solver. Qed.

Lemma observationsIn_exact t q g n :
  tables_ok t q → represents t g →
  NoDup (observationsIn byTime n t) ∧ ∀ c, c ∈ observationsIn byTime n t ↔ (n, c) ∈ Observed g.
Proof.
  clear byName byEnds byName_perm byEnds_perm. intros Hok Hrep. unfold observationsIn.
  set (p := λ o, row_name <$> entities t !! row_entity o = Some n). split.
  - rewrite byTime_perm. apply NoDup_fmap_2_strong.
    + intros o o' [Hp Ho]%list_elem_of_filter [Hp' Ho']%list_elem_of_filter Hc.
      apply elem_of_values in Ho as [k Hk]. apply elem_of_values in Ho' as [k' Hk'].
      assert (row_entity o = row_entity o') as He by (by eapply ok_names).
      assert (k = k') as <- by (by eapply ok_content). congruence.
    + apply NoDup_filter. apply (NoDup_fmap_1 (λ o, (row_entity o, row_content o))).
      apply values_NoDup_by. intros k k' r r' Hk Hk' [= He Hc]. by eapply ok_content.
  - intros c. rewrite byTime_perm, list_elem_of_fmap, (rep_observed _ _ Hrep). split.
    + intros (o & -> & [Hp [k Hk]%elem_of_values]%list_elem_of_filter). by exists k, o.
    + intros (k & o & Hk & <- & Hn). exists o. split; [done|]. apply list_elem_of_filter.
      split; [done|]. apply elem_of_values. by exists k.
Qed.

Lemma joinedRelations_exact t q g :
  tables_ok t q → represents t g →
  NoDup (ends <$> joinedRelations t) ∧ ∀ x, x ∈ ends <$> joinedRelations t ↔ x ∈ Related g.
Proof.
  clear byName byTime byEnds byName_perm byTime_perm byEnds_perm. intros Hok Hrep.
  assert (∀ r x, joined t r = Some x ↔ ∃ a b, nameOf t (row_from r) = Some a ∧
    nameOf t (row_to r) = Some b ∧ x = {| From := a; To := b; RelationType := row_relation r;
                                          RelatedAt := row_related r |}) as Hj.
  { intros r x. unfold joined, nameOf. destruct (entities t !! row_from r), (entities t !! row_to r);
      simpl; naive_solver. }
  split.
  - unfold joinedRelations. rewrite list_fmap_omap. apply NoDup_omap.
    + apply (NoDup_fmap_1 (λ r, (row_from r, row_to r, row_relation r))). apply values_NoDup_by.
      intros k k' r r' Hk Hk' [= Hf Ht Hty]. by eapply ok_triple.
    + intros r r' x [k Hk]%elem_of_values [k' Hk']%elem_of_values.
      intros (y & Hr & ->)%fmap_Some (y' & Hr' & Hx)%fmap_Some.
      apply Hj in Hr as (a & b & Ha & Hb & ->). apply Hj in Hr' as (a' & b' & Ha' & Hb' & ->).
      unfold ends in Hx. simplify_eq/=.
      assert (k = k') as <-; [|congruence].
      eapply ok_triple; [done|done|done| | |done]; by eapply ok_names.
  - unfold joinedRelations. intros [[a b] ty]. rewrite (rep_related _ _ Hrep), list_elem_of_fmap. split.
    + intros (y & Hy & (r & [k Hk]%elem_of_values & Hr)%list_elem_of_omap).
      apply Hj in Hr as (a' & b' & Ha & Hb & ->). unfold ends in Hy. simplify_eq/=. exists k, r. by split_and!.
    + intros (k & r & Hk & <- & Ha & Hb). eexists. split; cycle 1.
      * apply list_elem_of_omap. exists r. split; [apply elem_of_values; by exists k|].
        apply Hj. by exists a, b.
      * done.
Qed.

Lemma getAllEntities_reads s :
  ∃ c, getAllEntities nothingFails byName byTime s =
    ({| tables := tables s; sequences := sequences s; calls := c |},
     Ok (entityOf (tables s) <$> byName (map_to_list (entities (tables s))).*2)).
Proof.
  unfold getAllEntities, mbind, tx_bind, call, nothingFails at 1.
  apply (withObservations_ok (λ _ m, m) _ (oneCall s)). done.
Qed.

Lemma ReadGraph_reads s :
  ∃ c, ReadGraph nothingFails byName byTime byEnds s =
    ({| tables := tables s; sequences := sequences s; calls := c |},
     Ok {| Entities := entityOf (tables s) <$> byName (map_to_list (entities (tables s))).*2;
           Relations := byEnds (joinedRelations (tables s)) |}).
Proof.
  destruct (getAllEntities_reads s) as [c Hc].
  unfold ReadGraph, mbind, tx_bind, during. rewrite Hc. by exists (S c).
Qed.

Lemma values_exact t q g :
  tables_ok t q → represents t g →
  lists {| Entities := entityOf t <$> byName (map_to_list (entities t)).*2;
           Relations := byEnds (joinedRelations t) |} g.
Proof.
  intros Hok Hrep.
  assert (∀ r, r ∈ byName (map_to_list (entities t)).*2 ↔ ∃ k, entities t !! k = Some r) as Hrows
    by (intros r; rewrite byName_perm; apply elem_of_values).
  split; cbn [Entities Relations].
  - rewrite <-list_fmap_compose, byName_perm. apply values_NoDup_by.
    intros k k' r r' Hk Hk' Hn. apply (ok_names _ _ Hok k k' (row_name r)); apply nameOf_Some; eauto.
  - intros n ty. rewrite (rep_types _ _ Hrep). setoid_rewrite list_elem_of_fmap. split.
    + intros (k & r & Hk & <- & <-). exists (entityOf t r). split; [|done].
      exists r. split; [done|]. apply Hrows. eauto.
    + intros (e & (r & -> & [k Hk]%Hrows) & <- & <-). eauto.
  - intros e (r & -> & _)%list_elem_of_fmap. by eapply observationsIn_exact.
  - destruct (joinedRelations_exact t q g Hok Hrep) as [Hnd Hin].
    split; [by rewrite byEnds_perm|]. intros x. by rewrite byEnds_perm.
Qed.

(** Reading the graph, when no call fails, returns every entity of the graph once
    with its type and its observations, each once, and every relation once, and
    nothing else, and leaves the tables as they are. *)
Theorem ReadGraph_exact s g :
  tables_ok (tables s) (sequences s) → represents (tables s) g →
  ∃ s' kg, ReadGraph nothingFails byName byTime byEnds s = (s', Ok kg) ∧
    tables s' = tables s ∧ lists kg g.
Proof.
  intros Hok Hrep. destruct (ReadGraph_reads s) as [c Hc].
  eexists _, _. split_and!; [exact Hc|done|]. by eapply values_exact.
Qed.
End reading.

(** A first batch, one that names an unknown entity, and a relation. *)
Definition sampleOps : list (Z * Op) :=
  [(1%Z, Create [ {| Name := "a"; EntityType := "t"; Observations := ["x"; "x"];
                     CreatedAt := 0; UpdatedAt := 0 |};
                  {| Name := "b"; EntityType := "t"; Observations := []; CreatedAt := 0; UpdatedAt := 0 |} ]);
   (2%Z, Observe [("a", ["y"]); ("c", ["z"])]);
   (3%Z, Relate [ {| From := "a"; To := "b"; RelationType := "knows"; RelatedAt := 0 |} ])].

Lemma ReadGraph_exact_witness :
  let s := (execOps nothingFails (λ _, false) sampleOps freshStore).1 in
  ∃ g s' kg, represents (tables s) g ∧ ReadGraph nothingFails id id id s = (s', Ok kg) ∧
    tables s' = tables s ∧ lists kg g.
Proof.
  intros s. destruct freshStore_ok as [Hok Hrep].
  pose proof (execOps_run nothingFails (λ _, false) sampleOps freshStore emptyGraph Hok Hrep) as Hrun.
  rewrite (surjective_pairing (execOps _ _ _ _)) in Hrun. destruct Hrun as (g & _ & Hrep' & Hok' & _).
  exists g. destruct (ReadGraph_exact id id id (λ _, reflexivity _) (λ _, reflexivity _) (λ _, reflexivity _)
    s g Hok' Hrep') as (s' & kg & ? & ? & ?). exists s', kg. by split_and!.
Defined.

(** C8: from an empty database, whatever calls fail, operations of any sequence
    take effect all or nothing: those without an error did to the graph what the
    operation promises, an error of the operation's own is the one the graph calls
    for and left it alone, a database error left it alone or the operation took
    effect in full, and the tables end as a well-formed representation of the graph;
    database errors come only of failing calls. *)
Theorem store_refines_graph fault committedAnyway ops :
  let '(s, rs) := execOps fault committedAnyway ops freshStore in
  ∃ g, graph_run ops.*2 rs emptyGraph g ∧ represents (tables s) g ∧
    tables_ok (tables s) (sequences s) ∧
    (existsb databaseError rs = true → ∃ n, is_Some (fault n)).
Proof. destruct freshStore_ok. by apply execOps_run. Qed.

Example sample_results :
  (execOps nothingFails (λ _, false) sampleOps freshStore).2 = [Ok tt; Err (EntityNotFound "c"); Ok tt].
Proof. vm_compute. reflexivity. Qed.

Example sample_graph :
  let s := (execOps nothingFails (λ _, false) sampleOps freshStore).1 in
  match (ReadGraph nothingFails id id id s).2 with
  | Ok kg => ((λ e, (Name e, Observations e)) <$> Entities kg, ends <$> Relations kg)
      = ([("b", []); ("a", ["x"])], [("a", "b", "knows")])
  | Err _ => False
  end.
Proof. vm_compute. reflexivity. Qed.
