(* ===== verification/Relay.v ===== *)
(** * The relay of messages between MCP servers and clients

    internal/server/bidirectional_relay.go with its callers in proxy_router.go and
    direct_tool_calls.go.  While a client waits for the response to a request, the
    server may send it notifications and requests of its own; the client answers
    those on other connections.  A world holds all relays with their pending waits,
    the Go channels that the waits read, the goroutines that wait, and the replies of clients on their way;
    an action is one step of one of them, so every interleaving is a list of actions.
    The ids of messages, the framing of payloads and the parser of event streams
    come first. *)
From stdpp Require Import pretty.
From S2P Require Import Prelude GoString GoNum.

#[local] Open Scope Z_scope.

Set Default Proof Using "Type*".

(** ** Ids *)

(** What an id of a message is in JSON: a number is an integer that float64
    holds exactly (of at most 2^53 in size), or any other with what %v prints
    of the float64 nearest to it. *)
Inductive ID :=
  | NullID
  | StringID (s : string)
  | IntID (n : Z)
  | FloatID (printed : string)
  | OtherID (json : string).

(** The dynamic value the id is decoded to. *)
Inductive IdValue :=
  | INil
  | IString (s : string)
  | IFloat64 (n : Z)
  | IInt64 (n : Z)
  | IFloat (printed : string)
  | IJson (json : string).

Fixpoint trimZeros (s : string) : string :=
  match s with
  | "" => ""
  | String c rest =>
      match trimZeros rest with
      | "" => if Ascii.eqb c "0" then "" else String c ""
      | rest' => String c rest'
      end
  end.

(** %v of a float64 that holds an integer: the shortest digits, with an exponent
    from one million on.  The digits are those of the integer up to 2^53. *)
Definition printFloat64 (n : Z) : string :=
  if Z.abs n <? 1000000 then Itoa n
  else
    let digits := Itoa (Z.abs n) in
    let exponent := (String.length digits - 1)%nat in
    (if n <? 0 then "-" else "") +:+
    match trimZeros digits with
    | String d "" => String d ""
    | String d rest => String d ("." +:+ rest)
    | "" => ""
    end +:+ "e+" +:+ (if (exponent <? 10)%nat then "0" else "") +:+ Itoa (Z.of_nat exponent).

Definition idKey (id : IdValue) : string :=
  match id with
  | INil => ""
  | IString v => "s:" +:+ v
  | IFloat64 v => "n:" +:+ printFloat64 v
  | IInt64 v => "n:" +:+ Itoa v
  | IFloat printed => "n:" +:+ printed
  | IJson json => "j:" +:+ json
  end.

Definition idsEqual (a b : IdValue) : bool := String.eqb (idKey a) (idKey b).

(** [json.Unmarshal] into an interface: every number is a float64.  The
    relay, too, reads its messages so: its decoder's [UseNumber] is for the raw
    text of a message only, and the conversion of [json.Number]s after it never
    happens. *)
Definition unmarshalID (id : ID) : IdValue :=
  match id with
  | NullID => INil
  | StringID s => IString s
  | IntID n => IFloat64 n
  | FloatID p => IFloat p
  | OtherID j => IJson j
  end.

Example printFloat64_ex :
  printFloat64 <$> [0; -7; 999999; 1000000; 1234567; -1200000; 12345678901]
  = ["0"; "-7"; "999999"; "1e+06"; "1.234567e+06"; "-1.2e+06"; "1.2345678901e+10"].
Proof. vm_compute. reflexivity. Qed.

(** ** Messages *)

(** What is read of a JSON object: its text, its method if that is a string, and
    its id if there is one. *)
Record Message := { raw : string; Method : option string; Id : option ID }.

Inductive Kind := Notification | Request | Response | Unknown.

Definition hasMethod (msg : Message) : bool :=
  match Method msg with Some m => negb (String.eqb m "") | None => false end.

Definition classifyMessage (msg : Message) : Kind :=
  match hasMethod msg, Id msg with
  | true, None => Notification
  | true, Some _ => Request
  | false, Some _ => Response
  | false, None => Unknown
  end.

(** [msg["id"]]. *)
Definition messageID (msg : Message) : IdValue := from_option unmarshalID INil (Id msg).

(** ** Framing *)

Inductive Mode := SSE | NDJSON | Single.

#[export] Instance Mode_dec : EqDecision Mode.
Proof. solve_decision. Defined.

(** The headers of a request that the mode depends on. *)
Record ClientHeaders := { Accept : string; XStreaming : string; UserAgent : string }.

Definition detectClientStreamMode (r : option ClientHeaders) : Mode :=
  match r with
  | None => Single
  | Some h =>
      if Contains (Accept h) "text/event-stream" then SSE
      else if String.eqb (XStreaming h) "true" then NDJSON
      else if Contains (UserAgent h) "gemini" || Contains (UserAgent h) "Gemini" then NDJSON
      else Single
  end.

(** What [writeJSON] writes of a payload in each mode. *)
Definition frame (mode : Mode) (payload : string) : string :=
  match mode with
  | SSE => "event: message" +:+ String newline ("data: " +:+ payload +:+ String newline (String newline ""))
  | NDJSON => payload +:+ String newline ""
  | Single => ""
  end.

(** ** Reading event streams *)

Record Events := { eventName : string; dataBuf : string }.

Definition noEvent : Events := {| eventName := ""; dataBuf := "" |}.


(** [strings.TrimRight(line, "\r\n")] of a line without its line break. *)
Fixpoint trimCR (s : string) : string :=
  match s with
  | "" => ""
  | String c rest =>
      match trimCR rest with
      | "" => if Ascii.eqb c carriageReturn then "" else String c ""
      | rest' => String c rest'
      end
  end.

(** The part of the loop of [driveSSEBidirectional] after the line is forwarded: the
    event that the line completes, if any, and the state. *)
Definition sseLine (line : string) (st : Events) : Events * option (string * string) :=
  let raw := trimCR line in
  if decide (raw = "") then
    if decide (dataBuf st = "") then (noEvent, None)
    else (noEvent, Some (eventName st, TrimSpace (dataBuf st)))
  else if HasPrefix raw "event:" then
    ({| eventName := TrimSpace (TrimPrefix raw "event:"); dataBuf := dataBuf st |}, None)
  else if HasPrefix raw "data:" then
    let d := TrimPrefix (TrimPrefix raw "data:") " " in
    ({| eventName := eventName st;
        dataBuf := dataBuf st +:+ (if decide (dataBuf st = "") then "" else String newline "") +:+ d |},
     None)
  else (st, None).

Fixpoint sseLines (lines : list string) (st : Events) : list (string * string) :=
  match lines with
  | [] => []
  | line :: rest =>
      let '(st', ev) := sseLine line st in option_list ev ++ sseLines rest st'
  end.

(** The events of a stream, for the name and the payload of each. *)
Definition sseEvents (body : string) : list (string * string) :=
  sseLines (SplitByte body newline) noEvent.

(** A payload on one line. *)
Definition one_line (payload : string) : Prop :=
  payload ≠ "" ∧ TrimSpace payload = payload ∧
  CountByte payload newline = 0%nat ∧ CountByte payload carriageReturn = 0%nat.

#[export] Instance one_line_dec payload : Decision (one_line payload).
Proof. unfold one_line. apply _. Defined.

Lemma trimCR_id s : CountByte s carriageReturn = 0%nat → trimCR s = s.
Proof.
  induction s as [|c s IH]; [done|]. cbn [CountByte trimCR]. intros Hc.
  destruct (Ascii.eqb c carriageReturn) eqn:He; [lia|]. rewrite IH by lia. by destruct s.
Qed.

Lemma sseLines_frame payload rest st :
  one_line payload → dataBuf st = "" →
  sseLines (SplitByte (frame SSE payload +:+ rest) newline) st
  = ("message", payload) :: sseLines (SplitByte rest newline) noEvent.
Proof.
  intros (Hne & Htrim & Hnl & Hcr) Hst.
  assert (frame SSE payload +:+ rest =
    "event: message" +:+ String newline (("data: " +:+ payload) +:+ String newline ("" +:+ String newline rest)))
    as ->.
  { unfold frame. simpl. by rewrite <-!sapp_assoc. }
  assert (CountByte ("data: " +:+ payload) newline = 0%nat ∧
          CountByte ("data: " +:+ payload) carriageReturn = 0%nat) as [Hdn Hdc].
  { rewrite !CountByte_app, Hnl, Hcr. done. }
  rewrite !SplitByte_app, (SplitByte_none _ _ Hdn).
  change (SplitByte "event: message" newline) with ["event: message"].
  change (SplitByte "" newline) with [""]. cbn [app sseLines].
  assert (sseLine "event: message" st = ({| eventName := "message"; dataBuf := "" |}, None)) as ->.
  { unfold sseLine. rewrite (trimCR_id "event: message" eq_refl). rewrite Hst. reflexivity. }
  assert (sseLine ("data: " +:+ payload) {| eventName := "message"; dataBuf := "" |}
    = ({| eventName := "message"; dataBuf := payload |}, None)) as ->.
  { unfold sseLine. rewrite (trimCR_id _ Hdc).
    destruct (decide ("data: " +:+ payload = "")) as [He|_]; [discriminate He|].
    change (HasPrefix ("data: " +:+ payload) "event:") with false.
    change ("data: " +:+ payload) with ("data:" +:+ (" " +:+ payload)).
    by rewrite HasPrefix_app, !TrimPrefix_app. }
  assert (sseLine "" {| eventName := "message"; dataBuf := payload |}
    = (noEvent, Some ("message", payload))) as ->; [|reflexivity].
  unfold sseLine. cbn [trimCR]. destruct (decide ("" = "")) as [_|[]]; [|reflexivity].
  cbn [dataBuf eventName]. destruct (decide (payload = "")) as [He|_]; [by destruct Hne|].
  by rewrite Htrim.
Qed.

(** The payloads that the proxy writes to a client with the framing of event
    streams are read back, one event for each, by its own reader of event streams, if
    each is on one line. *)
Theorem sse_roundtrip payloads :
  Forall one_line payloads →
  sseEvents (concatS (frame SSE <$> payloads)) = (λ p, ("message", p)) <$> payloads.
Proof.
  intros Hall. unfold sseEvents. assert (dataBuf noEvent = "") as Hst by done.
  revert Hst. generalize noEvent. induction Hall as [|p ps Hp Hps IH]; intros st Hst.
  - unfold sseLines. simpl. unfold sseLine. simpl. by rewrite Hst.
  - change (concatS (frame SSE <$> p :: ps)) with (frame SSE p +:+ concatS (frame SSE <$> ps)).
    rewrite sseLines_frame by done. by rewrite IH.
Qed.

Lemma sse_roundtrip_witness :
  Forall one_line ["{}"; "{'id':1}"] ∧
  sseEvents (concatS (frame SSE <$> ["{}"; "{'id':1}"])) = [("message", "{}"); ("message", "{'id':1}")].
Proof.
  assert (Forall one_line ["{}"; "{'id':1}"]) as H by (apply (bool_decide_eq_true_1 _); vm_compute; reflexivity).
  split; [exact H|]. exact (sse_roundtrip _ H).
Defined.

(** The relay forwards the text of a message as the server sent it; a message printed
    on several lines is cut short in the event stream. *)
Example pretty_printed_cut :
  let payload := "{" +:+ String newline "  'id': 1" +:+ String newline "}" in
  sseEvents (frame SSE payload) = [("message", "{")].
Proof. vm_compute. reflexivity. Qed.

(** ** The world *)

(** What is sent to a wait: nil, or the reply of a client with the number of its request. *)
Definition Payload : Type := option (nat * string).

(** The state of the goroutine of a wait: not started, waiting, ended with a reply to the
    server, ended by the context, or never started. *)
Inductive Status := Registered | Waiting | Replied | Abandoned | Unsent.

#[export] Instance Status_dec : EqDecision Status.
Proof. solve_decision. Defined.

(** A wait for the reply to a request of a server: the variables of its goroutine and the Go channel, of
    capacity one, that [registerPending] makes. *)
Record Wait := {
  wRelay : nat;
  wKey : string;
  wID : IdValue;
  buffer : option Payload;
  closed : bool;
  status : Status;
}.

(** What a client gets. *)
Inductive Out := Relayed (payload : string) | Final (msg : Message) | Gateway502.

(** Where the handler of a client's request is: before a message, after the write of a
    request of the server (and whether that succeeded), at the end of the loop, and past each of the two
    deferred calls. *)
Inductive PC :=
  | Reading
  | Relaying (a : nat) (written : bool)
  | Finished (result : option Message)
  | Returning
  | Unregistered
  | Gone.

(** A call of [runBidirectionalStreamableHTTPRelay] with its [clientChannel]. *)
Record Relay := {
  mode : Mode;
  originalID : IdValue;
  regKey : string;
  ctxDone : bool;
  pending : gmap string nat;
  out : list Out;
  methodNotFound : list IdValue;
  pc : PC;
}.

(** How far [routeClientReply] is. *)
Inductive Phase :=
  | BySession
  | Snapshot
  | Trying (l : list nat)
  | Accepted (a : nat)
  | Refused.

Record Post := { pSession : string; pKey : string; pBody : string; phase : Phase }.

(** What a goroutine sends to the server. *)
Inductive UpstreamReply :=
  | ClientReply (post : nat) (body : string)
  | ClosedBeforeResponding
  | ReplyTimeout.

(** [sends] are the sends of [resolvePending] to channels it has taken from the map;
    [replies] the attempts to send a reply to the server, with the wait each is for. *)
Record World := {
  relays : list Relay;
  waits : list Wait;
  sends : list (nat * Payload);
  posts : list Post;
  registry : gmap string nat;
  replies : list (nat * UpstreamReply);
  panicked : bool;
}.

Definition newWorld : World :=
  {| relays := []; waits := []; sends := []; posts := []; registry := ∅; replies := [];
     panicked := false |}.

Definition setRelays (f : list Relay → list Relay) (w : World) : World :=
  {| relays := f (relays w); waits := waits w; sends := sends w; posts := posts w;
     registry := registry w; replies := replies w; panicked := panicked w |}.

Definition setWaits (f : list Wait → list Wait) (w : World) : World :=
  {| relays := relays w; waits := f (waits w); sends := sends w; posts := posts w;
     registry := registry w; replies := replies w; panicked := panicked w |}.

Definition setSends (l : list (nat * Payload)) (w : World) : World :=
  {| relays := relays w; waits := waits w; sends := l; posts := posts w;
     registry := registry w; replies := replies w; panicked := panicked w |}.

Definition setPosts (f : list Post → list Post) (w : World) : World :=
  {| relays := relays w; waits := waits w; sends := sends w; posts := f (posts w);
     registry := registry w; replies := replies w; panicked := panicked w |}.

Definition setRegistry (f : gmap string nat → gmap string nat) (w : World) : World :=
  {| relays := relays w; waits := waits w; sends := sends w; posts := posts w;
     registry := f (registry w); replies := replies w; panicked := panicked w |}.

Definition setPending (f : gmap string nat → gmap string nat) (r : Relay) : Relay :=
  {| mode := mode r; originalID := originalID r; regKey := regKey r; ctxDone := ctxDone r;
     pending := f (pending r); out := out r; methodNotFound := methodNotFound r; pc := pc r |}.

Definition setPC (p : PC) (r : Relay) : Relay :=
  {| mode := mode r; originalID := originalID r; regKey := regKey r; ctxDone := ctxDone r;
     pending := pending r; out := out r; methodNotFound := methodNotFound r; pc := p |}.

Definition setContextDone (r : Relay) : Relay :=
  {| mode := mode r; originalID := originalID r; regKey := regKey r; ctxDone := true;
     pending := pending r; out := out r; methodNotFound := methodNotFound r; pc := pc r |}.

Definition emit (o : list Out) (nf : list IdValue) (r : Relay) : Relay :=
  {| mode := mode r; originalID := originalID r; regKey := regKey r; ctxDone := ctxDone r;
     pending := pending r; out := out r ++ o; methodNotFound := methodNotFound r ++ nf; pc := pc r |}.

Definition setStatus (s : Status) (wt : Wait) : Wait :=
  {| wRelay := wRelay wt; wKey := wKey wt; wID := wID wt; buffer := buffer wt; closed := closed wt;
     status := s |}.

Definition setBuffer (b : option Payload) (wt : Wait) : Wait :=
  {| wRelay := wRelay wt; wKey := wKey wt; wID := wID wt; buffer := b; closed := closed wt;
     status := status wt |}.

Definition close (wt : Wait) : Wait :=
  {| wRelay := wRelay wt; wKey := wKey wt; wID := wID wt; buffer := buffer wt; closed := true;
     status := status wt |}.

Definition setPhase (ph : Phase) (p : Post) : Post :=
  {| pSession := pSession p; pKey := pKey p; pBody := pBody p; phase := ph |}.

(** ** Operations *)

Section operations.
Implicit Types (w : World).

Definition updateRelay (i : nat) (f : Relay → Relay) w : World := setRelays (alter f i) w.
Definition updateWait (a : nat) (f : Wait → Wait) w : World := setWaits (alter f a) w.
Definition updatePost (p : nat) (f : Post → Post) w : World := setPosts (alter f p) w.

(** A new channel for the key; an earlier one of the same key is forgotten. *)
Definition registerPending (i : nat) (key : string) (id : IdValue) w : World * nat :=
  let a := length (waits w) in
  (updateRelay i (setPending <[key := a]>)
     (setWaits (λ l, l ++ [ {| wRelay := i; wKey := key; wID := id; buffer := None; closed := false;
                               status := Registered |} ]) w), a).

Definition lookupPending (i : nat) (key : string) w : option nat :=
  r ← relays w !! i; pending r !! key.

(** The entry is deleted under the lock; the payload is sent later. *)
Definition take (i : nat) (key : string) (a : nat) (payload : Payload) w : World :=
  setSends (sends w ++ [(a, payload)]) (updateRelay i (setPending (delete key)) w).

(** [resolvePending]: the channel that the payload is sent to, if there was a wait. *)
Definition resolvePending (i : nat) (key : string) (payload : Payload) w : World * option nat :=
  match lookupPending i key w with
  | None => (w, None)
  | Some a => (take i key a payload w, Some a)
  end.

(** The send itself, dropped if the channel is full; a closed channel panics. *)
Definition deliver (j : nat) w : option World :=
  '(a, payload) ← sends w !! j;
  wt ← waits w !! a;
  let w := setSends (delete j (sends w)) w in
  Some (if closed wt then
          {| relays := relays w; waits := waits w; sends := sends w; posts := posts w;
             registry := registry w; replies := replies w; panicked := true |}
        else match buffer wt with
             | Some _ => w
             | None => updateWait a (setBuffer (Some payload)) w
             end).

(** Every pending channel is closed, which panics for one that is closed already. *)
Definition cancelPending (i : nat) w : World :=
  match relays w !! i with
  | None => w
  | Some r =>
      let addrs := (map_to_list (pending r)).*2 in
      let again := existsb (λ a, from_option closed false (waits w !! a)) addrs in
      let w := updateRelay i (setPending (λ _, ∅)) w in
      {| relays := relays w;
         waits := imap (λ a wt, if decide (a ∈ addrs) then close wt else wt) (waits w);
         sends := sends w; posts := posts w; registry := registry w; replies := replies w;
         panicked := panicked w || again || negb (bool_decide (NoDup addrs)) |}
  end.

(** The registry of channels by session. *)
Definition put (key : string) (i : nat) w : World :=
  if decide (key = "") then w else setRegistry <[key := i]> w.

Definition remove (key : string) w : World :=
  if decide (key = "") then w else setRegistry (delete key) w.

Definition get (key : string) w : option nat :=
  if decide (key = "") then None else registry w !! key.

(** [writeJSON], which writes nothing in single mode. *)
Definition writeJSON (i : nat) (payload : string) (written : bool) w : World :=
  updateRelay i (λ r, if written && bool_decide (mode r ≠ Single) then emit [Relayed payload] [] r else r) w.

Definition headersWritten (r : Relay) : bool :=
  existsb (λ o, match o with Relayed _ => true | _ => false end) (out r).

(** What the decoder yields. *)
Inductive Input := EndOfStream | BadStream | NotAnObject | Decoded (msg : Message).

(** One turn of the loop of [relayBidirectional], up to the write of a request;
    [written] is whether the write to the client succeeds. *)
Definition relayBidirectional (i : nat) (inp : Input) (written : bool) w : World :=
  match relays w !! i with
  | None => w
  | Some r =>
      match inp with
      | EndOfStream | BadStream => updateRelay i (setPC (Finished None)) w
      | NotAnObject => w
      | Decoded msg =>
          match classifyMessage msg with
          | Response =>
              if idsEqual (messageID msg) (originalID r)
              then updateRelay i (setPC (Finished (Some msg))) w
              else writeJSON i (raw msg) written w
          | Notification =>
              if decide (mode r = Single) then w else writeJSON i (raw msg) written w
          | Request =>
              if decide (mode r = Single) then updateRelay i (emit [] [messageID msg]) w
              else
                let '(w, a) := registerPending i (idKey (messageID msg)) (messageID msg) w in
                updateRelay i (setPC (Relaying a written)) (writeJSON i (raw msg) written w)
          | Unknown => w
          end
      end
  end.

(** After the write of a request: its goroutine starts, or the wait is taken back. *)
Definition afterWrite (i a : nat) (written : bool) w : World :=
  let w := updateRelay i (setPC Reading) w in
  if written then updateWait a (setStatus Waiting) w
  else
    let w := updateWait a (setStatus Unsent) w in
    match waits w !! a with
    | Some wt => (resolvePending i (wKey wt) None w).1
    | None => w
    end.

(** [handleSSEUpstreamPayload]: the lines of the event have been forwarded before; a
    request is registered, and its goroutine starts next. *)
Definition handleSSEUpstreamPayload (i : nat) (eventName : string) (payload : option Message)
    (sessionURL : string) w : World :=
  if decide (eventName = "endpoint") then w
  else match payload with
       | None => w
       | Some msg =>
           match classifyMessage msg with
           | Request =>
               if decide (sessionURL = "") then w
               else
                 let '(w, a) := registerPending i (idKey (messageID msg)) (messageID msg) w in
                 updateRelay i (setPC (Relaying a true)) w
           | _ => w
           end
       end.

(** The end of [runBidirectionalStreamableHTTPRelay], before its deferred calls. *)
Definition respond (i : nat) (written : bool) (result : option Message) w : World :=
  updateRelay i (λ r, setPC Returning
    match result with
    | None => if headersWritten r then r else emit [Gateway502] [] r
    | Some msg => if decide (mode r = Single) then emit [Final msg] [] r
                  else if written then emit [Final msg] [] r else r
    end) w.

(** What wakes the goroutine of a wait. *)
Inductive Wake := ByContext | ByChannel | ByTimeout.

Definition reply (a : nat) (x : UpstreamReply) w : World :=
  updateWait a (setStatus Replied)
    {| relays := relays w; waits := waits w; sends := sends w; posts := posts w;
       registry := registry w; replies := replies w ++ [(a, x)]; panicked := panicked w |}.

Definition wake (a : nat) (how : Wake) w : option World :=
  wt ← waits w !! a;
  if decide (status wt = Waiting) then
    match how with
    | ByContext =>
        r ← relays w !! wRelay wt;
        if ctxDone r
        then Some (resolvePending (wRelay wt) (wKey wt) None (updateWait a (setStatus Abandoned) w)).1
        else None
    | ByChannel =>
        match buffer wt with
        | Some (Some (p, body)) => Some (reply a (ClientReply p body) (updateWait a (setBuffer None) w))
        | Some None => Some (reply a ClosedBeforeResponding (updateWait a (setBuffer None) w))
        | None => if closed wt then Some (reply a ClosedBeforeResponding w) else None
        end
    | ByTimeout => Some (resolvePending (wRelay wt) (wKey wt) None (reply a ReplyTimeout w)).1
    end
  else None.

(** A step of [routeClientReply]: the channel of the session, then all that are
    registered, in the order of the map. *)
Definition routeClientReply (p : nat) (order : list nat) w : option World :=
  post ← posts w !! p;
  let try_ i (otherwise : Phase) :=
    match resolvePending i (pKey post) (Some (p, pBody post)) w with
    | (w', Some a) => updatePost p (setPhase (Accepted a)) w'
    | (_, None) => updatePost p (setPhase otherwise) w
    end in
  match phase post with
  | BySession =>
      Some match get (pSession post) w with
           | Some i => try_ i Snapshot
           | None => updatePost p (setPhase Snapshot) w
           end
  | Snapshot =>
      if decide (order ≡ₚ (map_to_list (registry w)).*2)
      then Some (updatePost p (setPhase (Trying order)) w) else None
  | Trying (i :: rest) => Some (try_ i (Trying rest))
  | Trying [] => Some (updatePost p (setPhase Refused) w)
  | Accepted _ | Refused => None
  end.

(** ** Actions *)

Inductive Action :=
  | Open (m : Mode) (id : IdValue) (key : string)
  | Receive (i : nat) (inp : Input) (written : bool)
  | Forward (i : nat) (line : string)
  | Event (i : nat) (eventName : string) (payload : option Message) (sessionURL : string)
  | EventsEnd (i : nat)
  | Proceed (i : nat)
  | Disconnect (i : nat)
  | Stop (i : nat)
  | Respond (i : nat) (written : bool)
  | Leave (i : nat)
  | WakeUp (a : nat) (how : Wake)
  | Deliver (j : nat)
  | PostReply (session key body : string)
  | Route (p : nat) (order : list nat).

(** The effect of an action, if it can happen.  [Receive] is a turn of the loop over a
    streamed response, [Forward], [Event] and [EventsEnd] are those of the loop over an event stream.  The loop looks at the context
    before each message, and may end there once the client is gone; the handler
    leaves the registry, then cancels its waits, and its context ends. *)
Definition exec (act : Action) w : option World :=
  match act with
  | Open m id key =>
      let i := length (relays w) in
      Some (put key i (setRelays (λ l, l ++ [ {| mode := m; originalID := id; regKey := key;
        ctxDone := false; pending := ∅; out := []; methodNotFound := []; pc := Reading |} ]) w))
  | Receive i inp written =>
      r ← relays w !! i;
      match pc r with Reading => Some (relayBidirectional i inp written w) | _ => None end
  | Forward i line =>
      r ← relays w !! i;
      match pc r, mode r with Reading, SSE => Some (updateRelay i (emit [Relayed line] []) w) | _, _ => None end
  | Event i eventName payload sessionURL =>
      r ← relays w !! i;
      match pc r, mode r with
      | Reading, SSE => Some (handleSSEUpstreamPayload i eventName payload sessionURL w)
      | _, _ => None
      end
  | EventsEnd i =>
      r ← relays w !! i;
      match pc r, mode r with Reading, SSE => Some (updateRelay i (setPC Returning) w) | _, _ => None end
  | Proceed i =>
      r ← relays w !! i;
      match pc r with Relaying a written => Some (afterWrite i a written w) | _ => None end
  | Disconnect i => Some (updateRelay i setContextDone w)
  | Stop i =>
      r ← relays w !! i;
      match pc r, ctxDone r with
      | Reading, true => Some (updateRelay i (setPC (Finished None)) w)
      | _, _ => None
      end
  | Respond i written =>
      r ← relays w !! i;
      match pc r with Finished result => Some (respond i written result w) | _ => None end
  | Leave i =>
      r ← relays w !! i;
      match pc r with
      | Returning => Some (remove (regKey r) (updateRelay i (setPC Unregistered) w))
      | Unregistered => Some (updateRelay i (setContextDone ∘ setPC Gone) (cancelPending i w))
      | _ => None
      end
  | WakeUp a how => wake a how w
  | Deliver j => deliver j w
  | PostReply session key body =>
      Some (setPosts (λ l, l ++ [ {| pSession := session; pKey := key; pBody := body;
                                     phase := BySession |} ]) w)
  | Route p order => routeClientReply p order w
  end.

(** Actions that cannot happen are skipped. *)
Definition run (acts : list Action) w : World := foldl (λ w act, default w (exec act w)) w acts.
End operations.

(** ** The invariant *)

(** What is seen of a wait by those that send to it and by its goroutine, and of a
    relay by those. *)
Definition chanOf (w : World) (a : nat) : option (nat * string * option Payload * bool) :=
  (λ wt, (wRelay wt, wKey wt, buffer wt, closed wt)) <$> waits w !! a.
Definition statusOf (w : World) (a : nat) : option (nat * Status) :=
  (λ wt, (wRelay wt, status wt)) <$> waits w !! a.
Definition pendingOf (w : World) (i : nat) : option (gmap string nat) := pending <$> relays w !! i.
Definition pcOf (w : World) (i : nat) : option (PC * bool) :=
  (λ r, (pc r, ctxDone r)) <$> relays w !! i.

(** The reply of the [p]-th request was accepted for the wait, whose key it has. *)
Definition delivered (w : World) (a p : nat) (body : string) : Prop :=
  ∃ post i b c, posts w !! p = Some post ∧ chanOf w a = Some (i, pKey post, b, c) ∧ pBody post = body ∧
    phase post = Accepted a.

(** A channel that may be sent to is open and empty, and only one send can be
    on its way to it; what is sent to it was accepted for it. *)
Record channels_ok (w : World) : Prop := {
  c_panic : panicked w = false;
  c_pending : ∀ i m k a, pendingOf w i = Some m → m !! k = Some a → chanOf w a = Some (i, k, None, false);
  c_sends : ∀ a x, (a, x) ∈ sends w → ∃ i k, chanOf w a = Some (i, k, None, false);
  c_apart : ∀ a x i m k, (a, x) ∈ sends w → pendingOf w i = Some m → m !! k ≠ Some a;
  c_once : NoDup (sends w).*1;
  c_sent : ∀ a p body, (a, Some (p, body)) ∈ sends w → delivered w a p body;
  c_buffer : ∀ a i k p body c, chanOf w a = Some (i, k, Some (Some (p, body)), c) → delivered w a p body;
  c_replies : ∀ a p body, (a, ClientReply p body) ∈ replies w → delivered w a p body;
}.

(** A goroutine replies at most once, and ends without a reply only if the context
    is done; one is being started exactly if its relay is about to. *)
Record goroutines_ok (w : World) : Prop := {
  g_once : NoDup (replies w).*1;
  g_replied : ∀ a, a ∈ (replies w).*1 ↔ ∃ i, statusOf w a = Some (i, Replied);
  g_registered : ∀ a i, statusOf w a = Some (i, Registered) → ∃ b c, pcOf w i = Some (Relaying a b, c);
  g_relaying : ∀ i a b c, pcOf w i = Some (Relaying a b, c) → statusOf w a = Some (i, Registered);
  g_relay : ∀ a i s, statusOf w a = Some (i, s) → is_Some (pcOf w i);
  g_abandoned : ∀ a i p c, statusOf w a = Some (i, Abandoned) → pcOf w i = Some (p, c) → c = true;
}.

Lemma newWorld_ok : channels_ok newWorld ∧ goroutines_ok newWorld.
Proof.
  split; split; simpl; try constructor; try done; intros;
    try match goal with H : _ ∈ [] |- _ => by apply not_elem_of_nil in H end.
  by destruct H.
Qed.

Section steps.
Implicit Types (w : World).

(** *** Views of updates *)

Lemma chanOf_updateWait w a f b :
  chanOf (updateWait a f w) b =
    if decide (a = b) then (λ wt, (wRelay (f wt), wKey (f wt), buffer (f wt), closed (f wt))) <$> waits w !! b
    else chanOf w b.
Proof.
  unfold chanOf, updateWait. simpl. case_decide; subst.
  - by rewrite list_lookup_alter_eq, <-option_fmap_compose.
  - by rewrite list_lookup_alter_ne.
Qed.

Lemma statusOf_updateWait w a f b :
  statusOf (updateWait a f w) b =
    if decide (a = b) then (λ wt, (wRelay (f wt), status (f wt))) <$> waits w !! b else statusOf w b.
Proof.
  unfold statusOf, updateWait. simpl. case_decide; subst.
  - by rewrite list_lookup_alter_eq, <-option_fmap_compose.
  - by rewrite list_lookup_alter_ne.
Qed.

Lemma pendingOf_updateRelay w i f j :
  pendingOf (updateRelay i f w) j =
    if decide (i = j) then (λ r, pending (f r)) <$> relays w !! j else pendingOf w j.
Proof.
  unfold pendingOf, updateRelay. simpl. case_decide; subst.
  - by rewrite list_lookup_alter_eq, <-option_fmap_compose.
  - by rewrite list_lookup_alter_ne.
Qed.

Lemma pcOf_updateRelay w i f j :
  pcOf (updateRelay i f w) j =
    if decide (i = j) then (λ r, (pc (f r), ctxDone (f r))) <$> relays w !! j else pcOf w j.
Proof.
  unfold pcOf, updateRelay. simpl. case_decide; subst.
  - by rewrite list_lookup_alter_eq, <-option_fmap_compose.
  - by rewrite list_lookup_alter_ne.
Qed.

(** A change of statuses or of the rest of a relay does not matter to channels, nor one of
    channels to statuses. *)
Lemma delivered_mono w w' a p body :
  (∀ i k b c, chanOf w a = Some (i, k, b, c) → ∃ b' c', chanOf w' a = Some (i, k, b', c')) →
  (∀ post a', posts w !! p = Some post → phase post = Accepted a' →
     ∃ post', posts w' !! p = Some post' ∧ pBody post' = pBody post ∧ pKey post' = pKey post ∧
              phase post' = phase post) →
  delivered w a p body → delivered w' a p body.
Proof.
  intros Hw Hp (post & i & b & c & Hpost & Hch & <- & Hph).
  destruct (Hw _ _ _ _ Hch) as (b' & c' & Hch'). destruct (Hp _ _ Hpost Hph) as (post' & Hpost' & Hb & Hpk & Hph').
  exists post', i, b', c'. split_and!; congruence.
Qed.

Lemma channels_ok_same w w' :
  channels_ok w → (∀ a, chanOf w' a = chanOf w a) → (∀ i, pendingOf w' i = pendingOf w i) →
  sends w' = sends w → posts w' = posts w → panicked w' = panicked w →
  (∀ a p body, (a, ClientReply p body) ∈ replies w' →
     (a, ClientReply p body) ∈ replies w ∨ delivered w a p body) →
  channels_ok w'.
Proof.
  intros [] Hch Hpe Hs Hp Hpa Hr.
  assert (∀ a p body, delivered w a p body → delivered w' a p body) as Hd.
  { intros a p body. apply delivered_mono; [intros i k b c; rewrite Hch; eauto|].
    intros post a'. rewrite Hp. eauto. }
  split; rewrite ?Hs, ?Hpa; try done.
  - intros i m k a. rewrite Hch, Hpe. apply c_pending0.
  - intros a x. rewrite Hch. apply c_sends0.
  - intros a x i m k. rewrite Hpe. apply c_apart0.
  - intros a p body Hx. by apply Hd, c_sent0.
  - intros a i k p body c. rewrite Hch. intros Hb. apply Hd. by eapply c_buffer0.
  - intros a p body Hx. apply Hd. destruct (Hr a p body Hx) as [?|?]; [by apply c_replies0|done].
Qed.

Lemma goroutines_ok_same w w' :
  goroutines_ok w → (∀ a, statusOf w' a = statusOf w a) → (∀ i, pcOf w' i = pcOf w i) →
  replies w' = replies w → goroutines_ok w'.
Proof.
  intros [] Hst Hpc Hr. split; rewrite ?Hr; try done.
  - intros a. by setoid_rewrite Hst.
  - intros a i. rewrite Hst, Hpc. apply g_registered0.
  - intros i a b c. rewrite Hst, Hpc. apply g_relaying0.
  - intros a i s. rewrite Hst, Hpc. apply g_relay0.
  - intros a i p c. rewrite Hst, Hpc. apply g_abandoned0.
Qed.

(** *** Steps on channels *)

Lemma lookupPending_Some w i k a :
  lookupPending i k w = Some a ↔ ∃ m, pendingOf w i = Some m ∧ m !! k = Some a.
Proof.
  unfold lookupPending, pendingOf. destruct (relays w !! i) as [r|]; simpl; naive_solver.
Qed.

Lemma pendingOf_take w i k a x j :
  pendingOf (take i k a x w) j = if decide (i = j) then delete k <$> pendingOf w j else pendingOf w j.
Proof.
  change (pendingOf (take i k a x w) j) with (pendingOf (updateRelay i (setPending (delete k)) w) j).
  rewrite pendingOf_updateRelay. case_decide; [|done]. unfold pendingOf. by rewrite <-option_fmap_compose.
Qed.

Lemma take_ok w i k a x :
  channels_ok w → lookupPending i k w = Some a →
  (∀ p body, x = Some (p, body) → delivered w a p body) →
  channels_ok (take i k a x w).
Proof.
  intros [] (m & Hm & Ha)%lookupPending_Some Hx.
  assert (chanOf w a = Some (i, k, None, false)) as Hch by (by eapply c_pending0).
  assert (∀ j m', pendingOf (take i k a x w) j = Some m' →
    ∃ m0, pendingOf w j = Some m0 ∧ ∀ k' b, m' !! k' = Some b → m0 !! k' = Some b ∧ b ≠ a) as Hpe.
  { intros j m'. rewrite pendingOf_take. case_decide as Hij; [subst j|].
    - rewrite Hm. intros [= <-]. exists m. split; [done|]. intros k' b [Hk Hb]%lookup_delete_Some.
      split; [done|]. intros ->. assert (chanOf w a = Some (i, k', None, false)) by (by eapply c_pending0).
      congruence.
    - intros Hj. exists m'. split; [done|]. intros k' b Hb. split; [done|]. intros ->.
      assert (chanOf w a = Some (j, k', None, false)) by (by eapply c_pending0). congruence. }
  split; try done.
  - intros j m' k' b (m0 & Hm0 & Hk)%Hpe Hb. apply (c_pending0 j m0); [done|by apply Hk].
  - intros b y [Hb|[= -> ->]%list_elem_of_singleton]%elem_of_app; [by eapply c_sends0|by exists i, k].
  - intros b y j m' k' Hb (m0 & Hm0 & Hk)%Hpe Hb'. destruct (Hk _ _ Hb') as [Hb0 Hne].
    apply elem_of_app in Hb as [Hb|[= -> ->]%list_elem_of_singleton]; [by eapply c_apart0|done].
  - unfold take. simpl. rewrite fmap_app. apply NoDup_app. split_and!; [done| |apply NoDup_singleton].
    intros b ([b' y] & -> & Hb)%list_elem_of_fmap Heq%list_elem_of_singleton. simpl in Heq. subst b'.
    by eapply (c_apart0 a y).
  - intros b p body [Hb|[= -> Hp]%list_elem_of_singleton]%elem_of_app; [by apply c_sent0|].
    by apply Hx.
Qed.

Lemma resolvePending_None_ok w i k : channels_ok w → channels_ok (resolvePending i k None w).1.
Proof.
  intros Hok. unfold resolvePending. destruct (lookupPending i k w) eqn:Hl; [|done]. by apply take_ok.
Qed.

Lemma take_views w i k a x b j :
  statusOf (take i k a x w) b = statusOf w b ∧ pcOf (take i k a x w) j = pcOf w j.
Proof.
  split; [done|]. change (pcOf (updateRelay i (setPending (delete k)) w) j = pcOf w j).
  rewrite pcOf_updateRelay. by case_decide.
Qed.

Lemma resolvePending_goroutines w i k x :
  goroutines_ok w → goroutines_ok (resolvePending i k x w).1.
Proof.
  intros Hok. unfold resolvePending. destruct (lookupPending i k w) as [a|]; [|done].
  apply (goroutines_ok_same w); [done|..|done]; intros; by apply take_views.
Qed.

(** Replies of clients on their way. *)
Lemma setPosts_ok w f :
  channels_ok w →
  (∀ p post a, posts w !! p = Some post → phase post = Accepted a →
     ∃ post', f (posts w) !! p = Some post' ∧ pBody post' = pBody post ∧ pKey post' = pKey post ∧
              phase post' = phase post) →
  channels_ok (setPosts f w).
Proof.
  intros [] Hf.
  assert (∀ a p body, delivered w a p body → delivered (setPosts f w) a p body) as Hd.
  { intros a p body. apply delivered_mono; [eauto|]. intros post a' Hpost Hph. by eapply Hf. }
  split; try done.
  - intros a p body Hs. by apply Hd, c_sent0.
  - intros a i k p body c Hb. apply Hd. by eapply c_buffer0.
  - intros a p body Hx. by apply Hd, c_replies0.
Qed.

Lemma setPhase_ok w p post ph :
  channels_ok w → posts w !! p = Some post → (∀ a, phase post ≠ Accepted a) →
  channels_ok (updatePost p (setPhase ph) w).
Proof.
  intros Hok Hp Hph. apply setPosts_ok; [done|]. intros q post' a Hq Ha. exists post'.
  split; [|done]. rewrite list_lookup_alter_ne; [done|]. intros ->. rewrite Hp in Hq. simplify_eq. by eapply Hph.
Qed.

Lemma deliver_ok w w' j : channels_ok w → deliver j w = Some w' → channels_ok w'.
Proof.
  intros Hok. unfold deliver. destruct (sends w !! j) as [[a x]|] eqn:Hj; [|done]. simpl.
  destruct (waits w !! a) as [wt|] eqn:Hwt; [|done]. simpl. intros [= <-].
  assert ((a, x) ∈ sends w) as Hin by (by eapply list_elem_of_lookup_2).
  destruct (c_sends _ Hok _ _ Hin) as (i & k & Hch).
  unfold chanOf in Hch. rewrite Hwt in Hch. injection Hch as Hi Hk Hbuf Hcl. rewrite Hcl, Hbuf.
  set (w1 := setSends _ w). set (w' := updateWait a _ w1).
  assert (∀ b y, (b, y) ∈ delete j (sends w) → (b, y) ∈ sends w ∧ b ≠ a) as Hdel.
  { pose proof (delete_Permutation _ _ _ Hj) as Hperm. pose proof (c_once _ Hok) as Hnd.
    rewrite Hperm in Hnd. simpl in Hnd. apply NoDup_cons in Hnd as [Hnot _].
    intros b y Hb. split; [rewrite Hperm; by right|]. intros ->. apply Hnot.
    apply list_elem_of_fmap. by exists (a, y). }
  assert (∀ b, chanOf w' b = if decide (a = b) then Some (i, k, Some x, false) else chanOf w b) as Hch'.
  { intros b. unfold w'. rewrite chanOf_updateWait. case_decide; [|done]. subst b. simpl. rewrite Hwt. simpl.
    congruence. }
  assert (∀ b p body, delivered w b p body → delivered w' b p body) as Hd.
  { intros b p body. apply delivered_mono; [|eauto]. intros i' k' b' c' Hb. rewrite Hch'. case_decide; [|eauto].
    subst b. unfold chanOf in Hb. rewrite Hwt in Hb. simpl in Hb. simplify_eq. eauto. }
  pose proof Hok as []. split; try done.
  - intros i' m k' b Hm Hb. rewrite Hch'. case_decide; [|by eapply c_pending0].
    subst b. by destruct (c_apart0 a x i' m k').
  - intros b y [Hb Hne]%Hdel. rewrite Hch'. rewrite decide_False by done. by eapply c_sends0.
  - intros b y i' m k' [Hb _]%Hdel. by eapply c_apart0.
  - unfold w', w1. simpl. eapply sublist_NoDup; [exact c_once0|]. apply fmap_sublist, sublist_delete.
  - intros b p body [Hb _]%Hdel. by apply Hd, c_sent0.
  - intros b i' k' p body c. rewrite Hch'. case_decide as Hab.
    + intros [= _ _ -> _]. subst b. by apply Hd, c_sent0.
    + intros Hb. apply Hd. by eapply c_buffer0.
  - intros b p body Hb. by apply Hd, c_replies0.
Qed.

Lemma pending_addrs w i m :
  channels_ok w → pendingOf w i = Some m →
  NoDup (map_to_list m).*2 ∧ ∀ a, a ∈ (map_to_list m).*2 ↔ ∃ k, m !! k = Some a.
Proof.
  intros [] Hm. assert (∀ a, a ∈ (map_to_list m).*2 ↔ ∃ k, m !! k = Some a) as Hin.
  { intros a. rewrite list_elem_of_fmap. split.
    - intros ([k a'] & -> & Hk%elem_of_map_to_list). by exists k.
    - intros [k Hk]. exists (k, a). split; [done|]. by apply elem_of_map_to_list. }
  split; [|done]. apply NoDup_fmap_2_strong; [|apply NoDup_map_to_list].
  intros [k a] [k' a'] Hk%elem_of_map_to_list Hk'%elem_of_map_to_list. simpl. intros ->.
  assert (chanOf w a' = Some (i, k, None, false)) as H1 by (by eapply c_pending0).
  assert (chanOf w a' = Some (i, k', None, false)) as H2 by (by eapply c_pending0). congruence.
Qed.

Lemma cancelPending_ok w i : channels_ok w → channels_ok (cancelPending i w).
Proof.
  intros Hok. unfold cancelPending. destruct (relays w !! i) as [r|] eqn:Hr; [|done].
  assert (pendingOf w i = Some (pending r)) as Hm by (unfold pendingOf; by rewrite Hr).
  destruct (pending_addrs w i (pending r) Hok Hm) as [Hnd Hin].
  set (addrs := (map_to_list (pending r)).*2) in *. set (w' := Build_World _ _ _ _ _ _ _).
  assert (∀ a, a ∈ addrs → ∃ k, chanOf w a = Some (i, k, None, false)) as Haddr.
  { intros a [k Hk]%Hin. exists k. by eapply c_pending. }
  assert (panicked w' = false) as Hp.
  { simpl. rewrite (c_panic _ Hok), bool_decide_eq_true_2 by done. simpl. rewrite orb_false_r.
    apply not_true_iff_false. intros (a & Ha & Hcl)%existsb_exists.
    apply list_elem_of_In, Haddr in Ha as [k Hk]. unfold chanOf in Hk.
    destruct (waits w !! a); simplify_eq/=. congruence. }
  assert (∀ a, chanOf w' a = if decide (a ∈ addrs)
    then (λ wt, (wRelay wt, wKey wt, buffer wt, true)) <$> waits w !! a else chanOf w a) as Hch.
  { intros a. unfold chanOf, w'. simpl. rewrite list_lookup_imap, <-option_fmap_compose.
    destruct (waits w !! a) as [wt|]; simpl; [|by case_decide]. by case_decide. }
  assert (∀ a p body, delivered w a p body → delivered w' a p body) as Hd.
  { intros a p body. apply delivered_mono; [|eauto]. intros i' k b c Ha. rewrite Hch.
    case_decide; [|eauto]. unfold chanOf in Ha. destruct (waits w !! a); simplify_eq/=. eauto. }
  assert (∀ j m, pendingOf w' j = Some m → (j = i ∧ m = ∅) ∨ (j ≠ i ∧ pendingOf w j = Some m)) as Hpe.
  { intros j m. change (pendingOf w' j) with (pendingOf (updateRelay i (setPending (λ _, ∅)) w) j).
    rewrite pendingOf_updateRelay. case_decide; [subst|naive_solver]. rewrite Hr. naive_solver. }
  pose proof Hok as []. split; try done.
  - intros j m k a [[_ ->]|[Hj Hm']]%Hpe Hk; [by rewrite lookup_empty in Hk|].
    assert (chanOf w a = Some (j, k, None, false)) as Ha by (by eapply c_pending0).
    rewrite Hch. case_decide as Hina; [|done]. apply Haddr in Hina as [k' Hk']. congruence.
  - intros a x Hs. rewrite Hch. rewrite decide_False; [by eapply c_sends0|].
    intros [k Hk]%Hin. by eapply (c_apart0 a x i).
  - intros a x j m k Hs [[_ ->]|[Hj Hm']]%Hpe; [by rewrite lookup_empty|by eapply c_apart0].
  - intros a p body Hs. by apply Hd, c_sent0.
  - intros a j k p body c. rewrite Hch. case_decide as Hina.
    + apply Haddr in Hina as [k' Hk']. unfold chanOf in Hk'. destruct (waits w !! a); simplify_eq/=. congruence.
    + intros Hb. apply Hd. by eapply c_buffer0.
  - intros a p body Hx. by apply Hd, c_replies0.
Qed.

Lemma cancelPending_views w i a j :
  statusOf (cancelPending i w) a = statusOf w a ∧ pcOf (cancelPending i w) j = pcOf w j.
Proof.
  unfold cancelPending. destruct (relays w !! i) as [r|]; [|done]. split.
  - unfold statusOf. simpl. rewrite list_lookup_imap, <-option_fmap_compose.
    destruct (waits w !! a); simpl; [|done]. by case_decide.
  - change (pcOf (updateRelay i (setPending (λ _, ∅)) w) j = pcOf w j).
    rewrite pcOf_updateRelay. by case_decide.
Qed.

(** *** Registering a wait, and the write of its request *)

Lemma chanOf_register w i k id a :
  chanOf (registerPending i k id w).1 a =
    if decide (a = length (waits w)) then Some (i, k, None, false) else chanOf w a.
Proof.
  unfold chanOf, registerPending. simpl. case_decide as Ha.
  - subst. by rewrite lookup_app_r, Nat.sub_diag.
  - destruct (decide (a < length (waits w))%nat); [by rewrite lookup_app_l|].
    rewrite lookup_ge_None_2 by (rewrite length_app; simpl; lia). by rewrite lookup_ge_None_2 by lia.
Qed.

Lemma statusOf_register w i k id a :
  statusOf (registerPending i k id w).1 a =
    if decide (a = length (waits w)) then Some (i, Registered) else statusOf w a.
Proof.
  unfold statusOf, registerPending. simpl. case_decide as Ha.
  - subst. by rewrite lookup_app_r, Nat.sub_diag.
  - destruct (decide (a < length (waits w))%nat); [by rewrite lookup_app_l|].
    rewrite lookup_ge_None_2 by (rewrite length_app; simpl; lia). by rewrite lookup_ge_None_2 by lia.
Qed.

Lemma chanOf_fresh w : chanOf w (length (waits w)) = None.
Proof. unfold chanOf. by rewrite lookup_ge_None_2. Qed.

Lemma registerPending_ok w i k id : channels_ok w → channels_ok (registerPending i k id w).1.
Proof.
  intros Hok. pose proof (chanOf_fresh w) as Hfresh. set (n := length (waits w)) in *.
  set (w' := (registerPending i k id w).1).
  assert (∀ a, chanOf w' a = if decide (a = n) then Some (i, k, None, false) else chanOf w a) as Hch
    by apply chanOf_register.
  assert (∀ a, is_Some (chanOf w a) → chanOf w' a = chanOf w a) as Hold.
  { intros a [x Ha]. rewrite Hch. rewrite decide_False; [done|]. intros ->. congruence. }
  assert (∀ a p body, delivered w a p body → delivered w' a p body) as Hd.
  { intros a p body. apply delivered_mono; [|eauto]. intros i' k' b c Ha. rewrite Hold by eauto. eauto. }
  assert (∀ j m, pendingOf w' j = Some m → ∃ m0, pendingOf w j = Some m0 ∧
    (m = m0 ∨ j = i ∧ m = <[k := n]> m0)) as Hpe.
  { intros j m. change (pendingOf w' j) with (pendingOf (updateRelay i (setPending <[k := n]>) w) j).
    rewrite pendingOf_updateRelay. unfold pendingOf. case_decide; [subst|eauto].
    destruct (relays w !! j) as [r|]; [|done]. simpl. intros [= <-]. eauto. }
  pose proof Hok as []. split; try done.
  - intros j m k' a (m0 & Hm0 & [->|[-> ->]])%Hpe Hk.
    + assert (chanOf w a = Some (j, k', None, false)) as Ha by (by eapply c_pending0). by rewrite Hold by eauto.
    + apply lookup_insert_Some in Hk as [[<- <-]|[Hne Hk]]; [rewrite Hch; by rewrite decide_True|].
      assert (chanOf w a = Some (i, k', None, false)) as Ha by (by eapply c_pending0). by rewrite Hold by eauto.
  - intros a x Hs. destruct (c_sends0 a x Hs) as (i' & k' & Ha). exists i', k'. by rewrite Hold by eauto.
  - intros a x j m k' Hs (m0 & Hm0 & [->|[-> ->]])%Hpe; [by eapply c_apart0|].
    intros [[<- <-]|[_ Hk]]%lookup_insert_Some; [|by eapply c_apart0].
    destruct (c_sends0 _ _ Hs) as (? & ? & ?). congruence.
  - intros a p body Hs. by apply Hd, c_sent0.
  - intros a j k' p body c. rewrite Hch. case_decide; [done|]. intros Hb. apply Hd. by eapply c_buffer0.
  - intros a p body Hx. by apply Hd, c_replies0.
Qed.

(** *** Steps of relays and goroutines *)

Lemma channels_updateRelay w i f :
  channels_ok w → (∀ r, pending (f r) = pending r) → channels_ok (updateRelay i f w).
Proof.
  intros Hok Hf. apply (channels_ok_same w); try done; [|by left].
  intros j. rewrite pendingOf_updateRelay. case_decide; [|done]. unfold pendingOf.
  destruct (relays w !! j); simpl; [by rewrite Hf|done].
Qed.

Lemma channels_updateWait w a f :
  channels_ok w → (∀ wt, (wRelay (f wt), wKey (f wt), buffer (f wt), closed (f wt)) =
                         (wRelay wt, wKey wt, buffer wt, closed wt)) →
  channels_ok (updateWait a f w).
Proof.
  intros Hok Hf. apply (channels_ok_same w); try done; [|by left].
  intros b. rewrite chanOf_updateWait. case_decide; [|done]. unfold chanOf.
  destruct (waits w !! b); simpl; [by rewrite Hf|done].
Qed.

Definition relaying (p : PC) : bool := match p with Relaying _ _ => true | _ => false end.

Lemma goroutines_updateRelay w i f :
  goroutines_ok w →
  (∀ r, relays w !! i = Some r → relaying (pc r) = false ∧ relaying (pc (f r)) = false ∨ pc (f r) = pc r) →
  (∀ r, ctxDone r = true → ctxDone (f r) = true) →
  goroutines_ok (updateRelay i f w).
Proof.
  intros [] Hf Hc.
  assert (∀ j p c, pcOf (updateRelay i f w) j = Some (p, c) → ∃ p0 c0, pcOf w j = Some (p0, c0) ∧
    (relaying p0 = false ∧ relaying p = false ∨ p = p0) ∧ (c0 = true → c = true)) as Hback.
  { intros j p c. rewrite pcOf_updateRelay. case_decide; [subst|eauto 10].
    unfold pcOf. destruct (relays w !! j) as [r|] eqn:Hr; [|done]. simpl. intros [= <- <-].
    exists (pc r), (ctxDone r). split_and!; [done|by apply Hf|apply Hc]. }
  assert (∀ j p0 c0, pcOf w j = Some (p0, c0) → ∃ p c, pcOf (updateRelay i f w) j = Some (p, c) ∧
    (relaying p0 = false ∧ relaying p = false ∨ p = p0)) as Hforth.
  { intros j p0 c0. rewrite pcOf_updateRelay. case_decide; [subst|eauto 10].
    unfold pcOf. destruct (relays w !! j) as [r|] eqn:Hr; [|done]. simpl. intros [= <- <-].
    exists (pc (f r)), (ctxDone (f r)). split; [done|by apply Hf]. }
  split; try done.
  - intros a j Hs. destruct (g_registered0 a j Hs) as (b & c & Hpc).
    destruct (Hforth _ _ _ Hpc) as (p & c' & Hp & [[? _]| ->]); [done|]. eauto.
  - intros j a b c (p0 & c0 & Hpc & [[_ ?]|<-] & _)%Hback; [done|]. by eapply g_relaying0.
  - intros a j s Hs. destruct (g_relay0 a j s Hs) as [[p c] Hpc]. destruct (Hforth _ _ _ Hpc) as (p' & c' & Hp & _).
    by eexists.
  - intros a j p c Hs (p0 & c0 & Hpc & _ & Hcc)%Hback. apply Hcc. by eapply g_abandoned0.
Qed.

Lemma lookup_pcOf w i r : relays w !! i = Some r → pcOf w i = Some (pc r, ctxDone r).
Proof. intros Hr. unfold pcOf. by rewrite Hr. Qed.

(** The views of a relay whose counter is set, and of a wait whose status is. *)
Lemma pcOf_setPC w i p j :
  pcOf (updateRelay i (setPC p) w) j =
    if decide (i = j) then (λ pc, (p, pc.2)) <$> pcOf w j else pcOf w j.
Proof.
  rewrite pcOf_updateRelay. case_decide; [|done]. unfold pcOf. by rewrite <-option_fmap_compose.
Qed.

Lemma statusOf_setStatus w a s b :
  statusOf (updateWait a (setStatus s) w) b =
    if decide (a = b) then (λ st, (st.1, s)) <$> statusOf w b else statusOf w b.
Proof.
  rewrite statusOf_updateWait. case_decide; [|done]. unfold statusOf. by rewrite <-option_fmap_compose.
Qed.

Lemma writeJSON_views w i payload b a j :
  chanOf (writeJSON i payload b w) a = chanOf w a ∧ statusOf (writeJSON i payload b w) a = statusOf w a ∧
  pendingOf (writeJSON i payload b w) j = pendingOf w j ∧ pcOf (writeJSON i payload b w) j = pcOf w j.
Proof.
  unfold writeJSON. rewrite pendingOf_updateRelay, pcOf_updateRelay. split_and!; [done|done| |].
  - case_decide; [|done]. unfold pendingOf. destruct (relays w !! j) as [r|]; [|done]. simpl. by case_match.
  - case_decide; [|done]. unfold pcOf. destruct (relays w !! j) as [r|]; [|done]. simpl. by case_match.
Qed.

Lemma writeJSON_ok w i payload b :
  (channels_ok w → channels_ok (writeJSON i payload b w)) ∧
  (goroutines_ok w → goroutines_ok (writeJSON i payload b w)).
Proof.
  split; intros Hok.
  - apply (channels_ok_same w); try done; [|by left]; intros; by apply (writeJSON_views w i payload b 0).
  - apply (goroutines_ok_same w); try done; intros; by apply (writeJSON_views w i payload b 0).
Qed.

(** A request of the server is registered, and about to be waited for. *)
Lemma request_goroutines w i r k id b w2 :
  goroutines_ok w → relays w !! i = Some r → pc r = Reading →
  let w1 := (registerPending i k id w).1 in
  (∀ a, statusOf w2 a = statusOf w1 a) → (∀ j, pcOf w2 j = pcOf w1 j) → replies w2 = replies w →
  goroutines_ok (updateRelay i (setPC (Relaying (length (waits w)) b)) w2).
Proof.
  intros [] Hr Hpc w1 Hst2 Hpc2 Hrep2. set (n := length (waits w)). set (w' := updateRelay _ _ _).
  assert (statusOf w n = None) as Hfresh by (unfold statusOf; by rewrite lookup_ge_None_2).
  assert (pcOf w i = Some (Reading, ctxDone r)) as Hpci by (rewrite (lookup_pcOf _ _ _ Hr); by rewrite Hpc).
  assert (∀ a, statusOf w' a = if decide (a = n) then Some (i, Registered) else statusOf w a) as Hst.
  { intros a. change (statusOf w' a) with (statusOf w2 a). rewrite Hst2. apply statusOf_register. }
  assert (∀ j, pcOf w' j = if decide (i = j) then Some (Relaying n b, ctxDone r) else pcOf w j) as Hpcs.
  { intros j. unfold w'. rewrite pcOf_setPC, Hpc2.
    assert (pcOf w1 j = pcOf w j) as ->.
    { change (pcOf (updateRelay i (setPending <[k := n]>) w) j = pcOf w j). rewrite pcOf_updateRelay. by case_decide. }
    case_decide; [subst; by rewrite Hpci|done]. }
  assert (replies w' = replies w) as Hrep by done. clearbody w'.
  split; rewrite ?Hrep; try done.
  - intros a. rewrite g_replied0. setoid_rewrite Hst.
    case_decide; [subst|done]. rewrite Hfresh. naive_solver.
  - intros a j. rewrite Hst, Hpcs. case_decide as Ha.
    + intros [= <-]. subst a. rewrite decide_True by done. eauto.
    + intros Hs. destruct (g_registered0 a j Hs) as (b' & c & Hj). case_decide; [subst; congruence|eauto].
  - intros j a b' c. rewrite Hst, Hpcs. case_decide as Hij.
    + intros [= <- _ _]. subst j. by rewrite decide_True.
    + intros Hj. rewrite decide_False; [by eapply g_relaying0|]. intros ->.
      apply g_relaying0 in Hj. congruence.
  - intros a j s. rewrite Hst, Hpcs. case_decide.
    + intros [= <- <-]. by rewrite decide_True.
    + intros Hs%g_relay0. by case_decide.
  - intros a j p c. rewrite Hst, Hpcs. case_decide; [done|]. intros Hs.
    case_decide as Hij; [|by apply (g_abandoned0 _ _ _ _ Hs)]. subst j. intros [= _ <-].
    by eapply g_abandoned0.
Qed.

(** The goroutine of the request starts, or not. *)
Lemma settle_goroutines w i a b c s :
  goroutines_ok w → pcOf w i = Some (Relaying a b, c) → s = Waiting ∨ s = Unsent →
  goroutines_ok (updateWait a (setStatus s) (updateRelay i (setPC Reading) w)).
Proof.
  intros [] Hpc Hs. pose proof (g_relaying0 _ _ _ _ Hpc) as Ha. set (w' := updateWait _ _ _).
  assert (∀ b, statusOf w' b = if decide (a = b) then Some (i, s) else statusOf w b) as Hst.
  { intros d. unfold w'. rewrite statusOf_setStatus.
    change (statusOf (updateRelay i (setPC Reading) w) d) with (statusOf w d).
    case_decide; [subst; by rewrite Ha|done]. }
  assert (∀ j, pcOf w' j = if decide (i = j) then Some (Reading, c) else pcOf w j) as Hpcs.
  { intros j. change (pcOf w' j) with (pcOf (updateRelay i (setPC Reading) w) j). rewrite pcOf_setPC.
    case_decide; [subst; by rewrite Hpc|done]. }
  split; try done.
  - intros d. change (replies w') with (replies w). rewrite g_replied0. setoid_rewrite Hst.
    case_decide; [subst|done]. rewrite Ha. destruct Hs; naive_solver.
  - intros d j. rewrite Hst, Hpcs. case_decide as Hd; [destruct Hs; congruence|]. intros Hdj.
    destruct (g_registered0 d j Hdj) as (b' & c' & Hj). case_decide; [subst; congruence|eauto].
  - intros j d b' c'. rewrite Hst, Hpcs. case_decide; [done|]. intros Hj. case_decide as Hd; [|by eapply g_relaying0].
    subst d. apply g_relaying0 in Hj. congruence.
  - intros d j s'. rewrite Hst, Hpcs. case_decide.
    + intros [= <- <-]. by rewrite decide_True.
    + intros Hd%g_relay0. by case_decide.
  - intros d j p c'. rewrite Hst, Hpcs. case_decide; [destruct Hs; congruence|]. intros Hd.
    case_decide as Hij; [|by apply (g_abandoned0 _ _ _ _ Hd)]. subst j. intros [= _ <-]. by eapply g_abandoned0.
Qed.

(** A goroutine ends without a reply, or with one. *)
Lemma abandon_goroutines w a i c :
  goroutines_ok w → statusOf w a = Some (i, Waiting) → (∀ p c, pcOf w i = Some (p, c) → c = true) →
  c = Abandoned → goroutines_ok (updateWait a (setStatus c) w).
Proof.
  intros [] Ha Hc ->. set (w' := updateWait _ _ _).
  assert (∀ b, statusOf w' b = if decide (a = b) then Some (i, Abandoned) else statusOf w b) as Hst.
  { intros d. unfold w'. rewrite statusOf_setStatus. case_decide; [subst; by rewrite Ha|done]. }
  assert (∀ j, pcOf w' j = pcOf w j) as Hpcs by done.
  split; try done.
  - intros d. change (replies w') with (replies w). rewrite g_replied0. setoid_rewrite Hst.
    case_decide; [subst|done]. rewrite Ha. naive_solver.
  - intros d j. rewrite Hst. case_decide; [done|]. apply g_registered0.
  - intros j d b' c'. rewrite Hst, Hpcs. intros Hj. apply g_relaying0 in Hj. rewrite decide_False; [done|]. congruence.
  - intros d j s'. rewrite Hst, Hpcs. case_decide; [intros [= <- <-]|]; by eapply g_relay0.
  - intros d j p c'. rewrite Hst, Hpcs. case_decide; [intros [= <-]; apply Hc|apply g_abandoned0].
Qed.

Lemma reply_goroutines w a i x :
  goroutines_ok w → statusOf w a = Some (i, Waiting) → goroutines_ok (reply a x w).
Proof.
  intros [] Ha. set (w' := reply a x w).
  assert (∀ b, statusOf w' b = if decide (a = b) then Some (i, Replied) else statusOf w b) as Hst.
  { intros d. unfold w', reply. rewrite statusOf_setStatus. unfold statusOf in Ha |- *. simpl.
    case_decide; [subst; by rewrite Ha|done]. }
  assert (∀ j, pcOf w' j = pcOf w j) as Hpcs by done.
  assert (a ∉ (replies w).*1) as Hnot by (rewrite g_replied0; intros [? ?]; congruence).
  assert ((replies w').*1 = (replies w).*1 ++ [a]) as Hrep by (unfold w', reply; simpl; by rewrite fmap_app).
  split; rewrite ?Hrep.
  - apply NoDup_app. split_and!; [done| |apply NoDup_singleton]. by intros d Hd ->%list_elem_of_singleton.
  - intros d. rewrite elem_of_app, list_elem_of_singleton, g_replied0. setoid_rewrite Hst.
    case_decide; [subst; naive_solver|]. naive_solver.
  - intros d j. rewrite Hst. case_decide; [done|]. apply g_registered0.
  - intros j d b' c'. rewrite Hst, Hpcs. intros Hj. apply g_relaying0 in Hj. rewrite decide_False; [done|]. congruence.
  - intros d j s'. rewrite Hst, Hpcs. case_decide; [intros [= <- <-]|]; by eapply g_relay0.
  - intros d j p c'. rewrite Hst, Hpcs. case_decide; [done|]. apply g_abandoned0.
Qed.

(** *** Every action *)

Definition invariant w : Prop := channels_ok w ∧ goroutines_ok w.

Lemma invariant_updateRelay w i f :
  invariant w → (∀ r, pending (f r) = pending r) →
  (∀ r, relays w !! i = Some r → relaying (pc r) = false ∧ relaying (pc (f r)) = false ∨ pc (f r) = pc r) →
  (∀ r, ctxDone r = true → ctxDone (f r) = true) →
  invariant (updateRelay i f w).
Proof. intros [Hc Hg] ? ? ?. split; [by apply channels_updateRelay|by apply goroutines_updateRelay]. Qed.

Lemma invariant_setPC w i r p :
  invariant w → relays w !! i = Some r → relaying (pc r) = false → relaying p = false →
  invariant (updateRelay i (setPC p) w).
Proof.
  intros Hinv Hr Hpc Hp. apply invariant_updateRelay; try done.
  intros r' Hr'. simplify_eq. by left.
Qed.

Lemma invariant_resolve w i k : invariant w → invariant (resolvePending i k None w).1.
Proof. intros [Hc Hg]. split; [by apply resolvePending_None_ok|by apply resolvePending_goroutines]. Qed.

Lemma invariant_writeJSON w i payload b : invariant w → invariant (writeJSON i payload b w).
Proof. intros [Hc Hg]. destruct (writeJSON_ok w i payload b). split; auto. Qed.

Lemma invariant_setRegistry w f : invariant w → invariant (setRegistry f w).
Proof. intros [[] []]. split; by split. Qed.

Lemma open_ok w r :
  invariant w → pending r = ∅ → relaying (pc r) = false → invariant (setRelays (λ l, l ++ [r]) w).
Proof.
  intros [Hc Hg] Hp Hpc. set (w' := setRelays _ w). set (n := length (relays w)).
  assert (∀ j, relays w' !! j = if decide (j = n) then Some r else relays w !! j) as Hr.
  { intros j. unfold w'. simpl. case_decide as Hj.
    - subst j. unfold n. by rewrite lookup_app_r, Nat.sub_diag.
    - destruct (decide (j < n)%nat); [by rewrite lookup_app_l|].
      rewrite !lookup_ge_None_2; [done|unfold n in *; lia|]. rewrite length_app. simpl. unfold n in *. lia. }
  assert (∀ j m, pendingOf w' j = Some m → m = ∅ ∨ pendingOf w j = Some m) as Hpe.
  { intros j m. unfold pendingOf. rewrite Hr. case_decide; [intros [= <-]; by left|by right]. }
  assert (relays w !! n = None) as Hn by (unfold n; by rewrite lookup_ge_None_2).
  split.
  - destruct Hc. split; try done.
    + intros j m k a [->|Hm]%Hpe Hk; [by rewrite lookup_empty in Hk|by eapply (c_pending0 j)].
    + intros a x j m k Hs [->|Hm]%Hpe; [by rewrite lookup_empty|by eapply c_apart0].
  - assert (∀ j pc, pcOf w j = Some pc → pcOf w' j = Some pc) as Hold.
    { intros j pc'. unfold pcOf. rewrite Hr. case_decide; [|done]. subst j. by rewrite Hn. }
    assert (∀ j p c, pcOf w' j = Some (p, c) → j = n ∧ relaying p = false ∨ pcOf w j = Some (p, c)) as Hnew.
    { intros j p c. unfold pcOf. rewrite Hr. case_decide; [intros [= <- <-]; by left|by right]. }
    destruct Hg. split; try done.
    + intros a j Hs. destruct (g_registered0 a j Hs) as (b & c & Hj%Hold). eauto.
    + intros j a b c [[_ ?]|Hj]%Hnew; [done|by eapply g_relaying0].
    + intros a j s Hs. destruct (g_relay0 a j s Hs) as [x Hx%Hold]. by eexists.
    + intros a j p c Hs [[-> _]|Hj]%Hnew; [|by eapply g_abandoned0].
      destruct (g_relay0 a n _ Hs) as [x Hx]. unfold pcOf in Hx. by rewrite Hn in Hx.
Qed.

Lemma relayBidirectional_ok w i r inp b :
  invariant w → relays w !! i = Some r → pc r = Reading → invariant (relayBidirectional i inp b w).
Proof.
  intros Hinv Hr Hpc. unfold relayBidirectional. rewrite Hr.
  assert (relaying (pc r) = false) as Hrel by (by rewrite Hpc).
  destruct inp as [| | |msg]; [by eapply invariant_setPC..|done|].
  destruct (classifyMessage msg).
  - case_decide; [done|by apply invariant_writeJSON].
  - case_decide.
    + apply invariant_updateRelay; try done. intros r' _. by right.
    + set (w1 := (registerPending i (idKey (messageID msg)) (messageID msg) w).1).
      change (invariant (updateRelay i (setPC (Relaying (length (waits w)) b)) (writeJSON i (raw msg) b w1))).
      destruct Hinv as [Hc Hg]. split.
      * apply channels_updateRelay; [|done]. apply writeJSON_ok. by apply registerPending_ok.
      * apply (request_goroutines w i r (idKey (messageID msg)) (messageID msg)); try done.
        intros j. by apply (writeJSON_views w1 i (raw msg) b 0).
  - case_match; [by eapply invariant_setPC|by apply invariant_writeJSON].
  - done.
Qed.

Lemma handleSSEUpstreamPayload_ok w i r name payload url :
  invariant w → relays w !! i = Some r → pc r = Reading →
  invariant (handleSSEUpstreamPayload i name payload url w).
Proof.
  intros [Hc Hg] Hr Hpc. unfold handleSSEUpstreamPayload. case_decide; [done|].
  destruct payload as [msg|]; [|done]. destruct (classifyMessage msg); [done| |done|done]. case_decide; [done|].
  set (w1 := (registerPending i (idKey (messageID msg)) (messageID msg) w).1).
  change (invariant (updateRelay i (setPC (Relaying (length (waits w)) true)) w1)). split.
  - apply channels_updateRelay; [|done]. by apply registerPending_ok.
  - by eapply request_goroutines.
Qed.

Lemma afterWrite_ok w i r a b :
  invariant w → relays w !! i = Some r → pc r = Relaying a b → invariant (afterWrite i a b w).
Proof.
  intros [Hc Hg] Hr Hpc. apply lookup_pcOf in Hr. rewrite Hpc in Hr.
  assert (∀ s, s = Waiting ∨ s = Unsent →
    invariant (updateWait a (setStatus s) (updateRelay i (setPC Reading) w))) as Hs.
  { intros s Hs. split; [|by eapply settle_goroutines].
    apply channels_updateWait; [|done]. by apply channels_updateRelay. }
  unfold afterWrite. destruct b; [by apply Hs; left|].
  specialize (Hs Unsent (or_intror eq_refl)). case_match; [|done]. by apply invariant_resolve.
Qed.

Lemma respond_ok w i r b result x :
  invariant w → relays w !! i = Some r → pc r = Finished x → invariant (respond i b result w).
Proof.
  intros Hinv Hr Hpc. unfold respond. apply invariant_updateRelay; [done| | |].
  - intros r'. repeat case_match; done.
  - intros r' Hr'. simplify_eq. left. split; [by rewrite Hpc|done].
  - intros r'. repeat case_match; done.
Qed.

Lemma invariant_emptyBuffer w a : invariant w → invariant (updateWait a (setBuffer None) w).
Proof.
  intros [Hc Hg]. split.
  - set (w' := updateWait _ _ _).
    assert (∀ b i k x c, chanOf w' b = Some (i, k, x, c) → ∃ x0, chanOf w b = Some (i, k, x0, c) ∧
      (x = x0 ∨ x = None)) as Hback.
    { intros b i k x c. unfold w'. rewrite chanOf_updateWait. case_decide; [subst|eauto]. unfold chanOf.
      destruct (waits w !! b); [|done]. simpl. intros [= <- <- <- <-]. eauto. }
    assert (∀ b i k x c, chanOf w b = Some (i, k, x, c) → ∃ x', chanOf w' b = Some (i, k, x', c) ∧
      (x' = x ∨ x' = None)) as Hforth.
    { intros b i k x c. unfold w'. rewrite chanOf_updateWait. case_decide; [subst|eauto]. unfold chanOf.
      destruct (waits w !! b); [|done]. simpl. intros [= <- <- <- <-]. eauto. }
    assert (∀ b p body, delivered w b p body → delivered w' b p body) as Hd.
    { intros b p body. apply delivered_mono; [|eauto]. intros i k x c Hb.
      destruct (Hforth _ _ _ _ _ Hb) as (x' & ? & _). eauto. }
    destruct Hc. split; try done.
    + intros i m k b Hm Hb. destruct (Hforth _ _ _ _ _ (c_pending0 _ _ _ _ Hm Hb)) as (x' & -> & [->| ->]); done.
    + intros b x Hs. destruct (c_sends0 b x Hs) as (i & k & Hch).
      destruct (Hforth _ _ _ _ _ Hch) as (x' & Hx & [->| ->]); eauto.
    + intros b p body Hs. by apply Hd, c_sent0.
    + intros b i k p body c (x0 & Hx0 & [<-|?])%Hback; [|done]. apply Hd. by eapply c_buffer0.
    + intros b p body Hs. by apply Hd, c_replies0.
  - apply (goroutines_ok_same w); try done. intros b. rewrite statusOf_updateWait. case_decide; [|done].
    unfold statusOf. by destruct (waits w !! b).
Qed.

Lemma invariant_reply w a i x :
  invariant w → statusOf w a = Some (i, Waiting) →
  (∀ p body, x = ClientReply p body → delivered w a p body) → invariant (reply a x w).
Proof.
  intros [Hc Hg] Ha Hx. split; [|by eapply reply_goroutines].
  unfold reply. apply channels_updateWait; [|done].
  apply (channels_ok_same w); try done. intros b p body. simpl.
  intros [?|[= -> Hb]%list_elem_of_singleton]%elem_of_app; [by left|]. right. by apply Hx.
Qed.

Lemma wake_ok w w' a how : invariant w → wake a how w = Some w' → invariant w'.
Proof.
  intros Hinv. unfold wake. destruct (waits w !! a) as [wt|] eqn:Hwt; [|done]. simpl.
  destruct (decide (status wt = Waiting)) as [Hst|]; [|done].
  assert (statusOf w a = Some (wRelay wt, Waiting)) as Ha by (unfold statusOf; rewrite Hwt; simpl; by rewrite Hst).
  destruct how.
  - destruct (relays w !! wRelay wt) as [r|] eqn:Hr; [|done]. simpl.
    destruct (ctxDone r) eqn:Hcd; [|done]. intros [= <-]. apply invariant_resolve.
    destruct Hinv as [Hc Hg]. split; [by apply channels_updateWait|].
    eapply abandon_goroutines; [done|done| |done]. intros p c Hpc. rewrite (lookup_pcOf _ _ _ Hr) in Hpc.
    congruence.
  - assert (statusOf (updateWait a (setBuffer None) w) a = Some (wRelay wt, Waiting)) as Ha'.
    { rewrite statusOf_updateWait. rewrite decide_True by done. rewrite Hwt. simpl. by rewrite Hst. }
    destruct (buffer wt) as [[[p body]|]|] eqn:Hbuf.
    + intros [= <-]. assert (delivered w a p body) as Hd.
      { apply (c_buffer _ (proj1 Hinv) a (wRelay wt) (wKey wt) p body (closed wt)). unfold chanOf. rewrite Hwt.
        simpl. by rewrite Hbuf. }
      eapply invariant_reply; [by apply invariant_emptyBuffer|done|].
      intros p' body' [= <- <-]. revert Hd. apply delivered_mono; [|eauto].
      intros i k b c. rewrite chanOf_updateWait. rewrite decide_True by done. unfold chanOf. rewrite Hwt.
      simpl. intros [= <- <- <- <-]. eauto.
    + intros [= <-]. eapply invariant_reply; [by apply invariant_emptyBuffer|done|done].
    + destruct (closed wt); [|done]. intros [= <-]. by eapply invariant_reply.
  - intros [= <-]. apply invariant_resolve. by eapply invariant_reply.
Qed.

Lemma route_ok w w' p order : invariant w → routeClientReply p order w = Some w' → invariant w'.
Proof.
  intros Hinv. unfold routeClientReply. destruct (posts w !! p) as [post|] eqn:Hp; [|done]. simpl.
  set (try_ := λ i otherwise, match resolvePending i (pKey post) (Some (p, pBody post)) w with
    | (w', Some a) => updatePost p (setPhase (Accepted a)) w'
    | (_, None) => updatePost p (setPhase otherwise) w end).
  intros Hroute.
  assert ((∀ a, phase post ≠ Accepted a) → ∀ ph, invariant (updatePost p (setPhase ph) w)) as Hph.
  { intros Hna ph. destruct Hinv as [Hc [ ]]. split; [by eapply setPhase_ok|by split]. }
  assert ((∀ a, phase post ≠ Accepted a) → ∀ i ph, invariant (try_ i ph)) as Htry.
  { intros Hna i ph. unfold try_, resolvePending.
    destruct (lookupPending i (pKey post) w) as [a|] eqn:Hl; [|by apply Hph].
    pose proof (Hph Hna (Accepted a)) as [Hc Hg].
    change (invariant (take i (pKey post) a (Some (p, pBody post)) (updatePost p (setPhase (Accepted a)) w))).
    split; [|apply (goroutines_ok_same (updatePost p (setPhase (Accepted a)) w)); [done|..|done];
             intros; by apply take_views].
    apply take_ok; [done|done|]. intros p' body [= <- <-]. apply lookupPending_Some in Hl as (m & Hm & Hk).
    exists (setPhase (Accepted a) post), i, None, false. split_and!; [|by eapply (c_pending _ (proj1 Hinv))|done|done].
    unfold updatePost. simpl. by rewrite list_lookup_alter_eq, Hp. }
  destruct (phase post) as [| |l|a|] eqn:Hphase; [| | |done|done].
  - injection Hroute as <-. case_match; [by apply Htry|by apply Hph].
  - destruct (decide _); [|done]. injection Hroute as <-. by apply Hph.
  - destruct l as [|i l]; injection Hroute as <-; [by apply Hph|by apply Htry].
Qed.

Lemma exec_ok act w w' : invariant w → exec act w = Some w' → invariant w'.
Proof.
  intros Hinv. destruct act as [m id key|i inp b|i line|i name payload url|i|i|i|i|i b|i|a how|j|session key body|p order];
    simpl.
  - intros [= <-]. unfold put. case_decide; [|apply invariant_setRegistry]; by apply open_ok.
  - destruct (relays w !! i) as [r|] eqn:Hr; [|done]. simpl. destruct (pc r) eqn:Hpc; try done.
    intros [= <-]. by eapply relayBidirectional_ok.
  - destruct (relays w !! i) as [r|] eqn:Hr; [|done]. simpl. destruct (pc r) eqn:Hpc; try done.
    destruct (mode r); try done. intros [= <-]. apply invariant_updateRelay; try done. intros r' _. by right.
  - destruct (relays w !! i) as [r|] eqn:Hr; [|done]. simpl. destruct (pc r) eqn:Hpc; try done.
    destruct (mode r); try done. intros [= <-]. by eapply handleSSEUpstreamPayload_ok.
  - destruct (relays w !! i) as [r|] eqn:Hr; [|done]. simpl. destruct (pc r) eqn:Hpc; try done.
    destruct (mode r); try done. intros [= <-]. eapply invariant_setPC; [done|done|by rewrite Hpc|done].
  - destruct (relays w !! i) as [r|] eqn:Hr; [|done]. simpl. destruct (pc r) eqn:Hpc; try done.
    intros [= <-]. by eapply afterWrite_ok.
  - intros [= <-]. apply invariant_updateRelay; try done. intros r _. by right.
  - destruct (relays w !! i) as [r|] eqn:Hr; [|done]. simpl.
    destruct (pc r) eqn:Hpc, (ctxDone r); try done. intros [= <-].
    eapply invariant_setPC; [done|done|by rewrite Hpc|done].
  - destruct (relays w !! i) as [r|] eqn:Hr; [|done]. simpl. destruct (pc r) eqn:Hpc; try done.
    intros [= <-]. by eapply respond_ok.
  - destruct (relays w !! i) as [r|] eqn:Hr; [|done]. simpl. destruct (pc r) eqn:Hpc; try done.
    + intros [= <-]. unfold remove. case_decide; [|apply invariant_setRegistry];
        (eapply invariant_setPC; [done|done|by rewrite Hpc|done]).
    + intros [= <-]. assert (invariant (cancelPending i w)) as Hc.
      { destruct Hinv as [Hc Hg]. split; [by apply cancelPending_ok|].
        apply (goroutines_ok_same w); [done|..|]; intros; try by apply cancelPending_views.
        unfold cancelPending. by destruct (relays w !! i). }
      apply invariant_updateRelay; [done|done| |done].
      intros r' Hr'. left. split; [|done]. unfold cancelPending in Hr'. rewrite Hr in Hr'. simpl in Hr'.
      rewrite list_lookup_alter_eq, Hr in Hr'. simplify_eq/=. by rewrite Hpc.
  - apply wake_ok, Hinv.
  - intros Hd. destruct Hinv as [Hc Hg]. split; [by eapply deliver_ok|].
    unfold deliver in Hd. destruct (sends w !! j) as [[a x]|] eqn:Hj; [|done]. simpl in Hd.
    destruct (waits w !! a) as [wt|] eqn:Hwt; [|done]. simpl in Hd. injection Hd as <-.
    destruct (closed wt); [by apply (goroutines_ok_same w)|]. destruct (buffer wt); [by apply (goroutines_ok_same w)|].
    apply (goroutines_ok_same w); try done. intros b. rewrite statusOf_updateWait. case_decide; [|done].
    subst b. unfold statusOf. simpl. by rewrite Hwt.
  - intros [= <-]. destruct Hinv as [Hc [ ]]. split; [|by split]. apply setPosts_ok; [done|].
    intros p post a Hp _. exists post. split; [|done]. by apply lookup_app_l_Some.
  - apply route_ok, Hinv.
Qed.

Lemma relays_run_ok acts w : invariant w → invariant (run acts w).
Proof.
  revert w. induction acts as [|act acts IH]; intros w Hinv; [done|]. simpl. apply IH.
  destruct (exec act w) as [w'|] eqn:Hw; [by eapply exec_ok|done].
Qed.
End steps.

(** ** What holds in every run *)

Lemma delivered_chan w a p body :
  delivered w a p body →
  ∃ post wt, posts w !! p = Some post ∧ waits w !! a = Some wt ∧ pBody post = body ∧
    pKey post = wKey wt ∧ phase post = Accepted a.
Proof.
  intros (post & i & b & c & Hp & Hch & Hb & Hph). unfold chanOf in Hch.
  destruct (waits w !! a) as [wt|]; [|done]. simplify_eq/=. by exists post, wt.
Qed.

(** C16: whatever messages come, whatever writes fail and however relays, waiting
    goroutines, replies of clients and timeouts interleave: nothing is sent to a
    closed channel and no channel is closed twice; each request of a server gets at
    most one reply; a reply that a client gave is for the id that the client
    named, and is given to one request only; and the goroutine of a request ends without a reply only if
    the context of its relay is done. *)
Theorem relay_safe acts :
  let w := run acts newWorld in
  panicked w = false ∧ NoDup (replies w).*1 ∧
  (∀ a p body, (a, ClientReply p body) ∈ replies w → ∃ post wt,
     posts w !! p = Some post ∧ waits w !! a = Some wt ∧ pBody post = body ∧ pKey post = wKey wt) ∧
  (∀ a a' p body body', (a, ClientReply p body) ∈ replies w → (a', ClientReply p body') ∈ replies w → a = a') ∧
  (∀ a wt, waits w !! a = Some wt →
     (status wt = Replied ↔ a ∈ (replies w).*1) ∧
     (status wt = Abandoned → ∃ r, relays w !! wRelay wt = Some r ∧ ctxDone r = true)).
Proof.
  intros w. destruct (relays_run_ok acts newWorld newWorld_ok) as [Hc Hg]. fold w in Hc, Hg.
  split_and!; [by destruct Hc|by destruct Hg|..].
  - intros a p body (post & wt & ? & ? & ? & ? & _)%(c_replies _ Hc)%delivered_chan. eauto 10.
  - intros a a' p body body' (post & wt & Hp & _ & _ & _ & Ha)%(c_replies _ Hc)%delivered_chan
      (post' & wt' & Hp' & _ & _ & _ & Ha')%(c_replies _ Hc)%delivered_chan. congruence.
  - intros a wt Hwt. assert (statusOf w a = Some (wRelay wt, status wt)) as Hst by (unfold statusOf; by rewrite Hwt).
    split.
    + rewrite (g_replied _ Hg), Hst. split; [intros ->; eauto|]. by intros [i [= _ ->]].
    + intros Hab. rewrite Hab in Hst. destruct (g_relay _ Hg _ _ _ Hst) as [[p c] Hpc].
      pose proof (g_abandoned _ Hg _ _ _ _ Hst Hpc) as ->. unfold pcOf in Hpc.
      destruct (relays w !! wRelay wt) as [r|]; [|done]. simplify_eq/=. eauto.
Qed.

(** *** The reply of a client *)

Lemma relays_run_app acts acts' w : run (acts ++ acts') w = run acts' (run acts w).
Proof. unfold run. apply foldl_app. Qed.

Lemma run_cons act acts w w' : exec act w = Some w' → run (act :: acts) w = run acts w'.
Proof. intros H. unfold run. simpl. by rewrite H. Qed.

(** A reply that names the session of a relay and the id of a request waiting
    there is accepted, and reaches the server as the reply to that request, when the goroutines
    concerned take their next steps. *)
Theorem client_reply_reaches_server acts session key body order i r a wt :
  let w := run acts newWorld in
  session ≠ "" → registry w !! session = Some i → relays w !! i = Some r → pending r !! key = Some a →
  waits w !! a = Some wt → status wt = Waiting →
  let p := length (posts w) in
  let w' := run [PostReply session key body; Route p order; Deliver (length (sends w)); WakeUp a ByChannel] w in
  replies w' = replies w ++ [(a, ClientReply p body)] ∧ (phase <$> posts w' !! p) = Some (Accepted a).
Proof.
  intros w Hs Hreg Hr Ha Hwt Hst p w'. destruct (relays_run_ok acts newWorld newWorld_ok) as [Hc Hg].
  fold w in Hc, Hg.
  assert (chanOf w a = Some (i, key, None, false)) as Hch.
  { eapply c_pending; [done| |done]. unfold pendingOf. by rewrite Hr. }
  unfold chanOf in Hch. rewrite Hwt in Hch. injection Hch as Hwr Hwk Hbuf Hcl.
  set (post := {| pSession := session; pKey := key; pBody := body; phase := BySession |}).
  set (w1 := setPosts (λ l, l ++ [post]) w).
  assert (posts w1 !! p = Some post) as Hp1 by (simpl; by rewrite lookup_app_r, Nat.sub_diag).
  set (w2 := updatePost p (setPhase (Accepted a)) (take i key a (Some (p, body)) w1)).
  assert (exec (Route p order) w1 = Some w2) as Hroute.
  { unfold exec, routeClientReply. rewrite Hp1. cbn [mbind option_bind post phase pSession pKey pBody]. unfold get. rewrite decide_False by done.
    change (registry w1) with (registry w). rewrite Hreg. unfold resolvePending, lookupPending.
    change (relays w1) with (relays w). rewrite Hr. simpl. by rewrite Ha. }
  assert (sends w2 !! length (sends w) = Some (a, Some (p, body) : Payload)) as Hsend.
  { change (sends w2) with (sends w ++ [(a, Some (p, body))]). by rewrite lookup_app_r, Nat.sub_diag. }
  set (w3 := updateWait a (setBuffer (Some (Some (p, body)))) (setSends (delete (length (sends w)) (sends w2)) w2)).
  assert (exec (Deliver (length (sends w))) w2 = Some w3) as Hdel.
  { unfold exec, deliver. rewrite Hsend. cbn [mbind option_bind]. change (waits w2) with (waits w). rewrite Hwt.
    cbn [mbind option_bind]. by rewrite Hcl, Hbuf. }
  assert (waits w3 !! a = Some (setBuffer (Some (Some (p, body))) wt)) as Hw3.
  { unfold w3, updateWait. simpl. by rewrite list_lookup_alter_eq, Hwt. }
  assert (exec (WakeUp a ByChannel) w3 = Some (reply a (ClientReply p body) (updateWait a (setBuffer None) w3))) as Hwake.
  { unfold exec, wake. rewrite Hw3. cbn [mbind option_bind status setBuffer buffer]. by rewrite decide_True. }
  unfold w'. rewrite (run_cons (PostReply session key body) _ w w1) by done.
  rewrite (run_cons _ _ _ _ Hroute), (run_cons _ _ _ _ Hdel), (run_cons _ _ _ _ Hwake).
  unfold run. cbn [foldl]. split; [done|].
  change (phase <$> alter (setPhase (Accepted a)) p (posts w1) !! p = Some (Accepted a)).
  by rewrite list_lookup_alter_eq, Hp1.
Qed.

(** One relay, with a request of the server waiting for a reply. *)
Definition serverRequest (id : ID) : Message := {| raw := "ask"; Method := Some "sampling/createMessage"; Id := Some id |}.

Definition waiting_scene : list Action :=
  [Open NDJSON (IFloat64 7) "s"; Receive 0 (Decoded (serverRequest (IntID 1))) true; Proceed 0].

Lemma client_reply_reaches_server_witness :
  let w := run waiting_scene newWorld in
  let w' := run [PostReply "s" "n:1" "answer"; Route 0 []; Deliver 0; WakeUp 0 ByChannel] w in
  replies w' = [(0%nat, ClientReply 0 "answer")] ∧ (phase <$> posts w' !! 0%nat) = Some (Accepted 0).
Proof.
  exact (client_reply_reaches_server waiting_scene "s" "n:1" "answer" [] 0
    {| mode := NDJSON; originalID := IFloat64 7; regKey := "s"; ctxDone := false;
       pending := {["n:1" := 0%nat]}; out := [Relayed "ask"]; methodNotFound := []; pc := Reading |} 0
    {| wRelay := 0; wKey := "n:1"; wID := IFloat64 1; buffer := None; closed := false; status := Waiting |}
    ltac:(done) eq_refl eq_refl eq_refl eq_refl eq_refl).
Defined.

(** ** A stream of messages *)

(** What a client gets of a message that is not the final response, and the ids that
    are answered with method-not-found. *)
Definition forwarded (m : Mode) (msg : Message) : list Out :=
  match m, classifyMessage msg with
  | Single, _ | _, Unknown => []
  | _, _ => [Relayed (raw msg)]
  end.

Definition refused (m : Mode) (msg : Message) : list IdValue :=
  match m, classifyMessage msg with Single, Request => [messageID msg] | _, _ => [] end.

Definition isFinal (id : IdValue) (msg : Message) : Prop :=
  classifyMessage msg = Response ∧ idsEqual (messageID msg) id = true.

#[export] Instance isFinal_dec id msg : Decision (isFinal id msg).
Proof.
  unfold isFinal. apply and_dec; [|apply _]. destruct (classifyMessage msg); (by left) || (by right).
Defined.

Definition receive (i : nat) (msg : Message) : list Action := [Receive i (Decoded msg) true; Proceed i].

Definition same_relay (r r' : Relay) : Prop :=
  mode r' = mode r ∧ originalID r' = originalID r ∧ pc r' = pc r.

Lemma receive_step w i r msg :
  relays w !! i = Some r → pc r = Reading → ¬ isFinal (originalID r) msg →
  ∃ r', relays (run (receive i msg) w) !! i = Some r' ∧ same_relay r r' ∧
    out r' = out r ++ forwarded (mode r) msg ∧
    methodNotFound r' = methodNotFound r ++ refused (mode r) msg.
Proof.
  intros Hr Hpc Hnot.
  assert (∀ f w0, relays w0 = relays w → relays (updateRelay i f w0) !! i = Some (f r)) as Hupd.
  { intros f w0 Hw0. unfold updateRelay. simpl. by rewrite list_lookup_alter_eq, Hw0, Hr. }
  unfold run, receive. cbn [foldl exec]. rewrite Hr. cbn [mbind option_bind]. rewrite Hpc.
  cbn [default from_option]. unfold relayBidirectional. rewrite Hr. unfold forwarded, refused.
  assert (∀ w1 r1, relays w1 !! i = Some r1 → same_relay r r1 →
    default w1 (r2 ← relays w1 !! i; match pc r2 with Relaying a b => Some (afterWrite i a b w1) | _ => None end) = w1)
    as Hskip.
  { intros w1 r1 Hr1 (_ & _ & Hp). rewrite Hr1. cbn [mbind option_bind]. by rewrite Hp, Hpc. }
  destruct (classifyMessage msg) eqn:Hk.
  - case_decide as Hm.
    + rewrite (Hskip _ r) by done. exists r. rewrite Hm. by rewrite !app_nil_r.
    + unfold writeJSON. erewrite Hskip; [|by apply Hupd|]; [|by case_match].
      eexists. split; [by apply Hupd|]. rewrite bool_decide_eq_true_2 by done. simpl.
      destruct (mode r); [..|done]; by rewrite app_nil_r.
  - case_decide as Hm.
    + erewrite Hskip; [|by apply Hupd|done]. eexists. split; [by apply Hupd|]. rewrite Hm. simpl. done.
    + destruct (registerPending i (idKey (messageID msg)) (messageID msg) w) as [w1 a] eqn:Hreg.
      set (r0 := setPending <[idKey (messageID msg) := a]> r).
      assert (relays w1 !! i = Some r0) as Hw1.
      { injection Hreg as <- <-. unfold updateRelay. simpl. by rewrite list_lookup_alter_eq, Hr. }
      set (w2 := updateRelay i (setPC (Relaying a true)) (writeJSON i (raw msg) true w1)).
      set (r2 := setPC (Relaying a true) (emit [Relayed (raw msg)] [] r0)).
      assert (relays w2 !! i = Some r2) as Hw2.
      { unfold w2, updateRelay, writeJSON. simpl. rewrite !list_lookup_alter_eq, Hw1. simpl.
        by rewrite bool_decide_eq_true_2. }
      lazy beta iota zeta. fold w2. change (id w2) with w2. rewrite Hw2. cbn [mbind option_bind]. exists (setPC Reading r2). split.
      * change (alter (setPC Reading) i (relays w2) !! i = Some (setPC Reading r2)).
        by rewrite list_lookup_alter_eq, Hw2.
      * split; [done|]. split; simpl; by destruct (mode r); rewrite ?app_nil_r.
  - destruct (idsEqual (messageID msg) (originalID r)) eqn:Hid; [by destruct Hnot|].
    unfold writeJSON. erewrite Hskip; [|by apply Hupd|]; [|by case_match].
    eexists. split; [by apply Hupd|]. simpl. destruct (mode r) eqn:Hm; simpl; by rewrite ?app_nil_r.
  - rewrite (Hskip _ r) by done. exists r. destruct (mode r); by rewrite !app_nil_r.
Qed.

(** C17: of a stream of messages that ends with the response to the client's request
    the client gets, if it streams, the notifications, the requests and the other responses, and last the response;
    otherwise the response alone, and each request of the server is
    refused.  (Writes to the client succeed.) *)
Theorem relay_stream acts i r msgs final :
  let w := run acts newWorld in
  relays w !! i = Some r → pc r = Reading →
  Forall (λ msg, ¬ isFinal (originalID r) msg) msgs → isFinal (originalID r) final →
  let w' := run ((msgs ≫= receive i) ++ [Receive i (Decoded final) true; Respond i true]) w in
  ∃ r', relays w' !! i = Some r' ∧ pc r' = Returning ∧
    out r' = out r ++ (msgs ≫= forwarded (mode r)) ++ [Final final] ∧
    methodNotFound r' = methodNotFound r ++ (msgs ≫= refused (mode r)).
Proof.
  intros w. generalize w. clear w. intros w Hr Hpc Hall [Hkind Hid]. revert w r Hr Hpc Hall Hid.
  induction msgs as [|msg msgs IH]; intros w r Hr Hpc Hall Hid; cbn [mbind list_bind app].
  - set (w1 := updateRelay i (setPC (Finished (Some final))) w).
    assert (relays w1 !! i = Some (setPC (Finished (Some final)) r)) as Hr1
      by (unfold w1, updateRelay; simpl; by rewrite list_lookup_alter_eq, Hr).
    rewrite (run_cons (Receive i (Decoded final) true) _ w w1); cycle 1.
    { unfold exec. rewrite Hr. cbn [mbind option_bind]. rewrite Hpc.
      unfold relayBidirectional. by rewrite Hr, Hkind, Hid. }
    rewrite (run_cons (Respond i true) _ w1 (respond i true (Some final) w1)) by (unfold exec; by rewrite Hr1).
    unfold run, respond, updateRelay. cbn [foldl setRelays relays]. rewrite list_lookup_alter_eq, Hr1.
    eexists. split; [done|]. rewrite app_nil_r. simpl. case_decide; simpl; by rewrite app_nil_r.
  - apply Forall_cons in Hall as [Hmsg Hall].
    destruct (receive_step w i r msg Hr Hpc Hmsg) as (r1 & Hr1 & (Hm & Ho & Hp) & Hout & Hnf).
    rewrite <-(assoc_L (++)), relays_run_app. rewrite <-Ho in Hall, Hid.
    destruct (IH _ r1 Hr1 ltac:(congruence) Hall Hid) as (r' & Hr' & Hpc' & Hout' & Hnf').
    exists r'. split_and!; [done|done| |].
    + rewrite Hout', Hout, Hm. by rewrite <-!(assoc_L (++)).
    + rewrite Hnf', Hnf, Hm. by rewrite <-!(assoc_L (++)).
Qed.

Definition progress : Message := {| raw := "p"; Method := Some "notifications/progress"; Id := None |}.
Definition response (id : ID) : Message := {| raw := "r"; Method := None; Id := Some id |}.

Lemma relay_stream_witness :
  let w := run [Open NDJSON (IFloat64 7) "s"] newWorld in
  let w' := run (([progress; serverRequest (IntID 1)] ≫= receive 0) ++
                 [Receive 0 (Decoded (response (IntID 7))) true; Respond 0 true]) w in
  ∃ r', relays w' !! 0%nat = Some r' ∧ pc r' = Returning ∧
    out r' = [Relayed "p"; Relayed "ask"; Final (response (IntID 7))] ∧ methodNotFound r' = [].
Proof.
  exact (relay_stream [Open NDJSON (IFloat64 7) "s"] 0
    {| mode := NDJSON; originalID := IFloat64 7; regKey := "s"; ctxDone := false; pending := ∅; out := [];
       methodNotFound := []; pc := Reading |}
    [progress; serverRequest (IntID 1)] (response (IntID 7)) eq_refl eq_refl
    ltac:(by apply (bool_decide_eq_true_1 _)) ltac:(by apply (bool_decide_eq_true_1 _))).
Defined.

(** The response with the client's own id, whatever the id, is recognised and
    ends the relay. *)
Theorem response_recognised acts i r id msg :
  let w := run acts newWorld in
  relays w !! i = Some r → pc r = Reading → originalID r = unmarshalID id →
  Method msg = None → Id msg = Some id →
  ∃ r', relays (run [Receive i (Decoded msg) true] w) !! i = Some r' ∧ pc r' = Finished (Some msg).
Proof.
  intros w. generalize w. clear w. intros w Hr Hpc Ho Hm Hid.
  assert (classifyMessage msg = Response) as Hk by (unfold classifyMessage, hasMethod; by rewrite Hm, Hid).
  rewrite (run_cons _ _ w (relayBidirectional i (Decoded msg) true w))
    by (unfold exec; rewrite Hr; cbn [mbind option_bind]; by rewrite Hpc).
  unfold run, relayBidirectional. cbn [foldl]. rewrite Hr, Hk.
  unfold idsEqual, messageID. rewrite Hid, Ho. simpl. rewrite String.eqb_refl.
  unfold updateRelay. simpl. rewrite list_lookup_alter_eq, Hr. simpl. eauto.
Qed.

Lemma response_recognised_witness :
  let w := run [Open NDJSON (IFloat64 1700000000) "s"] newWorld in
  ∃ r', relays (run [Receive 0 (Decoded (response (IntID 1700000000))) true] w) !! 0%nat = Some r' ∧
    pc r' = Finished (Some (response (IntID 1700000000))).
Proof.
  exact (response_recognised [Open NDJSON (IFloat64 1700000000) "s"] 0
    {| mode := NDJSON; originalID := IFloat64 1700000000; regKey := "s"; ctxDone := false; pending := ∅; out := [];
       methodNotFound := []; pc := Reading |}
    (IntID 1700000000) (response (IntID 1700000000)) eq_refl eq_refl eq_refl eq_refl eq_refl).
Defined.

(** ** Scenes *)

(** Two clients, each with a server that asks its first question with id 1: the
    reply of the second client, sent without a session, can go to the first server. *)
Example reply_to_other_server :
  let w := run [Open NDJSON (IFloat64 7) "s"; Open NDJSON (IFloat64 8) "t";
                Receive 0 (Decoded (serverRequest (IntID 1))) true; Proceed 0;
                Receive 1 (Decoded (serverRequest (IntID 1))) true; Proceed 1;
                PostReply "" "n:1" "of the second client"; Route 0 []; Route 0 [0; 1]%nat; Route 0 [];
                Deliver 0; WakeUp 0 ByChannel] newWorld in
  replies w = [(0%nat, ClientReply 0 "of the second client")] ∧ (wRelay <$> waits w !! 0%nat) = Some 0%nat.
Proof. vm_compute. done. Qed.

(** Two requests of one session: the relay of the second is forgotten when the first ends. *)
Example session_forgotten :
  let w := run [Open NDJSON (IFloat64 7) "s"; Open NDJSON (IFloat64 8) "s";
                Receive 0 (Decoded (response (IntID 7))) true; Respond 0 true; Leave 0] newWorld in
  get "s" w = None ∧ (pc <$> relays w !! 1%nat) = Some Reading.
Proof. vm_compute. done. Qed.

(** A server that uses an id again before the first use is answered: the timeout of the
    first request ends the wait of the second. *)
Example timeout_of_other :
  let w := run [Open NDJSON (IFloat64 7) "s";
                Receive 0 (Decoded (serverRequest (IntID 1))) true; Proceed 0;
                Receive 0 (Decoded (serverRequest (IntID 1))) true; Proceed 0;
                WakeUp 0 ByTimeout; Deliver 0; WakeUp 1 ByChannel] newWorld in
  replies w = [(0%nat, ReplyTimeout); (1%nat, ClosedBeforeResponding)].
Proof. vm_compute. done. Qed.

(** On an event stream the client sees a request before it can be answered: a quick
    reply is refused, and the server waits for the timeout. *)
Example quick_reply_lost :
  let w := run [Open SSE INil "s"; Forward 0 "ask"; PostReply "s" "n:1" "quick"; Route 0 []; Route 0 [0]%nat;
                Route 0 []; Route 0 []; Event 0 "message" (Some (serverRequest (IntID 1))) "/session"; Proceed 0;
                WakeUp 0 ByChannel; WakeUp 0 ByTimeout] newWorld in
  replies w = [(0%nat, ReplyTimeout)].
Proof. vm_compute. done. Qed.
