(* ===== verification/AIProviders.v ===== *)
(** * AI providers and their streams

    internal/ai: the providers (openai.go, claude.go, ollama.go, openrouter.go,
    placeholder.go) and the processing of streamed answers (provider.go).  HTTP
    answers are inputs; how a JSON document decodes into the structure a provider
    reads is a parameter. *)
From S2P Require Import Prelude GoString GoNum.

#[local] Open Scope Z_scope.

Set Default Proof Using "Type*".

(** ** Data *)

Record FunctionCall := { FunctionName : string; Arguments : string }.
Record ToolCall := { ToolID : string; ToolType : string; Function_ : FunctionCall }.

#[export] Instance FunctionCall_dec : EqDecision FunctionCall.
Proof. solve_decision. Defined.
#[export] Instance ToolCall_dec : EqDecision ToolCall.
Proof. solve_decision. Defined.

Record Message := {
  Role : string;
  Content : string;
  ToolCalls : list ToolCall;
  ToolCallId : string;
}.

(** provider, message and code. *)
Inductive ProviderError := NewProviderError (provider message code : string).

(** One response of a stream; the code sends one kind of content at a time. *)
Record StreamResponse := {
  RespContent : string;
  ThinkContent : string;
  RespToolCalls : list ToolCall;
  Finished : bool;
  RespError : option ProviderError;
}.

Definition contentResponse (regular think : string) : StreamResponse :=
  {| RespContent := regular; ThinkContent := think; RespToolCalls := []; Finished := false; RespError := None |}.
Definition toolResponse (l : list ToolCall) : StreamResponse :=
  {| RespContent := ""; ThinkContent := ""; RespToolCalls := l; Finished := false; RespError := None |}.
Definition finishedResponse : StreamResponse :=
  {| RespContent := ""; ThinkContent := ""; RespToolCalls := []; Finished := true; RespError := None |}.
Definition errorResponse (e : ProviderError) : StreamResponse :=
  {| RespContent := ""; ThinkContent := ""; RespToolCalls := []; Finished := false; RespError := Some e |}.

(** Function: what the model may call.  A nil map of parameters is [None]. *)
Record Function_definition := {
  DefName : string;
  Description : string;
  Parameters : option (gmap string Value);
}.

Record StreamOptions := {
  MaxTokens : Z;
  Temperature : float64;
  Model : string;
  Functions : list Function_definition;
}.

Record ProviderConfig := {
  APIKey : string;
  Endpoint : string;
  DefaultModel_ : string;
  ConfigMaxTokens : Z;
  ConfigTemperature : float64;
  Timeout : Z;
}.

Inductive ProviderType := ProviderTypeOpenAI | ProviderTypeClaude | ProviderTypeOllama | ProviderTypeOpenRouter.

Definition typeName (t : ProviderType) : string :=
  match t with
  | ProviderTypeOpenAI => "openai"
  | ProviderTypeClaude => "claude"
  | ProviderTypeOllama => "ollama"
  | ProviderTypeOpenRouter => "openrouter"
  end.

(** A provider of one of the types, or a placeholder with the reason it failed. *)
Inductive Provider :=
  | Configured (t : ProviderType) (config : ProviderConfig)
  | PlaceholderProvider (name error : string).

(** ** Constructors *)

Definition setDefault (s default : string) : string := if decide (s = "") then default else s.

Definition withDefaults (endpoint model : string) (maxTokens : Z) (config : ProviderConfig) : ProviderConfig := {|
  APIKey := APIKey config;
  Endpoint := setDefault (Endpoint config) endpoint;
  DefaultModel_ := setDefault (DefaultModel_ config) model;
  ConfigMaxTokens := if ConfigMaxTokens config =? 0 then maxTokens else ConfigMaxTokens config;
  ConfigTemperature := if feqb (ConfigTemperature config) (float64_of 0)
                       then float64_const 7 10 else ConfigTemperature config;
  Timeout := if Timeout config =? 0 then 600000000000 else Timeout config |}.

Definition NewOpenAIProvider (config : ProviderConfig) : res string Provider :=
  if decide (APIKey config = "") then Err "OpenAI API key is required"
  else Ok (Configured ProviderTypeOpenAI (withDefaults "https://api.openai.com/v1" "gpt-4" 4096 config)).

Definition NewClaudeProvider (config : ProviderConfig) : res string Provider :=
  if decide (APIKey config = "") then Err "claude API key is required"
  else Ok (Configured ProviderTypeClaude
             (withDefaults "https://api.anthropic.com/v1" "claude-3.5-sonnet-20241022" 8192 config)).

Definition NewOllamaProvider (config : ProviderConfig) : res string Provider :=
  Ok (Configured ProviderTypeOllama (withDefaults "http://localhost:11434" "llama3" 4096 config)).

Definition NewOpenRouterProvider (config : ProviderConfig) : res string Provider :=
  if decide (APIKey config = "") then Err "OpenRouter API key is required"
  else Ok (Configured ProviderTypeOpenRouter
             (withDefaults "https://openrouter.ai/api/v1" "moonshotai/kimi-k2" 4096 config)).

(** ** Methods *)

Definition Name (p : Provider) : string :=
  match p with Configured t _ => typeName t | PlaceholderProvider name _ => name end.

Definition needsKey (t : ProviderType) : option string :=
  match t with
  | ProviderTypeOpenAI => Some "OpenAI API key is required"
  | ProviderTypeClaude => Some "claude API key is required"
  | ProviderTypeOllama => None
  | ProviderTypeOpenRouter => Some "OpenRouter API key is required"
  end.

Definition endpointRequired (t : ProviderType) : string :=
  match t with
  | ProviderTypeOpenAI => "OpenAI endpoint is required"
  | ProviderTypeClaude => "claude endpoint is required"
  | ProviderTypeOllama => "ollama endpoint is required"
  | ProviderTypeOpenRouter => "OpenRouter endpoint is required"
  end.

Definition ValidateConfig (p : Provider) : res string unit :=
  match p with
  | Configured t config =>
      match needsKey t with
      | Some text => if decide (APIKey config = "") then Err text
                     else guard_else (negb (String.eqb (Endpoint config) "")) (endpointRequired t)
      | None => guard_else (negb (String.eqb (Endpoint config) "")) (endpointRequired t)
      end
  | PlaceholderProvider _ error => Err error
  end.

Definition DefaultModel (p : Provider) : string :=
  match p with
  | Configured t config =>
      setDefault (DefaultModel_ config)
        match t with
        | ProviderTypeOpenAI => "gpt-4"
        | ProviderTypeClaude => "claude-3.5-sonnet"
        | ProviderTypeOllama => "qwen3:14b"
        | ProviderTypeOpenRouter => "moonshotai/kimi-k2"
        end
  | PlaceholderProvider _ _ => ""
  end.

(** The models named in the source; those of Ollama and OpenRouter give way to a
    list from the service, if it answers with one. *)
Definition listedModels (t : ProviderType) : list string :=
  match t with
  | ProviderTypeOpenAI =>
      ["gpt-4"; "gpt-4-turbo"; "gpt-4-turbo-preview"; "gpt-3.5-turbo"; "gpt-3.5-turbo-16k"]
  | ProviderTypeClaude =>
      ["claude-sonnet-4-20250514"; "claude-3.5-sonnet-20241022"; "claude-3.5-haiku-20241022";
       "claude-3-opus-20240229"; "claude-3-sonnet-20240229"; "claude-3-haiku-20240307"]
  | ProviderTypeOllama =>
      ["llama3"; "llama3:70b"; "codellama"; "codellama:13b"; "mistral"; "mistral:7b"; "phi3"; "gemma"; "qwen"]
  | ProviderTypeOpenRouter =>
      ["anthropic/claude-3.5-sonnet"; "anthropic/claude-3.5-haiku"; "anthropic/claude-3-opus";
       "anthropic/claude-3.5-sonnet-20241022"; "openai/gpt-4-turbo"; "openai/gpt-4"; "openai/gpt-4o";
       "openai/gpt-4o-mini"; "openai/gpt-3.5-turbo"; "moonshotai/kimi-k2"; "google/gemini-2.5-flash";
       "google/gemini-2.5-pro"; "meta-llama/llama-3-70b-instruct"; "meta-llama/llama-3-8b-instruct";
       "mistralai/mistral-7b-instruct"; "x-ai/grok-4"; "cohere/command-r-plus"]
  end.

(** [models] is what [getAvailableModels] returns. *)
Definition SupportedModels (models : list string) (p : Provider) : list string :=
  match p with
  | Configured t _ =>
      match t with
      | ProviderTypeOpenAI | ProviderTypeClaude => listedModels t
      | _ => match models with [] => listedModels t | _ => models end
      end
  | PlaceholderProvider _ _ => []
  end.

Definition contextWindows (t : ProviderType) : list (string * Z) * Z :=
  match t with
  | ProviderTypeOpenAI =>
      ([("gpt-4", 128000); ("gpt-4-turbo", 128000); ("gpt-4-turbo-preview", 128000);
        ("gpt-3.5-turbo", 16384); ("gpt-3.5-turbo-16k", 16384)], 32768)
  | ProviderTypeClaude =>
      ([("claude-sonnet-4-20250514", 200000); ("claude-3.5-sonnet", 200000); ("claude-sonnet-4", 200000);
        ("claude-3.7-sonnet", 200000); ("claude-3.5-haiku", 200000); ("claude-opus-4", 200000)], 200000)
  | ProviderTypeOllama =>
      ([("qwen3:32b", 131072); ("qwen3:14b", 131072); ("qwen3:8b", 131072); ("gemma3:27b", 8192);
        ("gemma3:12b", 8192); ("llama3.3:70b", 131072); ("deepseek-r1:32b", 131072);
        ("devstral:latest", 32768)], 32768)
  | ProviderTypeOpenRouter =>
      ([("moonshotai/kimi-k2", 66000); ("minimax/minimax-m1", 1000000); ("anthropic/claude-sonnet-4", 200000);
        ("openai/gpt-4o", 128000); ("openai/gpt-4o-mini", 128000); ("qwen3:32b", 131072);
        ("mistralai/devstral-medium", 131072); ("mistralai/devstral-small", 131072); ("x-ai/grok-4", 262144);
        ("google/gemini-2.5-flash", 1075200); ("google/gemini-2.5-pro", 1075200);
        ("qwen/qwen3-30b-a3b", 41943); ("qwen/qwen3-235b-a22b", 41943); ("openai/o4-mini", 200000);
        ("openai/gpt-4.1", 1075200); ("openai/gpt-4.1-mini", 1075200); ("openai/o3", 200000);
        ("openai/o4-mini-high", 200000); ("openai/o3-mini", 200000); ("amazon/nova-pro-v1", 300000)], 32768)
  end.

Definition GetModelContextWindow (model : string) (p : Provider) : Z :=
  match p with
  | Configured t _ =>
      let '(windows, default) := contextWindows t in
      match list_find (λ mw, mw.1 = model) windows with Some (_, (_, window)) => window | None => default end
  | PlaceholderProvider _ _ => 32768
  end.

(** [status] is that of the answer to the request that probes the service. *)
Definition IsAvailable (status : option Z) (p : Provider) : bool :=
  match p with
  | Configured _ _ => is_ok (ValidateConfig p) && bool_decide (status = Some 200)
  | PlaceholderProvider _ _ => false
  end.

(** ** Requests *)

(** The defaults that [StreamChat] fills in. *)
Definition withConfig (config : ProviderConfig) (options : StreamOptions) : StreamOptions := {|
  Model := setDefault (Model options) (DefaultModel_ config);
  MaxTokens := if MaxTokens options =? 0 then ConfigMaxTokens config else MaxTokens options;
  Temperature := if feqb (Temperature options) (float64_of 0) then ConfigTemperature config
                 else Temperature options;
  Functions := Functions options |}.

(** The messages in the format of Claude, which has roles and contents only, and
    the system message. *)
Fixpoint claudeMessages (messages : list Message) (systemMessage : string) :
    list Message * string :=
  match messages with
  | [] => ([], systemMessage)
  | msg :: rest =>
      if decide (Role msg = "system") then claudeMessages rest (Content msg)
      else
        let '(l, system) := claudeMessages rest systemMessage in
        ({| Role := Role msg; Content := Content msg; ToolCalls := []; ToolCallId := "" |} :: l, system)
  end.

Definition setNil (key : string) (v : Value) (params : gmap string Value) : gmap string Value :=
  match params !! key with
  | None | Some VNil => <[key := v]> params
  | Some _ => params
  end.

(** The schema that OpenRouter insists on; the code changes a given map itself,
    so that its owner sees the new entries. *)
Definition openRouterParameters (params : option (gmap string Value)) : gmap string Value :=
  setNil "properties" (VMap []) (setNil "type" (VString "object") (default ∅ params)).

Record Request := {
  URL : string;
  Headers : list (string * string);
  ReqModel : string;
  ReqMessages : list Message;
  ReqSystem : option string;
  ReqMaxTokens : Z;
  ReqTemperature : option float64;
  Tools : list Function_definition;
  ToolChoice : option string;
}.

Definition requestURL (t : ProviderType) (config : ProviderConfig) : string :=
  Endpoint config +:+
  match t with
  | ProviderTypeOpenAI | ProviderTypeOpenRouter => "/chat/completions"
  | ProviderTypeClaude => "/messages"
  | ProviderTypeOllama => "/v1/chat/completions"
  end.

Definition requestHeaders (t : ProviderType) (config : ProviderConfig) : list (string * string) :=
  ("Content-Type", "application/json") ::
  match t with
  | ProviderTypeOpenAI =>
      [("Authorization", "Bearer " +:+ APIKey config); ("Accept", "text/event-stream");
       ("Cache-Control", "no-cache")]
  | ProviderTypeClaude =>
      [("x-api-key", APIKey config); ("anthropic-version", "2023-06-01"); ("Accept", "text/event-stream")]
  | ProviderTypeOllama => []
  | ProviderTypeOpenRouter =>
      [("Authorization", "Bearer " +:+ APIKey config); ("HTTP-Referer", "https://matey.dev");
       ("X-Title", "Matey Dashboard"); ("Accept", "text/event-stream"); ("Cache-Control", "no-cache")]
  end.

Definition requestTool (t : ProviderType) (f : Function_definition) : Function_definition :=
  match t with
  | ProviderTypeOpenRouter =>
      {| DefName := DefName f; Description := Description f;
         Parameters := Some (openRouterParameters (Parameters f)) |}
  | _ => f
  end.

Definition buildRequest (t : ProviderType) (config : ProviderConfig) (messages : list Message)
    (options : StreamOptions) : Request :=
  let options := withConfig config options in
  let '(sent, system) :=
    match t with ProviderTypeClaude => claudeMessages messages "" | _ => (messages, "") end in
  {| URL := requestURL t config;
     Headers := requestHeaders t config;
     ReqModel := Model options;
     ReqMessages := sent;
     ReqSystem := if decide (system = "") then None else Some system;
     ReqMaxTokens := MaxTokens options;
     ReqTemperature :=
       match t with
       | ProviderTypeClaude => if fltb (float64_of 0) (Temperature options) then Some (Temperature options) else None
       | _ => Some (Temperature options)
       end;
     Tools := requestTool t <$> Functions options;
     ToolChoice := match t, Functions options with
                   | ProviderTypeClaude, _ | _, [] => None
                   | _, _ => Some "auto"
                   end |}.

(** ** Think tags *)

Record ThinkProcessor := { insideThinkTag : bool; thinkBuffer : string; regularBuffer : string }.

Definition NewThinkProcessor : ThinkProcessor :=
  {| insideThinkTag := false; thinkBuffer := ""; regularBuffer := "" |}.

Definition setInside (b : bool) (tp : ThinkProcessor) : ThinkProcessor :=
  {| insideThinkTag := b; thinkBuffer := thinkBuffer tp; regularBuffer := regularBuffer tp |}.

(** strings.Split(s, sep)[0], and [1] when [s] contains [sep]. *)
Definition splitHead (s sep : string) : string :=
  match Index s sep with Some i => stake i s | None => s end.
Definition splitSecond (s sep : string) : string :=
  match Index s sep with Some i => splitHead (sdrop (i + String.length sep) s) sep | None => "" end.

(** The processor, the regular content and the content of a think block. *)
Definition ProcessChunk (chunk : string) (tp : ThinkProcessor) : ThinkProcessor * string * string :=
  if Contains chunk "<think>" then (setInside true tp, splitHead chunk "<think>", "")
  else if Contains chunk "</think>" then (setInside false tp, splitSecond chunk "</think>", "")
  else if insideThinkTag tp then (tp, "", chunk)
  else (tp, chunk, "").

Definition ProcessStreamContentWithThinks (tp : ThinkProcessor) (chunk : string) :
    ThinkProcessor * string * string := ProcessChunk chunk tp.

Definition sendContent (chunk : string) (tp : ThinkProcessor) : ThinkProcessor * list StreamResponse :=
  let '(tp', regular, think) := ProcessStreamContentWithThinks tp chunk in
  (tp', if decide (regular = "" ∧ think = "") then [] else [contentResponse regular think]).

(** ** Lines of an answer *)

(** bufio.Scanner with ScanLines on a body that ends, or fails with an error: the
    lines it delivers and its error.  A line that fills the buffer is an error. *)
Definition MaxScanTokenSize : Z := 65536.

Fixpoint scanLines (lines : list string) (readError : option string) : list string * option string :=
  match lines with
  | [] => ([], readError)
  | l :: rest =>
      if MaxScanTokenSize <=? Z.of_nat (String.length l)
      then ([], Some "bufio.Scanner: token too long")
      else let '(tokens, err) := scanLines rest readError in (dropCR l :: tokens, err)
  end.

Definition scan (body : string) (readError : option string) : list string * option string :=
  scanLines (textLines body) readError.

Definition linePayload (line : string) : option string :=
  if decide (line = "") then None
  else if HasPrefix line ":" then None
  else if HasPrefix line "data: " then Some (TrimPrefix line "data: ")
  else None.

Definition scanFailed (providerName : string) (err : option string) : list StreamResponse :=
  match err with
  | Some e => [errorResponse (NewProviderError providerName ("stream read error: " +:+ e) "stream_error")]
  | None => []
  end.

(** What a provider reads from one data line: an element of choices, and an
    event of Claude. *)
Record Choice := {
  DeltaContent : string;
  DeltaToolCalls : list ToolCall;
  FinishReason : option string;
}.

Record Event := {
  EventType : string;
  DeltaType : string;
  DeltaText : string;
  PartialJSON : string;
  BlockType : string;
  BlockName : string;
  BlockID : string;
}.

Section streams.
(** encoding/json on the two structures. *)
Context (unmarshalChoices : string → option (list Choice)) (unmarshalEvent : string → option Event).

(** The responses sent for one line, and whether the stream ends with it. *)
Definition openAILine (line : string) (tp : ThinkProcessor) :
    ThinkProcessor * list StreamResponse * bool :=
  match linePayload line with
  | None => (tp, [], false)
  | Some data =>
      if decide (data = "[DONE]") then (tp, [finishedResponse], true)
      else
        match unmarshalChoices data with
        | None | Some [] => (tp, [], false)
        | Some (choice :: _) =>
            let '(tp', sent) :=
              if decide (DeltaContent choice = "") then (tp, []) else sendContent (DeltaContent choice) tp in
            let sent := sent ++
              match DeltaToolCalls choice with [] => [] | calls => [toolResponse calls] end in
            match FinishReason choice with
            | Some _ => (tp', sent ++ [finishedResponse], true)
            | None => (tp', sent, false)
            end
        end
  end.

Definition claudeLine (line : string) (tp : ThinkProcessor) :
    ThinkProcessor * list StreamResponse * bool :=
  match linePayload line with
  | None => (tp, [], false)
  | Some data =>
      match unmarshalEvent data with
      | None => (tp, [], false)
      | Some e =>
          if decide (EventType e = "content_block_start") then
            if decide (BlockType e = "tool_use") then
              (tp, [toolResponse [{| ToolID := BlockID e; ToolType := "function";
                                     Function_ := {| FunctionName := BlockName e; Arguments := "" |} |}]], false)
            else (tp, [], false)
          else if decide (EventType e = "content_block_delta") then
            if decide (DeltaType e = "text_delta") then
              let '(tp', sent) := sendContent (DeltaText e) tp in (tp', sent, false)
            else (tp, [], false)
          else if decide (EventType e = "message_stop") then (tp, [finishedResponse], true)
          else (tp, [], false)
      end
  end.

(** The loop over the lines, for either way to read one. *)
Fixpoint streamLines (step : string → ThinkProcessor → ThinkProcessor * list StreamResponse * bool)
    (providerName : string) (lines : list string) (err : option string) (tp : ThinkProcessor) :
    list StreamResponse :=
  match lines with
  | [] => scanFailed providerName err
  | line :: rest =>
      let '(tp', sent, stop) := step line tp in
      if stop : bool then sent else sent ++ streamLines step providerName rest err tp'
  end.

Definition ProcessOpenAIStreamResponse (body : string) (readError : option string)
    (providerName : string) (tp : ThinkProcessor) : list StreamResponse :=
  let '(lines, err) := scan body readError in streamLines openAILine providerName lines err tp.

Definition processClaudeStream (body : string) (readError : option string)
    (providerName : string) (tp : ThinkProcessor) : list StreamResponse :=
  let '(lines, err) := scan body readError in streamLines claudeLine providerName lines err tp.

(** What comes of the request: an error of the client, or a status and a body
    that ends or breaks off. *)
Inductive Answer :=
  | Failed (err : string)
  | Answered (status : Z) (body : string) (readError : option string).

(** The goroutine of [StreamChat]: everything it sends before it closes the channel. *)
Definition answerStream (t : ProviderType) (answer : Answer) : list StreamResponse :=
  let name := typeName t in
  match answer with
  | Failed err => [errorResponse (NewProviderError name ("request failed: " +:+ err) "request_failed")]
  | Answered status body readError =>
      if negb (status =? 200) then
        match readError with
        | Some err =>
            [errorResponse (NewProviderError name
               ("HTTP " +:+ Itoa status +:+ " (failed to read error body: " +:+ err +:+ ")") "http_error")]
        | None =>
            [errorResponse (NewProviderError name ("HTTP " +:+ Itoa status +:+ ": " +:+ body) "http_error")]
        end
      else
        match t with
        | ProviderTypeClaude => processClaudeStream body readError name NewThinkProcessor
        | _ => ProcessOpenAIStreamResponse body readError name NewThinkProcessor
        end
  end.

(** What the standard library makes of the request: its body cannot be encoded,
    the request cannot be made, or it is sent and answered. *)
Inductive Sending := NotMarshalled | NotCreated | Sent (answer : Answer).

Definition errorText (e : ProviderError) : string :=
  let 'NewProviderError provider message _ := e in "provider " +:+ provider +:+ ": " +:+ message.

(** The responses on the channel, or the error that [StreamChat] returns; [send]
    is the network. *)
Definition StreamChat (send : Request → Sending) (p : Provider) (messages : list Message)
    (options : StreamOptions) : res string (list StreamResponse) :=
  match p with
  | PlaceholderProvider name error => Err ("provider " +:+ name +:+ " is not available: " +:+ error)
  | Configured t config =>
      match send (buildRequest t config messages options) with
      | NotMarshalled =>
          Err (errorText (NewProviderError (typeName t) "failed to marshal request" "marshal_error"))
      | NotCreated =>
          Err (errorText (NewProviderError (typeName t) "failed to create request" "request_error"))
      | Sent answer => Ok (answerStream t answer)
      end
  end.
End streams.

(** ** What a stream should give *)

(** A message as a service produces it: plain text, reasoning between think tags
    and calls, in pieces.  [pieces] are the chunks it is sent in, tags on their
    own, and [expected] what the reader should receive for them. *)
Inductive Segment :=
  | Plain (l : list string)
  | Thought (l : list string)
  | Calls (calls : list ToolCall).

Inductive Piece := PieceText (s : string) | PieceCalls (calls : list ToolCall).

Definition pieces (seg : Segment) : list Piece :=
  match seg with
  | Plain l => PieceText <$> l
  | Thought l => PieceText "<think>" :: (PieceText <$> l) ++ [PieceText "</think>"]
  | Calls calls => [PieceCalls calls]
  end.

Definition untagged (s : string) : Prop :=
  s ≠ "" ∧ Contains s "<think>" = false ∧ Contains s "</think>" = false.

Definition wellFormed (seg : Segment) : Prop :=
  match seg with
  | Plain l | Thought l => Forall untagged l
  | Calls calls => calls ≠ []
  end.

(** JSON carries text, which in Go is valid UTF-8; encoding/json puts U+FFFD in
    place of anything else. *)
Definition text (s : string) : Prop := Valid s = true.

Definition callText (c : ToolCall) : Prop :=
  Forall text [ToolID c; ToolType c; FunctionName (Function_ c); Arguments (Function_ c)].

Definition choiceText (c : Choice) : Prop :=
  text (DeltaContent c) ∧ Forall callText (DeltaToolCalls c) ∧
  ∀ reason, FinishReason c = Some reason → text reason.

Definition eventText (e : Event) : Prop :=
  Forall text [EventType e; DeltaType e; DeltaText e; PartialJSON e; BlockType e; BlockName e; BlockID e].

Definition segmentText (seg : Segment) : Prop :=
  match seg with
  | Plain l | Thought l => Forall text l
  | Calls calls => Forall callText calls
  end.

Definition isClaude (t : ProviderType) : bool :=
  match t with ProviderTypeClaude => true | _ => false end.

(** A call as Claude's reader reports it: its arguments are lost. *)
Definition startedCall (c : ToolCall) : ToolCall :=
  {| ToolID := ToolID c; ToolType := "function";
     Function_ := {| FunctionName := FunctionName (Function_ c); Arguments := "" |} |}.

Definition expected (t : ProviderType) (seg : Segment) : list StreamResponse :=
  match seg with
  | Plain l => (λ s, contentResponse s "") <$> l
  | Thought l => (λ s, contentResponse "" s) <$> l
  | Calls calls =>
      if isClaude t then (λ c, toolResponse [startedCall c]) <$> calls else [toolResponse calls]
  end.

(** How a stream ends: with the provider's mark, with a read error, or with the
    connection. *)
Inductive Ending := Complete | Broken (err : string) | Closed.

Definition endResponses (t : ProviderType) (e : Ending) : list StreamResponse :=
  match e with
  | Complete => [finishedResponse]
  | Broken err => scanFailed (typeName t) (Some err)
  | Closed => []
  end.

Definition endError (e : Ending) : option string :=
  match e with Broken err => Some err | _ => None end.

Definition textChoice (s : string) : Choice :=
  {| DeltaContent := s; DeltaToolCalls := []; FinishReason := None |}.
Definition callsChoice (calls : list ToolCall) : Choice :=
  {| DeltaContent := ""; DeltaToolCalls := calls; FinishReason := None |}.
Definition textEvent (s : string) : Event :=
  {| EventType := "content_block_delta"; DeltaType := "text_delta"; DeltaText := s; PartialJSON := "";
     BlockType := ""; BlockName := ""; BlockID := "" |}.
Definition callEvent (c : ToolCall) : Event :=
  {| EventType := "content_block_start"; DeltaType := ""; DeltaText := ""; PartialJSON := "";
     BlockType := "tool_use"; BlockName := FunctionName (Function_ c); BlockID := ToolID c |}.
Definition argumentsEvent (c : ToolCall) : Event :=
  {| EventType := "content_block_delta"; DeltaType := "input_json_delta"; DeltaText := "";
     PartialJSON := Arguments (Function_ c); BlockType := ""; BlockName := ""; BlockID := "" |}.
Definition stopEvent : Event :=
  {| EventType := "message_stop"; DeltaType := ""; DeltaText := ""; PartialJSON := "";
     BlockType := ""; BlockName := ""; BlockID := "" |}.

Section encoding.
Context (unmarshalChoices : string → option (list Choice)) (unmarshalEvent : string → option Event).
Context (marshalChoice : Choice → string) (marshalEvent : Event → string).

Definition pieceData (t : ProviderType) (p : Piece) : list string :=
  if isClaude t then
    match p with
    | PieceText s => [marshalEvent (textEvent s)]
    | PieceCalls calls => calls ≫= λ c, [marshalEvent (callEvent c); marshalEvent (argumentsEvent c)]
    end
  else
    match p with
    | PieceText s => [marshalChoice (textChoice s)]
    | PieceCalls calls => [marshalChoice (callsChoice calls)]
    end.

Definition endData (t : ProviderType) (e : Ending) : list string :=
  match e with
  | Complete => [if isClaude t then marshalEvent stopEvent else "[DONE]"]
  | _ => []
  end.

Definition streamData (t : ProviderType) (segs : list Segment) (e : Ending) : list string :=
  ((segs ≫= pieces) ≫= pieceData t) ++ endData t e.

(** The body: a data line and an empty line per event. *)
Definition streamBody (t : ProviderType) (segs : list Segment) (e : Ending) : string :=
  concatS ((λ d, "data: " +:+ d +:+ byte1 newline +:+ byte1 newline) <$> streamData t segs e).

(** The data has no line breaks, fits in the scanner's buffer, and is not the end mark. *)
Definition sendable (d : string) : Prop :=
  CountByte d newline = 0%nat ∧ CountByte d carriageReturn = 0%nat ∧
  Z.of_nat (String.length d) < MaxScanTokenSize - 6.

(** What encoding/json promises: values whose strings are text come back. *)
Context (Hchoice : ∀ c, choiceText c →
  unmarshalChoices (marshalChoice c) = Some [c] ∧ marshalChoice c ≠ "[DONE]").
Context (Hevent : ∀ e, eventText e → unmarshalEvent (marshalEvent e) = Some e).

Lemma textChoice_text s : text s → choiceText (textChoice s).
Proof using. intros Hs. by repeat split; [|constructor|]. Qed.

Lemma callsChoice_text calls : Forall callText calls → choiceText (callsChoice calls).
Proof using. intros Hc. by repeat split. Qed.

Lemma textEvent_text s : text s → eventText (textEvent s).
Proof using. intros Hs. by repeat constructor. Qed.

Lemma callEvents_text c : callText c → eventText (callEvent c) ∧ eventText (argumentsEvent c).
Proof using.
  unfold callText. rewrite !Forall_cons. intros (? & ? & ? & ? & _). by repeat constructor.
Qed.

Lemma stopEvent_text : eventText stopEvent.
Proof using. by repeat constructor. Qed.

Definition stepOf (t : ProviderType) :=
  if isClaude t then claudeLine unmarshalEvent else openAILine unmarshalChoices.

(** *** Scanning *)

Definition dataLines (d : string) : list string := ["data: " +:+ d; ""].

Lemma scanLines_ok lines err :
  Forall (λ l, CountByte l carriageReturn = 0%nat ∧ Z.of_nat (String.length l) < MaxScanTokenSize) lines →
  scanLines lines err = (lines, err).
Proof using.
  induction 1 as [|l lines [Hc Hl] _ IH]; [done|]. cbn [scanLines].
  rewrite (proj2 (Z.leb_gt _ _) Hl), IH. by rewrite dropCR_id.
Qed.

Lemma scan_data ds err :
  Forall sendable ds →
  scan (concatS ((λ d, "data: " +:+ d +:+ byte1 newline +:+ byte1 newline) <$> ds)) err
  = (ds ≫= dataLines, err).
Proof using.
  intros Hds. unfold scan.
  assert (concatS ((λ d, "data: " +:+ d +:+ byte1 newline +:+ byte1 newline) <$> ds)
          = concatS ((λ l, l +:+ byte1 newline) <$> (ds ≫= dataLines))) as ->.
  { clear Hds. induction ds as [|d ds IH]; [done|].
    rewrite fmap_cons, bind_cons, fmap_app, concatS_app, <-IH. unfold concatS at 1 2. cbn [foldr].
    fold (concatS ((λ d, "data: " +:+ d +:+ byte1 newline +:+ byte1 newline) <$> ds)).
    unfold dataLines. cbn [fmap list_fmap foldr]. by rewrite sapp_nil_r, <-!sapp_assoc. }
  rewrite textLines_concat.
  - apply scanLines_ok, Forall_bind. eapply Forall_impl; [exact Hds|]. intros d (Hn & Hr & Hl).
    repeat constructor; rewrite ?CountByte_app, ?slength_app, ?Hr; try done.
    unfold MaxScanTokenSize in *. cbn [String.length]. lia.
  - apply Forall_bind. eapply Forall_impl; [exact Hds|]. intros d (Hn & _).
    repeat constructor. by rewrite CountByte_app, Hn.
Qed.

(** *** Feeding a reader *)

Section feeding.
Context (step : string → ThinkProcessor → ThinkProcessor * list StreamResponse * bool).

(** The data lets the loop send [out] and go on. *)
Definition feeds (ds : list string) (tp : ThinkProcessor) (out : list StreamResponse)
    (tp' : ThinkProcessor) : Prop :=
  ∀ name rest err,
    streamLines step name ((ds ≫= dataLines) ++ rest) err tp = out ++ streamLines step name rest err tp'.

Lemma feeds_nil tp : feeds [] tp [] tp.
Proof using. done. Qed.

Lemma feeds_app ds1 ds2 tp1 tp2 tp3 out1 out2 :
  feeds ds1 tp1 out1 tp2 → feeds ds2 tp2 out2 tp3 → feeds (ds1 ++ ds2) tp1 (out1 ++ out2) tp3.
Proof using.
  intros H1 H2 name rest err. rewrite bind_app, <-(assoc_L (++)), H1, H2. by rewrite (assoc_L (++)).
Qed.

Context (step_empty : ∀ tp, step "" tp = (tp, [], false)).

Lemma feeds_data d tp out tp' : step ("data: " +:+ d) tp = (tp', out, false) → feeds [d] tp out tp'.
Proof using step_empty.
  intros Hd name rest err. cbn [mbind list_bind dataLines app streamLines].
  rewrite Hd, step_empty. done.
Qed.

(** What is fed piece by piece for a processor that stays as it is. *)
Lemma feeds_bind {A} (data : A → list string) (out : A → list StreamResponse) tp l :
  Forall (λ x, feeds (data x) tp (out x) tp) l → feeds (l ≫= data) tp (l ≫= out) tp.
Proof using.
  clear step_empty. induction 1 as [|x l Hx _ IH]; [apply feeds_nil|]. cbn [mbind list_bind].
  eapply feeds_app; [exact Hx|exact IH].
Qed.
End feeding.

Lemma stepOf_empty t tp : stepOf t "" tp = (tp, [], false).
Proof using. unfold stepOf. by destruct (isClaude t). Qed.

Lemma linePayload_data d : linePayload ("data: " +:+ d) = Some d.
Proof using.
  unfold linePayload. destruct (decide _) as [E|_]; [discriminate E|].
  change (HasPrefix ("data: " +:+ d) ":") with false. by rewrite HasPrefix_app, TrimPrefix_app.
Qed.

(** *** Pieces *)

Lemma sendContent_untagged s tp :
  untagged s →
  sendContent s tp = (tp, [if insideThinkTag tp then contentResponse "" s else contentResponse s ""]).
Proof using.
  intros (Hne & H1 & H2). unfold sendContent, ProcessStreamContentWithThinks, ProcessChunk.
  rewrite H1, H2. destruct (insideThinkTag tp); destruct (decide _) as [[??]|_]; done.
Qed.

Lemma sendContent_open tp : sendContent "<think>" tp = (setInside true tp, []).
Proof using. done. Qed.

Lemma sendContent_close tp : sendContent "</think>" tp = (setInside false tp, []).
Proof using. done. Qed.

(** A piece of text is sent on by either reader as the processor says. *)
Lemma step_text t s tp :
  s ≠ "" → text s →
  ∃ d, pieceData t (PieceText s) = [d] ∧
    stepOf t ("data: " +:+ d) tp = ((sendContent s tp).1, (sendContent s tp).2, false).
Proof using Hchoice Hevent.
  intros Hs Ht. unfold pieceData, stepOf. destruct (isClaude t); (eexists; split; [done|]).
  - unfold claudeLine. rewrite linePayload_data, Hevent by by apply textEvent_text. cbn. by destruct (sendContent s tp).
  - destruct (Hchoice (textChoice s) (textChoice_text s Ht)) as [Hc Hd]. unfold openAILine.
    rewrite linePayload_data, decide_False, Hc by done. cbn [textChoice DeltaContent DeltaToolCalls FinishReason].
    rewrite decide_False by done. destruct (sendContent s tp). by rewrite app_nil_r.
Qed.

Lemma feeds_text t s tp :
  s ≠ "" → text s →
  feeds (stepOf t) (pieceData t (PieceText s)) tp (sendContent s tp).2 (sendContent s tp).1.
Proof using Hchoice Hevent.
  intros Hs Ht. destruct (step_text t s tp Hs Ht) as (d & -> & Hd).
  apply feeds_data; [apply stepOf_empty|done].
Qed.

Lemma feeds_texts t l tp :
  Forall untagged l → Forall text l →
  feeds (stepOf t) ((PieceText <$> l) ≫= pieceData t) tp
    ((λ s, if insideThinkTag tp then contentResponse "" s else contentResponse s "") <$> l) tp.
Proof using Hchoice Hevent.
  induction 1 as [|s l Hs _ IH]; intros Ht; [apply feeds_nil|]. rewrite !fmap_cons, bind_cons.
  apply Forall_cons in Ht as [Hts Ht].
  eapply (feeds_app _ _ _ _ _ _ [_]); [|exact (IH Ht)].
  pose proof (feeds_text t s tp (proj1 Hs) Hts) as Hf. by rewrite sendContent_untagged in Hf.
Qed.

Lemma feeds_calls t calls tp :
  calls ≠ [] → Forall callText calls →
  feeds (stepOf t) (pieceData t (PieceCalls calls)) tp (expected t (Calls calls)) tp.
Proof using Hchoice Hevent.
  intros Hne Ht. unfold pieceData, expected, stepOf. destruct (isClaude t).
  - clear Hne. induction Ht as [|c calls Hc _ IH]; [apply feeds_nil|].
    destruct (callEvents_text c Hc) as [H1 H2]. rewrite bind_cons, fmap_cons.
    eapply (feeds_app _ _ _ _ tp _ [_]); [|exact IH].
    apply (feeds_app _ [_] [_] tp tp tp [_] []); (apply feeds_data; [done|]);
      unfold claudeLine; by rewrite linePayload_data, Hevent.
  - destruct (Hchoice (callsChoice calls) (callsChoice_text calls Ht)) as [Hc Hd]. apply feeds_data; [done|]. unfold openAILine.
    rewrite linePayload_data, decide_False, Hc by done. by destruct calls.
Qed.

Lemma feeds_segment t seg tp :
  wellFormed seg → segmentText seg → insideThinkTag tp = false →
  feeds (stepOf t) (pieces seg ≫= pieceData t) tp (expected t seg) tp.
Proof using Hchoice Hevent.
  intros Hw Ht Hin. destruct seg as [l|l|calls]; cbn [pieces wellFormed segmentText] in *.
  - pose proof (feeds_texts t l tp Hw Ht) as Hf. by rewrite Hin in Hf.
  - rewrite bind_cons, bind_app.
    apply (feeds_app _ _ _ _ (setInside true tp) _ [] (expected t (Thought l))).
    { pose proof (feeds_text t "<think>" tp ltac:(done) ltac:(done)) as Hf. by rewrite sendContent_open in Hf. }
    cbn [expected]. rewrite <-(app_nil_r ((λ s, contentResponse "" s) <$> l)).
    eapply feeds_app; [exact (feeds_texts t l (setInside true tp) Hw Ht)|].
    pose proof (feeds_text t "</think>" (setInside true tp) ltac:(done) ltac:(done)) as Hf.
    rewrite sendContent_close in Hf. rewrite bind_cons, app_nil_r. destruct tp. cbn in *. by subst.
  - rewrite bind_cons, app_nil_r. by apply feeds_calls.
Qed.

Lemma feeds_segments t segs tp :
  Forall wellFormed segs → Forall segmentText segs → insideThinkTag tp = false →
  feeds (stepOf t) ((segs ≫= pieces) ≫= pieceData t) tp (segs ≫= expected t) tp.
Proof using Hchoice Hevent.
  intros Hw Ht Hin. induction Hw as [|seg segs Hseg _ IH]; [apply feeds_nil|].
  apply Forall_cons in Ht as [Hts Ht].
  rewrite !bind_cons, bind_app. eapply feeds_app; [by apply feeds_segment|exact (IH Ht)].
Qed.

Lemma stream_end t e :
  streamLines (stepOf t) (typeName t) (endData t e ≫= dataLines) (endError e) NewThinkProcessor
  = endResponses t e.
Proof using Hevent.
  destruct e as [|err|]; try done. unfold endData, stepOf. rewrite bind_cons, app_nil_r.
  unfold dataLines. destruct (isClaude t); [|done]. cbn [streamLines]. unfold claudeLine.
  by rewrite linePayload_data, Hevent by apply stopEvent_text.
Qed.

(** C36: take a stream of text, reasoning and tool calls, all valid UTF-8, in chunks
    that hold no think tag, the reasoning between tags that are chunks of their own,
    each event's data within the scanner's buffer.  It reaches the reader in order and
    complete, the reasoning apart from the text, but for the arguments of Claude's tool
    calls, which are lost, and ends as the connection ends: with one finished response,
    with the read error, or, if the connection just closes, with nothing. *)
Theorem stream_roundtrip t segs e :
  Forall wellFormed segs → Forall segmentText segs → Forall sendable (streamData t segs e) →
  answerStream unmarshalChoices unmarshalEvent t (Answered 200 (streamBody t segs e) (endError e))
  = (segs ≫= expected t) ++ endResponses t e.
Proof using Hchoice Hevent.
  intros Hw Ht Hs.
  transitivity (streamLines (stepOf t) (typeName t) (streamData t segs e ≫= dataLines) (endError e)
                  NewThinkProcessor).
  { unfold answerStream, stepOf, processClaudeStream, ProcessOpenAIStreamResponse, streamBody.
    change (negb (200 =? 200)) with false. cbn [negb]. rewrite (scan_data _ (endError e) Hs).
    by destruct t. }
  unfold streamData. rewrite bind_app, <-(app_nil_r (endData t e ≫= dataLines)).
  rewrite (feeds_segments t segs NewThinkProcessor Hw Ht eq_refl), app_nil_r. by rewrite stream_end.
Qed.
End encoding.

(** ** A concrete encoding *)

(** Any countable type in zeros and ones. *)
Fixpoint bits (p : positive) : string :=
  match p with
  | xH => ""
  | xO p => String "0" (bits p)
  | xI p => String "1" (bits p)
  end.

Fixpoint unbits (s : string) : positive :=
  match s with
  | "" => xH
  | String c s => if Ascii.eqb c "0" then xO (unbits s) else xI (unbits s)
  end.

Lemma unbits_bits p : unbits (bits p) = p.
Proof. induction p as [p IH|p IH|]; simpl; by rewrite ?IH. Qed.

Definition callTuple (c : ToolCall) : string * string * (string * string) :=
  (ToolID c, ToolType c, (FunctionName (Function_ c), Arguments (Function_ c))).
Definition tupleCall (x : string * string * (string * string)) : ToolCall :=
  {| ToolID := x.1.1; ToolType := x.1.2;
     Function_ := {| FunctionName := x.2.1; Arguments := x.2.2 |} |}.

Lemma tupleCall_callTuple c : tupleCall (callTuple c) = c.
Proof. by destruct c as [?? []]. Qed.

#[export] Instance ToolCall_countable : Countable ToolCall :=
  inj_countable' callTuple tupleCall tupleCall_callTuple.

Definition marshalChoice' (c : Choice) : string :=
  bits (encode (DeltaContent c, DeltaToolCalls c, FinishReason c)).
Definition unmarshalChoices' (s : string) : option (list Choice) :=
  x ← decode (A := string * list ToolCall * option string) (unbits s);
  Some [{| DeltaContent := x.1.1; DeltaToolCalls := x.1.2; FinishReason := x.2 |}].

Definition eventTuple (e : Event) :=
  ((EventType e, DeltaType e, DeltaText e, PartialJSON e), (BlockType e, BlockName e, BlockID e)).
Definition marshalEvent' (e : Event) : string := bits (encode (eventTuple e)).
Definition unmarshalEvent' (s : string) : option Event :=
  x ← decode (A := (string * string * string * string) * (string * string * string)) (unbits s);
  Some {| EventType := x.1.1.1.1; DeltaType := x.1.1.1.2; DeltaText := x.1.1.2; PartialJSON := x.1.2;
          BlockType := x.2.1.1; BlockName := x.2.1.2; BlockID := x.2.2 |}.

Lemma bits_done p : bits p ≠ "[DONE]".
Proof. destruct p; by simpl. Qed.

Lemma unmarshal_choice c :
  unmarshalChoices' (marshalChoice' c) = Some [c] ∧ marshalChoice' c ≠ "[DONE]".
Proof.
  split; [|apply bits_done]. unfold unmarshalChoices', marshalChoice'.
  rewrite unbits_bits, decode_encode. by destruct c.
Qed.

Lemma unmarshal_event e : unmarshalEvent' (marshalEvent' e) = Some e.
Proof. unfold unmarshalEvent', marshalEvent'. rewrite unbits_bits, decode_encode. by destruct e. Qed.

#[export] Instance sendable_dec d : Decision (sendable d).
Proof. unfold sendable. apply _. Defined.

Definition exampleCall : ToolCall :=
  {| ToolID := "call_1"; ToolType := "function";
     Function_ := {| FunctionName := "ls"; Arguments := "{}" |} |}.

Definition exampleSegments : list Segment :=
  [Plain ["Hel"; "lo "]; Thought ["why"]; Calls [exampleCall]; Plain ["bye"]].

Lemma exampleSegments_wellFormed : Forall wellFormed exampleSegments ∧ Forall segmentText exampleSegments.
Proof. split; repeat constructor; done. Qed.

Lemma stream_roundtrip_witness :
  answerStream unmarshalChoices' unmarshalEvent' ProviderTypeClaude
    (Answered 200 (streamBody marshalChoice' marshalEvent' ProviderTypeClaude exampleSegments Complete) None)
  = [contentResponse "Hel" ""; contentResponse "lo " ""; contentResponse "" "why";
     toolResponse [startedCall exampleCall]; contentResponse "bye" ""; finishedResponse].
Proof.
  apply (stream_roundtrip unmarshalChoices' unmarshalEvent' marshalChoice' marshalEvent'
           (λ c _, unmarshal_choice c) (λ e _, unmarshal_event e) ProviderTypeClaude exampleSegments Complete
           (proj1 exampleSegments_wellFormed) (proj2 exampleSegments_wellFormed)).
  apply (bool_decide_eq_true_1 _). vm_compute. reflexivity.
Defined.

(** ** Where it falls short *)

(** Text after an opening tag in its chunk is lost, and so is the text before a
    closing tag; a chunk with both tags leaves the reader in the block; tags cut by
    the chunks are not seen. *)
Example think_in_chunk :
  sendContent "<think>plan" NewThinkProcessor = (setInside true NewThinkProcessor, []) ∧
  sendContent "plan</think>" (setInside true NewThinkProcessor) = (NewThinkProcessor, []) ∧
  sendContent "<think>plan</think>answer" NewThinkProcessor = (setInside true NewThinkProcessor, []) ∧
  sendContent "<thi" NewThinkProcessor = (NewThinkProcessor, [contentResponse "<thi" ""]).
Proof. vm_compute. done. Qed.

(** Only the last of several system messages is sent to Claude. *)
Lemma claudeMessages_system messages s msg :
  Role msg = "system" → (claudeMessages (messages ++ [msg]) s).2 = Content msg.
Proof.
  intros Hr. revert s. induction messages as [|m messages IH]; intros s.
  - cbn [app claudeMessages]. by rewrite decide_True.
  - cbn [app claudeMessages]. case_decide; [apply IH|].
    specialize (IH s). by destruct (claudeMessages (messages ++ [msg]) s).
Qed.
