(* ===== verification/AIManager.v ===== *)
(** * The manager of the AI providers

    internal/ai/manager.go over the interface of providers ([AIProvider]), which
    the providers of AIProviders implement.  The health check is a goroutine of its
    own: it reads the current provider and probes it without the lock, and then sets
    another one under the lock, so that it is two steps between which other calls
    may come.  Every probe of a provider may find another state of the network. *)
From S2P Require Import Prelude GoString GoNum AIProviders.

#[local] Open Scope Z_scope.

Set Default Proof Using "Type*".

(** ** The interface of a provider *)

(** [W] is the network at the moment of a call. *)
Class AIProvider (W P : Type) := {
  create : string → ProviderConfig → P;
  name_of : P → string;
  available : W → P → bool;
  supported : W → P → list string;
  validate : P → res string unit;
  window : string → P → Z;
  default_model : P → string;
  stream : W → P → list Message → StreamOptions → res string (list StreamResponse);
}.

(** A provider without a name serves nobody. *)
Class AIProviderLaws (W P : Type) `{!AIProvider W P} := {
  anonymous_unavailable : ∀ (w : W) config, available w (create "" config) = false;
}.

(** ** Data *)

Record Config := {
  DefaultProvider : string;
  Providers : gmap string ProviderConfig;
  FallbackProviders : list string;
}.

Record ProviderStatus := {
  StatusName : string;
  Available : bool;
  StatusError : string;
  Models : list string;
}.

Section manager.
Context {W P : Type} `{!AIProvider W P}.

Record Manager := {
  providers : gmap string P;
  config : Config;
  currentProvider : string;
}.

Definition setCurrent (name : string) (m : Manager) : Manager :=
  {| providers := providers m; config := config m; currentProvider := name |}.

(** ** Operations *)

Definition initializeProviders (c : Config) : gmap string P := map_imap (λ name cfg, Some (create name cfg)) (Providers c).

(** The first name of a provider that exists and answers; [n] counts the probes. *)
Fixpoint firstAvailable (w : nat → W) (n : nat) (names : list string) (m : Manager) : option string :=
  match names with
  | [] => None
  | name :: rest =>
      match providers m !! name with
      | Some p => if available (w n) p then Some name else firstAvailable w (S n) rest m
      | None => firstAvailable w n rest m
      end
  end.

Definition setCurrentProvider (w : nat → W) (name : string) (m : Manager) : Manager :=
  setCurrent (default "" (firstAvailable w 0 (name :: FallbackProviders (config m)) m)) m.

Definition NewManager (w : nat → W) (c : Config) : Manager :=
  setCurrentProvider w (DefaultProvider c)
    {| providers := initializeProviders c; config := c; currentProvider := "" |}.

Definition GetCurrentProvider (m : Manager) : res string P :=
  if decide (currentProvider m = "") then Err "no available AI provider"
  else match providers m !! currentProvider m with
       | None => Err ("current provider " +:+ currentProvider m +:+ " not found")
       | Some p => Ok p
       end.

Definition GetProvider (name : string) (m : Manager) : res string P :=
  match providers m !! name with
  | None => Err ("provider " +:+ name +:+ " not found")
  | Some p => Ok p
  end.

Definition SwitchProvider (w : W) (name : string) (m : Manager) : res string unit * Manager :=
  match providers m !! name with
  | None => (Err ("provider " +:+ name +:+ " not found"), m)
  | Some p =>
      if available w p then (Ok (), setCurrent name m)
      else (Err ("provider " +:+ name +:+ " is not available"), m)
  end.

Definition StreamChat (w : W) (messages : list Message) (options : StreamOptions) (m : Manager) :
    res string (list StreamResponse) :=
  provider ← GetCurrentProvider m; stream w provider messages options.

Definition StreamChatWithProvider (w : W) (name : string) (messages : list Message)
    (options : StreamOptions) (m : Manager) : res string (list StreamResponse) :=
  provider ← GetProvider name m; stream w provider messages options.

(** The loop over the fallback providers. *)
Fixpoint tryFallbacks (w : nat → W) (n : nat) (messages : list Message) (options : StreamOptions)
    (names : list string) (m : Manager) : res string (list StreamResponse) * Manager :=
  match names with
  | [] => (Err "no available providers for chat completion", m)
  | fallbackName :: rest =>
      if decide (fallbackName = currentProvider m) then tryFallbacks w n messages options rest m
      else
        match GetProvider fallbackName m with
        | Err _ => tryFallbacks w n messages options rest m
        | Ok provider =>
            if available (w n) provider then
              match stream (w (S n)) provider messages options with
              | Ok ch => (Ok ch, setCurrent fallbackName m)
              | Err _ => tryFallbacks w (S (S n)) messages options rest m
              end
            else tryFallbacks w (S n) messages options rest m
        end
  end.

Definition StreamChatWithFallback (w : nat → W) (messages : list Message) (options : StreamOptions)
    (m : Manager) : res string (list StreamResponse) * Manager :=
  match GetCurrentProvider m with
  | Ok provider =>
      match stream (w 0%nat) provider messages options with
      | Ok ch => (Ok ch, m)
      | Err _ => tryFallbacks w 1 messages options (FallbackProviders (config m)) m
      end
  | Err _ => tryFallbacks w 0 messages options (FallbackProviders (config m)) m
  end.

Definition errorOf (r : res string unit) : string := match r with Err e => e | Ok _ => "" end.

(** [w name] is the network while the provider of that name is asked. *)
Definition GetProviderStatus (w : string → W) (m : Manager) : gmap string ProviderStatus :=
  map_imap (λ name p, Some {|
    StatusName := name;
    Available := available (w name) p;
    StatusError := errorOf (validate p);
    Models := supported (w name) p |}) (providers m).

(** In the order in which the map is visited. *)
Definition GetAvailableProviders (w : string → W) (order : list string) (m : Manager) : list string :=
  filter (λ name, (p ← providers m !! name; Some (available (w name) p)) = Some true) order.

Definition GetSupportedModels (w : string → W) (m : Manager) : gmap string (list string) :=
  map_imap (λ name p, Some (supported (w name) p)) (providers m).

Definition setModel (modelName : string) (c : ProviderConfig) : ProviderConfig := {|
  APIKey := APIKey c; Endpoint := Endpoint c; DefaultModel_ := modelName;
  ConfigMaxTokens := ConfigMaxTokens c; ConfigTemperature := ConfigTemperature c; Timeout := Timeout c |}.

Definition setProviders (l : gmap string ProviderConfig) (m : Manager) : Manager :=
  {| providers := providers m;
     config := {| DefaultProvider := DefaultProvider (config m); Providers := l;
                  FallbackProviders := FallbackProviders (config m) |};
     currentProvider := currentProvider m |}.

Definition SwitchModel (w : W) (modelName : string) (m : Manager) : res string unit * Manager :=
  match GetCurrentProvider m with
  | Err _ => (Err "no current provider available", m)
  | Ok provider =>
      let supportedModels := supported w provider in
      if bool_decide (modelName ∈ supportedModels) then
        (Ok (), match Providers (config m) !! name_of provider with
                | Some c => setProviders (<[name_of provider := setModel modelName c]> (Providers (config m))) m
                | None => m
                end)
      else (Err ("model '" +:+ modelName +:+ "' is not supported by provider '" +:+ name_of provider +:+
                 "'. Supported models: " +:+ Join supportedModels ", "), m)
  end.

Definition GetCurrentModel (m : Manager) : string :=
  match GetCurrentProvider m with Ok provider => default_model provider | Err _ => "" end.

(** ** The health check *)

(** What [checkHealth] does without the lock: the name, if any, with which it then
    calls [setCurrentProvider]. *)
Definition checkCurrent (w : W) (m : Manager) : option string :=
  if decide (currentProvider m = "") then Some (DefaultProvider (config m))
  else match providers m !! currentProvider m with
       | Some p => if available w p then None else Some (currentProvider m)
       | None => None
       end.

Definition applyCheck (w : nat → W) (check : option string) (m : Manager) : Manager :=
  match check with Some name => setCurrentProvider w name m | None => m end.

(** Without other calls in between. *)
Definition checkHealth (w : nat → W) (m : Manager) : Manager :=
  applyCheck (λ n, w (S n)) (checkCurrent (w 0%nat) m) m.

(** The manager and what its health goroutine has decided and not yet done. *)
Record System := { manager : Manager; pending : option string }.

Inductive Action :=
  | DoSwitchProvider (w : W) (name : string)
  | DoStreamWithFallback (w : nat → W) (messages : list Message) (options : StreamOptions)
  | DoSwitchModel (w : W) (modelName : string)
  | CheckStart (w : W)
  | CheckEnd (w : nat → W).

Definition exec (a : Action) (s : System) : System :=
  match a with
  | DoSwitchProvider w name =>
      {| manager := (SwitchProvider w name (manager s)).2; pending := pending s |}
  | DoStreamWithFallback w messages options =>
      {| manager := (StreamChatWithFallback w messages options (manager s)).2; pending := pending s |}
  | DoSwitchModel w modelName =>
      {| manager := (SwitchModel w modelName (manager s)).2; pending := pending s |}
  | CheckStart w =>
      {| manager := manager s;
         pending := match pending s with Some name => Some name | None => checkCurrent w (manager s) end |}
  | CheckEnd w =>
      {| manager := applyCheck w (pending s) (manager s); pending := None |}
  end.

Definition run (actions : list Action) (s : System) : System := foldl (flip exec) s actions.

Definition start (w : nat → W) (c : Config) : System := {| manager := NewManager w c; pending := None |}.
End manager.

Arguments Manager : clear implicits.
Arguments System : clear implicits.
Arguments Action : clear implicits.

(** ** Invariant *)

Section proofs.
Context {W P : Type} `{!AIProvider W P}.
Implicit Types (m : Manager P) (s : System P) (c : Config) (w : W).

(** A provider of the name exists and answers. *)
Definition answers (w : W) (m : Manager P) (name : string) : Prop :=
  ∃ p, providers m !! name = Some p ∧ available w p = true.

(** The providers are those made at the start, the order of the fallbacks is the
    configured one, and the current provider exists. *)
Definition consistent (c : Config) (m : Manager P) : Prop :=
  providers m = initializeProviders (W := W) c ∧
  DefaultProvider (config m) = DefaultProvider c ∧
  FallbackProviders (config m) = FallbackProviders c ∧
  (currentProvider m = "" ∨ is_Some (providers m !! currentProvider m)).

Lemma firstAvailable_Some (ws : nat → W) n names m name :
  firstAvailable ws n names m = Some name →
  name ∈ names ∧ ∃ k, answers (ws k) m name.
Proof using.
  revert n. induction names as [|x names IH]; intros n; [done|]. cbn [firstAvailable].
  destruct (providers m !! x) as [p|] eqn:Hx.
  - destruct (available (ws n) p) eqn:Hp.
    + intros [= <-]. split; [left|]. by exists n, p.
    + intros [? ?]%IH. split; [by right|done].
  - intros [? ?]%IH. split; [by right|done].
Qed.

Lemma firstAvailable_stable w n names m :
  match firstAvailable (λ _, w) n names m with
  | Some name => name ∈ names ∧ answers w m name
  | None => ∀ name, name ∈ names → ¬ answers w m name
  end.
Proof using.
  revert n. induction names as [|x names IH]; intros n; cbn [firstAvailable]; [set_solver|].
  destruct (providers m !! x) as [p|] eqn:Hx.
  - destruct (available w p) eqn:Hp; [split; [left|by exists p]|].
    specialize (IH (S n)). destruct (firstAvailable _ _ _ _) as [name|].
    + destruct IH. split; [by right|done].
    + intros name [->|Hin]%elem_of_cons; [|by apply IH]. intros (p' & Hp' & Ha). congruence.
  - specialize (IH n). destruct (firstAvailable _ _ _ _) as [name|].
    + destruct IH. split; [by right|done].
    + intros name [->|Hin]%elem_of_cons; [|by apply IH]. intros (p' & Hp' & Ha). congruence.
Qed.

Lemma consistent_setCurrent c m name :
  consistent c m → (name = "" ∨ is_Some (providers m !! name)) → consistent c (setCurrent name m).
Proof using. intros (H1 & H2 & H3 & _) H. by repeat split. Qed.

Lemma consistent_setCurrentProvider c (ws : nat → W) name m :
  consistent c m → consistent c (setCurrentProvider ws name m).
Proof using.
  intros Hc. apply consistent_setCurrent; [done|].
  destruct (firstAvailable _ _ _ _) as [x|] eqn:Hx; [|by left]. right.
  apply firstAvailable_Some in Hx as (_ & k & p & Hp & _). by exists p.
Qed.

Lemma consistent_applyCheck c (ws : nat → W) check m :
  consistent c m → consistent c (applyCheck ws check m).
Proof using. destruct check; [apply consistent_setCurrentProvider|done]. Qed.

Lemma consistent_tryFallbacks c (ws : nat → W) n messages options names m :
  consistent c m → consistent c (tryFallbacks ws n messages options names m).2.
Proof using.
  intros Hc. revert n. induction names as [|x names IH]; intros n; [done|]. cbn [tryFallbacks].
  destruct (decide _); [apply IH|]. unfold GetProvider.
  destruct (providers m !! x) as [p|] eqn:Hx; [|apply IH].
  destruct (available _ p); [|apply IH]. destruct (stream _ _ _ _); [|apply IH].
  apply consistent_setCurrent; [done|]. right. by exists p.
Qed.

Lemma consistent_exec c (a : Action W) s :
  consistent c (manager s) → consistent c (manager (exec a s)).
Proof using.
  intros Hc. destruct a as [w name|ws messages options|w model|w|ws]; cbn [exec manager].
  - unfold SwitchProvider. destruct (_ !! _) as [p|] eqn:Hp; [|done].
    destruct (available w p); [|done]. apply consistent_setCurrent; [done|]. right. by exists p.
  - unfold StreamChatWithFallback. destruct (GetCurrentProvider _); [|by apply consistent_tryFallbacks].
    destruct (stream _ _ _ _); [done|by apply consistent_tryFallbacks].
  - unfold SwitchModel. destruct (GetCurrentProvider _); [|done].
    destruct (bool_decide _); [|done]. by destruct (_ !! _).
  - done.
  - by apply consistent_applyCheck.
Qed.

Lemma consistent_start c (ws : nat → W) : consistent c (manager (start ws c)).
Proof using. apply consistent_setCurrentProvider. repeat split. by left. Qed.

Lemma consistent_run c (actions : list (Action W)) s :
  consistent c (manager s) → consistent c (manager (run actions s)).
Proof using.
  revert s. induction actions as [|a actions IH]; intros s Hc; [done|].
  apply (IH (exec a s)), consistent_exec, Hc.
Qed.

(** The current provider is always one that exists: the error for a current
    provider that is not found cannot happen. *)
Lemma GetCurrentProvider_known c m e :
  consistent c m → GetCurrentProvider m = Err e → currentProvider m = "" ∧ e = "no available AI provider".
Proof using.
  intros (_ & _ & _ & Hcur) He. unfold GetCurrentProvider in He.
  destruct (decide _) as [Heq|Hne]; [by simplify_eq|]. destruct Hcur as [?|[p Hp]]; [done|].
  by rewrite Hp in He.
Qed.

(** ** The health check under a network that does not change *)

Section health.
Context `{!AIProviderLaws W P}.

Lemma consistent_anonymous c w m : consistent c m → ¬ answers w m "".
Proof using All.
  intros (Hp & _) (p & Hl & Ha). rewrite Hp in Hl. unfold initializeProviders in Hl.
  rewrite map_lookup_imap in Hl. destruct (Providers c !! "") as [cfg|]; [|done].
  cbn in Hl. simplify_eq. by rewrite anonymous_unavailable in Ha.
Qed.

Lemma GetCurrentProvider_answers c w m :
  consistent c m →
  (∃ p, GetCurrentProvider m = Ok p ∧ available w p = true) ↔ answers w m (currentProvider m).
Proof using All.
  intros Hc. unfold GetCurrentProvider, answers. destruct (decide _) as [He|Hne].
  - split; [naive_solver|]. rewrite He. intros H. by apply (consistent_anonymous c w m) in H.
  - destruct (_ !! _) as [p|]; naive_solver.
Qed.

Lemma setCurrentProvider_stable c w name m :
  consistent c m →
  let m' := setCurrentProvider (λ _, w) name m in
  (answers w m' (currentProvider m') ∧ currentProvider m' ∈ name :: FallbackProviders c) ∨
  (currentProvider m' = "" ∧ ∀ x, x ∈ name :: FallbackProviders c → ¬ answers w m x).
Proof using All.
  intros (_ & _ & Hf & _) m'. unfold m', setCurrentProvider. rewrite Hf.
  pose proof (firstAvailable_stable w 0 (name :: FallbackProviders c) m) as H.
  destruct (firstAvailable _ _ _ _) as [x|]; [left|by right]. by destruct H.
Qed.

Definition tick (w : W) (m : Manager P) : Manager P := checkHealth (λ _, w) m.

(** The one possibility that is left after two checks: nothing answers. *)
Definition settled (c : Config) (w : W) (m : Manager P) : Prop :=
  answers w m (currentProvider m) ∨
  currentProvider m = "" ∧ ∀ x, x ∈ DefaultProvider c :: FallbackProviders c → ¬ answers w m x.

Lemma tick_settled c w m : consistent c m → settled c w m → tick w m = m.
Proof using All.
  intros Hc [Ha|[He Hn]]; unfold tick, checkHealth, checkCurrent.
  - destruct (decide _) as [He|_]; [rewrite He in Ha; by apply (consistent_anonymous c w m) in Ha|].
    destruct Ha as (p & -> & Ha). by rewrite Ha.
  - rewrite decide_True by done. cbn [applyCheck].
    pose proof Hc as (Hp & Hd & Hf & _). unfold setCurrentProvider. rewrite Hd, Hf.
    pose proof (firstAvailable_stable w 0 (DefaultProvider c :: FallbackProviders c) m) as H.
    destruct (firstAvailable _ _ _ _) as [x|]; [naive_solver|]. destruct m. cbn in *. by subst.
Qed.

Lemma tick_providers w m : providers (tick w m) = providers m.
Proof using. unfold tick, checkHealth. by destruct (checkCurrent _ _). Qed.

Lemma consistent_tick c w m : consistent c m → consistent c (tick w m).
Proof using. apply consistent_applyCheck. Qed.

(** Without a current provider one check is enough. *)
Lemma tick_none c w m :
  consistent c m → currentProvider m = "" → settled c w (tick w m).
Proof using All.
  intros Hc He. pose proof Hc as (_ & Hd & _). unfold tick, checkHealth, checkCurrent.
  rewrite decide_True by done. cbn [applyCheck]. rewrite Hd.
  destruct (setCurrentProvider_stable c w (DefaultProvider c) m Hc) as [[Ha _]|[He' Hn]]; [by left|].
  right. split; [done|]. intros x Hx (p & Hp & Ha). apply (Hn x Hx). by exists p.
Qed.

Lemma tick_twice c w m : consistent c m → settled c w (tick w (tick w m)).
Proof using All.
  intros Hc. destruct (decide (currentProvider m = "")) as [He|Hne].
  { rewrite (tick_settled c w); [|by apply consistent_tick|by apply tick_none]. by apply tick_none. }
  assert (is_Some (providers m !! currentProvider m)) as [p Hp] by (destruct Hc as (_ & _ & _ & []); done).
  destruct (available w p) eqn:Ha.
  { assert (settled c w m) as Hs by (left; by exists p). by rewrite !(tick_settled c w m Hc Hs). }
  assert (tick w m = setCurrentProvider (λ _, w) (currentProvider m) m) as Ht.
  { unfold tick, checkHealth, checkCurrent. by rewrite decide_False, Hp, Ha. }
  destruct (setCurrentProvider_stable c w (currentProvider m) m Hc) as [[Hans _]|[He _]].
  - rewrite <-Ht in Hans. rewrite (tick_settled c w); [by left|by apply consistent_tick|by left].
  - rewrite <-Ht in He. apply tick_none; [by apply consistent_tick|done].
Qed.

Lemma ticks_settled c w m n :
  consistent c m → settled c w m → Nat.iter n (tick w) m = m.
Proof using All.
  intros Hc Hs. induction n as [|n IH]; [done|]. by rewrite Nat.iter_succ, IH, (tick_settled c).
Qed.

Lemma tick_candidates c w m :
  consistent c m →
  currentProvider (tick w m) = "" ∨
  currentProvider (tick w m) ∈ currentProvider m :: DefaultProvider c :: FallbackProviders c.
Proof using All.
  intros Hc. unfold tick, checkHealth, checkCurrent.
  assert (∀ name, name ∈ [currentProvider m; DefaultProvider c] →
    currentProvider (setCurrentProvider (λ _, w) name m) = "" ∨
    currentProvider (setCurrentProvider (λ _, w) name m)
      ∈ currentProvider m :: DefaultProvider c :: FallbackProviders c) as H.
  { intros name Hname. destruct (setCurrentProvider_stable c w name m Hc) as [[_ Hin]|[He _]]; [right|by left].
    set_solver. }
  destruct (decide _) as [He|_]; cbn [applyCheck].
  - apply H. destruct Hc as (_ & -> & _). set_solver.
  - destruct (_ !! _) as [p|]; [|right; left]. destruct (available w p); [right; left|].
    apply H. left.
Qed.

(** Whatever came before, including a health check in progress and switches in
    the middle of it, once the network stays as it is two health checks are enough,
    and from then on calls have a current provider that answers, exactly if the
    current provider, the default one or one of the fallbacks answers. *)
Theorem health_recovers c (ws : nat → W) (actions : list (Action W)) w n :
  let m := manager (exec (CheckEnd (λ _, w)) (run actions (start ws c))) in
  (∃ p, GetCurrentProvider (Nat.iter (S (S n)) (tick w) m) = Ok p ∧ available w p = true) ↔
  ∃ name, name ∈ currentProvider m :: DefaultProvider c :: FallbackProviders c ∧
    ∃ p, initializeProviders (W := W) c !! name = Some p ∧ available w p = true.
Proof using All.
  intros m.
  assert (consistent c m) as Hc by (apply consistent_exec, consistent_run, consistent_start).
  pose proof (consistent_tick c w m Hc) as Hc1. pose proof (consistent_tick c w _ Hc1) as Hc2.
  assert (Nat.iter (S (S n)) (tick w) m = tick w (tick w m)) as ->.
  { rewrite !Nat.iter_succ_r. by apply (ticks_settled c), tick_twice. }
  rewrite (GetCurrentProvider_answers c) by done. unfold answers. rewrite !tick_providers.
  destruct (Hc) as (<- & _). split.
  - intros Ha. exists (currentProvider (tick w (tick w m))). split; [|done].
    assert (currentProvider (tick w (tick w m)) ≠ "") as Hne.
    { intros He. rewrite He in Ha. by apply (consistent_anonymous c w m) in Ha. }
    destruct (tick_candidates c w _ Hc1) as [?|H2]; [done|].
    apply elem_of_cons in H2 as [H2|H2]; [|by right]. rewrite H2.
    destruct (tick_candidates c w m Hc) as [He|H1]; [congruence|done].
  - intros (name & Hin & Ha). destruct (tick_twice c w m Hc) as [H|[He Hn]].
    { unfold answers in H. by rewrite !tick_providers in H. }
    apply elem_of_cons in Hin as [->|Hin].
    + assert (tick w m = m) as Ht by (apply (tick_settled c); [done|by left]).
      rewrite Ht, Ht in He. rewrite He in Ha. by apply (consistent_anonymous c w m) in Ha.
    + destruct (Hn name Hin). unfold answers. by rewrite !tick_providers.
Qed.
End health.

(** A provider that answers is never left for the default one. *)
Lemma fallback_is_kept c (ws : nat → W) m :
  consistent c m → currentProvider m ≠ "" → answers (ws 0%nat) m (currentProvider m) → checkHealth ws m = m.
Proof using.
  intros Hc Hne (p & Hp & Ha). unfold checkHealth, checkCurrent. by rewrite decide_False, Hp, Ha.
Qed.

(** The loop over the fallbacks looks at the providers and the current one only. *)
Lemma tryFallbacks_congr (ws : nat → W) n messages options names m m' :
  providers m' = providers m → currentProvider m' = currentProvider m →
  (tryFallbacks ws n messages options names m').1 = (tryFallbacks ws n messages options names m).1 ∧
  currentProvider (tryFallbacks ws n messages options names m').2
  = currentProvider (tryFallbacks ws n messages options names m).2.
Proof using.
  intros Hp Hcur. revert n. induction names as [|x names IH]; intros n; [done|]. cbn [tryFallbacks].
  unfold GetProvider. rewrite Hcur, Hp. repeat case_match; auto.
Qed.

(** Switching to another model of the current provider changes no answer of the
    manager: the current model, the current provider and every stream are as before,
    because the provider keeps the configuration it was made with. *)
Theorem SwitchModel_unobservable w modelName m :
  let m' := (SwitchModel w modelName m).2 in
  GetCurrentModel (W := W) m' = GetCurrentModel (W := W) m ∧
  GetCurrentProvider m' = GetCurrentProvider m ∧
  (∀ name, GetProvider name m' = GetProvider name m) ∧
  (∀ w messages options, StreamChat w messages options m' = StreamChat w messages options m) ∧
  (∀ ws messages options,
     (StreamChatWithFallback ws messages options m').1 = (StreamChatWithFallback ws messages options m).1 ∧
     currentProvider (StreamChatWithFallback ws messages options m').2
     = currentProvider (StreamChatWithFallback ws messages options m).2).
Proof using.
  intros m'.
  assert (providers m' = providers m ∧ currentProvider m' = currentProvider m ∧
          FallbackProviders (config m') = FallbackProviders (config m)) as (Hp & Hcur & Hf).
  { unfold m', SwitchModel. destruct (GetCurrentProvider m) as [p|]; [|done].
    destruct (bool_decide _); [|done]. by destruct (_ !! _). }
  assert (GetCurrentProvider m' = GetCurrentProvider m) as Hg.
  { unfold GetCurrentProvider. by rewrite Hp, Hcur. }
  assert (∀ name, GetProvider name m' = GetProvider name m) as Hgp.
  { intros name. unfold GetProvider. by rewrite Hp. }
  unfold GetCurrentModel, StreamChat, StreamChatWithFallback. rewrite Hg, Hf.
  split_and!; [done..|]. intros ws messages options.
  repeat case_match; auto using tryFallbacks_congr.
Qed.
End proofs.

(** ** The providers of the program *)

(** The network: the status with which a service answers a probe, the models it
    lists, and what becomes of a request; with it, encoding/json. *)
Record Network := {
  probe : Provider → option Z;
  listed : Provider → list string;
  send : Request → Sending;
  choices : string → option (list Choice);
  events : string → option Event;
}.

Definition newProvider (name : string) (c : ProviderConfig) : Provider :=
  let made :=
    if decide (name = "openai") then NewOpenAIProvider c
    else if decide (name = "claude") then NewClaudeProvider c
    else if decide (name = "ollama") then NewOllamaProvider c
    else if decide (name = "openrouter") then NewOpenRouterProvider c
    else Err ("unknown provider type: " +:+ name) in
  match made with Ok p => p | Err e => PlaceholderProvider name e end.

#[export] Instance Provider_AIProvider : AIProvider Network Provider := {
  create := newProvider;
  name_of := Name;
  available w p := IsAvailable (probe w p) p;
  supported w p := SupportedModels (listed w p) p;
  validate := ValidateConfig;
  window := GetModelContextWindow;
  default_model := DefaultModel;
  stream w p := AIProviders.StreamChat (choices w) (events w) (send w) p;
}.

#[export] Instance Provider_laws : AIProviderLaws Network Provider.
Proof. by constructor. Qed.

(** A provider made under a name has that name. *)
Lemma newProvider_name name c : Name (newProvider name c) = name.
Proof.
  unfold newProvider, NewOpenAIProvider, NewClaudeProvider, NewOllamaProvider, NewOpenRouterProvider.
  repeat case_decide; simplify_eq; done.
Qed.

(** Every configured provider has an endpoint, and a key if it needs one: the only
    reason for [IsAvailable] to fail is the probe. *)
Lemma newProvider_valid name c t cfg :
  newProvider name c = Configured t cfg → ValidateConfig (Configured t cfg) = Ok ().
Proof.
  unfold newProvider, NewOpenAIProvider, NewClaudeProvider, NewOllamaProvider, NewOpenRouterProvider.
  assert (∀ e d n, d ≠ "" → negb (String.eqb (Endpoint (withDefaults d e n c)) "") = true) as He.
  { intros e d n Hd. unfold withDefaults, setDefault. cbn [Endpoint]. case_decide; apply negb_true_iff, String.eqb_neq; done. }
  repeat case_decide; intros [= <- <-]; cbn [ValidateConfig needsKey APIKey withDefaults];
    rewrite ?decide_False by done; apply guard_else_Ok; by apply He.
Qed.

(** A request that can be sent never falls back: whatever the current
    provider's service does (it cannot be reached, it answers with an error, it
    breaks off), the caller gets that provider's stream, whose only response says so
    if the request failed, and the current provider stays. *)
Theorem sent_never_falls_back (ws : nat → Network) messages options (m : Manager Provider) t cfg answer :
  GetCurrentProvider m = Ok (Configured t cfg) →
  (send (ws 0%nat) (buildRequest t cfg messages options)) = Sent answer →
  StreamChatWithFallback ws messages options m
  = (Ok (answerStream (choices (ws 0%nat)) (events (ws 0%nat)) t answer), m) ∧
  (∀ e, answer = Failed e →
     answerStream (choices (ws 0%nat)) (events (ws 0%nat)) t answer
     = [errorResponse (NewProviderError (typeName t) ("request failed: " +:+ e) "request_failed")]).
Proof.
  intros Hp Hs. split; [|by intros e ->]. unfold StreamChatWithFallback. rewrite Hp. cbn.
  by rewrite Hs.
Qed.

(** ** Scenes *)

Definition exampleConfig (key : string) : ProviderConfig := {|
  APIKey := key; Endpoint := ""; DefaultModel_ := ""; ConfigMaxTokens := 0;
  ConfigTemperature := float64_of 0; Timeout := 0 |}.

Definition exampleManagerConfig : Config := {|
  DefaultProvider := "openai";
  Providers := {[ "openai" := exampleConfig "sk"; "ollama" := exampleConfig ""; "claude" := exampleConfig "" ]};
  FallbackProviders := ["claude"; "ollama"] |}.

(** A network in which the named services answer probes, and requests fail. *)
Definition exampleNetwork (up : list string) : Network := {|
  probe p := if bool_decide (Name p ∈ up) then Some 200 else None;
  listed _ := []; send _ := Sent (Failed "connection refused"); choices _ := None; events _ := None |}.

Definition exampleManager : Manager Provider :=
  NewManager (λ _, exampleNetwork ["openai"; "ollama"]) exampleManagerConfig.

Definition exampleOptions : StreamOptions :=
  {| MaxTokens := 0; Temperature := float64_of 0; Model := ""; Functions := [] |}.

Lemma sent_never_falls_back_witness :
  ∃ cfg,
    GetCurrentProvider exampleManager = Ok (Configured ProviderTypeOpenAI cfg) ∧
    (StreamChatWithFallback (λ _, exampleNetwork ["ollama"]) [] exampleOptions exampleManager).1
    = Ok [errorResponse (NewProviderError "openai" "request failed: connection refused" "request_failed")].
Proof.
  eexists. split; [reflexivity|].
  by rewrite (proj1 (sent_never_falls_back (λ _, exampleNetwork ["ollama"]) [] exampleOptions exampleManager
    ProviderTypeOpenAI _ (Failed "connection refused") eq_refl eq_refl)).
Defined.

(** A switch that comes while the health check is between its probe and its lock is
    undone by it. *)
Example switch_undone :
  let w := exampleNetwork ["claude"; "ollama"] in
  let s := {| manager := exampleManager; pending := None |} in
  let s1 := exec (CheckStart w) s in
  let s2 := exec (DoSwitchProvider (exampleNetwork ["openai"; "ollama"]) "ollama") s1 in
  let s3 := exec (CheckEnd (λ _, exampleNetwork ["openai"; "ollama"])) s2 in
  currentProvider (manager s2) = "ollama" ∧ currentProvider (manager s3) = "openai".
Proof. by vm_compute. Qed.

(** When the current provider fails and no fallback answers, the default provider is
    not tried before the next check. *)
Example default_not_tried :
  let m := setCurrent "ollama" exampleManager in
  let w := exampleNetwork ["openai"] in
  currentProvider (tick w m) = "" ∧ currentProvider (tick w (tick w m)) = "openai".
Proof. by vm_compute. Qed.

(** A model is accepted, and not used. *)
Example model_not_used :
  let '(result, m) := SwitchModel (exampleNetwork []) "gpt-4-turbo" exampleManager in
  result = Ok () ∧ GetCurrentModel (W := Network) m = "gpt-4".
Proof. by vm_compute. Qed.

Lemma health_recovers_witness :
  let m := manager (exec (CheckEnd (λ _, exampleNetwork ["ollama"]))
    (run [CheckStart (exampleNetwork []); DoSwitchProvider (exampleNetwork ["openai"]) "openai"]
         (start (λ _, exampleNetwork []) exampleManagerConfig))) in
  ∃ p, GetCurrentProvider (Nat.iter 2 (tick (exampleNetwork ["ollama"])) m) = Ok p ∧
    available (exampleNetwork ["ollama"]) p = true.
Proof.
  apply (health_recovers exampleManagerConfig (λ _, exampleNetwork [])
    [CheckStart (exampleNetwork []); DoSwitchProvider (exampleNetwork ["openai"]) "openai"]
    (exampleNetwork ["ollama"]) 0).
  exists "ollama". split; [apply (bool_decide_eq_true_1 _); vm_compute; reflexivity|].
  eexists. split; [reflexivity|]. vm_compute. reflexivity.
Defined.
