(* ===== verification/Kube.v ===== *)
(** * Kubernetes, as the controllers use it

    The objects that the controllers of internal/controllers create, with the fields
    they set; the API server as a store of objects whose every call may fail, before or
    after it took effect; and the operations that the controllers share
    (base_reconciler.go, controller_utils.go, and controllerutil of the
    controller-runtime library: CreateOrUpdate and the finalizers).  A reconcile is one
    step: what others do meanwhile shows in the failure of a call, as the conflict it
    is.  Reads see the current objects, not an older cache. *)
From S2P Require Import Prelude GoString Calls.

#[local] Open Scope Z_scope.

Set Default Proof Using "Type*".

(** ** Pods *)

Inductive EnvSource := EnvLiteral (value : string) | EnvSecret (secret key : string).
Record EnvVar := { EnvName : string; EnvValue : EnvSource }.
Record ContainerPort := { PortName : string; PortNumber : Z }.
Record VolumeMount := { MountName : string; MountPath : string; SubPath : string; MountReadOnly : bool }.
Inductive ProbeHandler := HTTPGet (path : string) (port : Z) | Exec (command : list string).
Record Probe := {
  ProbeBy : ProbeHandler;
  InitialDelaySeconds : Z;
  PeriodSeconds : Z;
  TimeoutSeconds : Z;
  FailureThreshold : Z;
}.

(** Quantities by their text. *)
Record ResourceRequirements := {
  Limits : option (gmap string string);
  Requests : option (gmap string string);
}.

Record Capabilities := { CapabilitiesAdd : list string; CapabilitiesDrop : list string }.
Record SecurityContext := {
  RunAsNonRoot : option bool;
  AllowPrivilegeEscalation : option bool;
  ReadOnlyRootFilesystem : option bool;
  RunAsUser : option Z;
  RunAsGroup : option Z;
  SecurityCapabilities : option Capabilities;
}.

Record Container := {
  ContainerName : string;
  Image : string;
  ImagePullPolicy : string;
  Command : list string;
  Args : list string;
  WorkingDir : string;
  Env : list EnvVar;
  Ports : list ContainerPort;
  Resources : ResourceRequirements;
  Security : option SecurityContext;
  VolumeMounts : list VolumeMount;
  LivenessProbe : option Probe;
  ReadinessProbe : option Probe;
}.

Inductive VolumeSource := HostPath (path : string) | ConfigMapVolume (name : string) | ClaimVolume (name : string).
Record Volume := { VolumeName : string; Source : VolumeSource }.

Record PodSpec := {
  Containers : list Container;
  Volumes : list Volume;
  RestartPolicy : string;
  NodeSelector : gmap string string;
  ServiceAccountName : string;
  ImagePullSecrets : list string;
  PodSecurity : option SecurityContext;
}.

(** ** Objects *)

(** [Controller] is the resource whose controller owns the object. *)
Record ObjectMeta := {
  Labels : gmap string string;
  Annotations : gmap string string;
  Controller : option string;
}.

Record KObject (B : Type) := { Meta : ObjectMeta; Body : B }.
Arguments Meta {B} _.
Arguments Body {B} _.

Record DeploymentSpec := {
  Replicas : Z;
  MatchLabels : gmap string string;
  PodLabels : gmap string string;
  PodAnnotations : gmap string string;
  Template : PodSpec;
}.
Record DeploymentStatus := { StatusReplicas : Z; ReadyReplicas : Z }.
Record DeploymentBody := { DeploymentSpec_ : DeploymentSpec; DeploymentStatus_ : DeploymentStatus }.

Record ServicePort := { ServicePortName : string; Port : Z; TargetPort : option Z }.
Record ServiceSpec := { Type_ : string; ServicePorts : list ServicePort; Selector : gmap string string }.

Record SecretBody := { SecretData : gmap string string }.
Record ConfigMapBody := { Data : gmap string string }.
Record ClaimSpec := { AccessModes : list string; Storage : string; StorageClassName : option string }.

Notation Deployment := (KObject DeploymentBody) (only parsing).
Notation Service := (KObject ServiceSpec) (only parsing).
Notation Secret := (KObject SecretBody) (only parsing).
Notation ConfigMap := (KObject ConfigMapBody) (only parsing).
Notation PersistentVolumeClaim := (KObject ClaimSpec) (only parsing).

(** A custom resource. *)
Record ResourceMeta := {
  Name : string;
  Namespace : string;
  UID : string;
  Generation : Z;
  Finalizers : list string;
  DeletionTimestamp : option Z;
}.
Record Resource (Sp St : Type) := { Metadata : ResourceMeta; Spec : Sp; Status : St }.
Arguments Metadata {Sp St} _.
Arguments Spec {Sp St} _.
Arguments Status {Sp St} _.

Definition setMeta {Sp St} (m : ResourceMeta) (r : Resource Sp St) : Resource Sp St :=
  {| Metadata := m; Spec := Spec r; Status := Status r |}.
Definition setStatus {Sp St} (s : St) (r : Resource Sp St) : Resource Sp St :=
  {| Metadata := Metadata r; Spec := Spec r; Status := s |}.
Definition setFinalizers (f : list string) (m : ResourceMeta) : ResourceMeta :=
  {| Name := Name m; Namespace := Namespace m; UID := UID m; Generation := Generation m;
     Finalizers := f; DeletionTimestamp := DeletionTimestamp m |}.

(** controllerutil *)
Definition ContainsFinalizer {Sp St} (r : Resource Sp St) (f : string) : bool :=
  bool_decide (f ∈ Finalizers (Metadata r)).
Definition AddFinalizer {Sp St} (r : Resource Sp St) (f : string) : Resource Sp St :=
  if ContainsFinalizer r f then r
  else setMeta (setFinalizers (Finalizers (Metadata r) ++ [f]) (Metadata r)) r.
Definition RemoveFinalizer {Sp St} (r : Resource Sp St) (f : string) : Resource Sp St :=
  setMeta (setFinalizers (filter (λ x, x ≠ f) (Finalizers (Metadata r))) (Metadata r)) r.

(** ** The API server *)

Notation NN := (string * string)%type.

Record Cluster (Sp St : Type) := {
  deployments : gmap NN (KObject DeploymentBody);
  services : gmap NN (KObject ServiceSpec);
  secrets : gmap NN (KObject SecretBody);
  configMaps : gmap NN (KObject ConfigMapBody);
  claims : gmap NN (KObject ClaimSpec);
  resources : gmap NN (Resource Sp St);
  calls : nat;
}.
Arguments deployments {Sp St} _.
Arguments services {Sp St} _.
Arguments secrets {Sp St} _.
Arguments configMaps {Sp St} _.
Arguments claims {Sp St} _.
Arguments resources {Sp St} _.
Arguments calls {Sp St} _.

Inductive KubeError := NotFound | AlreadyExists | OtherError (text : string).

(** A kind of object: where the cluster has it, and what the server makes of an
    update. *)
Class Kind (B : Type) := {
  objects {Sp St} : Cluster Sp St → gmap NN (KObject B);
  setObjects {Sp St} : gmap NN (KObject B) → Cluster Sp St → Cluster Sp St;
  admitUpdate : B → B → option B;
}.

(** The status of a deployment is not changed by an update, and its selector cannot
    be. *)
#[export] Instance Deployment_kind : Kind DeploymentBody := {
  objects _ _ := deployments;
  setObjects _ _ l c := {| deployments := l; services := services c; secrets := secrets c;
    configMaps := configMaps c; claims := claims c; resources := resources c; calls := calls c |};
  admitUpdate stored sent :=
    if decide (MatchLabels (DeploymentSpec_ sent) = MatchLabels (DeploymentSpec_ stored))
    then Some {| DeploymentSpec_ := DeploymentSpec_ sent; DeploymentStatus_ := DeploymentStatus_ stored |}
    else None;
}.
#[export] Instance Service_kind : Kind ServiceSpec := {
  objects _ _ := services;
  setObjects _ _ l c := {| deployments := deployments c; services := l; secrets := secrets c;
    configMaps := configMaps c; claims := claims c; resources := resources c; calls := calls c |};
  admitUpdate _ sent := Some sent;
}.
#[export] Instance Secret_kind : Kind SecretBody := {
  objects _ _ := secrets;
  setObjects _ _ l c := {| deployments := deployments c; services := services c; secrets := l;
    configMaps := configMaps c; claims := claims c; resources := resources c; calls := calls c |};
  admitUpdate _ sent := Some sent;
}.
#[export] Instance ConfigMap_kind : Kind ConfigMapBody := {
  objects _ _ := configMaps;
  setObjects _ _ l c := {| deployments := deployments c; services := services c; secrets := secrets c;
    configMaps := l; claims := claims c; resources := resources c; calls := calls c |};
  admitUpdate _ sent := Some sent;
}.
#[export] Instance Claim_kind : Kind ClaimSpec := {
  objects _ _ := claims;
  setObjects _ _ l c := {| deployments := deployments c; services := services c; secrets := secrets c;
    configMaps := configMaps c; claims := l; resources := resources c; calls := calls c |};
  admitUpdate stored sent := None;
}.

Definition setResources {Sp St} (l : gmap NN (Resource Sp St)) (c : Cluster Sp St) : Cluster Sp St :=
  {| deployments := deployments c; services := services c; secrets := secrets c;
     configMaps := configMaps c; claims := claims c; resources := l; calls := calls c |}.

Definition counted {Sp St} (c : Cluster Sp St) : Cluster Sp St :=
  {| deployments := deployments c; services := services c; secrets := secrets c;
     configMaps := configMaps c; claims := claims c; resources := resources c; calls := S (calls c) |}.

(** A program with the API server. *)
Definition Kube (Sp St A : Type) : Type := Cluster Sp St → res KubeError A * Cluster Sp St.

#[export] Instance Kube_ret Sp St : MRet (Kube Sp St) := λ A a c, (Ok a, c).
#[export] Instance Kube_bind Sp St : MBind (Kube Sp St) := λ A B f m c,
  match m c with (Ok a, c') => f a c' | (Err e, c') => (Err e, c') end.

Definition fail {Sp St A} (e : KubeError) : Kube Sp St A := λ c, (Err e, c).

(** A program that goes on after an error. *)
Definition try_ {Sp St A} (m : Kube Sp St A) : Kube Sp St (res KubeError A) :=
  λ c, let '(r, c') := m c in (Ok r, c').

Definition errorText (e : KubeError) : string :=
  match e with NotFound => "not found" | AlreadyExists => "already exists" | OtherError t => t end.

(** What a reconcile asks its queue for. *)
Record Result := { Requeue : bool; RequeueAfter : Z }.
Definition Done : Result := {| Requeue := false; RequeueAfter := 0 |}.

Section client.
Context {Sp St : Type} `{!EqDecision Sp}.
(** The outcomes of the calls, in their order. *)
Context (env : nat → Outcome).

Definition call {A} (f : Kube Sp St A) : Kube Sp St A := λ c,
  match env (calls c) with
  | Works => f (counted c)
  | Refused e => (Err (OtherError e), counted c)
  | Lost e => (Err (OtherError e), (f (counted c)).2)
  end.

Definition Get {B} `{!Kind B} (key : NN) : Kube Sp St (KObject B) :=
  call (λ c, (match objects c !! key with Some o => Ok o | None => Err NotFound end, c)).

Definition Create {B} `{!Kind B} (key : NN) (o : KObject B) : Kube Sp St () :=
  call (λ c, match objects c !! key with
             | Some _ => (Err AlreadyExists, c)
             | None => (Ok (), setObjects (<[key := o]> (objects c)) c)
             end).

(** The object as the server has stored it. *)
Definition Update {B} `{!Kind B} (key : NN) (o : KObject B) : Kube Sp St (KObject B) :=
  call (λ c, match objects c !! key with
             | None => (Err NotFound, c)
             | Some stored =>
                 match admitUpdate (Body stored) (Body o) with
                 | None => (Err (OtherError "field is immutable"), c)
                 | Some b =>
                     let o' := {| Meta := Meta o; Body := b |} in
                     (Ok o', setObjects (<[key := o']> (objects c)) c)
                 end
             end).

Definition GetResource (key : NN) : Kube Sp St (Resource Sp St) :=
  call (λ c, (match resources c !! key with Some r => Ok r | None => Err NotFound end, c)).

(** An update of everything but the status: the generation counts the changes of the
    specification, and an object that waits for its deletion goes with its last
    finalizer. *)
Definition storedUpdate (stored r : Resource Sp St) : Resource Sp St :=
  {| Metadata := {| Name := Name (Metadata r); Namespace := Namespace (Metadata r); UID := UID (Metadata r);
       Generation := if decide (Spec r = Spec stored) then Generation (Metadata stored)
                     else Generation (Metadata stored) + 1;
       Finalizers := Finalizers (Metadata r); DeletionTimestamp := DeletionTimestamp (Metadata stored) |};
     Spec := Spec r; Status := Status stored |}.

Definition updatedResource (stored r : Resource Sp St) : option (Resource Sp St) :=
  match DeletionTimestamp (Metadata stored), Finalizers (Metadata r) with
  | Some _, [] => None
  | _, _ => Some (storedUpdate stored r)
  end.

Definition UpdateResource (key : NN) (r : Resource Sp St) : Kube Sp St (Resource Sp St) :=
  call (λ c, match resources c !! key with
             | None => (Err NotFound, c)
             | Some stored =>
                 (Ok (storedUpdate stored r),
                  setResources (partial_alter (λ _, updatedResource stored r) key (resources c)) c)
             end).

(** An update of the status alone. *)
Definition UpdateStatus (key : NN) (r : Resource Sp St) : Kube Sp St (Resource Sp St) :=
  call (λ c, match resources c !! key with
             | None => (Err NotFound, c)
             | Some stored =>
                 let r' := setStatus (Status r) stored in
                 (Ok r', setResources (<[key := r']> (resources c)) c)
             end).

(** ** Shared operations *)

(** [SetControllerReference], which refuses an object of another controller. *)
Definition SetControllerReference {B} (owner : string) (o : KObject B) : res string (KObject B) :=
  match Controller (Meta o) with
  | Some other =>
      if decide (other = owner) then Ok o else Err "object is already owned by another controller"
  | None =>
      Ok {| Meta := {| Labels := Labels (Meta o); Annotations := Annotations (Meta o);
                       Controller := Some owner |}; Body := Body o |}
  end.

(** controllerutil.CreateOrUpdate: [same] is its comparison with the object as it was. *)
Definition CreateOrUpdate {B} `{!Kind B} (same : KObject B → KObject B → bool) (key : NN)
    (empty : KObject B) (mutate : KObject B → res string (KObject B)) : Kube Sp St (KObject B) :=
  found ← try_ (Get key);
  match found with
  | Err NotFound =>
      match mutate empty with
      | Err e => fail (OtherError e)
      | Ok o => Create key o;; mret o
      end
  | Err e => fail e
  | Ok existing =>
      match mutate existing with
      | Err e => fail (OtherError e)
      | Ok o => if same existing o then mret o else Update key o
      end
  end.

(** [reconcileResource]: [needsUpdate] and [mutate] are [None] for objects that are
    created only. *)
Definition reconcileResource {B} `{!Kind B} (owner : string) (key : NN) (desired : KObject B)
    (update : option ((KObject B → KObject B → bool) * (KObject B → KObject B → KObject B))) :
    Kube Sp St () :=
  match SetControllerReference owner desired with
  | Err e => fail (OtherError e)
  | Ok desired =>
      found ← try_ (Get key);
      match found with
      | Err NotFound => Create key desired
      | Err e => fail e
      | Ok found =>
          match update with
          | None => mret ()
          | Some (needsUpdate, mutate) =>
              if needsUpdate found desired then Update key (mutate found desired);; mret ()
              else mret ()
          end
      end
  end.

Definition alwaysUpdate {B} (_ _ : KObject B) : bool := true.

(** [ReconcileConfigMap], which compares one key of the data. *)
Definition ReconcileConfigMap (owner : string) (key : NN) (labels data : gmap string string)
    (dataKey : string) : Kube Sp St () :=
  let configMap := {| Meta := {| Labels := labels; Annotations := ∅; Controller := None |};
                      Body := {| Data := data |} |} in
  match SetControllerReference owner configMap with
  | Err e => fail (OtherError e)
  | Ok configMap =>
      found ← try_ (Get key);
      match found with
      | Err NotFound => Create key configMap
      | Err e => fail e
      | Ok found =>
          if decide (default "" (Data (Body found) !! dataKey) = default "" (data !! dataKey)) then mret ()
          else Update key {| Meta := Meta found; Body := {| Data := data |} |};; mret ()
      end
  end.

Definition fetchInstance (key : NN) : Kube Sp St (option (Resource Sp St)) :=
  found ← try_ (GetResource key);
  match found with
  | Ok r => mret (Some r)
  | Err NotFound => mret None
  | Err e => fail e
  end.
End client.

(** ** Conditions *)

Record Condition := {
  ConditionType : string;
  ConditionStatus : string;
  LastTransitionTime : Z;
  Reason : string;
  ConditionMessage : string;
}.

(** The first condition of the type is replaced if its status changes; a new type is
    added. *)
Fixpoint updateCondition (l : list Condition) (c : Condition) : list Condition :=
  match l with
  | [] => [c]
  | x :: rest =>
      if decide (ConditionType x = ConditionType c) then
        if decide (ConditionStatus x = ConditionStatus c) then x :: rest else c :: rest
      else x :: updateCondition rest c
  end.

(** ** Reasoning about programs *)

Section wp.
Context {Sp St : Type}.
Implicit Types (c : Cluster Sp St).

(** After [m] from [c], [Q] holds of the result and the cluster. *)
Definition wp {A} (m : Kube Sp St A) (c : Cluster Sp St) (Q : res KubeError A → Cluster Sp St → Prop) : Prop :=
  Q (m c).1 (m c).2.

Lemma wp_mono {A} (m : Kube Sp St A) c (Q Q' : res KubeError A → Cluster Sp St → Prop) :
  wp m c Q → (∀ r c', Q r c' → Q' r c') → wp m c Q'.
Proof. unfold wp. auto. Qed.

Lemma wp_ret {A} (a : A) c (Q : res KubeError A → Cluster Sp St → Prop) : Q (Ok a) c → wp (mret a) c Q.
Proof. done. Qed.

Lemma wp_fail {A} e c (Q : res KubeError A → Cluster Sp St → Prop) : Q (Err e) c → wp (fail e) c Q.
Proof. done. Qed.

Lemma wp_bind {A A'} (m : Kube Sp St A) (f : A → Kube Sp St A') c Q :
  wp m c (λ r c', match r with Ok a => wp (f a) c' Q | Err e => Q (Err e) c' end) → wp (m ≫= f) c Q.
Proof.
  unfold wp, mbind, Kube_bind. destruct (m c) as [r c']. by destruct r.
Qed.

Lemma wp_try {A} (m : Kube Sp St A) c Q :
  wp m c (λ r c', Q (Ok r) c') → wp (try_ m) c Q.
Proof. unfold wp, try_. by destruct (m c). Qed.

(** The cluster after some calls that changed nothing. *)
Definition at_calls (n : nat) c : Cluster Sp St :=
  {| deployments := deployments c; services := services c; secrets := secrets c;
     configMaps := configMaps c; claims := claims c; resources := resources c; calls := n |}.

(** The cluster with another object, or none, under a key. *)
Definition with_object {B} `{!Kind B} (key : NN) (v : option (KObject B)) c : Cluster Sp St :=
  setObjects (partial_alter (λ _, v) key (objects c)) c.

Definition with_resource (key : NN) (v : option (Resource Sp St)) c : Cluster Sp St :=
  setResources (partial_alter (λ _, v) key (resources c)) c.
End wp.

(** The kinds are independent of one another and of the rest of the cluster. *)
Class KindLaws (B : Type) `{!Kind B} := {
  objects_setObjects {Sp St} (l : gmap NN (KObject B)) (c : Cluster Sp St) : objects (setObjects l c) = l;
  setObjects_objects {Sp St} (c : Cluster Sp St) : setObjects (objects (B := B) c) c = c;
  setObjects_twice {Sp St} (l l' : gmap NN (KObject B)) (c : Cluster Sp St) :
    setObjects l (setObjects l' c) = setObjects l c;
  calls_setObjects {Sp St} (l : gmap NN (KObject B)) (c : Cluster Sp St) : calls (setObjects l c) = calls c;
  objects_at_calls {Sp St} n (c : Cluster Sp St) : objects (B := B) (at_calls n c) = objects c;
  setObjects_at_calls {Sp St} n (l : gmap NN (KObject B)) (c : Cluster Sp St) :
    setObjects l (at_calls n c) = at_calls n (setObjects l c);
}.

#[export] Instance Deployment_laws : KindLaws DeploymentBody.
Proof. constructor; intros; by try destruct c. Qed.
#[export] Instance Service_laws : KindLaws ServiceSpec.
Proof. constructor; intros; by try destruct c. Qed.
#[export] Instance Secret_laws : KindLaws SecretBody.
Proof. constructor; intros; by try destruct c. Qed.
#[export] Instance ConfigMap_laws : KindLaws ConfigMapBody.
Proof. constructor; intros; by try destruct c. Qed.
#[export] Instance Claim_laws : KindLaws ClaimSpec.
Proof. constructor; intros; by try destruct c. Qed.

Section specs.
Context {Sp St : Type} `{!EqDecision Sp} (env : nat → Outcome).
Implicit Types (c : Cluster Sp St).

Lemma at_calls_calls c : at_calls (calls c) c = c.
Proof using. by destruct c. Qed.

Lemma counted_at_calls c : counted c = at_calls (S (calls c)) c.
Proof using. done. Qed.

Section kind.
Context {B : Type} `{!Kind B, !KindLaws B}.
Implicit Types (o : KObject B) (key : NN).

Lemma with_object_same key c : with_object key (objects (B := B) c !! key) c = c.
Proof using All.
  unfold with_object. rewrite partial_alter_self. apply setObjects_objects.
Qed.

Lemma insert_with_object key o c n :
  setObjects (<[key := o]> (objects (at_calls n c))) (at_calls n c) = at_calls n (with_object key (Some o) c).
Proof using All. by rewrite objects_at_calls, setObjects_at_calls. Qed.

(** A call changes nothing, or has its effect, and answers. *)
Lemma wp_Get key c (Q : res KubeError (KObject B) → Cluster Sp St → Prop) :
  (∀ e, match e with NotFound => objects (B := B) c !! key = None | _ => env (calls c) ≠ Works end →
     Q (Err e) (at_calls (S (calls c)) c)) →
  (∀ o, objects c !! key = Some o → Q (Ok o) (at_calls (S (calls c)) c)) →
  wp (Get env key) c Q.
Proof using All.
  intros HE HO. unfold wp, Get, call. rewrite counted_at_calls.
  destruct (env (calls c)) as [|t|t] eqn:He; cbn [fst snd].
  - rewrite objects_at_calls. destruct (objects c !! key) as [o|] eqn:Ho; [by apply HO|]. by apply HE.
  - by apply HE.
  - by apply HE.
Qed.

Lemma wp_Create key o c (Q : res KubeError () → Cluster Sp St → Prop) :
  (∀ e v, v = objects c !! key ∨ objects c !! key = None ∧ v = Some o →
     (env (calls c) = Works → is_Some (objects (B := B) c !! key)) →
     Q (Err e) (at_calls (S (calls c)) (with_object key v c))) →
  (objects (B := B) c !! key = None → Q (Ok ()) (at_calls (S (calls c)) (with_object key (Some o) c))) →
  wp (Create env key o) c Q.
Proof using All.
  intros HE HO. unfold wp, Create, call. rewrite counted_at_calls, objects_at_calls.
  assert (∀ e, (env (calls c) = Works → is_Some (objects (B := B) c !! key)) →
    Q (Err e) (at_calls (S (calls c)) c)) as HE0.
  { intros e He. rewrite <-(with_object_same key c) at 2. apply HE; [by left|done]. }
  destruct (env (calls c)) as [|t|t] eqn:He; cbn [fst snd]; [|by apply HE0|];
    (destruct (objects c !! key) as [o0|] eqn:Ho; cbn [fst snd]; [by apply HE0|]);
    rewrite <-(objects_at_calls (S (calls c)) c), insert_with_object; [by apply HO|].
  apply HE; [by right|done].
Qed.

Lemma wp_Update key o c (Q : res KubeError (KObject B) → Cluster Sp St → Prop) :
  (∀ e v, v = objects c !! key ∨
     (∃ stored b, objects c !! key = Some stored ∧ admitUpdate (Body stored) (Body o) = Some b ∧
        v = Some {| Meta := Meta o; Body := b |}) →
     (env (calls c) = Works → ∀ stored, objects c !! key = Some stored →
        admitUpdate (Body stored) (Body o) = None) →
     Q (Err e) (at_calls (S (calls c)) (with_object key v c))) →
  (∀ stored b, objects c !! key = Some stored → admitUpdate (Body stored) (Body o) = Some b →
     Q (Ok {| Meta := Meta o; Body := b |})
       (at_calls (S (calls c)) (with_object key (Some {| Meta := Meta o; Body := b |}) c))) →
  wp (Update env key o) c Q.
Proof using All.
  intros HE HO. unfold wp, Update, call. rewrite counted_at_calls, objects_at_calls.
  assert (∀ e, (env (calls c) = Works → ∀ stored, objects c !! key = Some stored →
    admitUpdate (Body stored) (Body o) = None) → Q (Err e) (at_calls (S (calls c)) c)) as HE0.
  { intros e He. rewrite <-(with_object_same key c) at 2. apply HE; [by left|done]. }
  destruct (env (calls c)) as [|t|t] eqn:He; cbn [fst snd]; [|by apply HE0|];
    (destruct (objects c !! key) as [o0|] eqn:Ho; cbn [fst snd]; [|by apply HE0]);
    (destruct (admitUpdate (Body o0) (Body o)) as [b|] eqn:Hb; cbn [fst snd];
      [|apply HE0; intros; by simplify_eq]);
    rewrite <-(objects_at_calls (S (calls c)) c), insert_with_object; [by eapply HO|].
  apply HE; [right; eauto 6|done].
Qed.

Lemma objects_with_object key v c : objects (B := B) (with_object key v c) = partial_alter (λ _, v) key (objects c).
Proof using All. apply objects_setObjects. Qed.

Lemma at_calls_twice n n' c : at_calls n (at_calls n' c) = at_calls n c.
Proof using. done. Qed.

Lemma objects_after key v n c :
  objects (B := B) (at_calls n (with_object key v c)) !! key = v.
Proof using All. by rewrite objects_at_calls, objects_with_object, lookup_partial_alter, decide_True. Qed.

(** Of two writes to a key the last counts. *)
Lemma with_object_twice key v v' n c :
  with_object key v (at_calls n (with_object (B := B) key v' c)) = at_calls n (with_object key v c).
Proof using All.
  unfold with_object. rewrite objects_at_calls, setObjects_at_calls, objects_setObjects, setObjects_twice.
  by rewrite partial_alter_partial_alter_eq.
Qed.

(** [m] leaves the object of the key as it is or as [target] says, given what it was;
    it has done so if it succeeds, and it does if no call fails and there is a target. *)
Definition reconciles {A} (key : NN) (target : option (KObject B) → option (KObject B))
    (m : Kube Sp St A) : Prop :=
  ∀ c, wp m c (λ r c', ∃ v n,
    c' = at_calls n (with_object key v c) ∧
    let old := objects c !! key in
    (v = old ∨ is_Some v ∧ v = target old) ∧
    (is_ok r = true → is_Some v ∧ v = target old) ∧
    ((∀ k, env k = Works) → is_Some (target old) → is_ok r = true)).

Lemma reconciles_wp {A} key target (m : Kube Sp St A) c (Q : res KubeError A → Cluster Sp St → Prop) :
  reconciles key target m →
  (∀ e v n, v = objects c !! key ∨ is_Some v ∧ v = target (objects c !! key) →
     ¬ ((∀ k, env k = Works) ∧ is_Some (target (objects c !! key))) →
     Q (Err e) (at_calls n (with_object key v c))) →
  (∀ a n, is_Some (target (objects c !! key)) →
     Q (Ok a) (at_calls n (with_object key (target (objects c !! key)) c))) →
  wp m c Q.
Proof using All.
  intros Hm HE HO. eapply wp_mono; [apply Hm|]. intros r c' (v & n & -> & Hv & Hok & Hlive).
  destruct r as [a|e].
  - destruct (Hok eq_refl) as [Hs ->]. by apply HO.
  - apply HE; [done|]. intros [Hw Ht]. by specialize (Hlive Hw Ht).
Qed.

Definition owned (owner : string) (o : KObject B) : KObject B :=
  {| Meta := {| Labels := Labels (Meta o); Annotations := Annotations (Meta o); Controller := Some owner |};
     Body := Body o |}.

(** An object as the server stores it in place of another. *)
Definition admitted (stored o : KObject B) : option (KObject B) :=
  b ← admitUpdate (Body stored) (Body o); Some {| Meta := Meta o; Body := b |}.

Lemma wp_try_Get key c (Q : res KubeError (res KubeError (KObject B)) → Cluster Sp St → Prop) :
  (objects (B := B) c !! key = None → Q (Ok (Err NotFound)) (at_calls (S (calls c)) c)) →
  (∀ e, e ≠ NotFound → env (calls c) ≠ Works → Q (Ok (Err e)) (at_calls (S (calls c)) c)) →
  (∀ o, objects c !! key = Some o → Q (Ok (Ok o)) (at_calls (S (calls c)) c)) →
  wp (try_ (Get env key)) c Q.
Proof using All.
  intros HN HE HO. apply wp_try, wp_Get; [|done]. intros e He.
  destruct e; [by apply HN|by apply HE..].
Qed.

(** The two ways in which the shared operations end. *)
Lemma reconciles_create key o n c (target : option (KObject B) → option (KObject B)) :
  objects c !! key = None → target None = Some o →
  wp (Create env key o) (at_calls n c) (λ r c', ∃ v n',
    c' = at_calls n' (with_object key v c) ∧
    let old := objects c !! key in
    (v = old ∨ is_Some v ∧ v = target old) ∧
    (is_ok r = true → is_Some v ∧ v = target old) ∧
    ((∀ k, env k = Works) → is_Some (target old) → is_ok r = true)).
Proof using All.
  intros Hold Ht.
  assert (∀ v, with_object key v (at_calls n c) = at_calls n (with_object (B := B) key v c)) as Hw.
  { intros v. unfold with_object. by rewrite objects_at_calls, setObjects_at_calls. }
  apply wp_Create; rewrite objects_at_calls, Hold.
  - intros e v Hv Hworks. exists v. eexists. split; [by rewrite Hw, at_calls_twice|]. cbn. rewrite ?Hold, ?Ht.
    split; [destruct Hv as [->|[_ ->]]; eauto|]. split; [done|]. intros Henv.
    destruct (Hworks (Henv _)). by simplify_eq.
  - intros _. eexists (Some o), _. split; [by rewrite Hw, at_calls_twice|]. cbn. rewrite ?Hold, ?Ht. naive_solver.
Qed.

Lemma reconciles_update {A} key found o n c (f : KObject B → Kube Sp St A)
    (target : option (KObject B) → option (KObject B)) :
  objects c !! key = Some found → target (Some found) = admitted found o →
  (∀ o c, ∃ a, f o c = (Ok a, c)) →
  wp (Update env key o ≫= f) (at_calls n c) (λ r c', ∃ v n',
    c' = at_calls n' (with_object key v c) ∧
    let old := objects c !! key in
    (v = old ∨ is_Some v ∧ v = target old) ∧
    (is_ok r = true → is_Some v ∧ v = target old) ∧
    ((∀ k, env k = Works) → is_Some (target old) → is_ok r = true)).
Proof using All.
  intros Hold Ht Hf.
  assert (∀ v, with_object key v (at_calls n c) = at_calls n (with_object (B := B) key v c)) as Hw.
  { intros v. unfold with_object. by rewrite objects_at_calls, setObjects_at_calls. }
  apply wp_bind, wp_Update; rewrite objects_at_calls, Hold.
  - intros e v Hv Hworks. exists v. eexists. split; [by rewrite Hw, at_calls_twice|]. cbn. rewrite ?Hold, ?Ht.
    split.
    { destruct Hv as [->|(stored & b & [= <-] & Hb & ->)]; [by left|]. right. split; [done|].
      unfold admitted. by rewrite Hb. }
    split; [done|]. intros Henv. unfold admitted. rewrite (Hworks (Henv _) found eq_refl). by intros [? ?].
  - intros stored b [= <-] Hb. unfold wp.
    edestruct (Hf {| Meta := Meta o; Body := b |}) as [a ->]. eexists (Some _), _.
    split; [by rewrite Hw, at_calls_twice|]. cbn. rewrite ?Hold, ?Ht. unfold admitted. rewrite Hb. naive_solver.
Qed.

(** The object that [reconcileResource] leaves. *)
Definition resourceTarget (owner : string) (desired : KObject B)
    (update : option ((KObject B → KObject B → bool) * (KObject B → KObject B → KObject B)))
    (old : option (KObject B)) : option (KObject B) :=
  match old with
  | None => Some (owned owner desired)
  | Some found =>
      match update with
      | None => Some found
      | Some (needsUpdate, mutate) =>
          if needsUpdate found (owned owner desired) then admitted found (mutate found (owned owner desired))
          else Some found
      end
  end.

Lemma resourceTarget_create owner desired old : is_Some (resourceTarget owner desired None old).
Proof using. by destruct old. Qed.

Lemma reconciles_same {A} key n c (target : option (KObject B) → option (KObject B)) (r : res KubeError A) :
  (is_ok r = true → is_Some (objects c !! key) ∧ objects c !! key = target (objects c !! key)) →
  ((∀ k, env k = Works) → is_Some (target (objects c !! key)) → is_ok r = true) →
  ∃ v n', at_calls n c = at_calls n' (with_object key v c) ∧
    let old := objects c !! key in
    (v = old ∨ is_Some v ∧ v = target old) ∧
    (is_ok r = true → is_Some v ∧ v = target old) ∧
    ((∀ k, env k = Works) → is_Some (target old) → is_ok r = true).
Proof using All.
  intros H1 H2. exists (objects c !! key), n. rewrite with_object_same. cbn. auto.
Qed.

Lemma reconcileResource_spec owner key desired update :
  Controller (Meta desired) = None →
  reconciles key (resourceTarget owner desired update) (reconcileResource env owner key desired update).
Proof using All.
  intros Hc c. unfold reconcileResource, SetControllerReference. rewrite Hc.
  change {| Meta := _; Body := Body desired |} with (owned owner desired).
  apply wp_bind, wp_try_Get.
  - intros Hold. by apply reconciles_create.
  - intros e Hne Henv. destruct e; [done| |]; (apply wp_fail, reconciles_same; [done|];
      intros Hw; by destruct Henv).
  - intros found Hold. destruct update as [[needs mutate]|].
    + destruct (needs found (owned owner desired)) eqn:Hn.
      * eapply reconciles_update; [done|cbn; by rewrite Hn|]. intros o c'. by exists ().
      * apply wp_ret, reconciles_same; rewrite Hold; cbn; rewrite Hn; eauto.
    + apply wp_ret, reconciles_same; rewrite Hold; cbn; eauto.
Qed.

(** The object that [CreateOrUpdate] leaves. *)
Definition createdOrUpdated (empty : KObject B) (mutate : KObject B → res string (KObject B))
    (old : option (KObject B)) : option (KObject B) :=
  match mutate (default empty old) with
  | Err _ => None
  | Ok o => match old with None => Some o | Some found => admitted found o end
  end.

Lemma wp_bind_ret {A} (m : Kube Sp St A) c Q : wp (m ≫= mret) c Q → wp m c Q.
Proof using. unfold wp, mbind, Kube_bind. destruct (m c) as [r c']. by destruct r. Qed.

Lemma CreateOrUpdate_spec same key empty mutate :
  (∀ o o', same o o' = true → o = o') →
  (∀ found, admitted found found = Some found) →
  reconciles key (createdOrUpdated empty mutate) (CreateOrUpdate env same key empty mutate).
Proof using All.
  intros Hsame Hadm c. unfold CreateOrUpdate. apply wp_bind, wp_try_Get.
  - intros Hold. destruct (mutate empty) as [o|e] eqn:Hm.
    + apply wp_bind. eapply wp_mono; [apply (reconciles_create key o _ _ (createdOrUpdated empty mutate)); [done|]|].
      { change (createdOrUpdated empty mutate None) with
          (match mutate empty with Err _ => None | Ok o => Some o end). by rewrite Hm. }
      intros r c' H. by destruct r.
    + apply wp_fail, reconciles_same; [done|]. rewrite Hold.
      change (createdOrUpdated empty mutate None) with
        (match mutate empty with Err _ => None | Ok o => Some o end). rewrite Hm. by intros _ [? ?].
  - intros e Hne Henv. destruct e; [done| |]; (apply wp_fail, reconciles_same; [done|];
      intros Hw; by destruct Henv).
  - intros found Hold.
    assert (createdOrUpdated empty mutate (Some found)
            = match mutate found with Err _ => None | Ok o => admitted found o end) as Ht by done.
    destruct (mutate found) as [o|e] eqn:Hm.
    + destruct (same found o) eqn:Hs.
      * apply Hsame in Hs as <-. apply wp_ret, reconciles_same; rewrite Hold; [|done].
        rewrite Ht, Hadm. eauto.
      * apply wp_bind_ret. eapply reconciles_update; [done|exact Ht|]. intros o' c'. by exists o'.
    + apply wp_fail, reconciles_same; [done|]. rewrite Hold, Ht. by intros _ [? ?].
Qed.

(** The answer of [CreateOrUpdate] is the object it leaves. *)
Lemma CreateOrUpdate_answer same key empty mutate c o c' :
  (∀ o o', same o o' = true → o = o') →
  (∀ found, admitted found found = Some found) →
  CreateOrUpdate env same key empty mutate c = (Ok o, c') →
  createdOrUpdated empty mutate (objects c !! key) = Some o.
Proof using All.
  intros Hsame Hadm Heq.
  assert (wp (CreateOrUpdate env same key empty mutate) c (λ r _, ∀ o, r = Ok o →
    createdOrUpdated empty mutate (objects c !! key) = Some o)) as H.
  { unfold CreateOrUpdate. apply wp_bind, wp_try_Get.
    - intros Hold. rewrite Hold.
      change (createdOrUpdated empty mutate None) with
        (match mutate empty with Err _ => None | Ok o => Some o end).
      destruct (mutate empty) as [o'|e]; [|by apply wp_fail].
      apply wp_bind, wp_Create; [done|]. intros _. apply wp_ret. by intros ? [= <-].
    - intros e Hne _. destruct e; [done| |]; by apply wp_fail.
    - intros found Hold. rewrite Hold.
      assert (createdOrUpdated empty mutate (Some found)
              = match mutate found with Err _ => None | Ok o => admitted found o end) as -> by done.
      destruct (mutate found) as [o'|e]; [|by apply wp_fail]. destruct (same found o') eqn:Hs.
      + apply Hsame in Hs as <-. apply wp_ret. rewrite Hadm. by intros ? [= <-].
      + apply wp_Update; rewrite objects_at_calls, Hold; [done|].
        intros stored b [= <-] Hb ? [= <-]. unfold admitted. by rewrite Hb. }
  unfold wp in H. rewrite Heq in H. by apply H.
Qed.

Lemma wp_CreateOrUpdate same key empty mutate c (Q : res KubeError (KObject B) → Cluster Sp St → Prop) :
  (∀ o o', same o o' = true → o = o') →
  (∀ found, admitted found found = Some found) →
  (∀ e v n, v = objects c !! key ∨ is_Some v ∧ v = createdOrUpdated empty mutate (objects c !! key) →
     ¬ ((∀ k, env k = Works) ∧ is_Some (createdOrUpdated empty mutate (objects c !! key))) →
     Q (Err e) (at_calls n (with_object key v c))) →
  (∀ o n, createdOrUpdated empty mutate (objects c !! key) = Some o →
     Q (Ok o) (at_calls n (with_object key (Some o) c))) →
  wp (CreateOrUpdate env same key empty mutate) c Q.
Proof using All.
  intros Hsame Hadm HE HO. pose proof (CreateOrUpdate_spec same key empty mutate Hsame Hadm c) as Hspec.
  pose proof (λ o c', CreateOrUpdate_answer same key empty mutate c o c' Hsame Hadm) as Hans.
  unfold wp in *. destruct (CreateOrUpdate env same key empty mutate c) as [r c'].
  destruct Hspec as (v & n & -> & Hv & Hok & Hlive). destruct r as [o|e]; cbn [fst snd].
  - destruct (Hok eq_refl) as [_ ->]. pose proof (Hans o _ eq_refl) as Ho.
    cbn [snd]. rewrite Ho. by apply HO.
  - apply HE; [done|]. intros [Hw Ht]. by specialize (Hlive Hw Ht).
Qed.
End kind.

Definition configMapTarget (owner : string) (labels data : gmap string string) (dataKey : string)
    (old : option ConfigMap) : option ConfigMap :=
  Some match old with
       | None => owned owner {| Meta := {| Labels := labels; Annotations := ∅; Controller := None |};
                                Body := {| Data := data |} |}
       | Some found =>
           if decide (default "" (Data (Body found) !! dataKey) = default "" (data !! dataKey)) then found
           else {| Meta := Meta found; Body := {| Data := data |} |}
       end.

Lemma ReconcileConfigMap_spec owner key labels data dataKey :
  reconciles key (configMapTarget owner labels data dataKey)
    (ReconcileConfigMap env owner key labels data dataKey).
Proof using All.
  intros c. unfold ReconcileConfigMap, SetControllerReference. cbn [Controller Meta].
  apply wp_bind, wp_try_Get.
  - intros Hold. by apply (reconciles_create key _ _ c (configMapTarget owner labels data dataKey)).
  - intros e Hne Henv. destruct e; [done| |]; (apply wp_fail, reconciles_same; [done|];
      intros Hw; by destruct Henv).
  - intros found Hold. destruct (decide _) as [He|He] eqn:Hd.
    + apply wp_ret, reconciles_same; rewrite Hold; unfold configMapTarget; rewrite Hd; eauto.
    + eapply (reconciles_update key found _ _ c (λ _, mret ()) (configMapTarget owner labels data dataKey));
        [done|unfold configMapTarget; by rewrite Hd|]. intros o c'. by exists ().
Qed.
(** *** Custom resources *)

Lemma with_resource_same key c : with_resource key (resources c !! key) c = c.
Proof using. unfold with_resource, setResources. rewrite partial_alter_self. by destruct c. Qed.

Lemma wp_fetchInstance key c (Q : res KubeError (option (Resource Sp St)) → Cluster Sp St → Prop) :
  (∀ e, env (calls c) ≠ Works → Q (Err e) (at_calls (S (calls c)) c)) →
  Q (Ok (resources c !! key)) (at_calls (S (calls c)) c) →
  wp (fetchInstance env key) c Q.
Proof using All.
  intros HE HO. unfold wp, fetchInstance, GetResource, call, mbind, Kube_bind, try_. rewrite counted_at_calls.
  cbn. destruct (env (calls c)) as [|t|t] eqn:He; cbn; [|by apply HE..].
  destruct (resources c !! key) as [r|]; done.
Qed.

Lemma wp_UpdateStatus key r c (Q : res KubeError (Resource Sp St) → Cluster Sp St → Prop) :
  (∀ e v, v = resources c !! key ∨
     (∃ stored, resources c !! key = Some stored ∧ v = Some (setStatus (Status r) stored)) →
     (env (calls c) = Works → resources c !! key = None) →
     Q (Err e) (at_calls (S (calls c)) (with_resource key v c))) →
  (∀ stored, resources c !! key = Some stored →
     Q (Ok (setStatus (Status r) stored))
       (at_calls (S (calls c)) (with_resource key (Some (setStatus (Status r) stored)) c))) →
  wp (UpdateStatus env key r) c Q.
Proof using All.
  intros HE HO. unfold wp, UpdateStatus, call. rewrite counted_at_calls. cbn.
  assert (∀ e, (env (calls c) = Works → resources c !! key = None) →
    Q (Err e) (at_calls (S (calls c)) c)) as HE0.
  { intros e He. rewrite <-(with_resource_same key c) at 2. apply HE; [by left|done]. }
  destruct (env (calls c)) as [|t|t] eqn:He; cbn; [|by apply HE0|];
    (destruct (resources c !! key) as [s|] eqn:Hr; cbn; [|by apply HE0]).
  - by apply (HO s).
  - apply (HE _ (Some (setStatus (Status r) s))); [right; eauto|done].
Qed.

(** A change of the status of a resource that has been read: it is written, or not. *)
Lemma wp_changeStatus key r r' c (Q : res KubeError (Resource Sp St) → Cluster Sp St → Prop) :
  resources c !! key = Some r → Metadata r' = Metadata r → Spec r' = Spec r →
  (∀ e c', env (calls c) ≠ Works → c' = at_calls (S (calls c)) c → Q (Err e) c') →
  (∀ a c', c' = at_calls (S (calls c)) (with_resource key (Some r') c) →
     (∀ e, a = Err e → env (calls c) ≠ Works) → (∀ m, a = Ok m → m = r') → Q a c') →
  wp (UpdateStatus env key r') c Q.
Proof using All.
  intros Hr Hm Hs H1 H2.
  assert (setStatus (Status r') r = r') as Hset by (unfold setStatus; rewrite <-Hm, <-Hs; by destruct r').
  apply wp_UpdateStatus.
  - intros e v Hv Hw.
    assert (env (calls c) ≠ Works) by (intros He; by rewrite (Hw He) in Hr).
    destruct Hv as [->|(stored & Hst & ->)].
    + rewrite with_resource_same. by apply H1.
    + rewrite Hr in Hst. injection Hst as <-. rewrite Hset. apply H2; [done|naive_solver|done].
  - intros stored Hst. rewrite Hr in Hst. injection Hst as <-. rewrite Hset. apply H2; naive_solver.
Qed.

Lemma wp_UpdateResource key r c (Q : res KubeError (Resource Sp St) → Cluster Sp St → Prop) :
  (∀ e v, v = resources c !! key ∨
     (∃ stored, resources c !! key = Some stored ∧ v = updatedResource stored r) →
     (env (calls c) = Works → resources c !! key = None) →
     Q (Err e) (at_calls (S (calls c)) (with_resource key v c))) →
  (∀ stored, resources c !! key = Some stored →
     Q (Ok (storedUpdate stored r))
       (at_calls (S (calls c)) (with_resource key (updatedResource stored r) c))) →
  wp (UpdateResource env key r) c Q.
Proof using All.
  intros HE HO. unfold wp, UpdateResource, call. rewrite counted_at_calls. cbn.
  assert (∀ e, (env (calls c) = Works → resources c !! key = None) →
    Q (Err e) (at_calls (S (calls c)) c)) as HE0.
  { intros e He. rewrite <-(with_resource_same key c) at 2. apply HE; [by left|done]. }
  destruct (env (calls c)) as [|t|t] eqn:He; cbn; [|by apply HE0|];
    (destruct (resources c !! key) as [s|] eqn:Hr; cbn; [|by apply HE0]).
  - by apply (HO s).
  - apply (HE _ (updatedResource s r)); [right; eauto|done].
Qed.
End specs.

(** The next operation of a program on an object: how it can fail, and what it leaves. *)
Ltac wp_reconcile :=
  lazymatch goal with
  | |- wp (@reconcileResource _ _ _ ?B _ _ _ _ _) _ _ =>
      eapply (reconciles_wp _ (B := B)); [eapply reconcileResource_spec; first [reflexivity | apply _] | |]
  | |- wp (ReconcileConfigMap _ _ _ _ _ _) _ _ =>
      eapply (reconciles_wp _ (B := ConfigMapBody)); [apply ReconcileConfigMap_spec | |]
  end;
  cbv beta iota.

(** The parts of a cluster after some writes. *)
Ltac kube_simpl :=
  cbn [deployments services secrets configMaps claims resources calls at_calls with_object with_resource
       setObjects setResources objects Deployment_kind Service_kind Secret_kind ConfigMap_kind Claim_kind] in *.
