(* ===== verification/MemoryController.v ===== *)
(** * The controller of memory servers

    internal/controllers/mcpmemory_controller.go: a state machine over the phase of an
    MCPMemory resource that creates the objects of a memory server and of its
    PostgreSQL, and watches them.  The controller has no timer: it runs again when an
    event says that an object has changed, or when a reconcile asks for it or fails. *)
From S2P Require Import Prelude GoString ConfigRules ConfigLoad Calls Kube.

#[local] Open Scope Z_scope.

Set Default Proof Using "Type*".

(** ** Data *)

(** The fields of the specification that the controller reads. *)
Record MCPMemorySpec := {
  SpecPort : Z;
  SpecHost : string;
  PostgresEnabled : bool;
  PostgresPort : Z;
  PostgresDB : string;
  PostgresUser : string;
  PostgresPassword : string;
  DatabaseURL : string;
  CPUs : string;
  Memory : string;
  PostgresCPUs : string;
  PostgresMemory : string;
  SpecReplicas : option Z;
  SpecNodeSelector : gmap string string;
  SpecServiceType : string;
  ServiceAnnotations : gmap string string;
  ServiceAccount : string;
  SpecImagePullSecrets : list string;
  SpecPodAnnotations : gmap string string;
}.

Record MCPMemoryStatus := {
  Phase : string;
  Conditions : list Condition;
  PostgresStatus : string;
  MemReplicas : Z;
  MemReadyReplicas : Z;
}.

#[export] Instance MCPMemorySpec_dec : EqDecision MCPMemorySpec.
Proof. solve_decision. Defined.

Notation MCPMemory := (Resource MCPMemorySpec MCPMemoryStatus) (only parsing).
Notation K := (Kube MCPMemorySpec MCPMemoryStatus) (only parsing).

Definition MCPMemoryPhasePending : string := "Pending".
Definition MCPMemoryPhaseCreating : string := "Creating".
Definition MCPMemoryPhaseStarting : string := "Starting".
Definition MCPMemoryPhaseRunning : string := "Running".
Definition MCPMemoryPhaseFailed : string := "Failed".
Definition MCPMemoryPhaseTerminating : string := "Terminating".

Definition name (memory : MCPMemory) : string := Name (Metadata memory).
Definition key_of (memory : MCPMemory) (suffix : string) : NN :=
  (Namespace (Metadata memory), name memory +:+ suffix).
Definition keyOf (memory : MCPMemory) : NN := (Namespace (Metadata memory), name memory).

Definition setPhase (phase : string) (memory : MCPMemory) : MCPMemory :=
  let s := Status memory in
  setStatus {| Phase := phase; Conditions := Conditions s; PostgresStatus := PostgresStatus s;
               MemReplicas := MemReplicas s; MemReadyReplicas := MemReadyReplicas s |} memory.
Definition setReplicas (ready replicas : Z) (memory : MCPMemory) : MCPMemory :=
  let s := Status memory in
  setStatus {| Phase := Phase s; Conditions := Conditions s; PostgresStatus := PostgresStatus s;
               MemReplicas := replicas; MemReadyReplicas := ready |} memory.
Definition setPostgresStatus (p : string) (memory : MCPMemory) : MCPMemory :=
  let s := Status memory in
  setStatus {| Phase := Phase s; Conditions := Conditions s; PostgresStatus := p;
               MemReplicas := MemReplicas s; MemReadyReplicas := MemReadyReplicas s |} memory.

(** A condition with the time of this reconcile. *)
Definition setCondition (now : Z) (type : string) (status : bool) (reason message : string)
    (memory : MCPMemory) : MCPMemory :=
  let s := Status memory in
  setStatus {| Phase := Phase s;
               Conditions := updateCondition (Conditions s)
                 {| ConditionType := type; ConditionStatus := if status then "True" else "False";
                    LastTransitionTime := now; Reason := reason; ConditionMessage := message |};
               PostgresStatus := PostgresStatus s;
               MemReplicas := MemReplicas s; MemReadyReplicas := MemReadyReplicas s |} memory.

(** ** Objects *)

Definition appLabels (app instance component role : string) : gmap string string :=
  {[ "app.kubernetes.io/name" := app;
     "app.kubernetes.io/instance" := instance;
     "app.kubernetes.io/component" := component;
     "app.kubernetes.io/managed-by" := "matey";
     "mcp.matey.ai/role" := role ]}.

Definition memoryLabels (memory : MCPMemory) : gmap string string :=
  appLabels "memory" (name memory) "memory" "memory".
Definition postgresLabels (memory : MCPMemory) : gmap string string :=
  appLabels "postgres" (name memory +:+ "-postgres") "database" "database".
Definition selectorLabels (app instance : string) : gmap string string :=
  {[ "app.kubernetes.io/name" := app; "app.kubernetes.io/instance" := instance ]}.

Section controller.
(** resource.ParseQuantity, with the quantity as text; and the configuration, if the
    controller has one. *)
Context (ParseQuantity : string → option string) (Config : option ComposeConfig).

Definition secretOf (memory : MCPMemory) : Secret :=
  {| Meta := {| Labels := memoryLabels memory; Annotations := ∅; Controller := None |};
     Body := {| SecretData := {[ "postgres-password" := PostgresPassword (Spec memory) ]} |} |}.

Definition textOfBool (b : bool) : string := if b then "true" else "false".

Definition line (s : string) : string := s +:+ byte1 newline.

Definition generateMemoryConfig (memory : MCPMemory) : string :=
  let spec := Spec memory in
  concatS (line <$>
    ["# Memory Server Configuration";
     "port: " +:+ Itoa (SpecPort spec);
     "host: " +:+ SpecHost spec;
     "";
     "# Database Configuration";
     "postgres_enabled: " +:+ textOfBool (PostgresEnabled spec);
     "database_url: " +:+ DatabaseURL spec;
     "";
     "# Kubernetes Configuration";
     "kubernetes_mode: true";
     "namespace: " +:+ Namespace (Metadata memory)]).

Definition serviceOf (memory : MCPMemory) : Service :=
  let spec := Spec memory in
  {| Meta := {| Labels := <["mcp.matey.ai/server-name" := name memory]>
                  (<["mcp.matey.ai/protocol" := "http"]>
                     (<["mcp.matey.ai/capabilities" := "tools"]>
                        (appLabels "memory" (name memory) "memory" "server")));
                Annotations := ServiceAnnotations spec; Controller := None |};
     Body := {| Type_ := if decide (SpecServiceType spec = "") then "ClusterIP" else SpecServiceType spec;
                ServicePorts := [{| ServicePortName := "http"; Port := SpecPort spec; TargetPort := None |}];
                Selector := selectorLabels "memory" (name memory) |} |}.

Definition databaseURL (memory : MCPMemory) : string :=
  let spec := Spec memory in
  "postgresql://" +:+ PostgresUser spec +:+ ":" +:+ PostgresPassword spec +:+ "@" +:+ name memory +:+
  "-postgres:" +:+ Itoa (PostgresPort spec) +:+ "/" +:+ PostgresDB spec +:+ "?sslmode=disable".

Definition passwordVar (memory : MCPMemory) : EnvVar :=
  {| EnvName := "POSTGRES_PASSWORD"; EnvValue := EnvSecret (name memory +:+ "-secret") "postgres-password" |}.

Definition buildMemoryEnvVars (memory : MCPMemory) : list EnvVar :=
  let spec := Spec memory in
  [{| EnvName := "NODE_ENV"; EnvValue := EnvLiteral "production" |};
   {| EnvName := "PORT"; EnvValue := EnvLiteral (Itoa (SpecPort spec)) |};
   {| EnvName := "HOST"; EnvValue := EnvLiteral (SpecHost spec) |}] ++
  (if decide (DatabaseURL spec ≠ "")
   then [{| EnvName := "DATABASE_URL"; EnvValue := EnvLiteral (DatabaseURL spec) |}]
   else if PostgresEnabled spec
   then [{| EnvName := "DATABASE_URL"; EnvValue := EnvLiteral (databaseURL memory) |}]
   else []) ++
  (if PostgresEnabled spec then [passwordVar memory] else []).

(** [applyMemoryResources], and the same for PostgreSQL. *)
Definition quantityEntry (resource text : string) (l : gmap string string) : gmap string string :=
  if decide (text = "") then l
  else match ParseQuantity text with Some q => <[resource := q]> l | None => l end.

Definition applyMemoryResources (cpus memory : string) : ResourceRequirements :=
  if decide (cpus = "" ∧ memory = "") then {| Limits := None; Requests := None |}
  else
    let l := quantityEntry "memory" memory (quantityEntry "cpu" cpus ∅) in
    {| Limits := Some l; Requests := Some l |}.

Definition probe (by_ : ProbeHandler) (delay period : Z) : Probe :=
  {| ProbeBy := by_; InitialDelaySeconds := delay; PeriodSeconds := period;
     TimeoutSeconds := 0; FailureThreshold := 0 |}.

Definition buildMemoryContainer (memory : MCPMemory) : Container :=
  let spec := Spec memory in
  let image := "ghcr.io/phildougherty/memory:latest" in
  {| ContainerName := "memory";
     Image := match Config with Some c => GetRegistryImage c image | None => image end;
     ImagePullPolicy := "Always"; Command := []; Args := []; WorkingDir := "";
     Env := buildMemoryEnvVars memory;
     Ports := [{| PortName := "http"; PortNumber := SpecPort spec |}];
     Resources := applyMemoryResources (CPUs spec) (Memory spec);
     Security := None;
     VolumeMounts := [{| MountName := "config"; MountPath := "/app/config"; SubPath := "";
                         MountReadOnly := true |}];
     LivenessProbe := Some (probe (HTTPGet "/health" (SpecPort spec)) 30 10);
     ReadinessProbe := Some (probe (HTTPGet "/health" (SpecPort spec)) 5 5) |}.

Definition buildMemoryPodSpec (memory : MCPMemory) : PodSpec :=
  let spec := Spec memory in
  {| Containers := [buildMemoryContainer memory];
     Volumes := [{| VolumeName := "config"; Source := ConfigMapVolume (name memory +:+ "-config") |}];
     RestartPolicy := "Always";
     NodeSelector := SpecNodeSelector spec;
     ServiceAccountName := ServiceAccount spec;
     ImagePullSecrets := match SpecImagePullSecrets spec with [] => ["registry-secret"] | l => l end;
     PodSecurity := None |}.

Definition newDeployment (labels : gmap string string) (spec : DeploymentSpec) : Deployment :=
  {| Meta := {| Labels := labels; Annotations := ∅; Controller := None |};
     Body := {| DeploymentSpec_ := spec;
                DeploymentStatus_ := {| StatusReplicas := 0; ReadyReplicas := 0 |} |} |}.

Definition deploymentOf (memory : MCPMemory) : Deployment :=
  newDeployment (memoryLabels memory) {|
    Replicas := default 1 (SpecReplicas (Spec memory));
    MatchLabels := selectorLabels "memory" (name memory);
    PodLabels := memoryLabels memory;
    PodAnnotations := SpecPodAnnotations (Spec memory);
    Template := buildMemoryPodSpec memory |}.

Definition buildPostgresPodSpec (memory : MCPMemory) : PodSpec :=
  let spec := Spec memory in
  let ready := Exec ["pg_isready"; "-U"; PostgresUser spec] in
  {| Containers := [{|
       ContainerName := "postgres"; Image := "postgres:15-alpine"; ImagePullPolicy := "Always";
       Command := []; Args := []; WorkingDir := "";
       Env := [{| EnvName := "POSTGRES_DB"; EnvValue := EnvLiteral (PostgresDB spec) |};
               {| EnvName := "POSTGRES_USER"; EnvValue := EnvLiteral (PostgresUser spec) |};
               passwordVar memory;
               {| EnvName := "PGDATA"; EnvValue := EnvLiteral "/var/lib/postgresql/data/pgdata" |}];
       Ports := [{| PortName := "postgres"; PortNumber := PostgresPort spec |}];
       Resources := applyMemoryResources (PostgresCPUs spec) (PostgresMemory spec);
       Security := None;
       VolumeMounts := [{| MountName := "postgres-data"; MountPath := "/var/lib/postgresql/data";
                           SubPath := ""; MountReadOnly := false |}];
       LivenessProbe := Some (probe ready 30 10);
       ReadinessProbe := Some (probe ready 5 5) |}];
     Volumes := [{| VolumeName := "postgres-data"; Source := ClaimVolume (name memory +:+ "-postgres-data") |}];
     RestartPolicy := "Always"; NodeSelector := ∅; ServiceAccountName := ""; ImagePullSecrets := []; PodSecurity := None |}.

Definition postgresClaimOf (memory : MCPMemory) : PersistentVolumeClaim :=
  {| Meta := {| Labels := postgresLabels memory; Annotations := ∅; Controller := None |};
     Body := {| AccessModes := ["ReadWriteOnce"]; Storage := "10Gi"; StorageClassName := None |} |}.

Definition postgresServiceOf (memory : MCPMemory) : Service :=
  {| Meta := {| Labels := postgresLabels memory; Annotations := ∅; Controller := None |};
     Body := {| Type_ := "ClusterIP";
                ServicePorts := [{| ServicePortName := "postgres"; Port := PostgresPort (Spec memory);
                                    TargetPort := None |}];
                Selector := selectorLabels "postgres" (name memory +:+ "-postgres") |} |}.

Definition postgresDeploymentOf (memory : MCPMemory) : Deployment :=
  newDeployment (postgresLabels memory) {|
    Replicas := 1;
    MatchLabels := selectorLabels "postgres" (name memory +:+ "-postgres");
    PodLabels := postgresLabels memory;
    PodAnnotations := ∅;
    Template := buildPostgresPodSpec memory |}.

(** ** Reconciling the objects *)

(** The outcomes of the calls, and the clock. *)
Context (env : nat → Outcome) (now : Z).

Definition takeSpec (found desired : Deployment) : Deployment :=
  {| Meta := Meta found;
     Body := {| DeploymentSpec_ := DeploymentSpec_ (Body desired);
                DeploymentStatus_ := DeploymentStatus_ (Body found) |} |}.

Definition takeData (found desired : Secret) : Secret := {| Meta := Meta found; Body := Body desired |}.

Definition reconcileSecret (memory : MCPMemory) : K () :=
  reconcileResource env (UID (Metadata memory)) (key_of memory "-secret") (secretOf memory)
    (Some (alwaysUpdate, takeData)).

Definition reconcileConfigMap (memory : MCPMemory) : K () :=
  ReconcileConfigMap env (UID (Metadata memory)) (key_of memory "-config") (memoryLabels memory)
    {[ "config.yaml" := generateMemoryConfig memory ]} "config.yaml".

Definition reconcileService (memory : MCPMemory) : K () :=
  reconcileResource env (UID (Metadata memory)) (keyOf memory) (serviceOf memory) None.

Definition reconcileDeployment (memory : MCPMemory) : K () :=
  reconcileResource env (UID (Metadata memory)) (keyOf memory) (deploymentOf memory)
    (Some (alwaysUpdate, takeSpec)).

Definition reconcilePostgresPVC (memory : MCPMemory) : K () :=
  reconcileResource env (UID (Metadata memory)) (key_of memory "-postgres-data") (postgresClaimOf memory) None.

Definition reconcilePostgresService (memory : MCPMemory) : K () :=
  reconcileResource env (UID (Metadata memory)) (key_of memory "-postgres") (postgresServiceOf memory) None.

Definition reconcilePostgresDeployment (memory : MCPMemory) : K () :=
  reconcileResource env (UID (Metadata memory)) (key_of memory "-postgres") (postgresDeploymentOf memory)
    (Some (alwaysUpdate, takeSpec)).

Definition reconcilePostgresResources (memory : MCPMemory) : K () :=
  reconcilePostgresPVC memory;; reconcilePostgresService memory;; reconcilePostgresDeployment memory.

(** ** Phases *)

Definition ready (d : Deployment) : bool := 0 <? ReadyReplicas (DeploymentStatus_ (Body d)).

Definition isPostgresReady (memory : MCPMemory) : K bool :=
  deployment ← Get env (B := DeploymentBody) (key_of memory "-postgres"); mret (ready deployment).

Definition isExternalDatabaseReady (memory : MCPMemory) : K bool :=
  deployment ← try_ (Get env (B := DeploymentBody) (keyOf memory));
  mret match deployment with Ok d => ready d | Err _ => false end.

Definition updateStatus (memory : MCPMemory) : K MCPMemory := UpdateStatus env (keyOf memory) memory.

Definition reconcilePending (memory : MCPMemory) : K Result :=
  updateStatus (setPhase MCPMemoryPhaseCreating memory);;
  mret {| Requeue := true; RequeueAfter := 0 |}.

Definition reconcileCreating (memory : MCPMemory) : K Result :=
  (if PostgresEnabled (Spec memory) then reconcilePostgresResources memory else mret ());;
  reconcileSecret memory;;
  reconcileConfigMap memory;;
  reconcileService memory;;
  reconcileDeployment memory;;
  updateStatus (setPhase MCPMemoryPhaseStarting memory);;
  mret Done.

(** The second part of [reconcileStarting], once PostgreSQL is ready. *)
Definition startingDeployment (memory : MCPMemory) : K Result :=
  deployment ← try_ (Get env (B := DeploymentBody) (keyOf memory));
  match deployment with
  | Err NotFound =>
      updateStatus (setPhase MCPMemoryPhaseCreating memory);;
      mret {| Requeue := true; RequeueAfter := 0 |}
  | Err _ => mret Done
  | Ok d =>
      if ready d then
        let status := DeploymentStatus_ (Body d) in
        updateStatus
          (setCondition now "Healthy" true "Healthy" "Memory server is healthy"
             (setCondition now "Ready" true "DeploymentReady" "Memory server deployment is ready"
                (setReplicas (ReadyReplicas status) (StatusReplicas status)
                   (setPhase MCPMemoryPhaseRunning memory))));;
        mret Done
      else mret Done
  end.

Definition reconcileStarting (memory : MCPMemory) : K Result :=
  if PostgresEnabled (Spec memory) then
    postgresReady ← try_ (isPostgresReady memory);
    match postgresReady with
    | Err _ => mret Done
    | Ok false =>
        updateStatus (setCondition now "PostgresReady" false "PostgresNotReady" "PostgreSQL is not ready yet" memory);;
        mret Done
    | Ok true =>
        startingDeployment (setCondition now "PostgresReady" true "PostgresReady" "PostgreSQL is ready" memory)
    end
  else startingDeployment memory.

(** The database part of the status of a running server. *)
Definition checkDatabase (memory : MCPMemory) : K MCPMemory :=
  if PostgresEnabled (Spec memory) then
    postgresHealthy ← try_ (isPostgresReady memory);
    mret match postgresHealthy with
         | Err e => setPostgresStatus "unknown"
             (setCondition now "PostgresReady" false "PostgresCheckFailed"
                ("Failed to check PostgreSQL status: " +:+ errorText e) memory)
         | Ok true => setPostgresStatus "healthy"
             (setCondition now "PostgresReady" true "PostgresHealthy" "PostgreSQL is healthy" memory)
         | Ok false => setPostgresStatus "unhealthy"
             (setCondition now "PostgresReady" false "PostgresUnhealthy" "PostgreSQL is not healthy" memory)
         end
  else if decide (DatabaseURL (Spec memory) ≠ "") then
    externalDbHealthy ← isExternalDatabaseReady memory;
    mret (if externalDbHealthy : bool
          then setPostgresStatus "external-healthy"
                 (setCondition now "PostgresReady" true "ExternalPostgresHealthy"
                    "External PostgreSQL is healthy" memory)
          else setPostgresStatus "external-unhealthy"
                 (setCondition now "PostgresReady" false "ExternalPostgresUnhealthy"
                    "External PostgreSQL is not reachable" memory))
  else mret memory.

Definition reconcileRunning (memory : MCPMemory) : K Result :=
  reconcileDeployment memory;;
  deployment ← try_ (Get env (B := DeploymentBody) (keyOf memory));
  match deployment with
  | Err _ => mret Done
  | Ok d =>
      let status := DeploymentStatus_ (Body d) in
      let memory := setReplicas (ReadyReplicas status) (StatusReplicas status) memory in
      let memory :=
        if ready d then setCondition now "Healthy" true "Healthy" "Memory server is healthy" memory
        else setCondition now "Healthy" false "Unhealthy" "Memory server has no ready replicas" memory in
      memory ← checkDatabase memory;
      updateStatus memory;;
      mret Done
  end.

Definition reconcileFailed (memory : MCPMemory) : K Result :=
  updateStatus (setPhase MCPMemoryPhaseCreating memory);; mret Done.

Definition reconcileTerminating (memory : MCPMemory) : K Result := mret Done.

Definition reconcilePhase (memory : MCPMemory) : K Result :=
  let phase := Phase (Status memory) in
  if decide (phase = MCPMemoryPhasePending) then reconcilePending memory
  else if decide (phase = MCPMemoryPhaseCreating) then reconcileCreating memory
  else if decide (phase = MCPMemoryPhaseStarting) then reconcileStarting memory
  else if decide (phase = MCPMemoryPhaseRunning) then reconcileRunning memory
  else if decide (phase = MCPMemoryPhaseFailed) then reconcileFailed memory
  else if decide (phase = MCPMemoryPhaseTerminating) then reconcileTerminating memory
  else mret Done.

Definition Reconcile (key : NN) : K Result :=
  found ← fetchInstance env key;
  match found with
  | None => mret Done
  | Some memory =>
      if decide (Phase (Status memory) = "") then
        memory ← updateStatus (setPhase MCPMemoryPhasePending memory);
        reconcilePhase memory
      else reconcilePhase memory
  end.
End controller.

(** ** What the phases mean *)

Section phases.
Context (ParseQuantity : string → option string) (Config : option ComposeConfig).
Implicit Types (memory : MCPMemory) (c : Cluster MCPMemorySpec MCPMemoryStatus).

(** The deployment of a key runs a specification. *)
Definition runs (c : Cluster MCPMemorySpec MCPMemoryStatus) (key : NN) (desired : Deployment) : Prop :=
  ∃ d, deployments c !! key = Some d ∧ DeploymentSpec_ (Body d) = DeploymentSpec_ (Body desired).

(** Everything that a memory server needs is there, as its specification says; services
    and the claim may be older. *)
Definition provisioned memory c : Prop :=
  runs c (keyOf memory) (deploymentOf ParseQuantity Config memory) ∧
  is_Some (services c !! keyOf memory) ∧
  (∃ s, secrets c !! key_of memory "-secret" = Some s ∧ Body s = Body (secretOf memory)) ∧
  (∃ m, configMaps c !! key_of memory "-config" = Some m ∧
     default "" (Data (Body m) !! "config.yaml") = generateMemoryConfig memory) ∧
  (PostgresEnabled (Spec memory) = true →
     is_Some (claims c !! key_of memory "-postgres-data") ∧
     is_Some (services c !! key_of memory "-postgres") ∧
     runs c (key_of memory "-postgres") (postgresDeploymentOf ParseQuantity memory)).

(** The deployments that exist already can be updated. *)
Definition admissible memory c : Prop :=
  (∀ d, deployments c !! keyOf memory = Some d →
     MatchLabels (DeploymentSpec_ (Body d)) = selectorLabels "memory" (name memory)) ∧
  (∀ d, deployments c !! key_of memory "-postgres" = Some d →
     MatchLabels (DeploymentSpec_ (Body d)) = selectorLabels "postgres" (name memory +:+ "-postgres")).

Lemma keyOf_ne memory s : s ≠ "" → keyOf memory ≠ key_of memory s.
Proof using.
  intros Hs He. injection He as He. apply (f_equal String.length) in He.
  rewrite slength_app in He. destruct s; [done|]. cbn in He. lia.
Qed.

Section steps.
Context (env : nat → Outcome) (now : Z).

(** A deployment that is reconciled runs what is desired. *)
Lemma deployment_target owner desired old v :
  v = resourceTarget owner desired (Some (alwaysUpdate, takeSpec)) old → is_Some v →
  ∃ d, v = Some d ∧ DeploymentSpec_ (Body d) = DeploymentSpec_ (Body desired) ∧
    (∀ d0, old = Some d0 → DeploymentStatus_ (Body d) = DeploymentStatus_ (Body d0)).
Proof using.
  intros -> [d Hd]. exists d. split; [done|]. destruct old as [found|]; cbn in Hd.
  - unfold admitted in Hd. cbn in Hd. case_decide; [|done]. cbn in Hd. simplify_eq. split; [done|].
    by intros d0 [= <-].
  - simplify_eq. by split.
Qed.

Lemma deployment_target_Some owner desired old :
  (∀ d, old = Some d →
     MatchLabels (DeploymentSpec_ (Body d)) = MatchLabels (DeploymentSpec_ (Body desired))) →
  is_Some (resourceTarget owner desired (Some (alwaysUpdate, takeSpec)) old).
Proof using.
  intros H. destruct old as [found|]; cbn; [|done]. unfold admitted. cbn.
  rewrite decide_True by (symmetry; by apply H). done.
Qed.

(** So does a secret that is reconciled hold what is desired. *)
Lemma secret_target owner desired old :
  ∃ s, resourceTarget owner desired (Some (alwaysUpdate, takeData)) old = Some s ∧ Body s = Body desired.
Proof using. destruct old as [found|]; eexists; by split. Qed.

Lemma configMap_target owner labels data key old :
  ∃ m, configMapTarget owner labels data key old = Some m ∧
    default "" (Data (Body m) !! key) = default "" (data !! key).
Proof using.
  unfold configMapTarget. destruct old as [found|]; [case_decide|]; eexists; by split.
Qed.

Lemma reconcilePostgresResources_spec memory c :
  wp (reconcilePostgresResources ParseQuantity env memory) c (λ r c',
    resources c' = resources c ∧
    deployments c' !! keyOf memory = deployments c !! keyOf memory ∧
    services c' !! keyOf memory = services c !! keyOf memory ∧
    secrets c' = secrets c ∧ configMaps c' = configMaps c ∧
    (is_ok r = true →
       is_Some (claims c' !! key_of memory "-postgres-data") ∧
       is_Some (services c' !! key_of memory "-postgres") ∧
       runs c' (key_of memory "-postgres") (postgresDeploymentOf ParseQuantity memory)) ∧
    ((∀ k, env k = Works) → admissible memory c → is_ok r = true)).
Proof using.
  pose proof (keyOf_ne memory "-postgres" ltac:(done)) as Hne.
  unfold reconcilePostgresResources, reconcilePostgresPVC, reconcilePostgresService,
    reconcilePostgresDeployment.
  apply wp_bind. wp_reconcile.
  { intros e v n Hv Hlive. repeat split; try done. intros Hw _. destruct Hlive. split; [done|]. apply resourceTarget_create. }
  intros [] n1 Hv1.
  apply wp_bind. wp_reconcile.
  { intros e v n Hv Hlive. repeat split; try done; [kube_simpl; by rewrite lookup_partial_alter_ne|].
    intros Hw _. destruct Hlive. split; [done|]. apply resourceTarget_create. }
  intros [] n2 Hv2.
  wp_reconcile.
  { intros e v n Hv Hlive. repeat split; try done; kube_simpl; [by rewrite lookup_partial_alter_ne..|].
    intros Hw [_ Hadm]. destruct Hlive. split; [done|]. by apply deployment_target_Some. }
  intros [] n3 Hv3. kube_simpl.
  repeat split; try done; rewrite ?lookup_partial_alter_ne by done; try done.
  - by rewrite lookup_partial_alter, decide_True by done.
  - by rewrite lookup_partial_alter, decide_True by done.
  - destruct (deployment_target _ _ _ _ eq_refl Hv3) as (d & Hd & Hspec & _). exists d. kube_simpl.
    by rewrite lookup_partial_alter, decide_True by done.
Qed.

(** The resource after a reconcile: as it was, or with another status. *)
Definition kept memory (P : MCPMemory → Prop) c' : Prop :=
  ∃ memory', resources c' !! keyOf memory = Some memory' ∧
    Metadata memory' = Metadata memory ∧ Spec memory' = Spec memory ∧ P memory'.

Lemma kept_same memory (P : MCPMemory → Prop) c :
  resources c !! keyOf memory = Some memory → P memory → kept memory P c.
Proof using. intros Hr HP. by exists memory. Qed.

(** A change of the status in the last call of a step. *)
Lemma wp_updateStatus memory memory' c
    (Q : res KubeError MCPMemory → Cluster MCPMemorySpec MCPMemoryStatus → Prop) :
  resources c !! keyOf memory = Some memory →
  Metadata memory' = Metadata memory → Spec memory' = Spec memory →
  (∀ e c', env (calls c) ≠ Works → c' = at_calls (S (calls c)) c →
     Q (Err e) c') →
  (∀ r c', c' = at_calls (S (calls c)) (with_resource (keyOf memory) (Some memory') c) →
     (∀ e, r = Err e → env (calls c) ≠ Works) → (∀ m, r = Ok m → m = memory') → Q r c') →
  wp (updateStatus env memory') c Q.
Proof using.
  intros Hr Hm Hs H1 H2. unfold updateStatus.
  assert (keyOf memory' = keyOf memory) as -> by (unfold keyOf, name; by rewrite Hm).
  by apply (wp_changeStatus _ _ memory).
Qed.

(** The last call of a step: the status may not be written; nothing else changes. *)
Lemma end_of_step memory memory' c (answer : Result) :
  resources c !! keyOf memory = Some memory →
  Metadata memory' = Metadata memory → Spec memory' = Spec memory →
  wp (updateStatus env memory';; mret answer) c (λ r c',
    kept memory (λ m, m = memory ∨ m = memory') c' ∧
    (∃ l n, c' = setResources l (at_calls n c)) ∧
    ((∀ k, env k = Works) → r = Ok answer ∧ kept memory (λ m, m = memory') c')).
Proof using.
  intros Hr Hm Hs. apply wp_bind, wp_updateStatus with (memory := memory); [done..| |].
  { intros e c' He ->. split; [by apply kept_same; auto|]. split; [|naive_solver].
    by exists (resources c), (S (calls c)). }
  intros r c' Hc He _.
  assert (resources c' !! keyOf memory = Some memory') as Hr'.
  { rewrite Hc. kube_simpl. by rewrite lookup_partial_alter, decide_True. }
  assert (∃ l n, c' = setResources l (at_calls n c)) as Hl by (rewrite Hc; by eexists _, _).
  destruct r as [a|e]; [apply wp_ret|]; (split; [exists memory'; auto|]; split; [done|]); intros Hw.
  - split; [done|]. by exists memory'.
  - by destruct (He e eq_refl).
Qed.

Lemma reconcileCreating_spec memory c :
  resources c !! keyOf memory = Some memory →
  wp (reconcileCreating ParseQuantity Config env memory) c (λ r c',
    kept memory (λ m, m = memory ∨
      m = setPhase MCPMemoryPhaseStarting memory ∧ provisioned memory c') c' ∧
    ((∀ k, env k = Works) → admissible memory c →
       r = Ok Done ∧ kept memory (λ m, m = setPhase MCPMemoryPhaseStarting memory) c')).
Proof using.
  intros Hr. unfold reconcileCreating.
  apply wp_bind. eapply wp_mono with (Q := λ r c',
    resources c' = resources c ∧
    deployments c' !! keyOf memory = deployments c !! keyOf memory ∧
    (is_ok r = true → PostgresEnabled (Spec memory) = true →
       is_Some (claims c' !! key_of memory "-postgres-data") ∧
       is_Some (services c' !! key_of memory "-postgres") ∧
       runs c' (key_of memory "-postgres") (postgresDeploymentOf ParseQuantity memory)) ∧
    ((∀ k, env k = Works) → admissible memory c → is_ok r = true)).
  { destruct (PostgresEnabled (Spec memory)); [|by apply wp_ret].
    eapply wp_mono; [apply reconcilePostgresResources_spec|]. naive_solver. }
  intros r c1 (Hr1 & Hd1 & Hpg & Hlive1).
  rewrite <-Hr1 in Hr.
  destruct r as [[]|e]; [|split; [apply kept_same; auto|intros Hw Ha; by specialize (Hlive1 Hw Ha)]].
  unfold reconcileSecret, reconcileConfigMap, reconcileService, reconcileDeployment.
  apply wp_bind. wp_reconcile.
  { intros e v n Hv Hlive. split; [apply kept_same; auto|]. intros Hw Ha. destruct Hlive. split; [done|].
    edestruct secret_target as (s & -> & _); eauto. }
  intros [] n2 Hv2.
  apply wp_bind. wp_reconcile.
  { intros e v n Hv Hlive. split; [apply kept_same; auto|]. intros Hw Ha. by destruct Hlive. }
  intros [] n3 Hv3.
  apply wp_bind. wp_reconcile.
  { intros e v n Hv Hlive. split; [apply kept_same; auto|]. intros Hw Ha. destruct Hlive. split; [done|].
    apply resourceTarget_create. }
  intros [] n4 Hv4.
  apply wp_bind. wp_reconcile.
  { intros e v n Hv Hlive. split; [apply kept_same; auto|]. intros Hw [Ha _]. destruct Hlive. split; [done|].
    apply deployment_target_Some. kube_simpl. rewrite Hd1. apply Ha. }
  intros [] n5 Hv5. kube_simpl.
  eapply wp_mono; [apply (end_of_step memory); [exact Hr|done|done]|].
  intros r c' (Hk & (l & n & ->) & Hl). split; [|auto]. destruct Hk as (m & Hm & Hmeta & Hspec & Hm'); exists m; do 3 (split; [done|]).
  destruct Hm' as [->| ->]; [by left|]. right. split; [done|]. 
  destruct (deployment_target _ _ _ _ eq_refl Hv5) as (d & Hd & Hds & _).
  split; [|split; [|split; [|split]]]; kube_simpl.
  - exists d. kube_simpl. by rewrite lookup_partial_alter, decide_True by done.
  - rewrite lookup_partial_alter, decide_True by done. apply resourceTarget_create.
  - rewrite lookup_partial_alter, decide_True by done. apply secret_target.
  - rewrite lookup_partial_alter, decide_True by done.
    edestruct configMap_target as (m' & Hm1 & Hm2). exists m'. by split; [exact Hm1|].
  - intros Hpe. destruct (Hpg eq_refl Hpe) as (H1 & H2 & d' & H3 & H4).
    pose proof (keyOf_ne memory "-postgres" ltac:(done)) as Hne.
    rewrite lookup_partial_alter_ne by done. split; [done|]. split; [done|]. exists d'. kube_simpl.
    by rewrite lookup_partial_alter_ne.
Qed.

Definition is_ready c (key : NN) : Prop := ∃ d, deployments c !! key = Some d ∧ ready d = true.

(** The server and its database answer. *)
Definition healthy memory c : Prop :=
  is_ready c (keyOf memory) ∧ (PostgresEnabled (Spec memory) = true → is_ready c (key_of memory "-postgres")).

Definition phase memory : string := Phase (Status memory).

Lemma kept_mono memory (P P' : MCPMemory → Prop) c : kept memory P c → (∀ m, P m → P' m) → kept memory P' c.
Proof using. intros (m & ? & ? & ? & ?) HP. exists m. auto. Qed.

Lemma startingDeployment_spec memory memory1 c :
  resources c !! keyOf memory = Some memory →
  Metadata memory1 = Metadata memory → Spec memory1 = Spec memory →
  wp (startingDeployment env now memory1) c (λ r c',
    kept memory (λ m, phase m = phase memory ∨ phase m = MCPMemoryPhaseCreating ∨
      phase m = MCPMemoryPhaseRunning ∧ is_ready c (keyOf memory)) c' ∧
    deployments c' = deployments c ∧
    ((∀ k, env k = Works) → is_ready c (keyOf memory) →
       r = Ok Done ∧ kept memory (λ m, phase m = MCPMemoryPhaseRunning) c')).
Proof using.
  intros Hr Hm Hs. unfold startingDeployment.
  assert (keyOf memory1 = keyOf memory) as -> by (unfold keyOf, name; by rewrite Hm).
  apply wp_bind, (wp_try_Get _ (B := DeploymentBody)).
  - intros Hn. eapply wp_mono; [by apply (end_of_step memory)|]. kube_simpl. intros r c' (Hk & (l & n & ->) & Hl).
    split; [eapply kept_mono; [done|]; intros m [-> | ->]; auto|]. split; [done|]. intros _ (d & Hd & _).
    kube_simpl. by simplify_eq.
  - intros e He Hw. destruct e; [done| |]; apply wp_ret;
      (split; [apply kept_same; auto|]; split; [done|]; intros Hw'; by destruct Hw).
  - intros d Hd. kube_simpl. destruct (ready d) eqn:Hready.
    + eapply wp_mono; [by apply (end_of_step memory)|]. intros r c' (Hk & (l & n & ->) & Hl).
      assert (is_ready c (keyOf memory)) by (by exists d).
      split; [eapply kept_mono; [done|]; intros m [-> | ->]; auto|]. split; [done|]. intros Hw _.
      destruct (Hl Hw) as [-> Hk']. split; [done|]. eapply kept_mono; [done|]. by intros m ->.
    + apply wp_ret. split; [apply kept_same; auto|]. split; [done|]. intros _ (d' & Hd' & Hr'). simplify_eq.
      by rewrite Hready in Hr'.
Qed.

Lemma reconcileStarting_spec memory c :
  resources c !! keyOf memory = Some memory →
  wp (reconcileStarting env now memory) c (λ r c',
    kept memory (λ m, phase m = phase memory ∨ phase m = MCPMemoryPhaseCreating ∨
      phase m = MCPMemoryPhaseRunning ∧ healthy memory c') c' ∧
    ((∀ k, env k = Works) → healthy memory c →
       r = Ok Done ∧ kept memory (λ m, phase m = MCPMemoryPhaseRunning) c')).
Proof using.
  intros Hr. unfold reconcileStarting. destruct (PostgresEnabled (Spec memory)) eqn:Hpe.
  - apply wp_bind, wp_try. unfold isPostgresReady. apply wp_bind, (wp_Get _ (B := DeploymentBody)).
    + intros e He. apply wp_ret. split; [apply kept_same; auto|]. intros Hw (_ & d & Hd & _); [done|].
      kube_simpl. destruct e; [by simplify_eq|by destruct He..].
    + intros d Hd. apply wp_ret. kube_simpl. destruct (ready d) eqn:Hready.
      * eapply wp_mono; [by apply (startingDeployment_spec memory)|].
        intros r c' (Hk & Hd' & Hl). kube_simpl.
        split.
        -- eapply kept_mono; [done|]. intros m [?|[?|[? Hd1]]]; auto. right; right. split; [done|].
           unfold healthy, is_ready in *. rewrite Hd'. eauto.
        -- intros Hw [Hd1 _]. by apply Hl.
      * eapply wp_mono; [by apply (end_of_step memory)|]. intros r c' (Hk & (l & n & ->) & Hl). kube_simpl.
        split; [eapply kept_mono; [done|]; intros m [-> | ->]; auto|].
        intros Hw (_ & d' & Hd' & Hr'); [done|]. simplify_eq. by rewrite Hready in Hr'.
  - eapply wp_mono; [by apply (startingDeployment_spec memory)|]. intros r c' (Hk & Hd & Hl).
    split; [|intros Hw [Hh _]; by apply Hl].
    eapply kept_mono; [done|]. intros m [?|[?|[? Hd1]]]; auto. right; right. split; [done|]. split.
    + unfold is_ready. by rewrite Hd.
    + intros Hpe'. by rewrite Hpe' in Hpe.
Qed.

(** A resource with another status. *)
Definition restated memory memory' : Prop :=
  Metadata memory' = Metadata memory ∧ Spec memory' = Spec memory ∧ phase memory' = phase memory.

Lemma restated_key memory memory' : restated memory memory' → keyOf memory' = keyOf memory.
Proof using. intros (Hm & _). unfold keyOf, name. by rewrite Hm. Qed.

Lemma checkDatabase_spec memory memory1 c :
  restated memory memory1 →
  wp (checkDatabase env now memory1) c (λ r c', ∃ m n, r = Ok m ∧ c' = at_calls n c ∧ restated memory m).
Proof using.
  intros Hm. unfold checkDatabase. destruct (PostgresEnabled _).
  - apply wp_bind, wp_try. unfold isPostgresReady. apply wp_bind, (wp_Get _ (B := DeploymentBody)).
    + intros e _. by eexists _, _.
    + intros d _. apply wp_ret, wp_ret. destruct (ready d); by eexists _, _.
  - case_decide; [|by exists memory1, (calls c); rewrite at_calls_calls ].
    apply wp_bind. unfold isExternalDatabaseReady. apply wp_bind, (wp_try_Get _ (B := DeploymentBody)).
    + intros _. apply wp_ret, wp_ret. by eexists _, _.
    + intros e _ _. apply wp_ret, wp_ret. by eexists _, _.
    + intros d _. apply wp_ret, wp_ret. destruct (ready d); by eexists _, _.
Qed.

Lemma reconcileRunning_spec memory c :
  resources c !! keyOf memory = Some memory →
  wp (reconcileRunning ParseQuantity Config env now memory) c (λ r c',
    kept memory (λ m, phase m = phase memory) c' ∧
    services c' = services c ∧ secrets c' = secrets c ∧ configMaps c' = configMaps c ∧ claims c' = claims c ∧
    ((∀ k, env k = Works) → admissible memory c →
       r = Ok Done ∧ runs c' (keyOf memory) (deploymentOf ParseQuantity Config memory))).
Proof using.
  intros Hr. unfold reconcileRunning, reconcileDeployment. apply wp_bind. wp_reconcile.
  { intros e v n Hv Hlive. split; [apply kept_same; auto|]. do 4 (split; [done|]).
    intros Hw [Ha _]. destruct Hlive. split; [done|]. by apply deployment_target_Some. }
  intros [] n1 Hv. destruct (deployment_target _ _ _ _ eq_refl Hv) as (d1 & Hd1 & Hds & _).
  set (c1 := at_calls n1 _).
  assert (deployments c1 !! keyOf memory = Some d1) as Hc1.
  { subst c1. kube_simpl. by rewrite lookup_partial_alter, decide_True. }
  apply wp_bind, (wp_try_Get _ (B := DeploymentBody)).
  - intros Hn. kube_simpl. by rewrite Hn in Hc1.
  - intros e He Hne. destruct e; [done| |]; apply wp_ret; (split; [apply kept_same; auto|]; do 4 (split; [done|]);
      intros Hw; by destruct Hne).
  - intros d Hd.
    assert (runs c1 (keyOf memory) (deploymentOf ParseQuantity Config memory)) as Hruns.
    { by exists d1. }
    apply wp_bind. eapply wp_mono; [apply (checkDatabase_spec memory)|].
    { by destruct (ready d). }
    intros r c2 (m & n & -> & -> & Hm & Hs & Hp).
    eapply wp_mono; [by apply (end_of_step memory)|]. intros r c' (Hk & (l & n' & ->) & Hl). kube_simpl.
    split; [eapply kept_mono; [done|]; intros m' [-> | ->]; [done|apply Hp]|]. do 4 (split; [done|]).
    intros Hw _. split; [by apply Hl|done].
Qed.

(** ** The state machine *)

Inductive phase_edge : string → string → Prop :=
  | edge_same p : phase_edge p p
  | edge_new : phase_edge "" MCPMemoryPhasePending
  | edge_new_creating : phase_edge "" MCPMemoryPhaseCreating
  | edge_pending : phase_edge MCPMemoryPhasePending MCPMemoryPhaseCreating
  | edge_created : phase_edge MCPMemoryPhaseCreating MCPMemoryPhaseStarting
  | edge_gone : phase_edge MCPMemoryPhaseStarting MCPMemoryPhaseCreating
  | edge_started : phase_edge MCPMemoryPhaseStarting MCPMemoryPhaseRunning
  | edge_failed : phase_edge MCPMemoryPhaseFailed MCPMemoryPhaseCreating.

#[local] Hint Constructors phase_edge : core.

(** What a reconcile may make of the phase. *)
Definition sound_phase memory c' (m : MCPMemory) : Prop :=
  phase_edge (phase memory) (phase m) ∧
  (phase m = MCPMemoryPhaseStarting → phase memory ≠ MCPMemoryPhaseStarting → provisioned memory c') ∧
  (phase m = MCPMemoryPhaseRunning → phase memory ≠ MCPMemoryPhaseRunning → healthy memory c').

Lemma sound_same memory c' m : phase m = phase memory → sound_phase memory c' m.
Proof using. intros Hp. unfold sound_phase. rewrite Hp. naive_solver. Qed.

Lemma sound_creating memory c' m :
  phase_edge (phase memory) MCPMemoryPhaseCreating → phase m = MCPMemoryPhaseCreating →
  sound_phase memory c' m.
Proof using. intros He Hp. unfold sound_phase. rewrite Hp. split; [done|]. by split. Qed.

Lemma reconcilePhase_sound memory c :
  resources c !! keyOf memory = Some memory →
  wp (reconcilePhase ParseQuantity Config env now memory) c (λ r c', kept memory (sound_phase memory c') c').
Proof using.
  intros Hr. unfold reconcilePhase. fold (phase memory).
  destruct (decide _) as [Hp|_].
  { eapply wp_mono; [by apply (end_of_step memory)|]. intros r c' (Hk & _). eapply kept_mono; [done|].
    intros m [-> | ->]; [by apply sound_same|]. apply sound_creating; [rewrite Hp; auto|done]. }
  destruct (decide _) as [Hp|_].
  { eapply wp_mono; [by apply reconcileCreating_spec|]. intros r c' (Hk & _). eapply kept_mono; [done|].
    intros m [-> | [-> Hprov]]; [by apply sound_same|]. split; [rewrite Hp; apply edge_created|]. by split. }
  destruct (decide _) as [Hp|_].
  { eapply wp_mono; [by apply reconcileStarting_spec|]. intros r c' (Hk & _). eapply kept_mono; [done|].
    intros m [Hm|[Hm|[Hm Hh]]]; [by apply sound_same|apply sound_creating; [rewrite Hp; auto|done]|].
    unfold sound_phase. rewrite Hm, Hp. split; [auto|]. by split. }
  destruct (decide _) as [Hp|_].
  { eapply wp_mono; [by apply reconcileRunning_spec|]. intros r c' (Hk & _). eapply kept_mono; [done|].
    intros m Hm. by apply sound_same. }
  destruct (decide _) as [Hp|_].
  { eapply wp_mono; [by apply (end_of_step memory)|]. intros r c' (Hk & _). eapply kept_mono; [done|].
    intros m [-> | ->]; [by apply sound_same|]. apply sound_creating; [rewrite Hp; auto|done]. }
  destruct (decide _); apply wp_ret, kept_same; auto; by apply sound_same.
Qed.

(** A new resource is pending when its first step runs. *)
Lemma reconcile_new memory memory1 c m :
  phase memory = "" → phase memory1 = MCPMemoryPhasePending →
  sound_phase memory1 c m → sound_phase memory c m.
Proof using.
  intros Hp Hp1 (He & Hst & Hrun). unfold sound_phase. rewrite Hp, Hp1 in *.
  inversion He as [p Heq| | | | | | |]; subst;
    try match goal with H : _ = phase m |- _ => rewrite <-H end; split; auto;
    split; intros Hbad; discriminate Hbad.
Qed.

Lemma Reconcile_sound memory c :
  resources c !! keyOf memory = Some memory →
  wp (Reconcile ParseQuantity Config env now (keyOf memory)) c (λ r c', kept memory (sound_phase memory c') c').
Proof using.
  intros Hr. unfold Reconcile. apply wp_bind, wp_fetchInstance.
  { intros e _. apply kept_same; [done|by apply sound_same]. }
  rewrite Hr. cbn iota. fold (phase memory). destruct (decide _) as [Hp|_]; [|by apply reconcilePhase_sound].
  set (memory1 := setPhase MCPMemoryPhasePending memory).
  apply wp_bind, wp_updateStatus with (memory := memory); [done..| |].
  { intros e c' _ ->. apply kept_same; [done|by apply sound_same]. }
  intros r c' Hc' _ Hok.
  assert (resources c' !! keyOf memory = Some memory1) as Hr'.
  { rewrite Hc'. kube_simpl. by rewrite lookup_partial_alter, decide_True. }
  assert (sound_phase memory c' memory1) as Hs1.
  { split; [rewrite Hp; auto|]. split; intros Hbad; discriminate Hbad. }
  destruct r as [m|e]; [|by exists memory1]. rewrite (Hok m eq_refl). clear Hok.
  eapply wp_mono; [by apply (reconcilePhase_sound memory1)|].
  intros r c'' (m' & Hm1 & Hm2 & Hm3 & Hs). exists m'. do 3 (split; [done|]).
  by apply (reconcile_new memory memory1).
Qed.

(** With every call answered a reconcile makes progress. *)
Lemma Reconcile_creates memory c :
  resources c !! keyOf memory = Some memory → (∀ k, env k = Works) →
  phase memory ∈ [""; MCPMemoryPhasePending; MCPMemoryPhaseFailed] →
  wp (Reconcile ParseQuantity Config env now (keyOf memory)) c (λ r c',
    deployments c' = deployments c ∧ is_ok r = true ∧
    kept memory (λ m, m = setPhase MCPMemoryPhaseCreating memory) c').
Proof using.
  intros Hr Hw Hp. unfold Reconcile. apply wp_bind, wp_fetchInstance.
  { intros e He. by destruct He. }
  rewrite Hr. cbn iota. fold (phase memory).
  rewrite !elem_of_cons, elem_of_nil in Hp.
  assert (∀ memory1 c1 a, resources c1 !! keyOf memory = Some memory1 → deployments c1 = deployments c →
    setPhase MCPMemoryPhaseCreating memory1 = setPhase MCPMemoryPhaseCreating memory →
    Metadata memory1 = Metadata memory → Spec memory1 = Spec memory →
    wp (updateStatus env (setPhase MCPMemoryPhaseCreating memory1);; mret a) c1 (λ (r : res KubeError Result) c',
      deployments c' = deployments c ∧ is_ok r = true ∧
      kept memory (λ m, m = setPhase MCPMemoryPhaseCreating memory) c')) as Hend.
  { intros memory1 c1 a Hr1 Hd1 Heq Hm1 Hs1.
    assert (keyOf memory1 = keyOf memory) as Hkey by (unfold keyOf, name; by rewrite Hm1).
    rewrite <-Hkey in Hr1. eapply wp_mono; [by apply (end_of_step memory1)|]. intros r c' (_ & (l & n & ->) & Hl).
    destruct (Hl Hw) as [-> (m & Hm & Hmm & Hms & ->)]. do 2 (split; [done|]). rewrite Hkey in Hm.
    exists (setPhase MCPMemoryPhaseCreating memory1). split; [done|]. by rewrite Heq. }
  destruct (decide _) as [Hnew|Hnew].
  - apply wp_bind, wp_updateStatus with (memory := memory); [done..| |].
    { intros e c' He. by destruct He. }
    intros r c' Hc' He Hok. destruct r as [m|e]; [|by destruct (He e eq_refl)]. rewrite (Hok m eq_refl).
    apply Hend; rewrite ?Hc'; try done. kube_simpl. by rewrite lookup_partial_alter, decide_True.
  - unfold reconcilePhase. fold (phase memory). destruct (decide _) as [_|Hp1]; [by apply Hend|].
    destruct Hp as [?|[?|[Hp|[]]]]; [done..|]. rewrite Hp. cbn. by apply Hend.
Qed.

Lemma Reconcile_Creating memory c :
  resources c !! keyOf memory = Some memory → (∀ k, env k = Works) → admissible memory c →
  phase memory = MCPMemoryPhaseCreating →
  wp (Reconcile ParseQuantity Config env now (keyOf memory)) c (λ r c',
    kept memory (λ m, phase m = MCPMemoryPhaseStarting ∧ provisioned memory c') c').
Proof using.
  intros Hr Hw Ha Hp. unfold Reconcile. apply wp_bind, wp_fetchInstance.
  { intros e He. by destruct He. }
  rewrite Hr. cbn iota. fold (phase memory). rewrite decide_False by (by rewrite Hp).
  unfold reconcilePhase. fold (phase memory). rewrite decide_False by (by rewrite Hp). rewrite decide_True by done.
  eapply wp_mono; [by apply reconcileCreating_spec|].
  intros r c' ((m & Hm & Hmm & Hms & Hor) & Hl).
  destruct (Hl Hw Ha) as [_ (m' & Hm' & _ & _ & Heq)]. rewrite Hm in Hm'. injection Hm' as <-.
  exists m. do 3 (split; [done|]). destruct Hor as [-> | [-> Hprov]]; [|done].
  rewrite Heq in Hp. by apply (f_equal phase) in Heq.
Qed.

Lemma Reconcile_Starting memory c :
  resources c !! keyOf memory = Some memory → (∀ k, env k = Works) →
  phase memory = MCPMemoryPhaseStarting → healthy memory c →
  wp (Reconcile ParseQuantity Config env now (keyOf memory)) c (λ r c',
    kept memory (λ m, phase m = MCPMemoryPhaseRunning) c').
Proof using.
  intros Hr Hw Hp Hh. unfold Reconcile. apply wp_bind, wp_fetchInstance.
  { intros e He. by destruct He. }
  rewrite Hr. cbn iota. fold (phase memory). rewrite decide_False by (by rewrite Hp).
  unfold reconcilePhase. fold (phase memory). do 2 rewrite decide_False by (by rewrite Hp).
  rewrite decide_True by done.
  eapply wp_mono; [by apply reconcileStarting_spec|]. intros r c' [_ Hl]. by apply Hl.
Qed.

(** Some reconciles of a resource. *)
Definition reconciles_of (key : NN) (n : nat) (c : Cluster MCPMemorySpec MCPMemoryStatus) :
    Cluster MCPMemorySpec MCPMemoryStatus :=
  Nat.iter n (λ c, (Reconcile ParseQuantity Config env now key c).2) c.

(** C20: whatever the calls of a reconcile come to, the resource keeps its specification,
    its phase moves along the edges of the state machine (so never to Failed or
    Terminating), it comes to Starting only when everything that the server needs is there
    as specified, and to Running only when the server, and its PostgreSQL if it has one,
    has a ready replica. *)
Theorem memory_phases_safe memory c :
  resources c !! keyOf memory = Some memory →
  let c' := (Reconcile ParseQuantity Config env now (keyOf memory) c).2 in
  ∃ memory', resources c' !! keyOf memory = Some memory' ∧
    Metadata memory' = Metadata memory ∧ Spec memory' = Spec memory ∧
    phase_edge (phase memory) (phase memory') ∧
    (phase memory' = MCPMemoryPhaseStarting → phase memory ≠ MCPMemoryPhaseStarting →
       provisioned memory c') ∧
    (phase memory' = MCPMemoryPhaseRunning → phase memory ≠ MCPMemoryPhaseRunning →
       healthy memory c').
Proof using. intros Hr. apply (Reconcile_sound memory c Hr). Qed.

(** A resource in Starting with everything provisioned, that one reconcile sets Running
    once its deployments are ready. *)
Definition starts memory c : Prop :=
  ∃ memory', resources c !! keyOf memory = Some memory' ∧ phase memory' = MCPMemoryPhaseStarting ∧
    provisioned memory c ∧
    ∀ c', resources c' !! keyOf memory = Some memory' → healthy memory c' →
      ∃ memory'', resources (reconciles_of (keyOf memory) 1 c') !! keyOf memory = Some memory'' ∧
        phase memory'' = MCPMemoryPhaseRunning.

Lemma Creating_starts memory memory1 c :
  Metadata memory1 = Metadata memory → Spec memory1 = Spec memory →
  resources c !! keyOf memory = Some memory1 → (∀ k, env k = Works) → admissible memory c →
  phase memory1 = MCPMemoryPhaseCreating → starts memory (reconciles_of (keyOf memory) 1 c).
Proof using.
  intros Hm1 Hs1 Hr Hw Ha Hp.
  destruct memory as [md sp st], memory1 as [md1 sp1 st1]. cbn in Hm1, Hs1. subst md1 sp1.
  set (memory1 := {| Metadata := md; Spec := sp; Status := st1 |}).
  destruct (Reconcile_Creating memory1 c Hr Hw Ha Hp) as (m & Hm & Hmm & Hms & Hph & Hprov).
  exists m. do 3 (split; [done|]). intros c' Hc' Hh. destruct m as [md1 sp1 st2]. cbn in Hmm, Hms. subst md1 sp1.
  destruct (Reconcile_Starting {| Metadata := md; Spec := sp; Status := st2 |} c' Hc' Hw Hph Hh)
    as (m' & Hm' & _ & _ & Hrun). by exists m'.
Qed.

(** When its calls work, and the deployments that exist already have the selectors of
    the controller, the controller brings a resource that is new, pending, half created or
    failed to Starting in one or two reconciles, with everything provisioned; and
    once the deployments are ready the next reconcile sets it Running. *)
Theorem memory_starts memory c :
  resources c !! keyOf memory = Some memory → (∀ k, env k = Works) → admissible memory c →
  phase memory ∈ [""; MCPMemoryPhasePending; MCPMemoryPhaseCreating; MCPMemoryPhaseFailed] →
  starts memory (reconciles_of (keyOf memory)
    (if decide (phase memory = MCPMemoryPhaseCreating) then 1 else 2)%nat c).
Proof using.
  intros Hr Hw Ha Hp. case_decide as Hc; [by apply Creating_starts with (memory1 := memory)|].
  assert (phase memory ∈ [""; MCPMemoryPhasePending; MCPMemoryPhaseFailed]) as Hp' by set_solver.
  destruct (Reconcile_creates memory c Hr Hw Hp') as (Hd & _ & m & Hm & Hmm & Hms & ->).
  change (reconciles_of (keyOf memory) 2 c)
    with (reconciles_of (keyOf memory) 1 (reconciles_of (keyOf memory) 1 c)).
  apply Creating_starts with (memory1 := setPhase MCPMemoryPhaseCreating memory); try done.
  unfold admissible. change (reconciles_of (keyOf memory) 1 c)
    with ((Reconcile ParseQuantity Config env now (keyOf memory) c).2). by rewrite Hd.
Qed.

(** In phase Running a reconcile brings the deployment of the server back to the
    specification; the services, secrets, configurations and claims stay as they are. *)
Lemma memory_running memory c :
  resources c !! keyOf memory = Some memory → phase memory = MCPMemoryPhaseRunning →
  let '(r, c') := Reconcile ParseQuantity Config env now (keyOf memory) c in
  services c' = services c ∧ secrets c' = secrets c ∧ configMaps c' = configMaps c ∧ claims c' = claims c ∧
  ((∀ k, env k = Works) → admissible memory c →
     r = Ok Done ∧ runs c' (keyOf memory) (deploymentOf ParseQuantity Config memory)).
Proof using.
  intros Hr Hp. cut (wp (Reconcile ParseQuantity Config env now (keyOf memory)) c (λ r c',
    services c' = services c ∧ secrets c' = secrets c ∧ configMaps c' = configMaps c ∧ claims c' = claims c ∧
    ((∀ k, env k = Works) → admissible memory c →
     r = Ok Done ∧ runs c' (keyOf memory) (deploymentOf ParseQuantity Config memory)))).
  { unfold wp. by destruct (Reconcile _ _ _ _ _ _). }
  unfold Reconcile. apply wp_bind, wp_fetchInstance.
  { intros e He. do 4 (split; [done|]). intros Hw. by destruct He. }
  rewrite Hr. cbn iota. fold (phase memory). rewrite decide_False by (by rewrite Hp).
  unfold reconcilePhase. fold (phase memory). do 3 rewrite decide_False by (by rewrite Hp).
  rewrite decide_True by done.
  eapply wp_mono; [by apply reconcileRunning_spec|]. intros r c' (_ & ?). done.
Qed.

(** A resource that waits for a PostgreSQL deployment which is gone: no reconcile creates
    it again, asks for another reconcile or reports an error of its own. *)
Lemma Starting_without_postgres memory c :
  resources c !! keyOf memory = Some memory → phase memory = MCPMemoryPhaseStarting →
  PostgresEnabled (Spec memory) = true → deployments c !! key_of memory "-postgres" = None →
  (∀ k, env k = Works) →
  ∃ n, Reconcile ParseQuantity Config env now (keyOf memory) c = (Ok Done, at_calls n c).
Proof using.
  intros Hr Hp Hpe Hd Hw. cut (wp (Reconcile ParseQuantity Config env now (keyOf memory)) c (λ r c',
    ∃ n, r = Ok Done ∧ c' = at_calls n c)).
  { unfold wp. destruct (Reconcile _ _ _ _ _ _) as [r c']. cbn. intros (n & -> & ->). by exists n. }
  unfold Reconcile. apply wp_bind, wp_fetchInstance.
  { intros e He. by destruct He. }
  rewrite Hr. cbn iota. fold (phase memory). rewrite decide_False by (by rewrite Hp).
  unfold reconcilePhase. fold (phase memory). do 2 rewrite decide_False by (by rewrite Hp).
  rewrite decide_True by done. unfold reconcileStarting. rewrite Hpe.
  apply wp_bind, wp_try. unfold isPostgresReady. apply wp_bind, (wp_Get _ (B := DeploymentBody)).
  - intros e _. apply wp_ret. by eexists.
  - intros d Hd'. kube_simpl. by rewrite Hd in Hd'.
Qed.
End steps.
End phases.

(** ** Examples *)

Definition example_spec : MCPMemorySpec := {|
  SpecPort := 3001; SpecHost := "0.0.0.0"; PostgresEnabled := true; PostgresPort := 5432;
  PostgresDB := "memory_graph"; PostgresUser := "postgres"; PostgresPassword := "p@ss/word"; DatabaseURL := "";
  CPUs := "1"; Memory := "1Gi"; PostgresCPUs := ""; PostgresMemory := ""; SpecReplicas := None;
  SpecNodeSelector := ∅; SpecServiceType := ""; ServiceAnnotations := ∅; ServiceAccount := "";
  SpecImagePullSecrets := []; SpecPodAnnotations := ∅ |}.

Definition example_memory (phase : string) : MCPMemory := {|
  Metadata := {| Name := "memory"; Namespace := "default"; UID := "u1"; Generation := 1; Finalizers := [];
                 DeletionTimestamp := None |};
  Spec := example_spec;
  Status := {| Phase := phase; Conditions := []; PostgresStatus := ""; MemReplicas := 0; MemReadyReplicas := 0 |} |}.

Definition example_cluster (phase : string) : Cluster MCPMemorySpec MCPMemoryStatus := {|
  deployments := ∅; services := ∅; secrets := ∅; configMaps := ∅; claims := ∅;
  resources := {[ ("default", "memory") := example_memory phase ]}; calls := 0 |}.

Lemma memory_phases_safe_witness :
  ∃ memory', phase_edge "Creating" (phase memory') ∧
    (phase memory' = "Starting" → provisioned Some None memory'
       (Reconcile Some None (λ _, Works) 7 ("default", "memory") (example_cluster "Creating")).2).
Proof.
  destruct (memory_phases_safe Some None (λ _, Works) 7 (example_memory "Creating") (example_cluster "Creating"))
    as (m & _ & Hm & Hs & He & Hp & _); [reflexivity|].
  exists m. split; [exact He|]. intros Hph. destruct m as [md sp st]. cbn in Hm, Hs. subst md sp.
  apply Hp; [exact Hph|done].
Defined.

Lemma memory_starts_witness :
  starts Some None (λ _, Works) 7 (example_memory "")
    (reconciles_of Some None (λ _, Works) 7 ("default", "memory") 2 (example_cluster "")).
Proof.
  apply (memory_starts Some None (λ _, Works) 7 (example_memory "") (example_cluster "")).
  - reflexivity.
  - intros k. reflexivity.
  - split; intros d Hd; discriminate Hd.
  - apply (bool_decide_eq_true_1 _). vm_compute. reflexivity.
Defined.

(** The user and the password go into the URL of the database unescaped. *)
Example password_in_url :
  databaseURL (example_memory "") =
  "postgresql://postgres:p@ss/word@memory-postgres:5432/memory_graph?sslmode=disable".
Proof. vm_compute. reflexivity. Qed.

(** A failure to read the deployment, when the event that it is ready is handled, is
    swallowed: the resource stays in Starting and no reconcile is asked for. *)
Definition ready_cluster : Cluster MCPMemorySpec MCPMemoryStatus :=
  let d := {| Meta := Meta (deploymentOf Some None (example_memory ""));
              Body := {| DeploymentSpec_ := DeploymentSpec_ (Body (deploymentOf Some None (example_memory "")));
                         DeploymentStatus_ := {| StatusReplicas := 1; ReadyReplicas := 1 |} |} |} in
  {| deployments := {[ ("default", "memory") := d; ("default", "memory-postgres") := d ]};
     services := ∅; secrets := ∅; configMaps := ∅; claims := ∅;
     resources := {[ ("default", "memory") := example_memory "Starting" ]}; calls := 0 |}.

Example wakeup_lost :
  let '(r, c) := Reconcile Some None (λ k, if decide (k = 2%nat) then Refused "timeout" else Works) 7
                   ("default", "memory") ready_cluster in
  r = Ok Done ∧ phase <$> resources c !! ("default", "memory") = Some "Starting".
Proof. split; vm_compute; reflexivity. Qed.

(** Two resources whose objects have the same names. *)
Definition namesake : MCPMemory :=
  setMeta {| Name := "memory-postgres"; Namespace := "default"; UID := "u2"; Generation := 1; Finalizers := [];
             DeletionTimestamp := None |} (example_memory "").
Example postgres_namesake : keyOf namesake = key_of (example_memory "") "-postgres".
Proof. reflexivity. Qed.
