(* ===== verification/ServerController.v ===== *)
(** * The controller of MCP servers

    internal/controllers/mcpserver_controller.go: every reconcile applies the deployment
    and the service of an MCPServer resource anew and derives its status from theirs; a
    finalizer holds the resource until the controller has seen its deletion.  The end of
    the file follows a service of the controller to the endpoint that the discovery of
    services makes of it.  Metrics are left out. *)
From S2P Require Import Prelude GoString ServiceDiscovery Calls Kube.

#[local] Open Scope Z_scope.

Set Default Proof Using "Type*".

(** ** Data *)

Record SecurityConfig := {
  AllowPrivilegedOps : bool;
  SecRunAsUser : option Z;
  SecRunAsGroup : option Z;
  ReadOnlyRootFS : bool;
  CapAdd : list string;
  CapDrop : list string;
}.
Record VolumeSpec := { VolName : string; VolMountPath : string; VolHostPath : string; VolSubPath : string }.

(** The fields of the specification that the controller reads. *)
Record MCPServerSpec := {
  SpecImage : string;
  SpecCommand : list string;
  SpecArgs : list string;
  SpecEnv : gmap string string;
  SpecWorkingDir : string;
  SpecProtocol : string;
  HttpPort : Z;
  HttpPath : string;
  SSEPath : string;
  SSEPort : Z;
  SpecCapabilities : list string;
  SpecResources : ResourceRequirements;
  SpecSecurity : option SecurityConfig;
  SpecReplicas : option Z;
  SpecNodeSelector : gmap string string;
  SpecServiceType : string;
  SpecVolumes : list VolumeSpec;
  SpecServiceAccount : string;
  SpecImagePullSecrets : list string;
  SpecPodAnnotations : gmap string string;
  SpecLabels : gmap string string;
  DiscoveryLabels : gmap string string;
}.

#[export] Instance ResourceRequirements_dec : EqDecision ResourceRequirements.
Proof. solve_decision. Defined.
#[export] Instance SecurityConfig_dec : EqDecision SecurityConfig.
Proof. solve_decision. Defined.
#[export] Instance VolumeSpec_dec : EqDecision VolumeSpec.
Proof. solve_decision. Defined.
#[export] Instance MCPServerSpec_dec : EqDecision MCPServerSpec.
Proof. solve_decision. Defined.

Record ConnectionInfo := {
  InfoEndpoint : string;
  InfoProtocol : string;
  InfoPort : Z;
  InfoPath : string;
  SSEEndpoint : string;
}.
Record StatusEndpoint := { EndpointName : string; EndpointPort : Z; EndpointURL : string }.

Record MCPServerStatus := {
  Phase : string;
  Conditions : list Condition;
  Connection : option ConnectionInfo;
  SrvReplicas : Z;
  SrvReadyReplicas : Z;
  ServiceEndpoints : list StatusEndpoint;
  ObservedGeneration : Z;
}.

Notation MCPServer := (Resource MCPServerSpec MCPServerStatus) (only parsing).
Notation K := (Kube MCPServerSpec MCPServerStatus) (only parsing).

Definition MCPServerPhasePending : string := "Pending".
Definition MCPServerPhaseCreating : string := "Creating".
Definition MCPServerPhaseStarting : string := "Starting".
Definition MCPServerPhaseRunning : string := "Running".

Definition finalizer : string := "mcp.matey.ai/finalizer".

Definition server_name (mcpServer : MCPServer) : string := Kube.Name (Metadata mcpServer).
Definition keyOf (mcpServer : MCPServer) : NN := (Kube.Namespace (Metadata mcpServer), server_name mcpServer).

Definition setPhase (phase : string) (mcpServer : MCPServer) : MCPServer :=
  let s := Status mcpServer in
  setStatus {| Phase := phase; Conditions := Conditions s; Connection := Connection s;
               SrvReplicas := SrvReplicas s; SrvReadyReplicas := SrvReadyReplicas s;
               ServiceEndpoints := ServiceEndpoints s; ObservedGeneration := ObservedGeneration s |} mcpServer.

(** ** The deployment *)

Definition standardLabels (mcpServer : MCPServer) : gmap string string :=
  {[ "app" := server_name mcpServer;
     "mcp.matey.ai/server" := server_name mcpServer;
     "mcp.matey.ai/protocol" := SpecProtocol (Spec mcpServer) ]}.

(** The loop writes the custom labels over the standard ones. *)
Definition buildLabels (mcpServer : MCPServer) : gmap string string :=
  SpecLabels (Spec mcpServer) ∪ standardLabels mcpServer.

Definition getReplicas (mcpServer : MCPServer) : Z := default 1 (SpecReplicas (Spec mcpServer)).

Section controller.
(** resource.ParseQuantity, with the quantity as text; and the order in which the range
    over the environment visits it, in this call. *)
Context (ParseQuantity : string → option string) (rangeEnv : gmap string string → list (string * string)).

Definition convertQuantity (key value : string) : string :=
  if decide (key = "memory") then
    if HasSuffix value "m" && negb (HasSuffix value "Mi") then TrimSuffix value "m" +:+ "Mi"
    else if HasSuffix value "g" && negb (HasSuffix value "Gi") then TrimSuffix value "g" +:+ "Gi"
    else value
  else value.

Definition convertResourceList (rl : gmap string string) : gmap string string :=
  map_imap (λ key value, ParseQuantity (convertQuantity key value)) rl.

Definition setContainerEnv (env : gmap string string) : list EnvVar :=
  (λ kv : string * string, {| EnvName := kv.1; EnvValue := EnvLiteral kv.2 |}) <$> rangeEnv env.

Definition setContainerPorts (spec : MCPServerSpec) : list ContainerPort :=
  (if decide (0 < HttpPort spec) then [{| PortName := "http"; PortNumber := HttpPort spec |}] else []) ++
  (if decide (0 < SSEPort spec) then [{| PortName := "sse"; PortNumber := SSEPort spec |}] else []).

Definition setContainerResources (r : ResourceRequirements) : ResourceRequirements :=
  {| Limits := convertResourceList <$> Limits r; Requests := convertResourceList <$> Requests r |}.

Definition setContainerSecurity (security : option SecurityConfig) : option SecurityContext :=
  match security with
  | None => None
  | Some s =>
      let unprivileged := negb (AllowPrivilegedOps s) && bool_decide (SecRunAsUser s ≠ Some 0) in
      Some {| RunAsNonRoot := if unprivileged then Some true else None;
              AllowPrivilegeEscalation := if unprivileged then Some false else None;
              ReadOnlyRootFilesystem := Some (ReadOnlyRootFS s);
              RunAsUser := SecRunAsUser s;
              RunAsGroup := SecRunAsGroup s;
              SecurityCapabilities :=
                match CapAdd s, CapDrop s with
                | [], [] => None
                | a, d => Some {| CapabilitiesAdd := a; CapabilitiesDrop := d |}
                end |}
  end.

Definition setContainerVolumes (volumes : list VolumeSpec) : list VolumeMount :=
  (λ vol, {| MountName := VolName vol; MountPath := VolMountPath vol; SubPath := VolSubPath vol;
             MountReadOnly := false |}) <$> volumes.

Definition buildContainer (mcpServer : MCPServer) : Container :=
  let spec := Spec mcpServer in
  {| ContainerName := "mcp-server";
     Image := SpecImage spec;
     ImagePullPolicy := "Always";
     Command := SpecCommand spec;
     Args := SpecArgs spec;
     WorkingDir := SpecWorkingDir spec;
     Env := setContainerEnv (SpecEnv spec);
     Ports := setContainerPorts spec;
     Resources := setContainerResources (SpecResources spec);
     Security := setContainerSecurity (SpecSecurity spec);
     VolumeMounts := setContainerVolumes (SpecVolumes spec);
     LivenessProbe := None;
     ReadinessProbe := None |}.

Definition buildPodSpec (mcpServer : MCPServer) (container : Container) : PodSpec :=
  let spec := Spec mcpServer in
  {| Containers := [container];
     Volumes := (λ vol, {| VolumeName := VolName vol;
                           Source := HostPath (if decide (VolHostPath vol = "") then VolMountPath vol
                                               else VolHostPath vol) |}) <$> SpecVolumes spec;
     RestartPolicy := "";
     NodeSelector := SpecNodeSelector spec;
     ServiceAccountName := SpecServiceAccount spec;
     ImagePullSecrets := match SpecImagePullSecrets spec with [] => ["registry-secret"] | l => l end; PodSecurity := None |}.

Definition buildDeploymentSpec (mcpServer : MCPServer) : DeploymentSpec :=
  let labels := buildLabels mcpServer in
  {| Replicas := getReplicas mcpServer;
     MatchLabels := labels;
     PodLabels := labels;
     PodAnnotations := SpecPodAnnotations (Spec mcpServer);
     Template := buildPodSpec mcpServer (buildContainer mcpServer) |}.

(** ** The service *)

Definition buildServiceSpec (mcpServer : MCPServer) : ServiceSpec :=
  let spec := Spec mcpServer in
  let ports :=
    (if decide (0 < HttpPort spec)
     then [{| ServicePortName := "http"; Port := HttpPort spec; TargetPort := Some (HttpPort spec) |}] else []) ++
    (if decide (0 < SSEPort spec)
     then [{| ServicePortName := "sse"; Port := SSEPort spec; TargetPort := Some (SSEPort spec) |}] else []) in
  {| Type_ := if decide (SpecServiceType spec = "") then "ClusterIP" else SpecServiceType spec;
     ServicePorts :=
       match ports with
       | [] => if decide (SpecProtocol spec = "stdio")
               then [{| ServicePortName := "dummy"; Port := 80; TargetPort := Some 80 |}] else []
       | _ => ports
       end;
     Selector := standardLabels mcpServer |}.

(** The labels of the service, over those that it has. *)
Definition serviceLabels (mcpServer : MCPServer) (labels : gmap string string) : gmap string string :=
  let spec := Spec mcpServer in
  let labels :=
    <["mcp.matey.ai/server-name" := server_name mcpServer]>
      (<["mcp.matey.ai/protocol" := SpecProtocol spec]> (<["mcp.matey.ai/role" := "server"]> labels)) in
  let labels :=
    match SpecCapabilities spec with
    | [] => labels
    | capabilities => <["mcp.matey.ai/capabilities" := Join capabilities "."]> labels
    end in
  DiscoveryLabels spec ∪ labels.

(** ** Reconciling *)

(** The outcomes of the calls, the clock, and the comparison of objects. *)
Context (env : nat → Outcome) (now : Z).
Context (sameDeployment : Deployment → Deployment → bool) (sameService : Kube.Service → Kube.Service → bool).

Definition noMeta : ObjectMeta := {| Kube.Labels := ∅; Annotations := ∅; Controller := None |}.

Definition emptyDeployment : Deployment :=
  {| Meta := noMeta;
     Body := {| DeploymentSpec_ := {| Replicas := 0; MatchLabels := ∅; PodLabels := ∅; PodAnnotations := ∅;
                  Template := {| Containers := []; Volumes := []; RestartPolicy := ""; NodeSelector := ∅;
                                 ServiceAccountName := ""; ImagePullSecrets := []; PodSecurity := None |} |};
                DeploymentStatus_ := {| StatusReplicas := 0; ReadyReplicas := 0 |} |} |}.
Definition emptyService : Kube.Service :=
  {| Meta := noMeta; Body := {| Type_ := ""; ServicePorts := []; Selector := ∅ |} |}.

Definition mutateDeployment (mcpServer : MCPServer) (deployment : Deployment) : res string Deployment :=
  match SetControllerReference (UID (Metadata mcpServer)) deployment with
  | Err e => Err e
  | Ok deployment =>
      Ok {| Meta := Meta deployment;
            Body := {| DeploymentSpec_ := buildDeploymentSpec mcpServer;
                       DeploymentStatus_ := DeploymentStatus_ (Body deployment) |} |}
  end.

Definition mutateService (mcpServer : MCPServer) (service : Kube.Service) : res string Kube.Service :=
  match SetControllerReference (UID (Metadata mcpServer)) service with
  | Err e => Err e
  | Ok service =>
      Ok {| Meta := {| Kube.Labels := serviceLabels mcpServer (Kube.Labels (Meta service));
                       Annotations := Annotations (Meta service); Controller := Controller (Meta service) |};
            Body := buildServiceSpec mcpServer |}
  end.

Definition reconcileDeployment (mcpServer : MCPServer) : K Deployment :=
  CreateOrUpdate env sameDeployment (keyOf mcpServer) emptyDeployment (mutateDeployment mcpServer).

Definition reconcileService (mcpServer : MCPServer) : K Kube.Service :=
  CreateOrUpdate env sameService (keyOf mcpServer) emptyService (mutateService mcpServer).

Definition updateConditions (conditions : list Condition) (deployment : Deployment) : list Condition :=
  let ready := decide (0 < ReadyReplicas (DeploymentStatus_ (Body deployment))) in
  updateCondition conditions
    {| ConditionType := "Ready";
       ConditionStatus := if ready then "True" else "False";
       LastTransitionTime := now;
       Reason := if ready then "DeploymentReady" else "DeploymentNotReady";
       ConditionMessage := if ready then "Deployment has ready replicas" else "Deployment has no ready replicas" |}.

Definition serviceHost (mcpServer : MCPServer) (port : Z) : string :=
  server_name mcpServer +:+ "." +:+ Kube.Namespace (Metadata mcpServer) +:+ ".svc.cluster.local:" +:+ Itoa port.

Definition phaseOf (status : DeploymentStatus) : string :=
  if decide (0 < ReadyReplicas status) then MCPServerPhaseRunning
  else if decide (0 < StatusReplicas status) then MCPServerPhaseStarting
  else MCPServerPhaseCreating.

Definition connectionInfo (mcpServer : MCPServer) (service : Kube.Service) : ConnectionInfo :=
  let spec := Spec mcpServer in
  let port := Port <$> head (ServicePorts (Body service)) in
  let endpoint := default "" (serviceHost mcpServer <$> port) in
  {| InfoEndpoint := endpoint;
     InfoProtocol := SpecProtocol spec;
     InfoPort := default 0 port;
     InfoPath := HttpPath spec;
     SSEEndpoint := if decide (SSEPath spec = "") then "" else endpoint +:+ SSEPath spec |}.

(** The status for a deployment and a service; [None] is the panic of the index into the
    ports of a service without any. *)
Definition newStatus (mcpServer : MCPServer) (deployment : Deployment) (service : Kube.Service) :
    option MCPServerStatus :=
  let status := DeploymentStatus_ (Body deployment) in
  port ← head (ServicePorts (Body service));
  Some {|
    Phase := phaseOf status;
    Conditions := updateConditions (Conditions (Status mcpServer)) deployment;
    Connection := Some (connectionInfo mcpServer service);
    SrvReplicas := StatusReplicas status;
    SrvReadyReplicas := ReadyReplicas status;
    ServiceEndpoints :=
      [{| EndpointName := server_name mcpServer; EndpointPort := Port port;
          EndpointURL := "http://" +:+ serviceHost mcpServer (Port port) |}];
    ObservedGeneration := Generation (Metadata mcpServer) |}.

Definition updateStatus (mcpServer : MCPServer) (deployment : Deployment) (service : Kube.Service) : K () :=
  match newStatus mcpServer deployment service with
  | None => fail (OtherError "index out of range")
  | Some status => UpdateStatus env (keyOf mcpServer) (setStatus status mcpServer);; mret ()
  end.

Definition handleDeletion (mcpServer : MCPServer) : K Result :=
  UpdateResource env (keyOf mcpServer) (RemoveFinalizer mcpServer finalizer);; mret Done.

Definition DefaultRequeueAfterError : Z := 30 * 1000000000.

(** [Reconcile] of a resource with the finalizer and a phase. *)
Definition reconcileObjects (mcpServer : MCPServer) : K Result :=
  deployment ← reconcileDeployment mcpServer;
  service ← reconcileService mcpServer;
  updateStatus mcpServer deployment service;;
  mret {| Requeue := false; RequeueAfter := DefaultRequeueAfterError |}.

Definition Reconcile (key : NN) : K Result :=
  found ← fetchInstance env key;
  match found with
  | None => mret Done
  | Some mcpServer =>
      match DeletionTimestamp (Metadata mcpServer) with
      | Some _ => handleDeletion mcpServer
      | None =>
          if ContainsFinalizer mcpServer finalizer then
            if decide (Phase (Status mcpServer) = "") then
              mcpServer ← UpdateStatus env key (setPhase MCPServerPhasePending mcpServer);
              reconcileObjects mcpServer
            else reconcileObjects mcpServer
          else UpdateResource env key (AddFinalizer mcpServer finalizer);; mret Done
      end
  end.
End controller.

(** ** What a reconcile leaves *)

Section reconciled.
Context (ParseQuantity : string → option string) (rangeEnv : gmap string string → list (string * string)).
Context (sameDeployment : Deployment → Deployment → bool) (sameService : Kube.Service → Kube.Service → bool).
(** The comparison of CreateOrUpdate finds no differing objects equal. *)
Context (Hdeployments : ∀ o o', sameDeployment o o' = true → o = o').
Context (Hservices : ∀ o o', sameService o o' = true → o = o').
Implicit Types (mcpServer : MCPServer) (c : Cluster MCPServerSpec MCPServerStatus).

(** The deployment and the service that a server should have. *)
Definition deploymentFor mcpServer (d : Deployment) : Prop :=
  DeploymentSpec_ (Body d) = buildDeploymentSpec ParseQuantity rangeEnv mcpServer ∧
  Controller (Meta d) = Some (UID (Metadata mcpServer)).

Definition serviceFor mcpServer (s : Kube.Service) : Prop :=
  Body s = buildServiceSpec mcpServer ∧
  Controller (Meta s) = Some (UID (Metadata mcpServer)) ∧
  ∃ old, Kube.Labels (Meta s) = serviceLabels mcpServer old.

(** Objects that the controller can bring to the specification: its own or nobody's, and
    the selector of a deployment as it would set it. *)
Definition adoptable mcpServer (m : ObjectMeta) : Prop :=
  Controller m = None ∨ Controller m = Some (UID (Metadata mcpServer)).

Definition admissible mcpServer c : Prop :=
  (∀ d, deployments c !! keyOf mcpServer = Some d →
     adoptable mcpServer (Meta d) ∧ MatchLabels (DeploymentSpec_ (Body d)) = buildLabels mcpServer) ∧
  (∀ s, Kube.services c !! keyOf mcpServer = Some s → adoptable mcpServer (Meta s)).

Lemma SetControllerReference_Ok {B} owner (o : KObject B) :
  Controller (Meta o) = None ∨ Controller (Meta o) = Some owner →
  SetControllerReference owner o = Ok (owned owner o).
Proof using.
  unfold SetControllerReference, owned. intros [Hc|Hc]; rewrite Hc; [done|].
  rewrite decide_True by done. destruct o as [[l a ct] b]. cbn in *. by rewrite Hc.
Qed.

Lemma SetControllerReference_inv {B} owner (o o' : KObject B) :
  SetControllerReference owner o = Ok o' → o' = owned owner o.
Proof using.
  unfold SetControllerReference, owned. destruct o as [[l a [ct|]] b]; cbn; [case_decide; [|done]|]; by intros [= <-]; subst.
Qed.

Lemma deployment_admitted (found : Deployment) : admitted found found = Some found.
Proof using.
  unfold admitted. cbn. rewrite decide_True by done. cbn. destruct found as [m [? ?]]. done.
Qed.

Lemma service_admitted (found : Kube.Service) : admitted found found = Some found.
Proof using. by destruct found. Qed.

Lemma deployment_after mcpServer old d :
  createdOrUpdated emptyDeployment (mutateDeployment ParseQuantity rangeEnv mcpServer) old = Some d →
  deploymentFor mcpServer d.
Proof using.
  unfold createdOrUpdated, mutateDeployment.
  destruct (SetControllerReference _ _) as [o|] eqn:Ho; [|done]. apply SetControllerReference_inv in Ho as ->.
  destruct old as [found|]; [|by intros [= <-]].
  unfold admitted. cbn. case_decide; [|done]. by intros [= <-].
Qed.

Lemma deployment_selector mcpServer old d :
  createdOrUpdated emptyDeployment (mutateDeployment ParseQuantity rangeEnv mcpServer) old = Some d →
  ∀ d0, old = Some d0 → MatchLabels (DeploymentSpec_ (Body d0)) = buildLabels mcpServer.
Proof using.
  intros Hd d0 ->. unfold createdOrUpdated, mutateDeployment in Hd.
  destruct (SetControllerReference _ _) as [o|]; [|done]. unfold admitted in Hd. cbn in Hd. by case_decide.
Qed.

Lemma service_after mcpServer old s :
  createdOrUpdated emptyService (mutateService mcpServer) old = Some s → serviceFor mcpServer s.
Proof using.
  unfold createdOrUpdated, mutateService.
  destruct (SetControllerReference _ _) as [o|] eqn:Ho; [|done]. apply SetControllerReference_inv in Ho as ->.
  destruct old as [found|]; intros [= <-]; (split; [done|]; split; [done|]; by eexists).
Qed.

Lemma deployment_possible mcpServer c :
  admissible mcpServer c →
  is_Some (createdOrUpdated emptyDeployment (mutateDeployment ParseQuantity rangeEnv mcpServer)
             (deployments c !! keyOf mcpServer)).
Proof using.
  intros [Hd _]. unfold createdOrUpdated, mutateDeployment.
  destruct (deployments c !! keyOf mcpServer) as [found|]; [|done].
  destruct (Hd found eq_refl) as [Hc Hm]. cbn [default]. rewrite SetControllerReference_Ok by done.
  unfold admitted. cbn. by rewrite decide_True.
Qed.

Lemma service_possible mcpServer c :
  admissible mcpServer c →
  is_Some (createdOrUpdated emptyService (mutateService mcpServer) (Kube.services c !! keyOf mcpServer)).
Proof using.
  intros [_ Hs]. unfold createdOrUpdated, mutateService.
  destruct (Kube.services c !! keyOf mcpServer) as [found|]; [|done].
  cbn [default]. rewrite SetControllerReference_Ok by (by apply Hs). done.
Qed.

Lemma updated_deployment mcpServer old v :
  v = old ∨ is_Some v ∧ v = createdOrUpdated emptyDeployment (mutateDeployment ParseQuantity rangeEnv mcpServer) old →
  v = old ∨ ∃ d, v = Some d ∧ deploymentFor mcpServer d ∧
    ∀ d0, old = Some d0 → MatchLabels (DeploymentSpec_ (Body d0)) = buildLabels mcpServer.
Proof using.
  intros [->|[[d Hd] Hv]]; [by left|right]. exists d. split; [done|]. rewrite Hd in Hv. symmetry in Hv.
  split; [by apply (deployment_after _ old)|by apply (deployment_selector _ _ d)].
Qed.

Lemma updated_service mcpServer old v :
  v = old ∨ is_Some v ∧ v = createdOrUpdated emptyService (mutateService mcpServer) old →
  v = old ∨ ∃ s, v = Some s ∧ serviceFor mcpServer s.
Proof using.
  intros [->|[[s Hs] Hv]]; [by left|right]. exists s. split; [done|]. apply (service_after _ old). by rewrite <-Hv.
Qed.

(** The two objects are as they were or as they should be, and the selector of the
    deployment does not change. *)
Definition unspoiled mcpServer c c' : Prop :=
  (deployments c' !! keyOf mcpServer = deployments c !! keyOf mcpServer ∨
     ∃ d, deployments c' !! keyOf mcpServer = Some d ∧ deploymentFor mcpServer d ∧
       ∀ d0, deployments c !! keyOf mcpServer = Some d0 →
         MatchLabels (DeploymentSpec_ (Body d0)) = buildLabels mcpServer) ∧
  (Kube.services c' !! keyOf mcpServer = Kube.services c !! keyOf mcpServer ∨
     ∃ s, Kube.services c' !! keyOf mcpServer = Some s ∧ serviceFor mcpServer s).

(** The objects are as they should be, and the status tells of them. *)
Definition reconciled mcpServer c : Prop :=
  ∃ d s port mcpServer',
    deployments c !! keyOf mcpServer = Some d ∧ deploymentFor mcpServer d ∧
    Kube.services c !! keyOf mcpServer = Some s ∧ serviceFor mcpServer s ∧
    head (ServicePorts (buildServiceSpec mcpServer)) = Some port ∧
    resources c !! keyOf mcpServer = Some mcpServer' ∧
    Metadata mcpServer' = Metadata mcpServer ∧ Spec mcpServer' = Spec mcpServer ∧
    Phase (Status mcpServer') = phaseOf (DeploymentStatus_ (Body d)) ∧
    SrvReadyReplicas (Status mcpServer') = ReadyReplicas (DeploymentStatus_ (Body d)) ∧
    ObservedGeneration (Status mcpServer') = Generation (Metadata mcpServer) ∧
    ServiceEndpoints (Status mcpServer') =
      [{| EndpointName := server_name mcpServer; EndpointPort := Port port;
          EndpointURL := "http://" +:+ serviceHost mcpServer (Port port) |}].

Section steps.
Context (env : nat → Outcome) (now : Z).

Lemma reconcileObjects_spec mcpServer c :
  resources c !! keyOf mcpServer = Some mcpServer →
  wp (reconcileObjects ParseQuantity rangeEnv env now sameDeployment sameService mcpServer) c (λ r c',
    unspoiled mcpServer c c' ∧
    (is_ok r = true → reconciled mcpServer c') ∧
    ((∀ k, env k = Works) → admissible mcpServer c → ServicePorts (buildServiceSpec mcpServer) ≠ [] →
       is_ok r = true)).
Proof using Hdeployments Hservices.
  intros Hr. unfold reconcileObjects, reconcileDeployment, reconcileService.
  apply wp_bind. apply (wp_CreateOrUpdate _ (B := DeploymentBody)); [done|apply deployment_admitted| |].
  { intros e v n Hv Hlive. kube_simpl. split; [|split; [done|]].
    - unfold unspoiled. kube_simpl. rewrite lookup_partial_alter, decide_True by done.
      split; [by apply updated_deployment|by left].
    - intros Hw Ha _. destruct Hlive. split; [done|]. by apply deployment_possible. }
  intros d n1 Hd. apply deployment_after in Hd as Hdf.
  apply wp_bind. apply (wp_CreateOrUpdate _ (B := ServiceSpec)); [done|apply service_admitted| |].
  { intros e v n Hv Hlive. kube_simpl. split; [|split; [done|]].
    - unfold unspoiled. kube_simpl. rewrite !lookup_partial_alter, !decide_True by done.
      split; [right; exists d; split_and!; [done|done|by apply (deployment_selector _ _ d)]|by apply updated_service].
    - intros Hw Ha _. destruct Hlive. split; [done|]. by apply service_possible. }
  intros s n2 Hs. apply service_after in Hs as Hsf. kube_simpl.
  set (c2 := at_calls n2 _).
  assert (deployments c2 !! keyOf mcpServer = Some d) as Hd2.
  { subst c2. kube_simpl. by rewrite lookup_partial_alter, decide_True. }
  assert (Kube.services c2 !! keyOf mcpServer = Some s) as Hs2.
  { subst c2. kube_simpl. by rewrite lookup_partial_alter, decide_True. }
  assert (resources c2 !! keyOf mcpServer = Some mcpServer) as Hr2 by done.
  clearbody c2.
  assert (∀ c', deployments c' = deployments c2 → Kube.services c' = Kube.services c2 → unspoiled mcpServer c c') as Hun.
  { intros c' Hdc Hsc. unfold unspoiled. rewrite Hdc, Hsc. split; right; [|eauto].
    exists d. split_and!; [done|done|by apply (deployment_selector _ _ d)]. }
  unfold updateStatus, newStatus. destruct Hsf as (Hsb & Hsc & Hsl). rewrite Hsb.
  apply wp_bind. destruct (head _) as [port|] eqn:Hport; cbn [mbind option_bind].
  2: { apply wp_fail. split; [by apply Hun|]. split; [done|]. intros _ _ Hne. by destruct (ServicePorts _). }
  apply wp_bind, (wp_changeStatus _ _ mcpServer); [done..| |].
  - intros e c' He ->. split; [by apply Hun|]. split; [done|]. intros Hw. by destruct He.
  - intros a c' -> He _. destruct a as [a|e].
    + apply wp_ret, wp_ret. split; [by apply Hun|]. split; [|done]. intros _.
      eexists d, s, port, _. kube_simpl. rewrite lookup_partial_alter, decide_True by done. done.
    + split; [by apply Hun|]. split; [done|]. intros Hw. by destruct (He e eq_refl).
Qed.

Notation Reconcile_ := (Reconcile ParseQuantity rangeEnv env now sameDeployment sameService).

(** A resource that is not deleted and has the finalizer of the controller. *)
Definition held mcpServer : Prop :=
  DeletionTimestamp (Metadata mcpServer) = None ∧ ContainsFinalizer mcpServer finalizer = true.

Lemma Reconcile_held mcpServer c :
  resources c !! keyOf mcpServer = Some mcpServer → held mcpServer →
  wp (Reconcile_ (keyOf mcpServer)) c (λ r c',
    unspoiled mcpServer c c' ∧
    (is_ok r = true → reconciled mcpServer c') ∧
    ((∀ k, env k = Works) → admissible mcpServer c → ServicePorts (buildServiceSpec mcpServer) ≠ [] →
       is_ok r = true)).
Proof using Hdeployments Hservices.
  intros Hr [Hdel Hfin]. unfold Reconcile.
  assert (∀ c', deployments c' = deployments c → Kube.services c' = Kube.services c → unspoiled mcpServer c c') as Hun.
  { intros c' Hdc Hsc. unfold unspoiled. rewrite Hdc, Hsc. split; by left. }
  apply wp_bind, wp_fetchInstance.
  { intros e He. split; [by apply Hun|]. split; [done|]. intros Hw. by destruct He. }
  rewrite Hr. cbn iota. rewrite Hdel, Hfin. case_decide; [|exact (reconcileObjects_spec mcpServer (at_calls (S (calls c)) c) Hr)].
  set (mcpServer1 := setPhase MCPServerPhasePending mcpServer).
  apply wp_bind, (wp_changeStatus _ _ mcpServer); [done..| |].
  - intros e c' He ->. split; [by apply Hun|]. split; [done|]. intros Hw. by destruct He.
  - intros a c' Hc' He Hok. destruct a as [a|e].
    + rewrite (Hok a eq_refl).
      assert (resources c' !! keyOf mcpServer1 = Some mcpServer1) as Hr1.
      { rewrite Hc'. kube_simpl. change (keyOf mcpServer1) with (keyOf mcpServer).
        by rewrite lookup_partial_alter, decide_True. }
      assert (deployments c' = deployments c ∧ Kube.services c' = Kube.services c) as [Hdc Hsc] by (by rewrite Hc').
      eapply wp_mono; [by apply reconcileObjects_spec|]. intros r c'' (H1 & H2 & H3).
      unfold unspoiled, admissible in *. rewrite Hdc, Hsc in *. auto.
    + split; [apply Hun; by rewrite Hc'|]. split; [done|]. intros Hw. by destruct (He e eq_refl).
Qed.

(** C21: let a server's resource not be deleted and have the controller's finalizer, which
    the first reconcile of a new resource adds, and nothing else ([Reconcile_new]).  Then,
    whatever the calls of a reconcile come to, the deployment and the service of the server
    are as they were or as its specification says; after a reconcile that succeeds both
    are, and the status gives the phase of the deployment and the address of the service;
    and it succeeds if the calls work, nobody else owns the objects, the selector of the
    deployment is unchanged and the server has a port. *)
Theorem server_reconciled mcpServer c :
  resources c !! keyOf mcpServer = Some mcpServer → held mcpServer →
  let '(r, c') := Reconcile_ (keyOf mcpServer) c in
  unspoiled mcpServer c c' ∧
  (is_ok r = true → reconciled mcpServer c') ∧
  ((∀ k, env k = Works) → admissible mcpServer c → ServicePorts (buildServiceSpec mcpServer) ≠ [] →
     is_ok r = true).
Proof using Hdeployments Hservices.
  intros Hr Hh. pose proof (Reconcile_held mcpServer c Hr Hh) as H. unfold wp in H.
  by destruct (Reconcile _ _ _ _ _ _ _ _).
Qed.

(** A new resource gets its finalizer first. *)
Lemma Reconcile_new mcpServer c :
  resources c !! keyOf mcpServer = Some mcpServer → DeletionTimestamp (Metadata mcpServer) = None →
  ContainsFinalizer mcpServer finalizer = false → (∀ k, env k = Works) →
  wp (Reconcile_ (keyOf mcpServer)) c (λ r c',
    deployments c' = deployments c ∧ Kube.services c' = Kube.services c ∧
    resources c' !! keyOf mcpServer = Some (AddFinalizer mcpServer finalizer)).
Proof using.
  intros Hr Hdel Hfin Hw. unfold Reconcile. apply wp_bind, wp_fetchInstance.
  { intros e He. by destruct He. }
  rewrite Hr. cbn iota. rewrite Hdel, Hfin. apply wp_bind, wp_UpdateResource.
  - intros e v _ He. kube_simpl. by rewrite (He (Hw _)) in Hr.
  - intros stored Hst. kube_simpl. apply wp_ret. kube_simpl. rewrite Hr in Hst. injection Hst as <-.
    do 2 (split; [done|]). rewrite lookup_partial_alter, decide_True by done.
    unfold updatedResource. rewrite Hdel. unfold storedUpdate, AddFinalizer. rewrite Hfin. cbn.
    rewrite decide_True by done. unfold setMeta, setFinalizers. by rewrite Hdel.
Qed.

(** When the calls work, two reconciles give a new server its finalizer, its
    deployment, its service and its status. *)
Theorem server_converges mcpServer c :
  resources c !! keyOf mcpServer = Some mcpServer → DeletionTimestamp (Metadata mcpServer) = None →
  (∀ k, env k = Works) → admissible mcpServer c → ServicePorts (buildServiceSpec mcpServer) ≠ [] →
  reconciled (AddFinalizer mcpServer finalizer)
    (Nat.iter (if ContainsFinalizer mcpServer finalizer then 1 else 2)%nat
       (λ c, (Reconcile_ (keyOf mcpServer) c).2) c).
Proof using Hdeployments Hservices.
  intros Hr Hdel Hw Ha Hp. destruct (ContainsFinalizer mcpServer finalizer) eqn:Hfin.
  - unfold AddFinalizer. rewrite Hfin.
    destruct (Reconcile_held mcpServer c Hr (conj Hdel Hfin)) as (_ & H1 & H2). apply H1, H2; done.
  - destruct (Reconcile_new mcpServer c Hr Hdel Hfin Hw) as (Hd & Hs & Hr1).
    set (mcpServer1 := AddFinalizer mcpServer finalizer) in *.
    assert (mcpServer1 = setMeta (setFinalizers (Finalizers (Metadata mcpServer) ++ [finalizer])
      (Metadata mcpServer)) mcpServer) as Hm1.
    { unfold mcpServer1, AddFinalizer. by rewrite Hfin. }
    change (Nat.iter _ _ c) with (Reconcile_ (keyOf mcpServer) (Reconcile_ (keyOf mcpServer) c).2).2.
    set (c1 := (Reconcile_ (keyOf mcpServer) c).2) in *. clearbody mcpServer1 c1.
    assert (held mcpServer1) as Hh.
    { subst mcpServer1. split; [done|]. unfold ContainsFinalizer. cbn. apply bool_decide_eq_true. set_solver. }
    assert (keyOf mcpServer = keyOf mcpServer1) as Hk by (by subst mcpServer1). rewrite Hk in *.
    destruct (Reconcile_held mcpServer1 c1 Hr1 Hh) as (_ & H1 & H2). apply H1, H2; [done| |by subst].
    unfold admissible in *. rewrite Hd, Hs, <-Hk. subst mcpServer1. rewrite Hk in *. done.
Qed.

(** A deletion waits for the controller, which lets go of the resource and of nothing else. *)
Lemma server_released mcpServer c :
  resources c !! keyOf mcpServer = Some mcpServer → is_Some (DeletionTimestamp (Metadata mcpServer)) →
  Finalizers (Metadata mcpServer) = [finalizer] → (∀ k, env k = Works) →
  let '(r, c') := Reconcile_ (keyOf mcpServer) c in
  r = Ok Done ∧ resources c' = delete (keyOf mcpServer) (resources c) ∧
  deployments c' = deployments c ∧ Kube.services c' = Kube.services c.
Proof using.
  intros Hr [t Hdel] Hfin Hw. cut (wp (Reconcile_ (keyOf mcpServer)) c (λ r c',
    r = Ok Done ∧ resources c' = delete (keyOf mcpServer) (resources c) ∧
    deployments c' = deployments c ∧ Kube.services c' = Kube.services c)).
  { unfold wp. by destruct (Reconcile _ _ _ _ _ _ _ _). }
  unfold Reconcile. apply wp_bind, wp_fetchInstance.
  { intros e He. by destruct He. }
  rewrite Hr. cbn iota. rewrite Hdel. unfold handleDeletion. apply wp_bind, wp_UpdateResource.
  - intros e v _ He. kube_simpl. by rewrite (He (Hw _)) in Hr.
  - intros stored Hst. apply wp_ret. kube_simpl. rewrite Hr in Hst. injection Hst as <-.
    split; [done|]. unfold updatedResource. rewrite Hdel. cbn. rewrite Hfin. cbn. done.
Qed.

(** A custom label that changes the selector: the controller fails for ever. *)
Lemma label_change_fails mcpServer c d :
  resources c !! keyOf mcpServer = Some mcpServer → held mcpServer →
  deployments c !! keyOf mcpServer = Some d →
  MatchLabels (DeploymentSpec_ (Body d)) ≠ buildLabels mcpServer →
  let '(r, c') := Reconcile_ (keyOf mcpServer) c in
  is_ok r = false ∧ deployments c' !! keyOf mcpServer = Some d.
Proof using Hdeployments Hservices.
  intros Hr Hh Hd Hl. pose proof (Reconcile_held mcpServer c Hr Hh) as H. unfold wp in H.
  destruct (Reconcile _ _ _ _ _ _ _ _) as [r c']. cbn in H. destruct H as ([Hu _] & Hok & _).
  rewrite Hd in Hu. destruct Hu as [Hu|(d' & _ & _ & Hsel)]; [|by destruct Hl; apply Hsel].
  split; [|done]. apply not_true_is_false. intros Hr'. destruct (Hok Hr') as (d' & _ & _ & _ & Hd' & [Hds _] & _).
  rewrite Hu in Hd'. injection Hd' as <-. by rewrite Hds in Hl.
Qed.
End steps.
End reconciled.

(** ** Pods and discovery *)

(** The service of a server selects its pods exactly if no custom label overrides one of
    the three labels of the selector. *)
Lemma service_selects_pods ParseQuantity rangeEnv (mcpServer : MCPServer) :
  Selector (buildServiceSpec mcpServer) ⊆ PodLabels (buildDeploymentSpec ParseQuantity rangeEnv mcpServer) ↔
  ∀ k v v', standardLabels mcpServer !! k = Some v → SpecLabels (Spec mcpServer) !! k = Some v' → v' = v.
Proof.
  cbn [Selector buildServiceSpec PodLabels buildDeploymentSpec]. unfold buildLabels. rewrite map_subseteq_spec.
  split.
  - intros H k v v' Hk Hk'. specialize (H k v Hk). rewrite lookup_union_Some_raw in H. naive_solver.
  - intros H k v Hk. rewrite lookup_union_Some_raw.
    destruct (SpecLabels (Spec mcpServer) !! k) as [v'|] eqn:Hk'; [left; f_equal; by eapply H|by right].
Qed.






(** ** Examples *)

Definition example_spec : MCPServerSpec := {|
  SpecImage := "files:1"; SpecCommand := []; SpecArgs := []; SpecEnv := {["A" := "1"; "B" := "2"]};
  SpecWorkingDir := ""; SpecProtocol := "http"; HttpPort := 8080; HttpPath := "/mcp"; SSEPath := ""; SSEPort := 0;
  SpecCapabilities := ["tools"; "resources"];
  SpecResources := {| Limits := Some {["memory" := "512m"]}; Requests := None |}; SpecSecurity := None;
  SpecReplicas := None; SpecNodeSelector := ∅; SpecServiceType := ""; SpecVolumes := []; SpecServiceAccount := "";
  SpecImagePullSecrets := []; SpecPodAnnotations := ∅; SpecLabels := ∅; DiscoveryLabels := {["team" := "a"]} |}.

Definition example_server (finalizers : list string) : MCPServer := {|
  Metadata := {| Kube.Name := "files"; Kube.Namespace := "default"; UID := "u1"; Generation := 1;
                 Finalizers := finalizers; DeletionTimestamp := None |};
  Spec := example_spec;
  Status := {| Phase := ""; Conditions := []; Connection := None; SrvReplicas := 0; SrvReadyReplicas := 0;
               ServiceEndpoints := []; ObservedGeneration := 0 |} |}.

Definition example_cluster (finalizers : list string) : Cluster MCPServerSpec MCPServerStatus := {|
  deployments := ∅; Kube.services := ∅; secrets := ∅; configMaps := ∅; claims := ∅;
  resources := {[ ("default", "files") := example_server finalizers ]}; calls := 0 |}.

Definition differs {A : Type} (_ _ : A) : bool := false.


Lemma example_admissible finalizers : admissible (example_server finalizers) (example_cluster finalizers).
Proof. split; intros x Hx; discriminate Hx. Qed.

Lemma server_reconciled_witness :
  let c := example_cluster [finalizer] in
  let '(r, c') := Reconcile Some map_to_list (λ _, Works) 7 differs differs ("default", "files") c in
  is_ok r = true ∧ reconciled Some map_to_list (example_server [finalizer]) c'.
Proof.
  pose proof (server_reconciled Some map_to_list differs differs ltac:(done) ltac:(done) (λ _, Works) 7
    (example_server [finalizer]) (example_cluster [finalizer]) eq_refl ltac:(split; reflexivity)) as H.
  cbv zeta. change (keyOf (example_server [finalizer])) with ("default", "files") in H.
  destruct (Reconcile _ _ _ _ _ _ _ _) as [r c']. destruct H as (_ & Hok & Hlive).
  assert (is_ok r = true) as Hr by (apply Hlive; [done|apply example_admissible|done]).
  split; [exact Hr|by apply Hok].
Defined.

Lemma server_converges_witness :
  reconciled Some map_to_list (example_server [finalizer])
    (Nat.iter 2 (λ c, (Reconcile Some map_to_list (λ _, Works) 7 differs differs ("default", "files") c).2)
       (example_cluster [])).
Proof.
  apply (server_converges Some map_to_list differs differs ltac:(done) ltac:(done) (λ _, Works) 7
    (example_server []) (example_cluster [])); try reflexivity.
  - apply example_admissible.
  - done.
Defined.


(** The order in which the range visits the environment is another at each reconcile; the
    pods of the server are replaced when it changes. *)
Example env_order_rolls :
  buildDeploymentSpec Some map_to_list (example_server []) ≠
  buildDeploymentSpec Some (λ m, rev (map_to_list m)) (example_server []).
Proof. intros H. apply (f_equal (λ s, Env <$> Containers (Template s))) in H. vm_compute in H. discriminate H. Qed.

(** Labels and capabilities that the specification no longer has stay on the service. *)
Example removed_label_stays :
  serviceLabels (example_server []) {["owner" := "b"; "mcp.matey.ai/capabilities" := "tools"]} !! "owner" = Some "b".
Proof. vm_compute. reflexivity. Qed.

(** A custom label "app" takes the pods out of the service. *)
Example overridden_app :
  let spec := example_spec in
  let m := {| Metadata := Metadata (example_server []);
              Spec := {| SpecImage := SpecImage spec; SpecCommand := []; SpecArgs := []; SpecEnv := ∅; SpecWorkingDir := "";
                SpecProtocol := "http"; HttpPort := 8080; HttpPath := ""; SSEPath := ""; SSEPort := 0;
                SpecCapabilities := []; SpecResources := SpecResources spec; SpecSecurity := None; SpecReplicas := None;
                SpecNodeSelector := ∅; SpecServiceType := ""; SpecVolumes := []; SpecServiceAccount := "";
                SpecImagePullSecrets := []; SpecPodAnnotations := ∅; SpecLabels := {["app" := "suite"]};
                DiscoveryLabels := ∅ |};
              Status := Status (example_server []) |} in
  ¬ Selector (buildServiceSpec m) ⊆ PodLabels (buildDeploymentSpec Some map_to_list m).
Proof.
  cbv zeta. rewrite service_selects_pods. intros H. specialize (H "app" "files" "suite" eq_refl eq_refl). discriminate H.
Qed.
