(* ===== verification/PostgresController.v ===== *)
(** * The controller of PostgreSQL databases

    internal/controllers/mcppostgres_controller.go: defaults, the secret, claim, service
    and deployment of an MCPPostgres resource, its status, and its finalizer.  Errors
    become the phase Failed; quantities that do not parse end the reconcile in a panic,
    which is an error that the handling of errors does not see. *)
From S2P Require Import Prelude GoString ServiceDiscovery Calls Kube ServerController.

#[local] Open Scope Z_scope.

Set Default Proof Using "Type*".

(** ** Data *)

(** The fields of the specification that the controller reads. *)
Record MCPPostgresSpec := {
  SpecDatabase : string;
  SpecUser : string;
  SpecPassword : string;
  SpecPort : Z;
  StorageSize : string;
  SpecStorageClassName : string;
  PgResources : option ResourceRequirements;
  Version : string;
  PostgresConfig : gmap string string;
  PgSecurity : option SecurityConfig;
  PgReplicas : Z;
}.

#[export] Instance MCPPostgresSpec_dec : EqDecision MCPPostgresSpec.
Proof. solve_decision. Defined.

Record MCPPostgresStatus := {
  PgPhase : string;
  PgReadyReplicas : Z;
  PgStatusReplicas : Z;
  DatabaseReady : bool;
  DatabaseError : string;
  ServiceEndpoint_ : string;
  StatusServicePort : Z;
  StatusStorageSize : string;
  PgConditions : list Condition;
  PgObservedGeneration : Z;
}.

Notation MCPPostgres := (Resource MCPPostgresSpec MCPPostgresStatus) (only parsing).
Notation K := (Kube MCPPostgresSpec MCPPostgresStatus) (only parsing).

Definition PostgresPhaseCreating : string := "Creating".
Definition PostgresPhaseRunning : string := "Running".
Definition PostgresPhaseDegraded : string := "Degraded".
Definition PostgresPhaseTerminating : string := "Terminating".
Definition PostgresPhaseFailed : string := "Failed".

Definition pg_finalizer : string := "postgres.finalizer.mcp.matey.ai".

Definition pg_name (postgres : MCPPostgres) : string := Kube.Name (Metadata postgres).
Definition pg_key (postgres : MCPPostgres) : NN := (Kube.Namespace (Metadata postgres), pg_name postgres).
Definition pg_key_of (postgres : MCPPostgres) (suffix : string) : NN :=
  (Kube.Namespace (Metadata postgres), pg_name postgres +:+ suffix).

Definition setSpec (spec : MCPPostgresSpec) (postgres : MCPPostgres) : MCPPostgres :=
  {| Metadata := Metadata postgres; Spec := spec; Status := Status postgres |}.

Definition ifEmpty (s value : string) : string := if decide (s = "") then value else s.

Definition defaultResources : ResourceRequirements :=
  {| Limits := Some {["cpu" := "1000m"; "memory" := "1Gi"]};
     Requests := Some {["cpu" := "500m"; "memory" := "512Mi"]} |}.

Definition applyDefaults (postgres : MCPPostgres) : MCPPostgres :=
  let spec := Spec postgres in
  setSpec {|
    SpecDatabase := ifEmpty (SpecDatabase spec) "matey";
    SpecUser := ifEmpty (SpecUser spec) "postgres";
    SpecPassword := ifEmpty (SpecPassword spec) "password";
    SpecPort := if decide (SpecPort spec = 0) then 5432 else SpecPort spec;
    StorageSize := ifEmpty (StorageSize spec) "10Gi";
    SpecStorageClassName := SpecStorageClassName spec;
    PgResources := Some (default defaultResources (PgResources spec));
    Version := ifEmpty (Version spec) "15-alpine";
    PostgresConfig := PostgresConfig spec;
    PgSecurity := PgSecurity spec;
    PgReplicas := if decide (PgReplicas spec = 0) then 1 else PgReplicas spec |} postgres.

(** ** Objects *)

Section controller.
(** resource.ParseQuantity, and the order in which the range over the configuration
    visits it in this call. *)
Context (ParseQuantity : string → option string) (rangeConfig : gmap string string → list (string * string)).

Definition getLabels (postgres : MCPPostgres) : gmap string string :=
  {[ "app.kubernetes.io/name" := "postgres";
     "app.kubernetes.io/instance" := pg_name postgres;
     "app.kubernetes.io/component" := "database";
     "app.kubernetes.io/managed-by" := "matey";
     "mcp.matey.ai/role" := "database" ]}.

Definition getSelectorLabels (postgres : MCPPostgres) : gmap string string :=
  {[ "app.kubernetes.io/name" := "postgres"; "app.kubernetes.io/instance" := pg_name postgres ]}.

Definition labelled {B} (postgres : MCPPostgres) (body : B) : KObject B :=
  {| Meta := {| Kube.Labels := getLabels postgres; Annotations := ∅; Controller := None |}; Body := body |}.

Definition getEnvVars (postgres : MCPPostgres) : list EnvVar :=
  let spec := Spec postgres in
  [{| EnvName := "POSTGRES_DB"; EnvValue := EnvLiteral (SpecDatabase spec) |};
   {| EnvName := "POSTGRES_USER"; EnvValue := EnvLiteral (SpecUser spec) |};
   {| EnvName := "POSTGRES_PASSWORD";
      EnvValue := EnvSecret (pg_name postgres +:+ "-secret") "postgres-password" |};
   {| EnvName := "PGDATA"; EnvValue := EnvLiteral "/var/lib/postgresql/data/pgdata" |}] ++
  ((λ kv : string * string, {| EnvName := kv.1; EnvValue := EnvLiteral kv.2 |}) <$>
     rangeConfig (PostgresConfig spec)).

(** MustParse of the quantity of a resource, if the list has one; [None] is its panic. *)
Definition mustParse (resource : string) (l r : gmap string string) : option (gmap string string) :=
  let text := default "" (l !! resource) in
  if decide (text = "") then Some r
  else q ← ParseQuantity text; Some (<[resource := q]> r).

Definition parseList (l : option (gmap string string)) : option (option (gmap string string)) :=
  match l with
  | None => Some None
  | Some l =>
      if decide (l = ∅) then Some None
      else r ← mustParse "cpu" l ∅; r ← mustParse "memory" l r; Some (Some r)
  end.

Definition getResourceRequirements (postgres : MCPPostgres) : option ResourceRequirements :=
  match PgResources (Spec postgres) with
  | None => Some {| Limits := None; Requests := None |}
  | Some r =>
      limits ← parseList (Limits r);
      requests ← parseList (Requests r);
      Some {| Limits := limits; Requests := requests |}
  end.

Definition getSecurityContext (postgres : MCPPostgres) : SecurityContext :=
  match PgSecurity (Spec postgres) with
  | None =>
      {| RunAsNonRoot := Some false; AllowPrivilegeEscalation := Some false; ReadOnlyRootFilesystem := Some false;
         RunAsUser := None; RunAsGroup := None; SecurityCapabilities := None |}
  | Some s =>
      {| RunAsNonRoot := Some false;
         AllowPrivilegeEscalation := Some (AllowPrivilegedOps s);
         ReadOnlyRootFilesystem := Some (ReadOnlyRootFS s);
         RunAsUser := SecRunAsUser s;
         RunAsGroup := SecRunAsGroup s;
         SecurityCapabilities :=
           match CapAdd s, CapDrop s with
           | [], [] => None
           | a, d => Some {| CapabilitiesAdd := a; CapabilitiesDrop := d |}
           end |}
  end.

Definition pgProbe (postgres : MCPPostgres) (delay period : Z) : Probe :=
  {| ProbeBy := Exec ["pg_isready"; "-U"; SpecUser (Spec postgres)]; InitialDelaySeconds := delay;
     PeriodSeconds := period; TimeoutSeconds := 1; FailureThreshold := 3 |}.

Definition pgSecret (postgres : MCPPostgres) : Secret :=
  labelled postgres {| SecretData := {["postgres-password" := SpecPassword (Spec postgres)]} |}.

Definition pgClaim (postgres : MCPPostgres) : option PersistentVolumeClaim :=
  size ← ParseQuantity (StorageSize (Spec postgres));
  let class := SpecStorageClassName (Spec postgres) in
  Some (labelled postgres {| AccessModes := ["ReadWriteOnce"]; Storage := size;
                             StorageClassName := if decide (class = "") then None else Some class |}).

Definition pgService (postgres : MCPPostgres) : Kube.Service :=
  let port := SpecPort (Spec postgres) in
  labelled postgres {| Type_ := "ClusterIP";
    ServicePorts := [{| ServicePortName := "postgres"; Kube.Port := port; TargetPort := Some port |}];
    Selector := getSelectorLabels postgres |}.

Definition pgContainer (postgres : MCPPostgres) (resources : ResourceRequirements) : Container :=
  let spec := Spec postgres in
  {| ContainerName := "postgres"; Image := "postgres:" +:+ Version spec; ImagePullPolicy := "";
     Command := []; Args := []; WorkingDir := "";
     Env := getEnvVars postgres;
     Ports := [{| PortName := "postgres"; PortNumber := SpecPort spec |}];
     Resources := resources;
     Security := Some (getSecurityContext postgres);
     VolumeMounts :=
       [{| MountName := "postgres-data"; MountPath := "/var/lib/postgresql/data"; SubPath := ""; MountReadOnly := false |};
        {| MountName := "init-scripts"; MountPath := "/docker-entrypoint-initdb.d"; SubPath := ""; MountReadOnly := true |}];
     LivenessProbe := Some (pgProbe postgres 30 10);
     ReadinessProbe := Some (pgProbe postgres 5 5) |}.

Definition pgDeployment (postgres : MCPPostgres) : option Deployment :=
  resources ← getResourceRequirements postgres;
  Some (labelled postgres {|
    DeploymentSpec_ := {|
      Replicas := PgReplicas (Spec postgres);
      MatchLabels := getSelectorLabels postgres;
      PodLabels := getLabels postgres;
      PodAnnotations := ∅;
      Template := {|
        Containers := [pgContainer postgres resources];
        Volumes := [{| VolumeName := "postgres-data"; Source := ClaimVolume (pg_name postgres +:+ "-data") |};
                    {| VolumeName := "init-scripts"; Source := ConfigMapVolume (pg_name postgres +:+ "-init") |}];
        RestartPolicy := ""; NodeSelector := ∅; ServiceAccountName := ""; ImagePullSecrets := []; PodSecurity := None |} |};
    DeploymentStatus_ := {| StatusReplicas := 0; ReadyReplicas := 0 |} |}).

(** ** Reconciling *)

(** The outcomes of the calls, and the clock. *)
Context (env : nat → Outcome) (now : Z).

Definition passwordDiffers (postgres : MCPPostgres) (found desired : Secret) : bool :=
  bool_decide (default "" (SecretData (Body found) !! "postgres-password") ≠ SpecPassword (Spec postgres)).
Definition takePassword (postgres : MCPPostgres) (found desired : Secret) : Secret :=
  {| Meta := Meta found;
     Body := {| SecretData := <["postgres-password" := SpecPassword (Spec postgres)]> (SecretData (Body found)) |} |}.

Definition pgReconcileSecret (postgres : MCPPostgres) : K () :=
  reconcileResource env (UID (Metadata postgres)) (pg_key_of postgres "-secret") (pgSecret postgres)
    (Some (passwordDiffers postgres, takePassword postgres)).

Definition reconcilePVC (postgres : MCPPostgres) (pvc : PersistentVolumeClaim) : K () :=
  reconcileResource env (UID (Metadata postgres)) (pg_key_of postgres "-data") pvc None.

(** The first port is compared and changed; the server admits no service without ports. *)
Definition portDiffers (postgres : MCPPostgres) (found desired : Kube.Service) : bool :=
  match ServicePorts (Body found) with
  | [] => false
  | p :: _ => bool_decide (Kube.Port p ≠ SpecPort (Spec postgres))
  end.
Definition takePort (postgres : MCPPostgres) (found desired : Kube.Service) : Kube.Service :=
  let port := SpecPort (Spec postgres) in
  {| Meta := Meta found;
     Body := {| Type_ := Type_ (Body found);
                ServicePorts :=
                  match ServicePorts (Body found) with
                  | [] => []
                  | p :: rest =>
                      {| ServicePortName := ServicePortName p; Kube.Port := port; TargetPort := Some port |} :: rest
                  end;
                Selector := Selector (Body found) |} |}.

Definition pgReconcileService (postgres : MCPPostgres) : K () :=
  reconcileResource env (UID (Metadata postgres)) (pg_key postgres) (pgService postgres)
    (Some (portDiffers postgres, takePort postgres)).

Definition firstImage (d : Deployment) : option string :=
  Image <$> head (Containers (Template (DeploymentSpec_ (Body d)))).

Definition needsDeploymentUpdate (found desired : Deployment) : bool :=
  bool_decide (Replicas (DeploymentSpec_ (Body found)) ≠ Replicas (DeploymentSpec_ (Body desired))) ||
  bool_decide (firstImage found ≠ firstImage desired).

Definition takeSpec (found desired : Deployment) : Deployment :=
  {| Meta := Meta found;
     Body := {| DeploymentSpec_ := DeploymentSpec_ (Body desired);
                DeploymentStatus_ := DeploymentStatus_ (Body found) |} |}.

Definition pgReconcileDeployment (postgres : MCPPostgres) (deployment : Deployment) : K () :=
  reconcileResource env (UID (Metadata postgres)) (pg_key postgres) deployment
    (Some (needsDeploymentUpdate, takeSpec)).

(** ** Status *)

Definition failedStatus (phase message : string) (postgres : MCPPostgres) : MCPPostgresStatus :=
  let s := Status postgres in
  {| PgPhase := phase; PgReadyReplicas := PgReadyReplicas s; PgStatusReplicas := PgStatusReplicas s;
     DatabaseReady := DatabaseReady s; DatabaseError := message; ServiceEndpoint_ := ServiceEndpoint_ s;
     StatusServicePort := StatusServicePort s; StatusStorageSize := StatusStorageSize s;
     PgConditions := PgConditions s; PgObservedGeneration := Generation (Metadata postgres) |}.

Definition updateStatusAndRequeue (postgres : MCPPostgres) (phase message : string) : K Result :=
  UpdateStatus env (pg_key postgres) (setStatus (failedStatus phase message postgres) postgres);; mret Done.

Definition pgCondition (type : string) (status : bool) (reason message : string) (l : list Condition) :
    list Condition :=
  updateCondition l
    {| ConditionType := type; ConditionStatus := if status then "True" else "False";
       LastTransitionTime := now; Reason := reason; ConditionMessage := message |}.

Definition phaseFor (postgres : MCPPostgres) (status : DeploymentStatus) : string :=
  let wanted := PgReplicas (Spec postgres) in
  if decide (ReadyReplicas status = wanted ∧ StatusReplicas status = wanted) then PostgresPhaseRunning
  else if decide (0 < ReadyReplicas status) then PostgresPhaseDegraded
  else PostgresPhaseCreating.

Definition messageFor (postgres : MCPPostgres) (status : DeploymentStatus) : string :=
  let phase := phaseFor postgres status in
  if decide (phase = PostgresPhaseRunning) then "PostgreSQL is running and ready"
  else if decide (phase = PostgresPhaseDegraded)
  then "PostgreSQL partially ready: " +:+ Itoa (ReadyReplicas status) +:+ "/" +:+
       Itoa (PgReplicas (Spec postgres)) +:+ " replicas"
  else "PostgreSQL is starting up".

Definition checkedStatus (postgres : MCPPostgres) (status : DeploymentStatus) : MCPPostgresStatus :=
  let spec := Spec postgres in
  let phase := phaseFor postgres status in
  let message := messageFor postgres status in
  let ready := bool_decide (0 < ReadyReplicas status) in
  {| PgPhase := phase;
     PgReadyReplicas := ReadyReplicas status;
     PgStatusReplicas := StatusReplicas status;
     DatabaseReady := bool_decide (phase = PostgresPhaseRunning) || DatabaseReady (Status postgres);
     DatabaseError := "";
     ServiceEndpoint_ := pg_name postgres +:+ "." +:+ Kube.Namespace (Metadata postgres) +:+ ".svc.cluster.local";
     StatusServicePort := SpecPort spec;
     StatusStorageSize := StorageSize spec;
     PgConditions := pgCondition "DatabaseReady" ready "DatabaseReady" message
                       (pgCondition "Ready" ready "PostgresReady" message (PgConditions (Status postgres)));
     PgObservedGeneration := Generation (Metadata postgres) |}.

Definition checkAndUpdateStatus (postgres : MCPPostgres) : K Result :=
  deployment ← try_ (Get env (B := DeploymentBody) (pg_key postgres));
  match deployment with
  | Err e => updateStatusAndRequeue postgres PostgresPhaseFailed ("Failed to get deployment: " +:+ errorText e)
  | Ok d =>
      UpdateStatus env (pg_key postgres)
        (setStatus (checkedStatus postgres (DeploymentStatus_ (Body d))) postgres);;
      mret Done
  end.

(** A step of the reconcile: its error becomes the phase Failed. *)
Definition orFailed (postgres : MCPPostgres) (what : string) (m : K ()) (next : K Result) : K Result :=
  r ← try_ m;
  match r with
  | Err e => updateStatusAndRequeue postgres PostgresPhaseFailed
               ("Failed to reconcile " +:+ what +:+ ": " +:+ errorText e)
  | Ok _ => next
  end.

Definition panics {A} : K A := fail (OtherError "panic: cannot parse quantity").

Definition pgReconcileObjects (postgres : MCPPostgres) : K Result :=
  orFailed postgres "secret" (pgReconcileSecret postgres) (
  match pgClaim postgres with
  | None => panics
  | Some pvc =>
      orFailed postgres "PVC" (reconcilePVC postgres pvc) (
      orFailed postgres "service" (pgReconcileService postgres) (
      match pgDeployment postgres with
      | None => panics
      | Some deployment =>
          orFailed postgres "deployment" (pgReconcileDeployment postgres deployment) (
          checkAndUpdateStatus postgres)
      end))
  end).

Definition setPgPhase (phase : string) (postgres : MCPPostgres) : MCPPostgres :=
  let s := Status postgres in
  setStatus {| PgPhase := phase; PgReadyReplicas := PgReadyReplicas s; PgStatusReplicas := PgStatusReplicas s;
               DatabaseReady := DatabaseReady s; DatabaseError := DatabaseError s;
               ServiceEndpoint_ := ServiceEndpoint_ s; StatusServicePort := StatusServicePort s;
               StatusStorageSize := StatusStorageSize s; PgConditions := PgConditions s;
               PgObservedGeneration := PgObservedGeneration s |} postgres.

Definition setObserved (postgres : MCPPostgres) : MCPPostgres :=
  setStatus (failedStatus (PgPhase (Status postgres)) (DatabaseError (Status postgres)) postgres) postgres.

Definition pgHandleDeletion (postgres : MCPPostgres) : K Result :=
  let postgres' := setPgPhase PostgresPhaseTerminating postgres in
  (if decide (PgPhase (Status postgres) ≠ PostgresPhaseTerminating)
   then UpdateStatus env (pg_key postgres) postgres';; mret () else mret ());;
  UpdateResource env (pg_key postgres) (RemoveFinalizer postgres' pg_finalizer);;
  mret Done.

(** The server's answers are decoded over the object, whose defaults stay in place. *)
Definition pgReconcile (key : NN) : K Result :=
  found ← fetchInstance env key;
  match found with
  | None => mret Done
  | Some postgres =>
      let postgres := applyDefaults postgres in
      match DeletionTimestamp (Metadata postgres) with
      | Some _ => pgHandleDeletion postgres
      | None =>
          if ContainsFinalizer postgres pg_finalizer then
            if decide (PgPhase (Status postgres) = "") then
              let postgres := setObserved (setPgPhase PostgresPhaseCreating postgres) in
              UpdateStatus env key postgres;;
              pgReconcileObjects postgres
            else pgReconcileObjects postgres
          else UpdateResource env key (AddFinalizer postgres pg_finalizer);; mret Done
      end
  end.
End controller.

(** ** What a reconcile leaves *)

(** Defaults are applied once: applying them again changes nothing. *)
Lemma ifEmpty_twice s value : value ≠ "" → ifEmpty (ifEmpty s value) value = ifEmpty s value.
Proof. intros Hv. unfold ifEmpty. by repeat case_decide. Qed.

Lemma applyDefaults_twice postgres : applyDefaults (applyDefaults postgres) = applyDefaults postgres.
Proof.
  unfold applyDefaults, setSpec. cbn [Spec Metadata Status]. f_equal. f_equal; cbn;
    first [by apply ifEmpty_twice | repeat case_decide; (done || congruence)].
Qed.

Section reconciled.
Context (ParseQuantity : string → option string) (rangeConfig : gmap string string → list (string * string)).
Implicit Types (postgres stored : MCPPostgres) (c : Cluster MCPPostgresSpec MCPPostgresStatus).









Section steps.
Context (env : nat → Outcome) (now : Z).















End steps.
End reconciled.

(** ** Examples *)

Definition example_pg (port : Z) (phase : string) : MCPPostgres := {|
  Metadata := {| Kube.Name := "db"; Kube.Namespace := "default"; UID := "u1"; Generation := 2;
                 Finalizers := [pg_finalizer]; DeletionTimestamp := None |};
  Spec := {| SpecDatabase := ""; SpecUser := ""; SpecPassword := ""; SpecPort := port; StorageSize := "";
             SpecStorageClassName := ""; PgResources := None; Version := ""; PostgresConfig := ∅;
             PgSecurity := None; PgReplicas := 0 |};
  Status := {| PgPhase := phase; PgReadyReplicas := 0; PgStatusReplicas := 0; DatabaseReady := false;
               DatabaseError := ""; ServiceEndpoint_ := ""; StatusServicePort := 0; StatusStorageSize := "";
               PgConditions := []; PgObservedGeneration := 0 |} |}.

Definition example_pg_cluster (c : option (Cluster MCPPostgresSpec MCPPostgresStatus)) (port : Z) (phase : string) :
    Cluster MCPPostgresSpec MCPPostgresStatus :=
  let c := default {| deployments := ∅; Kube.services := ∅; secrets := ∅; configMaps := ∅; claims := ∅;
                      resources := ∅; calls := 0 |} c in
  setResources {[ ("default", "db") := example_pg port phase ]} c.


(** A port that is changed in the specification reaches the service and not the deployment. *)
Example port_change_splits :
  let c1 := (pgReconcile Some map_to_list (λ _, Works) 7 ("default", "db") (example_pg_cluster None 5432 "")).2 in
  let c2 := (pgReconcile Some map_to_list (λ _, Works) 8 ("default", "db")
               (example_pg_cluster (Some c1) 6000 "Creating")).2 in
  ((λ s, Kube.Port <$> ServicePorts (Body s)) <$> Kube.services c2 !! ("default", "db")) = Some [6000] ∧
  ((λ d, PortNumber <$> (Containers (Template (DeploymentSpec_ (Body d))) ≫= Ports))
     <$> deployments c2 !! ("default", "db")) = Some [5432].
Proof. split; vm_compute; reflexivity. Qed.

(** A failed call ends in the phase Failed, a success without another reconcile. *)
Example failure_not_retried :
  let '(r, c) := pgReconcile Some map_to_list (λ k, if decide (k = 3%nat) then Refused "timeout" else Works) 7
                   ("default", "db") (example_pg_cluster None 5432 "") in
  r = Ok Done ∧ (PgPhase ∘ Status <$> resources c !! ("default", "db")) = Some "Failed".
Proof. vm_compute. split; reflexivity. Qed.

(** A storage size that does not parse ends each reconcile in a panic, without a status. *)
Example storage_size_panics :
  let '(r, c) := pgReconcile (λ _, None) map_to_list (λ _, Works) 7 ("default", "db") (example_pg_cluster None 5432 "Creating") in
  is_ok r = false ∧ (PgPhase ∘ Status <$> resources c !! ("default", "db")) = Some "Creating".
Proof. vm_compute. split; reflexivity. Qed.

(** A database that was ready once stays ready in its status. *)
Example ready_stays :
  DatabaseReady (checkedStatus 7 (setStatus (checkedStatus 7 (applyDefaults (example_pg 5432 ""))
      {| StatusReplicas := 1; ReadyReplicas := 1 |}) (applyDefaults (example_pg 5432 "")))
    {| StatusReplicas := 1; ReadyReplicas := 0 |}) = true.
Proof. reflexivity. Qed.
