(* ===== verification/Workflows.v ===== *)
(** * Workflows as resources

    The data of internal/crd/mcptaskscheduler.go that the store, the scheduler and the
    executor of workflows share.  The part of a definition that the engine reads is
    WorkflowGraph's; the rest is added to it here.  A step's description, which nothing
    reads, is left out, and so are a step's further fields of a retry policy. *)
From S2P Require Import Prelude GoString GoNum GoTime WorkflowGraph.

#[local] Open Scope Z_scope.

Set Default Proof Using "Type*".

(** The retry policy of a workflow, in full. *)
Record RetryPolicySpec := {
  RP_MaxRetries : Z;
  RP_RetryDelay : string;
  RP_BackoffStrategy : string;
  RP_MaxRetryDelay : string;
  RP_BackoffMultiplier : float64;
}.

Record WorkflowWorkspace := {
  WorkspaceEnabled : bool;
  Size : string;
  StorageClass : string;
  WorkspaceMountPath : string;
  WorkspaceAccessModes : list string;
  ReclaimPolicy : string;
  RetainWorkspace : bool;
  WorkspaceRetentionDays : Z;
}.

Definition WorkflowVolumeReclaimDelete : string := "Delete".
Definition WorkflowVolumeReclaimRetain : string := "Retain".

(** A [WorkflowDefinition]: [Def] has the schedule, the steps and the timeout. *)
Record Workflow := {
  WorkflowName : string;
  Def : WorkflowDefinition;
  WorkflowTimezone : string;
  WorkflowEnabled : bool;
  ConcurrencyPolicy : string;
  WorkflowParameters : gmap string Value;
  WorkflowRetry : option RetryPolicySpec;
  Tags : list string;
  Description : string;
  ManualExecution : bool;
  Workspace : option WorkflowWorkspace;
}.

(** The conversion int32(z). *)
Definition int32 (z : Z) : Z := (z + 2 ^ 31) mod 2 ^ 32 - 2 ^ 31.

(** time.ParseDuration of an optional text, in whole seconds: [int(duration.Seconds())],
    and nothing for a text that is empty or not a duration. *)
Definition durationSeconds (text : string) : option Z :=
  if decide (text = "") then None else intOf ∘ Seconds <$> ParseDuration text.

(** A duration that is kept if the text is one, and [otherwise] if not. *)
Definition durationOr (otherwise : Z) (text : string) : Z :=
  if decide (text = "") then otherwise else default otherwise (ParseDuration text).

Lemma durationSeconds_text n : 0 ≤ n ≤ 9223372036 → durationSeconds (secondsText n) = Some n.
Proof.
  intros Hn. unfold durationSeconds. rewrite decide_False.
  - rewrite ParseDuration_seconds by done. simpl. by rewrite intOf_Seconds by lia.
  - unfold secondsText. intros Hs. apply (f_equal String.length) in Hs.
    rewrite slength_app in Hs. simpl in Hs. lia.
Qed.

(** Less than a second is no time at all. *)
Example durationSeconds_ex :
  durationSeconds "500ms" = Some 0 ∧ durationSeconds "1m30s" = Some 90 ∧
  durationSeconds "soon" = None ∧ durationSeconds "-90s" = Some (-90).
Proof. vm_compute. done. Qed.
