(* ===== verification/WorkflowStore.v ===== *)
(** * The store of workflows

    internal/scheduler/workflow_store.go over the tables that scripts/init_db.sql
    creates, with their constraints.  Each statement is a call that may fail; a query
    may also deliver only some of its rows, since no loop asks [rows.Err] why it
    ended.  How JSON, arrays and decimals are written is the class [Codec].  Times and
    the identifiers of steps, which are only reported, are left out. *)
From S2P Require Import Prelude GoString GoNum GoTime Calls WorkflowGraph Workflows.

#[local] Open Scope Z_scope.

Set Default Proof Using "Type*".

(** ** Tables *)

Record WorkflowRow := {
  wf_id : nat;
  wf_name : string;
  wf_description : string;
  wf_schedule : string;
  wf_timezone : string;
  wf_enabled : bool;
  wf_status : string;
  wf_policy : string;
  wf_timeout : option Z;
}.

(** [st_parameters] is the text of a JSONB value. *)
Record StepRow := {
  st_workflow : nat;
  st_name : string;
  st_order : Z;
  st_tool : string;
  st_parameters : string;
  st_condition : string;
  st_continue : bool;
  st_timeout : option Z;
  st_depends : list string;
}.

Record PolicyRow := {
  rp_workflow : nat;
  rp_retries : Z;
  rp_delay : Z;
  rp_strategy : string;
  rp_maxDelay : Z;
  rp_multiplier : float64;
}.

(** [nextID] is the next identifier that uuid.New gives. *)
Record Database := {
  workflows : list WorkflowRow;
  steps : list StepRow;
  policies : list PolicyRow;
  nextID : nat;
}.

Definition emptyDatabase : Database := {| workflows := []; steps := []; policies := []; nextID := 0 |}.

(** ** Records *)

Record WorkflowStepRecord := {
  StepName : string;
  StepOrder : Z;
  StepTool : string;
  StepParameters : gmap string Value;
  ConditionExpr : string;
  StepContinueOnError : bool;
  StepTimeoutSeconds : option Z;
  StepDependsOn : list string;
}.

Record WorkflowRetryPolicyRecord := {
  PolicyMaxRetries : Z;
  RetryDelaySeconds : Z;
  PolicyStrategy : string;
  MaxRetryDelaySeconds : Z;
  PolicyMultiplier : float64;
}.

Record WorkflowRecord := {
  RecordID : nat;
  RecordName : string;
  RecordDescription : string;
  RecordSchedule : string;
  RecordTimezone : string;
  RecordEnabled : bool;
  RecordStatus : string;
  RecordPolicy : string;
  RecordTimeoutSeconds : option Z;
  RecordSteps : list WorkflowStepRecord;
  RecordRetry : option WorkflowRetryPolicyRecord;
}.

(** encoding/json and PostgreSQL, as far as they are asked: how values are written and
    read, what JSONB and DECIMAL(4,2) make of what they are sent, and the order of the
    names in an ORDER BY. *)
Class Codec := {
  MarshalMap : gmap string Value → option string;
  UnmarshalMap : string → option (gmap string Value);
  MarshalStrings : list string → string;
  UnmarshalStrings : string → option (list string);
  jsonb : string → option string;
  parseArray : string → option (list string);
  printArray : list string → string;
  decimal42 : float64 → option float64;
  byName : list WorkflowRow → list WorkflowRow;
}.

Definition dquote : ascii := "034"%char.

(** JSON arrays begin with a bracket, which an array of PostgreSQL may only begin with if
    bounds of its indices follow. *)
Class CodecLaws `{Codec} := {
  strings_bracket : ∀ d l, ∃ rest, MarshalStrings (d :: l) = String "[" (String dquote rest);
  array_bracket : ∀ rest, parseArray (String "[" (String dquote rest)) = None;
  array_empty : parseArray "{}" = Some [];
  array_print : printArray [] = "{}";
  byName_perm : ∀ l, byName l ≡ₚ l;
}.

(** ** Statements *)

(** Text that the database takes: valid UTF-8 without the byte 0. *)
Definition textColumn (s : string) : option string :=
  if Valid s && (CountByte s "000" =? 0)%nat then Some s else None.

(** VARCHAR(n) cuts spaces off a longer text, and takes no other longer text. *)
Definition varchar (n : nat) (s : string) : option string :=
  s ← textColumn s;
  if (length (runes s) <=? n)%nat then Some s
  else if forallb (N.eqb 32) (drop n (runes s)) then Some (encodeRunes (take n (runes s))) else None.

Definition integerColumn (z : Z) : option Z :=
  if bool_decide (- 2 ^ 31 ≤ z < 2 ^ 31) then Some z else None.

Definition nullableInteger (o : option Z) : option (option Z) :=
  match o with None => Some None | Some z => Some <$> integerColumn z end.

Definition with_workflows (l : list WorkflowRow) (db : Database) : Database :=
  {| workflows := l; steps := steps db; policies := policies db; nextID := nextID db |}.

Definition active (r : WorkflowRow) : Prop := wf_status r = "active".
#[export] Instance active_decision r : Decision (active r).
Proof. unfold active. apply _. Defined.

(** ORDER BY step_order. *)
Definition byOrder (a b : StepRow) : Prop := st_order a ≤ st_order b.
#[export] Instance byOrder_decision a b : Decision (byOrder a b).
Proof. unfold byOrder. apply _. Defined.

Definition stepsOf (id : nat) (db : Database) : list StepRow :=
  merge_sort byOrder (filter (λ r, st_workflow r = id) (steps db)).

Section store.
Context `{!Codec}.

(** The outcome of the n-th call, and how many rows a query delivers, if not all. *)
Context (env : nat → Outcome) (delivered : nat → option nat).

(** The columns of a row as the database converts them. *)
Definition workflowColumns (r : WorkflowRow) : option WorkflowRow :=
  name ← varchar 255 (wf_name r); description ← textColumn (wf_description r);
  schedule ← varchar 255 (wf_schedule r); timezone ← varchar 100 (wf_timezone r);
  policy ← varchar 50 (wf_policy r); timeout ← nullableInteger (wf_timeout r);
  Some {| wf_id := wf_id r; wf_name := name; wf_description := description;
          wf_schedule := schedule; wf_timezone := timezone; wf_enabled := wf_enabled r;
          wf_status := wf_status r; wf_policy := policy; wf_timeout := timeout |}.

(** INSERT INTO workflows: the name is UNIQUE. *)
Definition insertWorkflow (r : WorkflowRow) (db : Database) : res string () * Database :=
  match workflowColumns r with
  | None => (Err "pq: invalid value", db)
  | Some row =>
      if decide (wf_name row ∈ wf_name <$> workflows db)
      then (Err "pq: duplicate key value violates unique constraint", db)
      else (Ok (), with_workflows (workflows db ++ [row]) db)
  end.

Definition stepColumns (id : nat) (order : Z) (step : WorkflowStep) (parametersJSON : string)
    (timeout : option Z) (dependsOnArray : string) : option StepRow :=
  name ← varchar 255 (Name step); order ← integerColumn order; tool ← varchar 255 (Tool step);
  parameters ← jsonb parametersJSON; condition ← textColumn (Condition step);
  timeout ← nullableInteger timeout; depends ← parseArray dependsOnArray;
  Some {| st_workflow := id; st_name := name; st_order := order; st_tool := tool;
          st_parameters := parameters; st_condition := condition;
          st_continue := ContinueOnError step; st_timeout := timeout; st_depends := depends |}.

(** INSERT INTO workflow_steps. *)
Definition insertStep (id : nat) (order : Z) (step : WorkflowStep) (parametersJSON : string)
    (timeout : option Z) (dependsOnArray : string) (db : Database) : res string () * Database :=
  match stepColumns id order step parametersJSON timeout dependsOnArray with
  | None => (Err "pq: invalid value", db)
  | Some row =>
      if decide ((id, order) ∈ (λ r, (st_workflow r, st_order r)) <$> steps db)
      then (Err "pq: duplicate key value violates unique constraint", db)
      else (Ok (), {| workflows := workflows db; steps := steps db ++ [row];
                      policies := policies db; nextID := nextID db |})
  end.

Definition policyColumns (id : nat) (p : WorkflowRetryPolicyRecord) : option PolicyRow :=
  retries ← integerColumn (PolicyMaxRetries p); delay ← integerColumn (RetryDelaySeconds p);
  strategy ← varchar 50 (PolicyStrategy p); maxDelay ← integerColumn (MaxRetryDelaySeconds p);
  multiplier ← decimal42 (PolicyMultiplier p);
  Some {| rp_workflow := id; rp_retries := retries; rp_delay := delay; rp_strategy := strategy;
          rp_maxDelay := maxDelay; rp_multiplier := multiplier |}.

(** INSERT INTO workflow_retry_policies. *)
Definition insertPolicy (id : nat) (p : WorkflowRetryPolicyRecord) (db : Database) :
    res string () * Database :=
  match policyColumns id p with
  | None => (Err "pq: invalid value", db)
  | Some row =>
      if decide (id ∈ rp_workflow <$> policies db)
      then (Err "pq: duplicate key value violates unique constraint", db)
      else (Ok (), {| workflows := workflows db; steps := steps db;
                      policies := policies db ++ [row]; nextID := nextID db |})
  end.

(** A query, as far as its rows arrive. *)
Definition query {A} (f : Database → list A) : Prog Database (list A) := λ w,
  call env (λ db, (Ok (match delivered w.2 with None => f db | Some k => take k (f db) end), db)) w.

(** QueryRow: the first row, or sql.ErrNoRows. *)
Definition queryRow {A} (f : Database → list A) : Prog Database (option A) :=
  call env (λ db, (Ok (head (f db)), db)).

Definition newID : Prog Database nat := λ '(db, n),
  (Ok (nextID db), ({| workflows := workflows db; steps := steps db; policies := policies db;
                       nextID := S (nextID db) |}, n)).

(** The database as it was, but for the identifiers that were given. *)
Definition rolledBack (db db' : Database) : Database :=
  {| workflows := workflows db; steps := steps db; policies := policies db; nextID := nextID db' |}.

(** Begin, the body, and a commit or a rollback. *)
Definition transaction {A} (body : Prog Database A) : Prog Database A := λ '(db, n),
  match during "failed to begin transaction" (call env (λ db, (Ok (), db))) (db, n) with
  | (Err e, w) => (Err e, w)
  | (Ok _, w) =>
      match body w with
      | (Err e, (db', n')) => (Err e, (rolledBack db db', S n'))
      | (Ok a, (db', n')) =>
          match env n' with
          | Works => (Ok a, (db', S n'))
          | Refused e => (Err ("failed to commit transaction: " +:+ e), (rolledBack db db', S n'))
          | Lost e => (Err ("failed to commit transaction: " +:+ e), (db', S n'))
          end
      end
  end.

(** ** Creation *)

(** The text for the column depends_on. *)
Definition arrayText (l : list string) : string :=
  match l with [] => "{}" | _ => MarshalStrings l end.

(** One iteration of the loop over the steps, the [i]-th. *)
Definition createStep (id : nat) (i : Z) (step : WorkflowStep) : Prog Database WorkflowStepRecord :=
  match MarshalMap (Parameters step) with
  | None => throw "failed to marshal step parameters"
  | Some parametersJSON =>
      let stepTimeoutSeconds := durationSeconds (Timeout step) in
      let dependsOnArray := arrayText (DependsOn step) in
      during ("failed to insert workflow step " +:+ Name step)
        (call env (insertStep id (i + 1) step parametersJSON stepTimeoutSeconds dependsOnArray));;
      mret {| StepName := Name step; StepOrder := i + 1; StepTool := Tool step;
              StepParameters := Parameters step; ConditionExpr := Condition step;
              StepContinueOnError := ContinueOnError step; StepTimeoutSeconds := stepTimeoutSeconds;
              StepDependsOn := DependsOn step |}
  end.

Definition secondsOr (otherwise : Z) (text : string) : Z := default otherwise (durationSeconds text).

Definition policyRecord (p : RetryPolicySpec) : WorkflowRetryPolicyRecord :=
  {| PolicyMaxRetries := RP_MaxRetries p; RetryDelaySeconds := secondsOr 30 (RP_RetryDelay p);
     PolicyStrategy := RP_BackoffStrategy p; MaxRetryDelaySeconds := secondsOr 300 (RP_MaxRetryDelay p);
     PolicyMultiplier := RP_BackoffMultiplier p |}.

Definition createPolicy (id : nat) (retry : option RetryPolicySpec) :
    Prog Database (option WorkflowRetryPolicyRecord) :=
  match retry with
  | None => mret None
  | Some p =>
      during "failed to insert retry policy" (call env (insertPolicy id (policyRecord p)));;
      mret (Some (policyRecord p))
  end.

Definition workflowRow (id : nat) (w : Workflow) : WorkflowRow :=
  {| wf_id := id; wf_name := WorkflowName w; wf_description := Description w;
     wf_schedule := Schedule (Def w); wf_timezone := WorkflowTimezone w;
     wf_enabled := WorkflowEnabled w; wf_status := "active"; wf_policy := ConcurrencyPolicy w;
     wf_timeout := durationSeconds (WfTimeout (Def w)) |}.

Definition CreateWorkflow (w : Workflow) : Prog Database WorkflowRecord :=
  transaction (
    id ← newID;
    during "failed to insert workflow" (call env (insertWorkflow (workflowRow id w)));;
    stepRecords ← collect (λ '(i, step), createStep id i step) (imap (λ i s, (Z.of_nat i, s)) (Steps (Def w)));
    retryPolicyRecord ← createPolicy id (WorkflowRetry w);
    mret {| RecordID := id; RecordName := WorkflowName w; RecordDescription := Description w;
            RecordSchedule := Schedule (Def w); RecordTimezone := WorkflowTimezone w;
            RecordEnabled := WorkflowEnabled w; RecordStatus := ""; RecordPolicy := ConcurrencyPolicy w;
            RecordTimeoutSeconds := durationSeconds (WfTimeout (Def w)); RecordSteps := stepRecords;
            RecordRetry := retryPolicyRecord |}).

(** ** Reading *)

(** What a row of steps is read as. *)
Definition stepRecord (r : StepRow) : res string WorkflowStepRecord :=
  match UnmarshalMap (st_parameters r) with
  | None => Err "failed to parse step parameters"
  | Some parameters =>
      let dependsOnJSON := printArray (st_depends r) in
      let record depends :=
        {| StepName := st_name r; StepOrder := st_order r; StepTool := st_tool r;
           StepParameters := parameters; ConditionExpr := st_condition r;
           StepContinueOnError := st_continue r; StepTimeoutSeconds := st_timeout r;
           StepDependsOn := depends |} in
      if decide (dependsOnJSON = "{}" ∨ dependsOnJSON = "") then Ok (record [])
      else match UnmarshalStrings dependsOnJSON with
           | None => Err "failed to parse depends_on"
           | Some depends => Ok (record depends)
           end
  end.

Definition lift {A} (r : res string A) : Prog Database A := λ w, (r, w).

Definition getWorkflowSteps (id : nat) : Prog Database (list WorkflowStepRecord) :=
  rows ← query (stepsOf id);
  collect (λ r, lift (stepRecord r)) rows.

(** [None] is sql.ErrNoRows, which the callers take for no policy. *)
Definition getWorkflowRetryPolicy (id : nat) : Prog Database (option WorkflowRetryPolicyRecord) :=
  row ← queryRow (λ db, filter (λ r, rp_workflow r = id) (policies db));
  mret ((λ r, {| PolicyMaxRetries := rp_retries r; RetryDelaySeconds := rp_delay r;
                 PolicyStrategy := rp_strategy r; MaxRetryDelaySeconds := rp_maxDelay r;
                 PolicyMultiplier := rp_multiplier r |}) <$> row).

(** A row with its steps and its retry policy, and what an error with them is called. *)
Definition readWorkflow (stepsFailed policyFailed : string) (r : WorkflowRow) :
    Prog Database WorkflowRecord :=
  stepRecords ← during stepsFailed (getWorkflowSteps (wf_id r));
  retryPolicy ← during policyFailed (getWorkflowRetryPolicy (wf_id r));
  mret {| RecordID := wf_id r; RecordName := wf_name r; RecordDescription := wf_description r;
          RecordSchedule := wf_schedule r; RecordTimezone := wf_timezone r;
          RecordEnabled := wf_enabled r; RecordStatus := wf_status r; RecordPolicy := wf_policy r;
          RecordTimeoutSeconds := wf_timeout r; RecordSteps := stepRecords; RecordRetry := retryPolicy |}.

Definition GetWorkflow (name : string) : Prog Database WorkflowRecord :=
  row ← during "failed to get workflow"
          (queryRow (λ db, filter (λ r, wf_name r = name ∧ active r) (workflows db)));
  match row with
  | None => throw ("workflow " +:+ name +:+ " not found")
  | Some r => readWorkflow "failed to get workflow steps" "failed to get retry policy" r
  end.

Definition ListWorkflows : Prog Database (list WorkflowRecord) :=
  rows ← during "failed to list workflows" (query (λ db, byName (filter active (workflows db))));
  collect (λ r, readWorkflow ("failed to get steps for workflow " +:+ wf_name r)
                         ("failed to get retry policy for workflow " +:+ wf_name r) r) rows.

(** ** Changes *)

(** An UPDATE of the rows that satisfy [p], which answers how many they are. *)
Definition update (p : WorkflowRow → Prop) `{∀ r, Decision (p r)} (f : WorkflowRow → WorkflowRow) :
    Prog Database nat :=
  call env (λ db,
    (Ok (length (filter p (workflows db))),
     with_workflows ((λ r, if decide (p r) then f r else r) <$> workflows db) db)).

Definition set_status (status : string) (r : WorkflowRow) : WorkflowRow :=
  {| wf_id := wf_id r; wf_name := wf_name r; wf_description := wf_description r;
     wf_schedule := wf_schedule r; wf_timezone := wf_timezone r; wf_enabled := wf_enabled r;
     wf_status := status; wf_policy := wf_policy r; wf_timeout := wf_timeout r |}.
Definition set_enabled (enabled : bool) (r : WorkflowRow) : WorkflowRow :=
  {| wf_id := wf_id r; wf_name := wf_name r; wf_description := wf_description r;
     wf_schedule := wf_schedule r; wf_timezone := wf_timezone r; wf_enabled := enabled;
     wf_status := wf_status r; wf_policy := wf_policy r; wf_timeout := wf_timeout r |}.

Definition foundOne (name : string) (rowsAffected : nat) : Prog Database () :=
  if decide (rowsAffected = 0)%nat then throw ("workflow " +:+ name +:+ " not found") else mret ().

Definition DeleteWorkflow (name : string) : Prog Database () :=
  rowsAffected ← during "failed to soft delete workflow"
    (update (λ r, wf_name r = name ∧ active r) (set_status "deleted"));
  foundOne name rowsAffected.

Definition UpdateWorkflowEnabled (name : string) (enabled : bool) : Prog Database () :=
  rowsAffected ← during "failed to update workflow enabled status"
    (update (λ r, wf_name r = name) (set_enabled enabled));
  foundOne name rowsAffected.
End store.

(** ** Conversion to the resource *)

Definition secondsOption (o : option Z) : string := from_option secondsText "" o.

Definition toStep (r : WorkflowStepRecord) : WorkflowStep :=
  {| Name := StepName r; Tool := StepTool r; Parameters := StepParameters r;
     DependsOn := StepDependsOn r; Condition := ConditionExpr r; RunPolicy := "";
     ContinueOnError := StepContinueOnError r; Timeout := secondsOption (StepTimeoutSeconds r);
     RetryPolicy := None |}.

Definition toPolicy (p : WorkflowRetryPolicyRecord) : RetryPolicySpec :=
  {| RP_MaxRetries := int32 (PolicyMaxRetries p); RP_RetryDelay := secondsText (RetryDelaySeconds p);
     RP_BackoffStrategy := PolicyStrategy p; RP_MaxRetryDelay := secondsText (MaxRetryDelaySeconds p);
     RP_BackoffMultiplier := PolicyMultiplier p |}.

Definition ToCRDWorkflowDefinition (r : WorkflowRecord) : Workflow :=
  {| WorkflowName := RecordName r;
     Def := {| Schedule := RecordSchedule r; Steps := toStep <$> RecordSteps r;
               WfTimeout := secondsOption (RecordTimeoutSeconds r) |};
     WorkflowTimezone := RecordTimezone r; WorkflowEnabled := RecordEnabled r;
     ConcurrencyPolicy := RecordPolicy r; WorkflowParameters := ∅;
     WorkflowRetry := toPolicy <$> RecordRetry r; Tags := []; Description := RecordDescription r;
     ManualExecution := false; Workspace := None |}.

(** The same by appending step after step. *)
Definition ToWorkflowDefinition (r : WorkflowRecord) : Workflow :=
  let workflow := ToCRDWorkflowDefinition r in
  {| WorkflowName := WorkflowName workflow;
     Def := {| Schedule := Schedule (Def workflow);
               Steps := foldl (λ l step, l ++ [toStep step]) [] (RecordSteps r);
               WfTimeout := WfTimeout (Def workflow) |};
     WorkflowTimezone := WorkflowTimezone workflow; WorkflowEnabled := WorkflowEnabled workflow;
     ConcurrencyPolicy := ConcurrencyPolicy workflow;
     WorkflowParameters := WorkflowParameters workflow; WorkflowRetry := WorkflowRetry workflow;
     Tags := Tags workflow; Description := Description workflow;
     ManualExecution := ManualExecution workflow; Workspace := Workspace workflow |}.

Lemma ToWorkflowDefinition_same r : ToWorkflowDefinition r = ToCRDWorkflowDefinition r.
Proof.
  unfold ToWorkflowDefinition. simpl.
  assert (∀ l acc, foldl (λ l step, l ++ [toStep step]) acc l = acc ++ (toStep <$> l)) as ->; [|done].
  induction l as [|x l IH]; intros acc; simpl; [by rewrite app_nil_r|]. by rewrite IH, <-app_assoc.
Qed.

(** ** What survives the store *)

(** Timeouts in whole seconds; dependencies, run policies and retry policies of steps,
    parameters, tags and the workspace are not kept. *)
Definition persistedStep (s : WorkflowStep) : WorkflowStep :=
  {| Name := Name s; Tool := Tool s; Parameters := Parameters s; DependsOn := [];
     Condition := Condition s; RunPolicy := ""; ContinueOnError := ContinueOnError s;
     Timeout := secondsOption (durationSeconds (Timeout s)); RetryPolicy := None |}.

Definition persisted (w : Workflow) : Workflow :=
  {| WorkflowName := WorkflowName w;
     Def := {| Schedule := Schedule (Def w); Steps := persistedStep <$> Steps (Def w);
               WfTimeout := secondsOption (durationSeconds (WfTimeout (Def w))) |};
     WorkflowTimezone := WorkflowTimezone w; WorkflowEnabled := WorkflowEnabled w;
     ConcurrencyPolicy := ConcurrencyPolicy w; WorkflowParameters := ∅;
     WorkflowRetry := toPolicy ∘ policyRecord <$> WorkflowRetry w; Tags := [];
     Description := Description w; ManualExecution := false; Workspace := None |}.

(** The first [k] steps of a workflow. *)
Definition cut (k : nat) (w : Workflow) : Workflow :=
  {| WorkflowName := WorkflowName w;
     Def := {| Schedule := Schedule (Def w); Steps := take k (Steps (Def w));
               WfTimeout := WfTimeout (Def w) |};
     WorkflowTimezone := WorkflowTimezone w; WorkflowEnabled := WorkflowEnabled w;
     ConcurrencyPolicy := ConcurrencyPolicy w; WorkflowParameters := WorkflowParameters w;
     WorkflowRetry := WorkflowRetry w; Tags := Tags w; Description := Description w;
     ManualExecution := ManualExecution w; Workspace := Workspace w |}.

Section laws.
Context `{!Codec}.

(** The columns take the fields as they are, and parameters come back as they were. *)
Record step_fits (s : WorkflowStep) : Prop := {
  sf_name : varchar 255 (Name s) = Some (Name s);
  sf_tool : varchar 255 (Tool s) = Some (Tool s);
  sf_condition : textColumn (Condition s) = Some (Condition s);
  sf_timeout : nullableInteger (durationSeconds (Timeout s)) = Some (durationSeconds (Timeout s));
  sf_parameters : ∃ json text, MarshalMap (Parameters s) = Some json ∧ jsonb json = Some text ∧
    UnmarshalMap text = Some (Parameters s);
}.

Record fits (w : Workflow) : Prop := {
  fit_columns : ∀ id, workflowColumns (workflowRow id w) = Some (workflowRow id w);
  fit_steps : Forall step_fits (Steps (Def w));
  fit_length : Z.of_nat (length (Steps (Def w))) < 2 ^ 31;
  fit_policy : ∀ id p, WorkflowRetry w = Some p → ∃ row, policyColumns id (policyRecord p) = Some row ∧
    (rp_workflow row, rp_retries row, rp_delay row, rp_strategy row, rp_maxDelay row, rp_multiplier row) =
    (id, RP_MaxRetries p, secondsOr 30 (RP_RetryDelay p), RP_BackoffStrategy p,
     secondsOr 300 (RP_MaxRetryDelay p), RP_BackoffMultiplier p);
}.

(** The keys of the tables: names and identifiers are unique, and identifiers to come
    are not in use. *)
Record db_ok (db : Database) : Prop := {
  do_names : NoDup (wf_name <$> workflows db);
  do_ids : Forall (λ r, (wf_id r < nextID db)%nat) (workflows db);
  do_steps : Forall (λ r, (st_workflow r < nextID db)%nat) (steps db);
  do_policies : Forall (λ r, (rp_workflow r < nextID db)%nat) (policies db);
}.

(** The row of a step, the [i]-th of workflow [id]. *)
Definition stepRowOf (id : nat) (p : Z * WorkflowStep) : option StepRow :=
  json ← MarshalMap (Parameters p.2);
  stepColumns id (p.1 + 1) p.2 json (durationSeconds (Timeout p.2)) (arrayText (DependsOn p.2)).

Definition numbered (l : list WorkflowStep) : list (Z * WorkflowStep) := imap (λ i s, (Z.of_nat i, s)) l.

Definition add_rows (row : WorkflowRow) (rows : list StepRow) (pol : list PolicyRow) (db : Database) : Database :=
  {| workflows := workflows db ++ [row]; steps := steps db ++ rows; policies := policies db ++ pol;
     nextID := S (nextID db) |}.

(** ** Creation *)

Context `{!CodecLaws}.

(** JSON is no array of PostgreSQL. *)
Lemma stepRowOf_depends id p row : stepRowOf id p = Some row → DependsOn p.2 = [].
Proof.
  unfold stepRowOf, stepColumns, arrayText. destruct (DependsOn p.2) as [|d l]; [done|].
  destruct (strings_bracket d l) as [rest ->]. intros Hr. exfalso.
  repeat (apply bind_Some in Hr as (? & ? & Hr)). by rewrite array_bracket in *.
Qed.

Lemma stepRowOf_read id p row : stepRowOf id p = Some row → step_fits p.2 →
  st_workflow row = id ∧ st_order row = p.1 + 1 ∧
  ∃ rec, stepRecord row = Ok rec ∧ toStep rec = persistedStep p.2.
Proof.
  intros Hr [Hn Ht Hc Hto (json & text & Hj & Hb & Hu)].
  pose proof (stepRowOf_depends _ _ _ Hr) as Hd. revert Hr.
  unfold stepRowOf, stepColumns, arrayText. rewrite Hd, Hj, Hn, Ht, Hc, Hto, array_empty. simpl.
  rewrite Hb. unfold integerColumn. case_bool_decide; [|done]. simpl. intros [= <-]. simpl.
  split_and!; [done..|]. unfold stepRecord. simpl. rewrite Hu, array_print.
  rewrite decide_True by by left. eexists. split; [done|]. unfold toStep, persistedStep. simpl. done.
Qed.

Lemma stepRowOf_fits id p : DependsOn p.2 = [] → step_fits p.2 → 0 ≤ p.1 < 2 ^ 31 - 1 →
  is_Some (stepRowOf id p).
Proof.
  intros Hd [Hn Ht Hc Hto (json & text & Hj & Hb & Hu)] Hi.
  unfold stepRowOf, stepColumns, arrayText. rewrite Hd, Hj, Hn, Ht, Hc, Hto, array_empty. simpl.
  rewrite Hb. unfold integerColumn. rewrite bool_decide_true by lia. simpl. eauto.
Qed.

Definition add_steps (rows : list StepRow) (db : Database) : Database :=
  {| workflows := workflows db; steps := steps db ++ rows; policies := policies db; nextID := nextID db |}.

Lemma add_steps_app rows rows' db : add_steps rows' (add_steps rows db) = add_steps (rows ++ rows') db.
Proof. unfold add_steps. simpl. by rewrite app_assoc. Qed.

Lemma createStep_spec env id i s db n :
  wp (createStep env id i s) (db, n) (λ r w, match r with
    | Ok _ => ∃ row, stepRowOf id (i, s) = Some row ∧ w.1 = add_steps [row] db
    | Err _ => nextID w.1 = nextID db end).
Proof.
  unfold createStep, stepRowOf. simpl. destruct (MarshalMap _) as [json|]; simpl; [|done].
  apply prog_bind, wp_during. unfold insertStep. apply wp_call; simpl; [|done|];
    destruct (stepColumns _ _ _ _ _ _) as [row|]; simpl; try done; case_decide; simpl; try done.
  apply prog_ret. by exists row.
Qed.

Lemma createSteps_spec env id l db n :
  wp (collect (λ '(i, s), createStep env id i s) l) (db, n) (λ r w, match r with
    | Ok _ => ∃ rows, Forall2 (λ p row, stepRowOf id p = Some row) l rows ∧ w.1 = add_steps rows db
    | Err _ => nextID w.1 = nextID db end).
Proof.
  revert db n. induction l as [|[i s] l IH]; intros db n; simpl.
  - apply prog_ret. exists []. split; [constructor|]. unfold add_steps. simpl. rewrite app_nil_r. by destruct db.
  - apply prog_bind. eapply prog_mono; [apply createStep_spec|]. intros [rec|e] [db1 n1]; simpl; [|done].
    intros (row & Hrow & ->). apply prog_bind. eapply prog_mono; [apply IH|].
    intros [recs|e] [db2 n2]; simpl; [|done]. intros (rows & Hrows & ->). apply prog_ret.
    exists (row :: rows). split; [by constructor|]. by rewrite add_steps_app.
Qed.

Definition policyRows (id : nat) (retry : option RetryPolicySpec) (pol : list PolicyRow) : Prop :=
  match retry with
  | None => pol = []
  | Some p => ∃ row, policyColumns id (policyRecord p) = Some row ∧ pol = [row]
  end.

(** What a creation that took effect did. *)
Definition created (w : Workflow) (db db' : Database) : Prop :=
  ∃ row rows pol, workflowColumns (workflowRow (nextID db) w) = Some row ∧
    wf_name row ∉ wf_name <$> workflows db ∧
    Forall2 (λ p r, stepRowOf (nextID db) p = Some r) (numbered (Steps (Def w))) rows ∧
    policyRows (nextID db) (WorkflowRetry w) pol ∧ db' = add_rows row rows pol db.

(** Tables as they were. *)
Definition unchanged (db db' : Database) : Prop := ∃ db'', db' = rolledBack db db'' ∧ (nextID db ≤ nextID db'')%nat.

Lemma wp_transaction {A} env (body : Prog Database A) db n (Q : res string A → Database * nat → Prop) :
  (∀ e k, Q (Err e) (db, k)) →
  wp body (db, S n) (λ r w, match r with
    | Err e => Q (Err e) (rolledBack db w.1, S w.2)
    | Ok a => Q (Ok a) (w.1, S w.2) ∧ (∀ e, Q (Err e) (rolledBack db w.1, S w.2)) ∧
        ∀ e, Q (Err e) (w.1, S w.2)
    end) → wp (transaction env body) (db, n) Q.
Proof.
  unfold wp, transaction, during, call. intros Hbegin Hb.
  destruct (env n); simpl; [|apply Hbegin..].
  destruct (body (db, S n)) as [[a|e] [db' n']]; simpl in *; [|done].
  destruct Hb as (H1 & H2 & H3). destruct (env n'); simpl; auto.
Qed.

Lemma createPolicy_spec env id retry db n :
  wp (createPolicy env id retry) (db, n) (λ r w, match r with
    | Ok _ => ∃ pol, policyRows id retry pol ∧
        w.1 = {| workflows := workflows db; steps := steps db; policies := policies db ++ pol; nextID := nextID db |}
    | Err _ => nextID w.1 = nextID db end).
Proof.
  unfold createPolicy. destruct retry as [p|]; simpl; [|apply prog_ret; exists []; rewrite app_nil_r; by destruct db].
  apply prog_bind, wp_during. unfold insertPolicy.
  apply wp_call; simpl; [|done|]; destruct (policyColumns id (policyRecord p)) as [row|] eqn:Hp;
    simpl; try done; case_decide; simpl; try done.
  apply prog_ret. exists [row]. eauto.
Qed.

(** Whatever its calls come to, a creation takes effect in full or not at all, and in full
    if it says so. *)
Lemma CreateWorkflow_spec env w db n :
  wp (CreateWorkflow env w) (db, n) (λ r x, match r with
    | Ok _ => created w db x.1
    | Err _ => created w db x.1 ∨ unchanged db x.1 end).
Proof.
  unfold CreateWorkflow. apply wp_transaction.
  { intros e k. simpl. right. exists db. split; [by destruct db|done]. }
  assert (∀ db', nextID db' = S (nextID db) → unchanged db (rolledBack db db')) as Hun.
  { intros db' Hn. exists db'. split; [done|lia]. }
  apply prog_bind. unfold wp at 1. simpl. apply prog_bind, wp_during. unfold insertWorkflow.
  apply wp_call; simpl; [| |]; [|by intros _; right; apply Hun|].
  2: { intros _. right. apply Hun. destruct (workflowColumns _); [case_decide|]; done. }
  destruct (workflowColumns _) as [row|] eqn:Hrow; simpl; [|right; by apply Hun].
  case_decide as Hname; simpl; [right; by apply Hun|].
  apply prog_bind. eapply prog_mono; [apply createSteps_spec|].
  intros [recs|e] [db1 n1]; simpl; [|intros E; right; by apply Hun].
  intros (rows & Hrows & ->). apply prog_bind. eapply prog_mono; [apply createPolicy_spec|].
  intros [o|e] [db2 n2]; simpl; [|intros E; right; by apply Hun].
  intros (pol & Hpol & ->). apply prog_ret. simpl.
  assert (created w db {| workflows := workflows db ++ [row]; steps := steps db ++ rows;
    policies := policies db ++ pol; nextID := S (nextID db) |}) as Hc
    by (exists row, rows, pol; by split_and!).
  split_and!; [done|intros _; right; by apply Hun|by left].
Qed.

(** ** Creation when the calls work *)

Lemma createSteps_works env id l db n : (∀ k, env k = Works) →
  NoDup l.*1 → (∀ i, i ∈ l.*1 → (id, i + 1) ∉ (λ r, (st_workflow r, st_order r)) <$> steps db) →
  Forall (λ p, is_Some (stepRowOf id p)) l →
  wp (collect (λ '(i, s), createStep env id i s) l) (db, n) (λ r _, is_ok r = true).
Proof.
  intros He. revert db n. induction l as [|[i s] l IH]; intros db n Hnd Hnew Hall; simpl.
  { by apply prog_ret. }
  inversion Hall as [|? ? [row Hrow] Hall']; subst. inversion Hnd as [|? ? Hi Hnd']; subst.
  assert (wp (createStep env id i s) (db, n) (λ r w, is_ok r = true ∧ w.1 = add_steps [row] db)) as Hs.
  { revert Hrow. unfold createStep, stepRowOf. simpl. destruct (MarshalMap _) as [json|]; [|done].
    simpl. intros Hrow. apply prog_bind, wp_during, wp_call_works; [done|]. unfold insertStep.
    rewrite Hrow. simpl. rewrite decide_False by (apply Hnew; left). by apply prog_ret. }
  assert (st_workflow row = id ∧ st_order row = i + 1) as [Hid Ho].
  { revert Hrow. unfold stepRowOf, stepColumns, integerColumn. simpl. intros Hrow.
    repeat (apply bind_Some in Hrow as (? & ? & Hrow)). simplify_eq/=. case_bool_decide; naive_solver. }
  apply prog_bind. eapply prog_mono; [apply Hs|]. intros [rec|e] [db1 n1]; simpl; [|by intros []].
  intros [_ ->]. apply prog_bind. eapply prog_mono; [apply IH; [done| |done]|].
  - intros j Hj. simpl. rewrite fmap_app, not_elem_of_app. split; [by apply Hnew; right|].
    simpl. rewrite Hid, Ho. intros Hin. apply list_elem_of_singleton in Hin. simplify_eq.
    assert (j = i) by lia. by subst j.
  - intros [recs|e] w; simpl; [|done]. intros _. by apply prog_ret.
Qed.

Lemma numbered_fst l : (numbered l).*1 = Z.of_nat <$> seq 0 (length l).
Proof.
  unfold numbered. rewrite fmap_imap. unfold compose. simpl.
  assert (∀ k, imap (λ i (_ : WorkflowStep), Z.of_nat (k + i)) l = Z.of_nat <$> seq k (length l)) as Hk.
  { induction l as [|s l IH]; intros k; simpl; [done|]. f_equal; [by rewrite Nat.add_0_r|].
    rewrite <-IH. apply imap_ext. intros i x _. simpl. by rewrite <-Nat.add_succ_comm. }
  apply (Hk 0%nat).
Qed.

Lemma numbered_elem p l : p ∈ numbered l → p.2 ∈ l ∧ 0 ≤ p.1 < Z.of_nat (length l).
Proof.
  unfold numbered. intros Hp. apply elem_of_lookup_imap in Hp as (i & s & -> & Hs). simpl.
  split; [by eapply list_elem_of_lookup_2|]. apply lookup_lt_Some in Hs. lia.
Qed.

(** A workflow that fits, whose name was never used, whose steps depend on nothing. *)
Lemma CreateWorkflow_works env w db n : (∀ k, env k = Works) → db_ok db → fits w →
  WorkflowName w ∉ wf_name <$> workflows db → Forall (λ s, DependsOn s = []) (Steps (Def w)) →
  wp (CreateWorkflow env w) (db, n) (λ r _, is_ok r = true).
Proof.
  intros He Hok Hfit Hname Hdep.
  unfold CreateWorkflow. unfold wp, transaction, during at 1, call at 1. rewrite He. simpl.
  set (body := (_ : Prog Database WorkflowRecord)).
  assert (wp body (db, S n) (λ r _, is_ok r = true)) as Hb.
  { subst body. apply prog_bind. unfold wp at 1. simpl. apply prog_bind, wp_during, wp_call_works; [done|].
    unfold insertWorkflow. rewrite (fit_columns w Hfit). simpl. rewrite decide_False by done. simpl.
    apply prog_bind. eapply prog_mono; [eapply wp_and; [apply createSteps_spec|apply createSteps_works; [done|..]]|].
    - rewrite numbered_fst. apply NoDup_fmap_2; [apply _|]. apply NoDup_seq.
    - intros i _ Hin. simpl in Hin. apply list_elem_of_fmap in Hin as (r & [= Hr _] & Hr').
      pose proof (do_steps db Hok) as Hs. rewrite Forall_forall in Hs. specialize (Hs r Hr'). lia.
    - apply Forall_forall. intros p Hp. apply numbered_elem in Hp as [Hp1 Hp2].
      rewrite Forall_forall in Hdep. pose proof (fit_steps w Hfit) as Hf. rewrite Forall_forall in Hf.
      pose proof (fit_length w Hfit). apply stepRowOf_fits; [by apply Hdep|by apply Hf|lia].
    - intros [recs|e] [db1 n1]; simpl; [|by intros []]. intros [(rows & _ & ->) _].
      unfold createPolicy. destruct (WorkflowRetry w) as [pl|] eqn:Hpl; [|by apply prog_ret].
      apply prog_bind. apply prog_bind, wp_during, wp_call_works; [done|]. unfold insertPolicy.
      destruct (fit_policy w Hfit (nextID db) pl Hpl) as (row & -> & _). simpl.
      rewrite decide_False; [simpl; by apply prog_ret|]. intros Hin.
      apply list_elem_of_fmap in Hin as (r & Hr & Hr'). pose proof (do_policies db Hok) as Hs.
      rewrite Forall_forall in Hs. specialize (Hs r Hr'). lia. }
  unfold wp in Hb. destruct (body (db, S n)) as [[a|e] [db' n']]; simpl in *; [|done]. by rewrite He.
Qed.

(** ** Reading back *)

Lemma collect_lift {A B} (f : A → res string B) l ys (w : Database * nat) :
  Forall2 (λ x y, f x = Ok y) l ys → collect (λ x, lift (f x)) l w = (Ok ys, w).
Proof.
  induction 1 as [|x y l ys Hx Hl IH]; simpl; [done|].
  unfold mbind, Prog_bind, lift in *. rewrite Hx. simpl. by rewrite IH.
Qed.

Lemma workflowColumns_id r row : workflowColumns r = Some row → wf_id row = wf_id r ∧ wf_status row = wf_status r.
Proof.
  unfold workflowColumns. intros Hr. repeat (apply bind_Some in Hr as (? & ? & Hr)). by simplify_eq/=.
Qed.

Lemma policyRows_id id retry pol : policyRows id retry pol → Forall (λ r, rp_workflow r = id) pol.
Proof.
  destruct retry as [p|]; simpl; [|by intros ->]. intros (row & Hr & ->). constructor; [|done].
  unfold policyColumns in Hr. repeat (apply bind_Some in Hr as (? & ? & Hr)). by simplify_eq/=.
Qed.

Lemma stepRowOf_id id p row : stepRowOf id p = Some row → st_workflow row = id ∧ st_order row = p.1 + 1.
Proof.
  unfold stepRowOf, stepColumns, integerColumn. intros Hr.
  repeat (apply bind_Some in Hr as (? & ? & Hr)). simplify_eq/=. case_bool_decide; naive_solver.
Qed.

Lemma created_ok w db db' : db_ok db → created w db db' → db_ok db'.
Proof.
  intros [Hn Hi Hs Hp] (row & rows & pol & Hrow & Hnew & Hrows & Hpol & ->).
  destruct (workflowColumns_id _ _ Hrow) as [Hid _]. simpl in Hid.
  split; simpl.
  - rewrite fmap_app. simpl. apply NoDup_app. split_and!; [done| |apply NoDup_singleton].
    intros x Hx Hx'. apply list_elem_of_singleton in Hx'. by subst.
  - apply Forall_app. split; [eapply Forall_impl; [done|]; simpl; lia|]. constructor; [lia|done].
  - apply Forall_app. split; [eapply Forall_impl; [done|]; simpl; lia|].
    apply Forall_forall. intros r Hr. apply list_elem_of_lookup in Hr as [j Hj].
    destruct (Forall2_lookup_r _ _ _ _ _ Hrows Hj) as (p & _ & Hp').
    apply stepRowOf_id in Hp' as [-> _]. lia.
  - apply Forall_app. split; [eapply Forall_impl; [done|]; simpl; lia|].
    eapply Forall_impl; [by eapply policyRows_id|]. simpl. lia.
Qed.

(** The new rows among all, in their order. *)
Lemma stepsOf_created w db row rows pol : db_ok db →
  Forall2 (λ p r, stepRowOf (nextID db) p = Some r) (numbered (Steps (Def w))) rows →
  stepsOf (nextID db) (add_rows row rows pol db) = rows.
Proof.
  intros Hok Hrows. unfold stepsOf. simpl. rewrite filter_app.
  assert (filter (λ r, st_workflow r = nextID db) (steps db) = []) as ->.
  { apply filter_none. eapply Forall_impl; [by apply do_steps|]. simpl. lia. }
  assert (st_order <$> rows = (λ i, i + 1) <$> (numbered (Steps (Def w))).*1) as Ho.
  { clear Hok. induction Hrows as [|p r l rows Hp Hl IH]; simpl; [done|].
    apply stepRowOf_id in Hp as [_ ->]. by f_equal. }
  rewrite filter_every.
  2: { clear Hok Ho. induction Hrows as [|p r l rows Hp Hl IH]; constructor; [|done].
       by apply stepRowOf_id in Hp as [? _]. }
  simpl. rewrite numbered_fst in Ho.
  assert (StronglySorted byOrder rows ∧ NoDup (st_order <$> rows)) as [Hs Hn].
  { rewrite Ho. split.
    - revert Ho. generalize 0%nat as k. generalize (length (Steps (Def w))) as m. clear Hrows.
      induction rows as [|r rows IH]; intros m k Ho; [constructor|].
      destruct m as [|m]; simpl in Ho; [done|]. injection Ho as Hr Ho. constructor; [by eapply IH|].
      apply Forall_forall. intros r' Hr'. unfold byOrder.
      assert (st_order r' ∈ st_order <$> rows) as Hin by by apply list_elem_of_fmap_2.
      unfold fmap in Hin at 1. rewrite Ho in Hin. apply list_elem_of_fmap in Hin as (i & Hi & Hin).
      apply list_elem_of_fmap in Hin as (j & -> & Hj). apply elem_of_seq in Hj. lia.
    - rewrite <-list_fmap_compose. apply NoDup_fmap_2; [|apply NoDup_seq].
      intros i j. unfold compose. lia. }
  eapply StronglySorted_unique_strong; [|apply StronglySorted_merge_sort|done|apply merge_sort_Permutation].
  - intros x y Hx Hy Hxy Hyx. unfold byOrder in *.
    assert (st_order x = st_order y) as Hxy' by lia. rewrite merge_sort_Permutation in Hx.
    apply list_elem_of_lookup in Hx as [i Hi], Hy as [j Hj].
    assert (i = j) as ->; [|congruence].
    eapply NoDup_lookup; [exact Hn|by rewrite list_lookup_fmap, Hi|].
    rewrite list_lookup_fmap, Hj. simpl. by rewrite Hxy'.
  - intros x y z. unfold byOrder. lia.
  - intros x y. unfold byOrder. lia.
Qed.

Lemma wp_query {A} env delivered (f : Database → list A) db n (Q : res string (list A) → Database * nat → Prop) :
  (env n = Works → Q (Ok (match delivered n with None => f db | Some k => take k (f db) end)) (db, S n)) →
  (∀ e x, env n ≠ Works → Q (Err e) x) → wp (query env delivered f) (db, n) Q.
Proof. intros H1 H2. unfold query, wp. cbv beta. by apply wp_call_outcome. Qed.

Lemma numbered_snd l : (numbered l).*2 = l.
Proof.
  apply list_eq. intros i. unfold numbered. rewrite list_lookup_fmap, list_lookup_imap.
  by destruct (l !! i).
Qed.

Lemma stepRecords_created id ps rows : Forall (λ p, step_fits p.2) ps →
  Forall2 (λ p r, stepRowOf id p = Some r) ps rows →
  ∃ recs, Forall2 (λ r rec, stepRecord r = Ok rec) rows recs ∧
    toStep <$> recs = (λ p, persistedStep p.2) <$> ps.
Proof.
  intros Hf. induction 1 as [|p r ps rows Hp Hl IH]; [by exists []|].
  inversion Hf as [|? ? Hp' Hf']; subst. destruct (IH Hf') as (recs & H1 & H2).
  destruct (stepRowOf_read _ _ _ Hp Hp') as (_ & _ & rec & H3 & H4).
  exists (rec :: recs). split; [by constructor|]. by rewrite !fmap_cons, H2, H4.
Qed.

(** A creation adds one row under the workflow's name, which was free. *)
Lemma created_row w db db' row : fits w → created w db db' →
  row ∈ workflows db' → wf_name row = WorkflowName w → row = workflowRow (nextID db) w.
Proof.
  intros Hfit (row' & rows & pol & Hrow & Hnew & _ & _ & ->) Hin Hname.
  rewrite (fit_columns w Hfit) in Hrow. injection Hrow as <-. simpl in *.
  apply elem_of_app in Hin as [Hin|Hin]; [|by apply list_elem_of_singleton in Hin].
  exfalso. apply Hnew. rewrite <-Hname. by apply list_elem_of_fmap_2.
Qed.

(** What is read of a workflow that was created: all of it, but maybe only its
    first steps. *)
Lemma readWorkflow_created env delivered w db db' row e1 e2 n : db_ok db → fits w → created w db db' →
  row ∈ workflows db' → wf_name row = WorkflowName w →
  wp (readWorkflow env delivered e1 e2 row) (db', n) (λ r x, match r with
    | Ok rec => ∃ k, ToCRDWorkflowDefinition rec = cut k (persisted w) ∧
        ((∀ i, delivered i = None) → (length (Steps (Def w)) ≤ k)%nat)
    | Err _ => ∃ i, env i ≠ Works end).
Proof.
  intros Hok Hfit Hc Hin Hname. rewrite (created_row w db db' row) by done.
  destruct Hc as (row' & rows & pol & Hrow & Hnew & Hrows & Hpol & ->).
  rewrite (fit_columns w Hfit) in Hrow. injection Hrow as <-. simpl in Hnew.
  unfold readWorkflow, getWorkflowSteps. simpl.
  apply prog_bind, wp_during, prog_bind. eapply wp_query; [|by eauto]. intros _.
  rewrite (stepsOf_created w) by done. set (k := default (length (Steps (Def w))) (delivered n)).
  assert (length rows = length (Steps (Def w))) as Hlen.
  { apply Forall2_length in Hrows. unfold numbered in Hrows. by rewrite length_imap in Hrows. }
  assert (match delivered n with None => rows | Some k => take k rows end = take k rows) as ->.
  { subst k. destruct (delivered n); simpl; [done|]. by rewrite <-Hlen, firstn_all. }
  destruct (stepRecords_created (nextID db) (numbered (Steps (Def w))) rows) as (recs & Hrecs & Hsteps); [|done|].
  { apply Forall_forall. intros p Hp. apply numbered_elem in Hp as [Hp _].
    pose proof (fit_steps w Hfit) as Hf. rewrite Forall_forall in Hf. by apply Hf. }
  unfold wp at 1. rewrite (collect_lift _ _ (take k recs)) by by apply Forall2_take. simpl.
  apply prog_bind, wp_during. unfold getWorkflowRetryPolicy, queryRow.
  apply prog_bind, wp_call_outcome; [|by eauto]. intros _. simpl. apply prog_ret, prog_ret.
  exists k. split.
  - unfold ToCRDWorkflowDefinition, persisted, cut. simpl. f_equal.
    + f_equal. rewrite fmap_take, Hsteps. rewrite <-(numbered_snd (Steps (Def w))) at 2.
      by rewrite <-list_fmap_compose.
    + rewrite filter_app, filter_none.
      2: { eapply Forall_impl; [by apply do_policies|]. simpl. lia. }
      rewrite filter_every by (by eapply policyRows_id). simpl.
      destruct (WorkflowRetry w) as [p|] eqn:Hp; simpl in *; [|by subst pol].
      destruct Hpol as (row' & Hrow & ->). simpl.
      destruct (fit_policy w Hfit (nextID db) p Hp) as (row'' & Hrow' & Heq).
      rewrite Hrow in Hrow'. injection Hrow' as <-. injection Heq as _ H1 H2 H3 H4 H5.
      unfold toPolicy, policyRecord. simpl. by rewrite H1, H2, H3, H4, H5.
  - intros Hd. subst k. by rewrite Hd.
Qed.

Lemma GetWorkflow_created env delivered w db db' n : db_ok db → fits w → created w db db' →
  wp (GetWorkflow env delivered (WorkflowName w)) (db', n) (λ r x, match r with
    | Ok rec => ∃ k, ToCRDWorkflowDefinition rec = cut k (persisted w) ∧
        ((∀ i, delivered i = None) → (length (Steps (Def w)) ≤ k)%nat)
    | Err _ => ∃ i, env i ≠ Works end).
Proof.
  intros Hok Hfit Hc. pose proof Hc as (row & rows & pol & Hrow & Hnew & _ & _ & ->).
  rewrite (fit_columns w Hfit) in Hrow. injection Hrow as <-. simpl in Hnew.
  unfold GetWorkflow, queryRow. apply prog_bind, wp_during, wp_call_outcome; [|by eauto]. intros _.
  cbn [fst snd workflows add_rows]. rewrite filter_app, filter_none.
  2: { apply Forall_forall. intros r Hr [Hr' _]. apply Hnew. rewrite <-Hr'. by apply list_elem_of_fmap_2. }
  rewrite filter_cons_True by done.
  eapply readWorkflow_created; [done..| |done]. simpl. set_solver.
Qed.

(** A query leaves the tables alone, whatever it comes to. *)
Lemma wp_reads {A} env delivered (f : Database → list A) db n (Q : res string (list A) → Database * nat → Prop) :
  Q (Ok (match delivered n with None => f db | Some k => take k (f db) end)) (db, S n) →
  (∀ e, Q (Err e) (db, S n)) → wp (query env delivered f) (db, n) Q.
Proof. intros H1 H2. unfold query, wp. cbv beta. by apply wp_call. Qed.

(** What is read of a created workflow. *)
Definition recovered (delivered : nat → option nat) (w : Workflow) (rec : WorkflowRecord) : Prop :=
  ∃ k, ToCRDWorkflowDefinition rec = cut k (persisted w) ∧
    ((∀ i, delivered i = None) → (length (Steps (Def w)) ≤ k)%nat).

Lemma readWorkflow_recovered env delivered w db db' row e1 e2 n :
  db_ok db → fits w → created w db db' → row ∈ workflows db' →
  wp (readWorkflow env delivered e1 e2 row) (db', n) (λ r x, match r with
    | Ok rec => wf_name row = WorkflowName w → recovered delivered w rec
    | Err _ => True end).
Proof.
  intros Hok Hfit Hc Hin. destruct (decide (wf_name row = WorkflowName w)) as [Hn|Hn].
  - eapply prog_mono; [by eapply readWorkflow_created|]. by intros [rec|e] x.
  - unfold wp. by case_match.
Qed.

(** Reading a row leaves the tables alone. *)
Lemma readWorkflow_tables env delivered e1 e2 row db n :
  wp (readWorkflow env delivered e1 e2 row) (db, n) (λ r x, x.1 = db ∧ match r with
    | Ok rec => RecordName rec = wf_name row
    | Err _ => True end).
Proof.
  unfold readWorkflow, getWorkflowSteps.
  apply prog_bind, wp_during, prog_bind. apply wp_reads; [|done].
  set (l := match delivered _ with None => _ | Some _ => _ end). cbn [fst snd].
  assert (∀ m, wp (collect (λ r, lift (stepRecord r)) l) (db, m) (λ _ x, x.1 = db)) as Hl.
  { clear. induction l as [|r l IH]; intros m; [done|]. cbn [collect].
    apply prog_bind. unfold wp at 1, lift. simpl. destruct (stepRecord r); [|done].
    apply prog_bind. eapply prog_mono; [apply IH|]. by intros [?|?] [? ?]. }
  eapply prog_mono; [apply Hl|]. intros [recs|e] [db' m]; cbn [fst]; intros ->; [|done].
  apply prog_bind, wp_during. unfold getWorkflowRetryPolicy, queryRow.
  by apply prog_bind, wp_call.
Qed.

(** The record of the workflow in a list, if the workflow is in it. *)
Lemma ListWorkflows_created env delivered w db db' n : db_ok db → fits w → created w db db' →
  wp (ListWorkflows env delivered) (db', n) (λ r x, match r with
    | Ok recs =>
        (∀ rec, rec ∈ recs → RecordName rec = WorkflowName w → ∃ k,
           ToCRDWorkflowDefinition rec = cut k (persisted w) ∧
           ((∀ i, delivered i = None) → (length (Steps (Def w)) ≤ k)%nat)) ∧
        ((∀ i, delivered i = None) → WorkflowName w ∈ RecordName <$> recs)
    | Err _ => True end).
Proof.
  intros Hok Hfit Hc. unfold ListWorkflows.
  apply prog_bind, wp_during, wp_reads; [|done].
  set (rows := match delivered n with None => _ | Some _ => _ end).
  assert (rows ⊆ workflows db') as Hrows.
  { intros r. subst rows. intros Hr.
    assert (r ∈ byName (filter active (workflows db'))) as Hr'.
    { destruct (delivered n); [|done]. by apply elem_of_take in Hr as (i & Hi%list_elem_of_lookup_2 & _). }
    rewrite byName_perm in Hr'. by apply list_elem_of_filter in Hr' as [_ ?]. }
  assert ((∀ i, delivered i = None) → WorkflowName w ∈ wf_name <$> rows) as Hin.
  { intros Hd. subst rows. rewrite Hd.
    destruct Hc as (row & rows & pol & Hrow & _ & _ & _ & ->).
    rewrite (fit_columns w Hfit) in Hrow. injection Hrow as <-.
    apply list_elem_of_fmap. exists (workflowRow (nextID db) w). split; [done|].
    rewrite byName_perm. apply list_elem_of_filter. split; [done|]. simpl. set_solver. }
  assert (∀ m, wp (collect (λ r, readWorkflow env delivered
      ("failed to get steps for workflow " +:+ wf_name r)
      ("failed to get retry policy for workflow " +:+ wf_name r) r) rows) (db', m) (λ r x, match r with
    | Ok recs => RecordName <$> recs = wf_name <$> rows ∧
        ∀ rec, rec ∈ recs → RecordName rec = WorkflowName w → recovered delivered w rec
    | Err _ => True end)) as Hl.
  2: { eapply prog_mono; [apply Hl|]. intros [recs|e] x; [|done]. intros [Hn Hrec].
       split; [exact Hrec|]. by rewrite Hn. }
  clearbody rows. clear Hin. induction rows as [|row rows IH]; intros m.
  { apply prog_ret. split; [done|]. by intros rec ?%elem_of_nil. }
  cbn [collect]. apply prog_bind. eapply prog_mono.
  { apply wp_and; [apply readWorkflow_tables|]. eapply readWorkflow_recovered; [done..|].
    apply Hrows. by left. }
  intros [rec|e] [db1 m1]; cbn [fst]; [|done]. intros [[-> Hname] Hrec].
  apply prog_bind. eapply prog_mono; [apply IH; intros r Hr; apply Hrows; by right|].
  intros [recs|e] x; [|done].
  intros [Hn Hrecs]. apply prog_ret. split; [by rewrite !fmap_cons, Hn, Hname|].
  intros rec' [->|Hin]%elem_of_cons Hw; [apply Hrec; congruence|by apply Hrecs].
Qed.

(** What every later read under the workflow's name, and every list of the
    workflows, gives. *)
Definition readable (w : Workflow) (db : Database) : Prop :=
  ∀ env delivered n,
    (∀ rec x, GetWorkflow env delivered (WorkflowName w) (db, n) = (Ok rec, x) →
      ∃ k, ToCRDWorkflowDefinition rec = cut k (persisted w)) ∧
    ((∀ i, env i = Works) → (∀ i, delivered i = None) →
      ∃ rec x, GetWorkflow env delivered (WorkflowName w) (db, n) = (Ok rec, x) ∧
        ToCRDWorkflowDefinition rec = persisted w) ∧
    (∀ recs x, ListWorkflows env delivered (db, n) = (Ok recs, x) →
      (∀ rec, rec ∈ recs → RecordName rec = WorkflowName w →
        ∃ k, ToCRDWorkflowDefinition rec = cut k (persisted w)) ∧
      ((∀ i, delivered i = None) → ∃ rec, rec ∈ recs ∧ ToCRDWorkflowDefinition rec = persisted w)).

Lemma cut_all k w : (length (Steps (Def w)) ≤ k)%nat → cut k (persisted w) = persisted w.
Proof.
  intros Hk. unfold cut. simpl. rewrite take_ge by by rewrite length_fmap.
  done.
Qed.

Lemma created_readable w db db' : db_ok db → fits w → created w db db' → readable w db'.
Proof.
  intros Hok Hfit Hc env delivered n.
  pose proof (GetWorkflow_created env delivered w db db' n Hok Hfit Hc) as Hg.
  unfold wp in Hg. rewrite assoc by apply _. split.
  - destruct (GetWorkflow _ _ _ _) as [[rec|e] x]; simpl in Hg.
    + destruct Hg as (k & Hk & Hall). split; [by intros ? ? [= <- <-]; eauto|].
      intros _ Hd. exists rec, x. split; [done|]. rewrite Hk. by apply cut_all, Hall.
    + split; [done|]. intros He. destruct Hg as [i Hi]. by destruct Hi.
  - intros recs x Hl.
    destruct (wp_run _ _ _ _ _ (ListWorkflows_created env delivered w db db' n Hok Hfit Hc) Hl)
      as [Hrec Hin]. split.
    + intros rec Hr Hn. destruct (Hrec rec Hr Hn) as (k & Hk & _). eauto.
    + intros Hd. destruct (list_elem_of_fmap_1 _ _ _ (Hin Hd)) as (rec & Hn & Hr).
      exists rec. split; [done|]. destruct (Hrec rec Hr (eq_sym Hn)) as (k & -> & Hall).
      by apply cut_all, Hall.
Qed.

Lemma created_depends w db db' : created w db db' → Forall (λ s, DependsOn s = []) (Steps (Def w)).
Proof.
  intros (row & rows & pol & _ & _ & Hrows & _). rewrite <-(numbered_snd (Steps (Def w))), Forall_fmap.
  apply Forall_forall. intros p Hp. apply list_elem_of_lookup in Hp as [i Hi].
  destruct (Forall2_lookup_l _ _ _ _ _ Hrows Hi) as (r & _ & Hr). by eapply stepRowOf_depends.
Qed.

Lemma unchanged_ok db db' : db_ok db → unchanged db db' → db_ok db'.
Proof.
  intros [Hn Hi Hs Hp] (db'' & -> & Hle).
  split; simpl; [done|eapply Forall_impl; [done|]; simpl; lia..].
Qed.

(** A creation keeps the keys, whatever it comes to. *)
Lemma CreateWorkflow_ok env w db n : db_ok db → fits w → db_ok (CreateWorkflow env w (db, n)).2.1.
Proof.
  intros Hok Hfit. pose proof (CreateWorkflow_spec env w db n) as Hs. unfold wp in Hs.
  destruct (CreateWorkflow env w (db, n)) as [[rec|e] [db' n']]; simpl in *;
    [by eapply created_ok|destruct Hs; [by eapply created_ok|by eapply unchanged_ok]].
Qed.

(** C18: in tables with their keys intact ([db_ok]), and whatever its calls come to, a
    workflow whose fields fit the columns and whose parameters survive JSON ([fits]) is
    stored in full or not at all, and is stored if the call says so.  From then on every
    read under its name, and its entry in every list of the workflows, gives it back, with
    times in whole seconds and without what the tables have no column for ([persisted]),
    or only its first steps when a query is cut off; and when no query is cut off, it is in
    every list and a read that works finds it.  When the calls work, it is stored exactly if
    its name was never in use, not even by a deleted workflow, and no step depends on
    another. *)
Theorem store_roundtrip env w db n r db' n' :
  db_ok db → fits w → CreateWorkflow env w (db, n) = (r, (db', n')) →
  db_ok db' ∧ (unchanged db db' ∨ readable w db') ∧
  (is_ok r = true → readable w db' ∧ WorkflowName w ∉ wf_name <$> workflows db ∧
    Forall (λ s, DependsOn s = []) (Steps (Def w))) ∧
  ((∀ k, env k = Works) → WorkflowName w ∉ wf_name <$> workflows db →
    Forall (λ s, DependsOn s = []) (Steps (Def w)) → is_ok r = true).
Proof.
  intros Hok Hfit Hrun. pose proof (wp_run _ _ _ _ _ (CreateWorkflow_spec env w db n) Hrun) as Hs'. simpl in Hs'.
  split_and!.
  - destruct r; [by eapply created_ok|]. destruct Hs'; [by eapply created_ok|by eapply unchanged_ok].
  - destruct r; [right; by eapply created_readable|].
    destruct Hs'; [right; by eapply created_readable|by left].
  - destruct r as [rec|]; [|done]. intros _. split; [by eapply created_readable|].
    split; [|by eapply created_depends].
    destruct Hs' as (row & rows & pol & Hrow & Hnew & _). rewrite (fit_columns w Hfit) in Hrow.
    by injection Hrow as <-.
  - intros He Hn Hd. exact (wp_run _ _ _ _ _ (CreateWorkflow_works env w db n He Hok Hfit Hn Hd) Hrun).
Qed.

(** ** Deletion *)

Inductive StoreOp := OpCreate (w : Workflow) | OpDelete (name : string) | OpEnable (name : string) (enabled : bool).

Definition runOp env (op : StoreOp) : Prog Database () :=
  match op with
  | OpCreate w => CreateWorkflow env w;; mret ()
  | OpDelete name => DeleteWorkflow env name
  | OpEnable name enabled => UpdateWorkflowEnabled env name enabled
  end.

(** Operations of any clients, each whatever became of those before it. *)
Definition runOps env (ops : list StoreOp) : Prog Database () :=
  each (λ op, attempt (runOp env op);; mret ()) ops.

(** The name of a deleted workflow: in use, but of no active workflow. *)
Definition buried (name : string) (db : Database) : Prop :=
  name ∈ wf_name <$> workflows db ∧ Forall (λ r, wf_name r = name → ¬ active r) (workflows db).

Lemma buried_update name p `{∀ r, Decision (p r)} f db :
  (∀ r, wf_name (f r) = wf_name r ∧ (active (f r) → active r)) → buried name db →
  buried name (with_workflows ((λ r, if decide (p r) then f r else r) <$> workflows db) db).
Proof.
  intros Hf [Hin Hall]. split; simpl.
  - rewrite <-list_fmap_compose. erewrite list_fmap_ext; [exact Hin|]. intros _ r _. unfold compose.
    case_decide; [apply Hf|done].
  - apply Forall_fmap. eapply Forall_impl; [exact Hall|]. intros r Hr. unfold compose.
    case_decide; [|done]. destruct (Hf r) as [-> Ha]. naive_solver.
Qed.

Lemma created_buried name w db db' : created w db db' → buried name db → buried name db'.
Proof.
  intros (row & rows & pol & _ & Hnew & _ & _ & ->) [Hin Hall]. split; simpl.
  - rewrite fmap_app. set_solver.
  - apply Forall_app. split; [done|]. constructor; [|done]. intros Hname. exfalso. apply Hnew. by rewrite Hname.
Qed.

Lemma unchanged_buried name db db' : unchanged db db' → buried name db → buried name db'.
Proof. by intros (db'' & -> & _). Qed.

Lemma runOp_buried env op name db n : buried name db →
  wp (runOp env op) (db, n) (λ _ x, buried name x.1).
Proof.
  intros Hb. destruct op as [w|nm|nm b]; simpl.
  - apply prog_bind. eapply prog_mono; [apply CreateWorkflow_spec|].
    intros [rec|e] [db' n']; simpl; intros Hs; [by eapply created_buried|].
    destruct Hs; [by eapply created_buried|by eapply unchanged_buried].
  - apply prog_bind, wp_during. unfold update.
    assert (∀ db, buried name db → buried name (with_workflows
      ((λ r, if decide (wf_name r = nm ∧ active r) then set_status "deleted" r else r) <$> workflows db) db)) as Hu.
    { intros d. apply buried_update. intros r. by split. }
    apply wp_call; simpl; [unfold foundOne; case_decide; by apply Hu|by intros _|intros _; by apply Hu].
  - apply prog_bind, wp_during. unfold update.
    assert (∀ db, buried name db → buried name (with_workflows
      ((λ r, if decide (wf_name r = nm) then set_enabled b r else r) <$> workflows db) db)) as Hu.
    { intros d. apply buried_update. intros r. by split. }
    apply wp_call; simpl; [unfold foundOne; case_decide; by apply Hu|by intros _|intros _; by apply Hu].
Qed.

Lemma DeleteWorkflow_buries env name db n : NoDup (wf_name <$> workflows db) →
  wp (DeleteWorkflow env name) (db, n) (λ r x, is_ok r = true → buried name x.1).
Proof.
  intros Hnd. unfold DeleteWorkflow, update. apply prog_bind, wp_during, wp_call; simpl; [|done..].
  unfold foundOne. case_decide as Hlen; [done|]. apply prog_ret. intros _. split; simpl.
  - destruct (filter _ _) as [|r l] eqn:Hf; [done|].
    assert (r ∈ filter (λ r, wf_name r = name ∧ active r) (workflows db)) as Hr by (rewrite Hf; by left).
    apply list_elem_of_filter in Hr as [[<- _] Hr]. rewrite <-list_fmap_compose.
    apply list_elem_of_fmap. exists r. split; [|done]. unfold compose. by case_decide.
  - apply Forall_fmap, Forall_forall. intros r Hr. unfold compose. case_decide as Hd; [done|].
    intros Hn Ha. by apply Hd.
Qed.

(** The name of a workflow that was deleted is never of any use again: whatever
    operations follow and whatever becomes of their calls, no read finds it, and no
    workflow can be created under it. *)
Theorem deleted_never_returns env name db n x ops r x' :
  db_ok db → DeleteWorkflow env name (db, n) = (Ok (), x) → runOps env ops x = (r, x') →
  (∀ env' delivered' m rec, (GetWorkflow env' delivered' name (x'.1, m)).1 ≠ Ok rec) ∧
  (∀ env' w m rec, fits w → WorkflowName w = name → (CreateWorkflow env' w (x'.1, m)).1 ≠ Ok rec).
Proof.
  intros Hok Hdel Hrun.
  assert (buried name x.1) as Hb
    by exact (wp_run _ _ _ _ _ (DeleteWorkflow_buries env name db n (do_names db Hok)) Hdel eq_refl).
  assert (buried name x'.1) as [Hin Hall].
  { refine (wp_run _ _ (λ _ y, buried name y.1) _ _ _ Hrun). apply wp_each; [done|].
    intros op [d i] _ Hd. apply prog_bind, wp_attempt. eapply prog_mono; [by apply runOp_buried|].
    intros r0 y Hy. by apply prog_ret. }
  destruct x' as [db' n']. cbn [fst] in *. split.
  - intros env' delivered' m rec. enough (wp (GetWorkflow env' delivered' name) (db', m) (λ r _, r ≠ Ok rec)) by done.
    unfold GetWorkflow, queryRow. apply prog_bind, wp_during, wp_call_outcome; [|by intros].
    intros _. simpl. rewrite filter_none; [by apply wp_throw|].
    eapply Forall_impl; [exact Hall|]. simpl. naive_solver.
  - intros env' w m rec Hfit <- Hc.
    pose proof (CreateWorkflow_spec env' w db' m) as Hs. unfold wp in Hs. rewrite Hc in Hs.
    destruct Hs as (row & rows & pol & Hrow & Hnew & _). rewrite (fit_columns w Hfit) in Hrow.
    injection Hrow as <-. by apply Hnew.
Qed.
End laws.

(** What was stored and read back is stored as it is. *)
Lemma persisted_twice w :
  (∀ t n, t ∈ WfTimeout (Def w) :: (Timeout <$> Steps (Def w)) → durationSeconds t = Some n →
     0 ≤ n ≤ 9223372036) →
  (∀ p, WorkflowRetry w = Some p → 0 ≤ secondsOr 30 (RP_RetryDelay p) ≤ 9223372036 ∧
     0 ≤ secondsOr 300 (RP_MaxRetryDelay p) ≤ 9223372036) →
  persisted (persisted w) = persisted w.
Proof.
  intros Ht Hp.
  assert (∀ t, t ∈ WfTimeout (Def w) :: (Timeout <$> Steps (Def w)) →
    secondsOption (durationSeconds (secondsOption (durationSeconds t))) = secondsOption (durationSeconds t)) as Hs.
  { intros t Hin. destruct (durationSeconds t) as [n|] eqn:Hn; [|done]. simpl.
    by rewrite durationSeconds_text by by eapply Ht. }
  unfold persisted at 1. simpl. unfold persisted. f_equal.
  - f_equal; [|apply Hs; left]. rewrite <-list_fmap_compose. apply list_fmap_ext. intros i s Hi.
    unfold compose, persistedStep. simpl. f_equal. apply Hs. right.
    apply list_elem_of_fmap_2. by eapply list_elem_of_lookup_2.
  - destruct (WorkflowRetry w) as [p|]; [|done]. destruct (Hp p eq_refl) as [H1 H2]. simpl. f_equal.
    assert (∀ d n, 0 ≤ n ≤ 9223372036 → secondsOr d (secondsText n) = n) as Hd
      by (intros d n Hn; unfold secondsOr; by rewrite durationSeconds_text).
    unfold compose, toPolicy, policyRecord at 1.
    cbn [RP_MaxRetries RP_RetryDelay RP_BackoffStrategy RP_MaxRetryDelay RP_BackoffMultiplier
         PolicyMaxRetries RetryDelaySeconds PolicyStrategy MaxRetryDelaySeconds PolicyMultiplier policyRecord].
    rewrite !Hd by done. f_equal.
    unfold int32. rewrite Z.sub_add, Z.mod_mod by lia. done.
Qed.

(** ** Examples *)

Module StoreExamples.
(** A codec that knows steps without parameters. *)
#[export] Instance plainCodec : Codec := {
  MarshalMap p := if decide (p = ∅) then Some "{}" else None;
  UnmarshalMap s := if decide (s = "{}") then Some ∅ else None;
  MarshalStrings l := String "[" (String dquote (Join l (byte1 ",") +:+ byte1 dquote +:+ "]"));
  UnmarshalStrings _ := None;
  jsonb s := Some s;
  parseArray s := if decide (s = "{}") then Some [] else None;
  printArray l := "{" +:+ Join l (byte1 ",") +:+ "}";
  decimal42 x := Some x;
  byName l := l;
}.

#[export] Instance plainLaws : CodecLaws.
Proof. split; [by eexists|done..]. Qed.

Definition step (name timeout : string) (deps : list string) : WorkflowStep :=
  {| Name := name; Tool := "echo"; Parameters := ∅; DependsOn := deps; Condition := "";
     RunPolicy := WorkflowRunOnSuccess; ContinueOnError := false; Timeout := timeout; RetryPolicy := None |}.

Definition workflow (name : string) (steps : list WorkflowStep) : Workflow :=
  {| WorkflowName := name; Def := {| Schedule := "0 2 * * *"; Steps := steps; WfTimeout := "1h" |};
     WorkflowTimezone := "UTC"; WorkflowEnabled := true; ConcurrencyPolicy := "Forbid";
     WorkflowParameters := ∅;
     WorkflowRetry := Some {| RP_MaxRetries := 2; RP_RetryDelay := "1m"; RP_BackoffStrategy := "Fixed";
                              RP_MaxRetryDelay := ""; RP_BackoffMultiplier := float64_of 2 |};
     Tags := ["nightly"]; Description := ""; ManualExecution := true; Workspace := None |}.

Definition independent : Workflow := workflow "backup" [step "dump" "500ms" []; step "upload" "90s" []].
Definition dependent : Workflow := workflow "backup" [step "dump" "" []; step "upload" "" ["dump"]].

Lemma independent_fits : fits independent.
Proof.
  split; [done| |done|].
  - repeat constructor; try reflexivity; by exists "{}", "{}".
  - intros id p [= <-]. by eexists.
Qed.

Definition ok : nat → Outcome := λ _, Works.
Definition all : nat → option nat := λ _, None.
Definition stored : Database * nat := (CreateWorkflow ok independent (emptyDatabase, 0%nat)).2.

Lemma empty_ok : db_ok emptyDatabase.
Proof. split; simpl; constructor. Qed.

Lemma store_roundtrip_witness :
  fits independent ∧ readable independent stored.1 ∧
  WfTimeout (Def (persisted independent)) = "3600s" ∧
  Timeout <$> Steps (Def (persisted independent)) = ["0s"; "90s"].
Proof.
  split; [exact independent_fits|].
  destruct (store_roundtrip ok independent emptyDatabase 0 (CreateWorkflow ok independent (emptyDatabase, 0%nat)).1
    stored.1 stored.2 empty_ok independent_fits) as (_ & _ & H & _); [by vm_compute|].
  split; [apply H; by vm_compute|]. split; by vm_compute.
Defined.

Lemma deleted_never_returns_witness :
  (GetWorkflow ok all "backup" (DeleteWorkflow ok "backup" stored).2).1 = Err "workflow backup not found" ∧
  ∀ m rec, (CreateWorkflow ok independent
    ((runOps ok [OpEnable "backup" true; OpCreate independent] (DeleteWorkflow ok "backup" stored).2).2.1, m)).1 ≠ Ok rec.
Proof.
  split; [by vm_compute|]. intros m rec.
  assert (db_ok stored.1) as Hok by (apply CreateWorkflow_ok; [exact empty_ok|exact independent_fits]).
  eapply (deleted_never_returns ok "backup" stored.1 stored.2 (DeleteWorkflow ok "backup" stored).2
    [OpEnable "backup" true; OpCreate independent]); [exact Hok|by vm_compute|apply surjective_pairing| |done].
  exact independent_fits.
Defined.

(** A step that depends on another one cannot be stored. *)
Example dependent_refused :
  (CreateWorkflow ok dependent (emptyDatabase, 0%nat)).1 =
  Err "failed to insert workflow step upload: pq: invalid value".
Proof. by vm_compute. Qed.

(** A deleted workflow can be enabled. *)
Example deleted_enabled :
  (UpdateWorkflowEnabled ok "backup" true (DeleteWorkflow ok "backup" stored).2).1 = Ok ().
Proof. by vm_compute. Qed.

(** A query that breaks off after one row is taken for a workflow of one step. *)
Example truncated_workflow :
  (λ rec, StepName <$> RecordSteps rec) <$>
    (match (GetWorkflow ok (λ _, Some 1%nat) "backup" stored).1 with Ok r => Some r | Err _ => None end)
  = Some ["dump"].
Proof. by vm_compute. Qed.
End StoreExamples.
