(* ===== verification/WorkflowJobs.v ===== *)
(** * Workflows as Kubernetes jobs

    internal/scheduler/k8s_workflow_executor.go, which turns a workflow into a shell
    script in a job, and internal/task_scheduler/k8s_job_manager.go, which creates,
    finds and removes the jobs of one namespace.  Every call to the API server may
    fail, before or after its effect. *)
From stdpp Require Import pretty.
From S2P Require Import Prelude GoString GoNum GoTime Calls WorkflowGraph Workflows.

#[local] Open Scope Z_scope.

Set Default Proof Using "Type*".

(** ** Tasks *)

Record TaskRetryConfig := { TaskMaxRetries : Z; TaskRetryDelay : Z; TaskBackoff : string }.

Record TaskVolumePVC := {
  ClaimName : string;
  ClaimSize : string;
  ClaimStorageClass : string;
  ClaimAccessModes : list string;
  AutoDelete : bool;
}.
Record TaskVolumeEmptyDir := { SizeLimit : string; Medium : string }.
Record TaskVolumeConfigMap := { ConfigMapName : string; ConfigMapItems : list (string * string) }.

Record TaskVolumeConfig := {
  TaskVolumeName : string;
  TaskMountPath : string;
  VolumeType : string;
  PVC : option TaskVolumePVC;
  EmptyDir : option TaskVolumeEmptyDir;
  ConfigMap : option TaskVolumeConfigMap;
  TaskReadOnly : bool;
}.

(** Of the metadata only the key "workflow" is ever read. *)
Record TaskRequest := {
  TaskID : string;
  TaskName : string;
  TaskDescription : string;
  TaskCommand : list string;
  TaskArgs : list string;
  TaskImage : string;
  TaskEnv : gmap string string;
  TaskTimeout : Z;
  TaskRetry : TaskRetryConfig;
  TaskCPU : string;
  TaskMemory : string;
  TaskVolumes : list TaskVolumeConfig;
  TaskMetadata : gmap string Value;
}.

Record TaskStatus := {
  StatusID : string;
  StatusPhase : string;
  StatusStart : option Z;
  StatusCompletion : option Z;
  StatusMessage : string;
  StatusReason : string;
  ExitCode : option Z;
  StatusJob : string;
  StatusPod : string;
}.

(** ** Objects of the namespace *)

Record JobStatus := {
  Active : Z;
  Succeeded : Z;
  Failed : Z;
  StartTime : option Z;
  CompletionTime : option Z;
}.

Inductive JobVolumeSource :=
  | FromClaim (claim : string)
  | FromEmptyDir (sizeLimit : option string) (medium : string)
  | FromConfigMap (name : string) (items : list (string * string)).

Record Job := {
  JobLabels : gmap string string;
  JobAnnotations : gmap string string;
  BackoffLimit : Z;
  ActiveDeadlineSeconds : option Z;
  JobImage : string;
  JobCommand : list string;
  JobArgs : list string;
  JobEnv : list (string * string);
  JobResources : gmap string string;
  JobMounts : list (string * string * bool);
  JobVolumes : list (string * JobVolumeSource);
  JobCreated : Z;
  JobState : JobStatus;
}.

Record Claim := {
  ClaimLabels : gmap string string;
  ClaimAnnotations : gmap string string;
  ClaimModes : list string;
  ClaimRequest : string;
  ClaimClass : option string;
  ClaimPhase : string;
  ClaimCreated : Z;
}.

Inductive ContainerState :=
  | Running
  | Terminated (code : Z) (reason message : string)
  | Waiting (reason message : string).

(** [PodJob] is the label job-name; [PodStates] are those of its containers. *)
Record Pod := { PodName : string; PodJob : string; PodStates : list ContainerState; PodLog : string }.

Record JobCluster := {
  jobs : gmap string Job;
  claims : gmap string Claim;
  pods : list Pod;
}.

Definition with_jobs (m : gmap string Job) (c : JobCluster) : JobCluster :=
  {| jobs := m; claims := claims c; pods := pods c |}.
Definition with_claims (m : gmap string Claim) (c : JobCluster) : JobCluster :=
  {| jobs := jobs c; claims := m; pods := pods c |}.

(** SHA-256 in hexadecimal, encoding/json, quantities and times, and what the API server
    makes of selectors that are no plain label value, and of jobs besides their labels. *)
Class JobLib := {
  sha256hex : string → string;
  unmarshalAny : string → option Value;
  marshalArgs : gmap string Value → option string;
  quantityParses : string → bool;
  rfc3339 : Z → string;
  otherSelector : string → string → option (gmap string string → bool);
  admitsJob : string → Job → bool;
}.

(** A value that a label may have: at most 63 letters, digits, dashes, underscores and
    dots, a letter or digit first and last. *)
Definition alphanumeric (c : ascii) : bool := inRange 48 57 c || inRange 65 90 c || inRange 97 122 c.

Definition labelByte (c : ascii) : bool := alphanumeric c || bool_decide (c ∈ ["-"; "_"; "."]%char).

Fixpoint lastByte (c : ascii) (s : string) : ascii :=
  match s with "" => c | String d s' => lastByte d s' end.

Fixpoint allBytes (p : ascii → bool) (s : string) : bool :=
  match s with "" => true | String c s' => p c && allBytes p s' end.

Definition validLabel (s : string) : bool :=
  match s with
  | "" => true
  | String c s' =>
      (String.length s <=? 63)%nat && alphanumeric c && alphanumeric (lastByte c s') &&
      allBytes labelByte s
  end.

Section manager.
Context `{!JobLib}.

Definition hash8 (s : string) : string := stake 8 (sha256hex s).

(** ** The API server *)

Context (env : nat → Outcome).

(** A list with the label selector "key=value", in some order. *)
Definition selected {A} (labels : A → gmap string string) (key value : string) (m : gmap string A) :
    res string (list (string * A)) :=
  if validLabel value then
    Ok (filter (λ kv : string * A, labels kv.2 !! key = Some value) (map_to_list m))
  else match otherSelector key value with
       | None => Err "unable to parse requirement"
       | Some p => Ok (filter (λ kv : string * A, p (labels kv.2) = true) (map_to_list m))
       end.

Definition listJobs (key value : string) : Prog JobCluster (list (string * Job)) :=
  call env (λ c, (selected JobLabels key value (jobs c), c)).

Definition listPods (job : string) : Prog JobCluster (list Pod) :=
  call env (λ c, (Ok (filter (λ p, PodJob p = job) (pods c)), c)).

Definition createJob (name : string) (job : Job) : Prog JobCluster () :=
  call env (λ c,
    if negb (map_fold (λ _ v b, validLabel v && b) true (JobLabels job) && admitsJob name job)
    then (Err "Job is invalid", c)
    else match jobs c !! name with
         | Some _ => (Err "already exists", c)
         | None => (Ok (), with_jobs (<[name := job]> (jobs c)) c)
         end).

(** The pods of a job go with it only if the call asks for it: jobs orphan them. *)
Definition deleteJob (withPods : bool) (name : string) : Prog JobCluster () :=
  call env (λ c,
    match jobs c !! name with
    | None => (Err "not found", c)
    | Some _ =>
        (Ok (), {| jobs := delete name (jobs c); claims := claims c;
                   pods := if withPods then filter (λ p, PodJob p ≠ name) (pods c) else pods c |})
    end).

Definition getClaim (name : string) : Prog JobCluster (option Claim) :=
  call env (λ c, (Ok (claims c !! name), c)).

Definition createClaim (name : string) (claim : Claim) : Prog JobCluster () :=
  call env (λ c,
    match claims c !! name with
    | Some _ => (Err "already exists", c)
    | None => (Ok (), with_claims (<[name := claim]> (claims c)) c)
    end).

(** ** Claims *)

Definition parseResourceQuantity (quantity : string) : string :=
  if quantityParses quantity then quantity else "100m".

(** strings.SplitN(s, "-", 3). *)
Definition splitDash3 (s : string) : list string :=
  match SplitByte2 s "-" with
  | [a; rest] => a :: SplitByte2 rest "-"
  | l => l
  end.

(** The claim of a volume: its labels and annotations tell of a workspace only if the name
    begins like one. *)
Definition claimFor (now : Z) (pvcName : string) (config : TaskVolumePVC) : Claim :=
  let size := if decide (ClaimSize config = "") then "1Gi" else ClaimSize config in
  let accessModes := match ClaimAccessModes config with [] => ["ReadWriteOnce"] | l => l end in
  let labels : gmap string string := {[
    "app.kubernetes.io/name" := "workflow-workspace"; "app.kubernetes.io/component" := "storage";
    "app.kubernetes.io/managed-by" := "matey-task-scheduler" ]} in
  let annotations : gmap string string := {[ "mcp.matey.ai/created-at" := rfc3339 now ]} in
  let '(labels, annotations) :=
    if HasPrefix pvcName "workspace-" then
      match splitDash3 pvcName with
      | _ :: workflowName :: executionID :: _ =>
          (<["mcp.matey.ai/retention-policy" := "workspace"]>
             (<["mcp.matey.ai/execution-id" := executionID]>
                (<["mcp.matey.ai/workflow-name" := workflowName]>
                   (<["mcp.matey.ai/workspace-type" := "workflow"]> labels))),
           <["mcp.matey.ai/auto-delete" := if AutoDelete config then "true" else "false"]>
             (<["mcp.matey.ai/workspace-retention-days" := "7"]> annotations))
      | _ => (labels, annotations)
      end
    else (labels, annotations) in
  {| ClaimLabels := labels;
     ClaimAnnotations := if AutoDelete config
                         then <["mcp.matey.ai/auto-delete" := "true"]> annotations else annotations;
     ClaimModes := accessModes; ClaimRequest := parseResourceQuantity size;
     ClaimClass := if decide (ClaimStorageClass config = "") then None else Some (ClaimStorageClass config);
     ClaimPhase := "Pending"; ClaimCreated := now |}.

(** Another process may have created the claim in the meantime. *)
Definition acceptExisting (r : res string ()) : Prog JobCluster () :=
  match r with
  | Ok _ => mret ()
  | Err e => if Contains e "already exists" then mret () else throw ("failed to create PVC: " +:+ e)
  end.

(** An existing claim is used as it is, if it is bound or pending. *)
Definition createPVCForTask (now : Z) (pvcName : string) (config : TaskVolumePVC) : Prog JobCluster () :=
  existing ← attempt (getClaim pvcName);
  let usable := match existing with
                | Ok (Some claim) =>
                    bool_decide (ClaimPhase claim = "Bound" ∨ ClaimPhase claim = "Pending")
                | _ => false
                end in
  if usable then mret ()
  else
    r ← attempt (createClaim pvcName (claimFor now pvcName config));
    acceptExisting r.

(** ** Jobs *)

Definition shortenForK8sLabel (s : string) : string :=
  if (String.length s <=? 63)%nat then s else stake 55 s +:+ hash8 s.

(** The name of the claim of a volume that names none. *)
Definition autoClaimName (task : TaskRequest) (volume : string) : string :=
  let workflowName := match TaskMetadata task !! "workflow" with Some (VString w) => w | _ => "" end in
  let workflowName :=
    if decide (workflowName = "") then
      if decide (TaskImage task = "") then TaskName task
      else TaskName task +:+ "-" +:+ hash8 (TaskImage task)
    else workflowName in
  let workflowName := if decide (workflowName = "") then "unnamed-task" else workflowName in
  "workflow-" +:+ workflowName +:+ "-" +:+ volume.

(** One iteration of the loop over the volumes: the volume and the claim that was created
    for it.  A volume of type pvc without its source is a nil dereference. *)
Definition jobVolume (now : Z) (task : TaskRequest) (v : TaskVolumeConfig) :
    Prog JobCluster (JobVolumeSource * list string) :=
  if decide (VolumeType v = "pvc") then
    match PVC v with
    | None => throw "panic: nil pointer dereference"
    | Some pvc =>
        if decide (ClaimName pvc = "") then
          let pvcName := autoClaimName task (TaskVolumeName v) in
          during ("failed to create PVC " +:+ pvcName) (createPVCForTask now pvcName pvc);;
          mret (FromClaim pvcName, [pvcName])
        else mret (FromClaim (ClaimName pvc), [])
    end
  else if decide (VolumeType v = "emptyDir") then
    mret (match EmptyDir v with
          | None => FromEmptyDir None ""
          | Some d =>
              FromEmptyDir (if decide (SizeLimit d = "") then None
                            else Some (parseResourceQuantity (SizeLimit d))) (Medium d)
          end, [])
  else if decide (VolumeType v = "configmap") then
    match ConfigMap v with
    | None => throw ("configMap source required for volume " +:+ TaskVolumeName v)
    | Some m => mret (FromConfigMap (ConfigMapName m) (ConfigMapItems m), [])
    end
  else throw ("unsupported volume type: " +:+ VolumeType v).

Definition taskResources (task : TaskRequest) : gmap string string :=
  let add key q m := if decide (q = "") then m else <[key := parseResourceQuantity q]> m in
  add "cpu" (TaskCPU task) (add "memory" (TaskMemory task) ∅).

Definition jobLabels (task : TaskRequest) : gmap string string := {[
  "app.kubernetes.io/name" := "task"; "app.kubernetes.io/component" := "task-execution";
  "app.kubernetes.io/managed-by" := "matey-task-scheduler";
  "mcp.matey.ai/task-id" := shortenForK8sLabel (TaskID task);
  "mcp.matey.ai/task-name" := shortenForK8sLabel (TaskName task);
  "mcp.matey.ai/scheduler" := "task-scheduler" ]}.

(** The environment's own variables follow in the order of the map. *)
Definition createJobSpec (now : Z) (task : TaskRequest) : Prog JobCluster (string * Job) :=
  sources ← collect (jobVolume now task) (TaskVolumes task);
  let pvcCreated := concat sources.*2 in
  let backoffLimit := int32 (TaskMaxRetries (TaskRetry task)) in
  let annotations : gmap string string := {[
    "mcp.matey.ai/task-description" := TaskDescription task;
    "mcp.matey.ai/submitted-at" := rfc3339 now ]} in
  mret ("task-" +:+ TaskID task,
    {| JobLabels := jobLabels task;
       JobAnnotations := match pvcCreated with
                         | [] => annotations
                         | _ => <["mcp.matey.ai/auto-created-pvcs" := Join pvcCreated ","]> annotations
                         end;
       BackoffLimit := if backoffLimit <? 0 then 3 else backoffLimit;
       ActiveDeadlineSeconds := if 0 <? TaskTimeout task then Some (intOf (Seconds (TaskTimeout task))) else None;
       JobImage := if decide (TaskImage task = "") then "busybox:latest" else TaskImage task;
       JobCommand := TaskCommand task; JobArgs := TaskArgs task;
       JobEnv := [("TASK_ID", TaskID task); ("TASK_NAME", TaskName task)] ++ map_to_list (TaskEnv task);
       JobResources := taskResources task;
       JobMounts := (λ v, (TaskVolumeName v, TaskMountPath v, TaskReadOnly v)) <$> TaskVolumes task;
       JobVolumes := zip (TaskVolumeName <$> TaskVolumes task) sources.*1;
       JobCreated := now;
       JobState := {| Active := 0; Succeeded := 0; Failed := 0; StartTime := None; CompletionTime := None |} |}).

Definition SubmitTask (now : Z) (task : TaskRequest) : Prog JobCluster TaskStatus :=
  nameJob ← during "failed to create job spec" (createJobSpec now task);
  during "failed to create job" (createJob nameJob.1 nameJob.2);;
  mret {| StatusID := TaskID task; StatusPhase := "Pending"; StatusStart := None;
          StatusCompletion := None; StatusMessage := "Task submitted to Kubernetes";
          StatusReason := ""; ExitCode := None; StatusJob := nameJob.1; StatusPod := "" |}.

(** ** Status *)

Definition phaseOf (s : JobStatus) : string :=
  if 0 <? Active s then "Running" else if 0 <? Succeeded s then "Succeeded"
  else if 0 <? Failed s then "Failed" else "Pending".

Definition messageOf (phase : string) : string :=
  if decide (phase = "Running") then "Task is running"
  else if decide (phase = "Succeeded") then "Task completed successfully"
  else if decide (phase = "Failed") then "Task failed" else "Task is pending".

(** The first pod of the job, whichever it is, and its first container. *)
Definition withPod (found : list Pod) (s : TaskStatus) : TaskStatus :=
  match found with
  | [] => s
  | pod :: _ =>
      let named code reason message :=
        {| StatusID := StatusID s; StatusPhase := StatusPhase s; StatusStart := StatusStart s;
           StatusCompletion := StatusCompletion s;
           StatusMessage := if decide (StatusMessage s = "") then message else StatusMessage s;
           StatusReason := reason; ExitCode := code; StatusJob := StatusJob s; StatusPod := PodName pod |} in
      match PodStates pod with
      | Terminated code reason message :: _ => named (Some code) reason message
      | Waiting reason message :: _ => named (ExitCode s) reason message
      | _ => named (ExitCode s) (StatusReason s) (StatusMessage s)
      end
  end.

Definition enrichStatusWithPodInfo (s : TaskStatus) : Prog JobCluster TaskStatus :=
  found ← listPods (StatusJob s); mret (withPod found s).

Definition jobStatusOf (taskID name : string) (job : Job) : TaskStatus :=
  let phase := phaseOf (JobState job) in
  {| StatusID := taskID; StatusPhase := phase; StatusStart := StartTime (JobState job);
     StatusCompletion := if decide (phase = "Succeeded" ∨ phase = "Failed")
                         then CompletionTime (JobState job) else None;
     StatusMessage := messageOf phase; StatusReason := ""; ExitCode := None; StatusJob := name; StatusPod := "" |}.

(** The first job with the label, or an error. *)
Definition findTask (taskID : string) : Prog JobCluster (string * Job) :=
  found ← during "failed to list jobs" (listJobs "mcp.matey.ai/task-id" taskID);
  match found with
  | [] => throw ("task " +:+ taskID +:+ " not found")
  | job :: _ => mret job
  end.

Definition GetTaskStatus (taskID : string) : Prog JobCluster TaskStatus :=
  job ← findTask taskID;
  let status := jobStatusOf taskID job.1 job.2 in
  r ← attempt (enrichStatusWithPodInfo status);
  mret (match r with Ok s => s | Err _ => status end).

(** Jobs whose status cannot be read are left out. *)
Fixpoint taskStatuses (items : list (string * Job)) : Prog JobCluster (list TaskStatus) :=
  match items with
  | [] => mret []
  | (_, job) :: rest =>
      match JobLabels job !! "mcp.matey.ai/task-id" with
      | None => taskStatuses rest
      | Some taskID =>
          r ← attempt (GetTaskStatus taskID);
          tasks ← taskStatuses rest;
          mret (match r with Ok s => s :: tasks | Err _ => tasks end)
      end
  end.

Definition ListTasks (schedulerName : string) : Prog JobCluster (list TaskStatus) :=
  items ← during "failed to list jobs" (listJobs "mcp.matey.ai/scheduler" schedulerName);
  taskStatuses items.

Definition CancelTask (taskID : string) : Prog JobCluster () :=
  job ← findTask taskID;
  during "failed to delete job" (deleteJob true job.1).

(** [arrives n] is how much of a log is read before an error ends it, which is taken for
    its end. *)
Definition GetTaskLogs (arrives : nat → option nat) (taskID : string) : Prog JobCluster string :=
  job ← findTask taskID;
  found ← during "failed to list pods" (listPods job.1);
  match found with
  | [] => throw ("no pods found for task " +:+ taskID)
  | pod :: _ => λ w,
      during "failed to get logs"
        (call env (λ c, (Ok (match arrives w.2 with None => PodLog pod | Some k => stake k (PodLog pod) end), c))) w
  end.

(** When a job that succeeded or failed ended, or else began. *)
Definition completionOf (s : JobStatus) : option Z :=
  if (0 <? Succeeded s) || (0 <? Failed s)
  then match CompletionTime s with Some t => Some t | None => StartTime s end
  else None.

Definition expired (cutoff : Z) (job : Job) : bool :=
  match completionOf (JobState job) with Some t => t <? cutoff | None => false end.

Definition CleanupCompletedTasks (now : Z) (schedulerName : string) (olderThan : Z) : Prog JobCluster () :=
  items ← during "failed to list jobs" (listJobs "mcp.matey.ai/scheduler" schedulerName);
  each (λ nj, attempt (deleteJob false nj.1);; mret ())
    (filter (λ nj : string * Job, expired (now - olderThan) nj.2 = true) items).

Record TaskStatistics := {
  TotalTasks : Z;
  CompletedTasks : Z;
  FailedTasks : Z;
  RunningTasks : Z;
  ScheduledTasks : Z;
  LastTaskTime : string;
}.

Definition countTask (stats : TaskStatistics) (nj : string * Job) : TaskStatistics :=
  let s := JobState nj.2 in
  let one (b : bool) := if b then 1 else 0 in
  let succeeded := 0 <? Succeeded s in
  let failed := negb succeeded && (0 <? Failed s) in
  let running := negb succeeded && negb failed && (0 <? Active s) in
  {| TotalTasks := TotalTasks stats; CompletedTasks := CompletedTasks stats + one succeeded;
     FailedTasks := FailedTasks stats + one failed; RunningTasks := RunningTasks stats + one running;
     ScheduledTasks := ScheduledTasks stats + one (negb succeeded && negb failed && negb running);
     LastTaskTime := LastTaskTime stats |}.

(** The first of the latest. *)
Fixpoint latestJob (latest : option Z) (items : list (string * Job)) : option Z :=
  match items with
  | [] => latest
  | (_, job) :: rest =>
      latestJob (match latest with
                 | Some t => if t <? JobCreated job then Some (JobCreated job) else latest
                 | None => Some (JobCreated job)
                 end) rest
  end.

Definition GetTaskStatistics (schedulerName : string) : Prog JobCluster TaskStatistics :=
  items ← during "failed to list jobs" (listJobs "mcp.matey.ai/scheduler" schedulerName);
  mret (foldl countTask
    {| TotalTasks := len items; CompletedTasks := 0; FailedTasks := 0; RunningTasks := 0; ScheduledTasks := 0;
       LastTaskTime := from_option rfc3339 "" (latestJob None items) |} items).
End manager.

(** ** The executor *)

Definition squote : ascii := "'"%char.
Definition dquote : ascii := "034"%char.
Definition backslash : ascii := "092"%char.

(** Text between single quotes, and between double ones. *)
Definition sq (s : string) : string := byte1 squote +:+ s +:+ byte1 squote.
Definition dq (s : string) : string := byte1 dquote +:+ s +:+ byte1 dquote.

Definition line (s : string) : string := s +:+ byte1 newline.

(** A parameter that is a string. *)
Definition stringParam (key : string) (p : gmap string Value) : option string :=
  match p !! key with Some (VString s) => Some s | _ => None end.

(** strings.Split(s, "__"); each part but the last is followed by the separator. *)
Fixpoint splitUnderscores (fuel : nat) (s : string) : list string :=
  match fuel, Index s "__" with
  | S fuel, Some i => stake i s :: splitUnderscores fuel (sdrop (i + 2) s)
  | _, _ => [s]
  end.

Section executor.
Context `{!JobLib}.

Definition shouldEnableWorkspace (w : Workflow) : bool :=
  match Workspace w with
  | Some workspace => WorkspaceEnabled workspace
  | None => (1 <? length (Steps (Def w)))%nat
  end.

Definition getWorkspaceMountPath (w : Workflow) : string :=
  match Workspace w with
  | Some workspace => if decide (WorkspaceMountPath workspace = "") then "/workspace" else WorkspaceMountPath workspace
  | None => "/workspace"
  end.

(** String arguments that are JSON are passed as what they are JSON of. *)
Definition processParams (p : gmap string Value) : gmap string Value :=
  (λ v, match v with VString s => default v (unmarshalAny s) | _ => v end) <$> p.

Definition mcpCall (step : WorkflowStep) : string :=
  match splitUnderscores (String.length (Tool step)) (Tool step) with
  | _ :: server :: t :: ts =>
      let tool := Join (t :: ts) "__" in
      let argsJSON :=
        if decide (Parameters step = ∅) then "{}"
        else default "{}" (marshalArgs (processParams (Parameters step))) in
      line ("curl -s -X POST " +:+
            dq ("${MCP_PROXY_URL:-http://matey-proxy.matey.svc.cluster.local:9876}/" +:+ server) +:+
            " " +:+ byte1 backslash) +:+
      line ("  -H " +:+ dq "Content-Type: application/json" +:+ " " +:+ byte1 backslash) +:+
      line ("  -H " +:+ dq "Authorization: Bearer ${MCP_PROXY_API_KEY:-myapikey}" +:+ " " +:+ byte1 backslash) +:+
      line ("  -d " +:+
            sq ("{" +:+ dq "method" +:+ ":" +:+ dq "tools/call" +:+ "," +:+ dq "params" +:+ ":{" +:+
                dq "name" +:+ ":" +:+ dq tool +:+ "," +:+ dq "arguments" +:+ ":" +:+ argsJSON +:+ "}}") +:+
            " || echo " +:+ sq ("MCP call failed: " +:+ Tool step))
  | _ => line ("echo " +:+ sq ("Invalid MCP tool format: " +:+ Tool step))
  end.

(** The commands of one step, by its tool. *)
Definition stepScript (step : WorkflowStep) : string :=
  let tool := Tool step in
  let param key := stringParam key (Parameters step) in
  let text key := default "" (param key) in
  if decide (tool = "echo") then line ("echo " +:+ sq (default "Hello World" (param "message")))
  else if decide (tool = "date") then
    if decide (text "format" = "") then line "date" else line ("date " +:+ sq (text "format"))
  else if decide (tool = "sleep") then line ("sleep " +:+ default "1" (param "duration"))
  else if decide (tool = "curl") then
    let url := text "url" in let method := default "GET" (param "method") in
    if decide (url = "") then ""
    else line ("curl -s" +:+ (if decide (method = "GET") then "" else " -X " +:+ method) +:+
               (if decide (text "headers" = "") then "" else " -H " +:+ sq (text "headers")) +:+
               (if decide (text "data" = "") then "" else " -d " +:+ sq (text "data")) +:+
               " " +:+ sq url)
  else if decide (tool = "wget") then
    let url := text "url" in
    if decide (url = "") then ""
    else line ("wget -q" +:+ (if decide (text "output" = "") then "" else " -O " +:+ sq (text "output")) +:+
               " " +:+ sq url)
  else if decide (tool = "python3" ∨ tool = "python") then
    if decide (text "code" = "") then
      if decide (text "file" = "") then "" else line ("python3 " +:+ sq (text "file"))
    else line ("python3 -c " +:+ sq (text "code"))
  else if decide (tool = "node" ∨ tool = "nodejs") then
    if decide (text "code" = "") then
      if decide (text "file" = "") then "" else line ("node " +:+ sq (text "file"))
    else line ("node -e " +:+ sq (text "code"))
  else if decide (tool = "jq") then
    let filter := default "." (param "filter") in
    if decide (text "input" = "") then line ("jq " +:+ sq filter)
    else line ("echo " +:+ sq (text "input") +:+ " | jq " +:+ sq filter)
  else if decide (tool = "git") then
    if decide (text "command" = "") then "" else line ("git " +:+ text "command")
  else if decide (tool = "bash" ∨ tool = "sh") then
    if decide (text "command" = "") then "" else line (text "command")
  else if HasPrefix tool "mcp__" then mcpCall step
  else
    let command := match param "command" with
                   | Some cmd => cmd
                   | None => match param "args" with Some args => tool +:+ " " +:+ args | None => tool end
                   end in
    line (command +:+ " || echo " +:+ sq ("Command failed: " +:+ command)).

Definition stepBlock (i : nat) (step : WorkflowStep) : string :=
  line ("echo " +:+ sq ("Step " +:+ Itoa (Z.of_nat (S i)) +:+ ": " +:+ Name step)) +:+
  stepScript step +:+
  line ("echo " +:+ sq ("Step " +:+ Itoa (Z.of_nat (S i)) +:+ " completed")).

Definition buildShellScript (w : Workflow) : string :=
  line "#!/bin/bash" +:+ line "set -e" +:+
  line ("echo " +:+ sq ("Starting workflow: " +:+ WorkflowName w)) +:+
  (if shouldEnableWorkspace w then
     let workspacePath := getWorkspaceMountPath w in
     line ("echo " +:+ sq ("Workspace enabled at: " +:+ workspacePath)) +:+
     line ("mkdir -p " +:+ workspacePath) +:+ line ("cd " +:+ workspacePath) +:+
     line ("echo " +:+ sq "Working directory set to workspace")
   else "") +:+
  concatS (imap stepBlock (Steps (Def w))) +:+
  line ("echo " +:+ sq ("Workflow " +:+ WorkflowName w +:+ " completed successfully")).

(** The image, the command and the arguments. *)
Definition buildWorkflowExecution (w : Workflow) : string * list string * list string :=
  match Steps (Def w) with
  | [] => ("mcp.robotrad.io/workflow-runner:latest", [], ["echo 'No steps defined'"])
  | _ => ("mcp.robotrad.io/workflow-runner:latest", [], [buildShellScript w])
  end.

(** Names of more than 20 bytes are replaced by their hash. *)
Definition shortName (s : string) : string := if (20 <? String.length s)%nat then hash8 s else s.

Definition emptyWorkspace : WorkflowWorkspace :=
  {| WorkspaceEnabled := false; Size := ""; StorageClass := ""; WorkspaceMountPath := "";
     WorkspaceAccessModes := []; ReclaimPolicy := ""; RetainWorkspace := false; WorkspaceRetentionDays := 0 |}.

Definition createWorkspaceVolume (w : Workflow) (shortWorkflowName shortExecutionID : string) : TaskVolumeConfig :=
  let workspace := default emptyWorkspace (Workspace w) in
  {| TaskVolumeName := "ws-" +:+ shortWorkflowName +:+ "-" +:+ shortExecutionID;
     TaskMountPath := getWorkspaceMountPath w; VolumeType := "pvc";
     PVC := Some {| ClaimName := ""; ClaimSize := if decide (Size workspace = "") then "1Gi" else Size workspace;
                    ClaimStorageClass := StorageClass workspace;
                    ClaimAccessModes := match WorkspaceAccessModes workspace with [] => ["ReadWriteOnce"] | l => l end;
                    AutoDelete := negb (RetainWorkspace workspace) &&
                      negb (bool_decide (ReclaimPolicy workspace = WorkflowVolumeReclaimRetain)) |};
     EmptyDir := None; ConfigMap := None; TaskReadOnly := false |}.

Definition minutes (n : Z) : Z := n * 60 * 10 ^ 9.

Definition retryConfig (w : Workflow) : TaskRetryConfig :=
  match WorkflowRetry w with
  | None => {| TaskMaxRetries := 3; TaskRetryDelay := 30 * 10 ^ 9; TaskBackoff := "exponential" |}
  | Some p => {| TaskMaxRetries := RP_MaxRetries p; TaskRetryDelay := durationOr (30 * 10 ^ 9) (RP_RetryDelay p);
                 TaskBackoff := RP_BackoffStrategy p |}
  end.

(** The metadata has no key "workflow". *)
Definition createWorkflowTaskRequest (namespace : string) (now : Z) (w : Workflow)
    (workflowName executionID : string) : TaskRequest :=
  let '(image, command, args) := buildWorkflowExecution w in
  let shortExecutionID := shortName executionID in
  let shortWorkflowName := shortName workflowName in
  let env : gmap string string := {[ "WORKFLOW_NAME" := workflowName;
    "WORKFLOW_EXECUTION_ID" := executionID; "KUBERNETES_NAMESPACE" := namespace ]} in
  {| TaskID := shortWorkflowName +:+ "-" +:+ shortExecutionID;
     TaskName := "workflow-" +:+ shortWorkflowName;
     TaskDescription := "Workflow execution for " +:+ workflowName +:+ " (ID: " +:+ executionID +:+ ")";
     TaskCommand := command; TaskArgs := args; TaskImage := image;
     TaskEnv := if shouldEnableWorkspace w
                then <["WORKSPACE_ENABLED" := "true"]>
                       (<["WORKFLOW_WORKSPACE_PATH" := getWorkspaceMountPath w]> env)
                else env;
     TaskTimeout := durationOr (minutes 30) (WfTimeout (Def w));
     TaskRetry := retryConfig w; TaskCPU := "200m"; TaskMemory := "256Mi";
     TaskVolumes := if shouldEnableWorkspace w
                    then [createWorkspaceVolume w shortWorkflowName shortExecutionID] else [];
     TaskMetadata := {[ "workflowName" := VString workflowName; "executionID" := VString executionID;
       "workflowType" := VString "scheduled"; "stepCount" := VInt (len (Steps (Def w)));
       "schedule" := VString (Schedule (Def w)); "timezone" := VString (WorkflowTimezone w);
       "submittedAt" := VString (rfc3339 now) ]} |}.

Context (env : nat → Outcome).

Definition ExecuteWorkflowAsJob (namespace : string) (now : Z) (w : Workflow) (workflowName executionID : string) :
    Prog JobCluster TaskStatus :=
  during "failed to submit workflow job"
    (SubmitTask env now (createWorkflowTaskRequest namespace now w workflowName executionID)).

(** The identifier under which the executor looks for the job of an execution. *)
Definition taskIDOf (workflowName executionID : string) : string := workflowName +:+ "-" +:+ executionID.

Definition GetWorkflowJobStatus (workflowName executionID : string) : Prog JobCluster TaskStatus :=
  GetTaskStatus env (taskIDOf workflowName executionID).

Definition GetWorkflowJobLogs (arrives : nat → option nat) (workflowName executionID : string) : Prog JobCluster string :=
  GetTaskLogs env arrives (taskIDOf workflowName executionID).

Definition CancelWorkflowJob (workflowName executionID : string) : Prog JobCluster () :=
  CancelTask env (taskIDOf workflowName executionID).

Definition ListWorkflowJobs : Prog JobCluster (list TaskStatus) := ListTasks env "workflow-scheduler".

Definition CleanupOldWorkflowJobs (now olderThan : Z) : Prog JobCluster () :=
  CleanupCompletedTasks env now "workflow-scheduler" olderThan.
End executor.

(** ** What the shell makes of the script

    The words of the part of the shell's language that needs no more than single quotes:
    words, quotes, blanks, lines, pipes and comments.  [None] is any other character
    outside of quotes, or a quote that is not closed. *)
Inductive Token := Word (w : string) | Newline | Pipe.
Inductive Mode := Out (cur : option string) | Quoted (cur : string) | Comment.

Definition wordByte (c : ascii) : bool :=
  alphanumeric c || bool_decide (c ∈ ["-"; "_"; "."; "/"; ":"; ","; "@"; "%"; "+"]%char).

Definition flush (cur : option string) : list Token :=
  match cur with Some w => [Word w] | None => [] end.

Fixpoint shellWords (m : Mode) (s : string) : option (list Token) :=
  match s with
  | "" => match m with Out cur => Some (flush cur) | Quoted _ => None | Comment => Some [] end
  | String c s' =>
      match m with
      | Quoted cur =>
          if decide (c = squote) then shellWords (Out (Some cur)) s'
          else shellWords (Quoted (cur +:+ byte1 c)) s'
      | Comment =>
          if decide (c = newline) then cons Newline <$> shellWords (Out None) s' else shellWords Comment s'
      | Out cur =>
          if decide (c = squote) then shellWords (Quoted (default "" cur)) s'
          else if decide (c = " "%char) then app (flush cur) <$> shellWords (Out None) s'
          else if decide (c = newline) then app (flush cur ++ [Newline]) <$> shellWords (Out None) s'
          else if decide (c = "|"%char) then app (flush cur ++ [Pipe]) <$> shellWords (Out None) s'
          else if decide (c = "#"%char ∧ cur = None) then shellWords Comment s'
          else if wordByte c then shellWords (Out (Some (default "" cur +:+ byte1 c))) s'
          else None
      end
  end.

(** A plain word, a word in quotes, or a bar. *)
Inductive Item := P (w : string) | Q (s : string) | Bar.

Definition itemText (i : Item) : string := match i with P w => w | Q s => sq s | Bar => "|" end.
Definition itemToken (i : Item) : Token := match i with P w => Word w | Q s => Word s | Bar => Pipe end.
Definition plainWord (w : string) : bool := bool_decide (w ≠ "") && allBytes wordByte w.
Definition unquotable (s : string) : bool := (CountByte s squote =? 0)%nat.
Definition itemOk (i : Item) : bool :=
  match i with P w => plainWord w | Q s => unquotable s | Bar => true end.

Definition itemsLine (l : list Item) : string := line (Join (itemText <$> l) " ").
Definition itemTokens (l : list Item) : list Token := (itemToken <$> l) ++ [Newline].

(** The text [s], at the beginning of a word, is the tokens [l]. *)
Definition lexes (s : string) (l : list Token) : Prop :=
  ∀ t, shellWords (Out None) (s +:+ t) = app l <$> shellWords (Out None) t.

Lemma lexes_nil : lexes "" [].
Proof. intros t. simpl. by destruct (shellWords _ _). Qed.

Lemma lexes_app s1 s2 l1 l2 : lexes s1 l1 → lexes s2 l2 → lexes (s1 +:+ s2) (l1 ++ l2).
Proof.
  intros H1 H2 t. rewrite <-sapp_assoc, H1, H2. destruct (shellWords _ t); simpl; [|done].
  by rewrite app_assoc.
Qed.

Lemma shellWords_quoted s cur t : unquotable s = true →
  shellWords (Quoted cur) (s +:+ String squote t) = shellWords (Out (Some (cur +:+ s))) t.
Proof.
  unfold unquotable. revert cur. induction s as [|c s IH]; intros cur Hs.
  - simpl. by rewrite sapp_nil_r.
  - cbn [String.append shellWords]. case_decide as Hc; [subst c; by rewrite CountByte_here in Hs|].
    rewrite IH; [by rewrite <-sapp_assoc|]. simpl in Hs.
    destruct (Ascii.eqb_spec c squote); [done|exact Hs].
Qed.

Lemma wordByte_plain c : wordByte c = true →
  c ≠ squote ∧ c ≠ " "%char ∧ c ≠ newline ∧ c ≠ "|"%char ∧ c ≠ "#"%char.
Proof. intros Hc. split_and!; intros ->; by vm_compute in Hc. Qed.

Lemma shellWords_byte c cur t : wordByte c = true →
  shellWords (Out cur) (String c t) = shellWords (Out (Some (default "" cur +:+ byte1 c))) t.
Proof.
  intros Hc. destruct (wordByte_plain c Hc) as (H1 & H2 & H3 & H4 & H5). simpl.
  rewrite !decide_False by naive_solver. by rewrite Hc.
Qed.

Lemma shellWords_plain w cur t : allBytes wordByte w = true →
  shellWords (Out (Some cur)) (w +:+ t) = shellWords (Out (Some (cur +:+ w))) t.
Proof.
  revert cur. induction w as [|c w IH]; intros cur Hw; [simpl; by rewrite sapp_nil_r|].
  simpl in Hw. apply andb_true_iff in Hw as [Hc Hw]. change (String c w +:+ t) with (String c (w +:+ t)).
  rewrite shellWords_byte by done. simpl default. rewrite IH by done. by rewrite <-sapp_assoc.
Qed.

(** An item up to the blank or the end of the line after it. *)
Lemma shellWords_item i t : itemOk i = true →
  shellWords (Out None) (itemText i +:+ String " " t) = cons (itemToken i) <$> shellWords (Out None) t ∧
  shellWords (Out None) (itemText i +:+ String newline t) =
    app [itemToken i; Newline] <$> shellWords (Out None) t.
Proof.
  intros Hi. destruct i as [w|s|].
  - simpl in Hi. unfold plainWord in Hi. apply andb_true_iff in Hi as [Hn Hw].
    destruct w as [|c w]; [done|]. simpl in Hw. apply andb_true_iff in Hw as [Hc Hw]. simpl itemText.
    change (String c w +:+ ?t) with (String c (w +:+ t)). rewrite !shellWords_byte by done. simpl default.
    rewrite !shellWords_plain by done. by split.
  - simpl in Hi. simpl itemText. unfold sq, byte1. rewrite <-!sapp_assoc. simpl.
    rewrite !shellWords_quoted by done. by split.
  - simpl. split; [|by destruct (shellWords _ t)]. by destruct (shellWords _ t).
Qed.

Lemma lexes_line l : l ≠ [] → Forall (λ i, itemOk i = true) l → lexes (itemsLine l) (itemTokens l).
Proof.
  intros Hl Hok t. unfold itemsLine, itemTokens, line.
  induction Hok as [|i l Hi Hok IH]; [done|]. destruct l as [|j l].
  - simpl. rewrite <-sapp_assoc. by apply shellWords_item.
  - rewrite !fmap_cons in *. cbn [Join] in *. rewrite <-!sapp_assoc in *.
    change (" " +:+ ?x) with (String " " x). rewrite (proj1 (shellWords_item i _ Hi)), IH by done.
    by destruct (shellWords _ t).
Qed.

(** The lines that a step is meant to be: the program with its arguments.  [None] is a
    tool whose text is a command of its own or an MCP call. *)
Definition stepItems (step : WorkflowStep) : option (list (list Item)) :=
  let tool := Tool step in
  let param key := stringParam key (Parameters step) in
  let text key := default "" (param key) in
  let unless (b : bool) (l : list Item) := if b then [] else l in
  let same key (v : string) : bool := bool_decide (key = v) in
  if decide (tool = "echo") then Some [[P "echo"; Q (default "Hello World" (param "message"))]]
  else if decide (tool = "date") then Some [P "date" :: unless (same (text "format") "") [Q (text "format")]]
  else if decide (tool = "sleep") then Some [[P "sleep"; P (default "1" (param "duration"))]]
  else if decide (tool = "curl") then
    let method := default "GET" (param "method") in
    Some (if same (text "url") "" then []
          else [[P "curl"; P "-s"] ++ unless (same method "GET") [P "-X"; P method] ++
                unless (same (text "headers") "") [P "-H"; Q (text "headers")] ++
                unless (same (text "data") "") [P "-d"; Q (text "data")] ++ [Q (text "url")]])
  else if decide (tool = "wget") then
    Some (if same (text "url") "" then []
          else [[P "wget"; P "-q"] ++ unless (same (text "output") "") [P "-O"; Q (text "output")] ++ [Q (text "url")]])
  else if decide (tool = "python3" ∨ tool = "python") then
    Some (if same (text "code") "" then if same (text "file") "" then [] else [[P "python3"; Q (text "file")]]
          else [[P "python3"; P "-c"; Q (text "code")]])
  else if decide (tool = "node" ∨ tool = "nodejs") then
    Some (if same (text "code") "" then if same (text "file") "" then [] else [[P "node"; Q (text "file")]]
          else [[P "node"; P "-e"; Q (text "code")]])
  else if decide (tool = "jq") then
    let filter := default "." (param "filter") in
    Some [if same (text "input") "" then [P "jq"; Q filter]
          else [P "echo"; Q (text "input"); Bar; P "jq"; Q filter]]
  else None.

Lemma stepScript_items `{!JobLib} step lines :
  stepItems step = Some lines → stepScript step = concatS (itemsLine <$> lines).
Proof.
  unfold stepItems, stepScript. intros Hl.
  repeat (case_decide; [injection Hl as <-; repeat case_bool_decide; repeat (case_decide; try congruence);
    unfold itemsLine, line, sq; simpl; rewrite ?sapp_nil_r, <-?sapp_assoc; done|]).
  done.
Qed.

Definition echoItems (s : string) : list Item := [P "echo"; Q s].

Definition stepLines (i : nat) (step : WorkflowStep) : option (list (list Item)) :=
  lines ← stepItems step;
  Some (echoItems ("Step " +:+ Itoa (Z.of_nat (S i)) +:+ ": " +:+ Name step) :: lines ++
        [echoItems ("Step " +:+ Itoa (Z.of_nat (S i)) +:+ " completed")]).

(** The lines of the script after the first: the steps in the order of the list. *)
Definition scriptLines (w : Workflow) : option (list (list Item)) :=
  lines ← mapM (λ p : nat * WorkflowStep, stepLines p.1 p.2) (imap pair (Steps (Def w)));
  let path := getWorkspaceMountPath w in
  Some ([[P "set"; P "-e"]; echoItems ("Starting workflow: " +:+ WorkflowName w)] ++
        (if shouldEnableWorkspace w then
           [echoItems ("Workspace enabled at: " +:+ path); [P "mkdir"; P "-p"; P path]; [P "cd"; P path];
            echoItems "Working directory set to workspace"]
         else []) ++
        concat lines ++ [echoItems ("Workflow " +:+ WorkflowName w +:+ " completed successfully")]).

Lemma stepBlock_items `{!JobLib} i step lines :
  stepLines i step = Some lines → stepBlock i step = concatS (itemsLine <$> lines).
Proof.
  unfold stepLines, stepBlock. intros Hl. apply bind_Some in Hl as (ls & Hls & [= <-]).
  rewrite (stepScript_items _ _ Hls), fmap_cons, fmap_app. simpl. rewrite concatS_app. simpl.
  unfold itemsLine, line, sq. simpl. by rewrite ?sapp_nil_r, <-?sapp_assoc.
Qed.

Lemma stepBlocks_items `{!JobLib} l lines :
  mapM (λ p : nat * WorkflowStep, stepLines p.1 p.2) l = Some lines →
  concatS ((λ p, stepBlock p.1 p.2) <$> l) = concatS (itemsLine <$> concat lines).
Proof.
  intros Hl. apply mapM_Some in Hl. induction Hl as [|p ls l lines Hp Hl IH]; [done|].
  rewrite fmap_cons. change (concat (ls :: lines)) with (ls ++ concat lines).
  rewrite fmap_app, concatS_app, <-IH, <-(stepBlock_items _ _ _ Hp). done.
Qed.

Lemma buildShellScript_items `{!JobLib} w lines : scriptLines w = Some lines →
  buildShellScript w = line "#!/bin/bash" +:+ concatS (itemsLine <$> lines).
Proof.
  unfold scriptLines. intros Hl. apply bind_Some in Hl as (ls & Hls & [= <-]).
  apply stepBlocks_items in Hls. unfold buildShellScript. f_equal.
  replace (imap stepBlock (Steps (Def w))) with ((λ p, stepBlock p.1 p.2) <$> imap pair (Steps (Def w)))
    by by rewrite fmap_imap.
  rewrite Hls, !fmap_cons, !fmap_app.
  assert (∀ x l, concatS (x :: l) = x +:+ concatS l) as Hc by done. rewrite !Hc, !concatS_app. clear Hc.
  destruct (shouldEnableWorkspace w); simpl; unfold itemsLine, line, sq; simpl;
    by rewrite ?sapp_nil_r, <-?sapp_assoc.
Qed.

Lemma lexes_lines lines : Forall (λ l, l ≠ [] ∧ Forall (λ i, itemOk i = true) l) lines →
  lexes (concatS (itemsLine <$> lines)) (concat (itemTokens <$> lines)).
Proof.
  induction 1 as [|l lines [Hn Hok] _ IH]; [apply lexes_nil|]. apply lexes_app; [by apply lexes_line|done].
Qed.

Lemma stepItems_nonempty step lines : stepItems step = Some lines → Forall (λ l, l ≠ []) lines.
Proof.
  unfold stepItems. intros Hl. repeat (case_decide; [injection Hl as <-; repeat case_bool_decide; by repeat constructor|]).
  done.
Qed.

Lemma scriptLines_nonempty w lines : scriptLines w = Some lines → Forall (λ l, l ≠ []) lines.
Proof.
  unfold scriptLines. intros Hl. apply bind_Some in Hl as (ls & Hls & [= <-]).
  repeat constructor; [done..|]. apply Forall_app. split; [destruct (shouldEnableWorkspace w); by repeat constructor|].
  apply Forall_app. split; [|by repeat constructor]. apply Forall_concat.
  apply mapM_Some in Hls. clear -Hls. induction Hls as [|p x l ls Hp _ IH]; constructor; [|done].
  unfold stepLines in Hp. apply bind_Some in Hp as (l' & Hl' & [= <-]). constructor; [done|].
  apply Forall_app. split; [by eapply stepItems_nonempty|by repeat constructor].
Qed.

(** C19: let a workflow use the tools echo, date, sleep, curl, wget, python, node and jq
    only (not bash, sh, git, MCP tools or others, whose parameters go to the script as they
    are: [stepItems]).  If the texts that its script quotes have no apostrophe, and what it
    leaves unquoted, which is a duration, a method and the mount path, are plain words, the
    shell reads the script as the programs of the steps with exactly their arguments, in
    the order of the list.  A message with an apostrophe ([injected]) or a duration such as
    "1; reboot" is outside. *)
Theorem script_commands `{!JobLib} w lines :
  scriptLines w = Some lines → Forall (Forall (λ i, itemOk i = true)) lines →
  shellWords (Out None) (buildShellScript w) = Some (Newline :: concat (itemTokens <$> lines)).
Proof.
  intros Hl Hok. rewrite (buildShellScript_items _ _ Hl).
  assert (∀ t, shellWords (Out None) (line "#!/bin/bash" +:+ t) = cons Newline <$> shellWords (Out None) t) as -> by done.
  pose proof (lexes_lines lines) as Hlex. rewrite <-(sapp_nil_r (concatS _)). rewrite Hlex; [|].
  - simpl. by rewrite app_nil_r.
  - apply scriptLines_nonempty in Hl. rewrite Forall_forall in *. intros l Hin. split; [by apply Hl|by apply Hok].
Qed.

(** The order that the dependencies ask for, conditions, run policies, retries, timeouts
    and continuing on errors have no part in the script. *)
Lemma script_ignores_control `{!JobLib} w w' :
  WorkflowName w = WorkflowName w' → Workspace w = Workspace w' →
  (λ s, (Name s, Tool s, Parameters s)) <$> Steps (Def w) = (λ s, (Name s, Tool s, Parameters s)) <$> Steps (Def w') →
  buildShellScript w = buildShellScript w'.
Proof.
  intros Hn Hw Hs. unfold buildShellScript, shouldEnableWorkspace, getWorkspaceMountPath.
  assert (imap stepBlock (Steps (Def w)) = imap stepBlock (Steps (Def w'))) as ->.
  { apply list_eq. intros i. rewrite !list_lookup_imap.
    apply (f_equal (lookup i)) in Hs. rewrite !list_lookup_fmap in Hs.
    destruct (Steps (Def w) !! i) as [s|], (Steps (Def w') !! i) as [s'|]; try done.
    injection Hs as E1 E2 E3. simpl. f_equal. unfold stepBlock, stepScript, mcpCall. by rewrite E1, E2, E3. }
  apply (f_equal length) in Hs. rewrite !length_fmap in Hs. by rewrite Hn, Hw, Hs.
Qed.

(** ** Jobs of scheduled executions *)

(** The execution that the scheduler starts at [t], in seconds since 1970. *)
Definition executionID (workflowName : string) (t : Z) : string := workflowName +:+ "-" +:+ Itoa t.

(** Times from September 2001 to November 2286 have ten digits. *)
Definition ten_digits (t : Z) : Prop := 10 ^ 9 ≤ t < 10 ^ 10.

(** A name that could be part of a label: letters, digits, dashes, underscores and dots,
    with a letter or a digit at both ends. *)
Definition nameBytes (s : string) : bool :=
  match s with
  | "" => false
  | String c s' => alphanumeric c && alphanumeric (lastByte c s') && allBytes labelByte s
  end.

(** SHA-256 has 64 hexadecimal digits, and a selector of more than 63 characters is refused. *)
Class JobLaws `{JobLib} := {
  sha256_length : ∀ s, String.length (sha256hex s) = 64%nat;
  long_selector : ∀ key s, nameBytes s = true → (63 < String.length s)%nat → otherSelector key s = None;
}.

Lemma length_pretty k n s : (10 ^ N.of_nat k ≤ n < 10 ^ N.of_nat (S k))%N →
  String.length (pretty_N_go n s) = (S k + String.length s)%nat.
Proof.
  revert n s. induction k as [|k IH]; intros n s Hn.
  - rewrite pretty_N_go_step by lia. rewrite N.div_small by lia. by rewrite pretty_N_go_0.
  - rewrite !Nat2N.inj_succ, !N.pow_succ_r' in Hn.
    assert (10 ^ N.of_nat k ≠ 0)%N by by apply N.pow_nonzero.
    rewrite pretty_N_go_step by lia. rewrite IH; [simpl; lia|]. rewrite Nat2N.inj_succ, N.pow_succ_r'.
    split; [apply N.div_le_lower_bound; lia|apply N.Div0.div_lt_upper_bound; lia].
Qed.

Lemma length_Itoa t : ten_digits t → String.length (Itoa t) = 10%nat.
Proof.
  intros Ht. unfold ten_digits in Ht. destruct t as [|p|p]; [lia| |lia].
  change (Itoa (Zpos p)) with (pretty_N_go (Npos p) ""). rewrite (length_pretty 9); [done|].
  change (10 ^ N.of_nat 9)%N with 1000000000%N. change (10 ^ N.of_nat 10)%N with 10000000000%N. lia.
Qed.

Lemma allBytes_app p s t : allBytes p (s +:+ t) = allBytes p s && allBytes p t.
Proof. induction s as [|c s IH]; simpl; [done|]. by rewrite IH, andb_assoc. Qed.

Lemma lastByte_app c s d t : lastByte c (s +:+ String d t) = lastByte d t.
Proof. revert c. induction s as [|e s IH]; intros c; simpl; auto. Qed.

Lemma digit_byte n : (n < 10)%N → alphanumeric (pretty_N_char n) = true.
Proof.
  intros Hn. destruct (digit_char n Hn) as [Hd _]. unfold isDigitByte in Hd. unfold alphanumeric. by rewrite Hd.
Qed.

Lemma pretty_label n s : allBytes labelByte s = true → allBytes labelByte (pretty_N_go n s) = true.
Proof.
  revert s. induction (N.lt_wf_0 n) as [n _ IH]. intros s Hs.
  destruct (decide (n = 0)%N) as [->|Hn]; [by rewrite pretty_N_go_0|].
  rewrite pretty_N_go_step by lia. apply IH; [apply N.div_lt; lia|]. simpl. unfold labelByte at 1.
  rewrite digit_byte by (apply N.mod_lt; lia). done.
Qed.

Lemma pretty_last n c s : n ≠ 0%N →
  alphanumeric (lastByte c (pretty_N_go n s)) = match s with "" => true | String d t => alphanumeric (lastByte d t) end.
Proof.
  intros Hn. destruct s as [|d t].
  - rewrite pretty_N_go_step by lia.
    assert (pretty_N_go (n `div` 10) (String (pretty_N_char (n `mod` 10)) "") =
      pretty_N_go (n `div` 10) "" +:+ String (pretty_N_char (n `mod` 10)) "") as -> by by rewrite pretty_N_go_app.
    rewrite lastByte_app. simpl. apply digit_byte, N.mod_lt. lia.
  - change (String d t) with ("" +:+ String d t) at 1. rewrite <-pretty_N_go_app. by rewrite lastByte_app.
Qed.

Lemma nameBytes_dash s t : nameBytes s = true → ten_digits t → nameBytes (s +:+ "-" +:+ Itoa t) = true.
Proof.
  intros Hs Ht. unfold ten_digits in Ht. destruct s as [|c s]; [done|]. simpl in *.
  rewrite !andb_true_iff in *. destruct Hs as [[Hc Hl] [Hc' Ha]].
  destruct t as [|p|p]; [lia| |lia]. change (Itoa (Zpos p)) with (pretty_N_go (Npos p) "").
  split_and!; [done| |done|].
  - change (String "-" ?x) with ("-" +:+ x). simpl. rewrite lastByte_app. by rewrite pretty_last.
  - rewrite allBytes_app, Ha. simpl. by rewrite pretty_label.
Qed.

Lemma nameBytes_join s u : nameBytes s = true → nameBytes u = true → nameBytes (s +:+ "-" +:+ u) = true.
Proof.
  intros Hs Hu. destruct s as [|c s]; [done|]. destruct u as [|d u]; [done|]. cbn in Hs, Hu |- *.
  rewrite !andb_true_iff in *. destruct Hs as [[? ?] [? Ha]], Hu as [[? ?] [Hd Ha']].
  rewrite lastByte_app, allBytes_app. cbn. rewrite Ha, Ha', Hd. done.
Qed.

Lemma validLabel_name s : nameBytes s = true → validLabel s = (String.length s <=? 63)%nat.
Proof.
  destruct s as [|c s]; [done|]. unfold nameBytes, validLabel. rewrite !andb_true_iff.
  intros [[-> ->] ->]. by rewrite !andb_true_r.
Qed.

(** ** What the operations do to the cluster *)

Definition jobNameOf (id : string) : string := "task-" +:+ id.

Section effects.
Context `{!JobLib}.

(** Only claims were added, each for a volume of the task that names none. *)
Record grown (now : Z) (task : TaskRequest) (c c' : JobCluster) : Prop := {
  gr_jobs : jobs c' = jobs c;
  gr_pods : pods c' = pods c;
  gr_claims : ∀ name, claims c' !! name = claims c !! name ∨
    (claims c !! name = None ∧ ∃ v pvc, v ∈ TaskVolumes task ∧ PVC v = Some pvc ∧
       name = autoClaimName task (TaskVolumeName v) ∧ claims c' !! name = Some (claimFor now name pvc));
}.

Lemma grown_refl now task c : grown now task c c.
Proof. split; [done..|]. by left. Qed.

Lemma grown_trans now task c1 c2 c3 : grown now task c1 c2 → grown now task c2 c3 → grown now task c1 c3.
Proof.
  intros [J1 P1 C1] [J2 P2 C2]. split; [congruence..|]. intros name.
  destruct (C2 name) as [E2|(N2 & H2)], (C1 name) as [E1|(N1 & H1)].
  - left. congruence.
  - right. split; [done|]. rewrite E2. naive_solver.
  - right. split; [congruence|done].
  - right. by split.
Qed.

Lemma createPVCForTask_grown env now task v pvc c n : v ∈ TaskVolumes task → PVC v = Some pvc →
  wp (createPVCForTask env now (autoClaimName task (TaskVolumeName v)) pvc) (c, n)
    (λ _ x, grown now task c x.1).
Proof.
  intros Hv Hp. unfold createPVCForTask, getClaim, createClaim. set (name := autoClaimName _ _).
  assert (∀ r (x : JobCluster * nat), grown now task c x.1 → wp (acceptExisting r) x (λ _ x, grown now task c x.1)) as Hend.
  { intros [u|e] x Hx; unfold acceptExisting; [by apply prog_ret|].
    destruct (Contains e _); [by apply prog_ret|by apply wp_throw]. }
  assert (claims c !! name = None → grown now task c (with_claims (<[name := claimFor now name pvc]> (claims c)) c)) as Hg.
  { intros Hn. split; [done..|]. intros name'. simpl. destruct (decide (name' = name)) as [->|Hne].
    - right. split; [done|]. exists v, pvc. by rewrite lookup_insert_eq.
    - left. by rewrite lookup_insert_ne. }
  assert (∀ n', wp (attempt (call env (λ c, match claims c !! name with
      | Some _ => (Err "already exists", c)
      | None => (Ok (), with_claims (<[name := claimFor now name pvc]> (claims c)) c)
      end)) ≫= acceptExisting) (c, n') (λ _ x, grown now task c x.1)) as Hcreate.
  { intros n'. apply prog_bind, wp_attempt.
    apply wp_call; [|intros e; apply Hend, grown_refl|intros e; apply Hend];
      destruct (claims c !! name) eqn:Hn; try apply Hend; cbn [fst snd]; auto using grown_refl. }
  apply prog_bind, wp_attempt, wp_call; simpl; [|intros e; apply Hcreate..].
  destruct (claims c !! name) as [claim|]; [|apply Hcreate]. case_bool_decide; [|apply Hcreate].
  apply prog_ret, grown_refl.
Qed.

Lemma jobVolume_grown env now task v c n : v ∈ TaskVolumes task →
  wp (jobVolume env now task v) (c, n) (λ _ x, grown now task c x.1).
Proof.
  intros Hv. unfold jobVolume. repeat case_decide; try apply wp_throw; try apply prog_ret; try apply grown_refl.
  - destruct (PVC v) as [pvc|] eqn:Hp; [|apply wp_throw, grown_refl]. case_decide; [|apply prog_ret, grown_refl].
    apply prog_bind, wp_during. eapply prog_mono; [by apply createPVCForTask_grown|].
    intros [u|e] x Hx; [by apply prog_ret|done].
  - destruct (ConfigMap v); [apply prog_ret|apply wp_throw]; apply grown_refl.
Qed.

Lemma createJobSpec_grown env now task c n :
  wp (createJobSpec env now task) (c, n) (λ r x, grown now task c x.1 ∧
    match r with
    | Ok nj => nj.1 = jobNameOf (TaskID task) ∧ JobLabels nj.2 = jobLabels task
    | Err _ => True end).
Proof.
  unfold createJobSpec.
  assert (∀ l c' n', (∀ v, v ∈ l → v ∈ TaskVolumes task) → grown now task c c' →
    wp (collect (jobVolume env now task) l) (c', n') (λ _ x, grown now task c x.1)) as Hl.
  { induction l as [|v l IH]; intros c' n' Hin Hg; simpl; [by apply prog_ret|].
    apply prog_bind. eapply prog_mono; [apply jobVolume_grown, Hin; left|].
    intros [a|e] [c1 n1] Hc1; simpl in *; [|by eapply grown_trans].
    apply prog_bind. eapply prog_mono; [apply IH; [intros; apply Hin; by right|by eapply grown_trans]|].
    intros [b|e] x Hx; [by apply prog_ret|done]. }
  apply prog_bind. eapply prog_mono; [apply Hl; [done|apply grown_refl]|].
  intros [sources|e] x Hx; simpl; [|done]. apply prog_ret. done.
Qed.

(** A submission adds claims, and then the job or nothing. *)
Lemma SubmitTask_spec env now task c n :
  wp (SubmitTask env now task) (c, n) (λ r x, ∃ c', grown now task c c' ∧
    ((is_ok r = false ∧ x.1 = c') ∨
     ∃ job, jobs c !! jobNameOf (TaskID task) = None ∧ JobLabels job = jobLabels task ∧
       x.1 = with_jobs (<[jobNameOf (TaskID task) := job]> (jobs c')) c')).
Proof.
  unfold SubmitTask. apply prog_bind, wp_during. eapply prog_mono; [apply createJobSpec_grown|].
  intros [[jn job]|e] [c' n'] [Hg Hr]; simpl in *; [|exists c'; split; [done|by left]].
  destruct Hr as [-> Hlab]. apply prog_bind, wp_during. unfold createJob. simpl.
  apply wp_call; simpl; [|intros e; exists c'; split; [done|by left]|];
    (destruct (negb _); simpl; [intros; exists c'; split; [done|by left]|]);
    (destruct (jobs c' !! _) eqn:Hj; simpl; [intros; exists c'; split; [done|by left]|]).
  - apply prog_ret. exists c'. split; [done|]. right. exists job. split_and!; [|done..]. by rewrite <-(gr_jobs _ _ _ _ Hg).
  - intros e. exists c'. split; [done|]. right. exists job. split_and!; [|done..]. by rewrite <-(gr_jobs _ _ _ _ Hg).
Qed.

(** Jobs may come to another state or go; none is added. *)
Definition labels_kept (c c' : JobCluster) : Prop :=
  ∀ jn job', jobs c' !! jn = Some job' → ∃ job, jobs c !! jn = Some job ∧ JobLabels job' = JobLabels job.

Lemma labels_kept_refl c : labels_kept c c.
Proof. intros jn job. eauto. Qed.

Lemma deleteJob_kept env b jn c c0 n : labels_kept c0 c →
  wp (deleteJob env b jn) (c, n) (λ _ x, labels_kept c0 x.1).
Proof.
  intros Hk. unfold deleteJob.
  assert (∀ d, labels_kept c0 {| jobs := delete jn (jobs c); claims := claims c; pods := d |}) as Hd.
  { intros d jn' job'. simpl. rewrite lookup_delete_Some. intros [_ Hj]. by apply Hk. }
  apply wp_call; simpl; [|done|intros e]; by destruct (jobs c !! jn); simpl.
Qed.

Lemma CancelWorkflowJob_kept env name exec c n :
  wp (CancelWorkflowJob env name exec) (c, n) (λ _ x, labels_kept c x.1).
Proof.
  pose proof (labels_kept_refl c) as Hc. unfold CancelWorkflowJob, CancelTask, findTask, listJobs.
  apply prog_bind, prog_bind, wp_during, wp_call; simpl; [|done..].
  destruct (selected _ _ _ _) as [[|j l]|e]; simpl; [by apply wp_throw| |done].
  apply prog_ret, wp_during. eapply prog_mono; [by apply deleteJob_kept|]. by intros [u|e] x Hx.
Qed.

Lemma CleanupCompletedTasks_kept env now s d c n :
  wp (CleanupCompletedTasks env now s d) (c, n) (λ _ x, labels_kept c x.1).
Proof.
  pose proof (labels_kept_refl c) as Hc. unfold CleanupCompletedTasks, listJobs.
  apply prog_bind, wp_during, wp_call; simpl; [|done..]. destruct (selected _ _ _ _) as [l|e]; simpl; [|done]. apply wp_each; [done|].
  intros nj [c' n'] _ Hk. apply prog_bind, wp_attempt. eapply prog_mono; [by apply deleteJob_kept|].
  intros r x Hx. by apply prog_ret.
Qed.

End effects.

Section scheduled.
Context `{!JobLib, !JobLaws}.

Definition submittedID (workflowName : string) (t : Z) : string :=
  shortName workflowName +:+ "-" +:+ shortName (executionID workflowName t).

Lemma executionID_length name t : ten_digits t →
  String.length (executionID name t) = (String.length name + 11)%nat.
Proof. intros Ht. unfold executionID. rewrite !slength_app, length_Itoa by done. simpl. lia. Qed.

Lemma shortName_length s : (String.length (shortName s) ≤ 20)%nat ∧
  ((20 < String.length s)%nat → String.length (shortName s) = 8%nat).
Proof.
  unfold shortName, hash8. destruct (20 <? String.length s)%nat eqn:E.
  - rewrite slength_stake by (rewrite sha256_length; lia). lia.
  - apply Nat.ltb_ge in E. lia.
Qed.

(** A name of at most nine bytes, and only such a name, is that of the job. *)
Lemma submittedID_short name t : ten_digits t → (String.length name ≤ 9)%nat →
  submittedID name t = taskIDOf name (executionID name t).
Proof.
  intros Ht Hn. pose proof (executionID_length name t Ht) as Hl.
  unfold submittedID, taskIDOf, shortName. rewrite !(proj2 (Nat.ltb_ge _ _)) by lia. done.
Qed.

Lemma submittedID_length name t : ten_digits t → (String.length (submittedID name t) ≤ 30)%nat.
Proof.
  intros Ht. pose proof (executionID_length name t Ht) as Hl. unfold submittedID. rewrite !slength_app. simpl.
  destruct (decide (String.length name ≤ 9)%nat) as [Hn|Hn].
  - unfold shortName. rewrite !(proj2 (Nat.ltb_ge _ _)) by lia. lia.
  - destruct (shortName_length name) as [H1 _].
    rewrite (proj2 (shortName_length (executionID name t))) by lia. lia.
Qed.

Lemma taskIDOf_length name t : ten_digits t → (9 < String.length name)%nat →
  (32 ≤ String.length (taskIDOf name (executionID name t)))%nat.
Proof.
  intros Ht Hn. unfold taskIDOf. rewrite !slength_app, executionID_length by done. simpl. lia.
Qed.

(** All jobs are of scheduled executions. *)
Definition scheduled_jobs (c : JobCluster) : Prop :=
  ∀ jn job, jobs c !! jn = Some job → ∃ name t, ten_digits t ∧ jn = jobNameOf (submittedID name t) ∧
    JobLabels job !! "mcp.matey.ai/task-id" = Some (submittedID name t).

(** What changes of the cluster that only concern statuses, pods and claims keep. *)
Lemma GetTaskStatus_none env id c n :
  (validLabel id = true → ∀ jn job, jobs c !! jn = Some job → JobLabels job !! "mcp.matey.ai/task-id" ≠ Some id) →
  (validLabel id = false → otherSelector "mcp.matey.ai/task-id" id = None) →
  wp (GetTaskStatus env id) (c, n) (λ r x, is_ok r = false ∧ x.1 = c).
Proof.
  intros Hv Ho. unfold GetTaskStatus, findTask, listJobs. apply prog_bind, prog_bind, wp_during.
  apply wp_call; simpl; [|done..]. unfold selected. destruct (validLabel id).
  - rewrite filter_none; [done|]. apply Forall_forall. intros [jn job] Hj.
    apply elem_of_map_to_list in Hj. simpl. by eapply Hv.
  - by rewrite Ho.
Qed.

(** A job is found under a label that only it has. *)
Lemma GetTaskStatus_found env id c n jn job : (∀ k, env k = Works) → validLabel id = true →
  jobs c !! jn = Some job → JobLabels job !! "mcp.matey.ai/task-id" = Some id →
  (∀ jn' job', jobs c !! jn' = Some job' → JobLabels job' !! "mcp.matey.ai/task-id" = Some id → jn' = jn) →
  wp (GetTaskStatus env id) (c, n) (λ r x, ∃ s, r = Ok s ∧ StatusPhase s = phaseOf (JobState job) ∧ x.1 = c).
Proof.
  intros He Hv Hj Hl Huniq. unfold GetTaskStatus, findTask, listJobs.
  apply prog_bind, prog_bind, wp_during, wp_call_works; [done|]. simpl. unfold selected. rewrite Hv.
  set (l := filter _ _).
  assert (l = [(jn, job)]) as ->.
  { assert ((jn, job) ∈ l) as Hin by (apply list_elem_of_filter; split; [done|by apply elem_of_map_to_list]).
    assert (∀ p, p ∈ l → p = (jn, job)) as Hall.
    { intros [jn' job'] Hp. apply list_elem_of_filter in Hp as [Hp Hp']. apply elem_of_map_to_list in Hp'.
      simpl in Hp. assert (jn' = jn) as -> by by eapply Huniq. congruence. }
    assert (NoDup l) as Hnd by apply NoDup_filter, NoDup_map_to_list.
    destruct l as [|a [|b l']]; [by apply not_elem_of_nil in Hin|f_equal; apply Hall; left|].
    rewrite (Hall a), (Hall b) in Hnd by set_solver. apply NoDup_cons in Hnd as [Hnd _]. destruct Hnd. left. }
  apply prog_ret. simpl. unfold enrichStatusWithPodInfo, listPods.
  apply prog_bind, wp_attempt, prog_bind, wp_call_works; [done|]. simpl. apply prog_ret, prog_ret.
  eexists. split; [done|]. split; [|done]. unfold withPod. repeat case_match; done.
Qed.

(** The jobs of the cluster while the scheduler runs: it submits executions, and whatever
    else happens only changes and removes jobs. *)
Inductive cluster_step (c : JobCluster) : JobCluster → Prop :=
  | StepSubmit env namespace now w name t n : ten_digits t →
      cluster_step c (ExecuteWorkflowAsJob env namespace now w name (executionID name t) (c, n)).2.1
  | StepOther c' : labels_kept c c' → cluster_step c c'.

Lemma requestID namespace now w name t :
  TaskID (createWorkflowTaskRequest namespace now w name (executionID name t)) = submittedID name t.
Proof. unfold createWorkflowTaskRequest. by destruct (buildWorkflowExecution w) as [[image command] args]. Qed.

Lemma submittedID_label name t : ten_digits t → shortenForK8sLabel (submittedID name t) = submittedID name t.
Proof.
  intros Ht. unfold shortenForK8sLabel. pose proof (submittedID_length name t Ht).
  by rewrite (proj2 (Nat.leb_le _ _)) by lia.
Qed.

Lemma cluster_step_scheduled c c' : scheduled_jobs c → cluster_step c c' → scheduled_jobs c'.
Proof.
  intros Hs [env namespace now w name t n Ht|c2 Hk].
  - pose proof (SubmitTask_spec env now (createWorkflowTaskRequest namespace now w name (executionID name t)) c n) as Hsub.
    unfold ExecuteWorkflowAsJob, during. unfold wp in Hsub.
    destruct (SubmitTask _ _ _ _) as [r x]. simpl in *. rewrite requestID in Hsub.
    destruct Hsub as (c1 & Hg & [[_ ->]|(job & Hnew & Hlab & ->)]).
    + intros jn job. rewrite (gr_jobs _ _ _ _ Hg). apply Hs.
    + intros jn job'. simpl. rewrite (gr_jobs _ _ _ _ Hg), lookup_insert_Some.
      intros [[<- <-]|[_ Hj]]; [|by apply Hs]. exists name, t. split_and!; [done..|].
      rewrite Hlab. unfold jobLabels. simplify_map_eq. by rewrite requestID, submittedID_label.
  - intros jn job' Hj. destruct (Hk jn job' Hj) as (job & Hj' & Hl). rewrite Hl. by apply Hs.
Qed.

(** Whatever happened to the jobs of scheduled workflows: the status of an execution is
    found, and is that of its job, if the name of the workflow has at most nine bytes; of
    a workflow with a longer name no execution is ever found again, since the job is named
    by hashes and looked for by names. *)
Theorem scheduled_status env c0 c n name t :
  jobs c0 = ∅ → rtc cluster_step c0 c → ten_digits t → nameBytes name = true →
  ((String.length name ≤ 9)%nat → (∀ k, env k = Works) →
     ∀ job, jobs c !! jobNameOf (submittedID name t) = Some job →
     ∃ s x, GetWorkflowJobStatus env name (executionID name t) (c, n) = (Ok s, x) ∧
       StatusPhase s = phaseOf (JobState job)) ∧
  ((9 < String.length name)%nat → is_ok (GetWorkflowJobStatus env name (executionID name t) (c, n)).1 = false).
Proof.
  intros H0c Hrun Ht Hn.
  assert (scheduled_jobs c) as Hs.
  { assert (scheduled_jobs c0) as Hs0 by (intros jn job; by rewrite H0c, lookup_empty).
    clear H0c. induction Hrun; eauto using cluster_step_scheduled. }
  assert (nameBytes (taskIDOf name (executionID name t)) = true) as Hid
    by by apply nameBytes_join, nameBytes_dash.
  split; intros Hlen.
  - intros He job Hj. unfold GetWorkflowJobStatus. rewrite <-submittedID_short by done.
    rewrite <-submittedID_short in Hid by done. pose proof (submittedID_length name t Ht).
    destruct (Hs _ _ Hj) as (name' & t' & _ & Heq & Hlab).
    assert (submittedID name' t' = submittedID name t) as E by (unfold jobNameOf in Heq; simpl in Heq; congruence).
    rewrite E in Hlab.
    pose proof (GetTaskStatus_found env (submittedID name t) c n (jobNameOf (submittedID name t)) job He) as Hw. unfold wp in Hw.
    destruct Hw as (s & Hr & Hp & _); [|done..| |].
    + rewrite validLabel_name by done. apply Nat.leb_le. lia.
    + intros jn' job' Hj' Hl'. destruct (Hs _ _ Hj') as (n2 & t2 & _ & -> & Hl2). f_equal. congruence.
    + destruct (GetTaskStatus _ _ _) as [r x]. simpl in Hr. subst r. eauto.
  - pose proof (taskIDOf_length name t Ht Hlen) as Hl.
    pose proof (GetTaskStatus_none env (taskIDOf name (executionID name t)) c n) as Hw. unfold wp in Hw.
    unfold GetWorkflowJobStatus. destruct (GetTaskStatus _ _ _) as [r x]. apply Hw.
    + intros _ jn job Hj Heq. destruct (Hs _ _ Hj) as (name' & t' & Ht' & _ & Hlab).
      pose proof (submittedID_length name' t' Ht'). rewrite Hlab in Heq. injection Heq as Heq.
      rewrite <-Heq in Hl. lia.
    + rewrite validLabel_name by done. intros Hv. apply Nat.leb_gt in Hv. by apply long_selector.
Qed.
End scheduled.

(** ** Examples *)
Module JobExamples.
#[export] Instance plainJobs : JobLib := {
  sha256hex s := stake 64 (Itoa (Z.of_nat (String.length s)) +:+ "0000000000000000000000000000000000000000000000000000000000000000");
  unmarshalAny _ := None;
  marshalArgs p := if decide (p = ∅) then Some "{}" else None;
  quantityParses _ := true;
  rfc3339 := Itoa;
  otherSelector _ _ := None;
  admitsJob _ _ := true;
}.

#[export] Instance plainJobLaws : JobLaws.
Proof.
  split; [|done]. intros s. unfold sha256hex, plainJobs. rewrite slength_stake; [done|]. rewrite slength_app. simpl. lia.
Qed.

Definition step (name tool : string) (params : gmap string Value) : WorkflowStep :=
  {| Name := name; Tool := tool; Parameters := params; DependsOn := []; Condition := "";
     RunPolicy := WorkflowRunOnSuccess; ContinueOnError := false; Timeout := ""; RetryPolicy := None |}.

Definition workflow (name : string) (steps : list WorkflowStep) : Workflow :=
  {| WorkflowName := name; Def := {| Schedule := "0 2 * * *"; Steps := steps; WfTimeout := "1h" |};
     WorkflowTimezone := "UTC"; WorkflowEnabled := true; ConcurrencyPolicy := "Forbid";
     WorkflowParameters := ∅; WorkflowRetry := None; Tags := []; Description := "";
     ManualExecution := false; Workspace := None |}.

Definition greeting (message : string) : WorkflowStep := step "greet" "echo" {[ "message" := VString message ]}.
Definition report : Workflow := workflow "report" [greeting "all is well"; step "when" "date" ∅].

Definition works : nat → Outcome := λ _, Works.
Definition emptyCluster : JobCluster := {| jobs := ∅; claims := ∅; pods := [] |}.
Definition after (name : string) (t : Z) (s : JobCluster * nat) : JobCluster * nat :=
  (ExecuteWorkflowAsJob works "matey" 0 report name (executionID name t) s).2.

(** The same workflow under two names, one of six bytes and one of fourteen. *)
Definition both : JobCluster * nat :=
  after "nightly-report" 1700000000 (after "report" 1700000000 (emptyCluster, 0%nat)).

Lemma script_commands_witness :
  shellWords (Out None) (buildShellScript report) =
    Some (Newline :: concat (itemTokens <$> default [] (scriptLines report))) ∧
  Word "all is well" ∈ concat (itemTokens <$> default [] (scriptLines report)).
Proof.
  split; [|vm_compute; set_solver].
  apply (script_commands report); [by vm_compute|]. vm_compute. repeat constructor.
Defined.

(** What comes after an apostrophe in a message is run. *)
Definition injection : string := "'" +:+ byte1 newline +:+ "rm -rf /workspace" +:+ byte1 newline +:+ "echo '".
Definition injectedWords : list Token :=
  default [] (shellWords (Out None) (buildShellScript (workflow "report" [greeting injection]))).

Example injected : ∃ before after,
  injectedWords = before ++ [Newline; Word "rm"; Word "-rf"; Word "/workspace"; Newline] ++ after.
Proof. exists (take 12 injectedWords), (drop 17 injectedWords). by vm_compute. Qed.

Lemma ten : ten_digits 1700000000.
Proof. unfold ten_digits. lia. Qed.

Lemma scheduled_status_witness :
  (∃ s x, GetWorkflowJobStatus works "report" (executionID "report" 1700000000) both = (Ok s, x) ∧
     StatusPhase s = "Pending") ∧
  size (jobs both.1) = 2%nat ∧
  is_ok (GetWorkflowJobStatus works "nightly-report" (executionID "nightly-report" 1700000000) both).1 = false.
Proof.
  assert (rtc cluster_step emptyCluster both.1) as Hrun.
  { eapply rtc_l; [apply (StepSubmit emptyCluster works "matey" 0 report "report" 1700000000 0 ten)|].
    apply rtc_once, (StepSubmit _ works "matey" 0 report "nightly-report" 1700000000
      (after "report" 1700000000 (emptyCluster, 0%nat)).2 ten). }
  split; [|split; [by vm_compute|]].
  - destruct (jobs both.1 !! jobNameOf (submittedID "report" 1700000000)) as [job|] eqn:Hj;
      [|exfalso; revert Hj; by vm_compute].
    destruct (scheduled_status works emptyCluster both.1 both.2 "report" 1700000000 eq_refl Hrun ten eq_refl) as [H _].
    destruct (H ltac:(by apply Nat.leb_le; vm_compute) ltac:(done) job Hj) as (s & x & E & Hp).
    exists s, x. split; [exact E|]. rewrite Hp.
    revert Hj. vm_compute. by intros [= <-].
  - destruct (scheduled_status works emptyCluster both.1 both.2 "nightly-report" 1700000000 eq_refl Hrun ten eq_refl)
      as [_ H].
    apply H. apply Nat.ltb_lt. by vm_compute.
Defined.

(** The list of workflow jobs is of a scheduler that no job is labelled with. *)
Example listed_none :
  (ListWorkflowJobs works both).1 = Ok [] ∧
  length <$> (ListTasks works "task-scheduler" both).1 = Ok 2%nat.
Proof. by vm_compute. Qed.
End JobExamples.
