(* ===== verification/WorkspaceVolumes.v ===== *)
(** * Workspaces of workflows

    internal/scheduler/pvc_mount_manager.go and internal/scheduler/workspace_cleanup.go:
    the directories through which an agent looks at the workspace of an execution, and
    the removal of the claims of workspaces whose time is over, over the claims that
    WorkflowJobs makes.  A manager holds its mutex throughout an operation; its ticker
    is the cleanup as an operation.  Durations are not printed. *)
From S2P Require Import Prelude GoString GoPath GoNum GoTime Calls WorkflowGraph Workflows WorkflowJobs.

#[local] Open Scope Z_scope.

Set Default Proof Using "Type*".

(** ** Mounts *)

Record MountInfo := {
  MountWorkflow : string;
  MountExecution : string;
  MountPVC : string;
  MountPath : string;
  MountedAt : Z;
  LastAccess : Z;
  AccessCount : Z;
}.

(** The manager's mounts by key, the claims, and the directories and files of the host. *)
Record MountWorld := {
  activeMounts : gmap string MountInfo;
  mountClaims : JobCluster;
  directories : gset string;
  files : gmap string string;
}.

Definition with_mounts (m : gmap string MountInfo) (w : MountWorld) : MountWorld :=
  {| activeMounts := m; mountClaims := mountClaims w; directories := directories w; files := files w |}.

Definition hour : Z := 3600 * 10 ^ 9.
Definition baseMountPath : string := "/tmp/workspaces".
Definition mountKey (workflowName executionID : string) : string := workflowName +:+ "-" +:+ executionID.
Definition workspaceClaim (workflowName executionID : string) : string :=
  "workspace-" +:+ workflowName +:+ "-" +:+ executionID.

(** [t.Sub(u)], which saturates. *)
Definition subTime (t u : Z) : Z := Z.max (- 2 ^ 63) (Z.min (2 ^ 63 - 1) (t - u)).

(** The number that strconv.Atoi returns beside its error: the nearest one if there are too
    many digits, and 0 for a text that is no number. *)
Definition atoiValue (s : string) : Z :=
  match Atoi s with
  | Some n => n
  | None =>
      match s with
      | String "-" rest => if decide (digitsValue 0 rest = None ∨ rest = "") then 0 else - 2 ^ 63
      | String "+" rest | rest => if decide (digitsValue 0 rest = None ∨ rest = "") then 0 else 2 ^ 63 - 1
      end
  end.

Section workspaces.
Context `{!JobLib} (env : nat → Outcome).

Definition touch (now : Z) (m : MountInfo) : MountInfo :=
  {| MountWorkflow := MountWorkflow m; MountExecution := MountExecution m; MountPVC := MountPVC m;
     MountPath := MountPath m; MountedAt := MountedAt m; LastAccess := now;
     AccessCount := int64 (AccessCount m + 1) |}.

Definition update {W} (f : W → W) : Prog W () := λ '(w, n), (Ok (), (f w, n)).

Definition mkdirAll (path : string) : Prog MountWorld () :=
  call env (λ w, (Ok (), {| activeMounts := activeMounts w; mountClaims := mountClaims w;
                            directories := {[ path ]} ∪ directories w; files := files w |})).

Definition writeFile (path content : string) : Prog MountWorld () :=
  call env (λ w, (Ok (), {| activeMounts := activeMounts w; mountClaims := mountClaims w;
                            directories := directories w; files := <[path := content]> (files w) |})).

(** Everything at and below the path goes. *)
Definition below (path p : string) : bool := bool_decide (p = path) || HasPrefix p (path +:+ "/").

Definition removeAll (path : string) : Prog MountWorld () :=
  call env (λ w, (Ok (),
    {| activeMounts := activeMounts w; mountClaims := mountClaims w;
       directories := filter (λ d, below path d = false) (directories w);
       files := filter (λ f : string * string, below path f.1 = false) (files w) |})).

Definition onClaims {A} (m : Prog JobCluster A) : Prog MountWorld A :=
  on mountClaims (λ c w, {| activeMounts := activeMounts w; mountClaims := c;
                            directories := directories w; files := files w |}) m.

Definition markerContent (now : Z) (workflowName executionID pvcName : string) : string :=
  line ("workflow: " +:+ workflowName) +:+ line ("execution: " +:+ executionID) +:+
  line ("pvc: " +:+ pvcName) +:+ line ("mounted: " +:+ rfc3339 now).

Definition newMount (now : Z) (workflowName executionID pvcName mountPath : string) : MountInfo :=
  {| MountWorkflow := workflowName; MountExecution := executionID; MountPVC := pvcName;
     MountPath := mountPath; MountedAt := now; LastAccess := now; AccessCount := 1 |}.

(** A mount is a directory with a marker in it. *)
Definition mountNew (now : Z) (workflowName executionID : string) : Prog MountWorld string :=
  let pvcName := workspaceClaim workflowName executionID in
  pvc ← during ("PVC " +:+ pvcName +:+ " not found")
    (claim ← onClaims (getClaim env pvcName);
     match claim with Some c => mret c | None => throw "not found" end);
  if decide (ClaimPhase pvc = "Bound") then
    let mountPath := Join2 baseMountPath executionID in
    during ("failed to create mount directory " +:+ mountPath) (mkdirAll mountPath);;
    during "failed to create workspace marker"
      (writeFile (Join2 mountPath ".workspace-info") (markerContent now workflowName executionID pvcName));;
    update (λ w, with_mounts (<[mountKey workflowName executionID :=
                    newMount now workflowName executionID pvcName mountPath]> (activeMounts w)) w);;
    mret mountPath
  else throw ("PVC " +:+ pvcName +:+ " is not bound (phase: " +:+ ClaimPhase pvc +:+ ")").

Definition MountWorkspacePVC (now : Z) (workflowName executionID : string) : Prog MountWorld string := λ w,
  let key := mountKey workflowName executionID in
  match activeMounts w.1 !! key with
  | Some m => (Ok (MountPath m), (with_mounts (<[key := touch now m]> (activeMounts w.1)) w.1, w.2))
  | None => mountNew now workflowName executionID w
  end.

(** A directory that cannot be removed is only logged. *)
Definition dropMount (key : string) (m : MountInfo) : Prog MountWorld () :=
  attempt (removeAll (MountPath m));;
  update (λ w, with_mounts (delete key (activeMounts w)) w).

Definition UnmountWorkspacePVC (workflowName executionID : string) : Prog MountWorld () := λ w,
  let key := mountKey workflowName executionID in
  match activeMounts w.1 !! key with
  | None => (Err ("workspace " +:+ key +:+ " is not mounted"), w)
  | Some m => dropMount key m w
  end.

Definition ListMountedWorkspaces (w : MountWorld) : list MountInfo := (map_to_list (activeMounts w)).*2.

Definition UpdateAccessTime (now : Z) (workflowName executionID : string) (w : MountWorld) : MountWorld :=
  with_mounts (alter (touch now) (mountKey workflowName executionID) (activeMounts w)) w.

Definition GetMountPath (workflowName executionID : string) (w : MountWorld) : option string :=
  MountPath <$> activeMounts w !! mountKey workflowName executionID.

(** The keys that a pass removes are collected first; [mountTimeout] is an hour unless it
    is set. *)
Definition CleanupExpiredMounts (mountTimeout now : Z) : Prog MountWorld () := λ w,
  each (λ km, dropMount km.1 km.2)
    (filter (λ km : string * MountInfo, mountTimeout < subTime now (LastAccess km.2))
      (map_to_list (activeMounts w.1))) w.

(** The mounts go when the manager stops. *)
Definition StopMounts : Prog MountWorld () := λ w,
  each (λ km, dropMount km.1 km.2) (map_to_list (activeMounts w.1)) w.

(** ** The claims of workspaces *)

Definition listWorkspaces : Prog JobCluster (list (string * Claim)) :=
  call env (λ c, (selected ClaimLabels "mcp.matey.ai/workspace-type" "workflow" (claims c), c)).

Definition deleteClaim (name : string) : Prog JobCluster () :=
  call env (λ c,
    match claims c !! name with
    | None => (Err "not found", c)
    | Some _ => (Ok (), with_claims (delete name (claims c)) c)
    end).

Record WorkspaceCleanupStats := {
  TotalWorkspaces : Z;
  ExpiredWorkspaces : Z;
  DeletedCount : Z;
  ErrorCount : Z;
  LastCleanupTime : Z;
  NextCleanupTime : Z;
}.

(** The counters have 32 bits. *)
Definition count (expired deleted errors : Z) (s : WorkspaceCleanupStats) : WorkspaceCleanupStats :=
  {| TotalWorkspaces := TotalWorkspaces s; ExpiredWorkspaces := int32 (ExpiredWorkspaces s + expired);
     DeletedCount := int32 (DeletedCount s + deleted); ErrorCount := int32 (ErrorCount s + errors);
     LastCleanupTime := LastCleanupTime s; NextCleanupTime := NextCleanupTime s |}.

Definition retentionText (claim : Claim) : string :=
  default "7" (ClaimAnnotations claim !! "mcp.matey.ai/workspace-retention-days").

(** A number of days that is kept in 64 bits of nanoseconds. *)
Definition retentionPeriod (days : Z) : Z := int64 (days * (24 * hour)).

Definition cleanupOne (now : Z) (stats : WorkspaceCleanupStats) (nc : string * Claim) :
    Prog JobCluster WorkspaceCleanupStats :=
  if decide (ClaimAnnotations nc.2 !! "mcp.matey.ai/auto-delete" = Some "true") then mret stats
  else match Atoi (retentionText nc.2) with
       | None => mret (count 0 0 1 stats)
       | Some days =>
           if ClaimCreated nc.2 + retentionPeriod days <? now then
             r ← attempt (deleteClaim nc.1);
             mret (count 1 (if is_ok r then 1 else 0) (if is_ok r then 0 else 1) stats)
           else mret stats
       end.

Fixpoint cleanupAll (now : Z) (stats : WorkspaceCleanupStats) (l : list (string * Claim)) :
    Prog JobCluster WorkspaceCleanupStats :=
  match l with
  | [] => mret stats
  | nc :: rest => stats' ← cleanupOne now stats nc; cleanupAll now stats' rest
  end.

Definition CleanupExpiredWorkspaces (cleanupInterval now : Z) : Prog JobCluster WorkspaceCleanupStats :=
  items ← during "failed to list workspace PVCs" listWorkspaces;
  cleanupAll now {| TotalWorkspaces := int32 (len items); ExpiredWorkspaces := 0; DeletedCount := 0;
                    ErrorCount := 0; LastCleanupTime := now;
                    NextCleanupTime := now + cleanupInterval |} items.

Record WorkspaceInfo := {
  InfoPVC : string;
  InfoWorkflow : string;
  InfoExecution : string;
  InfoStatus : string;
  InfoCreated : string;
  InfoAge : Z;
  InfoRetentionDays : Z;
  InfoUntilExpiry : Z;
  InfoSize : string;
  InfoPhase : string;
  InfoAutoDelete : bool;
}.

Definition workspaceInfo (now : Z) (nc : string * Claim) : WorkspaceInfo :=
  let label key := default "" (ClaimLabels nc.2 !! key) in
  let autoDelete := bool_decide (ClaimAnnotations nc.2 !! "mcp.matey.ai/auto-delete" = Some "true") in
  let text := default "" (ClaimAnnotations nc.2 !! "mcp.matey.ai/workspace-retention-days") in
  let retentionDays := atoiValue (if decide (text = "") then "7" else text) in
  let age := subTime now (ClaimCreated nc.2) in
  let timeUntilExpiry := int64 (retentionPeriod retentionDays - age) in
  {| InfoPVC := nc.1; InfoWorkflow := label "mcp.matey.ai/workflow-name";
     InfoExecution := label "mcp.matey.ai/execution-id";
     InfoStatus := if autoDelete then "auto-delete" else if timeUntilExpiry <=? 0 then "expired"
                   else if timeUntilExpiry <=? 24 * hour then "expiring-soon" else "retained";
     InfoCreated := rfc3339 (ClaimCreated nc.2); InfoAge := age; InfoRetentionDays := retentionDays;
     InfoUntilExpiry := timeUntilExpiry; InfoSize := ClaimRequest nc.2; InfoPhase := ClaimPhase nc.2;
     InfoAutoDelete := autoDelete |}.

Record WorkspaceStats := {
  StatTotal : Z;
  StatWorkspaces : list WorkspaceInfo;
  StatRetained : Z;
  StatExpiring : Z;
  StatAutoDelete : Z;
}.

Definition GetWorkspaceStats (now : Z) : Prog JobCluster WorkspaceStats :=
  items ← during "failed to list workspace PVCs" listWorkspaces;
  let infos := workspaceInfo now <$> items in
  let having s := len (filter (λ i, InfoStatus i = s) infos) in
  mret {| StatTotal := len items; StatWorkspaces := infos; StatRetained := having "retained";
          StatExpiring := having "expiring-soon"; StatAutoDelete := having "auto-delete" |}.

Definition CleanupWorkspaceByName (workflowName executionID : string) : Prog JobCluster () :=
  let pvcName := workspaceClaim workflowName executionID in
  claim ← during ("workspace PVC " +:+ pvcName +:+ " not found")
    (found ← getClaim env pvcName; match found with Some c => mret c | None => throw "not found" end);
  if decide (ClaimLabels claim !! "mcp.matey.ai/workspace-type" = Some "workflow")
  then during ("failed to delete workspace PVC " +:+ pvcName) (deleteClaim pvcName)
  else throw ("PVC " +:+ pvcName +:+ " is not a workspace PVC").
End workspaces.

(** ** What becomes of the workspaces *)

Section reach.
Context `{!JobLib}.

(** The claims that executions make bear another name than the managers look for, and no
    label that says what they are. *)
Definition claims_made (c : JobCluster) : Prop :=
  ∀ name claim, claims c !! name = Some claim →
    HasPrefix name "workflow-" = true ∧ ClaimLabels claim !! "mcp.matey.ai/workspace-type" = None.

(** What the program does with the cluster, and the cluster with the claims: it binds them
    and so on, but neither removes nor relabels them. *)
Inductive volume_step (c : JobCluster) : JobCluster → Prop :=
  | VolumeExecute env namespace now w name exec n :
      volume_step c (ExecuteWorkflowAsJob env namespace now w name exec (c, n)).2.1
  | VolumeCancel env name exec n : volume_step c (CancelWorkflowJob env name exec (c, n)).2.1
  | VolumeJobCleanup env now olderThan n : volume_step c (CleanupOldWorkflowJobs env now olderThan (c, n)).2.1
  | VolumeCleanup env interval now n : volume_step c (CleanupExpiredWorkspaces env interval now (c, n)).2.1
  | VolumeByName env name exec n : volume_step c (CleanupWorkspaceByName env name exec (c, n)).2.1
  | VolumeCluster c' :
      (∀ name, ClaimLabels <$> claims c' !! name = ClaimLabels <$> claims c !! name) → volume_step c c'.

Lemma deleteJob_claims env b jn c c0 n : claims c = claims c0 →
  wp (deleteJob env b jn) (c, n) (λ _ x, claims x.1 = claims c0).
Proof. intros Hc. unfold deleteJob. apply wp_call; simpl; [|done|intros e]; by destruct (jobs c !! jn). Qed.

Lemma CancelWorkflowJob_claims env name exec c n :
  wp (CancelWorkflowJob env name exec) (c, n) (λ _ x, claims x.1 = claims c).
Proof.
  unfold CancelWorkflowJob, CancelTask, findTask, listJobs.
  apply prog_bind, prog_bind, wp_during, wp_call; simpl; [|done..].
  destruct (selected _ _ _ _) as [[|j l]|e]; simpl; [by apply wp_throw| |done].
  apply prog_ret, wp_during. eapply prog_mono; [by apply deleteJob_claims|]. by intros [u|e] x Hx.
Qed.

Lemma CleanupOldWorkflowJobs_claims env now olderThan c n :
  wp (CleanupOldWorkflowJobs env now olderThan) (c, n) (λ _ x, claims x.1 = claims c).
Proof.
  unfold CleanupOldWorkflowJobs, CleanupCompletedTasks, listJobs.
  apply prog_bind, wp_during, wp_call; simpl; [|done..].
  apply wp_each; [done|]. intros nj [c' n'] _ Hc. apply prog_bind, wp_attempt.
  eapply prog_mono; [by apply deleteJob_claims|]. intros r x Hx. by apply prog_ret.
Qed.

Lemma autoClaimName_workflow task v : HasPrefix (autoClaimName task v) "workflow-" = true ∧
  HasPrefix (autoClaimName task v) "workspace-" = false.
Proof.
  assert (∃ s, autoClaimName task v = "workflow-" +:+ s) as [s ->] by (unfold autoClaimName; eauto).
  split; [apply HasPrefix_app|done].
Qed.

Lemma claimFor_unlabelled now name pvc : HasPrefix name "workspace-" = false →
  ClaimLabels (claimFor now name pvc) !! "mcp.matey.ai/workspace-type" = None.
Proof. intros Hn. unfold claimFor. rewrite Hn. simpl. by simplify_map_eq. Qed.

Lemma SubmitTask_claims env now task c n : claims_made c →
  wp (SubmitTask env now task) (c, n) (λ _ x, claims_made x.1 ∧ ∀ name, is_Some (claims c !! name) → is_Some (claims x.1 !! name)).
Proof.
  intros Hm. eapply prog_mono; [apply SubmitTask_spec|]. intros r x (c' & Hg & Hx).
  assert (claims x.1 = claims c') as ->.
  { destruct Hx as [[_ ->]|(job & _ & _ & ->)]; done. }
  assert (claims_made c' ∧ ∀ name, is_Some (claims c !! name) → is_Some (claims c' !! name)) as [H1 H2].
  { split; intros name.
    - intros claim Hc. destruct (gr_claims _ _ _ _ Hg name) as [E|(_ & v & pvc & _ & _ & -> & E)].
      + rewrite E in Hc. by apply Hm.
      + rewrite E in Hc. apply (inj Some) in Hc. subst claim.
        destruct (autoClaimName_workflow task (TaskVolumeName v)). auto using claimFor_unlabelled.
    - intros Hs. destruct (gr_claims _ _ _ _ Hg name) as [E|(E & _)]; [by rewrite E|].
      rewrite E in Hs. by destruct Hs. }
  split; [|done]. intros name claim. destruct Hx as [[_ ->]|(job & _ & _ & ->)]; apply (H1 name claim).
Qed.

(** No claim is labelled as a workspace, and none is named like one. *)
Lemma listWorkspaces_none c : claims_made c →
  selected ClaimLabels "mcp.matey.ai/workspace-type" "workflow" (claims c) = Ok [].
Proof.
  intros Hm. unfold selected. change (validLabel "workflow") with true. rewrite filter_none; [done|].
  apply Forall_forall. intros [name claim] Hc. apply elem_of_map_to_list in Hc. simpl.
  by rewrite (proj2 (Hm name claim Hc)).
Qed.

Lemma workspaceClaim_none c name exec : claims_made c → claims c !! workspaceClaim name exec = None.
Proof. intros Hm. destruct (claims c !! _) as [claim|] eqn:E; [|done]. by destruct (Hm _ _ E). Qed.

Lemma volume_step_made c c' : claims_made c → volume_step c c' →
  claims_made c' ∧ ∀ name, is_Some (claims c !! name) → is_Some (claims c' !! name).
Proof.
  intros Hm Hstep.
  assert (∀ x : JobCluster, claims x = claims c →
    claims_made x ∧ ∀ name, is_Some (claims c !! name) → is_Some (claims x !! name)) as Hsame.
  { intros x Hx. unfold claims_made. rewrite Hx. done. }
  destruct Hstep as [env namespace now w name exec n|env name exec n|env now olderThan n|env interval now n|
    env name exec n|c' Hc].
  - pose proof (SubmitTask_claims env now (createWorkflowTaskRequest namespace now w name exec) c n Hm) as Hw.
    unfold ExecuteWorkflowAsJob, during. unfold wp in Hw. by destruct (SubmitTask _ _ _ _).
  - apply Hsame. apply CancelWorkflowJob_claims.
  - apply Hsame. apply CleanupOldWorkflowJobs_claims.
  - apply Hsame. change (wp (CleanupExpiredWorkspaces env interval now) (c, n) (λ _ x, claims x.1 = claims c)).
    unfold CleanupExpiredWorkspaces, listWorkspaces. apply prog_bind, wp_during, wp_call; cbn [fst snd]; [|done..].
    by rewrite listWorkspaces_none.
  - apply Hsame. change (wp (CleanupWorkspaceByName env name exec) (c, n) (λ _ x, claims x.1 = claims c)).
    unfold CleanupWorkspaceByName, getClaim. apply prog_bind, wp_during, prog_bind, wp_call; simpl; [|done..].
    rewrite workspaceClaim_none by done. by apply wp_throw.
  - split.
    + intros name claim Hn. specialize (Hc name). rewrite Hn in Hc. simpl in Hc.
      destruct (claims c !! name) as [claim0|] eqn:E; [|done]. injection Hc as Hl. rewrite Hl. by apply Hm.
    + intros name [claim Hn]. specialize (Hc name). rewrite Hn in Hc. by destruct (claims c' !! name).
Qed.

(** C13: the claims that executions make for their workspaces are never deleted, and no
    workspace is ever found: every mount and every removal by name fails, and every cleanup
    finds nothing to look at, whatever the reclaim policy and the retention say. *)
Theorem workspaces_kept_unreachable c0 c c' :
  claims c0 = ∅ → rtc volume_step c0 c → rtc volume_step c c' →
  (∀ name, is_Some (claims c !! name) → is_Some (claims c' !! name)) ∧
  (∀ env now name exec w n, mountClaims w = c → activeMounts w !! mountKey name exec = None →
     is_ok (MountWorkspacePVC env now name exec (w, n)).1 = false) ∧
  (∀ env name exec n, is_ok (CleanupWorkspaceByName env name exec (c, n)).1 = false) ∧
  (∀ env interval now n stats, (CleanupExpiredWorkspaces env interval now (c, n)).1 = Ok stats →
     TotalWorkspaces stats = 0 ∧ DeletedCount stats = 0).
Proof.
  intros H0 Hrun Hrun'.
  assert (claims_made c) as Hm.
  { assert (claims_made c0) as Hm0 by (intros name claim; by rewrite H0, lookup_empty).
    clear H0 Hrun'. induction Hrun as [|c1 c2 c3 Hs _ IH]; [done|]. by apply IH, (volume_step_made c1). }
  split_and!.
  - clear H0 Hrun. induction Hrun' as [|c1 c2 c3 Hs _ IH]; [done|].
    destruct (volume_step_made _ _ Hm Hs). intros name Hn. apply IH; eauto.
  - intros env now name exec w n Hw Hk. unfold MountWorkspacePVC. simpl. rewrite Hk.
    change (wp (mountNew env now name exec) (w, n) (λ r _, is_ok r = false)).
    unfold mountNew, onClaims. apply prog_bind, wp_during, prog_bind, wp_on. rewrite Hw.
    pose proof (workspaceClaim_none c name exec Hm) as Hnone. unfold getClaim, call.
    destruct (env n); simpl; [|done..]. by rewrite Hnone.
  - intros env name exec n. change (wp (CleanupWorkspaceByName env name exec) (c, n) (λ r _, is_ok r = false)).
    unfold CleanupWorkspaceByName, getClaim. apply prog_bind, wp_during, prog_bind, wp_call; simpl; [|done..].
    rewrite workspaceClaim_none by done. by apply wp_throw.
  - intros env interval now n stats.
    assert (wp (CleanupExpiredWorkspaces env interval now) (c, n)
      (λ r _, r = Ok stats → TotalWorkspaces stats = 0 ∧ DeletedCount stats = 0)) as Hw; [|exact Hw].
    unfold CleanupExpiredWorkspaces, listWorkspaces. apply prog_bind, wp_during, wp_call; cbn [fst snd]; [|done..].
    rewrite listWorkspaces_none by done. apply prog_ret. by intros [= <-].
Qed.
End reach.

(** ** Mounts that time out *)

Lemma dropMount_mounts `{!JobLib} env key m w n :
  wp (dropMount env key m) (w, n) (λ r x, r = Ok () ∧ activeMounts x.1 = delete key (activeMounts w)).
Proof. unfold dropMount, removeAll, update. by apply prog_bind, wp_attempt, wp_call. Qed.

Lemma dropMounts_mounts `{!JobLib} env l w n :
  wp (each (λ km, dropMount env km.1 km.2) l) (w, n)
    (λ r x, r = Ok () ∧ ∀ k, activeMounts x.1 !! k = if decide (k ∈ l.*1) then None else activeMounts w !! k).
Proof.
  revert w n. induction l as [|[key m] l IH]; intros w n; simpl each.
  { apply prog_ret. split; [done|]. intros k. by rewrite decide_False by apply not_elem_of_nil. }
  apply prog_bind. eapply prog_mono; [apply dropMount_mounts|]. intros r [w' n'] [-> Hw']. simpl in Hw'.
  eapply prog_mono; [apply IH|]. intros r x [-> Hx]. split; [done|]. intros k. rewrite Hx, Hw', fmap_cons. simpl.
  destruct (decide (k = key)) as [->|Hne].
  - rewrite lookup_delete_eq, (decide_True (P := key ∈ key :: l.*1)) by set_solver. by case_decide.
  - rewrite lookup_delete_ne by done. repeat case_decide; set_solver.
Qed.

(** Whatever becomes of their directories, exactly the mounts that were used within the
    timeout stay. *)
Lemma CleanupExpiredMounts_spec `{!JobLib} env mountTimeout now w n :
  wp (CleanupExpiredMounts env mountTimeout now) (w, n) (λ r x, r = Ok () ∧
    activeMounts x.1 = filter (λ km, subTime now (LastAccess km.2) ≤ mountTimeout) (activeMounts w)).
Proof.
  unfold wp, CleanupExpiredMounts. pose proof (dropMounts_mounts env (filter (λ km : string * MountInfo,
    mountTimeout < subTime now (LastAccess km.2)) (map_to_list (activeMounts w))) w n) as [Hr Hx].
  split; [exact Hr|]. apply map_eq. intros k. etrans; [apply Hx|]. symmetry.
  assert (k ∈ (filter (λ km : string * MountInfo, mountTimeout < subTime now (LastAccess km.2))
    (map_to_list (activeMounts w))).*1 ↔ ∃ m, activeMounts w !! k = Some m ∧ mountTimeout < subTime now (LastAccess m)) as Hin.
  { rewrite list_elem_of_fmap. split.
    - intros ([k' m] & -> & Hm). apply list_elem_of_filter in Hm as [Ht Hm]. apply elem_of_map_to_list in Hm. eauto.
    - intros (m & Hm & Ht). exists (k, m). split; [done|]. apply list_elem_of_filter.
      by rewrite elem_of_map_to_list. }
  case_decide as Hd; rewrite Hin in Hd.
  - destruct Hd as (m & Hm & Ht). apply map_lookup_filter_None. right. intros m' Hm'. simplify_eq/=. lia.
  - destruct (activeMounts w !! k) as [m|] eqn:Hm; [|by apply map_lookup_filter_None; left].
    apply map_lookup_filter_Some. split; [done|]. simpl. destruct (decide (mountTimeout < subTime now (LastAccess m)));
      [|lia]. destruct Hd. eauto.
Qed.

(** ** Examples *)
Module VolumeExamples.
Import JobExamples.

Definition kept : Workflow := {|
  WorkflowName := "report"; Def := Def report; WorkflowTimezone := "UTC"; WorkflowEnabled := true;
  ConcurrencyPolicy := "Forbid"; WorkflowParameters := ∅; WorkflowRetry := None; Tags := [];
  Description := ""; ManualExecution := false;
  Workspace := Some {| WorkspaceEnabled := true; Size := "5Gi"; StorageClass := ""; WorkspaceMountPath := "";
                       WorkspaceAccessModes := []; ReclaimPolicy := WorkflowVolumeReclaimDelete;
                       RetainWorkspace := false; WorkspaceRetentionDays := 1 |} |}.

Definition executed : JobCluster :=
  (ExecuteWorkflowAsJob works "matey" 0 kept "report" "report-1700000000" (emptyCluster, 0%nat)).2.1.
Definition day : Z := 24 * hour.
Definition cleaned : JobCluster := (CleanupExpiredWorkspaces works (6 * hour) (100 * day) (executed, 1%nat)).2.1.

(** A hundred days later the claim, which is marked for deletion, is still there. *)
Lemma workspaces_kept_unreachable_witness :
  size (claims executed) = 1%nat ∧
  map_Forall (λ _ c, ClaimAnnotations c !! "mcp.matey.ai/auto-delete" = Some "true") (claims executed) ∧
  (∀ name, is_Some (claims executed !! name) → is_Some (claims cleaned !! name)) ∧
  (∀ n, is_ok (CleanupWorkspaceByName works "report" "report-1700000000" (executed, n)).1 = false).
Proof.
  split; [by vm_compute|]. split; [apply map_Forall_to_list; vm_compute; repeat constructor|].
  destruct (workspaces_kept_unreachable emptyCluster executed cleaned) as (H1 & _ & H3 & _); [done|..].
  - apply rtc_once. apply (VolumeExecute _ works "matey" 0 kept "report" "report-1700000000" 0).
  - apply rtc_once. apply (VolumeCleanup _ works (6 * hour) (100 * day) 1).
  - split; [exact H1|]. intros n. apply (H3 works "report" "report-1700000000" n).
Defined.

(** Claims that are named as the managers expect are found, and the directory of a mount is
    that of every workflow with an execution of the same identifier. *)
Definition bound (name : string) : Claim :=
  {| ClaimLabels := ∅; ClaimAnnotations := ∅; ClaimModes := []; ClaimRequest := "1Gi"; ClaimClass := None;
     ClaimPhase := "Bound"; ClaimCreated := 0 |}.
Definition twoClaims : JobCluster :=
  {| jobs := ∅; claims := {[ workspaceClaim "a" "1" := bound "a"; workspaceClaim "b" "1" := bound "b" ]}; pods := [] |}.
Definition unmounted : MountWorld := {| activeMounts := ∅; mountClaims := twoClaims; directories := ∅; files := ∅ |}.
Definition shared : MountWorld * nat :=
  (UnmountWorkspacePVC works "a" "1" (MountWorkspacePVC works 0 "b" "1"
    (MountWorkspacePVC works 0 "a" "1" (unmounted, 0%nat)).2).2).2.

Example shared_directory :
  GetMountPath "b" "1" shared.1 = Some "/tmp/workspaces/1" ∧ directories shared.1 = ∅.
Proof. by vm_compute. Qed.
End VolumeExamples.
