(* ===== verification/WorkflowScheduler.v ===== *)
(** * The scheduler of workflows

    internal/scheduler/workflow_scheduler.go: the cron jobs of the workflows that the
    resource "task-scheduler" lists (CronEngine), the store that the resource is copied to
    and overwritten from (WorkflowStore), the Kubernetes jobs that executions become
    (WorkflowJobs), and the history of executions in the resource's status.  An executor is
    assumed; without one the handler calls the engine of WorkflowEngine. *)
From S2P Require Import Prelude GoString GoNum GoTime Calls WorkflowGraph Workflows.
From S2P Require Import CronEngine WorkflowStore WorkflowJobs.

#[local] Open Scope Z_scope.

Set Default Proof Using "Type*".

(** ** Executions *)

(** A [StepResult] of the resource, and a step of an execution that is monitored. *)
Record StepResult := {
  StepPhase : string;
  StepOutput : option string;
  StepError : string;
  StepDuration : Z;
  StepAttempts : Z;
}.

(** A [WorkflowExecution] of the scheduler, with its steps by name in order. *)
Record Execution := {
  ExecID : string;
  ExecWorkflow : string;
  ExecStart : Z;
  ExecEnd : option Z;
  ExecStatus : string;
  ExecSteps : list (string * StepResult);
  ExecError : string;
}.

(** A [WorkflowExecution] of the resource. *)
Record StatusExecution := {
  StatusExecID : string;
  StatusWorkflow : string;
  StatusStartTime : Z;
  StatusEndTime : option Z;
  StatusDuration : option Z;
  StatusExecPhase : string;
  StatusExecMessage : string;
  StepResults : gmap string StepResult;
}.

(** The resource "task-scheduler": what is read and written of it. *)
Record SchedulerResource := {
  SpecWorkflows : list Workflow;
  WorkflowExecutions : list StatusExecution;
  ResourceVersion : nat;
}.

Record SchedulerConfig := {
  Namespace : string;
  hasClient : bool;
  hasStore : bool;
  enableDeletionSync : bool;
}.

(** time.LoadLocation, %q, and the texts of the cron library's errors. *)
Class SchedulerLib := {
  LoadLocation : string → bool;
  quoted : string → string;
  cronParseError : string → string;
}.

(** A goroutine that watches a job: the workflow, the execution and when it gives up. *)
Record Monitor := { MonitorWorkflow : Workflow; MonitorExecution : Execution; MonitorDeadline : Z }.

(** [handlers] is what the closures of the cron jobs have captured; [monitors] and
    [watching] are the goroutines that were started. *)
Record SchedWorld (C : Type) := {
  engine : Engine C;
  handlers : gmap loc Workflow;
  cluster : JobCluster;
  database : Database;
  resource : option SchedulerResource;
  monitors : list Monitor;
  watching : nat;
  schedStarted : bool;
}.
Arguments engine {C} s.
Arguments handlers {C} s.
Arguments cluster {C} s.
Arguments database {C} s.
Arguments resource {C} s.
Arguments monitors {C} s.
Arguments watching {C} s.
Arguments schedStarted {C} s.

Section scheduler.
Context {C : Type} `{CronLib C} `{!JobLib} `{!Codec} `{!SchedulerLib}.
Context (env : nat → Outcome) (delivered : nat → option nat) (cf : SchedulerConfig).
Implicit Types (s : SchedWorld C).

Definition set_engine (e : Engine C) s : SchedWorld C :=
  {| engine := e; handlers := handlers s; cluster := cluster s; database := database s;
     resource := resource s; monitors := monitors s; watching := watching s; schedStarted := schedStarted s |}.
Definition set_cluster (c : JobCluster) s : SchedWorld C :=
  {| engine := engine s; handlers := handlers s; cluster := c; database := database s;
     resource := resource s; monitors := monitors s; watching := watching s; schedStarted := schedStarted s |}.
Definition set_database (db : Database) s : SchedWorld C :=
  {| engine := engine s; handlers := handlers s; cluster := cluster s; database := db;
     resource := resource s; monitors := monitors s; watching := watching s; schedStarted := schedStarted s |}.
Definition set_resource (r : option SchedulerResource) s : SchedWorld C :=
  {| engine := engine s; handlers := handlers s; cluster := cluster s; database := database s;
     resource := r; monitors := monitors s; watching := watching s; schedStarted := schedStarted s |}.

(** ** The resource *)

(** The client reads the resource, and replaces its specification or its status if no one
    has changed it since. *)
Definition getResource : Prog (SchedWorld C) SchedulerResource :=
  call env (λ s, (match resource s with Some r => Ok r | None => Err "not found" end, s)).

Definition putResource (f : SchedulerResource → SchedulerResource) (r : SchedulerResource) : Prog (SchedWorld C) () :=
  call env (λ s,
    match resource s with
    | None => (Err "not found", s)
    | Some now =>
        if decide (ResourceVersion now = ResourceVersion r) then (Ok (), set_resource (Some (f now)) s)
        else (Err "the object has been modified", s)
    end).

Definition updateSpec (r : SchedulerResource) : Prog (SchedWorld C) () :=
  putResource (λ now, {| SpecWorkflows := SpecWorkflows r; WorkflowExecutions := WorkflowExecutions now;
                         ResourceVersion := S (ResourceVersion now) |}) r.
Definition updateStatus (r : SchedulerResource) : Prog (SchedWorld C) () :=
  putResource (λ now, {| SpecWorkflows := SpecWorkflows now; WorkflowExecutions := WorkflowExecutions r;
                         ResourceVersion := S (ResourceVersion now) |}) r.

(** ** Cron jobs *)

Definition jobIDOf (name : string) : string := Namespace cf +:+ "/" +:+ name.

Definition cronErrorText (e : CronError) : string :=
  match e with
  | InvalidCronExpression expr => "invalid cron expression " +:+ quoted expr +:+ ": " +:+ cronParseError expr
  | AddFailed => "failed to add job to cron"
  | JobNotFound id => "job " +:+ quoted id +:+ " not found"
  end.

(** An operation of the cron engine, which panics on a nil job. *)
Definition onEngine (f : Engine C → option (Engine C * res CronError unit)) : Prog (SchedWorld C) () := λ '(s, n),
  match f (engine s) with
  | None => (Err "panic: nil pointer dereference", (s, n))
  | Some (e, r) =>
      (match r with Ok _ => Ok () | Err err => Err (cronErrorText err) end, (set_engine e s, n))
  end.

Definition jobSpecOf (w : Workflow) : JobSpec := {|
  ID := jobIDOf (WorkflowName w); JobName := WorkflowName w; JobSchedule := Schedule (Def w);
  Timezone := Some (if decide (WorkflowTimezone w = "") then "UTC"
                    else if LoadLocation (WorkflowTimezone w) then WorkflowTimezone w else "UTC");
  Enabled := WorkflowEnabled w; LastRun := None; NextRun := None;
  JobMaxRetries := match WorkflowRetry w with None => 3 | Some p => RP_MaxRetries p end;
  JobRetryDelay := match WorkflowRetry w with
                   | None => 30 * 10 ^ 9
                   | Some p => durationOr (30 * 10 ^ 9) (RP_RetryDelay p)
                   end;
  cronEntryID := 0 |}.

(** A new job whose handler has captured the workflow. *)
Definition allocateJob (w : Workflow) (l : loc) s : SchedWorld C :=
  {| engine := with_job l (jobSpecOf w) (engine s); handlers := <[l := w]> (handlers s);
     cluster := cluster s; database := database s; resource := resource s;
     monitors := monitors s; watching := watching s; schedStarted := schedStarted s |}.

Definition scheduleWorkflow (now : Z) (w : Workflow) : Prog (SchedWorld C) () := λ '(s, n),
  let l := fresh (dom (heap (engine s))) in
  onEngine (AddJob now l) (allocateJob w l s, n).

(** Whether the job differs from the workflow in what is compared. *)
Definition needsUpdate (job : JobSpec) (w : Workflow) : bool :=
  negb (bool_decide (JobSchedule job = Schedule (Def w)) && Bool.eqb (Enabled job) (WorkflowEnabled w) &&
        bool_decide (JobName job = WorkflowName w)).

Definition wanted (w : Workflow) : bool := negb (bool_decide (Schedule (Def w) = "")) && WorkflowEnabled w.

(** A job that is no longer wanted is removed twice; the second time is an error in the log. *)
Definition SyncWorkflow (now : Z) (w : Workflow) : Prog (SchedWorld C) () := λ '(s, n),
  let jobID := jobIDOf (WorkflowName w) in
  let existing := l ← GetJob jobID (engine s); heap (engine s) !! l in
  match existing with
  | Some job =>
      if needsUpdate job w then
        (attempt (onEngine (RemoveJob jobID));;
         if wanted w then scheduleWorkflow now w else attempt (onEngine (RemoveJob jobID));; mret ()) (s, n)
      else (Ok (), (s, n))
  | None => (if wanted w then scheduleWorkflow now w else mret ()) (s, n)
  end.

Definition RemoveWorkflow (name : string) : Prog (SchedWorld C) () := onEngine (RemoveJob (jobIDOf name)).

Definition ListScheduledWorkflows (order : list string) s : list loc := ListJobs order (engine s).

(** ** Executions as jobs *)

Definition onCluster {A} (m : Prog JobCluster A) : Prog (SchedWorld C) A := on cluster set_cluster m.
Definition onDatabase {A} (m : Prog Database A) : Prog (SchedWorld C) A := on database set_database m.

Definition seconds (t : Z) : Z := t / 10 ^ 9.

Definition startedExecution (now : Z) (w : Workflow) (executionID : string) : Execution :=
  {| ExecID := executionID; ExecWorkflow := WorkflowName w; ExecStart := now; ExecEnd := None;
     ExecStatus := "Running";
     ExecSteps := (λ step, (Name step, {| StepPhase := "Pending"; StepOutput := None; StepError := "";
                                          StepDuration := 0; StepAttempts := 0 |})) <$> Steps (Def w);
     ExecError := "" |}.

Definition startMonitor (m : Monitor) : Prog (SchedWorld C) () := λ '(s, n),
  (Ok (), ({| engine := engine s; handlers := handlers s; cluster := cluster s; database := database s;
              resource := resource s; monitors := m :: monitors s; watching := watching s;
              schedStarted := schedStarted s |}, n)).

(** What the cron job of a workflow does: [now] is a time in nanoseconds. *)
Definition handler (now : Z) (w : Workflow) : Prog (SchedWorld C) () :=
  let execution := executionID (WorkflowName w) (seconds now) in
  onCluster (ExecuteWorkflowAsJob env (Namespace cf) now w (WorkflowName w) execution);;
  startMonitor {| MonitorWorkflow := w; MonitorExecution := startedExecution now w execution;
                  MonitorDeadline := now + durationOr (minutes 30) (WfTimeout (Def w)) |}.

Definition ExecuteWorkflowManually (now : Z) (workflowDef : option Workflow) (executionID : string) :
    Prog (SchedWorld C) () :=
  match workflowDef with
  | None => throw "workflow definition is nil"
  | Some w =>
      during ("failed to execute workflow '" +:+ WorkflowName w +:+ "' as K8s Job")
        (onCluster (ExecuteWorkflowAsJob env (Namespace cf) now w (WorkflowName w) executionID));;
      mret ()
  end.

(** ** Monitoring *)

(** What wakes a monitor: its ticker, with the cluster as it is then, its timeout, or the
    end of the cron engine's context. *)
Inductive MonitorEvent := Tick (now : Z) (c : JobCluster) | TimedOut (now : Z) | Cancelled.

Definition endedExecution (now : Z) (status error : string) (x : Execution) : Execution :=
  {| ExecID := ExecID x; ExecWorkflow := ExecWorkflow x; ExecStart := ExecStart x; ExecEnd := Some now;
     ExecStatus := status; ExecSteps := ExecSteps x; ExecError := error |}.

(** Every step counts as succeeded, for as long as the whole took. *)
Definition succeededExecution (now : Z) (x : Execution) : Execution :=
  {| ExecID := ExecID x; ExecWorkflow := ExecWorkflow x; ExecStart := ExecStart x; ExecEnd := Some now;
     ExecStatus := "Succeeded";
     ExecSteps := (λ '(name, r), (name, {| StepPhase := "Succeeded"; StepOutput := StepOutput r;
       StepError := StepError r; StepDuration := now - ExecStart x; StepAttempts := StepAttempts r |})) <$> ExecSteps x;
     ExecError := "" |}.

Definition observe (c : JobCluster) : Prog JobCluster () := λ '(_, n), (Ok (), (c, n)).

(** A tick: the execution that is to be recorded, if the job has come to an end. *)
Definition monitorTick (arrives : nat → option nat) (name executionID : string) (now : Z) (c : JobCluster)
    (x : Execution) : Prog JobCluster (option Execution) :=
  observe c;;
  r ← attempt (GetWorkflowJobStatus env name executionID);
  match r with
  | Err _ => mret None
  | Ok current =>
      if decide (StatusPhase current = "Succeeded") then
        attempt (GetWorkflowJobLogs env arrives name executionID);; mret (Some (succeededExecution now x))
      else if decide (StatusPhase current = "Failed") then
        logs ← attempt (GetWorkflowJobLogs env arrives name executionID);
        mret (Some (endedExecution now "Failed"
                      (match logs with Ok text => text | Err _ => "Job execution failed" end) x))
      else mret None
  end.

(** [None] if the monitor is still waiting or was stopped. *)
Fixpoint monitorLoop (arrives : nat → option nat) (name executionID : string) (x : Execution)
    (events : list MonitorEvent) : Prog JobCluster (option Execution) :=
  match events with
  | [] | Cancelled :: _ => mret None
  | TimedOut now :: _ => mret (Some (endedExecution now "Failed" "Job execution timed out" x))
  | Tick now c :: rest =>
      ended ← monitorTick arrives name executionID now c x;
      match ended with
      | Some x' => mret (Some x')
      | None => monitorLoop arrives name executionID x rest
      end
  end.

(** ** The history *)

(** Steps of one name share an entry, that of the last. *)
Definition statusExecution (x : Execution) : StatusExecution :=
  {| StatusExecID := ExecID x; StatusWorkflow := ExecWorkflow x; StatusStartTime := ExecStart x;
     StatusEndTime := ExecEnd x; StatusDuration := (λ e, e - ExecStart x) <$> ExecEnd x;
     StatusExecPhase := ExecStatus x; StatusExecMessage := ExecError x;
     StepResults := foldl (λ m '(name, r), <[name := {| StepPhase := StepPhase r; StepOutput := StepOutput r;
       StepError := StepError r; StepDuration := StepDuration r;
       StepAttempts := int32 (StepAttempts r) |}]> m) ∅ (ExecSteps x) |}.

Definition executionsByWorkflow (l : list StatusExecution) : gmap string (list StatusExecution) :=
  foldl (λ m e, <[StatusWorkflow e := default [] (m !! StatusWorkflow e) ++ [e]]> m) ∅ l.

(** The last ten of each workflow, the workflows in the order in which the map is read. *)
Definition trimHistory (order : list string) (l : list StatusExecution) : list StatusExecution :=
  concat ((λ name, lastN 10 (default [] (executionsByWorkflow l !! name))) <$> order).

(** [order] lists the keys of the map that is made of the executions then. *)
Definition updateWorkflowExecutionStatus (order : list StatusExecution → list string) (x : Execution) :
    Prog (SchedWorld C) () :=
  if hasClient cf then
    r ← during "failed to get MCPTaskScheduler for status update" getResource;
    let all := WorkflowExecutions r ++ [statusExecution x] in
    updateStatus {| SpecWorkflows := SpecWorkflows r; WorkflowExecutions := trimHistory (order all) all;
                    ResourceVersion := ResourceVersion r |}
  else mret ().

(** A whole goroutine; its error is only logged. *)
Definition monitorJobAndUpdateStatus (arrives : nat → option nat) (order : list StatusExecution → list string)
    (m : Monitor) (events : list MonitorEvent) : Prog (SchedWorld C) () :=
  let x := MonitorExecution m in
  ended ← onCluster (monitorLoop arrives (ExecWorkflow x) (ExecID x) x events);
  match ended with
  | None => mret ()
  | Some x' => attempt (updateWorkflowExecutionStatus order x');; mret ()
  end.

(** ** The store *)

Definition syncWorkflowToPostgreSQL (w : Workflow) : Prog Database () :=
  existing ← attempt (GetWorkflow env delivered (WorkflowName w));
  match existing with
  | Ok _ => mret ()
  | Err _ => during "failed to create workflow in PostgreSQL" (CreateWorkflow env w);; mret ()
  end.

(** What the store had is read before anything is added to it. *)
Definition syncWorkflowsToPostgreSQL (workflows : list Workflow) : Prog Database () :=
  existingWorkflows ← during "failed to list existing workflows from PostgreSQL" (ListWorkflows env delivered);
  each (λ w, attempt (syncWorkflowToPostgreSQL w);; mret ()) workflows;;
  if enableDeletionSync cf then
    each (λ existing, attempt (DeleteWorkflow env (RecordName existing));; mret ())
      (filter (λ existing, RecordName existing ∉ (WorkflowName <$> workflows)) existingWorkflows)
  else mret ().

Definition syncWorkflowsFromPostgreSQLToCRD : Prog (SchedWorld C) () :=
  if hasClient cf && hasStore cf then
    pgWorkflows ← during "failed to list workflows from PostgreSQL" (onDatabase (ListWorkflows env delivered));
    match pgWorkflows with
    | [] => mret ()
    | _ =>
        r ← during "failed to get MCPTaskScheduler for PostgreSQL sync" getResource;
        during "failed to update MCPTaskScheduler with PostgreSQL workflows"
          (updateSpec {| SpecWorkflows := ToCRDWorkflowDefinition <$> pgWorkflows;
                         WorkflowExecutions := WorkflowExecutions r; ResourceVersion := ResourceVersion r |})
    end
  else mret ().

(** ** Starting and watching *)

Definition syncWorkflowsFromCRD (now : Z) : Prog (SchedWorld C) () :=
  if hasClient cf then
    r ← during "failed to get MCPTaskScheduler" getResource;
    (if hasStore cf then attempt (onDatabase (syncWorkflowsToPostgreSQL (SpecWorkflows r)));; mret () else mret ());;
    each (λ w, attempt (scheduleWorkflow now w);; mret ()) (filter (λ w, wanted w = true) (SpecWorkflows r))
  else mret ().

Definition startEngine : Prog (SchedWorld C) () := λ '(s, n), (Ok (), (set_engine (CronEngine.Start (engine s)) s, n)).

Definition markStarted : Prog (SchedWorld C) () := λ '(s, n),
  (Ok (), ({| engine := engine s; handlers := handlers s; cluster := cluster s; database := database s;
              resource := resource s; monitors := monitors s;
              watching := (if hasClient cf then S (watching s) else watching s); schedStarted := true |}, n)).

Definition Start (now : Z) : Prog (SchedWorld C) () := λ '(s, n),
  if schedStarted s then (Ok (), (s, n))
  else
    (startEngine;;
     (if hasStore cf then attempt syncWorkflowsFromPostgreSQLToCRD;; mret () else mret ());;
     syncWorkflowsFromCRD now;;
     markStarted) (s, n).

(** Stopping ends the watching; the cron jobs stay in the engine. *)
Definition Stop s : SchedWorld C :=
  if schedStarted s then
    {| engine := CronEngine.Stop (engine s); handlers := handlers s; cluster := cluster s;
       database := database s; resource := resource s; monitors := monitors s; watching := 0;
       schedStarted := false |}
  else s.

(** A pass of the watch over the resource: a changed resource is copied to the store, and
    that is all.  [last] is the version that was last copied. *)
Definition checkCRDChanges (last : option nat) : Prog (SchedWorld C) (option nat) :=
  r ← during "failed to get MCPTaskScheduler" getResource;
  if decide (last = Some (ResourceVersion r)) then mret last
  else
    (if hasStore cf
     then during "failed to sync workflows to PostgreSQL" (onDatabase (syncWorkflowsToPostgreSQL (SpecWorkflows r)))
     else mret ());;
    mret (Some (ResourceVersion r)).
End scheduler.

(** ** The cron jobs follow the workflows *)

Section sync.
Context {C : Type} `{CronLaws C} `{!SchedulerLib} (cf : SchedulerConfig).
Implicit Types (s : SchedWorld C) (w : Workflow).

Notation entries s := (cronEntries (cron (engine s))).
Notation jobsOf s := (CronEngine.jobs (engine s)).

(** Every job is of a workflow that is to run, and runs it. *)
Definition job_ok s (id : string) (l : loc) : Prop := ∃ j w,
  heap (engine s) !! l = Some j ∧ handlers s !! l = Some w ∧ id = jobIDOf cf (JobName j) ∧
  JobName j = WorkflowName w ∧ JobSchedule j = Schedule (Def w) ∧ JobSchedule j ≠ "" ∧ Enabled j = true.

Record sched_ok s : Prop := {
  so_engine : engine_ok (engine s);
  so_jobs : ∀ id l, jobsOf s !! id = Some l → job_ok s id l;
}.

#[export] Instance jobIDOf_inj : Inj (=) (=) (jobIDOf cf).
Proof. unfold jobIDOf. intros name name' Hn. by do 2 apply (inj _) in Hn. Qed.

(** Only the jobs under other identifiers are as before, and only some of them if any. *)
Definition only_job (id : string) s s' : Prop :=
  ∀ id', id' ≠ id → jobsOf s' !! id' = jobsOf s !! id' ∧
    ∀ l, jobsOf s !! id' = Some l → heap (engine s') !! l = heap (engine s) !! l ∧ handlers s' !! l = handlers s !! l.

Lemma only_job_trans id s1 s2 s3 : only_job id s1 s2 → only_job id s2 s3 → only_job id s1 s3.
Proof.
  intros H12 H23 id' Hid. destruct (H12 id' Hid) as [J1 L1], (H23 id' Hid) as [J2 L2].
  split; [congruence|]. intros l Hl. destruct (L1 l Hl). destruct (L2 l); [congruence|]. split; congruence.
Qed.

Lemma sched_ok_only id s s' : sched_ok s → only_job id s s' → engine_ok (engine s') →
  (∀ l, jobsOf s' !! id = Some l → job_ok s' id l) → sched_ok s'.
Proof.
  intros [_ Hs] Ho He Hid. split; [done|]. intros id' l Hl. destruct (decide (id' = id)) as [->|Hne]; [by apply Hid|].
  destruct (Ho id' Hne) as [Hj Hh]. rewrite Hj in Hl. destruct (Hh l Hl) as [E1 E2].
  unfold job_ok. rewrite E1, E2. by apply Hs.
Qed.

(** A job that is registered is removed. *)
Lemma removeJob_spec id s n r s' n' : sched_ok s →
  onEngine (RemoveJob id) (s, n) = (r, (s', n')) →
  sched_ok s' ∧ only_job id s s' ∧ jobsOf s' !! id = None ∧ n' = n ∧ (is_Some (jobsOf s !! id) → r = Ok ()).
Proof.
  intros Hok. unfold onEngine. destruct (RemoveJob id (engine s)) as [[e' r']|] eqn:Hr.
  - intros [= <- <- <-]. pose proof (RemoveJob_ok id _ _ _ (so_engine _ Hok) Hr) as He.
    unfold RemoveJob in Hr. destruct (jobsOf s !! id) as [l|] eqn:Hl.
    + destruct (so_jobs _ Hok id l Hl) as (j & w & Hj & _). rewrite Hj in Hr. cbn in Hr. injection Hr as <- <-.
      assert (only_job id s (set_engine (CronEngine.with_jobs (delete id (jobsOf s))
        (with_cron (CronRemove (cronEntryID j) (cron (engine s))) (engine s))) s)) as Ho.
      { intros id' Hne. simpl. rewrite lookup_delete_ne by done. done. }
      split_and!; [|done|simpl; by rewrite lookup_delete_eq|done..].
      eapply sched_ok_only; [done..|]. simpl. intros l'. by rewrite lookup_delete_eq.
    + injection Hr as <- <-. split_and!; [by destruct s| |done|done|by intros [? ?]]. by intros id' _.
  - unfold RemoveJob in Hr. destruct (jobsOf s !! id) as [l|] eqn:Hl; [|done].
    destruct (so_jobs _ Hok id l Hl) as (j & w & Hj & _). by rewrite Hj in Hr.
Qed.

(** A workflow that is to run and has no job gets one if its schedule parses. *)
Lemma scheduleWorkflow_spec now w s n r s' n' : sched_ok s → wanted w = true →
  jobsOf s !! jobIDOf cf (WorkflowName w) = None → scheduleWorkflow cf now w (s, n) = (r, (s', n')) →
  sched_ok s' ∧ only_job (jobIDOf cf (WorkflowName w)) s s' ∧ n' = n ∧
  (ParseStandard (Schedule (Def w)) = true → r = Ok () ∧
     ∃ l, jobsOf s' !! jobIDOf cf (WorkflowName w) = Some l ∧ handlers s' !! l = Some w) ∧
  (ParseStandard (Schedule (Def w)) = false → is_ok r = false ∧ jobsOf s' !! jobIDOf cf (WorkflowName w) = None).
Proof.
  intros Hok Hw Hnone. unfold wanted in Hw. apply andb_true_iff in Hw as [Hs Hen].
  apply negb_true_iff, bool_decide_eq_false in Hs.
  set (id := jobIDOf cf (WorkflowName w)) in *. unfold scheduleWorkflow, onEngine.
  set (l := fresh (dom (heap (engine s)))).
  assert (heap (engine s) !! l = None) as Hl by apply not_elem_of_dom, is_fresh.
  assert (∀ id' l', jobsOf s !! id' = Some l' → l' ≠ l) as Hfresh.
  { intros id' l' Hl' ->. destruct (so_jobs _ Hok id' l Hl') as (j & w' & Hj & _). congruence. }
  set (s0 := allocateJob cf w l s). set (j := jobSpecOf cf w).
  assert (engine_ok (engine s0)) as He0 by (eapply client_step_ok; [apply (so_engine _ Hok)|by apply StepNew]).
  assert (heap (engine s0) !! l = Some j) as Hj by apply lookup_insert_eq.
  destruct (AddJob now l (engine s0)) as [[e' r']|] eqn:Ha.
  2:{ unfold AddJob in Ha. rewrite Hj in Ha. cbn in Ha. repeat case_match; done. }
  intros [= <- <- <-].
  pose proof (AddJob_ok now l j _ _ _ He0 Hj Hen Hnone Ha) as He'.
  assert (∀ e'' : Engine C, CronEngine.jobs e'' = jobsOf s ∨ CronEngine.jobs e'' = <[id := l]> (jobsOf s) →
    (∀ l', l' ≠ l → heap e'' !! l' = heap (engine s) !! l') → only_job id s (set_engine e'' s0)) as Hother.
  { intros e'' Hjobs Hheap id' Hne. split.
    - simpl. destruct Hjobs as [->| ->]; [done|]. by rewrite lookup_insert_ne.
    - intros l' Hl'. simpl. pose proof (Hfresh _ _ Hl'). rewrite Hheap by done. by rewrite lookup_insert_ne. }
  apply (AddJob_inv _ _ _ _ _ _ Hj) in Ha as [(Hp & -> & ->)|(Hp & -> & c' & next & _ & _ & ->)].
  - assert (only_job id s (set_engine (with_job l (withDefaults j) (engine s0)) s0)) as Ho.
    { apply Hother; [by left|]. intros l' Hne. simpl. by rewrite !lookup_insert_ne. }
    split_and!; [|done..| |].
    + eapply sched_ok_only; [done..|]. simpl. intros l'. by rewrite Hnone.
    + change (JobSchedule j) with (Schedule (Def w)) in Hp. congruence.
    + done.
  - match goal with |- sched_ok ?s1 ∧ _ => set (s1' := s1) end.
    assert (only_job id s s1') as Ho.
    { apply Hother; [by right|]. intros l' Hne. simpl. by rewrite !lookup_insert_ne. }
    split_and!; [|done..| |].
    + eapply sched_ok_only; [done..|]. simpl. intros l'. change (ID j) with id. rewrite lookup_insert_eq.
      intros [= <-]. eexists _, w. simpl. rewrite !lookup_insert_eq. split_and!; try done.
    + intros _. split; [done|]. exists l. simpl. change (ID j) with id. by rewrite !lookup_insert_eq.
    + change (JobSchedule j) with (Schedule (Def w)) in Hp. congruence.
Qed.

(** After a workflow was synchronised it has a job exactly if it is to run and its schedule
    parses, and that job has its schedule; the jobs of other workflows are as before. *)
Lemma SyncWorkflow_spec now w s n r s' n' : sched_ok s → SyncWorkflow cf now w (s, n) = (r, (s', n')) →
  sched_ok s' ∧ only_job (jobIDOf cf (WorkflowName w)) s s' ∧
  (wanted w = true → ParseStandard (Schedule (Def w)) = true → r = Ok () ∧
     ∃ l w', jobsOf s' !! jobIDOf cf (WorkflowName w) = Some l ∧ handlers s' !! l = Some w' ∧
       WorkflowName w' = WorkflowName w ∧ Schedule (Def w') = Schedule (Def w)) ∧
  (wanted w && ParseStandard (Schedule (Def w)) = false → jobsOf s' !! jobIDOf cf (WorkflowName w) = None) ∧
  (is_ok r = false ↔ wanted w = true ∧ ParseStandard (Schedule (Def w)) = false).
Proof.
  intros Hok. set (id := jobIDOf cf (WorkflowName w)). unfold SyncWorkflow. fold id.
  assert (∀ s0 n0, sched_ok s0 → only_job id s s0 → jobsOf s0 !! id = None → wanted w = true →
    scheduleWorkflow cf now w (s0, n0) = (r, (s', n')) →
    sched_ok s' ∧ only_job id s s' ∧
    (wanted w = true → ParseStandard (Schedule (Def w)) = true → r = Ok () ∧
       ∃ l w', jobsOf s' !! id = Some l ∧ handlers s' !! l = Some w' ∧
         WorkflowName w' = WorkflowName w ∧ Schedule (Def w') = Schedule (Def w)) ∧
    (wanted w && ParseStandard (Schedule (Def w)) = false → jobsOf s' !! id = None) ∧
    (is_ok r = false ↔ wanted w = true ∧ ParseStandard (Schedule (Def w)) = false)) as Hsched.
  { intros s0 n0 Hok0 Ho0 Hnone Hw Hs.
    destruct (scheduleWorkflow_spec _ _ _ _ _ _ _ Hok0 Hw Hnone Hs) as (Hok' & Ho' & _ & Hyes & Hno).
    split_and!; [done|by eapply only_job_trans| | |]; rewrite Hw.
    - intros _ Hp. destruct (Hyes Hp) as [-> (l & Hl & Hh)]. split; [done|]. by exists l, w.
    - intros Hp. by apply Hno.
    - destruct (ParseStandard _); [destruct Hyes as [-> _]; [done|]|destruct Hno; [done|]]; naive_solver. }
  assert (∀ id', only_job id' s s) as Hrefl by (intros id' ? _; done).
  destruct (jobsOf s !! id) as [l|] eqn:Hl; unfold GetJob; rewrite Hl; cbn [mbind option_bind].
  2:{ destruct (wanted w) eqn:Hw; [by apply Hsched|]. intros [= <- <- <-]. split_and!; done || naive_solver. }
  destruct (so_jobs _ Hok id l Hl) as (j & w0 & Hj & Hh & Hid & Hname & Hsch & Hne & Hen). rewrite Hj.
  assert (JobName j = WorkflowName w) as Hn by (by apply (inj (jobIDOf cf))).
  destruct (eo_jobs _ (so_engine _ Hok) id l Hl) as (j' & Hj' & _ & Hp). assert (j' = j) as -> by congruence.
  destruct (needsUpdate j w) eqn:Hup.
  - unfold mbind, Prog_bind, attempt.
    destruct (onEngine (RemoveJob id) (s, n)) as [r1 [s1 n1]] eqn:Hr1.
    destruct (removeJob_spec _ _ _ _ _ _ Hok Hr1) as (Hok1 & Ho1 & Hnone & -> & _).
    destruct (wanted w) eqn:Hw; [by apply Hsched|].
    destruct (onEngine (RemoveJob id) (s1, n)) as [r2 [s2 n2]] eqn:Hr2.
    destruct (removeJob_spec _ _ _ _ _ _ Hok1 Hr2) as (Hok2 & Ho2 & Hnone2 & -> & _).
    intros [= <- <- <-]. split_and!; [done|by eapply only_job_trans|done..|naive_solver].
  - intros [= <- <- <-]. unfold needsUpdate in Hup. apply negb_false_iff in Hup.
    apply andb_true_iff in Hup as [Hup _]. apply andb_true_iff in Hup as [Hsame Hen'].
    apply bool_decide_eq_true in Hsame. apply eqb_prop in Hen'.
    assert (wanted w = true) as Hw.
    { unfold wanted. rewrite <-Hsame, <-Hen', Hen, andb_true_r. apply negb_true_iff. by apply bool_decide_eq_false. }
    rewrite Hsame in Hp. rewrite Hw, Hp. split_and!; [done|done| |done|naive_solver].
    intros _ _. split; [done|]. exists l, w0. split_and!; congruence.
Qed.

(** ** The library runs what was synchronised last *)

(** What the client of the scheduler does, and the cron library. *)
Inductive SchedOp :=
  | OpSync (now : Z) (w : Workflow)
  | OpRemove (name : string)
  | OpRun (t : nat → Z) (answers : Z → option string) (done : Z → bool) (l : loc)
  | OpEngineStart
  | OpEngineStop.

Definition runSchedOp (op : SchedOp) s : SchedWorld C :=
  match op with
  | OpSync now w => (SyncWorkflow cf now w (s, 0%nat)).2.1
  | OpRemove name => (RemoveWorkflow cf name (s, 0%nat)).2.1
  | OpRun t answers done l =>
      match wrappedHandler t answers done l (engine s) with
      | Some (e, _) => set_engine e s
      | None => s
      end
  | OpEngineStart => set_engine (CronEngine.Start (engine s)) s
  | OpEngineStop => set_engine (CronEngine.Stop (engine s)) s
  end.

(** The schedules that are to be in force. *)
Definition inForce (m : gmap string string) (op : SchedOp) : gmap string string :=
  match op with
  | OpSync _ w =>
      if wanted w && ParseStandard (Schedule (Def w)) then <[WorkflowName w := Schedule (Def w)]> m
      else delete (WorkflowName w) m
  | OpRemove name => delete name m
  | _ => m
  end.

Definition newScheduler (c : JobCluster) (db : Database) (r : option SchedulerResource) : SchedWorld C :=
  {| engine := NewCronEngine; handlers := ∅; cluster := c; database := db; resource := r;
     monitors := []; watching := 0; schedStarted := false |}.

(** The state is that of the schedules in force. *)
Definition agrees (m : gmap string string) s : Prop :=
  ∀ name, m !! name = (l ← jobsOf s !! jobIDOf cf name; JobSchedule <$> heap (engine s) !! l).

Lemma only_job_agrees name m s s' o : agrees m s → only_job (jobIDOf cf name) s s' →
  (l ← jobsOf s' !! jobIDOf cf name; JobSchedule <$> heap (engine s') !! l) = o →
  agrees (partial_alter (λ _, o) name m) s'.
Proof.
  intros Ha Ho Hname name'. destruct (decide (name' = name)) as [->|Hne].
  - by rewrite lookup_partial_alter_eq.
  - rewrite lookup_partial_alter_ne by done. rewrite Ha.
    destruct (Ho (jobIDOf cf name')) as [-> Hl]; [by intros E%(inj _)|].
    destruct (jobsOf s !! jobIDOf cf name') as [l|]; simpl; [|done]. by destruct (Hl l) as [-> _].
Qed.

(** What the library does on its own changes no job's identity. *)
Lemma frame_ok m s e : sched_ok s → agrees m s → engine_ok e → CronEngine.jobs e = jobsOf s →
  (∀ l j, heap (engine s) !! l = Some j → ∃ j', heap e !! l = Some j' ∧
    JobName j' = JobName j ∧ JobSchedule j' = JobSchedule j ∧ Enabled j' = Enabled j) →
  sched_ok (set_engine e s) ∧ agrees m (set_engine e s).
Proof.
  intros Hok Ha He Hj Hh. split; [split; [done|]|].
  - intros id l. simpl. rewrite Hj. intros Hl. destruct (so_jobs _ Hok id l Hl) as (j & w & Hl' & I1 & I2 & I3 & I4 & I5 & I6).
    destruct (Hh l j Hl') as (j' & Hj' & E1 & E2 & E3). exists j', w. simpl. rewrite E1, E2, E3. done.
  - intros name. simpl. rewrite Hj, Ha. destruct (jobsOf s !! _) as [l|] eqn:Hl; simpl; [|done].
    destruct (so_jobs _ Hok _ l Hl) as (j & w & Hl' & _). rewrite Hl'. simpl.
    destruct (Hh l j Hl') as (j' & -> & _ & E & _). simpl. by rewrite E.
Qed.

Lemma runSchedOp_ok op m s : sched_ok s → agrees m s →
  sched_ok (runSchedOp op s) ∧ agrees (inForce m op) (runSchedOp op s).
Proof.
  intros Hok Ha. destruct op as [now w|name|t answers done l| |]; cbn [runSchedOp inForce].
  - destruct (SyncWorkflow cf now w (s, 0%nat)) as [r [s' n']] eqn:Hs. cbn [fst snd].
    destruct (SyncWorkflow_spec _ _ _ _ _ _ _ Hok Hs) as (Hok' & Ho & Hyes & Hno & _). split; [done|].
    destruct (wanted w && ParseStandard (Schedule (Def w))) eqn:E.
    + apply andb_true_iff in E as [Hw Hp]. destruct (Hyes Hw Hp) as (_ & l & w' & Hl & Hh & _ & Hsch).
      eapply only_job_agrees; [done..|]. rewrite Hl. simpl.
      destruct (so_jobs _ Hok' _ l Hl) as (j & w'' & Hj & Hh' & _ & _ & Hjs & _). rewrite Hj. simpl. congruence.
    + eapply only_job_agrees; [done..|]. by rewrite Hno.
  - unfold RemoveWorkflow. destruct (onEngine (RemoveJob (jobIDOf cf name)) (s, 0%nat)) as [r [s' n']] eqn:Hs. cbn [fst snd].
    destruct (removeJob_spec _ _ _ _ _ _ Hok Hs) as (Hok' & Ho & Hnone & _). split; [done|].
    eapply only_job_agrees; [done..|]. by rewrite Hnone.
  - destruct (wrappedHandler _ _ _ _ _) as [[e x]|] eqn:Hw; [|done].
    apply frame_ok; [done..| | |].
    + eapply client_step_ok; [apply (so_engine _ Hok)|]. by eapply StepTick.
    + by apply wrappedHandler_frame in Hw as [->|(j & next & last & Hl & ->)].
    + apply wrappedHandler_frame in Hw as [->|(j & next & last & Hl & ->)]; intros l' j' Hl'; [by exists j'|].
      simpl. destruct (decide (l' = l)) as [->|Hne]; [rewrite lookup_insert_eq|rewrite lookup_insert_ne by done; by exists j'].
      eexists. split; [done|]. by simplify_eq.
  - apply frame_ok; [done..| | |].
    + eapply client_step_ok; [apply (so_engine _ Hok)|apply StepStart].
    + unfold CronEngine.Start. by destruct (started (engine s)).
    + intros l j Hl. exists j. unfold CronEngine.Start. by destruct (started (engine s)).
  - apply frame_ok; [done..| | |].
    + eapply client_step_ok; [apply (so_engine _ Hok)|apply StepStop].
    + unfold CronEngine.Stop. by destruct (started (engine s)).
    + intros l j Hl. exists j. unfold CronEngine.Stop. by destruct (started (engine s)).
Qed.

Lemma runSchedOps_ok ops m s : sched_ok s → agrees m s →
  sched_ok (foldl (λ s op, runSchedOp op s) s ops) ∧
  agrees (foldl inForce m ops) (foldl (λ s op, runSchedOp op s) s ops).
Proof.
  revert m s. induction ops as [|op ops IH]; intros m s Hok Ha; simpl; [done|].
  destruct (runSchedOp_ok op m s Hok Ha). by apply IH.
Qed.

Lemma newScheduler_ok c db r : sched_ok (newScheduler c db r) ∧ agrees ∅ (newScheduler c db r).
Proof. split; [split; [apply engine_ok_new|by intros id l]|]. intros name. by rewrite lookup_empty. Qed.

(** C9: whatever is synchronised, removed and run, the cron library has an entry for a
    workflow exactly if it was last synchronised as one that is to run, with a schedule
    that parses; it is the only one of the workflow, has that schedule, and its job runs
    the workflow. *)
Theorem library_follows_sync ops c db r name :
  let s := foldl (λ s op, runSchedOp op s) (newScheduler c db r) ops in
  (∀ id expr l w, entries s !! id = Some (expr, l) → handlers s !! l = Some w → WorkflowName w = name →
     foldl inForce ∅ ops !! name = Some expr) ∧
  (∀ expr, foldl inForce ∅ ops !! name = Some expr →
     ∃ id l w, entries s !! id = Some (expr, l) ∧ handlers s !! l = Some w ∧ WorkflowName w = name ∧
       Schedule (Def w) = expr ∧
       ∀ id' expr' l' w', entries s !! id' = Some (expr', l') → handlers s !! l' = Some w' →
         WorkflowName w' = name → id' = id).
Proof.
  intros s. destruct (newScheduler_ok c db r) as [Hok0 Ha0].
  destruct (runSchedOps_ok ops _ _ Hok0 Ha0) as [Hok Ha]. fold s in Hok, Ha.
  assert (∀ id expr l w, entries s !! id = Some (expr, l) → handlers s !! l = Some w → WorkflowName w = name →
    ∃ j, registered (engine s) l j ∧ jobsOf s !! jobIDOf cf name = Some l ∧ JobSchedule j = expr ∧ cronEntryID j = id) as Hentry.
  { intros id expr l w He Hh Hn. apply (eo_entries _ (so_engine _ Hok)) in He as (j & Hr & _ & Hid & Hsch).
    exists j. destruct Hr as [Hjob Hl]. split; [done|].
    destruct (so_jobs _ Hok _ l Hjob) as (j' & w' & Hl' & Hh' & Hid' & Hn' & _). simplify_eq. split; [|done].
    by rewrite <-Hn', <-Hid'. }
  split.
  - intros id expr l w He Hh Hn. destruct (Hentry _ _ _ _ He Hh Hn) as (j & [_ Hl] & Hjob & Hsch & _).
    rewrite Ha, Hjob. simpl. rewrite Hl. simpl. by rewrite Hsch.
  - intros expr Hm. rewrite Ha in Hm. apply bind_Some in Hm as (l & Hjob & Hsch).
    destruct (so_jobs _ Hok _ l Hjob) as (j & w & Hl & Hh & Hid & Hn & Hs & _ & Hen).
    rewrite Hl in Hsch. injection Hsch as Hsch. apply (inj (jobIDOf cf)) in Hid.
    destruct (eo_jobs _ (so_engine _ Hok) _ l Hjob) as (j0 & Hl0 & Hid0 & _). assert (j0 = j) as -> by congruence.
    exists (cronEntryID j), l, w. split; [apply (eo_entries _ (so_engine _ Hok)); exists j; by rewrite <-Hid0 in Hjob|].
    split_and!; [done|congruence..|]. intros id' expr' l' w' He' Hh' Hn'.
    destruct (Hentry _ _ _ _ He' Hh' Hn') as (j' & [_ Hl'] & Hjob' & _ & <-).
    assert (l' = l) as -> by congruence. congruence.
Qed.

(** A workflow that is scheduled although it already has a job, as every workflow is
    when the scheduler is stopped and started again, keeps the entry of the old job: that
    one runs on after the workflow was removed. *)
Theorem rescheduled_runs_on now w s n r s' n' r2 s2 n2 l j : sched_ok s → wanted w = true →
  ParseStandard (Schedule (Def w)) = true →
  jobsOf s !! jobIDOf cf (WorkflowName w) = Some l → heap (engine s) !! l = Some j →
  scheduleWorkflow cf now w (s, n) = (r, (s', n')) →
  RemoveWorkflow cf (WorkflowName w) (s', n') = (r2, (s2, n2)) →
  r = Ok () ∧ r2 = Ok () ∧ jobsOf s2 !! jobIDOf cf (WorkflowName w) = None ∧
  entries s2 !! cronEntryID j = Some (JobSchedule j, l).
Proof.
  intros Hok Hw Hp Hl Hj Hs Hr. unfold scheduleWorkflow, onEngine in Hs.
  set (l' := fresh (dom (heap (engine s)))) in *.
  assert (l ≠ l') as Hne.
  { intros ->. assert (heap (engine s) !! l' = None) by apply not_elem_of_dom, is_fresh. congruence. }
  set (s0 := allocateJob cf w l' s) in *. set (j' := jobSpecOf cf w).
  assert (heap (engine s0) !! l' = Some j') as Hj' by apply lookup_insert_eq.
  destruct (AddJob now l' (engine s0)) as [[e' r']|] eqn:Ha.
  2:{ unfold AddJob in Ha. rewrite Hj' in Ha. cbn in Ha. repeat case_match; done. }
  injection Hs as <- <- <-.
  apply (AddJob_inv _ _ _ _ _ _ Hj') in Ha as [(Hp' & _)|(_ & -> & c' & next & Hi & He & ->)].
  { change (JobSchedule j') with (Schedule (Def w)) in Hp'. congruence. }
  assert (entries s !! cronEntryID j = Some (JobSchedule j, l) ∧ (cronEntryID j ≤ cronIssued (cron (engine s)))%nat) as [Hold Hle].
  { destruct (so_jobs _ Hok _ l Hl) as (j0 & w0 & Hj0 & _ & Hid & _ & _ & _ & Hen). assert (j0 = j) as -> by congruence.
    destruct (eo_jobs _ (so_engine _ Hok) _ l Hl) as (j1 & Hj1 & Hid1 & _). assert (j1 = j) as -> by congruence.
    assert (registered (engine s) l j) as Hreg by (split; [by rewrite Hid1|done]).
    split; [|by eapply eo_issued; [apply (so_engine _ Hok)|]].
    apply (eo_entries _ (so_engine _ Hok)). by exists j. }
  unfold RemoveWorkflow, onEngine, RemoveJob in Hr. simpl in Hr.
  change (ID j') with (jobIDOf cf (WorkflowName w)) in Hr. rewrite !lookup_insert_eq in Hr. cbn in Hr.
  injection Hr as <- <- <-. simpl. split_and!; [done|done|by rewrite lookup_delete_eq|].
  destruct (remove_entries (S (cronIssued (cron (engine s)))) c') as [-> _]. rewrite He. simpl.
  rewrite lookup_delete_ne by lia. by rewrite lookup_insert_ne by lia.
Qed.
End sync.

(** ** The history *)

Section history.
Context {C : Type} (env : nat → Outcome) (cf : SchedulerConfig).
Implicit Types (s : SchedWorld C) (l : list StatusExecution).

Definition ofWorkflow (name : string) (l : list StatusExecution) : list StatusExecution :=
  filter (λ e, StatusWorkflow e = name) l.

Lemma executionsByWorkflow_of l name : default [] (executionsByWorkflow l !! name) = ofWorkflow name l.
Proof.
  unfold executionsByWorkflow, ofWorkflow. induction l as [|e l IH] using rev_ind; [simpl; by rewrite lookup_empty|].
  rewrite foldl_app, filter_app. cbn [foldl]. destruct (decide (StatusWorkflow e = name)) as [<-|Hne].
  - rewrite lookup_insert_eq, IH, filter_cons_True by done. done.
  - by rewrite lookup_insert_ne, IH, filter_cons_False, app_nil_r by done.
Qed.

(** The order in which a map is read lists each of its keys once. *)
Definition map_order (order : list StatusExecution → list string) : Prop :=
  ∀ l, NoDup (order l) ∧ ∀ name, is_Some (executionsByWorkflow l !! name) → name ∈ order l.

Lemma of_group name name' l : ofWorkflow name (lastN 10 (ofWorkflow name' l)) = if decide (name' = name) then lastN 10 (ofWorkflow name l) else [].
Proof.
  assert (Forall (λ e, StatusWorkflow e = name') (lastN 10 (ofWorkflow name' l))) as Hall.
  { unfold lastN. apply Forall_drop, Forall_forall. intros e. unfold ofWorkflow. rewrite list_elem_of_filter. tauto. }
  unfold ofWorkflow at 1. case_decide as E.
  - subst. by apply filter_every.
  - apply filter_none. eapply Forall_impl; [exact Hall|]. intros e <-. done.
Qed.

Lemma of_trimHistory order l name : map_order order → ofWorkflow name (trimHistory (order l) l) = lastN 10 (ofWorkflow name l).
Proof.
  intros Ho. destruct (Ho l) as [Hnd Hall]. unfold trimHistory.
  assert ((λ name, lastN 10 (default [] (executionsByWorkflow l !! name))) <$> order l =
    (λ name, lastN 10 (ofWorkflow name l)) <$> order l) as ->.
  { apply list_fmap_ext. intros i name' _. by rewrite executionsByWorkflow_of. }
  assert (∀ ks, NoDup ks → ofWorkflow name (concat ((λ name, lastN 10 (ofWorkflow name l)) <$> ks)) =
    if decide (name ∈ ks) then lastN 10 (ofWorkflow name l) else []) as ->; [| |done].
  - induction ks as [|k ks IH]; intros Hk; [by rewrite decide_False by apply not_elem_of_nil|].
    apply NoDup_cons in Hk as [Hk Hks]. rewrite fmap_cons. cbn [concat]. unfold ofWorkflow at 1. rewrite filter_app.
    change (ofWorkflow name (lastN 10 (ofWorkflow k l)) ++ ofWorkflow name (concat ((λ name, lastN 10 (ofWorkflow name l)) <$> ks)) =
      if decide (name ∈ k :: ks) then lastN 10 (ofWorkflow name l) else []).
    rewrite of_group, IH by done. repeat case_decide; rewrite ?app_nil_r; set_solver.
  - case_decide as Hin; [done|]. destruct (executionsByWorkflow l !! name) eqn:E.
    + destruct Hin. apply Hall. eauto.
    + rewrite <-executionsByWorkflow_of, E. done.
Qed.

(** What recording an execution may do to the resource. *)
Definition recorded order (x : Execution) (r r' : SchedulerResource) : Prop :=
  let all := WorkflowExecutions r ++ [statusExecution x] in
  SpecWorkflows r' = SpecWorkflows r ∧ WorkflowExecutions r' = trimHistory (order all) all.

Definition was_recorded order (x : Execution) s s' : Prop :=
  ∃ r r', resource s = Some r ∧ resource s' = Some r' ∧ recorded order x r r'.

Lemma updateWorkflowExecutionStatus_maybe order x s n :
  wp (updateWorkflowExecutionStatus env cf order x) (s, n)
    (λ _ y, resource y.1 = resource s ∨ was_recorded order x s y.1).
Proof.
  unfold updateWorkflowExecutionStatus. destruct (hasClient cf); [|by apply prog_ret; left].
  unfold getResource, updateStatus, putResource.
  apply prog_bind, wp_during, wp_call; cbn [fst snd]; [|by left..].
  destruct (resource s) as [r|] eqn:Hr; [|by left].
  apply wp_call; cbn [fst snd]; rewrite Hr; cbn [ResourceVersion]; rewrite ?decide_True by done;
    [|intros e; by left|intros e]; right; by eexists _, _.
Qed.

Lemma updateWorkflowExecutionStatus_works order x s n : hasClient cf = true → (∀ k, env k = Works) →
  is_Some (resource s) →
  wp (updateWorkflowExecutionStatus env cf order x) (s, n) (λ res y, res = Ok () ∧ was_recorded order x s y.1).
Proof.
  intros Hc He [r Hr]. unfold updateWorkflowExecutionStatus. rewrite Hc. unfold getResource, updateStatus, putResource.
  apply prog_bind, wp_during, wp_call_works; [done|]. cbn [fst snd]. rewrite Hr.
  apply wp_call_works; [done|]. cbn [fst snd]. rewrite Hr. cbn [ResourceVersion]. rewrite decide_True by done.
  split; [done|]. by eexists _, _.
Qed.

(** Recording an execution keeps, of every workflow, the last ten executions in the
    order in which they were recorded, the new one among them, whichever way the map
    of the workflows is read. *)
Theorem history_kept order x s n r : map_order order → hasClient cf = true → (∀ k, env k = Works) →
  resource s = Some r →
  ∃ s' n' r', updateWorkflowExecutionStatus env cf order x (s, n) = (Ok (), (s', n')) ∧
    resource s' = Some r' ∧ SpecWorkflows r' = SpecWorkflows r ∧
    ∀ name, ofWorkflow name (WorkflowExecutions r') =
      lastN 10 (ofWorkflow name (WorkflowExecutions r) ++ if decide (ExecWorkflow x = name) then [statusExecution x] else []).
Proof.
  intros Ho Hc He Hr.
  assert (is_Some (resource s)) as Hsome by eauto.
  pose proof (updateWorkflowExecutionStatus_works order x s n Hc He Hsome) as Hw. unfold wp in Hw.
  destruct (updateWorkflowExecutionStatus _ _ _ _ _) as [res [s' n']]. simpl in Hw.
  destruct Hw as [-> (r0 & r' & Hr0 & Hr' & Hspec & Hex)]. assert (r0 = r) as -> by congruence.
  exists s', n', r'. split; [done|]. split; [done|]. split; [done|]. intros name. rewrite Hex, of_trimHistory by done. f_equal.
  unfold ofWorkflow. by rewrite filter_app.
Qed.
End history.

(** ** Executions of workflows with long names *)

Section monitor.
Context {C : Type} `{!JobLib, !JobLaws} (env : nat → Outcome) (cf : SchedulerConfig).
Implicit Types (s : SchedWorld C).

(** The cluster of a tick has only the jobs that the scheduler made. *)
Definition tick_ok (e : MonitorEvent) : Prop :=
  match e with Tick _ c => ∃ c0, WorkflowJobs.jobs c0 = ∅ ∧ rtc cluster_step c0 c | _ => True end.

Definition is_tick (e : MonitorEvent) : bool := match e with Tick _ _ => true | _ => false end.

Section long.
Context (name : string) (t : Z).
Hypotheses (Hten : ten_digits t) (Hbytes : nameBytes name = true) (Hlong : (9 < String.length name)%nat).

Lemma monitorTick_long arrives now c x c0 n : tick_ok (Tick now c) →
  ∃ y, monitorTick env arrives name (executionID name t) now c x (c0, n) = (Ok None, y).
Proof.
  intros (c1 & Hc1 & Hrun). unfold monitorTick, observe, mbind, Prog_bind, attempt.
  destruct (scheduled_status env c1 c n name t Hc1 Hrun Hten Hbytes) as [_ Herr]. specialize (Herr Hlong).
  destruct (GetWorkflowJobStatus _ _ _ _) as [[status|e] y]; [done|]. by eexists.
Qed.

Lemma monitorLoop_long arrives x events c0 n : Forall tick_ok events →
  ∃ o y, monitorLoop env arrives name (executionID name t) x events (c0, n) = (Ok o, y) ∧
    (o = None ∨ ∃ now, o = Some (endedExecution now "Failed" "Job execution timed out" x)) ∧
    (∀ ticks now rest, events = ticks ++ TimedOut now :: rest → Forall (λ e, is_tick e = true) ticks →
       o = Some (endedExecution now "Failed" "Job execution timed out" x)).
Proof.
  intros Hall. revert c0 n. induction Hall as [|e events He Hall IH]; intros c0 n.
  { eexists _, _. split; [done|]. split; [by left|]. intros [|? ?]; done. }
  destruct e as [now c|now|].
  - destruct (monitorTick_long arrives now c x c0 n He) as [[c' n'] Htick].
    destruct (IH c' n') as (o & y & Hrun & Ho & Hto). exists o, y. split.
    { cbn [monitorLoop]. unfold mbind, Prog_bind. by rewrite Htick. }
    split; [done|]. intros [|e ticks] now' rest Hev Hticks; simplify_eq/=.
    apply Forall_cons in Hticks as [_ Hticks]. by eapply Hto.
  - eexists _, _. split; [done|]. split; [right; by eexists|].
    intros [|e ticks] now' rest Hev Hticks; simplify_eq/=; [done|]. by apply Forall_cons in Hticks as [? _].
  - eexists _, _. split; [done|]. split; [by left|].
    intros [|e ticks] now' rest Hev Hticks; simplify_eq/=. by apply Forall_cons in Hticks as [? _].
Qed.

(** Of an execution of a workflow whose name has more than nine bytes nothing but a
    failure is ever recorded, "Job execution timed out", whatever became of its job; and
    that is recorded when the time is over. *)
Theorem long_names_time_out arrives order m events s n :
  ExecWorkflow (MonitorExecution m) = name → ExecID (MonitorExecution m) = executionID name t →
  Forall tick_ok events →
  let timeout now := endedExecution now "Failed" "Job execution timed out" (MonitorExecution m) in
  let s' := (monitorJobAndUpdateStatus env cf arrives order m events (s, n)).2.1 in
  (resource s' = resource s ∨ ∃ now, was_recorded order (timeout now) s s') ∧
  (∀ ticks now rest, events = ticks ++ TimedOut now :: rest → Forall (λ e, is_tick e = true) ticks →
     hasClient cf = true → (∀ k, env k = Works) → is_Some (resource s) → was_recorded order (timeout now) s s').
Proof.
  intros Hname Hid Hall timeout s'.
  destruct (monitorLoop_long arrives (MonitorExecution m) events (cluster s) n Hall) as (o & [c' n'] & Hrun & Ho & Hto).
  assert (s' = (match o with None => mret () | Some x' =>
    attempt (updateWorkflowExecutionStatus env cf order x');; mret () end (set_cluster c' s, n')).2.1) as ->.
  { unfold s', monitorJobAndUpdateStatus, onCluster, on, mbind, Prog_bind. rewrite Hname, Hid, Hrun. by destruct o. }
  assert (∀ x', was_recorded order x' (set_cluster c' s) = was_recorded order x' s) as Hsame by done.
  split.
  - destruct Ho as [->|[now ->]]; [by left|].
    pose proof (updateWorkflowExecutionStatus_maybe env cf order (timeout now) (set_cluster c' s) n') as Hw. unfold wp in Hw.
    unfold mbind, Prog_bind, attempt. destruct (updateWorkflowExecutionStatus _ _ _ _ _) as [r [s2 n2]]. simpl in Hw |- *.
    destruct Hw as [Hw|Hw]; [by left|]. right. by exists now.
  - intros ticks now rest Hev Hticks Hc He Hr. rewrite (Hto _ _ _ Hev Hticks).
    pose proof (updateWorkflowExecutionStatus_works env cf order (timeout now) (set_cluster c' s) n' Hc He Hr) as Hw.
    unfold wp in Hw. unfold mbind, Prog_bind, attempt.
    destruct (updateWorkflowExecutionStatus _ _ _ _ _) as [r [s2 n2]]. apply Hw.
Qed.
End long.
End monitor.

(** ** Starting *)

Section start.
Context {C : Type} `{CronLib C} `{!JobLib} `{!Codec} `{!SchedulerLib}.
Context (env : nat → Outcome) (delivered : nat → option nat) (cf : SchedulerConfig).
Implicit Types (s : SchedWorld C).

(** Programs that leave the resource alone. *)
Definition keeps {A} (m : Prog (SchedWorld C) A) : Prop :=
  ∀ s n, wp m (s, n) (λ _ y, resource y.1 = resource s).

Lemma keeps_ret {A} (a : A) : keeps (mret a).
Proof. done. Qed.

Lemma keeps_bind {A B} (m : Prog (SchedWorld C) A) (f : A → Prog (SchedWorld C) B) :
  keeps m → (∀ a, keeps (f a)) → keeps (m ≫= f).
Proof.
  intros Hm Hf s n. apply prog_bind. eapply prog_mono; [apply Hm|]. intros [a|e] [s' n'] Hs; simpl in *; [|done].
  eapply prog_mono; [apply Hf|]. intros r x Hx. congruence.
Qed.

Lemma keeps_attempt {A} (m : Prog (SchedWorld C) A) : keeps m → keeps (attempt m).
Proof. intros Hm s n. apply wp_attempt. apply Hm. Qed.

Lemma keeps_each {A} (f : A → Prog (SchedWorld C) ()) l : (∀ a, keeps (f a)) → keeps (each f l).
Proof. intros Hf. induction l as [|a l IH]; simpl; [apply keeps_ret|]. by apply keeps_bind. Qed.

Lemma keeps_onDatabase {A} (m : Prog Database A) : keeps (onDatabase m).
Proof. intros s n. apply wp_on. by destruct (m _) as [r [db n']]. Qed.

Lemma keeps_scheduleWorkflow now w : keeps (scheduleWorkflow cf now w).
Proof.
  intros s n. unfold wp, scheduleWorkflow, onEngine. by destruct (AddJob _ _ _) as [[e r]|].
Qed.

Lemma keeps_then_ret {A} (m : Prog (SchedWorld C) A) : keeps m → keeps (attempt m;; mret ()).
Proof. intros Hm. apply keeps_bind; [by apply keeps_attempt|intros; apply keeps_ret]. Qed.

Lemma each_attempt_works {A} (f : A → Prog (SchedWorld C) ()) l s n :
  wp (each (λ a, attempt (f a);; mret ()) l) (s, n) (λ r _, r = Ok ()).
Proof.
  revert s n. induction l as [|a l IH]; intros s n; simpl; [done|].
  apply prog_bind, prog_bind, wp_attempt. unfold wp at 1. destruct (f a (s, n)) as [r [s' n']]. cbn [fst snd]. apply IH.
Qed.

(** A pass over the resource that can be read schedules what it can and succeeds. *)
Lemma syncWorkflowsFromCRD_works now s n : (∀ k, env k = Works) → hasClient cf = true → is_Some (resource s) →
  wp (syncWorkflowsFromCRD env delivered cf now) (s, n) (λ r y, r = Ok () ∧ resource y.1 = resource s).
Proof.
  intros He Hc [r Hr]. unfold syncWorkflowsFromCRD. rewrite Hc.
  apply prog_bind, wp_during. unfold getResource. apply wp_call_works; [done|]. cbn [fst snd]. rewrite Hr.
  assert (∀ s' n', resource s' = Some r →
    wp (each (λ w, attempt (scheduleWorkflow cf now w);; mret ()) (filter (λ w, wanted w = true) (SpecWorkflows r)))
      (s', n') (λ res y, res = Ok () ∧ resource y.1 = Some r)) as Hrest.
  { intros s' n' Hr'. apply wp_and; [apply each_attempt_works|]. rewrite <-Hr'. apply keeps_each. intros w.
    apply keeps_then_ret, keeps_scheduleWorkflow. }
  apply prog_bind. destruct (hasStore cf); [|by apply prog_ret, Hrest].
  apply prog_bind, wp_attempt. eapply prog_mono; [apply keeps_onDatabase|]. intros res [s' n'] Hs'. simpl in Hs'.
  apply prog_ret, Hrest. congruence.
Qed.

(** When the scheduler starts with a store that holds any workflow, the list of
    workflows in the resource becomes that of the store: what was added to it or changed in
    it since is gone. *)
Theorem start_takes_stored now s n r records : (∀ k, env k = Works) → hasClient cf = true → hasStore cf = true →
  schedStarted s = false → resource s = Some r →
  (ListWorkflows env delivered (database s, n)).1 = Ok records → records ≠ [] →
  ∃ s' n' r', Start env delivered cf now (s, n) = (Ok (), (s', n')) ∧ schedStarted s' = true ∧
    resource s' = Some r' ∧ SpecWorkflows r' = ToCRDWorkflowDefinition <$> records ∧
    WorkflowExecutions r' = WorkflowExecutions r.
Proof.
  intros He Hc Hst Hstart Hr Hlist Hne.
  assert (wp (Start env delivered cf now) (s, n) (λ res y, res = Ok () ∧ schedStarted y.1 = true ∧
    ∃ r', resource y.1 = Some r' ∧ SpecWorkflows r' = ToCRDWorkflowDefinition <$> records ∧
      WorkflowExecutions r' = WorkflowExecutions r)) as Hw.
  2:{ unfold wp in Hw. destruct (Start _ _ _ _ _) as [res [s' n']]. simpl in Hw.
      destruct Hw as (-> & Hs' & r' & Hr' & I1 & I2). eauto 10. }
  set (s0 := set_engine (CronEngine.Start (engine s)) s).
  set (r' := {| SpecWorkflows := ToCRDWorkflowDefinition <$> records; WorkflowExecutions := WorkflowExecutions r;
                ResourceVersion := S (ResourceVersion r) |}).
  assert (wp (syncWorkflowsFromPostgreSQLToCRD env delivered cf) (s0, n) (λ _ y, resource y.1 = Some r')) as Hpg.
  { unfold syncWorkflowsFromPostgreSQLToCRD. rewrite Hc, Hst. cbn [andb]. apply prog_bind, wp_during, wp_on.
    change (database s0) with (database s). destruct (ListWorkflows _ _ _) as [res [db n1]]. simpl in Hlist. subst res.
    destruct records as [|rec records]; [done|].
    unfold getResource, updateSpec, putResource. apply prog_bind, wp_during, wp_call_works; [done|]. cbn [fst snd].
    change (resource (set_database db s0)) with (resource s). rewrite Hr.
    apply wp_during, wp_call_works; [done|]. cbn [fst snd].
    change (resource (set_database db s0)) with (resource s). rewrite Hr. cbn [ResourceVersion].
    by rewrite decide_True by done. }
  unfold wp at 1, Start. rewrite Hstart. change (wp (startEngine;; (if hasStore cf then
      attempt (syncWorkflowsFromPostgreSQLToCRD env delivered cf);; mret () else mret ());;
    syncWorkflowsFromCRD env delivered cf now;; markStarted cf) (s, n)
    (λ res y, res = Ok () ∧ schedStarted y.1 = true ∧ ∃ r', resource y.1 = Some r' ∧
      SpecWorkflows r' = ToCRDWorkflowDefinition <$> records ∧ WorkflowExecutions r' = WorkflowExecutions r)).
  apply prog_bind. unfold wp at 1, startEngine. cbn [fst snd]. fold s0. rewrite Hst.
  apply prog_bind, prog_bind, wp_attempt. eapply prog_mono; [exact Hpg|]. intros res [s1 n1] Hs1. simpl in Hs1.
  apply prog_ret, prog_bind. eapply prog_mono; [apply syncWorkflowsFromCRD_works; eauto|].
  intros res' [s2 n2] [-> Hs2]. simpl in Hs2. unfold wp, markStarted. cbn [fst snd resource schedStarted].
  split; [done|]. split; [done|]. exists r'. split; [congruence|done].
Qed.
End start.

(** ** Examples *)
#[local] Existing Instances StoreExamples.plainCodec JobExamples.plainJobs JobExamples.plainJobLaws.

#[export] Instance plainScheduler : SchedulerLib := {
  LoadLocation zone := bool_decide (zone = "UTC");
  quoted s := byte1 dquote +:+ s +:+ byte1 dquote;
  cronParseError _ := "not five fields";
}.

Definition mateyConfig : SchedulerConfig :=
  {| Namespace := "matey"; hasClient := true; hasStore := true; enableDeletionSync := true |}.

(** A workflow of one greeting. *)
Definition greeter (name schedule : string) : Workflow :=
  {| WorkflowName := name;
     Def := {| Schedule := schedule; Steps := [JobExamples.greeting "all is well"]; WfTimeout := "1h" |};
     WorkflowTimezone := ""; WorkflowEnabled := true; ConcurrencyPolicy := "Allow";
     WorkflowParameters := ∅; WorkflowRetry := None; Tags := []; Description := "";
     ManualExecution := false; Workspace := None |}.

Definition allWork : nat → Outcome := λ _, Works.
Definition emptyScheduler : SchedWorld MapCron :=
  newScheduler JobExamples.emptyCluster emptyDatabase
    (Some {| SpecWorkflows := [greeter "report" "0 2 * * *"]; WorkflowExecutions := []; ResourceVersion := 1 |}).

Definition syncs : list (SchedOp) := [
  OpSync 0 (greeter "report" "0 2 * * *"); OpSync 0 (greeter "backup" "0 3 * * *"); OpEngineStart;
  OpSync 0 (greeter "report" "0 4 * * *"); OpRemove "backup"; OpSync 0 (greeter "broken" "soon") ].

(** The schedule that was synchronised last is in force, once; what was removed is gone. *)
Lemma library_follows_sync_witness :
  let s := foldl (λ s op, runSchedOp mateyConfig op s) emptyScheduler syncs in
  (∃ id l w, cronEntries (cron (engine s)) !! id = Some ("0 4 * * *", l) ∧ handlers s !! l = Some w ∧
     WorkflowName w = "report" ∧ Schedule (Def w) = "0 4 * * *" ∧
     ∀ id' expr' l' w', cronEntries (cron (engine s)) !! id' = Some (expr', l') → handlers s !! l' = Some w' →
       WorkflowName w' = "report" → id' = id) ∧
  size (cronEntries (cron (engine s))) = 1%nat.
Proof.
  intros s. split; [|by vm_compute].
  apply (library_follows_sync mateyConfig syncs JobExamples.emptyCluster emptyDatabase
    (Some {| SpecWorkflows := [greeter "report" "0 2 * * *"]; WorkflowExecutions := []; ResourceVersion := 1 |})
    "report"). by vm_compute.
Defined.

(** Started, stopped, started again. *)
Definition restarted : SchedWorld MapCron * nat :=
  let start w := (Start allWork (λ _, None) mateyConfig 0 w).2 in
  let w := start (emptyScheduler, 0%nat) in
  start (Stop w.1, w.2).

(** Every workflow has two entries then, and keeps one when it is removed. *)
Example restart_doubles :
  size (cronEntries (cron (engine restarted.1))) = 2%nat ∧
  (let removed := (RemoveWorkflow mateyConfig "report" restarted).2.1 in
   size (CronEngine.jobs (engine removed)) = 0%nat ∧ size (cronEntries (cron (engine removed))) = 1%nat).
Proof. by vm_compute. Qed.

Definition synced : SchedWorld MapCron :=
  runSchedOp mateyConfig (OpSync 0 (greeter "report" "0 2 * * *")) emptyScheduler.
Definition again : SchedWorld MapCron * nat :=
  (scheduleWorkflow mateyConfig 0 (greeter "report" "0 2 * * *") (synced, 0%nat)).2.

Lemma rescheduled_runs_on_witness :
  let removed := (RemoveWorkflow mateyConfig "report" again).2.1 in
  CronEngine.jobs (engine removed) !! "matey/report" = None ∧
  cronEntries (cron (engine removed)) !! 1%nat = Some ("0 2 * * *", 0%nat).
Proof.
  destruct (newScheduler_ok mateyConfig JobExamples.emptyCluster emptyDatabase
    (Some {| SpecWorkflows := [greeter "report" "0 2 * * *"]; WorkflowExecutions := []; ResourceVersion := 1 |}))
    as [Hok Ha].
  destruct (runSchedOp_ok mateyConfig (OpSync 0 (greeter "report" "0 2 * * *")) _ _ Hok Ha) as [Hok' _].
  destruct (heap (engine synced) !! 0%nat) as [j|] eqn:Hj; [|by vm_compute in Hj].
  assert (JobSchedule j = "0 2 * * *" ∧ cronEntryID j = 1%nat) as [Hs Hid]
    by (revert Hj; vm_compute; by intros [= <-]).
  destruct (rescheduled_runs_on mateyConfig 0 (greeter "report" "0 2 * * *") synced 0%nat
    (scheduleWorkflow mateyConfig 0 (greeter "report" "0 2 * * *") (synced, 0%nat)).1 again.1 again.2
    (RemoveWorkflow mateyConfig "report" again).1 (RemoveWorkflow mateyConfig "report" again).2.1
    (RemoveWorkflow mateyConfig "report" again).2.2 0%nat j) as (_ & _ & H1 & H2);
    [exact Hok'|by vm_compute..|exact Hj|by vm_compute|by vm_compute|].
  split; [exact H1|]. by rewrite <-Hid, <-Hs.
Defined.

(** The names in the order of the list, each once. *)
Definition inOrder (l : list StatusExecution) : list string := remove_dups (StatusWorkflow <$> l).

Lemma inOrder_map : map_order inOrder.
Proof.
  intros l. split; [apply NoDup_remove_dups|]. intros name [es Hes]. apply elem_of_remove_dups.
  pose proof (executionsByWorkflow_of l name) as Hof. rewrite Hes in Hof. simpl in Hof.
  assert (∀ l name es, executionsByWorkflow l !! name = Some es → name ∈ StatusWorkflow <$> l) as Hin; [|by eapply Hin].
  clear. unfold executionsByWorkflow. intros l. induction l as [|e l IH] using rev_ind; intros name es.
  - simpl. by rewrite lookup_empty.
  - rewrite foldl_app, fmap_app. cbn [foldl]. rewrite lookup_insert_Some. intros [[<- _]|[_ Hn]]; set_solver.
Qed.

Definition tenth (n : nat) : Execution :=
  startedExecution 0 (greeter "report" "0 2 * * *") ("report-" +:+ Itoa (Z.of_nat n)).
Definition recordTwelve : SchedWorld MapCron * nat :=
  foldl (λ w n, (updateWorkflowExecutionStatus allWork mateyConfig inOrder (tenth n) w).2) (emptyScheduler, 0%nat) (seq 0 12).

Lemma history_kept_witness :
  ∃ s' n' r', updateWorkflowExecutionStatus allWork mateyConfig inOrder (tenth 12) recordTwelve = (Ok (), (s', n')) ∧
    resource s' = Some r' ∧
    StatusExecID <$> ofWorkflow "report" (WorkflowExecutions r') =
      (λ n, "report-" +:+ Itoa (Z.of_nat n)) <$> seq 3 10.
Proof.
  destruct (resource recordTwelve.1) as [r|] eqn:Hr; [|by vm_compute in Hr].
  destruct (history_kept allWork mateyConfig inOrder (tenth 12) recordTwelve.1 recordTwelve.2 r inOrder_map eq_refl
    (λ k, eq_refl) Hr) as (s' & n' & r' & Hrun & Hr' & _ & Hof).
  exists s', n', r'. split; [rewrite <-Hrun; by destruct recordTwelve|]. split; [exact Hr'|]. rewrite (Hof "report").
  revert Hr. vm_compute. by intros [= <-].
Defined.

(** The job of a workflow with a long name, which succeeds. *)
Definition longNamed : Workflow := greeter "nightly-report" "0 2 * * *".
Definition finishedCluster : JobCluster :=
  let c := (ExecuteWorkflowAsJob allWork "matey" 0 longNamed "nightly-report"
              (executionID "nightly-report" 1700000000) (JobExamples.emptyCluster, 0%nat)).2.1 in
  with_jobs ((λ j, {| JobLabels := JobLabels j; JobAnnotations := JobAnnotations j; BackoffLimit := BackoffLimit j;
    ActiveDeadlineSeconds := ActiveDeadlineSeconds j; JobImage := JobImage j; JobCommand := JobCommand j;
    JobArgs := JobArgs j; JobEnv := JobEnv j; JobResources := JobResources j; JobMounts := JobMounts j;
    JobVolumes := JobVolumes j; JobCreated := JobCreated j;
    JobState := {| Active := 0; Succeeded := 1; Failed := 0; StartTime := Some 0; CompletionTime := Some 60 |} |})
    <$> WorkflowJobs.jobs c) c.

Lemma finished_tick now : tick_ok (Tick now finishedCluster).
Proof.
  exists JobExamples.emptyCluster. split; [done|].
  eapply rtc_l; [apply (StepSubmit _ allWork "matey" 0 longNamed "nightly-report" 1700000000 0 JobExamples.ten)|].
  apply rtc_once, StepOther. intros jn job. unfold finishedCluster. simpl. rewrite lookup_fmap_Some.
  intros (job0 & <- & Hj). exists job0. by split.
Qed.

Definition longMonitor : Monitor :=
  {| MonitorWorkflow := longNamed;
     MonitorExecution := startedExecution 0 longNamed (executionID "nightly-report" 1700000000);
     MonitorDeadline := 3600 * 10 ^ 9 |}.
Definition longEvents : list MonitorEvent := [Tick 10 finishedCluster; Tick 20 finishedCluster; TimedOut 30].

(** The job has succeeded; what is recorded is that it timed out. *)
Lemma long_names_time_out_witness :
  let s' := (monitorJobAndUpdateStatus allWork mateyConfig (λ _, None) inOrder longMonitor longEvents
               (emptyScheduler, 0%nat)).2.1 in
  was_recorded inOrder
    (endedExecution 30 "Failed" "Job execution timed out" (MonitorExecution longMonitor)) emptyScheduler s' ∧
  (λ j, Succeeded (JobState j.2)) <$> map_to_list (WorkflowJobs.jobs finishedCluster) = [1].
Proof.
  split; [|by vm_compute].
  apply (long_names_time_out allWork mateyConfig "nightly-report" 1700000000 JobExamples.ten eq_refl
    ltac:(by apply Nat.ltb_lt; vm_compute) (λ _, None) inOrder longMonitor longEvents emptyScheduler 0%nat eq_refl eq_refl)
    with (ticks := [Tick 10 finishedCluster; Tick 20 finishedCluster]) (rest := []); try done.
  - repeat constructor; apply finished_tick.
  - by repeat constructor.
Defined.

(** A store with one workflow, and a resource to which another was added. *)
Definition editedResource : SchedulerResource :=
  {| SpecWorkflows := [StoreExamples.independent; StoreExamples.dependent; greeter "report" "0 2 * * *"];
     WorkflowExecutions := []; ResourceVersion := 1 |}.
Definition storedScheduler : SchedWorld MapCron :=
  newScheduler JobExamples.emptyCluster StoreExamples.stored.1 (Some editedResource).

Lemma start_takes_stored_witness :
  ∃ s' n' r', Start allWork (λ _, None) mateyConfig 0 (storedScheduler, 0%nat) = (Ok (), (s', n')) ∧
    resource s' = Some r' ∧ WorkflowName <$> SpecWorkflows r' = ["backup"].
Proof.
  destruct (ListWorkflows allWork (λ _, None) (database storedScheduler, 0%nat)).1 as [records|e] eqn:Hl;
    [|by vm_compute in Hl].
  assert (RecordName <$> records = ["backup"]) as Hn by (revert Hl; vm_compute; by intros [= <-]).
  assert (records ≠ []) as Hne by (clear Hl; by intros ->).
  pose proof (start_takes_stored allWork (λ _, None) mateyConfig 0 storedScheduler 0%nat editedResource records
    (λ k, eq_refl) eq_refl eq_refl eq_refl eq_refl Hl Hne) as (s' & n' & r' & Hrun & _ & Hr' & Hspec & _).
  exists s', n', r'. split; [exact Hrun|]. split; [exact Hr'|]. rewrite Hspec, <-list_fmap_compose, <-Hn.
  by apply list_fmap_ext.
Defined.

(** A pass of the watch does not schedule what was added to the resource. *)
Example watch_schedules_nothing :
  size (cronEntries (cron (engine (checkCRDChanges allWork (λ _, None) mateyConfig None (emptyScheduler, 0%nat)).2.1))) = 0%nat.
Proof. by vm_compute. Qed.
