(* ===== verification/EventTriggers.v ===== *)
(** * Workflows that events start

    internal/controllers/mcptaskscheduler_controller.go, from [setupEventWatching] to
    [triggerWorkflow]: for each trigger of kind k8s-event a goroutine lists the events of the
    namespace every thirty seconds, and makes a Kubernetes job for those that match and have
    come since.  What has come since is told by comparing resource versions as texts.  The
    jobs are those of WorkflowJobs; owner references are left out. *)
From stdpp Require Import pretty.
From S2P Require Import Prelude GoString GoNum Calls Workflows WorkflowJobs.

#[local] Open Scope Z_scope.

Set Default Proof Using "Type*".

(** ** Data *)

(** The fields of a Kubernetes event that are read; [EventVersion] is its resource version. *)
Record KubernetesEvent := {
  EventName : string;
  EventNamespace : string;
  InvolvedKind : string;
  EventReason : string;
  EventMessage : string;
  EventType : string;
  EventVersion : string;
}.

Record KubernetesEventConfig := {
  Kind : string;
  Reason : string;
  EventsNamespace : string;
  LabelSelector : string;
  FieldSelector : string;
}.

Record TriggerCondition := { Field : string; Operator : string; CondValue : string }.

(** The settings of the other kinds of trigger, webhook and file-watch, are read nowhere. *)
Record EventTrigger := {
  TriggerType : string;
  TriggerName : string;
  TriggerWorkflow : string;
  TriggerEvent : option KubernetesEventConfig;
  TriggerConditions : list TriggerCondition;
  CooldownDuration : string;
}.

(** ** Matching *)

Definition eventField (event : KubernetesEvent) (field : string) : option string :=
  if decide (field = "reason") then Some (EventReason event)
  else if decide (field = "message") then Some (EventMessage event)
  else if decide (field = "type") then Some (EventType event)
  else if decide (field = "namespace") then Some (EventNamespace event)
  else if decide (field = "name") then Some (EventName event)
  else None.

Definition evaluateCondition (event : KubernetesEvent) (condition : TriggerCondition) : bool :=
  match eventField event (Field condition) with
  | None => false
  | Some fieldValue =>
      let operator := Operator condition in
      if decide (operator = "equals") then bool_decide (fieldValue = CondValue condition)
      else if decide (operator = "contains") then Contains fieldValue (CondValue condition)
      else if decide (operator = "startsWith") then HasPrefix fieldValue (CondValue condition)
      else if decide (operator = "endsWith") then HasSuffix fieldValue (CondValue condition)
      else false
  end.

(** A filter that is not set lets everything through. *)
Definition passes (filter value : string) : bool := bool_decide (filter = "") || bool_decide (value = filter).

(** Called only for triggers that have a [TriggerEvent]. *)
Definition matchesEventTrigger (event : KubernetesEvent) (trigger : EventTrigger) : bool :=
  match TriggerEvent trigger with
  | None => false
  | Some k8sEvent =>
      passes (Kind k8sEvent) (InvolvedKind event) && passes (Reason k8sEvent) (EventReason event) &&
      passes (EventsNamespace k8sEvent) (EventNamespace event) &&
      forallb (evaluateCondition event) (TriggerConditions trigger)
  end.

(** A goroutine: its trigger and the version that it has read last, none at first. *)
Record Watcher := { Watched : EventTrigger; lastResourceVersion : string }.

(** [event.ResourceVersion <= lastResourceVersion], of texts. *)
Definition processed (last : string) (event : KubernetesEvent) : bool :=
  negb (bool_decide (last = "")) && String.leb (EventVersion event) last.

(** The events of a list that start the workflow. *)
Definition due (trigger : EventTrigger) (last : string) (events : list KubernetesEvent) : list KubernetesEvent :=
  filter (λ e, negb (processed last e) && matchesEventTrigger e trigger = true) events.

(** The version that is read last. *)
Definition lastVersion (last : string) (events : list KubernetesEvent) : string :=
  match list.last events with Some e => EventVersion e | None => last end.

Section triggers.
Context `{!JobLib} (env : nat → Outcome) (clock : nat → Z).
(** The resource: its name, namespace and port. *)
Context (name namespace : string) (port : Z).

(** [time.Now().Unix()] of a time in nanoseconds. *)
Definition Unix (t : Z) : Z := t / 10 ^ 9.

Definition triggerJobName (trigger : EventTrigger) (t : Z) : string :=
  name +:+ "-" +:+ TriggerName trigger +:+ "-" +:+ Itoa (Unix t).

(** What the server makes of the fields that are not set: six retries. *)
Definition triggeredJob (trigger : EventTrigger) (event : KubernetesEvent) (t : Z) : Job :=
  {| JobLabels := {[
       "app.kubernetes.io/name" := "task-scheduler"; "app.kubernetes.io/instance" := name;
       "app.kubernetes.io/component" := "triggered-workflow"; "app.kubernetes.io/managed-by" := "matey";
       "mcp.matey.ai/scheduler" := name; "mcp.matey.ai/trigger" := TriggerName trigger;
       "mcp.matey.ai/workflow" := TriggerWorkflow trigger ]};
     JobAnnotations := ∅; BackoffLimit := 6; ActiveDeadlineSeconds := None;
     JobImage := "mcpcompose/task-scheduler:latest";
     JobCommand := ["/app/trigger-workflow"; "--workflow"; TriggerWorkflow trigger; "--scheduler"; name;
                    "--trigger"; TriggerName trigger; "--event-name"; EventName event;
                    "--event-reason"; EventReason event];
     JobArgs := [];
     JobEnv := [("NAMESPACE", namespace); ("SCHEDULER_URL", "http://" +:+ name +:+ ":" +:+ Itoa port)];
     JobResources := ∅; JobMounts := []; JobVolumes := []; JobCreated := t;
     JobState := {| Active := 0; Succeeded := 0; Failed := 0; StartTime := None; CompletionTime := None |} |}.

(** The clock is read before the call: [clock n] is the time of the call after [n]. *)
Definition triggerWorkflow (trigger : EventTrigger) (event : KubernetesEvent) : Prog JobCluster () := λ '(c, n),
  createJob env (triggerJobName trigger (clock n)) (triggeredJob trigger event (clock n)) (c, n).

Definition processEvent (trigger : EventTrigger) (last : string) (event : KubernetesEvent) : Prog JobCluster () :=
  if processed last event then mret ()
  else if matchesEventTrigger event trigger then attempt (triggerWorkflow trigger event);; mret ()
  else mret ().

(** A tick of the clock of a watcher, when the server lists [events]. *)
Definition poll (events : list KubernetesEvent) (w : Watcher) : Prog JobCluster Watcher :=
  listed ← attempt (call env (λ c, (Ok events, c)));
  match listed with
  | Err _ => mret w
  | Ok events =>
      each (processEvent (Watched w) (lastResourceVersion w)) events;;
      mret {| Watched := Watched w; lastResourceVersion := lastVersion (lastResourceVersion w) events |}
  end.

Fixpoint polls (listings : list (list KubernetesEvent)) (w : Watcher) : Prog JobCluster Watcher :=
  match listings with
  | [] => mret w
  | events :: rest => w ← poll events w; polls rest w
  end.
End triggers.

(** [watchEvents]: a goroutine for each trigger of the kind. *)
Definition watchEvents (triggers : list EventTrigger) : list Watcher :=
  (λ trigger, {| Watched := trigger; lastResourceVersion := "" |}) <$>
    filter (λ trigger, TriggerType trigger = "k8s-event" ∧ is_Some (TriggerEvent trigger)) triggers.

(** [setupEventWatching]: the watchers that ran are cancelled, and new ones started. *)
Definition setupEventWatching (disableEventWatch : bool) (triggers : list EventTrigger)
    (watchers : option (list Watcher)) : option (list Watcher) :=
  if disableEventWatch then watchers
  else match triggers with [] => None | _ => Some (watchEvents triggers) end.

(** ** Versions as texts *)

Section decimals.

(** Decimals with the same number of digits are ordered as their numbers. *)
Lemma compare_decimals k n m s t :
  (10 ^ N.of_nat k ≤ n < 10 ^ N.of_nat (S k))%N → (10 ^ N.of_nat k ≤ m < 10 ^ N.of_nat (S k))%N →
  String.compare (pretty_N_go n s) (pretty_N_go m t) =
    match N.compare n m with Eq => String.compare s t | o => o end.
Proof using.
  revert n m s t. induction k as [|k IH]; intros n m s t Hn Hm.
  - assert (∀ a b : N, (1 ≤ a < 10)%N → (1 ≤ b < 10)%N →
      String.compare (pretty_N_go a s) (pretty_N_go b t) = match N.compare a b with Eq => String.compare s t | o => o end)
      as Hd; [|apply Hd; simpl in *; lia].
    intros a b Ha Hb.
    assert (∀ a s, (1 ≤ a < 10)%N → pretty_N_go a s = String (pretty_N_char a) s) as Hone.
    { intros a' s' Ha'. rewrite pretty_N_go_step by lia. rewrite N.div_small, N.mod_small by lia.
      by rewrite pretty_N_go_0. }
    rewrite !Hone by done. clear Hone Hn Hm n m.
    assert (a ∈ [1;2;3;4;5;6;7;8;9]%N) as Ha' by (rewrite !elem_of_cons; lia).
    assert (b ∈ [1;2;3;4;5;6;7;8;9]%N) as Hb' by (rewrite !elem_of_cons; lia).
    clear Ha Hb. repeat (apply elem_of_cons in Ha' as [->|Ha']);
      repeat (apply elem_of_cons in Hb' as [->|Hb']); try done; by apply elem_of_nil in Ha' || by apply elem_of_nil in Hb'.
  - rewrite !Nat2N.inj_succ, !N.pow_succ_r' in Hn, Hm.
    assert (10 ^ N.of_nat k ≠ 0)%N by by apply N.pow_nonzero.
    rewrite pretty_N_go_step by lia. rewrite (pretty_N_go_step m) by lia.
    assert (∀ x, (10 * 10 ^ N.of_nat k ≤ x < 10 * (10 * 10 ^ N.of_nat k))%N →
      (10 ^ N.of_nat k ≤ x `div` 10 < 10 ^ N.of_nat (S k))%N) as Hdiv.
    { intros x Hx. rewrite Nat2N.inj_succ, N.pow_succ_r'.
      split; [apply N.div_le_lower_bound; lia|apply N.Div0.div_lt_upper_bound; lia]. }
    rewrite IH by (apply Hdiv; lia). simpl.
    pose proof (N.div_mod n 10 ltac:(lia)) as En. pose proof (N.div_mod m 10 ltac:(lia)) as Em.
    pose proof (N.mod_lt n 10 ltac:(lia)) as Ln. pose proof (N.mod_lt m 10 ltac:(lia)) as Lm.
    set (r := (n `mod` 10)%N) in *. set (r' := (m `mod` 10)%N) in *.
    destruct (N.compare_spec (n `div` 10) (m `div` 10)) as [E|L|G].
    + assert (Ascii.compare (pretty_N_char r) (pretty_N_char r') = N.compare r r') as ->.
      { clear -Ln Lm.
        assert (r ∈ [0;1;2;3;4;5;6;7;8;9]%N) as Ha' by (rewrite !elem_of_cons; lia).
        assert (r' ∈ [0;1;2;3;4;5;6;7;8;9]%N) as Hb' by (rewrite !elem_of_cons; lia).
        clearbody r r'. repeat (apply elem_of_cons in Ha' as [->|Ha']);
          repeat (apply elem_of_cons in Hb' as [->|Hb']); try done; by apply elem_of_nil in Ha' || by apply elem_of_nil in Hb'. }
      assert (N.compare n m = N.compare r r') as ->; [|done].
      destruct (N.compare_spec r r');
        [apply N.compare_eq_iff|apply N.compare_lt_iff|apply N.compare_gt_iff]; lia.
    + assert (N.compare n m = Lt) as -> by (apply N.compare_lt_iff; lia). done.
    + assert (N.compare n m = Gt) as -> by (apply N.compare_gt_iff; lia). done.
Qed.

(** A version with [S k] digits. *)
Definition numbered (k : nat) (e : KubernetesEvent) (v : Z) : Prop :=
  EventVersion e = Itoa v ∧ 10 ^ Z.of_nat k ≤ v < 10 ^ Z.of_nat (S k).

Lemma Itoa_positive v : 0 < v → Itoa v = pretty_N_go (Z.to_N v) "".
Proof using. intros Hv. destruct v as [|p|p]; [lia|done|lia]. Qed.

Lemma digits_N k v : 10 ^ Z.of_nat k ≤ v < 10 ^ Z.of_nat (S k) →
  0 < v ∧ (10 ^ N.of_nat k ≤ Z.to_N v < 10 ^ N.of_nat (S k))%N.
Proof using.
  intros Hv. assert (0 < 10 ^ Z.of_nat k) by (apply Z.pow_pos_nonneg; lia). split; [lia|].
  assert (∀ j, (10 ^ N.of_nat j)%N = Z.to_N (10 ^ Z.of_nat j)) as Hp.
  { intros j. rewrite Z2N.inj_pow by lia. by rewrite <-nat_N_Z, N2Z.id. }
  rewrite !Hp. lia.
Qed.

Lemma leb_numbered k e e' v v' : numbered k e v → numbered k e' v' →
  String.leb (EventVersion e) (EventVersion e') = (v <=? v').
Proof using.
  intros [-> Hv] [-> Hv']. apply digits_N in Hv as [Hv0 Hv], Hv' as [Hv0' Hv'].
  unfold String.leb. rewrite !Itoa_positive, (compare_decimals k) by done.
  rewrite <-N2Z.inj_compare, !Z2N.id by lia. unfold Z.leb. by destruct (v ?= v').
Qed.

(** The first digit. *)
Lemma first_digit k d n s : (1 ≤ d < 10)%N → (d * 10 ^ N.of_nat k ≤ n < (d + 1) * 10 ^ N.of_nat k)%N →
  ∃ t, pretty_N_go n s = String (pretty_N_char d) t.
Proof using.
  intros Hd. revert n s. induction k as [|k IH]; intros n s Hn.
  - simpl in Hn. assert (n = d) as -> by lia. exists s. rewrite pretty_N_go_step by lia.
    rewrite N.div_small, N.mod_small by lia. by rewrite pretty_N_go_0.
  - rewrite Nat2N.inj_succ, N.pow_succ_r' in Hn.
    assert (10 ^ N.of_nat k ≠ 0)%N by by apply N.pow_nonzero.
    rewrite pretty_N_go_step by nia. apply IH. split.
    + apply N.div_le_lower_bound; lia.
    + apply N.Div0.div_lt_upper_bound; lia.
Qed.
End decimals.

(** ** What the polls start *)

#[export] Instance KubernetesEvent_dec : EqDecision KubernetesEvent.
Proof. solve_decision. Defined.

(** The events that start the workflow in some polls. *)
Fixpoint dueAll (trigger : EventTrigger) (last : string) (listings : list (list KubernetesEvent)) : list KubernetesEvent :=
  match listings with
  | [] => []
  | events :: rest => due trigger last events ++ dueAll trigger (lastVersion last events) rest
  end.

Lemma bind_run {W A B} (m : Prog W A) (f : A → Prog W B) x a x' : m x = (Ok a, x') → (m ≫= f) x = f a x'.
Proof. unfold mbind, Prog_bind. by intros ->. Qed.

Section polling.
Context `{!JobLib} (clock : nat → Z) (name namespace : string) (port : Z) (env : nat → Outcome).
Implicit Types (c : JobCluster) (trigger : EventTrigger).

Notation fire trigger e := (attempt (triggerWorkflow env clock name namespace port trigger e);; mret ()).

Lemma each_processEvent trigger last events x :
  each (processEvent env clock name namespace port trigger last) events x =
  each (λ e, fire trigger e) (due trigger last events) x.
Proof using.
  revert x. unfold due. induction events as [|e events IH]; intros x; [done|].
  rewrite filter_cons. cbn [each]. set (rest := each (processEvent _ _ _ _ _ _ _) events) in *. unfold processEvent.
  destruct (processed last e); cbn [negb andb]; [rewrite decide_False by done; apply IH|].
  destruct (matchesEventTrigger e trigger); [|rewrite decide_False by done; apply IH].
  rewrite decide_True by done. cbn [each]. unfold mbind, Prog_bind, attempt. cbv zeta.
  destruct (triggerWorkflow _ _ _ _ _ _ _ x) as [r x']. apply IH.
Qed.

(** The server takes the jobs of the trigger. *)
Definition accepted trigger : Prop := ∀ e t,
  map_fold (λ _ v b, validLabel v && b) true (JobLabels (triggeredJob name namespace port trigger e t)) &&
  admitsJob (triggerJobName name trigger t) (triggeredJob name namespace port trigger e t) = true.

Context (works : ∀ k, env k = Works) (trigger : EventTrigger) (trigger_accepted : accepted trigger).

Notation jobNameAt t := (triggerJobName name trigger t).
Notation jobAt e t := (triggeredJob name namespace port trigger e t).

Lemma fire_works e c n :
  (λ e, fire trigger e) e (c, n) = (Ok (), (match jobs c !! jobNameAt (clock n) with
    | Some _ => c
    | None => with_jobs (<[jobNameAt (clock n) := jobAt e (clock n)]> (jobs c)) c
    end, S n)).
Proof using works trigger_accepted.
  cbn beta. unfold mbind, Prog_bind, attempt, triggerWorkflow, createJob, call. rewrite works, trigger_accepted. cbn [negb].
  by destruct (jobs c !! _).
Qed.

(** The jobs after some events have started the workflow, each at its time. *)
Definition startedAt (m : gmap string Job) (l : list (KubernetesEvent * Z)) : gmap string Job :=
  foldl (λ m '(e, t), <[jobNameAt t := jobAt e t]> m) m l.

Lemma jobNameAt_Unix t t' : jobNameAt t = jobNameAt t' → Unix t = Unix t'.
Proof using.
  unfold triggerJobName. intros Hn. do 4 apply (inj _) in Hn. by apply (inj Itoa).
Qed.

(** *** In one second *)

Lemma fires_one_second s l c n : (∀ k, Unix (clock k) = s) →
  ∃ c' n', each (λ e, fire trigger e) l (c, n) = (Ok (), (c', n')) ∧
  jobs c' = match l with
            | [] => jobs c
            | e :: _ => if decide (is_Some (jobs c !! jobNameAt (clock n))) then jobs c
                        else <[jobNameAt (clock n) := jobAt e (clock n)]> (jobs c)
            end.
Proof using works trigger_accepted.
  intros Hs. assert (∀ i j, jobNameAt (clock i) = jobNameAt (clock j)) as Hname.
  { intros i j. unfold triggerJobName. by rewrite !Hs. }
  assert (∀ l c n i, is_Some (jobs c !! jobNameAt (clock i)) →
    ∃ n', each (λ e, fire trigger e) l (c, n) = (Ok (), (c, n'))) as Hstay.
  { clear l c n. induction l as [|e l IH]; intros c n i [j Hj]; [by exists n|].
    cbn [each]. rewrite (bind_run _ _ _ _ _ (fire_works e c n)), (Hname n i), Hj. by apply (IH c (S n) i). }
  destruct l as [|e l]; [by exists c, n|].
  cbn [each]. rewrite (bind_run _ _ _ _ _ (fire_works e c n)).
  destruct (jobs c !! jobNameAt (clock n)) as [j|] eqn:Hj.
  - destruct (Hstay l c (S n) n) as [n' ->]; [by exists j|]. exists c, n'. by rewrite decide_True.
  - set (c1 := with_jobs _ c). destruct (Hstay l c1 (S n) n) as [n' ->].
    { exists (jobAt e (clock n)). apply lookup_insert_eq. }
    exists c1, n'. rewrite decide_False by (intros [? ?]; congruence). done.
Qed.

(** *** In different seconds *)

Context (apart : ∀ i j, (i < j)%nat → Unix (clock i) < Unix (clock j)).

(** No job has a name that is still to come. *)
Definition freshFrom (n : nat) c : Prop := ∀ i, (n ≤ i)%nat → jobs c !! jobNameAt (clock i) = None.

Definition ran (l : list KubernetesEvent) c (n : nat) c' (n' : nat) : Prop :=
  ∃ calls : list nat, length calls = length l ∧ StronglySorted lt calls ∧ Forall (λ i, (n ≤ i < n')%nat) calls ∧
    jobs c' = startedAt (jobs c) (zip l (clock <$> calls)) ∧ freshFrom n' c' ∧ (n ≤ n')%nat.

Lemma ran_nil c n n' : (n ≤ n')%nat → freshFrom n c → ran [] c n c n'.
Proof using.
  intros Hn Hf. exists []. split_and!; try done; [constructor|]. intros i Hi. apply Hf. lia.
Qed.

Lemma ran_app l l' c n c1 n1 c' n' : ran l c n c1 n1 → ran l' c1 n1 c' n' → ran (l ++ l') c n c' n'.
Proof using.
  intros (i & Hl & Hs & Hb & Hj & Hf & Hn) (i' & Hl' & Hs' & Hb' & Hj' & Hf' & Hn').
  exists (i ++ i'). rewrite !length_app, fmap_app, zip_with_app by (by rewrite length_fmap).
  split_and!; [lia| | |unfold startedAt in *; by rewrite foldl_app, Hj', Hj|done|lia].
  - rewrite Forall_forall in Hb, Hb'. clear -Hs Hs' Hb Hb'. induction Hs as [|x i Hs IH Hx]; [done|].
    simpl. constructor; [apply IH; intros y Hy; apply Hb; by right|].
    apply Forall_app. split; [done|]. apply Forall_forall. intros y Hy. apply Hb' in Hy.
    assert (x ∈ x :: i) as Hxi by by left. apply Hb in Hxi. lia.
  - apply Forall_app. rewrite Forall_forall in Hb, Hb' |- *. split; [|apply Forall_forall]; intros x Hx;
      [apply Hb in Hx|apply Hb' in Hx]; lia.
Qed.

Lemma fires_ran l c n : freshFrom n c →
  ∃ c' n', each (λ e, fire trigger e) l (c, n) = (Ok (), (c', n')) ∧ ran l c n c' n'.
Proof using works trigger_accepted apart.
  revert c n. induction l as [|e l IH]; intros c n Hf; [exists c, n; split; [done|by apply ran_nil]|].
  cbn [each]. rewrite (bind_run _ _ _ _ _ (fire_works e c n)), Hf by done.
  set (c1 := with_jobs _ c).
  assert (ran [e] c n c1 (S n)) as Hone.
  { exists [n]. split_and!; try done; [repeat constructor|by repeat constructor| |lia].
    intros i Hi. simpl. rewrite lookup_insert_ne; [apply Hf; lia|].
    intros Hname%jobNameAt_Unix. pose proof (apart n i). lia. }
  destruct (IH c1 (S n)) as (c' & n' & -> & Hran); [by destruct Hone as (? & _ & _ & _ & _ & ? & _)|].
  exists c', n'. split; [done|]. change (e :: l) with ([e] ++ l). by eapply ran_app.
Qed.

Lemma polls_ran listings c n last : freshFrom n c →
  ∃ c' n', polls env clock name namespace port listings {| Watched := trigger; lastResourceVersion := last |} (c, n) =
    (Ok {| Watched := trigger; lastResourceVersion := foldl lastVersion last listings |}, (c', n')) ∧
  ran (dueAll trigger last listings) c n c' n'.
Proof using works trigger_accepted apart.
  revert c n last. induction listings as [|events rest IH]; intros c n last Hf;
    [exists c, n; split; [done|by apply ran_nil]|].
  assert (freshFrom (S n) c) as Hf1 by (intros i Hi; apply Hf; lia).
  destruct (fires_ran (due trigger last events) c (S n) Hf1) as (c1 & n1 & Hrun & Hran).
  assert (poll env clock name namespace port events {| Watched := trigger; lastResourceVersion := last |} (c, n) =
    (Ok {| Watched := trigger; lastResourceVersion := lastVersion last events |}, (c1, n1))) as Hpoll.
  { unfold poll. rewrite (bind_run _ _ _ (Ok events) (c, S n)) by (unfold attempt, call; by rewrite works).
    cbn [Watched lastResourceVersion]. by rewrite (bind_run _ _ _ () (c1, n1)) by by rewrite each_processEvent. }
  cbn [polls dueAll foldl]. rewrite (bind_run _ _ _ _ _ Hpoll).
  destruct (IH c1 n1 (lastVersion last events)) as (c' & n' & -> & Hran'); [by destruct Hran as (? & _ & _ & _ & _ & ? & _)|].
  exists c', n'. split; [done|]. eapply ran_app; [|done]. eapply (ran_app []); [|done]. apply ran_nil; [lia|done].
Qed.

Lemma size_startedAt m l : NoDup (Unix ∘ snd <$> l) → (∀ e t, (e, t) ∈ l → m !! jobNameAt t = None) →
  size (startedAt m l) = (size m + length l)%nat.
Proof using.
  revert m. induction l as [|[e t] l IH]; intros m Hnd Hm; simpl; [lia|].
  apply NoDup_cons in Hnd as [Hnew Hnd]. rewrite IH.
  - rewrite map_size_insert_None by (eapply Hm; by left). lia.
  - done.
  - intros e' t' Hin. rewrite lookup_insert_ne; [eapply Hm; by right|]. intros Hname%jobNameAt_Unix.
    apply Hnew, list_elem_of_fmap. exists (e', t'). by split.
Qed.

Lemma ran_size l c n c' n' : freshFrom n c → ran l c n c' n' → size (jobs c') = (size (jobs c) + length l)%nat.
Proof using apart.
  intros Hf (i & Hl & Hs & Hb & -> & _ & _). rewrite size_startedAt.
  - rewrite length_zip_with, length_fmap. lia.
  - assert (Unix ∘ snd <$> zip l (clock <$> i) = (Unix ∘ clock) <$> i) as ->.
    { rewrite list_fmap_compose, snd_zip by (rewrite length_fmap; lia). by rewrite <-list_fmap_compose. }
    clear -Hs apart. induction Hs as [|x i Hs IH Hx]; [constructor|]. simpl. constructor; [|done].
    rewrite list_elem_of_fmap. intros (y & Hy & Hin). rewrite Forall_forall in Hx. apply Hx in Hin.
    pose proof (apart x y Hin). unfold compose in Hy. lia.
  - intros e t Hin. apply elem_of_zip_r in Hin. apply list_elem_of_fmap in Hin as (k & -> & Hk). apply Hf.
    rewrite Forall_forall in Hb. apply Hb in Hk. lia.
Qed.
End polling.

(** ** Each event once *)

Section once.
Context `{!JobLib} (clock : nat → Z) (name namespace : string) (port : Z).
Implicit Types (trigger : EventTrigger) (events history : list KubernetesEvent).

(** An event is older than another, their versions having as many digits. *)
Definition older (k : nat) (e e' : KubernetesEvent) : Prop := ∃ v v', numbered k e v ∧ numbered k e' v' ∧ v < v'.

(** The events from one place of the history to another: those before have expired, those
    after are to come. *)
Definition window history (w : nat * nat) : list KubernetesEvent := take (w.2 - w.1) (drop w.1 history).

(** The windows of successive polls: every event is listed before it expires. *)
Fixpoint successive (total from to : nat) (ws : list (nat * nat)) : Prop :=
  match ws with
  | [] => True
  | (from', to') :: rest => (from ≤ from' ≤ to ∧ to ≤ to' ≤ total)%nat ∧ successive total from' to' rest
  end.

Lemma window_split history i j k : (i ≤ j ≤ k)%nat → window history (i, k) = window history (i, j) ++ window history (j, k).
Proof using.
  intros Hij. unfold window. cbn [fst snd]. replace (k - i)%nat with ((j - i) + (k - j))%nat by lia.
  rewrite <-take_take_drop, drop_drop. do 3 f_equal. lia.
Qed.

Lemma elem_of_window history w e : e ∈ window history w ↔ ∃ i, (w.1 ≤ i < w.2)%nat ∧ history !! i = Some e.
Proof using.
  unfold window. rewrite list_elem_of_lookup. split.
  - intros [i Hi]. apply lookup_take_Some in Hi as [Hi Hlt]. rewrite lookup_drop in Hi. exists (w.1 + i)%nat. split; [lia|done].
  - intros (i & Hi & He). exists (i - w.1)%nat. apply lookup_take_Some. rewrite lookup_drop.
    split; [|lia]. by replace (w.1 + (i - w.1))%nat with i by lia.
Qed.

Lemma StronglySorted_lookup {A} (R : A → A → Prop) l i j x y : StronglySorted R l → (i < j)%nat →
  l !! i = Some x → l !! j = Some y → R x y.
Proof using.
  intros Hs. revert i j. induction Hs as [|a l Hs IH Ha]; intros i j Hij Hx Hy; [done|].
  destruct j as [|j]; [lia|]. destruct i as [|i]; simpl in *; [|apply (IH i j); [lia|done..]].
  simplify_eq. rewrite Forall_forall in Ha. apply Ha. by apply list_elem_of_lookup_2 in Hy.
Qed.

(** The state of a watcher that has read the history up to a place, from some place on. *)
Definition readTo history (from to : nat) (last : string) : Prop :=
  if decide (from = to) then last = ""
  else ∃ e, history !! pred to = Some e ∧ last = EventVersion e.

Lemma numbered_nonempty k e v : numbered k e v → EventVersion e ≠ "".
Proof using.
  intros [-> Hv]. apply digits_N in Hv as [Hpos _]. rewrite Itoa_positive by done.
  rewrite pretty_N_go_step by lia. intros Hs. apply (f_equal String.length) in Hs.
  assert (∀ n s, String.length s ≤ String.length (pretty_N_go n s))%nat as Hlen.
  { intros n. induction (N.lt_wf_0 n) as [n _ IH]. intros s. destruct (decide (n = 0)%N) as [->|Hn]; [done|].
    rewrite pretty_N_go_step by lia. etrans; [|apply IH, N.div_lt; lia]. simpl. lia. }
  pose proof (Hlen (Z.to_N v `div` 10)%N (String (pretty_N_char (Z.to_N v `mod` 10)) "")). simpl in *. lia.
Qed.

Lemma processed_older k e e' : older k e e' → processed (EventVersion e') e = true ∧ processed (EventVersion e) e' = false.
Proof using.
  intros (v & v' & Hv & Hv' & Hlt). unfold processed.
  rewrite !bool_decide_eq_false_2 by (by eapply numbered_nonempty).
  rewrite (leb_numbered k _ _ _ _ Hv Hv'), (leb_numbered k _ _ _ _ Hv' Hv).
  split; [apply Z.leb_le; lia|apply Z.leb_gt; lia].
Qed.

Lemma due_all trigger last events : Forall (λ e, processed last e = true) events → due trigger last events = [].
Proof using. intros He. apply filter_none. eapply Forall_impl; [exact He|]. by intros e ->. Qed.

Lemma due_new trigger last events : Forall (λ e, processed last e = false) events →
  due trigger last events = filter (λ e, matchesEventTrigger e trigger = true) events.
Proof using.
  unfold due. induction 1 as [|e events He _ IH]; [done|]. rewrite !filter_cons, IH, He. cbn [negb andb]. done.
Qed.

Lemma last_window history w : (w.1 < w.2)%nat → (w.2 ≤ length history)%nat →
  ∃ e, list.last (window history w) = Some e ∧ history !! pred w.2 = Some e.
Proof using.
  intros Hw Hl. destruct (lookup_lt_is_Some_2 history (pred w.2)) as [e He]; [lia|]. exists e. split; [|done].
  rewrite last_lookup. unfold window. rewrite length_take, length_drop.
  apply lookup_take_Some. rewrite lookup_drop. split; [|lia]. rewrite <-He. f_equal. lia.
Qed.

Lemma due_window k trigger history start from to from' to' last :
  Forall (λ e, ∃ v, numbered k e v) history → StronglySorted (older k) history →
  (start ≤ from ≤ from')%nat → (from' ≤ to ≤ to')%nat → (to' ≤ length history)%nat → readTo history start to last →
  due trigger last (window history (from', to')) =
    filter (λ e, matchesEventTrigger e trigger = true) (window history (to, to')) ∧
  readTo history start to' (lastVersion last (window history (from', to'))).
Proof using.
  intros Hn Hs Hf Ht Hl Hr. split.
  - unfold due. rewrite (window_split history from' to to'), filter_app by lia. fold (due trigger last (window history (from', to))).
    fold (due trigger last (window history (to, to'))). unfold readTo in Hr. case_decide as Heq.
    + subst last. assert (window history (from', to) = []) as ->.
      { unfold window. cbn [fst snd]. by replace (to - from')%nat with 0%nat by lia. }
      rewrite due_new; [done|]. by apply Forall_forall.
    + destruct Hr as (z & Hz & ->). rewrite due_all, due_new; [done| |].
      * apply Forall_forall. intros e (i & Hi & He)%elem_of_window. cbn [fst snd] in Hi.
        by destruct (processed_older k z e (StronglySorted_lookup _ _ (pred to) i _ _ Hs ltac:(lia) Hz He)).
      * apply Forall_forall. intros e (i & Hi & He)%elem_of_window. cbn [fst snd] in Hi.
        destruct (decide (i = pred to)) as [->|Hne].
        -- assert (e = z) as -> by congruence. rewrite Forall_lookup in Hn. destruct (Hn _ _ Hz) as [v Hv].
           unfold processed. rewrite (leb_numbered k _ _ _ _ Hv Hv), bool_decide_eq_false_2 by (by eapply numbered_nonempty).
           apply Z.leb_le. lia.
        -- by destruct (processed_older k e z (StronglySorted_lookup _ _ i (pred to) _ _ Hs ltac:(lia) He Hz)).
  - unfold lastVersion. destruct (decide (from' = to')) as [->|Hne].
    + assert (to = to') as -> by lia. assert (window history (to', to') = []) as ->; [|done].
      unfold window. cbn [fst snd]. by rewrite Nat.sub_diag.
    + destruct (last_window history (from', to')) as (z & -> & Hz); [simpl; lia..|]. unfold readTo.
      rewrite decide_False by lia. by exists z.
Qed.

Lemma dueAll_windows k trigger history start from to ws last :
  Forall (λ e, ∃ v, numbered k e v) history → StronglySorted (older k) history →
  (start ≤ from)%nat → (from ≤ to ≤ length history)%nat → readTo history start to last →
  successive (length history) from to ws →
  dueAll trigger last (window history <$> ws) =
    filter (λ e, matchesEventTrigger e trigger = true)
      (window history (to, default to (snd <$> list.last ws))).
Proof using.
  intros Hn Hs. revert from to last. induction ws as [|[from' to'] ws IH]; intros from to last Hf Ht Hr Hw.
  - simpl. unfold window. cbn [fst snd]. by rewrite Nat.sub_diag.
  - destruct Hw as [Hw Hws]. cbn [fmap list_fmap dueAll].
    destruct (due_window k trigger history start from to from' to' last Hn Hs) as [-> Hr']; [lia..|done|].
    rewrite (IH from' to'); [|lia|lia|done|done]. rewrite <-filter_app. f_equal.
    assert (default to (snd <$> list.last ((from', to') :: ws)) = default to' (snd <$> list.last ws)) as ->.
    { rewrite last_cons. by destruct (list.last ws). }
    symmetry. apply window_split. split; [lia|].
    assert (∀ ws from to, successive (length history) from to ws → (to ≤ default to (snd <$> list.last ws))%nat) as Hle; [|by eapply Hle].
    clear. intros ws. induction ws as [|[f t] ws IH]; intros from to Hw; simpl; [lia|]. destruct Hw as [Hw Hws].
    pose proof (IH _ _ Hws). rewrite last_cons. destruct (list.last ws) as [[]|]; simpl in *; lia.
Qed.
End once.

(** ** What triggers come to *)

Section claims.
Context `{!JobLib} (env : nat → Outcome) (clock : nat → Z) (name namespace : string) (port : Z).
Implicit Types (trigger : EventTrigger) (c : JobCluster).

(** The jobs that were made for some events, one for each, in their order. *)
Definition started_once trigger (fired : list KubernetesEvent) c c' : Prop :=
  size (jobs c') = (size (jobs c) + length fired)%nat ∧
  ∃ calls : list nat, length calls = length fired ∧ StronglySorted lt calls ∧
    jobs c' = startedAt name namespace port trigger (jobs c) (zip fired (clock <$> calls)).

Lemma ran_started trigger fired c n c' n' : (∀ i j, (i < j)%nat → Unix (clock i) < Unix (clock j)) →
  freshFrom clock name trigger n c → ran clock name namespace port trigger fired c n c' n' →
  started_once trigger fired c c'.
Proof using.
  intros Ha Hf Hr. split; [by eapply ran_size|]. destruct Hr as (calls & ? & ? & _ & ? & _). by exists calls.
Qed.

(** C12: as long as the versions of the events have the same number of digits, the server
    lists them in the order of their versions, each is listed before it expires, and the
    calls of a watcher work and fall into different seconds, every event that matches a
    trigger, from those of the first list on, gets one job, in the order of the events. *)
Theorem each_event_once k trigger history start first ws c n :
  (∀ i, env i = Works) → (∀ i j, (i < j)%nat → Unix (clock i) < Unix (clock j)) →
  accepted name namespace port trigger → freshFrom clock name trigger n c →
  Forall (λ e, ∃ v, numbered k e v) history → StronglySorted (older k) history →
  (start ≤ first ≤ length history)%nat → successive (length history) start first ws →
  let upTo := default first (snd <$> list.last ws) in
  ∃ w c' n', polls env clock name namespace port (window history <$> (start, first) :: ws)
      {| Watched := trigger; lastResourceVersion := "" |} (c, n) = (Ok w, (c', n')) ∧
    started_once trigger (filter (λ e, matchesEventTrigger e trigger = true) (window history (start, upTo))) c c'.
Proof using.
  intros He Ha Hacc Hf Hn Hs Hl Hw upTo.
  destruct (polls_ran clock name namespace port env He trigger Hacc Ha (window history <$> (start, first) :: ws) c n "" Hf)
    as (c' & n' & Hrun & Hran).
  exists {| Watched := trigger; lastResourceVersion := foldl lastVersion "" (window history <$> (start, first) :: ws) |}, c', n'.
  split; [exact Hrun|]. rewrite (dueAll_windows k trigger history start start start) in Hran; [|done|done|lia|lia| |by split; [lia|]].
  - assert (default start (snd <$> list.last ((start, first) :: ws)) = upTo) as E.
    { unfold upTo. rewrite last_cons. by destruct (list.last ws). }
    rewrite E in Hran. by eapply ran_started.
  - unfold readTo. by rewrite decide_True.
Qed.

(** Whatever the lists, if all calls of a poll fall into one second, at most one job is
    made: that of the first event that is due, and not even that if a job has its name. *)
Theorem one_job_per_second s events w c n :
  (∀ i, env i = Works) → accepted name namespace port (Watched w) → (∀ i, Unix (clock i) = s) →
  ∃ w' c' n', poll env clock name namespace port events w (c, n) = (Ok w', (c', n')) ∧
    jobs c' = match due (Watched w) (lastResourceVersion w) events with
              | [] => jobs c
              | e :: _ =>
                  let t := clock (S n) in
                  if decide (is_Some (jobs c !! triggerJobName name (Watched w) t)) then jobs c
                  else <[triggerJobName name (Watched w) t := triggeredJob name namespace port (Watched w) e t]> (jobs c)
              end.
Proof using.
  intros He Hacc Hs.
  destruct (fires_one_second clock name namespace port env He (Watched w) Hacc s
    (due (Watched w) (lastResourceVersion w) events) c (S n) Hs) as (c' & n' & Hrun & Hj).
  eexists _, c', n'. split; [|exact Hj]. unfold poll.
  rewrite (bind_run _ _ _ (Ok events) (c, S n)) by (unfold attempt, call; by rewrite He).
  by rewrite (bind_run _ _ _ () (c', n')) by by rewrite each_processEvent.
Qed.

(** An event whose version has a digit less than the last, which begins with a one, counts
    as not processed unless it begins with a one as well. *)
Lemma crossed k e z v u : numbered k e v → 2 * 10 ^ Z.of_nat k ≤ v → numbered (S k) z u → u < 2 * 10 ^ Z.of_nat (S k) →
  processed (EventVersion z) e = false.
Proof using.
  intros [He Hv] Hv2 [Hz Hu] Hu2. unfold processed. rewrite He, Hz.
  assert (0 < 10 ^ Z.of_nat k) as Hpos by (apply Z.pow_pos_nonneg; lia).
  rewrite Nat2Z.inj_succ, Z.pow_succ_r in Hv by lia.
  assert (∀ j, Z.of_N (10 ^ N.of_nat j) = 10 ^ Z.of_nat j) as Hp by (intros j; by rewrite N2Z.inj_pow, nat_N_Z).
  set (d := v `div` 10 ^ Z.of_nat k).
  assert (2 ≤ d < 10) as Hd by (split; [apply Z.div_le_lower_bound; lia|apply Z.div_lt_upper_bound; lia]).
  pose proof (Z.div_mod v (10 ^ Z.of_nat k) ltac:(lia)) as Ed. fold d in Ed.
  pose proof (Z.mod_pos_bound v (10 ^ Z.of_nat k) Hpos).
  destruct (first_digit k (Z.to_N d) (Z.to_N v) "") as [t Ht]; [lia| |].
  { split; apply N2Z.inj_le || apply N2Z.inj_lt; rewrite N2Z.inj_mul, Hp, ?N2Z.inj_add, !Z2N.id by lia; nia. }
  destruct (first_digit (S k) 1 (Z.to_N u) "") as [t' Ht']; [lia| |].
  { split; apply N2Z.inj_le || apply N2Z.inj_lt; rewrite N2Z.inj_mul, Hp, Z2N.id by lia; lia. }
  assert (0 < u) by (assert (0 < 10 ^ Z.of_nat (S k)) by (apply Z.pow_pos_nonneg; lia); lia).
  rewrite !Itoa_positive, Ht, Ht' by lia. apply andb_false_iff. right. unfold String.leb. cbn [String.compare].
  assert (Ascii.compare (pretty_N_char (Z.to_N d)) (pretty_N_char 1) = Gt) as ->; [|done].
  assert (d ∈ [2;3;4;5;6;7;8;9]) as Hin by (rewrite !elem_of_cons; lia). clearbody d. clear -Hin.
  repeat (apply elem_of_cons in Hin as [->|Hin]); try done; by apply elem_of_nil in Hin.
Qed.

(** The last event of a list has a version of so many digits that begins with a one. *)
Definition ends_past (k : nat) (events : list KubernetesEvent) : Prop :=
  ∃ z u, list.last events = Some z ∧ numbered (S k) z u ∧ u < 2 * 10 ^ Z.of_nat (S k).

(** Once the versions have got another digit, a matching event of before, whose
    version does not begin with a one, starts its workflow again at every poll that lists
    it; it has as many jobs more as there were polls, if their calls fall into different
    seconds. *)
Theorem old_events_fire_again k trigger e v first listings c n :
  (∀ i, env i = Works) → (∀ i j, (i < j)%nat → Unix (clock i) < Unix (clock j)) →
  accepted name namespace port trigger → freshFrom clock name trigger n c →
  matchesEventTrigger e trigger = true → numbered k e v → 2 * 10 ^ Z.of_nat k ≤ v →
  ends_past k first → Forall (λ events, e ∈ events ∧ ends_past k events) listings →
  ∃ w c' n' fired, polls env clock name namespace port listings
      {| Watched := trigger; lastResourceVersion := lastVersion "" first |} (c, n) = (Ok w, (c', n')) ∧
    started_once trigger fired c c' ∧ (length listings ≤ length (filter (λ e', e' = e) fired))%nat.
Proof using.
  intros He Ha Hacc Hf Hm Hv Hv2 Hfirst Hall.
  destruct (polls_ran clock name namespace port env He trigger Hacc Ha listings c n (lastVersion "" first) Hf)
    as (c' & n' & Hrun & Hran).
  eexists _, c', n', _. split; [exact Hrun|]. split; [by eapply ran_started|]. clear Hrun Hran.
  assert (∀ last, (∃ z u, last = EventVersion z ∧ numbered (S k) z u ∧ u < 2 * 10 ^ Z.of_nat (S k)) →
    (length listings ≤ length (filter (λ e', e' = e) (dueAll trigger last listings)))%nat) as Hcount.
  2:{ apply Hcount. destruct Hfirst as (z & u & Hz & Hnum & Hu). exists z, u. unfold lastVersion. by rewrite Hz. }
  clear Hfirst. induction Hall as [|events listings [Hin Hend] Hall IH]; intros last Hlast; [done|].
  cbn [dueAll length]. rewrite filter_app, length_app.
  assert (1 ≤ length (filter (λ e', e' = e) (due trigger last events)))%nat.
  { assert (e ∈ filter (λ e', e' = e) (due trigger last events)) as Hdue.
    { apply list_elem_of_filter. split; [done|]. apply list_elem_of_filter. split; [|done].
      destruct Hlast as (z & u & -> & Hz & Hu). by rewrite (crossed k e z v u), Hm by done. }
    destruct (filter _ (due _ _ _)); [by apply elem_of_nil in Hdue|simpl; lia]. }
  assert (length listings ≤ length (filter (λ e', e' = e) (dueAll trigger (lastVersion last events) listings)))%nat; [|lia].
  apply IH. destruct Hend as (z & u & Hz & Hnum & Hu). exists z, u. unfold lastVersion. by rewrite Hz.
Qed.
End claims.

(** ** Examples *)

Module TriggerExamples.
#[local] Existing Instances JobExamples.plainJobs.

Definition failing : EventTrigger := {|
  TriggerType := "k8s-event"; TriggerName := "on-failure"; TriggerWorkflow := "repair";
  TriggerEvent := Some {| Kind := "Pod"; Reason := "Failed"; EventsNamespace := "";
                          LabelSelector := "app=web"; FieldSelector := "" |};
  TriggerConditions := [{| Field := "message"; Operator := "contains"; CondValue := "OOM" |}];
  CooldownDuration := "1h" |}.

Definition event (name message version : string) : KubernetesEvent := {|
  EventName := name; EventNamespace := "matey"; InvolvedKind := "Pod"; EventReason := "Failed";
  EventMessage := message; EventType := "Warning"; EventVersion := version |}.

Definition everySecond (n : nat) : Z := Z.of_nat n * 10 ^ 9.
Definition works : nat → Outcome := λ _, Works.
Definition emptyCluster : JobCluster := {| jobs := ∅; claims := ∅; pods := [] |}.

Lemma everySecond_apart i j : (i < j)%nat → Unix (everySecond i) < Unix (everySecond j).
Proof. unfold Unix, everySecond. rewrite !Z.div_mul by done. lia. Qed.

Lemma failing_accepted : accepted "task-scheduler" "matey" 8018 failing.
Proof. intros e t. vm_compute. reflexivity. Qed.

Lemma empty_fresh n : freshFrom everySecond "task-scheduler" failing n emptyCluster.
Proof. intros i _. apply lookup_empty. Qed.

Lemma one_digit e v : EventVersion e = Itoa v → 10 ≤ v < 100 → numbered 1 e v.
Proof. intros He Hv. split; [done|]. done. Qed.

Definition history : list KubernetesEvent :=
  [event "a" "OOM killed" "41"; event "b" "exit 1" "42"; event "c" "OOM killed" "43"; event "d" "OOM killed" "44"].

Lemma history_numbered : Forall (λ e, ∃ v, numbered 1 e v) history ∧ StronglySorted (older 1) history.
Proof.
  assert (∀ e v e' v', EventVersion e = Itoa v → EventVersion e' = Itoa v' → 10 ≤ v < v' → v' < 100 → older 1 e e') as Hold.
  { intros e v e' v' He He' Hv Hv'. exists v, v'. split; [|split; [|lia]]; apply one_digit; done || lia. }
  split.
  - repeat (apply Forall_cons; split); [exists 41|exists 42|exists 43|exists 44|apply Forall_nil_2];
      (apply one_digit; [reflexivity|lia]).
  - unfold history. repeat first [apply SSorted_cons | apply SSorted_nil | apply Forall_cons_2 | apply Forall_nil_2];
      [apply (Hold _ 43 _ 44)|apply (Hold _ 42 _ 43)|apply (Hold _ 42 _ 44)|apply (Hold _ 41 _ 42)
      |apply (Hold _ 41 _ 43)|apply (Hold _ 41 _ 44)]; reflexivity || lia.
Qed.

(** Two polls: of the first three events, and of the last three.  The second does not match. *)
Lemma each_event_once_witness :
  ∃ w c' n', polls works everySecond "task-scheduler" "matey" 8018
      [take 3 history; drop 1 history] {| Watched := failing; lastResourceVersion := "" |} (emptyCluster, 0%nat) = (Ok w, (c', n')) ∧
    started_once everySecond "task-scheduler" "matey" 8018 failing
      [event "a" "OOM killed" "41"; event "c" "OOM killed" "43"; event "d" "OOM killed" "44"] emptyCluster c'.
Proof.
  exact (each_event_once works everySecond "task-scheduler" "matey" 8018 1 failing history 0 3 [(1, 4)%nat]
    emptyCluster 0 (λ _, eq_refl) everySecond_apart failing_accepted (empty_fresh 0)
    (proj1 history_numbered) (proj2 history_numbered) ltac:(simpl; lia) ltac:(simpl; lia)).
Defined.

(** Of three failures that are listed together one is seen to. *)
Lemma one_job_per_second_witness :
  ∃ w' c' n', poll works (λ _, 0) "task-scheduler" "matey" 8018 history
      {| Watched := failing; lastResourceVersion := "" |} (emptyCluster, 0%nat) = (Ok w', (c', n')) ∧
    size (jobs c') = 1%nat.
Proof.
  destruct (one_job_per_second works (λ _, 0) "task-scheduler" "matey" 8018 0 history
    {| Watched := failing; lastResourceVersion := "" |} emptyCluster 0 (λ _, eq_refl) failing_accepted (λ _, eq_refl))
    as (w' & c' & n' & Hrun & Hj).
  exists w', c', n'. split; [exact Hrun|]. rewrite Hj. vm_compute. reflexivity.
Defined.

Definition late : list KubernetesEvent := [event "y" "OOM killed" "99"; event "z" "exit 1" "100"].

(** An event of version 99 is listed with one of version 100, four times after the first. *)
Lemma old_events_fire_again_witness :
  ∃ w c' n' fired, polls works everySecond "task-scheduler" "matey" 8018 [late; late; late; late]
      {| Watched := failing; lastResourceVersion := "100" |} (emptyCluster, 0%nat) = (Ok w, (c', n')) ∧
    started_once everySecond "task-scheduler" "matey" 8018 failing fired emptyCluster c' ∧ (4 ≤ length fired)%nat.
Proof.
  assert (ends_past 1 late) as Hend by (exists (event "z" "exit 1" "100"), 100; done).
  destruct (old_events_fire_again works everySecond "task-scheduler" "matey" 8018 1 failing
    (event "y" "OOM killed" "99") 99 late [late; late; late; late] emptyCluster 0 (λ _, eq_refl) everySecond_apart
    failing_accepted (empty_fresh 0) eq_refl ltac:(done) ltac:(done) Hend
    ltac:(repeat constructor; (done || by left))) as (w & c' & n' & fired & Hrun & Hs & Hl).
  exists w, c', n', fired. split; [exact Hrun|]. split; [exact Hs|].
  etransitivity; [exact Hl|]. apply length_filter.
Defined.

(** An event of the namespace "other" never starts anything, and neither does one that a
    condition with another operator is to let through; the label selector of the trigger
    lets everything through. *)
Example operators_missing :
  let cond operator := {| Field := "reason"; Operator := operator; CondValue := "Killed" |} in
  let passes operator := evaluateCondition (event "a" "" "1") (cond operator) in
  (passes "notEquals", passes "notContains", passes "regex", passes "exists", passes "startsWith") =
  (false, false, false, false, false) ∧
  matchesEventTrigger (event "a" "OOM killed" "1") failing = true.
Proof. by vm_compute. Qed.

(** Watchers that are started again start again what is still listed. *)
Example restart_fires_again :
  let first := {| Watched := failing; lastResourceVersion := "" |} in
  let '(_, (c, n)) := polls works everySecond "task-scheduler" "matey" 8018 [history] first (emptyCluster, 0%nat) in
  size (jobs c) = 3%nat ∧
  (λ l, size (jobs (polls works everySecond "task-scheduler" "matey" 8018 [history] (default first (head l)) (c, n)).2.1))
    <$> setupEventWatching false [failing] (Some [first]) = Some 6%nat.
Proof. by vm_compute. Qed.
End TriggerExamples.
