(* ===== verification/TaskSchedulerController.v ===== *)
(** * The controller of the task scheduler

    internal/controllers/mcptaskscheduler_controller.go: a state machine over the phase of
    an MCPTaskScheduler resource that creates the objects of a scheduler server (Kube), and
    while it runs watches for events (EventTriggers), counts the jobs (WorkflowJobs), keeps
    cron jobs for the workflows in its own process (WorkflowScheduler), and scales.  The
    clock stands still during a reconcile, and a write of the resource always changes its
    version. *)
From S2P Require Import Prelude GoString GoNum GoTime ServiceDiscovery ServerController MemoryController.
From S2P Require Import ConfigRules ConfigLoad Kube Calls.
From S2P Require Import WorkflowGraph Workflows CronEngine WorkflowStore WorkflowJobs WorkflowScheduler EventTriggers.

#[local] Open Scope Z_scope.

Set Default Proof Using "Type*".

(** ** Data *)

Record TaskRetryPolicy := { PolicyMaxRetries : Z; PolicyRetryDelay : string; PolicyBackoffStrategy : string }.

Record ConditionalDependencyConfig := {
  DependenciesEnabled : bool;
  DefaultStrategy : string;
  ResolutionTimeout : string;
  CrossWorkflowEnabled : bool;
}.

Record AutoScalingConfig := {
  ScalingEnabled : bool;
  MinConcurrentTasks : Z;
  ScalingMaxTasks : Z;
  TargetCPUUtilization : Z;
  TargetMemoryUtilization : Z;
  ScaleUpCooldown : string;
  ScaleDownCooldown : string;
  MetricsInterval : string;
}.

Record TaskSchedulerConfig := {
  DefaultTimeout : string;
  MaxConcurrentTasks : Z;
  TaskPolicy : TaskRetryPolicy;
  ActivityWebhook : string;
  TaskStorageEnabled : bool;
  TaskHistoryLimit : Z;
  TaskCleanupPolicy : string;
  EventTriggers_ : list EventTrigger;
  ConditionalDependencies : ConditionalDependencyConfig;
  AutoScaling : AutoScalingConfig;
}.

(** The fields of the specification that the controller reads. *)
Record TaskSchedulerSpec := {
  TsImage : string;
  TsCommand : list string;
  TsArgs : list string;
  TsEnv : gmap string string;
  TsPort : Z;
  TsHost : string;
  TsDatabasePath : string;
  TsDatabaseURL : string;
  TsPostgresEnabled : bool;
  TsLogLevel : string;
  OpenRouterAPIKey : string;
  OpenRouterModel : string;
  OllamaURL : string;
  OllamaModel : string;
  MCPProxyURL : string;
  MCPProxyAPIKey : string;
  TsResources : Kube.ResourceRequirements;
  TsSecurity : option ServerController.SecurityConfig;
  TsReplicas : option Z;
  TsNodeSelector : gmap string string;
  TsServiceType : string;
  TsServiceAnnotations : gmap string string;
  TsServiceAccount : string;
  TsImagePullSecrets : list string;
  TsPodAnnotations : gmap string string;
  SchedulerSettings : TaskSchedulerConfig;
  TsWorkflows : list Workflow;
}.

Record WorkflowStatistics := {
  TotalWorkflows : Z;
  CompletedWorkflows : Z;
  FailedWorkflows : Z;
  RunningWorkflows : Z;
  LastWorkflowTime : string;
}.

Record TaskSchedulerStatus := {
  TsPhase : string;
  TsConditions : list Kube.Condition;
  TaskStats : TaskStatistics;
  WorkflowStats : WorkflowStatistics;
  TsExecutions : list StatusExecution;
  TsReplicaCount : Z;
  TsReadyReplicas : Z;
}.

Record MCPTaskScheduler := {
  TsName : string;
  TsNamespace : string;
  TsUID : string;
  TsAnnotations : gmap string string;
  TsVersion : nat;
  TsSpec : TaskSchedulerSpec;
  TsStatus : TaskSchedulerStatus;
}.

Definition MCPTaskSchedulerPhasePending : string := "Pending".
Definition MCPTaskSchedulerPhaseCreating : string := "Creating".
Definition MCPTaskSchedulerPhaseStarting : string := "Starting".
Definition MCPTaskSchedulerPhaseRunning : string := "Running".
Definition MCPTaskSchedulerPhaseFailed : string := "Failed".
Definition MCPTaskSchedulerPhaseTerminating : string := "Terminating".

Implicit Types (ts : MCPTaskScheduler).

Definition withStatus (s : TaskSchedulerStatus) ts : MCPTaskScheduler :=
  {| TsName := TsName ts; TsNamespace := TsNamespace ts; TsUID := TsUID ts; TsAnnotations := TsAnnotations ts;
     TsVersion := TsVersion ts; TsSpec := TsSpec ts; TsStatus := s |}.
Definition setPhase (phase : string) ts : MCPTaskScheduler :=
  let s := TsStatus ts in
  withStatus {| TsPhase := phase; TsConditions := TsConditions s; TaskStats := TaskStats s;
                WorkflowStats := WorkflowStats s; TsExecutions := TsExecutions s;
                TsReplicaCount := TsReplicaCount s; TsReadyReplicas := TsReadyReplicas s |} ts.
Definition setReplicas (status : DeploymentStatus) ts : MCPTaskScheduler :=
  let s := TsStatus ts in
  withStatus {| TsPhase := TsPhase s; TsConditions := TsConditions s; TaskStats := TaskStats s;
                WorkflowStats := WorkflowStats s; TsExecutions := TsExecutions s;
                TsReplicaCount := StatusReplicas status; TsReadyReplicas := ReadyReplicas status |} ts.
Definition setTaskStats (stats : TaskStatistics) ts : MCPTaskScheduler :=
  let s := TsStatus ts in
  withStatus {| TsPhase := TsPhase s; TsConditions := TsConditions s; TaskStats := stats;
                WorkflowStats := WorkflowStats s; TsExecutions := TsExecutions s;
                TsReplicaCount := TsReplicaCount s; TsReadyReplicas := TsReadyReplicas s |} ts.
Definition setWorkflowStatus (executions : list StatusExecution) (stats : WorkflowStatistics) ts : MCPTaskScheduler :=
  let s := TsStatus ts in
  withStatus {| TsPhase := TsPhase s; TsConditions := TsConditions s; TaskStats := TaskStats s;
                WorkflowStats := stats; TsExecutions := executions;
                TsReplicaCount := TsReplicaCount s; TsReadyReplicas := TsReadyReplicas s |} ts.

(** [updateCondition], with the time of the reconcile. *)
Definition updateCondition (now : Z) (conditionType : string) (status : bool) (reason message : string) ts : MCPTaskScheduler :=
  let s := TsStatus ts in
  withStatus {| TsPhase := TsPhase s;
                TsConditions := Kube.updateCondition (TsConditions s)
                  {| ConditionType := conditionType; ConditionStatus := if status then "True" else "False";
                     LastTransitionTime := now; Kube.Reason := reason; ConditionMessage := message |};
                TaskStats := TaskStats s; WorkflowStats := WorkflowStats s; TsExecutions := TsExecutions s;
                TsReplicaCount := TsReplicaCount s; TsReadyReplicas := TsReadyReplicas s |} ts.

Definition settings ts : TaskSchedulerConfig := SchedulerSettings (TsSpec ts).

Definition setMaxConcurrentTasks (n : Z) ts : MCPTaskScheduler :=
  let p := TsSpec ts in
  let s := SchedulerSettings p in
  {| TsName := TsName ts; TsNamespace := TsNamespace ts; TsUID := TsUID ts; TsAnnotations := TsAnnotations ts;
     TsVersion := TsVersion ts;
     TsSpec := {| TsImage := TsImage p; TsCommand := TsCommand p; TsArgs := TsArgs p; TsEnv := TsEnv p;
       TsPort := TsPort p; TsHost := TsHost p; TsDatabasePath := TsDatabasePath p; TsDatabaseURL := TsDatabaseURL p;
       TsPostgresEnabled := TsPostgresEnabled p; TsLogLevel := TsLogLevel p; OpenRouterAPIKey := OpenRouterAPIKey p;
       OpenRouterModel := OpenRouterModel p; OllamaURL := OllamaURL p; OllamaModel := OllamaModel p;
       MCPProxyURL := MCPProxyURL p; MCPProxyAPIKey := MCPProxyAPIKey p; TsResources := TsResources p;
       TsSecurity := TsSecurity p; TsReplicas := TsReplicas p; TsNodeSelector := TsNodeSelector p;
       TsServiceType := TsServiceType p; TsServiceAnnotations := TsServiceAnnotations p;
       TsServiceAccount := TsServiceAccount p; TsImagePullSecrets := TsImagePullSecrets p;
       TsPodAnnotations := TsPodAnnotations p;
       SchedulerSettings := {| DefaultTimeout := DefaultTimeout s; MaxConcurrentTasks := n;
         TaskPolicy := TaskPolicy s; ActivityWebhook := ActivityWebhook s; TaskStorageEnabled := TaskStorageEnabled s;
         TaskHistoryLimit := TaskHistoryLimit s; TaskCleanupPolicy := TaskCleanupPolicy s;
         EventTriggers_ := EventTriggers_ s; ConditionalDependencies := ConditionalDependencies s;
         AutoScaling := AutoScaling s |};
       TsWorkflows := TsWorkflows p |};
     TsStatus := TsStatus ts |}.

(** ** The configuration *)

Definition textOf (b : bool) : string := if b then "true" else "false".

Definition generateTrigger (trigger : EventTrigger) : string :=
  let nl := byte1 newline in
  Join (["    {";
         "      " +:+ dq "name" +:+ ": " +:+ dq (TriggerName trigger) +:+ ",";
         "      " +:+ dq "type" +:+ ": " +:+ dq (TriggerType trigger) +:+ ",";
         "      " +:+ dq "workflow" +:+ ": " +:+ dq (TriggerWorkflow trigger) +:+ ",";
         "      " +:+ dq "cooldown_duration" +:+ ": " +:+ dq (CooldownDuration trigger)]) nl +:+
  match TriggerEvent trigger with
  | None => ""
  | Some event =>
      "," +:+ nl +:+
      Join (["      " +:+ dq "kubernetes_event" +:+ ": {";
             "        " +:+ dq "kind" +:+ ": " +:+ dq (Kind event) +:+ ",";
             "        " +:+ dq "reason" +:+ ": " +:+ dq (EventTriggers.Reason event) +:+ ",";
             "        " +:+ dq "namespace" +:+ ": " +:+ dq (EventsNamespace event) +:+ ",";
             "        " +:+ dq "label_selector" +:+ ": " +:+ dq (LabelSelector event) +:+ ",";
             "        " +:+ dq "field_selector" +:+ ": " +:+ dq (FieldSelector event);
             "      }"]) nl
  end +:+ nl +:+ "    }".

(** The triggers, after each but the last a comma. *)
Definition generateEventTriggersConfig (triggers : list EventTrigger) : string :=
  match triggers with
  | [] => "[]"
  | _ => let nl := byte1 newline in
         "[" +:+ nl +:+ Join (generateTrigger <$> triggers) ("," +:+ nl) +:+ nl +:+ "  ]"
  end.

Definition generateTaskSchedulerConfig ts : string :=
  let spec := TsSpec ts in
  let config := settings ts in
  let scaling := AutoScaling config in
  let dependencies := ConditionalDependencies config in
  concatS (line <$>
    ["# Task Scheduler Configuration";
     "port: " +:+ Itoa (TsPort spec);
     "host: " +:+ TsHost spec;
     "log_level: " +:+ TsLogLevel spec;
     "database_path: " +:+ TsDatabasePath spec;
     "";
     "# Kubernetes Configuration";
     "kubernetes_mode: true";
     "namespace: " +:+ TsNamespace ts;
     "";
     "# Task Configuration";
     "scheduler:";
     "  default_timeout: " +:+ DefaultTimeout config;
     "  max_concurrent_tasks: " +:+ Itoa (MaxConcurrentTasks config);
     "  retry_policy:";
     "    max_retries: " +:+ Itoa (PolicyMaxRetries (TaskPolicy config));
     "    retry_delay: " +:+ PolicyRetryDelay (TaskPolicy config);
     "    backoff_strategy: " +:+ PolicyBackoffStrategy (TaskPolicy config);
     "  task_storage_enabled: " +:+ textOf (TaskStorageEnabled config);
     "  task_history_limit: " +:+ Itoa (TaskHistoryLimit config);
     "  task_cleanup_policy: " +:+ TaskCleanupPolicy config;
     "";
     "# Activity webhook";
     "activity_webhook: " +:+ ActivityWebhook config;
     "";
     "# Event triggers";
     "event_triggers:";
     "  enabled: " +:+ textOf (negb (bool_decide (EventTriggers_ config = [])));
     "  triggers: " +:+ generateEventTriggersConfig (EventTriggers_ config);
     "";
     "# Conditional dependencies";
     "conditional_dependencies:";
     "  enabled: " +:+ textOf (DependenciesEnabled dependencies);
     "  default_strategy: " +:+ DefaultStrategy dependencies;
     "  resolution_timeout: " +:+ ResolutionTimeout dependencies;
     "  cross_workflow_enabled: " +:+ textOf (CrossWorkflowEnabled dependencies);
     "";
     "# Auto-scaling";
     "auto_scaling:";
     "  enabled: " +:+ textOf (ScalingEnabled scaling);
     "  min_concurrent_tasks: " +:+ Itoa (MinConcurrentTasks scaling);
     "  max_concurrent_tasks: " +:+ Itoa (ScalingMaxTasks scaling);
     "  target_cpu_utilization: " +:+ Itoa (TargetCPUUtilization scaling);
     "  target_memory_utilization: " +:+ Itoa (TargetMemoryUtilization scaling);
     "  scale_up_cooldown: " +:+ ScaleUpCooldown scaling;
     "  scale_down_cooldown: " +:+ ScaleDownCooldown scaling;
     "  metrics_interval: " +:+ MetricsInterval scaling]).

(** ** Concurrency *)

(** float32: 24 bits of precision. *)
Definition float32_of (z : Z) : spec_float := binary_normalize 24 128 z 0 false.
Definition div32 : spec_float → spec_float → spec_float := SFdiv 24 128.
Definition mul32 : spec_float → spec_float → spec_float := SFmul 24 128.

(** A quarter of an int32 is exact in float64. *)
Definition floorQuarter (n : Z) : Z := n / 4.
Definition ceilQuarter (n : Z) : Z := - ((- n) / 4).

Definition clamp (low high n : Z) : Z :=
  let n := if n <? low then low else n in if high <? n then high else n.

Definition calculateDesiredConcurrency (config : TaskSchedulerConfig) (currentTasks : Z) : Z :=
  let scaling := AutoScaling config in
  let current := MaxConcurrentTasks config in
  if decide (currentTasks = 0) then MinConcurrentTasks scaling
  else
    let utilization := mul32 (div32 (float32_of currentTasks) (float32_of current)) (float32_of 100) in
    let target := float32_of (TargetCPUUtilization scaling) in
    let desired :=
      if SFltb target utilization then int32 (current + floorQuarter current)
      else if SFltb utilization (div32 target (float32_of 2)) then int32 (current - ceilQuarter current)
      else current in
    clamp (MinConcurrentTasks scaling) (ScalingMaxTasks scaling) desired.

(** ** Objects *)

Definition tsLabels (role : string) ts : gmap string string := {[
  "app.kubernetes.io/name" := "task-scheduler"; "app.kubernetes.io/instance" := TsName ts;
  "app.kubernetes.io/component" := "task-scheduler"; "app.kubernetes.io/managed-by" := "matey";
  "mcp.matey.ai/role" := role ]}.

Definition tsSelector ts : gmap string string := {[
  "app.kubernetes.io/name" := "task-scheduler"; "app.kubernetes.io/instance" := TsName ts ]}.

Definition tsKey ts : NN := (TsNamespace ts, TsName ts).
Definition configKey ts : NN := (TsNamespace ts, TsName ts +:+ "-config").

Definition tsService ts : Kube.Service :=
  let spec := TsSpec ts in
  {| Meta := {| Kube.Labels := <["mcp.matey.ai/server-name" := TsName ts]>
                  (<["mcp.matey.ai/protocol" := "http"]>
                     (<["mcp.matey.ai/capabilities" := "tools"]> (tsLabels "server" ts)));
                Kube.Annotations := TsServiceAnnotations spec; Controller := None |};
     Body := {| Type_ := if decide (TsServiceType spec = "") then "ClusterIP" else TsServiceType spec;
                ServicePorts := [{| ServicePortName := "http"; Port := TsPort spec; TargetPort := None |}];
                Kube.Selector := tsSelector ts |} |}.

(** Variables that are there if they are set. *)
Definition optionalVar (name value : string) : list EnvVar :=
  if decide (value = "") then [] else [{| EnvName := name; EnvValue := EnvLiteral value |}].

Section objects.
(** resource.ParseQuantity, with the quantity as text; the order in which the range over the
    environment visits it; and the configuration, if the controller has one. *)
Context (ParseQuantity : string → option string) (rangeEnv : gmap string string → list (string * string)).
Context (Config : option ComposeConfig).

Definition convertTaskSchedulerResourceList (resources : gmap string string) : gmap string string :=
  omap ParseQuantity resources.

Definition tsImage ts : string :=
  let image :=
    if decide (TsImage (TsSpec ts) = "") then
      match Config with
      | Some c => GetRegistryImage c "phildougherty/matey:latest"
      | None => "ghcr.io/phildougherty/matey:latest"
      end
    else TsImage (TsSpec ts) in
  match Config with
  | Some c => if negb (Contains image "/") && negb (HasPrefix image "matey:") then GetRegistryImage c image else image
  | None => image
  end.

Definition tsEnv ts : list EnvVar :=
  let spec := TsSpec ts in
  let var name value := {| EnvName := name; EnvValue := EnvLiteral value |} in
  [var "MCP_CRON_SERVER_PORT" (Itoa (TsPort spec)); var "MCP_CRON_SERVER_ADDRESS" (TsHost spec);
   var "MCP_CRON_SERVER_TRANSPORT" "sse"; var "MCP_CRON_LOGGING_LEVEL" (TsLogLevel spec);
   var "KUBERNETES_MODE" "true"; var "NAMESPACE" (TsNamespace ts)] ++
  (if TsPostgresEnabled spec && negb (bool_decide (TsDatabaseURL spec = ""))
   then [var "MCP_CRON_DATABASE_URL" (TsDatabaseURL spec); var "MCP_CRON_POSTGRES_ENABLED" "true";
         var "MCP_CRON_DATABASE_ENABLED" "true"]
   else [var "MCP_CRON_DATABASE_PATH" (TsDatabasePath spec); var "MCP_CRON_DATABASE_ENABLED" "true"]) ++
  ((λ kv : string * string, var kv.1 kv.2) <$> rangeEnv (TsEnv spec)) ++
  optionalVar "OPENROUTER_API_KEY" (OpenRouterAPIKey spec) ++
  optionalVar "OPENROUTER_MODEL" (OpenRouterModel spec) ++
  optionalVar "MCP_CRON_OLLAMA_BASE_URL" (OllamaURL spec) ++
  optionalVar "MCP_CRON_OLLAMA_DEFAULT_MODEL" (OllamaModel spec) ++
  optionalVar "MCP_PROXY_URL" (MCPProxyURL spec) ++
  optionalVar "MCP_PROXY_API_KEY" (MCPProxyAPIKey spec).

Definition tsContainer ts : Container :=
  let spec := TsSpec ts in
  {| ContainerName := "task-scheduler"; Image := tsImage ts; ImagePullPolicy := "Always";
     Command := match TsCommand spec with [] => ["./matey"] | l => l end;
     Kube.Args := match TsArgs spec with [] => ["task-scheduler"; "--file"; "/app/config/matey.yaml"] | l => l end;
     WorkingDir := ""; Env := tsEnv ts; Ports := [];
     Kube.Resources := {| Limits := convertTaskSchedulerResourceList <$> Limits (TsResources spec);
                          Requests := convertTaskSchedulerResourceList <$> Requests (TsResources spec) |};
     Security := None;
     VolumeMounts := [{| MountName := "config"; MountPath := "/app/config"; SubPath := ""; MountReadOnly := false |}];
     LivenessProbe := None; ReadinessProbe := None |}.

(** A volume of the kind Directory of the host. *)
Definition buildPodSpec ts : PodSpec :=
  let spec := TsSpec ts in
  {| Containers := [tsContainer ts];
     Volumes := [{| VolumeName := "config"; Source := HostPath "/home/phil/dev/m8e" |}];
     RestartPolicy := "Always"; NodeSelector := TsNodeSelector spec;
     ServiceAccountName := if decide (TsServiceAccount spec = "") then "task-scheduler" else TsServiceAccount spec;
     ImagePullSecrets := match TsImagePullSecrets spec with [] => ["registry-secret"] | l => l end;
     PodSecurity := (λ s, {| RunAsNonRoot := Some true; AllowPrivilegeEscalation := None;
       ReadOnlyRootFilesystem := None; RunAsUser := SecRunAsUser s; RunAsGroup := SecRunAsGroup s;
       SecurityCapabilities := None |}) <$> TsSecurity spec |}.

Definition tsDeployment ts : Deployment :=
  {| Meta := {| Kube.Labels := tsLabels "task-scheduler" ts; Kube.Annotations := ∅; Controller := None |};
     Body := {| DeploymentSpec_ := {| Replicas := default 1 (TsReplicas (TsSpec ts)); MatchLabels := tsSelector ts;
                  PodLabels := tsLabels "task-scheduler" ts; PodAnnotations := TsPodAnnotations (TsSpec ts);
                  Template := buildPodSpec ts |};
                DeploymentStatus_ := {| StatusReplicas := 0; ReadyReplicas := 0 |} |} |}.
End objects.

(** ** The world of the reconciler *)

(** [sched] is the scheduler of the resource in the reconciler's map, if it is there
    ([created]), with the jobs of the namespace; [watchers] are the goroutines of the
    resource that have not been cancelled. *)
Record TsWorld (C : Type) := {
  kube : Cluster () ();
  stored : option MCPTaskScheduler;
  sched : SchedWorld C;
  created : bool;
  watchers : option (list Watcher);
}.
Arguments kube {C} _.
Arguments stored {C} _.
Arguments sched {C} _.
Arguments created {C} _.
Arguments watchers {C} _.

Section controller.
Context {C : Type} `{CronLib C} `{!JobLib} `{!Codec} `{!SchedulerLib}.
Context (env : nat → Outcome) (delivered : nat → option nat) (now : Z).
Context (ParseQuantity : string → option string) (rangeEnv : gmap string string → list (string * string)).
Context (Config : option ComposeConfig) (disableEventWatch : bool).
(** The order in which the ranges over the cron jobs and the annotations visit them. *)
Context (jobOrder : gmap string loc → list string) (annotationOrder : gmap string string → list string).
Implicit Types (w : TsWorld C).

Notation M := (Prog (TsWorld C)).

Definition with_kube (c : Cluster () ()) w : TsWorld C :=
  {| kube := c; stored := stored w; sched := sched w; created := created w; watchers := watchers w |}.
Definition with_stored (r : option MCPTaskScheduler) w : TsWorld C :=
  {| kube := kube w; stored := r; sched := sched w; created := created w; watchers := watchers w |}.
Definition with_sched (s : SchedWorld C) w : TsWorld C :=
  {| kube := kube w; stored := stored w; sched := s; created := created w; watchers := watchers w |}.
Definition with_created (b : bool) w : TsWorld C :=
  {| kube := kube w; stored := stored w; sched := sched w; created := b; watchers := watchers w |}.
Definition with_watchers (l : option (list Watcher)) w : TsWorld C :=
  {| kube := kube w; stored := stored w; sched := sched w; created := created w; watchers := l |}.

Definition onKube {A} (m : Kube () () A) : M A := λ '(w, n),
  let '(r, c) := m (at_calls n (kube w)) in
  (match r with Ok a => Ok a | Err e => Err (errorText e) end, (with_kube c w, calls c)).

(** The scheduler reads and writes the resource that is named "task-scheduler", which may
    be the one that is reconciled. *)
Definition own ts : bool := bool_decide (TsName ts = "task-scheduler").

Definition schedulerView w : SchedWorld C :=
  match stored w with
  | Some ts =>
      if own ts
      then set_resource (Some {| SpecWorkflows := TsWorkflows (TsSpec ts);
                                 WorkflowExecutions := TsExecutions (TsStatus ts);
                                 ResourceVersion := TsVersion ts |}) (sched w)
      else sched w
  | None => sched w
  end.

Definition setWorkflows (l : list Workflow) (p : TaskSchedulerSpec) : TaskSchedulerSpec :=
  {| TsImage := TsImage p; TsCommand := TsCommand p; TsArgs := TsArgs p; TsEnv := TsEnv p;
     TsPort := TsPort p; TsHost := TsHost p; TsDatabasePath := TsDatabasePath p; TsDatabaseURL := TsDatabaseURL p;
     TsPostgresEnabled := TsPostgresEnabled p; TsLogLevel := TsLogLevel p; OpenRouterAPIKey := OpenRouterAPIKey p;
     OpenRouterModel := OpenRouterModel p; OllamaURL := OllamaURL p; OllamaModel := OllamaModel p;
     MCPProxyURL := MCPProxyURL p; MCPProxyAPIKey := MCPProxyAPIKey p; TsResources := TsResources p;
     TsSecurity := TsSecurity p; TsReplicas := TsReplicas p; TsNodeSelector := TsNodeSelector p;
     TsServiceType := TsServiceType p; TsServiceAnnotations := TsServiceAnnotations p;
     TsServiceAccount := TsServiceAccount p; TsImagePullSecrets := TsImagePullSecrets p;
     TsPodAnnotations := TsPodAnnotations p; SchedulerSettings := SchedulerSettings p; TsWorkflows := l |}.

Definition mergeResource (r : SchedulerResource) ts : MCPTaskScheduler :=
  let s := TsStatus ts in
  {| TsName := TsName ts; TsNamespace := TsNamespace ts; TsUID := TsUID ts; TsAnnotations := TsAnnotations ts;
     TsVersion := ResourceVersion r; TsSpec := setWorkflows (SpecWorkflows r) (TsSpec ts);
     TsStatus := {| TsPhase := TsPhase s; TsConditions := TsConditions s; TaskStats := TaskStats s;
                    WorkflowStats := WorkflowStats s; TsExecutions := WorkflowExecutions r;
                    TsReplicaCount := TsReplicaCount s; TsReadyReplicas := TsReadyReplicas s |} |}.

Definition setSchedulerView (s : SchedWorld C) w : TsWorld C :=
  with_stored
    match stored w, resource s with
    | Some ts, Some r => if own ts then Some (mergeResource r ts) else Some ts
    | r, _ => r
    end (with_sched s w).

Definition onScheduler {A} (m : Prog (SchedWorld C) A) : M A := on schedulerView setSchedulerView m.
Definition onJobs {A} (m : Prog JobCluster A) : M A := onScheduler (onCluster m).

Definition modify (f : TsWorld C → TsWorld C) : M () := λ '(w, n), (Ok (), (f w, n)).
Definition gets {A} (f : TsWorld C → A) : M A := λ '(w, n), (Ok (f w), (w, n)).

(** ** The resource *)

Definition fetchTaskScheduler : M (option MCPTaskScheduler) := call env (λ w, (Ok (stored w), w)).

Definition replaceStored (f : MCPTaskScheduler → MCPTaskScheduler) ts : M MCPTaskScheduler :=
  call env (λ w,
    match stored w with
    | None => (Err "not found", w)
    | Some found =>
        if decide (TsVersion found = TsVersion ts)
        then (Ok (f found), with_stored (Some (f found)) w)
        else (Err "the object has been modified", w)
    end).

(** An update of the status alone, and one of everything else; each answers the object as
    it is stored. *)
Definition updateStatus ts : M MCPTaskScheduler :=
  replaceStored (λ found,
    {| TsName := TsName found; TsNamespace := TsNamespace found; TsUID := TsUID found;
       TsAnnotations := TsAnnotations found; TsVersion := S (TsVersion found);
       TsSpec := TsSpec found; TsStatus := TsStatus ts |}) ts.
Definition updateResource ts : M MCPTaskScheduler :=
  replaceStored (λ found,
    {| TsName := TsName found; TsNamespace := TsNamespace found; TsUID := TsUID found;
       TsAnnotations := TsAnnotations ts; TsVersion := S (TsVersion found);
       TsSpec := TsSpec ts; TsStatus := TsStatus found |}) ts.

(** ** Objects of the scheduler *)

Definition reconcileConfigMap ts : M () :=
  onKube (ReconcileConfigMap env (TsUID ts) (configKey ts) (tsLabels "task-scheduler" ts)
    {["matey.yaml" := generateTaskSchedulerConfig ts]} "matey.yaml").

Definition reconcileService ts : M () :=
  onKube (reconcileResource env (TsUID ts) (tsKey ts) (tsService ts) None).

Definition reconcileDeployment ts : M () :=
  onKube (reconcileResource env (TsUID ts) (tsKey ts) (tsDeployment ParseQuantity rangeEnv Config ts)
    (Some (alwaysUpdate, takeSpec))).

Definition getDeployment ts : M Deployment := onKube (Get env (B := DeploymentBody) (tsKey ts)).

(** ** Jobs *)

Definition schedulerLabel : string := "mcp.matey.ai/scheduler".

Definition updateTaskStatistics ts : M MCPTaskScheduler :=
  jobList ← onJobs (listJobs env schedulerLabel (TsName ts));
  let counted := foldl countTask {| TotalTasks := len jobList; CompletedTasks := 0; FailedTasks := 0;
                                    RunningTasks := 0; ScheduledTasks := 0; LastTaskTime := "" |} jobList in
  mret (setTaskStats {| TotalTasks := TotalTasks counted; CompletedTasks := CompletedTasks counted;
                        FailedTasks := FailedTasks counted; RunningTasks := RunningTasks counted;
                        ScheduledTasks := 0; LastTaskTime := rfc3339 now |} ts).

(** A job that is gone already is as good as deleted. *)
Definition cleanupJobs ts : M () :=
  jobList ← onJobs (listJobs env schedulerLabel (TsName ts));
  each (λ job : string * Job,
    deleted ← attempt (onJobs (deleteJob env false job.1));
    match deleted with
    | Err e => if decide (e = "not found") then mret () else throw e
    | Ok _ => mret ()
    end) jobList.

(** ** Scaling *)

Definition maxInt32 : Z := 2 ^ 31 - 1.

(** The resource as it is in memory then, and the error. *)
Definition handleAutoScaling ts : M (MCPTaskScheduler * res string ()) :=
  deployment ← attempt (getDeployment ts);
  match deployment with
  | Err e => mret (ts, Err e)
  | Ok _ =>
      let currentTasks := RunningTasks (TaskStats (TsStatus ts)) in
      let currentTasks32 := if maxInt32 <? currentTasks then maxInt32 else currentTasks in
      let desiredConcurrency := calculateDesiredConcurrency (settings ts) currentTasks32 in
      if decide (desiredConcurrency = MaxConcurrentTasks (settings ts)) then mret (ts, Ok ())
      else
        let ts := setMaxConcurrentTasks desiredConcurrency ts in
        r ← attempt (reconcileConfigMap ts);
        mret (ts, r)
  end.

(** ** Workflows *)

Definition schedulerConfig ts : SchedulerConfig :=
  {| Namespace := TsNamespace ts; hasClient := true; hasStore := false; enableDeletionSync := false |}.

(** A scheduler with a new cron engine; what was started before, for the same resource,
    goes on. *)
Definition newWorkflowScheduler (s : SchedWorld C) : SchedWorld C :=
  {| engine := NewCronEngine; handlers := ∅; cluster := cluster s; database := database s;
     resource := resource s; monitors := monitors s; watching := watching s; schedStarted := false |}.

Definition ensureScheduler w : TsWorld C :=
  if created w then w else with_created true (with_sched (newWorkflowScheduler (sched w)) w).

(** What a cron job becomes in the status. *)
Definition executionOf (job : JobSpec) : StatusExecution :=
  let scheduled := {| StatusExecID := ID job; StatusWorkflow := JobName job; StatusStartTime := now;
    StatusEndTime := None; StatusDuration := None; StatusExecPhase := "Pending";
    StatusExecMessage := "Workflow is scheduled and waiting for next execution"; StepResults := ∅ |} in
  match LastRun job with
  | None => scheduled
  | Some lastRun =>
      {| StatusExecID := ID job; StatusWorkflow := JobName job; StatusStartTime := lastRun;
         StatusEndTime := Some lastRun; StatusDuration := (λ next, next - lastRun) <$> NextRun job;
         StatusExecPhase := "Succeeded"; StatusExecMessage := StatusExecMessage scheduled; StepResults := ∅ |}
  end.

Definition inPhase (phase : string) (l : list StatusExecution) : Z :=
  len (filter (λ x, StatusExecPhase x = phase) l).

Definition scheduledJobs (s : SchedWorld C) : list JobSpec :=
  omap (λ l, heap (engine s) !! l) (ListScheduledWorkflows (jobOrder (CronEngine.jobs (engine s))) s).

Definition updateWorkflowStatus ts : M MCPTaskScheduler :=
  gets (λ w,
    let executions := executionOf <$> scheduledJobs (sched w) in
    setWorkflowStatus executions
      {| TotalWorkflows := len (TsWorkflows (TsSpec ts)); RunningWorkflows := inPhase "Running" executions;
         CompletedWorkflows := inPhase "Succeeded" executions; FailedWorkflows := inPhase "Failed" executions;
         LastWorkflowTime := rfc3339 now |} ts).

Definition manualPrefix : string := "mcp.matey.ai/manual-execution-".

Definition workflowNamed (name : string) ts : option Workflow :=
  head (filter (λ workflow : Workflow, WorkflowName workflow = name) (TsWorkflows (TsSpec ts))).

(** A request: whether its annotation is to be removed. *)
Definition handleRequest ts (key : string) : M (option string) :=
  if HasPrefix key manualPrefix && negb (bool_decide (TrimPrefix key manualPrefix = "")) then
    match workflowNamed (TrimPrefix key manualPrefix) ts with
    | None => mret (Some key)
    | Some workflow =>
        r ← attempt (onScheduler (ExecuteWorkflowManually env (schedulerConfig ts) now (Some workflow)
                                    (default "" (TsAnnotations ts !! key))));
        mret match r with Ok _ => Some key | Err _ => None end
    end
  else mret None.

Definition withAnnotations (m : gmap string string) ts : MCPTaskScheduler :=
  {| TsName := TsName ts; TsNamespace := TsNamespace ts; TsUID := TsUID ts; TsAnnotations := m;
     TsVersion := TsVersion ts; TsSpec := TsSpec ts; TsStatus := TsStatus ts |}.

Definition removeAnnotations (keys : list string) (m : gmap string string) : gmap string string :=
  let m := foldl (λ m key, delete key m) m keys in
  if existsb (λ key, HasPrefix key manualPrefix) (map_to_list m).*1 then m
  else delete (manualPrefix +:+ "requested") m.

(** What is written is a copy: [ts] keeps the version that it was read with. *)
Definition handleManualExecutions ts : M () :=
  removed ← collect (handleRequest ts) (annotationOrder (TsAnnotations ts));
  match omap id removed with
  | [] => mret ()
  | annotationsToRemove =>
      updateResource (withAnnotations (removeAnnotations annotationsToRemove (TsAnnotations ts)) ts);; mret ()
  end.

Definition reconcileWorkflows ts : M (MCPTaskScheduler * res string ()) :=
  modify ensureScheduler;;
  started ← attempt (during "failed to start workflow scheduler"
    (onScheduler (WorkflowScheduler.Start env delivered (schedulerConfig ts) now)));
  match started with
  | Err e => mret (ts, Err e)
  | Ok _ =>
      each (λ workflow, attempt (onScheduler (SyncWorkflow (schedulerConfig ts) now workflow));; mret ())
        (TsWorkflows (TsSpec ts));;
      ts ← updateWorkflowStatus ts;
      attempt (handleManualExecutions ts);;
      mret (ts, Ok ())
  end.

(** ** Phases *)

Definition duration (s : Z) : Z := s * 10 ^ 9.

Definition reconcilePending ts : M Result :=
  updateStatus (setPhase MCPTaskSchedulerPhaseCreating ts);;
  mret {| Requeue := true; RequeueAfter := 0 |}.

Definition reconcileCreating ts : M Result :=
  reconcileConfigMap ts;;
  reconcileService ts;;
  reconcileDeployment ts;;
  updateStatus (setPhase MCPTaskSchedulerPhaseStarting ts);;
  mret Done.

Definition isReady (status : DeploymentStatus) : bool := 0 <? ReadyReplicas status.

Definition reconcileStarting ts : M Result :=
  deployment ← attempt (getDeployment ts);
  match deployment with
  | Err _ => mret Done
  | Ok d =>
      let status := DeploymentStatus_ (Body d) in
      if isReady status then
        updateStatus
          (updateCondition now "Ready" true "DeploymentReady" "Task scheduler deployment is ready"
             (setReplicas status (setPhase MCPTaskSchedulerPhaseRunning ts)));;
        mret {| Requeue := false; RequeueAfter := duration 120 |}
      else mret {| Requeue := false; RequeueAfter := duration 10 |}
  end.

Definition reconcileRunning ts : M Result :=
  reconcileDeployment ts;;
  modify (λ w, with_watchers (setupEventWatching disableEventWatch (EventTriggers_ (settings ts)) (watchers w)) w);;
  counted ← attempt (updateTaskStatistics ts);
  let ts := match counted with Ok ts => ts | Err _ => ts end in
  scheduled ← (if decide (TsPhase (TsStatus ts) = MCPTaskSchedulerPhaseRunning)
               then reconcileWorkflows ts else mret (ts, Ok ()));
  let ts := scheduled.1 in
  scaled ← (if ScalingEnabled (AutoScaling (settings ts)) then handleAutoScaling ts else mret (ts, Ok ()));
  let ts := scaled.1 in
  deployment ← attempt (getDeployment ts);
  match deployment with
  | Err _ => mret Done
  | Ok d =>
      let status := DeploymentStatus_ (Body d) in
      let ts := setReplicas status ts in
      updateStatus
        (if isReady status then updateCondition now "Healthy" true "Healthy" "Task scheduler is healthy" ts
         else updateCondition now "Healthy" false "Unhealthy" "Task scheduler has no ready replicas" ts);;
      mret {| Requeue := false; RequeueAfter := duration 120 |}
  end.

Definition reconcileFailed ts : M Result :=
  updateStatus (setPhase MCPTaskSchedulerPhaseCreating ts);; mret Done.

Definition cleanupWorkflowScheduler w : TsWorld C :=
  if created w then with_created false (with_sched (WorkflowScheduler.Stop (sched w)) w) else w.

Definition reconcileTerminating ts : M Result :=
  modify (with_watchers None);;
  modify cleanupWorkflowScheduler;;
  cleanupJobs ts;;
  mret Done.

Definition reconcilePhase ts : M Result :=
  let phase := TsPhase (TsStatus ts) in
  if decide (phase = MCPTaskSchedulerPhasePending) then reconcilePending ts
  else if decide (phase = MCPTaskSchedulerPhaseCreating) then reconcileCreating ts
  else if decide (phase = MCPTaskSchedulerPhaseStarting) then reconcileStarting ts
  else if decide (phase = MCPTaskSchedulerPhaseRunning) then reconcileRunning ts
  else if decide (phase = MCPTaskSchedulerPhaseFailed) then reconcileFailed ts
  else if decide (phase = MCPTaskSchedulerPhaseTerminating) then reconcileTerminating ts
  else mret Done.

Definition Reconcile : M Result :=
  found ← fetchTaskScheduler;
  match found with
  | None => mret Done
  | Some ts =>
      ts ← (if decide (TsPhase (TsStatus ts) = "")
            then updateStatus (setPhase MCPTaskSchedulerPhasePending ts) else mret ts);
      reconcilePhase ts
  end.
End controller.

(** ** Concurrency *)

Lemma clamp_spec low high n : low ≤ high → low ≤ clamp low high n ≤ high ∧
  (clamp low high n = n ∨ clamp low high n = low ∧ n < low ∨ clamp low high n = high ∧ high < n).
Proof.
  intros Hl. unfold clamp. destruct (n <? low) eqn:E1; [apply Z.ltb_lt in E1|apply Z.ltb_ge in E1].
  - assert (high <? low = false) as -> by (apply Z.ltb_ge; lia). lia.
  - destruct (high <? n) eqn:E2; [apply Z.ltb_lt in E2|apply Z.ltb_ge in E2]; lia.
Qed.

Lemma int32_small z : - 2 ^ 31 ≤ z < 2 ^ 31 → int32 z = z.
Proof. intros Hz. unfold int32. rewrite Z.mod_small; lia. Qed.

Lemma concurrency_within config currentTasks :
  let current := MaxConcurrentTasks config in
  let low := MinConcurrentTasks (AutoScaling config) in
  let high := ScalingMaxTasks (AutoScaling config) in
  let desired := calculateDesiredConcurrency config currentTasks in
  0 ≤ low ≤ high → 0 ≤ current < 2 ^ 31 →
  low ≤ desired ≤ high ∧ (currentTasks = 0 → desired = low) ∧
  (currentTasks ≠ 0 → current + current / 4 < 2 ^ 31 →
     ∃ n, desired = clamp low high n ∧ (n = current ∨ n = current + current / 4 ∨ n = current - ceilQuarter current)) ∧
  (2 ^ 31 ≤ current + current / 4 →
     desired = low ∨ desired = clamp low high current ∨ desired = clamp low high (current - ceilQuarter current)).
Proof.
  intros current low high desired Hb Hc. unfold desired, calculateDesiredConcurrency. fold low high current.
  assert (0 ≤ current / 4 ≤ current) by (split; [apply Z.div_pos; lia|apply Z.div_le_upper_bound; lia]).
  assert (0 ≤ ceilQuarter current ≤ current) as Hq.
  { unfold ceilQuarter. pose proof (Z.div_mod (- current) 4 ltac:(lia)). pose proof (Z.mod_pos_bound (- current) 4 ltac:(lia)). lia. }
  destruct (decide (currentTasks = 0)) as [|Hne]; [split_and!; [lia..|done|intros; by left]|].
  split; [apply clamp_spec; lia|]. split; [done|]. unfold floorQuarter.
  rewrite (int32_small (current - ceilQuarter current)) by lia. destruct (SFltb _ _).
  - split.
    + intros _ Hs. rewrite int32_small by lia. eauto.
    + intros Hbig. left. unfold int32. assert ((current + current / 4 + 2 ^ 31) mod 2 ^ 32 = current + current / 4 - 2 ^ 31) as ->.
      { symmetry. apply (Z.mod_unique _ _ 1); [left|]; lia. }
      unfold clamp. assert (current + current / 4 - 2 ^ 31 - 2 ^ 31 <? low = true) as -> by (apply Z.ltb_lt; lia).
      assert (high <? low = false) as -> by (apply Z.ltb_ge; lia). done.
  - split; [intros _ _; destruct (SFltb _ _); eauto|intros _; destruct (SFltb _ _); auto].
Qed.

(** The share of running tasks in per cent, as the code computes it in float32. *)
Definition utilizationOf (currentTasks current : Z) : spec_float :=
  mul32 (div32 (float32_of currentTasks) (float32_of current)) (float32_of 100).

(** The float comparisons of a utilization with a target agree with those of the
    exact quotient, but for the quotient that is the target exactly. *)
Definition comparesRight (current currentTasks target : Z) (utilization : spec_float) : bool :=
  let above := SFltb (float32_of target) utilization in
  let below := SFltb utilization (div32 (float32_of target) (float32_of 2)) in
  implb (target * current <? 100 * currentTasks) above &&
  implb (100 * currentTasks <? target * current) (negb above) &&
  implb (200 * currentTasks <? target * current) below &&
  implb (target * current <=? 200 * currentTasks) (negb below).

Definition upTo (n : nat) : list Z := Z.of_nat <$> seq 1 n.

Lemma upTo_elem (n : nat) z : 1 ≤ z ≤ Z.of_nat n → List.In z (upTo n).
Proof.
  intros Hz. apply list_elem_of_In, list_elem_of_fmap. exists (Z.to_nat z).
  split; [lia|]. apply elem_of_seq. lia.
Qed.

Definition allCompareRight (n m : nat) : bool :=
  forallb (λ current, forallb (λ currentTasks,
    let utilization := utilizationOf currentTasks current in
    forallb (λ target, comparesRight current currentTasks target utilization) (upTo 100)) (upTo m)) (upTo n).

Lemma allCompareRight_at n m current currentTasks target : allCompareRight n m = true →
  1 ≤ current ≤ Z.of_nat n → 1 ≤ currentTasks ≤ Z.of_nat m → 1 ≤ target ≤ 100 →
  comparesRight current currentTasks target (utilizationOf currentTasks current) = true.
Proof.
  unfold allCompareRight. intros Hall Hc Ht Hg.
  rewrite forallb_forall in Hall. specialize (Hall current (upTo_elem n current Hc)).
  rewrite forallb_forall in Hall. specialize (Hall currentTasks (upTo_elem m currentTasks Ht)).
  cbv zeta in Hall. rewrite forallb_forall in Hall. exact (Hall target (upTo_elem 100 target Hg)).
Qed.

Lemma compare_right : allCompareRight 50 50 = true.
Proof. vm_compute. reflexivity. Qed.

Lemma utilization_compares current currentTasks target :
  1 ≤ current ≤ 50 → 1 ≤ currentTasks ≤ 50 → 1 ≤ target ≤ 100 →
  comparesRight current currentTasks target (utilizationOf currentTasks current) = true.
Proof. apply (allCompareRight_at 50 50), compare_right. Qed.

Lemma concurrency_direction config currentTasks :
  let current := MaxConcurrentTasks config in
  let low := MinConcurrentTasks (AutoScaling config) in
  let high := ScalingMaxTasks (AutoScaling config) in
  let target := TargetCPUUtilization (AutoScaling config) in
  let desired := calculateDesiredConcurrency config currentTasks in
  0 ≤ low ≤ high → 1 ≤ current ≤ 50 → 1 ≤ currentTasks ≤ 50 → 1 ≤ target ≤ 100 →
  (target * current < 100 * currentTasks → desired = clamp low high (current + current / 4)) ∧
  (200 * currentTasks < target * current → desired = clamp low high (current - ceilQuarter current)) ∧
  (100 * currentTasks < target * current ≤ 200 * currentTasks → desired = clamp low high current).
Proof.
  intros current low high target desired Hb Hcur Htasks Htarget.
  assert (0 ≤ current / 4 ≤ current) by (split; [apply Z.div_pos; lia|apply Z.div_le_upper_bound; lia]).
  assert (0 ≤ ceilQuarter current ≤ current) as Hq.
  { unfold ceilQuarter. pose proof (Z.div_mod (- current) 4 ltac:(lia)). pose proof (Z.mod_pos_bound (- current) 4 ltac:(lia)). lia. }
  pose proof (utilization_compares current currentTasks target Hcur Htasks Htarget) as Hf.
  unfold comparesRight, utilizationOf in Hf.
  unfold desired, calculateDesiredConcurrency, floorQuarter. fold low high current target.
  rewrite decide_False by lia.
  rewrite (int32_small (current - ceilQuarter current)), (int32_small (current + current / 4)) by lia.
  revert Hf. destruct (SFltb _ _), (SFltb _ _);
    destruct (Z.ltb_spec (target * current) (100 * currentTasks)),
      (Z.ltb_spec (100 * currentTasks) (target * current)),
      (Z.ltb_spec (200 * currentTasks) (target * current)),
      (Z.leb_spec (target * current) (200 * currentTasks)); simpl; try done; intros _; split_and!; try done; lia.
Qed.

(** C32: with bounds 0 ≤ low ≤ high the concurrency that is asked for lies within them.
    It is the smallest when nothing runs, whatever it is at present; otherwise it is the
    present one, or a quarter more (rounded down) or less (rounded up), cut to the bounds,
    as long as a quarter more is an int32; beyond that, a scheduler that should get a
    quarter more is set to its smallest concurrency.  For up to 50 tasks, of which up to
    50 run, and a target of up to 100 per cent the direction is that of the exact share:
    a quarter more when the running tasks are more than the target's share of the present
    concurrency, a quarter less when they are less than half of that share, the present
    one in between.  (When they are the target's share exactly, the rounding of float32
    decides: [exact_target].) *)
Theorem concurrency_bounds config currentTasks :
  let current := MaxConcurrentTasks config in
  let low := MinConcurrentTasks (AutoScaling config) in
  let high := ScalingMaxTasks (AutoScaling config) in
  let target := TargetCPUUtilization (AutoScaling config) in
  let desired := calculateDesiredConcurrency config currentTasks in
  0 ≤ low ≤ high → 0 ≤ current < 2 ^ 31 →
  low ≤ desired ≤ high ∧ (currentTasks = 0 → desired = low) ∧
  (currentTasks ≠ 0 → current + current / 4 < 2 ^ 31 →
     ∃ n, desired = clamp low high n ∧ (n = current ∨ n = current + current / 4 ∨ n = current - ceilQuarter current)) ∧
  (2 ^ 31 ≤ current + current / 4 →
     desired = low ∨ desired = clamp low high current ∨ desired = clamp low high (current - ceilQuarter current)) ∧
  (1 ≤ current ≤ 50 → 1 ≤ currentTasks ≤ 50 → 1 ≤ target ≤ 100 →
     (target * current < 100 * currentTasks → desired = clamp low high (current + current / 4)) ∧
     (200 * currentTasks < target * current → desired = clamp low high (current - ceilQuarter current)) ∧
     (100 * currentTasks < target * current ≤ 200 * currentTasks → desired = clamp low high current)).
Proof.
  intros current low high target desired Hb Hc.
  destruct (concurrency_within config currentTasks Hb Hc) as (H1 & H2 & H3 & H4).
  split_and!; [apply H1..|exact H2|exact H3|exact H4|]. intros Hcur Htasks Htarget.
  exact (concurrency_direction config currentTasks Hb Hcur Htasks Htarget).
Qed.
Definition scalingOf (low high target current : Z) : TaskSchedulerConfig :=
  {| DefaultTimeout := "5m"; MaxConcurrentTasks := current;
     TaskPolicy := {| PolicyMaxRetries := 3; PolicyRetryDelay := "30s"; PolicyBackoffStrategy := "Exponential" |};
     ActivityWebhook := ""; TaskStorageEnabled := true; TaskHistoryLimit := 100; TaskCleanupPolicy := "Delete";
     EventTriggers_ := [];
     ConditionalDependencies := {| DependenciesEnabled := false; DefaultStrategy := ""; ResolutionTimeout := "";
                                   CrossWorkflowEnabled := false |};
     AutoScaling := {| ScalingEnabled := true; MinConcurrentTasks := low; ScalingMaxTasks := high;
       TargetCPUUtilization := target; TargetMemoryUtilization := 80; ScaleUpCooldown := "5m";
       ScaleDownCooldown := "5m"; MetricsInterval := "30s" |} |}.

Lemma concurrency_bounds_witness :
  2 ≤ calculateDesiredConcurrency (scalingOf 2 50 70 10) 9 ≤ 50 ∧
  calculateDesiredConcurrency (scalingOf 2 50 70 10) 9 = clamp 2 50 (10 + 10 / 4).
Proof.
  destruct (concurrency_bounds (scalingOf 2 50 70 10) 9) as (Hb & _ & _ & _ & Hd); [simpl; lia..|].
  split; [exact Hb|]. destruct Hd as [Hup _]; [simpl; lia..|]. apply Hup. simpl. lia.
Defined.

(** Six of ten tasks are the target of 60 per cent exactly, and a quarter more is asked
    for, as 6 / 10 * 100 is more than 60 in float32; seven of ten are not more than 70. *)
Example exact_target :
  calculateDesiredConcurrency (scalingOf 2 50 60 10) 6 = 12 ∧
  calculateDesiredConcurrency (scalingOf 2 50 70 10) 7 = 10.
Proof. vm_compute. done. Qed.

(** A scheduler that nothing may run on scales neither up nor down; a small one cannot
    scale up, for a quarter of it is nothing. *)
Example concurrency_ex :
  calculateDesiredConcurrency (scalingOf 0 50 70 0) 5 = 0 ∧
  calculateDesiredConcurrency (scalingOf 1 50 70 3) 3 = 3 ∧
  calculateDesiredConcurrency (scalingOf 1 50 70 10) 3 = 7 ∧
  calculateDesiredConcurrency (scalingOf 1 50 70 10) 4 = 10 ∧
  calculateDesiredConcurrency (scalingOf 5 2 70 10) 0 = 5.
Proof. vm_compute. done. Qed.

(** ** What stays *)

Section stays.
Context {C : Type} `{CronLib C} `{!JobLib} `{!Codec} `{!SchedulerLib}.
Context (env : nat → Outcome) (delivered : nat → option nat) (now : Z).
Context (ParseQuantity : string → option string) (rangeEnv : gmap string string → list (string * string)).
Context (Config : option ComposeConfig) (disableEventWatch : bool).
Context (jobOrder : gmap string loc → list string) (annotationOrder : gmap string string → list string).
Implicit Types (w : TsWorld C).

Notation M := (Prog (TsWorld C)).

(** The same resource, but for its version, its annotations and its status. *)
Definition alike ts ts' : Prop :=
  TsName ts' = TsName ts ∧ TsNamespace ts' = TsNamespace ts ∧ TsUID ts' = TsUID ts ∧ TsSpec ts' = TsSpec ts.

#[local] Instance alike_equiv : Equivalence alike.
Proof. unfold alike. split; [intros ?|intros ?? ?|intros ??? ??]; naive_solver congruence. Qed.

(** What [P] says of the world is kept, whatever becomes of the calls, and what the
    program answers is as [R] says. *)
Definition yields {A} (P : TsWorld C → Prop) (R : A → Prop) (m : M A) : Prop :=
  ∀ w n, P w → wp m (w, n) (λ r y, P y.1 ∧ ∀ a, r = Ok a → R a).
Definition preserves {A} (P : TsWorld C → Prop) (m : M A) : Prop := yields P (λ _, True) m.

Lemma yields_ret {A} P (R : A → Prop) a : R a → yields P R (mret a).
Proof. intros Ha w n Hw. apply prog_ret. split; [done|]. by intros ? [= <-]. Qed.

Lemma yields_bind {A B} P (R : A → Prop) (R' : B → Prop) (m : M A) (f : A → M B) :
  yields P R m → (∀ a, R a → yields P R' (f a)) → yields P R' (m ≫= f).
Proof.
  intros Hm Hf w n Hw. apply prog_bind. eapply prog_mono; [by apply Hm|]. intros [a|e] [w' n'] [Hw' Ha].
  - apply Hf; [by apply Ha|done].
  - by split.
Qed.

Lemma yields_attempt {A} P (R : A → Prop) (m : M A) :
  yields P R m → yields P (λ r, ∀ a, r = Ok a → R a) (attempt m).
Proof.
  intros Hm w n Hw. apply wp_attempt. eapply prog_mono; [by apply Hm|]. intros r y [Hy Hr]. split; [done|].
  by intros ? [= <-].
Qed.

Lemma preserves_ret {A} P (a : A) : preserves P (mret a).
Proof. by apply yields_ret. Qed.

Lemma preserves_throw {A} P e : preserves P (throw e : M A).
Proof. by intros w n. Qed.

Lemma preserves_bind {A B} P R (m : M A) (f : A → M B) :
  preserves P m → (∀ a, yields P R (f a)) → yields P R (m ≫= f).
Proof. intros Hm Hf. eapply yields_bind; [exact Hm|]. intros a _. apply Hf. Qed.

Lemma preserves_attempt {A} P (m : M A) : preserves P m → preserves P (attempt m).
Proof. intros Hm w n Hw. apply wp_attempt. eapply prog_mono; [by apply Hm|]. by intros r y [Hy _]. Qed.

Lemma preserves_each {A} P (f : A → M ()) l : (∀ a, preserves P (f a)) → preserves P (each f l).
Proof. intros Hf. induction l; simpl; [apply preserves_ret|by apply preserves_bind]. Qed.

Lemma preserves_collect {A B} P (f : A → M B) l : (∀ a, preserves P (f a)) → preserves P (collect f l).
Proof.
  intros Hf. induction l; simpl; [apply preserves_ret|]. apply preserves_bind; [done|]. intros b.
  apply preserves_bind; [done|]. intros ?. apply preserves_ret.
Qed.

Lemma preserves_modify P f : (∀ w, P w → P (f w)) → preserves P (modify f).
Proof. intros Hf w n Hw. split; [by apply Hf|done]. Qed.

Lemma yields_gets {A} P (R : A → Prop) (f : TsWorld C → A) : (∀ w, R (f w)) → yields P R (gets f).
Proof. intros Hf w n Hw. split; [done|]. by intros ? [= <-]. Qed.

(** Statements about the stored resource alone, and about the cluster besides. *)
Definition of_stored (Q : option MCPTaskScheduler → Prop) w : Prop := Q (stored w).

Lemma preserves_onKube {A} Q (m : Kube () () A) : preserves (of_stored Q) (onKube m).
Proof. intros w n Hw. unfold wp, onKube. destruct (m _) as [r c]. by split. Qed.

Lemma mergeResource_view ts :
  mergeResource {| SpecWorkflows := TsWorkflows (TsSpec ts); WorkflowExecutions := TsExecutions (TsStatus ts);
                   ResourceVersion := TsVersion ts |} ts = ts.
Proof. by destruct ts as [? ? ? ? ? [] []]. Qed.

Lemma setSchedulerView_stored s w : resource s = resource (schedulerView w) → stored (setSchedulerView s w) = stored w.
Proof.
  unfold setSchedulerView, schedulerView. cbn [stored with_stored]. destruct (stored w) as [ts|] eqn:Hw; [|done].
  destruct (own ts) eqn:Ho.
  - intros ->. simpl. by rewrite mergeResource_view.
  - intros ->. by destruct (resource (sched w)).
Qed.

Lemma preserves_onScheduler {A} Q (m : Prog (SchedWorld C) A) : keeps m → preserves (of_stored Q) (onScheduler m).
Proof.
  intros Hm w n Hw. apply wp_on. pose proof (Hm (schedulerView w) n) as Hk. unfold wp in Hk.
  destruct (m (schedulerView w, n)) as [r [s n']]. cbn [fst snd] in *. split; [|done]. unfold of_stored.
  by rewrite setSchedulerView_stored.
Qed.

Lemma keeps_onCluster {A} (m : Prog JobCluster A) : keeps (onCluster (C := C) m).
Proof. intros s n. apply wp_on. by destruct (m _) as [r [c n']]. Qed.

Lemma keeps_onEngine f : keeps (onEngine (C := C) f).
Proof. intros s n. unfold wp, onEngine. by destruct (f (engine s)) as [[e r]|]. Qed.

Lemma keeps_throw {A} e : keeps (throw e : Prog (SchedWorld C) A).
Proof. by intros s n. Qed.

Lemma keeps_during {A} what (m : Prog (SchedWorld C) A) : keeps m → keeps (during what m).
Proof. intros Hm s n. apply wp_during. eapply prog_mono; [apply Hm|]. by intros [a|e] y. Qed.

Lemma keeps_manual cf workflow executionID :
  keeps (ExecuteWorkflowManually (C := C) env cf now workflow executionID).
Proof.
  destruct workflow as [workflow|]; [|apply keeps_throw]. apply keeps_bind; [|intros; apply keeps_ret].
  apply keeps_during, keeps_onCluster.
Qed.

Lemma keeps_SyncWorkflow cf workflow : keeps (SyncWorkflow (C := C) cf now workflow).
Proof.
  intros s n.
  assert (∀ x : bool, keeps (if x then scheduleWorkflow (C := C) cf now workflow else mret ())) as Hs.
  { intros []; [apply keeps_scheduleWorkflow|apply keeps_ret]. }
  assert (keeps (attempt (onEngine (C := C) (RemoveJob (jobIDOf cf (WorkflowName workflow))));;
    if wanted workflow then scheduleWorkflow cf now workflow
    else attempt (onEngine (RemoveJob (jobIDOf cf (WorkflowName workflow))));; mret ())) as Hr.
  { apply keeps_bind; [apply keeps_attempt, keeps_onEngine|]. intros _.
    destruct (wanted workflow); [apply keeps_scheduleWorkflow|apply keeps_then_ret, keeps_onEngine]. }
  unfold wp, SyncWorkflow. destruct (_ ← GetJob _ (engine s); heap (engine s) !! _) as [job|].
  - destruct (needsUpdate job workflow); [apply Hr|done].
  - apply Hs.
Qed.

Lemma keeps_start cf : hasStore cf = false → keeps (WorkflowScheduler.Start (C := C) env delivered cf now).
Proof.
  intros Hst s n. unfold wp, WorkflowScheduler.Start. destruct (schedStarted s); [done|].
  assert (keeps (startEngine (C := C);;
     (if hasStore cf then attempt (syncWorkflowsFromPostgreSQLToCRD env delivered cf);; mret () else mret ());;
     syncWorkflowsFromCRD env delivered cf now;; markStarted cf)) as Hk; [|apply Hk].
  rewrite Hst. apply keeps_bind; [by intros ? ?|]. intros _. apply keeps_bind; [apply keeps_ret|]. intros _.
  apply keeps_bind; [|intros _; by intros ? ?]. unfold syncWorkflowsFromCRD. rewrite Hst.
  destruct (hasClient cf); [|apply keeps_ret]. apply keeps_bind.
  - apply keeps_during. intros s' n'. unfold getResource. by apply wp_call.
  - intros r. apply keeps_bind; [apply keeps_ret|]. intros _. apply keeps_each. intros workflow.
    apply keeps_then_ret, keeps_scheduleWorkflow.
Qed.

(** A write of the resource, if it has the version of what is written. *)
Lemma wp_replaceStored f ts w n (Q : res string MCPTaskScheduler → TsWorld C * nat → Prop) :
  (∀ e, env n ≠ Works ∨ stored w = None ∨ (∃ found, stored w = Some found ∧ TsVersion found ≠ TsVersion ts) →
     Q (Err e) (w, S n)) →
  (∀ found, stored w = Some found → TsVersion found = TsVersion ts →
     ∀ r, r = Ok (f found) ∨ (∃ e, r = Err e ∧ env n ≠ Works) → Q r (with_stored (Some (f found)) w, S n)) →
  wp (replaceStored env f ts) (w, n) Q.
Proof.
  intros HE HO. unfold wp, replaceStored, call. destruct (env n) as [|e|e] eqn:He; cbn [fst snd].
  - destruct (stored w) as [found|] eqn:Hw; [|apply HE; auto]. destruct (decide _) as [Hv|Hv]; [|apply HE; eauto].
    apply HO; auto.
  - apply HE. left. congruence.
  - destruct (stored w) as [found|] eqn:Hw; [|apply HE; left; congruence].
    destruct (decide _) as [Hv|Hv]; [|apply HE; left; congruence]. apply HO; [done..|]. right. exists e. split; [done|congruence].
Qed.

(** *** What a running reconcile keeps *)

Section running.
Context (ts0 : MCPTaskScheduler).

(** Before its status is written the resource has the status and, unless its version has
    changed, the annotations that were read. *)
Definition unwritten (o : option MCPTaskScheduler) : Prop :=
  ∃ ts', o = Some ts' ∧ alike ts0 ts' ∧ TsStatus ts' = TsStatus ts0 ∧ (TsVersion ts0 ≤ TsVersion ts')%nat ∧
    (TsVersion ts' = TsVersion ts0 → TsAnnotations ts' = TsAnnotations ts0).

(** What is in memory of the resource: it may have another status, and another concurrency. *)
Definition inMemory ts : Prop :=
  alike ts0 ts ∧ TsVersion ts = TsVersion ts0 ∧ TsPhase (TsStatus ts) = TsPhase (TsStatus ts0).
Definition scaledInMemory ts : Prop :=
  TsName ts = TsName ts0 ∧ TsNamespace ts = TsNamespace ts0 ∧
  TsVersion ts = TsVersion ts0 ∧ TsPhase (TsStatus ts) = TsPhase (TsStatus ts0).

Lemma inMemory_same : inMemory ts0.
Proof. done. Qed.

Lemma inMemory_withStatus ts s : inMemory ts → TsPhase s = TsPhase (TsStatus ts0) → inMemory (withStatus s ts).
Proof. intros (Ha & Hv & _) Hs. done. Qed.

Lemma inMemory_scaled ts : inMemory ts → scaledInMemory ts.
Proof. by intros ((Hn & Hns & _) & ? & ?). Qed.

Lemma updateResource_unwritten ts : inMemory ts → preserves (of_stored unwritten) (updateResource env ts).
Proof.
  intros ((Hn & Hns & Hu & Hs) & Hv & _) w n (ts' & Hw & Ha & Hst & Hver & Hann). unfold updateResource.
  apply wp_replaceStored.
  - intros e _. split; [|done]. by exists ts'.
  - intros found Hf Hfv r _. split; [|done]. rewrite Hw in Hf. injection Hf as <-. eexists. split; [done|].
    destruct Ha as (A1 & A2 & A3 & A4). unfold alike. simpl. split; [done|]. split; [done|]. rewrite Hv in Hfv.
    split; [lia|]. intros Hbad. exfalso. lia.
Qed.

Lemma updateTaskStatistics_yields ts : inMemory ts →
  yields (of_stored unwritten) inMemory (updateTaskStatistics env now ts).
Proof.
  intros Hts. unfold updateTaskStatistics, onJobs. eapply preserves_bind; [apply preserves_onScheduler, keeps_onCluster|].
  intros l. apply yields_ret. apply inMemory_withStatus; [done|]. apply Hts.
Qed.

Lemma handleManualExecutions_unwritten ts : inMemory ts →
  preserves (of_stored unwritten) (handleManualExecutions env now annotationOrder ts).
Proof.
  intros Hts. unfold handleManualExecutions. eapply preserves_bind.
  - apply preserves_collect. intros key. unfold handleRequest.
    destruct (_ && _); [|apply preserves_ret]. destruct (workflowNamed _ _); [|apply preserves_ret].
    eapply preserves_bind; [apply preserves_attempt, preserves_onScheduler, keeps_manual|]. intros r. apply preserves_ret.
  - intros removed. destruct (omap id removed); [apply preserves_ret|].
    eapply preserves_bind; [by apply updateResource_unwritten|]. intros r. apply preserves_ret.
Qed.

Lemma ensureScheduler_stored w : stored (ensureScheduler w) = stored w.
Proof. unfold ensureScheduler. by destruct (created w). Qed.

Lemma reconcileWorkflows_yields ts : inMemory ts →
  yields (of_stored unwritten) (λ p, inMemory p.1) (reconcileWorkflows env delivered now jobOrder annotationOrder ts).
Proof.
  intros Hts. unfold reconcileWorkflows. eapply preserves_bind.
  { apply preserves_modify. intros w. unfold of_stored. by rewrite ensureScheduler_stored. }
  intros _. eapply preserves_bind.
  { apply preserves_attempt. intros w n Hw. apply wp_during. eapply prog_mono.
    - by apply (preserves_onScheduler unwritten _ (keeps_start (schedulerConfig ts) eq_refl) w n).
    - intros [a|e] y [Hy _]; by split. }
  intros [[]|e]; [|by apply yields_ret]. eapply preserves_bind.
  { apply preserves_each. intros workflow.
    eapply preserves_bind; [apply preserves_attempt, preserves_onScheduler, keeps_SyncWorkflow|]. intros r. apply preserves_ret. }
  intros _. eapply yields_bind with (R := inMemory).
  { apply yields_gets. intros w. apply inMemory_withStatus; [done|]. apply Hts. }
  intros ts' Hts'. eapply preserves_bind; [apply preserves_attempt; by apply handleManualExecutions_unwritten|].
  intros r. by apply yields_ret.
Qed.

Lemma handleAutoScaling_yields ts : scaledInMemory ts →
  yields (of_stored unwritten) (λ p, scaledInMemory p.1) (handleAutoScaling env ts).
Proof.
  intros Hts. unfold handleAutoScaling, getDeployment.
  eapply preserves_bind; [apply preserves_attempt, preserves_onKube|]. intros [d|e]; [|by apply yields_ret].
  cbv zeta. destruct (decide _); [by apply yields_ret|].
  eapply preserves_bind; [apply preserves_attempt, preserves_onKube|]. intros r. by apply yields_ret.
Qed.

(** The status is written over an unchanged resource only. *)
Definition oneOfThem (o : option MCPTaskScheduler) : Prop :=
  ∃ ts', o = Some ts' ∧ alike ts0 ts' ∧ TsPhase (TsStatus ts') = TsPhase (TsStatus ts0) ∧
    (TsAnnotations ts' = TsAnnotations ts0 ∨ TsStatus ts' = TsStatus ts0).

Lemma unwritten_oneOfThem o : unwritten o → oneOfThem o.
Proof. intros (ts' & ? & ? & Hs & _). exists ts'. rewrite Hs. auto. Qed.

Lemma ts_reconcileRunning_spec w n : stored w = Some ts0 →
  wp (reconcileRunning env delivered now ParseQuantity rangeEnv Config disableEventWatch jobOrder annotationOrder ts0)
    (w, n) (λ _ y, oneOfThem (stored y.1)).
Proof.
  intros Hw. assert (of_stored unwritten w) as Hu by (exists ts0; by split_and!).
  unfold reconcileRunning.
  apply prog_bind. eapply prog_mono; [by apply (preserves_onKube unwritten)|].
  intros [[]|e] [w1 n1] [I1 _]; [|by apply unwritten_oneOfThem].
  apply prog_bind. unfold wp at 1, modify. cbn [fst snd].
  match goal with |- wp _ (?w', _) _ => assert (of_stored unwritten w') as I2 by exact I1; clear I1; set (w2 := w') in * end.
  apply prog_bind. eapply prog_mono; [apply (yields_attempt _ _ _ (updateTaskStatistics_yields ts0 inMemory_same)), I2|].
  intros [r|e] [w3 n3] [I3 Hr]; [|by apply unwritten_oneOfThem].
  set (ts1 := match r with Ok ts => ts | Err _ => ts0 end).
  assert (inMemory ts1) as Hts1 by (destruct r as [ts|e]; [by apply (Hr _ eq_refl)|apply inMemory_same]).
  apply prog_bind. eapply prog_mono with (Q := λ r y, of_stored unwritten y.1 ∧ ∀ a, r = Ok a → inMemory a.1).
  { destruct (decide _); [by apply reconcileWorkflows_yields|]. by apply yields_ret. }
  intros [[ts2 r2]|e] [w4 n4] [I4 Hts2]; [|by apply unwritten_oneOfThem]. specialize (Hts2 _ eq_refl). cbn [fst] in Hts2 |- *.
  apply inMemory_scaled in Hts2.
  apply prog_bind. eapply prog_mono with (Q := λ r y, of_stored unwritten y.1 ∧ ∀ a, r = Ok a → scaledInMemory a.1).
  { destruct (ScalingEnabled _); [by apply handleAutoScaling_yields|]. by apply yields_ret. }
  intros [[ts3 r3]|e] [w5 n5] [I5 Hts3]; [|by apply unwritten_oneOfThem]. specialize (Hts3 _ eq_refl). cbn [fst] in Hts3 |- *.
  apply prog_bind. eapply prog_mono; [by apply (preserves_attempt _ _ (preserves_onKube unwritten _))|].
  intros [[d|e]|e] [w6 n6] [I6 _]; [|by apply unwritten_oneOfThem..].
  apply prog_bind. set (ts4 := if isReady _ then _ else _).
  assert (TsVersion ts4 = TsVersion ts0 ∧ TsPhase (TsStatus ts4) = TsPhase (TsStatus ts0)) as [Hv Hp].
  { unfold ts4. destruct (isReady _); apply Hts3. }
  destruct I6 as (ts' & Hw6 & Ha & Hst & _ & Hann). cbn [fst] in Hw6. apply wp_replaceStored.
  - intros e _. exists ts'. rewrite Hst. auto.
  - intros found Hf Hfv answer _. rewrite Hw6 in Hf. injection Hf as <-.
    assert (oneOfThem (stored (with_stored (Some {| TsName := TsName ts'; TsNamespace := TsNamespace ts';
      TsUID := TsUID ts'; TsAnnotations := TsAnnotations ts'; TsVersion := S (TsVersion ts');
      TsSpec := TsSpec ts'; TsStatus := TsStatus ts4 |}) w6))) as Hgoal; [|by destruct answer].
    eexists. split; [done|]. simpl. split; [done|]. split; [done|]. left. apply Hann. congruence.
Qed.
End running.

(** *** What a reconcile does to the phase *)

Lemma wp_onKube {A} (m : Kube () () A) w n (Q : res string A → TsWorld C * nat → Prop) :
  Kube.wp m (at_calls n (kube w)) (λ r c,
    Q (match r with Ok a => Ok a | Err e => Err (errorText e) end) (with_kube c w, calls c)) →
  wp (onKube m) (w, n) Q.
Proof. unfold wp, Kube.wp, onKube. by destruct (m _) as [r c]. Qed.

(** Everything that a scheduler server needs is there, as its specification says; the
    service may be older. *)
Definition ts_runs ts (c : Cluster () ()) : Prop :=
  ∃ d, deployments c !! tsKey ts = Some d ∧
    DeploymentSpec_ (Body d) = DeploymentSpec_ (Body (tsDeployment ParseQuantity rangeEnv Config ts)).
Definition ts_provisioned ts (c : Cluster () ()) : Prop :=
  ts_runs ts c ∧ is_Some (services c !! tsKey ts) ∧
  ∃ m, configMaps c !! configKey ts = Some m ∧
    default "" (Data (Body m) !! "matey.yaml") = generateTaskSchedulerConfig ts.

(** A deployment that is there can be updated. *)
Definition ts_admissible ts (c : Cluster () ()) : Prop :=
  ∀ d, deployments c !! tsKey ts = Some d → MatchLabels (DeploymentSpec_ (Body d)) = tsSelector ts.

Definition ts_ready ts (c : Cluster () ()) : Prop :=
  ∃ d, deployments c !! tsKey ts = Some d ∧ isReady (DeploymentStatus_ (Body d)) = true.

Definition phase_of ts : string := TsPhase (TsStatus ts).

Definition ts_edges : list (string * string) := [
  ("", "Pending"); ("", "Creating"); ("Pending", "Creating"); ("Creating", "Starting");
  ("Starting", "Running"); ("Failed", "Creating") ].

(** A reconcile may fail to write a phase. *)
Definition ts_edge (p p' : string) : Prop := p' = p ∨ (p, p') ∈ ts_edges.

(** What has become of a resource. *)
Definition ts_sound ts w' : Prop :=
  ∃ ts', stored w' = Some ts' ∧ alike ts ts' ∧ ts_edge (phase_of ts) (phase_of ts') ∧
    (phase_of ts' = MCPTaskSchedulerPhaseStarting → phase_of ts ≠ MCPTaskSchedulerPhaseStarting → ts_provisioned ts (kube w')) ∧
    (phase_of ts' = MCPTaskSchedulerPhaseRunning → phase_of ts ≠ MCPTaskSchedulerPhaseRunning → ts_ready ts (kube w')) ∧
    (TsAnnotations ts' = TsAnnotations ts ∨ TsStatus ts' = TsStatus ts).

Lemma ts_sound_same ts w' : stored w' = Some ts → ts_sound ts w'.
Proof. intros Hw. exists ts. split_and!; try done; [by left|by left]. Qed.

(** A write of the status, the last call of a step. *)
Lemma wp_write ts ts1 w n (Q : res string MCPTaskScheduler → TsWorld C * nat → Prop) :
  stored w = Some ts → TsVersion ts1 = TsVersion ts →
  (∀ e, env n ≠ Works → Q (Err e) (w, S n)) →
  (∀ ts' r, alike ts ts' → TsStatus ts' = TsStatus ts1 → TsAnnotations ts' = TsAnnotations ts →
     (r = Ok ts' ∨ (∃ e, r = Err e) ∧ env n ≠ Works) → Q r (with_stored (Some ts') w, S n)) →
  wp (updateStatus env ts1) (w, n) Q.
Proof.
  intros Hw Hv HE HO. apply wp_replaceStored.
  - intros e [He|[Hn|(found & Hf & Hne)]]; [by apply HE|congruence|]. rewrite Hw in Hf. injection Hf as <-. congruence.
  - intros found Hf Hfv r Hr. rewrite Hw in Hf. injection Hf as <-. apply HO; [done..|].
    destruct Hr as [->|(e & -> & He)]; [by left|right; eauto].
Qed.

Lemma wp_write_sound ts ts1 w n (answer : Result) :
  stored w = Some ts → TsVersion ts1 = TsVersion ts → ts_edge (phase_of ts) (phase_of ts1) →
  (phase_of ts1 = MCPTaskSchedulerPhaseStarting → phase_of ts ≠ MCPTaskSchedulerPhaseStarting → ts_provisioned ts (kube w)) →
  (phase_of ts1 = MCPTaskSchedulerPhaseRunning → phase_of ts ≠ MCPTaskSchedulerPhaseRunning → ts_ready ts (kube w)) →
  wp (updateStatus env ts1;; mret answer) (w, n) (λ r y, ts_sound ts y.1 ∧ kube y.1 = kube w ∧
    ((∀ k, env k = Works) → r = Ok answer ∧ ∃ ts', stored y.1 = Some ts' ∧ alike ts ts' ∧ TsStatus ts' = TsStatus ts1)).
Proof.
  intros Hw Hv Hedge I1 I2. apply prog_bind, (wp_write ts); [done..| |].
  - intros e He. split; [by apply ts_sound_same|]. split; [done|]. intros Hworks. by destruct He.
  - intros ts' r Ha Hs Hann Hr.
    assert (ts_sound ts (with_stored (Some ts') w)) as Hsound.
    { assert (phase_of ts' = phase_of ts1) as Hph by (unfold phase_of; by rewrite Hs).
      exists ts'. rewrite Hph. split_and!; [done|done|done|exact I1|exact I2|by left]. }
    destruct Hr as [->|[[e ->] He]].
    + apply prog_ret. split; [done|]. split; [done|]. intros _. split; [done|]. by exists ts'.
    + split; [done|]. split; [done|]. intros Hworks. by destruct He.
Qed.

Lemma ts_reconcileCreating_spec ts w n : stored w = Some ts → phase_of ts = MCPTaskSchedulerPhaseCreating →
  wp (reconcileCreating env ParseQuantity rangeEnv Config ts) (w, n) (λ r y, ts_sound ts y.1 ∧
    ((∀ k, env k = Works) → ts_admissible ts (kube w) → r = Ok Done ∧
       ∃ ts', stored y.1 = Some ts' ∧ alike ts ts' ∧ phase_of ts' = MCPTaskSchedulerPhaseStarting)).
Proof.
  intros Hw Hp. unfold reconcileCreating, reconcileConfigMap, reconcileService, reconcileDeployment.
  apply prog_bind, wp_onKube. wp_reconcile.
  { intros e v n1 Hv Hlive. split; [by apply ts_sound_same|]. intros Hworks Ha. destruct Hlive. split; [done|].
    by edestruct configMap_target as (m & -> & _). }
  intros [] n1 Hv1. apply prog_bind, wp_onKube. wp_reconcile.
  { intros e v n2 Hv Hlive. split; [by apply ts_sound_same|]. intros Hworks Ha. destruct Hlive. split; [done|].
    apply resourceTarget_create. }
  intros [] n2 Hv2. apply prog_bind, wp_onKube. wp_reconcile.
  { intros e v n3 Hv Hlive. split; [by apply ts_sound_same|]. intros Hworks Ha. destruct Hlive. split; [done|].
    apply deployment_target_Some. cbn [kube with_kube]. kube_simpl. apply Ha. }
  intros [] n3 Hv3. cbn [kube with_kube] in *. kube_simpl.
  eapply prog_mono; [apply (wp_write_sound ts)|].
  - done.
  - done.
  - rewrite Hp. right. apply (bool_decide_eq_true_1 _). by vm_compute.
  - intros _ _. cbn [kube with_kube]. destruct (deployment_target _ _ _ _ eq_refl Hv3) as (d & Hd & Hds & _).
    split; [|split]; kube_simpl.
    + exists d. kube_simpl. by rewrite lookup_partial_alter, decide_True by done.
    + rewrite lookup_partial_alter, decide_True by done. apply resourceTarget_create.
    + rewrite lookup_partial_alter, decide_True by done. edestruct configMap_target as (m & Hm1 & Hm2).
      exists m. by split; [exact Hm1|].
  - intros Hbad. discriminate Hbad.
  - intros r y (Hs & _ & Hl). split; [done|]. intros Hworks _. destruct (Hl Hworks) as (-> & ts' & I1 & I2 & I3).
    split; [done|]. exists ts'. unfold phase_of. by rewrite I3.
Qed.

(** What is read of the deployment. *)
Lemma wp_getDeployment ts w n (Q : res string (res string Deployment) → TsWorld C * nat → Prop) :
  (∀ w' e, with_kube (kube w') w = w' → deployments (kube w') = deployments (kube w) →
     (env n = Works → deployments (kube w) !! tsKey ts = None) → Q (Ok (Err e)) (w', S n)) →
  (∀ w' d, with_kube (kube w') w = w' → deployments (kube w') = deployments (kube w) →
     deployments (kube w) !! tsKey ts = Some d → Q (Ok (Ok d)) (w', S n)) →
  wp (attempt (getDeployment env ts)) (w, n) Q.
Proof.
  intros HE HO. apply wp_attempt, wp_onKube, (Kube.wp_Get env (B := DeploymentBody)).
  - intros e He. apply (HE (with_kube _ w)); [done..|]. intros Hworks. cbn in He. destruct e; [done|by destruct He..].
  - intros d Hd. by apply (HO (with_kube _ w)).
Qed.

Lemma ts_reconcileStarting_spec ts w n : stored w = Some ts → phase_of ts = MCPTaskSchedulerPhaseStarting →
  wp (reconcileStarting env now ts) (w, n) (λ r y, ts_sound ts y.1 ∧
    ((∀ k, env k = Works) → ts_ready ts (kube w) →
       ∃ ts', stored y.1 = Some ts' ∧ alike ts ts' ∧ phase_of ts' = MCPTaskSchedulerPhaseRunning)).
Proof.
  intros Hw Hp. unfold reconcileStarting. apply prog_bind, wp_getDeployment.
  - intros w' e Hw' Hd Hnone. apply prog_ret. rewrite <-Hw'. split; [by apply ts_sound_same|].
    intros Hworks (d & Hd' & _). by rewrite Hnone in Hd'.
  - intros w' d Hw' Hk Hd. destruct (isReady _) eqn:Hready.
    + eapply prog_mono; [apply (wp_write_sound ts)|].
      * rewrite <-Hw'. done.
      * done.
      * rewrite Hp. right. apply (bool_decide_eq_true_1 _). by vm_compute.
      * intros Hbad. discriminate Hbad.
      * intros _ _. exists d. by rewrite Hk.
      * intros r y (Hs & _ & Hl). split; [done|]. intros Hworks _. destruct (Hl Hworks) as (_ & ts' & I1 & I2 & I3).
        exists ts'. unfold phase_of. by rewrite I3.
    + apply prog_ret. rewrite <-Hw'. split; [by apply ts_sound_same|]. intros _ (d' & Hd' & Hr'). simplify_eq.
      by rewrite Hready in Hr'.
Qed.

Lemma reconcileTerminating_stored ts o :
  preserves (of_stored (eq o)) (reconcileTerminating (C := C) env ts).
Proof.
  unfold reconcileTerminating. eapply preserves_bind; [by apply preserves_modify|]. intros _.
  eapply preserves_bind; [apply preserves_modify; intros w Hw; unfold of_stored, cleanupWorkflowScheduler; by destruct (created w)|].
  intros _. eapply preserves_bind; [|intros; apply preserves_ret]. unfold cleanupJobs, onJobs.
  eapply preserves_bind; [apply preserves_onScheduler, keeps_onCluster|]. intros l. apply preserves_each. intros job.
  eapply preserves_bind; [apply preserves_attempt, preserves_onScheduler, keeps_onCluster|].
  intros [[]|e]; [apply preserves_ret|]. destruct (decide _); [apply preserves_ret|apply preserves_throw].
Qed.

Notation reconcilePhase := (reconcilePhase env delivered now ParseQuantity rangeEnv Config disableEventWatch jobOrder annotationOrder).
Notation Reconcile := (Reconcile env delivered now ParseQuantity rangeEnv Config disableEventWatch jobOrder annotationOrder).

Lemma ts_reconcilePhase_sound ts w n : stored w = Some ts → wp (reconcilePhase ts) (w, n) (λ _ y, ts_sound ts y.1).
Proof.
  intros Hw. unfold reconcilePhase. fold (phase_of ts).
  destruct (decide (phase_of ts = _)) as [Hp|_].
  { unfold reconcilePending. eapply prog_mono; [apply (wp_write_sound ts); [done..| | |]|by intros r y [? _]];
      [rewrite Hp; right; apply (bool_decide_eq_true_1 _); by vm_compute|by intros Hbad..]. }
  destruct (decide (phase_of ts = _)) as [Hp|_].
  { eapply prog_mono; [by apply ts_reconcileCreating_spec|]. by intros r y [? _]. }
  destruct (decide (phase_of ts = _)) as [Hp|_].
  { eapply prog_mono; [by apply ts_reconcileStarting_spec|]. by intros r y [? _]. }
  destruct (decide (phase_of ts = _)) as [Hp|_].
  { eapply prog_mono; [by apply (ts_reconcileRunning_spec ts)|]. intros r y (ts' & Hy & Ha & Hph & Hor).
    exists ts'. unfold phase_of in *. rewrite Hph. split_and!; try done. by left. }
  destruct (decide (phase_of ts = _)) as [Hp|_].
  { unfold reconcileFailed. eapply prog_mono; [apply (wp_write_sound ts); [done..| | |]|by intros r y [? _]];
      [rewrite Hp; right; apply (bool_decide_eq_true_1 _); by vm_compute|by intros Hbad..]. }
  destruct (decide (phase_of ts = _)) as [Hp|_].
  { eapply prog_mono; [by apply (reconcileTerminating_stored ts (Some ts))|]. intros r y [Hy _]. by apply ts_sound_same. }
  apply prog_ret. by apply ts_sound_same.
Qed.

(** C10: whatever the calls of a reconcile come to, the resource keeps its specification;
    its phase moves along the edges of the state machine (so never to Failed or to
    Terminating), to Starting only when everything that the server needs is there as
    specified, and to Running only when its deployment has a ready replica; and a reconcile
    never changes both its annotations and its status. *)
Theorem scheduler_phases_safe ts w n : stored w = Some ts →
  let w' := (Reconcile (w, n)).2.1 in
  ∃ ts', stored w' = Some ts' ∧ alike ts ts' ∧ ts_edge (phase_of ts) (phase_of ts') ∧
    (phase_of ts' = MCPTaskSchedulerPhaseStarting → phase_of ts ≠ MCPTaskSchedulerPhaseStarting → ts_provisioned ts (kube w')) ∧
    (phase_of ts' = MCPTaskSchedulerPhaseRunning → phase_of ts ≠ MCPTaskSchedulerPhaseRunning → ts_ready ts (kube w')) ∧
    (TsAnnotations ts' = TsAnnotations ts ∨ TsStatus ts' = TsStatus ts).
Proof.
  intros Hw. cut (wp Reconcile (w, n) (λ _ y, ts_sound ts y.1)); [done|]. unfold Reconcile.
  apply prog_bind. unfold fetchTaskScheduler. apply wp_call; cbn [fst snd]; [|by intros e; apply ts_sound_same..].
  rewrite Hw. cbn iota. destruct (decide (TsPhase (TsStatus ts) = "")) as [Hnew|Hnew].
  2:{ apply prog_bind, prog_ret. by apply ts_reconcilePhase_sound. }
  assert (∀ ts', alike ts ts' → TsStatus ts' = TsStatus (setPhase MCPTaskSchedulerPhasePending ts) →
    TsAnnotations ts' = TsAnnotations ts → ts_sound ts (with_stored (Some ts') w)) as Hpending.
  { intros ts' Ha Hs Hann. assert (phase_of ts' = "Pending") as Hph by (unfold phase_of; by rewrite Hs).
    exists ts'. rewrite Hph. split_and!; try done; [|by left]. right. unfold phase_of. rewrite Hnew.
    apply (bool_decide_eq_true_1 _). by vm_compute. }
  apply prog_bind, (wp_write ts); [done..| |].
  { intros e _. by apply ts_sound_same. }
  intros ts' r Ha Hs Hann [->|[[e ->] _]]; [|by apply Hpending].
  assert (phase_of ts' = "Pending") as Hph by (unfold phase_of; by rewrite Hs).
  unfold TaskSchedulerController.reconcilePhase. fold (phase_of ts'). rewrite Hph. cbn [decide].
  rewrite decide_True by done. unfold reconcilePending.
  apply prog_bind, (wp_write ts'); [done..| |].
  { intros e _. by apply Hpending. }
  intros ts'' r' Ha' Hs' Hann' Hr'.
  assert (ts_sound ts (with_stored (Some ts'') (with_stored (Some ts') w))) as Hcreating.
  { assert (phase_of ts'' = "Creating") as Hph' by (unfold phase_of; by rewrite Hs').
    exists ts''. rewrite Hph'. split_and!; try done; [by transitivity ts'| |left; congruence].
    right. unfold phase_of. rewrite Hnew. apply (bool_decide_eq_true_1 _). by vm_compute. }
  destruct Hr' as [->|[[e ->] _]]; [by apply prog_ret|done].
Qed.

(** *** Progress *)

Section progress.
Context (works : ∀ k, env k = Works).

(** With every call answered, a reconcile goes on with the resource that it has read. *)
Lemma Reconcile_reads ts w n (Q : res string Result → TsWorld C * nat → Prop) :
  stored w = Some ts → phase_of ts ≠ "" → wp (reconcilePhase ts) (w, S n) Q → wp Reconcile (w, n) Q.
Proof.
  intros Hw Hp HQ. unfold Reconcile. apply prog_bind. unfold fetchTaskScheduler. apply wp_call_works; [done|].
  cbn [fst snd]. rewrite Hw. cbn iota. rewrite decide_False by done. by apply prog_bind, prog_ret.
Qed.

Definition comesTo (phase : string) ts w' : Prop :=
  ∃ ts', stored w' = Some ts' ∧ alike ts ts' ∧ phase_of ts' = phase.

Lemma wp_write_works ts ts1 w n (answer : Result) (phase : string) :
  stored w = Some ts → TsVersion ts1 = TsVersion ts → phase_of ts1 = phase →
  wp (updateStatus env ts1;; mret answer) (w, n) (λ _ y, kube y.1 = kube w ∧ comesTo phase ts y.1).
Proof.
  intros Hw Hv Hp. apply prog_bind, (wp_write ts); [done..| |].
  { intros e He. by destruct (He (works n)). }
  intros ts' r Ha Hs _ [->|[_ He]]; [|by destruct (He (works n))].
  apply prog_ret. split; [done|]. exists ts'. unfold phase_of in *. by rewrite Hs.
Qed.

Lemma ts_Reconcile_creates ts w n : stored w = Some ts →
  phase_of ts ∈ [""; MCPTaskSchedulerPhasePending; MCPTaskSchedulerPhaseFailed] →
  wp Reconcile (w, n) (λ _ y, kube y.1 = kube w ∧ comesTo MCPTaskSchedulerPhaseCreating ts y.1).
Proof.
  intros Hw Hp. rewrite !elem_of_cons, elem_of_nil in Hp. destruct (decide (phase_of ts = "")) as [Hnew|Hnew].
  - unfold Reconcile. apply prog_bind. unfold fetchTaskScheduler. apply wp_call_works; [done|].
    cbn [fst snd]. rewrite Hw. cbn iota. rewrite decide_True by done.
    apply prog_bind, (wp_write ts); [done..| |].
    { intros e He. by destruct (He (works (S n))). }
    intros ts' r Ha Hs _ [->|[_ He]]; [|by destruct (He (works (S n)))].
    assert (phase_of ts' = "Pending") as Hph by (unfold phase_of; by rewrite Hs).
    unfold TaskSchedulerController.reconcilePhase. fold (phase_of ts'). rewrite Hph. rewrite decide_True by done.
    eapply prog_mono; [by apply (wp_write_works ts')|]. intros answer y (Hk & ts'' & Hy & Ha' & Hph').
    split; [by rewrite Hk|]. exists ts''. split; [done|]. split; [by transitivity ts'|done].
  - apply (Reconcile_reads ts); [done..|]. unfold TaskSchedulerController.reconcilePhase. fold (phase_of ts).
    destruct (decide (phase_of ts = MCPTaskSchedulerPhasePending)) as [_|Hp1]; [by apply (wp_write_works ts)|].
    destruct Hp as [?|[?|[Hp|[]]]]; [done..|]. rewrite Hp. do 3 rewrite decide_False by done.
    rewrite decide_True by done. by apply (wp_write_works ts).
Qed.

Lemma Reconcile_provisions ts w n : stored w = Some ts → phase_of ts = MCPTaskSchedulerPhaseCreating →
  ts_admissible ts (kube w) →
  wp Reconcile (w, n) (λ _ y, ts_provisioned ts (kube y.1) ∧ comesTo MCPTaskSchedulerPhaseStarting ts y.1).
Proof.
  intros Hw Hp Ha. apply (Reconcile_reads ts); [done|by rewrite Hp|].
  unfold TaskSchedulerController.reconcilePhase. fold (phase_of ts). rewrite Hp. rewrite decide_False by done.
  rewrite decide_True by done. eapply prog_mono; [by apply ts_reconcileCreating_spec|].
  intros r y ((ts' & I1 & I2 & _ & I3 & _) & Hl). destruct (Hl works Ha) as (_ & ts'' & J1 & J2 & J3).
  assert (ts'' = ts') as -> by congruence. split; [|by exists ts']. apply I3; [done|]. by rewrite Hp.
Qed.

Lemma Reconcile_runs ts w n : stored w = Some ts → phase_of ts = MCPTaskSchedulerPhaseStarting → ts_ready ts (kube w) →
  wp Reconcile (w, n) (λ _ y, comesTo MCPTaskSchedulerPhaseRunning ts y.1).
Proof.
  intros Hw Hp Hr. apply (Reconcile_reads ts); [done|by rewrite Hp|].
  unfold TaskSchedulerController.reconcilePhase. fold (phase_of ts). rewrite Hp. do 2 rewrite decide_False by done.
  rewrite decide_True by done. eapply prog_mono; [by apply ts_reconcileStarting_spec|].
  intros r y [_ Hl]. by apply Hl.
Qed.

(** Objects that were made for a resource suit those that are alike. *)
Lemma alike_objects ts ts' c : alike ts ts' →
  (ts_provisioned ts' c → ts_provisioned ts c) ∧ (ts_admissible ts c → ts_admissible ts' c) ∧ (ts_ready ts c → ts_ready ts' c).
Proof.
  destruct ts as [n0 ns u a v p st], ts' as [n' ns' u' a' v' p' st']. intros (E1 & E2 & E3 & E4). cbn in E1, E2, E3, E4. subst. by split_and!.
Qed.

Definition reconciled (k : nat) (x : TsWorld C * nat) : TsWorld C * nat := Nat.iter k (λ x, (Reconcile x).2) x.

(** When its calls work, and a deployment of its name, if there is one, has its
    selector, the controller brings a resource that is new, pending, half created or failed
    to Starting in one or two reconciles, with everything provisioned; and once the
    deployment has a ready replica the next reconcile sets it Running. *)
Theorem scheduler_comes_up ts w n :
  stored w = Some ts → ts_admissible ts (kube w) →
  phase_of ts ∈ [""; MCPTaskSchedulerPhasePending; MCPTaskSchedulerPhaseCreating; MCPTaskSchedulerPhaseFailed] →
  let w' := (reconciled (if decide (phase_of ts = MCPTaskSchedulerPhaseCreating) then 1 else 2)%nat (w, n)).1 in
  ts_provisioned ts (kube w') ∧ comesTo MCPTaskSchedulerPhaseStarting ts w' ∧
  ∀ w'' n'', stored w'' = stored w' → ts_ready ts (kube w'') →
    comesTo MCPTaskSchedulerPhaseRunning ts (reconciled 1 (w'', n'')).1.
Proof.
  intros Hw Ha Hp.
  assert (∀ ts1 w n, stored w = Some ts1 → alike ts ts1 → phase_of ts1 = MCPTaskSchedulerPhaseCreating →
    ts_admissible ts (kube w) →
    let w' := (reconciled 1 (w, n)).1 in
    ts_provisioned ts (kube w') ∧ comesTo MCPTaskSchedulerPhaseStarting ts w' ∧
    ∀ w'' n'', stored w'' = stored w' → ts_ready ts (kube w'') →
      comesTo MCPTaskSchedulerPhaseRunning ts (reconciled 1 (w'', n'')).1) as Hone.
  { intros ts1 w1 n1 Hw1 Hal Hp1 Ha1. apply (alike_objects _ _ _ Hal) in Ha1.
    destruct (Reconcile_provisions ts1 w1 n1 Hw1 Hp1 Ha1) as (I1 & ts2 & I2 & I3 & I4).
    split; [by apply (alike_objects _ _ _ Hal)|]. split; [exists ts2; split; [done|]; split; [by transitivity ts1|done]|].
    intros w'' n'' Hs Hr. assert (alike ts ts2) as Hal2 by by transitivity ts1. apply (alike_objects _ _ _ Hal2) in Hr.
    assert (stored w'' = Some ts2) as Hs2 by by rewrite Hs.
    destruct (Reconcile_runs ts2 w'' n'' Hs2 I4 Hr) as (ts3 & J1 & J2 & J3).
    exists ts3. split; [done|]. split; [by transitivity ts2|done]. }
  case_decide as Hc; [by apply (Hone ts)|].
  assert (phase_of ts ∈ [""; MCPTaskSchedulerPhasePending; MCPTaskSchedulerPhaseFailed]) as Hp' by set_solver.
  destruct (ts_Reconcile_creates ts w n Hw Hp') as (Hk & ts1 & I1 & I2 & I3).
  change (reconciled 2 (w, n)) with (reconciled 1 (Reconcile (w, n)).2). destruct (Reconcile (w, n)).2 as [w1 n1].
  cbn [fst] in Hk, I1. apply (Hone ts1); [done..|]. by rewrite Hk.
Qed.

(** A scheduler that waits for a deployment which is gone: no reconcile makes it again,
    asks for another or reports an error. *)
Lemma Starting_without_deployment ts w n :
  stored w = Some ts → phase_of ts = MCPTaskSchedulerPhaseStarting → deployments (kube w) !! tsKey ts = None →
  wp Reconcile (w, n) (λ r y, r = Ok Done ∧ stored y.1 = Some ts ∧ deployments (kube y.1) = deployments (kube w)).
Proof.
  intros Hw Hp Hd. apply (Reconcile_reads ts); [done|by rewrite Hp|].
  unfold TaskSchedulerController.reconcilePhase. fold (phase_of ts). rewrite Hp. do 2 rewrite decide_False by done.
  rewrite decide_True by done. unfold reconcileStarting. apply prog_bind, wp_getDeployment.
  - intros w' e Hw' Hd' _. apply prog_ret. split; [done|]. split; [by rewrite <-Hw'|done].
  - intros w' d _ _ Hsome. congruence.
Qed.
End progress.
End stays.

(** ** Running *)

Section steady.
Context {C : Type} `{CronLaws C} `{!JobLib} `{!Codec} `{!SchedulerLib}.
Context (env : nat → Outcome) (delivered : nat → option nat) (now : Z).
Context (ParseQuantity : string → option string) (rangeEnv : gmap string string → list (string * string)).
Context (Config : option ComposeConfig) (disableEventWatch : bool).
Context (jobOrder : gmap string loc → list string) (annotationOrder : gmap string string → list string).
Context (works : ∀ k, env k = Works).
Implicit Types (w : TsWorld C).

Notation M := (Prog (TsWorld C)).

(** The synchronisation of a workflow asks nobody. *)
Lemma SyncWorkflow_alone cf workflow (s : SchedWorld C) n :
  (SyncWorkflow cf now workflow (s, n)).2 = ((SyncWorkflow cf now workflow (s, 0%nat)).2.1, n).
Proof.
  assert (∀ f s n, (onEngine f (s, n)).2 = ((onEngine f (s, 0%nat)).2.1 : SchedWorld C, n) ∧
    (onEngine f (s, n)).1 = (onEngine f (s, 0%nat)).1) as He.
  { clear. intros f s n. unfold onEngine. by destruct (f (engine s)) as [[e r]|]. }
  assert (∀ s n, (scheduleWorkflow cf now workflow (s, n)).2 = ((scheduleWorkflow cf now workflow (s, 0%nat)).2.1 : SchedWorld C, n)) as Hs.
  { intros s' n'. unfold scheduleWorkflow. apply He. }
  unfold SyncWorkflow. destruct (_ ← GetJob _ (engine s); heap (engine s) !! _) as [job|].
  2:{ by destruct (wanted workflow); [apply Hs|]. }
  destruct (needsUpdate job workflow); [|done]. unfold mbind, Prog_bind, attempt.
  set (id := jobIDOf cf (WorkflowName workflow)).
  destruct (He (RemoveJob id) s n) as [E _].
  destruct (onEngine (RemoveJob id) (s, n)) as [r1 [s1 n1]], (onEngine (RemoveJob id) (s, 0%nat)) as [r2 [s2 n2]] eqn:E2.
  simpl in E. injection E as -> ->.
  assert (n2 = 0%nat) as ->.
  { destruct (He (RemoveJob id) s 0%nat) as [E _]. rewrite E2 in E. simpl in E. by injection E. }
  destruct (wanted workflow); [apply Hs|]. destruct (He (RemoveJob id) s2 n) as [E' _].
  destruct (onEngine (RemoveJob id) (s2, n)) as [r3 [s3 n3]], (onEngine (RemoveJob id) (s2, 0%nat)) as [r4 [s4 n4]].
  simpl in E' |- *. done.
Qed.

Lemma sched_ok_same cf (s s' : SchedWorld C) : engine s' = engine s → handlers s' = handlers s → sched_ok cf s → sched_ok cf s'.
Proof. intros He Hh [I1 I2]. split; [by rewrite He|]. unfold job_ok in *. by rewrite He, Hh. Qed.

Lemma agrees_same cf m (s s' : SchedWorld C) : engine s' = engine s → agrees cf m s → agrees cf m s'.
Proof. intros He Ha name. rewrite He. apply Ha. Qed.

(** A running scheduler whose cron jobs are those of some workflows. *)
Record steady ts (m : gmap string string) w : Prop := {
  st_stored : stored w = Some ts;
  st_created : created w = true;
  st_started : schedStarted (sched w) = true;
  st_deployment : is_Some (deployments (kube w) !! tsKey ts);
  st_ok : sched_ok (schedulerConfig ts) (sched w);
  st_agrees : agrees (schedulerConfig ts) m (sched w);
}.

(** What a step leaves alone. *)
Record untouched w w' : Prop := {
  ut_stored : stored w' = stored w;
  ut_created : created w' = created w;
  ut_started : schedStarted (sched w') = schedStarted (sched w);
  ut_deployments : deployments (kube w') = deployments (kube w);
  ut_engine : engine (sched w') = engine (sched w);
  ut_handlers : handlers (sched w') = handlers (sched w);
}.

Lemma untouched_same w : untouched w w.
Proof. done. Qed.

Lemma untouched_trans w1 w2 w3 : untouched w1 w2 → untouched w2 w3 → untouched w1 w3.
Proof. intros [] []. split; congruence. Qed.

Lemma steady_untouched ts m w w' : untouched w w' → steady ts m w → steady ts m w'.
Proof.
  intros [E1 E2 E3 E4 E5 E6] [I1 I2 I3 I4 I5 I6].
  split; [congruence..| |by eapply sched_ok_same|by eapply agrees_same]. by rewrite E4.
Qed.

(** The view is the scheduler but for the resource. *)
Lemma view_engine w : engine (schedulerView w) = engine (sched w) ∧ handlers (schedulerView w) = handlers (sched w) ∧
  schedStarted (schedulerView w) = schedStarted (sched w).
Proof. unfold schedulerView. destruct (stored w) as [ts|]; [|done]. by destruct (own ts). Qed.

Lemma wp_onJobs {A} (m : Prog JobCluster A) w n :
  wp (onJobs m) (w, n) (λ _ y, untouched w y.1 ∧ sched y.1 = sched y.1).
Proof.
  apply wp_on. pose proof (keeps_onCluster m (schedulerView w) n) as Hk. unfold wp in Hk.
  unfold onCluster, on in *. destruct (m _) as [r [c n']]. cbn [fst snd] in *. split; [|done].
  destruct (view_engine w) as (E1 & E2 & E3).
  split; [by apply setSchedulerView_stored|done|exact E3|done|exact E1|exact E2].
Qed.

Lemma sync_steady ts m w n workflow : steady ts m w →
  wp (attempt (onScheduler (SyncWorkflow (schedulerConfig ts) now workflow));; mret ()) (w, n)
    (λ r y, r = Ok () ∧ steady ts (inForce m (OpSync now workflow)) y.1).
Proof.
  intros [I1 I2 I3 I4 I5 I6]. apply prog_bind, wp_attempt, wp_on.
  destruct (view_engine w) as (E1 & E2 & E3).
  pose proof (keeps_SyncWorkflow now (schedulerConfig ts) workflow (schedulerView w) n) as Hk. unfold wp in Hk.
  pose proof (SyncWorkflow_alone (schedulerConfig ts) workflow (schedulerView w) n) as Ha.
  destruct (runSchedOp_ok (schedulerConfig ts) (OpSync now workflow) m (schedulerView w)) as [Hok Hagree];
    [by eapply sched_ok_same|by eapply agrees_same|]. cbn [runSchedOp] in Hok, Hagree.
  assert (schedStarted (SyncWorkflow (schedulerConfig ts) now workflow (schedulerView w, 0%nat)).2.1 = true) as Hst.
  { rewrite <-I3, <-E3. generalize (schedulerView w) as s. intros s.
    assert (∀ f s, schedStarted (onEngine f (s, 0%nat)).2.1 = schedStarted (s : SchedWorld C)) as Heng.
    { intros f s'. unfold onEngine. by destruct (f (engine s')) as [[]|]. }
    assert (∀ s : SchedWorld C, schedStarted (scheduleWorkflow (schedulerConfig ts) now workflow (s, 0%nat)).2.1 = schedStarted s) as Hsch.
    { intros s'. unfold scheduleWorkflow. by rewrite Heng. }
    unfold SyncWorkflow. destruct (_ ← GetJob _ (engine s); heap (engine s) !! _) as [job|].
    2:{ destruct (wanted workflow); [apply Hsch|done]. }
    destruct (needsUpdate job workflow); [|done]. unfold mbind, Prog_bind, attempt.
    set (id := jobIDOf _ _). pose proof (Heng (RemoveJob id) s) as E.
    destruct (onEngine (RemoveJob id) (s, 0%nat)) as [r1 [s1 n1]] eqn:E1'. simpl in E.
    assert (n1 = 0%nat) as ->.
    { unfold onEngine in E1'. destruct (RemoveJob id (engine s)) as [[]|]; by simplify_eq. }
    destruct (wanted workflow); [by rewrite Hsch|]. pose proof (Heng (RemoveJob id) s1) as E'.
    destruct (onEngine (RemoveJob id) (s1, 0%nat)) as [r2 [s2 n2]]. simpl in *. congruence. }
  set (s0 := (SyncWorkflow (schedulerConfig ts) now workflow (schedulerView w, 0%nat)).2.1) in *. clearbody s0.
  destruct (SyncWorkflow (schedulerConfig ts) now workflow (schedulerView w, n)) as [r [s' n']]. cbn [fst snd] in *.
  injection Ha as -> ->.
  apply prog_ret. split; [done|]. split; [|done|exact Hst|exact I4|exact Hok|exact Hagree].
  cbn [fst]. by rewrite setSchedulerView_stored.
Qed.

Lemma syncs_steady ts m w n l : steady ts m w →
  wp (each (λ workflow, attempt (onScheduler (SyncWorkflow (schedulerConfig ts) now workflow));; mret ()) l) (w, n)
    (λ r y, r = Ok () ∧ steady ts (foldl inForce m (OpSync now <$> l)) y.1).
Proof.
  revert m w n. induction l as [|workflow l IH]; intros m w n Hs; [by apply prog_ret|].
  cbn [each fmap list_fmap foldl]. apply prog_bind. eapply prog_mono; [by apply sync_steady|].
  intros r [w' n'] [-> Hs']. by apply IH.
Qed.

(** The resource in memory has the annotations and the specification that were read. *)
Definition readAs ts ts1 : Prop := alike ts ts1 ∧ TsVersion ts1 = TsVersion ts ∧ TsAnnotations ts1 = TsAnnotations ts.

(** Nobody asks for an execution. *)
Definition no_requests ts : Prop :=
  Forall (λ key, HasPrefix key manualPrefix = false) (annotationOrder (TsAnnotations ts)).

Lemma handleManualExecutions_none ts w n : no_requests ts →
  handleManualExecutions env now annotationOrder ts (w, n) = (Ok (), (w, n)).
Proof.
  unfold no_requests, handleManualExecutions. intros Hnone.
  assert (collect (handleRequest (C := C) env now ts) (annotationOrder (TsAnnotations ts)) (w, n) =
    (Ok (const None <$> annotationOrder (TsAnnotations ts)), (w, n))) as Hc.
  { induction Hnone as [|key keys Hkey _ IH]; [done|]. cbn [collect fmap list_fmap].
    rewrite (bind_run _ _ _ None (w, n)) by (unfold handleRequest; by rewrite Hkey).
    by rewrite (bind_run _ _ _ _ _ IH). }
  rewrite (bind_run _ _ _ _ _ Hc).
  assert (∀ l : list string, omap id (const (@None string) <$> l) = []) as ->; [|done].
  clear. intros l. by induction l as [|x l IH].
Qed.

Lemma reconcileWorkflows_steady ts ts1 m w n : steady ts m w → readAs ts ts1 → no_requests ts →
  wp (reconcileWorkflows env delivered now jobOrder annotationOrder ts1) (w, n) (λ r y,
    steady ts (foldl inForce m (OpSync now <$> TsWorkflows (TsSpec ts))) y.1 ∧
    ∃ ts2, r = Ok (ts2, Ok ()) ∧ readAs ts ts2 ∧
      TsExecutions (TsStatus ts2) = executionOf now <$> scheduledJobs jobOrder (sched y.1) ∧
      TsPhase (TsStatus ts2) = TsPhase (TsStatus ts1)).
Proof.
  intros Hst ((Hn & Hns & Hu & Hs) & Hv & Hann) Hnone. unfold reconcileWorkflows.
  assert (schedulerConfig ts1 = schedulerConfig ts) as -> by (unfold schedulerConfig; by rewrite Hns).
  rewrite Hs.
  apply prog_bind. unfold wp at 1, modify. cbn [fst snd].
  assert (ensureScheduler w = w) as -> by (unfold ensureScheduler; by rewrite (st_created _ _ _ Hst)).
  apply prog_bind, wp_attempt, wp_during, wp_on. unfold WorkflowScheduler.Start at 1.
  destruct (view_engine w) as (E1 & E2 & E3). rewrite E3, (st_started _ _ _ Hst).
  set (w1 := setSchedulerView (schedulerView w) w).
  assert (untouched w w1) as Hw1.
  { split; [by apply setSchedulerView_stored|done|exact E3|done|exact E1|exact E2]. }
  apply (steady_untouched _ _ _ _ Hw1) in Hst.
  apply prog_bind. eapply prog_mono; [by apply syncs_steady|]. intros r [w2 n2] [-> Hst2].
  apply prog_bind. unfold wp at 1, updateWorkflowStatus, gets. cbn [fst snd].
  set (ts2 := setWorkflowStatus _ _ ts1).
  assert (no_requests ts2) as Hnone2 by (unfold no_requests, ts2; simpl; by rewrite Hann).
  apply prog_bind, wp_attempt. unfold wp at 1. rewrite handleManualExecutions_none by done.
  apply prog_ret. split; [done|]. exists ts2. split; [done|]. split; [done|]. split; [done|]. done.
Qed.

Lemma updateTaskStatistics_steady ts m w n : steady ts m w →
  wp (attempt (updateTaskStatistics env now ts)) (w, n) (λ r y, steady ts m y.1 ∧
    ∃ r', r = Ok r' ∧ readAs ts (match r' with Ok ts1 => ts1 | Err _ => ts end) ∧
      TsPhase (TsStatus (match r' with Ok ts1 => ts1 | Err _ => ts end)) = TsPhase (TsStatus ts)).
Proof.
  intros Hst. apply wp_attempt. unfold updateTaskStatistics. apply prog_bind.
  eapply prog_mono; [apply wp_onJobs|]. intros [l|e] [w1 n1] [Hu _].
  - apply prog_ret. split; [by eapply steady_untouched|]. by eexists (Ok _).
  - split; [by eapply steady_untouched|]. by eexists (Err e).
Qed.

(** The scaling writes a configuration at most. *)
Lemma handleAutoScaling_steady ts ts1 m w n : steady ts m w → readAs ts ts1 →
  wp (handleAutoScaling env ts1) (w, n) (λ r y, steady ts m y.1 ∧ sched y.1 = sched w ∧
    ∃ ts2 r', r = Ok (ts2, r') ∧ tsKey ts2 = tsKey ts ∧ TsVersion ts2 = TsVersion ts ∧ TsStatus ts2 = TsStatus ts1).
Proof.
  intros Hst ((Hn & Hns & Hu & Hs) & Hv & Hann).
  assert (tsKey ts1 = tsKey ts) as Hk by (unfold tsKey; by rewrite Hn, Hns).
  unfold handleAutoScaling. apply prog_bind, wp_getDeployment.
  - intros w' e Hw' Hd _. apply prog_ret. rewrite <-Hw'. split; [|by eauto 10].
    eapply steady_untouched; [|done]. by split.
  - intros w' d Hw' Hd _. assert (steady ts m w') as Hst'.
    { rewrite <-Hw'. eapply steady_untouched; [|done]. by split. }
    assert (sched w' = sched w) as Hsched by by rewrite <-Hw'. clear Hw' Hd.
    cbv zeta. destruct (decide _); [apply prog_ret; by eauto 10|].
    apply prog_bind, wp_attempt, wp_onKube. wp_reconcile.
    + intros e v n1 Hval Hlive. apply prog_ret. split; [|split; [done|by eauto 10]].
      eapply steady_untouched; [|done]. by split.
    + intros [] n1 Hval. apply prog_ret. split; [|split; [done|by eauto 10]].
      eapply steady_untouched; [|done]. by split.
Qed.

(** C11: take a scheduler in phase Running that is stored, created and started, with
    its deployment there under an unchanged selector and with cron jobs that are those of
    some workflows ([steady], [ts_admissible]), and none of whose annotations asks for an
    execution ([no_requests]; with one the reconcile fails).  When every call works, its
    reconcile brings the cron jobs in line with the workflows of the resource, those of
    workflows that it lists no more staying as they are, and replaces the executions that
    its status recorded by one entry for each cron job. *)
Theorem running_rewrites_history ts m w n :
  steady ts m w → phase_of ts = MCPTaskSchedulerPhaseRunning → ts_admissible ts (kube w) → no_requests ts →
  let result := Reconcile env delivered now ParseQuantity rangeEnv Config disableEventWatch jobOrder annotationOrder (w, n) in
  let w' := result.2.1 in
  result.1 = Ok {| Requeue := false; RequeueAfter := duration 120 |} ∧
  sched_ok (schedulerConfig ts) (sched w') ∧
  agrees (schedulerConfig ts) (foldl inForce m (OpSync now <$> TsWorkflows (TsSpec ts))) (sched w') ∧
  ∃ ts', stored w' = Some ts' ∧ alike ts ts' ∧ phase_of ts' = MCPTaskSchedulerPhaseRunning ∧
    TsExecutions (TsStatus ts') = executionOf now <$> scheduledJobs jobOrder (sched w').
Proof.
  intros Hst Hp Hadm Hnone.
  change (wp (Reconcile env delivered now ParseQuantity rangeEnv Config disableEventWatch jobOrder annotationOrder) (w, n)
    (λ r y, r = Ok {| Requeue := false; RequeueAfter := duration 120 |} ∧
      sched_ok (schedulerConfig ts) (sched y.1) ∧
      agrees (schedulerConfig ts) (foldl inForce m (OpSync now <$> TsWorkflows (TsSpec ts))) (sched y.1) ∧
      ∃ ts', stored y.1 = Some ts' ∧ alike ts ts' ∧ phase_of ts' = MCPTaskSchedulerPhaseRunning ∧
        TsExecutions (TsStatus ts') = executionOf now <$> scheduledJobs jobOrder (sched y.1))).
  unfold Reconcile.
  apply prog_bind. unfold fetchTaskScheduler. apply wp_call_works; [done|]. cbn [fst snd].
  rewrite (st_stored _ _ _ Hst). cbn iota. fold (phase_of ts). rewrite decide_False by (by rewrite Hp).
  apply prog_bind, prog_ret. unfold reconcilePhase. fold (phase_of ts). rewrite Hp. cbn [decide].
  do 3 rewrite decide_False by done. rewrite decide_True by done. unfold reconcileRunning.
  apply prog_bind. unfold reconcileDeployment. apply wp_onKube. wp_reconcile.
  { intros e v n1 Hv Hlive. exfalso. apply Hlive. split; [done|]. apply deployment_target_Some. kube_simpl. apply Hadm. }
  intros [] n1 Hv1. kube_simpl.
  match goal with |- wp _ (?x, _) _ => set (w1 := x) end.
  assert (steady ts m w1) as Hst1.
  { destruct Hst as [S1 S2 S3 S4 S5 S6]. split; try done. unfold w1. cbn [kube with_kube deployments at_calls].
    by rewrite lookup_partial_alter, decide_True. }
  apply prog_bind. unfold wp at 1, modify. cbn [fst snd].
  match goal with |- wp _ (?x, _) _ => set (w2 := x) end.
  assert (steady ts m w2) as Hst2 by (eapply steady_untouched; [|exact Hst1]; by split). clearbody w2. clear w1 Hst1.
  apply prog_bind. eapply prog_mono; [by apply updateTaskStatistics_steady|].
  intros r [w3 n3] (Hst3 & counted & -> & Hread & Hph). cbn [fst] in Hst3.
  set (ts1 := match counted with Ok ts1 => ts1 | Err _ => ts end) in *. clearbody ts1.
  apply prog_bind. rewrite decide_True by (by rewrite Hph).
  eapply prog_mono; [by apply (reconcileWorkflows_steady ts)|].
  intros r [w4 n4] (Hst4 & ts2 & -> & Hread2 & Hex & Hph2). cbn [fst] in Hst4, Hex |- *.
  apply prog_bind. eapply prog_mono with (Q := λ (r : res string (MCPTaskScheduler * res string ())) y,
    steady ts (foldl inForce m (OpSync now <$> TsWorkflows (TsSpec ts))) y.1 ∧ sched y.1 = sched w4 ∧
    ∃ ts3 r', r = Ok (ts3, r') ∧ tsKey ts3 = tsKey ts ∧ TsVersion ts3 = TsVersion ts ∧ TsStatus ts3 = TsStatus ts2).
  { destruct (ScalingEnabled _); [by apply handleAutoScaling_steady|]. apply prog_ret. split; [done|]. split; [done|].
    destruct Hread2 as ((E1 & E2 & _) & E3 & _). exists ts2, (Ok ()). unfold tsKey. by rewrite E1, E2. }
  intros r [w5 n5] (Hst5 & Hsched & ts3 & r' & -> & Hkey & Hver & Hstat). cbn [fst] in Hst5, Hsched |- *.
  apply prog_bind, wp_getDeployment.
  { intros w6 e _ _ Hnothing. exfalso. rewrite Hkey in Hnothing. destruct (st_deployment _ _ _ Hst5) as [d Hd].
    by rewrite Hnothing in Hd. }
  intros w6 d Hw6 Hd6 _.
  assert (steady ts (foldl inForce m (OpSync now <$> TsWorkflows (TsSpec ts))) w6) as Hst6.
  { rewrite <-Hw6. eapply steady_untouched; [|exact Hst5]. by split. }
  assert (sched w6 = sched w4) as Hsched6 by by rewrite <-Hw6.
  set (ts4 := if isReady _ then _ else _).
  assert (TsVersion ts4 = TsVersion ts ∧ phase_of ts4 = MCPTaskSchedulerPhaseRunning ∧
    TsExecutions (TsStatus ts4) = TsExecutions (TsStatus ts2)) as (V4 & P4 & X4).
  { assert (phase_of (setReplicas (DeploymentStatus_ (Body d)) ts3) = MCPTaskSchedulerPhaseRunning) as Hp3.
    { unfold phase_of, setReplicas. simpl. rewrite Hstat, Hph2, Hph. exact Hp. }
    unfold ts4. destruct (isReady _); (split; [exact Hver|]; split; [exact Hp3|]; simpl; by rewrite Hstat). }
  clearbody ts4. apply prog_bind, (wp_write env ts); [apply Hst6|done| |].
  { intros e He. by destruct (He (works _)). }
  intros ts' answer Ha Hs Hann [->|[_ He]]; [|by destruct (He (works _))].
  apply prog_ret. cbn [fst]. split; [done|]. destruct Hst6 as [_ _ _ _ O6 A6]. split; [exact O6|]. split; [exact A6|].
  exists ts'. split; [done|]. split; [done|]. unfold phase_of. rewrite Hs. split; [exact P4|].
  rewrite X4, Hex. cbn [sched with_stored]. by rewrite Hsched6.
Qed.
End steady.

(** ** Examples *)
#[local] Existing Instances StoreExamples.plainCodec JobExamples.plainJobs.

Definition exampleSpec (workflows : list Workflow) : TaskSchedulerSpec := {|
  TsImage := ""; TsCommand := []; TsArgs := []; TsEnv := ∅; TsPort := 8018; TsHost := "0.0.0.0";
  TsDatabasePath := "/data/tasks.db"; TsDatabaseURL := ""; TsPostgresEnabled := false; TsLogLevel := "info";
  OpenRouterAPIKey := ""; OpenRouterModel := ""; OllamaURL := ""; OllamaModel := ""; MCPProxyURL := "";
  MCPProxyAPIKey := ""; TsResources := {| Limits := None; Requests := None |}; TsSecurity := None;
  TsReplicas := None; TsNodeSelector := ∅; TsServiceType := ""; TsServiceAnnotations := ∅; TsServiceAccount := "";
  TsImagePullSecrets := []; TsPodAnnotations := ∅; SchedulerSettings := scalingOf 1 50 70 10;
  TsWorkflows := workflows |}.

Definition failedYesterday : StatusExecution := {|
  StatusExecID := "report-1700000000"; StatusWorkflow := "report"; StatusStartTime := 0; StatusEndTime := Some 5;
  StatusDuration := Some 5; StatusExecPhase := "Failed"; StatusExecMessage := "exit code 1"; StepResults := ∅ |}.

Definition exampleStatus (phase : string) : TaskSchedulerStatus := {|
  TsPhase := phase; TsConditions := [];
  TaskStats := {| TotalTasks := 0; CompletedTasks := 0; FailedTasks := 0; RunningTasks := 0; ScheduledTasks := 0;
                  LastTaskTime := "" |};
  WorkflowStats := {| TotalWorkflows := 0; CompletedWorkflows := 0; FailedWorkflows := 0; RunningWorkflows := 0;
                      LastWorkflowTime := "" |};
  TsExecutions := [failedYesterday]; TsReplicaCount := 0; TsReadyReplicas := 0 |}.

Definition exampleScheduler (phase : string) (annotations : gmap string string) : MCPTaskScheduler := {|
  TsName := "task-scheduler"; TsNamespace := "matey"; TsUID := "u1"; TsAnnotations := annotations; TsVersion := 7;
  TsSpec := exampleSpec [greeter "report" "0 2 * * *"]; TsStatus := exampleStatus phase |}.

Definition anyOrder {V} (m : gmap string V) : list string := (map_to_list m).*1.

Definition noObjects : Cluster () () := {|
  deployments := ∅; services := ∅; secrets := ∅; configMaps := ∅; Kube.claims := ∅; resources := ∅; calls := 0 |}.

(** A scheduler with a cron job of a workflow that its resource lists no more. *)
Definition oldSync : SchedWorld MapCron :=
  runSchedOp (schedulerConfig (exampleScheduler "" ∅)) (OpSync 0 (greeter "old" "0 1 * * *"))
    (newScheduler JobExamples.emptyCluster emptyDatabase None).

Definition runningSched : SchedWorld MapCron :=
  {| engine := engine oldSync; handlers := handlers oldSync; cluster := cluster oldSync; database := database oldSync;
     resource := None; monitors := []; watching := 1; schedStarted := true |}.

Definition exampleWorld (phase : string) (annotations : gmap string string) (c : Cluster () ()) : TsWorld MapCron :=
  {| kube := c; stored := Some (exampleScheduler phase annotations); sched := runningSched; created := true;
     watchers := None |}.

Definition deployed (ready : Z) : Cluster () () :=
  let d := tsDeployment Some map_to_list None (exampleScheduler "" ∅) in
  {| deployments := {[ ("matey", "task-scheduler") :=
       {| Meta := Meta d; Body := {| DeploymentSpec_ := DeploymentSpec_ (Body d);
            DeploymentStatus_ := {| StatusReplicas := 1; ReadyReplicas := ready |} |} |} ]};
     services := ∅; secrets := ∅; configMaps := ∅; Kube.claims := ∅; resources := ∅; calls := 0 |}.

Notation exampleReconcile := (Reconcile allWork (λ _, None) 9 Some map_to_list None true anyOrder anyOrder).

Lemma scheduler_phases_safe_witness :
  ∃ ts', phase_of ts' = "Starting" ∧
    ts_provisioned Some map_to_list None (exampleScheduler "Creating" ∅)
      (kube (exampleReconcile (exampleWorld "Creating" ∅ noObjects, 0%nat)).2.1).
Proof.
  destruct (scheduler_phases_safe allWork (λ _, None) 9 Some map_to_list None true anyOrder anyOrder
    (exampleScheduler "Creating" ∅) (exampleWorld "Creating" ∅ noObjects) 0 eq_refl) as (ts' & I1 & _ & _ & I2 & _).
  assert (phase_of <$> stored (exampleReconcile (exampleWorld "Creating" ∅ noObjects, 0%nat)).2.1 = Some "Starting") as Hp
    by by vm_compute.
  rewrite I1 in Hp. injection Hp as Hp. exists ts'. split; [exact Hp|]. by apply I2.
Defined.

Lemma scheduler_comes_up_witness :
  ts_provisioned Some map_to_list None (exampleScheduler "" ∅)
    (kube (reconciled allWork (λ _, None) 9 Some map_to_list None true anyOrder anyOrder 2
      (exampleWorld "" ∅ noObjects, 0%nat)).1).
Proof.
  apply (scheduler_comes_up allWork (λ _, None) 9 Some map_to_list None true anyOrder anyOrder (λ _, eq_refl)
    (exampleScheduler "" ∅) (exampleWorld "" ∅ noObjects) 0 eq_refl).
  - intros d Hd. discriminate Hd.
  - apply (bool_decide_eq_true_1 _). vm_compute. reflexivity.
Defined.

Lemma example_steady annotations :
  steady (exampleScheduler "Running" annotations) {[ "old" := "0 1 * * *" ]} (exampleWorld "Running" annotations (deployed 1)).
Proof.
  destruct (newScheduler_ok (schedulerConfig (exampleScheduler "" ∅)) JobExamples.emptyCluster emptyDatabase None) as [Hok Ha].
  destruct (runSchedOp_ok (schedulerConfig (exampleScheduler "" ∅)) (OpSync 0 (greeter "old" "0 1 * * *")) _ _ Hok Ha) as [Hok' Ha'].
  split; [done|done|done|by eexists|by apply (sched_ok_same (schedulerConfig (exampleScheduler "" ∅)) oldSync)
    |by apply (agrees_same (schedulerConfig (exampleScheduler "" ∅)) _ oldSync)].
Qed.

(** The failure of yesterday is gone; the workflow that is not listed is still to run. *)
Lemma running_rewrites_history_witness :
  ∃ ts', stored (exampleReconcile (exampleWorld "Running" ∅ (deployed 1), 0%nat)).2.1 = Some ts' ∧
    (λ x, (StatusWorkflow x, StatusExecPhase x)) <$> TsExecutions (TsStatus ts') =
      [("old", "Pending"); ("report", "Pending")].
Proof.
  destruct (running_rewrites_history allWork (λ _, None) 9 Some map_to_list None true anyOrder anyOrder (λ _, eq_refl)
    (exampleScheduler "Running" ∅) {[ "old" := "0 1 * * *" ]} (exampleWorld "Running" ∅ (deployed 1)) 0)
    as (_ & _ & _ & ts' & I1 & _ & _ & I2).
  - apply example_steady.
  - reflexivity.
  - intros d Hd. vm_compute in Hd. injection Hd as <-. reflexivity.
  - by vm_compute.
  - exists ts'. split; [exact I1|]. rewrite I2. vm_compute. reflexivity.
Defined.

(** Asked to run a workflow, the controller makes its job, and removes the request; so the
    status cannot be written, and the reconcile fails. *)
Definition asked : gmap string string := {["mcp.matey.ai/manual-execution-report" := "now"]}.

Example request_costs_the_status :
  let '(r, (w, _)) := exampleReconcile (exampleWorld "Running" asked (deployed 1), 0%nat) in
  r = Err "the object has been modified" ∧ size (WorkflowJobs.jobs (cluster (sched w))) = 1%nat ∧
  (TsAnnotations <$> stored w) = Some ∅ ∧ ((λ ts, TsExecutions (TsStatus ts)) <$> stored w) = Some [failedYesterday].
Proof. vm_compute. done. Qed.

(** The annotation that says when an execution was asked for is itself taken for a request,
    of a workflow "requested". *)
Example requested_is_a_request :
  workflowNamed "requested" (exampleScheduler "Running" ∅) = None ∧
  TrimPrefix "mcp.matey.ai/manual-execution-requested" manualPrefix = "requested".
Proof. vm_compute. done. Qed.

(** The scaling does not change the deployment, which does not use the configuration that it
    writes. *)
Example scaling_is_not_seen n :
  let ts := exampleScheduler "Running" ∅ in
  tsDeployment Some map_to_list None (setMaxConcurrentTasks n ts) = tsDeployment Some map_to_list None ts ∧
  (Source <$> Volumes (buildPodSpec Some map_to_list None ts)) = [HostPath "/home/phil/dev/m8e"].
Proof. by split. Qed.

(** Once its deployment is gone a scheduler that is starting stays so. *)
Example starting_stuck :
  let '(r, (w, _)) := exampleReconcile (exampleWorld "Starting" ∅ noObjects, 0%nat) in
  r = Ok Done ∧ phase_of <$> stored w = Some "Starting" ∧ deployments (kube w) = ∅.
Proof. vm_compute. done. Qed.

(** A resource that is deleted has no finalizer: nothing is stopped. *)
Example deleted_runs_on :
  let w := exampleWorld "Running" ∅ (deployed 1) in
  let deleted := with_stored None (with_watchers (Some (watchEvents [TriggerExamples.failing])) w) in
  let '(r, (w', _)) := exampleReconcile (deleted, 0%nat) in
  r = Ok Done ∧ created w' = true ∧ length <$> watchers w' = Some 1%nat ∧
  CronEngine.jobs (engine (sched w')) = CronEngine.jobs (engine (sched w)).
Proof. vm_compute. done. Qed.
